(* ===== verification/_CoqProject ===== *)
-Q . S2P
Prelude.v
Bytes.v
Text.v
Cbor.v
Bip39Words.v
Base32.v
Totp.v
Pairing.v
SeedPhrase.v
RecoveryBackup.v
Effects.v
StoreError.v
Account.v
Search.v
RevisionGraph.v
SessionPolicy.v
Database.v
AccountOps.v
Payload.v
IdentityOps.v
Hydrate.v
ChainIngest.v
PublishQueue.v
ChainAdapter.v
Sync.v
Resolve.v
MultiDevice.v
Escrow.v
KeyStore.v
Rekey.v
Lifetime.v
TypedData.v
ChainSubmit.v
RateLimit.v
Funder.v
FunderFacts.v
ChainSync.v
ChainSyncFacts.v
Kdbx.v
KdbxXml.v
KdbxMap.v
KdbxImport.v
Registries.v
Export.v
VaultExport.v
Pwgen.v
