(* ===== verification/Prelude.v ===== *)
(** * Pangolin: a verification library

    Pangolin is a password manager whose vault is an encrypted SQLite file on
    each device.  Every edit of an account is a new revision that names its
    parent; revisions are published to a contract on a public chain and pulled
    from it by the other devices, so the revisions of an account form a forest
    that can fork.  This library models the parts of the Rust workspace that
    decide what the user sees, what is written and what is sent.

    ** The parts and how they interact

    - [Prelude] (this file): results, a state-and-error monad [op] for methods
      on [&mut self], Hoare-style lemmas ([preserves], [moves]) with their
      tactics, fixed-width integers, time, sorting.
    - [Bytes]: big-endian integers, slices, UTF-8, fixed layouts and the bit
      buffer that regroups bytes; [Text]: the functions of Rust's standard
      library on UTF-8 texts; [Cbor]: the class of CBOR header codecs, the
      readers of crates/pangolin-store over it and what they read back.
    - [Totp]: crates/pangolin-totp.  [Account]: the limits, drafts and patches of
      crates/pangolin-store/src/account.rs.  [Payload]: blob.rs, the sealed
      payloads of revisions in all their generations.
    - [Search]: search.rs, the projections, the query, the in-memory index with
      its two tables, and the search of the decrypted cache.
    - [Base32], [Pairing]: the text forms and the pairing payload of
      crates/pangolin-core/src/pairing_transport.rs.  [Bip39Words],
      [SeedPhrase], [RecoveryBackup]: crates/pangolin-store/src/recovery_backup.rs,
      the seed phrases and the sealed backup with its header, body and both
      forms, and the key-derivation floor of crates/pangolin-crypto/src/kdf.rs.
    - [Effects]: asynchronous code as programs over calls with arbitrary
      answers, and the rules for protocols on the calls of one program and of
      a pool of interleaved ones.
    - [StoreError]: crates/pangolin-store/src/error.rs.
    - [RevisionGraph]: crates/pangolin-store/src/revision.rs.  The graph built
      from an account's rows: the duplicate check, the breadth-first build with
      its cycle check, heads, canonical head, ancestors, common ancestor.
    - [SessionPolicy]: crates/pangolin-store/src/session.rs and the session
      gate of vault.rs.  A [Vault] is the session state, the secrets that
      exist only while it is active ([ActiveState]), and a database; a [World]
      adds the presence proof a call borrows and the number of clock readings
      so far.  [unlock], [lock], the freshness checks, the presence
      deduplication, [set_session_idle], [reveal_secret_field],
      [with_session].  The gate reads the database only through the class
      [AccountTable]; a proof is anything of class [PresenceProof] or
      [IdentityProof].
    - [Database]: the tables of crates/pangolin-store/src/schema.rs the
      operations use, as finite maps from primary keys, the shared SQL
      statements, and the head query.  It implements [AccountTable].
    - [AccountOps]: [add_account], [update_account], [delete_account],
      [resolve_fork], [clear_frozen] and the reads of vault.rs, each the whole
      handler: gates, refusals, transaction, caches, touch.
    - [IdentityOps]: the V1 calls of vault.rs on whole identities
      ([account_add], [account_update], summaries, search, history, status, the
      reveals, one-time codes), over [Account] and [AccountOps].
    - [Hydrate]: what an unlock builds from the rows (decode_head_row,
      hydrate_account_into_state, build_active_state_data): the cache, the
      index and the accounts that need an upgrade.
    - [ChainIngest]: [ingest_chain_revision] with its three idempotency checks,
      the pending and finalized status with roll-back and promotion, the V2
      honor gate and the retroactive revocation pass, the sync checkpoints
      (vault.rs, multi_device.rs).
    - [PublishQueue]: the dirty markers, coalescing, the batch window
      (vault.rs, dirty.rs, publish.rs).
    - [ChainAdapter]: the adapter trait of crates/pangolin-chain/src/adapter.rs
      as a class, the laws its clients rely on ([ChainLog]), and the in-memory
      chain of mock.rs, which satisfies them.
    - [Sync]: [publish_one], [publish_all_for_vault] (publish.rs),
      [flush_publish_queue] (vault.rs) and [pull_all] (apps/cli/src/sync.rs),
      over any adapter.
    - [Resolve]: the stash of pending merges (vault.rs) and [resolve_one] of
      apps/cli/src/sync.rs, the resolution that publishes a merge revision.
    - [MultiDevice]: the authorized-set fold and survivor resolution of
      crates/pangolin-core/src/device_add.rs, the signer directory and the
      rotation-pending rows of multi_device.rs, the removal trigger.
    - [Escrow]: the wrappers of the vault key, the guardian escrow and the
      pairing seal of crates/pangolin-crypto (aead.rs, keys.rs, escrow.rs,
      pairing.rs) and the drivers of crates/pangolin-core (recovery/,
      rotation.rs), over the class [Primitives] of third-party operations.
    - [KeyStore]: the tables that hold wrapped keys, with their writers and
      checking readers (meta.rs, vdk_chain.rs, recovery_escrow.rs,
      recovery_recipient.rs and the key rows of device.rs).
    - [Rekey]: creation, opening and the key steps of [unlock]; recovery,
      rotation and pairing as transactions on [KeyStore]; the escrow handlers of
      vault.rs; composition.rs.  It instantiates the parameters of
      [SessionPolicy]'s [unlock].
    - [Lifetime]: the calls of [SessionPolicy] and of [Rekey] together, in any
      order, and what holds of the session over such a history.
    - [TypedData]: the EIP-712 messages of crates/pangolin-chain (v1 and v2
      revisions, device authorisations, redemptions, approvals, credits), their
      digests, signing and recovery, and the chain errors.
    - [ChainSubmit]: the submit paths of chain_submit.rs with their retry loop,
      and the balance gate of balance_check.rs.
    - [RateLimit], [Funder]: services/funder, its limiter, payment ledger,
      top-up handler and restart scan, and the service as interleaved tasks;
      the device binding of crates/pangolin-funder-client.  [FunderFacts] has
      the theorems.
    - [ChainSync]: [sync_from_chain] of vault.rs, both its paths, with the chunk
      readers, the reorg detector, the web socket and the authorized-set read of
      crates/pangolin-chain.  [ChainSyncFacts] has the theorems.
    - [Kdbx], [KdbxXml], [KdbxMap]: crates/pangolin-kdbx.  The KeePass container
      of versions 3 and 4 (header, key derivation, blocks, inner stream), the
      walk of its XML, the mapping of its entries, and the writer of the tests.
      [KdbxImport]: the import of the mapped entries, of apps/cli and
      crates/pangolin-ffi, over [IdentityOps].
    - [Registries]: the capture authorities (capture_authority.rs) and the list
      of devices (device.rs), with their methods on the vault.
    - [Export]: crates/pangolin-store/src/export.rs, the sealed archive of a
      vault and the cleartext dump.  [VaultExport]: the export methods of
      vault.rs over [IdentityOps] and [Registries], and [restore_to_new_vault],
      which composes [create], [open_vault] and [unlock] of [Rekey] with
      [account_add] and [account_update].
    - [Pwgen]: crates/pangolin-core/src/pwgen.rs, the password generator over a
      source of indices, which lists of bytes and lists of draws both are.

    An edit passes the gate of [SessionPolicy], runs a transaction of
    [AccountOps] on the tables of [Database], and leaves a marker for
    [PublishQueue]; [Sync] turns markers into submissions through
    [ChainAdapter] and events into rows through [ChainIngest]; a foreign row
    freezes its account until a resolution of [AccountOps] or [Resolve]; [MultiDevice]
    says whose events are honored.  [ChainSync] is the production pull: it
    drives [ChainIngest] and the checkpoints of [Database] from the answers of
    a node.  [Funder] pays for a device's transactions and submits through
    [ChainSubmit] what [TypedData] signs.

    ** What the theorems show

    Session: over all sequences of calls, rotations and recoveries among them,
    secrets are in memory only while the session is active, and then unless a
    rotation has failed since the unlock; no operation that checks the deadline
    succeeds more than four hours after an unlock; the conditions of a reveal
    and of an unlock, and that shortening the idle window revives an expired
    session.  Graph: what a build returns on every
    input, that it does not depend on the order of the rows, that its heads
    are the live leaves and its ancestor walks end.  Tables: the SQL head
    query returns exactly the graph's heads; edits add one revision on the old
    head or change nothing; a resolution leaves one head; ids are never
    reused; reads of rows from before a key rotation fail on one path.  Chain:
    ingestion never rewrites a revision, is idempotent and freezes; revocation
    follows the recovered signer in both directions; the reorg window deletes
    exactly the shallow pending rows, and a re-ingested row becomes one;
    checkpoints only move forward and never run ahead of what was ingested.
    Publishing: the report of a run is exactly what happened to the tables; a
    revision whose submission is on the chain is not submitted again while
    the pull still covers it, and is once it does not; a flush without funds
    submits nothing; coalescing keeps exactly the head markers, which loses a
    branch when the head has none.  Resolution on the command line: what each
    answer of [resolve_one] says about the chain and the freeze, that a run that
    was cut off is repeated with the same signed bytes while its stash is there,
    and the two ways it leaves an account behind that this device cannot open.
    Keys: the guardians of an escrow, [threshold] of them, give back exactly
    the escrowed key and nobody else does; a rotation seals the new key to the
    surviving devices only; a new vault opens with its password only, and loads
    the device key of its first unlock ever after, unless a sync brings an
    earlier device; after its first rotation or a recovery it opens with the new
    password; a rekey happens entirely
    or not at all; and the two ways a vault ends that no password opens: a
    second rekey after a rotation, and a recovery onto a device that was used
    before.  Devices: the set fold keeps the last word
    on each signer; the trigger queues exactly the detected removals, once,
    and so never a second removal.  Sync: whatever the node answers and
    wherever a sync is interrupted, its requests are consecutive and, when the
    node is on one chain, every event the checkpoint passed is in the tables;
    a completed V2 sync leaves only authorized signers' rows honored, and a
    failure of any call of the read of the set ends it with the error of that
    call and changes nothing; an undisturbed sync completes;
    a restart from genesis is refused and a web-socket event skips blocks.
    Signing: equal digests mean equal messages, what is signed recovers to its
    signer and has no accepted twin.  Submission and funder: what the submit
    paths may hand to a node and how often; over all interleavings, drops and
    restarts the wei paid for a device is bounded by its ledger rows, each
    behind a signed credit and a mined redemption; what each response says of
    the ledger; every task ends; the two ways a payment happens twice.
    Accounts: what a draft or a patch leads to is within the limits; every such
    identity and every tombstone is read back from its sealed payload, under its
    own associated data only; each generation of the payload is read as
    documented, and whatever is read has usable one-time-password parameters;
    the codes are those of RFC 6238, base32 is accepted exactly, and an accepted
    secret works.  An edited identity reads back as the patched one; a session
    whose cache, index and upgrade marks are those an unlock would build keeps
    them so through every edit; an unlock shows each account as its canonical
    head decodes.  The index implements a map from accounts to projections; a
    search finds the accounts that contain all its words, and past the limit the
    best of them, or fails with the error of the database.
    Formats: a pairing text is one payload's and a payload has one text; which
    texts the checksummed decoder takes for which bytes; a sealed backup opens
    to its contents or, when they exceed the decoder's limits, to an error; the
    header parser accepts exactly what the writer writes within the clamps;
    hostile input neither aborts the process nor drives the key derivation
    outside its bounds; seed phrases are those of BIP-39 and keep the entropy.
    KeePass: the key derivation that a file asks for before anything of it is
    authenticated is bounded; a version 4 payload is decrypted from exactly the
    tagged blocks of its header; what the writer writes is read back as it was
    given, with the writer's own formulas for keys and tags; a mapped entry fits
    the limits of the store unless it has a control character or an address that
    does not parse, and its import ends with its current password in front,
    whatever became of the older ones.
    Export: an archive opens to what was sealed, within the limits of the
    decoder, and to nothing under changed bytes; an export holds exactly the
    selected live accounts; a restored vault opens with the new password and
    has the archived accounts and no others.  Registries: what a registration
    adds, keeps, replaces or refuses, and that it reads back.  Passwords: the
    number of draws of the generator that give each password, which is positive
    exactly for those with a character of each class, and not the same for all;
    and that the byte strings it draws from are in proportion, so that rejection
    leaves no bias.

    ** Conventions, bounds and fuel

    Identifiers, hashes, keys and nonces of 32 or 24 bytes are the integers of
    their big-endian bytes ([lex_compare_be_value] relates the two orders);
    machine integers are [Z] with the conversions and saturations of the
    source.  Clock readings are arbitrary streams, so nothing depends on the
    clock being monotonic unless stated.  A Rust hash map is a finite map, and
    an enumeration of one is some order of it.  The breadth-first build runs
    with fuel one more than the number of rows, the ancestor walks with the
    number of revisions, [pull_all] with the number of blocks between start
    and head; in each case a theorem shows that the fuel is never exhausted.
    [add_account] retries four times, as the source does.  The backfill and
    the scan of the authorized set run with one more than the chunks between
    start and head; the web-socket loop ends at a deadline of the clock, so
    [rounds] is how many times the clock is read before it has passed, and the
    theorems hold for every [rounds].  The rejection sampling of [Pwgen] reads
    a list of bytes, enough when as many of them as there are draws are below
    128.  The submit paths need no fuel: the retry
    loop is bounded by the source, and a top-up makes at most 53 calls, a
    resumed row at most 46.  The loops over a KeePass file (fields of the two
    headers, entries of the dictionary, blocks) take at least a byte each round
    and have one more than the bytes there are; more fuel changes no result.

    Outside the library, and therefore parameters of the operations that use
    them: AEAD, Argon2, SHA-256, keccak-256, signatures, curve signing and key
    recovery; the encoder and decoder of one CBOR header (the class [Cbor], for
    which [rfc8949] is an instance); HMAC, Unicode normalisation and case, the
    URL parser, the full-text engine (the rank of a row, or an error; what it
    accepts of an ordinary query is a hypothesis) and whether LIKE takes a
    pattern; key derivation by HKDF, the sealed box and the secret sharing (the class [Primitives], for which
    [EscrowSample.toy] is an instance), the ciphers, hashes, base64 and gzip of
    KeePass files (the class [KdbxPrims] with [KdbxLaws], for which
    [KdbxSample.toy] is an instance), the XML tokeniser ([XmlReader]), the random generator (a stream of draws,
    about which nothing is assumed); SQLite's I/O faults; the
    domain separator of alloy, the recorded contract addresses, the decoded
    fields of a log, and every answer of a node.

    ** Not modelled

    The choice between chain sync and fast sync, the conflict view, the
    transport of shares, native messaging, the indexer and the contract clients of the recovery: each is I/O around
    calls modelled here, or a component of its own that nothing here depends
    on.  The estimate of a typed password's strength is a third-party
    library.  The schema migrations are SQL.  Bindings, user interfaces and the
    contracts are outside the scope of the library. *)

From Stdlib Require Export ZArith Lia.
From stdpp Require Export base tactics option list gmap sets strings sorting relations.

#[global] Open Scope Z_scope.
Set Default Goal Selector "!".

(** ** Results

    Rust's [Result<T, E>]; [mbind] is the [?] operator. *)

Inductive result (E A : Type) : Type :=
| Ok (a : A)
| Err (e : E).
Arguments Ok {E A} a.
Arguments Err {E A} e.

#[export] Instance result_ret {E} : MRet (result E) := fun A a => Ok a.
#[export] Instance result_bind {E} : MBind (result E) :=
  fun A B f r => match r with Ok a => f a | Err e => Err e end.

#[export] Instance result_eq_dec {E A} `{EqDecision E, EqDecision A} :
  EqDecision (result E A).
Proof. solve_decision. Defined.

(** How a call that may panic or abort the process can end without a value. *)
Inductive failure (E : Type) : Type :=
| Abort
| Failed (e : E).
Arguments Abort {E}.
Arguments Failed {E} e.

(** [Result::map_err] and [Option::ok_or]. *)
Definition map_err {E F A} (f : E -> F) (r : result E A) : result F A :=
  match r with Ok a => Ok a | Err e => Err (f e) end.

Definition ok_or {E A} (o : option A) (e : E) : result E A :=
  match o with Some a => Ok a | None => Err e end.

Definition is_ok {E A} (r : result E A) : bool :=
  match r with Ok _ => true | Err _ => false end.

(** [Iterator::collect] into a [Result]: the values, or the first error. *)
Fixpoint collect {E A} (l : list (result E A)) : result E (list A) :=
  match l with
  | [] => Ok []
  | r :: rest => a ← r; k ← collect rest; Ok (a :: k)
  end.

Lemma collect_Forall2 {E A B} (f : A -> result E B) l k :
  collect (f <$> l) = Ok k <-> Forall2 (fun x y => f x = Ok y) l k.
Proof.
  revert k; induction l as [|x l IH]; intros k; csimpl.
  { split; [intros [= <-]; constructor|by inversion 1]. }
  unfold mbind, result_bind in *. split.
  - destruct (f x) as [y|err] eqn:Exx; [|done].
    destruct (collect (f <$> l)) as [k'|err] eqn:Exc; [|done]. intros [= <-].
    constructor; [done|by apply IH].
  - inversion 1 as [|? y ? k' Hy Hk]; subst. rewrite Hy. apply IH in Hk. by rewrite Hk.
Qed.

(** ** Stateful fallible code

    A method taking [&mut self] and returning [Result]: the state is kept on
    the error path too, as the mutations made before a [?] are. *)

Definition op (S E A : Type) : Type := S -> result E A * S.

#[export] Instance op_ret {S E} : MRet (op S E) := fun A a s => (Ok a, s).
#[export] Instance op_bind {S E} : MBind (op S E) :=
  fun A B f m s =>
    match m s with
    | (Ok a, s') => f a s'
    | (Err e, s') => (Err e, s')
    end.

Definition gets {S E A} (f : S -> A) : op S E A := fun s => (Ok (f s), s).
Definition modify {S E} (f : S -> S) : op S E unit := fun s => (Ok tt, f s).
Definition throw {S E A} (e : E) : op S E A := fun s => (Err e, s).
Definition lift {S E A} (r : result E A) : op S E A := fun s => (r, s).
Definition when {S E} (b : bool) (m : op S E unit) : op S E unit :=
  if b then m else mret tt.

Lemma op_bind_Ok {S E A B} (m : op S E A) (f : A -> op S E B) s b s' :
  (m ≫= f) s = (Ok b, s') -> exists a s1, m s = (Ok a, s1) /\ f a s1 = (Ok b, s').
Proof. unfold mbind, op_bind. destruct (m s) as [[a|e] s1] eqn:E1; naive_solver. Qed.

Lemma op_bind_Err {S E A B} (m : op S E A) (f : A -> op S E B) s e s' :
  (m ≫= f) s = (Err e, s') ->
  m s = (Err e, s') \/ exists a s1, m s = (Ok a, s1) /\ f a s1 = (Err e, s').
Proof. unfold mbind, op_bind. destruct (m s) as [[a|e'] s1] eqn:E1; naive_solver. Qed.

Lemma op_bind_eq {S E A B} (m : op S E A) (f : A -> op S E B) s :
  (m ≫= f) s = match m s with (Ok a, s1) => f a s1 | (Err e, s1) => (Err e, s1) end.
Proof. done. Qed.

Lemma op_bind_run {S E A B} (m : op S E A) (f : A -> op S E B) s a s1 :
  m s = (Ok a, s1) -> (m ≫= f) s = f a s1.
Proof. unfold mbind, op_bind. by intros ->. Qed.

Lemma op_bind_fail {S E A B} (m : op S E A) (f : A -> op S E B) s e s1 :
  m s = (Err e, s1) -> (m ≫= f) s = (Err e, s1).
Proof. unfold mbind, op_bind. by intros ->. Qed.

(** [iter.map(f).collect::<Result<Vec<_>, _>>()] *)
Lemma mapM_Ok {E A B} (f : A -> result E B) l k : mapM f l = Ok k -> Forall2 (fun x y => f x = Ok y) l k.
Proof.
  revert k. induction l as [|x l IH]; intros k H; simpl in H; [injection H as <-; constructor|].
  destruct (f x) as [y|] eqn:Ey; [|done]. destruct (mapM f l) as [ys|] eqn:Eys; [|done]. injection H as <-.
  constructor; [done|by apply IH].
Qed.

(** *** Hoare triples for [op]

    [triple P m Q R]: from a state in [P] the code ends in [Q] with its value
    or in [R] with its error. *)
Definition triple {S E A} (P : S -> Prop) (m : op S E A)
    (Q : A -> S -> Prop) (R : E -> S -> Prop) : Prop :=
  forall s, P s -> match m s with (Ok a, s') => Q a s' | (Err e, s') => R e s' end.

(** [preserves I m]: [m] keeps the invariant whatever it returns. *)
Definition preserves {S E A} (I : S -> Prop) (m : op S E A) : Prop :=
  triple I m (fun _ => I) (fun _ => I).

Lemma preserves_run {S E A} (I : S -> Prop) (m : op S E A) s r s' :
  preserves I m -> I s -> m s = (r, s') -> I s'.
Proof. intros Hp Hs Hm. specialize (Hp s Hs). rewrite Hm in Hp. by destruct r. Qed.

Lemma preserves_bind {S E A B} (I : S -> Prop) (m : op S E A) (f : A -> op S E B) :
  preserves I m -> (forall a, preserves I (f a)) -> preserves I (m ≫= f).
Proof.
  intros Hm Hf s Hs. unfold mbind, op_bind. specialize (Hm s Hs).
  destruct (m s) as [[a|e] s1]; [|done]. by apply Hf.
Qed.

Lemma preserves_ret {S E A} (I : S -> Prop) (a : A) : preserves I (mret a : op S E A).
Proof. by intros s Hs. Qed.
Lemma preserves_gets {S E A} (I : S -> Prop) (f : S -> A) : preserves I (gets f : op S E A).
Proof. by intros s Hs. Qed.
Lemma preserves_throw {S E A} (I : S -> Prop) (e : E) : preserves I (throw e : op S E A).
Proof. by intros s Hs. Qed.
Lemma preserves_lift {S E A} (I : S -> Prop) (r : result E A) : preserves I (lift r : op S E A).
Proof. intros s Hs. by destruct r. Qed.
Lemma preserves_modify {S E} (I : S -> Prop) (f : S -> S) :
  (forall s, I s -> I (f s)) -> preserves I (modify f : op S E unit).
Proof. intros Hf s Hs. by apply Hf. Qed.
Lemma preserves_when {S E} (I : S -> Prop) b (m : op S E unit) :
  preserves I m -> preserves I (when b m).
Proof. intros Hm. destruct b; [done|apply preserves_ret]. Qed.

(** *** Relations between the state before and after

    [moves R m]: every run of [m], failed ones included, relates its states
    by [R]. *)
Definition moves {S E A} (R : relation S) (m : op S E A) : Prop := forall s, R s (m s).2.

Section moves.
Context {S E : Type} (R : relation S) `{!PreOrder R}.

Lemma moves_ret {A} (a : A) : moves R (mret a : op S E A).
Proof using PreOrder0. intros s. by simpl. Qed.
Lemma moves_gets {A} (f : S -> A) : moves R (gets f : op S E A).
Proof using PreOrder0. intros s. by simpl. Qed.
Lemma moves_throw {A} (e : E) : moves R (throw e : op S E A).
Proof using PreOrder0. intros s. by simpl. Qed.
Lemma moves_lift {A} (r : result E A) : moves R (lift r : op S E A).
Proof using PreOrder0. intros s. by simpl. Qed.
Lemma moves_modify (f : S -> S) : (forall s, R s (f s)) -> moves R (modify f : op S E unit).
Proof. intros Hf s. apply Hf. Qed.
Lemma moves_bind {A B} (m : op S E A) (f : A -> op S E B) :
  moves R m -> (forall a, moves R (f a)) -> moves R (m ≫= f).
Proof using PreOrder0.
  intros Hm Hf s. unfold mbind, op_bind. specialize (Hm s).
  destruct (m s) as [[a|e] s1]; simpl in *; [|done]. etrans; [done|apply Hf].
Qed.
Lemma moves_when b (m : op S E unit) : moves R m -> moves R (when b m).
Proof using PreOrder0. intros Hm. destruct b; [done|apply moves_ret]. Qed.
End moves.

(** ** Fixed-width integers

    A machine integer is the [Z] it denotes; conversions that can fail are
    the checked ones of the source ([i64::try_from] and friends). *)

Definition U8_MAX : Z := 255.
Definition U16_MAX : Z := 65535.
Definition U32_MAX : Z := 4294967295.
Definition U64_MAX : Z := 18446744073709551615.
Definition I64_MAX : Z := 9223372036854775807.
Definition I64_MIN : Z := -9223372036854775808.
Definition U128_MAX : Z := 340282366920938463463374607431768211455.

Definition in_range (lo hi x : Z) : bool := (lo <=? x) && (x <=? hi).

Definition try_from (lo hi x : Z) : option Z :=
  if in_range lo hi x then Some x else None.

Definition u8_try_from : Z -> option Z := try_from 0 U8_MAX.
Definition u16_try_from : Z -> option Z := try_from 0 U16_MAX.
Definition u32_try_from : Z -> option Z := try_from 0 U32_MAX.
Definition u64_try_from : Z -> option Z := try_from 0 U64_MAX.
Definition i64_try_from : Z -> option Z := try_from I64_MIN I64_MAX.

(** [a.saturating_add(b)] on an unsigned type with maximum [hi], and
    [a.saturating_sub(b)] on any unsigned type. *)
Definition saturating_add (hi a b : Z) : Z := Z.min hi (a + b).
Definition saturating_sub (a b : Z) : Z := Z.max 0 (a - b).

(** ** Time

    [SystemTime] and [Instant] are nanoseconds on one time line, [Duration]
    is a non-negative count of nanoseconds. *)

Definition NANOS_PER_SEC : Z := 1000000000.
Definition from_secs (s : Z) : Z := s * NANOS_PER_SEC.
Definition as_secs (d : Z) : Z := d / NANOS_PER_SEC.

(** [now.duration_since(t).unwrap_or(Duration::ZERO)] for [SystemTime], and
    [now.duration_since(t)] for [Instant] (which saturates). *)
Definition duration_since (now t : Z) : Z := Z.max 0 (now - t).

(** The largest representable [SystemTime]: a signed 64-bit count of seconds
    and a nanosecond part, as on the Unix targets. *)
Definition SYSTEM_TIME_MAX : Z := I64_MAX * NANOS_PER_SEC + (NANOS_PER_SEC - 1).

Definition checked_add (t d : Z) : option Z :=
  if t + d <=? SYSTEM_TIME_MAX then Some (t + d) else None.

(** ** Sorting by a key that identifies the element *)

Section sort_by_key.
Context {A : Type} (R : relation A) `{!RelDecision R}.
Context {R_total : Total R} {R_trans : Transitive R} {R_anti : AntiSymm (=) R}.

Lemma merge_sort_sorted (l : list A) : StronglySorted R (merge_sort R l).
Proof using R_total R_trans. by apply StronglySorted_merge_sort. Qed.

Lemma merge_sort_perm_eq (l k : list A) :
  l ≡ₚ k -> merge_sort R l = merge_sort R k.
Proof using R_total R_trans R_anti.
  intros Hp. apply (StronglySorted_unique R); auto using merge_sort_sorted.
  by rewrite !merge_sort_Permutation.
Qed.

Lemma elem_of_merge_sort (l : list A) x : x ∈ merge_sort R l <-> x ∈ l.
Proof. by rewrite merge_sort_Permutation. Qed.

Lemma NoDup_merge_sort (l : list A) : NoDup (merge_sort R l) <-> NoDup l.
Proof. by rewrite merge_sort_Permutation. Qed.
End sort_by_key.

(** The lexicographic order on pairs of integers: the [Ord] of a Rust tuple
    [(i64, [u8; 32])], a 32-byte array being the 256-bit integer its
    big-endian bytes denote. *)
Definition pair_le (p q : Z * Z) : Prop :=
  p.1 < q.1 \/ (p.1 = q.1 /\ p.2 <= q.2).

#[export] Instance pair_le_dec : RelDecision pair_le.
Proof. intros p q. unfold pair_le. apply _. Defined.

#[export] Instance pair_le_trans : Transitive pair_le.
Proof. intros [] [] []; unfold pair_le; simpl; lia. Qed.

#[export] Instance pair_le_total : Total pair_le.
Proof. intros [] []; unfold pair_le; simpl; lia. Qed.

Lemma pair_le_antisymm p q : pair_le p q -> pair_le q p -> p = q.
Proof. destruct p, q; unfold pair_le; simpl; intros; f_equal; lia. Qed.

(** Byte-array order: on arrays of equal length the lexicographic order of
    the bytes is the order of the big-endian integers they denote, which is
    why the development uses the integer for a 32-byte identifier. *)
Fixpoint be_value (bs : list Z) : Z :=
  match bs with
  | [] => 0
  | b :: r => b * 256 ^ Z.of_nat (length r) + be_value r
  end.

Fixpoint lex_compare (xs ys : list Z) : comparison :=
  match xs, ys with
  | [], [] => Eq
  | [], _ :: _ => Lt
  | _ :: _, [] => Gt
  | x :: xs', y :: ys' =>
      match x ?= y with Eq => lex_compare xs' ys' | c => c end
  end.

Definition is_byte (b : Z) : Prop := 0 <= b < 256.

Lemma be_value_bounds bs :
  Forall is_byte bs -> 0 <= be_value bs < 256 ^ Z.of_nat (length bs).
Proof.
  induction 1 as [|b r Hb Hr IH]; simpl; [lia|].
  unfold is_byte in Hb.
  rewrite Nat2Z.inj_succ, Z.pow_succ_r by lia. nia.
Qed.

Lemma lex_compare_be_value xs ys :
  length xs = length ys -> Forall is_byte xs -> Forall is_byte ys ->
  lex_compare xs ys = (be_value xs ?= be_value ys).
Proof.
  revert ys; induction xs as [|x xs IH]; intros [|y ys] Hlen Hx Hy;
    simpl in *; try done.
  inversion Hx; inversion Hy; subst. injection Hlen as Hlen.
  pose proof (be_value_bounds xs ltac:(done)).
  pose proof (be_value_bounds ys ltac:(done)).
  rewrite Hlen in *. set (p := 256 ^ Z.of_nat (length ys)) in *.
  destruct (Z.compare_spec x y) as [->|Hlt|Hgt].
  - rewrite IH by done. symmetry.
    destruct (Z.compare_spec (be_value xs) (be_value ys));
      [apply Z.compare_eq_iff | apply Z.compare_lt_iff | apply Z.compare_gt_iff]; lia.
  - symmetry. apply Z.compare_lt_iff. nia.
  - symmetry. apply Z.compare_gt_iff. nia.
Qed.

(** ** Lists *)

Lemma NoDup_fmap_filter {A B} (f : A -> B) (P : A -> Prop) `{!forall x, Decision (P x)} l :
  NoDup (f <$> l) -> NoDup (f <$> filter P l).
Proof.
  induction l as [|x l IH]; intros Hnd; [constructor|].
  apply NoDup_cons in Hnd as [Hni Hnd]. rewrite filter_cons.
  case_decide; [|auto]. apply NoDup_cons. split; [|auto].
  intros (y & Heq & [_ Hy]%list_elem_of_filter)%list_elem_of_fmap.
  apply Hni. rewrite Heq. by apply list_elem_of_fmap_2.
Qed.

Lemma size_map_filter {A} (P : Z * A -> Prop) `{!forall x, Decision (P x)} (m : gmap Z A) :
  size (filter P m) = length (filter P (map_to_list m)).
Proof.
  rewrite map_filter_alt, <- length_map_to_list, map_to_list_to_map; [done|].
  apply NoDup_fmap_filter, NoDup_fst_map_to_list.
Qed.

(** *** Sums *)

Definition sum_Z (l : list Z) : Z := foldr Z.add 0 l.

Lemma sum_Z_app l k : sum_Z (l ++ k) = sum_Z l + sum_Z k.
Proof. unfold sum_Z. induction l as [|x l IH]; simpl; lia. Qed.

#[export] Instance sum_Z_perm : Proper (Permutation ==> eq) sum_Z.
Proof. unfold sum_Z. induction 1; simpl; lia. Qed.

Lemma sum_Z_insert l i x y : l !! i = Some x -> sum_Z (<[i := y]> l) = sum_Z l - x + y.
Proof.
  unfold sum_Z. revert i. induction l as [|z l IH]; intros [|i] Hi; simpl in *; [done|done| |].
  - injection Hi as ->. lia.
  - rewrite (IH i Hi). lia.
Qed.

Lemma sum_Z_delete_le l i : Forall (fun x => 0 <= x) l -> sum_Z (delete i l) <= sum_Z l.
Proof.
  unfold sum_Z. intros Hl. revert i. induction Hl as [|x l Hx Hl IH]; intros [|i]; simpl; [lia..|].
  specialize (IH i). lia.
Qed.

Lemma sum_Z_scale {A} c (f : A -> Z) l : sum_Z ((fun x => c * f x) <$> l) = c * sum_Z (f <$> l).
Proof. unfold sum_Z. induction l as [|x l IH]; rewrite ?fmap_cons; cbn [foldr]; simpl; lia. Qed.

Lemma sum_Z_nonneg l : Forall (fun x => 0 <= x) l -> 0 <= sum_Z l.
Proof. unfold sum_Z. induction 1; simpl; lia. Qed.

Lemma sum_Z_filter_le {A} (f : A -> Z) (P : A -> Prop) `{!forall x, Decision (P x)} l :
  (forall x, x ∈ l -> 0 <= f x) -> sum_Z (f <$> filter P l) <= sum_Z (f <$> l).
Proof.
  unfold sum_Z. induction l as [|x l IH]; intros Hf; [done|]. rewrite filter_cons.
  assert (IH' := IH (fun y Hy => Hf y (list_elem_of_further _ _ _ Hy))).
  pose proof (Hf x (list_elem_of_here _ _)). case_decide; rewrite ?fmap_cons; cbn [foldr]; lia.
Qed.

(** ** Relations *)

Lemma tc_mono {A} (R R' : relation A) x y :
  (forall a b, R a b -> R' a b) -> tc R x y -> tc R' x y.
Proof. intros H; induction 1; [by apply tc_once, H|eapply tc_l; [by apply H|done]]. Qed.

(** ** Automation *)

Create HintDb pangolin discriminated.
#[export] Hint Resolve merge_sort_sorted : pangolin.
#[export] Hint Resolve preserves_ret preserves_gets preserves_throw preserves_lift
  preserves_when : pangolin.

(** Split a hypothesis [x ← r; k = Ok y] (or [Err]) along its calls. *)
Ltac result_inv :=
  repeat match goal with
  | H : mbind _ ?r = _ |- _ =>
      let E := fresh "E" in
      destruct r eqn:E; unfold mbind, result_bind in H; simpl in H; try discriminate H
  | H : Ok _ = Ok _ |- _ => injection H as H; subst
  | H : Err _ = Err _ |- _ => injection H as H; subst
  | H : Ok _ = Err _ |- _ => discriminate H
  | H : Err _ = Ok _ |- _ => discriminate H
  end.

(** Split a hypothesis [(m ≫= k) s = (Ok _, _)] along its calls. *)
Ltac op_inv :=
  repeat match goal with
  | H : mbind _ _ _ = (Ok _, _) |- _ =>
      let a := fresh "a" in let s := fresh "s" in let E := fresh "E" in
      apply op_bind_Ok in H as (a & s & E & H)
  | H : gets _ _ = (_, _) |- _ => unfold gets in H; simplify_eq/=
  | H : modify _ _ = (_, _) |- _ => unfold modify in H; simplify_eq/=
  | H : lift _ _ = (_, _) |- _ => unfold lift in H; simplify_eq/=
  | H : throw _ _ = (Ok _, _) |- _ => discriminate H
  | H : mret _ _ = (_, _) |- _ => unfold mret, op_ret in H; simplify_eq/=
  end.

(** [preserves I m] along the structure of [m]. *)
Ltac preserve :=
  repeat match goal with
  | |- preserves _ (mbind _ _) => apply preserves_bind; [|intros ?]
  | |- preserves _ (match ?x with _ => _ end) => destruct x
  | |- preserves _ _ => solve [eauto with pangolin]
  end.

(** [moves R m] along the structure of [m]. *)
Ltac moving :=
  repeat match goal with
  | |- moves _ (mbind _ _) => apply moves_bind; [try apply _..|intros ?]
  | |- moves _ (match ?x with _ => _ end) => destruct x
  | |- moves _ (mret _) => apply moves_ret; apply _
  | |- moves _ (gets _) => apply moves_gets; apply _
  | |- moves _ (throw _) => apply moves_throw; apply _
  | |- moves _ (lift _) => apply moves_lift; apply _
  | |- moves _ (when _ _) => apply moves_when; [try apply _..|]
  | |- moves _ _ => solve [eauto with pangolin]
  end.

(** Decide every boolean integer comparison of the context. *)
Ltac zbool :=
  repeat match goal with
  | H : (_ <=? _) = true |- _ => apply Z.leb_le in H
  | H : (_ <=? _) = false |- _ => apply Z.leb_gt in H
  | H : (_ <? _) = true |- _ => apply Z.ltb_lt in H
  | H : (_ <? _) = false |- _ => apply Z.ltb_ge in H
  | H : (_ =? _) = true |- _ => apply Z.eqb_eq in H
  | H : (_ =? _) = false |- _ => apply Z.eqb_neq in H
  | H : (_ && _) = true |- _ => apply andb_true_iff in H as [? ?]
  | H : (_ || _) = false |- _ => apply orb_false_iff in H as [? ?]
  end.

Lemma try_from_Some lo hi x y : try_from lo hi x = Some y <-> y = x /\ lo <= x <= hi.
Proof.
  unfold try_from, in_range. destruct (lo <=? x) eqn:?, (x <=? hi) eqn:?; simpl;
    zbool; split; naive_solver lia.
Qed.

Lemma duration_since_nonneg now t : 0 <= duration_since now t.
Proof. unfold duration_since. lia. Qed.

#[export] Hint Resolve duration_since_nonneg : pangolin.
