(* ===== verification/Bytes.v ===== *)
(** * Bytes and bits

    What the wire formats share: big-endian integers, slices, UTF-8, and the
    bit buffer with which the workspace regroups bytes into 5- and 11-bit groups
    and back (base32 and seed phrases). *)

From Stdlib Require Import Ascii String.
From S2P Require Import Prelude.
Open Scope Z_scope.

(** ** Integers in big-endian order *)

Fixpoint to_be_bytes (n : nat) (x : Z) : list Z :=
  match n with
  | O => []
  | S m => (x / 256 ^ Z.of_nat m) mod 256 :: to_be_bytes m x
  end.

(** [&bytes[from..from + len]] and [bytes[i]], within bounds. *)
Definition slice (from len : nat) (bytes : list Z) : list Z := take len (drop from bytes).
Definition byte_at (i : nat) (bytes : list Z) : Z := default 0 (bytes !! i).

(** The bytes of an ASCII literal, and of a Rust string. *)
Fixpoint bytes_of (s : string) : list Z :=
  match s with
  | EmptyString => []
  | String c s => Z.of_nat (nat_of_ascii c) :: bytes_of s
  end.

(** ** UTF-8

    The well-formed sequences of [String::from_utf8]. *)
Definition cont (b : Z) : bool := in_range 0x80 0xBF b.

Fixpoint utf8 (bs : list Z) : bool :=
  match bs with
  | [] => true
  | b :: r =>
      if b <=? 0x7F then utf8 r
      else if in_range 0xC2 0xDF b then match r with c :: r => cont c && utf8 r | _ => false end
      else if in_range 0xE0 0xEF b then
        match r with
        | c :: d :: r =>
            in_range (if b =? 0xE0 then 0xA0 else 0x80) (if b =? 0xED then 0x9F else 0xBF) c
            && cont d && utf8 r
        | _ => false
        end
      else if in_range 0xF0 0xF4 b then
        match r with
        | c :: d :: e :: r =>
            in_range (if b =? 0xF0 then 0x90 else 0x80) (if b =? 0xF4 then 0x8F else 0xBF) c
            && cont d && cont e && utf8 r
        | _ => false
        end
      else false
  end.

(** ** The bit buffer

    [buf = (buf << k) | b; bits += k; while bits >= m { bits -= m; emit (buf >> bits) & (2^m - 1) }]
    with a buffer of [w] bits. *)
Record BitBuffer : Type := mkBitBuffer { buf : Z; bits : Z; out : list Z }.

Definition empty_buffer : BitBuffer := mkBitBuffer 0 0 [].

Fixpoint emit (fuel : nat) (m : Z) (s : BitBuffer) : BitBuffer :=
  match fuel with
  | O => s
  | S fuel =>
      if m <=? bits s then
        emit fuel m (mkBitBuffer (buf s) (bits s - m)
          (out s ++ [Z.land (Z.shiftr (buf s) (bits s - m)) (Z.ones m)]))
      else s
  end.

Definition absorb (w k m : Z) (s : BitBuffer) (b : Z) : BitBuffer :=
  let bits := bits s + k in
  emit (Z.to_nat bits) m
    (mkBitBuffer (Z.lor (Z.land (Z.shiftl (buf s) k) (Z.ones w)) b) bits (out s)).

Definition regroup (w k m : Z) (groups : list Z) : BitBuffer :=
  foldl (absorb w k m) empty_buffer groups.

(** The trailing bits that filled no group. *)
Definition leftover (s : BitBuffer) : Z := Z.land (buf s) (Z.ones (bits s)).

(** ** Facts: bytes *)

Lemma length_to_be_bytes n x : length (to_be_bytes n x) = n.
Proof. induction n as [|n IH]; simpl; [done|by rewrite IH]. Qed.

Lemma to_be_bytes_bytes n x : Forall is_byte (to_be_bytes n x).
Proof.
  induction n as [|n IH]; simpl; constructor; [|done]. unfold is_byte. apply Z.mod_pos_bound. lia.
Qed.

Lemma be_value_to_be_bytes n x : be_value (to_be_bytes n x) = x mod 256 ^ Z.of_nat n.
Proof.
  induction n as [|n IH]; [simpl; by rewrite Z.mod_1_r|]. cbn [to_be_bytes be_value].
  rewrite IH, length_to_be_bytes, Nat2Z.inj_succ, Z.pow_succ_r by lia.
  assert (0 < 256 ^ Z.of_nat n) by (apply Z.pow_pos_nonneg; lia).
  rewrite (Z.mul_comm 256), Z.rem_mul_r by lia. lia.
Qed.

Lemma to_be_bytes_inj n x y :
  0 <= x < 256 ^ Z.of_nat n -> 0 <= y < 256 ^ Z.of_nat n ->
  to_be_bytes n x = to_be_bytes n y -> x = y.
Proof.
  intros Hx Hy He. apply (f_equal be_value) in He. rewrite !be_value_to_be_bytes in He.
  by rewrite !Z.mod_small in He.
Qed.


Lemma be_value_app xs ys : be_value (xs ++ ys) = be_value xs * 256 ^ Z.of_nat (length ys) + be_value ys.
Proof.
  induction xs as [|x xs IH]; simpl; [lia|].
  rewrite IH, length_app, Nat2Z.inj_add, Z.pow_add_r by lia. lia.
Qed.

Lemma be_value_inj xs ys :
  length xs = length ys -> Forall is_byte xs -> Forall is_byte ys -> be_value xs = be_value ys -> xs = ys.
Proof.
  intros Hl Hx Hy He. pose proof (lex_compare_be_value xs ys Hl Hx Hy) as Hc.
  rewrite He, Z.compare_refl in Hc. clear He. revert ys Hl Hc Hy.
  induction Hx as [|x xs _ _ IH]; intros [|y ys] Hl Hc Hy; try done. simpl in *.
  destruct (Z.compare_spec x y) as [->|?|?]; [|done..]. f_equal.
  apply IH; [lia|done|by inversion Hy].
Qed.

Lemma to_be_bytes_be_value bs : Forall is_byte bs -> to_be_bytes (length bs) (be_value bs) = bs.
Proof.
  intros Hb. apply be_value_inj; [apply length_to_be_bytes|apply to_be_bytes_bytes|done|].
  rewrite be_value_to_be_bytes. apply Z.mod_small. by apply be_value_bounds.
Qed.

Lemma slice_app_l from len xs ys :
  (from + len <= length xs)%nat -> slice from len (xs ++ ys) = slice from len xs.
Proof. intros Hl. unfold slice. rewrite drop_app_le, take_app_le; [done|rewrite length_drop; lia|lia]. Qed.

Lemma slice_skip from len xs ys : slice (length xs + from) len (xs ++ ys) = slice from len ys.
Proof. unfold slice. by rewrite <- drop_drop, drop_app_length. Qed.

Lemma slice_all xs : slice 0 (length xs) xs = xs.
Proof. unfold slice. by rewrite drop_0, firstn_all. Qed.

Lemma length_slice from len bs : (from + len <= length bs)%nat -> length (slice from len bs) = len.
Proof. intros Hl. unfold slice. rewrite length_take, length_drop. lia. Qed.

Lemma bytes_of_bytes s : Forall is_byte (bytes_of s).
Proof.
  induction s as [|c s IH]; simpl; constructor; [|done].
  pose proof (nat_ascii_bounded c). unfold is_byte. lia.
Qed.

Lemma bytes_of_inj s t : bytes_of s = bytes_of t -> s = t.
Proof.
  revert t. induction s as [|c s IH]; intros [|d t]; simpl; try done.
  intros [= Hc Ht]. apply Nat2Z.inj in Hc. f_equal; [|by apply IH].
  by rewrite <- (ascii_nat_embedding c), Hc, ascii_nat_embedding.
Qed.

Lemma Forall_snoc_inv {A} (P : A -> Prop) l x : Forall P (l ++ [x]) -> Forall P l /\ P x.
Proof. intros [Hl Hx]%Forall_app. split; [done|by inversion Hx]. Qed.

Lemma utf8_ascii bs : Forall (fun b => 0 <= b <= 0x7F) bs -> utf8 bs = true.
Proof. induction 1 as [|b bs Hb _ IH]; [done|]. simpl. by rewrite (proj2 (Z.leb_le _ _)) by lia. Qed.

(** ** Facts: regrouping

    Groups of [k] bits denote an integer; regrouping keeps it. *)
Definition groups_value (k : Z) (l : list Z) : Z := foldl (fun a x => a * 2 ^ k + x) 0 l.

Definition is_group (k x : Z) : Prop := 0 <= x < 2 ^ k.

Lemma groups_value_snoc k l x : groups_value k (l ++ [x]) = groups_value k l * 2 ^ k + x.
Proof. unfold groups_value. by rewrite foldl_snoc. Qed.

Lemma groups_value_bounds k l : 0 <= k -> Forall (is_group k) l -> 0 <= groups_value k l < 2 ^ (k * Z.of_nat (length l)).
Proof.
  intros Hk. induction l as [|x l IH] using rev_ind; intros Hl; [rewrite Z.mul_0_r; cbn; lia|].
  apply Forall_snoc_inv in Hl as [Hl Hx]. unfold is_group in Hx.
  rewrite groups_value_snoc, length_app, Nat2Z.inj_add. cbn [length].
  replace (k * (Z.of_nat (length l) + Z.of_nat 1)) with (k * Z.of_nat (length l) + k) by lia.
  rewrite Z.pow_add_r by lia. specialize (IH Hl).
  generalize dependent (2 ^ k). generalize dependent (2 ^ (k * Z.of_nat (length l))).
  generalize (groups_value k l). intros v P HP q Hx.
  assert (v * q <= (P - 1) * q) by (apply Z.mul_le_mono_nonneg_r; lia). nia.
Qed.

Lemma groups_value_inj k l l' :
  0 <= k -> length l = length l' -> Forall (is_group k) l -> Forall (is_group k) l' ->
  groups_value k l = groups_value k l' -> l = l'.
Proof.
  intros Hk. revert l'. induction l as [|x l IH] using rev_ind; intros l' Hlen Hl Hl' He.
  - by destruct l'.
  - destruct l' as [|x' l' _] using rev_ind; [by rewrite length_app in Hlen; simpl in Hlen; lia|].
    rewrite !length_app in Hlen. simpl in Hlen. rewrite !groups_value_snoc in He.
    apply Forall_snoc_inv in Hl as [Hl Hx], Hl' as [Hl' Hx'].
    unfold is_group in *. destruct (Z.div_mod_unique (2 ^ k) (groups_value k l) (groups_value k l') x x')
      as [Hv ->]; [by left|by left|lia|].
    f_equal. apply IH; [lia|done..].
Qed.

Lemma groups_value_bytes l : groups_value 8 l = be_value l.
Proof.
  induction l as [|x l IH] using rev_ind; [done|].
  rewrite groups_value_snoc, be_value_app, IH. simpl. lia.
Qed.

(** What the buffer denotes. *)
Definition denotes (m : Z) (s : BitBuffer) : Z := groups_value m (out s) * 2 ^ bits s + leftover s.

Lemma leftover_mod s : 0 <= bits s -> leftover s = buf s mod 2 ^ bits s.
Proof. intros Hb. unfold leftover. by rewrite Z.land_ones. Qed.

Record buffered (m : Z) (s : BitBuffer) : Prop := mkBuffered {
  buffered_bits : 0 <= bits s;
  buffered_out : Forall (is_group m) (out s)
}.

Lemma emit_spec fuel m s :
  0 < m -> buffered m s -> bits s <= Z.of_nat fuel ->
  let s' := emit fuel m s in
  buffered m s' /\ bits s' < m /\ denotes m s' = denotes m s
  /\ m * Z.of_nat (length (out s')) + bits s' = m * Z.of_nat (length (out s)) + bits s.
Proof.
  intros Hm. revert s. induction fuel as [|fuel IH]; intros s [Hb Ho] Hf; simpl; [by split_and!; [..|lia|done|done]|].
  destruct (Z.leb_spec m (bits s)) as [Hle|Hlt]; [|done].
  set (s1 := mkBitBuffer _ _ _). assert (Hs1 : buffered m s1).
  { split; simpl; [lia|]. apply Forall_app. split; [done|]. apply Forall_singleton. unfold is_group.
    rewrite Z.land_ones by lia. apply Z.mod_pos_bound, Z.pow_pos_nonneg; lia. }
  destruct (IH s1 Hs1) as (H1 & H2 & H3 & H4); [simpl; lia|]. split_and!; [done|done| |].
  - rewrite H3. unfold denotes, s1. cbn [out bits buf]. rewrite groups_value_snoc, !leftover_mod by (cbn [bits]; lia).
    cbn [out bits buf]. rewrite Z.land_ones, Z.shiftr_div_pow2 by lia.
    replace (bits s) with ((bits s - m) + m) at 4 5 by lia.
    set (r := bits s - m) in *. rewrite (Z.pow_add_r 2 r m) by lia.
    assert (0 < 2 ^ r /\ 0 < 2 ^ m) by (split; apply Z.pow_pos_nonneg; lia).
    rewrite (Z.rem_mul_r (buf s) (2 ^ r) (2 ^ m)) by lia. nia.
  - rewrite H4. simpl. rewrite length_app. simpl. lia.
Qed.

Lemma absorb_spec w k m s b :
  0 < m -> 0 < k -> m - 1 + k <= w -> buffered m s -> bits s < m -> is_group k b ->
  let s' := absorb w k m s b in
  buffered m s' /\ bits s' < m /\ denotes m s' = denotes m s * 2 ^ k + b
  /\ m * Z.of_nat (length (out s')) + bits s' = m * Z.of_nat (length (out s)) + bits s + k.
Proof.
  intros Hm Hk Hw [Hb Ho] Hlt Hg. unfold absorb, is_group in *.
  set (s1 := mkBitBuffer _ _ _). assert (Hs1 : buffered m s1) by (split; [simpl; lia|done]).
  destruct (emit_spec (Z.to_nat (bits s + k)) m s1 Hm Hs1) as (H1 & H2 & H3 & H4); [simpl; lia|].
  split_and!; [done|done| |rewrite H4; simpl; lia].
  rewrite H3. unfold denotes, s1. rewrite !leftover_mod by (cbn [bits]; lia). cbn [buf bits out].
  assert (Hadd : Z.lor (Z.land (Z.shiftl (buf s) k) (Z.ones w)) b = (buf s * 2 ^ k) mod 2 ^ w + b).
  { rewrite Z.land_ones, Z.shiftl_mul_pow2 by lia. rewrite <- Z.add_nocarry_lor; [done|].
    apply Z.bits_inj'. intros i Hi. rewrite Z.land_spec, Z.bits_0.
    destruct (Z.lt_ge_cases i k) as [Hik|Hik].
    - rewrite Z.mod_pow2_bits_low by lia. rewrite Z.mul_pow2_bits_low by lia. done.
    - replace (Z.testbit b i) with false; [by rewrite andb_false_r|]. symmetry.
      destruct (Z.eq_dec b 0) as [->|Hb0]; [apply Z.bits_0|]. apply Z.bits_above_log2; [lia|].
      apply Z.log2_lt_pow2; [lia|]. apply (Z.lt_le_trans _ (2 ^ k)); [lia|]. apply Z.pow_le_mono_r; lia. }
  rewrite Hadd, Z.pow_add_r by lia.
  assert (Hp : 0 < 2 ^ bits s /\ 0 < 2 ^ k) by (split; apply Z.pow_pos_nonneg; lia).
  assert (Hmod : ((buf s * 2 ^ k) mod 2 ^ w + b) mod (2 ^ bits s * 2 ^ k) = (buf s mod 2 ^ bits s) * 2 ^ k + b).
  { rewrite <- Z.add_mod_idemp_l by nia. rewrite Z.mod_mod_divide.
    2: { exists (2 ^ (w - bits s - k)). rewrite <- !Z.pow_add_r by lia. f_equal. lia. }
    rewrite Z.mul_mod_distr_r by lia.
    pose proof (Z.mod_pos_bound (buf s) (2 ^ bits s) ltac:(lia)). apply Z.mod_small. nia. }
  rewrite Hmod. nia.
Qed.

Lemma regroup_spec w k m l :
  0 < m -> 0 < k -> m - 1 + k <= w -> Forall (is_group k) l ->
  let s := regroup w k m l in
  Forall (is_group m) (out s) /\ 0 <= bits s < m /\ 0 <= leftover s < 2 ^ bits s
  /\ groups_value k l = groups_value m (out s) * 2 ^ bits s + leftover s
  /\ k * Z.of_nat (length l) = m * Z.of_nat (length (out s)) + bits s.
Proof.
  intros Hm Hk Hw Hl. assert (H : buffered m (regroup w k m l) /\ bits (regroup w k m l) < m
    /\ denotes m (regroup w k m l) = groups_value k l
    /\ m * Z.of_nat (length (out (regroup w k m l))) + bits (regroup w k m l) = k * Z.of_nat (length l)).
  { induction l as [|b l IH] using rev_ind.
    - split_and!; [split; [done|constructor]|simpl; lia|done|simpl; lia].
    - apply Forall_snoc_inv in Hl as [Hl Hb].
      destruct (IH Hl) as (H1 & H2 & H3 & H4).
      unfold regroup in *. rewrite foldl_snoc.
      destruct (absorb_spec w k m _ b Hm Hk Hw H1 H2 Hb) as (K1 & K2 & K3 & K4).
      split_and!; [done|done|by rewrite K3, groups_value_snoc, H3|].
      rewrite K4, length_app. simpl. lia. }
  destruct H as ([Hb Ho] & Hlt & Hd & Hlen). simpl. split_and!; [done|done|done| | |done|lia].
  - rewrite leftover_mod by done. apply Z.mod_pos_bound, Z.pow_pos_nonneg; lia.
  - rewrite leftover_mod by done. apply Z.mod_pos_bound, Z.pow_pos_nonneg; lia.
Qed.

(** ** Fixed layouts

    Consecutive fields of given lengths. *)
Fixpoint slices (from : nat) (lens : list nat) (bytes : list Z) : list (list Z) :=
  match lens with
  | [] => []
  | n :: lens => slice from n bytes :: slices (from + n) lens bytes
  end.

Lemma slices_app from lens xs ys : slices (length xs + from) lens (xs ++ ys) = slices from lens ys.
Proof.
  revert from. induction lens as [|n lens IH]; intros from; simpl; [done|].
  by rewrite slice_skip, <- IH, Nat.add_assoc.
Qed.

(** The fields that were laid out are the ones that are read. *)
Lemma slices_fields fs rest : slices 0 (length <$> fs) (mjoin fs ++ rest) = fs.
Proof.
  induction fs as [|f fs IH]; [done|]. rewrite fmap_cons. cbn [slices].
  change (mjoin (f :: fs)) with (f ++ mjoin fs). rewrite <- app_assoc. f_equal.
  - unfold slice. by rewrite drop_0, take_app_length.
  - replace (0 + length f)%nat with (length f + 0)%nat by lia. by rewrite slices_app, IH.
Qed.

(** And the fields read are the input, when it is as long as they are. *)
Lemma slices_join lens bytes :
  mjoin (slices 0 lens bytes) ++ drop (foldr Nat.add 0%nat lens) bytes = bytes
  /\ ((foldr Nat.add 0 lens <= length bytes)%nat -> length <$> slices 0 lens bytes = lens).
Proof.
  assert (H : forall from, mjoin (slices from lens bytes) ++ drop (from + foldr Nat.add 0%nat lens) bytes = drop from bytes
    /\ ((from + foldr Nat.add 0 lens <= length bytes)%nat -> length <$> slices from lens bytes = lens)).
  { induction lens as [|n lens IH]; intros from; [simpl; by rewrite Nat.add_0_r|].
    cbn [slices foldr]. destruct (IH (from + n)%nat) as [H1 H2]. split.
    - change (mjoin (slice from n bytes :: slices (from + n) lens bytes))
        with (slice from n bytes ++ mjoin (slices (from + n) lens bytes)).
      rewrite <- app_assoc, Nat.add_assoc, H1. unfold slice. by rewrite <- drop_drop, take_drop.
    - intros Hl. rewrite fmap_cons, length_slice by lia. f_equal. apply H2. lia. }
  destruct (H 0%nat) as [H1 H2]. simpl in H1, H2. by rewrite drop_0 in H1.
Qed.

Lemma slice_one i bytes : (i < length bytes)%nat -> slice i 1 bytes = [byte_at i bytes].
Proof.
  intros Hi. unfold slice, byte_at. destruct (lookup_lt_is_Some_2 bytes i Hi) as [x Hx].
  by rewrite Hx, (drop_S _ _ _ Hx).
Qed.
