(* ===== verification/Text.v ===== *)
(** * Strings

    What the workspace uses of Rust's [str], on the bytes of the string: splitting,
    trimming, ASCII case, counting characters, lossy decoding, and decimal
    numbers. *)

From Stdlib Require Import Ascii String.
From S2P Require Import Prelude Bytes.
Open Scope Z_scope.

(** [s.strip_prefix(p)] and [s.starts_with(p)]. *)
Fixpoint strip_prefix (p s : list Z) : option (list Z) :=
  match p, s with
  | [], _ => Some s
  | x :: p, y :: s => if x =? y then strip_prefix p s else None
  | _ :: _, [] => None
  end.

Definition starts_with (p s : list Z) : bool := bool_decide (is_Some (strip_prefix p s)).

(** [s.split_once(c)] and [s.split(c)], for an ASCII [c]. *)
Fixpoint split_once (c : Z) (s : list Z) : option (list Z * list Z) :=
  match s with
  | [] => None
  | x :: s => if x =? c then Some ([], s) else prod_map (cons x) id <$> split_once c s
  end.

Fixpoint split (c : Z) (s : list Z) : list (list Z) :=
  match s with
  | [] => [[]]
  | x :: s =>
      if x =? c then [] :: split c s
      else match split c s with w :: ws => (x :: w) :: ws | [] => [[x]] end
  end.

(** [s.contains(p)]. *)
Fixpoint contains (p s : list Z) : bool :=
  starts_with p s || match s with [] => false | _ :: r => contains p r end.

(** [words.join(sep)]. *)
Fixpoint join (sep : list Z) (words : list (list Z)) : list Z :=
  match words with
  | [] => []
  | [w] => w
  | w :: words => w ++ sep ++ join sep words
  end.

(** ** ASCII *)

Definition ascii_upper (b : Z) : Z := if in_range 97 122 b then b - 32 else b.
Definition ascii_lower (b : Z) : Z := if in_range 65 90 b then b + 32 else b.
Definition to_ascii_uppercase (s : list Z) : list Z := ascii_upper <$> s.
Definition to_ascii_lowercase (s : list Z) : list Z := ascii_lower <$> s.

(** [char::is_ascii_whitespace]: space, tab, line feed, form feed, return. *)
Definition is_ascii_whitespace (b : Z) : bool := (b =? 32) || (b =? 9) || (b =? 10) || (b =? 12) || (b =? 13).

(** ** Trimming

    The characters with the property White_Space, in UTF-8. *)
Definition WHITE_SPACE : list (list Z) :=
  [[9]; [10]; [11]; [12]; [13]; [32]; [0xC2; 0x85]; [0xC2; 0xA0]; [0xE1; 0x9A; 0x80]]
  ++ ((fun b => [0xE2; 0x80; b]) <$> [0x80; 0x81; 0x82; 0x83; 0x84; 0x85; 0x86; 0x87; 0x88; 0x89; 0x8A; 0xA8; 0xA9; 0xAF])
  ++ [[0xE2; 0x81; 0x9F]; [0xE3; 0x80; 0x80]].

Definition strip_any (ws : list (list Z)) (s : list Z) : option (list Z) :=
  head (omap (fun w => strip_prefix w s) ws).

Fixpoint strip_all (fuel : nat) (ws : list (list Z)) (s : list Z) : list Z :=
  match fuel with
  | O => s
  | S fuel => match strip_any ws s with Some s => strip_all fuel ws s | None => s end
  end.

Definition trim_start (s : list Z) : list Z := strip_all (length s) WHITE_SPACE s.
Definition trim_end (s : list Z) : list Z := reverse (strip_all (length s) (reverse <$> WHITE_SPACE) (reverse s)).
Definition trim (s : list Z) : list Z := trim_end (trim_start s).

(** [s.split_whitespace()]: the bytes of a character that is not white space never
    start one that is. *)
Fixpoint words_of (fuel : nat) (word s : list Z) : list (list Z) :=
  let flush := if (length word =? 0)%nat then [] else [word] in
  match fuel with
  | O => flush
  | S fuel =>
      match strip_any WHITE_SPACE s with
      | Some r => flush ++ words_of fuel [] r
      | None => match s with [] => flush | b :: r => words_of fuel (word ++ [b]) r end
      end
  end.

Definition split_whitespace (s : list Z) : list (list Z) := words_of (S (length s)) [] s.

(** ** Characters *)

(** [s.chars().count()]: the bytes that start one. *)
Definition char_count (s : list Z) : Z := Z.of_nat (length (filter (fun b => cont b = false) s)).

(** [s.chars().any(char::is_control)]: U+0000 to U+001F and U+007F to U+009F. *)
Fixpoint any_control (allowed : Z -> bool) (s : list Z) : bool :=
  match s with
  | [] => false
  | b :: r =>
      ((b <? 32) || (b =? 127)) && negb (allowed b)
      || match r with c :: _ => (b =? 0xC2) && in_range 0x80 0x9F c | [] => false end
      || any_control allowed r
  end.

(** ** [String::from_utf8_lossy]

    Each maximal prefix of a sequence that is not one becomes U+FFFD. *)
Definition REPLACEMENT : list Z := [0xEF; 0xBF; 0xBD].

(** The length of the sequence that starts the input, and whether it is whole. *)
Definition utf8_chunk (b : Z) (r : list Z) : nat * bool :=
  let tail := fun (lo hi : Z) (more : nat) =>
    match r with
    | c :: r =>
        if in_range lo hi c then
          match more with
          | O => (2%nat, true)
          | S more =>
              match r with
              | d :: r =>
                  if cont d then
                    match more with
                    | O => (3%nat, true)
                    | _ => match r with e :: _ => if cont e then (4%nat, true) else (3%nat, false) | [] => (3%nat, false) end
                    end
                  else (2%nat, false)
              | [] => (2%nat, false)
              end
          end
        else (1%nat, false)
    | [] => (1%nat, false)
    end in
  if b <=? 0x7F then (1%nat, true)
  else if in_range 0xC2 0xDF b then tail 0x80 0xBF 0%nat
  else if in_range 0xE0 0xEF b then tail (if b =? 0xE0 then 0xA0 else 0x80) (if b =? 0xED then 0x9F else 0xBF) 1%nat
  else if in_range 0xF0 0xF4 b then tail (if b =? 0xF0 then 0x90 else 0x80) (if b =? 0xF4 then 0x8F else 0xBF) 2%nat
  else (1%nat, false).

Fixpoint lossy (fuel : nat) (s : list Z) : list Z :=
  match fuel, s with
  | S fuel, b :: r =>
      let '(n, whole) := utf8_chunk b r in
      (if whole then take n s else REPLACEMENT) ++ lossy fuel (drop n s)
  | _, _ => []
  end.

Definition from_utf8_lossy (s : list Z) : list Z := lossy (length s) s.

(** ** Decimal numbers *)

(** [s.parse::<uN>()], for the type with maximum [hi]. *)
Definition parse_unsigned (hi : Z) (s : list Z) : option Z :=
  let digits := match s with 43 :: r => r | _ => s end in
  match digits with
  | [] => None
  | _ =>
      foldl (fun acc d => acc ≫= fun a =>
        if in_range 48 57 d then let n := a * 10 + (d - 48) in if n <=? hi then Some n else None else None)
        (Some 0) digits
  end.

(** The decimal digits of [n], at most [fuel] of them. *)
Fixpoint decimal (fuel : nat) (n : Z) : list Z :=
  match fuel with
  | O => []
  | S fuel => (if n <? 10 then [] else decimal fuel (n / 10)) ++ [48 + n mod 10]
  end.

(** [format!("{n:0width$}")] of a 32-bit integer. *)
Definition format_padded (width : nat) (n : Z) : list Z :=
  let d := decimal 10 n in replicate (width - length d) 48 ++ d.

(** ** Facts *)

Lemma strip_prefix_Some p s r : strip_prefix p s = Some r <-> s = p ++ r.
Proof.
  revert s. induction p as [|x p IH]; intros [|y s]; cbn; try (split; naive_solver).
  destruct (Z.eqb_spec x y) as [->|Hne]; [rewrite IH; naive_solver|naive_solver].
Qed.

Lemma starts_with_spec p s : starts_with p s = true <-> exists r, s = p ++ r.
Proof.
  unfold starts_with. rewrite bool_decide_eq_true. split.
  - intros [r Hr]. exists r. by apply strip_prefix_Some.
  - intros [r Hr]. exists r. by apply strip_prefix_Some.
Qed.

Lemma contains_spec p s : contains p s = true <-> exists a b, s = a ++ p ++ b.
Proof.
  induction s as [|x s IH]; cbn [contains]; rewrite orb_true_iff, starts_with_spec.
  - split; [intros [[r Hr]|H]; [by exists [], r|done]|].
    intros (a & b & H). left. exists b. by destruct a.
  - rewrite IH. split.
    + intros [[r Hr]|(a & b & ->)]; [by exists [], r|by exists (x :: a), b].
    + intros (a & b & H). destruct a as [|y a]; [left; by exists b|right]. injection H as -> ->. by exists a, b.
Qed.

(** What a string of digits denotes. *)
Definition decimal_value (s : list Z) : Z := foldl (fun a d => a * 10 + (d - 48)) 0 s.

Lemma decimal_value_snoc s d : decimal_value (s ++ [d]) = decimal_value s * 10 + (d - 48).
Proof. unfold decimal_value. by rewrite foldl_snoc. Qed.

Lemma decimal_value_zeros n s : decimal_value (replicate n 48 ++ s) = decimal_value s.
Proof. unfold decimal_value. induction n as [|n IH]; [done|]. simpl. exact IH. Qed.

Lemma decimal_spec fuel n :
  0 <= n < 10 ^ Z.of_nat fuel ->
  decimal_value (decimal fuel n) = n /\ Forall (fun d => 48 <= d <= 57) (decimal fuel n)
  /\ forall k, (0 < k)%nat -> n < 10 ^ Z.of_nat k -> (length (decimal fuel n) <= k)%nat.
Proof.
  revert n. induction fuel as [|fuel IH]; intros n Hn; [simpl in Hn; split_and!; [unfold decimal_value; simpl; lia|constructor|simpl; lia]|].
  rewrite Nat2Z.inj_succ, Z.pow_succ_r in Hn by lia. cbn [decimal].
  pose proof (Z.mod_pos_bound n 10 ltac:(lia)) as Hm. pose proof (Z.div_mod n 10 ltac:(lia)) as Hd.
  destruct (Z.ltb_spec n 10) as [Hs|Hs].
  - split_and!; [|repeat constructor; lia|simpl; lia]. cbn [app]. unfold decimal_value. simpl.
    rewrite Z.mod_small by lia. lia.
  - destruct (IH (n / 10)) as (H1 & H2 & H3).
    { split; [apply Z.div_pos; lia|]. apply Z.div_lt_upper_bound; lia. }
    split_and!.
    + rewrite decimal_value_snoc, H1. lia.
    + apply Forall_app. split; [done|repeat constructor; lia].
    + intros [|[|k]] Hk Hn'; [lia|change (10 ^ Z.of_nat 1) with 10 in Hn'; lia|]. rewrite length_app. simpl.
      rewrite Nat2Z.inj_succ, Z.pow_succ_r in Hn' by lia.
      pose proof (H3 (S k) ltac:(lia) ltac:(apply Z.div_lt_upper_bound; lia)). lia.
Qed.

(** A padded number that fits has exactly the width, and reads as the number. *)
Lemma format_padded_spec width n :
  (0 < width <= 10)%nat -> 0 <= n < 10 ^ Z.of_nat width ->
  length (format_padded width n) = width /\ Forall (fun d => 48 <= d <= 57) (format_padded width n)
  /\ decimal_value (format_padded width n) = n.
Proof.
  intros Hw Hn. unfold format_padded. destruct (decimal_spec 10 n) as (H1 & H2 & H3).
  { split; [lia|]. apply (Z.lt_le_trans _ _ _ (proj2 Hn)). apply Z.pow_le_mono_r; lia. }
  specialize (H3 width ltac:(lia) ltac:(lia)). split_and!.
  - rewrite length_app, length_replicate. lia.
  - apply Forall_app. split; [|done]. apply Forall_replicate. lia.
  - by rewrite decimal_value_zeros.
Qed.
