(* ===== verification/Cbor.v ===== *)
(** * Reading and writing CBOR

    The wire formats of crates/pangolin-store are written with
    ciborium_ll::Encoder and read with ciborium_ll::Decoder: headers, and the raw
    bytes of strings between them.  The encoder and the decoder of a header are
    that crate's, so they are the operations of the class [Cbor], and
    [CborLaws] is what it documents: a header that was pushed is pulled back.
    [rfc8949] is a codec that satisfies the laws.

    A reader is a function on the remaining input.  Rust allocates a string or
    an array before it reads it: [memory] is the largest allocation the process
    can make, and a larger one aborts it. *)

From Stdlib Require Import Ascii String.
From S2P Require Import Prelude Bytes.
Open Scope Z_scope.

(** [ciborium_ll::Header]; the payload of a float is not read by anyone. *)
Inductive Header : Type :=
| Positive (n : Z)
| Negative (n : Z)
| FloatHeader
| SimpleHeader (v : Z)
| TagHeader (n : Z)
| Break
| BytesHeader (len : option Z)
| TextHeader (len : option Z)
| ArrayHeader (len : option Z)
| MapHeader (len : option Z).

#[export] Instance Header_eq_dec : EqDecision Header.
Proof. solve_decision. Defined.

Definition simple_TRUE : Z := 21.
Definition simple_FALSE : Z := 20.

(** The headers the writers push: definite lengths, arguments of 64 bits. *)
Definition is_u64 (x : Z) : Prop := 0 <= x <= U64_MAX.

Definition pushable (h : Header) : Prop :=
  match h with
  | Positive n | Negative n | BytesHeader (Some n) | TextHeader (Some n) | ArrayHeader (Some n)
  | MapHeader (Some n) => is_u64 n
  | SimpleHeader v => v = simple_TRUE \/ v = simple_FALSE
  | _ => False
  end.

Class Cbor : Type := mkCbor {
  push : Header -> list Z;
  pull : list Z -> option (Header * list Z)
}.

Class CborLaws (C : Cbor) : Prop := {
  pull_push h rest : pushable h -> pull (push h ++ rest) = Some (h, rest);
  push_bytes h : pushable h -> Forall is_byte (push h);
  push_length h : pushable h -> (length (push h) <= 9)%nat
}.

(** ** Readers *)

Definition reader (E A : Type) : Type := list Z -> result (failure E) (A * list Z).

#[export] Instance reader_ret {E} : MRet (reader E) := fun A a input => Ok (a, input).
#[export] Instance reader_bind {E} : MBind (reader E) := fun A B f m input =>
  match m input with Ok (a, rest) => f a rest | Err e => Err e end.

Definition fail {E A} (e : E) : reader E A := fun _ => Err (Failed e).
Definition of_result {E A} (r : result E A) : reader E A := fun input =>
  match r with Ok a => Ok (a, input) | Err e => Err (Failed e) end.

(** Sizes in memory, on a 64-bit target. *)
Definition VEC_SIZE : Z := 24.

Section readers.
Context `{!Cbor} (memory : Z).

Definition pull_header {E} (e : E) : reader E Header := fun input =>
  match pull input with Some (h, rest) => Ok (h, rest) | None => Err (Failed e) end.

(** [vec![0; n]] and [Vec::with_capacity]. *)
Definition allocate {E} (n : Z) : reader E unit := fun input =>
  if n <=? memory then Ok (tt, input) else Err Abort.

Definition read_exact {E} (e : E) (n : Z) : reader E (list Z) := fun input =>
  if n <=? Z.of_nat (length input) then Ok (take (Z.to_nat n) input, drop (Z.to_nat n) input)
  else Err (Failed e).

(** A buffer of the announced length, filled from the input. *)
Definition read_buffer {E} (e : E) (n : Z) : reader E (list Z) :=
  allocate n ≫= fun _ => read_exact e n.

(** [for _ in 0..n { out.push(item?) }] *)
Fixpoint read_items {E A} (n : nat) (item : reader E A) : reader E (list A) :=
  match n with
  | O => mret []
  | S n => x ← item; xs ← read_items n item; mret (x :: xs)
  end.

(** What the writers write. *)
Definition put_bytes (b : list Z) : list Z := push (BytesHeader (Some (Z.of_nat (length b)))) ++ b.
Definition put_text (s : list Z) : list Z := push (TextHeader (Some (Z.of_nat (length s)))) ++ s.

(** ** Reading back what was written

    [reads m w a]: [m] reads [a] off an input that starts with [w], and leaves
    the rest. *)
Definition reads {E A} (m : reader E A) (w : list Z) (a : A) : Prop :=
  forall rest, m (w ++ rest) = Ok (a, rest).

Lemma reads_ret {E A} (a : A) : reads (E := E) (mret a) [] a.
Proof. by intros rest. Qed.

Lemma reads_bind {E A B} (m : reader E A) (f : A -> reader E B) w1 w2 a b :
  reads m w1 a -> reads (f a) w2 b -> reads (m ≫= f) (w1 ++ w2) b.
Proof. intros Hm Hf rest. unfold mbind, reader_bind. rewrite <- app_assoc, Hm. apply Hf. Qed.

Lemma reads_bind_end {E A B} (m : reader E A) (f : A -> reader E B) w a b :
  reads m w a -> reads (f a) [] b -> reads (m ≫= f) w b.
Proof. intros Hm Hf. rewrite <- (app_nil_r w). by eapply reads_bind. Qed.

Lemma reads_silent {E A B} (m : reader E A) (f : A -> reader E B) w a b :
  reads m [] a -> reads (f a) w b -> reads (m ≫= f) w b.
Proof. apply (reads_bind m f []). Qed.

Lemma reads_allocate {E} n : n <= memory -> reads (allocate (E := E) n) [] tt.
Proof. intros Hn rest. unfold allocate. by rewrite (proj2 (Z.leb_le _ _) Hn). Qed.

Lemma reads_exact {E} (e : E) w : reads (read_exact e (Z.of_nat (length w))) w w.
Proof.
  intros rest. unfold read_exact. rewrite (proj2 (Z.leb_le _ _)) by (rewrite length_app; lia).
  by rewrite Nat2Z.id, take_app_length, drop_app_length.
Qed.

Lemma reads_buffer {E} (e : E) w :
  Z.of_nat (length w) <= memory -> reads (read_buffer e (Z.of_nat (length w))) w w.
Proof. intros Hm. eapply reads_silent; [by apply reads_allocate|apply reads_exact]. Qed.

Lemma reads_items {E A} (item : reader E A) (put : A -> list Z) l :
  (forall x, x ∈ l -> reads item (put x) x) ->
  reads (read_items (length l) item) (mjoin (put <$> l)) l.
Proof.
  induction l as [|x l IH]; intros Hl; [apply reads_ret|]. cbn [read_items length].
  change (mjoin (put <$> x :: l)) with (put x ++ mjoin (put <$> l)).
  eapply reads_bind; [apply Hl; left|]. rewrite <- (app_nil_r (mjoin _)).
  eapply reads_bind; [apply IH; intros y Hy; apply Hl; by right|]. apply reads_ret.
Qed.

Lemma reads_run {E A} (m : reader E A) w a : reads m w a -> m w = Ok (a, []).
Proof. intros Hm. specialize (Hm []). by rewrite app_nil_r in Hm. Qed.

(** [reads_if b m w a e]: and when [b] does not hold, [m] fails with [e]. *)
Definition reads_if {E A} (b : bool) (m : reader E A) (w : list Z) (a : A) (e : E) : Prop :=
  forall rest, m (w ++ rest) = if b then Ok (a, rest) else Err (Failed e).

Lemma reads_if_true {E A} (m : reader E A) w a e : reads m w a -> reads_if true m w a e.
Proof. done. Qed.

Lemma reads_if_false {E A} (w : list Z) (a : A) (e : E) : reads_if false (fail e) w a e.
Proof. done. Qed.

Lemma reads_if_bind {E A B} b c (m : reader E A) (f : A -> reader E B) w1 w2 a x e :
  reads_if b m w1 a e -> (b = true -> reads_if c (f a) w2 x e) ->
  reads_if (b && c) (m ≫= f) (w1 ++ w2) x e.
Proof.
  intros Hm Hf rest. unfold mbind, reader_bind. rewrite <- app_assoc, Hm.
  destruct b; [by apply Hf|done].
Qed.

Lemma reads_if_then {E A B} c (m : reader E A) (f : A -> reader E B) w1 w2 a x e :
  reads m w1 a -> reads_if c (f a) w2 x e -> reads_if c (m ≫= f) (w1 ++ w2) x e.
Proof. intros Hm Hf. by apply (reads_if_bind true c m f w1 w2 a). Qed.

Lemma reads_if_silent {E A B} c (m : reader E A) (f : A -> reader E B) w a x e :
  reads m [] a -> reads_if c (f a) w x e -> reads_if c (m ≫= f) w x e.
Proof. apply (reads_if_then c m f []). Qed.

Lemma reads_if_items {E A} (ok : A -> bool) (item : reader E A) (put : A -> list Z) l e :
  (forall x, x ∈ l -> reads_if (ok x) item (put x) x e) ->
  reads_if (forallb ok l) (read_items (length l) item) (mjoin (put <$> l)) l e.
Proof.
  induction l as [|x l IH]; intros Hl; [apply reads_ret|]. cbn [read_items length forallb].
  change (mjoin (put <$> x :: l)) with (put x ++ mjoin (put <$> l)).
  eapply reads_if_bind; [apply Hl; left|intros _]. rewrite <- (app_nil_r (mjoin _)), <- (andb_true_r (forallb ok l)).
  eapply reads_if_bind; [apply IH; intros y Hy; apply Hl; by right|intros _]. apply reads_ret.
Qed.

(** ** What a reader can return *)
Definition yields {E A} (m : reader E A) (Q : A -> Prop) : Prop :=
  forall input a rest, m input = Ok (a, rest) -> Q a.

Lemma yields_ret {E A} (a : A) (Q : A -> Prop) : Q a -> yields (mret a : reader E A) Q.
Proof. intros Ha input x rest [= <- _]. done. Qed.

Lemma yields_fail {E A} (e : E) (Q : A -> Prop) : yields (fail e) Q.
Proof. intros input x rest Hx. discriminate Hx. Qed.

Lemma yields_any {E A} (m : reader E A) : yields m (fun _ => True).
Proof. done. Qed.

Lemma yields_bind {E A B} (m : reader E A) (f : A -> reader E B) P Q :
  yields m P -> (forall a, P a -> yields (f a) Q) -> yields (m ≫= f) Q.
Proof.
  intros Hm Hf input b rest Hx. unfold mbind, reader_bind in Hx.
  destruct (m input) as [[a r]|e] eqn:E1; [|discriminate Hx]. eapply Hf; [by eapply Hm|exact Hx].
Qed.

Lemma yields_then {E A B} (m : reader E A) (f : A -> reader E B) Q :
  (forall a, yields (f a) Q) -> yields (m ≫= f) Q.
Proof. intros Hf. eapply yields_bind; [apply yields_any|auto]. Qed.

Lemma yields_of_result {E A} (r : result E A) : yields (of_result r) (fun a => r = Ok a).
Proof. destruct r; intros input x rest Hx; [by injection Hx as <- _|discriminate Hx]. Qed.

(** ** Readers that never abort *)
Definition never_aborts {E A} (m : reader E A) : Prop := forall input, m input <> Err Abort.

Lemma never_aborts_ret {E A} (a : A) : never_aborts (mret a : reader E A).
Proof. done. Qed.

Lemma never_aborts_fail {E A} (e : E) : never_aborts (fail e : reader E A).
Proof. done. Qed.

Lemma never_aborts_bind {E A B} (m : reader E A) (f : A -> reader E B) :
  never_aborts m -> (forall a, never_aborts (f a)) -> never_aborts (m ≫= f).
Proof.
  intros Hm Hf input. unfold mbind, reader_bind. specialize (Hm input).
  destruct (m input) as [[a rest]|e]; [apply Hf|congruence].
Qed.

Lemma never_aborts_header {E} (e : E) : never_aborts (pull_header e).
Proof. intros input. unfold pull_header. by destruct (pull input) as [[]|]. Qed.

Lemma never_aborts_allocate {E} n : n <= memory -> never_aborts (allocate (E := E) n).
Proof. intros Hn input. unfold allocate. by rewrite (proj2 (Z.leb_le _ _) Hn). Qed.

Lemma never_aborts_buffer {E} (e : E) n : n <= memory -> never_aborts (read_buffer e n).
Proof.
  intros Hn. apply never_aborts_bind; [by apply never_aborts_allocate|]. intros _ input.
  unfold read_exact. by case_match.
Qed.

Lemma never_aborts_items {E A} n (item : reader E A) : never_aborts item -> never_aborts (read_items n item).
Proof.
  intros Hi. induction n as [|n IH]; [apply never_aborts_ret|].
  apply never_aborts_bind; [done|intros x]. apply never_aborts_bind; [done|intros xs]. apply never_aborts_ret.
Qed.

Context `{!CborLaws _}.

Lemma reads_header {E} (e : E) h : pushable h -> reads (pull_header e) (push h) h.
Proof. intros Hh rest. unfold pull_header. by rewrite pull_push. Qed.
End readers.

#[export] Hint Resolve never_aborts_ret never_aborts_fail never_aborts_header never_aborts_items : pangolin.

(** [never_aborts m] along the structure of [m]. *)
Ltac never_abort :=
  repeat match goal with
  | |- never_aborts (mbind _ _) => apply never_aborts_bind; [|intros ?]
  | |- never_aborts (match ?x with _ => _ end) => destruct x eqn:?
  | |- never_aborts _ => solve [eauto with pangolin]
  end.

(** ** A codec

    RFC 8949 for the headers the formats use, in the shortest form. *)

Definition head (major n : Z) : list Z :=
  if n <? 24 then [major * 32 + n]
  else if n <? 256 ^ 1 then (major * 32 + 24) :: to_be_bytes 1 n
  else if n <? 256 ^ 2 then (major * 32 + 25) :: to_be_bytes 2 n
  else if n <? 256 ^ 4 then (major * 32 + 26) :: to_be_bytes 4 n
  else (major * 32 + 27) :: to_be_bytes 8 n.

Definition argument (info : Z) (input : list Z) : option (Z * list Z) :=
  let fixed n := if (n <=? length input)%nat then Some (be_value (take n input), drop n input) else None in
  if info <? 24 then Some (info, input)
  else if info =? 24 then fixed 1%nat
  else if info =? 25 then fixed 2%nat
  else if info =? 26 then fixed 4%nat
  else if info =? 27 then fixed 8%nat
  else None.

Definition rfc8949_push (h : Header) : list Z :=
  match h with
  | Positive n => head 0 n
  | Negative n => head 1 n
  | BytesHeader (Some n) => head 2 n
  | TextHeader (Some n) => head 3 n
  | ArrayHeader (Some n) => head 4 n
  | MapHeader (Some n) => head 5 n
  | SimpleHeader v => head 7 v
  | _ => []
  end.

Definition rfc8949_pull (input : list Z) : option (Header * list Z) :=
  match input with
  | [] => None
  | b :: r =>
      '(n, r) ← argument (b mod 32) r;
      let major := b / 32 in
      if major =? 0 then Some (Positive n, r)
      else if major =? 1 then Some (Negative n, r)
      else if major =? 2 then Some (BytesHeader (Some n), r)
      else if major =? 3 then Some (TextHeader (Some n), r)
      else if major =? 4 then Some (ArrayHeader (Some n), r)
      else if major =? 5 then Some (MapHeader (Some n), r)
      else if (major =? 7) && (b mod 32 <? 24) then Some (SimpleHeader n, r)
      else None
  end.

#[export] Instance rfc8949 : Cbor := mkCbor rfc8949_push rfc8949_pull.

Lemma fixed_argument k n input :
  is_u64 n -> n < 256 ^ Z.of_nat k ->
  (if (k <=? length (to_be_bytes k n ++ input))%nat
   then Some (be_value (take k (to_be_bytes k n ++ input)), drop k (to_be_bytes k n ++ input)) else None)
  = Some (n, input).
Proof.
  intros [Hn _] Hk. rewrite (proj2 (Nat.leb_le _ _)) by (rewrite length_app, length_to_be_bytes; lia).
  rewrite take_app_length', drop_app_length' by (by rewrite length_to_be_bytes).
  by rewrite be_value_to_be_bytes, Z.mod_small by lia.
Qed.

Lemma argument_head major n input :
  is_u64 n -> exists info, head major n ++ input = (major * 32 + info) :: tail (head major n) ++ input
    /\ 0 <= info < 28 /\ argument info (tail (head major n) ++ input) = Some (n, input)
    /\ (n < 24 -> info = n).
Proof.
  intros Hn. pose proof Hn as [H0 Hmax]. unfold U64_MAX in Hmax. unfold head.
  destruct (Z.ltb_spec n 24) as [H1|H1]; [exists n; split_and!; [done|lia|lia| |done]|].
  { unfold argument. by rewrite (proj2 (Z.ltb_lt _ _)) by lia. }
  destruct (Z.ltb_spec n (256 ^ 1)) as [H2|H2];
    [exists 24; split_and!; [done|lia|lia|apply (fixed_argument 1); done|lia]|].
  destruct (Z.ltb_spec n (256 ^ 2)) as [H3|H3];
    [exists 25; split_and!; [done|lia|lia|apply (fixed_argument 2); done|lia]|].
  destruct (Z.ltb_spec n (256 ^ 4)) as [H4|H4];
    [exists 26; split_and!; [done|lia|lia|apply (fixed_argument 4); done|lia]|].
  exists 27. split_and!; [done|lia|lia|apply (fixed_argument 8); [done|cbn; lia]|lia].
Qed.

Lemma head_bytes major n : 0 <= major < 8 -> is_u64 n -> Forall is_byte (head major n).
Proof.
  intros Hm [Hn _]. unfold head. repeat case_match; constructor; try apply to_be_bytes_bytes;
    unfold is_byte; repeat match goal with H : (_ <? _) = true |- _ => apply Z.ltb_lt in H end; try lia.
  constructor.
Qed.

#[export] Instance rfc8949_laws : CborLaws rfc8949.
Proof.
  split.
  - intros h rest Hh. unfold pull, push, rfc8949, rfc8949_pull.
    assert (H : exists major n, rfc8949_push h = head major n /\ is_u64 n /\ 0 <= major < 8
      /\ (major = 7 -> n < 24) /\ forall b r, b / 32 = major -> b mod 32 < 24 \/ major <> 7 ->
        (if b / 32 =? 0 then Some (Positive n, r)
         else if b / 32 =? 1 then Some (Negative n, r)
         else if b / 32 =? 2 then Some (BytesHeader (Some n), r)
         else if b / 32 =? 3 then Some (TextHeader (Some n), r)
         else if b / 32 =? 4 then Some (ArrayHeader (Some n), r)
         else if b / 32 =? 5 then Some (MapHeader (Some n), r)
         else if (b / 32 =? 7) && (b mod 32 <? 24) then Some (SimpleHeader n, r)
         else None) = Some (h, r : list Z)).
    { destruct h as [n|n| |v| | |[n|]|[n|]|[n|]|[n|]]; simpl in Hh; try done;
        [exists 0, n|exists 1, n|exists 7, v|exists 2, n|exists 3, n|exists 4, n|exists 5, n];
        (split; [done|]); (split; [first [done|destruct Hh; subst; done]|]); (split; [lia|]);
        (split; [first [lia|destruct Hh; subst; done]|]); intros b r -> Hb; try done.
      simpl. destruct (Z.ltb_spec (b mod 32) 24); [done|lia]. }
    destruct H as (major & n & -> & Hn & Hmajor & H7 & Hsel).
    destruct (argument_head major n rest Hn) as (info & -> & Hi & Ha & Hsmall).
    set (b := major * 32 + info).
    assert (Hb : b / 32 = major /\ b mod 32 = info).
    { unfold b. rewrite Z.add_comm, Z.div_add, Z.mod_add, Z.div_small, Z.mod_small by lia. lia. }
    destruct Hb as [Hdiv Hmod]. rewrite <- Hmod in Ha. rewrite Ha. cbn -[Z.div Z.modulo].
    apply Hsel; [done|]. rewrite Hmod. destruct (Z.eq_dec major 7) as [E|]; [left|by right].
    rewrite Hsmall by (by apply H7). by apply H7.
  - intros h Hh. unfold push, rfc8949.
    destruct h as [n|n| |v| | |[n|]|[n|]|[n|]|[n|]]; simpl in Hh; try done; cbn [rfc8949_push];
      apply head_bytes; try lia; try done. destruct Hh; subst; done.
  - intros h Hh. unfold push, rfc8949.
    destruct h as [n|n| |v| | |[n|]|[n|]|[n|]|[n|]]; simpl in Hh; try done; cbn [rfc8949_push];
      unfold head; repeat case_match; simpl; lia.
Qed.
