(* ===== verification/Base32.v ===== *)
(** * Base32 text with a checksum

    The text form of crates/pangolin-core/src/pairing_transport.rs and of
    crates/pangolin-store/src/recovery_backup.rs: the bytes and the first four
    bytes of their SHA-256, in lower-case base32 without padding.  Both files
    have the same hand-written codec; the errors are parameters.  A Rust string
    is the list of its bytes. *)

From Stdlib Require Import String.
From S2P Require Import Prelude Bytes.
Open Scope Z_scope.

Definition BASE32_ALPHABET : list Z := bytes_of "abcdefghijklmnopqrstuvwxyz234567".
Definition TEXT_CHECKSUM_LEN : nat := 4.

(** The 5-bit groups of the bytes, the last one filled with zeros. *)
Definition base32_groups (bytes : list Z) : list Z :=
  let s := regroup 64 8 5 bytes in
  out s ++ (if 0 <? bits s then [Z.land (Z.shiftl (buf s) (5 - bits s)) 0x1F] else []).

Definition base32_char (idx : Z) : Z := byte_at (Z.to_nat idx) BASE32_ALPHABET.

Definition base32_encode (bytes : list Z) : list Z := base32_char <$> base32_groups bytes.

Section decode.
Context {E : Type}.

Definition base32_decode_char (invalid : E) (c : Z) : result E Z :=
  if in_range 97 122 c then Ok (c - 97)
  else if in_range 50 55 c then Ok (c - 50 + 26)
  else Err invalid.

Definition base32_decode (invalid : E) (bytes : list Z) : result E (list Z) :=
  match bytes with
  | [] => Err invalid
  | _ =>
      groups ← mapM (base32_decode_char invalid) bytes;
      let s := regroup 64 5 8 groups in
      if (0 <? bits s) && negb (leftover s =? 0) then Err invalid else Ok (out s)
  end.

Context (sha256 : list Z -> list Z).

Definition payload_checksum (bytes : list Z) : list Z := take TEXT_CHECKSUM_LEN (sha256 bytes).

Definition encode_text_with_checksum (bytes : list Z) : list Z :=
  base32_encode (bytes ++ payload_checksum bytes).

Definition decode_text_with_checksum (invalid short mismatch : E) (s : list Z) : result E (list Z) :=
  decoded ← base32_decode invalid s;
  if (length decoded <? TEXT_CHECKSUM_LEN)%nat then Err short
  else
    let split := (length decoded - TEXT_CHECKSUM_LEN)%nat in
    let body := take split decoded in
    if bool_decide (drop split decoded = payload_checksum body) then Ok body else Err mismatch.
End decode.

(** ** The alphabet *)

Lemma base32_char_decode {E} (invalid : E) x : is_group 5 x -> base32_decode_char invalid (base32_char x) = Ok x.
Proof.
  intros Hx. unfold is_group in Hx. assert (Hall : forall n, (n < 32)%nat ->
    base32_decode_char invalid (base32_char (Z.of_nat n)) = Ok (Z.of_nat n)).
  { intros n Hn. do 32 (destruct n as [|n]; [reflexivity|]). lia. }
  rewrite <- (Z2Nat.id x) by lia. apply Hall. lia.
Qed.

Lemma base32_decode_char_inv {E} (invalid : E) c x :
  base32_decode_char invalid c = Ok x -> is_group 5 x /\ c = base32_char x.
Proof.
  unfold base32_decode_char, in_range. intros H. assert (Hx : 0 <= x < 32).
  { repeat case_match; try done; injection H as <-; lia. }
  split; [exact Hx|]. assert (Hc : c = if x <? 26 then x + 97 else x + 24).
  { repeat case_match; try done; injection H as <-; lia. }
  rewrite Hc. clear H Hc. rewrite <- (Z2Nat.id x) by lia.
  assert (Hn : (Z.to_nat x < 32)%nat) by lia. revert Hn. generalize (Z.to_nat x). intros n Hn.
  do 32 (destruct n as [|n]; [reflexivity|]). lia.
Qed.

Lemma decode_groups {E} (invalid : E) l :
  Forall (is_group 5) l -> mapM (base32_decode_char invalid) (base32_char <$> l) = Ok l.
Proof.
  induction 1 as [|x l Hx _ IH]; [done|]. rewrite fmap_cons. simpl.
  by rewrite base32_char_decode, IH.
Qed.

Lemma decode_groups_inv {E} (invalid : E) s l :
  mapM (base32_decode_char invalid) s = Ok l -> Forall (is_group 5) l /\ s = base32_char <$> l.
Proof.
  revert l. induction s as [|c s IH]; simpl; intros l Hl; [injection Hl as <-; by split|].
  destruct (base32_decode_char invalid c) as [x|] eqn:Ex; [|done].
  destruct (mapM _ s) as [xs|] eqn:Exs; [|done]. injection Hl as <-. destruct (IH _ eq_refl) as [Hl ->].
  apply base32_decode_char_inv in Ex as [Hx ->]. split; [by constructor|done].
Qed.

(** ** Round trip *)

(** The bits with which the last group is filled. *)
Definition padding (s : BitBuffer) : Z := if 0 <? bits s then 5 - bits s else 0.

Lemma base32_groups_spec bytes :
  Forall is_byte bytes ->
  let p := padding (regroup 64 8 5 bytes) in
  Forall (is_group 5) (base32_groups bytes) /\ 0 <= p < 5
  /\ groups_value 5 (base32_groups bytes) = be_value bytes * 2 ^ p
  /\ 5 * Z.of_nat (length (base32_groups bytes)) = 8 * Z.of_nat (length bytes) + p.
Proof.
  intros Hb. destruct (regroup_spec 64 8 5 bytes) as (Ho & Hbits & Hleft & Hv & Hl); [lia..|done|].
  rewrite groups_value_bytes in Hv. unfold base32_groups, padding.
  destruct (Z.ltb_spec 0 (bits (regroup 64 8 5 bytes))) as [Hpos|Hzero].
  - set (s := regroup 64 8 5 bytes) in *. rewrite leftover_mod in Hleft, Hv by lia.
    assert (Hlast : Z.land (Z.shiftl (buf s) (5 - bits s)) 0x1F = (buf s mod 2 ^ bits s) * 2 ^ (5 - bits s)).
    { change 0x1F with (Z.ones 5). rewrite Z.land_ones, Z.shiftl_mul_pow2 by lia.
      replace (2 ^ 5) with (2 ^ bits s * 2 ^ (5 - bits s)) by (rewrite <- Z.pow_add_r by lia; f_equal; lia).
      apply Z.mul_mod_distr_r; apply Z.pow_nonzero; lia. }
    assert (Hsplit : 2 ^ 5 = 2 ^ bits s * 2 ^ (5 - bits s)) by (rewrite <- Z.pow_add_r by lia; f_equal; lia).
    rewrite Hlast. split_and!; [|lia|lia| |].
    + apply Forall_app. split; [done|]. constructor; [|done]. unfold is_group. rewrite Hsplit.
      assert (0 < 2 ^ (5 - bits s)) by (apply Z.pow_pos_nonneg; lia). nia.
    + rewrite groups_value_snoc, Hv, Hsplit. lia.
    + rewrite length_app. simpl. lia.
  - rewrite app_nil_r. replace (bits (regroup 64 8 5 bytes)) with 0 in * by lia.
    split_and!; [done|lia|lia|rewrite Hv; lia|lia].
Qed.

Lemma regroup_bytes l :
  Forall (is_group 5) l -> let s := regroup 64 5 8 l in
  Forall is_byte (out s) /\ 0 <= bits s < 8 /\ 0 <= leftover s < 2 ^ bits s
  /\ groups_value 5 l = be_value (out s) * 2 ^ bits s + leftover s
  /\ 5 * Z.of_nat (length l) = 8 * Z.of_nat (length (out s)) + bits s.
Proof.
  intros Hl s. destruct (regroup_spec 64 5 8 l) as (Ho & Hb & Hleft & Hv & Hn); [lia..|done|].
  rewrite groups_value_bytes in Hv. done.
Qed.

(** Decoding 5-bit groups: which ones denote the bytes. *)
Lemma groups_denote l bytes p :
  Forall (is_group 5) l -> Forall is_byte bytes -> 0 <= p < 8 ->
  5 * Z.of_nat (length l) = 8 * Z.of_nat (length bytes) + p ->
  groups_value 5 l = be_value bytes * 2 ^ p ->
  out (regroup 64 5 8 l) = bytes /\ leftover (regroup 64 5 8 l) = 0.
Proof.
  intros Hl Hb Hp Hlen Hv. destruct (regroup_bytes l Hl) as (Ho & Hbits & Hleft & Hv' & Hlen').
  set (s := regroup 64 5 8 l) in *. assert (Hn : length (out s) = length bytes /\ bits s = p) by lia.
  destruct Hn as [Hn Hbp]. rewrite Hbp in *. rewrite Hv in Hv'.
  destruct (Z.div_mod_unique (2 ^ p) (be_value bytes) (be_value (out s)) 0 (leftover s)) as [Hbe Hz];
    [left; lia|left; lia|lia|]. split; [|done]. by apply be_value_inj.
Qed.

Lemma base32_roundtrip {E} (invalid : E) bytes :
  Forall is_byte bytes -> bytes <> [] -> base32_decode invalid (base32_encode bytes) = Ok bytes.
Proof.
  intros Hb Hne. destruct (base32_groups_spec bytes Hb) as (Hg & Hp & Hv & Hl).
  unfold base32_decode, base32_encode. destruct (base32_groups bytes) as [|g gs] eqn:Eg.
  { destruct bytes; [done|]. simpl in Hl. lia. }
  rewrite fmap_cons. rewrite <- fmap_cons, decode_groups by done. cbn [mbind result_bind].
  destruct (groups_denote (g :: gs) bytes (padding (regroup 64 8 5 bytes)) Hg Hb ltac:(lia) Hl Hv) as [-> ->].
  by rewrite andb_false_r.
Qed.

(** The characters of the alphabet: letters and [2] to [7]. *)
Lemma base32_encode_chars bytes :
  Forall is_byte bytes -> Forall (fun c => 97 <= c <= 122 \/ 50 <= c <= 55) (base32_encode bytes).
Proof.
  intros Hb. destruct (base32_groups_spec bytes Hb) as (Hg & _). unfold base32_encode.
  apply Forall_fmap. eapply Forall_impl; [exact Hg|]. intros x Hx. unfold compose in *.
  pose proof (base32_char_decode tt x Hx) as Hc. unfold base32_decode_char, in_range in Hc.
  repeat case_match; try done; lia.
Qed.

(** What decodes to given bytes: their encoding, or that encoding with one more
    [a] where the bits left over stay below a byte. *)
Definition one_more (bytes : list Z) : bool :=
  5 * (Z.of_nat (length (base32_encode bytes)) + 1) <? 8 * (Z.of_nat (length bytes) + 1).

Lemma base32_decode_bytes {E} (invalid : E) s bytes :
  base32_decode invalid s = Ok bytes -> s <> [] /\ Forall is_byte bytes.
Proof.
  unfold base32_decode. destruct s as [|c s]; [done|]. intros H. split; [done|]. result_inv.
  apply decode_groups_inv in E0 as [Hl _]. destruct (regroup_bytes _ Hl) as [Ho _].
  case_match; [done|]. by injection H as <-.
Qed.

Lemma base32_decode_accepts {E} (invalid : E) s bytes :
  Forall is_byte bytes -> s <> [] ->
  base32_decode invalid s = Ok bytes <->
  s = base32_encode bytes \/ (one_more bytes = true /\ s = base32_encode bytes ++ [97]).
Proof.
  intros Hb Hne. destruct (base32_groups_spec bytes Hb) as (Hg & Hp & Hv & Hl).
  set (p := padding (regroup 64 8 5 bytes)) in *. unfold one_more, base32_encode.
  rewrite length_fmap. split.
  - intros H. unfold base32_decode in H. destruct s as [|c s]; [done|]. result_inv.
    apply decode_groups_inv in E0 as [Hl' Hs]. rewrite Hs.
    destruct (regroup_bytes _ Hl') as (Ho & Hbits & Hleft & Hv' & Hlen').
    set (r := regroup 64 5 8 a) in *.
    assert (Hz : leftover r = 0 /\ out r = bytes).
    { destruct (_ && _) eqn:Eb in H; [done|]. injection H as <-. split; [|done].
      apply andb_false_iff in Eb as [Eb|Eb].
      - apply Z.ltb_ge in Eb. replace (bits r) with 0 in Hleft by lia. simpl in Hleft. lia.
      - apply negb_false_iff, Z.eqb_eq in Eb. done. }
    destruct Hz as [Hz Ho']. rewrite Hz, Ho' in *.
    assert (Hcase : bits r = p \/ bits r = p + 5) by lia. destruct Hcase as [Hr|Hr].
    + left. f_equal. apply (groups_value_inj 5); [lia|lia|done|done|]. rewrite Hv', Hv, Hr. lia.
    + right. split; [apply Z.ltb_lt; lia|].
      rewrite (groups_value_inj 5 a (base32_groups bytes ++ [0])); [by rewrite fmap_app|lia| |done| |].
      * rewrite length_app. simpl. lia.
      * apply Forall_app. split; [done|]. constructor; [|done]. unfold is_group. lia.
      * rewrite groups_value_snoc, Hv, Hv', Hr, Z.pow_add_r by lia. lia.
  - intros [Hs|[Hm Hs]].
    + destruct bytes as [|b bytes']; [by subst|]. rewrite Hs.
      by apply base32_roundtrip.
    + rewrite Hs. apply Z.ltb_lt in Hm. unfold base32_decode.
      destruct (base32_char <$> base32_groups bytes) as [|c cs] eqn:Ec; simpl app.
      * destruct (base32_groups bytes) as [|? ?] eqn:Eg; [|done]. destruct bytes; [done|]. simpl in Hl. lia.
      * assert (Hm' : mapM (base32_decode_char invalid) (c :: cs ++ [97]) = Ok (base32_groups bytes ++ [0])).
        { change (c :: cs ++ [97]) with ((c :: cs) ++ [base32_char 0]). rewrite <- Ec.
          change [base32_char 0] with (base32_char <$> [0]). rewrite <- fmap_app. apply decode_groups.
          apply Forall_app. split; [done|]. constructor; [|done]. unfold is_group. lia. }
        rewrite Hm'. cbn [mbind result_bind].
        destruct (groups_denote (base32_groups bytes ++ [0]) bytes (p + 5)) as [-> ->].
        -- apply Forall_app. split; [done|]. constructor; [|done]. unfold is_group. lia.
        -- done.
        -- lia.
        -- rewrite length_app. simpl. lia.
        -- rewrite groups_value_snoc, Hv, Z.pow_add_r by lia. lia.
        -- by rewrite andb_false_r.
Qed.

(** ** The checksummed text *)

Lemma base32_encode_length bytes :
  Forall is_byte bytes ->
  exists p, 0 <= p < 5 /\ 5 * Z.of_nat (length (base32_encode bytes)) = 8 * Z.of_nat (length bytes) + p.
Proof.
  intros Hb. destruct (base32_groups_spec bytes Hb) as (_ & Hp & _ & Hl).
  unfold base32_encode. rewrite length_fmap. eauto.
Qed.

Section text.
Context (sha256 : list Z -> list Z).
Context (sha256_len : forall l, length (sha256 l) = 32%nat) (sha256_bytes : forall l, Forall is_byte (sha256 l)).

Lemma length_checksum bytes : length (payload_checksum sha256 bytes) = TEXT_CHECKSUM_LEN.
Proof using sha256_len. unfold payload_checksum. by rewrite length_take, sha256_len. Qed.

Lemma checksummed_bytes bytes : Forall is_byte bytes -> Forall is_byte (bytes ++ payload_checksum sha256 bytes).
Proof using sha256_bytes.
  intros Hb. apply Forall_app. split; [done|]. unfold payload_checksum. by apply Forall_take.
Qed.

Lemma drop_checksum bytes :
  drop (length (bytes ++ payload_checksum sha256 bytes) - TEXT_CHECKSUM_LEN) (bytes ++ payload_checksum sha256 bytes)
  = payload_checksum sha256 bytes
  /\ take (length (bytes ++ payload_checksum sha256 bytes) - TEXT_CHECKSUM_LEN) (bytes ++ payload_checksum sha256 bytes)
  = bytes.
Proof using sha256_len.
  rewrite length_app, length_checksum, Nat.add_sub. by rewrite drop_app_length, take_app_length.
Qed.

Lemma text_roundtrip {E} (invalid short mismatch : E) bytes :
  Forall is_byte bytes ->
  decode_text_with_checksum sha256 invalid short mismatch (encode_text_with_checksum sha256 bytes) = Ok bytes.
Proof using sha256_len sha256_bytes.
  intros Hb. unfold decode_text_with_checksum, encode_text_with_checksum.
  destruct (drop_checksum bytes) as [Hdrop Htake]. set (whole := bytes ++ payload_checksum sha256 bytes) in *.
  assert (Hlen : (TEXT_CHECKSUM_LEN <= length whole)%nat)
    by (unfold whole; rewrite length_app, length_checksum; lia).
  rewrite base32_roundtrip by (first [by apply checksummed_bytes|intros He; rewrite He in Hlen; simpl in Hlen;
    unfold TEXT_CHECKSUM_LEN in Hlen; lia]).
  cbn [mbind result_bind]. rewrite (proj2 (Nat.ltb_ge _ _)) by done. by rewrite Hdrop, Htake, bool_decide_eq_true_2.
Qed.

(** What the text decoder accepts.  A text decodes to some bytes exactly
    when it is their encoding, or, where the bits left over stay below a byte,
    their encoding followed by one more [a]; every other text is refused.  So
    what was encoded decodes to itself, but a decoded text need not be the one
    its bytes encode to. *)
Theorem text_form_accepts {E} (invalid short mismatch : E) s bytes :
  Forall is_byte bytes ->
  decode_text_with_checksum sha256 invalid short mismatch s = Ok bytes <->
  s = encode_text_with_checksum sha256 bytes
  \/ (one_more (bytes ++ payload_checksum sha256 bytes) = true
      /\ s = encode_text_with_checksum sha256 bytes ++ bytes_of "a").
Proof using sha256_len sha256_bytes.
  intros Hb. unfold decode_text_with_checksum, encode_text_with_checksum.
  change (bytes_of "a") with [97]. set (whole := bytes ++ payload_checksum sha256 bytes).
  assert (Hw : Forall is_byte whole) by (by apply checksummed_bytes).
  assert (Hlen : (TEXT_CHECKSUM_LEN <= length whole)%nat)
    by (unfold whole; rewrite length_app, length_checksum; lia).
  assert (Hne : base32_encode whole <> []).
  { destruct (base32_encode_length whole Hw) as (p & Hp & Hl). intros He. rewrite He in Hl.
    unfold TEXT_CHECKSUM_LEN in Hlen. simpl in Hl. lia. }
  destruct (drop_checksum bytes) as [Hdrop Htake]. fold whole in Hdrop, Htake. split.
  - destruct (base32_decode invalid s) as [decoded|] eqn:Ed; [|done]. cbn [mbind result_bind].
    destruct (Nat.ltb_spec (length decoded) TEXT_CHECKSUM_LEN) as [|Hl]; [done|].
    case_bool_decide as Hc; [|done]. intros [= Hbody]. rewrite Hbody in Hc.
    assert (Hdec : decoded = whole).
    { unfold whole. rewrite <- Hc, <- Hbody. by rewrite take_drop. }
    subst decoded. destruct (base32_decode_bytes invalid s whole Ed) as [Hs _].
    by apply (base32_decode_accepts invalid s whole Hw Hs) in Ed.
  - intros Hs. assert (Hsne : s <> []) by (destruct Hs as [->|[_ ->]]; [done|by destruct (base32_encode whole)]).
    rewrite (proj2 (base32_decode_accepts invalid s whole Hw Hsne) Hs). cbn [mbind result_bind].
    rewrite (proj2 (Nat.ltb_ge _ _)) by done. by rewrite Hdrop, Htake, bool_decide_eq_true_2.
Qed.
End text.

(** A toy digest: the sum of the bytes. *)
Definition toy_digest (l : list Z) : list Z := to_be_bytes 32 (foldl Z.add 0 l).

Lemma toy_digest_laws : (forall l, length (toy_digest l) = 32%nat) /\ (forall l, Forall is_byte (toy_digest l)).
Proof. split; intros l; [apply length_to_be_bytes|apply to_be_bytes_bytes]. Qed.

(** The byte [7] with its checksum has two texts. *)
Lemma text_form_accepts_witness :
  decode_text_with_checksum toy_digest 0 1 2 (encode_text_with_checksum toy_digest [7]) = Ok [7]
  /\ decode_text_with_checksum toy_digest 0 1 2 (encode_text_with_checksum toy_digest [7] ++ bytes_of "a") = Ok [7].
Proof.
  destruct toy_digest_laws as [H1 H2].
  assert (Hb : Forall is_byte [7]) by (repeat constructor; unfold is_byte; lia).
  split; apply (text_form_accepts toy_digest H1 H2 0 1 2 _ [7] Hb); [by left|right].
  split; [vm_compute; reflexivity|reflexivity].
Defined.
