(* ===== verification/Totp.v ===== *)
(** * One-time passwords

    crates/pangolin-totp, lib.rs and parse.rs: the RFC 6238 codes, and the parsing
    of secrets from base32 and from [otpauth://] addresses.  A string is the list
    of its bytes; HMAC under each of the three hashes is a parameter. *)

From Stdlib Require Import String.
From S2P Require Import Prelude Bytes Text Base32.
Open Scope Z_scope.

Definition MAX_SECRET_BYTES : nat := 256.

Inductive TotpAlgorithm : Type := Sha1 | Sha256 | Sha512.

(** [TotpError], without the text a message quotes. *)
Inductive TotpError : Type :=
| EmptySecret
| SecretTooLong (len max : nat)
| InvalidDigits (digits : Z)
| InvalidPeriod (period : Z)
| InvalidBase32
| MalformedUri
| HotpNotSupported
| UnsupportedAlgorithm
| NegativeTime.

#[export] Instance TotpAlgorithm_eq_dec : EqDecision TotpAlgorithm.
Proof. solve_decision. Defined.

Definition parse_algorithm (s : list Z) : result TotpError TotpAlgorithm :=
  let s := to_ascii_uppercase s in
  if bool_decide (s = bytes_of "SHA1") then Ok Sha1
  else if bool_decide (s = bytes_of "SHA256") then Ok Sha256
  else if bool_decide (s = bytes_of "SHA512") then Ok Sha512
  else Err UnsupportedAlgorithm.

Definition to_wire (a : TotpAlgorithm) : Z := match a with Sha1 => 0 | Sha256 => 1 | Sha512 => 2 end.

Definition from_wire (v : Z) : result TotpError TotpAlgorithm :=
  if v =? 0 then Ok Sha1 else if v =? 1 then Ok Sha256 else if v =? 2 then Ok Sha512
  else Err UnsupportedAlgorithm.

Record TotpParams : Type := mkTotpParams { algorithm : TotpAlgorithm; digits : Z; period_seconds : Z }.

Definition default_params : TotpParams := mkTotpParams Sha1 6 30.

Definition validate (p : TotpParams) : result TotpError unit :=
  if negb (in_range 6 8 (digits p)) then Err (InvalidDigits (digits p))
  else if (period_seconds p =? 0) || (3600 <? period_seconds p) then Err (InvalidPeriod (period_seconds p))
  else Ok tt.

Record TotpCode : Type := mkTotpCode { code : list Z; seconds_remaining : Z; code_period : Z }.

(** ** Codes *)

Section codes.
Context (hmac : TotpAlgorithm -> list Z -> list Z -> list Z).

(** [None] where an index is out of bounds. *)
Definition hotp_truncate (algorithm : TotpAlgorithm) (secret msg : list Z) : option Z :=
  let tag := hmac algorithm secret msg in
  last_byte ← tag !! (length tag - 1)%nat;
  let offset := Z.to_nat (Z.land last_byte 0x0f) in
  b0 ← tag !! offset;
  b1 ← tag !! (offset + 1)%nat;
  b2 ← tag !! (offset + 2)%nat;
  b3 ← tag !! (offset + 3)%nat;
  Some (Z.lor (Z.lor (Z.lor (Z.shiftl (Z.land b0 0x7f) 24) (Z.shiftl b1 16)) (Z.shiftl b2 8)) b3).

Definition totp_at (secret : list Z) (at_unix_secs : Z) (params : TotpParams) :
    result (failure TotpError) TotpCode :=
  if (length secret =? 0)%nat then Err (Failed EmptySecret)
  else if (MAX_SECRET_BYTES <? length secret)%nat
  then Err (Failed (SecretTooLong (length secret) MAX_SECRET_BYTES))
  else
    map_err Failed (validate params) ≫= fun _ =>
    let period := period_seconds params in
    let counter := at_unix_secs / period in
    let counter_be := to_be_bytes 8 counter in
    bin_code ← ok_or (hotp_truncate (algorithm params) secret counter_be) Abort;
    let modulus := 10 ^ digits params in
    let value := bin_code mod modulus in
    let code := format_padded (Z.to_nat (digits params)) value in
    let seconds_remaining := period_seconds params - default 0 (u32_try_from (at_unix_secs mod period)) in
    Ok (mkTotpCode code seconds_remaining (period_seconds params)).
End codes.

(** ** Secrets *)

Record ParsedTotpSecret : Type := mkParsed {
  secret_bytes : list Z;
  params : TotpParams;
  label : option (list Z);
  issuer : option (list Z)
}.

(** Padding and the separators of printed secrets. *)
Definition ignored (ch : Z) : bool := (ch =? 61) || is_ascii_whitespace ch || (ch =? 45).

Definition base32_value (ch : Z) : result TotpError Z :=
  let c := ascii_upper ch in
  if in_range 65 90 c then Ok (c - 65)
  else if in_range 50 55 c then Ok (c - 50 + 26)
  else Err InvalidBase32.

Definition decode_base32 (input : list Z) : result TotpError (list Z) :=
  groups ← mapM base32_value (filter (fun ch => ignored ch = false) input);
  let s := regroup 32 5 8 groups in
  if (5 <=? bits s) || (negb (leftover s =? 0) && (0 <? bits s)) then Err InvalidBase32 else Ok (out s).

Definition hex_val (b : Z) : option Z :=
  if in_range 48 57 b then Some (b - 48)
  else if in_range 97 102 b then Some (b - 97 + 10)
  else if in_range 65 70 b then Some (b - 65 + 10)
  else None.

(** The bytes a label or a value decodes to. *)
Fixpoint percent_bytes (fuel : nat) (s : list Z) : list Z :=
  match fuel with
  | O => []
  | S fuel =>
      match s with
      | [] => []
      | 37 :: (h :: l :: r) as s' =>
          match hex_val h, hex_val l with
          | Some h, Some l => Z.lor (Z.shiftl h 4) l :: percent_bytes fuel r
          | _, _ => 37 :: percent_bytes fuel (tail s')
          end
      | 43 :: r => 32 :: percent_bytes fuel r
      | b :: r => b :: percent_bytes fuel r
      end
  end.

Definition percent_decode (s : list Z) : list Z := from_utf8_lossy (percent_bytes (length s) s).

Definition finish (secret_bytes : list Z) (params : TotpParams) (label issuer : option (list Z)) :
    result TotpError ParsedTotpSecret :=
  if (length secret_bytes =? 0)%nat then Err EmptySecret
  else if (MAX_SECRET_BYTES <? length secret_bytes)%nat
  then Err (SecretTooLong (length secret_bytes) MAX_SECRET_BYTES)
  else validate params ≫= fun _ => Ok (mkParsed secret_bytes params label issuer).

(** What the query of an address says. *)
Record Query : Type := mkQuery {
  q_secret : option (list Z); q_params : TotpParams; q_issuer : option (list Z)
}.

Definition query_pair (q : Query) (pair : list Z) : result TotpError Query :=
  match split_once 61 pair with
  | None => Ok q
  | Some (k, v) =>
      let v := percent_decode v in
      let k := to_ascii_lowercase k in
      let p := q_params q in
      if bool_decide (k = bytes_of "secret") then Ok (mkQuery (Some v) p (q_issuer q))
      else if bool_decide (k = bytes_of "algorithm") then
        a ← parse_algorithm v; Ok (mkQuery (q_secret q) (mkTotpParams a (digits p) (period_seconds p)) (q_issuer q))
      else if bool_decide (k = bytes_of "digits") then
        d ← ok_or (parse_unsigned U8_MAX v) (InvalidDigits 0);
        Ok (mkQuery (q_secret q) (mkTotpParams (algorithm p) d (period_seconds p)) (q_issuer q))
      else if bool_decide (k = bytes_of "period") then
        s ← ok_or (parse_unsigned U32_MAX v) (InvalidPeriod 0);
        Ok (mkQuery (q_secret q) (mkTotpParams (algorithm p) (digits p) s) (q_issuer q))
      else if bool_decide (k = bytes_of "issuer") then Ok (mkQuery (q_secret q) p (Some v))
      else Ok q
  end.

Definition parse_query (query : list Z) : result TotpError Query :=
  foldl (fun r pair => q ← r; query_pair q pair) (Ok (mkQuery None default_params None))
    (filter (fun pair => pair <> []) (split 38 query)).

Definition parse_otpauth_uri (input : list Z) : result TotpError ParsedTotpSecret :=
  rest ← ok_or (strip_prefix (bytes_of "otpauth://") input) MalformedUri;
  let '(host_path, query) := default (rest, []) (split_once 63 rest) in
  let '(host, path) := default (host_path, []) (split_once 47 host_path) in
  let host := to_ascii_lowercase host in
  (if bool_decide (host = bytes_of "totp") then Ok tt
   else if bool_decide (host = bytes_of "hotp") then Err HotpNotSupported
   else Err MalformedUri) ≫= fun _ =>
  let label := match path with [] => None | _ => Some (percent_decode path) end in
  q ← parse_query query;
  secret_str ← ok_or (q_secret q) MalformedUri;
  secret_bytes ← decode_base32 secret_str;
  finish secret_bytes (q_params q) label (q_issuer q).

Definition parse_totp_secret (input : list Z) : result TotpError ParsedTotpSecret :=
  let trimmed := trim input in
  if starts_with (bytes_of "otpauth://") trimmed then parse_otpauth_uri trimmed
  else match trimmed with
  | [] => Err EmptySecret
  | _ => secret_bytes ← decode_base32 trimmed; finish secret_bytes default_params None None
  end.

(** ** Facts: codes *)

Lemma lor_shiftl a b k : 0 <= k -> 0 <= b < 2 ^ k -> Z.lor (Z.shiftl a k) b = a * 2 ^ k + b.
Proof.
  intros Hk Hb. rewrite Z.shiftl_mul_pow2, <- Z.add_nocarry_lor; [done|..|done].
  apply Z.bits_inj'. intros i Hi. rewrite Z.land_spec, Z.bits_0.
  destruct (Z.lt_ge_cases i k) as [Hik|Hik]; [by rewrite Z.mul_pow2_bits_low by lia|].
  replace (Z.testbit b i) with false; [by rewrite andb_false_r|]. symmetry.
  destruct (Z.eq_dec b 0) as [->|]; [apply Z.bits_0|]. apply Z.bits_above_log2; [lia|].
  apply (Z.lt_le_trans _ k); [apply Z.log2_lt_pow2; lia|done].
Qed.

(** The dynamic truncation of RFC 4226, on the number the four bytes write. *)
Definition truncation (tag : list Z) : Z :=
  let offset := Z.to_nat (List.last tag 0 mod 16) in be_value (slice offset 4 tag) mod 2 ^ 31.

Lemma truncate_bytes b0 b1 b2 b3 :
  is_byte b0 -> is_byte b1 -> is_byte b2 -> is_byte b3 ->
  Z.lor (Z.lor (Z.lor (Z.shiftl (Z.land b0 0x7f) 24) (Z.shiftl b1 16)) (Z.shiftl b2 8)) b3
  = be_value [b0; b1; b2; b3] mod 2 ^ 31.
Proof.
  unfold is_byte. intros H0 H1 H2 H3. change 0x7f with (Z.ones 7). rewrite Z.land_ones by lia.
  change (2 ^ 7) with 128. pose proof (Z.mod_pos_bound b0 128 ltac:(lia)) as Hm.
  replace (Z.shiftl (b0 mod 128) 24) with (Z.shiftl (Z.shiftl (b0 mod 128) 8) 16) by (by rewrite Z.shiftl_shiftl).
  rewrite <- Z.shiftl_lor, (lor_shiftl (b0 mod 128) b1 8) by lia.
  replace (Z.shiftl (b0 mod 128 * 2 ^ 8 + b1) 16) with (Z.shiftl (Z.shiftl (b0 mod 128 * 2 ^ 8 + b1) 8) 8)
    by (by rewrite Z.shiftl_shiftl).
  rewrite <- Z.shiftl_lor, (lor_shiftl _ b2 8), (lor_shiftl _ b3 8) by lia.
  apply Z.mod_unique with (b0 / 128); [left; simpl; lia|]. pose proof (Z.div_mod b0 128 ltac:(lia)) as Hd.
  simpl be_value. change (2 ^ 31) with 2147483648. change (2 ^ 8) with 256. lia.
Qed.

Lemma lookup_slice4 off (l : list Z) :
  (off + 4 <= length l)%nat ->
  exists b0 b1 b2 b3, l !! off = Some b0 /\ l !! (off + 1)%nat = Some b1 /\ l !! (off + 2)%nat = Some b2
  /\ l !! (off + 3)%nat = Some b3 /\ slice off 4 l = [b0; b1; b2; b3].
Proof.
  intros Hl. unfold slice. assert (Hd : (4 <= length (drop off l))%nat) by (rewrite length_drop; lia).
  assert (Hk : forall k, l !! (off + k)%nat = drop off l !! k) by (intros k; by rewrite lookup_drop).
  pose proof (Hk 0%nat) as H0. rewrite Nat.add_0_r in H0. rewrite H0, !Hk.
  destruct (drop off l) as [|b0 [|b1 [|b2 [|b3 r]]]]; simpl in Hd; try lia. by exists b0, b1, b2, b3.
Qed.

Lemma validate_spec p : validate p = Ok tt <-> 6 <= digits p <= 8 /\ period_seconds p <> 0 /\ period_seconds p <= 3600.
Proof.
  unfold validate, in_range. destruct (Z.leb_spec 6 (digits p)), (Z.leb_spec (digits p) 8); simpl; try (split; [done|lia]).
  destruct (Z.eqb_spec (period_seconds p) 0), (Z.ltb_spec 3600 (period_seconds p)); simpl; split; try done; lia.
Qed.

Section code_facts.
Context (hmac : TotpAlgorithm -> list Z -> list Z -> list Z).
Context (hmac_tag : forall a k m, (20 <= length (hmac a k m))%nat /\ Forall is_byte (hmac a k m)).

(** No index is out of bounds: the offset is at most 15 and a tag has at least
    20 bytes. *)
Lemma hotp_truncate_spec a secret msg : hotp_truncate hmac a secret msg = Some (truncation (hmac a secret msg)).
Proof using hmac_tag.
  unfold hotp_truncate, truncation. destruct (hmac_tag a secret msg) as [Hl Hb]. set (tag := hmac a secret msg) in *.
  clearbody tag. destruct tag as [|x tag _] using rev_ind; [simpl in Hl; lia|].
  rewrite length_app, Nat.add_sub, lookup_app_r, Nat.sub_diag, List.last_last by lia. cbn [lookup list_lookup mbind option_bind].
  change 0x0f with (Z.ones 4). rewrite Z.land_ones by lia. change (2 ^ 4) with 16.
  pose proof (Z.mod_pos_bound x 16 ltac:(lia)) as Hx.
  destruct (lookup_slice4 (Z.to_nat (x mod 16)) (tag ++ [x])) as (b0 & b1 & b2 & b3 & H0 & H1 & H2 & H3 & ->); [lia|].
  rewrite H0, H1, H2, H3. cbn [mbind option_bind].
  rewrite truncate_bytes; [done|..]; by eapply Forall_lookup_1.
Qed.

Lemma totp_at_runs secret t p :
  (0 < length secret <= MAX_SECRET_BYTES)%nat -> validate p = Ok tt -> 0 <= period_seconds p -> 0 <= t <= U64_MAX ->
  exists c, totp_at hmac secret t p = Ok c
  /\ length (code c) = Z.to_nat (digits p) /\ Forall (fun d => 48 <= d <= 57) (code c)
  /\ decimal_value (code c)
     = truncation (hmac (algorithm p) secret (to_be_bytes 8 (t / period_seconds p))) mod 10 ^ digits p
  /\ 0 < seconds_remaining c <= period_seconds p
  /\ (t + seconds_remaining c) / period_seconds p = t / period_seconds p + 1
  /\ forall t', 0 <= t' <= U64_MAX -> t' / period_seconds p = t / period_seconds p ->
     exists c', totp_at hmac secret t' p = Ok c' /\ code c' = code c.
Proof using hmac_tag.
  intros Hs Hv H0 Ht.
  assert (Hp : 6 <= digits p <= 8 /\ 0 < period_seconds p <= 3600).
  { apply validate_spec in Hv. lia. }
  destruct Hp as [Hd Hper].
  assert (Hrun : forall t', 0 <= t' <= U64_MAX -> totp_at hmac secret t' p = Ok (mkTotpCode
    (format_padded (Z.to_nat (digits p))
      (truncation (hmac (algorithm p) secret (to_be_bytes 8 (t' / period_seconds p))) mod 10 ^ digits p))
    (period_seconds p - t' mod period_seconds p) (period_seconds p))).
  { intros t' Ht'. unfold totp_at. rewrite (proj2 (Nat.eqb_neq _ _)), (proj2 (Nat.ltb_ge _ _)), Hv by lia.
    cbn [map_err mbind result_bind]. rewrite hotp_truncate_spec. cbn [ok_or mbind result_bind].
    pose proof (Z.mod_pos_bound t' (period_seconds p) ltac:(lia)).
    unfold u32_try_from. rewrite (proj2 (try_from_Some 0 U32_MAX (t' mod period_seconds p) (t' mod period_seconds p))); [done|unfold U32_MAX; lia]. }
  exists (mkTotpCode (format_padded (Z.to_nat (digits p))
      (truncation (hmac (algorithm p) secret (to_be_bytes 8 (t / period_seconds p))) mod 10 ^ digits p))
    (period_seconds p - t mod period_seconds p) (period_seconds p)). cbn [code seconds_remaining].
  destruct (format_padded_spec (Z.to_nat (digits p))
    (truncation (hmac (algorithm p) secret (to_be_bytes 8 (t / period_seconds p))) mod 10 ^ digits p)) as (H1 & H2 & H3); [lia| |].
  { rewrite Z2Nat.id by lia. apply Z.mod_pos_bound, Z.pow_pos_nonneg; lia. }
  pose proof (Z.mod_pos_bound t (period_seconds p) ltac:(lia)). pose proof (Z.div_mod t (period_seconds p) ltac:(lia)).
  split_and!; [by apply Hrun|done|done|done|lia|lia| |].
  - symmetry. apply Z.div_unique with 0; [lia|]. lia.
  - intros t' Ht' Hsame. eexists. split; [by apply Hrun|]. cbn [code]. by rewrite Hsame.
Qed.

(** The codes are those of RFC 6238.  A non-empty secret of at most 256 bytes and
    valid parameters always give a code: exactly the configured number of decimal
    digits, which write the dynamically truncated HMAC of the time counter modulo
    the power of ten; no index is out of bounds whatever the tag is.  The code
    is the same through its window, which ends after the seconds announced. *)
Theorem totp_code secret t p :
  (0 < length secret <= MAX_SECRET_BYTES)%nat -> validate p = Ok tt -> 0 <= period_seconds p -> 0 <= t <= U64_MAX ->
  exists c, totp_at hmac secret t p = Ok c
  /\ length (code c) = Z.to_nat (digits p) /\ Forall (fun d => 48 <= d <= 57) (code c)
  /\ decimal_value (code c)
     = truncation (hmac (algorithm p) secret (to_be_bytes 8 (t / period_seconds p))) mod 10 ^ digits p
  /\ 0 < seconds_remaining c <= period_seconds p
  /\ (t + seconds_remaining c) / period_seconds p = t / period_seconds p + 1
  /\ forall t', 0 <= t' <= U64_MAX -> t' / period_seconds p = t / period_seconds p ->
     exists c', totp_at hmac secret t' p = Ok c' /\ code c' = code c.
Proof using hmac_tag. apply totp_at_runs. Qed.
End code_facts.

(** A toy HMAC: twenty bytes of the message. *)
Definition toy_hmac (a : TotpAlgorithm) (key msg : list Z) : list Z := to_be_bytes 20 ((be_value msg + be_value key + 1000003) ^ 9).

Lemma totp_code_witness :
  exists c, totp_at toy_hmac [1; 2; 3] 59 default_params = Ok c /\ seconds_remaining c = 1
  /\ code c = bytes_of "117490".
Proof.
  destruct (totp_code toy_hmac) with (secret := [1; 2; 3]) (t := 59) (p := default_params) as (c & Hc & _);
    [|simpl; unfold MAX_SECRET_BYTES; lia|reflexivity|simpl; lia|unfold U64_MAX; lia|].
  { intros a k m. split; [unfold toy_hmac; rewrite length_to_be_bytes; lia|apply to_be_bytes_bytes]. }
  exists c. split; [exact Hc|]. vm_compute in Hc. injection Hc as <-. split; vm_compute; reflexivity.
Defined.

(** ** Facts: secrets *)

Lemma base32_value_lower ch : base32_value ch = base32_decode_char InvalidBase32 (ascii_lower ch).
Proof.
  unfold base32_value, base32_decode_char, ascii_upper, ascii_lower, in_range.
  repeat (case_match; zbool; simpl in *; try done); try (f_equal; lia);
    repeat match goal with H : (_ && _) = false |- _ => apply andb_false_iff in H as [H|H] end; zbool; lia.
Qed.

Lemma base32_values_lower l : mapM base32_value l = mapM (base32_decode_char InvalidBase32) (to_ascii_lowercase l).
Proof.
  unfold to_ascii_lowercase. induction l as [|ch l IH]; [done|]. rewrite fmap_cons. simpl.
  by rewrite base32_value_lower, IH.
Qed.

Lemma regroup_narrow l : Forall (is_group 5) l ->
  out (regroup 32 5 8 l) = out (regroup 64 5 8 l) /\ bits (regroup 32 5 8 l) = bits (regroup 64 5 8 l)
  /\ leftover (regroup 32 5 8 l) = leftover (regroup 64 5 8 l).
Proof.
  intros Hl. destruct (regroup_spec 32 5 8 l) as (Ho & Hb & Hr & Hv & Hn); [lia..|done|].
  destruct (regroup_spec 64 5 8 l) as (Ho' & Hb' & Hr' & Hv' & Hn'); [lia..|done|].
  set (s := regroup 32 5 8 l) in *. set (s' := regroup 64 5 8 l) in *.
  assert (Hlen : length (out s) = length (out s') /\ bits s = bits s') by lia. destruct Hlen as [Hlen Hbits].
  rewrite Hbits in *. rewrite Hv in Hv'.
  destruct (Z.div_mod_unique (2 ^ bits s') (groups_value 8 (out s)) (groups_value 8 (out s')) (leftover s) (leftover s'))
    as [Hq Hleft]; [left; lia|left; lia|lia|].
  split_and!; [|done|done]. by apply (groups_value_inj 8).
Qed.

(** Which secrets are read as which bytes.  Once padding and separators are
    ignored and letters are taken in lower case, an input decodes to some bytes
    exactly when it is their base32 encoding; nothing else is accepted, so what
    is left is the one spelling of the secret. *)
Theorem decode_base32_exact input bytes :
  Forall is_byte bytes ->
  decode_base32 input = Ok bytes <->
  to_ascii_lowercase (filter (fun ch => ignored ch = false) input) = base32_encode bytes.
Proof.
  intros Hb. unfold decode_base32. rewrite base32_values_lower. set (s := to_ascii_lowercase _).
  destruct (base32_groups_spec bytes Hb) as (Hg & Hp & Hv & Hl). set (p := padding (regroup 64 8 5 bytes)) in *.
  unfold base32_encode. split.
  - intros H. destruct (mapM (base32_decode_char InvalidBase32) s) as [l|] eqn:Em; [|done].
    cbn [mbind result_bind] in H. apply decode_groups_inv in Em as [Hl5 Hs]. rewrite Hs.
    destruct (regroup_narrow l Hl5) as (Eo & Eb & El). rewrite Eo, Eb, El in H.
    destruct (regroup_bytes l Hl5) as (Ho & Hbits & Hleft & Hval & Hlen). set (r := regroup 64 5 8 l) in *.
    destruct (Z.leb_spec 5 (bits r)) as [|Hlt]; [done|]. cbn [orb] in H.
    destruct ((negb (leftover r =? 0)) && (0 <? bits r)) eqn:Ez; [done|]. injection H as <-.
    assert (Hz : leftover r = 0).
    { apply andb_false_iff in Ez as [Ez|Ez]; [apply negb_false_iff, Z.eqb_eq in Ez; done|].
      apply Z.ltb_ge in Ez. replace (bits r) with 0 in Hleft by lia. simpl in Hleft. lia. }
    assert (Hbp : bits r = p) by lia. f_equal. apply (groups_value_inj 5); [lia|lia|done|done|].
    rewrite Hval, Hv, Hz, Hbp. lia.
  - intros ->. rewrite decode_groups by done. cbn [mbind result_bind].
    destruct (regroup_narrow _ Hg) as (-> & -> & ->).
    destruct (groups_denote (base32_groups bytes) bytes p Hg Hb ltac:(lia) Hl Hv) as [-> ->].
    destruct (regroup_bytes _ Hg) as (_ & Hbits & _ & _ & Hlen).
    assert (Hbp : bits (regroup 64 5 8 (base32_groups bytes)) < 5).
    { destruct (groups_denote (base32_groups bytes) bytes p Hg Hb ltac:(lia) Hl Hv) as [E _]. rewrite E in Hlen. lia. }
    destruct (Z.leb_spec 5 (bits (regroup 64 5 8 (base32_groups bytes)))); [lia|]. done.
Qed.

Lemma decode_base32_exact_witness :
  decode_base32 (bytes_of "JBSW Y3DP-EE======") = Ok (bytes_of "Hello!").
Proof. apply (decode_base32_exact _ _ (bytes_of_bytes "Hello!")). vm_compute. reflexivity. Defined.

(** What any accepted input stores. *)
Definition usable (p : ParsedTotpSecret) : Prop :=
  (0 < length (secret_bytes p) <= MAX_SECRET_BYTES)%nat /\ validate (params p) = Ok tt
  /\ 0 <= period_seconds (params p).

Lemma finish_usable bytes p l i r : 0 <= period_seconds p -> finish bytes p l i = Ok r -> usable r.
Proof.
  unfold finish. intros Hp H. destruct (Nat.eqb_spec (length bytes) 0); [done|].
  destruct (Nat.ltb_spec MAX_SECRET_BYTES (length bytes)); [done|].
  destruct (validate p) as [[]|] eqn:Ev; [|done]. injection H as <-. split; [simpl; lia|done].
Qed.

Lemma digit_bounds hi a d n :
  0 <= a -> (if in_range 48 57 d then let n := a * 10 + (d - 48) in if n <=? hi then Some n else None else None) = Some n ->
  0 <= n <= hi.
Proof.
  intros Ha H. unfold in_range in H. destruct ((48 <=? d) && (d <=? 57)) eqn:E; [|done]. cbv zeta in H.
  destruct (a * 10 + (d - 48) <=? hi) eqn:E2; [|done]. injection H as <-. zbool. lia.
Qed.

Lemma parse_unsigned_nonneg hi s n : parse_unsigned hi s = Some n -> 0 <= n <= hi.
Proof.
  unfold parse_unsigned. generalize (match s with 43 :: r => r | _ => s end). intros [|d l] H; [done|].
  set (step := fun acc d => _) in H.
  assert (G : forall l acc, (forall a, acc = Some a -> 0 <= a <= hi) -> foldl step acc l = Some n -> 0 <= n <= hi).
  { clear H d l. induction l as [|e l IH]; intros acc Hacc H; [by apply Hacc|]. cbn [foldl] in H. apply IH in H; [done|].
    intros a Ha. destruct acc as [b|]; [|done]. unfold step in Ha. cbn [mbind option_bind] in Ha.
    apply digit_bounds in Ha; [done|]. by apply Hacc. }
  cbn [foldl] in H. apply G in H; [done|]. intros a Ha. unfold step in Ha. cbn [mbind option_bind] in Ha.
  by apply digit_bounds in Ha.
Qed.

Lemma query_pair_period q pair q' :
  0 <= period_seconds (q_params q) -> query_pair q pair = Ok q' -> 0 <= period_seconds (q_params q').
Proof.
  intros Hq H. unfold query_pair in H. destruct (split_once 61 pair) as [[k v]|]; [|by injection H as <-].
  destruct (bool_decide _); [by injection H as <-|].
  destruct (bool_decide _); [destruct (parse_algorithm _); [by injection H as <-|done]|].
  destruct (bool_decide _); [destruct (parse_unsigned U8_MAX _); [by injection H as <-|done]|].
  destruct (bool_decide _); [|destruct (bool_decide _); by injection H as <-].
  destruct (parse_unsigned U32_MAX _) as [s|] eqn:Es; [|done]. injection H as <-.
  by apply parse_unsigned_nonneg in Es as [].
Qed.

Lemma parse_query_period query q : parse_query query = Ok q -> 0 <= period_seconds (q_params q).
Proof.
  unfold parse_query. generalize (filter (fun pair => pair <> []) (split 38 query)). intros l.
  enough (G : forall r, (forall q0, r = Ok q0 -> 0 <= period_seconds (q_params q0)) ->
    foldl (fun r pair => q ← r; query_pair q pair) r l = Ok q -> 0 <= period_seconds (q_params q)).
  { apply G. intros q0 [= <-]. simpl. lia. }
  induction l as [|pair l IH]; intros r Hr H; [by apply Hr|]. simpl in H. apply IH in H; [done|].
  intros q0 Hq0. destruct r as [q1|]; [|done]. eapply query_pair_period; [by apply Hr|exact Hq0].
Qed.

Lemma parse_otpauth_usable input p : parse_otpauth_uri input = Ok p -> usable p.
Proof.
  unfold parse_otpauth_uri. intros H.
  destruct (strip_prefix _ input) as [rest|]; [|done]. cbn [ok_or mbind result_bind] in H.
  destruct (default (rest, []) (split_once 63 rest)) as [host_path query].
  destruct (default (host_path, []) (split_once 47 host_path)) as [host path].
  destruct (bool_decide _); [|by destruct (bool_decide _)]. cbn [mbind result_bind] in H.
  destruct (parse_query query) as [q|] eqn:Eq; [|done]. cbn [mbind result_bind] in H.
  destruct (q_secret q) as [s|]; [|done]. cbn [ok_or mbind result_bind] in H.
  destruct (decode_base32 s) as [bytes|]; [|done]. cbn [mbind result_bind] in H.
  apply finish_usable in H; [done|]. by apply parse_query_period in Eq.
Qed.

Lemma parse_totp_usable input p : parse_totp_secret input = Ok p -> usable p.
Proof.
  unfold parse_totp_secret. intros H. destruct (starts_with _ _); [by apply parse_otpauth_usable in H|].
  destruct (trim input) as [|x l]; [done|]. destruct (decode_base32 (x :: l)) as [bytes|]; [|done].
  cbn [mbind result_bind] in H. apply finish_usable in H; [done|]. simpl. lia.
Qed.

(** A secret that was accepted always works.  Whatever text [parse_totp_secret]
    accepts, an address or a bare secret, the code of what it returns can be
    computed at any time: generation never fails on it and never panics. *)
Theorem accepted_secret_works hmac input p t :
  (forall a k m, (20 <= length (hmac a k m))%nat /\ Forall is_byte (hmac a k m)) -> 0 <= t <= U64_MAX ->
  parse_totp_secret input = Ok p ->
  exists c, totp_at hmac (secret_bytes p) t (params p) = Ok c /\ length (code c) = Z.to_nat (digits (params p)).
Proof.
  intros Hmac Ht (H1 & H2 & H3)%parse_totp_usable. destruct (totp_at_runs hmac Hmac (secret_bytes p) t (params p) H1 H2 H3 Ht) as (c & Hc & Hl & _).
  by exists c.
Qed.

Definition sample_uri : list Z :=
  bytes_of " otpauth://totp/Acme:ann%40acme.org?secret=jbsw%20y3dp-ee&issuer=Acme+Co&period=60&digits=8&x ".

Lemma accepted_secret_works_witness :
  parse_totp_secret sample_uri
  = Ok (mkParsed (bytes_of "Hello!") (mkTotpParams Sha1 8 60) (Some (bytes_of "Acme:ann@acme.org")) (Some (bytes_of "Acme Co")))
  /\ exists c, totp_at toy_hmac (bytes_of "Hello!") 1700000000 (mkTotpParams Sha1 8 60) = Ok c
    /\ length (code c) = 8%nat.
Proof.
  assert (Hp : parse_totp_secret sample_uri = Ok (mkParsed (bytes_of "Hello!") (mkTotpParams Sha1 8 60)
    (Some (bytes_of "Acme:ann@acme.org")) (Some (bytes_of "Acme Co")))) by (vm_compute; reflexivity).
  split; [exact Hp|].
  apply (accepted_secret_works toy_hmac sample_uri _ 1700000000) in Hp; [exact Hp| |unfold U64_MAX; lia].
  intros a k m. split; [unfold toy_hmac; rewrite length_to_be_bytes; lia|apply to_be_bytes_bytes].
Defined.
