(* ===== verification/Pairing.v ===== *)
(** * The pairing payload

    crates/pangolin-core/src/pairing_transport.rs: the fixed-layout payload a
    new device shows to the manager, its byte form and its text form.  A byte
    array is a list of bytes; SHA-256 is a parameter. *)

From Stdlib Require Import String.
From S2P Require Import Prelude Bytes Base32.
Open Scope Z_scope.

Definition VAULT_ID_LEN : nat := 32.
Definition DEVICE_ID_LEN : nat := 32.
Definition X25519_KEY_LEN : nat := 32.
Definition SIGNER_LEN : nat := 20.
Definition FRESHNESS_NONCE_LEN : nat := 16.
Definition DOMAIN : list Z := bytes_of "pangolin-pairing-payload-v0".
Definition SCHEMA_VERSION : Z := 2.
Definition PAYLOAD_LEN : nat :=
  length DOMAIN + 1 + VAULT_ID_LEN + DEVICE_ID_LEN + X25519_KEY_LEN + SIGNER_LEN + FRESHNESS_NONCE_LEN.

Definition OFFSET_SCHEMA_VERSION : nat := length DOMAIN.
Definition OFFSET_VAULT_ID : nat := OFFSET_SCHEMA_VERSION + 1.
Definition OFFSET_DEVICE_ID : nat := OFFSET_VAULT_ID + VAULT_ID_LEN.
Definition OFFSET_PAIRING_PUB : nat := OFFSET_DEVICE_ID + DEVICE_ID_LEN.
Definition OFFSET_SIGNER : nat := OFFSET_PAIRING_PUB + X25519_KEY_LEN.
Definition OFFSET_FRESHNESS_NONCE : nat := OFFSET_SIGNER + SIGNER_LEN.

Record PairingPayload : Type := mkPairingPayload {
  schema_version : Z;
  vault_id : list Z;
  device_id : list Z;
  x25519_pairing_pub : list Z;
  signer : list Z;
  freshness_nonce : list Z
}.

Inductive PairingTransportError : Type :=
| WrongLength | DomainMismatch | UnsupportedVersion | ChecksumMismatch | InvalidEncoding.

Definition encode_bytes (p : PairingPayload) : list Z :=
  DOMAIN ++ [schema_version p] ++ vault_id p ++ device_id p ++ x25519_pairing_pub p ++ signer p
  ++ freshness_nonce p.

Definition decode_bytes (bytes : list Z) : result PairingTransportError PairingPayload :=
  if negb (length bytes =? PAYLOAD_LEN)%nat then Err WrongLength
  else if negb (bool_decide (take (length DOMAIN) bytes = DOMAIN)) then Err DomainMismatch
  else
    let version := byte_at OFFSET_SCHEMA_VERSION bytes in
    if negb (version =? SCHEMA_VERSION) then Err UnsupportedVersion
    else Ok (mkPairingPayload version
               (slice OFFSET_VAULT_ID VAULT_ID_LEN bytes)
               (slice OFFSET_DEVICE_ID DEVICE_ID_LEN bytes)
               (slice OFFSET_PAIRING_PUB X25519_KEY_LEN bytes)
               (slice OFFSET_SIGNER SIGNER_LEN bytes)
               (slice OFFSET_FRESHNESS_NONCE FRESHNESS_NONCE_LEN bytes)).

Section text.
Context (sha256 : list Z -> list Z).

Definition encode_string (p : PairingPayload) : list Z :=
  let bytes := encode_bytes p in base32_encode (bytes ++ payload_checksum sha256 bytes).

Definition decode_string (s : list Z) : result PairingTransportError PairingPayload :=
  decoded ← base32_decode InvalidEncoding s;
  if negb (length decoded =? PAYLOAD_LEN + TEXT_CHECKSUM_LEN)%nat then Err WrongLength
  else
    let payload_bytes := take PAYLOAD_LEN decoded in
    if bool_decide (drop PAYLOAD_LEN decoded = payload_checksum sha256 payload_bytes)
    then decode_bytes payload_bytes else Err ChecksumMismatch.

(** The generic helpers of the same file, which carry the sealed envelope. *)
Definition encode_text : list Z -> list Z := encode_text_with_checksum sha256.
Definition decode_text : list Z -> result PairingTransportError (list Z) :=
  decode_text_with_checksum sha256 InvalidEncoding WrongLength ChecksumMismatch.
End text.

(** ** The byte form *)

(** What the array types guarantee, at the supported version. *)
Record well_formed (p : PairingPayload) : Prop := mkWellFormed {
  wf_version : schema_version p = SCHEMA_VERSION;
  wf_lengths : length (vault_id p) = VAULT_ID_LEN /\ length (device_id p) = DEVICE_ID_LEN
    /\ length (x25519_pairing_pub p) = X25519_KEY_LEN /\ length (signer p) = SIGNER_LEN
    /\ length (freshness_nonce p) = FRESHNESS_NONCE_LEN;
  wf_bytes : Forall is_byte (vault_id p ++ device_id p ++ x25519_pairing_pub p ++ signer p
    ++ freshness_nonce p)
}.

Lemma encode_bytes_length p : well_formed p -> length (encode_bytes p) = PAYLOAD_LEN.
Proof.
  intros [_ (H1 & H2 & H3 & H4 & H5) _]. unfold encode_bytes, PAYLOAD_LEN.
  rewrite !length_app, H1, H2, H3, H4, H5. simpl. lia.
Qed.

Lemma encode_bytes_bytes p : well_formed p -> Forall is_byte (encode_bytes p).
Proof.
  intros [Hv _ Hb]. unfold encode_bytes. apply Forall_app. split; [apply bytes_of_bytes|].
  apply Forall_app. split; [|done]. constructor; [|done]. rewrite Hv. done.
Qed.

(** The layout, and the fields at its offsets. *)
Definition LAYOUT : list nat :=
  [length DOMAIN; 1%nat; VAULT_ID_LEN; DEVICE_ID_LEN; X25519_KEY_LEN; SIGNER_LEN; FRESHNESS_NONCE_LEN].

Definition read_fields (bytes : list Z) : list (list Z) :=
  [slice 0 (length DOMAIN) bytes; slice OFFSET_SCHEMA_VERSION 1 bytes; slice OFFSET_VAULT_ID VAULT_ID_LEN bytes;
   slice OFFSET_DEVICE_ID DEVICE_ID_LEN bytes; slice OFFSET_PAIRING_PUB X25519_KEY_LEN bytes;
   slice OFFSET_SIGNER SIGNER_LEN bytes; slice OFFSET_FRESHNESS_NONCE FRESHNESS_NONCE_LEN bytes].

(** [decode_bytes] inverts [encode_bytes], and accepts nothing else. *)
Lemma decode_bytes_iff bytes p :
  Forall is_byte bytes -> decode_bytes bytes = Ok p <-> well_formed p /\ bytes = encode_bytes p.
Proof.
  intros Hb. split.
  - unfold decode_bytes. destruct (Nat.eqb_spec (length bytes) PAYLOAD_LEN) as [Hl|]; [|done].
    destruct (bool_decide_reflect (take (length DOMAIN) bytes = DOMAIN)) as [Hd|]; [|done].
    destruct (Z.eqb_spec (byte_at OFFSET_SCHEMA_VERSION bytes) SCHEMA_VERSION) as [Hv|]; [|done].
    cbn [negb]. intros [= <-]. destruct (slices_join LAYOUT bytes) as [Hj Hlens].
    rewrite drop_ge, app_nil_r in Hj by (by rewrite Hl). specialize (Hlens ltac:(by rewrite Hl)).
    change (slices 0 LAYOUT bytes) with (read_fields bytes) in *. unfold read_fields in Hj, Hlens.
    change (slice 0 (length DOMAIN) bytes) with (take (length DOMAIN) bytes) in Hj.
    rewrite (slice_one OFFSET_SCHEMA_VERSION bytes) in Hj, Hlens by (rewrite Hl; apply Nat.ltb_lt; reflexivity).
    rewrite Hd in Hj. injection Hlens as _ H1 H2 H3 H4 H5.
    assert (Henc : bytes = encode_bytes (mkPairingPayload (byte_at OFFSET_SCHEMA_VERSION bytes)
               (slice OFFSET_VAULT_ID VAULT_ID_LEN bytes)
               (slice OFFSET_DEVICE_ID DEVICE_ID_LEN bytes)
               (slice OFFSET_PAIRING_PUB X25519_KEY_LEN bytes)
               (slice OFFSET_SIGNER SIGNER_LEN bytes)
               (slice OFFSET_FRESHNESS_NONCE FRESHNESS_NONCE_LEN bytes))).
    { rewrite <- Hj at 1. unfold encode_bytes. cbn -[slice byte_at app DOMAIN]. by rewrite app_nil_r. }
    split; [|exact Henc]. split; [exact Hv|by split_and!|].
    rewrite Henc in Hb at 1. apply Forall_app in Hb as [_ Hb]. apply Forall_app in Hb as [_ Hb]. exact Hb.
  - intros [Hwf ->]. pose proof (encode_bytes_length p Hwf) as Hl.
    destruct p as [v vid did pub sg fn], Hwf as [Hv (H1 & H2 & H3 & H4 & H5) _].
    cbn [schema_version vault_id device_id x25519_pairing_pub signer freshness_nonce] in Hv, H1, H2, H3, H4, H5. subst v.
    pose proof (slices_fields [DOMAIN; [SCHEMA_VERSION]; vid; did; pub; sg; fn] []) as Hs.
    rewrite !fmap_cons, H1, H2, H3, H4, H5, app_nil_r in Hs.
    replace (mjoin [DOMAIN; [SCHEMA_VERSION]; vid; did; pub; sg; fn])
      with (encode_bytes (mkPairingPayload SCHEMA_VERSION vid did pub sg fn)) in Hs
      by (unfold encode_bytes; cbn -[app DOMAIN]; by rewrite app_nil_r).
    set (bytes := encode_bytes _) in *. change (read_fields bytes = [DOMAIN; [SCHEMA_VERSION]; vid; did; pub; sg; fn]) in Hs.
    unfold read_fields in Hs. rewrite (slice_one OFFSET_SCHEMA_VERSION) in Hs by (rewrite Hl; apply Nat.ltb_lt; reflexivity).
    clearbody bytes. injection Hs as E0 E1 E2 E3 E4 E5 E6. unfold decode_bytes. rewrite Hl. cbn [Nat.eqb negb].
    assert (Hd : take (length DOMAIN) bytes = DOMAIN) by exact E0.
    rewrite Hd, bool_decide_eq_true_2 by done. cbn [negb].
    by rewrite E1, Z.eqb_refl, E2, E3, E4, E5, E6.
Qed.

(** ** The text form *)

Section text_facts.
Context (sha256 : list Z -> list Z).
Context (sha256_len : forall l, length (sha256 l) = 32%nat) (sha256_bytes : forall l, Forall is_byte (sha256 l)).

(** A pairing text has one payload and a payload has one text.  The text
    decoder accepts exactly the texts that encode a payload of the supported
    version, and gives that payload back: no other text, of another length, with
    a character changed, a wrong checksum, another domain or version, is taken
    for one, and no payload has two texts. *)
Theorem pairing_text_exact s p :
  decode_string sha256 s = Ok p <-> well_formed p /\ s = encode_string sha256 p.
Proof using sha256_len sha256_bytes.
  unfold decode_string, encode_string. split.
  - destruct (base32_decode InvalidEncoding s) as [decoded|] eqn:Ed; [|done]. cbn [mbind result_bind].
    destruct (Nat.eqb_spec (length decoded) (PAYLOAD_LEN + TEXT_CHECKSUM_LEN)) as [Hl|]; [|done]. cbn [negb].
    case_bool_decide as Hc; [|done]. intros Hp.
    destruct (base32_decode_bytes _ _ _ Ed) as [Hne Hb].
    apply decode_bytes_iff in Hp as [Hwf Henc]; [|by apply Forall_take]. split; [done|].
    rewrite <- Henc, <- Hc, take_drop. apply base32_decode_accepts in Ed as [Ed|[Hm _]]; [done| |done|done].
    unfold one_more in Hm. apply Z.ltb_lt in Hm.
    destruct (base32_encode_length decoded Hb) as (q & Hq & Hlen). rewrite Hl in Hm, Hlen.
    change (PAYLOAD_LEN + TEXT_CHECKSUM_LEN)%nat with 164%nat in Hm, Hlen. lia.
  - intros [Hwf ->]. assert (Hb := encode_bytes_bytes p Hwf). assert (Hl := encode_bytes_length p Hwf).
    set (bytes := encode_bytes p) in *.
    assert (Hw := checksummed_bytes sha256 sha256_bytes bytes Hb).
    assert (Hwl : length (bytes ++ payload_checksum sha256 bytes) = (PAYLOAD_LEN + TEXT_CHECKSUM_LEN)%nat)
      by (rewrite length_app, length_checksum by done; lia).
    rewrite base32_roundtrip; [|done|intros He; rewrite He in Hwl; done]. cbn [mbind result_bind].
    rewrite Hwl, Nat.eqb_refl. cbn [negb].
    rewrite take_app_length', drop_app_length' by done. rewrite bool_decide_eq_true_2 by done.
    by apply decode_bytes_iff.
Qed.
End text_facts.

Definition sample_payload : PairingPayload :=
  mkPairingPayload 2 (replicate 32 17) (replicate 32 34) (replicate 32 51) (replicate 20 68) (replicate 16 85).

Lemma pairing_text_exact_witness :
  decode_string toy_digest (encode_string toy_digest sample_payload) = Ok sample_payload
  /\ length (encode_string toy_digest sample_payload) = 263%nat.
Proof.
  split; [|vm_compute; reflexivity]. destruct toy_digest_laws as [H1 H2].
  apply (pairing_text_exact toy_digest H1 H2). split; [|reflexivity].
  split; [reflexivity|by split_and!|]. repeat constructor; unfold is_byte; lia.
Defined.
