(* ===== verification/SeedPhrase.v ===== *)
(** * Seed phrases

    The BIP-39 phrases of crates/pangolin-store/src/recovery_backup.rs, with that
    file's error type.  Words are strings; SHA-256 is a parameter and the entropy
    an argument. *)

From Stdlib Require Import Ascii String Sorted.
From S2P Require Import Prelude Bytes Bip39Words Base32.
Open Scope Z_scope.

Definition SEED_PHRASE_WORD_COUNT : nat := 24.
Definition BIP39_ENTROPY_BYTES : nat := 32.

(** ** Errors *)

Inductive KdfAxis : Type := MemoryKib | TimeCost | Parallelism | MemoryTimeProduct.

(** [BackupError], its messages dropped. *)
Inductive BackupError : Type :=
| Validation (kind : string)
| IntegrityFailed
| AuthenticationFailed
| UnknownSchemaVersion (found supported : Z)
| KdfParamOutOfRange (which : KdfAxis) (value : Z)
| TextChecksumMismatch
| TextInvalidEncoding
| SeedPhraseMalformed.

Definition argument {A} : result BackupError A := Err (Validation "argument").
Definition cbor_err : BackupError := Validation "cbor".

(** ** The seed phrase *)

Definition is_bip39_english_word (word : string) : bool :=
  existsb (String.eqb word) BIP39_ENGLISH_WORDLIST.

(** The words joined by single spaces. *)
Fixpoint join_words (phrase : list string) : list Z :=
  match phrase with
  | [] => []
  | [w] => bytes_of w
  | w :: ws => bytes_of w ++ [32] ++ join_words ws
  end.

Definition seed_phrase_to_kdf_input (seed_phrase : list string) : result BackupError (list Z) :=
  if negb (length seed_phrase =? SEED_PHRASE_WORD_COUNT)%nat then Err SeedPhraseMalformed
  else if negb (forallb is_bip39_english_word seed_phrase) then Err SeedPhraseMalformed
  else Ok (join_words seed_phrase).

Section words.
Context (sha256 : list Z -> list Z).

Definition bip39_words_from_entropy (entropy : list Z) : result BackupError (list string) :=
  if negb (length entropy =? BIP39_ENTROPY_BYTES)%nat then argument
  else
    let checksum_byte := byte_at 0 (sha256 entropy) in
    let combined := entropy ++ [checksum_byte] in
    Ok ((fun idx => nth (Z.to_nat idx) BIP39_ENGLISH_WORDLIST ""%string) <$> out (regroup 32 8 11 combined)).

(** [entropy] is what the random generator filled in. *)
Definition generate_seed_phrase (entropy : list Z) : result BackupError (list string) :=
  bip39_words_from_entropy entropy.
End words.

(** ** The seed phrase *)

(** The order of Rust's [str]: its bytes, lexicographically. *)
Definition str_lt (a b : string) : Prop := lex_compare (bytes_of a) (bytes_of b) = Lt.

#[export] Instance str_lt_trans : Transitive str_lt.
Proof.
  intros a b c. unfold str_lt. generalize (bytes_of a) (bytes_of b) (bytes_of c). clear a b c.
  induction l as [|x xs IH]; intros [|y ys] [|z zs]; simpl; try done.
  destruct (Z.compare_spec x y), (Z.compare_spec y z), (Z.compare_spec x z); try done; try lia. apply IH.
Qed.

Lemma str_lt_irrefl a : ~ str_lt a a.
Proof.
  unfold str_lt. generalize (bytes_of a). clear a. induction l as [|x xs IH]; simpl; [done|].
  by rewrite Z.compare_refl.
Qed.

Fixpoint ascending (l : list string) : bool :=
  match l with
  | a :: (b :: _) as l => match lex_compare (bytes_of a) (bytes_of b) with Lt => ascending l | _ => false end
  | _ => true
  end.

Lemma ascending_sorted l : ascending l = true -> StronglySorted str_lt l.
Proof.
  intros Hl. apply Sorted_StronglySorted; [intros x y z; apply str_lt_trans|].
  induction l as [|a l IH]; [constructor|]. destruct l as [|b l]; [repeat constructor|].
  cbn [ascending] in Hl. destruct (lex_compare _ _) eqn:E; try done. constructor; [by apply IH|by constructor].
Qed.

Lemma sorted_NoDup l : StronglySorted str_lt l -> NoDup l.
Proof.
  induction 1 as [|a l _ IH Ha]; constructor; [|done]. intros Hin.
  eapply Forall_forall in Ha; [|done]. by apply str_lt_irrefl in Ha.
Qed.

(** The list is in order, which the binary search of [is_bip39_english_word]
    relies on; its words are distinct and none has a space. *)
Lemma wordlist_sorted : StronglySorted str_lt BIP39_ENGLISH_WORDLIST.
Proof. apply ascending_sorted. vm_compute. reflexivity. Qed.

Lemma wordlist_length : length BIP39_ENGLISH_WORDLIST = 2048%nat.
Proof. vm_compute. reflexivity. Qed.

Definition spaceless (w : string) : bool := forallb (fun b => negb (b =? 32)) (bytes_of w).

Lemma wordlist_spaceless w : w ∈ BIP39_ENGLISH_WORDLIST -> spaceless w = true.
Proof.
  assert (H : forallb spaceless BIP39_ENGLISH_WORDLIST = true) by (vm_compute; reflexivity).
  rewrite forallb_forall in H. intros Hw. by apply H, list_elem_of_In.
Qed.

Lemma is_bip39_english_word_spec w : is_bip39_english_word w = true <-> w ∈ BIP39_ENGLISH_WORDLIST.
Proof.
  unfold is_bip39_english_word. rewrite existsb_exists, list_elem_of_In. split.
  - intros (v & Hv & ->%String.eqb_eq). done.
  - intros Hw. exists w. split; [done|apply String.eqb_refl].
Qed.

Definition word (idx : Z) : string := nth (Z.to_nat idx) BIP39_ENGLISH_WORDLIST ""%string.

Lemma word_lookup idx : is_group 11 idx -> BIP39_ENGLISH_WORDLIST !! Z.to_nat idx = Some (word idx).
Proof.
  unfold is_group, word. intros Hi.
  destruct (lookup_lt_is_Some_2 BIP39_ENGLISH_WORDLIST (Z.to_nat idx)) as [w Hw]; [rewrite wordlist_length; lia|].
  rewrite Hw. f_equal. symmetry. by apply nth_lookup_Some.
Qed.

Lemma words_inj l l' : Forall (is_group 11) l -> Forall (is_group 11) l' -> word <$> l = word <$> l' -> l = l'.
Proof.
  intros Hl. revert l'. induction Hl as [|i l Hi _ IH]; intros [|j l'] Hl' He; try done.
  rewrite !fmap_cons in He. injection He as Hw He. apply Forall_cons in Hl' as [Hj Hl'].
  f_equal; [|by apply IH]. unfold is_group in *.
  assert (Hn : Z.to_nat i = Z.to_nat j); [|lia].
  eapply NoDup_lookup; [apply sorted_NoDup, wordlist_sorted|by apply word_lookup|].
  rewrite Hw. by apply word_lookup.
Qed.

(** The words of the canonical form. *)
Lemma split_at_space a b x y :
  forallb (fun c => negb (c =? 32)) a = true -> forallb (fun c => negb (c =? 32)) b = true ->
  a ++ [32] ++ x = b ++ [32] ++ y -> a = b /\ x = y.
Proof.
  revert b. induction a as [|c a IH]; intros [|d b] Ha Hb He; simpl in *.
  - injection He as ->. done.
  - injection He as <- _. done.
  - injection He as -> _. done.
  - injection He as -> He. apply andb_true_iff in Ha as [_ Ha], Hb as [_ Hb].
    destruct (IH b Ha Hb He) as [-> ->]. done.
Qed.

Lemma join_words_inj p q :
  length p = length q -> forallb spaceless p = true -> forallb spaceless q = true ->
  join_words p = join_words q -> p = q.
Proof.
  revert q. induction p as [|v p IH]; intros [|w q] Hl Hp Hq He; try done.
  cbn [forallb] in Hp, Hq. apply andb_true_iff in Hp as [Hv Hp], Hq as [Hw Hq]. injection Hl as Hl.
  destruct p as [|v' p], q as [|w' q]; try done.
  - f_equal. by apply bytes_of_inj.
  - change (bytes_of v ++ [32] ++ join_words (v' :: p) = bytes_of w ++ [32] ++ join_words (w' :: q)) in He.
    apply split_at_space in He as [Hvw He]; [|done..]. f_equal; [by apply bytes_of_inj|]. by apply IH.
Qed.

Section phrases.
Context (sha256 : list Z -> list Z) (sha256_len : forall l, length (sha256 l) = 32%nat)
  (sha256_bytes : forall l, Forall is_byte (sha256 l)).

(** The number a phrase writes: the entropy and eight bits of its digest. *)
Definition checksummed (entropy : list Z) : Z := be_value entropy * 256 + byte_at 0 (sha256 entropy).

Lemma entropy_words entropy :
  length entropy = BIP39_ENTROPY_BYTES -> Forall is_byte entropy ->
  exists idxs, bip39_words_from_entropy sha256 entropy = Ok (word <$> idxs) /\ length idxs = SEED_PHRASE_WORD_COUNT
  /\ Forall (is_group 11) idxs /\ groups_value 11 idxs = checksummed entropy.
Proof using sha256_len sha256_bytes.
  intros Hl Hb. unfold bip39_words_from_entropy. rewrite Hl. cbn [Nat.eqb BIP39_ENTROPY_BYTES negb].
  set (c := byte_at 0 (sha256 entropy)).
  assert (Hc : is_byte c).
  { unfold c, byte_at. pose proof (sha256_len entropy) as Hs. pose proof (sha256_bytes entropy) as Hsb.
    destruct (sha256 entropy) as [|x xs]; [done|]. by apply Forall_cons in Hsb as [Hx _]. }
  assert (Hall : Forall is_byte (entropy ++ [c])) by (apply Forall_app; split; [done|constructor; [done|constructor]]).
  destruct (regroup_spec 32 8 11 (entropy ++ [c])) as (Ho & Hbits & Hleft & Hv & Hlen); [lia..|done|].
  set (s := regroup 32 8 11 (entropy ++ [c])) in *. rewrite length_app, Hl in Hlen.
  unfold BIP39_ENTROPY_BYTES in Hlen. cbn [length Nat.add] in Hlen.
  assert (Hz : bits s = 0 /\ length (out s) = 24%nat) by lia. destruct Hz as [Hz Hn].
  exists (out s). split_and!; [done|done|done|]. rewrite Hz in *. cbn [Z.pow] in Hleft, Hv.
  unfold checksummed. fold c. rewrite groups_value_snoc, groups_value_bytes in Hv.
  change (2 ^ 8) with 256 in Hv. change (2 ^ 0) with 1 in Hleft, Hv. lia.
Qed.

Lemma canonical_phrase idxs :
  length idxs = SEED_PHRASE_WORD_COUNT -> Forall (is_group 11) idxs ->
  seed_phrase_to_kdf_input (word <$> idxs) = Ok (join_words (word <$> idxs))
  /\ forallb spaceless (word <$> idxs) = true.
Proof.
  intros Hl Hi. unfold seed_phrase_to_kdf_input. rewrite length_fmap, Hl, Nat.eqb_refl. cbn [negb].
  assert (Hin : forall w, w ∈ word <$> idxs -> w ∈ BIP39_ENGLISH_WORDLIST).
  { intros w (i & -> & Hin)%list_elem_of_fmap. eapply list_elem_of_lookup_2, word_lookup.
    by eapply Forall_forall in Hi. }
  assert (Hok : forallb is_bip39_english_word (word <$> idxs) = true).
  { apply forallb_forall. intros w Hw. by apply is_bip39_english_word_spec, Hin, list_elem_of_In. }
  rewrite Hok. split; [done|]. apply forallb_forall. intros w Hw.
  by apply wordlist_spaceless, Hin, list_elem_of_In.
Qed.

(** Seed phrases are BIP-39 and keep every bit of the entropy.  From 32 random
    bytes the generator makes 24 words of the list, those whose indices are the
    base-2048 digits of the entropy followed by the first byte of its SHA-256;
    sealing and opening accept such a phrase, in the canonical form in which the
    words are joined by spaces; and two different entropies never give the key
    derivation the same input. *)
Theorem seed_phrase_exact entropy entropy' :
  length entropy = BIP39_ENTROPY_BYTES -> length entropy' = BIP39_ENTROPY_BYTES ->
  Forall is_byte entropy -> Forall is_byte entropy' ->
  exists idxs, generate_seed_phrase sha256 entropy = Ok (word <$> idxs)
  /\ length idxs = SEED_PHRASE_WORD_COUNT /\ Forall (is_group 11) idxs
  /\ groups_value 11 idxs = checksummed entropy
  /\ seed_phrase_to_kdf_input (word <$> idxs) = Ok (join_words (word <$> idxs))
  /\ forall phrase', generate_seed_phrase sha256 entropy' = Ok phrase' ->
     join_words phrase' = join_words (word <$> idxs) -> entropy' = entropy.
Proof using sha256_len sha256_bytes.
  intros Hl Hl' Hb Hb'. unfold generate_seed_phrase.
  destruct (entropy_words entropy Hl Hb) as (idxs & Hw & Hn & Hi & Hv).
  destruct (entropy_words entropy' Hl' Hb') as (idxs' & Hw' & Hn' & Hi' & Hv').
  destruct (canonical_phrase idxs Hn Hi) as [Hc Hs], (canonical_phrase idxs' Hn' Hi') as [_ Hs'].
  exists idxs. split_and!; [done|done|done|done|done|]. rewrite Hw'. intros phrase' [= <-] Hj.
  apply join_words_inj in Hj; [|by rewrite !length_fmap, Hn, Hn'|done|done].
  apply words_inj in Hj as ->; [|done..]. rewrite Hv in Hv'. unfold checksummed in Hv'.
  assert (Hfirst : forall e, 0 <= byte_at 0 (sha256 e) < 256).
  { intros e. unfold byte_at. pose proof (sha256_bytes e) as Hsb. destruct (sha256 e); [done|].
    by apply Forall_cons in Hsb as [Hx _]. }
  pose proof (Hfirst entropy). pose proof (Hfirst entropy').
  apply be_value_inj; [by rewrite Hl, Hl'|done|done|]. lia.
Qed.
End phrases.

(** All-zero entropy under the toy digest. *)
Lemma seed_phrase_exact_witness :
  exists idxs, generate_seed_phrase toy_digest (replicate 32 0) = Ok (word <$> idxs)
  /\ groups_value 11 idxs = 0 /\ word <$> idxs = replicate 24 "abandon"%string.
Proof.
  destruct toy_digest_laws as [H1 H2].
  assert (Hb : Forall is_byte (replicate 32 0)) by (apply Forall_replicate; unfold is_byte; lia).
  destruct (seed_phrase_exact toy_digest H1 H2 (replicate 32 0) (replicate 32 0) eq_refl eq_refl Hb Hb)
    as (idxs & Hg & _ & _ & Hv & _).
  exists idxs. split_and!; [exact Hg|rewrite Hv; vm_compute; reflexivity|].
  vm_compute in Hg. by injection Hg.
Defined.
