(* ===== verification/RecoveryBackup.v ===== *)
(** * The recovery backup

    crates/pangolin-store/src/recovery_backup.rs but for the seed phrase: the CBOR
    body, the outer header with its gates, sealing, opening, and the text
    form.  Byte strings and Rust strings are lists of bytes.

    SHA-256, Argon2 (behind the floor of crates/pangolin-crypto/src/kdf.rs) and
    the AEAD are parameters; the random salt and nonce are arguments. *)

From Stdlib Require Import Ascii String.
From S2P Require Import Prelude Bytes Cbor Base32 SeedPhrase.
Open Scope Z_scope.

(** ** Constants *)

Definition SCHEMA_VERSION : Z := 3.
Definition DOMAIN : list Z := bytes_of "pangolin-recovery-backup-v0" ++ [0].
Definition KDF_ALGO_ARGON2ID : Z := 1.
Definition INTEGRITY_HASH_LEN : nat := 4.
Definition MAX_KDF_MEMORY_KIB : Z := 1024 * 1024.
Definition MAX_KDF_TIME_COST : Z := 8.
Definition MAX_KDF_PARALLELISM : Z := 8.
Definition MAX_KDF_MEMORY_KIB_TIME_COST_PRODUCT : Z := 3 * 1024 * 1024.
Definition MAX_CIPHERTEXT_LEN : Z := 16 * 1024 * 1024.
Definition SALT_LEN : nat := 16.
Definition NONCE_LEN : nat := 24.
Definition TAG_LEN : Z := 16.
Definition OUTER_HEADER_LEN : nat := length DOMAIN + 1 + 1 + 4 + 4 + 4 + SALT_LEN + NONCE_LEN + 8.
Definition OFFSET_SCHEMA_VERSION : nat := length DOMAIN.
Definition OFFSET_KDF_ALGO : nat := OFFSET_SCHEMA_VERSION + 1.
Definition OFFSET_KDF_MEMORY : nat := OFFSET_KDF_ALGO + 1.
Definition OFFSET_KDF_TIME : nat := OFFSET_KDF_MEMORY + 4.
Definition OFFSET_KDF_PAR : nat := OFFSET_KDF_TIME + 4.
Definition OFFSET_KDF_SALT : nat := OFFSET_KDF_PAR + 4.
Definition OFFSET_NONCE : nat := OFFSET_KDF_SALT + SALT_LEN.
Definition OFFSET_CT_LEN : nat := OFFSET_NONCE + NONCE_LEN.
Definition MAX_WRAPPED_RECOVERY_LEN : Z := 64 * 1024.
Definition MAX_SEALED_SHARE_LEN : Z := 1024.
Definition MAX_DISPLAY_NAME_LEN : Z := 4 * 1024.
Definition MAX_GUARDIAN_COUNT_DECODE : Z := 256.

(** ** The key derivation of crates/pangolin-crypto/src/kdf.rs *)

Record KdfParams : Type := mkKdfParams { memory_kib : Z; time_cost : Z; parallelism : Z }.

Definition RECOMMENDED : KdfParams := mkKdfParams (256 * 1024) 3 1.
Definition MIN_MEMORY_KIB : Z := 64 * 1024.
Definition MIN_TIME_COST : Z := 3.
Definition MIN_PARALLELISM : Z := 1.

Inductive KdfError : Type := ParamsTooWeak | KdfInternal.

Definition validate (p : KdfParams) : result KdfError unit :=
  if memory_kib p <? MIN_MEMORY_KIB then Err ParamsTooWeak
  else if time_cost p <? MIN_TIME_COST then Err ParamsTooWeak
  else if parallelism p <? MIN_PARALLELISM then Err ParamsTooWeak
  else Ok tt.

(** ** The contents *)

Record BackupContents : Type := mkBackupContents {
  wrapped_recovery : list Z;
  vault_id : list Z;
  epoch : Z;
  threshold : Z;
  guardian_count : Z;
  guardian_x25519_pubs : list (list Z);
  sealed_shares : list (list Z);
  guardian_evm_addrs : list (list Z);
  vault_display_name : list Z;
  created_at_unix : Z
}.

Record OuterHeader : Type := mkOuterHeader {
  oh_schema_version : Z;
  oh_kdf_algo_id : Z;
  oh_kdf_params : KdfParams;
  oh_salt : list Z;
  oh_nonce : list Z;
  oh_ct_len : Z
}.

Section backup.
Context {Key : Type} `{!Cbor} (memory : Z).
Context (sha256 : list Z -> list Z) (argon2id : list Z -> list Z -> KdfParams -> option Key).
Context (aead_seal : Key -> list Z -> list Z -> list Z -> option (list Z))
        (aead_open : Key -> list Z -> list Z -> list Z -> option (list Z)).

Definition derive_key (password salt : list Z) (params : KdfParams) : result KdfError Key :=
  validate params ≫= fun _ => ok_or (argon2id password salt params) KdfInternal.

(** ** The outer header *)

Definition integrity_hash (bytes : list Z) : list Z := take INTEGRITY_HASH_LEN (sha256 bytes).

Definition write_outer_header (kdf_params : KdfParams) (salt nonce : list Z) (ct_len : Z) : list Z :=
  DOMAIN ++ [SCHEMA_VERSION] ++ [KDF_ALGO_ARGON2ID] ++ to_be_bytes 4 (memory_kib kdf_params)
  ++ to_be_bytes 4 (time_cost kdf_params) ++ to_be_bytes 4 (parallelism kdf_params) ++ salt ++ nonce
  ++ to_be_bytes 8 ct_len.

Definition u32_at (offset : nat) (bytes : list Z) : Z := be_value (slice offset 4 bytes).

(** The clamp of step 5. *)
Definition clamp (p : KdfParams) : result BackupError unit :=
  if MAX_KDF_MEMORY_KIB <? memory_kib p then Err (KdfParamOutOfRange MemoryKib (memory_kib p))
  else if MAX_KDF_TIME_COST <? time_cost p then Err (KdfParamOutOfRange TimeCost (time_cost p))
  else if MAX_KDF_PARALLELISM <? parallelism p then Err (KdfParamOutOfRange Parallelism (parallelism p))
  else
    let product := Z.min U64_MAX (memory_kib p * time_cost p) in
    if MAX_KDF_MEMORY_KIB_TIME_COST_PRODUCT <? product
    then Err (KdfParamOutOfRange MemoryTimeProduct product) else Ok tt.

Definition parse_outer_header (bytes : list Z) : result BackupError (OuterHeader * list Z) :=
  if (length bytes <? OUTER_HEADER_LEN + INTEGRITY_HASH_LEN)%nat then argument
  else if negb (bool_decide (take (length DOMAIN) bytes = DOMAIN)) then argument
  else
    let schema_version := byte_at OFFSET_SCHEMA_VERSION bytes in
    if negb (schema_version =? SCHEMA_VERSION) then Err (UnknownSchemaVersion schema_version SCHEMA_VERSION)
    else
      let kdf_algo_id := byte_at OFFSET_KDF_ALGO bytes in
      if negb (kdf_algo_id =? KDF_ALGO_ARGON2ID) then argument
      else
        let kdf_params := mkKdfParams (u32_at OFFSET_KDF_MEMORY bytes) (u32_at OFFSET_KDF_TIME bytes)
                            (u32_at OFFSET_KDF_PAR bytes) in
        clamp kdf_params ≫= fun _ =>
        let salt := slice OFFSET_KDF_SALT SALT_LEN bytes in
        let nonce := slice OFFSET_NONCE NONCE_LEN bytes in
        let ct_len := be_value (slice OFFSET_CT_LEN 8 bytes) in
        if MAX_CIPHERTEXT_LEN <? ct_len then argument
        else
          let ct_len_usize := Z.to_nat ct_len in
          if negb (length bytes =? OUTER_HEADER_LEN + ct_len_usize + INTEGRITY_HASH_LEN)%nat then argument
          else
            let hashed_region := take (length bytes - INTEGRITY_HASH_LEN) bytes in
            let trailing := drop (length bytes - INTEGRITY_HASH_LEN) bytes in
            if negb (bool_decide (trailing = integrity_hash hashed_region)) then Err IntegrityFailed
            else Ok (mkOuterHeader schema_version kdf_algo_id kdf_params salt nonce ct_len,
                     slice OUTER_HEADER_LEN ct_len_usize bytes).

(** ** The body *)

Definition expect_array (want : Z) : reader BackupError unit :=
  h ← pull_header cbor_err;
  match h with
  | ArrayHeader (Some n) => if n =? want then mret tt else fail cbor_err
  | _ => fail cbor_err
  end.

Definition pull_uint : reader BackupError Z :=
  h ← pull_header cbor_err; match h with Positive v => mret v | _ => fail cbor_err end.

Definition pull_array_len : reader BackupError Z :=
  h ← pull_header cbor_err; match h with ArrayHeader (Some n) => mret n | _ => fail cbor_err end.

Definition pull_bytes_capped (cap : Z) : reader BackupError (list Z) :=
  h ← pull_header cbor_err;
  match h with
  | BytesHeader (Some len) => if cap <? len then fail cbor_err else read_buffer memory cbor_err len
  | _ => fail cbor_err
  end.

Definition pull_bytes_exact (n : nat) : reader BackupError (list Z) :=
  v ← pull_bytes_capped (Z.of_nat n);
  if (length v =? n)%nat then mret v else fail cbor_err.

Definition pull_text_capped (cap : Z) : reader BackupError (list Z) :=
  h ← pull_header cbor_err;
  match h with
  | TextHeader (Some len) =>
      if cap <? len then fail cbor_err
      else s ← read_buffer memory cbor_err len; if utf8 s then mret s else fail cbor_err
  | _ => fail cbor_err
  end.

Definition pull_u8 : reader BackupError Z :=
  v ← pull_uint; of_result (ok_or (u8_try_from v) cbor_err).

Definition put_array (l : list (list Z)) : list Z :=
  push (ArrayHeader (Some (Z.of_nat (length l)))) ++ mjoin (put_bytes <$> l).

Definition encode_body (c : BackupContents) : list Z :=
  push (ArrayHeader (Some 11)) ++ put_bytes (wrapped_recovery c) ++ put_bytes (vault_id c)
  ++ push (Positive (epoch c)) ++ push (Positive (threshold c)) ++ push (Positive (guardian_count c))
  ++ put_array (guardian_x25519_pubs c) ++ put_array (sealed_shares c) ++ put_array (guardian_evm_addrs c)
  ++ put_text (vault_display_name c) ++ push (Positive (created_at_unix c))
  ++ push (Positive SCHEMA_VERSION).

(** An address; an all-zero one is refused. *)
Definition pull_evm_addr : reader BackupError (list Z) :=
  addr ← pull_bytes_exact 20;
  if forallb (fun b => b =? 0) addr then fail cbor_err else mret addr.

(** An array of [guardian_count] items of [size] bytes each in memory. *)
Definition pull_guardian_array (guardian_count size : Z) (item : reader BackupError (list Z)) :
    reader BackupError (list (list Z)) :=
  n ← pull_array_len;
  if negb (n =? guardian_count) then fail cbor_err
  else allocate memory (n * size) ≫= fun _ => read_items (Z.to_nat n) item.

Definition decode_contents : reader BackupError BackupContents :=
  expect_array 11 ≫= fun _ =>
  wrapped_recovery ← pull_bytes_capped MAX_WRAPPED_RECOVERY_LEN;
  vault_id ← pull_bytes_exact 32;
  epoch ← pull_uint;
  threshold ← pull_u8;
  guardian_count ← pull_u8;
  pubs_n ← pull_array_len;
  if MAX_GUARDIAN_COUNT_DECODE <? pubs_n then fail cbor_err
  else if negb (pubs_n =? guardian_count) then fail cbor_err
  else
    allocate memory (pubs_n * 32) ≫= fun _ =>
    guardian_x25519_pubs ← read_items (Z.to_nat pubs_n) (pull_bytes_exact 32);
    sealed_shares ← pull_guardian_array guardian_count VEC_SIZE (pull_bytes_capped MAX_SEALED_SHARE_LEN);
    guardian_evm_addrs ← pull_guardian_array guardian_count 20 pull_evm_addr;
    vault_display_name ← pull_text_capped MAX_DISPLAY_NAME_LEN;
    created_at_unix ← pull_uint;
    inner_schema ← pull_u8;
    if negb (inner_schema =? SCHEMA_VERSION) then fail AuthenticationFailed
    else mret (mkBackupContents wrapped_recovery vault_id epoch threshold guardian_count
                 guardian_x25519_pubs sealed_shares guardian_evm_addrs vault_display_name created_at_unix).

Definition decode_body (plain : list Z) : result (failure BackupError) BackupContents :=
  '(contents, _) ← decode_contents plain; Ok contents.

(** ** Sealing and opening *)

Definition kdf_to_backup {A} (r : result KdfError A) : result BackupError A :=
  map_err (fun _ => AuthenticationFailed) r.

Definition seal_backup (salt nonce : list Z) (contents : BackupContents) (seed_phrase : list string) :
    result BackupError (list Z) :=
  if negb (Z.of_nat (length (guardian_x25519_pubs contents)) =? guardian_count contents) then argument
  else
    kdf_input ← seed_phrase_to_kdf_input seed_phrase;
    key ← kdf_to_backup (derive_key kdf_input salt RECOMMENDED);
    let body := encode_body contents in
    ct_len ← ok_or (u64_try_from (Z.of_nat (length body) + TAG_LEN)) (Validation "argument");
    let aad := write_outer_header RECOMMENDED salt nonce ct_len in
    ct_bytes ← ok_or (aead_seal key nonce body aad) AuthenticationFailed;
    let sealed := aad ++ ct_bytes in
    Ok (sealed ++ integrity_hash sealed).

Definition encode_text : list Z -> list Z := encode_text_with_checksum sha256.
Definition decode_text : list Z -> result BackupError (list Z) :=
  decode_text_with_checksum sha256 TextInvalidEncoding (Validation "text") TextChecksumMismatch.

(** The header bytes, the ciphertext and the parameters of an input in either
    form. *)
Definition decode_outer_into_ct (bytes_or_text : list Z) : result BackupError (list Z * list Z * OuterHeader) :=
  bytes ← (if bool_decide (take (length DOMAIN) bytes_or_text = DOMAIN) then Ok bytes_or_text
           else if utf8 bytes_or_text then decode_text bytes_or_text else argument);
  '(header, ct_region) ← parse_outer_header bytes;
  Ok (take OUTER_HEADER_LEN bytes, ct_region, header).

Definition decode_backup_from_outer (aad ct : list Z) (header : OuterHeader) (seed_phrase : list string) :
    result (failure BackupError) BackupContents :=
  plain ← map_err Failed
    (kdf_input ← seed_phrase_to_kdf_input seed_phrase;
     key ← kdf_to_backup (derive_key kdf_input (oh_salt header) (oh_kdf_params header));
     ok_or (aead_open key (oh_nonce header) ct aad) AuthenticationFailed);
  decode_body plain.

Definition decode_backup (bytes_or_text : list Z) (seed_phrase : list string) :
    result (failure BackupError) BackupContents :=
  '(aad, ct, header) ← map_err Failed (decode_outer_into_ct bytes_or_text);
  decode_backup_from_outer aad ct header seed_phrase.
End backup.

(** ** The body reads back *)

(** What the Rust types of the fields guarantee: the widths of the integers and
    of the arrays, lengths that are [usize], and text that is UTF-8. *)
Definition short (l : list Z) : Prop := Z.of_nat (length l) <= U64_MAX.

Record typed (c : BackupContents) : Prop := mkTyped {
  typed_wrapped : short (wrapped_recovery c);
  typed_vault_id : length (vault_id c) = 32%nat;
  typed_epoch : is_u64 (epoch c);
  typed_threshold : 0 <= threshold c <= U8_MAX;
  typed_count : 0 <= guardian_count c <= U8_MAX;
  typed_pubs : Forall (fun k => length k = 32%nat) (guardian_x25519_pubs c)
    /\ Z.of_nat (length (guardian_x25519_pubs c)) <= U64_MAX;
  typed_shares : Forall short (sealed_shares c) /\ Z.of_nat (length (sealed_shares c)) <= U64_MAX;
  typed_addrs : Forall (fun a => length a = 20%nat) (guardian_evm_addrs c)
    /\ Z.of_nat (length (guardian_evm_addrs c)) <= U64_MAX;
  typed_name : short (vault_display_name c) /\ utf8 (vault_display_name c) = true;
  typed_created : is_u64 (created_at_unix c);
  typed_bytes : Forall is_byte (wrapped_recovery c ++ vault_id c ++ mjoin (guardian_x25519_pubs c)
    ++ mjoin (sealed_shares c) ++ mjoin (guardian_evm_addrs c) ++ vault_display_name c)
}.

Definition fits (cap : Z) (l : list Z) : bool := Z.of_nat (length l) <=? cap.
Definition counted {A} (n : Z) (l : list A) : bool := Z.of_nat (length l) =? n.
Definition not_zero (addr : list Z) : bool := negb (forallb (fun b => b =? 0) addr).

(** What the decoder insists on, in the order it looks. *)
Definition restorable (c : BackupContents) : bool :=
  fits MAX_WRAPPED_RECOVERY_LEN (wrapped_recovery c)
  && (counted (guardian_count c) (guardian_x25519_pubs c)
  && (counted (guardian_count c) (sealed_shares c) && forallb (fits MAX_SEALED_SHARE_LEN) (sealed_shares c)
  && (counted (guardian_count c) (guardian_evm_addrs c) && forallb not_zero (guardian_evm_addrs c)
  && fits MAX_DISPLAY_NAME_LEN (vault_display_name c)))).

Section body_facts.
Context `{!Cbor} `{!CborLaws _} (memory : Z) (memory_enough : MAX_WRAPPED_RECOVERY_LEN <= memory).

Lemma caps_fit : 20 * U8_MAX <= VEC_SIZE * U8_MAX <= 32 * U8_MAX /\ 32 * U8_MAX <= memory
  /\ MAX_SEALED_SHARE_LEN <= memory /\ MAX_DISPLAY_NAME_LEN <= memory.
Proof using memory_enough.
  unfold MAX_WRAPPED_RECOVERY_LEN, MAX_SEALED_SHARE_LEN, MAX_DISPLAY_NAME_LEN, VEC_SIZE, U8_MAX in *. lia.
Qed.

Lemma short_pushable l : short l -> is_u64 (Z.of_nat (length l)).
Proof. unfold short, is_u64. lia. Qed.

Lemma reads_pull_uint n : is_u64 n -> reads pull_uint (push (Positive n)) n.
Proof using CborLaws0.
  intros Hn. unfold pull_uint. rewrite <- (app_nil_r (push _)). eapply reads_bind; [by apply reads_header|].
  apply reads_ret.
Qed.

Lemma reads_pull_array_len (n : Z) : is_u64 n -> reads pull_array_len (push (ArrayHeader (Some n))) n.
Proof using CborLaws0.
  intros Hn. unfold pull_array_len. rewrite <- (app_nil_r (push _)). eapply reads_bind; [by apply reads_header|].
  apply reads_ret.
Qed.

Lemma reads_pull_u8 n : 0 <= n <= U8_MAX -> reads pull_u8 (push (Positive n)) n.
Proof using CborLaws0.
  intros Hn. unfold pull_u8. rewrite <- (app_nil_r (push _)).
  eapply reads_bind; [apply reads_pull_uint; unfold is_u64, U64_MAX, U8_MAX in *; lia|].
  intros rest. unfold of_result, u8_try_from. by rewrite (proj2 (try_from_Some 0 U8_MAX n n)).
Qed.

Lemma reads_expect_array n : is_u64 n -> reads (expect_array n) (push (ArrayHeader (Some n))) tt.
Proof using CborLaws0.
  intros Hn. unfold expect_array. rewrite <- (app_nil_r (push _)). eapply reads_bind; [by apply reads_header|].
  cbv beta iota. rewrite Z.eqb_refl. apply reads_ret.
Qed.

Lemma reads_pull_bytes_capped cap b :
  cap <= memory -> short b ->
  reads_if (fits cap b) (pull_bytes_capped memory cap) (put_bytes b) b cbor_err.
Proof using CborLaws0.
  intros Hc Hb. unfold pull_bytes_capped, put_bytes, fits.
  eapply reads_if_then; [apply reads_header, short_pushable, Hb|].
  destruct (Z.leb_spec (Z.of_nat (length b)) cap), (Z.ltb_spec cap (Z.of_nat (length b))); try lia.
  - apply reads_buffer. lia.
  - apply reads_if_false.
Qed.

Lemma reads_pull_bytes_exact n b :
  Z.of_nat n <= memory -> Z.of_nat n <= U64_MAX -> length b = n -> reads (pull_bytes_exact memory n) (put_bytes b) b.
Proof using CborLaws0.
  intros Hm Hn Hb. unfold pull_bytes_exact. rewrite <- (app_nil_r (put_bytes b)).
  pose proof (reads_pull_bytes_capped (Z.of_nat n) b Hm ltac:(unfold short; lia)) as Hr.
  unfold fits in Hr. rewrite (proj2 (Z.leb_le _ _)) in Hr by lia.
  eapply reads_bind; [exact Hr|]. rewrite Hb, Nat.eqb_refl. apply reads_ret.
Qed.

Lemma reads_pull_text_capped cap s :
  cap <= memory -> short s -> utf8 s = true ->
  reads_if (fits cap s) (pull_text_capped memory cap) (put_text s) s cbor_err.
Proof using CborLaws0.
  intros Hc Hs Hu. unfold pull_text_capped, put_text, fits.
  eapply reads_if_then; [apply reads_header, short_pushable, Hs|].
  destruct (Z.leb_spec (Z.of_nat (length s)) cap), (Z.ltb_spec cap (Z.of_nat (length s))); try lia.
  - rewrite <- (app_nil_r s) at 2. eapply reads_if_then; [apply reads_buffer; lia|].
    rewrite Hu. apply reads_ret.
  - apply reads_if_false.
Qed.

Lemma reads_pull_evm_addr a : length a = 20%nat ->
  reads_if (not_zero a) (pull_evm_addr memory) (put_bytes a) a cbor_err.
Proof using CborLaws0 memory_enough.
  intros Ha. unfold pull_evm_addr, not_zero. rewrite <- (app_nil_r (put_bytes a)).
  eapply reads_if_then.
  - apply reads_pull_bytes_exact; [|done|done]. pose proof caps_fit. unfold U8_MAX in *. lia.
  - destruct (forallb _ a); [apply reads_if_false|apply reads_ret].
Qed.

Lemma reads_pull_guardian_array count size ok item l :
  Z.of_nat (length l) <= U64_MAX -> 0 <= count <= U8_MAX -> 0 <= size <= VEC_SIZE ->
  (forall x, x ∈ l -> reads_if (ok x) item (put_bytes x) x cbor_err) ->
  reads_if (counted count l && forallb ok l) (pull_guardian_array memory count size item) (put_array l) l cbor_err.
Proof using CborLaws0 memory_enough.
  intros Hl Hc Hs Hitem. unfold pull_guardian_array, put_array, counted.
  eapply reads_if_then; [apply reads_pull_array_len; unfold is_u64; lia|].
  destruct (Z.eqb_spec (Z.of_nat (length l)) count) as [He|]; [|apply reads_if_false]. cbn [negb andb].
  eapply reads_if_silent.
  - apply reads_allocate. rewrite He. pose proof caps_fit. unfold U8_MAX in *. nia.
  - rewrite Nat2Z.id. by apply reads_if_items.
Qed.

(** The decoder gives back what [encode_body] wrote, or refuses it. *)
Lemma decode_encode_body c :
  typed c -> decode_body memory (encode_body c) = if restorable c then Ok c else Err (Failed cbor_err).
Proof using CborLaws0 memory_enough.
  intros [Hw Hv He Ht Hn [Hp Hp'] [Hs Hs'] [Ha Ha'] [Hd Hd'] Hc _].
  destruct caps_fit as (H20 & H32 & Hshare & Hname). unfold U8_MAX in *.
  assert (Hr : reads_if (restorable c) (decode_contents memory) (encode_body c) c cbor_err).
  2: { unfold decode_body. rewrite <- (app_nil_r (encode_body c)), Hr. by case_match. }
  unfold decode_contents, encode_body, restorable.
  eapply reads_if_then; [by apply reads_expect_array|].
  eapply reads_if_bind; [by apply reads_pull_bytes_capped|intros _].
  eapply reads_if_then; [apply reads_pull_bytes_exact; [lia|done|done]|].
  eapply reads_if_then; [by apply reads_pull_uint|].
  eapply reads_if_then; [by apply reads_pull_u8|].
  eapply reads_if_then; [by apply reads_pull_u8|].
  unfold put_array at 1. rewrite <- app_assoc.
  eapply reads_if_then; [apply reads_pull_array_len; unfold is_u64; lia|].
  unfold counted at 1. destruct (Z.eqb_spec (Z.of_nat (length (guardian_x25519_pubs c))) (guardian_count c)) as [Hpc|];
    [|destruct (_ <? _); apply reads_if_false].
  unfold MAX_GUARDIAN_COUNT_DECODE. rewrite (proj2 (Z.ltb_ge _ _)) by lia. cbn [negb andb].
  eapply reads_if_silent; [apply reads_allocate; lia|]. rewrite Nat2Z.id.
  eapply reads_if_then.
  { apply reads_items. intros k Hk. apply reads_pull_bytes_exact; [lia|done|]. by eapply Forall_forall in Hp. }
  eapply reads_if_bind.
  { apply reads_pull_guardian_array; [done|done|done|]. intros x Hx. apply reads_pull_bytes_capped; [done|].
    by eapply Forall_forall in Hs. }
  intros _. eapply reads_if_bind.
  { apply reads_pull_guardian_array; [done|done|done|]. intros x Hx. apply reads_pull_evm_addr.
    by eapply Forall_forall in Ha. }
  intros _. rewrite <- (andb_true_r (fits _ (vault_display_name c))).
  eapply reads_if_bind; [by apply reads_pull_text_capped|intros _].
  eapply reads_if_then; [by apply reads_pull_uint|].
  rewrite <- (app_nil_r (push _)).
  eapply reads_if_then; [by apply reads_pull_u8|].
  destruct c. apply reads_ret.
Qed.

(** The body of typed contents is made of bytes. *)
Lemma put_bytes_bytes b : short b -> Forall is_byte b -> Forall is_byte (put_bytes b).
Proof using CborLaws0.
  intros Hs Hb. unfold put_bytes. apply Forall_app. split; [|done]. apply push_bytes. by apply short_pushable.
Qed.

Lemma put_array_bytes l :
  Z.of_nat (length l) <= U64_MAX -> Forall short l -> Forall is_byte (mjoin l) -> Forall is_byte (put_array l).
Proof using CborLaws0.
  intros Hl Hs Hb. unfold put_array. apply Forall_app. split; [apply push_bytes; simpl; unfold is_u64; lia|].
  clear Hl. induction Hs as [|x l Hx _ IH]; [done|]. change (mjoin (x :: l)) with (x ++ mjoin l) in Hb.
  apply Forall_app in Hb as [Hb1 Hb2]. rewrite fmap_cons. change (Forall is_byte (put_bytes x ++ mjoin (put_bytes <$> l))).
  apply Forall_app. split; [by apply put_bytes_bytes|by apply IH].
Qed.

Lemma short_of_length n (l : list (list Z)) :
  Z.of_nat n <= U64_MAX -> Forall (fun x => length x = n) l -> Forall short l.
Proof. intros Hn Hl. eapply Forall_impl; [exact Hl|]. intros x Hx. unfold short. simpl in Hx. lia. Qed.

Lemma encode_body_bytes c : typed c -> Forall is_byte (encode_body c).
Proof using CborLaws0.
  intros [Hw Hv He Ht Hn [Hp Hp'] [Hs Hs'] [Ha Ha'] [Hd Hd'] Hc Hb].
  repeat (apply Forall_app in Hb as [? Hb]). unfold encode_body, U8_MAX in *.
  repeat match goal with
  | |- Forall _ (put_bytes _) => apply put_bytes_bytes; [unfold short; first [done|unfold U64_MAX; lia]|done]
  | |- Forall _ (put_array _) => apply put_array_bytes; [done| |done]
  | |- Forall _ (put_text _) => unfold put_text
  | |- Forall _ (push _) =>
      apply push_bytes; simpl; unfold short, is_u64, U64_MAX, SCHEMA_VERSION in *; lia
  | |- Forall _ (_ ++ _) => apply Forall_app; split
  end; try done.
  - by apply (short_of_length 32).
  - by apply (short_of_length 20).
Qed.
End body_facts.

(** ** The outer header *)

(** What the gates let through: cost parameters of 32 bits within the clamps. *)
Definition affordable (p : KdfParams) : Prop :=
  0 <= memory_kib p <= MAX_KDF_MEMORY_KIB /\ 0 <= time_cost p <= MAX_KDF_TIME_COST
  /\ 0 <= parallelism p <= MAX_KDF_PARALLELISM
  /\ memory_kib p * time_cost p <= MAX_KDF_MEMORY_KIB_TIME_COST_PRODUCT.

Record accepted (h : OuterHeader) : Prop := mkAccepted {
  accepted_version : oh_schema_version h = SCHEMA_VERSION;
  accepted_algo : oh_kdf_algo_id h = KDF_ALGO_ARGON2ID;
  accepted_params : affordable (oh_kdf_params h);
  accepted_salt : length (oh_salt h) = SALT_LEN;
  accepted_nonce : length (oh_nonce h) = NONCE_LEN;
  accepted_ct_len : 0 <= oh_ct_len h <= MAX_CIPHERTEXT_LEN
}.

Definition nonnegative (p : KdfParams) : Prop :=
  0 <= memory_kib p /\ 0 <= time_cost p /\ 0 <= parallelism p.

Lemma clamp_affordable p : nonnegative p -> clamp p = Ok tt <-> affordable p.
Proof.
  intros (H1 & H2 & H3). unfold clamp, affordable, U64_MAX.
  assert (Hp : 0 <= memory_kib p * time_cost p) by nia.
  destruct (Z.ltb_spec MAX_KDF_MEMORY_KIB (memory_kib p)); [split; [done|lia]|].
  destruct (Z.ltb_spec MAX_KDF_TIME_COST (time_cost p)); [split; [done|lia]|].
  destruct (Z.ltb_spec MAX_KDF_PARALLELISM (parallelism p)); [split; [done|lia]|].
  unfold MAX_KDF_MEMORY_KIB_TIME_COST_PRODUCT.
  destruct (Z.ltb_spec (3 * 1024 * 1024) (Z.min 18446744073709551615 (memory_kib p * time_cost p))); [split; [done|lia]|].
  split; [lia|done].
Qed.

Lemma length_write_outer_header p salt nonce ct_len :
  length salt = SALT_LEN -> length nonce = NONCE_LEN ->
  length (write_outer_header p salt nonce ct_len) = OUTER_HEADER_LEN.
Proof.
  intros Hs Hn. unfold write_outer_header, OUTER_HEADER_LEN. rewrite !length_app, Hs, Hn, !length_to_be_bytes.
  cbn [length]. lia.
Qed.

(** The layout up to the ciphertext, and the fields as the decoder reads them. *)
Definition LAYOUT : list nat := [length DOMAIN; 1; 1; 4; 4; 4; SALT_LEN; NONCE_LEN; 8]%nat.

Definition read_fields (bytes : list Z) : list (list Z) :=
  [slice 0 (length DOMAIN) bytes; slice OFFSET_SCHEMA_VERSION 1 bytes; slice OFFSET_KDF_ALGO 1 bytes;
   slice OFFSET_KDF_MEMORY 4 bytes; slice OFFSET_KDF_TIME 4 bytes; slice OFFSET_KDF_PAR 4 bytes;
   slice OFFSET_KDF_SALT SALT_LEN bytes; slice OFFSET_NONCE NONCE_LEN bytes; slice OFFSET_CT_LEN 8 bytes].

Lemma written_fields p salt nonce ct_len rest :
  length salt = SALT_LEN -> length nonce = NONCE_LEN ->
  read_fields (write_outer_header p salt nonce ct_len ++ rest)
  = [DOMAIN; [SCHEMA_VERSION]; [KDF_ALGO_ARGON2ID]; to_be_bytes 4 (memory_kib p); to_be_bytes 4 (time_cost p);
     to_be_bytes 4 (parallelism p); salt; nonce; to_be_bytes 8 ct_len].
Proof.
  intros Hs Hn. set (fs := [DOMAIN; [SCHEMA_VERSION]; [KDF_ALGO_ARGON2ID]; to_be_bytes 4 (memory_kib p); to_be_bytes 4 (time_cost p);
     to_be_bytes 4 (parallelism p); salt; nonce; to_be_bytes 8 ct_len]).
  pose proof (slices_fields fs rest) as H.
  replace (mjoin fs) with (write_outer_header p salt nonce ct_len) in H
    by (unfold fs, write_outer_header; cbn -[app DOMAIN to_be_bytes]; by rewrite app_nil_r).
  replace (length <$> fs) with LAYOUT in H; [exact H|].
  unfold fs. rewrite !fmap_cons, Hs, Hn, !length_to_be_bytes. done.
Qed.

Lemma header_reads bytes p salt nonce ct_len :
  (OUTER_HEADER_LEN <= length bytes)%nat -> affordable p -> 0 <= ct_len <= U64_MAX ->
  read_fields bytes = [DOMAIN; [SCHEMA_VERSION]; [KDF_ALGO_ARGON2ID]; to_be_bytes 4 (memory_kib p);
    to_be_bytes 4 (time_cost p); to_be_bytes 4 (parallelism p); salt; nonce; to_be_bytes 8 ct_len] ->
  take (length DOMAIN) bytes = DOMAIN
  /\ byte_at OFFSET_SCHEMA_VERSION bytes = SCHEMA_VERSION /\ byte_at OFFSET_KDF_ALGO bytes = KDF_ALGO_ARGON2ID
  /\ mkKdfParams (u32_at OFFSET_KDF_MEMORY bytes) (u32_at OFFSET_KDF_TIME bytes) (u32_at OFFSET_KDF_PAR bytes) = p
  /\ slice OFFSET_KDF_SALT SALT_LEN bytes = salt /\ slice OFFSET_NONCE NONCE_LEN bytes = nonce
  /\ be_value (slice OFFSET_CT_LEN 8 bytes) = ct_len.
Proof.
  intros Hl Hp Hc Hf. unfold read_fields in Hf.
  rewrite (slice_one OFFSET_SCHEMA_VERSION), (slice_one OFFSET_KDF_ALGO) in Hf by (vm_compute in Hl |- *; lia).
  remember (to_be_bytes 4 (memory_kib p)) as m eqn:Em. remember (to_be_bytes 4 (time_cost p)) as t eqn:Et.
  remember (to_be_bytes 4 (parallelism p)) as q eqn:Eq. remember (to_be_bytes 8 ct_len) as n eqn:En.
  injection Hf as E0 E1 E2 E3 E4 E5 E6 E7 E8.
  assert (Hu : forall x, 0 <= x <= U32_MAX -> be_value (to_be_bytes 4 x) = x).
  { intros x Hr. rewrite be_value_to_be_bytes. apply Z.mod_small. unfold U32_MAX in Hr. simpl. lia. }
  split_and!; try done.
  - destruct Hp as (? & ? & ? & _). unfold MAX_KDF_MEMORY_KIB, MAX_KDF_TIME_COST, MAX_KDF_PARALLELISM in *.
    unfold u32_at. rewrite E3, E4, E5, Em, Et, Eq, !Hu by (unfold U32_MAX; lia). by destruct p.
  - rewrite E8, En, be_value_to_be_bytes. apply Z.mod_small. unfold U64_MAX in Hc. simpl. lia.
Qed.

Section header_facts.
Context (sha256 : list Z -> list Z) (sha256_len : forall l, length (sha256 l) = 32%nat).

Lemma length_integrity_hash bytes : length (integrity_hash sha256 bytes) = INTEGRITY_HASH_LEN.
Proof using sha256_len. unfold integrity_hash. by rewrite length_take, sha256_len. Qed.

(** A header that was written, a ciphertext and the hash of both. *)
Definition envelope (p : KdfParams) (salt nonce ct : list Z) : list Z :=
  let sealed := write_outer_header p salt nonce (Z.of_nat (length ct)) ++ ct in
  sealed ++ integrity_hash sha256 sealed.

Lemma parse_envelope p salt nonce ct :
  affordable p -> length salt = SALT_LEN -> length nonce = NONCE_LEN -> Z.of_nat (length ct) <= U64_MAX ->
  parse_outer_header sha256 (envelope p salt nonce ct) =
  if Z.of_nat (length ct) <=? MAX_CIPHERTEXT_LEN
  then Ok (mkOuterHeader SCHEMA_VERSION KDF_ALGO_ARGON2ID p salt nonce (Z.of_nat (length ct)), ct)
  else argument.
Proof using sha256_len.
  intros Hp Hs Hn Hct. unfold envelope. set (header := write_outer_header p salt nonce (Z.of_nat (length ct))).
  set (hash := integrity_hash sha256 (header ++ ct)).
  assert (Hh : length header = OUTER_HEADER_LEN) by (by apply length_write_outer_header).
  assert (Hi : length hash = INTEGRITY_HASH_LEN) by apply length_integrity_hash.
  pose proof (written_fields p salt nonce (Z.of_nat (length ct)) (ct ++ hash) Hs Hn) as Hf.
  fold header in Hf. rewrite <- app_assoc. set (bytes := header ++ ct ++ hash) in *.
  assert (Hl : length bytes = (OUTER_HEADER_LEN + length ct + INTEGRITY_HASH_LEN)%nat)
    by (unfold bytes; rewrite !length_app, Hh, Hi; lia).
  assert (Hcut : (length bytes - INTEGRITY_HASH_LEN)%nat = length (header ++ ct)) by (rewrite Hl, length_app, Hh; lia).
  assert (Hbody : slice OUTER_HEADER_LEN (length ct) bytes = ct).
  { unfold bytes. rewrite <- Hh, <- (Nat.add_0_r (length header)), slice_skip. unfold slice.
    by rewrite drop_0, take_app_length. }
  assert (Hreg : take (length (header ++ ct)) bytes = header ++ ct /\ drop (length (header ++ ct)) bytes = hash)
    by (unfold bytes; rewrite app_assoc; by rewrite take_app_length, drop_app_length).
  destruct (header_reads bytes p salt nonce (Z.of_nat (length ct))) as (Hd & E1 & E2 & E3 & E4 & E5 & E6);
    [lia|done|lia|exact Hf|]. clearbody bytes.
  unfold parse_outer_header. rewrite (proj2 (Nat.ltb_ge _ _)) by (rewrite Hl; lia).
  rewrite Hd, bool_decide_eq_true_2, E1, E2, !Z.eqb_refl, E3, E4, E5, E6 by done. cbn [negb].
  assert (Hc : clamp p = Ok tt) by (apply clamp_affordable; [destruct Hp as (?&?&?&_); unfold nonnegative; lia|done]).
  rewrite Hc. cbn [mbind result_bind].
  destruct (Z.leb_spec (Z.of_nat (length ct)) MAX_CIPHERTEXT_LEN), (Z.ltb_spec MAX_CIPHERTEXT_LEN (Z.of_nat (length ct)));
    try lia; [|done].
  rewrite Nat2Z.id, Hl, Nat.eqb_refl. cbn [negb]. rewrite <- Hl, Hcut.
  destruct Hreg as [-> ->]. fold hash. by rewrite bool_decide_eq_true_2, Hbody.
Qed.

Lemma parse_inv bytes h ct :
  Forall is_byte bytes -> parse_outer_header sha256 bytes = Ok (h, ct) ->
  accepted h /\ oh_ct_len h = Z.of_nat (length ct)
  /\ bytes = envelope (oh_kdf_params h) (oh_salt h) (oh_nonce h) ct.
Proof using sha256_len.
  intros Hb. unfold parse_outer_header.
  destruct (Nat.ltb_spec (length bytes) (OUTER_HEADER_LEN + INTEGRITY_HASH_LEN)) as [|Hmin]; [done|].
  destruct (bool_decide_reflect (take (length DOMAIN) bytes = DOMAIN)) as [Hd|]; [|done].
  destruct (Z.eqb_spec (byte_at OFFSET_SCHEMA_VERSION bytes) SCHEMA_VERSION) as [Hv|]; [|done].
  destruct (Z.eqb_spec (byte_at OFFSET_KDF_ALGO bytes) KDF_ALGO_ARGON2ID) as [Ha|]; [|done]. cbn [negb].
  set (params := mkKdfParams _ _ _). destruct (clamp params) as [[]|] eqn:Ec; [|done]. cbn [mbind result_bind].
  set (n := be_value (slice OFFSET_CT_LEN 8 bytes)). destruct (Z.ltb_spec MAX_CIPHERTEXT_LEN n) as [|Hn]; [done|].
  destruct (Nat.eqb_spec (length bytes) (OUTER_HEADER_LEN + Z.to_nat n + INTEGRITY_HASH_LEN)) as [Hl|]; [|done].
  cbn [negb]. case_bool_decide as Hhash; [|done]. intros [= <- <-].
  assert (Hbe : forall off k, (off + k <= OUTER_HEADER_LEN)%nat ->
    to_be_bytes k (be_value (slice off k bytes)) = slice off k bytes /\ 0 <= be_value (slice off k bytes)).
  { intros off k Hok. assert (Hk : length (slice off k bytes) = k) by (apply length_slice; lia).
    assert (Hkb : Forall is_byte (slice off k bytes)) by (by apply Forall_take, Forall_drop).
    split; [rewrite <- Hk at 1; by apply to_be_bytes_be_value|by apply be_value_bounds]. }
  assert (Hct : length (slice OUTER_HEADER_LEN (Z.to_nat n) bytes) = Z.to_nat n) by (apply length_slice; lia).
  assert (H0 : 0 <= n) by (apply Hbe; vm_compute; lia).
  cbn [oh_kdf_params oh_salt oh_nonce oh_ct_len]. rewrite Hct, Z2Nat.id by done. split; [|split; [done|]].
  { split; cbn [oh_kdf_params oh_salt oh_nonce oh_ct_len oh_schema_version oh_kdf_algo_id]; try done.
    - apply clamp_affordable; [|done]. split_and!; apply Hbe; vm_compute; lia.
    - apply length_slice. unfold OUTER_HEADER_LEN in *. vm_compute in Hmin |- *. lia.
    - apply length_slice. vm_compute in Hmin |- *. lia. }
  unfold envelope. rewrite Hct, Z2Nat.id by done.
  assert (Hheader : write_outer_header params (slice OFFSET_KDF_SALT SALT_LEN bytes) (slice OFFSET_NONCE NONCE_LEN bytes) n
    = take OUTER_HEADER_LEN bytes).
  { destruct (slices_join LAYOUT bytes) as [Hj _]. change (foldr Nat.add 0%nat LAYOUT) with OUTER_HEADER_LEN in Hj.
    rewrite <- (take_drop OUTER_HEADER_LEN bytes) in Hj at 3. apply app_inv_tail in Hj. rewrite <- Hj.
    change (slices 0 LAYOUT bytes) with (read_fields bytes). unfold read_fields, write_outer_header, params, n, u32_at.
    cbn [memory_kib time_cost parallelism].
    rewrite !(fun off k Hok => proj1 (Hbe off k Hok)) by (vm_compute; lia).
    rewrite (slice_one OFFSET_SCHEMA_VERSION), (slice_one OFFSET_KDF_ALGO), Hv, Ha by (vm_compute in Hmin |- *; lia).
    change (slice 0 (length DOMAIN) bytes) with (take (length DOMAIN) bytes). rewrite Hd.
    cbn -[app DOMAIN slice]. by rewrite app_nil_r. }
  rewrite Hheader. assert (Hsealed : take OUTER_HEADER_LEN bytes ++ slice OUTER_HEADER_LEN (Z.to_nat n) bytes
    = take (length bytes - INTEGRITY_HASH_LEN) bytes).
  { rewrite Hl, Nat.add_sub. unfold slice. by rewrite take_take_drop. }
  by rewrite Hsealed, <- Hhash, take_drop.
Qed.
End header_facts.

(** The outer header is exact.  The parser accepts a byte string exactly when
    it is a header with the known domain, version and algorithm and with cost
    parameters within the clamps, the ciphertext of the length the header
    announces, and the first four bytes of the SHA-256 of both; it returns these
    parts.  Nothing may be missing, added or changed. *)
Theorem parse_outer_header_exact sha256 bytes h ct :
  (forall l, length (sha256 l) = 32%nat) -> Forall is_byte bytes ->
  parse_outer_header sha256 bytes = Ok (h, ct) <->
  accepted h /\ oh_ct_len h = Z.of_nat (length ct)
  /\ bytes = envelope sha256 (oh_kdf_params h) (oh_salt h) (oh_nonce h) ct.
Proof.
  intros Hlen Hb. split; [by apply parse_inv|]. intros ([Hv Ha Hp Hs Hn Hc] & Hct & ->).
  rewrite Hct in Hc. unfold MAX_CIPHERTEXT_LEN in Hc.
  rewrite parse_envelope by (try done; unfold U64_MAX; lia).
  rewrite (proj2 (Z.leb_le _ _)) by (unfold MAX_CIPHERTEXT_LEN; lia).
  destruct h. cbn [oh_schema_version oh_kdf_algo_id oh_kdf_params oh_salt oh_nonce oh_ct_len] in *. by subst.
Qed.

Definition toy_header : OuterHeader :=
  mkOuterHeader SCHEMA_VERSION KDF_ALGO_ARGON2ID RECOMMENDED (replicate 16 5) (replicate 24 6) 3.

Lemma parse_outer_header_exact_witness :
  parse_outer_header toy_digest (envelope toy_digest RECOMMENDED (replicate 16 5) (replicate 24 6) [1; 2; 3])
  = Ok (toy_header, [1; 2; 3]).
Proof.
  apply (parse_outer_header_exact toy_digest _ toy_header [1; 2; 3]).
  - apply toy_digest_laws.
  - apply (bool_decide_eq_true_1 (Forall (fun b => 0 <= b < 256) _)). vm_compute. reflexivity.
  - split; [|split; [reflexivity|reflexivity]].
    split; [reflexivity..| |reflexivity|reflexivity|]; unfold affordable; vm_compute; intuition discriminate.
Defined.

(** ** Sealing and opening *)

(** No restorable body is too long for the envelope. *)
Section sizes.
Context `{!Cbor} `{!CborLaws _}.

Lemma put_bytes_length b : short b -> (length (put_bytes b) <= 9 + length b)%nat.
Proof using CborLaws0.
  intros Hb. unfold put_bytes. rewrite length_app.
  pose proof (push_length (BytesHeader (Some (Z.of_nat (length b)))) (short_pushable b Hb)). lia.
Qed.

Lemma put_array_length l n :
  Z.of_nat (length l) <= U64_MAX -> Forall short l -> Forall (fun x => (length x <= n)%nat) l ->
  (length (put_array l) <= 9 + (9 + n) * length l)%nat.
Proof using CborLaws0.
  intros Hl Hs Hn. unfold put_array. rewrite length_app.
  pose proof (push_length (ArrayHeader (Some (Z.of_nat (length l)))) ltac:(simpl; unfold is_u64; lia)) as Hh.
  assert (Hm : (length (mjoin (put_bytes <$> l)) <= (9 + n) * length l)%nat); [|lia].
  clear Hl Hh. revert Hn. induction Hs as [|x l Hx _ IH]; intros Hn; [simpl; lia|]. rewrite fmap_cons.
  change (mjoin (put_bytes x :: (put_bytes <$> l))) with (put_bytes x ++ mjoin (put_bytes <$> l)).
  rewrite length_app. cbn [length]. apply Forall_cons in Hn as [Hxn Hn]. specialize (IH Hn).
  pose proof (put_bytes_length x Hx). lia.
Qed.

Lemma restorable_length c :
  typed c -> restorable c = true -> Z.of_nat (length (encode_body c)) + TAG_LEN <= MAX_CIPHERTEXT_LEN.
Proof using CborLaws0.
  intros [Hw Hv He Ht Hn [Hp Hp'] [Hs Hs'] [Ha Ha'] [Hd Hd'] Hc _] Hr. unfold restorable in Hr.
  repeat (apply andb_true_iff in Hr as [? Hr]).
  repeat match goal with H : _ && _ = true |- _ => apply andb_true_iff in H as [? ?] end.
  assert (Hshares : Forall (fun x => (length x <= 1024)%nat) (sealed_shares c)).
  { apply Forall_forall. intros x Hx.
    match goal with H : forallb (fits _) _ = true |- _ => rewrite forallb_forall in H; pose proof (H x) as Hf end.
    specialize (Hf ltac:(by apply list_elem_of_In)).
    unfold fits, MAX_SEALED_SHARE_LEN in Hf. zbool. lia. }
  unfold fits, counted in *. zbool. unfold U8_MAX, MAX_WRAPPED_RECOVERY_LEN, MAX_DISPLAY_NAME_LEN in *.
  assert (Hpush : forall n, is_u64 n -> (length (push (Positive n)) <= 9)%nat) 
    by (intros n Hu; exact (push_length (Positive n) Hu)).
  assert (Hsmall : forall n, 0 <= n <= 255 -> is_u64 n) by (unfold is_u64, U64_MAX; lia).
  pose proof (push_length (ArrayHeader (Some 11)) (Hsmall 11 ltac:(lia))).
  pose proof (push_length (TextHeader (Some (Z.of_nat (length (vault_display_name c))))) (short_pushable _ Hd)).
  pose proof (put_bytes_length _ Hw). pose proof (put_bytes_length (vault_id c) ltac:(unfold short, U64_MAX; lia)).
  pose proof (put_array_length _ 32 Hp' (short_of_length 32 _ ltac:(done) Hp)
    (Forall_impl _ _ _ Hp (fun x Hx => Nat.eq_le_incl _ _ Hx))).
  pose proof (put_array_length _ 1024 Hs' Hs Hshares).
  pose proof (put_array_length _ 20 Ha' (short_of_length 20 _ ltac:(done) Ha)
    (Forall_impl _ _ _ Ha (fun x Hx => Nat.eq_le_incl _ _ Hx))).
  pose proof (Hpush _ He). pose proof (Hpush _ (Hsmall _ Ht)). pose proof (Hpush _ (Hsmall _ Hn)).
  pose proof (Hpush _ Hc). pose proof (Hpush SCHEMA_VERSION (Hsmall SCHEMA_VERSION ltac:(done))).
  unfold encode_body, put_text. rewrite !length_app. unfold TAG_LEN, MAX_CIPHERTEXT_LEN. lia.
Qed.
End sizes.

Section round_trip.
Context {Key : Type} `{!Cbor} `{!CborLaws _} (memory : Z) (memory_enough : MAX_WRAPPED_RECOVERY_LEN <= memory).
Context (sha256 : list Z -> list Z) (sha256_len : forall l, length (sha256 l) = 32%nat)
  (sha256_bytes : forall l, Forall is_byte (sha256 l)).
Context (argon2id : list Z -> list Z -> KdfParams -> option Key).
Context (aead_seal aead_open : Key -> list Z -> list Z -> list Z -> option (list Z)).
Context (aead_law : forall k n m a ct, aead_seal k n m a = Some ct ->
  aead_open k n ct a = Some m /\ Z.of_nat (length ct) = Z.of_nat (length m) + TAG_LEN
  /\ (Forall is_byte m -> Forall is_byte ct)).

Lemma affordable_RECOMMENDED : affordable RECOMMENDED.
Proof. unfold affordable. vm_compute. intuition discriminate. Qed.

Lemma envelope_prefix p salt nonce ct :
  take (length DOMAIN) (envelope sha256 p salt nonce ct) = DOMAIN.
Proof. unfold envelope, write_outer_header. by rewrite <- !app_assoc, take_app_length. Qed.

Lemma envelope_bytes p salt nonce ct :
  Forall is_byte (salt ++ nonce) -> Forall is_byte ct -> Forall is_byte (envelope sha256 p salt nonce ct).
Proof using sha256_bytes.
  intros [Hs Hn]%Forall_app Hc. unfold envelope, write_outer_header.
  repeat (apply Forall_app; split); try done; try apply to_be_bytes_bytes; try (by repeat constructor).
  by apply Forall_take.
Qed.

(** The text form is looked through. *)
Lemma decode_outer_text bytes :
  Forall is_byte bytes -> take (length DOMAIN) bytes = DOMAIN ->
  decode_outer_into_ct sha256 (encode_text sha256 bytes) = decode_outer_into_ct sha256 bytes.
Proof using sha256_len sha256_bytes.
  intros Hb Hd. unfold decode_outer_into_ct. rewrite (bool_decide_eq_true_2 _ Hd).
  assert (Hchars : Forall (fun c => 97 <= c <= 122 \/ 50 <= c <= 55) (encode_text sha256 bytes))
    by (apply base32_encode_chars; by apply checksummed_bytes).
  rewrite bool_decide_eq_false_2.
  - rewrite utf8_ascii by (eapply Forall_impl; [exact Hchars|]; simpl; lia).
    unfold decode_text, encode_text. by rewrite text_roundtrip.
  - intros He. apply (Forall_take _ (length DOMAIN)) in Hchars. rewrite He in Hchars.
    assert (Hdash : DOMAIN !! 8%nat = Some 45) by reflexivity.
    apply (Forall_lookup_1 _ _ _ _ Hchars) in Hdash. lia.
Qed.

Lemma seal_backup_inv salt nonce c phrase bytes :
  seal_backup sha256 argon2id aead_seal salt nonce c phrase = Ok bytes ->
  exists input key ct, seed_phrase_to_kdf_input phrase = Ok input
  /\ argon2id input salt RECOMMENDED = Some key /\ Z.of_nat (length ct) <= U64_MAX
  /\ Z.of_nat (length ct) = Z.of_nat (length (encode_body c)) + TAG_LEN
  /\ aead_seal key nonce (encode_body c)
       (write_outer_header RECOMMENDED salt nonce (Z.of_nat (length ct))) = Some ct
  /\ bytes = envelope sha256 RECOMMENDED salt nonce ct.
Proof using aead_law.
  unfold seal_backup. case_match; [done|]. intros Hs.
  destruct (seed_phrase_to_kdf_input phrase) as [input|]; [|done]. cbn [mbind result_bind] in Hs.
  unfold derive_key in Hs. change (validate RECOMMENDED) with (@Ok KdfError unit tt) in Hs. cbn [mbind result_bind] in Hs.
  destruct (argon2id input salt RECOMMENDED) as [key|] eqn:Ek; [|done].
  unfold kdf_to_backup in Hs. cbn [ok_or map_err mbind result_bind] in Hs.
  destruct (u64_try_from _) as [n|] eqn:En; [|done]. apply try_from_Some in En as [-> Hn].
  cbn [ok_or mbind result_bind] in Hs.
  destruct (aead_seal _ _ _ _) as [ct|] eqn:Ea; [|done]. cbn [ok_or mbind result_bind] in Hs. injection Hs as <-.
  destruct (aead_law _ _ _ _ _ Ea) as (_ & Hl & _). exists input, key, ct.
  split_and!; [done|done|lia|done|by rewrite Hl|]. unfold envelope. by rewrite Hl.
Qed.

(** C24. A backup opens.  What sealing some contents wrote, as bytes or as the text
    that is printed, opens under the same phrase, and gives the very contents
    back when they are within the limits of the decoder; contents that are not
    are refused when the backup is opened, with an error and not with other
    contents. *)
Theorem backup_roundtrip c phrase salt nonce bytes :
  typed c -> length salt = SALT_LEN -> length nonce = NONCE_LEN -> Forall is_byte (salt ++ nonce) ->
  seal_backup sha256 argon2id aead_seal salt nonce c phrase = Ok bytes ->
  let open := fun input => decode_backup memory sha256 argon2id aead_open input phrase in
  open (encode_text sha256 bytes) = open bytes
  /\ if restorable c then open bytes = Ok c else exists e, open bytes = Err (Failed e).
Proof using CborLaws0 memory_enough sha256_len sha256_bytes aead_law.
  intros Ht Hs Hn Hb Hseal open.
  apply seal_backup_inv in Hseal as (input & key & ct & Hinput & Hkey & Hmax & Hlen & Hct & ->).
  destruct (aead_law _ _ _ _ _ Hct) as (Hopen & _ & Hbytes).
  set (bytes := envelope sha256 RECOMMENDED salt nonce ct). split.
  { unfold open, decode_backup. rewrite decode_outer_text; [done| |apply envelope_prefix].
    apply envelope_bytes; [done|]. by apply Hbytes, encode_body_bytes. }
  assert (Houter : decode_outer_into_ct sha256 bytes = '(h, r) ← parse_outer_header sha256 bytes; Ok (take OUTER_HEADER_LEN bytes, r, h)).
  { unfold decode_outer_into_ct. by rewrite (bool_decide_eq_true_2 _ (envelope_prefix RECOMMENDED salt nonce ct)). }
  assert (Haad : take OUTER_HEADER_LEN bytes = write_outer_header RECOMMENDED salt nonce (Z.of_nat (length ct))).
  { unfold bytes, envelope. rewrite <- app_assoc. by rewrite take_app_length' by (by rewrite length_write_outer_header). }
  unfold open, decode_backup. rewrite Houter.
  pose proof (parse_envelope sha256 sha256_len RECOMMENDED salt nonce ct affordable_RECOMMENDED Hs Hn Hmax) as Hparse.
  fold bytes in Hparse. rewrite Hparse.
  destruct (Z.leb_spec (Z.of_nat (length ct)) MAX_CIPHERTEXT_LEN) as [|Hlong].
  - rewrite Haad. cbn [mbind result_bind map_err]. unfold decode_backup_from_outer, derive_key.
    rewrite Hinput. cbn [mbind result_bind oh_salt oh_kdf_params oh_nonce].
    change (validate RECOMMENDED) with (@Ok KdfError unit tt). cbn [mbind result_bind].
    rewrite Hkey. unfold kdf_to_backup. cbn [ok_or map_err mbind result_bind]. rewrite Hopen.
    cbn [ok_or map_err mbind result_bind]. rewrite decode_encode_body by done. case_match; [done|by eexists].
  - destruct (restorable c) eqn:Hr; [|by eexists].
    pose proof (restorable_length c Ht Hr). lia.
Qed.
End round_trip.

(** Toy primitives: the phrase is the key, and the tag is a digest of the
    message under it. *)
Definition toy_argon2id (password salt : list Z) (p : KdfParams) : option (list Z) := Some (password ++ salt).
Definition toy_tag (key nonce m aad : list Z) : list Z := take 16 (toy_digest (key ++ nonce ++ m ++ aad)).
Definition toy_seal (key nonce m aad : list Z) : option (list Z) := Some (m ++ toy_tag key nonce m aad).
Definition toy_open (key nonce ct aad : list Z) : option (list Z) :=
  if (length ct <? 16)%nat then None
  else
    let m := take (length ct - 16) ct in
    if bool_decide (drop (length ct - 16) ct = toy_tag key nonce m aad) then Some m else None.

Lemma toy_aead_law k n m a ct :
  toy_seal k n m a = Some ct ->
  toy_open k n ct a = Some m /\ Z.of_nat (length ct) = Z.of_nat (length m) + TAG_LEN
  /\ (Forall is_byte m -> Forall is_byte ct).
Proof.
  destruct toy_digest_laws as [Hl Hb]. intros [= <-].
  assert (Ht : length (toy_tag k n m a) = 16%nat) by (unfold toy_tag; by rewrite length_take, Hl).
  unfold toy_open. rewrite length_app, Ht, (proj2 (Nat.ltb_ge _ _)), Nat.add_sub by lia.
  rewrite take_app_length, drop_app_length, bool_decide_eq_true_2 by done.
  split_and!; [done|unfold TAG_LEN; lia|]. intros Hm. apply Forall_app. split; [done|].
  unfold toy_tag. by apply Forall_take.
Qed.

Definition sample_contents (shares : list (list Z)) : BackupContents :=
  mkBackupContents [9; 8; 7] (replicate 32 1) 4 2 2 [replicate 32 2; replicate 32 3] shares
    [replicate 20 4; replicate 20 5] (bytes_of "home") 1700000000.

Definition sample_phrase : list string := replicate 24 "abandon"%string.

Lemma sample_typed shares :
  Forall (fun s => bool_decide (Forall (fun b => 0 <= b < 256) s /\ length s = 2%nat)) shares ->
  Z.of_nat (length shares) <= 2 -> typed (sample_contents shares).
Proof.
  intros Hs Hl.
  assert (Hs' : Forall short shares /\ Forall is_byte (mjoin shares)).
  { clear Hl. induction Hs as [|s shares Hs _ [IH1 IH2]]; [split; constructor|].
    apply bool_decide_unpack in Hs as [Hb Hn]. split; [constructor; [unfold short, U64_MAX; lia|done]|].
    apply Forall_app. by split. }
  destruct Hs' as [Hs1 Hs2]. split; cbn; try (unfold short, is_u64, U64_MAX, U8_MAX; cbn; lia).
  - split; [repeat constructor|unfold U64_MAX; lia].
  - split; [done|unfold U64_MAX; lia].
  - split; [repeat constructor|unfold U64_MAX; lia].
  - split; [unfold short, U64_MAX; cbn; lia|reflexivity].
  - change (Forall is_byte ([9; 8; 7] ++ replicate 32 1 ++ (replicate 32 2 ++ replicate 32 3 ++ []) ++ mjoin shares
      ++ (replicate 20 4 ++ replicate 20 5 ++ []) ++ bytes_of "home")).
    repeat (apply Forall_app; split); try done; try apply bytes_of_bytes; try apply Forall_replicate;
      repeat constructor; unfold is_byte; lia.
Qed.

Lemma backup_roundtrip_witness :
  let seal := seal_backup toy_digest toy_argon2id toy_seal (replicate 16 6) (replicate 24 7) in
  let open := fun input => decode_backup 65536 toy_digest toy_argon2id toy_open input sample_phrase in
  exists good bad,
    seal (sample_contents [[1; 2]; [3; 4]]) sample_phrase = Ok good
    /\ open good = Ok (sample_contents [[1; 2]; [3; 4]]) /\ open (encode_text toy_digest good) = open good
    /\ seal (sample_contents [[1; 2]]) sample_phrase = Ok bad
    /\ exists e, open bad = Err (Failed e).
Proof.
  intros seal open. destruct toy_digest_laws as [H1 H2].
  destruct (seal (sample_contents [[1; 2]; [3; 4]]) sample_phrase) as [good|] eqn:Hgood; [|vm_compute in Hgood; discriminate].
  destruct (seal (sample_contents [[1; 2]]) sample_phrase) as [bad|] eqn:Hbad; [|vm_compute in Hbad; discriminate].
  exists good, bad.
  assert (Hb : Forall is_byte (replicate 16 6 ++ replicate 24 7))
    by (apply Forall_app; split; apply Forall_replicate; unfold is_byte; lia).
  assert (Ht1 : typed (sample_contents [[1; 2]; [3; 4]])) by (apply sample_typed; [repeat constructor|done]).
  assert (Ht2 : typed (sample_contents [[1; 2]])) by (apply sample_typed; [repeat constructor|done]).
  destruct (backup_roundtrip 65536 ltac:(done) toy_digest H1 H2 toy_argon2id toy_seal toy_open toy_aead_law
    _ _ (replicate 16 6) (replicate 24 7) _ Ht1 eq_refl eq_refl Hb Hgood) as [Htext Hopen].
  destruct (backup_roundtrip 65536 ltac:(done) toy_digest H1 H2 toy_argon2id toy_seal toy_open toy_aead_law
    _ _ (replicate 16 6) (replicate 24 7) _ Ht2 eq_refl eq_refl Hb Hbad) as [_ Hrefuse].
  split_and!; [reflexivity|exact Hopen|exact Htext|reflexivity|exact Hrefuse].
Defined.

(** ** Hostile input *)

Section hostile.
Context {Key : Type} `{!Cbor} (memory : Z) (memory_enough : MAX_WRAPPED_RECOVERY_LEN <= memory).
Context (sha256 : list Z -> list Z) (aead_open : Key -> list Z -> list Z -> list Z -> option (list Z)).

Lemma never_aborts_pull_bytes_capped cap : cap <= memory -> never_aborts (pull_bytes_capped memory cap).
Proof.
  intros Hc. unfold pull_bytes_capped. never_abort. zbool. apply never_aborts_buffer. lia.
Qed.

Lemma never_aborts_pull_bytes_exact n : Z.of_nat n <= memory -> never_aborts (pull_bytes_exact memory n).
Proof. intros Hn. unfold pull_bytes_exact. never_abort. by apply never_aborts_pull_bytes_capped. Qed.

Lemma never_aborts_pull_text_capped cap : cap <= memory -> never_aborts (pull_text_capped memory cap).
Proof.
  intros Hc. unfold pull_text_capped. never_abort. zbool. apply never_aborts_buffer. lia.
Qed.

Lemma never_aborts_pull_uint : never_aborts pull_uint.
Proof. unfold pull_uint. never_abort. Qed.

Lemma never_aborts_pull_array_len : never_aborts pull_array_len.
Proof. unfold pull_array_len. never_abort. Qed.

(** [pull_u8] never aborts, and what follows may rely on the width of its value. *)
Lemma never_aborts_pull_u8 {B} (f : Z -> reader BackupError B) :
  (forall n, 0 <= n <= U8_MAX -> never_aborts (f n)) -> never_aborts (pull_u8 ≫= f).
Proof.
  intros Hf input. unfold pull_u8, mbind, reader_bind. pose proof (never_aborts_pull_uint input) as Hu.
  destruct (pull_uint input) as [[v rest]|e]; [|congruence]. unfold of_result.
  destruct (u8_try_from v) as [n|] eqn:E; [|done]. apply try_from_Some in E as [-> Hn]. by apply Hf.
Qed.

Lemma never_aborts_pull_guardian_array count size item :
  0 <= count <= U8_MAX -> 0 <= size <= VEC_SIZE -> never_aborts item ->
  never_aborts (pull_guardian_array memory count size item).
Proof using memory_enough.
  intros Hc Hs Hi. unfold pull_guardian_array. apply never_aborts_bind; [apply never_aborts_pull_array_len|intros n].
  destruct (Z.eqb_spec n count) as [->|]; [|apply never_aborts_fail]. cbn [negb].
  apply never_aborts_bind; [|intros _; by apply never_aborts_items].
  apply never_aborts_allocate. pose proof (caps_fit memory memory_enough). unfold U8_MAX in *. nia.
Qed.

Lemma never_aborts_decode_contents : never_aborts (decode_contents memory).
Proof using memory_enough.
  pose proof (caps_fit memory memory_enough) as (H20 & H32 & Hshare & Hname). unfold U8_MAX in *.
  unfold decode_contents, expect_array. apply never_aborts_bind; [never_abort|intros _].
  apply never_aborts_bind; [by apply never_aborts_pull_bytes_capped|intros wrapped].
  apply never_aborts_bind; [apply never_aborts_pull_bytes_exact; lia|intros vid].
  apply never_aborts_bind; [apply never_aborts_pull_uint|intros ep].
  apply never_aborts_pull_u8. intros th _. apply never_aborts_pull_u8. intros count Hcount. unfold U8_MAX in Hcount.
  apply never_aborts_bind; [apply never_aborts_pull_array_len|intros n].
  destruct (Z.ltb_spec MAX_GUARDIAN_COUNT_DECODE n); [apply never_aborts_fail|].
  destruct (Z.eqb_spec n count) as [->|]; [cbn [negb]|apply never_aborts_fail].
  apply never_aborts_bind; [apply never_aborts_allocate; lia|intros _].
  apply never_aborts_bind; [apply never_aborts_items, never_aborts_pull_bytes_exact; lia|intros pubs].
  apply never_aborts_bind.
  { apply never_aborts_pull_guardian_array; [done|done|]. by apply never_aborts_pull_bytes_capped. }
  intros shares. apply never_aborts_bind.
  { apply never_aborts_pull_guardian_array; [done|done|]. unfold pull_evm_addr.
    apply never_aborts_bind; [apply never_aborts_pull_bytes_exact; lia|intros a; never_abort]. }
  intros addrs. apply never_aborts_bind; [by apply never_aborts_pull_text_capped|intros name].
  apply never_aborts_bind; [apply never_aborts_pull_uint|intros created].
  apply never_aborts_pull_u8. intros v _. never_abort.
Qed.

(** No backup can bring the process down.  With 64 KiB to spare, opening any
    byte string under any phrase ends in contents or in an error: whatever
    lengths the input announces, at any level, no allocation larger than the caps
    is made on its word. *)
Theorem decode_backup_never_aborts argon2id input phrase :
  decode_backup memory sha256 argon2id aead_open input phrase <> Err Abort.
Proof using memory_enough.
  unfold decode_backup. destruct (decode_outer_into_ct sha256 input) as [[[aad ct] h]|e]; [|done].
  cbn [mbind result_bind map_err]. unfold decode_backup_from_outer.
  match goal with |- context [map_err Failed ?r] => destruct r as [plain|e]; [|done] end. cbn [mbind result_bind map_err]. unfold decode_body.
  pose proof (never_aborts_decode_contents plain) as H0.
  destruct (decode_contents memory plain) as [[c rest]|e]; [done|]. cbn [mbind result_bind]. congruence.
Qed.
End hostile.

Lemma decode_backup_never_aborts_witness :
  MAX_WRAPPED_RECOVERY_LEN <= 65536
  /\ decode_backup 65536 toy_digest toy_argon2id toy_open (bytes_of "anything") sample_phrase <> Err Abort.
Proof. split; [done|]. by apply decode_backup_never_aborts. Defined.

(** The floor of [KdfParams::validate]. *)
Definition strong (p : KdfParams) : Prop :=
  MIN_MEMORY_KIB <= memory_kib p /\ MIN_TIME_COST <= time_cost p /\ MIN_PARALLELISM <= parallelism p.

Lemma validate_strong p : validate p = Ok tt <-> strong p.
Proof.
  unfold validate, strong. destruct (Z.ltb_spec (memory_kib p) MIN_MEMORY_KIB); [split; [done|lia]|].
  destruct (Z.ltb_spec (time_cost p) MIN_TIME_COST); [split; [done|lia]|].
  destruct (Z.ltb_spec (parallelism p) MIN_PARALLELISM); [split; [done|lia]|]. done.
Qed.

Lemma decode_text_bytes sha256 s bytes : decode_text sha256 s = Ok bytes -> Forall is_byte bytes.
Proof.
  unfold decode_text, decode_text_with_checksum. intros H.
  destruct (base32_decode TextInvalidEncoding s) as [decoded|] eqn:E; [|done]. cbn [mbind result_bind] in H.
  apply base32_decode_bytes in E as [_ Hb]. destruct (_ <? _)%nat in H; [done|]. case_bool_decide; [|done].
  injection H as <-. by apply Forall_take.
Qed.

(** What the key derivation can be made to do.  Opening any input calls
    Argon2 only on the canonical form of a valid phrase, on a salt of 16 bytes and on
    parameters between the floor of the cryptographic crate and the clamps of the
    header (so at most 1 GiB, and at most 3 GiB-passes): two Argon2 functions
    that agree there cannot be told apart by opening anything. *)
Theorem decode_backup_kdf_bounds {Key} `{!Cbor} memory sha256 (argon2id argon2id' : list Z -> list Z -> KdfParams -> option Key)
    aead_open input phrase :
  (forall l, length (sha256 l) = 32%nat) -> Forall is_byte input ->
  (forall password salt p, seed_phrase_to_kdf_input phrase = Ok password -> length salt = SALT_LEN ->
     strong p -> affordable p -> argon2id password salt p = argon2id' password salt p) ->
  decode_backup memory sha256 argon2id aead_open input phrase
  = decode_backup memory sha256 argon2id' aead_open input phrase.
Proof.
  intros Hlen Hb Hsame. unfold decode_backup.
  destruct (decode_outer_into_ct sha256 input) as [[[aad ct] h]|e] eqn:Eo; [|done].
  cbn [mbind result_bind map_err]. unfold decode_backup_from_outer.
  assert (Hh : accepted h).
  { unfold decode_outer_into_ct in Eo. destruct (bool_decide _); [|destruct (utf8 input)]; try done.
    - cbn [mbind result_bind] in Eo. destruct (parse_outer_header sha256 input) as [[h' ct']|] eqn:Ep; [|done].
      injection Eo as _ _ ->. by apply parse_inv in Ep as [].
    - destruct (decode_text sha256 input) as [bytes|] eqn:Et; [|done]. apply decode_text_bytes in Et.
      cbn [mbind result_bind] in Eo. destruct (parse_outer_header sha256 bytes) as [[h' ct']|] eqn:Ep; [|done].
      injection Eo as _ _ ->. by apply parse_inv in Ep as []. }
  destruct (seed_phrase_to_kdf_input phrase) as [password|]; [|done]. cbn [mbind result_bind].
  unfold derive_key. destruct (validate (oh_kdf_params h)) as [[]|] eqn:Ev; [|done]. cbn [mbind result_bind].
  rewrite (Hsame password (oh_salt h) (oh_kdf_params h)); [done|done|apply Hh|by apply validate_strong|apply Hh].
Qed.

(** A derivation that refuses weak and unaffordable parameters. *)
Definition careful_argon2id (password salt : list Z) (p : KdfParams) : option (list Z) :=
  if (memory_kib p <? MIN_MEMORY_KIB) || (MAX_KDF_MEMORY_KIB <? memory_kib p) then None
  else toy_argon2id password salt p.

Lemma decode_backup_kdf_bounds_witness :
  let input := envelope toy_digest RECOMMENDED (replicate 16 6) (replicate 24 7) [1; 2; 3] in
  decode_backup 65536 toy_digest toy_argon2id toy_open input sample_phrase
  = decode_backup 65536 toy_digest careful_argon2id toy_open input sample_phrase.
Proof.
  apply (decode_backup_kdf_bounds 65536 toy_digest toy_argon2id careful_argon2id toy_open).
  - apply toy_digest_laws.
  - apply (bool_decide_eq_true_1 (Forall (fun b => 0 <= b < 256) _)). vm_compute. reflexivity.
  - intros password salt p _ _ (H1 & _ & _) ((_ & H2) & _). unfold careful_argon2id.
    destruct (Z.ltb_spec (memory_kib p) MIN_MEMORY_KIB), (Z.ltb_spec MAX_KDF_MEMORY_KIB (memory_kib p)); try lia; done.
Defined.
