(* ===== verification/Effects.v ===== *)
(** * Effects: asynchronous code as programs

    An [async fn] of the source is a [prog]: a tree whose nodes are the calls
    it makes to what is outside it (a node of the chain, a locked table, a
    clock) and whose branches are the answers.  Every call is one atomic step,
    so a pool of programs interleaves at exactly the points where the source
    awaits or takes a lock, and a crash is a program that is never resumed.

    [wp pre upd p Q s] is a protocol: [s] is what is tracked about the program
    (a budget, a flag, the list of calls), [pre] what must hold before each
    call, [upd] how an answer changes it.  [wp_reaches] and [pool_invariant]
    turn a protocol into a statement about every run and every interleaving. *)

From S2P Require Import Prelude.

Section prog.
Context {E : Type} {R : E -> Type}.

Inductive prog (A : Type) : Type :=
| Ret (a : A)
| Do (e : E) (k : R e -> prog A).

Fixpoint prog_bind {A B} (f : A -> prog B) (p : prog A) : prog B :=
  match p with
  | Ret _ a => f a
  | Do _ e k => Do B e (fun r => prog_bind f (k r))
  end.

(** A call and its answer; what a run has done so far. *)
Definition call : Type := {e : E & R e}.

Inductive reaches {A} : prog A -> list call -> prog A -> Prop :=
| reaches_here p : reaches p [] p
| reaches_call e k r evs p : reaches (k r) evs p -> reaches (Do A e k) (existT e r :: evs) p.

(** ** Protocols *)

Section wp.
Context {S : Type} (pre : E -> S -> Prop) (upd : call -> S -> S).

Fixpoint wp {A} (p : prog A) (Q : A -> S -> Prop) (s : S) : Prop :=
  match p with
  | Ret _ a => Q a s
  | Do _ e k => pre e s /\ forall r, wp (k r) Q (upd (existT e r) s)
  end.

Lemma wp_mono {A} (p : prog A) (Q Q' : A -> S -> Prop) s :
  wp p Q s -> (forall a s', Q a s' -> Q' a s') -> wp p Q' s.
Proof.
  intros Hw HQ. revert s Hw. induction p as [a|e k IH]; intros s; simpl; [by apply HQ|].
  intros [Hp Hk]. split; [done|]. intros r. apply IH, Hk.
Qed.

Lemma wp_bind {A B} (f : A -> prog B) (p : prog A) Q s :
  wp p (fun a s' => wp (f a) Q s') s -> wp (prog_bind f p) Q s.
Proof.
  revert s. induction p as [a|e k IH]; intros s; simpl; [done|].
  intros [Hp Hk]. split; [done|]. intros r. apply IH, Hk.
Qed.

(** Along any run the calls are made in states that allow them. *)
Lemma wp_reaches {A} (p p' : prog A) Q s evs :
  reaches p evs p' -> wp p Q s -> wp p' Q (foldl (fun s c => upd c s) s evs).
Proof.
  intros Hr. revert s. induction Hr as [|e k r evs p' Hr IH]; intros s Hw; [done|].
  simpl in *. destruct Hw as [_ Hk]. apply IH, Hk.
Qed.

(** What every allowed call keeps holds at every point of every run. *)
Lemma wp_invariant {A} (I : S -> Prop) (p p' : prog A) Q s evs :
  (forall e r s, I s -> pre e s -> I (upd (existT e r) s)) ->
  reaches p evs p' -> wp p Q s -> I s -> I (foldl (fun s c => upd c s) s evs).
Proof.
  intros HI Hr. revert s. induction Hr as [|e k r evs p' Hr IH]; intros s Hw Hs; [done|].
  simpl in *. destruct Hw as [Hp Hk]. apply IH; auto.
Qed.

Lemma wp_call_pre {A} (p : prog A) Q s evs e k :
  reaches p evs (Do A e k) -> wp p Q s -> pre e (foldl (fun s c => upd c s) s evs).
Proof. intros Hr Hw. by destruct (wp_reaches _ _ _ _ _ Hr Hw). Qed.

Lemma reaches_snoc {A} (p : prog A) evs e k r :
  reaches p evs (Do A e k) -> reaches p (evs ++ [existT e r]) (k r).
Proof.
  intros Hr. remember (Do A e k) as q eqn:Eq. revert Eq.
  induction Hr as [p|e1 k1 r1 evs q Hr IH]; intros ->; simpl.
  - by apply reaches_call, reaches_here.
  - by apply reaches_call, IH.
Qed.
End wp.

Lemma reaches_bind {A B} (f : A -> prog B) (p p' : prog A) evs :
  reaches p evs p' -> reaches (prog_bind f p) evs (prog_bind f p').
Proof. induction 1; simpl; [apply reaches_here|by apply reaches_call]. Qed.

Lemma reaches_split {A} (p r : prog A) e1 e2 :
  reaches p (e1 ++ e2) r -> exists q, reaches p e1 q /\ reaches q e2 r.
Proof.
  revert p. induction e1 as [|c e1 IH]; intros p Hr; [exists p; split; [constructor|exact Hr]|].
  simpl in Hr. inversion Hr; subst. match goal with H : reaches _ (e1 ++ e2) _ |- _ => apply IH in H as (q & H1 & H2) end.
  exists q. split; [by constructor|done].
Qed.

Lemma reaches_app {A} (p q r : prog A) e1 e2 :
  reaches p e1 q -> reaches q e2 r -> reaches p (e1 ++ e2) r.
Proof. induction 1; intros; simpl; [done|]. apply reaches_call. auto. Qed.

(** *** Running a program

    [reply] answers the calls, given how many there were before. *)
Fixpoint drive {A} (reply : nat -> forall e, R e) (n : nat) (p : prog A) {struct p} : list call * prog A :=
  match p with
  | Ret _ a => ([], Ret A a)
  | Do _ e k =>
      let '(evs, p') := drive reply (S n) (k (reply n e)) in (existT e (reply n e) :: evs, p')
  end.

Lemma drive_reaches {A} reply n (p : prog A) : reaches p (drive reply n p).1 (drive reply n p).2.
Proof.
  revert n. induction p as [a|e k IH]; intros n; simpl; [apply reaches_here|].
  specialize (IH (reply n e) (S n)). destruct (drive _ _ _) as [evs p']. by apply reaches_call.
Qed.

Lemma drive_forall {A} (rely : call -> Prop) reply n (p : prog A) :
  (forall n e, rely (existT e (reply n e))) -> Forall rely (drive reply n p).1.
Proof.
  intros Hr. revert n. induction p as [a|e k IH]; intros n; simpl; [done|].
  specialize (IH (reply n e) (S n)). destruct (drive _ _ _) as [evs p']. by constructor.
Qed.

(** *** Runs that end *)

(** Every run makes at most [n] calls. *)
Fixpoint within {A} (n : nat) (p : prog A) {struct p} : Prop :=
  match p with
  | Ret _ _ => True
  | Do _ e k => match n with O => False | S n => forall r, within n (k r) end
  end.

Lemma within_mono {A} (p : prog A) n m : within n p -> (n <= m)%nat -> within m p.
Proof.
  revert n m. induction p as [a|e k IH]; intros n m; [done|]. intros Hn Hle.
  destruct n as [|n]; [done|]. destruct m as [|m]; [lia|]. intros r. apply (IH r n); [apply Hn|lia].
Qed.

Lemma within_bind {A B} (f : A -> prog B) (p : prog A) n m :
  within n p -> (forall a, within m (f a)) -> within (n + m) (prog_bind f p).
Proof.
  revert n. induction p as [a|e k IH]; intros n; simpl.
  - intros _ Hf. apply (within_mono _ m); [apply Hf|lia].
  - destruct n as [|n]; [done|]. intros Hk Hf r. by apply IH.
Qed.

Lemma within_reaches {A} (p p' : prog A) evs n :
  within n p -> reaches p evs p' -> (length evs <= n)%nat.
Proof.
  intros Hn Hr. revert n Hn. induction Hr as [p|e k r evs p' Hr IH]; intros n Hn; simpl; [lia|].
  destruct n as [|n]; [done|]. specialize (IH n (Hn r)). lia.
Qed.

(** Where every call has an answer, every run can be completed. *)
Lemma reaches_end {A} (p : prog A) : (forall e, inhabited (R e)) -> exists evs a, reaches p evs (Ret A a).
Proof.
  intros HR. induction p as [a|e k IH]; [exists [], a; apply reaches_here|].
  destruct (HR e) as [r]. destruct (IH r) as (evs & a & Hr). exists (existT e r :: evs), a.
  by apply reaches_call.
Qed.

(** ** Protocols that rely on the answers

    [rwp rely pre upd p Q s]: as [wp], for the runs whose every call and answer
    satisfy [rely]. *)
Section rwp.
Context {S : Type} (rely : call -> Prop) (pre : E -> S -> Prop) (upd : call -> S -> S).

Fixpoint rwp {A} (p : prog A) (Q : A -> S -> Prop) (s : S) : Prop :=
  match p with
  | Ret _ a => Q a s
  | Do _ e k => pre e s /\ forall r, rely (existT e r) -> rwp (k r) Q (upd (existT e r) s)
  end.

Lemma rwp_mono {A} (p : prog A) (Q Q' : A -> S -> Prop) s :
  rwp p Q s -> (forall a s', Q a s' -> Q' a s') -> rwp p Q' s.
Proof.
  intros Hw HQ. revert s Hw. induction p as [a|e k IH]; intros s; simpl; [by apply HQ|].
  intros [Hp Hk]. split; [done|]. intros r Hr. by apply IH, Hk.
Qed.

Lemma rwp_bind {A B} (f : A -> prog B) (p : prog A) Q s :
  rwp p (fun a s' => rwp (f a) Q s') s -> rwp (prog_bind f p) Q s.
Proof.
  revert s. induction p as [a|e k IH]; intros s; simpl; [done|].
  intros [Hp Hk]. split; [done|]. intros r Hr. by apply IH, Hk.
Qed.

Lemma rwp_reaches {A} (p p' : prog A) Q s evs :
  reaches p evs p' -> Forall rely evs -> rwp p Q s ->
  rwp p' Q (foldl (fun s c => upd c s) s evs).
Proof.
  intros Hr. revert s. induction Hr as [|e k r evs p' Hr IH]; intros s Hf Hw; [done|].
  apply Forall_cons in Hf as [Hr1 Hf]. simpl in *. destruct Hw as [_ Hk]. by apply IH, Hk.
Qed.
End rwp.

(** Relying on more. *)
Lemma rwp_rely {S A} (rely rely' : call -> Prop) (pre : E -> S -> Prop) (upd : call -> S -> S) (p : prog A) Q s :
  (forall c, rely c -> rely' c) -> rwp rely' pre upd p Q s -> rwp rely pre upd p Q s.
Proof.
  intros Hr. revert s. induction p as [a|e k IH]; intros s; simpl; [done|].
  intros [Hp Hk]. split; [done|]. intros r Hr1. by apply IH, Hk, Hr.
Qed.

(** A program whose calls leave what is tracked alone. *)
Lemma rwp_frame {S A} (C : E -> Prop) (rely : call -> Prop) (pre : E -> S -> Prop) (upd : call -> S -> S)
    (p : prog A) (QA : A -> Prop) s :
  rwp (fun _ => True) (fun e (_ : unit) => C e) (fun _ _ => tt) p (fun a _ => QA a) tt ->
  (forall e, C e -> pre e s /\ forall r, upd (existT e r) s = s) ->
  rwp rely pre upd p (fun a s' => s' = s /\ QA a) s.
Proof.
  intros Hp HC. induction p as [a|e k IH]; simpl in *; [done|]. destruct Hp as [He Hk].
  destruct (HC e He) as [Hpre Hupd]. split; [done|]. intros r _. rewrite Hupd. by apply IH, Hk.
Qed.

(** A budget of calls bounds the runs. *)
Lemma rwp_within {A} (p : prog A) (Q : A -> nat -> Prop) n :
  rwp (fun _ => True) (fun _ n => n <> O) (fun _ n => pred n) p Q n -> within n p.
Proof.
  revert n. induction p as [a|e k IH]; intros n; simpl; [done|]. intros [Hn Hk].
  destruct n as [|n]; [done|]. intros r. by apply IH, Hk.
Qed.

(** ** Pools

    One step of a pool: some program makes its next call, which [exec]
    answers while it changes the shared world. *)

Section pool.
Context {W A : Type} (exec : forall e, W -> R e -> W -> Prop).

Inductive pool_step : W * list (prog A) -> W * list (prog A) -> Prop :=
| pool_call w pool i e k r w' :
    pool !! i = Some (Do A e k) -> exec e w r w' ->
    pool_step (w, pool) (w', <[i := k r]> pool).

Context {S : Type} (pre : E -> S -> Prop) (upd : call -> S -> S).

(** Every program of the pool follows the protocol from its tracked state. *)
Definition follows (pool : list (prog A)) (ss : list S) : Prop :=
  Forall2 (fun p s => wp pre upd p (fun _ _ => True) s) pool ss.

Lemma pool_invariant (J : W -> list S -> Prop) :
  (forall w ss i s e r w', J w ss -> ss !! i = Some s -> pre e s -> exec e w r w' ->
     J w' (<[i := upd (existT e r) s]> ss)) ->
  forall w pool w' pool' ss,
  pool_step (w, pool) (w', pool') -> follows pool ss -> J w ss ->
  exists ss', follows pool' ss' /\ J w' ss'.
Proof.
  intros HJ w pool w' pool' ss Hs Hf Hw. inversion Hs as [w0 p0 i e k r w1 Hi He]; subst.
  destruct (Forall2_lookup_l _ _ _ _ _ Hf Hi) as (s & Hsi & [Hpre Hk]).
  exists (<[i := upd (existT e r) s]> ss). split; [|by eapply HJ].
  apply Forall2_insert; [done|apply Hk].
Qed.
End pool.
End prog.

Arguments prog {E} R A.
Arguments Ret {E R A} a.
Arguments Do {E R A} e k.
Arguments call {E} R.

(** Fallible asynchronous code; [mbind] is the [?] operator. *)
Definition eprog {E} (R : E -> Type) (X A : Type) : Type := prog R (result X A).

#[export] Instance eprog_ret {E} {R : E -> Type} {X} : MRet (eprog R X) := fun A a => Ret (Ok a).
#[export] Instance eprog_bind {E} {R : E -> Type} {X} : MBind (eprog R X) :=
  fun A B f p => prog_bind (fun r => match r with Ok a => f a | Err e => Ret (Err e) end) p.

Lemma wp_ebind {E} {R : E -> Type} {S X A B} (pre : E -> S -> Prop) (upd : call R -> S -> S)
    (f : A -> eprog R X B) (p : eprog R X A) (Q : result X B -> S -> Prop) s :
  wp pre upd p (fun r s' => match r with Ok a => wp pre upd (f a) Q s' | Err e => Q (Err e) s' end) s ->
  wp pre upd (p ≫= f) Q s.
Proof. intros Hw. apply wp_bind. eapply wp_mono; [exact Hw|]. by intros [a|e] s'. Qed.

Lemma within_ebind {E} {R : E -> Type} {X A B} (f : A -> eprog R X B) (p : eprog R X A) n m :
  within n p -> (forall a, within m (f a)) -> within (n + m) (p ≫= f).
Proof. intros Hp Hf. apply within_bind; [done|]. intros [a|e]; [apply Hf|done]. Qed.
