(* ===== verification/StoreError.v ===== *)
(** * The error type of the vault store

    [StoreError] of crates/pangolin-store/src/error.rs, variant for variant,
    with the structured payloads a caller can branch on.  Free-text messages
    and wrapped foreign errors are dropped, except that the messages of
    [Corrupted] the modelled operations use become [CorruptedKind]. *)

From S2P Require Import Prelude.

(** A 32-byte account or revision identifier: the 256-bit integer of its
    big-endian bytes ([lex_compare_be_value] relates the two orders). *)
Notation AccountId := Z (only parsing).
Notation RevisionId := Z (only parsing).

Inductive CorruptedKind : Type :=
| DuplicateRevision
| LineageCycle
| UnreachableComponent
| NoRevisions
| BackwardCheckpoint
| IntegerOverflow
| MissingRow
| WalletDerivation
| UnrecognizedRevisionLogVersion
| WrongLength
| EvmAddressMismatch
| ZeroGuardianSigner
| GuardianCounts.

Inductive StoreError : Type :=
| Io
| Sqlite
| BadMagic
| UnsupportedFormatVersion (found supported : Z)
| Cbor
| AuthenticationFailed
| NotUnlocked
| Closed
| AlreadyOpen
| AccountNotFound
| AccountTombstoned
| RevisionNotFound
| NotAHead (account_id : AccountId) (chosen : RevisionId) (current_heads : list RevisionId)
| UnsupportedRevisionSchemaVersion
    (account_id : AccountId) (revision_id : RevisionId) (found supported : Z)
| Corrupted (kind : CorruptedKind)
| Internal
| SessionExpired
| SessionPending
| PresenceProofRequired
| PromptTimedOut
| Validation (kind : string)
| AccountFrozenPendingResolve (account_id : AccountId)
| CaptureAuthorityExclusivity
| CaptureAuthorityValidation
| ChainSignError
| ChainSyncError
| RecoveryBackup.

#[export] Instance CorruptedKind_eq_dec : EqDecision CorruptedKind.
Proof. solve_decision. Defined.
#[export] Instance StoreError_eq_dec : EqDecision StoreError.
Proof. solve_decision. Defined.

(** [Result<T, StoreError>]. *)
Notation store_result := (result StoreError).

Definition with_revision_context (e : StoreError) (account_id : AccountId)
    (revision_id : RevisionId) : StoreError :=
  match e with
  | UnsupportedRevisionSchemaVersion _ _ found supported =>
      UnsupportedRevisionSchemaVersion account_id revision_id found supported
  | other => other
  end.
