(* ===== verification/Account.v ===== *)
(** * Account identities

    crates/pangolin-store/src/account.rs: the two shapes of a decrypted account,
    the validation of what a user enters, and the patch of an edit.  Secrets and
    strings are lists of bytes.  Unicode normalisation, lower-casing and the parser
    of URLs are parameters. *)

From Stdlib Require Import String.
From S2P Require Import Prelude StoreError Bytes Text Totp.
Open Scope Z_scope.

Notation DeviceId := Z (only parsing).

(** ** Limits *)

Definition DISPLAY_NAME_MAX_CHARS : Z := 256.
Definition TAGS_MAX_COUNT : nat := 32.
Definition TAG_MAX_CHARS : Z := 64.
Definition USERNAMES_MAX_COUNT : nat := 16.
Definition USERNAME_MAX_CHARS : Z := 320.
Definition URLS_MAX_COUNT : nat := 32.
Definition URL_MAX_CHARS : Z := 2048.
Definition NOTES_MAX_CHARS : Z := 65536.
Definition PASSWORD_MAX_BYTES : nat := 4096.
Definition TOTP_SECRET_MAX_BYTES : nat := 256.

Definition PAYLOAD_VERSION_V1 : Z := 1.
Definition PAYLOAD_VERSION_V2 : Z := 2.

(** ** Data *)

Record AccountSnapshot : Type := mkSnapshot {
  snap_display_name : list Z;
  snap_username : list Z;
  snap_password : list Z;
  snap_url : list Z;
  snap_notes : list Z;
  snap_totp_secret : list Z
}.

Record PasswordEntry : Type := mkPasswordEntry {
  password : list Z;
  set_at_ms : Z;
  originating_device : DeviceId
}.

Record AccountIdentity : Type := mkIdentity {
  display_name : list Z;
  tags : list (list Z);
  notes : list Z;
  urls : list (list Z);
  usernames : list (list Z);
  password_history : list PasswordEntry;
  totp_secret : list Z;
  totp_params : TotpParams
}.

Definition current_password (i : AccountIdentity) : option (list Z) := password <$> head (password_history i).
Definition has_totp (i : AccountIdentity) : bool := negb (length (totp_secret i) =? 0)%nat.

Record AccountIdentityDraft : Type := mkDraft {
  draft_display_name : list Z;
  draft_tags : list (list Z);
  draft_usernames : list (list Z);
  draft_urls : list (list Z);
  draft_notes : list Z;
  draft_password : list Z;
  draft_totp_secret : list Z;
  draft_totp_params : TotpParams
}.

(** [None] leaves a field as it is; the TOTP secret is cleared by [Some None]. *)
Record AccountIdentityPatch : Type := mkPatch {
  patch_display_name : option (list Z);
  patch_tags : option (list (list Z));
  patch_usernames : option (list (list Z));
  patch_urls : option (list (list Z));
  patch_notes : option (list Z);
  patch_password : option (list Z);
  patch_totp_secret : option (option (list Z));
  patch_totp_params : option TotpParams
}.

(** ** Validation *)

Definition invalid {A} (kind : string) : store_result A := Err (Validation kind).

Definition has_disallowed_control (s : list Z) : bool := any_control (fun b => b =? 9) s.

Section validate.
Context (nfc to_lowercase : list Z -> list Z) (url_parse : list Z -> option (list Z)).

Definition validate_display_name (input : list Z) : store_result (list Z) :=
  let trimmed := trim (nfc input) in
  if (length trimmed =? 0)%nat then invalid "display_name"
  else if DISPLAY_NAME_MAX_CHARS <? char_count trimmed then invalid "display_name"
  else if has_disallowed_control trimmed then invalid "display_name"
  else Ok trimmed.

Definition validate_tag (out : list (list Z)) (raw : list Z) : store_result (list (list Z)) :=
  let trimmed := trim (nfc raw) in
  if (length trimmed =? 0)%nat then invalid "tags"
  else if TAG_MAX_CHARS <? char_count trimmed then invalid "tags"
  else if has_disallowed_control trimmed then invalid "tags"
  else
    let lower := to_lowercase trimmed in
    Ok (if bool_decide (lower ∈ out) then out else out ++ [lower]).

Definition validate_tags (input : list (list Z)) : store_result (list (list Z)) :=
  if (TAGS_MAX_COUNT <? length input)%nat then invalid "tags"
  else foldl (fun r raw => out ← r; validate_tag out raw) (Ok []) input.

Definition validate_username (raw : list Z) : store_result (list Z) :=
  let trimmed := trim raw in
  if (length trimmed =? 0)%nat then invalid "usernames"
  else
    let normalised := nfc trimmed in
    if USERNAME_MAX_CHARS <? char_count normalised then invalid "usernames"
    else if has_disallowed_control normalised then invalid "usernames"
    else Ok normalised.

Definition validate_usernames (input : list (list Z)) : store_result (list (list Z)) :=
  if (length input =? 0)%nat then invalid "usernames"
  else if (USERNAMES_MAX_COUNT <? length input)%nat then invalid "usernames"
  else mapM validate_username input.

Definition validate_url (raw : list Z) : store_result (list Z) :=
  if URL_MAX_CHARS <? char_count raw then invalid "url"
  else ok_or (url_parse raw) (Validation "url").

Definition validate_urls (input : list (list Z)) : store_result (list (list Z)) :=
  if (URLS_MAX_COUNT <? length input)%nat then invalid "url" else mapM validate_url input.

Definition validate_notes (input : list Z) : store_result (list Z) :=
  if NOTES_MAX_CHARS <? char_count input then invalid "notes" else Ok input.

Definition validate_password (input : list Z) : store_result unit :=
  if (length input =? 0)%nat then invalid "password"
  else if (PASSWORD_MAX_BYTES <? length input)%nat then invalid "password"
  else Ok tt.

Definition validate_totp_secret (input : list Z) : store_result unit :=
  if (TOTP_SECRET_MAX_BYTES <? length input)%nat then invalid "totp_secret" else Ok tt.

Definition validate_totp_params (params : TotpParams) : store_result unit :=
  map_err (fun _ => Validation "totp_params") (Totp.validate params).

(** ** A new account *)

Definition validate_into_identity (d : AccountIdentityDraft) (created_at_ms : Z) (device : DeviceId) :
    store_result AccountIdentity :=
  display_name ← validate_display_name (draft_display_name d);
  tags ← validate_tags (draft_tags d);
  usernames ← validate_usernames (draft_usernames d);
  urls ← validate_urls (draft_urls d);
  notes ← validate_notes (draft_notes d);
  validate_password (draft_password d) ≫= fun _ =>
  validate_totp_secret (draft_totp_secret d) ≫= fun _ =>
  let no_totp := (length (draft_totp_secret d) =? 0)%nat in
  (if no_totp then Ok tt else validate_totp_params (draft_totp_params d)) ≫= fun _ =>
  let genesis := mkPasswordEntry (draft_password d) created_at_ms device in
  let totp_params := if no_totp then default_params else draft_totp_params d in
  Ok (mkIdentity display_name tags notes urls usernames [genesis] (draft_totp_secret d) totp_params).

(** ** An edit *)

(** [match field { Some(x) => Some(validate(x)?), None => None }] *)
Definition validate_opt {A B} (check : A -> store_result B) (field : option A) : store_result (option B) :=
  match field with Some a => b ← check a; Ok (Some b) | None => Ok None end.

Definition patch_totp (p : AccountIdentityPatch) (current : AccountIdentity) : list Z * TotpParams :=
  match patch_totp_secret p with
  | Some (Some bytes) => (bytes, default default_params (patch_totp_params p))
  | Some None => ([], default_params)
  | None => (totp_secret current, default (totp_params current) (patch_totp_params p))
  end.

Definition apply (p : AccountIdentityPatch) (current : AccountIdentity) (applied_at_ms : Z) (device : DeviceId) :
    store_result AccountIdentity :=
  new_display_name ← validate_opt validate_display_name (patch_display_name p);
  new_tags ← validate_opt validate_tags (patch_tags p);
  new_usernames ← validate_opt validate_usernames (patch_usernames p);
  new_urls ← validate_opt validate_urls (patch_urls p);
  new_notes ← validate_opt validate_notes (patch_notes p);
  validate_opt validate_password (patch_password p) ≫= fun _ =>
  (match patch_totp_secret p with Some (Some secret) => validate_totp_secret secret | _ => Ok tt end) ≫= fun _ =>
  validate_opt validate_totp_params (patch_totp_params p) ≫= fun _ =>
  let password_history :=
    match patch_password p with
    | Some new_pw => mkPasswordEntry new_pw applied_at_ms device :: password_history current
    | None => password_history current
    end in
  let '(totp_secret, totp_params) := patch_totp p current in
  Ok (mkIdentity (default (display_name current) new_display_name) (default (tags current) new_tags)
        (default (notes current) new_notes) (default (urls current) new_urls)
        (default (usernames current) new_usernames) password_history totp_secret totp_params).
End validate.

(** ** What is stored *)

Record within_limits (i : AccountIdentity) : Prop := mkWithinLimits {
  limits_display_name : display_name i <> [] /\ char_count (display_name i) <= DISPLAY_NAME_MAX_CHARS
    /\ has_disallowed_control (display_name i) = false;
  limits_tags : (length (tags i) <= TAGS_MAX_COUNT)%nat /\ NoDup (tags i);
  limits_usernames : (0 < length (usernames i) <= USERNAMES_MAX_COUNT)%nat
    /\ Forall (fun u => char_count u <= USERNAME_MAX_CHARS /\ has_disallowed_control u = false) (usernames i);
  limits_urls : (length (urls i) <= URLS_MAX_COUNT)%nat;
  limits_notes : char_count (notes i) <= NOTES_MAX_CHARS;
  limits_history : password_history i <> []
    /\ Forall (fun e => (0 < length (password e) <= PASSWORD_MAX_BYTES)%nat) (password_history i);
  limits_totp : (length (totp_secret i) <= TOTP_SECRET_MAX_BYTES)%nat /\ Totp.validate (totp_params i) = Ok tt
}.

(** One step of [a ← check; k = Ok i]. *)
Ltac ok_inv H :=
  repeat match type of H with
  | mbind _ ?r = Ok _ => let E := fresh "E" in destruct r eqn:E; cbn [mbind result_bind] in H; [|discriminate H]
  end.

Section facts.
Context (nfc to_lowercase : list Z -> list Z) (url_parse : list Z -> option (list Z)).

Lemma validate_display_name_spec s d :
  validate_display_name nfc s = Ok d ->
  d = trim (nfc s) /\ d <> [] /\ char_count d <= DISPLAY_NAME_MAX_CHARS /\ has_disallowed_control d = false.
Proof.
  unfold validate_display_name, invalid. intros H. destruct (Nat.eqb_spec (length (trim (nfc s))) 0) as [|Hne]; [done|].
  destruct (Z.ltb_spec DISPLAY_NAME_MAX_CHARS (char_count (trim (nfc s)))); [done|].
  destruct (has_disallowed_control _) eqn:E; [done|]. injection H as <-. split_and!; [done| |done|done].
  intros He. by rewrite He in Hne.
Qed.

Lemma validate_tags_spec l t :
  validate_tags nfc to_lowercase l = Ok t -> (length t <= TAGS_MAX_COUNT)%nat /\ NoDup t.
Proof.
  unfold validate_tags, invalid. destruct (Nat.ltb_spec TAGS_MAX_COUNT (length l)) as [|Hl]; [done|].
  assert (G : forall l r t, foldl (fun r raw => out ← r; validate_tag nfc to_lowercase out raw) r l = Ok t ->
    exists out, r = Ok out /\ (length t <= length out + length l)%nat /\ (NoDup out -> NoDup t)).
  { clear. induction l as [|raw l IH]; intros r t H; simpl in H; [exists t; split_and!; [done|simpl; lia|done]|].
    apply IH in H as (out1 & H & Hlen & Hnd). destruct r as [out|]; [|done]. exists out. split; [done|].
    cbn [mbind result_bind] in H. unfold validate_tag, invalid in H.
    repeat match type of H with (if ?b then _ else _) = _ => destruct b; [done|] end. injection H as <-.
    case_bool_decide; [split; [simpl; lia|done]|]. rewrite length_app in Hlen. simpl in *. split; [lia|].
    intros Ho. apply Hnd, NoDup_app. split_and!; [done| |apply NoDup_singleton].
    intros x Hx ->%list_elem_of_singleton. done. }
  intros H. apply G in H as (out & [= <-] & Hlen & Hnd). simpl in Hlen. split; [lia|]. apply Hnd. constructor.
Qed.

Lemma validate_usernames_spec l u :
  validate_usernames nfc l = Ok u ->
  (0 < length u <= USERNAMES_MAX_COUNT)%nat
  /\ Forall (fun u => char_count u <= USERNAME_MAX_CHARS /\ has_disallowed_control u = false) u.
Proof.
  unfold validate_usernames, invalid. destruct (Nat.eqb_spec (length l) 0) as [|Hne]; [done|].
  destruct (Nat.ltb_spec USERNAMES_MAX_COUNT (length l)) as [|Hl]; [done|]. intros H.
  apply mapM_Ok in H. split; [apply Forall2_length in H; lia|].
  clear Hne Hl. induction H as [|raw u l us Hraw _ IH]; constructor; [|done].
  unfold validate_username, invalid in Hraw. destruct (_ =? _)%nat; [done|].
  destruct (Z.ltb_spec USERNAME_MAX_CHARS (char_count (nfc (trim raw)))); [done|].
  destruct (has_disallowed_control _) eqn:E; [done|]. by injection Hraw as <-.
Qed.

Lemma validate_urls_spec l u : validate_urls url_parse l = Ok u -> (length u <= URLS_MAX_COUNT)%nat.
Proof.
  unfold validate_urls, invalid. destruct (Nat.ltb_spec URLS_MAX_COUNT (length l)) as [|Hl]; [done|]. intros H.
  apply mapM_Ok, Forall2_length in H. lia.
Qed.

Lemma validate_notes_spec s n : validate_notes s = Ok n -> n = s /\ char_count n <= NOTES_MAX_CHARS.
Proof.
  unfold validate_notes, invalid. destruct (Z.ltb_spec NOTES_MAX_CHARS (char_count s)); [done|]. by intros [= <-].
Qed.

Lemma validate_password_spec s : validate_password s = Ok tt -> (0 < length s <= PASSWORD_MAX_BYTES)%nat.
Proof.
  unfold validate_password, invalid. destruct (Nat.eqb_spec (length s) 0); [done|].
  destruct (Nat.ltb_spec PASSWORD_MAX_BYTES (length s)); [done|]. lia.
Qed.

Lemma validate_totp_secret_spec s : validate_totp_secret s = Ok tt -> (length s <= TOTP_SECRET_MAX_BYTES)%nat.
Proof.
  unfold validate_totp_secret, invalid. destruct (Nat.ltb_spec TOTP_SECRET_MAX_BYTES (length s)); [done|]. lia.
Qed.

Lemma validate_totp_params_spec p : validate_totp_params p = Ok tt -> Totp.validate p = Ok tt.
Proof. unfold validate_totp_params. by destruct (Totp.validate p) as [[]|]. Qed.

Lemma validate_opt_spec {A B} (check : A -> store_result B) field r :
  validate_opt check field = Ok r ->
  match r with Some b => exists a, field = Some a /\ check a = Ok b | None => field = None end.
Proof.
  unfold validate_opt. destruct field as [a|]; [|by intros [= <-]]. intros H.
  destruct (check a) as [b|] eqn:E; [|done]. injection H as <-. by exists a.
Qed.

(** What an accepted edit makes of the fields that are not validated as text. *)
Lemma apply_inv p i t dev i' :
  apply nfc to_lowercase url_parse p i t dev = Ok i' ->
  (totp_secret i', totp_params i') = patch_totp p i
  /\ password_history i'
     = (match patch_password p with Some pw => [mkPasswordEntry pw t dev] | None => [] end) ++ password_history i.
Proof.
  unfold apply. intros H. ok_inv H. destruct (patch_totp p i) as [secret params]. injection H as <-.
  split; [done|]. by destruct (patch_password p).
Qed.

Lemma validate_into_identity_inv d t dev i :
  validate_into_identity nfc to_lowercase url_parse d t dev = Ok i ->
  password_history i = [mkPasswordEntry (draft_password d) t dev]
  /\ (totp_params i = default_params \/ totp_params i = draft_totp_params d).
Proof.
  unfold validate_into_identity. intros H. ok_inv H. injection H as <-. split; [done|]. simpl.
  destruct (_ =? 0)%nat; [by left|by right].
Qed.

Lemma identity_limits_new d t dev i :
  validate_into_identity nfc to_lowercase url_parse d t dev = Ok i ->
  within_limits i /\ current_password i = Some (draft_password d).
Proof.
  intros H. unfold validate_into_identity in H. ok_inv H. injection H as <-.
  apply validate_display_name_spec in E as (_ & Hd). apply validate_tags_spec in E0.
  apply validate_usernames_spec in E1. apply validate_urls_spec in E2. apply validate_notes_spec in E3 as [_ Hn].
  destruct a4, a5. apply validate_password_spec in E4. apply validate_totp_secret_spec in E5.
  split; [|done]. split; cbn [display_name tags usernames urls notes password_history totp_secret totp_params]; try done.
  + split; [done|]. constructor; [done|constructor].
  + split; [done|]. destruct (_ =? 0)%nat; [done|]. destruct a6. by apply validate_totp_params_spec.
Qed.

Lemma identity_limits_edit p i t dev i' :
  within_limits i -> apply nfc to_lowercase url_parse p i t dev = Ok i' -> within_limits i'.
Proof.
  intros [Ld Lt Lu Ll Ln Lh Lp] H. unfold apply in H. ok_inv H.
  destruct (patch_totp p i) as [secret params] eqn:Et. injection H as <-.
  apply validate_opt_spec in E. apply validate_opt_spec in E0. apply validate_opt_spec in E1.
  apply validate_opt_spec in E2. apply validate_opt_spec in E3. apply validate_opt_spec in E4. apply validate_opt_spec in E6.
  destruct a5.
  split; cbn [display_name tags usernames urls notes password_history totp_secret totp_params].
  + destruct a as [d|]; [|done]. destruct E as (s & _ & E). by apply validate_display_name_spec in E as (_ & E).
  + destruct a0 as [d|]; [|done]. destruct E0 as (s & _ & E0). by apply validate_tags_spec in E0.
  + destruct a1 as [d|]; [|done]. destruct E1 as (s & _ & E1). by apply validate_usernames_spec in E1.
  + destruct a2 as [d|]; [|done]. destruct E2 as (s & _ & E2). by apply validate_urls_spec in E2.
  + destruct a3 as [d|]; [|done]. destruct E3 as (s & _ & E3). by apply validate_notes_spec in E3 as [_ E3].
  + destruct (patch_password p) as [pw|]; [|done]. destruct a4 as [[]|]; [|done]. destruct E4 as (s & [= <-] & E4).
    apply validate_password_spec in E4. destruct Lh. split; [done|by constructor].
  + assert (Hp : forall q, patch_totp_params p = Some q -> Totp.validate q = Ok tt).
    { intros q Hq. destruct a6 as [[]|]; [|congruence]. destruct E6 as (s & Hs & E6). rewrite Hq in Hs.
      injection Hs as <-. by apply validate_totp_params_spec. }
    unfold patch_totp in Et. destruct (patch_totp_secret p) as [[bytes|]|]; injection Et as <- <-.
    * apply validate_totp_secret_spec in E5. split; [done|].
      destruct (patch_totp_params p) as [q|]; [by apply Hp|done].
    * split; [simpl; lia|done].
    * split; [apply Lp|]. destruct (patch_totp_params p) as [q|]; [by apply Hp|apply Lp].
Qed.

(** What is stored keeps the limits.  An account made from any draft that
    validates is within the limits: a non-empty display name, no tag twice, at
    least one user name, a current password; and an edit that is accepted keeps
    an account within them, puts a new password in front of the old ones and
    otherwise leaves the history as it was. *)
Theorem identity_within_limits :
  (forall d t dev i, validate_into_identity nfc to_lowercase url_parse d t dev = Ok i ->
     within_limits i /\ current_password i = Some (draft_password d))
  /\ (forall p i t dev i', within_limits i -> apply nfc to_lowercase url_parse p i t dev = Ok i' ->
     within_limits i' /\ password_history i'
       = (match patch_password p with Some pw => [mkPasswordEntry pw t dev] | None => [] end) ++ password_history i).
Proof.
  split; [by apply identity_limits_new|]. intros p i t dev i' Hi H. split; [by eapply identity_limits_edit|].
  by apply apply_inv in H as [_ H].
Qed.
End facts.

(** The character limit of a tag does not survive lower-casing: U+0130 becomes two
    characters. *)
Definition lower_dotted (s : list Z) : list Z := mjoin ((fun b => if b =? 0xB0 then [0x69; 0xCC; 0x87] else []) <$> s).

Lemma tag_limit_not_kept :
  exists out, validate_tags id lower_dotted [mjoin (replicate 64 [0xC4; 0xB0])] = Ok out
  /\ char_count <$> out = [128].
Proof. eexists. split; vm_compute; reflexivity. Qed.

Definition sample_draft : AccountIdentityDraft :=
  mkDraft (bytes_of " Git hub ") [bytes_of "work"; bytes_of " WORK"] [bytes_of "ann"] [bytes_of "https://x"]
    (bytes_of "note") (bytes_of "pw") [] default_params.

Definition sample_identity : AccountIdentity :=
  mkIdentity (bytes_of "Git hub") [bytes_of "work"] (bytes_of "note") [bytes_of "https://x"] [bytes_of "ann"]
    [mkPasswordEntry (bytes_of "pw") 1700000000000 7] [] default_params.

Lemma sample_identity_validates :
  validate_into_identity id to_ascii_lowercase Some sample_draft 1700000000000 7 = Ok sample_identity.
Proof. vm_compute. reflexivity. Qed.

Definition sample_patch : AccountIdentityPatch :=
  mkPatch None None None None None (Some (bytes_of "new")) (Some (Some [1; 2; 3])) (Some (mkTotpParams Sha256 8 60)).

Lemma identity_within_limits_witness :
  within_limits sample_identity
  /\ exists i, apply id to_ascii_lowercase Some sample_patch sample_identity 1700000001000 9 = Ok i
    /\ within_limits i /\ password_history i
       = [mkPasswordEntry (bytes_of "new") 1700000001000 9; mkPasswordEntry (bytes_of "pw") 1700000000000 7].
Proof.
  assert (H : within_limits sample_identity)
    by (apply (proj1 (identity_within_limits id to_ascii_lowercase Some) _ _ _ _ sample_identity_validates)).
  split; [exact H|]. eexists. split; [vm_compute; reflexivity|].
  apply (proj2 (identity_within_limits id to_ascii_lowercase Some) sample_patch _ 1700000001000 9 _ H).
  vm_compute. reflexivity.
Defined.
