(* ===== verification/Search.v ===== *)
(** * Full-text search

    crates/pangolin-store/src/search.rs: the searchable projection of an account,
    the query that is asked of SQLite, the in-memory index as its two tables and the
    map from accounts to row numbers, and the scan of the decrypted cache.

    [SearchIndexOps] is what the account operations see of the index.  Lower-casing
    and the host of a URL are parameters.  Of SQLite, the answer of the full-text engine
    (the rows that match, their rank, or an error) is a parameter and so is whether a
    statement of LIKE conditions is within its limits; LIKE itself is defined. *)

From Stdlib Require Import String.
From S2P Require Import Prelude StoreError Bytes Text Totp Account.
Open Scope Z_scope.

Definition ACCOUNT_SEARCH_RESULT_CAP : nat := 200.

(** ** The interface *)

Class SearchIndexOps (Index Projection : Type) : Type := mkSearchIndexOps {
  index_insert : AccountId -> Z -> Projection -> op Index StoreError unit;
  index_update : AccountId -> Z -> Projection -> op Index StoreError unit;
  index_remove : AccountId -> op Index StoreError unit
}.

(** ** The projection *)

Record SearchProjection : Type := mkProjection {
  proj_display_name : list Z;
  tags_joined : list Z;
  hostnames_joined : list Z
}.

Section projection.
Context (to_lowercase : list Z -> list Z).
(** [Url::parse(s)], then [host_str]. *)
Context (url_host : list Z -> option (option (list Z))).

Definition bytes_to_lower_string (b : list Z) : list Z := to_lowercase (from_utf8_lossy b).

Definition push_word (out word : list Z) : list Z := (if (length out =? 0)%nat then [] else out ++ [32]) ++ word.

Definition join_lower (items : list (list Z)) : list Z :=
  foldl (fun out item => push_word out (bytes_to_lower_string item)) [] items.

Definition extract_hostnames (urls : list (list Z)) : list Z :=
  foldl (fun out raw =>
    let s := from_utf8_lossy raw in
    let token := to_lowercase match url_host s with Some (Some host) => host | _ => s end in
    if (length token =? 0)%nat then out else push_word out token) [] urls.

Definition from_identity (i : AccountIdentity) : SearchProjection :=
  mkProjection (bytes_to_lower_string (display_name i)) (join_lower (tags i)) (extract_hostnames (urls i)).

Definition from_snapshot (s : AccountSnapshot) : SearchProjection :=
  mkProjection (bytes_to_lower_string (snap_display_name s)) []
    (if (length (snap_url s) =? 0)%nat then [] else extract_hostnames [snap_url s]).

(** ** The query *)

Definition fts_quote (token : list Z) : list Z :=
  [34] ++ mjoin ((fun ch => if ch =? 34 then [34; 34] else [ch]) <$> token) ++ [34].

Inductive SanitisedQuery : Type :=
| EmptyQuery
| Fts (expr : list Z)
| Like (tokens : list (list Z)).

Definition query_tokens (raw : list Z) : list (list Z) :=
  filter (fun t => t <> []) (to_lowercase <$> split_whitespace raw).

Definition sanitise_query (raw : list Z) : SanitisedQuery :=
  let tokens := query_tokens raw in
  if (length tokens =? 0)%nat then EmptyQuery
  else if existsb (fun t => char_count t <? 3) tokens then Like tokens
  else Fts (join [32] (fts_quote <$> tokens)).

Definition like_escape (s : list Z) : list Z :=
  mjoin ((fun ch => if (ch =? 37) || (ch =? 95) || (ch =? 92) then [92; ch] else [ch]) <$> s).
End projection.

(** The text after its first character. *)
Fixpoint drop_cont (s : list Z) : list Z :=
  match s with b :: r => if cont b then drop_cont r else s | [] => [] end.

(** SQL's [text LIKE pat ESCAPE '\']: [%] is any text, [_] one character, and ASCII
    letters match in either case. *)
Fixpoint sql_like (pat text : list Z) : bool :=
  match pat with
  | [] => (length text =? 0)%nat
  | c :: pat =>
      if c =? 37 then
        (fix any (text : list Z) : bool :=
           sql_like pat text || match text with [] => false | _ :: r => any r end) text
      else if c =? 95 then match text with [] => false | _ :: r => sql_like pat (drop_cont r) end
      else if c =? 92 then
        match pat, text with
        | e :: pat, t :: r => (ascii_lower t =? ascii_lower e) && sql_like pat r
        | _, _ => false
        end
      else match text with [] => false | t :: r => (ascii_lower t =? ascii_lower c) && sql_like pat r end
  end.

(** SQLite compares the text before the first zero byte. *)
Fixpoint c_text (s : list Z) : list Z :=
  match s with b :: r => if b =? 0 then [] else b :: c_text r | [] => [] end.

(** ** The index

    The tables [accounts] and [account_fts] by row number, and the two fields beside
    the connection. *)

Record SearchIndex : Type := mkSearchIndex {
  accounts : gmap Z (AccountId * Z);
  account_fts : gmap Z SearchProjection;
  next_rowid : Z;
  rowid_by_account : gmap Z Z
}.

Definition new_empty : SearchIndex := mkSearchIndex ∅ ∅ 1 ∅.

Definition set_index_accounts (m : gmap Z (AccountId * Z)) (ix : SearchIndex) : SearchIndex :=
  mkSearchIndex m (account_fts ix) (next_rowid ix) (rowid_by_account ix).
Definition set_fts (m : gmap Z SearchProjection) (ix : SearchIndex) : SearchIndex :=
  mkSearchIndex (accounts ix) m (next_rowid ix) (rowid_by_account ix).
Definition set_rowids (m : gmap Z Z) (ix : SearchIndex) : SearchIndex :=
  mkSearchIndex (accounts ix) (account_fts ix) (next_rowid ix) m.

Notation index_op := (op SearchIndex StoreError).

(** [INSERT INTO accounts]: the row number and the account are unique. *)
Definition sql_insert_account (rowid : Z) (id : AccountId) (updated_at : Z) : index_op unit := fun ix =>
  if bool_decide (accounts ix !! rowid = None)
     && forallb (fun r => negb (r.1 =? id)) (map_to_list (accounts ix)).*2
  then (Ok tt, set_index_accounts (<[rowid := (id, updated_at)]> (accounts ix)) ix)
  else (Err Sqlite, ix).

Definition sql_insert_fts (rowid : Z) (p : SearchProjection) : index_op unit := fun ix =>
  match account_fts ix !! rowid with
  | None => (Ok tt, set_fts (<[rowid := p]> (account_fts ix)) ix)
  | Some _ => (Err Sqlite, ix)
  end.

Definition insert_entry (id : AccountId) (updated_at : Z) (p : SearchProjection) : index_op unit :=
  rowid ← gets next_rowid;
  modify (fun ix => mkSearchIndex (accounts ix) (account_fts ix) (next_rowid ix + 1) (rowid_by_account ix)) ≫= fun _ =>
  sql_insert_account rowid id updated_at ≫= fun _ =>
  sql_insert_fts rowid p ≫= fun _ =>
  modify (fun ix => set_rowids (<[id := rowid]> (rowid_by_account ix)) ix).

Definition update_entry (id : AccountId) (updated_at : Z) (p : SearchProjection) : index_op unit :=
  row ← gets (fun ix => rowid_by_account ix !! id);
  match row with
  | None => insert_entry id updated_at p
  | Some rowid =>
      modify (fun ix => set_fts (delete rowid (account_fts ix)) ix) ≫= fun _ =>
      sql_insert_fts rowid p ≫= fun _ =>
      modify (fun ix => set_index_accounts (alter (fun r => (r.1, updated_at)) rowid (accounts ix)) ix)
  end.

Definition remove_entry (id : AccountId) : index_op unit :=
  row ← gets (fun ix => rowid_by_account ix !! id);
  match row with
  | None => mret tt
  | Some rowid =>
      modify (fun ix => set_rowids (delete id (rowid_by_account ix)) ix) ≫= fun _ =>
      modify (fun ix => set_fts (delete rowid (account_fts ix)) ix) ≫= fun _ =>
      modify (fun ix => set_index_accounts (delete rowid (accounts ix)) ix)
  end.

#[export] Instance SearchIndex_ops : SearchIndexOps SearchIndex SearchProjection :=
  mkSearchIndexOps SearchIndex SearchProjection insert_entry update_entry remove_entry.

Section search.
Context (to_lowercase : list Z -> list Z).
(** [account_fts MATCH expr] over the table: the rows that match, each with the rank
    [bm25] gives it (the least is the best), or an error. *)
Context (run_fts : list Z -> gmap Z SearchProjection -> store_result (gmap Z Z)).
(** Whether the LIKE statement for these words is within the limits of SQLite (the
    length of a pattern, the depth of an expression, the number of parameters). *)
Context (like_accepted : list (list Z) -> gmap Z SearchProjection -> bool).

(** A row of a result: what it is ordered by, and the account. *)
Record Hit : Type := mkHit { hit_rank : Z; hit_updated_at : Z; hit_rowid : Z; hit_account : AccountId }.

(** [ORDER BY rank, updated_at DESC, rowid DESC]. *)
Definition hit_le (a b : Hit) : Prop :=
  hit_rank a < hit_rank b
  \/ hit_rank a = hit_rank b
     /\ (hit_updated_at b < hit_updated_at a
         \/ hit_updated_at a = hit_updated_at b /\ hit_rowid b <= hit_rowid a).

#[export] Instance hit_le_dec : RelDecision hit_le.
Proof. intros a b. unfold hit_le. apply _. Defined.

(** The rows of [accounts] among the ranked ones, as the statement orders and limits
    them. *)
Definition select (ranks : gmap Z Z) (ix : SearchIndex) : list (AccountId * Z) :=
  (fun h => (hit_account h, hit_updated_at h)) <$>
  take ACCOUNT_SEARCH_RESULT_CAP (merge_sort hit_le
    (omap (fun '(rowid, (id, updated_at)) => (fun r => mkHit r updated_at rowid id) <$> ranks !! rowid)
       (map_to_list (accounts ix)))).

Definition like_row (tokens : list (list Z)) (p : SearchProjection) : bool :=
  forallb (fun tok =>
    let pat := [37] ++ like_escape tok ++ [37] in
    let like text := sql_like (c_text pat) (c_text text) in
    like (proj_display_name p) || like (tags_joined p) || like (hostnames_joined p)) tokens.

Definition search (raw_query : list Z) (ix : SearchIndex) : store_result (list (AccountId * Z)) :=
  match sanitise_query to_lowercase raw_query with
  | EmptyQuery => Ok (select ((fun _ => 0) <$> accounts ix) ix)
  | Fts expr => ranks ← run_fts expr (account_fts ix); Ok (select ranks ix)
  | Like tokens =>
      if like_accepted tokens (account_fts ix)
      then Ok (select ((fun _ => 0) <$> filter (fun e => like_row tokens e.2 = true) (account_fts ix)) ix)
      else Err Sqlite
  end.
End search.

(** ** The scan of the decrypted cache *)

Definition notes_clipped (notes : list Z) : list Z := take 512 notes.

Definition cache_matches (haystack needle_lower : list Z) : bool :=
  contains needle_lower (from_utf8_lossy (to_ascii_lowercase haystack)).

(** [DecryptedCache::search], in some order of the map. *)
Definition cache_search (cache : gmap Z AccountSnapshot) (query : list Z) : list AccountId :=
  if (length query =? 0)%nat then (map_to_list cache).*1
  else
    let needle := to_ascii_lowercase query in
    (filter (fun e => cache_matches (snap_display_name e.2) needle || cache_matches (snap_username e.2) needle
                      || cache_matches (snap_url e.2) needle || cache_matches (notes_clipped (snap_notes e.2)) needle = true)
       (map_to_list cache)).*1.

(** ** The index is a map from accounts to entries *)

Definition entry (ix : SearchIndex) (id : AccountId) : option (Z * SearchProjection) :=
  rowid ← rowid_by_account ix !! id; r ← accounts ix !! rowid; p ← account_fts ix !! rowid; Some (r.2, p).

Record index_ok (ix : SearchIndex) : Prop := mkIndexOk {
  index_rowids : forall id rowid, rowid_by_account ix !! id = Some rowid <-> exists t, accounts ix !! rowid = Some (id, t);
  index_joined : forall rowid, is_Some (accounts ix !! rowid) <-> is_Some (account_fts ix !! rowid);
  index_next : forall rowid r, accounts ix !! rowid = Some r -> rowid < next_rowid ix
}.

Lemma new_empty_ok : index_ok new_empty /\ forall id, entry new_empty id = None.
Proof.
  split; [|done]. split; simpl.
  - intros id rowid. split; [done|]. intros [t H]. discriminate H.
  - intros rowid. split; intros [x H]; discriminate H.
  - intros rowid r H. discriminate H.
Qed.

Lemma entry_Some ix id t p :
  index_ok ix ->
  entry ix id = Some (t, p) <->
  exists rowid, accounts ix !! rowid = Some (id, t) /\ account_fts ix !! rowid = Some p.
Proof.
  intros [Hr Hj _]. unfold entry. split.
  - destruct (rowid_by_account ix !! id) as [rowid|] eqn:E; [|done]. cbn.
    pose proof (proj1 (Hr _ _) E) as [t' Ht]. rewrite Ht. cbn.
    destruct (account_fts ix !! rowid) as [p'|] eqn:Ep; [|done]. intros [= -> ->]. by exists rowid.
  - intros (rowid & Ha & Hp). rewrite (proj2 (Hr id rowid)) by eauto. cbn. by rewrite Ha, Hp.
Qed.

Lemma entry_row ix id rowid :
  index_ok ix -> rowid_by_account ix !! id = Some rowid ->
  exists t p, accounts ix !! rowid = Some (id, t) /\ account_fts ix !! rowid = Some p /\ entry ix id = Some (t, p).
Proof.
  intros Hok Hr. pose proof Hok as [Hrow Hj _]. destruct (proj1 (Hrow _ _) Hr) as [t Ht].
  destruct (proj1 (Hj rowid)) as [p Hp]; [by eexists|]. exists t, p. split_and!; [done..|].
  apply entry_Some; eauto.
Qed.

Lemma entry_None ix id : index_ok ix -> entry ix id = None <-> rowid_by_account ix !! id = None.
Proof.
  intros Hok. destruct (rowid_by_account ix !! id) as [rowid|] eqn:E.
  - destruct (entry_row ix id rowid Hok E) as (t & p & _ & _ & ->). done.
  - unfold entry. by rewrite E.
Qed.

Lemma account_unused ix id :
  index_ok ix ->
  forallb (fun r => negb (r.1 =? id)) (map_to_list (accounts ix)).*2 = true <-> rowid_by_account ix !! id = None.
Proof.
  intros [Hr _ _]. rewrite forallb_forall. split.
  - intros H. destruct (rowid_by_account ix !! id) as [rowid|] eqn:E; [|done].
    apply Hr in E as [t Ht]. specialize (H (id, t)). cbn in H. rewrite Z.eqb_refl in H. discriminate H.
    apply list_elem_of_In, list_elem_of_fmap. exists (rowid, (id, t)). by rewrite elem_of_map_to_list.
  - intros H [k t] Hin. apply list_elem_of_In, list_elem_of_fmap in Hin as ([rowid x] & Ex & Hin). cbn in Ex. subst x.
    apply elem_of_map_to_list in Hin. cbn. apply negb_true_iff, Z.eqb_neq. intros E.
    rewrite (proj2 (Hr id rowid)) in H; [done|]. rewrite <- E. by exists t.
Qed.

Lemma next_unused ix : index_ok ix -> accounts ix !! next_rowid ix = None /\ account_fts ix !! next_rowid ix = None.
Proof.
  intros [_ Hj Hn].
  assert (H : accounts ix !! next_rowid ix = None).
  { destruct (accounts ix !! next_rowid ix) as [r|] eqn:E; [|done]. apply Hn in E. lia. }
  split; [done|]. destruct (account_fts ix !! next_rowid ix) as [p|] eqn:E; [|done].
  destruct (proj2 (Hj (next_rowid ix))) as [r Hr]; [by eexists|congruence].
Qed.

(** What an operation makes of the entries. *)
Definition sets (ix ix' : SearchIndex) (id : AccountId) (e : option (Z * SearchProjection)) : Prop :=
  index_ok ix' /\ forall k, entry ix' k = if decide (k = id) then e else entry ix k.

Lemma sets_intro ix ix' id e :
  index_ok ix -> index_ok ix' ->
  (forall t p, e = Some (t, p) <->
     exists rowid, accounts ix' !! rowid = Some (id, t) /\ account_fts ix' !! rowid = Some p) ->
  (forall k t p, k <> id ->
     (exists rowid, accounts ix' !! rowid = Some (k, t) /\ account_fts ix' !! rowid = Some p)
     <-> exists rowid, accounts ix !! rowid = Some (k, t) /\ account_fts ix !! rowid = Some p) ->
  sets ix ix' id e.
Proof.
  intros Hok Hok' He Ho. split; [done|]. intros k. apply option_eq. intros [t p].
  rewrite (entry_Some ix' k t p Hok'). case_decide as Hk; [subst; by rewrite He|].
  by rewrite (entry_Some ix k t p Hok), Ho.
Qed.

Lemma insert_fresh ix id t p :
  index_ok ix -> entry ix id = None ->
  exists ix', insert_entry id t p ix = (Ok tt, ix') /\ sets ix ix' id (Some (t, p)).
Proof.
  intros Hok He. apply entry_None in He; [|done]. pose proof (next_unused ix Hok) as [Hna Hnf].
  pose proof (proj2 (account_unused ix id Hok) He) as Hu. pose proof Hok as [Hr Hj Hn].
  unfold insert_entry, gets, modify, mbind, op_bind, sql_insert_account, sql_insert_fts. cbn.
  rewrite bool_decide_eq_true_2, Hu by done. cbn. rewrite Hnf. eexists. split; [reflexivity|].
  apply sets_intro; cbn; [done| | |].
  - split; cbn.
    + intros k rowid. destruct (decide (k = id)) as [->|Hk].
      * rewrite lookup_insert_eq. split.
        -- intros [= <-]. exists t. by rewrite lookup_insert_eq.
        -- intros [t' Ht]. destruct (decide (rowid = next_rowid ix)) as [->|Hne]; [done|].
           rewrite lookup_insert_ne in Ht by done. rewrite (proj2 (Hr id rowid)) in He; [done|by exists t'].
      * rewrite lookup_insert_ne by done. rewrite Hr. destruct (decide (rowid = next_rowid ix)) as [->|Hne].
        -- rewrite lookup_insert_eq, Hna. split; intros [t' Ht]; [done|congruence].
        -- by rewrite lookup_insert_ne by done.
    + intros rowid. destruct (decide (rowid = next_rowid ix)) as [->|Hne].
      * rewrite !lookup_insert_eq. split; by eexists.
      * by rewrite !lookup_insert_ne.
    + intros rowid r. destruct (decide (rowid = next_rowid ix)) as [->|Hne]; [lia|].
      rewrite lookup_insert_ne by done. intros H. apply Hn in H. lia.
  - intros t' p'. split.
    + intros [= <- <-]. exists (next_rowid ix). by rewrite !lookup_insert_eq.
    + intros (rowid & Ha & Hp). destruct (decide (rowid = next_rowid ix)) as [->|Hne].
      * rewrite lookup_insert_eq in Ha. rewrite lookup_insert_eq in Hp. by simplify_eq.
      * rewrite lookup_insert_ne in Ha by done. rewrite (proj2 (Hr id rowid)) in He; [done|by eexists].
  - intros k t' p' Hk. split; intros (rowid & Ha & Hp); exists rowid.
    + destruct (decide (rowid = next_rowid ix)) as [->|Hne].
      * rewrite lookup_insert_eq in Ha. by simplify_eq.
      * rewrite lookup_insert_ne in Ha by done. rewrite lookup_insert_ne in Hp by done. done.
    + assert (rowid <> next_rowid ix) by (intros ->; congruence). by rewrite !lookup_insert_ne.
Qed.

Lemma insert_present ix id t p e :
  index_ok ix -> entry ix id = Some e ->
  exists ix', insert_entry id t p ix = (Err Sqlite, ix') /\ index_ok ix' /\ forall k, entry ix' k = entry ix k.
Proof.
  intros Hok He.
  assert (Hu : forallb (fun r => negb (r.1 =? id)) (map_to_list (accounts ix)).*2 = false).
  { apply not_true_iff_false. rewrite account_unused by done. rewrite <- entry_None by done. congruence. }
  unfold insert_entry, gets, modify, mbind, op_bind, sql_insert_account. cbn. rewrite Hu, andb_false_r.
  eexists. split; [reflexivity|]. destruct Hok as [Hr Hj Hn]. split; [|done].
  split; [done|done|]. cbn. intros rowid r H. apply Hn in H. lia.
Qed.

Lemma row_unique ix r r' k t t' :
  index_ok ix -> accounts ix !! r = Some (k, t) -> accounts ix !! r' = Some (k, t') -> r = r'.
Proof.
  intros [Hr _ _] H H'. assert (E : rowid_by_account ix !! k = Some r) by (apply Hr; by exists t).
  assert (E' : rowid_by_account ix !! k = Some r') by (apply Hr; by exists t'). congruence.
Qed.

Lemma update_sets ix id t p :
  index_ok ix -> exists ix', update_entry id t p ix = (Ok tt, ix') /\ sets ix ix' id (Some (t, p)).
Proof.
  intros Hok. unfold update_entry, gets, mbind, op_bind. cbn.
  destruct (rowid_by_account ix !! id) as [rowid|] eqn:Er; [|by apply insert_fresh, entry_None].
  destruct (entry_row ix id rowid Hok Er) as (t0 & p0 & Ha & Hp & _).
  unfold modify, sql_insert_fts. cbn. rewrite lookup_delete_eq. eexists. split; [reflexivity|].
  pose proof Hok as [Hr Hj Hn].
  assert (Hacc : forall k, alter (fun r : AccountId * Z => (r.1, t)) rowid (accounts ix) !! k
            = if decide (k = rowid) then Some (id, t) else accounts ix !! k).
  { intros k. case_decide as Hk; [subst; by rewrite lookup_alter_eq, Ha|by rewrite lookup_alter_ne]. }
  assert (Hfts : forall k, <[rowid:=p]> (delete rowid (account_fts ix)) !! k
            = if decide (k = rowid) then Some p else account_fts ix !! k).
  { intros k. case_decide as Hk; [subst; by rewrite lookup_insert_eq|by rewrite lookup_insert_ne, lookup_delete_ne]. }
  apply sets_intro; cbn; [done| | |].
  - split; cbn.
    + intros k r. rewrite Hr, Hacc. case_decide as Hk; [subst|done]. rewrite Ha. split; intros [t' Ht]; [exists t|exists t0]; congruence.
    + intros r. rewrite Hacc, Hfts. case_decide; [split; by eexists|done].
    + intros r x. rewrite Hacc. case_decide as Hk; [subst; intros _; by eapply Hn|apply Hn].
  - intros t' p'. split.
    + intros [= <- <-]. exists rowid. rewrite Hacc, Hfts. by rewrite !decide_True by done.
    + intros (r & H1 & H2). rewrite Hacc in H1. rewrite Hfts in H2. case_decide as Hk; [by simplify_eq|].
      destruct Hk. by apply (row_unique ix r rowid id t' t0).
  - intros k t' p' Hk. split; intros (r & H1 & H2); exists r.
    + rewrite Hacc in H1. rewrite Hfts in H2. case_decide; [by simplify_eq|done].
    + assert (r <> rowid) by (intros ->; congruence). rewrite Hacc, Hfts. by rewrite !decide_False by done.
Qed.

Lemma remove_sets ix id :
  index_ok ix -> exists ix', remove_entry id ix = (Ok tt, ix') /\ sets ix ix' id None.
Proof.
  intros Hok. unfold remove_entry, gets, mbind, op_bind. cbn.
  destruct (rowid_by_account ix !! id) as [rowid|] eqn:Er.
  2: { eexists. split; [reflexivity|]. split; [done|]. intros k. case_decide as Hk; [|done].
       subst. by apply entry_None. }
  destruct (entry_row ix id rowid Hok Er) as (t0 & p0 & Ha & Hp & _).
  unfold modify. cbn. eexists. split; [reflexivity|]. pose proof Hok as [Hr Hj Hn].
  apply sets_intro; cbn; [done| | |].
  - split; cbn.
    + intros k r. destruct (decide (k = id)) as [->|Hk].
      * rewrite lookup_delete_eq. split; [done|]. intros [t Ht]. destruct (decide (r = rowid)) as [->|Hne].
        -- by rewrite lookup_delete_eq in Ht.
        -- rewrite lookup_delete_ne in Ht by done. destruct Hne. by apply (row_unique ix r rowid id t t0).
      * rewrite lookup_delete_ne by done. rewrite Hr. destruct (decide (r = rowid)) as [->|Hne].
        -- rewrite lookup_delete_eq, Ha. split; intros [t Ht]; congruence.
        -- by rewrite lookup_delete_ne.
    + intros r. destruct (decide (r = rowid)) as [->|Hne].
      * rewrite !lookup_delete_eq. split; intros [x Hx]; discriminate Hx.
      * by rewrite !lookup_delete_ne.
    + intros r x Hx. apply lookup_delete_Some in Hx as [_ Hx]. by eapply Hn.
  - intros t p. split; [done|]. intros (r & H1 & _). apply lookup_delete_Some in H1 as [Hne H1].
    destruct Hne. symmetry. by apply (row_unique ix r rowid id t t0).
  - intros k t p Hk. split; intros (r & H1 & H2).
    + apply lookup_delete_Some in H1 as [_ H1]. apply lookup_delete_Some in H2 as [_ H2]. by exists r.
    + exists r. rewrite !lookup_delete_ne; [done|..]; intros ->; congruence.
Qed.

(** ** What a search finds *)

(** [fold tok] occurs in [fold col] for a column, as far as SQLite reads it. *)
Definition token_occurs (fold : list Z -> list Z) (p : SearchProjection) (tok : list Z) : Prop :=
  exists col a b, col ∈ [proj_display_name p; tags_joined p; hostnames_joined p]
    /\ fold (c_text col) = a ++ fold tok ++ b.

Lemma c_text_free s : Forall (fun b => b <> 0) s -> c_text s = s.
Proof. induction 1 as [|b s Hb _ IH]; [done|]. cbn. by rewrite (proj2 (Z.eqb_neq b 0)), IH. Qed.

Lemma like_pattern_free tok :
  Forall (fun b => b <> 0) tok -> c_text ([37] ++ like_escape tok ++ [37]) = [37] ++ like_escape tok ++ [37].
Proof.
  intros H. apply c_text_free. rewrite !Forall_app. split_and!; [by repeat constructor| |by repeat constructor].
  unfold like_escape. induction H as [|ch tok Hch _ IH]; [constructor|].
  cbn. apply Forall_app. split; [|exact IH]. case_match; by repeat constructor.
Qed.

Lemma like_any text : sql_like [37] text = true.
Proof.
  induction text as [|t r IH]; [done|].
  change (sql_like [37] (t :: r)) with (sql_like [] (t :: r) || sql_like [37] r). by rewrite IH, orb_true_r.
Qed.

Lemma like_prefix tok text :
  sql_like (like_escape tok ++ [37]) text = true
  <-> exists b, to_ascii_lowercase text = to_ascii_lowercase tok ++ b.
Proof.
  revert text. induction tok as [|ch tok IH]; intros text.
  - split; [intros _; by eexists|intros _; apply like_any].
  - assert (Hcase : sql_like (like_escape (ch :: tok) ++ [37]) text
              = match text with [] => false
                | t :: r => (ascii_lower t =? ascii_lower ch) && sql_like (like_escape tok ++ [37]) r end).
    { unfold like_escape. cbn [fmap list_fmap mjoin list_join]. fold (like_escape tok).
      destruct (ch =? 37) eqn:E1, (ch =? 95) eqn:E2, (ch =? 92) eqn:E3; cbn [orb app]; cbn; rewrite ?E1, ?E2, ?E3; by destruct text. }
    rewrite Hcase. destruct text as [|t r].
    + split; [done|]. intros [b Hb]. discriminate Hb.
    + rewrite andb_true_iff, Z.eqb_eq, IH. unfold to_ascii_lowercase. cbn. split.
      * intros [-> [b ->]]. by exists b.
      * intros [b [= -> ->]]. split; [done|by exists b].
Qed.

Lemma like_contains tok text :
  sql_like ([37] ++ like_escape tok ++ [37]) text = true
  <-> exists a b, to_ascii_lowercase text = a ++ to_ascii_lowercase tok ++ b.
Proof.
  cbn [app]. cbn [sql_like]. change (37 =? 37) with true. cbv iota.
  induction text as [|t r IH].
  - rewrite orb_false_r, like_prefix. split.
    + intros [b Hb]. by exists [], b.
    + intros (a & b & H). exists b. destruct a; [done|discriminate H].
  - rewrite orb_true_iff, like_prefix, IH. split.
    + intros [[b Hb]|(a & b & Hb)]; [by exists [], b|]. exists (ascii_lower t :: a), b. unfold to_ascii_lowercase in *. cbn. by rewrite Hb.
    + intros (a & b & Hb). destruct a as [|x a]; [left; by exists b|right]. exists a, b. unfold to_ascii_lowercase in *.
      cbn in Hb. by injection Hb as _ ->.
Qed.

Lemma like_row_spec tokens p :
  Forall (Forall (fun b => b <> 0)) tokens ->
  like_row tokens p = true <-> Forall (token_occurs to_ascii_lowercase p) tokens.
Proof.
  intros Hfree. unfold like_row. rewrite forallb_forall, Forall_forall.
  assert (Hx : forall tok, tok ∈ tokens -> c_text ([37] ++ like_escape tok ++ [37]) = [37] ++ like_escape tok ++ [37]).
  { intros tok Hin. apply like_pattern_free. by eapply Forall_forall in Hfree. }
  split; intros H tok Hin.
  - specialize (H tok (proj1 (list_elem_of_In _ _) Hin)). rewrite (Hx tok Hin), !orb_true_iff, !like_contains in H.
    destruct H as [[(a & b & H)|(a & b & H)]|(a & b & H)]; eexists _, a, b; (split; [|exact H]); set_solver.
  - apply list_elem_of_In in Hin. specialize (H tok Hin). destruct H as (col & a & b & Hcol & H).
    rewrite (Hx tok Hin), !orb_true_iff, !like_contains. apply elem_of_cons in Hcol as [->|Hcol]; [left; left; eauto|].
    apply elem_of_cons in Hcol as [->|Hcol]; [left; right; eauto|].
    apply list_elem_of_singleton in Hcol as ->. right; eauto.
Qed.

(** The phrases of an FTS5 expression that is a sequence of quoted strings, in which
    a doubled quote stands for one. *)
Fixpoint fts_phrases (inside : option (list Z)) (s : list Z) : option (list (list Z)) :=
  match inside, s with
  | None, [] => Some []
  | None, c :: s => if c =? 32 then fts_phrases None s else if c =? 34 then fts_phrases (Some []) s else None
  | Some _, [] => None
  | Some w, c :: s' =>
      if c =? 34 then
        match s' with
        | d :: s => if d =? 34 then fts_phrases (Some (w ++ [34])) s else cons w <$> fts_phrases None s'
        | [] => Some [w]
        end
      else fts_phrases (Some (w ++ [c])) s'
  end.

Definition quote_char (ch : Z) : list Z := if ch =? 34 then [34; 34] else [ch].

Lemma phrases_inside tok w s :
  (match s with d :: _ => d <> 34 | [] => True end) ->
  fts_phrases (Some w) (mjoin (quote_char <$> tok) ++ 34 :: s)
  = match s with [] => Some [w ++ tok] | _ => cons (w ++ tok) <$> fts_phrases None s end.
Proof.
  intros Hs. revert w. induction tok as [|ch tok IH]; intros w.
  - cbn. rewrite app_nil_r. destruct s as [|d s]; [done|]. by rewrite (proj2 (Z.eqb_neq d 34)).
  - cbn [fmap list_fmap mjoin list_join]. unfold quote_char at 1. rewrite <- app_assoc. destruct (Z.eqb_spec ch 34) as [->|Hne].
    + cbn. rewrite IH. by rewrite <- app_assoc.
    + cbn. rewrite (proj2 (Z.eqb_neq ch 34)) by done. rewrite IH. by rewrite <- app_assoc.
Qed.

Lemma phrases_quoted tokens : fts_phrases None (join [32] (fts_quote <$> tokens)) = Some tokens.
Proof.
  induction tokens as [|tok tokens IH]; [done|]. cbn [fmap list_fmap]. destruct tokens as [|tok' tokens].
  - cbn [fmap list_fmap join]. unfold fts_quote. cbn [app fts_phrases]. change (34 =? 32) with false.
    change (34 =? 34) with true. cbv iota. exact (phrases_inside tok [] [] I).
  - change (join [32] (fts_quote tok :: (fts_quote <$> tok' :: tokens)))
      with (fts_quote tok ++ [32] ++ join [32] (fts_quote <$> tok' :: tokens)).
    unfold fts_quote at 1. cbn [app]. rewrite <- !app_assoc. cbn [app fts_phrases]. change (34 =? 32) with false.
    change (34 =? 34) with true. cbv iota. fold quote_char. rewrite (phrases_inside tok []) by done.
    cbn [fts_phrases]. change (32 =? 32) with true. cbv iota. by rewrite IH.
Qed.

#[export] Instance hit_le_trans : Transitive hit_le.
Proof. intros a b c. unfold hit_le. lia. Qed.

#[export] Instance hit_le_total : Total hit_le.
Proof. intros a b. unfold hit_le. lia. Qed.

(** The order of the results, criterion by criterion: a better rank, then the more
    recent entry, then the later row. *)
Record no_worse (h' h : Hit) : Prop := mkNoWorse {
  worse_rank : hit_rank h' <= hit_rank h;
  worse_older : hit_rank h' = hit_rank h -> hit_updated_at h <= hit_updated_at h';
  worse_earlier : hit_rank h' = hit_rank h -> hit_updated_at h' = hit_updated_at h -> hit_rowid h <= hit_rowid h'
}.

Lemma hit_le_no_worse a b : hit_le a b -> no_worse a b.
Proof. unfold hit_le. intros H. split; lia. Qed.

Section results.
Context (ranks : gmap Z Z) (ix : SearchIndex) (Hok : index_ok ix).

Definition hits : list Hit :=
  omap (fun '(rowid, (id, updated_at)) => (fun r => mkHit r updated_at rowid id) <$> ranks !! rowid)
    (map_to_list (accounts ix)).

Definition hit_result (h : Hit) : AccountId * Z := (hit_account h, hit_updated_at h).

Lemma elem_of_hits h :
  h ∈ hits <-> accounts ix !! hit_rowid h = Some (hit_result h) /\ ranks !! hit_rowid h = Some (hit_rank h).
Proof.
  unfold hits. rewrite list_elem_of_omap. split.
  - intros ([rowid [id t]] & Hin & He). apply elem_of_map_to_list in Hin.
    destruct (ranks !! rowid) as [r|] eqn:E; [|discriminate He]. injection He as <-. done.
  - intros [Ha Hr]. exists (hit_rowid h, hit_result h). rewrite elem_of_map_to_list.
    split; [done|]. unfold hit_result. rewrite Hr. by destruct h.
Qed.

Lemma NoDup_hit_accounts : NoDup (hit_account <$> hits).
Proof using Hok.
  unfold hits. apply NoDup_fmap_2_strong.
  - intros h h' Hh Hh' He. apply elem_of_hits in Hh as [H1 H2], Hh' as [H1' H2']. destruct h as [r t k id], h' as [r' t' k' id'].
    unfold hit_result in *. cbn in *. subst. pose proof (row_unique ix k k' id' t t' Hok H1 H1'). subst. congruence.
  - pose proof (NoDup_map_to_list (accounts ix)) as Hnd.
    induction (map_to_list (accounts ix)) as [|[rowid [id t]] l IH]; [constructor|].
    apply NoDup_cons in Hnd as [Hnin Hnd]. cbn. destruct (ranks !! rowid) as [r|]; cbn; [|by apply IH].
    apply NoDup_cons. split; [|by apply IH]. rewrite list_elem_of_omap. intros ([rowid' [id' t']] & Hin & He).
    destruct (ranks !! rowid'); [|discriminate He]. injection He as -> -> -> ->. by destruct Hnin.
Qed.

(** A selection shows the best of the ranked rows, in their order. *)
Lemma select_best :
  exists hs, select ranks ix = hit_result <$> hs /\ hs ⊆ hits /\ NoDup (hit_account <$> hs)
    /\ StronglySorted no_worse hs /\ (length hs <= ACCOUNT_SEARCH_RESULT_CAP)%nat
    /\ forall h, h ∈ hits -> h ∈ hs
         \/ length hs = ACCOUNT_SEARCH_RESULT_CAP /\ Forall (fun h' => no_worse h' h) hs.
Proof using Hok.
  set (ranked := merge_sort hit_le hits). exists (take ACCOUNT_SEARCH_RESULT_CAP ranked).
  assert (Hp : ranked ≡ₚ hits) by apply merge_sort_Permutation.
  assert (Hs : StronglySorted hit_le ranked) by apply (StronglySorted_merge_sort hit_le).
  assert (Hw : StronglySorted no_worse ranked).
  { clear Hp. induction Hs as [|h l _ IH Hh]; constructor; [done|]. eapply Forall_impl; [exact Hh|]. intros h'. apply hit_le_no_worse. }
  rewrite <- (take_drop ACCOUNT_SEARCH_RESULT_CAP ranked) in Hw. apply StronglySorted_app in Hw as (Hcross & Hw & _).
  split_and!; [done| | |done|rewrite length_take; lia|].
  - intros h Hh. apply elem_of_take in Hh as (i & Hh & _). rewrite <- Hp. by eapply list_elem_of_lookup_2.
  - rewrite fmap_take. apply (sublist_NoDup _ (hit_account <$> ranked)); [rewrite Hp; apply NoDup_hit_accounts|apply sublist_take].
  - intros h Hh. rewrite <- Hp, <- (take_drop ACCOUNT_SEARCH_RESULT_CAP ranked) in Hh.
    apply elem_of_app in Hh as [Hh|Hh]; [by left|right]. split.
    + rewrite length_take. apply list_elem_of_lookup in Hh as [i Hi]. apply lookup_lt_Some in Hi. rewrite length_drop in Hi. lia.
    + apply Forall_forall. intros h' Hh'. by apply Hcross.
Qed.
End results.

Section theorems.
Context (to_lowercase fold : list Z -> list Z).
Context (run_fts : list Z -> gmap Z SearchProjection -> store_result (gmap Z Z)).
Context (like_accepted : list (list Z) -> gmap Z SearchProjection -> bool).

(** No zero bytes, which SQLite takes for the end. *)
Definition nul_free (tokens : list (list Z)) : Prop := Forall (Forall (fun b => b <> 0)) tokens.

(** Far within the limits of SQLite and of FTS5. *)
Definition moderate (tokens : list (list Z)) : Prop :=
  (length tokens <= 100)%nat /\ Forall (fun w => (length w <= 1000)%nat) tokens.

(** What FTS5 documents of the trigram tokenizer: the rows that match phrases of at
    least three characters are those in which each occurs as a substring, up to its case
    folding; and it takes such a query unless it is exorbitant. *)
Hypothesis fts_substrings : forall expr phrases table ranks,
  fts_phrases None expr = Some phrases -> phrases <> [] -> Forall (fun w => 3 <= char_count w) phrases -> nul_free phrases ->
  run_fts expr table = Ok ranks ->
  forall rowid, is_Some (ranks !! rowid) <-> exists p, table !! rowid = Some p /\ Forall (token_occurs fold p) phrases.

Hypothesis fts_moderate : forall expr phrases table,
  fts_phrases None expr = Some phrases -> phrases <> [] -> Forall (fun w => 3 <= char_count w) phrases ->
  nul_free phrases -> moderate phrases -> is_ok (run_fts expr table) = true.

Hypothesis like_moderate : forall tokens table, moderate tokens -> like_accepted tokens table = true.

(** Every token of the query occurs in a column. *)
Definition query_matches (raw : list Z) (p : SearchProjection) : Prop :=
  let tokens := query_tokens to_lowercase raw in
  let fold := if existsb (fun t => char_count t <? 3) tokens then to_ascii_lowercase else fold in
  Forall (token_occurs fold p) tokens.

(** The rank of a row: that of the engine for a full-text query, and one for all
    otherwise. *)
Definition row_rank (raw : list Z) (ix : SearchIndex) (rowid : Z) : Z :=
  match sanitise_query to_lowercase raw with
  | Fts expr => match run_fts expr (account_fts ix) with Ok ranks => default 0 (ranks !! rowid) | Err _ => 0 end
  | _ => 0
  end.

(** A row the query should find. *)
Record matching (raw : list Z) (ix : SearchIndex) (h : Hit) : Prop := mkMatching {
  matching_account : accounts ix !! hit_rowid h = Some (hit_result h);
  matching_words : exists p, account_fts ix !! hit_rowid h = Some p /\ query_matches raw p;
  matching_rank : hit_rank h = row_rank raw ix (hit_rowid h)
}.

(** Why SQLite may refuse a query. *)
Definition refused (raw : list Z) (ix : SearchIndex) (e : StoreError) : Prop :=
  (exists expr, sanitise_query to_lowercase raw = Fts expr /\ run_fts expr (account_fts ix) = Err e)
  \/ exists tokens, sanitise_query to_lowercase raw = Like tokens /\ like_accepted tokens (account_fts ix) = false /\ e = Sqlite.

Lemma long_tokens raw :
  existsb (fun t => char_count t <? 3) (query_tokens to_lowercase raw) = false ->
  Forall (fun w => 3 <= char_count w) (query_tokens to_lowercase raw).
Proof.
  intros Es. apply Forall_forall. intros w Hw. apply not_true_iff_false in Es. destruct (Z.leb_spec 3 (char_count w)); [done|].
  exfalso. apply Es. apply existsb_exists. exists w. split; [by apply list_elem_of_In|by apply Z.ltb_lt].
Qed.

(** The rows each kind of query ranks. *)
Lemma search_select raw ix :
  index_ok ix -> nul_free (query_tokens to_lowercase raw) ->
  match search to_lowercase run_fts like_accepted raw ix with
  | Ok res => exists ranks, res = select ranks ix /\
      (forall h, h ∈ hits ranks ix <-> matching raw ix h)
  | Err e => refused raw ix e
  end.
Proof using fts_substrings.
  intros Hok Hfree. unfold search.
  assert (Hrow : forall rowid r, accounts ix !! rowid = Some r -> exists p, account_fts ix !! rowid = Some p).
  { intros rowid r Hr. apply (proj1 (index_joined ix Hok rowid)). by eexists. }
  assert (Hgen : forall ranks,
    (forall rowid p, account_fts ix !! rowid = Some p -> is_Some (ranks !! rowid) <-> query_matches raw p) ->
    (forall rowid r, ranks !! rowid = Some r -> r = row_rank raw ix rowid) ->
    forall h, h ∈ hits ranks ix <-> matching raw ix h).
  { intros ranks Hd Hr h. rewrite elem_of_hits. split.
    - intros [Ha Hrk]. split; [done| |by apply Hr]. destruct (Hrow _ _ Ha) as [p Hp]. exists p. split; [done|].
      apply (Hd _ p Hp). by eexists.
    - intros [Ha (p & Hp & Hq) Hrk]. split; [done|]. apply (Hd _ p Hp) in Hq as [r Hq]. rewrite Hq. f_equal. rewrite Hrk. by apply Hr. }
  unfold query_matches, refused, row_rank in *. unfold sanitise_query in *.
  set (tokens := query_tokens to_lowercase raw) in *. destruct (Nat.eqb_spec (length tokens) 0) as [E0|E0].
  - eexists. split; [done|]. apply Hgen.
    + intros rowid p Hp. rewrite lookup_fmap. destruct (proj2 (index_joined ix Hok rowid)) as [x ->]; [by eexists|].
      split; [intros _|intros _; by eexists]. by destruct tokens.
    + intros rowid r. rewrite lookup_fmap. destruct (accounts ix !! rowid); [by intros [= <-]|done].
  - destruct (existsb _ tokens) eqn:Es.
    + destruct (like_accepted tokens (account_fts ix)) eqn:El; [|right; by exists tokens].
      eexists. split; [done|]. apply Hgen.
      * intros rowid p Hp. rewrite lookup_fmap, <- like_row_spec by done.
        destruct (like_row tokens p) eqn:Ep; [rewrite (map_lookup_filter_Some_2 _ _ _ p Hp Ep)|rewrite map_lookup_filter_None_2].
        -- split; [done|by eexists].
        -- split; [intros [x Hx]; discriminate Hx|done].
        -- right. intros p'. rewrite Hp. intros [= <-] H. change (like_row tokens p = true) in H. congruence.
      * intros rowid r. rewrite lookup_fmap. by destruct (filter _ _ !! rowid); [intros [= <-]|].
    + destruct (run_fts _ (account_fts ix)) as [ranks|e] eqn:Ef; [|left; by eexists].
      eexists. split; [done|]. apply Hgen; [|intros rowid r Hr; by rewrite Hr].
      intros rowid p Hp. rewrite (fts_substrings _ tokens _ _ (phrases_quoted tokens)) by first [done|by destruct tokens|by apply long_tokens].
      split; [|by eauto]. intros (p' & Hp' & H). rewrite Hp in Hp'. by injection Hp' as ->.
Qed.

Lemma search_moderate raw ix :
  nul_free (query_tokens to_lowercase raw) -> moderate (query_tokens to_lowercase raw) ->
  is_ok (search to_lowercase run_fts like_accepted raw ix) = true.
Proof using fts_moderate like_moderate.
  intros Hfree Hmod. unfold search, sanitise_query. set (tokens := query_tokens to_lowercase raw) in *.
  destruct (Nat.eqb_spec (length tokens) 0) as [E0|E0]; [done|].
  destruct (existsb _ tokens) eqn:Es; [by rewrite like_moderate|].
  pose proof (fts_moderate (join [32] (fts_quote <$> tokens)) tokens (account_fts ix) (phrases_quoted tokens)) as Hf.
  destruct (run_fts _ _); [done|]. apply Hf; [by destruct tokens|by apply long_tokens|done..].
Qed.

(** C21. The in-memory index is a map from accounts to what was last indexed for them:
    it starts empty, an insertion of a new account adds its entry, an insertion of one
    that is there fails and changes no entry, an update sets the entry whether or not
    there was one, a removal deletes it and is harmless otherwise; no operation touches
    another account, and the invariant that ties the two tables, the row numbers and the
    counter together is kept, so no uniqueness constraint is ever hit by an update. *)
Theorem index_refines_map :
  index_ok new_empty /\ (forall id, entry new_empty id = None)
  /\ forall ix id t p, index_ok ix ->
     (entry ix id = None -> exists ix', index_insert id t p ix = (Ok tt, ix') /\ sets ix ix' id (Some (t, p)))
     /\ (is_Some (entry ix id) -> exists ix', index_insert id t p ix = (Err Sqlite, ix')
           /\ sets ix ix' id (entry ix id))
     /\ (exists ix', index_update id t p ix = (Ok tt, ix') /\ sets ix ix' id (Some (t, p)))
     /\ exists ix', index_remove id ix = (Ok tt, ix') /\ sets ix ix' id None.
Proof.
  split; [apply new_empty_ok|]. split; [apply new_empty_ok|]. intros ix id t p Hok.
  split; [by apply insert_fresh|]. split; [|split; [by apply update_sets|by apply remove_sets]].
  intros [e He]. destruct (insert_present ix id t p e Hok He) as (ix' & H & Hok' & Hk). exists ix'. split; [done|].
  split; [done|]. intros k. rewrite Hk. by case_decide; subst.
Qed.

(** C22. A search finds what it should.  Whatever the user typed (short of a zero byte),
    its words are quoted and escaped so that SQLite takes them literally.  A query of
    ordinary size never fails, and any other only when SQLite itself refuses it, with its
    error.  Otherwise the results are accounts of the index with the time of their entry,
    each once, whose projection contains every word of the query, the best first: by the
    rank of the full-text engine, or without a full-text expression (the empty query, and
    queries with a word of fewer than three characters) by rank alike, then the most
    recently modified, then the last inserted.  A matching account is left out only when
    there are 200 results, none of which is worse than it. *)
Theorem search_exact raw ix :
  index_ok ix -> nul_free (query_tokens to_lowercase raw) ->
  (moderate (query_tokens to_lowercase raw) -> is_ok (search to_lowercase run_fts like_accepted raw ix) = true)
  /\ match search to_lowercase run_fts like_accepted raw ix with
     | Err e => refused raw ix e
     | Ok res => exists hs, res = hit_result <$> hs
         /\ Forall (matching raw ix) hs /\ NoDup res.*1 /\ StronglySorted no_worse hs
         /\ (length res <= ACCOUNT_SEARCH_RESULT_CAP)%nat
         /\ (forall h, matching raw ix h -> h ∈ hs
              \/ length res = ACCOUNT_SEARCH_RESULT_CAP /\ Forall (fun h' => no_worse h' h) hs)
         /\ (forall id t, (id, t) ∈ res -> exists p, entry ix id = Some (t, p) /\ query_matches raw p)
         /\ (length res = ACCOUNT_SEARCH_RESULT_CAP
             \/ forall id t p, entry ix id = Some (t, p) -> query_matches raw p -> (id, t) ∈ res)
     end.
Proof using fts_substrings fts_moderate like_moderate.
  intros Hok Hfree. split; [by apply search_moderate|]. pose proof (search_select raw ix Hok Hfree) as H.
  destruct (search _ _ _ _ _) as [res|e]; [|exact H]. destruct H as (ranks & -> & Hin).
  destruct (select_best ranks ix Hok) as (hs & -> & Hsub & Hnd & Hsort & Hcap & Hall).
  assert (Hhs : Forall (matching raw ix) hs) by (apply Forall_forall; intros h Hh; by apply Hin, Hsub).
  exists hs. rewrite length_fmap. split_and!; try done.
  - by rewrite <- list_fmap_compose.
  - intros h Hh. by apply Hall, Hin.
  - intros id t H. apply list_elem_of_fmap in H as (h & [= -> ->] & Hh).
    eapply Forall_forall in Hhs as [Ha (p & Hp & Hq) _]; [|exact Hh].
    exists p. split; [|done]. apply entry_Some; [done|]. by eexists.
  - destruct (decide (length hs = ACCOUNT_SEARCH_RESULT_CAP)) as [E|E]; [by left|right].
    intros id t p He Hq. apply entry_Some in He as (rowid & Ha & Hp); [|done]. apply list_elem_of_fmap.
    exists (mkHit (row_rank raw ix rowid) t rowid id). split; [done|].
    destruct (Hall (mkHit (row_rank raw ix rowid) t rowid id)) as [H|[H _]]; [|done..].
    apply Hin. split; [done|by exists p|done].
Qed.
End theorems.

(** ** Witnesses *)

Module SearchSample.

(** A full-text match with one rank, up to ASCII case. *)
Definition columns (p : SearchProjection) : list (list Z) := [proj_display_name p; tags_joined p; hostnames_joined p].

Definition phrase_occurs (p : SearchProjection) (w : list Z) : bool :=
  existsb (fun c => contains (to_ascii_lowercase w) (to_ascii_lowercase (c_text c))) (columns p).

(** The shorter display name is the better match. *)
Definition toy_fts (expr : list Z) (table : gmap Z SearchProjection) : store_result (gmap Z Z) :=
  match fts_phrases None expr with
  | Some phrases =>
      Ok ((fun p => Z.of_nat (length (proj_display_name p)))
            <$> filter (fun e => forallb (phrase_occurs e.2) phrases = true) table)
  | None => Err Sqlite
  end.

Definition toy_accepted (tokens : list (list Z)) (table : gmap Z SearchProjection) : bool := (length tokens <=? 300)%nat.

Lemma phrase_occurs_spec p w : phrase_occurs p w = true <-> token_occurs to_ascii_lowercase p w.
Proof.
  unfold phrase_occurs, token_occurs. rewrite existsb_exists. split.
  - intros (c & Hc & H). apply list_elem_of_In in Hc. apply contains_spec in H as (a & b & H). by exists c, a, b.
  - intros (c & a & b & Hc & H). exists c. split; [by apply list_elem_of_In|]. apply contains_spec. by exists a, b.
Qed.

Lemma toy_fts_substrings expr phrases table ranks :
  fts_phrases None expr = Some phrases -> phrases <> [] -> Forall (fun w => 3 <= char_count w) phrases -> nul_free phrases ->
  toy_fts expr table = Ok ranks ->
  forall rowid, is_Some (ranks !! rowid)
    <-> exists p, table !! rowid = Some p /\ Forall (token_occurs to_ascii_lowercase p) phrases.
Proof.
  intros E _ _ _. unfold toy_fts. rewrite E. intros [= <-] rowid.
  assert (H : forall p, forallb (phrase_occurs p) phrases = true <-> Forall (token_occurs to_ascii_lowercase p) phrases).
  { intros p. rewrite forallb_forall, Forall_forall. split; intros H w Hw;
      [apply phrase_occurs_spec, H|apply phrase_occurs_spec, H]; by apply list_elem_of_In. }
  rewrite lookup_fmap, fmap_is_Some. split.
  - intros [p Hp]. apply map_lookup_filter_Some in Hp as [Hp Hf]. exists p. by rewrite <- H.
  - intros (p & Hp & Hf). exists p. apply map_lookup_filter_Some. by rewrite H.
Qed.

Lemma toy_fts_moderate expr phrases table :
  fts_phrases None expr = Some phrases -> phrases <> [] -> Forall (fun w => 3 <= char_count w) phrases ->
  nul_free phrases -> moderate phrases -> is_ok (toy_fts expr table) = true.
Proof. intros E _ _ _ _. unfold toy_fts. by rewrite E. Qed.

Lemma toy_moderate tokens table : moderate tokens -> toy_accepted tokens table = true.
Proof. intros [H _]. apply Nat.leb_le. lia. Qed.

Definition host (s : list Z) : option (option (list Z)) := Some (snd <$> split_once 58 s).

Definition sample_projection : SearchProjection := from_identity to_ascii_lowercase host sample_identity.
Definition other_projection : SearchProjection := mkProjection (bytes_of "50% off") [] [].

Definition sample_index : SearchIndex :=
  (index_update 8 20 other_projection (index_insert 7 10 sample_projection new_empty).2).2.

Lemma sample_index_ok : index_ok sample_index.
Proof.
  destruct new_empty_ok as [Hok He].
  destruct (insert_fresh new_empty 7 10 sample_projection Hok (He 7)) as (ix1 & E1 & H1 & _).
  destruct (update_sets ix1 8 20 other_projection H1) as (ix2 & E2 & H2 & _).
  unfold sample_index. cbn [index_insert index_update SearchIndex_ops]. rewrite E1. cbn [snd]. by rewrite E2.
Qed.

Lemma index_refines_map_witness :
  (exists ix', index_update 7 30 other_projection sample_index = (Ok tt, ix')
     /\ sets sample_index ix' 7 (Some (30, other_projection)))
  /\ exists ix', index_insert 7 30 other_projection sample_index = (Err Sqlite, ix')
     /\ sets sample_index ix' 7 (entry sample_index 7).
Proof.
  destruct index_refines_map as (_ & _ & H).
  destruct (H sample_index 7 30 other_projection sample_index_ok) as (_ & H2 & H3 & _).
  split; [exact H3|]. apply H2. eexists. vm_compute. reflexivity.
Defined.

(** The account with the shorter name, a better match for the toy ranking. *)
Definition third_projection : SearchProjection := mkProjection (bytes_of "hub") (bytes_of "git") [].

Definition ranked_index : SearchIndex := (index_update 9 5 third_projection sample_index).2.

Lemma ranked_index_ok : index_ok ranked_index.
Proof.
  destruct (update_sets sample_index 9 5 third_projection sample_index_ok) as (ix' & E & H & _).
  unfold ranked_index. cbn [index_update SearchIndex_ops]. by rewrite E.
Qed.

(** The per-cent sign of a short query is not a wildcard; a better rank comes before a
    more recent entry. *)
Lemma search_exact_witness :
  search to_ascii_lowercase toy_fts toy_accepted (bytes_of "% of") ranked_index = Ok [(8, 20)]
  /\ search to_ascii_lowercase toy_fts toy_accepted (bytes_of "") ranked_index = Ok [(8, 20); (7, 10); (9, 5)]
  /\ search to_ascii_lowercase toy_fts toy_accepted (bytes_of "HUB git") ranked_index = Ok [(9, 5); (7, 10)]
  /\ exists hs, [(9, 5); (7, 10)] = hit_result <$> hs /\ StronglySorted no_worse hs.
Proof.
  split; [vm_compute; reflexivity|]. split; [vm_compute; reflexivity|]. split; [vm_compute; reflexivity|].
  destruct (search_exact to_ascii_lowercase to_ascii_lowercase toy_fts toy_accepted toy_fts_substrings toy_fts_moderate
    toy_moderate (bytes_of "HUB git") ranked_index ranked_index_ok) as [_ H]; [by apply (bool_decide_unpack _); vm_compute|].
  replace (search to_ascii_lowercase toy_fts toy_accepted (bytes_of "HUB git") ranked_index)
    with (Ok (E := StoreError) [(9, 5); (7, 10)]) in H by (vm_compute; reflexivity).
  destruct H as (hs & H1 & _ & _ & H2 & _). exists hs. by split.
Defined.
End SearchSample.
