(* ===== verification/RevisionGraph.v ===== *)
(** * The revision graph of an account

    crates/pangolin-store/src/revision.rs: revision metadata and the indexed
    parent/child structure [RevisionGraph] with its accessors.

    A Rust [HashMap] is a [gmap]; the one loop that iterates over a map
    ([build]'s step 2, whose order Rust leaves unspecified) takes the
    enumeration [iter] as an argument, and [build_from_iter_eq] shows that
    the result does not depend on it.  The BFS queue loop and the ancestry
    walks carry fuel; [bfs_total] and [walk_up_built] show that the fuel they
    are given is enough. *)

From S2P Require Import Prelude StoreError.

(** ** Data *)

Notation DeviceId := Z (only parsing).

(** pangolin-chain's [ChainAnchor]. *)
Record ChainAnchor : Type := mkChainAnchor {
  tx_hash : Z;
  block_number : Z;
  log_index : Z;
  sequence : Z
}.

Record RevisionMeta : Type := mkRevisionMeta {
  revision_id : RevisionId;
  parent_revision_id : RevisionId;
  device_id : DeviceId;
  schema_version : Z;
  created_at : Z;
  is_tombstone : bool;
  superseded_by : option RevisionId;
  chain_anchor : option ChainAnchor
}.

#[export] Instance ChainAnchor_eq_dec : EqDecision ChainAnchor.
Proof. solve_decision. Defined.
#[export] Instance RevisionMeta_eq_dec : EqDecision RevisionMeta.
Proof. solve_decision. Defined.

(** 32 zero bytes. *)
Definition GENESIS_PARENT : RevisionId := 0.

Record RevisionGraph : Type := mkRevisionGraph {
  revisions : list RevisionMeta;
  parents : gmap Z Z;
  children : gmap Z (list Z);
  heads : list RevisionId;
  genesis : option RevisionId;
  genesis_extra : list RevisionId;
  by_id : gmap Z nat
}.

(** ** Construction *)

(** Step 1: index the rows, refusing a repeated id. *)
Fixpoint index_rows (rows : list RevisionMeta) (m : gmap Z RevisionMeta) :
    option (gmap Z RevisionMeta) :=
  match rows with
  | [] => Some m
  | row :: rest =>
      match m !! revision_id row with
      | Some _ => None
      | None => index_rows rest (<[revision_id row := row]> m)
      end
  end.

(** Step 2: child and parent indices and the root list. *)
Record Links : Type := mkLinks {
  l_children : gmap Z (list Z);
  l_parents : gmap Z Z;
  l_roots : list Z
}.

Definition is_root (m : gmap Z RevisionMeta) (meta : RevisionMeta) : bool :=
  bool_decide (parent_revision_id meta = GENESIS_PARENT)
  || bool_decide (m !! parent_revision_id meta = None).

Definition push_child (p id : Z) (c : gmap Z (list Z)) : gmap Z (list Z) :=
  <[p := default [] (c !! p) ++ [id]]> c.

Definition link_one (m : gmap Z RevisionMeta) (acc : Links) (e : Z * RevisionMeta) : Links :=
  let '(id, meta) := e in
  let parent := parent_revision_id meta in
  if is_root m meta then
    mkLinks (l_children acc) (l_parents acc) (l_roots acc ++ [id])
  else
    mkLinks (push_child parent id (l_children acc))
            (<[id := parent]> (l_parents acc)) (l_roots acc).

Definition link_all (m : gmap Z RevisionMeta) (iter : list (Z * RevisionMeta)) : Links :=
  foldl (link_one m) (mkLinks ∅ ∅ []) iter.

(** Step 3: the sort key [(created_at, revision_id)]. *)
Definition order_key (m : gmap Z RevisionMeta) (id : Z) : Z * Z :=
  (default 0 (created_at <$> m !! id), id).

Definition key_le (m : gmap Z RevisionMeta) (a b : Z) : Prop :=
  pair_le (order_key m a) (order_key m b).

#[export] Instance key_le_dec m : RelDecision (key_le m).
Proof. intros a b. unfold key_le. apply _. Defined.

Definition sort_ids (m : gmap Z RevisionMeta) (ids : list Z) : list Z :=
  merge_sort (key_le m) ids.

(** Step 4: breadth-first walk.  [enqueue_kids] is the inner loop over the
    children of the popped node; an already seen child is the back-edge
    error. *)
Fixpoint enqueue_kids (kids queue : list Z) (seen : gset Z) :
    result CorruptedKind (list Z * gset Z) :=
  match kids with
  | [] => Ok (queue, seen)
  | kid :: rest =>
      if bool_decide (kid ∈ seen) then Err LineageCycle
      else enqueue_kids rest (queue ++ [kid]) ({[kid]} ∪ seen)
  end.

Fixpoint bfs (fuel : nat) (kids_of : gmap Z (list Z)) (queue topo : list Z)
    (seen : gset Z) : option (result CorruptedKind (list Z)) :=
  match fuel with
  | O => None
  | S fuel' =>
      match queue with
      | [] => Some (Ok topo)
      | id :: rest =>
          match enqueue_kids (default [] (kids_of !! id)) rest seen with
          | Ok (queue', seen') => bfs fuel' kids_of queue' (topo ++ [id]) seen'
          | Err e => Some (Err e)
          end
      end
  end.

(** Step 5 helpers. *)
Definition positions (topo : list Z) : gmap Z nat :=
  list_to_map (zip topo (seq 0 (length topo))).

Definition is_head (kids_of : gmap Z (list Z)) (row : RevisionMeta) : bool :=
  bool_decide (superseded_by row = None)
  && match kids_of !! revision_id row with
     | None => true
     | Some kids => bool_decide (kids = [])
     end.

(** [Iterator::min_by_key] on [(created_at, revision_id)]: the first least
    element. *)
Definition meta_key (row : RevisionMeta) : Z * Z := (created_at row, revision_id row).

Fixpoint min_by_key (rows : list RevisionMeta) : option RevisionMeta :=
  match rows with
  | [] => None
  | row :: rest =>
      match min_by_key rest with
      | None => Some row
      | Some best =>
          if decide (pair_le (meta_key row) (meta_key best)) then Some row else Some best
      end
  end.

Definition compute_genesis_extra (m : gmap Z RevisionMeta) (revs : list RevisionMeta)
    (pos : gmap Z nat) : list RevisionId :=
  sort_ids m (revision_id <$>
    filter (fun row => parent_revision_id row <> GENESIS_PARENT
                       /\ pos !! parent_revision_id row = None) revs).

Definition assemble (m : gmap Z RevisionMeta) (lk : Links) (kids_of : gmap Z (list Z))
    (topo : list Z) : RevisionGraph :=
  let revs := omap (fun id => m !! id) topo in
  let pos := positions topo in
  {| revisions := revs;
     parents := l_parents lk;
     children := kids_of;
     heads := sort_ids m (revision_id <$> filter (fun row => is_head kids_of row = true) revs);
     genesis := revision_id <$>
       min_by_key (filter (fun row => parent_revision_id row = GENESIS_PARENT) revs);
     genesis_extra := compute_genesis_extra m revs pos;
     by_id := pos |}.

Definition build_from (iter : list (Z * RevisionMeta)) (m : gmap Z RevisionMeta) :
    option (store_result RevisionGraph) :=
  let lk := link_all m iter in
  let roots := sort_ids m (l_roots lk) in
  let kids_of := sort_ids m <$> l_children lk in
  match bfs (S (size m)) kids_of roots [] (list_to_set roots) with
  | None => None
  | Some (Err e) => Some (Err (Corrupted e))
  | Some (Ok topo) =>
      if bool_decide (length topo = size m)
      then Some (Ok (assemble m lk kids_of topo))
      else Some (Err (Corrupted UnreachableComponent))
  end.

(** [RevisionGraph::build]; [None] is the model's out-of-fuel value, which
    [build_total] excludes. *)
Definition build (rows : list RevisionMeta) : option (store_result RevisionGraph) :=
  match index_rows rows ∅ with
  | None => Some (Err (Corrupted DuplicateRevision))
  | Some m => build_from (map_to_list m) m
  end.

(** ** Accessors *)

Definition get (g : RevisionGraph) (id : RevisionId) : option RevisionMeta :=
  by_id g !! id ≫= fun idx => revisions g !! idx.

Definition is_forked (g : RevisionGraph) : bool := (1 <? Z.of_nat (length (heads g))).

(** [Iterator::max_by] on the id bytes: the last greatest element. *)
Fixpoint max_id (ids : list RevisionId) (best : option RevisionId) : option RevisionId :=
  match ids with
  | [] => best
  | id :: rest =>
      max_id rest (match best with
                   | None => Some id
                   | Some b => if b <=? id then Some id else Some b
                   end)
  end.

Definition canonical_head (g : RevisionGraph) : option RevisionId := max_id (heads g) None.

Definition parent_of (g : RevisionGraph) (id : RevisionId) : option RevisionId :=
  parents g !! id.

Definition children_of (g : RevisionGraph) (id : RevisionId) : list RevisionId :=
  default [] (children g !! id).

(** The [loop] of [ancestors], newest first; the caller reverses. *)
Fixpoint walk_up (fuel : nat) (ps : gmap Z Z) (cursor : Z) : option (list Z) :=
  match fuel with
  | O => None
  | S fuel' =>
      match ps !! cursor with
      | Some parent => cons cursor <$> walk_up fuel' ps parent
      | None => Some [cursor]
      end
  end.

Definition walk_fuel (g : RevisionGraph) : nat := S (length (revisions g)).

Definition ancestors (g : RevisionGraph) (id : RevisionId) : list RevisionId :=
  match by_id g !! id with
  | None => []
  | Some _ => rev (default [] (walk_up (walk_fuel g) (parents g) id))
  end.

Definition is_on_canonical_chain (g : RevisionGraph) (id : RevisionId) : bool :=
  match canonical_head g with
  | None => false
  | Some head => bool_decide (id ∈ ancestors g head)
  end.

(** The second [loop] of [common_ancestor]. *)
Fixpoint walk_to (fuel : nat) (ps : gmap Z Z) (targets : gset Z) (cursor : Z) :
    option (option Z) :=
  match fuel with
  | O => None
  | S fuel' =>
      if bool_decide (cursor ∈ targets) then Some (Some cursor)
      else match ps !! cursor with
           | Some p => walk_to fuel' ps targets p
           | None => Some None
           end
  end.

Definition common_ancestor (g : RevisionGraph) (a b : RevisionId) : option RevisionId :=
  match by_id g !! a, by_id g !! b with
  | Some _, Some _ =>
      if bool_decide (a = b) then Some a
      else default None
             (walk_to (walk_fuel g) (parents g) (list_to_set (ancestors g a)) b)
  | _, _ => None
  end.

(** ** The specification: lineage *)

(** [c]'s declared parent is the row [p] of the same graph. *)
Definition parent_edge (m : gmap Z RevisionMeta) (c p : Z) : Prop :=
  exists meta, m !! c = Some meta /\ parent_revision_id meta = p
               /\ p <> GENESIS_PARENT /\ is_Some (m !! p).

(** [c]'s declared parent is the genesis sentinel or is missing. *)
Definition root (m : gmap Z RevisionMeta) (id : Z) : Prop :=
  exists meta, m !! id = Some meta /\ is_root m meta = true.

(** The lineage of [id] reaches a root: it is not on, nor below, a cycle. *)
Inductive grounded (m : gmap Z RevisionMeta) : Z -> Prop :=
| grounded_root id : root m id -> grounded m id
| grounded_child c p : parent_edge m c p -> grounded m p -> grounded m c.

(** The rows by id. *)
Definition rows_map (rows : list RevisionMeta) : gmap Z RevisionMeta :=
  list_to_map ((fun row => (revision_id row, row)) <$> rows).

(** ** Indexing *)

Lemma index_rows_Some rows m :
  NoDup (revision_id <$> rows) ->
  Forall (fun row => m !! revision_id row = None) rows ->
  index_rows rows m = Some (rows_map rows ∪ m).
Proof.
  revert m; induction rows as [|row rest IH]; intros m Hnd Hf; simpl.
  { unfold rows_map. simpl. by rewrite (left_id_L ∅ (∪)). }
  inversion Hf as [|? ? Hrow Hrest]; subst. rewrite Hrow.
  apply NoDup_cons in Hnd as [Hni Hnd]. rewrite IH; [|done|].
  - f_equal. unfold rows_map. simpl. rewrite <- insert_union_l, insert_union_r; [done|].
    apply not_elem_of_list_to_map. by rewrite <- list_fmap_compose.
  - rewrite Forall_forall in *. intros r Hr. rewrite lookup_insert_ne; [auto|].
    intros Heq. apply Hni. rewrite Heq. by apply list_elem_of_fmap_2.
Qed.

Lemma index_rows_inv rows m m' :
  index_rows rows m = Some m' ->
  NoDup (revision_id <$> rows) /\ Forall (fun row => m !! revision_id row = None) rows.
Proof.
  revert m; induction rows as [|row rest IH]; intros m; simpl.
  { split; constructor. }
  destruct (m !! revision_id row) eqn:E; [done|].
  intros [Hnd Hf]%IH. rewrite Forall_forall in Hf. split.
  - constructor; [|done]. intros (r & Hr & Hin)%list_elem_of_fmap.
    specialize (Hf r Hin). rewrite Hr, lookup_insert_eq in Hf. done.
  - constructor; [done|]. rewrite Forall_forall. intros r Hr. specialize (Hf r Hr).
    destruct (decide (revision_id row = revision_id r)) as [Heq|Hne].
    + rewrite Heq, lookup_insert_eq in Hf. done.
    + by rewrite lookup_insert_ne in Hf.
Qed.

Lemma index_rows_ok rows :
  NoDup (revision_id <$> rows) -> index_rows rows ∅ = Some (rows_map rows).
Proof.
  intros Hnd. rewrite index_rows_Some, (right_id_L ∅ (∪)); [done|done|].
  apply Forall_forall. intros. apply lookup_empty.
Qed.

Lemma index_rows_dup rows :
  ~ NoDup (revision_id <$> rows) -> index_rows rows ∅ = None.
Proof.
  intros Hn. destruct (index_rows rows ∅) eqn:E; [|done].
  by apply index_rows_inv in E as [? _].
Qed.

Section rows.
Context (rows : list RevisionMeta) (Hnd : NoDup (revision_id <$> rows)).

Lemma rows_map_lookup id row :
  rows_map rows !! id = Some row <-> row ∈ rows /\ revision_id row = id.
Proof using Hnd.
  unfold rows_map. rewrite <- elem_of_list_to_map.
  - rewrite list_elem_of_fmap. naive_solver.
  - by rewrite <- list_fmap_compose.
Qed.

Lemma rows_map_size : size (rows_map rows) = length rows.
Proof using Hnd.
  unfold rows_map. rewrite fin_maps.map_size_list_to_map.
  - by rewrite length_fmap.
  - by rewrite <- list_fmap_compose.
Qed.
End rows.

Lemma rows_map_perm rows rows' :
  NoDup (revision_id <$> rows) -> rows ≡ₚ rows' -> rows_map rows = rows_map rows'.
Proof.
  intros Hnd Hp. apply list_to_map_proper.
  - by rewrite <- list_fmap_compose.
  - by rewrite Hp.
Qed.

Lemma rows_map_keyed rows id row : rows_map rows !! id = Some row -> revision_id row = id.
Proof.
  intros (r & Heq & _)%elem_of_list_to_map_2%list_elem_of_fmap. by inversion Heq.
Qed.

(** ** The sort key *)

#[export] Instance key_le_trans m : Transitive (key_le m).
Proof. intros a b c. unfold key_le. apply transitivity. Qed.
#[export] Instance key_le_total m : Total (key_le m).
Proof. intros a b. unfold key_le. apply total, _. Qed.
#[export] Instance key_le_antisymm m : AntiSymm (=) (key_le m).
Proof. intros a b H1 H2. pose proof (pair_le_antisymm _ _ H1 H2). by simplify_eq. Qed.

Lemma sort_ids_perm_eq m l k : l ≡ₚ k -> sort_ids m l = sort_ids m k.
Proof. apply merge_sort_perm_eq; apply _. Qed.

Lemma elem_of_sort_ids m l x : x ∈ sort_ids m l <-> x ∈ l.
Proof. apply elem_of_merge_sort. Qed.

Lemma NoDup_sort_ids m l : NoDup (sort_ids m l) <-> NoDup l.
Proof. apply NoDup_merge_sort. Qed.

(** ** The links of step 2 *)

Section links.
Context (m : gmap Z RevisionMeta).

Lemma link_all_snoc iter e : link_all m (iter ++ [e]) = link_one m (link_all m iter) e.
Proof. unfold link_all. by rewrite foldl_app. Qed.

Lemma link_all_roots iter :
  l_roots (link_all m iter) = (filter (fun e => is_root m e.2 = true) iter).*1.
Proof.
  induction iter as [|[id meta] iter IH] using rev_ind; [done|].
  rewrite link_all_snoc, filter_app, fmap_app, <- IH. simpl.
  destruct (is_root m meta) eqn:E; simpl.
  - rewrite filter_cons_True by done. done.
  - rewrite filter_cons_False by (simpl; congruence). by rewrite app_nil_r.
Qed.

Lemma link_all_parents iter :
  l_parents (link_all m iter) =
  list_to_map (reverse ((fun e => (e.1, parent_revision_id e.2)) <$>
                        filter (fun e => is_root m e.2 = false) iter)).
Proof.
  induction iter as [|[id meta] iter IH] using rev_ind; [done|].
  rewrite link_all_snoc, filter_app, fmap_app, reverse_app. simpl.
  destruct (is_root m meta) eqn:E; simpl.
  - by rewrite filter_cons_False by (simpl; congruence).
  - rewrite filter_cons_True by done. simpl. by rewrite IH.
Qed.

Definition kids_in (iter : list (Z * RevisionMeta)) (p : Z) : list Z :=
  (filter (fun e => is_root m e.2 = false /\ parent_revision_id e.2 = p) iter).*1.

Lemma link_all_children iter p :
  l_children (link_all m iter) !! p =
  match kids_in iter p with [] => None | l => Some l end.
Proof.
  unfold kids_in. induction iter as [|[id meta] iter IH] using rev_ind; [done|].
  rewrite link_all_snoc, filter_app, fmap_app. simpl.
  destruct (is_root m meta) eqn:E; simpl.
  - rewrite filter_cons_False by (simpl; intuition congruence).
    by rewrite app_nil_r.
  - unfold push_child. destruct (decide (parent_revision_id meta = p)) as [<-|Hne].
    + rewrite filter_cons_True by done. rewrite lookup_insert_eq, IH. simpl.
      destruct (filter _ iter).*1; done.
    + rewrite filter_cons_False by (simpl; intuition congruence).
      rewrite lookup_insert_ne by done. by rewrite app_nil_r.
Qed.

Lemma children_default iter p :
  default [] (l_children (link_all m iter) !! p) = kids_in iter p.
Proof. rewrite link_all_children. by destruct (kids_in iter p). Qed.

Lemma kids_perm iter iter' p : iter ≡ₚ iter' -> kids_in iter p ≡ₚ kids_in iter' p.
Proof. intros Hp. unfold kids_in. by rewrite Hp. Qed.

Lemma is_root_false meta :
  is_root m meta = false <->
  parent_revision_id meta <> GENESIS_PARENT /\ is_Some (m !! parent_revision_id meta).
Proof.
  unfold is_root. rewrite orb_false_iff, !bool_decide_eq_false.
  by rewrite <- not_eq_None_Some.
Qed.

Context (iter : list (Z * RevisionMeta)) (Hiter : iter ≡ₚ map_to_list m).

Lemma elem_of_iter id meta : (id, meta) ∈ iter <-> m !! id = Some meta.
Proof using Hiter. rewrite Hiter. apply elem_of_map_to_list. Qed.

Lemma NoDup_iter : NoDup iter.*1.
Proof using Hiter. rewrite Hiter. apply NoDup_fst_map_to_list. Qed.

Lemma elem_of_kids c p : c ∈ kids_in iter p <-> parent_edge m c p.
Proof using Hiter.
  unfold kids_in, parent_edge. rewrite list_elem_of_fmap. split.
  - intros ([id meta] & -> & [[Hr <-] Hin]%list_elem_of_filter).
    apply elem_of_iter in Hin. apply is_root_false in Hr. naive_solver.
  - intros (meta & Hc & <- & Hg & Hs). exists (c, meta).
    rewrite list_elem_of_filter, elem_of_iter, is_root_false. naive_solver.
Qed.

Lemma NoDup_kids p : NoDup (kids_in iter p).
Proof using Hiter.
  unfold kids_in. apply NoDup_fmap_filter, NoDup_iter.
Qed.

Lemma elem_of_roots id : id ∈ l_roots (link_all m iter) <-> root m id.
Proof using Hiter.
  rewrite link_all_roots, list_elem_of_fmap. unfold root. split.
  - intros ([i meta] & -> & [Hr Hin]%list_elem_of_filter).
    apply elem_of_iter in Hin. eauto.
  - intros (meta & Hc & Hr). exists (id, meta).
    by rewrite list_elem_of_filter, elem_of_iter.
Qed.

Lemma NoDup_roots : NoDup (l_roots (link_all m iter)).
Proof using Hiter.
  rewrite link_all_roots. apply NoDup_fmap_filter, NoDup_iter.
Qed.

Lemma lookup_parents c p :
  l_parents (link_all m iter) !! c = Some p <-> parent_edge m c p.
Proof using Hiter.
  rewrite link_all_parents, <- elem_of_list_to_map.
  - rewrite elem_of_reverse, list_elem_of_fmap. unfold parent_edge. split.
    + intros ([id meta] & Heq & [Hr Hin]%list_elem_of_filter).
      apply elem_of_iter in Hin. apply is_root_false in Hr. simplify_eq/=. naive_solver.
    + intros (meta & Hc & <- & Hg & Hs). exists (c, meta).
      rewrite list_elem_of_filter, elem_of_iter, is_root_false. naive_solver.
  - rewrite fmap_reverse, <- list_fmap_compose, reverse_Permutation.
    apply (NoDup_fmap_filter fst), NoDup_iter.
Qed.
End links.

Lemma parent_edge_fun m c p p' : parent_edge m c p -> parent_edge m c p' -> p = p'.
Proof. intros (? & ? & ? & _) (? & ? & ? & _). simplify_eq. done. Qed.

Lemma root_no_edge m c p : root m c -> parent_edge m c p -> False.
Proof.
  intros (x & Hx & Hr) (y & Hy & <- & Hg & Hs). rewrite Hy in Hx. injection Hx as ->.
  assert (is_root m x = false) by by apply is_root_false. congruence.
Qed.

Lemma root_or_edge m c : is_Some (m !! c) -> root m c \/ exists p, parent_edge m c p.
Proof.
  intros [meta Hc]. destruct (is_root m meta) eqn:E.
  - left. by exists meta.
  - right. apply is_root_false in E as [??]. exists (parent_revision_id meta), meta. done.
Qed.

Lemma grounded_in m c : grounded m c -> is_Some (m !! c).
Proof. by induction 1 as [? (x & ? & ?)|? ? (x & ? & ?)]. Qed.

(** ** The breadth-first walk *)

(** Every node comes after its parent. *)
Definition parents_first (m : gmap Z RevisionMeta) (l : list Z) : Prop :=
  forall l1 x l2 p, l = l1 ++ x :: l2 -> parent_edge m x p -> p ∈ l1.

Record bfs_inv (m : gmap Z RevisionMeta) (topo queue : list Z) (seen : gset Z) : Prop := {
  inv_nodup : NoDup (topo ++ queue);
  inv_seen : forall x, x ∈ seen <-> x ∈ topo ++ queue;
  inv_grounded : forall x, x ∈ topo ++ queue -> grounded m x;
  inv_roots : forall x, root m x -> x ∈ topo ++ queue;
  inv_closed : forall p c, p ∈ topo -> parent_edge m c p -> c ∈ topo ++ queue;
  inv_parent : forall c p, c ∈ topo ++ queue -> parent_edge m c p -> p ∈ topo;
  inv_first : parents_first m (topo ++ queue)
}.

Lemma parents_first_app m l ks id :
  parents_first m l -> id ∈ l -> (forall c p, c ∈ ks -> parent_edge m c p -> p = id) ->
  parents_first m (l ++ ks).
Proof.
  intros Hl Hid Hks l1 x l2 p Heq Hp.
  apply app_eq_inv in Heq as [(k & -> & Hk)|(k & -> & Hk)].
  - destruct k as [|y k]; simplify_eq/=.
    + rewrite app_nil_r in *. rewrite (Hks x p) by (set_solver || done). done.
    + by apply (Hl l1 y k).
  - rewrite (Hks x p); [set_solver| |done]. rewrite Hk. set_solver.
Qed.

Lemma enqueue_kids_ok kids queue seen :
  NoDup kids -> (forall k, k ∈ kids -> k ∉ seen) ->
  enqueue_kids kids queue seen = Ok (queue ++ kids, list_to_set kids ∪ seen).
Proof.
  revert queue seen; induction kids as [|kid rest IH]; intros queue seen Hnd Hfresh; simpl.
  { rewrite app_nil_r. do 2 f_equal. set_solver. }
  apply NoDup_cons in Hnd as [Hni Hnd].
  rewrite bool_decide_eq_false_2 by (apply Hfresh; set_solver).
  rewrite IH; [|done|].
  - rewrite <- app_assoc. do 2 f_equal. set_solver.
  - intros k Hk. specialize (Hfresh k ltac:(set_solver)). set_solver.
Qed.

Lemma NoDup_in_dom_length {V} (m : gmap Z V) (l : list Z) :
  NoDup l -> (forall x, x ∈ l -> is_Some (m !! x)) -> (length l <= size m)%nat.
Proof.
  intros Hnd Hin. rewrite <- size_dom, <- (size_list_to_set (C := gset Z) l Hnd).
  apply subseteq_size. intros x Hx%elem_of_list_to_set. by apply elem_of_dom, Hin.
Qed.

Section bfs.
Context (m : gmap Z RevisionMeta) (kids_of : gmap Z (list Z)).
Context (Hkids : forall p c, c ∈ default [] (kids_of !! p) <-> parent_edge m c p).
Context (Hkids_nd : forall p, NoDup (default [] (kids_of !! p))).

Lemma bfs_inv_step topo id rest seen :
  bfs_inv m topo (id :: rest) seen ->
  exists seen',
    enqueue_kids (default [] (kids_of !! id)) rest seen =
      Ok (rest ++ default [] (kids_of !! id), seen')
    /\ bfs_inv m (topo ++ [id]) (rest ++ default [] (kids_of !! id)) seen'.
Proof using Hkids Hkids_nd.
  intros [Hnd Hseen Hgr Hroots Hclosed Hparent Hfirst].
  set (ks := default [] (kids_of !! id)).
  assert (Hassoc : (topo ++ [id]) ++ rest ++ ks = (topo ++ id :: rest) ++ ks)
    by (rewrite <- !app_assoc; done).
  assert (Hfresh : forall k, k ∈ ks -> k ∉ topo ++ id :: rest).
  { intros k Hk Hin. apply Hkids in Hk. pose proof (Hparent k id Hin Hk) as Hid.
    apply NoDup_app in Hnd as (_ & Hdisj & _). apply (Hdisj id Hid). set_solver. }
  eexists. split.
  { apply enqueue_kids_ok; [apply Hkids_nd|]. intros k Hk. rewrite Hseen. auto. }
  split; rewrite ?Hassoc.
  - apply NoDup_app. split_and!; [done| |apply Hkids_nd]. intros x Hx Hk. by apply (Hfresh x).
  - intros x. rewrite elem_of_union, Hseen, elem_of_list_to_set, (elem_of_app _ ks). tauto.
  - intros x [Hx|Hx]%elem_of_app; [auto|]. apply Hkids in Hx.
    apply (grounded_child m x id Hx), Hgr. set_solver.
  - intros x Hx%Hroots. set_solver.
  - intros p c [Hp|Hp]%elem_of_app Hc; [specialize (Hclosed p c Hp Hc); set_solver|].
    apply list_elem_of_singleton in Hp as ->. apply Hkids in Hc. set_solver.
  - intros c p [Hc|Hc]%elem_of_app Hp; [specialize (Hparent c p Hc Hp); set_solver|].
    apply Hkids in Hc. rewrite (parent_edge_fun m c p id Hp Hc). set_solver.
  - apply (parents_first_app m _ ks id); [done|set_solver|].
    intros c p Hc Hp. apply Hkids in Hc. by apply (parent_edge_fun m c).
Qed.

Lemma bfs_inv_length topo queue seen :
  bfs_inv m topo queue seen -> (length (topo ++ queue) <= size m)%nat.
Proof.
  intros [Hnd _ Hgr _ _ _ _]. apply NoDup_in_dom_length; [done|].
  intros x Hx. by apply grounded_in, Hgr.
Qed.

Lemma bfs_run fuel topo queue seen :
  bfs_inv m topo queue seen -> (size m < fuel + length topo)%nat ->
  exists topo' seen', bfs fuel kids_of queue topo seen = Some (Ok topo')
    /\ bfs_inv m topo' [] seen'.
Proof using Hkids Hkids_nd.
  revert topo queue seen; induction fuel as [|fuel IH]; intros topo queue seen Hinv Hfuel.
  { apply bfs_inv_length in Hinv. rewrite length_app in Hinv. lia. }
  destruct queue as [|id rest]; simpl; [by eauto|].
  destruct (bfs_inv_step _ _ _ _ Hinv) as (seen' & -> & Hinv').
  apply IH in Hinv'; [done|]. rewrite length_app. simpl. lia.
Qed.

Lemma bfs_inv_done topo seen :
  bfs_inv m topo [] seen ->
  NoDup topo /\ (forall x, x ∈ topo <-> grounded m x) /\ parents_first m topo.
Proof.
  intros [Hnd _ Hgr Hroots Hclosed _ Hfirst]. rewrite app_nil_r in *.
  split_and!; [done| |done]. intros x. split; [auto|].
  induction 1 as [x Hx|c p Hc _ IH]; [auto|by eapply Hclosed].
Qed.
End bfs.

(** The facts about step 4 that the rest of the file uses: with the links of
    any enumeration of the rows the walk returns, and visits exactly the
    grounded nodes, each after its parent. *)
Section walk.
Context (m : gmap Z RevisionMeta) (iter : list (Z * RevisionMeta)).
Context (Hiter : iter ≡ₚ map_to_list m).

Lemma sorted_kids p :
  default [] ((sort_ids m <$> l_children (link_all m iter)) !! p) =
  sort_ids m (kids_in m iter p).
Proof.
  rewrite lookup_fmap, link_all_children. by destruct (kids_in m iter p).
Qed.

Lemma bfs_total :
  exists topo,
    bfs (S (size m)) (sort_ids m <$> l_children (link_all m iter))
        (sort_ids m (l_roots (link_all m iter))) []
        (list_to_set (sort_ids m (l_roots (link_all m iter)))) = Some (Ok topo)
    /\ NoDup topo /\ (forall x, x ∈ topo <-> grounded m x) /\ parents_first m topo.
Proof using Hiter.
  set (roots := sort_ids m (l_roots (link_all m iter))).
  assert (Hroots : forall x, x ∈ roots <-> root m x)
    by (intros x; unfold roots; by rewrite elem_of_sort_ids, elem_of_roots).
  assert (Hinit : bfs_inv m [] roots (list_to_set roots)).
  { split; simpl.
    - apply NoDup_sort_ids. by apply NoDup_roots.
    - intros x. by rewrite elem_of_list_to_set.
    - intros x Hx. by apply grounded_root, Hroots.
    - intros x Hx. by apply Hroots.
    - set_solver.
    - intros c p Hc%Hroots Hp. by destruct (root_no_edge m c p).
    - intros l1 x l2 p Heq Hp. destruct (root_no_edge m x p); [|done].
      apply Hroots. rewrite Heq. set_solver. }
  destruct (bfs_run m (sort_ids m <$> l_children (link_all m iter))) with
    (fuel := S (size m)) (topo := @nil Z) (queue := roots)
    (seen := list_to_set roots : gset Z) as (topo & seen & Hbfs & Hinv).
  - intros p c. rewrite sorted_kids, elem_of_sort_ids. by apply elem_of_kids.
  - intros p. rewrite sorted_kids, NoDup_sort_ids. by apply NoDup_kids.
  - done.
  - simpl. lia.
  - apply bfs_inv_done in Hinv. by exists topo.
Qed.
End walk.

(** ** Outcome of [build] *)

(** Some revision is its own proper ancestor. *)
Definition lineage_cycle (rows : list RevisionMeta) : Prop :=
  exists x, tc (parent_edge (rows_map rows)) x x.

Definition all_grounded (m : gmap Z RevisionMeta) : Prop :=
  forall x, is_Some (m !! x) -> grounded m x.

Lemma grounded_acyclic m x : grounded m x -> ~ tc (parent_edge m) x x.
Proof.
  induction 1 as [x Hx|c p Hc _ IH]; intros Ht.
  - inversion Ht; subst; eauto using root_no_edge.
  - apply IH. inversion Ht as [? ? Hcc|? q ? Hcq Hqc]; subst.
    + rewrite <- (parent_edge_fun _ _ _ _ Hcc Hc). by apply tc_once.
    + assert (q = p) as -> by eauto using parent_edge_fun. by eapply tc_r.
Qed.

Lemma parent_edge_in m c p : parent_edge m c p -> is_Some (m !! p).
Proof. by intros (? & ? & ? & ? & ?). Qed.

Lemma acyclic_grounded m :
  (forall x, ~ tc (parent_edge m) x x) -> all_grounded m.
Proof.
  intros Hac x Hx.
  assert (Hsn : sn (parent_edge m) x).
  { apply tc_finite_sn; [intros y; by apply Hac|].
    apply (pred_finite_set (C := gset Z)). exists (dom m). intros y Hy.
    apply elem_of_dom. induction Hy; eauto using parent_edge_in. }
  induction Hsn as [x _ IH].
  destruct (root_or_edge m x Hx) as [Hr|[p Hp]]; [by apply grounded_root|].
  apply (grounded_child m x p Hp), IH; [done|]. by apply parent_edge_in in Hp.
Qed.

Section outcome.
Context (m : gmap Z RevisionMeta) (iter : list (Z * RevisionMeta)).
Context (Hiter : iter ≡ₚ map_to_list m).

Lemma build_from_ok :
  all_grounded m ->
  exists topo, build_from iter m =
      Some (Ok (assemble m (link_all m iter) (sort_ids m <$> l_children (link_all m iter)) topo))
    /\ NoDup topo /\ (forall x, x ∈ topo <-> is_Some (m !! x)) /\ parents_first m topo.
Proof using Hiter.
  intros Hall. destruct (bfs_total m iter Hiter) as (topo & Hbfs & Hnd & Hin & Hfirst).
  assert (Hin' : forall x, x ∈ topo <-> is_Some (m !! x)).
  { intros x. rewrite Hin. split; [apply grounded_in|apply Hall]. }
  exists topo. split_and!; [|done..].
  unfold build_from. rewrite Hbfs, bool_decide_eq_true_2; [done|].
  rewrite <- size_dom, <- (size_list_to_set (C := gset Z) topo Hnd). f_equal.
  apply set_eq. intros x. by rewrite elem_of_list_to_set, elem_of_dom.
Qed.

Lemma build_from_cycle :
  ~ all_grounded m -> build_from iter m = Some (Err (Corrupted UnreachableComponent)).
Proof using Hiter.
  intros Hn. destruct (bfs_total m iter Hiter) as (topo & Hbfs & Hnd & Hin & _).
  unfold build_from. rewrite Hbfs, bool_decide_eq_false_2; [done|].
  intros Hlen. apply Hn. intros x Hx%elem_of_dom. apply Hin.
  rewrite <- size_dom, <- (size_list_to_set (C := gset Z) topo Hnd) in Hlen.
  assert (Heq : (list_to_set topo : gset Z) = dom m).
  { apply set_subseteq_size_eq; [|lia].
    intros y Hy%elem_of_list_to_set%Hin. by apply elem_of_dom, grounded_in. }
  rewrite <- Heq in Hx. by apply elem_of_list_to_set in Hx.
Qed.
End outcome.

Lemma build_inv rows g :
  build rows = Some (Ok g) ->
  NoDup (revision_id <$> rows) /\
  exists topo,
    let m := rows_map rows in
    let lk := link_all m (map_to_list m) in
    g = assemble m lk (sort_ids m <$> l_children lk) topo
    /\ NoDup topo /\ (forall x, x ∈ topo <-> is_Some (m !! x)) /\ parents_first m topo.
Proof.
  unfold build. destruct (decide (NoDup (revision_id <$> rows))) as [Hnd|Hnd];
    [|by rewrite index_rows_dup].
  rewrite index_rows_ok by done. intros Hb. split; [done|].
  destruct (bfs_total (rows_map rows) (map_to_list (rows_map rows)) ltac:(done))
    as (topo & Hbfs & Hnd' & Hin & Hfirst).
  unfold build_from in Hb. rewrite Hbfs in Hb. case_bool_decide as Hlen; [|done].
  injection Hb as <-. exists topo. split_and!; [done|done| |done].
  intros x. rewrite Hin. split; [apply grounded_in|]. intros Hx%elem_of_dom.
  rewrite <- size_dom, <- (size_list_to_set (C := gset Z) topo Hnd') in Hlen.
  assert (Heq : (list_to_set topo : gset Z) = dom (rows_map rows)).
  { apply set_subseteq_size_eq; [|lia].
    intros y Hy%elem_of_list_to_set%Hin. by apply elem_of_dom, grounded_in. }
  rewrite <- Heq in Hx. apply elem_of_list_to_set in Hx. by apply Hin.
Qed.

(** ** Positions and rows of a topological order *)

Lemma positions_lookup topo id i :
  NoDup topo -> positions topo !! id = Some i <-> topo !! i = Some id.
Proof.
  intros Hnd. unfold positions. rewrite <- elem_of_list_to_map.
  - rewrite list_elem_of_lookup. split.
    + intros (j & Hj). apply lookup_zip_Some in Hj as [Hj Hs].
      apply lookup_seq in Hs as [-> _]. done.
    + intros Hi. exists i. apply lookup_zip_Some. split; [done|].
      apply lookup_seq. split; [done|]. by eapply lookup_lt_Some.
  - rewrite fst_zip; [done|]. by rewrite length_seq.
Qed.

Section rows_of.
Context (m : gmap Z RevisionMeta) (topo : list Z).
Context (Hkeyed : forall id row, m !! id = Some row -> revision_id row = id).
Context (Hin : forall x, x ∈ topo -> is_Some (m !! x)).

Lemma rows_of_ids : revision_id <$> omap (fun id => m !! id) topo = topo.
Proof using Hkeyed Hin.
  induction topo as [|x l IH]; [done|].
  destruct (Hin x ltac:(set_solver)) as [row Hrow]. csimpl. rewrite Hrow, fmap_cons.
  rewrite (Hkeyed x row Hrow), IH; [done|]. intros y Hy. apply Hin. set_solver.
Qed.

Lemma rows_of_lookup i : omap (fun id => m !! id) topo !! i = topo !! i ≫= fun id => m !! id.
Proof using Hkeyed Hin.
  revert i. induction topo as [|x l IH]; intros i; [done|].
  destruct (Hin x ltac:(set_solver)) as [row Hrow]. simpl. rewrite Hrow.
  destruct i; simpl; [done|]. apply IH. intros y Hy. apply Hin. set_solver.
Qed.
End rows_of.

(** ** The graph that [build] returns *)

Section built.
Context (rows : list RevisionMeta) (g : RevisionGraph) (Hb : build rows = Some (Ok g)).
Notation m := (rows_map rows).

Lemma built_nodup : NoDup (revision_id <$> rows).
Proof using Hb. by apply build_inv in Hb as [? _]. Qed.

Lemma built_lookup id row : m !! id = Some row <-> row ∈ rows /\ revision_id row = id.
Proof using Hb. apply rows_map_lookup, built_nodup. Qed.

Lemma built_revisions_ids x : x ∈ revision_id <$> revisions g <-> is_Some (m !! x).
Proof using Hb.
  apply build_inv in Hb as (_ & topo & -> & _ & Hin & _). simpl.
  rewrite rows_of_ids; [done|apply rows_map_keyed|]. intros y. apply Hin.
Qed.

Lemma built_revisions_perm : revisions g ≡ₚ rows.
Proof using Hb.
  pose proof built_nodup as Hnd.
  apply NoDup_Permutation; [|by eapply NoDup_fmap_1|].
  - apply (NoDup_fmap_1 revision_id).
    apply build_inv in Hb as (_ & topo & -> & Hndt & Hin & _). simpl.
    rewrite rows_of_ids; [done|apply rows_map_keyed|]. intros y. apply Hin.
  - intros row. split.
    + intros Hr. apply build_inv in Hb as (_ & topo & -> & _ & _ & _). simpl in Hr.
      apply list_elem_of_omap in Hr as (id & _ & Hid). by apply rows_map_lookup in Hid as [? _].
    + intros Hr. assert (Hm : m !! revision_id row = Some row) by by apply built_lookup.
      apply build_inv in Hb as (_ & topo & -> & _ & Hin & _). simpl.
      apply list_elem_of_omap. exists (revision_id row). split; [|done]. apply Hin. by exists row.
Qed.

Lemma built_get id : get g id = m !! id.
Proof using Hb.
  apply build_inv in Hb as (_ & topo & -> & Hndt & Hin & _). unfold get. simpl.
  destruct (positions topo !! id) as [i|] eqn:E; simpl.
  - apply positions_lookup in E; [|done]. rewrite rows_of_lookup; [by rewrite E|apply rows_map_keyed|].
    intros y. apply Hin.
  - symmetry. apply eq_None_not_Some. intros Hs%Hin%list_elem_of_lookup.
    destruct Hs as [i Hi]. apply positions_lookup in Hi; [congruence|done].
Qed.

Lemma built_by_id id : is_Some (by_id g !! id) <-> is_Some (m !! id).
Proof using Hb.
  apply build_inv in Hb as (_ & topo & -> & Hndt & Hin & _). simpl. rewrite <- Hin. split.
  - intros [i Hi]. apply positions_lookup in Hi; [|done]. by eapply list_elem_of_lookup_2.
  - intros [i Hi]%list_elem_of_lookup. exists i. by apply positions_lookup.
Qed.

Lemma built_parents c p : parents g !! c = Some p <-> parent_edge m c p.
Proof using Hb.
  apply build_inv in Hb as (_ & topo & -> & _). simpl. by apply lookup_parents.
Qed.

Lemma built_children c p : c ∈ children_of g p <-> parent_edge m c p.
Proof using Hb.
  apply build_inv in Hb as (_ & topo & -> & _). unfold children_of. simpl.
  rewrite sorted_kids, elem_of_sort_ids. by apply elem_of_kids.
Qed.

Lemma built_is_head row :
  is_head (children g) row = true <->
  superseded_by row = None /\ children_of g (revision_id row) = [].
Proof.
  unfold is_head, children_of. rewrite andb_true_iff, bool_decide_eq_true.
  destruct (children g !! revision_id row); simpl; [by rewrite bool_decide_eq_true|tauto].
Qed.

Lemma built_children_nil id :
  children_of g id = [] <-> forall c, ~ parent_edge m c id.
Proof using Hb.
  split.
  - intros Hn c Hc%built_children. rewrite Hn in Hc. set_solver.
  - intros Hn. destruct (children_of g id) as [|c l] eqn:E; [done|].
    exfalso. apply (Hn c), built_children. rewrite E. set_solver.
Qed.

Lemma built_heads id :
  id ∈ heads g <->
  exists row, row ∈ rows /\ revision_id row = id /\ superseded_by row = None
    /\ forall c, ~ parent_edge m c id.
Proof using Hb.
  assert (Hh : heads g = sort_ids m (revision_id <$>
                filter (fun row => is_head (children g) row = true) (revisions g))).
  { apply build_inv in Hb as (_ & topo & -> & _). done. }
  rewrite Hh, elem_of_sort_ids, list_elem_of_fmap. split.
  - intros (row & -> & [Hrow Hin]%list_elem_of_filter).
    rewrite built_revisions_perm in Hin. apply built_is_head in Hrow as [Hs Hc].
    rewrite built_children_nil in Hc. eauto 10.
  - intros (row & Hin & <- & Hs & Hc). exists row. split; [done|].
    rewrite list_elem_of_filter, built_revisions_perm, built_is_head, built_children_nil. done.
Qed.

Lemma built_heads_sorted : StronglySorted (key_le m) (heads g) /\ NoDup (heads g).
Proof using Hb.
  pose proof built_revisions_perm as Hp. pose proof built_nodup as Hnd.
  rewrite <- Hp in Hnd.
  apply build_inv in Hb as (_ & topo & -> & _). simpl in *. split.
  - apply merge_sort_sorted; apply _.
  - apply NoDup_sort_ids, NoDup_fmap_filter, Hnd.
Qed.

Lemma built_parents_first :
  parents_first m (revision_id <$> revisions g).
Proof using Hb.
  apply build_inv in Hb as (_ & topo & -> & _ & Hin & Hf). simpl.
  rewrite rows_of_ids; [done|apply rows_map_keyed|]. intros y. apply Hin.
Qed.
End built.

(** ** Maximum id *)

Lemma max_id_spec ids best :
  match max_id ids best with
  | None => ids = [] /\ best = None
  | Some h => (h ∈ ids \/ best = Some h)
              /\ (forall x, x ∈ ids \/ best = Some x -> x <= h)
  end.
Proof.
  revert best; induction ids as [|id ids IH]; intros best; simpl.
  { destruct best as [b|]; [|done]. split; [by right|]. intros x [Hx|[= ->]]; [set_solver|lia]. }
  set (best' := match best with None => Some id | Some b => if b <=? id then Some id else Some b end).
  assert (Hb' : exists b', best' = Some b' /\ id <= b' /\ (b' = id \/ best = Some b')
                           /\ forall b, best = Some b -> b <= b').
  { unfold best'. destruct best as [b|]; [|naive_solver lia].
    destruct (b <=? id) eqn:E; zbool; eexists; naive_solver lia. }
  destruct Hb' as (b' & Hb' & Hle & Hor & Hmax). specialize (IH best').
  destruct (max_id ids best') as [h|]; [|by destruct IH; congruence].
  destruct IH as [Hh Hall]. rewrite Hb' in *. split.
  - destruct Hh as [Hh|[= ->]]; [left; set_solver|]. destruct Hor as [->|]; [left; set_solver|by right].
  - intros x Hx. assert (b' <= h) by (apply Hall; by right).
    destruct Hx as [[->|Hx]%elem_of_cons|Hx]; [lia|apply Hall; by left|].
    specialize (Hmax x Hx). lia.
Qed.

Lemma canonical_head_max g h :
  canonical_head g = Some h <-> h ∈ heads g /\ forall h', h' ∈ heads g -> h' <= h.
Proof.
  unfold canonical_head. pose proof (max_id_spec (heads g) None) as Hs. split.
  - intros Hh. rewrite Hh in Hs. destruct Hs as [[?|?] Hall]; [|done]. split; [done|].
    intros h' Hh'. apply Hall. by left.
  - intros [Hin Hmax]. destruct (max_id (heads g) None) as [k|].
    + destruct Hs as [[Hk|?] Hall]; [|done]. f_equal. specialize (Hmax k Hk).
      specialize (Hall h (or_introl Hin)). lia.
    + destruct Hs as [Hn _]. rewrite Hn in Hin. set_solver.
Qed.

Lemma canonical_head_None g : canonical_head g = None <-> heads g = [].
Proof.
  unfold canonical_head. pose proof (max_id_spec (heads g) None) as Hs. split.
  - intros Hn. rewrite Hn in Hs. tauto.
  - intros Hn. by rewrite Hn.
Qed.

(** ** Lineages *)

(** [lineage m id l]: [l] is the chain from [id] up to its root. *)
Inductive lineage (m : gmap Z RevisionMeta) : Z -> list Z -> Prop :=
| lineage_root id : root m id -> lineage m id [id]
| lineage_step c p l : parent_edge m c p -> lineage m p l -> lineage m c (c :: l).

Lemma lineage_elem m id l x : lineage m id l -> x ∈ l <-> rtc (parent_edge m) id x.
Proof.
  induction 1 as [id Hr|c p l Hc Hl IH].
  - rewrite list_elem_of_singleton. split; [by intros ->|].
    inversion 1 as [|? y]; subst; [done|]. by destruct (root_no_edge m id y).
  - rewrite elem_of_cons, IH. split.
    + intros [->|Hx]; [done|]. by eapply rtc_l.
    + inversion 1 as [|? y ? Hy Hyx]; subst; [by left|].
      right. by rewrite (parent_edge_fun m c p y).
Qed.

Lemma lineage_fun m id l l' : lineage m id l -> lineage m id l' -> l = l'.
Proof.
  intros Hl; revert l'; induction Hl as [id Hr|c p l Hc Hl IH]; intros l' Hl'.
  - inversion Hl' as [|? q ? Hq]; subst; [done|]. by destruct (root_no_edge m id q).
  - inversion Hl' as [? Hr|? q k Hq Hk]; subst; [by destruct (root_no_edge m c p)|].
    f_equal. apply IH. by rewrite (parent_edge_fun m c p q).
Qed.

Lemma edges_antisymm m a b :
  all_grounded m -> rtc (parent_edge m) a b -> rtc (parent_edge m) b a -> a = b.
Proof.
  intros Hg Hab Hba. apply rtc_inv_r in Hba as [->|(c & Hbc & Hca)]; [done|].
  exfalso. assert (Hs : is_Some (m !! c)) by (destruct Hca as (x & ? & ?); by exists x).
  apply (grounded_acyclic m c (Hg c Hs)).
  destruct (proj1 (rtc_tc (R := parent_edge m) a c)) as [Heq|Ht]; [by etrans| |].
  - rewrite <- Heq in Hca |- *. by apply tc_once.
  - by apply (tc_l _ c a c).
Qed.

Section walks.
Context (m : gmap Z RevisionMeta) (ps : gmap Z Z).
Context (Hps : forall c p, ps !! c = Some p <-> parent_edge m c p).

Lemma ps_None c : ps !! c = None -> is_Some (m !! c) -> root m c.
Proof using Hps.
  intros Hn Hs. destruct (root_or_edge m c Hs) as [|[p Hp]]; [done|].
  apply Hps in Hp. congruence.
Qed.

(** A node at position [length l1] of a topological order needs that much
    fuel, and one more. *)
Lemma walk_up_spec l :
  parents_first m l -> (forall x, x ∈ l -> is_Some (m !! x)) ->
  forall fuel l1 x l2, l = l1 ++ x :: l2 -> (length l1 < fuel)%nat ->
  exists k, walk_up fuel ps x = Some k /\ lineage m x k.
Proof using Hps.
  intros Hfirst Hin fuel; induction fuel as [|fuel IH]; intros l1 x l2 Heq Hlen; [lia|].
  simpl. destruct (ps !! x) as [p|] eqn:E.
  - apply Hps in E. pose proof (Hfirst l1 x l2 p Heq E) as Hp.
    apply list_elem_of_split in Hp as (a & b & ->).
    destruct (IH a p (b ++ x :: l2)) as (k & -> & Hk).
    + rewrite Heq, <- app_assoc. done.
    + rewrite length_app in Hlen. simpl in Hlen. lia.
    + exists (x :: k). split; [done|by eapply lineage_step].
  - exists [x]. split; [done|]. apply lineage_root, ps_None; [done|].
    apply Hin. rewrite Heq. set_solver.
Qed.

Lemma walk_to_spec targets x k fuel :
  lineage m x k -> (length k <= fuel)%nat ->
  match walk_to fuel ps targets x with
  | None => False
  | Some None => forall y, y ∈ k -> y ∉ targets
  | Some (Some c) => c ∈ targets /\ rtc (parent_edge m) x c
      /\ forall d, d ∈ k -> d ∈ targets -> rtc (parent_edge m) c d
  end.
Proof using Hps.
  intros Hl; revert fuel; induction Hl as [x Hr|x p k Hx Hl IH]; intros [|fuel] Hlen;
    simpl in *; try lia.
  - case_bool_decide as Hx.
    + split_and!; [done..|]. intros d ->%list_elem_of_singleton _. done.
    + destruct (ps !! x) as [p|] eqn:E; [apply Hps in E; by destruct (root_no_edge m x p)|].
      intros y ->%list_elem_of_singleton. done.
  - case_bool_decide as Hxt.
    + split_and!; [done..|]. intros d Hd _. eapply (lineage_elem m x (x :: k)); [|done].
      by eapply lineage_step.
    + apply Hps in Hx as Hpx. rewrite Hpx. specialize (IH fuel ltac:(lia)).
      destruct (walk_to fuel ps targets p) as [[c|]|]; [|set_solver|done].
      destruct IH as (Hc & Hpc & Hlow). split_and!; [done|by eapply rtc_l|].
      intros d [->|Hd]%elem_of_cons Ht; [done|auto].
Qed.
End walks.

Section built_walks.
Context (rows : list RevisionMeta) (g : RevisionGraph) (Hb : build rows = Some (Ok g)).
Notation m := (rows_map rows).

Lemma walk_up_built id :
  is_Some (m !! id) ->
  exists k, walk_up (walk_fuel g) (parents g) id = Some k /\ lineage m id k
            /\ (length k <= length (revisions g))%nat.
Proof using Hb.
  intros Hs. pose proof (built_parents_first rows g Hb) as Hfirst.
  assert (Hin : forall x, x ∈ revision_id <$> revisions g -> is_Some (m !! x))
    by (intros x; by apply built_revisions_ids).
  apply (built_revisions_ids rows g Hb) in Hs.
  apply list_elem_of_split in Hs as (l1 & l2 & Heq).
  assert (Hlen : (length l1 < length (revisions g))%nat).
  { rewrite <- (length_fmap revision_id), Heq, length_app. simpl. lia. }
  destruct (walk_up_spec m (parents g) (built_parents rows g Hb) _ Hfirst Hin
              (length (revisions g)) l1 id l2 Heq Hlen) as (k & Hk & Hl).
  destruct (walk_up_spec m (parents g) (built_parents rows g Hb) _ Hfirst Hin
              (walk_fuel g) l1 id l2 Heq ltac:(unfold walk_fuel; lia)) as (k' & Hk' & Hl').
  exists k'. split_and!; [done..|]. rewrite (lineage_fun m id k' k) by done.
  clear -Hk. revert id k Hk. generalize (length (revisions g)) as n.
  induction n as [|n IH]; intros id k Hk; simpl in Hk; [done|].
  destruct (parents g !! id); [|injection Hk as <-; simpl; lia].
  destruct (walk_up n (parents g) z) eqn:E; [|done]. injection Hk as <-. simpl.
  apply IH in E. lia.
Qed.

Lemma built_all_grounded : all_grounded m.
Proof using Hb.
  intros x Hx. destruct (walk_up_built x Hx) as (k & _ & Hk & _).
  clear -Hk. induction Hk; [by apply grounded_root|by eapply grounded_child].
Qed.

Lemma ancestors_lineage id :
  is_Some (m !! id) -> exists k, ancestors g id = rev k /\ lineage m id k.
Proof using Hb.
  intros Hs. destruct (walk_up_built id Hs) as (k & Hk & Hl & _). exists k. split; [|done].
  unfold ancestors. apply (built_by_id rows g Hb) in Hs as [i ->]. by rewrite Hk.
Qed.

Lemma elem_of_ancestors id x :
  x ∈ ancestors g id <-> is_Some (m !! id) /\ rtc (parent_edge m) id x.
Proof using Hb.
  split.
  - intros Hx. assert (Hs : is_Some (m !! id)).
    { apply (built_by_id rows g Hb). unfold ancestors in Hx.
      destruct (by_id g !! id) eqn:E; [by eexists|set_solver]. }
    split; [done|]. destruct (ancestors_lineage id Hs) as (k & Hk & Hl).
    rewrite Hk, list_elem_of_In, <- in_rev, <- list_elem_of_In in Hx.
    by apply (lineage_elem m id k).
  - intros [Hs Hx]. destruct (ancestors_lineage id Hs) as (k & Hk & Hl).
    rewrite Hk, list_elem_of_In, <- in_rev, <- list_elem_of_In.
    by apply (lineage_elem m id k).
Qed.
End built_walks.

(** ** Results shared by the properties below *)

Lemma build_from_iter_eq m iter iter' :
  iter ≡ₚ map_to_list m -> iter' ≡ₚ map_to_list m -> build_from iter m = build_from iter' m.
Proof.
  intros Hi Hi'. assert (Hp : iter ≡ₚ iter') by by rewrite Hi, Hi'.
  assert (Hroots : sort_ids m (l_roots (link_all m iter)) =
                   sort_ids m (l_roots (link_all m iter'))).
  { apply sort_ids_perm_eq. rewrite !link_all_roots. by rewrite Hp. }
  assert (Hkids : sort_ids m <$> l_children (link_all m iter) =
                  sort_ids m <$> l_children (link_all m iter')).
  { apply map_eq. intros p. rewrite !lookup_fmap, !link_all_children.
    pose proof (kids_perm m iter iter' p Hp) as Hk.
    destruct (kids_in m iter p), (kids_in m iter' p); simpl.
    - done.
    - by apply Permutation_nil_cons in Hk.
    - symmetry in Hk. by apply Permutation_nil_cons in Hk.
    - f_equal. by apply sort_ids_perm_eq. }
  assert (Hpar : l_parents (link_all m iter) = l_parents (link_all m iter')).
  { apply map_eq. intros c. apply option_eq. intros p.
    rewrite (lookup_parents m iter Hi), (lookup_parents m iter' Hi'). done. }
  unfold build_from. rewrite Hroots, Hkids. unfold assemble. by rewrite Hpar.
Qed.

Lemma sorted_repeats {A} `{EqDecision A} (R : relation A) (l : list A) :
  StronglySorted R l -> ~ NoDup l -> exists x, R x x.
Proof.
  induction 1 as [|x l Hl IH Hx]; intros Hnd; [destruct Hnd; constructor|].
  destruct (decide (x ∈ l)) as [Hin|Hin].
  - exists x. rewrite Forall_forall in Hx. auto.
  - apply IH. intros Hl'. apply Hnd. by constructor.
Qed.

(** A row that is not grounded has arbitrarily long chains of ancestors
    above it; one longer than the graph repeats a row. *)
Lemma not_grounded_chain m n x :
  is_Some (m !! x) -> ~ grounded m x ->
  exists l, length l = n /\ StronglySorted (tc (parent_edge m)) (x :: l)
            /\ Forall (fun y => is_Some (m !! y)) (x :: l).
Proof.
  revert x; induction n as [|n IH]; intros x Hx Hng.
  { exists []. split; [done|]. split; repeat constructor. done. }
  destruct (root_or_edge m x Hx) as [Hr|[p Hp]]; [by destruct Hng; apply grounded_root|].
  destruct (IH p) as (l & Hlen & Hs & Hin).
  - by eapply parent_edge_in.
  - intros Hg. apply Hng. by eapply grounded_child.
  - exists (p :: l). split_and!; [simpl; lia| |by constructor].
    constructor; [done|]. apply StronglySorted_inv in Hs as [_ Hs].
    constructor; [by apply tc_once|]. eapply Forall_impl; [exact Hs|].
    intros y Hy. by eapply tc_l.
Qed.

Lemma not_grounded_cycle m x :
  is_Some (m !! x) -> ~ grounded m x -> exists y, tc (parent_edge m) y y.
Proof.
  intros Hx Hng. destruct (not_grounded_chain m (size m) x Hx Hng) as (l & Hlen & Hs & Hin).
  eapply sorted_repeats; [exact Hs|]. intros Hnd. rewrite Forall_forall in Hin.
  pose proof (NoDup_in_dom_length m _ Hnd Hin). simpl in *. lia.
Qed.

Lemma build_cases rows :
  (~ NoDup (revision_id <$> rows) /\ build rows = Some (Err (Corrupted DuplicateRevision)))
  \/ (NoDup (revision_id <$> rows) /\ lineage_cycle rows
      /\ build rows = Some (Err (Corrupted UnreachableComponent)))
  \/ (NoDup (revision_id <$> rows) /\ ~ lineage_cycle rows
      /\ exists g, build rows = Some (Ok g)).
Proof.
  unfold build. destruct (decide (NoDup (revision_id <$> rows))) as [Hnd|Hnd].
  2: { left. by rewrite index_rows_dup. }
  right. rewrite index_rows_ok by done. set (m := rows_map rows).
  destruct (bfs_total m (map_to_list m) ltac:(done)) as (topo & Hbfs & Hndt & Hin & _).
  assert (Hdec : all_grounded m \/ exists x, is_Some (m !! x) /\ ~ grounded m x).
  { destruct (decide (Forall (fun x => x ∈ topo) (map_to_list m).*1)) as [Hall|Hex].
    - left. intros x [row Hx]. apply Hin. rewrite Forall_forall in Hall. apply Hall.
      apply list_elem_of_fmap. exists (x, row). split; [done|]. by apply elem_of_map_to_list.
    - right. apply not_Forall_Exists in Hex; [|apply _].
      apply Exists_exists in Hex as (x & Hx & Hn). exists x. split; [|by rewrite <- Hin].
      apply list_elem_of_fmap in Hx as ([y row] & -> & Hy%elem_of_map_to_list). by exists row. }
  destruct Hdec as [Hall|(x & Hx & Hng)].
  - right. split_and!; [done| |].
    + intros [x Hx]. apply (grounded_acyclic m x); [|done]. apply Hall.
      clear -Hx. inversion Hx as [? ? Hc|? ? ? Hc _]; subst;
        destruct Hc as (r & ? & _); by exists r.
    + destruct (build_from_ok m (map_to_list m) ltac:(done) Hall) as (t & -> & _). eauto.
  - left. assert (Hna : ~ all_grounded m) by (intros Hall; by apply Hng, Hall).
    split_and!; [done| |by apply build_from_cycle].
    by apply (not_grounded_cycle m x).
Qed.

Lemma lineage_NoDup m id k : lineage m id k -> all_grounded m -> NoDup k.
Proof.
  intros Hl Hg. induction Hl as [id Hr|c p l Hc Hl IH]; [repeat constructor; set_solver|].
  constructor; [|done]. intros Hin. apply (lineage_elem m p l c Hl) in Hin.
  apply (grounded_acyclic m c).
  - apply Hg. destruct Hc as (r & ? & _). by exists r.
  - eapply tc_rtc_r; [by apply tc_once|done].
Qed.

Section common.
Context (rows : list RevisionMeta) (g : RevisionGraph) (Hb : build rows = Some (Ok g)).
Notation m := (rows_map rows).

Lemma edge_rtc_in a c : is_Some (m !! a) -> rtc (parent_edge m) a c -> is_Some (m !! c).
Proof. intros Ha. induction 1; eauto using parent_edge_in. Qed.

(** What [common_ancestor] computes, as one case analysis. *)
Lemma common_ancestor_spec a b :
  match common_ancestor g a b with
  | Some c => c ∈ ancestors g a /\ c ∈ ancestors g b
      /\ forall d, d ∈ ancestors g a -> d ∈ ancestors g b -> d ∈ ancestors g c
  | None => forall d, d ∈ ancestors g a -> d ∈ ancestors g b -> False
  end.
Proof using Hb.
  unfold common_ancestor. pose proof (elem_of_ancestors rows g Hb) as Hel.
  destruct (by_id g !! a) eqn:Ea.
  2: { intros d Hd _. unfold ancestors in Hd. rewrite Ea in Hd. set_solver. }
  destruct (by_id g !! b) eqn:Eb.
  2: { intros d _ Hd. unfold ancestors in Hd. rewrite Eb in Hd. set_solver. }
  apply mk_is_Some, (built_by_id rows g Hb) in Ea, Eb.
  case_bool_decide as Hab.
  { subst b. split_and!; try (by apply Hel). done. }
  destruct (walk_up_built rows g Hb b Eb) as (k & _ & Hk & Hlen).
  pose proof (walk_to_spec m (parents g) (built_parents rows g Hb)
    (list_to_set (ancestors g a)) b k (walk_fuel g) Hk ltac:(unfold walk_fuel; lia)) as Hw.
  assert (Hkb : forall d, d ∈ k <-> d ∈ ancestors g b).
  { intros d. rewrite Hel, (lineage_elem m b k d Hk). tauto. }
  destruct (walk_to _ _ _ _) as [[c|]|]; simpl; [| |done].
  - setoid_rewrite elem_of_list_to_set in Hw. destruct Hw as (Hca & Hbc & Hlow).
    split_and!; [done|by apply Hel|]. intros d Hda Hdb%Hkb. apply Hel. split; [|auto].
    by apply (edge_rtc_in b).
  - intros d Hda Hdb%Hkb. specialize (Hw d Hdb). by rewrite elem_of_list_to_set in Hw.
Qed.

Lemma common_ancestor_Some a b c :
  common_ancestor g a b = Some c <->
  c ∈ ancestors g a /\ c ∈ ancestors g b
  /\ forall d, d ∈ ancestors g a -> d ∈ ancestors g b -> d ∈ ancestors g c.
Proof using Hb.
  pose proof (common_ancestor_spec a b) as Hs. split; [intros H; by rewrite H in Hs|].
  intros (Ha & Hbb & Hlow). destruct (common_ancestor g a b) as [c'|].
  - destruct Hs as (Ha' & Hb' & Hlow'). f_equal.
    apply (edges_antisymm m); [by apply (built_all_grounded rows g)| |].
    + by apply (elem_of_ancestors rows g Hb), Hlow'.
    + by apply (elem_of_ancestors rows g Hb), Hlow.
  - by destruct (Hs c).
Qed.

Lemma common_ancestor_None a b :
  common_ancestor g a b = None <->
  forall d, d ∈ ancestors g a -> d ∈ ancestors g b -> False.
Proof using Hb.
  pose proof (common_ancestor_spec a b) as Hs. split; [intros H; by rewrite H in Hs|].
  intros Hn. destruct (common_ancestor g a b) as [c|]; [|done].
  destruct Hs as (? & ? & _). by destruct (Hn c).
Qed.
End common.

Lemma lineage_cycle_perm rows rows' :
  NoDup (revision_id <$> rows) -> rows ≡ₚ rows' ->
  lineage_cycle rows -> lineage_cycle rows'.
Proof. intros Hnd Hp. unfold lineage_cycle. by rewrite (rows_map_perm rows rows'). Qed.

(** The rows with every timestamp replaced. *)
Definition restamp_row (f : RevisionMeta -> Z) (row : RevisionMeta) : RevisionMeta :=
  mkRevisionMeta (revision_id row) (parent_revision_id row) (device_id row)
    (schema_version row) (f row) (is_tombstone row) (superseded_by row) (chain_anchor row).

Definition restamp (f : RevisionMeta -> Z) (rows : list RevisionMeta) : list RevisionMeta :=
  restamp_row f <$> rows.

Lemma restamp_ids f rows : revision_id <$> restamp f rows = revision_id <$> rows.
Proof. unfold restamp. by rewrite <- list_fmap_compose. Qed.

Lemma restamp_map f rows id :
  rows_map (restamp f rows) !! id = restamp_row f <$> rows_map rows !! id.
Proof.
  unfold rows_map, restamp. induction rows as [|row rows IH]; [done|]. csimpl.
  destruct (decide (id = revision_id row)) as [->|Hne].
  - simpl. rewrite !lookup_insert_eq. done.
  - simpl. rewrite !lookup_insert_ne by done. done.
Qed.

Lemma restamp_edge f rows c p :
  parent_edge (rows_map (restamp f rows)) c p <-> parent_edge (rows_map rows) c p.
Proof.
  unfold parent_edge. rewrite restamp_map.
  assert (Hs : is_Some (rows_map (restamp f rows) !! p) <-> is_Some (rows_map rows !! p))
    by by rewrite restamp_map, fmap_is_Some.
  setoid_rewrite Hs. destruct (rows_map rows !! c) as [row|]; simpl; naive_solver.
Qed.

Lemma restamp_cycle f rows : lineage_cycle (restamp f rows) <-> lineage_cycle rows.
Proof.
  unfold lineage_cycle. split; intros [x Hx]; exists x; revert Hx;
    apply tc_mono; intros a b; by rewrite restamp_edge.
Qed.

Lemma restamp_heads f rows g g' :
  build rows = Some (Ok g) -> build (restamp f rows) = Some (Ok g') ->
  forall id, id ∈ heads g' <-> id ∈ heads g.
Proof.
  intros Hb Hb' id. rewrite (built_heads _ _ Hb), (built_heads _ _ Hb').
  setoid_rewrite (restamp_edge f rows). unfold restamp. split.
  - intros (row & (r & -> & Hr)%list_elem_of_fmap & Hid & Hs & Hc). by exists r.
  - intros (r & Hr & Hid & Hs & Hc). exists (restamp_row f r). split_and!; try done.
    by apply list_elem_of_fmap_2.
Qed.

Lemma canonical_head_ext g g' :
  (forall id, id ∈ heads g' <-> id ∈ heads g) -> canonical_head g' = canonical_head g.
Proof.
  intros Hh. apply option_eq. intros h. rewrite !canonical_head_max. by setoid_rewrite Hh.
Qed.

(** The last row of a built graph is a leaf. *)
Lemma built_leaf rows g :
  build rows = Some (Ok g) -> rows <> [] ->
  exists row, row ∈ rows /\ forall c, ~ parent_edge (rows_map rows) c (revision_id row).
Proof.
  intros Hb Hne. pose proof (built_revisions_perm rows g Hb) as Hp.
  pose proof (built_parents_first rows g Hb) as Hf.
  pose proof (built_nodup rows g Hb) as Hnd. rewrite <- Hp in Hnd.
  destruct (revisions g) as [|row init _] eqn:E using rev_ind.
  { by apply Permutation_nil_l in Hp. }
  exists row. split; [rewrite <- Hp; set_solver|]. intros c Hc.
  rewrite fmap_app in Hf, Hnd. simpl in Hf, Hnd.
  assert (Hin : c ∈ revision_id <$> revisions g).
  { apply (built_revisions_ids rows g Hb). destruct Hc as (r & ? & _). by exists r. }
  rewrite E, fmap_app in Hin. simpl in Hin.
  apply NoDup_app in Hnd as (_ & Hdisj & _).
  apply (Hdisj (revision_id row)); [|set_solver].
  apply list_elem_of_split in Hin as (l1 & l2 & Heq).
  pose proof (Hf l1 c l2 (revision_id row) Heq Hc) as Hr1.
  destruct l2 as [|z l2 _] using rev_ind.
  - apply app_inj_tail in Heq as [-> _]. done.
  - rewrite app_comm_cons, app_assoc in Heq. apply app_inj_tail in Heq as [Hl _].
    rewrite Hl. set_solver.
Qed.

(** ** Properties *)

(** [RevisionGraph::build] always returns, and its result is decided by
    the rows alone: a repeated revision id is refused with
    [DuplicateRevision], distinct ids with a revision that is its own proper
    ancestor are refused with [UnreachableComponent], and every other list of
    rows (missing parents included) builds. *)
Theorem build_outcome rows :
  (build rows = Some (Err (Corrupted DuplicateRevision))
     <-> ~ NoDup (revision_id <$> rows))
  /\ (build rows = Some (Err (Corrupted UnreachableComponent))
     <-> NoDup (revision_id <$> rows) /\ lineage_cycle rows)
  /\ ((exists g, build rows = Some (Ok g))
     <-> NoDup (revision_id <$> rows) /\ ~ lineage_cycle rows)
  /\ is_Some (build rows).
Proof.
  destruct (build_cases rows) as [(H1 & ->)|[(H1 & H2 & ->)|(H1 & H2 & g & ->)]];
    split_and!; try done; naive_solver.
Qed.

(** The graph does not depend on the order in which the rows arrive, nor
    on the order in which step 2 enumerates its hash map: permuted rows and
    any enumeration give the same graph, field by field, or the same error. *)
Theorem build_order_independent rows rows' iter :
  rows ≡ₚ rows' ->
  NoDup (revision_id <$> rows) -> iter ≡ₚ map_to_list (rows_map rows) ->
  build rows = build rows' /\ build_from iter (rows_map rows) = build rows'.
Proof.
  intros Hp Hnd Hi. assert (Hnd' : NoDup (revision_id <$> rows')) by by rewrite <- Hp.
  unfold build. rewrite !index_rows_ok by done. rewrite <- (rows_map_perm rows rows') by done.
  split; [done|]. by apply build_from_iter_eq.
Qed.

(** A built graph holds exactly the given rows, parents before children;
    [get] finds each row by its id and nothing else; the parent and child
    indices are the two readings of one relation, the declared parent where
    that parent is a row of the graph. *)
Theorem build_topological rows g :
  build rows = Some (Ok g) ->
  revisions g ≡ₚ rows
  /\ (forall l1 c l2 p, revision_id <$> revisions g = l1 ++ c :: l2 ->
        parent_of g c = Some p -> p ∈ l1)
  /\ (forall id row, get g id = Some row <-> row ∈ rows /\ revision_id row = id)
  /\ (forall c p, parent_of g c = Some p <->
        exists row, get g c = Some row /\ parent_revision_id row = p
          /\ p <> GENESIS_PARENT /\ is_Some (get g p))
  /\ (forall c p, c ∈ children_of g p <-> parent_of g c = Some p).
Proof.
  intros Hb. split_and!.
  - by apply built_revisions_perm.
  - intros l1 c l2 p Heq Hp%(built_parents rows g Hb).
    by apply (built_parents_first rows g Hb l1 c l2 p Heq).
  - intros id row. rewrite (built_get rows g Hb). by apply built_lookup with g.
  - intros c p. unfold parent_of. rewrite (built_parents rows g Hb).
    unfold parent_edge. by setoid_rewrite (built_get rows g Hb).
  - intros c p. unfold parent_of. by rewrite (built_parents rows g Hb), (built_children rows g Hb).
Qed.

(** The heads are exactly the live leaves (a row not superseded that no
    row of the graph names as its parent), each once, in the order of
    creation time and then id; the account is forked when there are two. *)
Theorem heads_live_leaves rows g :
  build rows = Some (Ok g) ->
  (forall id, id ∈ heads g <->
     exists row, row ∈ rows /\ revision_id row = id /\ superseded_by row = None
       /\ forall c, c ∈ rows -> parent_revision_id c = id -> id = GENESIS_PARENT)
  /\ NoDup (heads g) /\ StronglySorted (key_le (rows_map rows)) (heads g)
  /\ (is_forked g = true <-> exists a b, a ∈ heads g /\ b ∈ heads g /\ a <> b).
Proof.
  intros Hb. destruct (built_heads_sorted rows g Hb) as [Hs Hnd]. split_and!; [|done|done|].
  - intros id. rewrite (built_heads rows g Hb).
    split; intros (row & Hr & Hid & Hsup & Hc); exists row; (split_and!; [done..|]).
    + intros c Hcin Hpar. destruct (decide (id = GENESIS_PARENT)); [done|].
      destruct (Hc (revision_id c)). exists c. rewrite !(built_lookup rows g Hb).
      split_and!; try done. exists row. by apply (built_lookup rows g Hb).
    + intros c (r & Hcr & Hpar & Hne & _). apply (built_lookup rows g Hb) in Hcr as [Hcr _].
      by apply Hne, (Hc r).
  - unfold is_forked. rewrite Z.ltb_lt. destruct (heads g) as [|a [|b l]]; simpl.
    + split; [lia|set_solver].
    + split; [lia|]. set_solver.
    + split; [|lia]. intros _. exists a, b. apply NoDup_cons in Hnd as [Hni _]. set_solver.
Qed.

(** [canonical_head] is the head with the greatest id, whatever the
    clocks say: replacing every [created_at] of the account still builds and
    leaves the canonical head unchanged.  There is one as soon as the account
    has a row and nothing is superseded; there is none exactly when there is
    no head. *)
Theorem canonical_head_clock_free rows g f :
  build rows = Some (Ok g) ->
  (forall h, canonical_head g = Some h <->
     h ∈ heads g /\ forall h', h' ∈ heads g -> h' <= h)
  /\ (exists g', build (restamp f rows) = Some (Ok g')
        /\ canonical_head g' = canonical_head g)
  /\ (canonical_head g = None <-> heads g = [])
  /\ (rows <> [] -> Forall (fun row => superseded_by row = None) rows ->
      is_Some (canonical_head g)).
Proof.
  intros Hb. split_and!.
  - intros h. apply canonical_head_max.
  - assert (Hok : NoDup (revision_id <$> rows) /\ ~ lineage_cycle rows)
      by (apply build_outcome; by exists g).
    rewrite <- (restamp_ids f), <- (restamp_cycle f) in Hok.
    apply build_outcome in Hok as [g' Hb']. exists g'. split; [done|].
    by apply canonical_head_ext, (restamp_heads f rows).
  - apply canonical_head_None.
  - intros Hne Hsup. destruct (built_leaf rows g Hb Hne) as (row & Hr & Hleaf).
    assert (Hh : revision_id row ∈ heads g).
    { apply (built_heads rows g Hb). exists row. rewrite Forall_forall in Hsup. auto. }
    destruct (canonical_head g) eqn:E; [done|]. apply canonical_head_None in E.
    rewrite E in Hh. set_solver.
Qed.

(** [path g k]: consecutive elements of [k] are parent and child. *)
Fixpoint path_down (g : RevisionGraph) (k : list RevisionId) : Prop :=
  match k with
  | p :: ((c :: _) as rest) => parent_of g c = Some p /\ path_down g rest
  | _ => True
  end.

Lemma path_down_snoc g k p c :
  path_down g (k ++ [p]) -> parent_of g c = Some p -> path_down g ((k ++ [p]) ++ [c]).
Proof.
  induction k as [|a k IH]; simpl; [done|].
  destruct k as [|b k]; simpl in *; [naive_solver|]. intros [H1 H2] H3.
  split; [done|by apply IH].
Qed.

Lemma lineage_path rows g id k :
  build rows = Some (Ok g) -> lineage (rows_map rows) id k ->
  path_down g (rev k) /\ last (rev k) = Some id
  /\ exists r, head (rev k) = Some r /\ parent_of g r = None.
Proof.
  intros Hb. induction 1 as [id Hr|c p l Hc Hl (IH1 & IH2 & r & IH3 & IH4)]; simpl.
  - split_and!; [done..|]. exists id. split; [done|]. unfold parent_of.
    destruct (parents g !! id) eqn:E; [|done]. apply (built_parents rows g Hb) in E.
    by destruct (root_no_edge _ _ _ Hr E).
  - apply (built_parents rows g Hb) in Hc. split_and!.
    + apply last_Some in IH2 as [l' Hl']. rewrite Hl' in *. by apply path_down_snoc.
    + by rewrite last_snoc.
    + exists r. split; [|done]. destruct (rev l); simpl in *; done.
Qed.

(** C40. The ancestor walk of a built graph always ends: for a revision of
    the graph [ancestors] is the path from a root down to the revision, it
    holds the revision and its transitive parents and nothing else; for any
    other id it is empty. *)
Theorem ancestors_path rows g id :
  build rows = Some (Ok g) ->
  (get g id = None -> ancestors g id = [])
  /\ (is_Some (get g id) ->
      path_down g (ancestors g id) /\ last (ancestors g id) = Some id
      /\ exists r, head (ancestors g id) = Some r /\ parent_of g r = None)
  /\ (forall x, x ∈ ancestors g id <->
        is_Some (get g id) /\ rtc (fun c p => parent_of g c = Some p) id x)
  /\ NoDup (ancestors g id).
Proof.
  intros Hb. rewrite (built_get rows g Hb).
  assert (Hrtc : forall x, rtc (fun c p => parent_of g c = Some p) id x
                           <-> rtc (parent_edge (rows_map rows)) id x).
  { intros x. unfold parent_of. split; apply rtc_subrel;
      intros c p; apply (built_parents rows g Hb). }
  split_and!.
  - intros Hn. unfold ancestors. destruct (by_id g !! id) eqn:E; [|done].
    apply mk_is_Some, (built_by_id rows g Hb) in E. rewrite Hn in E. by destruct E.
  - intros Hs. destruct (ancestors_lineage rows g Hb id Hs) as (k & -> & Hk).
    by apply (lineage_path rows).
  - intros x. rewrite Hrtc. by apply elem_of_ancestors.
  - destruct (ancestors g id) eqn:E; [constructor|]. rewrite <- E.
    assert (Hs : is_Some (rows_map rows !! id))
      by (apply (elem_of_ancestors rows g Hb id z); rewrite E; set_solver).
    destruct (ancestors_lineage rows g Hb id Hs) as (k & -> & Hk).
    rewrite <- Permutation_rev. by apply (lineage_NoDup (rows_map rows) id), (built_all_grounded rows g Hb).
Qed.

(** [common_ancestor] returns the lowest common ancestor: an id that is
    an ancestor of both revisions and below every other common ancestor, and
    it returns [None] only if a revision is missing or no ancestor is
    shared; it is symmetric. *)
Theorem common_ancestor_lowest rows g a b :
  build rows = Some (Ok g) ->
  (forall c, common_ancestor g a b = Some c <->
     c ∈ ancestors g a /\ c ∈ ancestors g b
     /\ forall d, d ∈ ancestors g a -> d ∈ ancestors g b -> d ∈ ancestors g c)
  /\ (common_ancestor g a b = None <->
      forall d, d ∈ ancestors g a -> d ∈ ancestors g b -> False)
  /\ common_ancestor g a b = common_ancestor g b a.
Proof.
  intros Hb. pose proof (common_ancestor_Some rows g Hb) as Hsome.
  split_and!; [apply Hsome|apply (common_ancestor_None rows g Hb)|].
  apply option_eq. intros c. rewrite !Hsome. naive_solver.
Qed.

(** ** Witnesses: an account with a two-way fork *)

Definition sample_row (id parent at_ms : Z) : RevisionMeta :=
  mkRevisionMeta id parent 7 1 at_ms false None None.

Definition fork_rows : list RevisionMeta :=
  [sample_row 3 1 30; sample_row 1 GENESIS_PARENT 10; sample_row 5 1 20; sample_row 4 3 40].

Definition fork_graph : RevisionGraph :=
  match build fork_rows with Some (Ok g) => g | _ => mkRevisionGraph [] ∅ ∅ [] None [] ∅ end.

Lemma build_fork_rows : build fork_rows = Some (Ok fork_graph).
Proof. vm_compute. reflexivity. Qed.

Lemma build_order_independent_witness :
  build fork_rows = build (reverse fork_rows)
  /\ build_from (reverse (map_to_list (rows_map fork_rows))) (rows_map fork_rows)
     = build (reverse fork_rows).
Proof.
  apply build_order_independent.
  - symmetry. apply reverse_Permutation.
  - apply (bool_decide_unpack _). by vm_compute.
  - apply reverse_Permutation.
Defined.

Lemma build_topological_witness :
  revisions fork_graph ≡ₚ fork_rows /\ parent_of fork_graph 4 = Some 3
  /\ children_of fork_graph 1 = [5; 3].
Proof.
  destruct (build_topological fork_rows fork_graph build_fork_rows) as (H & _).
  split_and!; [exact H|vm_compute; reflexivity|vm_compute; reflexivity].
Defined.

Lemma heads_live_leaves_witness :
  heads fork_graph = [5; 4] /\ NoDup (heads fork_graph) /\ is_forked fork_graph = true.
Proof.
  destruct (heads_live_leaves fork_rows fork_graph build_fork_rows) as (_ & Hnd & _).
  split_and!; [vm_compute; reflexivity|exact Hnd|vm_compute; reflexivity].
Defined.

Lemma canonical_head_clock_free_witness :
  canonical_head fork_graph = Some 5
  /\ exists g', build (restamp (fun _ => 99) fork_rows) = Some (Ok g')
       /\ canonical_head g' = canonical_head fork_graph.
Proof.
  destruct (canonical_head_clock_free fork_rows fork_graph (fun _ => 99) build_fork_rows)
    as (_ & H & _). split; [vm_compute; reflexivity|exact H].
Defined.

Lemma ancestors_path_witness :
  ancestors fork_graph 4 = [1; 3; 4] /\ NoDup (ancestors fork_graph 4).
Proof.
  destruct (ancestors_path fork_rows fork_graph 4 build_fork_rows) as (_ & _ & _ & H).
  split; [vm_compute; reflexivity|exact H].
Defined.

Lemma common_ancestor_lowest_witness :
  common_ancestor fork_graph 4 5 = Some 1
  /\ common_ancestor fork_graph 4 5 = common_ancestor fork_graph 5 4.
Proof.
  destruct (common_ancestor_lowest fork_rows fork_graph 4 5 build_fork_rows) as (_ & _ & H).
  split; [vm_compute; reflexivity|exact H].
Defined.
