(* ===== verification/SessionPolicy.v ===== *)
(** * Session policy

    crates/pangolin-store/src/session.rs (timing constants, the configurable
    idle duration, the proof traits and their stand-ins, the four-state
    session machine) and the session gate of vault.rs ([unlock], [lock],
    freshness checks, presence deduplication, [set_session_idle],
    [reveal_secret_field], [with_session]).

    The vault clock and the wall clock are streams of readings: the k-th call
    of [clock.now()] returns [clock k], the [SystemTime::now()] made next to
    it returns [wall k].  Nothing is assumed of either unless a theorem says
    so; they may run backwards.  The presence proof of a call is a shared
    cell ([&dyn PresenceProof] with interior mutability), so it is part of
    the world a call runs in. *)

From S2P Require Import Prelude StoreError.

(** ** Timing constants *)

Definition IDLE_TIMEOUT_DEFAULT : Z := from_secs (15 * 60).
Definition ABSOLUTE_MAX_DEFAULT : Z := from_secs (4 * 3600).
Definition PRESENCE_FRESHNESS : Z := from_secs 60.
Definition PROMPT_TIMEOUT : Z := from_secs 60.
Definition SESSION_IDLE_UNTIL_DEVICE_LOCK : Z := -1.

(** ** [SessionDuration] *)

Inductive SessionDuration : Type :=
| Min5 | Min15 | Min30 | Hour1 | Hour4 | UntilDeviceLock.

#[export] Instance SessionDuration_eq_dec : EqDecision SessionDuration.
Proof. solve_decision. Defined.

Definition SessionDuration_DEFAULT : SessionDuration := Min15.

Definition idle_window (d : SessionDuration) : option Z :=
  match d with
  | Min5 => Some (from_secs (5 * 60))
  | Min15 => Some (from_secs (15 * 60))
  | Min30 => Some (from_secs (30 * 60))
  | Hour1 => Some (from_secs (60 * 60))
  | Hour4 => Some (from_secs (4 * 3600))
  | UntilDeviceLock => None
  end.

Definition rank (d : SessionDuration) : Z :=
  match d with
  | Min5 => 0 | Min15 => 1 | Min30 => 2 | Hour1 => 3 | Hour4 => 4 | UntilDeviceLock => 5
  end.

Definition is_longer_than (d other : SessionDuration) : bool := rank other <? rank d.

Definition to_meta_secs (d : SessionDuration) : Z :=
  match idle_window d with
  | None => SESSION_IDLE_UNTIL_DEVICE_LOCK
  | Some w => default I64_MAX (i64_try_from (as_secs w))
  end.

Definition from_meta_secs (raw : option Z) : SessionDuration :=
  match raw with
  | Some (-1) => UntilDeviceLock
  | Some 300 => Min5
  | Some 900 => Min15
  | Some 1800 => Min30
  | Some 3600 => Hour1
  | Some 14400 => Hour4
  | None | Some _ => SessionDuration_DEFAULT
  end.

Definition try_from_meta_secs (raw : Z) : store_result SessionDuration :=
  let d := from_meta_secs (Some raw) in
  if to_meta_secs d =? raw then Ok d else Err (Validation "session_duration").

(** ** Proofs *)

Inductive AuthError : Type := Failed | PresenceAlreadyConsumed | NotFresh | Empty.

#[export] Instance AuthError_eq_dec : EqDecision AuthError.
Proof. solve_decision. Defined.

(** [impl From<AuthError> for StoreError]. *)
Definition from_auth_error (_ : AuthError) : StoreError := AuthenticationFailed.

(** [trait PresenceProof]: [verify] may update the proof's cells; [wall] is
    the [SystemTime::now()] it reads.  The law is what the callers rely on:
    a rejected proof is not used up. *)
Class PresenceProof (P : Type) := {
  presence_verify : Z -> P -> result AuthError unit * P;
  presence_freshness : P -> Z;
  presence_reject_keeps : forall wall p e p', presence_verify wall p = (Err e, p') -> p' = p
}.

(** [trait IdentityProof]. *)
Class IdentityProof (I : Type) := {
  identity_verify : I -> result AuthError unit;
  derive_secret : I -> result AuthError (list Z);
  identity_freshness : I -> Z
}.

Record PressYPresenceProof : Type := mkPressY {
  presence_created_at : Z;
  presence_consumed : bool
}.

Definition PressY_confirmed (now : Z) : PressYPresenceProof := mkPressY now false.

Definition PressY_verify (wall : Z) (p : PressYPresenceProof) :
    result AuthError unit * PressYPresenceProof :=
  if presence_consumed p then (Err PresenceAlreadyConsumed, p)
  else if PRESENCE_FRESHNESS <? duration_since wall (presence_created_at p) then (Err NotFresh, p)
  else (Ok tt, mkPressY (presence_created_at p) true).

#[export] Instance PressY_presence : PresenceProof PressYPresenceProof.
Proof.
  refine {| presence_verify := PressY_verify;
            presence_freshness := fun _ => PRESENCE_FRESHNESS |}.
  intros wall p e p'. unfold PressY_verify.
  destruct (presence_consumed p), (PRESENCE_FRESHNESS <? duration_since wall (presence_created_at p)); naive_solver.
Defined.

Record PinIdentityProof : Type := mkPin { pin : list Z }.

Definition Pin_verify (i : PinIdentityProof) : result AuthError unit :=
  match pin i with [] => Err Empty | _ => Ok tt end.
Definition Pin_derive_secret (i : PinIdentityProof) : result AuthError (list Z) :=
  match pin i with [] => Err Empty | bytes => Ok bytes end.

#[export] Instance Pin_identity : IdentityProof PinIdentityProof := {|
  identity_verify := Pin_verify;
  derive_secret := Pin_derive_secret;
  identity_freshness := fun _ => ABSOLUTE_MAX_DEFAULT
|}.

(** ** [SessionState] *)

Inductive SessionState : Type :=
| Locked
| PendingAuthorization
| Active (expires_at last_proof_at session_started_at : Z)
| Expired.

#[export] Instance SessionState_eq_dec : EqDecision SessionState.
Proof. solve_decision. Defined.

Definition is_active (s : SessionState) : bool :=
  match s with Active _ _ _ => true | _ => false end.

Definition next_idle_deadline (now session_started_at : Z) (idle : SessionDuration) : Z :=
  let abs_max_deadline :=
    default session_started_at (checked_add session_started_at ABSOLUTE_MAX_DEFAULT) in
  match idle_window idle with
  | None => abs_max_deadline
  | Some window => Z.min (default now (checked_add now window)) abs_max_deadline
  end.

(** [reveal_site_auth_error] of vault.rs. *)
Definition reveal_site_auth_error (e : AuthError) : StoreError :=
  match e with
  | NotFresh => PromptTimedOut
  | Failed | PresenceAlreadyConsumed | Empty => AuthenticationFailed
  end.

Definition REVISION_SCHEMA_VERSION_MAX : Z := 2.

(** What the session gate asks of the database: the row of
    [account_identities] by id. *)
Class AccountTable (Db : Type) := {
  frozen_pending_resolve : Db -> Z -> option Z;
  head_pointer : Db -> Z -> option Z
}.

(** [VdkChain] of vdk_chain.rs: the retained old-epoch keys and the epoch new
    writes are tagged with. *)
Record VdkChain (Key : Type) : Type := mkVdkChain {
  retained : gmap Z Key;
  current_epoch : Z
}.
Arguments mkVdkChain {Key} retained current_epoch.
Arguments retained {Key} v.
Arguments current_epoch {Key} v.

(** ** The vault handle *)

Section vault.
Context {Db Snapshot Key Index P : Type}.

(** [ActiveState]: the secrets and caches of an unlocked session. *)
Record ActiveState : Type := mkActiveState {
  vdk : Key;
  chain : VdkChain Key;
  cache : gmap Z Snapshot;
  search_index : Index;
  evm_wallet : Key;
  device_key : Key;
  last_presence_at : option Z;
  requires_upgrade : gset Z;
  window_started_at_unix_ms : option Z;
  window_elapsed_flush_enabled : bool;
  last_flush_failed_balance : bool;
  last_pull_at_unix_ms : option Z
}.

Record Vault : Type := mkVault {
  session_state : SessionState;
  active : option ActiveState;
  session_idle : SessionDuration;
  meta_session_idle_secs : option Z;
  vault_device_id : Z;
  db : Db
}.

(** The vault, the presence proof of the running call, and how many clock
    readings have been made. *)
Record World : Type := mkWorld { vault : Vault; presence : P; ticks : nat }.

Definition map_vault (f : Vault -> Vault) (w : World) : World :=
  mkWorld (f (vault w)) (presence w) (ticks w).
Definition set_presence (p : P) (w : World) : World := mkWorld (vault w) p (ticks w).

Definition set_session_state (s : SessionState) (v : Vault) : Vault :=
  mkVault s (active v) (session_idle v) (meta_session_idle_secs v) (vault_device_id v) (db v).
Definition set_active (a : option ActiveState) (v : Vault) : Vault :=
  mkVault (session_state v) a (session_idle v) (meta_session_idle_secs v) (vault_device_id v) (db v).
Definition set_idle (d : SessionDuration) (v : Vault) : Vault :=
  mkVault (session_state v) (active v) d (meta_session_idle_secs v) (vault_device_id v) (db v).
Definition set_meta_idle (m : option Z) (v : Vault) : Vault :=
  mkVault (session_state v) (active v) (session_idle v) m (vault_device_id v) (db v).
Definition set_device_id (d : Z) (v : Vault) : Vault :=
  mkVault (session_state v) (active v) (session_idle v) (meta_session_idle_secs v) d (db v).
Definition set_db (d : Db) (v : Vault) : Vault :=
  mkVault (session_state v) (active v) (session_idle v) (meta_session_idle_secs v)
          (vault_device_id v) d.
Definition set_last_presence (t : Z) (a : ActiveState) : ActiveState :=
  mkActiveState (vdk a) (chain a) (cache a) (search_index a) (evm_wallet a) (device_key a)
    (Some t) (requires_upgrade a) (window_started_at_unix_ms a)
    (window_elapsed_flush_enabled a) (last_flush_failed_balance a) (last_pull_at_unix_ms a).

Notation vop := (op World StoreError).

Context (clock wall : nat -> Z).

(** [self.clock.now()]. *)
Definition clock_now : vop Z :=
  fun w => (Ok (clock (ticks w)), mkWorld (vault w) (presence w) (S (ticks w))).

(** ** State transitions *)

Definition lock : vop unit :=
  modify (map_vault (fun v => set_session_state Locked (set_active None v))).

Definition require_active : vop ActiveState :=
  a ← gets (fun w => active (vault w)); lift (ok_or a NotUnlocked).

(** [self.active.take()] and the flip to [Expired]. *)
Definition expire : vop unit :=
  modify (map_vault (fun v => set_session_state Expired (set_active None v))).

Definition check_session_freshness : vop unit :=
  s ← gets (fun w => session_state (vault w));
  match s with
  | Active expires_at _ _ =>
      now ← clock_now;
      if expires_at <? now then expire ≫= fun _ => throw SessionExpired else mret tt
  | Locked => throw NotUnlocked
  | PendingAuthorization => throw SessionPending
  | Expired => throw SessionExpired
  end.

Definition maybe_expire_active_session : vop unit :=
  s ← gets (fun w => session_state (vault w));
  match s with
  | Active expires_at _ _ =>
      now ← clock_now; when (expires_at <? now) expire
  | _ => mret tt
  end.

Definition touch_session : vop unit :=
  v ← gets vault;
  match session_state v with
  | Active _ _ session_started_at =>
      now ← clock_now;
      modify (map_vault (set_session_state
        (Active (next_idle_deadline now session_started_at (session_idle v)) now
                session_started_at)))
  | _ => mret tt
  end.

Definition device_locked : vop unit :=
  s ← gets (fun w => session_state (vault w)); when (is_active s) expire.

(** [presence.verify().map_err(f)?]; the wall-clock reading it makes is the
    one next to the latest vault-clock reading. *)
Context `{!PresenceProof P}.

Definition verify_presence (f : AuthError -> StoreError) : vop unit :=
  fun w => let '(r, p) := presence_verify (wall (ticks w)) (presence w) in
           (map_err f r, set_presence p w).

Definition ensure_presence_fresh : vop unit :=
  now ← clock_now;
  a ← require_active;
  let fresh := match last_presence_at a with
               | Some last => duration_since now last <=? PRESENCE_FRESHNESS
               | None => false
               end in
  if fresh then mret tt
  else
    verify_presence reveal_site_auth_error ≫= fun _ =>
    a' ← require_active;
    modify (map_vault (set_active (Some (set_last_presence now a')))).

Definition touch_session_explicit : vop unit :=
  check_session_freshness ≫= fun _ => ensure_presence_fresh ≫= fun _ => touch_session.

(** [with_proof] is [presence.is_some()]. *)
Definition set_session_idle (choice : SessionDuration) (with_proof : bool) : vop unit :=
  v ← gets vault;
  (if is_longer_than choice (session_idle v) then
     if with_proof then
       match session_state v with
       | Active _ _ _ => check_session_freshness ≫= fun _ => ensure_presence_fresh
       | _ => verify_presence reveal_site_auth_error
       end
     else throw PresenceProofRequired
   else mret tt) ≫= fun _ =>
  modify (map_vault (fun v => set_idle choice (set_meta_idle (Some (to_meta_secs choice)) v)))
  ≫= fun _ =>
  s ← gets (fun w => session_state (vault w));
  match s with
  | Active _ _ session_started_at =>
      now ← clock_now;
      modify (map_vault (set_session_state
        (Active (next_idle_deadline now session_started_at choice) now session_started_at)))
  | _ => mret tt
  end.

(** ** Observers *)

Definition is_session_active (w : World) : bool :=
  match session_state (vault w) with
  | Active expires_at _ _ => clock (ticks w) <=? expires_at
  | _ => false
  end.

Definition session_remaining (w : World) : option Z :=
  match session_state (vault w) with
  | Active expires_at _ _ => Some (duration_since expires_at (clock (ticks w)))
  | _ => None
  end.

(** ** Credential reads *)

Context `{!AccountTable Db}.

Definition is_account_frozen (d : Db) (id : AccountId) : bool :=
  match frozen_pending_resolve d id with Some v => negb (v =? 0) | None => false end.

Definition refuse_if_frozen (id : AccountId) : vop unit :=
  d ← gets (fun w => db (vault w));
  if is_account_frozen d id then throw (AccountFrozenPendingResolve id) else mret tt.

Definition account_requires_upgrade (v : Vault) (id : AccountId) : bool :=
  match active v with Some a => bool_decide (id ∈ requires_upgrade a) | None => false end.

Definition refuse_if_requires_upgrade (id : AccountId) : vop unit :=
  v ← gets vault;
  if account_requires_upgrade v id then
    throw (UnsupportedRevisionSchemaVersion id (default 0 (head_pointer (db v) id))
             (REVISION_SCHEMA_VERSION_MAX + 1) REVISION_SCHEMA_VERSION_MAX)
  else mret tt.

Definition reveal_secret_field (id : AccountId) (extract : Snapshot -> list Z) :
    vop (list Z) :=
  check_session_freshness ≫= fun _ =>
  refuse_if_frozen id ≫= fun _ =>
  refuse_if_requires_upgrade id ≫= fun _ =>
  ensure_presence_fresh ≫= fun _ =>
  a ← require_active;
  snapshot ← lift (ok_or (cache a !! id) AccountNotFound);
  touch_session ≫= fun _ => mret (extract snapshot).

(** [with_session(op, reauth)]. *)
Definition with_session {T} (body : vop T) (reauth : vop unit) : vop T :=
  fun w =>
    match check_session_freshness w with
    | (Ok _, w1) => body w1
    | (Err SessionExpired, w1) =>
        (reauth ≫= fun _ => check_session_freshness ≫= fun _ => body) w1
    | (Err other, w1) => (Err other, w1)
    end.

(** ** [unlock]

    The steps below the session gate are parameters: the KDF and the key
    unwrap (pangolin-crypto, argon2 and the AEAD), the decryption of the
    live heads and the device registration. *)

Context {I : Type} `{!IdentityProof I}.
Context (derive_seed : Db -> list Z -> store_result Key)
        (unwrap_with : Db -> Key -> store_result Key)
        (build_on_unlock : Db -> Key -> store_result (VdkChain Key))
        (build_active_state_data :
           Db -> Key -> VdkChain Key -> store_result (gmap Z Snapshot * Index * gset Z))
        (load_or_register_device : Db -> Key -> Z -> store_result (Db * Z * Key))
        (derive_evm_wallet : Key -> option Key).

Definition unlock (identity : I) : vop unit :=
  verify_presence from_auth_error ≫= fun _ =>
  lift (map_err from_auth_error (identity_verify identity)) ≫= fun _ =>
  password ← lift (map_err from_auth_error (derive_secret identity));
  d ← gets (fun w => db (vault w));
  authority ← lift (derive_seed d password);
  key ← lift (unwrap_with d authority);
  old_keys ← lift (build_on_unlock d authority);
  '(snapshots, index, upgrade) ← lift (build_active_state_data d key old_keys);
  now ← clock_now;
  '(d', id, dev) ← lift (load_or_register_device d key now);
  modify (map_vault (fun v => set_device_id id (set_db d' v))) ≫= fun _ =>
  wallet ← lift (ok_or (derive_evm_wallet dev) (Corrupted WalletDerivation));
  modify (map_vault (fun v =>
    set_session_state (Active (next_idle_deadline now now (session_idle v)) now now)
      (set_active (Some (mkActiveState key old_keys snapshots index wallet dev (Some now)
                           upgrade None false false None)) v))).

End vault.

Arguments ActiveState : clear implicits.
Arguments Vault : clear implicits.
Arguments World : clear implicits.

(** ** Calls *)

Section executions.
Context {Db Snapshot Key Index P I : Type}.
Context `{!AccountTable Db} `{!PresenceProof P} `{!IdentityProof I}.
Context (clock wall : nat -> Z).
Context (derive_seed : Db -> list Z -> store_result Key)
        (unwrap_with : Db -> Key -> store_result Key)
        (build_on_unlock : Db -> Key -> store_result (VdkChain Key))
        (build_active_state_data :
           Db -> Key -> VdkChain Key -> store_result (gmap Z Snapshot * Index * gset Z))
        (load_or_register_device : Db -> Key -> Z -> store_result (Db * Z * Key))
        (derive_evm_wallet : Key -> option Key).

Notation W := (World Db Snapshot Key Index P).
Notation vop := (op W StoreError).
Notation unlock := (unlock clock wall derive_seed unwrap_with build_on_unlock
                      build_active_state_data load_or_register_device derive_evm_wallet).

(** A call on the vault handle.  [CGate] is the frame of the remaining
    credential operations (freshness check, body, touch). *)
Inductive Call : Type :=
| CUnlock (identity : I)
| CLock
| CDeviceLocked
| CSetIdle (choice : SessionDuration) (with_proof : bool)
| CTouch
| CMetadata
| CReveal (id : AccountId) (extract : Snapshot -> list Z)
| CGate.

Definition run_call (c : Call) : vop (list Z) :=
  match c with
  | CUnlock identity => unlock identity ≫= fun _ => mret []
  | CLock => lock ≫= fun _ => mret []
  | CDeviceLocked => device_locked ≫= fun _ => mret []
  | CSetIdle choice b => set_session_idle clock wall choice b ≫= fun _ => mret []
  | CTouch => touch_session_explicit clock wall ≫= fun _ => mret []
  | CMetadata => maybe_expire_active_session clock ≫= fun _ => mret []
  | CReveal id extract => reveal_secret_field clock wall id extract
  | CGate => check_session_freshness clock ≫= fun _ => touch_session clock ≫= fun _ => mret []
  end.

(** The calls that need an authorised session. *)
Definition credential (c : Call) : bool :=
  match c with CTouch | CReveal _ _ | CGate => true | _ => false end.

(** ** The session invariant

    Secrets are in memory only in the state [Active], and in that state unless they were
    [lost], as a failing rotation loses them; the deadline is at most four hours after one
    of the unlocks [us]. *)

Record session_ok (lost : bool) (us : list Z) (w : W) : Prop := {
  ok_active : is_Some (active (vault w)) -> is_active (session_state (vault w)) = true;
  ok_there : lost = false -> is_active (session_state (vault w)) = true -> is_Some (active (vault w));
  ok_deadline : forall e l s, session_state (vault w) = Active e l s ->
    s ∈ us /\ e <= s + ABSOLUTE_MAX_DEFAULT
}.

Lemma next_idle_deadline_max now s d : next_idle_deadline now s d <= s + ABSOLUTE_MAX_DEFAULT.
Proof.
  unfold next_idle_deadline, checked_add.
  assert (0 <= ABSOLUTE_MAX_DEFAULT) by (vm_compute; discriminate).
  destruct (s + ABSOLUTE_MAX_DEFAULT <=? SYSTEM_TIME_MAX); simpl;
    destruct (idle_window d); lia.
Qed.

Lemma session_ok_ext lost us us' (w w' : W) :
  session_ok lost us w -> session_state (vault w') = session_state (vault w) ->
  (is_Some (active (vault w')) <-> is_Some (active (vault w))) ->
  (forall x, x ∈ us -> x ∈ us') -> session_ok lost us' w'.
Proof.
  intros [H1 H2 H3] Hs Ha Hsub. split; rewrite Hs; [by rewrite Ha|intros Hl Hon; by apply Ha, H2|].
  intros e l s Heq. destruct (H3 e l s Heq). auto.
Qed.

Lemma session_ok_off lost us (w : W) :
  is_active (session_state (vault w)) = false -> active (vault w) = None -> session_ok lost us w.
Proof.
  intros H1 H2. split; [rewrite H2; by intros [? ?]|by rewrite H1|].
  intros e l s Hs. by rewrite Hs in H1.
Qed.

Lemma session_ok_active lost us (w : W) e l s :
  session_state (vault w) = Active e l s -> (lost = false -> is_Some (active (vault w))) -> s ∈ us ->
  e <= s + ABSOLUTE_MAX_DEFAULT -> session_ok lost us w.
Proof.
  intros Hs Ha Hin Hle. split; rewrite Hs; [done|by intros Hl _; apply Ha|]. intros ? ? ? [= -> -> ->]. done.
Qed.

Lemma session_ok_lose us (w : W) : session_ok false us w -> session_ok true us w.
Proof. intros [H1 _ H3]. by split. Qed.

Section preserved.
Context (lost : bool) (us : list Z).
Notation ok := (session_ok lost us).

Lemma clock_now_ok : preserves ok (clock_now clock : vop Z).
Proof. intros w Hw. by apply (session_ok_ext lost us us w). Qed.

Lemma expire_ok : preserves ok (expire : vop unit).
Proof. apply preserves_modify. intros w Hw. by apply session_ok_off. Qed.

Lemma lock_ok : preserves ok (lock : vop unit).
Proof. apply preserves_modify. intros w Hw. by apply session_ok_off. Qed.

Lemma verify_presence_ok f : preserves ok (verify_presence wall f : vop unit).
Proof.
  intros w Hw. unfold verify_presence. destruct (presence_verify _ _) as [[?|?] p]; simpl;
    by apply (session_ok_ext lost us us w).
Qed.

Lemma require_active_ok : preserves ok (require_active : vop _).
Proof. unfold require_active. preserve. Qed.

Hint Resolve clock_now_ok expire_ok lock_ok verify_presence_ok require_active_ok : pangolin.

Lemma check_session_freshness_ok : preserves ok (check_session_freshness clock : vop unit).
Proof. unfold check_session_freshness. preserve. Qed.

Lemma maybe_expire_ok : preserves ok (maybe_expire_active_session clock : vop unit).
Proof. unfold maybe_expire_active_session. preserve. Qed.

Lemma device_locked_ok : preserves ok (device_locked : vop unit).
Proof. unfold device_locked. preserve. Qed.

(** Re-deriving the deadline of the running session. *)
Lemma rederive_ok (w : W) e l s now d :
  ok w -> session_state (vault w) = Active e l s ->
  ok (map_vault (set_session_state (Active (next_idle_deadline now s d) now s)) w).
Proof.
  intros [H1 H2 H3] Hs. destruct (H3 e l s Hs) as [Hin _].
  eapply session_ok_active; [done| |done|apply next_idle_deadline_max].
  simpl. intros Hl. apply H2; [done|by rewrite Hs].
Qed.

Lemma touch_session_ok : preserves ok (touch_session clock : vop unit).
Proof.
  intros w Hw. unfold touch_session, gets, mbind, op_bind.
  destruct (session_state (vault w)) as [| |e l s|] eqn:Es; try done. simpl.
  by apply (rederive_ok (mkWorld (vault w) (presence w) (S (ticks w))) e l s);
    [apply (session_ok_ext lost us us w)|].
Qed.

Lemma ensure_presence_fresh_ok : preserves ok (ensure_presence_fresh clock wall : vop unit).
Proof.
  intros w Hw. unfold ensure_presence_fresh, clock_now, require_active, gets, mbind, op_bind, lift.
  simpl. destruct (active (vault w)) as [a|] eqn:Ea; simpl;
    [|by apply (session_ok_ext lost us us w); simpl; rewrite ?Ea].
  destruct (match last_presence_at a with Some _ => _ | None => _ end); simpl;
    [by apply (session_ok_ext lost us us w); simpl; rewrite ?Ea|].
  unfold verify_presence. destruct (presence_verify _ _) as [[?|?] p]; simpl;
    [|by apply (session_ok_ext lost us us w); simpl; rewrite ?Ea].
  rewrite Ea. simpl. apply (session_ok_ext lost us us w); simpl; rewrite ?Ea; try done.
Qed.

Hint Resolve check_session_freshness_ok maybe_expire_ok device_locked_ok touch_session_ok
  ensure_presence_fresh_ok : pangolin.

Lemma touch_session_explicit_ok : preserves ok (touch_session_explicit clock wall : vop unit).
Proof. unfold touch_session_explicit. preserve. Qed.

Lemma refuse_if_frozen_ok id : preserves ok (refuse_if_frozen id : vop unit).
Proof. unfold refuse_if_frozen. preserve. Qed.

Lemma refuse_if_requires_upgrade_ok id : preserves ok (refuse_if_requires_upgrade id : vop unit).
Proof. unfold refuse_if_requires_upgrade. preserve. Qed.

Hint Resolve touch_session_explicit_ok refuse_if_frozen_ok refuse_if_requires_upgrade_ok : pangolin.

Lemma reveal_ok id extract : preserves ok (reveal_secret_field clock wall id extract : vop _).
Proof. unfold reveal_secret_field. preserve. Qed.

Lemma set_session_idle_ok choice b : preserves ok (set_session_idle clock wall choice b : vop unit).
Proof.
  unfold set_session_idle. apply preserves_bind; [preserve|intros v].
  apply preserves_bind; [|intros _].
  { destruct (is_longer_than choice (session_idle v)), b; try destruct (session_state v); preserve. }
  apply preserves_bind; [|intros _].
  { apply preserves_modify. intros w Hw. by apply (session_ok_ext lost us us w). }
  intros w Hw. unfold gets, mbind, op_bind.
  destruct (session_state (vault w)) as [| |e l s|] eqn:Es; try done. simpl.
  by apply (rederive_ok (mkWorld (vault w) (presence w) (S (ticks w))) e l s);
    [apply (session_ok_ext lost us us w)|].
Qed.
End preserved.

(** ** [unlock] *)

(** The result of the steps of [unlock] after the two proof checks, as one
    expression over the database, the password and the clock reading. *)
Definition open_session (d : Db) (idle : SessionDuration) (old_id : Z) (password : list Z)
    (now : Z) : result StoreError (ActiveState Snapshot Key Index) * (Db * Z) :=
  match authority ← derive_seed d password;
        key ← unwrap_with d authority;
        old_keys ← build_on_unlock d authority;
        data ← build_active_state_data d key old_keys;
        Ok (key, old_keys, data) with
  | Err e => (Err e, (d, old_id))
  | Ok (key, old_keys, (snapshots, index, upgrade)) =>
      match load_or_register_device d key now with
      | Err e => (Err e, (d, old_id))
      | Ok (d', id, dev) =>
          (match derive_evm_wallet dev with
           | None => Err (Corrupted WalletDerivation)
           | Some wallet => Ok (mkActiveState key old_keys snapshots index wallet dev (Some now)
                                  upgrade None false false None)
           end, (d', id))
      end
  end.

(** [unlock] as a whole: the presence proof, then the identity proof, then
    [open_session]; only its success touches the session. *)
Lemma unlock_eq identity (w : W) :
  exists t, let now := clock (ticks w) in
  unlock identity w =
  match presence_verify (wall (ticks w)) (presence w) with
  | (Err _, p) => (Err AuthenticationFailed, set_presence p w)
  | (Ok _, p) =>
      match identity_verify identity, derive_secret identity with
      | Ok _, Ok password =>
          let v := vault w in
          match open_session (db v) (session_idle v) (vault_device_id v) password now with
          | (Err e, (d, id)) =>
              (Err e, mkWorld (set_device_id id (set_db d v)) p t)
          | (Ok a, (d, id)) =>
              (Ok tt, mkWorld (set_session_state
                                 (Active (next_idle_deadline now now (session_idle v)) now now)
                                 (set_active (Some a) (set_device_id id (set_db d v)))) p t)
          end
      | _, _ => (Err AuthenticationFailed, set_presence p w)
      end
  end.
Proof.
  destruct w as [v p0 n]. destruct v as [ss ac si ms di d].
  unfold SessionPolicy.unlock, verify_presence, open_session.
  unfold mbind, op_bind, result_bind, lift, gets, clock_now, modify; simpl.
  destruct (presence_verify (wall n) p0) as [[[]|e] p]; simpl; [|by exists n].
  destruct (identity_verify identity) as [[]|e]; simpl; [|by exists n].
  destruct (derive_secret identity) as [password|e]; simpl; [|by exists n].
  destruct (derive_seed d password) as [authority|e]; [|by exists n].
  destruct (unwrap_with d authority) as [key|e]; [|by exists n].
  destruct (build_on_unlock d authority) as [old_keys|e]; [|by exists n].
  destruct (build_active_state_data d key old_keys) as [[[snapshots index] upgrade]|e];
    [|by exists n].
  exists (S n). simpl. destruct (load_or_register_device d key (clock n)) as [[[d1 id] dev]|e]; simpl; [|done].
  by destruct (derive_evm_wallet dev).
Qed.

Lemma unlock_inv identity (w : W) r w' :
  unlock identity w = (r, w') ->
  match r with
  | Ok _ =>
      let now := clock (ticks w) in
      (exists p, presence_verify (wall (ticks w)) (presence w) = (Ok tt, p) /\ presence w' = p)
      /\ identity_verify identity = Ok tt /\ is_ok (derive_secret identity) = true
      /\ session_state (vault w') =
           Active (next_idle_deadline now now (session_idle (vault w))) now now
      /\ exists a, active (vault w') = Some a /\ last_presence_at a = Some now
  | Err _ =>
      session_state (vault w') = session_state (vault w) /\ active (vault w') = active (vault w)
      /\ session_idle (vault w') = session_idle (vault w)
  end.
Proof.
  destruct (unlock_eq identity w) as [t ->].
  destruct (presence_verify _ _) as [[[]|e] p] eqn:Ep; [|by intros [= <- <-]].
  destruct (identity_verify identity) as [[]|]; [|by intros [= <- <-]].
  destruct (derive_secret identity) as [pw|]; [|by intros [= <- <-]].
  unfold open_session.
  destruct (authority ← derive_seed _ _; _) as [[[key ret] [[sn ix] up]]|]; [|by intros [= <- <-]].
  destruct (load_or_register_device _ _ _) as [[[d id] dev]|]; [|by intros [= <- <-]].
  destruct (derive_evm_wallet dev); intros [= <- <-]; simpl; [|done].
  split_and!; try done; eauto.
Qed.

(** The freshness check, by the state it finds. *)
Lemma check_session_freshness_eq (w : W) :
  check_session_freshness clock w =
  match session_state (vault w) with
  | Active e _ _ =>
      let w1 := mkWorld (vault w) (presence w) (S (ticks w)) in
      if e <? clock (ticks w)
      then (Err SessionExpired,
            map_vault (fun v => set_session_state Expired (set_active None v)) w1)
      else (Ok tt, w1)
  | Locked => (Err NotUnlocked, w)
  | PendingAuthorization => (Err SessionPending, w)
  | Expired => (Err SessionExpired, w)
  end.
Proof.
  unfold check_session_freshness, gets, mbind, op_bind. destruct (session_state (vault w)); try done.
  simpl. destruct (expires_at <? clock (ticks w)) eqn:E; simpl; by rewrite ?E.
Qed.

Lemma check_session_freshness_Ok (w : W) u w1 :
  check_session_freshness clock w = (Ok u, w1) ->
  (exists e l s, session_state (vault w) = Active e l s /\ clock (ticks w) <= e)
  /\ w1 = mkWorld (vault w) (presence w) (S (ticks w)).
Proof.
  rewrite check_session_freshness_eq. destruct (session_state (vault w)) eqn:E; try done.
  simpl. destruct (expires_at <? clock (ticks w)) eqn:Ec; [done|]. intros [= <- <-]. zbool.
  split; [by do 3 eexists|done].
Qed.

Lemma run_call_credential c (w : W) b w' :
  credential c = true -> run_call c w = (Ok b, w') ->
  exists e l s, session_state (vault w) = Active e l s /\ clock (ticks w) <= e.
Proof.
  intros Hc Hr. assert (Hf : exists u w1, check_session_freshness clock w = (Ok u, w1)).
  { destruct c; simpl in *; try discriminate Hc;
      unfold touch_session_explicit, reveal_secret_field in Hr; op_inv; eauto. }
  destruct Hf as (u & w1 & Hf). by apply check_session_freshness_Ok in Hf as [? _].
Qed.

(** The clock readings at which a call unlocked the vault, and whether its secrets may be
    lost after it: an unlock puts them back. *)
Definition unlocked_at (c : Call) (ok : bool) (w : W) : list Z :=
  match c with CUnlock _ => if ok then [clock (ticks w)] else [] | _ => [] end.
Definition still_lost (c : Call) (ok lost : bool) : bool :=
  match c with CUnlock _ => if ok then false else lost | _ => lost end.

Lemma run_call_session_ok lost us c (w : W) r w' :
  session_ok lost us w -> run_call c w = (r, w') ->
  session_ok (still_lost c (is_ok r) lost) (us ++ unlocked_at c (is_ok r) w) w'.
Proof.
  intros Hok Hr. destruct c.
  { simpl in Hr. destruct (unlock identity w) as [r1 w1] eqn:Eu.
    pose proof (unlock_inv _ _ _ _ Eu) as Hu. destruct r1 as [[]|e].
    - rewrite (op_bind_run _ _ _ _ _ Eu) in Hr. injection Hr as <- <-. simpl.
      destruct Hu as (_ & _ & _ & Hs & a & Ha & _).
      eapply session_ok_active; [done|intros _; by eexists|set_solver|apply next_idle_deadline_max].
    - rewrite (op_bind_fail _ _ _ _ _ Eu) in Hr. injection Hr as <- <-. simpl.
      destruct Hu as (Hs & Ha & _). eapply session_ok_ext; [done..|by rewrite Ha|set_solver]. }
  all: simpl unlocked_at; simpl still_lost; rewrite app_nil_r;
    eapply (preserves_run (session_ok lost us)); [|done|exact Hr]; simpl.
  all: repeat first
    [ apply preserves_ret | apply lock_ok | apply device_locked_ok | apply set_session_idle_ok
    | apply touch_session_explicit_ok | apply maybe_expire_ok | apply reveal_ok
    | apply check_session_freshness_ok | apply touch_session_ok
    | apply preserves_bind; [|intros ?] ].
Qed.

(** ** Presence freshness and reveals *)

Definition presence_is_fresh (a : ActiveState Snapshot Key Index) (now : Z) : bool :=
  match last_presence_at a with
  | Some last => duration_since now last <=? PRESENCE_FRESHNESS
  | None => false
  end.

Lemma ensure_presence_fresh_eq (w : W) :
  let now := clock (ticks w) in
  let w1 := mkWorld (vault w) (presence w) (S (ticks w)) in
  ensure_presence_fresh clock wall w =
  match active (vault w) with
  | None => (Err NotUnlocked, w1)
  | Some a =>
      if presence_is_fresh a now then (Ok tt, w1)
      else match presence_verify (wall (S (ticks w))) (presence w) with
           | (Ok _, p) =>
               (Ok tt, map_vault (set_active (Some (set_last_presence now a))) (set_presence p w1))
           | (Err e, _) => (Err (reveal_site_auth_error e), w1)
           end
  end.
Proof.
  simpl. unfold ensure_presence_fresh, presence_is_fresh, clock_now, require_active, verify_presence,
    gets, lift, modify, mbind, op_bind. simpl.
  destruct (active (vault w)) as [a|] eqn:Ea; simpl; [|done].
  destruct (match last_presence_at a with Some _ => _ | None => _ end); [done|].
  destruct (presence_verify _ _) as [[[]|e] p] eqn:Ep; simpl.
  - by rewrite Ea.
  - by rewrite (presence_reject_keeps _ _ _ _ Ep).
Qed.

(** What a reveal needs, in the order the code checks it. *)
Record reveal_allowed (w : W) (id : AccountId) (extract : Snapshot -> list Z)
    (bytes : list Z) : Prop := {
  ra_session : exists e l s, session_state (vault w) = Active e l s /\ clock (ticks w) <= e;
  ra_frozen : is_account_frozen (db (vault w)) id = false;
  ra_upgrade : account_requires_upgrade (vault w) id = false;
  ra_read : exists a snapshot, active (vault w) = Some a /\ cache a !! id = Some snapshot
    /\ bytes = extract snapshot
    /\ (presence_is_fresh a (clock (S (ticks w))) = true
        \/ is_ok (presence_verify (wall (S (S (ticks w)))) (presence w)).1 = true)
}.

(** The touch that closes a call always succeeds. *)
Lemma touch_session_total (w : W) :
  exists w', touch_session clock w = (Ok tt, w') /\ presence w' = presence w
    /\ active (vault w') = active (vault w) /\ db (vault w') = db (vault w).
Proof.
  unfold touch_session, gets, mbind, op_bind.
  destruct (session_state (vault w)); eexists; split; try done; simpl; done.
Qed.

(** [reveal_secret_field] past the three refusals. *)
Lemma reveal_secret_field_step (w : W) id extract e l s a :
  session_state (vault w) = Active e l s -> clock (ticks w) <= e ->
  is_account_frozen (db (vault w)) id = false ->
  account_requires_upgrade (vault w) id = false -> active (vault w) = Some a ->
  reveal_secret_field clock wall id extract w =
  (ensure_presence_fresh clock wall ≫= fun _ =>
   a ← require_active;
   snapshot ← lift (ok_or (cache a !! id) AccountNotFound);
   touch_session clock ≫= fun _ => mret (extract snapshot))
    (mkWorld (vault w) (presence w) (S (ticks w))).
Proof.
  intros Hs Hle Hf Hu Ha. unfold reveal_secret_field.
  erewrite op_bind_run.
  2: { rewrite check_session_freshness_eq, Hs. simpl.
       replace (e <? clock (ticks w)) with false by (symmetry; apply Z.ltb_ge; lia). done. }
  set (w1 := mkWorld _ _ _).
  erewrite (op_bind_run (refuse_if_frozen id) _ w1 tt w1).
  2: { unfold refuse_if_frozen, gets, mbind, op_bind. simpl. by rewrite Hf. }
  erewrite (op_bind_run (refuse_if_requires_upgrade id) _ w1 tt w1).
  2: { unfold refuse_if_requires_upgrade, gets, mbind, op_bind. simpl. by rewrite Hu. }
  done.
Qed.

(** The tail of a reveal, once presence is established. *)
Lemma reveal_tail (w : W) a id (extract : Snapshot -> list Z) :
  active (vault w) = Some a ->
  exists w', presence w' = presence w /\
  (a0 ← require_active;
   snapshot ← lift (ok_or (cache a0 !! id) AccountNotFound);
   touch_session clock ≫= fun _ => mret (extract snapshot)) w =
  match cache a !! id with
  | Some snapshot => (Ok (extract snapshot), w')
  | None => (Err AccountNotFound, w')
  end.
Proof.
  intros Ha. erewrite (op_bind_run require_active _ w a w).
  2: { unfold require_active, gets, mbind, op_bind. simpl. by rewrite Ha. }
  destruct (cache a !! id) as [snapshot|]; [|by exists w].
  destruct (touch_session_total w) as (w' & Ht & Hp & _). exists w'. split; [done|].
  erewrite (op_bind_run (lift (ok_or (Some snapshot) AccountNotFound)) _ w snapshot w) by done.
  by rewrite (op_bind_run _ _ _ _ _ Ht).
Qed.

Lemma reveal_result (w : W) id extract e l s a :
  session_state (vault w) = Active e l s -> clock (ticks w) <= e ->
  is_account_frozen (db (vault w)) id = false ->
  account_requires_upgrade (vault w) id = false -> active (vault w) = Some a ->
  exists r w', reveal_secret_field clock wall id extract w = (r, w') /\
  if presence_is_fresh a (clock (S (ticks w)))
     || is_ok (presence_verify (wall (S (S (ticks w)))) (presence w)).1
  then r = ok_or (extract <$> cache a !! id) AccountNotFound
       /\ (presence_is_fresh a (clock (S (ticks w))) = true -> presence w' = presence w)
  else (r = Err PromptTimedOut \/ r = Err AuthenticationFailed) /\ presence w' = presence w.
Proof.
  intros Hs Hle Hf Hu Ha. rewrite (reveal_secret_field_step w id extract e l s a) by done.
  set (w1 := mkWorld _ _ _). pose proof (ensure_presence_fresh_eq w1) as He. simpl in He.
  rewrite Ha in He. destruct (presence_is_fresh a (clock (S (ticks w)))); simpl in *.
  - rewrite (op_bind_run _ _ _ _ _ He).
    destruct (reveal_tail (mkWorld (vault w) (presence w) (S (S (ticks w)))) a id extract Ha)
      as (w' & Hp & ->).
    destruct (cache a !! id); do 2 eexists; (split; [done|]); simpl; by rewrite Hp.
  - destruct (presence_verify (wall (S (S (ticks w)))) (presence w)) as [[[]|err] p]; simpl.
    + rewrite (op_bind_run _ _ _ _ _ He).
      match type of He with _ = (_, ?w2) =>
        destruct (reveal_tail w2 (set_last_presence (clock (S (ticks w))) a) id extract eq_refl)
          as (w' & Hp & ->) end.
      simpl. destruct (cache a !! id); do 2 eexists; (split; [done|]); simpl; done.
    + rewrite (op_bind_fail _ _ _ _ _ He). do 2 eexists. split; [done|].
      split; [destruct err; simpl; auto|done].
Qed.

(** The refusals come before the proof is looked at. *)
Lemma reveal_refused (w : W) id extract b w' :
  reveal_secret_field clock wall id extract w = (b, w') ->
  (exists e l s a, session_state (vault w) = Active e l s /\ clock (ticks w) <= e
     /\ is_account_frozen (db (vault w)) id = false
     /\ account_requires_upgrade (vault w) id = false /\ active (vault w) = Some a)
  \/ (is_ok b = false /\ presence w' = presence w).
Proof.
  unfold reveal_secret_field. rewrite (op_bind_eq (check_session_freshness clock)).
  rewrite check_session_freshness_eq.
  destruct (session_state (vault w)) as [| |e l s|] eqn:Es; try (intros [= <- <-]; by right).
  simpl. destruct (e <? clock (ticks w)) eqn:Ec; [intros [= <- <-]; by right|]. zbool.
  set (w1 := mkWorld _ _ _). rewrite op_bind_eq.
  assert (Hf : refuse_if_frozen id w1 =
    (if is_account_frozen (db (vault w)) id then (Err (AccountFrozenPendingResolve id), w1)
     else (Ok tt, w1))).
  { unfold refuse_if_frozen, gets, mbind, op_bind. simpl. by destruct (is_account_frozen _ _). }
  rewrite Hf. destruct (is_account_frozen _ _); [intros [= <- <-]; by right|].
  rewrite op_bind_eq.
  destruct (refuse_if_requires_upgrade id w1) as [r2 w2] eqn:Hu.
  unfold refuse_if_requires_upgrade, gets, mbind, op_bind in Hu. simpl in Hu.
  destruct (account_requires_upgrade _ _); injection Hu as <- <-; [intros [= <- <-]; by right|].
  destruct (active (vault w)) as [a|] eqn:Ea; [left; by do 4 eexists|].
  rewrite op_bind_eq, ensure_presence_fresh_eq. simpl. rewrite Ea. intros [= <- <-]. by right.
Qed.

(** The gate is the first thing a credential operation does. *)
Lemma credential_gate c (w : W) err w' :
  credential c = true -> check_session_freshness clock w = (Err err, w') ->
  run_call c w = (Err err, w').
Proof.
  intros Hc Hf. destruct c; try discriminate Hc; simpl.
  - apply op_bind_fail. unfold touch_session_explicit. by apply op_bind_fail.
  - unfold reveal_secret_field. by apply op_bind_fail.
  - by apply op_bind_fail.
Qed.

Lemma check_session_freshness_off (w : W) :
  is_active (session_state (vault w)) = false ->
  check_session_freshness clock w =
    (Err match session_state (vault w) with
         | Locked => NotUnlocked
         | PendingAuthorization => SessionPending
         | _ => SessionExpired end, w).
Proof. rewrite check_session_freshness_eq. by destruct (session_state (vault w)). Qed.

(** [set_session_idle] never activates a vault. *)
Lemma set_session_idle_off choice b :
  preserves (fun w : W => is_active (session_state (vault w)) = false)
    (set_session_idle clock wall choice b).
Proof.
  set (off := fun w : W => _).
  assert (Hv : forall f, preserves off (verify_presence wall f)).
  { intros f w Hw. unfold verify_presence. by destruct (presence_verify _ _) as [[?|?] ?]. }
  assert (Hc : preserves off (check_session_freshness clock)).
  { intros w Hw. rewrite check_session_freshness_eq. unfold off in Hw.
    destruct (session_state (vault w)) eqn:E; [..|discriminate Hw|]; try discriminate Hw;
      unfold off; by rewrite E. }
  assert (He : preserves off (ensure_presence_fresh clock wall)).
  { intros w Hw. rewrite ensure_presence_fresh_eq.
    destruct (active (vault w)); [|done]. destruct (presence_is_fresh _ _); [done|].
    by destruct (presence_verify _ _) as [[?|?] ?]. }
  unfold set_session_idle. apply preserves_bind; [apply preserves_gets|intros v].
  apply preserves_bind; [|intros _].
  { destruct (is_longer_than _ _), b; try destruct (session_state v); auto with pangolin.
    all: apply preserves_bind; auto. }
  apply preserves_bind; [by apply preserves_modify|intros _].
  intros w Hw. unfold gets, mbind, op_bind. unfold off in Hw.
  destruct (session_state (vault w)) eqn:E; try discriminate Hw; unfold off; simpl; by rewrite E.
Qed.

(** ** Properties *)

(** Without a live session nothing is read and no proof is used: on a
    [Locked], [Pending] or [Expired] vault every credential operation
    returns its session error and leaves the world as it was, and only
    [unlock] can make the vault active again; on an active session past its
    deadline it returns [SessionExpired], the secrets are dropped, the state
    is [Expired] and the proof is kept. *)
Theorem no_session_no_credential (w : W) c :
  (is_active (session_state (vault w)) = false ->
     (credential c = true ->
        run_call c w = (Err match session_state (vault w) with
                            | Locked => NotUnlocked
                            | PendingAuthorization => SessionPending
                            | _ => SessionExpired end, w))
     /\ (forall r w', run_call c w = (r, w') ->
          is_active (session_state (vault w')) = true ->
          exists identity, c = CUnlock identity /\ is_ok r = true))
  /\ (forall e l s, session_state (vault w) = Active e l s -> e < clock (ticks w) ->
        credential c = true ->
        exists w', run_call c w = (Err SessionExpired, w') /\ active (vault w') = None
          /\ session_state (vault w') = Expired /\ presence w' = presence w).
Proof.
  split; [intros Hoff; split|].
  - intros Hc. apply credential_gate; [done|by apply check_session_freshness_off].
  - intros r w' Hr Hon. destruct c; simpl in Hr.
    + rewrite op_bind_eq in Hr. destruct (unlock identity w) as [[u|err] w1] eqn:Hu.
      * injection Hr as <- <-. by exists identity.
      * injection Hr as <- <-. apply unlock_inv in Hu as (Hs & _). congruence.
    + by injection Hr as <- <-.
    + unfold device_locked, gets, mbind, op_bind in Hr. simpl in Hr. rewrite Hoff in Hr.
      injection Hr as <- <-. congruence.
    + exfalso. pose proof (set_session_idle_off choice with_proof w Hoff) as Hp.
      rewrite op_bind_eq in Hr.
      destruct (set_session_idle clock wall choice with_proof w) as [[u|err] w1];
        injection Hr as <- <-; congruence.
    + pose proof (credential_gate CTouch w _ _ eq_refl (check_session_freshness_off w Hoff)) as Hg.
      simpl in Hg. rewrite Hg in Hr. congruence.
    + unfold maybe_expire_active_session, gets, mbind, op_bind in Hr.
      destruct (session_state (vault w)) eqn:E; try discriminate Hoff; injection Hr as <- <-;
        rewrite E in Hon; done.
    + pose proof (credential_gate (CReveal id extract) w _ _ eq_refl
        (check_session_freshness_off w Hoff)) as Hg. simpl in Hg. rewrite Hg in Hr. congruence.
    + pose proof (credential_gate CGate w _ _ eq_refl (check_session_freshness_off w Hoff)) as Hg.
      simpl in Hg. rewrite Hg in Hr. congruence.
  - intros e l s Hs Hlt Hc.
    assert (Hf : exists w', check_session_freshness clock w = (Err SessionExpired, w')
      /\ active (vault w') = None /\ session_state (vault w') = Expired
      /\ presence w' = presence w).
    { rewrite check_session_freshness_eq, Hs. simpl.
      replace (e <? clock (ticks w)) with true by (symmetry; by apply Z.ltb_lt). by eexists. }
    destruct Hf as (w' & Hf & ?). exists w'. split; [|done]. by apply credential_gate.
Qed.

(** A reveal returns the requested field of the cached account exactly
    when the session is live, the account is neither frozen nor waiting for
    an upgrade, it is cached, and presence was proved in the last sixty
    seconds or is proved now; a reveal inside that window leaves the
    supplied proof unused, and one that is refused never uses it up, except
    when the account turns out not to exist. *)
Theorem reveal_spec (w : W) id extract bytes :
  ((exists w', reveal_secret_field clock wall id extract w = (Ok bytes, w'))
     <-> reveal_allowed w id extract bytes)
  /\ (forall a, active (vault w) = Some a ->
        presence_is_fresh a (clock (S (ticks w))) = true ->
        presence (reveal_secret_field clock wall id extract w).2 = presence w)
  /\ (forall err w', reveal_secret_field clock wall id extract w = (Err err, w') ->
        presence w' = presence w \/ err = AccountNotFound).
Proof.
  destruct (reveal_secret_field clock wall id extract w) as [r w'] eqn:Hr.
  destruct (reveal_refused w id extract r w' Hr)
    as [(e & l & s & a & Hs & Hle & Hf & Hu & Ha)|[Hno Hp]].
  2: { destruct r as [b|err]; [done|]. split_and!; [|done|].
       - split; [by intros [? ?]|]. intros [(e & l & s & Hs & Hle) Hf Hu (a & sn & Ha & Hc & Hb & Hpr)].
         destruct (reveal_result w id extract e l s a Hs Hle Hf Hu Ha) as (r & w1 & H1 & H2).
         rewrite Hr in H1. injection H1 as <- <-.
         replace (presence_is_fresh a (clock (S (ticks w))) || _) with true in H2.
         + destruct H2 as [H2 _]. by rewrite Hc in H2.
         + symmetry. apply orb_true_iff. done.
       - intros ? ? [= <- <-]. by left. }
  destruct (reveal_result w id extract e l s a Hs Hle Hf Hu Ha) as (r1 & w1 & H1 & H2).
  rewrite Hr in H1. injection H1 as <- <-.
  destruct (presence_is_fresh a (clock (S (ticks w))) || _) eqn:Eg; destruct H2 as [H2 H3].
  - apply orb_true_iff in Eg. split_and!.
    + split.
      * intros [w1 [= -> ->]]. split; [by do 3 eexists|done|done|]. exists a.
        destruct (cache a !! id) as [sn|]; [|done]. exists sn. by injection H2 as ->.
      * intros [_ _ _ (a' & sn & Ha' & Hc & -> & _)]. exists w'. f_equal.
        rewrite Ha in Ha'. injection Ha' as <-. by rewrite Hc in H2.
    + intros a' Ha'. rewrite Ha in Ha'. injection Ha' as <-. done.
    + intros err w1 [= -> ->]. right. destruct (cache a !! id); [done|by injection H2 as <-].
  - apply orb_false_iff in Eg as [Eg1 Eg2]. split_and!.
    + split; [intros [w1 [= -> ->]]; by destruct H2|].
      intros [_ _ _ (a' & sn & Ha' & _ & _ & [Hx|Hx])];
        rewrite Ha in Ha'; injection Ha' as <-; congruence.
    + done.
    + intros err w1 [= -> ->]. by left.
Qed.

(** [unlock] needs both proofs and is atomic for the session: when it
    returns [Ok], the presence proof was accepted, the identity proof was
    accepted, and the new session starts at the clock reading of the call
    with fresh presence; when it returns an error, of any step, the previous
    session (state, secrets, idle setting) is still in place. *)
Theorem unlock_atomic identity (w : W) r w' :
  unlock identity w = (r, w') ->
  match r with
  | Ok _ =>
      let now := clock (ticks w) in
      is_ok (presence_verify (wall (ticks w)) (presence w)).1 = true
      /\ presence w' = (presence_verify (wall (ticks w)) (presence w)).2
      /\ identity_verify identity = Ok tt /\ is_ok (derive_secret identity) = true
      /\ session_state (vault w') =
           Active (next_idle_deadline now now (session_idle (vault w))) now now
      /\ exists a, active (vault w') = Some a /\ last_presence_at a = Some now
  | Err _ =>
      session_state (vault w') = session_state (vault w) /\ active (vault w') = active (vault w)
      /\ session_idle (vault w') = session_idle (vault w)
  end.
Proof.
  intros Hu. apply unlock_inv in Hu. destruct r; [|done].
  destruct Hu as ((p & -> & ->) & ?). done.
Qed.

(** The proof leg of [set_session_idle]. *)
Lemma set_session_idle_same choice b (w : W) e l s :
  is_longer_than choice (session_idle (vault w)) = false ->
  session_state (vault w) = Active e l s ->
  set_session_idle clock wall choice b w =
  (Ok tt, mkWorld
     (set_session_state (Active (next_idle_deadline (clock (ticks w)) s choice) (clock (ticks w)) s)
        (set_idle choice (set_meta_idle (Some (to_meta_secs choice)) (vault w))))
     (presence w) (S (ticks w))).
Proof.
  intros Hl Hs. unfold set_session_idle, gets, modify, mbind, op_bind. simpl.
  rewrite Hl. simpl. by rewrite Hs.
Qed.

(** Shortening the idle window, or setting it to the value it already
    has, on a session whose deadline has passed but that no call has looked
    at yet, runs no freshness check: the call succeeds without any proof and
    the session, which the very next credential call would have ended with
    [SessionExpired], is live again, as long as the four-hour limit and the
    new window leave room. *)
Theorem set_session_idle_revives_expired choice b (w : W) e l s :
  session_state (vault w) = Active e l s -> e < clock (ticks w) ->
  is_longer_than choice (session_idle (vault w)) = false ->
  clock (S (ticks w)) <= next_idle_deadline (clock (ticks w)) s choice ->
  (check_session_freshness clock w).1 = Err SessionExpired
  /\ exists w', set_session_idle clock wall choice b w = (Ok tt, w')
       /\ presence w' = presence w /\ active (vault w') = active (vault w)
       /\ is_session_active clock w' = true
       /\ (check_session_freshness clock w').1 = Ok tt.
Proof.
  intros Hs Hlt Hl Hroom. split.
  - rewrite check_session_freshness_eq, Hs. simpl.
    by replace (e <? clock (ticks w)) with true by (symmetry; by apply Z.ltb_lt).
  - eexists. split; [by apply set_session_idle_same with e l|]. split_and!; [done|done| |].
    + unfold is_session_active. simpl. by apply Z.leb_le.
    + rewrite check_session_freshness_eq. simpl.
      replace (_ <? clock (S (ticks w))) with false by (symmetry; apply Z.ltb_ge; lia). done.
Qed.

(** Lengthening the idle window is never free: without a proof it is
    refused and nothing changes; when it succeeds, either a proof was
    accepted, or the session was live with presence proved in the last sixty
    seconds; on an expired session it fails with [SessionExpired] before the
    proof is used. *)
Theorem set_session_idle_lengthening choice (w : W) :
  is_longer_than choice (session_idle (vault w)) = true ->
  set_session_idle clock wall choice false w = (Err PresenceProofRequired, w)
  /\ (forall e l s, session_state (vault w) = Active e l s -> e < clock (ticks w) ->
        exists w', set_session_idle clock wall choice true w = (Err SessionExpired, w')
          /\ presence w' = presence w /\ session_idle (vault w') = session_idle (vault w))
  /\ (forall w', set_session_idle clock wall choice true w = (Ok tt, w') ->
        session_idle (vault w') = choice
        /\ meta_session_idle_secs (vault w') = Some (to_meta_secs choice)
        /\ ((exists t p, presence_verify t (presence w) = (Ok tt, p) /\ presence w' = p)
            \/ exists a e l s, active (vault w) = Some a
                 /\ session_state (vault w) = Active e l s /\ clock (ticks w) <= e
                 /\ presence_is_fresh a (clock (S (ticks w))) = true)).
Proof.
  intros Hl. split_and!.
  - unfold set_session_idle, gets, mbind, op_bind. simpl. by rewrite Hl.
  - intros e l s Hs Hlt. unfold set_session_idle. rewrite op_bind_eq. simpl. rewrite Hl, Hs.
    eexists. split.
    { apply op_bind_fail, op_bind_fail. rewrite check_session_freshness_eq, Hs. simpl.
      by replace (e <? clock (ticks w)) with true by (symmetry; by apply Z.ltb_lt). }
    done.
  - intros w' Hr. unfold set_session_idle in Hr. rewrite op_bind_eq in Hr. simpl in Hr.
    rewrite Hl in Hr. apply op_bind_Ok in Hr as (u & w1 & Hproof & Hr).
    apply op_bind_Ok in Hr as (u2 & w2 & Hset & Hr). unfold modify in Hset. injection Hset as <- <-.
    assert (Hfin : session_idle (vault w') = choice
        /\ meta_session_idle_secs (vault w') = Some (to_meta_secs choice)
        /\ presence w' = presence w1).
    { unfold gets, modify, mbind, op_bind in Hr. simpl in Hr.
      destruct (session_state (vault w1)); simpl in Hr; injection Hr as <-; done. }
    destruct Hfin as (-> & -> & ->). split_and!; [done|done|].
    destruct (session_state (vault w)) as [| |e l s|] eqn:Es.
    3: { apply op_bind_Ok in Hproof as (u3 & w3 & Hc & He).
         apply check_session_freshness_Ok in Hc as [(e' & l' & s' & Hs & Hle) ->].
         rewrite ensure_presence_fresh_eq in He. simpl in He.
         destruct (active (vault w)) as [a|] eqn:Ea; [|done].
         rewrite Es in Hs. injection Hs as <- <- <-.
         destruct (presence_is_fresh a _) eqn:Ef; [right; by exists a, e, l, s|].
         destruct (presence_verify _ _) as [[[]|err] p] eqn:Ep; [|done].
         injection He as <- <-. left. by do 2 eexists. }
    all: unfold verify_presence in Hproof;
      destruct (presence_verify _ _) as [[[]|err] p] eqn:Ep; [|done];
      injection Hproof as <- <-; left; by do 2 eexists.
Qed.

(** [with_session] runs the operation only on a live session: directly
    when the session is live, or after a re-authentication that really made
    it live again; a re-authentication that fails, or claims success and
    leaves the session dead, ends the call and the operation does not run;
    [Locked] and [Pending] are reported without asking. *)
Theorem with_session_gate {T} (body : vop T) (reauth : vop unit) (w : W) :
  (is_session_active clock w = true ->
     with_session clock body reauth w =
       body (mkWorld (vault w) (presence w) (S (ticks w))))
  /\ (forall r w1, (check_session_freshness clock w).1 = Err SessionExpired ->
       reauth (check_session_freshness clock w).2 = (r, w1) ->
       with_session clock body reauth w =
         match r with
         | Err e => (Err e, w1)
         | Ok _ =>
             if is_session_active clock w1
             then body (mkWorld (vault w1) (presence w1) (S (ticks w1)))
             else (match (check_session_freshness clock w1).1 with
                   | Err e => Err e | Ok _ => Err Internal end,
                   (check_session_freshness clock w1).2)
         end)
  /\ (forall e, (check_session_freshness clock w).1 = Err e -> e <> SessionExpired ->
       with_session clock body reauth w = (Err e, w)).
Proof.
  assert (Hlive : forall w1 : W, is_session_active clock w1 = true ->
    check_session_freshness clock w1 = (Ok tt, mkWorld (vault w1) (presence w1) (S (ticks w1)))).
  { intros w1 Hl. rewrite check_session_freshness_eq. unfold is_session_active in Hl.
    destruct (session_state (vault w1)); try discriminate Hl. zbool.
    replace (expires_at <? _) with false by (symmetry; by apply Z.ltb_ge). done. }
  assert (Hdead : forall w1 : W, is_session_active clock w1 = false ->
    exists e w2, check_session_freshness clock w1 = (Err e, w2)).
  { intros w1 Hl. rewrite check_session_freshness_eq. unfold is_session_active in Hl.
    destruct (session_state (vault w1)); try (by do 2 eexists). zbool.
    replace (expires_at <? _) with true by (symmetry; by apply Z.ltb_lt). by do 2 eexists. }
  unfold with_session. split_and!.
  - intros Hl. by rewrite Hlive.
  - intros r w1 Hc Hr. destruct (check_session_freshness clock w) as [r0 w0]. simpl in *.
    subst r0. rewrite op_bind_eq, Hr. destruct r as [u|e]; [|done]. rewrite op_bind_eq.
    destruct (is_session_active clock w1) eqn:El; [by rewrite Hlive|].
    destruct (Hdead w1 El) as (e & w2 & ->). done.
  - intros e Hc Hne. rewrite check_session_freshness_eq in *.
    destruct (session_state (vault w)); simpl in *; try (by simplify_eq).
    by destruct (expires_at <? clock (ticks w)); simplify_eq/=.
Qed.
End executions.

(** The persisted idle setting round-trips: every duration is read back
    from what is written for it, the write path accepts exactly the six
    written values, and the read path falls back to the default on anything
    else, an absent column included.  "Longer" is the order of the idle
    deadlines: a longer choice never gives an earlier deadline. *)
Theorem session_duration_roundtrip :
  (forall d, from_meta_secs (Some (to_meta_secs d)) = d)
  /\ (forall raw d, try_from_meta_secs raw = Ok d <-> raw = to_meta_secs d)
  /\ (forall raw, (forall d, raw <> to_meta_secs d) ->
        from_meta_secs (Some raw) = SessionDuration_DEFAULT
        /\ try_from_meta_secs raw = Err (Validation "session_duration"))
  /\ from_meta_secs None = SessionDuration_DEFAULT
  /\ (forall a b now s, is_longer_than a b = true -> s <= now ->
        now + ABSOLUTE_MAX_DEFAULT <= SYSTEM_TIME_MAX ->
        next_idle_deadline now s b <= next_idle_deadline now s a).
Proof.
  assert (Hrt : forall d, from_meta_secs (Some (to_meta_secs d)) = d)
    by (intros []; vm_compute; reflexivity).
  assert (Hdef : forall raw, (forall d, raw <> to_meta_secs d) ->
            from_meta_secs (Some raw) = SessionDuration_DEFAULT).
  { intros raw Hn. pose proof (Hn UntilDeviceLock) as H1. pose proof (Hn Min5) as H2.
    pose proof (Hn Min30) as H4. pose proof (Hn Hour1) as H5. pose proof (Hn Hour4) as H6.
    change (raw <> -1) in H1. change (raw <> 300) in H2. change (raw <> 1800) in H4.
    change (raw <> 3600) in H5. change (raw <> 14400) in H6. unfold from_meta_secs.
    repeat (case_match; try done). }
  split_and!; [done| | |done|].
  - intros raw d. unfold try_from_meta_secs. split.
    + destruct (_ =? raw) eqn:E; [|done]. intros [= <-]. by zbool.
    + intros ->. by rewrite Hrt, Z.eqb_refl.
  - intros raw Hn. split; [auto|]. unfold try_from_meta_secs. rewrite Hdef by done.
    replace (_ =? raw) with false; [done|]. symmetry. apply Z.eqb_neq. by apply not_eq_sym, Hn.
  - intros a b now s Hl Hs Hmax. unfold next_idle_deadline, checked_add.
    assert (Habs : s + ABSOLUTE_MAX_DEFAULT <=? SYSTEM_TIME_MAX = true) by (apply Z.leb_le; lia).
    rewrite Habs. simpl. unfold is_longer_than, rank in Hl.
    assert (Hw : forall d w, idle_window d = Some w ->
              now + w <=? SYSTEM_TIME_MAX = true).
    { intros d w Hd. apply Z.leb_le. enough (w <= ABSOLUTE_MAX_DEFAULT) by lia.
      destruct d; simpl in Hd; simplify_eq; vm_compute; discriminate. }
    destruct a, b; try discriminate Hl; cbn [idle_window];
      rewrite ?(Hw _ _ eq_refl); try (rewrite (Hw Min5 _ eq_refl));
      try (rewrite (Hw Min15 _ eq_refl)); try (rewrite (Hw Min30 _ eq_refl));
      try (rewrite (Hw Hour1 _ eq_refl)); try (rewrite (Hw Hour4 _ eq_refl)); simpl;
      unfold from_secs, NANOS_PER_SEC; lia.
Qed.

(** The CLI presence proof is single-use and short-lived: it is accepted
    exactly when it has not been used and is at most sixty seconds old (a
    wall clock that moved backwards counts as age zero); once accepted it is
    refused for ever, at any time, and a refusal does not use it up. *)
Theorem press_y_single_use t t' (p : PressYPresenceProof) :
  (is_ok (PressY_verify t p).1 = true <->
     presence_consumed p = false /\ t - presence_created_at p <= PRESENCE_FRESHNESS)
  /\ (is_ok (PressY_verify t p).1 = true ->
        PressY_verify t' (PressY_verify t p).2 =
          (Err PresenceAlreadyConsumed, (PressY_verify t p).2))
  /\ (is_ok (PressY_verify t p).1 = false -> (PressY_verify t p).2 = p).
Proof.
  unfold PressY_verify, duration_since.
  assert (0 <= PRESENCE_FRESHNESS) by (vm_compute; discriminate).
  destruct (presence_consumed p) eqn:Ec; simpl; [by split_and!; [naive_solver| |]|].
  destruct (PRESENCE_FRESHNESS <? Z.max 0 (t - presence_created_at p)) eqn:E; simpl; zbool;
    split_and!; try done; split; naive_solver lia.
Qed.

(** ** Witnesses *)

Module SessionSample.

(** A store with no accounts table, integers for keys and a clock that ticks
    once a second from the epoch. *)
Record NoTable : Type := mkNoTable {}.

Definition table : AccountTable NoTable :=
  {| frozen_pending_resolve := fun _ _ => None; head_pointer := fun _ _ => None |}.
#[local] Existing Instance table.

Definition sample_clock (k : nat) : Z := from_secs (Z.of_nat k).
Definition late_clock (k : nat) : Z := from_secs (1000 + Z.of_nat k).

Notation SWorld := (World NoTable (list Z) Z unit PressYPresenceProof).

Definition closed : Vault NoTable (list Z) Z unit :=
  mkVault Locked None Min15 None 0 (mkNoTable).

Definition w0 : SWorld := mkWorld closed (PressY_confirmed 0) 0.

Definition seed_of (_ : NoTable) (password : list Z) : store_result Z := Ok (be_value password).
Definition key_of (_ : NoTable) (seed : Z) : store_result Z :=
  if seed =? 258 then Ok seed else Err AuthenticationFailed.
Definition no_chain (_ : NoTable) (_ : Z) : store_result (VdkChain Z) := Ok (mkVdkChain ∅ 0).
Definition one_account (_ : NoTable) (_ : Z) (_ : VdkChain Z) :
    store_result (gmap Z (list Z) * unit * gset Z) := Ok ({[ 7 := [5; 6] ]}, tt, ∅).
Definition device (d : NoTable) (_ _ : Z) : store_result (NoTable * Z * Z) := Ok (d, 9, 11).

Notation sample_call clk :=
  (run_call clk clk seed_of key_of no_chain one_account device Some (I := PinIdentityProof)).
(** The vault after a successful unlock at the first clock reading. *)
Definition unlocked : SWorld := (sample_call sample_clock (CUnlock (mkPin [1; 2])) w0).2.

Lemma no_session_no_credential_witness :
  sample_call sample_clock (CReveal 7 (fun l => l)) w0 = (Err NotUnlocked, w0)
  /\ exists w', sample_call late_clock (CReveal 7 (fun l => l)) unlocked = (Err SessionExpired, w')
       /\ active (vault w') = None /\ session_state (vault w') = Expired
       /\ presence w' = presence unlocked.
Proof.
  split.
  - destruct (no_session_no_credential sample_clock sample_clock seed_of key_of no_chain one_account
      device Some w0 (CReveal 7 (fun l => l))) as [H _].
    destruct (H eq_refl) as [H1 _]. by apply H1.
  - destruct (no_session_no_credential late_clock late_clock seed_of key_of no_chain one_account
      device Some unlocked (CReveal 7 (fun l => l))) as [_ H].
    eapply H; [vm_compute; reflexivity|vm_compute; reflexivity|reflexivity].
Defined.

Lemma reveal_spec_witness :
  (exists w', reveal_secret_field sample_clock sample_clock 7 (fun l => l) unlocked
              = (Ok [5; 6], w'))
  /\ presence (reveal_secret_field sample_clock sample_clock 7 (fun l => l) unlocked).2
     = presence unlocked.
Proof.
  destruct (reveal_spec sample_clock sample_clock unlocked 7 (fun l => l) [5; 6]) as ([_ H1] & H2 & _).
  split.
  - apply H1. split; [do 3 eexists; split; [vm_compute; reflexivity|vm_compute; discriminate]
                     |vm_compute; reflexivity|vm_compute; reflexivity|].
    do 2 eexists. split_and!; [vm_compute; reflexivity|vm_compute; reflexivity|reflexivity|].
    left. vm_compute. reflexivity.
  - exact (H2 _ eq_refl ltac:(vm_compute; reflexivity)).
Defined.

Lemma unlock_atomic_witness :
  session_state (vault unlocked) =
    Active (next_idle_deadline (sample_clock 0) (sample_clock 0) Min15) (sample_clock 0) (sample_clock 0)
  /\ presence_consumed (presence unlocked) = true.
Proof.
  assert (Hu : unlock sample_clock sample_clock seed_of key_of no_chain one_account device Some
                 (mkPin [1; 2]) w0 = (Ok tt, unlocked)) by (vm_compute; reflexivity).
  pose proof (unlock_atomic sample_clock sample_clock seed_of key_of no_chain one_account device Some
    (mkPin [1; 2]) w0 (Ok tt) unlocked Hu) as (_ & Hp & _ & _ & Hs & _).
  split; [exact Hs|]. rewrite Hp. vm_compute. reflexivity.
Defined.

Lemma set_session_idle_revives_expired_witness :
  (check_session_freshness late_clock unlocked).1 = Err SessionExpired
  /\ exists w', set_session_idle late_clock late_clock Min15 false unlocked = (Ok tt, w')
       /\ presence w' = presence unlocked /\ active (vault w') = active (vault unlocked)
       /\ is_session_active late_clock w' = true
       /\ (check_session_freshness late_clock w').1 = Ok tt.
Proof.
  apply (set_session_idle_revives_expired late_clock late_clock Min15 false unlocked
           (from_secs 900) 0 0); vm_compute; solve [reflexivity|discriminate].
Defined.

Lemma set_session_idle_lengthening_witness :
  set_session_idle sample_clock sample_clock Hour4 false unlocked
    = (Err PresenceProofRequired, unlocked).
Proof.
  destruct (set_session_idle_lengthening sample_clock sample_clock Hour4 unlocked eq_refl)
    as (H & _). exact H.
Defined.

(** A re-authentication that only claims success. *)
Lemma with_session_gate_witness :
  (with_session late_clock (mret 1 : op SWorld StoreError Z) (mret tt) unlocked).1
    = Err SessionExpired
  /\ (with_session sample_clock (mret 1 : op SWorld StoreError Z) (mret tt) unlocked).1 = Ok 1.
Proof.
  destruct (with_session_gate late_clock (mret 1 : op SWorld StoreError Z) (mret tt) unlocked)
    as (_ & H & _).
  destruct (with_session_gate sample_clock (mret 1 : op SWorld StoreError Z) (mret tt) unlocked)
    as (H2 & _ & _).
  split.
  - rewrite (H (Ok tt) _ ltac:(vm_compute; reflexivity) eq_refl). vm_compute. reflexivity.
  - rewrite H2; vm_compute; reflexivity.
Defined.

Lemma press_y_single_use_witness :
  (PressY_verify (from_secs 30) (PressY_verify (from_secs 30) (PressY_confirmed 0)).2).1
    = Err PresenceAlreadyConsumed.
Proof.
  destruct (press_y_single_use (from_secs 30) (from_secs 30) (PressY_confirmed 0)) as (_ & H & _).
  rewrite H; [reflexivity|vm_compute; reflexivity].
Defined.

End SessionSample.
