(* ===== verification/Database.v ===== *)
(** * The vault database

    The tables of crates/pangolin-store/src/schema.rs that the modelled
    operations read and write, the SQL statements they share, and the two
    head detectors: the [NOT EXISTS] query of [account_heads] and the revision
    graph built from the same rows, which [account_heads_refines_graph] shows
    to agree.

    A table with a primary key is a finite map from the key.  A statement
    that SQLite refuses (duplicate primary key, missing foreign key with
    [PRAGMA foreign_keys = ON]) is [Err Sqlite] and the transaction around it
    is abandoned.  I/O faults of SQLite are not modelled. *)

From S2P Require Import Prelude StoreError RevisionGraph SessionPolicy.

(** ** Rows *)

Inductive RevisionStatus : Type := Pending | Finalized.

#[export] Instance RevisionStatus_eq_dec : EqDecision RevisionStatus.
Proof. solve_decision. Defined.

(** [chain_tx_hash], [chain_block_number], [chain_log_index]: written
    together by every statement that writes one of them. *)
Record StoredAnchor : Type := mkStoredAnchor {
  chain_tx_hash : Z;
  chain_block_number : Z;
  chain_log_index : Z
}.

#[export] Instance StoredAnchor_eq_dec : EqDecision StoredAnchor.
Proof. solve_decision. Defined.

Record RevisionRow : Type := mkRevisionRow {
  row_account : AccountId;
  row_parent : RevisionId;
  row_device : Z;
  row_schema : Z;
  row_created_at : Z;
  enc_payload : list Z;
  enc_nonce : Z;
  row_is_tombstone : bool;
  vdk_epoch : Z;
  row_anchor : option StoredAnchor;
  row_superseded_by : option RevisionId;
  revision_status : RevisionStatus;
  observed_at_block : option Z;
  observed_block_hash : option Z;
  recovered_signer : option Z;
  revoked : bool
}.

Record AccountRow : Type := mkAccountRow {
  account_created_at : Z;
  last_modified_at : Z;
  tombstoned : bool;
  head_revision_id : RevisionId;
  frozen : bool
}.

#[export] Instance RevisionRow_eq_dec : EqDecision RevisionRow.
Proof. solve_decision. Defined.
#[export] Instance AccountRow_eq_dec : EqDecision AccountRow.
Proof. solve_decision. Defined.

(** A row of [pending_merges] beside its key: the seed of the ephemeral signing key
    and the sealed merge revision. *)
Record PendingMerge : Type := mkPendingMerge {
  pm_device_secret : Z;
  pm_aead_nonce : Z;
  pm_enc_payload : list Z;
  pm_schema_version : Z;
  pm_created_at_ms : Z
}.

#[export] Instance PendingMerge_eq_dec : EqDecision PendingMerge.
Proof. solve_decision. Defined.

Record Database : Type := mkDatabase {
  account_identities : gmap Z AccountRow;
  t_revisions : gmap Z RevisionRow;
  dirty_accounts : gmap (Z * Z) Z;
  pending_merges : gmap (Z * Z) PendingMerge;
  sync_state : option Z;
  chain_sync_v1_state : option Z;
  chain_sync_v2_state : option Z;
  random_draws : nat
}.

(** ** Field updates *)

Definition set_accounts (a : gmap Z AccountRow) (d : Database) : Database :=
  mkDatabase a (t_revisions d) (dirty_accounts d) (pending_merges d) (sync_state d)
    (chain_sync_v1_state d) (chain_sync_v2_state d) (random_draws d).
Definition set_revisions (r : gmap Z RevisionRow) (d : Database) : Database :=
  mkDatabase (account_identities d) r (dirty_accounts d) (pending_merges d) (sync_state d)
    (chain_sync_v1_state d) (chain_sync_v2_state d) (random_draws d).
Definition set_dirty (m : gmap (Z * Z) Z) (d : Database) : Database :=
  mkDatabase (account_identities d) (t_revisions d) m (pending_merges d) (sync_state d)
    (chain_sync_v1_state d) (chain_sync_v2_state d) (random_draws d).
Definition set_pending_merges (m : gmap (Z * Z) PendingMerge) (d : Database) : Database :=
  mkDatabase (account_identities d) (t_revisions d) (dirty_accounts d) m (sync_state d)
    (chain_sync_v1_state d) (chain_sync_v2_state d) (random_draws d).
Definition set_draws (n : nat) (d : Database) : Database :=
  mkDatabase (account_identities d) (t_revisions d) (dirty_accounts d) (pending_merges d)
    (sync_state d) (chain_sync_v1_state d) (chain_sync_v2_state d) n.

Definition set_row_anchor (a : StoredAnchor) (r : RevisionRow) : RevisionRow :=
  mkRevisionRow (row_account r) (row_parent r) (row_device r) (row_schema r) (row_created_at r)
    (enc_payload r) (enc_nonce r) (row_is_tombstone r) (vdk_epoch r) (Some a)
    (row_superseded_by r) (revision_status r) (observed_at_block r) (observed_block_hash r)
    (recovered_signer r) (revoked r).
Definition set_row_superseded (m : RevisionId) (r : RevisionRow) : RevisionRow :=
  mkRevisionRow (row_account r) (row_parent r) (row_device r) (row_schema r) (row_created_at r)
    (enc_payload r) (enc_nonce r) (row_is_tombstone r) (vdk_epoch r) (row_anchor r)
    (Some m) (revision_status r) (observed_at_block r) (observed_block_hash r)
    (recovered_signer r) (revoked r).
Definition set_row_status (s : RevisionStatus) (r : RevisionRow) : RevisionRow :=
  mkRevisionRow (row_account r) (row_parent r) (row_device r) (row_schema r) (row_created_at r)
    (enc_payload r) (enc_nonce r) (row_is_tombstone r) (vdk_epoch r) (row_anchor r)
    (row_superseded_by r) s (observed_at_block r) (observed_block_hash r)
    (recovered_signer r) (revoked r).
Definition set_row_observed (block hash : Z) (r : RevisionRow) : RevisionRow :=
  mkRevisionRow (row_account r) (row_parent r) (row_device r) (row_schema r) (row_created_at r)
    (enc_payload r) (enc_nonce r) (row_is_tombstone r) (vdk_epoch r) (row_anchor r)
    (row_superseded_by r) (revision_status r) (Some block) (Some hash)
    (recovered_signer r) (revoked r).
Definition set_row_signer (s : Z) (r : RevisionRow) : RevisionRow :=
  mkRevisionRow (row_account r) (row_parent r) (row_device r) (row_schema r) (row_created_at r)
    (enc_payload r) (enc_nonce r) (row_is_tombstone r) (vdk_epoch r) (row_anchor r)
    (row_superseded_by r) (revision_status r) (observed_at_block r) (observed_block_hash r)
    (Some s) (revoked r).
Definition set_row_revoked (b : bool) (r : RevisionRow) : RevisionRow :=
  mkRevisionRow (row_account r) (row_parent r) (row_device r) (row_schema r) (row_created_at r)
    (enc_payload r) (enc_nonce r) (row_is_tombstone r) (vdk_epoch r) (row_anchor r)
    (row_superseded_by r) (revision_status r) (observed_at_block r) (observed_block_hash r)
    (recovered_signer r) b.

(** ** Shared statements *)

#[export] Instance Database_accounts : AccountTable Database := {|
  frozen_pending_resolve := fun d id =>
    (fun a => if frozen a then 1 else 0) <$> account_identities d !! id;
  head_pointer := fun d id => head_revision_id <$> account_identities d !! id
|}.

(** [INSERT INTO account_identities]. *)
Definition insert_account (id : AccountId) (a : AccountRow) (d : Database) :
    store_result Database :=
  match account_identities d !! id with
  | Some _ => Err Sqlite
  | None => Ok (set_accounts (<[id := a]> (account_identities d)) d)
  end.

(** [INSERT INTO revisions]: primary key and foreign key. *)
Definition insert_revision (rid : RevisionId) (r : RevisionRow) (d : Database) :
    store_result Database :=
  match t_revisions d !! rid, account_identities d !! row_account r with
  | None, Some _ => Ok (set_revisions (<[rid := r]> (t_revisions d)) d)
  | _, _ => Err Sqlite
  end.

(** [UPDATE account_identities SET ... WHERE account_id = ?]. *)
Definition update_account_row (id : AccountId) (f : AccountRow -> AccountRow) (d : Database) :
    Database :=
  set_accounts (alter f id (account_identities d)) d.

(** [UPDATE revisions SET f WHERE p]. *)
Definition update_revisions (p : Z -> RevisionRow -> bool) (f : RevisionRow -> RevisionRow)
    (d : Database) : Database :=
  set_revisions (map_imap (fun rid r => Some (if p rid r then f r else r)) (t_revisions d)) d.

(** [INSERT OR IGNORE INTO dirty_accounts]: the database and whether a row
    was added. *)
Definition insert_dirty (id : AccountId) (rid : RevisionId) (now : Z) (d : Database) :
    Database * bool :=
  match dirty_accounts d !! (id, rid) with
  | Some _ => (d, false)
  | None => (set_dirty (<[(id, rid) := now]> (dirty_accounts d)) d, true)
  end.

(** ** Head detection *)

Section heads.
Context (d : Database) (id : AccountId).

(** [EXISTS (SELECT 1 FROM revisions r2 WHERE ...)]. *)
Definition has_honored_child (rid : RevisionId) : bool :=
  existsb (fun k => bool_decide (row_parent k = rid) && bool_decide (row_account k = id)
                    && negb (revoked k))
          (map_to_list (t_revisions d)).*2.

Definition is_sql_head (rid : RevisionId) (r : RevisionRow) : bool :=
  bool_decide (row_account r = id) && bool_decide (row_superseded_by r = None)
  && negb (revoked r) && negb (has_honored_child rid).

(** The shared head query, [ORDER BY created_at ASC, revision_id ASC]. *)
Definition head_rows : list (Z * Z) :=
  merge_sort pair_le
    ((fun e => (row_created_at e.2, e.1)) <$>
       filter (fun e => is_sql_head e.1 e.2 = true) (map_to_list (t_revisions d))).

Definition head_query : list RevisionId := head_rows.*2.
End heads.

(** [account_heads] and its copies inside transactions. *)
Definition account_heads (d : Database) (id : AccountId) : store_result (list RevisionId) :=
  match account_identities d !! id with
  | None => Err AccountNotFound
  | Some _ => Ok (head_query d id)
  end.

Definition account_is_forked (d : Database) (id : AccountId) : store_result bool :=
  heads ← account_heads d id; mret (1 <? Z.of_nat (length heads)).

(** [RawRevisionRow::into_meta]. *)
Definition into_meta (rid : RevisionId) (r : RevisionRow) : store_result RevisionMeta :=
  schema ← ok_or (u8_try_from (row_schema r)) (Corrupted IntegerOverflow);
  anchor ← match row_anchor r with
           | None => Ok None
           | Some a =>
               b ← ok_or (u64_try_from (chain_block_number a)) (Corrupted IntegerOverflow);
               l ← ok_or (u64_try_from (chain_log_index a)) (Corrupted IntegerOverflow);
               Ok (Some (mkChainAnchor (chain_tx_hash a) b l 0))
           end;
  Ok (mkRevisionMeta rid (row_parent r) (row_device r) schema (row_created_at r)
        (row_is_tombstone r) (row_superseded_by r) anchor).

(** [read_revision_rows_for]. *)
Definition row_le (a b : Z * RevisionRow) : Prop :=
  pair_le (row_created_at a.2, a.1) (row_created_at b.2, b.1).

#[export] Instance row_le_dec : RelDecision row_le.
Proof. intros a b. unfold row_le. apply _. Defined.

Definition honored_rows (d : Database) (id : AccountId) : list (Z * RevisionRow) :=
  merge_sort row_le
    (filter (fun e => row_account e.2 = id /\ revoked e.2 = false) (map_to_list (t_revisions d))).

Definition read_revision_rows_for (d : Database) (id : AccountId) :
    store_result (list RevisionMeta) :=
  collect ((fun e => into_meta e.1 e.2) <$> honored_rows d id).

(** [Vault::revision_graph]; [None] is [build]'s out-of-fuel value. *)
Definition revision_graph (d : Database) (id : AccountId) :
    option (store_result RevisionGraph) :=
  match read_revision_rows_for d id with
  | Err e => Some (Err e)
  | Ok rows => build rows
  end.

(** [Vault::canonical_head]. *)
Definition vault_canonical_head (d : Database) (id : AccountId) :
    option (store_result RevisionId) :=
  match account_identities d !! id with
  | None => Some (Err AccountNotFound)
  | Some _ =>
      (fun r => g ← r; ok_or (canonical_head g) (Corrupted NoRevisions)) <$> revision_graph d id
  end.

(** [all_forked_accounts]. *)
Definition all_forked_accounts (d : Database) : list AccountId :=
  merge_sort Z.le
    (filter (fun id => 1 < Z.of_nat (length (head_query d id)))
       (elements (list_to_set (row_account <$> (map_to_list (t_revisions d)).*2) : gset Z))).

(** [list_frozen_accounts] and [list_tombstoned_accounts], [ORDER BY account_id ASC]. *)
Definition accounts_where (p : AccountRow -> bool) (d : Database) : list AccountId :=
  merge_sort Z.le (filter (fun e => p e.2 = true) (map_to_list (account_identities d))).*1.

Definition list_frozen_accounts (d : Database) : list AccountId := accounts_where frozen d.
Definition list_tombstoned_accounts (d : Database) : list AccountId := accounts_where tombstoned d.

(** [unpublished_revisions]. *)
Definition unpublished_revisions (d : Database) : list RevisionId :=
  (merge_sort row_le
     (filter (fun e => row_anchor e.2 = None) (map_to_list (t_revisions d)))).*1.

(** ** The two head detectors agree *)

Lemma into_meta_fields rid r row :
  into_meta rid r = Ok row ->
  revision_id row = rid /\ parent_revision_id row = row_parent r
  /\ created_at row = row_created_at r /\ superseded_by row = row_superseded_by r.
Proof.
  unfold into_meta, mbind, result_bind.
  destruct (ok_or (u8_try_from _) _); [|done]. case_match; [|done]. by intros [= <-].
Qed.

Lemma elem_of_honored_rows d id rid r :
  (rid, r) ∈ honored_rows d id <->
  t_revisions d !! rid = Some r /\ row_account r = id /\ revoked r = false.
Proof.
  unfold honored_rows. rewrite elem_of_merge_sort, list_elem_of_filter, elem_of_map_to_list. simpl.
  tauto.
Qed.

Lemma has_honored_child_spec d id rid :
  has_honored_child d id rid = true <->
  exists k r, t_revisions d !! k = Some r /\ row_parent r = rid /\ row_account r = id
    /\ revoked r = false.
Proof.
  unfold has_honored_child. rewrite existsb_exists. setoid_rewrite <- list_elem_of_In. split.
  - intros (r & ([k r'] & -> & Hk%elem_of_map_to_list)%list_elem_of_fmap & Hb). simpl in *.
    rewrite !andb_true_iff, !bool_decide_eq_true, negb_true_iff in Hb. naive_solver.
  - intros (k & r & Hk & Hp & Ha & Hr). exists r. split.
    + apply list_elem_of_fmap. exists (k, r). split; [done|]. by apply elem_of_map_to_list.
    + rewrite !andb_true_iff, !bool_decide_eq_true, negb_true_iff. done.
Qed.

Lemma elem_of_head_query d id rid :
  rid ∈ head_query d id <->
  exists r, t_revisions d !! rid = Some r /\ row_account r = id /\ row_superseded_by r = None
    /\ revoked r = false
    /\ forall k r', t_revisions d !! k = Some r' -> row_parent r' = rid -> row_account r' = id ->
       revoked r' = true.
Proof.
  unfold head_query, head_rows. rewrite list_elem_of_fmap. setoid_rewrite elem_of_merge_sort.
  setoid_rewrite list_elem_of_fmap. split.
  - intros (p & -> & ([rid' r] & -> & [Hh Hk]%list_elem_of_filter)). simpl in *.
    apply elem_of_map_to_list in Hk. unfold is_sql_head in Hh.
    rewrite !andb_true_iff, !bool_decide_eq_true, !negb_true_iff in Hh.
    destruct Hh as [[[Ha Hs] Hr] Hc]. exists r. split_and!; try done.
    intros k r' Hk' Hp Ha'. destruct (revoked r') eqn:E; [done|]. exfalso.
    rewrite <- not_true_iff_false in Hc. apply Hc, has_honored_child_spec. eauto 10.
  - intros (r & Hk & Ha & Hs & Hr & Hc). exists (row_created_at r, rid). split; [done|].
    exists (rid, r). split; [done|]. apply list_elem_of_filter. split; [|by apply elem_of_map_to_list].
    unfold is_sql_head. simpl. rewrite !andb_true_iff, !bool_decide_eq_true, !negb_true_iff.
    split_and!; try done. apply not_true_iff_false. intros Hx%has_honored_child_spec.
    destruct Hx as (k & r' & Hk' & Hp & Ha' & Hr'). specialize (Hc k r' Hk' Hp Ha'). congruence.
Qed.

#[export] Instance pair_le_anti : AntiSymm (=) pair_le.
Proof. intros p q. apply pair_le_antisymm. Qed.

Lemma NoDup_head_query d id : NoDup (head_query d id).
Proof.
  unfold head_query, head_rows. rewrite merge_sort_Permutation.
  rewrite <- list_fmap_compose. apply (NoDup_fmap_filter fst), NoDup_fst_map_to_list.
Qed.

Lemma head_rows_created d id c rid :
  (c, rid) ∈ head_rows d id -> exists r, t_revisions d !! rid = Some r /\ c = row_created_at r.
Proof.
  unfold head_rows. rewrite elem_of_merge_sort, list_elem_of_fmap.
  intros ([k r] & [= -> ->] & [_ Hk]%list_elem_of_filter). exists r.
  by apply elem_of_map_to_list in Hk.
Qed.

(** The head query sees an account only through its rows. *)
Lemma elem_of_head_rows d id c rid :
  (c, rid) ∈ head_rows d id <->
  exists r, t_revisions d !! rid = Some r /\ c = row_created_at r /\ rid ∈ head_query d id.
Proof.
  split.
  - intros Hin. destruct (head_rows_created d id c rid Hin) as (r & Hr & ->).
    exists r. split_and!; [done|done|]. apply list_elem_of_fmap. by exists (row_created_at r, rid).
  - intros (r & Hr & -> & Hin). apply list_elem_of_fmap in Hin as ([c rid'] & -> & Hin).
    destruct (head_rows_created d id c _ Hin) as (r' & Hr' & ->). simpl in Hr.
    rewrite Hr in Hr'. by injection Hr' as ->.
Qed.

Lemma NoDup_head_rows d id : NoDup (head_rows d id).
Proof. apply (NoDup_fmap_1 snd), NoDup_head_query. Qed.

Lemma head_query_ext d d' id :
  (forall rid r, t_revisions d !! rid = Some r -> rid ∈ head_query d id ->
     exists r', t_revisions d' !! rid = Some r' /\ row_created_at r' = row_created_at r) ->
  (forall rid, rid ∈ head_query d id <-> rid ∈ head_query d' id) ->
  head_query d id = head_query d' id.
Proof.
  intros Hrow Hh. unfold head_query. f_equal.
  assert (Hrow' : forall rid c, (c, rid) ∈ head_rows d id <-> (c, rid) ∈ head_rows d' id).
  { intros rid c. rewrite !elem_of_head_rows. split.
    - intros (r & Hr & -> & Hin). destruct (Hrow rid r Hr Hin) as (r' & Hr' & Hc).
      exists r'. rewrite <- Hh. done.
    - intros (r' & Hr' & -> & Hin). rewrite <- Hh in Hin.
      pose proof Hin as (r & Hr & _)%elem_of_head_query.
      destruct (Hrow rid r Hr Hin) as (r2 & Hr2 & Hc). rewrite Hr' in Hr2. injection Hr2 as <-.
      by exists r. }
  apply (StronglySorted_unique pair_le).
  - unfold head_rows. apply merge_sort_sorted; apply _.
  - unfold head_rows. apply merge_sort_sorted; apply _.
  - apply NoDup_Permutation; [apply NoDup_head_rows|apply NoDup_head_rows|].
    intros [c rid]. apply Hrow'.
Qed.

Lemma head_query_singleton d id rid :
  (forall x, x ∈ head_query d id <-> x = rid) -> head_query d id = [rid].
Proof.
  intros Hx. apply Permutation_singleton_r, NoDup_Permutation.
  - apply NoDup_head_query.
  - repeat constructor. set_solver.
  - intros x. rewrite Hx. set_solver.
Qed.

Section agree.
Context (d : Database) (id : AccountId) (rows : list RevisionMeta) (g : RevisionGraph).
Context (Hrows : read_revision_rows_for d id = Ok rows).

Lemma elem_of_rows row :
  row ∈ rows <-> exists rid r, t_revisions d !! rid = Some r /\ row_account r = id
    /\ revoked r = false /\ into_meta rid r = Ok row.
Proof using Hrows.
  unfold read_revision_rows_for in Hrows. apply collect_Forall2 in Hrows.
  split.
  - intros [i Hi]%list_elem_of_lookup. destruct (Forall2_lookup_r _ _ _ _ _ Hrows Hi) as (e & He & Hm).
    destruct e as [rid r]. apply list_elem_of_lookup_2, elem_of_honored_rows in He. naive_solver.
  - intros (rid & r & Hk & Ha & Hr & Hm).
    assert (Hin : (rid, r) ∈ honored_rows d id) by by apply elem_of_honored_rows.
    apply list_elem_of_lookup in Hin as [i Hi].
    destruct (Forall2_lookup_l _ _ _ _ _ Hrows Hi) as (row' & Hrow & Hm'). simpl in Hm'.
    rewrite Hm in Hm'. injection Hm' as <-. by eapply list_elem_of_lookup_2.
Qed.

Lemma row_of_id rid r :
  t_revisions d !! rid = Some r -> row_account r = id -> revoked r = false ->
  exists row, row ∈ rows /\ into_meta rid r = Ok row.
Proof using Hrows.
  intros Hk Ha Hr.
  assert (Hin : (rid, r) ∈ honored_rows d id) by by apply elem_of_honored_rows.
  unfold read_revision_rows_for in Hrows. pose proof Hrows as Hr'. apply collect_Forall2 in Hr'.
  apply list_elem_of_lookup in Hin as [i Hi].
  destruct (Forall2_lookup_l _ _ _ _ _ Hr' Hi) as (row & Hrow & Hm).
  exists row. split; [by eapply list_elem_of_lookup_2|done].
Qed.

(** The primary key makes the ids of an account's rows distinct. *)
Lemma rows_distinct : NoDup (revision_id <$> rows).
Proof using Hrows.
  unfold read_revision_rows_for in Hrows. apply collect_Forall2 in Hrows.
  assert (Heq : revision_id <$> rows = (honored_rows d id).*1).
  { induction Hrows as [|[rid r] row l k Hm _ IH]; [done|]. csimpl. f_equal; [|done].
    by apply into_meta_fields in Hm as (-> & _). }
  rewrite Heq. unfold honored_rows. rewrite merge_sort_Permutation.
  apply NoDup_fmap_filter, NoDup_fst_map_to_list.
Qed.

Context (Hb : build rows = Some (Ok g)).
Context (Hzero : forall r, t_revisions d !! GENESIS_PARENT = Some r -> row_account r <> id).

Lemma heads_elements rid : rid ∈ heads g <-> rid ∈ head_query d id.
Proof using Hrows Hb Hzero.
  rewrite (built_heads rows g Hb), elem_of_head_query. split.
  - intros (row & (k & r & Hk & Ha & Hr & Hm)%elem_of_rows & Hid & Hs & Hc).
    pose proof (into_meta_fields _ _ _ Hm) as (Hrid & Hpar & _ & Hsup). subst rid k.
    exists r. split_and!; try done; [congruence|].
    intros k r' Hk' Hp Ha'. destruct (revoked r') eqn:Er; [done|]. exfalso.
    destruct (row_of_id k r' Hk' Ha' Er) as (row' & Hin' & Hm').
    pose proof (into_meta_fields _ _ _ Hm') as (Hrid' & Hpar' & _).
    apply (Hc k). exists row'. rewrite !(built_lookup rows g Hb). split_and!; try done.
    + congruence.
    + intros Hz. apply (Hzero r); [|done]. by rewrite <- Hz.
    + exists row. apply (built_lookup rows g Hb). split; [|done]. apply elem_of_rows. eauto 10.
  - intros (r & Hk & Ha & Hs & Hr & Hc). destruct (row_of_id rid r Hk Ha Hr) as (row & Hin & Hm).
    pose proof (into_meta_fields _ _ _ Hm) as (Hrid & Hpar & _ & Hsup).
    exists row. split_and!; try done; [congruence|].
    intros c (row' & Hc' & Hp & _ & _). apply (built_lookup rows g Hb) in Hc' as [Hin' Hid'].
    apply elem_of_rows in Hin' as (k & r' & Hk' & Ha' & Hr' & Hm').
    pose proof (into_meta_fields _ _ _ Hm') as (_ & Hpar' & _).
    specialize (Hc k r' Hk' ltac:(congruence) Ha'). congruence.
Qed.

Lemma order_key_row rid r :
  t_revisions d !! rid = Some r -> row_account r = id -> revoked r = false ->
  order_key (rows_map rows) rid = (row_created_at r, rid).
Proof using Hrows Hb.
  intros Hk Ha Hr. destruct (row_of_id rid r Hk Ha Hr) as (row & Hin & Hm).
  pose proof (into_meta_fields _ _ _ Hm) as (Hrid & _ & Hc & _).
  assert (Hl : rows_map rows !! rid = Some row) by by apply (built_lookup rows g Hb).
  unfold order_key. rewrite Hl. simpl. by rewrite Hc.
Qed.

Lemma head_query_sorted : StronglySorted (key_le (rows_map rows)) (head_query d id).
Proof using Hrows Hb.
  assert (Hs : StronglySorted pair_le (head_rows d id)).
  { unfold head_rows. apply merge_sort_sorted; apply _. }
  assert (Hkey : Forall (fun p => order_key (rows_map rows) p.2 = p) (head_rows d id)).
  { apply Forall_forall. intros [c rid] Hin. simpl.
    pose proof (head_rows_created d id c rid Hin) as (r & Hk & ->).
    assert (Hh : rid ∈ head_query d id).
    { apply list_elem_of_fmap. by exists (row_created_at r, rid). }
    apply elem_of_head_query in Hh as (r' & Hk' & Ha & _ & Hr & _).
    rewrite Hk in Hk'. injection Hk' as <-. by apply order_key_row. }
  unfold head_query. clear -Hs Hkey.
  induction Hs as [|p l _ IH Hp]; [constructor|].
  apply Forall_cons in Hkey as [Hk Hl]. csimpl. constructor; [by apply IH|].
  apply Forall_fmap, Forall_forall. intros q Hq. simpl. unfold key_le.
  rewrite Forall_forall in Hl, Hp. rewrite Hk, Hl by done. by apply Hp.
Qed.

Lemma heads_agree : heads g = head_query d id.
Proof using Hrows Hb Hzero.
  destruct (built_heads_sorted rows g Hb) as [Hs Hnd].
  apply (StronglySorted_unique (key_le (rows_map rows))); [done|apply head_query_sorted|].
  apply NoDup_Permutation; [done|apply NoDup_head_query|apply heads_elements].
Qed.
End agree.

(** Reading the rows fails only on a column outside its machine type. *)
Definition columns_in_range (d : Database) (id : AccountId) : Prop :=
  exists rows, read_revision_rows_for d id = Ok rows.

(** C38. The SQL head detector implements the revision graph: for an account
    whose honored rows build, [account_heads] returns the graph's heads,
    element for element in the same order, the two fork tests agree, and the
    vault's canonical head is the greatest id of the SQL head set.  The
    primary key rules out the duplicate-id error, so the only way the build
    fails is a parent cycle.  (The all-zero id, the genesis sentinel, is
    assumed not to be a revision of the account.) *)
Theorem account_heads_refines_graph d id a :
  account_identities d !! id = Some a -> columns_in_range d id ->
  (forall r, t_revisions d !! GENESIS_PARENT = Some r -> row_account r <> id) ->
  (forall g, revision_graph d id = Some (Ok g) ->
     account_heads d id = Ok (heads g)
     /\ account_is_forked d id = Ok (is_forked g)
     /\ (forall h, vault_canonical_head d id = Some (Ok h) <->
           h ∈ head_query d id /\ forall h', h' ∈ head_query d id -> h' <= h))
  /\ (forall e, revision_graph d id = Some (Err e) -> e = Corrupted UnreachableComponent)
  /\ is_Some (revision_graph d id).
Proof.
  intros Ha [rows Hrows] Hzero. unfold revision_graph. rewrite Hrows.
  pose proof (rows_distinct d id rows Hrows) as Hnd.
  split_and!.
  - intros g Hb. pose proof (heads_agree d id rows g Hrows Hb Hzero) as Hh.
    unfold account_is_forked, account_heads, vault_canonical_head, revision_graph.
    rewrite Ha, Hrows, Hb, Hh. split_and!; [done| |].
    + simpl. unfold is_forked. by rewrite Hh.
    + intros h. rewrite <- Hh, <- canonical_head_max. simpl.
      destruct (canonical_head g); simpl; naive_solver.
  - intros e He. destruct (build_cases rows) as [(Hn & _)|[(_ & _ & Hb)|(_ & _ & g & Hb)]];
      [done|congruence|congruence].
  - destruct (build_cases rows) as [(_ & ->)|[(_ & _ & ->)|(_ & _ & g & ->)]]; by eexists.
Qed.

(** ** Witness: one account with a two-way fork and a revoked third branch *)

Definition plain_row (acct parent at_ms : Z) : RevisionRow :=
  mkRevisionRow acct parent 7 1 at_ms [1; 2] 9 false 0 None None Finalized None None None false.

Definition forked_db : Database :=
  mkDatabase {[ 100 := mkAccountRow 10 40 false 3 false ]}
    {[ 1 := plain_row 100 GENESIS_PARENT 10; 3 := plain_row 100 1 40;
       5 := plain_row 100 1 20; 8 := set_row_revoked true (plain_row 100 3 50) ]}
    ∅ ∅ None None None 0.

Lemma account_heads_refines_graph_witness :
  account_heads forked_db 100 = Ok [5; 3]
  /\ (forall e, revision_graph forked_db 100 = Some (Err e) -> e = Corrupted UnreachableComponent)
  /\ exists g, revision_graph forked_db 100 = Some (Ok g) /\ heads g = [5; 3].
Proof.
  destruct (account_heads_refines_graph forked_db 100 (mkAccountRow 10 40 false 3 false))
    as (_ & H & _).
  - reflexivity.
  - eexists. vm_compute. reflexivity.
  - intros r Hr. vm_compute in Hr. discriminate Hr.
  - split_and!; [vm_compute; reflexivity|exact H|].
    eexists. split; vm_compute; reflexivity.
Defined.
