(* ===== verification/AccountOps.v ===== *)
(** * Account operations

    The local edits of crates/pangolin-store/src/vault.rs: [add_account],
    [update_account], [delete_account], [resolve_fork], [clear_frozen],
    [prune_orphan_pending_merges], and the reads [get_account] and
    [list_accounts].  Each handler is the whole method: the session gate, the
    refusals, the transaction, then the caches and the touch.

    Sealing and opening of payloads (the AEAD of pangolin-crypto and the blob
    codec) are parameters, the full-text index is anything of class
    [SearchIndexOps]; the random generator is a stream of 256-bit draws counted in
    the database. *)

From S2P Require Import Prelude StoreError Search RevisionGraph SessionPolicy Database.

Definition ADD_ACCOUNT_RETRY_BUDGET : nat := 4.

(** [build_aad]'s inputs: what a payload is bound to. *)
Record Aad : Type := mkAad {
  aad_vault : Z;
  aad_account : AccountId;
  aad_parent : RevisionId;
  aad_schema : Z
}.

(** [DecodedIdentityPayload]; [TombstonePayload] carries the account and the
    time of the deletion. *)
Inductive DecodedPayload (Identity : Type) : Type :=
| LivePayload (identity : Identity)
| TombstonePayload (account_id : AccountId) (tombstoned_at_ms : Z).
Arguments LivePayload {Identity} identity.
Arguments TombstonePayload {Identity} account_id tombstoned_at_ms.

Section handlers.
Context {Snapshot Identity Key Index Projection P : Type} `{!PresenceProof P}.
Context `{!SearchIndexOps Index Projection}.
Context (clock wall : nat -> Z) (rng : nat -> Z).
(** [meta.vault_id] and [meta.wrap_context.schema_version]. *)
Context (vault_id wrap_schema : Z).
Context (seal_snapshot : Key -> Z -> Snapshot -> Aad -> store_result (list Z))
        (seal_payload : Key -> Z -> DecodedPayload Identity -> Aad -> store_result (list Z))
        (open_identity_payload :
           Key -> Z -> list Z -> Aad -> store_result (DecodedPayload Identity))
        (open_payload : Key -> Z -> list Z -> Aad -> store_result (DecodedPayload Snapshot))
        (downgrade_identity_to_snapshot : Identity -> Snapshot)
        (from_snapshot : Snapshot -> Projection) (from_identity : Identity -> Projection).

Notation W := (World Database Snapshot Key Index P).
Notation vop := (op W StoreError).

(** ** Plumbing *)

Definition get_db : vop Database := gets (fun w => db (vault w)).
Definition put_db (d : Database) : vop unit := modify (map_vault (set_db d)).

(** A transaction: the statements run on the current database and only a
    complete run is committed. *)
Definition transaction {A} (f : Database -> store_result (Database * A)) : vop A :=
  d ← get_db; '(d', a) ← lift (f d); put_db d' ≫= fun _ => mret a.

(** [random_32_via_sqlite] (and the AEAD nonce generator). *)
Definition random_32 : vop Z :=
  d ← get_db; put_db (set_draws (S (random_draws d)) d) ≫= fun _ => mret (rng (random_draws d)).

(** [current_unix_ms]: milliseconds of [SystemTime::now()], 0 when out of
    range. *)
Definition unix_ms_of (t : Z) : Z :=
  if t <? 0 then 0 else default 0 (i64_try_from (t / 1000000)).

Definition current_unix_ms : vop Z :=
  fun w => (Ok (unix_ms_of (wall (ticks w))), mkWorld (vault w) (presence w) (S (ticks w))).

(** [current_vdk_epoch_i64]. *)
Definition current_vdk_epoch_i64 (v : Vault Database Snapshot Key Index) : Z :=
  match active v with
  | None => 0
  | Some a => default I64_MAX (i64_try_from (current_epoch (chain a)))
  end.

Definition map_active (f : ActiveState Snapshot Key Index -> ActiveState Snapshot Key Index) :
    vop unit :=
  modify (map_vault (fun v => set_active (f <$> active v) v)).

Definition set_caches (c : gmap Z Snapshot) (ix : Index) (a : ActiveState Snapshot Key Index) :
    ActiveState Snapshot Key Index :=
  mkActiveState (vdk a) (chain a) c ix (evm_wallet a) (device_key a) (last_presence_at a)
    (requires_upgrade a) (window_started_at_unix_ms a) (window_elapsed_flush_enabled a)
    (last_flush_failed_balance a) (last_pull_at_unix_ms a).

Definition set_window (o : option Z) (a : ActiveState Snapshot Key Index) :
    ActiveState Snapshot Key Index :=
  mkActiveState (vdk a) (chain a) (cache a) (search_index a) (evm_wallet a) (device_key a)
    (last_presence_at a) (requires_upgrade a) o (window_elapsed_flush_enabled a)
    (last_flush_failed_balance a) (last_pull_at_unix_ms a).

(** [note_dirty_marker_stamped]. *)
Definition note_dirty_marker_stamped (now_ms : Z) : vop unit :=
  map_active (fun a =>
    match window_started_at_unix_ms a with
    | None => set_window (Some now_ms) a
    | Some _ => a
    end).

(** ** The transactions *)

(** A new row as the [INSERT INTO revisions] of the local edits writes it. *)
Definition local_row (id : AccountId) (parent : RevisionId) (device schema now : Z)
    (ct : list Z) (nonce : Z) (is_tombstone : bool) (epoch : Z) : RevisionRow :=
  mkRevisionRow id parent device schema now ct nonce is_tombstone epoch None None Finalized
    None None None false.

Definition tx_add (id : AccountId) (rid : RevisionId) (row : RevisionRow) (now : Z)
    (d : Database) : store_result (Database * unit) :=
  d1 ← insert_account id (mkAccountRow now now false rid false) d;
  d2 ← insert_revision rid row d1;
  Ok ((insert_dirty id rid now d2).1, tt).

(** [update_account] and [delete_account] differ in the [tombstoned] column. *)
Definition advance_head (rid : RevisionId) (now : Z) (delete : bool) (a : AccountRow) :
    AccountRow :=
  mkAccountRow (account_created_at a) now (delete || tombstoned a) rid (frozen a).

Definition tx_edit (id : AccountId) (rid : RevisionId) (row : RevisionRow) (now : Z)
    (delete : bool) (d : Database) : store_result (Database * unit) :=
  d1 ← insert_revision rid row d;
  Ok ((insert_dirty id rid now (update_account_row id (advance_head rid now delete) d1)).1, tt).

(** ** [add_account] *)

Fixpoint derive_fresh_account_id (budget : nat) : vop AccountId :=
  match budget with
  | O => throw Internal
  | S budget' =>
      candidate ← random_32;
      d ← get_db;
      match account_identities d !! candidate with
      | Some a => if tombstoned a then derive_fresh_account_id budget' else mret candidate
      | None => mret candidate
      end
  end.

(** What a handler computes before it opens its transaction. *)
Record NewRevision : Type := mkNewRevision {
  new_account : AccountId;
  new_id : RevisionId;
  new_row : RevisionRow;
  new_now : Z
}.

Definition add_prepare (snapshot : Snapshot) : vop NewRevision :=
  check_session_freshness clock ≫= fun _ =>
  require_active ≫= fun _ =>
  account_id ← derive_fresh_account_id ADD_ACCOUNT_RETRY_BUDGET;
  revision_id ← random_32;
  a ← require_active;
  nonce ← random_32;
  ct ← lift (seal_snapshot (vdk a) nonce snapshot
               (mkAad vault_id account_id GENESIS_PARENT wrap_schema));
  now ← current_unix_ms;
  v ← gets vault;
  mret (mkNewRevision account_id revision_id
    (local_row account_id GENESIS_PARENT (vault_device_id v) wrap_schema now ct nonce false
               (current_vdk_epoch_i64 v)) now).

(** A call on [active_mut.search_index]; what it did to the index before an error
    stays. *)
Definition on_index (m : op Index StoreError unit) : vop unit := fun w =>
  match active (vault w) with
  | None => (Err NotUnlocked, w)
  | Some a =>
      let '(r, index) := m (search_index a) in
      (r, map_vault (set_active (Some (set_caches (cache a) index a))) w)
  end.

Definition map_cache (f : gmap Z Snapshot -> gmap Z Snapshot) : vop unit :=
  map_active (fun a => set_caches (f (cache a)) (search_index a) a).

(** After the commit: the window, the index, the cache and the touch. *)
Definition put_snapshot (indexing : op Index StoreError unit) (id : AccountId) (snapshot : Snapshot)
    (now : Z) : vop unit :=
  note_dirty_marker_stamped now ≫= fun _ =>
  on_index indexing ≫= fun _ =>
  map_cache (insert id snapshot) ≫= fun _ =>
  touch_session clock.

Definition add_account (snapshot : Snapshot) : vop AccountId :=
  p ← add_prepare snapshot;
  transaction (tx_add (new_account p) (new_id p) (new_row p) (new_now p)) ≫= fun _ =>
  put_snapshot (index_insert (new_account p) (new_now p) (from_snapshot snapshot))
    (new_account p) snapshot (new_now p) ≫= fun _ => mret (new_account p).

(** ** [update_account] and [delete_account] *)

(** The gates and the head lookup the two methods share. *)
Definition edit_target (id : AccountId) : vop RevisionId :=
  check_session_freshness clock ≫= fun _ =>
  require_active ≫= fun _ =>
  refuse_if_frozen id ≫= fun _ =>
  refuse_if_requires_upgrade id ≫= fun _ =>
  d ← get_db;
  row ← lift (ok_or (account_identities d !! id) AccountNotFound);
  if tombstoned row then throw AccountTombstoned else mret (head_revision_id row).

Definition update_prepare (id : AccountId) (new_snapshot : Snapshot) : vop NewRevision :=
  parent ← edit_target id;
  revision_id ← random_32;
  a ← require_active;
  nonce ← random_32;
  ct ← lift (seal_snapshot (vdk a) nonce new_snapshot (mkAad vault_id id parent wrap_schema));
  now ← current_unix_ms;
  v ← gets vault;
  mret (mkNewRevision id revision_id
    (local_row id parent (vault_device_id v) wrap_schema now ct nonce false
               (current_vdk_epoch_i64 v)) now).

Definition update_account (id : AccountId) (new_snapshot : Snapshot) : vop RevisionId :=
  p ← update_prepare id new_snapshot;
  transaction (tx_edit id (new_id p) (new_row p) (new_now p) false) ≫= fun _ =>
  put_snapshot (index_update id (new_now p) (from_snapshot new_snapshot)) id new_snapshot (new_now p)
  ≫= fun _ => mret (new_id p).

Definition delete_prepare (id : AccountId) : vop NewRevision :=
  parent ← edit_target id;
  revision_id ← random_32;
  a ← require_active;
  now ← current_unix_ms;
  nonce ← random_32;
  ct ← lift (seal_payload (vdk a) nonce (TombstonePayload id (Z.max 0 now))
               (mkAad vault_id id parent wrap_schema));
  v ← gets vault;
  mret (mkNewRevision id revision_id
    (local_row id parent (vault_device_id v) wrap_schema now ct nonce true
               (current_vdk_epoch_i64 v)) now).

Definition drop_snapshot (id : AccountId) (now : Z) : vop unit :=
  note_dirty_marker_stamped now ≫= fun _ =>
  on_index (index_remove id) ≫= fun _ =>
  map_cache (delete id) ≫= fun _ =>
  touch_session clock.

Definition delete_account (id : AccountId) : vop unit :=
  p ← delete_prepare id;
  transaction (tx_edit id (new_id p) (new_row p) (new_now p) true) ≫= fun _ =>
  drop_snapshot id (new_now p).

(** ** [clear_frozen] *)

Definition tx_clear_frozen (id : AccountId) (chosen : RevisionId) (now : Z) (d : Database) :
    store_result (Database * unit) :=
  if bool_decide (chosen ∈ head_query d id)
  then Ok (update_account_row id
             (fun a => mkAccountRow (account_created_at a) now (tombstoned a) chosen false) d, tt)
  else Err (NotAHead id chosen (head_query d id)).

Definition clear_frozen_prepare (id : AccountId) (chosen : RevisionId) : vop Z :=
  maybe_expire_active_session clock ≫= fun _ =>
  d ← get_db;
  lift (ok_or (account_identities d !! id) AccountNotFound) ≫= fun _ =>
  row ← lift (ok_or (t_revisions d !! chosen) RevisionNotFound);
  (if bool_decide (row_account row = id) then mret tt else throw RevisionNotFound) ≫= fun _ =>
  current_unix_ms.

Definition clear_frozen (id : AccountId) (chosen : RevisionId) : vop unit :=
  now ← clear_frozen_prepare id chosen;
  transaction (tx_clear_frozen id chosen now) ≫= fun _ =>
  touch_session clock.

(** ** [resolve_fork] *)

Definition resolve_fork_validate (id : AccountId) (keep : RevisionId) (d : Database) :
    store_result (Z * bool) :=
  a ← ok_or (account_identities d !! id) AccountNotFound;
  if tombstoned a then Err AccountTombstoned
  else
    r ← ok_or (t_revisions d !! keep) AccountNotFound;
    if bool_decide (row_account r = id) then
      schema ← ok_or (u8_try_from (row_schema r)) (Corrupted IntegerOverflow);
      heads ← account_heads d id;
      if (Z.of_nat (length heads) <=? 1) then Err (Validation "not-forked")
      else if bool_decide (keep ∈ heads) then Ok (schema, row_is_tombstone r)
      else Err (NotAHead id keep heads)
    else Err AccountNotFound.

(** [read_identity_at]. *)
Definition read_identity_at (id : AccountId) (rid : RevisionId)
    (v : Vault Database Snapshot Key Index) : store_result Identity :=
  r ← ok_or (t_revisions (db v) !! rid) RevisionNotFound;
  if bool_decide (row_account r = id) then
    schema ← ok_or (u8_try_from (row_schema r)) (Corrupted IntegerOverflow);
    a ← ok_or (active v) NotUnlocked;
    payload ← map_err (fun e => with_revision_context e id rid)
                (open_identity_payload (vdk a) (enc_nonce r) (enc_payload r)
                   (mkAad vault_id id (row_parent r) schema));
    if REVISION_SCHEMA_VERSION_MAX <? schema
    then Err (UnsupportedRevisionSchemaVersion id rid schema REVISION_SCHEMA_VERSION_MAX)
    else match payload with
         | LivePayload identity => Ok identity
         | TombstonePayload _ _ => Err AccountTombstoned
         end
  else Err RevisionNotFound.

(** The key a row of epoch [epoch] is opened under: the current one or a
    retained one ([read_payload_plaintext_for_resolve] and the cache build). *)
Definition entry_key (a : ActiveState Snapshot Key Index) (epoch : Z) : store_result Key :=
  if epoch =? current_epoch (chain a) then Ok (vdk a)
  else ok_or (retained (chain a) !! epoch) AuthenticationFailed.

Definition read_payload_plaintext_for_resolve (id : AccountId) (rid : RevisionId) : vop Snapshot :=
  check_session_freshness clock ≫= fun _ =>
  require_active ≫= fun _ =>
  d ← get_db;
  lift (ok_or (account_identities d !! id) AccountNotFound) ≫= fun _ =>
  r ← lift (ok_or (t_revisions d !! rid) AccountNotFound);
  (if bool_decide (row_account r = id) then mret tt else throw AccountNotFound) ≫= fun _ =>
  epoch ← lift (ok_or (u64_try_from (vdk_epoch r)) (Corrupted IntegerOverflow));
  schema ← lift (ok_or (u8_try_from (row_schema r)) (Corrupted IntegerOverflow));
  a ← require_active;
  key ← lift (entry_key a epoch);
  payload ← lift (open_payload key (enc_nonce r) (enc_payload r)
                    (mkAad vault_id id (row_parent r) schema));
  match payload with
  | LivePayload snapshot => touch_session clock ≫= fun _ => mret snapshot
  | TombstonePayload _ _ => throw Cbor
  end.

(** [account_get]: the head that is read, and its identity. *)
Definition account_get (id : AccountId) : vop (RevisionId * Identity) :=
  cached_head ← edit_target id;
  v ← gets vault;
  heads ← lift (account_heads (db v) id);
  head ← (if 1 <? Z.of_nat (length heads) then
            match vault_canonical_head (db v) id with
            | Some r => lift r
            | None => throw Internal
            end
          else mret cached_head);
  identity ← lift (read_identity_at id head v);
  touch_session clock ≫= fun _ => mret (head, identity).

(** The loop of [UPDATE revisions SET superseded_by]. *)
Definition supersede_losers (id : AccountId) (keep merge : RevisionId) (losers : list RevisionId)
    (d : Database) : Database :=
  update_revisions
    (fun rid r => bool_decide (rid ∈ losers /\ rid <> keep /\ row_account r = id))
    (set_row_superseded merge) d.

Definition tx_resolve (id : AccountId) (keep merge : RevisionId) (row : RevisionRow) (now : Z)
    (d : Database) : store_result (Database * unit) :=
  let heads := head_query d id in
  if bool_decide (keep ∈ heads) then
    d2 ← insert_revision merge row (supersede_losers id keep merge heads d);
    let d3 := update_account_row id
      (fun a => mkAccountRow (account_created_at a) now (row_is_tombstone row) merge false) d2 in
    Ok ((insert_dirty id merge now d3).1, tt)
  else Err (NotAHead id keep heads).

(** [prune_orphan_pending_merges]; its result is ignored by the caller. *)
Definition tx_prune_pending_merges (id : AccountId) (d : Database) : Database :=
  set_pending_merges
    (filter (fun p => p.1.1 <> id \/ p.1.2 ∈ head_query d id) (pending_merges d)) d.

Definition prune_orphan_pending_merges (id : AccountId) : vop Z :=
  maybe_expire_active_session clock ≫= fun _ =>
  d ← get_db;
  lift (ok_or (account_identities d !! id) AccountNotFound) ≫= fun _ =>
  let d' := tx_prune_pending_merges id d in
  put_db d' ≫= fun _ =>
  touch_session clock ≫= fun _ =>
  mret (Z.of_nat (size (pending_merges d)) - Z.of_nat (size (pending_merges d'))).

(** [let _ = f()]: the effects of a call whose error is dropped. *)
Definition best_effort {A} (m : vop A) : vop unit := fun w => (Ok tt, (m w).2).

Definition resolve_fork_sync_cache (id : AccountId) (merge : RevisionId) (now : Z)
    (is_tombstone : bool) : vop unit :=
  v ← gets vault;
  if is_tombstone then
    map_cache (delete id) ≫= fun _ => best_effort (on_index (index_remove id))
  else
    match read_identity_at id merge v with
    | Err _ => mret tt
    | Ok identity =>
        let snapshot := downgrade_identity_to_snapshot identity in
        best_effort (on_index (index_update id now (from_identity identity))) ≫= fun _ =>
        map_cache (insert id snapshot)
    end.

(** The payload of the merge revision: the chosen leaf, authenticated and
    re-sealed, or a fresh tombstone when the leaf is one. *)
Definition merge_payload (id : AccountId) (keep : RevisionId) (is_tombstone : bool) (now : Z)
    (v : Vault Database Snapshot Key Index) : store_result (DecodedPayload Identity) :=
  if is_tombstone then
    match read_identity_at id keep v with
    | Err AccountTombstoned => Ok (TombstonePayload id (Z.max 0 now))
    | Err e => Err e
    | Ok _ => Err AuthenticationFailed
    end
  else identity ← read_identity_at id keep v; Ok (LivePayload identity).

Definition resolve_fork_prepare (id : AccountId) (keep : RevisionId) : vop NewRevision :=
  check_session_freshness clock ≫= fun _ =>
  require_active ≫= fun _ =>
  d ← get_db;
  '(schema, is_tombstone) ← lift (resolve_fork_validate id keep d);
  merge ← random_32;
  now ← current_unix_ms;
  v ← gets vault;
  payload ← lift (merge_payload id keep is_tombstone now v);
  a ← require_active;
  nonce ← random_32;
  ct ← lift (seal_payload (vdk a) nonce payload (mkAad vault_id id keep schema));
  mret (mkNewRevision id merge
    (local_row id keep (vault_device_id v) schema now ct nonce is_tombstone
               (current_vdk_epoch_i64 v)) now).

(** After the commit the merge stays, whatever the clean-up does. *)
Definition resolve_fork_finish (id : AccountId) (p : NewRevision) : vop RevisionId :=
  note_dirty_marker_stamped (new_now p) ≫= fun _ =>
  best_effort (prune_orphan_pending_merges id) ≫= fun _ =>
  resolve_fork_sync_cache id (new_id p) (new_now p) (row_is_tombstone (new_row p)) ≫= fun _ =>
  touch_session clock ≫= fun _ => mret (new_id p).

Definition resolve_fork (id : AccountId) (keep : RevisionId) : vop RevisionId :=
  p ← resolve_fork_prepare id keep;
  transaction (tx_resolve id keep (new_id p) (new_row p) (new_now p)) ≫= fun _ =>
  resolve_fork_finish id p.

(** ** Reads *)

Definition get_account (w : W) (id : AccountId) : option Snapshot :=
  if is_session_active clock w then
    if is_account_frozen (db (vault w)) id then None
    else active (vault w) ≫= fun a => cache a !! id
  else None.

Definition list_accounts (w : W) : list AccountId :=
  if is_session_active clock w then
    match active (vault w) with
    | None => []
    | Some a => filter (fun id => is_account_frozen (db (vault w)) id = false)
                       (elements (dom (cache a)))
    end
  else [].

(** ** Frame: what the gates leave alone *)

(** Equal up to the random generator and the merge stash. *)
Definition same_tables (d d' : Database) : Prop :=
  set_pending_merges ∅ (set_draws 0 d) = set_pending_merges ∅ (set_draws 0 d').

#[export] Instance same_tables_equivalence : Equivalence same_tables.
Proof. unfold same_tables. split; [by intros ?|by intros ???|intros ?????; by etrans]. Qed.

Definition db_same (w w' : W) : Prop := same_tables (db (vault w)) (db (vault w')).

#[export] Instance db_same_preorder : PreOrder db_same.
Proof. unfold db_same. split; [by intros ?|intros ?????; by etrans]. Qed.

Lemma same_tables_draws n d : same_tables d (set_draws n d).
Proof. done. Qed.

Lemma same_tables_fields d d' :
  same_tables d d' ->
  account_identities d = account_identities d' /\ t_revisions d = t_revisions d'
  /\ dirty_accounts d = dirty_accounts d'.
Proof. unfold same_tables. destruct d, d'; simpl. intros [=]. done. Qed.

Ltac db_step := intros w; unfold db_same; simpl; by try apply same_tables_draws.

Lemma get_db_same : moves db_same get_db.
Proof. db_step. Qed.
Lemma random_32_same : moves db_same random_32.
Proof. db_step. Qed.
Lemma current_unix_ms_same : moves db_same current_unix_ms.
Proof. db_step. Qed.
Lemma map_active_same f : moves db_same (map_active f).
Proof. db_step. Qed.
Lemma on_index_same m : moves db_same (on_index m).
Proof.
  intros w. unfold on_index. destruct (active (vault w)) as [a|]; [|done].
  by destruct (m (search_index a)).
Qed.
Lemma map_cache_same f : moves db_same (map_cache f).
Proof. apply map_active_same. Qed.
Lemma clock_now_same : moves db_same (clock_now clock : vop Z).
Proof. db_step. Qed.
Lemma expire_same : moves db_same (expire : vop unit).
Proof. db_step. Qed.
Lemma require_active_same : moves db_same (require_active : vop _).
Proof. unfold require_active. moving. Qed.

Hint Resolve get_db_same random_32_same current_unix_ms_same map_active_same on_index_same map_cache_same clock_now_same
  expire_same require_active_same : pangolin.

Lemma check_same : moves db_same (check_session_freshness clock : vop unit).
Proof. unfold check_session_freshness. moving. Qed.
Lemma maybe_expire_same : moves db_same (maybe_expire_active_session clock : vop unit).
Proof. unfold maybe_expire_active_session. moving. Qed.
Lemma refuse_if_frozen_same id : moves db_same (refuse_if_frozen id : vop unit).
Proof. unfold refuse_if_frozen. moving. Qed.
Lemma refuse_if_requires_upgrade_same id : moves db_same (refuse_if_requires_upgrade id : vop unit).
Proof. unfold refuse_if_requires_upgrade. moving. Qed.
Lemma touch_session_same : moves db_same (touch_session clock : vop unit).
Proof.
  unfold touch_session. apply moves_bind; [apply _|auto with pangolin|intros v].
  destruct (session_state v); try (by apply moves_ret, _).
  apply moves_bind; [apply _|auto with pangolin|intros now]. db_step.
Qed.

Hint Resolve check_same maybe_expire_same refuse_if_frozen_same refuse_if_requires_upgrade_same
  touch_session_same : pangolin.

Lemma note_dirty_same now : moves db_same (note_dirty_marker_stamped now).
Proof. unfold note_dirty_marker_stamped. moving. Qed.
Lemma derive_fresh_account_id_same n : moves db_same (derive_fresh_account_id n).
Proof. induction n as [|n IH]; simpl; moving. Qed.
Lemma edit_target_same id : moves db_same (edit_target id).
Proof. unfold edit_target. moving. Qed.
Lemma best_effort_same {A} (m : vop A) : moves db_same m -> moves db_same (best_effort m).
Proof. intros Hm w. apply Hm. Qed.
Hint Resolve best_effort_same : pangolin.
Lemma resolve_fork_sync_cache_same id merge now b :
  moves db_same (resolve_fork_sync_cache id merge now b).
Proof. unfold resolve_fork_sync_cache. moving. Qed.

Hint Resolve note_dirty_same derive_fresh_account_id_same edit_target_same
  resolve_fork_sync_cache_same : pangolin.

(** A read-only call, run to success, leaves equal tables behind. *)
Lemma moves_Ok {A} (m : vop A) w r w' :
  moves db_same m -> m w = (r, w') -> same_tables (db (vault w)) (db (vault w')).
Proof. intros Hm Hr. specialize (Hm w). by rewrite Hr in Hm. Qed.

Lemma transaction_inv {A} (f : Database -> store_result (Database * A)) w r w' :
  transaction f w = (r, w') ->
  match r with
  | Ok a => exists d', f (db (vault w)) = Ok (d', a) /\ w' = map_vault (set_db d') w
  | Err e => f (db (vault w)) = Err e /\ w' = w
  end.
Proof.
  unfold transaction, get_db, put_db, gets, modify, lift, mbind, op_bind. simpl.
  destruct (f (db (vault w))) as [[d' a]|e]; intros [= <- <-]; simpl; eauto.
Qed.

(** The shape of every edit: a read-only preparation, a transaction and a
    read-only completion.  Either nothing was committed, or the tables are
    what the transaction made of the tables before the call. *)
Lemma edit_shape {A B C} (pre : vop A) (tx : A -> Database -> store_result (Database * B))
    (post : A -> B -> vop C) w r w' :
  moves db_same pre -> (forall a b, moves db_same (post a b)) ->
  (pre ≫= fun a => transaction (tx a) ≫= fun b => post a b) w = (r, w') ->
  (is_ok r = false /\ same_tables (db (vault w)) (db (vault w')))
  \/ exists a w1 d1 b, pre w = (Ok a, w1) /\ same_tables (db (vault w)) (db (vault w1))
       /\ tx a (db (vault w1)) = Ok (d1, b) /\ same_tables d1 (db (vault w'))
       /\ post a b (map_vault (set_db d1) w1) = (r, w').
Proof.
  intros Hpre Hpost. rewrite op_bind_eq. destruct (pre w) as [[a|e] w1] eqn:Ep.
  2: { intros [= <- <-]. left. split; [done|]. by apply (moves_Ok pre w (Err e)). }
  pose proof (moves_Ok pre w _ _ Hpre Ep) as H1. rewrite op_bind_eq.
  destruct (transaction (tx a) w1) as [[b|e] w2] eqn:Et; apply transaction_inv in Et.
  - destruct Et as (d1 & Htx & ->). intros Hq. right. exists a, w1, d1, b.
    split_and!; try done. by apply (moves_Ok (post a b) (map_vault (set_db d1) w1) r).
  - destruct Et as [Htx ->]. intros [= <- <-]. by left.
Qed.

(** ** The preparations *)

Lemma refuse_if_frozen_inv id (w : W) u w1 :
  refuse_if_frozen id w = (Ok u, w1) -> w1 = w /\ is_account_frozen (db (vault w)) id = false.
Proof.
  unfold refuse_if_frozen, gets, mbind, op_bind. simpl.
  by destruct (is_account_frozen _ _); intros [= <- <-].
Qed.

Lemma refuse_if_requires_upgrade_inv id (w : W) u w1 :
  refuse_if_requires_upgrade id w = (Ok u, w1) ->
  w1 = w /\ account_requires_upgrade (vault w) id = false.
Proof.
  unfold refuse_if_requires_upgrade, gets, mbind, op_bind. simpl.
  by destruct (account_requires_upgrade _ _); intros [= <- <-].
Qed.

Lemma require_active_inv (w : W) a w1 :
  require_active w = (Ok a, w1) -> w1 = w /\ active (vault w) = Some a.
Proof.
  unfold require_active, gets, lift, mbind, op_bind. simpl.
  by destruct (active (vault w)); intros [= <- <-].
Qed.

Lemma check_inv (w : W) u w1 :
  check_session_freshness clock w = (Ok u, w1) ->
  vault w1 = vault w
  /\ exists e l s, session_state (vault w) = Active e l s /\ clock (ticks w) <= e.
Proof. by intros [? ->]%check_session_freshness_Ok. Qed.

Lemma is_account_frozen_row (d : Database) id a :
  account_identities d !! id = Some a -> is_account_frozen d id = frozen a.
Proof. unfold is_account_frozen. simpl. intros ->. simpl. by destruct (frozen a). Qed.

(** What the shared gate of update, delete and get establishes. *)
Record editable (w : W) (id : AccountId) (a : AccountRow) : Prop := {
  ed_row : account_identities (db (vault w)) !! id = Some a;
  ed_live : tombstoned a = false;
  ed_unfrozen : frozen a = false;
  ed_upgrade : account_requires_upgrade (vault w) id = false;
  ed_session : exists e l s, session_state (vault w) = Active e l s /\ clock (ticks w) <= e
}.

Lemma edit_target_inv id (w : W) h w1 :
  edit_target id w = (Ok h, w1) ->
  vault w1 = vault w /\ is_Some (active (vault w))
  /\ exists a, editable w id a /\ h = head_revision_id a.
Proof.
  unfold edit_target. intros Hr.
  apply op_bind_Ok in Hr as (u0 & s0 & [Hv Hs]%check_inv & Hr).
  apply op_bind_Ok in Hr as (a0 & s1 & [-> Ha0]%require_active_inv & Hr).
  apply op_bind_Ok in Hr as (u1 & s2 & [-> Hf]%refuse_if_frozen_inv & Hr).
  apply op_bind_Ok in Hr as (u2 & s3 & [-> Hu]%refuse_if_requires_upgrade_inv & Hr).
  rewrite Hv in *. unfold get_db, gets, mbind, op_bind, lift in Hr. simpl in Hr. rewrite Hv in Hr.
  destruct (account_identities (db (vault w)) !! id) as [a|] eqn:Ea; [|done]. simpl in Hr.
  destruct (tombstoned a) eqn:Et; [done|]. injection Hr as <- <-.
  rewrite (is_account_frozen_row _ _ _ Ea) in Hf.
  split_and!; [done|by eexists|]. by exists a.
Qed.

Lemma edit_target_editable id (w : W) a :
  editable w id a -> is_Some (active (vault w)) ->
  exists w1, edit_target id w = (Ok (head_revision_id a), w1) /\ vault w1 = vault w.
Proof.
  intros [Hrow Hlive Hfr Hup (e & l & s & Hs & Hle)] [act Hact]. unfold edit_target.
  set (w1 := mkWorld (vault w) (presence w) (S (ticks w))).
  rewrite (op_bind_run _ _ w tt w1).
  2: { rewrite check_session_freshness_eq, Hs. simpl.
       by replace (e <? clock (ticks w)) with false by (symmetry; by apply Z.ltb_ge). }
  exists w1. split; [|done].
  unfold require_active, refuse_if_frozen, refuse_if_requires_upgrade, get_db, gets, lift,
    mbind, op_bind. simpl. rewrite Hact. simpl.
  rewrite (is_account_frozen_row _ _ _ Hrow), Hfr. simpl. rewrite Hup. simpl. rewrite Hrow. simpl.
  by rewrite Hlive.
Qed.

(** The row an edit is about to insert. *)
Record fresh_row (p : NewRevision) (id : AccountId) (parent : RevisionId) (del : bool) : Prop := {
  fr_account : new_account p = id;
  fr_row_account : row_account (new_row p) = id;
  fr_parent : row_parent (new_row p) = parent;
  fr_created : row_created_at (new_row p) = new_now p;
  fr_tombstone : row_is_tombstone (new_row p) = del;
  fr_unanchored : row_anchor (new_row p) = None;
  fr_superseded : row_superseded_by (new_row p) = None;
  fr_revoked : revoked (new_row p) = false
}.

Lemma update_prepare_inv id snap (w : W) p w1 :
  update_prepare id snap w = (Ok p, w1) ->
  active (vault w1) = active (vault w) /\ is_Some (active (vault w))
  /\ exists a, editable w id a /\ fresh_row p id (head_revision_id a) false.
Proof.
  unfold update_prepare. intros Hr.
  apply op_bind_Ok in Hr as (h & s0 & (Hv & Hact & a & Hed & ->)%edit_target_inv & Hr).
  unfold random_32, get_db, put_db, require_active, current_unix_ms, gets, modify, lift,
    mbind, op_bind in Hr. simpl in Hr. rewrite Hv in Hr.
  destruct Hact as [act Hact]. rewrite Hact in Hr. simpl in Hr.
  destruct (seal_snapshot _ _ _ _); [|done]. injection Hr as <- <-. simpl. rewrite ?Hv.
  split_and!; [done|by eexists|]. by exists a.
Qed.

Lemma delete_prepare_inv id (w : W) p w1 :
  delete_prepare id w = (Ok p, w1) ->
  active (vault w1) = active (vault w) /\ is_Some (active (vault w))
  /\ exists a, editable w id a /\ fresh_row p id (head_revision_id a) true.
Proof.
  unfold delete_prepare. intros Hr.
  apply op_bind_Ok in Hr as (h & s0 & (Hv & Hact & a & Hed & ->)%edit_target_inv & Hr).
  unfold random_32, get_db, put_db, require_active, current_unix_ms, gets, modify, lift,
    mbind, op_bind in Hr. simpl in Hr. rewrite Hv in Hr.
  destruct Hact as [act Hact]. rewrite Hact in Hr. simpl in Hr.
  destruct (seal_payload _ _ _ _); [|done]. injection Hr as <- <-. simpl. rewrite ?Hv.
  split_and!; [done|by eexists|]. by exists a.
Qed.

Lemma update_prepare_same id snap : moves db_same (update_prepare id snap).
Proof. unfold update_prepare. moving. Qed.
Lemma delete_prepare_same id : moves db_same (delete_prepare id).
Proof. unfold delete_prepare. moving. Qed.
Lemma put_snapshot_same m id snap now : moves db_same (put_snapshot m id snap now).
Proof. unfold put_snapshot. moving. Qed.
Lemma drop_snapshot_same id now : moves db_same (drop_snapshot id now).
Proof. unfold drop_snapshot. moving. Qed.

Hint Resolve update_prepare_same delete_prepare_same put_snapshot_same drop_snapshot_same
  : pangolin.

Lemma note_dirty_active now (w : W) a :
  active (vault w) = Some a ->
  exists w1 a1, note_dirty_marker_stamped now w = (Ok tt, w1) /\ active (vault w1) = Some a1
    /\ search_index a1 = search_index a.
Proof.
  intros Ha. unfold note_dirty_marker_stamped, map_active, modify. do 2 eexists. split; [done|].
  simpl. rewrite Ha. simpl. split; [done|]. by destruct (window_started_at_unix_ms a).
Qed.

Lemma on_index_run m (w : W) a :
  active (vault w) = Some a ->
  exists r index w', m (search_index a) = (r, index) /\ on_index m w = (r, w').
Proof. intros Ha. unfold on_index. rewrite Ha. destruct (m (search_index a)) as [r index]. by do 3 eexists. Qed.

(** The tail of an edit ends with success or with the error of the index. *)
Lemma edit_tail_total m f now (w : W) :
  is_Some (active (vault w)) ->
  exists r w', (note_dirty_marker_stamped now ≫= fun _ => on_index m ≫= fun _ => map_cache f ≫= fun _ =>
                touch_session clock) w = (r, w')
    /\ (r = Ok tt \/ exists e ix ix', r = Err e /\ m ix = (Err e, ix')).
Proof.
  intros [a Ha]. destruct (note_dirty_active now w a Ha) as (w1 & a1 & Hn & Ha1 & _).
  rewrite (op_bind_run _ _ _ _ _ Hn). destruct (on_index_run m w1 a1 Ha1) as (r & ix & w2 & Hm & Hr).
  rewrite op_bind_eq, Hr. destruct r as [[]|e].
  - rewrite op_bind_eq. unfold map_cache, map_active, modify.
    match goal with |- context [touch_session clock ?w3] =>
      destruct (touch_session_total clock w3) as (w4 & Ht & _) end.
    rewrite Ht. do 2 eexists. split; [done|by left].
  - do 2 eexists. split; [done|]. right. by do 3 eexists.
Qed.

(** ** Specification of an edit *)

(** The database after an edit of [id] whose head was [a]'s: one new row on
    top of the old head, the head pointer on it, the marker of the publish
    queue, and nothing else. *)
Record edit_effect (d d' : Database) (id : AccountId) (a : AccountRow) (rid : RevisionId)
    (del : bool) : Prop := {
  ee_new : t_revisions d !! rid = None;
  ee_row : exists row, t_revisions d' = <[rid := row]> (t_revisions d)
    /\ row_account row = id /\ row_parent row = head_revision_id a
    /\ row_is_tombstone row = del /\ row_anchor row = None
    /\ row_superseded_by row = None /\ revoked row = false
    /\ account_identities d' =
         <[id := mkAccountRow (account_created_at a) (row_created_at row) (del || tombstoned a) rid
                   (frozen a)]> (account_identities d);
  ee_dirty : is_Some (dirty_accounts d' !! (id, rid))
    /\ forall k, k <> (id, rid) -> dirty_accounts d' !! k = dirty_accounts d !! k
}.

Lemma alter_Some {A} (f : A -> A) (i : Z) (m : gmap Z A) x :
  m !! i = Some x -> alter f i m = <[i := f x]> m.
Proof.
  intros Hx. apply map_eq. intros j. destruct (decide (i = j)) as [<-|Hne].
  - by rewrite lookup_alter_eq, lookup_insert_eq, Hx.
  - by rewrite lookup_alter_ne, lookup_insert_ne.
Qed.

Lemma insert_revision_Ok rid row d d' :
  insert_revision rid row d = Ok d' ->
  t_revisions d !! rid = None /\ is_Some (account_identities d !! row_account row)
  /\ d' = set_revisions (<[rid := row]> (t_revisions d)) d.
Proof.
  unfold insert_revision. destruct (t_revisions d !! rid); [done|].
  destruct (account_identities d !! row_account row); [|done]. intros [= <-]. by split_and!.
Qed.

Lemma insert_dirty_spec id rid now d :
  let d' := (insert_dirty id rid now d).1 in
  account_identities d' = account_identities d /\ t_revisions d' = t_revisions d
  /\ is_Some (dirty_accounts d' !! (id, rid))
  /\ forall k, k <> (id, rid) -> dirty_accounts d' !! k = dirty_accounts d !! k.
Proof.
  unfold insert_dirty. destruct (dirty_accounts d !! (id, rid)) eqn:E; simpl.
  - rewrite ?E. by split_and!.
  - split_and!; [done|done|by rewrite lookup_insert_eq|].
    intros k Hk. by rewrite lookup_insert_ne.
Qed.

Lemma tx_edit_effect p id a del d d' u :
  fresh_row p id (head_revision_id a) del -> account_identities d !! id = Some a ->
  tx_edit id (new_id p) (new_row p) (new_now p) del d = Ok (d', u) ->
  edit_effect d d' id a (new_id p) del.
Proof.
  intros [_ Hacct Hpar Hcr Htomb Hanc Hsup Hrev] Ha. unfold tx_edit, mbind, result_bind.
  destruct (insert_revision _ _ d) as [d1|e] eqn:Ei; [|done].
  apply insert_revision_Ok in Ei as (Hfresh & _ & ->). intros [= <-].
  match goal with |- edit_effect _ (insert_dirty _ _ _ ?d2).1 _ _ _ _ =>
    destruct (insert_dirty_spec id (new_id p) (new_now p) d2) as (H1 & H2 & H3 & H4) end.
  split; [done| |by split; [|intros k Hk; rewrite H4]].
  exists (new_row p). rewrite H1, H2. simpl. rewrite (alter_Some _ _ _ a) by done.
  split_and!; try done. unfold advance_head. by rewrite Hcr.
Qed.

Lemma edit_effect_same d0 d1 d2 d3 id a rid del :
  same_tables d0 d1 -> edit_effect d1 d2 id a rid del -> same_tables d2 d3 ->
  edit_effect d0 d3 id a rid del.
Proof.
  intros (Ha & Hr & Hd)%same_tables_fields [H1 H2 [H3 H4]] (Ha' & Hr' & Hd')%same_tables_fields.
  split.
  - by rewrite Hr.
  - destruct H2 as (row & Hrow & H2). exists row. by rewrite <- Hr', Hr, <- Ha', Ha.
  - rewrite <- Hd', Hd. done.
Qed.

(** The outcome of an edit: committed as specified, with the id of the new
    revision or the index's error, or nothing committed. *)
Definition edit_outcome {A} (w w' : W) (id : AccountId) (del : bool) (r : store_result A)
    (ok_value : RevisionId -> A -> Prop) (index_error : StoreError -> Prop) : Prop :=
  (exists a rid, editable w id a
     /\ edit_effect (db (vault w)) (db (vault w')) id a rid del
     /\ match r with Ok x => ok_value rid x | Err e => index_error e end)
  \/ (is_ok r = false /\ account_identities (db (vault w')) = account_identities (db (vault w))
      /\ t_revisions (db (vault w')) = t_revisions (db (vault w))
      /\ dirty_accounts (db (vault w')) = dirty_accounts (db (vault w))).

Lemma same_tables_unchanged d d' :
  same_tables d d' ->
  account_identities d' = account_identities d /\ t_revisions d' = t_revisions d
  /\ dirty_accounts d' = dirty_accounts d.
Proof. by intros (-> & -> & ->)%same_tables_fields. Qed.

Lemma update_account_outcome id snap (w : W) r w' :
  update_account id snap w = (r, w') ->
  edit_outcome w w' id false r (fun rid x => x = rid)
    (fun e => exists ix ix' now, index_update id now (from_snapshot snap) ix = (Err e, ix')).
Proof.
  intros Hr. apply edit_shape in Hr; [|auto with pangolin|intros; moving].
  destruct Hr as [[He Hs]|(p & w1 & d1 & b & Hp & Hs1 & Htx & Hs2 & Hpost)].
  { right. split; [done|by apply same_tables_unchanged]. }
  left. apply update_prepare_inv in Hp as (Hact & Hsome & a & Hed & Hfr).
  exists a, (new_id p). split_and!; [done| |].
  - eapply edit_effect_same; [exact Hs1| |exact Hs2]. eapply tx_edit_effect; [done| |exact Htx].
    apply same_tables_fields in Hs1 as (<- & _). apply Hed.
  - destruct (edit_tail_total (index_update id (new_now p) (from_snapshot snap)) (insert id snap) (new_now p)
      (map_vault (set_db d1) w1)) as (rr & w2 & Hput & Hcase); [simpl; by rewrite Hact|].
    rewrite op_bind_eq in Hpost. unfold put_snapshot in Hpost. rewrite Hput in Hpost.
    destruct Hcase as [->|(e & ix & ix' & -> & He)]; injection Hpost as <- <-; eauto.
Qed.

Lemma delete_account_outcome id (w : W) r w' :
  delete_account id w = (r, w') ->
  edit_outcome w w' id true r (fun _ _ => True) (fun e => exists ix ix', index_remove id ix = (Err e, ix')).
Proof.
  intros Hr. apply edit_shape in Hr; [|auto with pangolin|intros; moving].
  destruct Hr as [[He Hs]|(p & w1 & d1 & b & Hp & Hs1 & Htx & Hs2 & Hpost)].
  { right. split; [done|by apply same_tables_unchanged]. }
  left. apply delete_prepare_inv in Hp as (Hact & Hsome & a & Hed & Hfr).
  exists a, (new_id p). split_and!; [done| |].
  - eapply edit_effect_same; [exact Hs1| |exact Hs2]. eapply tx_edit_effect; [done| |exact Htx].
    apply same_tables_fields in Hs1 as (<- & _). apply Hed.
  - destruct (edit_tail_total (index_remove id) (delete id) (new_now p) (map_vault (set_db d1) w1))
      as (rr & w2 & Hput & Hcase); [simpl; by rewrite Hact|].
    unfold drop_snapshot in Hpost. rewrite Hput in Hpost.
    destruct Hcase as [->|(e & ix & ix' & -> & He)]; injection Hpost as <- <-; eauto.
Qed.

(** ** [add_account] *)

Definition retired (d : Database) (id : AccountId) : Prop :=
  exists a, account_identities d !! id = Some a /\ tombstoned a = true.

Lemma derive_fresh_account_id_eq n (w : W) :
  let d := db (vault w) in
  match derive_fresh_account_id n w with
  | (Ok id, w') => (~ retired d id) /\ active (vault w') = active (vault w)
  | (Err e, w') => e = Internal
      /\ forall k, (k < n)%nat -> retired d (rng (random_draws d + k))
  end.
Proof.
  revert w; induction n as [|n IH]; intros w; simpl; [split; [done|lia]|].
  unfold random_32, get_db, put_db, gets, modify, mbind, op_bind. simpl.
  set (d := db (vault w)). set (w1 := map_vault _ w).
  specialize (IH w1). simpl in IH. fold d in IH.
  destruct (account_identities d !! rng (random_draws d)) as [a|] eqn:Ea.
  - destruct (tombstoned a) eqn:Et.
    + destruct (derive_fresh_account_id n w1) as [[id|e] w2].
      * destruct IH as [Hn Hact]. split; [done|exact Hact].
      * destruct IH as [-> Hall]. split; [done|]. intros k Hk.
        destruct k as [|k]; [rewrite Nat.add_0_r; by exists a|].
        specialize (Hall k ltac:(lia)). by rewrite Nat.add_succ_r.
    + simpl. split; [|done]. intros (a' & Ha' & Ht). unfold d in *. congruence.
  - simpl. split; [|done]. intros (a' & Ha' & Ht). congruence.
Qed.

Lemma derive_all_retired n (w : W) :
  (forall k, (k < n)%nat -> retired (db (vault w)) (rng (random_draws (db (vault w)) + k))) ->
  exists w', derive_fresh_account_id n w = (Err Internal, w').
Proof.
  revert w; induction n as [|n IH]; intros w Hall; simpl; [by eexists|].
  unfold random_32, get_db, put_db, gets, modify, mbind, op_bind. simpl.
  destruct (Hall 0%nat ltac:(lia)) as (a & Ha & Ht). rewrite Nat.add_0_r in Ha.
  rewrite Ha, Ht. apply IH. simpl. intros k Hk.
  specialize (Hall (S k) ltac:(lia)). by rewrite Nat.add_succ_r in Hall.
Qed.

Lemma add_prepare_inv snap (w : W) p w1 :
  add_prepare snap w = (Ok p, w1) ->
  active (vault w1) = active (vault w) /\ is_Some (active (vault w))
  /\ fresh_row p (new_account p) GENESIS_PARENT false
  /\ ~ retired (db (vault w)) (new_account p)
  /\ exists e l s, session_state (vault w) = Active e l s /\ clock (ticks w) <= e.
Proof.
  unfold add_prepare. intros Hr.
  apply op_bind_Ok in Hr as (u0 & s0 & [Hv Hs]%check_inv & Hr).
  apply op_bind_Ok in Hr as (a0 & s1 & [-> Ha0]%require_active_inv & Hr).
  apply op_bind_Ok in Hr as (id & s2 & Hd & Hr).
  pose proof (derive_fresh_account_id_eq ADD_ACCOUNT_RETRY_BUDGET s0) as Hx. rewrite Hd in Hx.
  simpl in Hx. destruct Hx as [Hnr Hact]. rewrite Hv in *.
  unfold random_32, get_db, put_db, require_active, current_unix_ms, gets, modify, lift,
    mbind, op_bind in Hr. simpl in Hr. rewrite Hact, Ha0 in Hr. simpl in Hr.
  destruct (seal_snapshot _ _ _ _); [|done]. injection Hr as <- <-. simpl.
  split_and!; [done|by eexists|done|done|done].
Qed.

Lemma add_prepare_same snap : moves db_same (add_prepare snap).
Proof. unfold add_prepare. moving. Qed.
Hint Resolve add_prepare_same : pangolin.

Lemma insert_account_Ok id a d d' :
  insert_account id a d = Ok d' ->
  account_identities d !! id = None /\ d' = set_accounts (<[id := a]> (account_identities d)) d.
Proof.
  unfold insert_account. destruct (account_identities d !! id); [done|]. by intros [= <-].
Qed.

(** The database after an account is added. *)
Record add_effect (d d' : Database) (id : AccountId) (rid : RevisionId) : Prop := {
  ae_account : account_identities d !! id = None;
  ae_new : t_revisions d !! rid = None;
  ae_row : exists row, t_revisions d' = <[rid := row]> (t_revisions d)
    /\ row_account row = id /\ row_parent row = GENESIS_PARENT
    /\ row_is_tombstone row = false /\ row_anchor row = None
    /\ row_superseded_by row = None /\ revoked row = false
    /\ account_identities d' =
         <[id := mkAccountRow (row_created_at row) (row_created_at row) false rid false]>
           (account_identities d);
  ae_dirty : is_Some (dirty_accounts d' !! (id, rid))
    /\ forall k, k <> (id, rid) -> dirty_accounts d' !! k = dirty_accounts d !! k
}.

Lemma tx_add_effect p d d' u :
  fresh_row p (new_account p) GENESIS_PARENT false ->
  tx_add (new_account p) (new_id p) (new_row p) (new_now p) d = Ok (d', u) ->
  add_effect d d' (new_account p) (new_id p).
Proof.
  intros [_ Hacct Hpar Hcr Htomb Hanc Hsup Hrev]. unfold tx_add, mbind, result_bind.
  destruct (insert_account _ _ d) as [d1|e] eqn:Ea; [|done].
  apply insert_account_Ok in Ea as [Hnone ->].
  destruct (insert_revision _ _ _) as [d2|e] eqn:Ei; [|done].
  apply insert_revision_Ok in Ei as (Hfresh & _ & ->). intros [= <-].
  match goal with |- add_effect _ (insert_dirty _ _ _ ?d2).1 _ _ =>
    destruct (insert_dirty_spec (new_account p) (new_id p) (new_now p) d2) as (H1 & H2 & H3 & H4) end.
  split; [done|done| |by split; [|intros k Hk; rewrite H4]].
  exists (new_row p). rewrite H1, H2. simpl. by rewrite Hcr.
Qed.

(** ** [resolve_fork] *)

(** The columns no operation rewrites. *)
Definition same_content (r r' : RevisionRow) : Prop :=
  row_account r' = row_account r /\ row_parent r' = row_parent r /\ row_device r' = row_device r
  /\ row_schema r' = row_schema r /\ row_created_at r' = row_created_at r
  /\ enc_payload r' = enc_payload r /\ enc_nonce r' = enc_nonce r
  /\ row_is_tombstone r' = row_is_tombstone r /\ vdk_epoch r' = vdk_epoch r.

Record resolve_effect (d d' : Database) (id : AccountId) (keep merge : RevisionId) : Prop := {
  re_head : keep ∈ head_query d id;
  re_new : t_revisions d !! merge = None;
  re_row : exists row, t_revisions d' !! merge = Some row /\ row_account row = id
    /\ row_parent row = keep /\ row_superseded_by row = None /\ revoked row = false
    /\ account_identities d' =
         alter (fun a => mkAccountRow (account_created_at a) (row_created_at row)
                  (row_is_tombstone row) merge false) id (account_identities d);
  re_old : forall rid r, rid <> merge -> t_revisions d' !! rid =
    (fun r => if bool_decide (rid ∈ head_query d id /\ rid <> keep /\ row_account r = id)
              then set_row_superseded merge r else r) <$> t_revisions d !! rid
    /\ (t_revisions d !! rid = Some r -> exists r', t_revisions d' !! rid = Some r' /\ same_content r r');
  re_dirty : is_Some (dirty_accounts d' !! (id, merge))
    /\ forall k, k <> (id, merge) -> dirty_accounts d' !! k = dirty_accounts d !! k
}.

Lemma update_revisions_lookup p f d rid :
  t_revisions (update_revisions p f d) !! rid =
  (fun r => if p rid r then f r else r) <$> t_revisions d !! rid.
Proof.
  unfold update_revisions. simpl. rewrite map_lookup_imap.
  by destruct (t_revisions d !! rid).
Qed.

Lemma tx_resolve_effect p id keep d d' u :
  fresh_row p id keep (row_is_tombstone (new_row p)) ->
  tx_resolve id keep (new_id p) (new_row p) (new_now p) d = Ok (d', u) ->
  resolve_effect d d' id keep (new_id p).
Proof.
  intros [_ Hacct Hpar Hcr _ Hanc Hsup Hrev]. unfold tx_resolve, mbind, result_bind.
  case_bool_decide as Hk; [|done].
  destruct (insert_revision _ _ _) as [d2|e] eqn:Ei; [|done].
  apply insert_revision_Ok in Ei as (Hfresh & _ & ->). intros [= <-].
  unfold supersede_losers in Hfresh. rewrite update_revisions_lookup in Hfresh.
  apply fmap_None in Hfresh.
  match goal with |- resolve_effect _ (insert_dirty _ _ _ ?d2).1 _ _ _ =>
    destruct (insert_dirty_spec id (new_id p) (new_now p) d2) as (H1 & H2 & H3 & H4) end.
  split; [done|done| | |by split; [|intros k Hk'; rewrite H4]].
  - exists (new_row p). rewrite H1, H2. simpl. rewrite lookup_insert_eq, Hcr. done.
  - intros rid r Hne. rewrite H2. simpl. rewrite lookup_insert_ne by done.
    unfold supersede_losers. pose proof (update_revisions_lookup
      (fun rid r => bool_decide (rid ∈ head_query d id /\ rid <> keep /\ row_account r = id))
      (set_row_superseded (new_id p)) d rid) as Hl. simpl in Hl. rewrite Hl. split; [done|].
    intros Hr. rewrite Hr. simpl. eexists. split; [done|]. by case_bool_decide.
Qed.

Lemma tx_resolve_new_row p id keep d d' u :
  tx_resolve id keep (new_id p) (new_row p) (new_now p) d = Ok (d', u) ->
  t_revisions d' !! new_id p = Some (new_row p).
Proof.
  unfold tx_resolve, mbind, result_bind. case_bool_decide; [|done].
  destruct (insert_revision _ _ _) as [d2|e] eqn:Ei; [|done].
  apply insert_revision_Ok in Ei as (_ & _ & ->). intros [= <-].
  match goal with |- t_revisions (insert_dirty _ _ _ ?d2).1 !! _ = _ =>
    destruct (insert_dirty_spec id (new_id p) (new_now p) d2) as (_ & -> & _) end.
  simpl. by rewrite lookup_insert_eq.
Qed.

Lemma superseded_row d d' id keep merge rid r' :
  resolve_effect d d' id keep merge -> rid <> merge -> t_revisions d' !! rid = Some r' ->
  exists r, t_revisions d !! rid = Some r /\ same_content r r' /\ revoked r' = revoked r
    /\ (row_superseded_by r' = None -> row_superseded_by r = None
         /\ ~ (rid ∈ head_query d id /\ rid <> keep /\ row_account r = id)).
Proof.
  intros He Hne Hr'. destruct (re_old _ _ _ _ _ He rid r' Hne) as [Hl _]. rewrite Hr' in Hl.
  symmetry in Hl. apply fmap_Some in Hl as (r & Hr & ->). exists r. split; [done|].
  case_bool_decide as Hb; simpl; (split_and!; [done|done|]); [done|auto].
Qed.

(** After the merge the account has one head, the merge. *)
Lemma resolve_effect_heads d d' id keep merge :
  resolve_effect d d' id keep merge ->
  (forall rid r, t_revisions d !! rid = Some r -> row_account r = id -> row_parent r <> merge) ->
  head_query d' id = [merge].
Proof.
  intros He Hnopar. apply head_query_singleton. intros x. rewrite elem_of_head_query.
  destruct (re_row _ _ _ _ _ He) as (row & Hrow & Hacct & Hpar & Hsup & Hrev & _). split.
  - intros (r' & Hr' & Ha & Hs & Hr & Hc). destruct (decide (x = merge)) as [|Hne]; [done|].
    exfalso. destruct (superseded_row _ _ _ _ _ _ _ He Hne Hr') as (r & Hrr & Hsame & Hrv & Hs').
    destruct (Hs' Hs) as [Hsn Hnot]. destruct Hsame as (Ea & Ep & _).
    assert (Hx : x ∈ head_query d id).
    { apply elem_of_head_query. exists r. split_and!; [done|congruence|done|congruence|].
      intros k rk Hk Hp Hka. assert (Hkne : k <> merge).
      { intros ->. pose proof (re_new _ _ _ _ _ He). congruence. }
      destruct (re_old _ _ _ _ _ He k rk Hkne) as [Hl _]. rewrite Hk in Hl. simpl in Hl.
      assert (Hrk : revoked (if bool_decide (k ∈ head_query d id /\ k <> keep /\ row_account rk = id)
                             then set_row_superseded merge rk else rk) = true)
        by (apply (Hc k); [done|by case_bool_decide|by case_bool_decide]).
      by case_bool_decide. }
    destruct (decide (x = keep)) as [->|Hxk]; [|apply Hnot; split_and!; [done|done|congruence]].
    specialize (Hc merge row Hrow Hpar Hacct). congruence.
  - intros ->. exists row. split_and!; try done. intros k rk Hk Hp Hka.
    assert (Hkne : k <> merge).
    { intros ->. rewrite Hrow in Hk. injection Hk as <-. rewrite Hpar in Hp. subst keep.
      pose proof (re_head _ _ _ _ _ He) as (r & Hr & _)%elem_of_head_query.
      pose proof (re_new _ _ _ _ _ He). congruence. }
    destruct (superseded_row _ _ _ _ _ _ _ He Hkne Hk) as (r & Hr & (Ea & Ep & _) & _).
    exfalso. apply (Hnopar k r Hr); congruence.
Qed.

(** ... and the other accounts keep their heads. *)
Lemma resolve_effect_other_heads d d' id keep merge other :
  resolve_effect d d' id keep merge -> other <> id -> head_query d' other = head_query d other.
Proof.
  intros He Hne. destruct (re_row _ _ _ _ _ He) as (row & Hrow & Hacct & _).
  assert (Hback : forall x r', t_revisions d' !! x = Some r' -> row_account r' = other ->
            t_revisions d !! x = Some r').
  { intros x r' Hr' Ha. assert (Hx : x <> merge) by congruence.
    destruct (re_old _ _ _ _ _ He x r' Hx) as [Hl _]. rewrite Hr' in Hl. symmetry in Hl.
    apply fmap_Some in Hl as (r & Hr & ->). case_bool_decide as Hb; [|done].
    destruct Hb as (_ & _ & Hb). simpl in Ha. congruence. }
  assert (Hfwd : forall x r, t_revisions d !! x = Some r -> row_account r = other ->
            t_revisions d' !! x = Some r).
  { intros x r Hr Ha. assert (Hx : x <> merge).
    { intros ->. pose proof (re_new _ _ _ _ _ He). congruence. }
    destruct (re_old _ _ _ _ _ He x r Hx) as [Hl _]. rewrite Hl, Hr. simpl.
    rewrite bool_decide_eq_false_2; [done|]. intros (_ & _ & ?). congruence. }
  apply head_query_ext.
  - intros x r' Hr' (r & Hr & Ha & _)%elem_of_head_query. rewrite Hr' in Hr. injection Hr as <-.
    exists r'. split; [by apply Hback|done].
  - intros x. rewrite !elem_of_head_query. split; intros (r & Hr & Ha & Hs & Hv & Hc); exists r;
      (split_and!; [by auto|done|done|done|]); intros k rk Hk Hp Hka; apply (Hc k rk); auto.
Qed.

Lemma resolve_fork_validate_inv id keep d schema b :
  resolve_fork_validate id keep d = Ok (schema, b) ->
  exists a r, account_identities d !! id = Some a /\ tombstoned a = false
    /\ t_revisions d !! keep = Some r /\ row_account r = id /\ row_is_tombstone r = b
    /\ keep ∈ head_query d id /\ 1 < Z.of_nat (length (head_query d id)).
Proof.
  unfold resolve_fork_validate, account_heads, mbind, result_bind.
  destruct (account_identities d !! id) as [a|] eqn:Ea; [|done]. simpl.
  destruct (tombstoned a) eqn:Et; [done|].
  destruct (t_revisions d !! keep) as [r|] eqn:Er; [|done]. simpl.
  case_bool_decide as Hacct; [|done].
  destruct (u8_try_from (row_schema r)); [|done]. simpl.
  destruct (Z.of_nat (length (head_query d id)) <=? 1) eqn:El; [done|]. zbool.
  case_bool_decide as Hk; [|done]. intros [= _ <-]. exists a, r. by split_and!.
Qed.

Lemma resolve_fork_prepare_inv id keep (w : W) p w1 :
  resolve_fork_prepare id keep w = (Ok p, w1) ->
  fresh_row p id keep (row_is_tombstone (new_row p))
  /\ exists a r, account_identities (db (vault w)) !! id = Some a /\ tombstoned a = false
      /\ t_revisions (db (vault w)) !! keep = Some r /\ row_account r = id
      /\ row_is_tombstone r = row_is_tombstone (new_row p)
      /\ 1 < Z.of_nat (length (head_query (db (vault w)) id)).
Proof.
  unfold resolve_fork_prepare. intros Hr.
  apply op_bind_Ok in Hr as (u0 & s0 & [Hv Hs]%check_inv & Hr).
  apply op_bind_Ok in Hr as (a0 & s1 & [-> Ha0]%require_active_inv & Hr).
  unfold get_db, gets in Hr. rewrite op_bind_eq in Hr. rewrite Hv in Hr.
  destruct (resolve_fork_validate id keep (db (vault w))) as [[schema b]|e] eqn:Ev; [|done].
  apply resolve_fork_validate_inv in Ev as (a & r & ? & ? & ? & ? & Hb & ? & ?).
  unfold random_32, get_db, put_db, require_active, current_unix_ms, gets, modify, lift,
    mbind, op_bind in Hr. simpl in Hr.
  destruct (merge_payload _ _ _ _ _); [|done]. rewrite Ha0 in Hr. simpl in Hr.
  destruct (seal_payload _ _ _ _); [|done]. injection Hr as <- <-.
  split; [done|]. exists a, r. by split_and!.
Qed.

Lemma prune_same id : moves db_same (prune_orphan_pending_merges id).
Proof.
  unfold prune_orphan_pending_merges.
  apply moves_bind; [apply _|auto with pangolin|intros _]. intros w.
  unfold get_db, put_db, gets, modify, lift, mbind, op_bind. simpl.
  destruct (account_identities (db (vault w)) !! id) as [a|]; simpl; [|done].
  set (w1 := map_vault _ w). pose proof (touch_session_same w1) as Ht.
  destruct (touch_session clock w1) as [[u|e] w2]; simpl in *; exact Ht.
Qed.
Hint Resolve prune_same : pangolin.

Lemma resolve_fork_prepare_same id keep : moves db_same (resolve_fork_prepare id keep).
Proof. unfold resolve_fork_prepare. moving. Qed.
Lemma resolve_fork_finish_same id p : moves db_same (resolve_fork_finish id p).
Proof. unfold resolve_fork_finish. moving. Qed.
Hint Resolve resolve_fork_prepare_same resolve_fork_finish_same : pangolin.

Lemma resolve_fork_finish_total id p (w : W) :
  exists w', resolve_fork_finish id p w = (Ok (new_id p), w').
Proof.
  unfold resolve_fork_finish. erewrite op_bind_run; [|reflexivity].
  erewrite op_bind_run; [|reflexivity]. set (w1 := (prune_orphan_pending_merges id _).2).
  assert (Hsync : exists w2, resolve_fork_sync_cache id (new_id p) (new_now p)
                               (row_is_tombstone (new_row p)) w1 = (Ok tt, w2)).
  { unfold resolve_fork_sync_cache, map_cache, map_active, best_effort, modify, gets, mbind, op_bind. simpl.
    destruct (row_is_tombstone (new_row p)); [by eexists|].
    destruct (read_identity_at _ _ _); by eexists. }
  destruct Hsync as [w2 Hw2]. rewrite (op_bind_run _ _ _ _ _ Hw2).
  destruct (touch_session_total clock w2) as (w3 & Hw3 & _). rewrite (op_bind_run _ _ _ _ _ Hw3).
  by eexists.
Qed.

Lemma resolve_effect_same d0 d1 d2 d3 id keep merge :
  same_tables d0 d1 -> resolve_effect d1 d2 id keep merge -> same_tables d2 d3 ->
  resolve_effect d0 d3 id keep merge.
Proof.
  intros (Ha & Hr & Hd)%same_tables_fields He (Ha' & Hr' & Hd')%same_tables_fields.
  assert (Hh : head_query d0 id = head_query d1 id).
  { unfold head_query, head_rows, is_sql_head, has_honored_child. by rewrite Hr. }
  destruct He as [H1 H2 (row & H3) H4 H5]. split.
  - by rewrite Hh.
  - by rewrite Hr.
  - exists row. by rewrite <- Hr', <- Ha', Ha.
  - intros rid r Hne. specialize (H4 rid r Hne). by rewrite <- Hr', Hr, Hh.
  - rewrite <- Hd', Hd. done.
Qed.

(** ** Properties *)

(** [add_account] never brings a deleted account back.  When it commits,
    the new account id is one the vault has never held, deleted accounts
    included, with one genesis revision (not a tombstone, unpublished) that
    is its head and is queued for publication; every other row is untouched.
    When it does not commit nothing changes.  If the first four random ids
    are all retired it gives up with [Internal]. *)
Theorem add_account_never_resurrects snap (w : W) r w' :
  add_account snap w = (r, w') ->
  ((exists id rid, add_effect (db (vault w)) (db (vault w')) id rid
      /\ (r = Ok id \/ exists e ix ix' now, r = Err e
                        /\ index_insert id now (from_snapshot snap) ix = (Err e, ix')))
   \/ (is_ok r = false /\ account_identities (db (vault w')) = account_identities (db (vault w))
       /\ t_revisions (db (vault w')) = t_revisions (db (vault w))
       /\ dirty_accounts (db (vault w')) = dirty_accounts (db (vault w))))
  /\ ((forall k, (k < 4)%nat ->
         retired (db (vault w)) (rng (random_draws (db (vault w)) + k))) ->
      is_session_active clock w = true -> is_Some (active (vault w)) -> r = Err Internal).
Proof.
  intros Hr. split.
  - apply edit_shape in Hr; [|auto with pangolin|intros; moving].
    destruct Hr as [[He Hs]|(p & w1 & d1 & b & Hp & Hs1 & Htx & Hs2 & Hpost)].
    { right. split; [done|by apply same_tables_unchanged]. }
    left. apply add_prepare_inv in Hp as (Hact & Hsome & Hfr & _ & _).
    exists (new_account p), (new_id p). apply (tx_add_effect p) in Htx; [|done]. split.
    + apply same_tables_fields in Hs1 as (H1 & H2 & H3), Hs2 as (H4 & H5 & H6).
      destruct Htx as [Hx1 Hx2 (row & Hx3) Hx4]. split.
      * by rewrite H1.
      * by rewrite H2.
      * exists row. by rewrite <- H5, H2, <- H4, H1.
      * rewrite <- H6, H3. done.
    + destruct (edit_tail_total (index_insert (new_account p) (new_now p) (from_snapshot snap))
        (insert (new_account p) snap) (new_now p) (map_vault (set_db d1) w1))
        as (rr & w2 & Hput & Hcase); [simpl; by rewrite Hact|].
      rewrite op_bind_eq in Hpost. unfold put_snapshot in Hpost. rewrite Hput in Hpost.
      destruct Hcase as [->|(e & ix & ix' & -> & He)]; injection Hpost as <- <-; [by left|right; eauto 7].
  - intros Hall Hlive [a0 Ha0]. unfold add_account in Hr.
    assert (Hd : exists w1, add_prepare snap w = (Err Internal, w1)).
    { unfold add_prepare. unfold is_session_active in Hlive.
      destruct (session_state (vault w)) as [| |e l s|] eqn:Es; try discriminate Hlive.
      rewrite op_bind_eq, check_session_freshness_eq, Es. simpl. zbool.
      replace (e <? clock (ticks w)) with false by (symmetry; by apply Z.ltb_ge).
      set (w1 := mkWorld _ _ _).
      rewrite (op_bind_run require_active _ w1 a0 w1).
      2: { unfold require_active, gets, mbind, op_bind. simpl. by rewrite Ha0. }
      destruct (derive_all_retired ADD_ACCOUNT_RETRY_BUDGET w1 Hall) as [w2 Hd2].
      exists w2. by apply op_bind_fail. }
    destruct Hd as [w1 Hd]. rewrite (op_bind_fail _ _ _ _ _ Hd) in Hr. by injection Hr as <-.
Qed.

(** Updating or deleting an account needs a live session and an existing,
    live, unfrozen, readable account.  When it commits it adds exactly one
    new revision on top of the account's head, moves the head pointer to it,
    queues it for publication (a deletion also sets the tombstone flag and
    writes a tombstone row), and leaves every other account, revision and
    marker alone; otherwise those tables are unchanged. *)
Theorem local_edits_extend_head id snap (w w1 w2 : W) r1 r2 :
  update_account id snap w = (r1, w1) -> delete_account id w = (r2, w2) ->
  edit_outcome w w1 id false r1 (fun rid x => x = rid)
    (fun e => exists ix ix' now, index_update id now (from_snapshot snap) ix = (Err e, ix'))
  /\ edit_outcome w w2 id true r2 (fun _ _ => True)
    (fun e => exists ix ix', index_remove id ix = (Err e, ix')).
Proof. eauto using update_account_outcome, delete_account_outcome. Qed.

(** C35. [resolve_fork] merges without losing anything.  When it succeeds the
    chosen revision was one of at least two heads; every revision row is
    still there with its content, the losing heads marked superseded by the
    merge; the merge is a child of the chosen head, the account's only head
    (provided no stored row already names the new random id as its parent),
    its head pointer and its queued revision; the account is unfrozen and is
    deleted exactly when the chosen leaf was a deletion; other accounts keep
    their heads.  When it fails the tables are unchanged. *)
Theorem resolve_fork_single_head id keep (w : W) r w' :
  resolve_fork id keep w = (r, w') ->
  let d := db (vault w) in let d' := db (vault w') in
  match r with
  | Ok merge =>
      resolve_effect d d' id keep merge
      /\ 1 < Z.of_nat (length (head_query d id))
      /\ ((forall rid r, t_revisions d !! rid = Some r -> row_account r = id ->
             row_parent r <> merge) -> head_query d' id = [merge])
      /\ (forall other, other <> id -> head_query d' other = head_query d other)
      /\ exists a leaf, account_identities d' !! id = Some a /\ head_revision_id a = merge
           /\ frozen a = false /\ t_revisions d !! keep = Some leaf
           /\ tombstoned a = row_is_tombstone leaf
  | Err _ =>
      account_identities d' = account_identities d /\ t_revisions d' = t_revisions d
      /\ dirty_accounts d' = dirty_accounts d
  end.
Proof.
  intros Hr. apply (edit_shape (resolve_fork_prepare id keep)
    (fun p => tx_resolve id keep (new_id p) (new_row p) (new_now p))
    (fun p _ => resolve_fork_finish id p)) in Hr; [|auto with pangolin|intros; auto with pangolin].
  destruct Hr as [[He Hs]|(p & w1 & d1 & b & Hp & Hs1 & Htx & Hs2 & Hpost)].
  { destruct r; [done|]. by apply same_tables_unchanged. }
  destruct (resolve_fork_finish_total id p (map_vault (set_db d1) w1)) as [w2 Hfin].
  rewrite Hfin in Hpost. injection Hpost as <- <-.
  apply resolve_fork_prepare_inv in Hp as (Hfr & a & leaf & Ha & Ht & Hleaf & Hla & Hlt & Hlen).
  pose proof (tx_resolve_new_row p id keep _ _ _ Htx) as Hrr.
  apply (tx_resolve_effect p) in Htx; [|done].
  pose proof (resolve_effect_same _ _ _ _ _ _ _ Hs1 Htx Hs2) as Heff.
  split_and!; [done|done|by apply (resolve_effect_heads _ _ id keep)| |].
  - intros other Hne. by apply (resolve_effect_other_heads _ _ id keep (new_id p)).
  - apply same_tables_fields in Hs1 as (H1 & _), Hs2 as (H4 & _).
    destruct Htx as [_ _ (row & Hrow & _ & _ & _ & _ & Hacc) _ _].
    eexists _, leaf. rewrite <- H4, Hacc, lookup_alter_eq, <- H1, Ha. simpl.
    split_and!; try done. simpl.
    rewrite Hrow in Hrr. injection Hrr as ->. by rewrite Hlt.
Qed.

(** Reading an identity ignores the key epoch of its row.  After a key
    rotation, an account last edited before it is stored under a retained
    key; that key, which the session holds and which the row's epoch tag
    selects, opens the row, yet [read_identity_at] tries only the current
    key, so it, [account_get] and every other V1 read of the account fail
    with [AuthenticationFailed] (for an AEAD that opens what it sealed and
    nothing under another key). *)
Theorem read_identity_ignores_epoch id rid (v : Vault Database Snapshot Key Index) a r identity
    old_key schema :
  (forall k n p aad c, seal_payload k n p aad = Ok c -> open_identity_payload k n c aad = Ok p) ->
  (forall k k' n p aad c, seal_payload k n p aad = Ok c -> k <> k' ->
     open_identity_payload k' n c aad = Err AuthenticationFailed) ->
  active v = Some a -> t_revisions (db v) !! rid = Some r -> row_account r = id ->
  vdk_epoch r <> current_epoch (chain a) -> retained (chain a) !! vdk_epoch r = Some old_key ->
  old_key <> vdk a -> u8_try_from (row_schema r) = Some schema ->
  seal_payload old_key (enc_nonce r) (LivePayload identity)
    (mkAad vault_id id (row_parent r) schema) = Ok (enc_payload r) ->
  (key ← entry_key a (vdk_epoch r);
   open_identity_payload key (enc_nonce r) (enc_payload r)
     (mkAad vault_id id (row_parent r) schema)) = Ok (LivePayload identity)
  /\ read_identity_at id rid v = Err AuthenticationFailed
  /\ forall p t acc, editable (mkWorld v p t) id acc -> head_revision_id acc = rid ->
       Z.of_nat (length (head_query (db v) id)) <= 1 ->
       (account_get id (mkWorld v p t)).1 = Err AuthenticationFailed.
Proof.
  intros Hopen Hauth Ha Hr Hacct Hep Hold Hne Hsch Hseal.
  assert (Hread : read_identity_at id rid v = Err AuthenticationFailed).
  { unfold read_identity_at, mbind, result_bind. rewrite Hr. simpl.
    rewrite bool_decide_eq_true_2 by done. rewrite Hsch. simpl. rewrite Ha. simpl.
    by rewrite (Hauth _ _ _ _ _ _ Hseal Hne). }
  split_and!; [|done|].
  - unfold entry_key, mbind, result_bind.
    replace (vdk_epoch r =? current_epoch (chain a)) with false by (symmetry; by apply Z.eqb_neq).
    rewrite Hold. simpl. by apply Hopen.
  - intros p t acc Hed Hhead Hlen. unfold account_get.
    destruct (edit_target_editable id (mkWorld v p t) acc Hed ltac:(simpl; by rewrite Ha))
      as (w1 & Ht & Hv). rewrite (op_bind_run _ _ _ _ _ Ht).
    unfold gets, lift. rewrite op_bind_eq. rewrite Hv. simpl. rewrite op_bind_eq.
    unfold account_heads. pose proof (ed_row _ _ _ Hed) as Hrow. simpl in Hrow. rewrite Hrow.
    rewrite op_bind_eq.
    replace (1 <? _) with false by (symmetry; by apply Z.ltb_ge). simpl.
    rewrite op_bind_eq. by rewrite Hhead, Hread.
Qed.
End handlers.

(** ** Witnesses *)

Module AccountSample.

(** A transparent AEAD: the ciphertext records the key, the nonce and the
    associated data, and opening compares them. *)
Definition toy_seal (k n : Z) (p : DecodedPayload Z) (aad : Aad) : store_result (list Z) :=
  let header := [k; n; aad_vault aad; aad_account aad; aad_parent aad; aad_schema aad] in
  Ok (header ++ match p with
                | LivePayload x => [0; x; 0]
                | TombstonePayload i t => [1; i; t]
                end).

Definition toy_open (k n : Z) (ct : list Z) (aad : Aad) : store_result (DecodedPayload Z) :=
  match ct with
  | [k'; n'; v; i; p; s; tag; x; y] =>
      if bool_decide ([k'; n'; v; i; p; s] =
                      [k; n; aad_vault aad; aad_account aad; aad_parent aad; aad_schema aad])
      then Ok (if tag =? 0 then LivePayload x else TombstonePayload x y)
      else Err AuthenticationFailed
  | _ => Err AuthenticationFailed
  end.

Lemma toy_open_seal k n p aad c : toy_seal k n p aad = Ok c -> toy_open k n c aad = Ok p.
Proof.
  unfold toy_seal, toy_open. intros [= <-]. destruct p; simpl;
    by rewrite bool_decide_eq_true_2.
Qed.

Lemma toy_open_other k k' n p aad c :
  toy_seal k n p aad = Ok c -> k <> k' -> toy_open k' n c aad = Err AuthenticationFailed.
Proof.
  unfold toy_seal, toy_open. intros [= <-] Hne. destruct p; simpl;
    rewrite bool_decide_eq_false_2; congruence.
Qed.

Definition toy_seal_snapshot (k n x : Z) (aad : Aad) : store_result (list Z) :=
  toy_seal k n (LivePayload x) aad.
#[export] Instance no_index : SearchIndexOps unit Z :=
  mkSearchIndexOps unit Z (fun _ _ _ => mret tt) (fun _ _ _ => mret tt) (fun _ => mret tt).
Definition sample_rng (k : nat) : Z := 1000 + Z.of_nat k.
Definition sample_clock (k : nat) : Z := from_secs (Z.of_nat k).

Definition session : ActiveState Z Z unit :=
  mkActiveState 77 (mkVdkChain {[ 0 := 76 ]} 1) {[ 100 := 5 ]} tt 1 2 (Some 0) ∅ None false false None.

Definition vault_with (d : Database) : Vault Database Z Z unit :=
  mkVault (Active (from_secs 900) 0 0) (Some session) Min15 None 9 d.

Definition world_with (d : Database) : World Database Z Z unit PressYPresenceProof :=
  mkWorld (vault_with d) (PressY_confirmed 0) 0.

(** One linear account whose leaf was sealed before the rotation to epoch 1. *)
Definition old_leaf : RevisionRow :=
  mkRevisionRow 100 GENESIS_PARENT 9 1 10 [76; 4; 1; 100; 0; 1; 0; 55; 0] 4 false 0
    None None Finalized None None None false.

Definition linear_db : Database :=
  mkDatabase {[ 100 := mkAccountRow 10 10 false 3 false ]} {[ 3 := old_leaf ]} ∅ ∅ None None None 0.

(** A fork of current-epoch leaves, and a retired account. *)
Definition leaf_row (parent at_ms x : Z) : RevisionRow :=
  mkRevisionRow 100 parent 9 1 at_ms [77; 4; 1; 100; parent; 1; 0; x; 0] 4 false 1
    None None Finalized None None None false.

Definition fork_db : Database :=
  mkDatabase
    {[ 100 := mkAccountRow 10 40 false 3 true; 1000 := mkAccountRow 1 2 true 900 false ]}
    {[ 1 := leaf_row GENESIS_PARENT 10 50; 3 := leaf_row 1 40 51; 5 := leaf_row 1 20 52 ]}
    ∅ ∅ None None None 0.

Notation sample_add := (add_account sample_clock sample_clock sample_rng 1 1 toy_seal_snapshot id).
Notation sample_update :=
  (update_account sample_clock sample_clock sample_rng 1 1 toy_seal_snapshot id).
Notation sample_delete :=
  (delete_account (Identity := Z) sample_clock sample_clock sample_rng 1 1 toy_seal).
Notation sample_resolve :=
  (resolve_fork sample_clock sample_clock sample_rng 1 toy_seal toy_open id id).

(** The first random id hits the retired account and is passed over. *)
Lemma add_account_never_resurrects_witness :
  exists w', sample_add 5 (world_with fork_db) = (Ok 1001, w')
    /\ (exists id rid, add_effect fork_db (db (vault w')) id rid).
Proof.
  destruct (sample_add 5 (world_with fork_db)) as [r w'] eqn:Hr.
  assert (Hok : r = Ok 1001).
  { change r with (fst (r, w')). rewrite <- Hr. vm_compute. reflexivity. }
  destruct (add_account_never_resurrects sample_clock sample_clock sample_rng 1 1
    toy_seal_snapshot id 5 (world_with fork_db) r w' Hr) as [[(id & rid & H & _)|(H & _)] _].
  - exists w'. rewrite Hok. split; [reflexivity|]. exists id, rid. exact H.
  - rewrite Hok in H. discriminate H.
Defined.

Lemma local_edits_extend_head_witness :
  exists r1 w1 r2 w2, sample_update 100 6 (world_with linear_db) = (r1, w1)
    /\ sample_delete 100 (world_with linear_db) = (r2, w2)
    /\ is_ok r1 = true /\ is_ok r2 = true
    /\ edit_outcome sample_clock (world_with linear_db) w1 100 false r1 (fun rid x => x = rid)
         (fun e => exists ix ix' now, index_update 100 now (id 6) ix = (Err e, ix')).
Proof.
  destruct (sample_update 100 6 (world_with linear_db)) as [r1 w1] eqn:H1.
  destruct (sample_delete 100 (world_with linear_db)) as [r2 w2] eqn:H2.
  exists r1, w1, r2, w2. split_and!; [reflexivity|reflexivity| | |].
  - change r1 with (fst (r1, w1)). rewrite <- H1. vm_compute. reflexivity.
  - change r2 with (fst (r2, w2)). rewrite <- H2. vm_compute. reflexivity.
  - eapply proj1. eapply local_edits_extend_head; [exact H1|exact H2].
Defined.

Lemma resolve_fork_single_head_witness :
  exists w', sample_resolve 100 3 (world_with fork_db) = (Ok 1000, w')
    /\ head_query (db (vault w')) 100 = [1000].
Proof.
  destruct (sample_resolve 100 3 (world_with fork_db)) as [r w'] eqn:Hr.
  assert (Hok : r = Ok 1000).
  { change r with (fst (r, w')). rewrite <- Hr. vm_compute. reflexivity. }
  pose proof (resolve_fork_single_head sample_clock sample_clock sample_rng 1 toy_seal toy_open
    id id 100 3 (world_with fork_db) r w' Hr) as H.
  rewrite Hok in H. destruct H as (_ & _ & H & _). exists w'. rewrite Hok. split; [reflexivity|].
  apply H. intros rid row Hrow _. cbn [vault world_with vault_with db fork_db t_revisions] in Hrow.
  apply lookup_insert_Some in Hrow as [[_ <-]|[_ Hrow]]; [discriminate|].
  apply lookup_insert_Some in Hrow as [[_ <-]|[_ Hrow]]; [discriminate|].
  apply lookup_singleton_Some in Hrow as [_ <-]. discriminate.
Defined.

Lemma read_identity_ignores_epoch_witness :
  read_identity_at 1 toy_open 100 3 (vault_with linear_db) = Err AuthenticationFailed
  /\ (key ← entry_key session 0; toy_open key 4 (enc_payload old_leaf) (mkAad 1 100 0 1))
     = Ok (LivePayload 55).
Proof.
  destruct (read_identity_ignores_epoch sample_clock 1 toy_seal toy_open 100 3
    (vault_with linear_db) session old_leaf 55 76 1 (P := PressYPresenceProof)) as (H1 & H2 & _).
  - exact toy_open_seal.
  - exact toy_open_other.
  - reflexivity.
  - reflexivity.
  - reflexivity.
  - discriminate.
  - reflexivity.
  - discriminate.
  - reflexivity.
  - reflexivity.
  - split; [exact H2|exact H1].
Defined.
End AccountSample.
