(* ===== verification/Payload.v ===== *)
(** * The payload codec

    crates/pangolin-store/src/blob.rs: the CBOR of snapshots (V0), identities (V1,
    V2) and tombstones, their decoders with the order and schema checks, the
    associated data, and sealing and opening.  The AEAD is a parameter and the
    nonce an argument; the codec of one CBOR header is the class [Cbor]. *)

From Stdlib Require Import String.
From S2P Require Import Prelude StoreError Bytes Text Cbor Totp Account SessionPolicy Database AccountOps.
Open Scope Z_scope.

(** [StoreError::Cbor]. *)
Definition cbor : StoreError := StoreError.Cbor.

Definition unsupported_revision_schema_version (found : Z) : StoreError :=
  UnsupportedRevisionSchemaVersion 0 0 found REVISION_SCHEMA_VERSION_MAX.

(** ** Associated data *)

Definition WRAP_AAD_DOMAIN_REV : list Z := bytes_of "pgrev0" ++ [0; 0].
Definition ACCOUNT_ID_LEN : nat := 32.
Definition REVISION_ID_LEN : nat := 32.
Definition DEVICE_ID_LEN : nat := 32.
Definition REV_AAD_LEN : nat := length WRAP_AAD_DOMAIN_REV + 32 + ACCOUNT_ID_LEN + REVISION_ID_LEN + 1.

Definition build_aad (a : Aad) : list Z :=
  WRAP_AAD_DOMAIN_REV ++ to_be_bytes 32 (aad_vault a) ++ to_be_bytes ACCOUNT_ID_LEN (aad_account a)
  ++ to_be_bytes REVISION_ID_LEN (aad_parent a) ++ [aad_schema a].

(** ** Keys *)

Definition FIELD_DISPLAY_NAME : list Z := bytes_of "display_name".
Definition FIELD_USERNAME : list Z := bytes_of "username".
Definition FIELD_PASSWORD : list Z := bytes_of "password".
Definition FIELD_URL : list Z := bytes_of "url".
Definition FIELD_NOTES : list Z := bytes_of "notes".
Definition FIELD_TOTP_SECRET : list Z := bytes_of "totp_secret".
Definition FIELD_TAGS : list Z := bytes_of "tags".
Definition FIELD_USERNAMES : list Z := bytes_of "usernames".
Definition FIELD_URLS : list Z := bytes_of "urls".
Definition FIELD_PASSWORD_HISTORY : list Z := bytes_of "password_history".
Definition FIELD_PAYLOAD_VERSION : list Z := bytes_of "payload_version".
Definition FIELD_TOTP : list Z := bytes_of "totp".
Definition FIELD_TOTP_ALGORITHM : list Z := bytes_of "algorithm".
Definition FIELD_TOTP_DIGITS : list Z := bytes_of "digits".
Definition FIELD_TOTP_PERIOD : list Z := bytes_of "period".
Definition FIELD_TOTP_SECRET_NESTED : list Z := bytes_of "secret".
Definition FIELD_DELETED : list Z := bytes_of "deleted".
Definition FIELD_ACCOUNT_ID : list Z := bytes_of "account_id".
Definition FIELD_TOMBSTONED_AT_MS : list Z := bytes_of "tombstoned_at_ms".

(** [a < b] on strings. *)
Definition key_lt (a b : list Z) : bool := match lex_compare a b with Lt => true | _ => false end.
Definition key_is (key field : list Z) : bool := bool_decide (key = field).

(** Sizes in memory of the elements of the vectors that are allocated. *)
Definition SECRET_BYTES_SIZE : Z := VEC_SIZE.
Definition PASSWORD_ENTRY_SIZE : Z := VEC_SIZE + 8 + 32.

Section codec.
Context `{!Cbor.Cbor} (memory : Z).

(** ** Encoding *)

Definition write_text_kv (key value : list Z) : list Z := put_text key ++ put_bytes value.

Definition encode_snapshot_cbor (s : AccountSnapshot) : list Z :=
  push (MapHeader (Some 6)) ++ write_text_kv FIELD_DISPLAY_NAME (snap_display_name s)
  ++ write_text_kv FIELD_USERNAME (snap_username s) ++ write_text_kv FIELD_PASSWORD (snap_password s)
  ++ write_text_kv FIELD_URL (snap_url s) ++ write_text_kv FIELD_NOTES (snap_notes s)
  ++ write_text_kv FIELD_TOTP_SECRET (snap_totp_secret s).

Definition encode_tombstone_cbor (account_id tombstoned_at_ms : Z) : list Z :=
  push (MapHeader (Some 3)) ++ put_text FIELD_ACCOUNT_ID ++ put_bytes (to_be_bytes ACCOUNT_ID_LEN account_id)
  ++ put_text FIELD_DELETED ++ push (SimpleHeader simple_TRUE)
  ++ put_text FIELD_TOMBSTONED_AT_MS ++ push (Positive tombstoned_at_ms).

Definition encode_password_entry (e : PasswordEntry) : list Z :=
  push (ArrayHeader (Some 3)) ++ put_bytes (password e)
  ++ (if 0 <=? set_at_ms e then push (Positive (set_at_ms e)) else push (Negative (- (set_at_ms e + 1))))
  ++ put_bytes (to_be_bytes DEVICE_ID_LEN (originating_device e)).

Definition put_items {A} (put : A -> list Z) (l : list A) : list Z :=
  push (ArrayHeader (Some (Z.of_nat (length l)))) ++ mjoin (put <$> l).

Definition encode_totp_map (p : TotpParams) (secret : list Z) : list Z :=
  push (MapHeader (Some 4)) ++ put_text FIELD_TOTP_ALGORITHM ++ push (Positive (to_wire (algorithm p)))
  ++ put_text FIELD_TOTP_DIGITS ++ push (Positive (digits p))
  ++ put_text FIELD_TOTP_PERIOD ++ push (Positive (period_seconds p))
  ++ put_text FIELD_TOTP_SECRET_NESTED ++ put_bytes secret.

Definition encode_identity_cbor_with_payload_version (i : AccountIdentity) (payload_version : Z) : list Z :=
  push (MapHeader (Some 8)) ++ put_text FIELD_DISPLAY_NAME ++ put_text (display_name i)
  ++ put_text FIELD_NOTES ++ put_text (notes i)
  ++ put_text FIELD_PASSWORD_HISTORY ++ put_items encode_password_entry (password_history i)
  ++ put_text FIELD_PAYLOAD_VERSION ++ push (Positive payload_version)
  ++ put_text FIELD_TAGS ++ put_items put_text (tags i)
  ++ (if PAYLOAD_VERSION_V2 <=? payload_version
      then put_text FIELD_TOTP ++ encode_totp_map (totp_params i) (totp_secret i)
      else put_text FIELD_TOTP_SECRET ++ put_bytes (totp_secret i))
  ++ put_text FIELD_URLS ++ put_items put_text (urls i)
  ++ put_text FIELD_USERNAMES ++ put_items put_text (usernames i).

Definition encode_identity_cbor (i : AccountIdentity) : list Z :=
  encode_identity_cbor_with_payload_version i PAYLOAD_VERSION_V2.

(** ** Reading *)

Definition pull_text : reader StoreError (list Z) :=
  h ← pull_header cbor;
  match h with
  | TextHeader (Some len) => s ← read_buffer memory cbor len; if utf8 s then mret s else fail cbor
  | _ => fail cbor
  end.

Definition pull_bytes : reader StoreError (list Z) :=
  h ← pull_header cbor;
  match h with BytesHeader (Some len) => read_buffer memory cbor len | _ => fail cbor end.

Definition pull_text_as_bytes : reader StoreError (list Z) :=
  h ← pull_header cbor;
  match h with TextHeader (Some len) => read_buffer memory cbor len | _ => fail cbor end.

Definition pull_positive_u64 : reader StoreError Z :=
  h ← pull_header cbor; match h with Positive v => mret v | _ => fail cbor end.

Definition pull_text_array : reader StoreError (list (list Z)) :=
  h ← pull_header cbor;
  match h with
  | ArrayHeader (Some count) =>
      allocate memory (count * SECRET_BYTES_SIZE) ≫= fun _ => read_items (Z.to_nat count) pull_text_as_bytes
  | _ => fail cbor
  end.

(** A byte string of 32 bytes, as the integer it is. *)
Definition pull_id : reader StoreError Z :=
  b ← pull_bytes; if (length b =? 32)%nat then mret (be_value b) else fail cbor.

Definition pull_set_at_ms : reader StoreError Z :=
  h ← pull_header cbor;
  match h with
  | Positive v => of_result (ok_or (i64_try_from v) cbor)
  | Negative v => of_result (ok_or (i64_try_from v ≫= fun v => try_from I64_MIN I64_MAX (-1 - v)) cbor)
  | _ => fail cbor
  end.

Definition pull_password_entry : reader StoreError PasswordEntry :=
  h ← pull_header cbor;
  match h with
  | ArrayHeader (Some n) =>
      if n =? 3 then
        pw ← pull_bytes;
        set_at_ms ← pull_set_at_ms;
        device ← pull_id;
        mret (mkPasswordEntry pw set_at_ms device)
      else fail cbor
  | _ => fail cbor
  end.

Definition pull_password_history : reader StoreError (list PasswordEntry) :=
  h ← pull_header cbor;
  match h with
  | ArrayHeader (Some count) =>
      allocate memory (count * PASSWORD_ENTRY_SIZE) ≫= fun _ => read_items (Z.to_nat count) pull_password_entry
  | _ => fail cbor
  end.

(** [for _ in 0..n]: a key, which must come after the last one, and its value. *)
Fixpoint pull_fields {A} (n : nat) (after : list Z -> list Z -> bool) (field : list Z -> A -> reader StoreError A)
    (last_key : option (list Z)) (acc : A) : reader StoreError A :=
  match n with
  | O => mret acc
  | S n =>
      key ← pull_text;
      if match last_key with Some prev => negb (after prev key) | None => false end then fail cbor
      else acc ← field key acc; pull_fields n after field (Some key) acc
  end.

(** [option.ok_or_else(|| StoreError::Cbor(..))?] *)
Definition require {A} (o : option A) : reader StoreError A := of_result (ok_or o cbor).

(** ** Tombstones *)

Definition pull_true : reader StoreError unit :=
  h ← pull_header cbor;
  match h with SimpleHeader s => if s =? simple_TRUE then mret tt else fail cbor | _ => fail cbor end.

Definition expect_key (field : list Z) : reader StoreError unit :=
  key ← pull_text; if key_is key field then mret tt else fail cbor.

Definition decode_tombstone_legacy {A} : reader StoreError (DecodedPayload A) :=
  expect_key FIELD_DELETED ≫= fun _ => pull_true ≫= fun _ => mret (TombstonePayload 0 0).

Definition decode_tombstone_widened {A} : reader StoreError (DecodedPayload A) :=
  expect_key FIELD_ACCOUNT_ID ≫= fun _ =>
  account_id ← pull_id;
  expect_key FIELD_DELETED ≫= fun _ => pull_true ≫= fun _ =>
  expect_key FIELD_TOMBSTONED_AT_MS ≫= fun _ =>
  tombstoned_at_ms ← pull_positive_u64;
  mret (TombstonePayload account_id tombstoned_at_ms).

(** ** Snapshots (V0) *)

Definition snapshot_pos (s : list Z) : option Z :=
  if key_is s FIELD_DISPLAY_NAME then Some 0
  else if key_is s FIELD_USERNAME then Some 1
  else if key_is s FIELD_PASSWORD then Some 2
  else if key_is s FIELD_URL then Some 3
  else if key_is s FIELD_NOTES then Some 4
  else if key_is s FIELD_TOTP_SECRET then Some 5
  else None.

Definition is_after_in_canonical_order (prev curr : list Z) : bool :=
  match snapshot_pos prev, snapshot_pos curr with Some a, Some b => a <? b | _, _ => false end.

Record SnapshotFields : Type := mkSnapshotFields {
  v0_display_name : option (list Z); v0_username : option (list Z); v0_password : option (list Z);
  v0_url : option (list Z); v0_notes : option (list Z); v0_totp_secret : option (list Z)
}.

Definition no_snapshot_fields : SnapshotFields := mkSnapshotFields None None None None None None.

Definition snapshot_field (key : list Z) (f : SnapshotFields) : reader StoreError SnapshotFields :=
  value ← pull_bytes;
  let '(mkSnapshotFields d u p l n t) := f in
  if key_is key FIELD_DISPLAY_NAME then mret (mkSnapshotFields (Some value) u p l n t)
  else if key_is key FIELD_USERNAME then mret (mkSnapshotFields d (Some value) p l n t)
  else if key_is key FIELD_PASSWORD then mret (mkSnapshotFields d u (Some value) l n t)
  else if key_is key FIELD_URL then mret (mkSnapshotFields d u p (Some value) n t)
  else if key_is key FIELD_NOTES then mret (mkSnapshotFields d u p l (Some value) t)
  else if key_is key FIELD_TOTP_SECRET then mret (mkSnapshotFields d u p l n (Some value))
  else fail cbor.

Definition decode_v0_live_inline (entries : nat) : reader StoreError AccountSnapshot :=
  f ← pull_fields entries is_after_in_canonical_order snapshot_field None no_snapshot_fields;
  display_name ← require (v0_display_name f);
  username ← require (v0_username f);
  password ← require (v0_password f);
  url ← require (v0_url f);
  notes ← require (v0_notes f);
  totp_secret ← require (v0_totp_secret f);
  mret (mkSnapshot display_name username password url notes totp_secret).

Definition one_unless_empty (s : list Z) : list (list Z) := if (length s =? 0)%nat then [] else [s].

Definition hydrate_v0_to_v1 (s : AccountSnapshot) : AccountIdentity :=
  mkIdentity (snap_display_name s) [] (snap_notes s) (one_unless_empty (snap_url s))
    (one_unless_empty (snap_username s))
    ((fun pw => mkPasswordEntry pw 0 0) <$> one_unless_empty (snap_password s))
    (snap_totp_secret s) default_params.

(** ** Identities (V1 and V2) *)

Record TotpFields : Type := mkTotpFields {
  t_algorithm : option TotpAlgorithm; t_digits : option Z; t_period : option Z; t_secret : option (list Z)
}.

Definition totp_field (key : list Z) (f : TotpFields) : reader StoreError TotpFields :=
  let '(mkTotpFields a d p s) := f in
  if key_is key FIELD_TOTP_ALGORITHM then
    v ← pull_positive_u64;
    w ← require (u8_try_from v);
    algorithm ← of_result (map_err (fun _ => cbor) (from_wire w));
    mret (mkTotpFields (Some algorithm) d p s)
  else if key_is key FIELD_TOTP_DIGITS then
    v ← pull_positive_u64; w ← require (u8_try_from v); mret (mkTotpFields a (Some w) p s)
  else if key_is key FIELD_TOTP_PERIOD then
    v ← pull_positive_u64; w ← require (u32_try_from v); mret (mkTotpFields a d (Some w) s)
  else if key_is key FIELD_TOTP_SECRET_NESTED then
    secret ← pull_bytes; mret (mkTotpFields a d p (Some secret))
  else fail cbor.

Definition pull_totp_map : reader StoreError (list Z * TotpParams) :=
  h ← pull_header cbor;
  match h with
  | MapHeader (Some n) =>
      f ← pull_fields (Z.to_nat n) key_lt totp_field None (mkTotpFields None None None None);
      secret ← require (t_secret f);
      algorithm ← require (t_algorithm f);
      digits ← require (t_digits f);
      period ← require (t_period f);
      mret (secret, mkTotpParams algorithm digits period)
  | _ => fail cbor
  end.

Record IdentityFields : Type := mkIdentityFields {
  f_display_name : option (list Z); f_notes : option (list Z);
  f_password_history : option (list PasswordEntry); f_payload_version : option Z;
  f_tags : option (list (list Z)); f_totp_secret : option (list Z); f_totp_params : option TotpParams;
  f_urls : option (list (list Z)); f_usernames : option (list (list Z))
}.

Definition no_identity_fields : IdentityFields := mkIdentityFields None None None None None None None None None.

Definition pull_payload_version : reader StoreError Z :=
  v ← pull_positive_u64;
  pv ← require (u8_try_from v);
  if REVISION_SCHEMA_VERSION_MAX <? pv then fail (unsupported_revision_schema_version pv) else mret pv.

Definition identity_field (key : list Z) (f : IdentityFields) : reader StoreError IdentityFields :=
  let '(mkIdentityFields d n h v g s p l u) := f in
  if key_is key FIELD_DISPLAY_NAME then x ← pull_text_as_bytes; mret (mkIdentityFields (Some x) n h v g s p l u)
  else if key_is key FIELD_NOTES then x ← pull_text_as_bytes; mret (mkIdentityFields d (Some x) h v g s p l u)
  else if key_is key FIELD_PASSWORD_HISTORY then
    x ← pull_password_history; mret (mkIdentityFields d n (Some x) v g s p l u)
  else if key_is key FIELD_PAYLOAD_VERSION then
    x ← pull_payload_version; mret (mkIdentityFields d n h (Some x) g s p l u)
  else if key_is key FIELD_TAGS then x ← pull_text_array; mret (mkIdentityFields d n h v (Some x) s p l u)
  else if key_is key FIELD_TOTP_SECRET then
    if match v with Some v => PAYLOAD_VERSION_V2 <=? v | None => false end then fail cbor
    else x ← pull_bytes; mret (mkIdentityFields d n h v g (Some x) p l u)
  else if key_is key FIELD_TOTP then
    if match v with Some v => v <? PAYLOAD_VERSION_V2 | None => true end then fail cbor
    else x ← pull_totp_map; mret (mkIdentityFields d n h v g (Some x.1) (Some x.2) l u)
  else if key_is key FIELD_URLS then x ← pull_text_array; mret (mkIdentityFields d n h v g s p (Some x) u)
  else if key_is key FIELD_USERNAMES then x ← pull_text_array; mret (mkIdentityFields d n h v g s p l (Some x))
  else fail cbor.

Definition decode_v1_or_v2_live_inline : reader StoreError AccountIdentity :=
  f ← pull_fields 8 key_lt identity_field None no_identity_fields;
  display_name ← require (f_display_name f);
  notes ← require (f_notes f);
  password_history ← require (f_password_history f);
  payload_version ← require (f_payload_version f);
  tags ← require (f_tags f);
  totp_secret ← require (f_totp_secret f);
  urls ← require (f_urls f);
  usernames ← require (f_usernames f);
  let totp_params := default default_params (f_totp_params f) in
  (if PAYLOAD_VERSION_V2 <=? payload_version
   then of_result (map_err (fun _ => cbor) (Totp.validate totp_params)) else mret tt) ≫= fun _ =>
  mret (mkIdentity display_name tags notes urls usernames password_history totp_secret totp_params).

(** ** Payloads *)

Definition pull_map_arity : reader StoreError Z :=
  h ← pull_header cbor; match h with MapHeader (Some n) => mret n | _ => fail cbor end.

(** The V0 reader. *)
Definition decode_payload : reader StoreError (DecodedPayload AccountSnapshot) :=
  entries ← pull_map_arity;
  if entries =? 1 then decode_tombstone_legacy
  else if entries =? 3 then decode_tombstone_widened
  else if entries =? 6 then s ← decode_v0_live_inline 6; mret (LivePayload s)
  else fail cbor.

Definition decode_identity_payload : reader StoreError (DecodedPayload AccountIdentity) :=
  entries ← pull_map_arity;
  if entries =? 1 then decode_tombstone_legacy
  else if entries =? 3 then decode_tombstone_widened
  else if entries =? 6 then s ← decode_v0_live_inline 6; mret (LivePayload (hydrate_v0_to_v1 s))
  else if entries =? 8 then i ← decode_v1_or_v2_live_inline; mret (LivePayload i)
  else if 8 <? entries
  then fail (unsupported_revision_schema_version (default U32_MAX (u32_try_from entries)))
  else fail cbor.

(** ** Sealing and opening *)

Context {Key : Type} (aead_seal aead_open : Key -> Z -> list Z -> list Z -> option (list Z)).

Definition seal_bytes (key : Key) (nonce : Z) (plaintext : list Z) (a : Aad) : store_result (list Z) :=
  ok_or (aead_seal key nonce plaintext (build_aad a)) AuthenticationFailed.

Definition seal_snapshot (key : Key) (nonce : Z) (s : AccountSnapshot) (a : Aad) : store_result (list Z) :=
  seal_bytes key nonce (encode_snapshot_cbor s) a.

Definition seal_tombstone (key : Key) (nonce account_id tombstoned_at_ms : Z) (a : Aad) : store_result (list Z) :=
  seal_bytes key nonce (encode_tombstone_cbor account_id tombstoned_at_ms) a.

Definition seal_identity (key : Key) (nonce : Z) (i : AccountIdentity) (a : Aad) : store_result (list Z) :=
  seal_bytes key nonce (encode_identity_cbor i) a.

(** [seal_identity] or [seal_tombstone]. *)
Definition seal_payload (key : Key) (nonce : Z) (p : DecodedPayload AccountIdentity) (a : Aad) : store_result (list Z) :=
  match p with
  | LivePayload i => seal_identity key nonce i a
  | TombstonePayload account_id at_ms => seal_tombstone key nonce account_id at_ms a
  end.

Definition open_bytes {A} (decode : reader StoreError A) (key : Key) (nonce : Z) (ct : list Z) (a : Aad) :
    result (failure StoreError) A :=
  plaintext ← ok_or (aead_open key nonce ct (build_aad a)) (Prelude.Failed AuthenticationFailed);
  '(x, _) ← decode plaintext; Ok x.

Definition open_payload := open_bytes decode_payload.
Definition open_identity_payload := open_bytes decode_identity_payload.
End codec.

(** ** Associated data *)

Definition is_id (x : Z) : Prop := 0 <= x < 256 ^ 32.

Record aad_in_range (a : Aad) : Prop := mkAadInRange {
  range_vault : is_id (aad_vault a);
  range_account : is_id (aad_account a);
  range_parent : is_id (aad_parent a)
}.

Lemma app_inj_length {A} (x x' y y' : list A) : length x = length x' -> x ++ y = x' ++ y' -> x = x' /\ y = y'.
Proof. intros Hl H. by apply app_inj_1 in H. Qed.

Lemma build_aad_length a : length (build_aad a) = REV_AAD_LEN.
Proof. unfold build_aad, REV_AAD_LEN. rewrite !length_app, !length_to_be_bytes. cbn [length]. lia. Qed.

Lemma build_aad_inj a b : aad_in_range a -> aad_in_range b -> build_aad a = build_aad b -> a = b.
Proof.
  intros [Hv Ha Hp] [Hv' Ha' Hp'] H. unfold build_aad in H. apply app_inv_head in H.
  apply app_inj_length in H as [E1 H]; [|by rewrite !length_to_be_bytes].
  apply app_inj_length in H as [E2 H]; [|by rewrite !length_to_be_bytes].
  apply app_inj_length in H as [E3 H]; [|by rewrite !length_to_be_bytes].
  apply to_be_bytes_inj in E1; [|done..]. apply to_be_bytes_inj in E2; [|done..]. apply to_be_bytes_inj in E3; [|done..].
  injection H as E4. destruct a as [v1 a1 p1 s1], b as [v2 a2 p2 s2].
  cbn [aad_vault aad_account aad_parent aad_schema] in *. by subst.
Qed.

(** ** Reading back *)

Definition is_i64 (x : Z) : Prop := I64_MIN <= x <= I64_MAX.

Section reading.
Context `{!Cbor.Cbor} `{!CborLaws _} (memory : Z) (memory_lo : 32 <= memory) (memory_hi : memory <= I64_MAX).

(** What fits in memory; a Rust allocation is at most [isize::MAX] bytes. *)
Definition small (l : list Z) : Prop := Z.of_nat (length l) <= memory.
Definition few {A} (size : Z) (l : list A) : Prop := Z.of_nat (length l) * size <= memory.

Lemma small_pushable l : small l -> is_u64 (Z.of_nat (length l)).
Proof using memory_hi memory_lo. unfold small, is_u64, U64_MAX, I64_MAX in *. lia. Qed.

Lemma few_pushable {A} size (l : list A) : 1 <= size -> few size l -> is_u64 (Z.of_nat (length l)).
Proof using memory_hi memory_lo. unfold few, is_u64, U64_MAX, I64_MAX in *. nia. Qed.

Lemma reads_then {A B} (m : reader StoreError A) (g : A -> B) w a : reads m w a -> reads (x ← m; mret (g x)) w (g a).
Proof. intros Hm. rewrite <- (app_nil_r w). eapply reads_bind; [exact Hm|apply reads_ret]. Qed.

Lemma reads_header_then {A} h (f : Header -> reader StoreError A) w a :
  pushable h -> reads (f h) w a -> reads (pull_header cbor ≫= f) (push h ++ w) a.
Proof using CborLaws0. intros Hh Hf. eapply reads_bind; [by apply reads_header|done]. Qed.

Lemma reads_header_only {A} h (f : Header -> reader StoreError A) a :
  pushable h -> reads (f h) [] a -> reads (pull_header cbor ≫= f) (push h) a.
Proof using CborLaws0. intros Hh Hf. rewrite <- (app_nil_r (push h)). by apply reads_header_then. Qed.

Lemma reads_pull_bytes b : small b -> reads (pull_bytes memory) (put_bytes b) b.
Proof using CborLaws0 memory_hi memory_lo.
  intros Hb. unfold pull_bytes, put_bytes. apply reads_header_then; [by apply small_pushable|]. by apply reads_buffer.
Qed.

Lemma reads_pull_text_as_bytes b : small b -> reads (pull_text_as_bytes memory) (put_text b) b.
Proof using CborLaws0 memory_hi memory_lo.
  intros Hb. unfold pull_text_as_bytes, put_text. apply reads_header_then; [by apply small_pushable|]. by apply reads_buffer.
Qed.

Lemma reads_pull_text s : small s -> utf8 s = true -> reads (pull_text memory) (put_text s) s.
Proof using CborLaws0 memory_hi memory_lo.
  intros Hs Hu. unfold pull_text, put_text. apply reads_header_then; [by apply small_pushable|].
  rewrite <- (app_nil_r s) at 2. eapply reads_bind; [by apply reads_buffer|]. cbv beta. rewrite Hu. apply reads_ret.
Qed.

Lemma reads_pull_positive n : is_u64 n -> reads pull_positive_u64 (push (Positive n)) n.
Proof using CborLaws0. intros Hn. unfold pull_positive_u64. apply reads_header_only; [done|apply reads_ret]. Qed.

Lemma reads_pull_id x : is_id x -> reads (pull_id memory) (put_bytes (to_be_bytes 32 x)) x.
Proof using CborLaws0 memory_hi memory_lo.
  intros Hx. unfold pull_id. rewrite <- (app_nil_r (put_bytes _)).
  eapply reads_bind; [apply reads_pull_bytes; unfold small; rewrite length_to_be_bytes; lia|].
  cbv beta. rewrite length_to_be_bytes. cbn [Nat.eqb]. rewrite be_value_to_be_bytes, Z.mod_small by done. apply reads_ret.
Qed.

Lemma reads_of_some {A} (x : A) : reads (of_result (ok_or (Some x) cbor)) [] x.
Proof. apply reads_ret. Qed.

Lemma reads_pull_set_at_ms t : is_i64 t ->
  reads pull_set_at_ms (if 0 <=? t then push (Positive t) else push (Negative (- (t + 1)))) t.
Proof using CborLaws0.
  unfold is_i64, I64_MIN, I64_MAX. intros Ht. unfold pull_set_at_ms. destruct (Z.leb_spec 0 t).
  - apply reads_header_only; [simpl; unfold is_u64, U64_MAX; lia|].
    unfold i64_try_from. rewrite (proj2 (try_from_Some I64_MIN I64_MAX t t)) by (unfold I64_MIN, I64_MAX; lia). apply reads_of_some.
  - apply reads_header_only; [simpl; unfold is_u64, U64_MAX; lia|]. unfold i64_try_from.
    rewrite (proj2 (try_from_Some I64_MIN I64_MAX (- (t + 1)) _)) by (unfold I64_MIN, I64_MAX; split; [reflexivity|lia]).
    cbn [mbind option_bind]. replace (-1 - - (t + 1)) with t by lia.
    rewrite (proj2 (try_from_Some I64_MIN I64_MAX t t)) by (unfold I64_MIN, I64_MAX; lia). apply reads_of_some.
Qed.

Definition entry_ok (e : PasswordEntry) : Prop := small (password e) /\ is_i64 (set_at_ms e) /\ is_id (originating_device e).

Lemma reads_pull_password_entry e : entry_ok e -> reads (pull_password_entry memory) (encode_password_entry e) e.
Proof using CborLaws0 memory_hi memory_lo.
  intros (Hp & Ht & Hd). unfold pull_password_entry, encode_password_entry. apply reads_header_then; [done|].
  cbv beta iota. change (3 =? 3) with true. cbv iota.
  eapply reads_bind; [by apply reads_pull_bytes|]. eapply reads_bind; [by apply reads_pull_set_at_ms|].
  destruct e. by apply (reads_then _ (mkPasswordEntry _ _)), reads_pull_id.
Qed.

(** An array of items. *)
Lemma reads_array {A} size (item : reader StoreError A) (put : A -> list Z) l :
  1 <= size -> few size l -> (forall x, x ∈ l -> reads item (put x) x) ->
  reads (h ← pull_header cbor;
         match h with
         | ArrayHeader (Some count) => allocate memory (count * size) ≫= fun _ => read_items (Z.to_nat count) item
         | _ => fail cbor
         end) (put_items put l) l.
Proof using CborLaws0 memory_hi memory_lo.
  intros Hs Hf Hi. unfold put_items. apply reads_header_then; [by eapply few_pushable|].
  eapply reads_silent; [apply reads_allocate; exact Hf|]. rewrite Nat2Z.id. by apply reads_items.
Qed.

Lemma reads_pull_text_array l :
  few SECRET_BYTES_SIZE l -> Forall small l -> reads (pull_text_array memory) (put_items put_text l) l.
Proof using CborLaws0 memory_hi memory_lo.
  intros Hf Hl. apply reads_array; [done|done|]. intros x Hx. apply reads_pull_text_as_bytes. by eapply Forall_forall in Hl.
Qed.

Lemma reads_pull_password_history l :
  few PASSWORD_ENTRY_SIZE l -> Forall entry_ok l ->
  reads (pull_password_history memory) (put_items encode_password_entry l) l.
Proof using CborLaws0 memory_hi memory_lo.
  intros Hf Hl. apply reads_array; [done|done|]. intros x Hx. apply reads_pull_password_entry. by eapply Forall_forall in Hl.
Qed.

(** A key and its value. *)
Lemma reads_field {A} n after (field : list Z -> A -> reader StoreError A) last key acc acc' w ws res :
  (length key <= 32)%nat -> utf8 key = true ->
  (match last with Some prev => after prev key | None => true end) = true ->
  reads (field key acc) w acc' -> reads (pull_fields memory n after field (Some key) acc') ws res ->
  reads (pull_fields memory (S n) after field last acc) (put_text key ++ w ++ ws) res.
Proof using CborLaws0 memory_hi memory_lo.
  intros Hk Hu Ho Hf Hr. cbn [pull_fields].
  eapply reads_bind; [apply reads_pull_text; [unfold small; lia|done]|]. cbv beta.
  replace (match last with Some prev => negb (after prev key) | None => false end) with false
    by (destruct last; [by rewrite Ho|done]).
  by eapply reads_bind.
Qed.

Lemma reads_last_field {A} after (field : list Z -> A -> reader StoreError A) last key acc acc' w :
  (length key <= 32)%nat -> utf8 key = true ->
  (match last with Some prev => after prev key | None => true end) = true ->
  reads (field key acc) w acc' ->
  reads (pull_fields memory 1 after field last acc) (put_text key ++ w) acc'.
Proof using CborLaws0 memory_hi memory_lo.
  intros Hk Hu Ho Hf. rewrite <- (app_nil_r w). eapply reads_field; [done..|apply reads_ret].
Qed.
End reading.

(** *** Identities *)

(** What the Rust types of an identity guarantee, sizes that fit in memory, and
    parameters in range. *)
Record identity_ok (memory : Z) (i : AccountIdentity) : Prop := mkIdentityOk {
  ok_display_name : small memory (display_name i);
  ok_notes : small memory (notes i);
  ok_history : few memory PASSWORD_ENTRY_SIZE (password_history i) /\ Forall (entry_ok memory) (password_history i);
  ok_tags : few memory SECRET_BYTES_SIZE (tags i) /\ Forall (small memory) (tags i);
  ok_totp_secret : small memory (totp_secret i);
  ok_totp_params : Totp.validate (totp_params i) = Ok tt /\ 0 <= period_seconds (totp_params i);
  ok_urls : few memory SECRET_BYTES_SIZE (urls i) /\ Forall (small memory) (urls i);
  ok_usernames : few memory SECRET_BYTES_SIZE (usernames i) /\ Forall (small memory) (usernames i)
}.

Definition snapshot_ok (memory : Z) (s : AccountSnapshot) : Prop :=
  small memory (snap_display_name s) /\ small memory (snap_username s) /\ small memory (snap_password s)
  /\ small memory (snap_url s) /\ small memory (snap_notes s) /\ small memory (snap_totp_secret s).

Section round_trips.
Context `{!Cbor.Cbor} `{!CborLaws _} (memory : Z) (memory_lo : 32 <= memory) (memory_hi : memory <= I64_MAX).

(** The next field of a map whose reader and value are known. *)
Ltac next_field lem :=
  eapply (reads_field memory memory_lo memory_hi); [vm_compute; lia|vm_compute; reflexivity|reflexivity|lem|].
Ltac last_field lem :=
  eapply (reads_last_field memory memory_lo memory_hi); [vm_compute; lia|vm_compute; reflexivity|reflexivity|lem].

(** Decide the comparisons of closed keys. *)
Ltac keys :=
  repeat match goal with
  | |- context [key_is ?a ?b] => let r := eval vm_compute in (key_is a b) in change (key_is a b) with r
  end; cbv iota beta.

Lemma wire_roundtrip a : from_wire (to_wire a) = Ok a.
Proof. by destruct a. Qed.

Lemma reads_require {A} (x : A) : reads (require (Some x)) [] x.
Proof. apply reads_ret. Qed.

Lemma reads_u8 {A} n (g : Z -> reader StoreError A) w x :
  0 <= n <= U8_MAX -> reads (g n) w x -> reads (m ← require (u8_try_from n); g m) w x.
Proof.
  intros Hn Hg. unfold u8_try_from. rewrite (proj2 (try_from_Some 0 U8_MAX n n)) by done.
  eapply reads_silent; [apply reads_require|done].
Qed.

Lemma totp_field_algorithm f a :
  reads (totp_field memory FIELD_TOTP_ALGORITHM f) (push (Positive (to_wire a)))
    (mkTotpFields (Some a) (t_digits f) (t_period f) (t_secret f)).
Proof using CborLaws0.
  destruct f. unfold totp_field. keys.
  eapply reads_bind_end; [apply reads_pull_positive; destruct a; simpl; unfold is_u64, U64_MAX; lia|].
  apply reads_u8; [destruct a; simpl; unfold U8_MAX; lia|]. rewrite wire_roundtrip. apply reads_ret.
Qed.

Lemma totp_field_digits f d :
  0 <= d <= U8_MAX ->
  reads (totp_field memory FIELD_TOTP_DIGITS f) (push (Positive d))
    (mkTotpFields (t_algorithm f) (Some d) (t_period f) (t_secret f)).
Proof using CborLaws0.
  intros Hd. destruct f. unfold totp_field. keys.
  eapply reads_bind_end; [apply reads_pull_positive; unfold is_u64, U64_MAX, U8_MAX in *; lia|].
  apply reads_u8; [done|]. apply reads_ret.
Qed.

Lemma totp_field_period f s :
  0 <= s <= U32_MAX ->
  reads (totp_field memory FIELD_TOTP_PERIOD f) (push (Positive s))
    (mkTotpFields (t_algorithm f) (t_digits f) (Some s) (t_secret f)).
Proof using CborLaws0.
  intros Hs. destruct f. unfold totp_field. keys.
  eapply reads_bind_end; [apply reads_pull_positive; unfold is_u64, U64_MAX, U32_MAX in *; lia|].
  unfold u32_try_from. rewrite (proj2 (try_from_Some 0 U32_MAX s s)) by done. apply reads_ret.
Qed.

Lemma totp_field_secret f b :
  small memory b ->
  reads (totp_field memory FIELD_TOTP_SECRET_NESTED f) (put_bytes b)
    (mkTotpFields (t_algorithm f) (t_digits f) (t_period f) (Some b)).
Proof using CborLaws0 memory_hi memory_lo.
  intros Hb. destruct f. unfold totp_field. keys. by apply (reads_then _ (fun b => mkTotpFields _ _ _ (Some b))), reads_pull_bytes.
Qed.

Lemma reads_totp_map p secret :
  Totp.validate p = Ok tt -> 0 <= period_seconds p -> small memory secret ->
  reads (pull_totp_map memory) (encode_totp_map p secret) (secret, p).
Proof using CborLaws0 memory_hi memory_lo.
  intros Hp H0 Hs. apply validate_spec in Hp as (Hd & _ & Hper).
  unfold pull_totp_map, encode_totp_map. apply reads_header_then; [done|]. cbv beta iota. change (Z.to_nat 4) with 4%nat.
  eapply reads_bind_end.
  - next_field ltac:(apply totp_field_algorithm). next_field ltac:(apply totp_field_digits; unfold U8_MAX; lia).
    next_field ltac:(apply totp_field_period; unfold U32_MAX; lia). last_field ltac:(by apply totp_field_secret).
  - destruct p. apply reads_ret.
Qed.

(** Each field of an identity. *)
Lemma field_display_name d n h v g s p l u x :
  small memory x ->
  reads (identity_field memory FIELD_DISPLAY_NAME (mkIdentityFields d n h v g s p l u)) (put_text x)
    (mkIdentityFields (Some x) n h v g s p l u).
Proof using CborLaws0 memory_hi memory_lo.
  intros Hx. unfold identity_field. keys. apply (reads_then _ (fun x => mkIdentityFields (Some x) n h v g s p l u)). by apply reads_pull_text_as_bytes.
Qed.

Lemma field_notes d n h v g s p l u x :
  small memory x ->
  reads (identity_field memory FIELD_NOTES (mkIdentityFields d n h v g s p l u)) (put_text x)
    (mkIdentityFields d (Some x) h v g s p l u).
Proof using CborLaws0 memory_hi memory_lo.
  intros Hx. unfold identity_field. keys. apply (reads_then _ (fun x => mkIdentityFields d (Some x) h v g s p l u)). by apply reads_pull_text_as_bytes.
Qed.

Lemma field_history d n h v g s p l u x :
  few memory PASSWORD_ENTRY_SIZE x /\ Forall (entry_ok memory) x ->
  reads (identity_field memory FIELD_PASSWORD_HISTORY (mkIdentityFields d n h v g s p l u)) (put_items encode_password_entry x)
    (mkIdentityFields d n (Some x) v g s p l u).
Proof using CborLaws0 memory_hi memory_lo.
  intros Hx. unfold identity_field. keys. apply (reads_then _ (fun x => mkIdentityFields d n (Some x) v g s p l u)). destruct Hx. by apply reads_pull_password_history.
Qed.

Lemma field_version d n h v g s p l u x :
  0 <= x <= REVISION_SCHEMA_VERSION_MAX ->
  reads (identity_field memory FIELD_PAYLOAD_VERSION (mkIdentityFields d n h v g s p l u)) (push (Positive x))
    (mkIdentityFields d n h (Some x) g s p l u).
Proof using CborLaws0 memory_hi memory_lo.
  unfold REVISION_SCHEMA_VERSION_MAX. intros Hx. unfold identity_field. keys.
  apply (reads_then _ (fun x => mkIdentityFields d n h (Some x) g s p l u)). unfold pull_payload_version.
  eapply reads_bind_end; [apply reads_pull_positive; unfold is_u64, U64_MAX; lia|].
  apply reads_u8; [unfold U8_MAX; lia|]. unfold REVISION_SCHEMA_VERSION_MAX. rewrite (proj2 (Z.ltb_ge 2 x)) by lia. apply reads_ret.
Qed.

Lemma field_tags d n h v g s p l u x :
  few memory SECRET_BYTES_SIZE x /\ Forall (small memory) x ->
  reads (identity_field memory FIELD_TAGS (mkIdentityFields d n h v g s p l u)) (put_items put_text x)
    (mkIdentityFields d n h v (Some x) s p l u).
Proof using CborLaws0 memory_hi memory_lo.
  intros Hx. unfold identity_field. keys. apply (reads_then _ (fun x => mkIdentityFields d n h v (Some x) s p l u)). destruct Hx. by apply reads_pull_text_array.
Qed.

Lemma field_totp_secret d n h g s p l u x :
  small memory x ->
  reads (identity_field memory FIELD_TOTP_SECRET (mkIdentityFields d n h (Some PAYLOAD_VERSION_V1) g s p l u)) (put_bytes x)
    (mkIdentityFields d n h (Some PAYLOAD_VERSION_V1) g (Some x) p l u).
Proof using CborLaws0 memory_hi memory_lo.
  intros Hx. unfold identity_field. keys. change (PAYLOAD_VERSION_V2 <=? PAYLOAD_VERSION_V1) with false. cbv iota.
  apply (reads_then _ (fun x => mkIdentityFields d n h (Some PAYLOAD_VERSION_V1) g (Some x) p l u)). by apply reads_pull_bytes.
Qed.

Lemma field_totp d n h g s p l u x params :
  Totp.validate params = Ok tt -> 0 <= period_seconds params -> small memory x ->
  reads (identity_field memory FIELD_TOTP (mkIdentityFields d n h (Some PAYLOAD_VERSION_V2) g s p l u)) (encode_totp_map params x)
    (mkIdentityFields d n h (Some PAYLOAD_VERSION_V2) g (Some x) (Some params) l u).
Proof using CborLaws0 memory_hi memory_lo.
  intros Hp H0 Hx. unfold identity_field. keys. change (PAYLOAD_VERSION_V2 <? PAYLOAD_VERSION_V2) with false. cbv iota.
  apply (reads_then _ (fun x => mkIdentityFields d n h (Some PAYLOAD_VERSION_V2) g (Some x.1) (Some x.2) l u) _ (x, params)).
  by apply reads_totp_map.
Qed.

Lemma field_urls d n h v g s p l u x :
  few memory SECRET_BYTES_SIZE x /\ Forall (small memory) x ->
  reads (identity_field memory FIELD_URLS (mkIdentityFields d n h v g s p l u)) (put_items put_text x)
    (mkIdentityFields d n h v g s p (Some x) u).
Proof using CborLaws0 memory_hi memory_lo.
  intros Hx. unfold identity_field. keys. apply (reads_then _ (fun x => mkIdentityFields d n h v g s p (Some x) u)). destruct Hx. by apply reads_pull_text_array.
Qed.

Lemma field_usernames d n h v g s p l u x :
  few memory SECRET_BYTES_SIZE x /\ Forall (small memory) x ->
  reads (identity_field memory FIELD_USERNAMES (mkIdentityFields d n h v g s p l u)) (put_items put_text x)
    (mkIdentityFields d n h v g s p l (Some x)).
Proof using CborLaws0 memory_hi memory_lo.
  intros Hx. unfold identity_field. keys. apply (reads_then _ (fun x => mkIdentityFields d n h v g s p l (Some x))). destruct Hx. by apply reads_pull_text_array.
Qed.

(** An identity written in either shape; the V1 shape has no parameters. *)
Definition shaped (v : Z) (i : AccountIdentity) : AccountIdentity :=
  if PAYLOAD_VERSION_V2 <=? v then i
  else mkIdentity (display_name i) (tags i) (notes i) (urls i) (usernames i) (password_history i) (totp_secret i) default_params.

Lemma reads_identity i v :
  identity_ok memory i -> v = PAYLOAD_VERSION_V1 \/ v = PAYLOAD_VERSION_V2 ->
  reads (decode_identity_payload memory) (encode_identity_cbor_with_payload_version i v) (LivePayload (shaped v i)).
Proof using CborLaws0 memory_hi memory_lo.
  intros [Hd Hn Hh Hg Hs [Hp H0] Hl Hu] Hv. unfold decode_identity_payload, encode_identity_cbor_with_payload_version.
  unfold pull_map_arity. eapply reads_bind; [apply reads_header_only; [done|apply reads_ret]|].
  change (8 =? 1) with false. change (8 =? 3) with false. change (8 =? 6) with false. change (8 =? 8) with true. cbv iota.
  apply (reads_then _ LivePayload). unfold decode_v1_or_v2_live_inline.
  destruct Hv; subst v; eapply reads_bind_end;
    [unfold no_identity_fields; next_field ltac:(by apply field_display_name); next_field ltac:(by apply field_notes);
     next_field ltac:(by apply field_history); next_field ltac:(by apply field_version); next_field ltac:(by apply field_tags)
    | |unfold no_identity_fields; next_field ltac:(by apply field_display_name); next_field ltac:(by apply field_notes);
     next_field ltac:(by apply field_history); next_field ltac:(by apply field_version); next_field ltac:(by apply field_tags)|].
  - change (PAYLOAD_VERSION_V2 <=? PAYLOAD_VERSION_V1) with false. cbv iota. rewrite <- app_assoc.
    next_field ltac:(by apply field_totp_secret). next_field ltac:(by apply field_urls). last_field ltac:(by apply field_usernames).
  - apply reads_ret.
  - change (PAYLOAD_VERSION_V2 <=? PAYLOAD_VERSION_V2) with true. cbv iota. rewrite <- app_assoc.
    next_field ltac:(by apply field_totp). next_field ltac:(by apply field_urls). last_field ltac:(by apply field_usernames).
  - destruct i as [d g n l u h t params]. cbn in Hp. intros rest. cbn. by rewrite Hp.
Qed.

(** *** Snapshots and tombstones *)

Ltac snapshot_value := unfold snapshot_field; eapply reads_bind_end; [by apply reads_pull_bytes|]; keys; apply reads_ret.

Lemma reads_snapshot s :
  snapshot_ok memory s ->
  reads (decode_v0_live_inline memory 6)
    (write_text_kv FIELD_DISPLAY_NAME (snap_display_name s) ++ write_text_kv FIELD_USERNAME (snap_username s)
     ++ write_text_kv FIELD_PASSWORD (snap_password s) ++ write_text_kv FIELD_URL (snap_url s)
     ++ write_text_kv FIELD_NOTES (snap_notes s) ++ write_text_kv FIELD_TOTP_SECRET (snap_totp_secret s)) s.
Proof using CborLaws0 memory_hi memory_lo.
  intros (Hd & Hu & Hp & Hl & Hn & Ht). unfold write_text_kv, decode_v0_live_inline, no_snapshot_fields.
  rewrite <- !app_assoc. eapply reads_bind_end.
  - next_field ltac:(snapshot_value). next_field ltac:(snapshot_value). next_field ltac:(snapshot_value).
    next_field ltac:(snapshot_value). next_field ltac:(snapshot_value). last_field ltac:(snapshot_value).
  - destruct s. apply reads_ret.
Qed.

Lemma reads_expect_key {A} key (f : unit -> reader StoreError A) w a :
  (length key <= 32)%nat -> utf8 key = true -> reads (f tt) w a ->
  reads (expect_key memory key ≫= f) (put_text key ++ w) a.
Proof using CborLaws0 memory_hi memory_lo.
  intros Hk Hu Hf. eapply reads_bind; [|exact Hf]. unfold expect_key.
  eapply reads_bind_end; [apply (reads_pull_text memory memory_lo memory_hi); [unfold small; lia|done]|].
  unfold key_is. rewrite bool_decide_eq_true_2 by done. apply reads_ret.
Qed.

Lemma reads_pull_true {A} (f : unit -> reader StoreError A) w a :
  reads (f tt) w a -> reads (pull_true ≫= f) (push (SimpleHeader simple_TRUE) ++ w) a.
Proof using CborLaws0.
  intros Hf. eapply reads_bind; [|exact Hf]. unfold pull_true. apply reads_header_only; [by left|].
  rewrite Z.eqb_refl. apply reads_ret.
Qed.

Lemma reads_tombstone {A} account_id t :
  is_id account_id -> is_u64 t ->
  reads (decode_tombstone_widened memory (A := A))
    (put_text FIELD_ACCOUNT_ID ++ put_bytes (to_be_bytes ACCOUNT_ID_LEN account_id)
     ++ put_text FIELD_DELETED ++ push (SimpleHeader simple_TRUE)
     ++ put_text FIELD_TOMBSTONED_AT_MS ++ push (Positive t)) (TombstonePayload account_id t).
Proof using CborLaws0 memory_hi memory_lo.
  intros Hi Ht. unfold decode_tombstone_widened.
  apply reads_expect_key; [vm_compute; lia|reflexivity|]. eapply reads_bind; [by apply reads_pull_id|].
  apply reads_expect_key; [vm_compute; lia|reflexivity|]. apply reads_pull_true.
  apply reads_expect_key; [vm_compute; lia|reflexivity|]. by apply (reads_then _ (TombstonePayload account_id)), reads_pull_positive.
Qed.

(** The arity of the map selects the branch. *)
Lemma reads_arity {A} n (f : Z -> reader StoreError A) w a :
  is_u64 n -> reads (f n) w a -> reads (pull_map_arity ≫= f) (push (MapHeader (Some n)) ++ w) a.
Proof using CborLaws0.
  intros Hn Hf. eapply reads_bind; [|exact Hf]. unfold pull_map_arity. apply reads_header_only; [done|apply reads_ret].
Qed.

Lemma reads_snapshot_payload s :
  snapshot_ok memory s ->
  reads (decode_payload memory) (encode_snapshot_cbor s) (LivePayload s)
  /\ reads (decode_identity_payload memory) (encode_snapshot_cbor s) (LivePayload (hydrate_v0_to_v1 s)).
Proof using CborLaws0 memory_hi memory_lo.
  intros Hs. split; (apply reads_arity; [done|]); cbv iota beta; cbn [Z.eqb Pos.eqb].
  - by apply (reads_then _ LivePayload), reads_snapshot.
  - by apply (reads_then _ (fun s => LivePayload (hydrate_v0_to_v1 s))), reads_snapshot.
Qed.

Lemma reads_tombstone_payload account_id t :
  is_id account_id -> is_u64 t ->
  reads (decode_payload memory) (encode_tombstone_cbor account_id t) (TombstonePayload account_id t)
  /\ reads (decode_identity_payload memory) (encode_tombstone_cbor account_id t) (TombstonePayload account_id t).
Proof using CborLaws0 memory_hi memory_lo.
  intros Hi Ht. split; (apply reads_arity; [done|]); cbv iota beta; cbn [Z.eqb Pos.eqb]; by apply reads_tombstone.
Qed.
End round_trips.

(** ** What a reader makes of what a writer wrote *)

(** The identities an account can have: made from a draft, by an edit of one, or
    read from a V0 row. *)
Inductive stored_identity (nfc to_lowercase : list Z -> list Z) (url_parse : list Z -> option (list Z)) :
    AccountIdentity -> Prop :=
| stored_new d t dev i :
    is_i64 t -> is_id dev -> 0 <= period_seconds (draft_totp_params d) ->
    validate_into_identity nfc to_lowercase url_parse d t dev = Ok i ->
    stored_identity nfc to_lowercase url_parse i
| stored_edit p i t dev i' :
    stored_identity nfc to_lowercase url_parse i -> is_i64 t -> is_id dev ->
    (forall q, patch_totp_params p = Some q -> 0 <= period_seconds q) ->
    apply nfc to_lowercase url_parse p i t dev = Ok i' ->
    stored_identity nfc to_lowercase url_parse i'
| stored_v0 s : stored_identity nfc to_lowercase url_parse (hydrate_v0_to_v1 s).

Record values_ok (i : AccountIdentity) : Prop := mkValuesOk {
  values_history : Forall (fun e => is_i64 (set_at_ms e) /\ is_id (originating_device e)) (password_history i);
  values_totp : Totp.validate (totp_params i) = Ok tt /\ 0 <= period_seconds (totp_params i)
}.

Record sizes_ok (memory : Z) (i : AccountIdentity) : Prop := mkSizesOk {
  sizes_texts : small memory (display_name i) /\ small memory (notes i) /\ small memory (totp_secret i);
  sizes_history : few memory PASSWORD_ENTRY_SIZE (password_history i)
    /\ Forall (fun e => small memory (password e)) (password_history i);
  sizes_lists : Forall (fun l => few memory SECRET_BYTES_SIZE l /\ Forall (small memory) l) [tags i; urls i; usernames i]
}.

Lemma values_sizes_ok memory i : values_ok i -> sizes_ok memory i -> identity_ok memory i.
Proof.
  intros [Hh Ht] [(Hd & Hn & Hs) [Hf Hp] Hl].
  apply Forall_cons in Hl as [Hg Hl]. apply Forall_cons in Hl as [Hu Hl]. apply Forall_cons in Hl as [Hm _].
  split; try done. split; [done|]. apply Forall_forall. intros e He.
  eapply Forall_forall in Hh; [|exact He]. eapply Forall_forall in Hp; [|exact He]. by destruct Hh.
Qed.

Section stored.
Context (nfc to_lowercase : list Z -> list Z) (url_parse : list Z -> option (list Z)).

Lemma default_params_ok : Totp.validate default_params = Ok tt /\ 0 <= period_seconds default_params.
Proof. split; [done|]. by vm_compute. Qed.

Lemma apply_params_valid p i t dev i' :
  apply nfc to_lowercase url_parse p i t dev = Ok i' ->
  forall q, patch_totp_params p = Some q -> Totp.validate q = Ok tt.
Proof.
  unfold apply. intros H q Hq. ok_inv H. apply validate_opt_spec in E6. rewrite Hq in E6.
  destruct a6 as [[]|]; [|done]. destruct E6 as (q' & [= <-] & E6). by apply validate_totp_params_spec.
Qed.

Lemma stored_values_ok i : stored_identity nfc to_lowercase url_parse i -> values_ok i.
Proof.
  induction 1 as [d t dev i Ht Hdev Hper H|p i t dev i' _ [Hh [Hv H0]] Ht Hdev Hper H|s].
  - pose proof (proj1 (identity_limits_new nfc to_lowercase url_parse d t dev i H)) as Hl.
    apply validate_into_identity_inv in H as [Hh Hp]. split; [by rewrite Hh; apply Forall_singleton|].
    split; [apply Hl|]. destruct Hp as [->| ->]; [apply default_params_ok|done].
  - pose proof (apply_params_valid _ _ _ _ _ H) as Hvalid. apply apply_inv in H as [Hp Hh'].
    split; [rewrite Hh'; apply Forall_app; split; [destruct (patch_password p); [by apply Forall_singleton|constructor]|done]|].
    unfold patch_totp in Hp. pose proof default_params_ok as [Hd1 Hd2].
    destruct (patch_totp_secret p) as [[b|]|]; injection Hp as _ ->.
    + destruct (patch_totp_params p) as [q|]; [split; [by apply Hvalid|by apply Hper]|done].
    + done.
    + destruct (patch_totp_params p) as [q|]; [split; [by apply Hvalid|by apply Hper]|done].
  - split; [|apply default_params_ok]. unfold hydrate_v0_to_v1. cbn [password_history].
    unfold one_unless_empty. case_match; [constructor|]. constructor; [|constructor]. cbn.
    unfold is_i64, I64_MIN, I64_MAX, is_id. lia.
Qed.
End stored.

(** ** The order of the keys *)

Lemma lex_compare_refl l : lex_compare l l = Eq.
Proof. induction l as [|x l IH]; [done|]. cbn. by rewrite Z.compare_refl. Qed.

Lemma lex_compare_trans a b c : lex_compare a b = Lt -> lex_compare b c = Lt -> lex_compare a c = Lt.
Proof.
  revert b c. induction a as [|x a IH]; intros [|y b] [|z c]; cbn; try done.
  destruct (Z.compare_spec x y), (Z.compare_spec y z), (Z.compare_spec x z); try done; try lia; subst; eauto.
Qed.

Lemma key_lt_irrefl k : key_lt k k = false.
Proof. unfold key_lt. by rewrite lex_compare_refl. Qed.

Lemma key_lt_trans a b c : key_lt a b = true -> key_lt b c = true -> key_lt a c = true.
Proof.
  unfold key_lt. destruct (lex_compare a b) eqn:E1, (lex_compare b c) eqn:E2; try done.
  by rewrite (lex_compare_trans a b c).
Qed.

(** ** The TOTP parameters of what is read *)

Section totp.
Context `{!Cbor.Cbor} (memory : Z).

(** An invariant of the fields read so far and of the last key. *)
Lemma yields_fields {A} (P : option (list Z) -> A -> Prop) n after field :
  (forall last key acc, P last acc -> (match last with Some prev => after prev key | None => true end) = true ->
     yields (field key acc) (P (Some key))) ->
  forall last acc, P last acc -> yields (pull_fields memory n after field last acc) (fun acc => exists last, P last acc).
Proof.
  intros Hf. induction n as [|n IH]; intros last acc Hp; cbn [pull_fields]; [by apply yields_ret; exists last|].
  apply yields_then. intros key. destruct (match last with Some prev => negb (after prev key) | None => false end) eqn:E;
    [apply yields_fail|].
  eapply yields_bind; [apply (Hf last key acc Hp)|intros a Ha; by apply IH]. destruct last; [by apply negb_false_iff|done].
Qed.

(** Parameters come after the version, and the version says V2. *)
Definition params_after_version (last : option (list Z)) (f : IdentityFields) : Prop :=
  forall p, f_totp_params f = Some p ->
  (exists v, f_payload_version f = Some v /\ PAYLOAD_VERSION_V2 <= v)
  /\ exists k, last = Some k /\ (k = FIELD_TOTP \/ key_lt FIELD_TOTP k = true).

Lemma totp_key_after last key f k :
  params_after_version last f -> (match last with Some prev => key_lt prev key | None => true end) = true ->
  forall p, f_totp_params f = Some p -> key = k -> key_lt FIELD_TOTP k = true.
Proof.
  intros Hp Ha p E <-. destruct (Hp p E) as [_ (k' & -> & [->|Hk])]; [done|by eapply key_lt_trans].
Qed.

Lemma identity_field_params last key f :
  params_after_version last f -> (match last with Some prev => key_lt prev key | None => true end) = true ->
  yields (identity_field memory key f) (params_after_version (Some key)).
Proof.
  intros Hp Ha. pose proof (totp_key_after last key f key Hp Ha) as Hafter.
  assert (Hkeep : forall f', f_totp_params f' = f_totp_params f -> f_payload_version f' = f_payload_version f ->
      params_after_version (Some key) f').
  { intros f' E1 E2 p E. rewrite E1 in E. rewrite E2. split; [by apply (Hp p E)|].
    exists key. split; [done|right]. by apply (Hafter p). }
  destruct f as [d n h v g s p l u]. unfold identity_field.
  repeat match goal with
  | |- yields (if key_is key ?k then _ else _) _ =>
      destruct (key_is key k) eqn:?; [|]; [first [apply yields_then; intros ?; apply yields_ret; by apply Hkeep|idtac]|]
  end.
  - apply yields_then. intros x. apply yields_ret. intros q Hq. cbn in Hq. exfalso.
    apply bool_decide_eq_true in Heqb2. subst key. by specialize (Hafter q Hq eq_refl).
  - destruct (match v with Some v => PAYLOAD_VERSION_V2 <=? v | None => false end); [apply yields_fail|].
    apply yields_then. intros x. apply yields_ret. by apply Hkeep.
  - destruct v as [v|]; [|apply yields_fail]. destruct (Z.ltb_spec v PAYLOAD_VERSION_V2); [apply yields_fail|].
    apply yields_then. intros x. apply yields_ret. intros q Hq. split; [by exists v|].
    exists key. split; [done|left]. by apply bool_decide_eq_true in Heqb5.
  - apply yields_fail.
Qed.

Definition valid_live (p : DecodedPayload AccountIdentity) : Prop :=
  match p with LivePayload i => Totp.validate (totp_params i) = Ok tt | TombstonePayload _ _ => True end.

Lemma v1_or_v2_params : yields (decode_v1_or_v2_live_inline memory) (fun i => Totp.validate (totp_params i) = Ok tt).
Proof.
  unfold decode_v1_or_v2_live_inline. eapply yields_bind.
  - apply (yields_fields params_after_version); [|intros p Hp; discriminate Hp].
    intros last key acc Hp Ha. by apply (identity_field_params last).
  - intros f [last Hf]. do 3 (apply yields_then; intros ?).
    eapply yields_bind; [apply yields_of_result|intros v Hv]. do 4 (apply yields_then; intros ?).
    assert (E : f_payload_version f = Some v) by (destruct (f_payload_version f); by simplify_eq/=).
    destruct (Z.leb_spec PAYLOAD_VERSION_V2 v).
    + eapply yields_bind; [apply yields_of_result|intros [] Hok]. apply yields_ret. cbn.
      by destruct (Totp.validate _) as [[]|].
    + apply yields_then. intros _. apply yields_ret. cbn.
      destruct (f_totp_params f) as [p|] eqn:Ep; [|done].
      destruct (Hf p Ep) as [(v' & E' & Hv') _]. rewrite E in E'. injection E' as <-. lia.
Qed.

Lemma identity_payload_params : yields (decode_identity_payload memory) valid_live.
Proof.
  unfold decode_identity_payload. apply yields_then. intros n.
  destruct (n =? 1). { unfold decode_tombstone_legacy. do 2 (apply yields_then; intros ?). by apply yields_ret. }
  destruct (n =? 3). { unfold decode_tombstone_widened. do 6 (apply yields_then; intros ?). by apply yields_ret. }
  destruct (n =? 6). { apply yields_then. intros s. by apply yields_ret. }
  destruct (n =? 8). { eapply yields_bind; [apply v1_or_v2_params|]. intros i Hi. by apply yields_ret. }
  destruct (8 <? n); apply yields_fail.
Qed.
End totp.

(** ** What is read back *)

Section opening.
Context `{!Cbor.Cbor} `{!CborLaws _} (memory : Z) (memory_lo : 32 <= memory) (memory_hi : memory <= I64_MAX).
Context {Key : Type} (aead_seal aead_open : Key -> Z -> list Z -> list Z -> option (list Z)).
Context (nfc to_lowercase : list Z -> list Z) (url_parse : list Z -> option (list Z)).

(** What the AEAD promises: a ciphertext opens to what was sealed, and only under
    the associated data it was sealed with. *)
Hypothesis aead_opens : forall k n m a c, aead_seal k n m a = Some c -> aead_open k n c a = Some m.
Hypothesis aead_binds : forall k n m a c b, aead_seal k n m a = Some c -> b <> a -> aead_open k n c b = None.

Lemma open_sealed {A} (decode : reader StoreError A) w x k n a ct :
  reads decode w x -> seal_bytes aead_seal k n w a = Ok ct -> open_bytes aead_open decode k n ct a = Ok x.
Proof using aead_opens.
  unfold seal_bytes, open_bytes. intros Hw Hs. destruct (aead_seal k n w (build_aad a)) as [c|] eqn:E; [|done].
  injection Hs as <-. rewrite (aead_opens _ _ _ _ _ E). cbn. by rewrite (reads_run _ _ _ Hw).
Qed.

Lemma open_elsewhere {A} (decode : reader StoreError A) w k n a b ct :
  seal_bytes aead_seal k n w a = Ok ct -> aad_in_range a -> aad_in_range b -> b <> a ->
  open_bytes aead_open decode k n ct b = Err (Prelude.Failed AuthenticationFailed).
Proof using aead_binds.
  unfold seal_bytes, open_bytes. intros Hs Ha Hb Hne. destruct (aead_seal k n w (build_aad a)) as [c|] eqn:E; [|done].
  injection Hs as <-. rewrite (aead_binds _ _ _ _ _ (build_aad b) E); [done|].
  intros He. apply Hne. by apply build_aad_inj.
Qed.

(** C20. Round trip of the payload codec.  Whatever identity an account can have
    (validated from a draft, then edited any number of times, or read from a row of the
    first format), if it fits in memory then what [seal_identity] wrote is read by
    [open_identity_payload] as that very identity: all texts, lists in their order, the
    password history with its times, also before 1970, and devices, and the TOTP
    parameters.  A tombstone is read back by both readers.  And a sealed payload moved to
    another vault, account, parent or schema version does not open. *)
Theorem payload_roundtrip k n a ct :
  aad_in_range a ->
  (forall i, stored_identity nfc to_lowercase url_parse i -> sizes_ok memory i ->
     seal_identity aead_seal k n i a = Ok ct ->
     open_identity_payload memory aead_open k n ct a = Ok (LivePayload i))
  /\ (forall account_id t, is_id account_id -> is_u64 t -> seal_tombstone aead_seal k n account_id t a = Ok ct ->
     open_identity_payload memory aead_open k n ct a = Ok (TombstonePayload account_id t)
     /\ open_payload memory aead_open k n ct a = Ok (TombstonePayload account_id t))
  /\ (forall p b, seal_payload aead_seal k n p a = Ok ct -> aad_in_range b -> b <> a ->
     open_identity_payload memory aead_open k n ct b = Err (Prelude.Failed AuthenticationFailed)
     /\ open_payload memory aead_open k n ct b = Err (Prelude.Failed AuthenticationFailed)).
Proof using CborLaws0 aead_binds aead_opens memory_hi memory_lo.
  intros Ha. split_and!.
  - intros i Hi Hs. apply open_sealed. apply (reads_identity memory memory_lo memory_hi i PAYLOAD_VERSION_V2); [|by right].
    apply values_sizes_ok; [|done]. by apply (stored_values_ok nfc to_lowercase url_parse).
  - intros account_id t Hi Ht Hs. destruct (reads_tombstone_payload memory memory_lo memory_hi account_id t Hi Ht).
    split; by eapply open_sealed.
  - intros p b Hs Hb Hne. destruct p; split; by eapply open_elsewhere.
Qed.

(** *** The generations of the format *)

Lemma reads_if_field {A} n after (field : list Z -> A -> reader StoreError A) last key acc acc' w ws c res e :
  (length key <= 32)%nat -> utf8 key = true ->
  (match last with Some prev => after prev key | None => true end) = true ->
  reads (field key acc) w acc' -> reads_if c (pull_fields memory n after field (Some key) acc') ws res e ->
  reads_if c (pull_fields memory (S n) after field last acc) (put_text key ++ w ++ ws) res e.
Proof using CborLaws0 memory_hi memory_lo.
  intros Hk Hu Ho Hf Hr. cbn [pull_fields].
  eapply reads_if_then; [apply (reads_pull_text memory memory_lo memory_hi); [unfold small; lia|done]|]. cbv beta.
  replace (match last with Some prev => negb (after prev key) | None => false end) with false
    by (destruct last; [by rewrite Ho|done]).
  by eapply reads_if_then.
Qed.

Lemma fails_more {E A} (m : reader E A) w w' a a' e : reads_if false m w a e -> reads_if false m (w ++ w') a' e.
Proof. intros Hm rest. rewrite <- app_assoc. apply Hm. Qed.

Ltac next_field_if lem :=
  eapply reads_if_field; [vm_compute; lia|vm_compute; reflexivity|reflexivity|lem|].

Lemma reads_arity_err {A} n (f : Z -> reader StoreError A) rest e :
  is_u64 n -> (forall rest, f n rest = Err e) ->
  (pull_map_arity ≫= f) (push (MapHeader (Some n)) ++ rest) = Err e.
Proof using CborLaws0.
  intros Hn Hf. unfold pull_map_arity, mbind, reader_bind. rewrite (reads_header cbor) by done. apply Hf.
Qed.

(** A version of the future stops the reader. *)
Lemma version_refused d n h v g s p l u x res :
  REVISION_SCHEMA_VERSION_MAX < x <= U8_MAX ->
  reads_if false (identity_field memory FIELD_PAYLOAD_VERSION (mkIdentityFields d n h v g s p l u)) (push (Positive x))
    res (unsupported_revision_schema_version x).
Proof using CborLaws0.
  unfold REVISION_SCHEMA_VERSION_MAX. intros Hx rest. unfold identity_field.
  change (key_is FIELD_PAYLOAD_VERSION FIELD_DISPLAY_NAME) with false.
  change (key_is FIELD_PAYLOAD_VERSION FIELD_NOTES) with false.
  change (key_is FIELD_PAYLOAD_VERSION FIELD_PASSWORD_HISTORY) with false.
  change (key_is FIELD_PAYLOAD_VERSION FIELD_PAYLOAD_VERSION) with true. cbv iota.
  unfold pull_payload_version, mbind, reader_bind.
  rewrite (reads_pull_positive x) by (unfold is_u64, U64_MAX, U8_MAX in *; lia).
  unfold u8_try_from. rewrite (proj2 (try_from_Some 0 U8_MAX x x)) by lia.
  unfold require, of_result, ok_or, REVISION_SCHEMA_VERSION_MAX. cbv iota. by rewrite (proj2 (Z.ltb_lt _ _) (proj1 Hx)).
Qed.

Lemma future_version_refused i v res :
  identity_ok memory i -> REVISION_SCHEMA_VERSION_MAX < v <= U8_MAX ->
  reads_if false (decode_identity_payload memory) (encode_identity_cbor_with_payload_version i v) res
    (unsupported_revision_schema_version v).
Proof using CborLaws0 memory_hi memory_lo.
  intros [Hd Hn Hh _ _ _ _ _] Hv. unfold decode_identity_payload, encode_identity_cbor_with_payload_version.
  eapply reads_if_then; [unfold pull_map_arity; apply reads_header_only; [done|apply reads_ret]|].
  change (8 =? 1) with false. change (8 =? 3) with false. change (8 =? 6) with false. change (8 =? 8) with true. cbv iota.
  rewrite <- (app_nil_r (put_text FIELD_DISPLAY_NAME ++ _)).
  apply (reads_if_bind false true) with (a := sample_identity); [|done].
  unfold decode_v1_or_v2_live_inline. rewrite <- (app_nil_r (put_text FIELD_DISPLAY_NAME ++ _)).
  apply (reads_if_bind false true) with (a := no_identity_fields); [|done].
  unfold no_identity_fields at 1. next_field_if ltac:(by apply field_display_name).
  next_field_if ltac:(by apply field_notes). next_field_if ltac:(by apply field_history).
  cbn [pull_fields]. eapply reads_if_then;
    [apply (reads_pull_text memory memory_lo memory_hi); [unfold small; change (Z.of_nat (length FIELD_PAYLOAD_VERSION)) with 15; lia|vm_compute; reflexivity]|].
  cbv beta. change (negb (key_lt FIELD_PASSWORD_HISTORY FIELD_PAYLOAD_VERSION)) with false. cbv iota.
  apply (reads_if_bind false true) with (a := no_identity_fields); [by apply version_refused|done].
Qed.

(** The generations of the format, each read the way the version demands.  A
    snapshot of the first format is read by the first reader as itself and by the
    identity reader as the identity it becomes: the texts kept, the URL, the user name
    and the password each a list that is empty if the text is.  An identity written in
    the shape of version 1 comes back with the default TOTP parameters.  The first
    reader refuses identities as malformed.  A version above the maximum is reported as an unsupported schema version with
    that number, and a map of more than eight entries with the number of its entries, at
    most 2^32 - 1; neither is read further. *)
Theorem payload_generations :
  (forall s rest, snapshot_ok memory s ->
     decode_payload memory (encode_snapshot_cbor s ++ rest) = Ok (LivePayload s, rest)
     /\ decode_identity_payload memory (encode_snapshot_cbor s ++ rest) = Ok (LivePayload (hydrate_v0_to_v1 s), rest))
  /\ (forall i rest, identity_ok memory i ->
     decode_identity_payload memory (encode_identity_cbor_with_payload_version i PAYLOAD_VERSION_V1 ++ rest)
     = Ok (LivePayload (mkIdentity (display_name i) (tags i) (notes i) (urls i) (usernames i) (password_history i)
                          (totp_secret i) default_params), rest)
     /\ decode_payload memory (encode_identity_cbor i ++ rest) = Err (Prelude.Failed cbor))
  /\ (forall i v rest, identity_ok memory i -> REVISION_SCHEMA_VERSION_MAX < v <= U8_MAX ->
     decode_identity_payload memory (encode_identity_cbor_with_payload_version i v ++ rest)
     = Err (Prelude.Failed (unsupported_revision_schema_version v)))
  /\ (forall entries rest, 8 < entries <= U64_MAX ->
     decode_identity_payload memory (push (MapHeader (Some entries)) ++ rest)
     = Err (Prelude.Failed (unsupported_revision_schema_version (Z.min entries U32_MAX)))).
Proof using CborLaws0 memory_hi memory_lo.
  split_and!.
  - intros s rest Hs. destruct (reads_snapshot_payload memory memory_lo memory_hi s Hs) as [H1 H2].
    split; [apply H1|apply H2].
  - intros i rest Hi. split.
    + by apply (reads_identity memory memory_lo memory_hi i PAYLOAD_VERSION_V1 Hi); left.
    + unfold encode_identity_cbor, encode_identity_cbor_with_payload_version. rewrite <- app_assoc.
      by apply reads_arity_err.
  - intros i v rest Hi Hv. apply (future_version_refused i v (TombstonePayload 0 0) Hi Hv rest).
  - intros entries rest He. apply reads_arity_err; [unfold is_u64; lia|]. intros rest'.
    destruct (Z.eqb_spec entries 1), (Z.eqb_spec entries 3), (Z.eqb_spec entries 6), (Z.eqb_spec entries 8); try lia.
    rewrite (proj2 (Z.ltb_lt 8 entries)) by lia. unfold fail. do 3 f_equal.
    unfold u32_try_from. destruct (try_from 0 U32_MAX entries) as [x|] eqn:E.
    + apply try_from_Some in E. cbn. lia.
    + unfold try_from, in_range in E. destruct (Z.leb_spec entries U32_MAX); [|cbn; lia].
      by rewrite (proj2 (Z.leb_le 0 entries)) in E by lia.
Qed.

(** An identity that is read has usable TOTP parameters, whatever the bytes: if the
    plaintext says version 2, its parameters were validated, and if it is older, a map of
    parameters is not read at all, because it may only follow the version and the version
    cannot be given twice.  So the only plaintexts with parameters out of range are
    rejected, and [totp_code] works on every secret that is read. *)
Theorem opened_params_valid key n ct a i :
  open_identity_payload memory aead_open key n ct a = Ok (LivePayload i) ->
  Totp.validate (totp_params i) = Ok tt.
Proof.
  unfold open_identity_payload, open_bytes. destruct (ok_or _ _) as [w|]; [|done]. cbn.
  destruct (decode_identity_payload memory w) as [[p rest]|e] eqn:E; [|done]. intros [= ->].
  exact (identity_payload_params memory w _ _ E).
Qed.

(** A hostile length: the buffer is allocated before a byte of it is read. *)
Lemma announced_length_aborts len rest :
  memory < len <= U64_MAX ->
  pull_bytes memory (push (BytesHeader (Some len)) ++ rest) = Err Abort.
Proof using CborLaws0 memory_lo.
  intros Hl. unfold pull_bytes, mbind, reader_bind. rewrite (reads_header cbor) by (simpl; unfold is_u64; lia).
  unfold read_buffer, allocate, mbind, reader_bind. by rewrite (proj2 (Z.leb_gt len memory)) by lia.
Qed.
End opening.

(** ** Witnesses *)

Module PayloadSample.

(** An AEAD that records everything. *)
Definition record_seal (k n : Z) (m a : list Z) : option (list Z) :=
  Some (k :: n :: Z.of_nat (length a) :: a ++ m).

Definition record_open (k n : Z) (ct a : list Z) : option (list Z) :=
  match ct with
  | k' :: n' :: len :: rest =>
      if bool_decide (k' = k /\ n' = n /\ len = Z.of_nat (length a) /\ take (length a) rest = a)
      then Some (drop (length a) rest) else None
  | _ => None
  end.

Lemma record_opens k n m a c : record_seal k n m a = Some c -> record_open k n c a = Some m.
Proof.
  intros [= <-]. unfold record_open. rewrite bool_decide_eq_true_2 by (rewrite take_app_length; done).
  by rewrite drop_app_length.
Qed.

Lemma record_binds k n m a c b : record_seal k n m a = Some c -> b <> a -> record_open k n c b = None.
Proof.
  intros [= <-] Hne. unfold record_open. rewrite bool_decide_eq_false_2; [done|]. intros (_ & _ & Hl & Ht).
  apply Nat2Z.inj in Hl. apply Hne. by rewrite <- Ht, <- Hl, take_app_length.
Qed.

Definition memory : Z := 2 ^ 40.

Definition here : Aad := mkAad 1 2 3 1.
Definition there : Aad := mkAad 1 5 3 1.

Lemma here_in_range : aad_in_range here /\ aad_in_range there.
Proof. split; (split; unfold is_id; simpl; lia). Qed.

(** The sample identity after an edit: a new password, and a secret with parameters. *)
Definition edited : AccountIdentity :=
  mkIdentity (bytes_of "Git hub") [bytes_of "work"] (bytes_of "note") [bytes_of "https://x"] [bytes_of "ann"]
    [mkPasswordEntry (bytes_of "new") (-5) 9; mkPasswordEntry (bytes_of "pw") 1700000000000 7]
    [1; 2; 3] (mkTotpParams Sha256 8 60).

Lemma edited_stored : stored_identity id to_ascii_lowercase Some edited.
Proof.
  eapply (stored_edit id to_ascii_lowercase Some sample_patch sample_identity (-5) 9).
  - eapply (stored_new id to_ascii_lowercase Some sample_draft 1700000000000 7);
      [unfold is_i64, I64_MIN, I64_MAX; lia|unfold is_id; lia|vm_compute; discriminate|exact sample_identity_validates].
  - unfold is_i64, I64_MIN, I64_MAX; lia.
  - unfold is_id; lia.
  - intros q [= <-]. vm_compute. discriminate.
  - vm_compute. reflexivity.
Qed.

Lemma edited_sizes : sizes_ok memory edited.
Proof.
  split; unfold few, small, memory; repeat constructor; vm_compute; discriminate.
Qed.

Lemma sample_identity_ok : identity_ok memory sample_identity.
Proof.
  apply values_sizes_ok.
  - apply (stored_values_ok id to_ascii_lowercase Some).
    eapply (stored_new id to_ascii_lowercase Some sample_draft 1700000000000 7);
      [unfold is_i64, I64_MIN, I64_MAX; lia|unfold is_id; lia|vm_compute; discriminate|exact sample_identity_validates].
  - split; unfold few, small, memory; repeat constructor; vm_compute; discriminate.
Qed.

Definition edited_ct : list Z := default [] (record_seal 42 6 (encode_identity_cbor edited) (build_aad here)).

(** The edited identity opens to itself; moved to another account it does not open. *)
Lemma payload_roundtrip_witness :
  open_identity_payload memory record_open 42 6 edited_ct here = Ok (LivePayload edited)
  /\ open_identity_payload memory record_open 42 6 edited_ct there = Err (Prelude.Failed AuthenticationFailed).
Proof.
  destruct here_in_range as [Hh Ht].
  destruct (payload_roundtrip memory ltac:(vm_compute; discriminate) ltac:(vm_compute; discriminate)
    record_seal record_open id to_ascii_lowercase Some record_opens record_binds 42 6 here
    edited_ct Hh) as (H1 & _ & H3).
  split.
  - apply H1; [exact edited_stored|exact edited_sizes|reflexivity].
  - apply (H3 (LivePayload edited) there); [reflexivity|exact Ht|discriminate].
Defined.

(** A row of the future, and a snapshot of the past. *)
Lemma payload_generations_witness :
  decode_identity_payload memory (encode_identity_cbor_with_payload_version sample_identity 3)
  = Err (Prelude.Failed (unsupported_revision_schema_version 3))
  /\ decode_identity_payload memory
       (encode_snapshot_cbor (mkSnapshot (bytes_of "Git") (bytes_of "ann") (bytes_of "pw") [] [] []))
     = Ok (LivePayload (mkIdentity (bytes_of "Git") [] [] [] [bytes_of "ann"] [mkPasswordEntry (bytes_of "pw") 0 0]
                          [] default_params), []).
Proof.
  destruct (payload_generations memory ltac:(vm_compute; discriminate) ltac:(vm_compute; discriminate))
    as (H1 & _ & H3 & _).
  split.
  - rewrite <- (app_nil_r (encode_identity_cbor_with_payload_version _ _)).
    apply H3; [exact sample_identity_ok|vm_compute; split; [reflexivity|discriminate]].
  - rewrite <- (app_nil_r (encode_snapshot_cbor _)).
    apply (H1 (mkSnapshot (bytes_of "Git") (bytes_of "ann") (bytes_of "pw") [] [] []) []).
    unfold snapshot_ok, small, memory. vm_compute. intuition discriminate.
Defined.

Lemma opened_params_valid_witness :
  Totp.validate (totp_params edited) = Ok tt
  /\ open_identity_payload memory record_open 42 6
       (42 :: 6 :: Z.of_nat (length (build_aad here)) :: build_aad here
        ++ encode_identity_cbor (mkIdentity [] [] [] [] [] [] [] (mkTotpParams Sha1 5 30))) here
     = Err (Prelude.Failed cbor).
Proof.
  split; [|vm_compute; reflexivity].
  apply (opened_params_valid memory record_open 42 6
    (42 :: 6 :: Z.of_nat (length (build_aad here)) :: build_aad here ++ encode_identity_cbor edited) here).
  vm_compute. reflexivity.
Defined.
End PayloadSample.
