(* ===== verification/IdentityOps.v ===== *)
(** * Account identities in the vault

    The entry points of crates/pangolin-store/src/vault.rs on identities: adding,
    updating, reading, searching and revealing them, and one-time codes.  They share the
    gates, the transactions and the tail of an edit with [AccountOps].

    What can abort the process in Rust (opening a payload, computing a code) is
    here the argument of a handler that agrees with the model of it in [Payload] and
    [Totp] where that ends in a value or an error. *)

From Stdlib Require Import String.
From S2P Require Import Prelude StoreError Bytes Text Cbor Totp Account Search RevisionGraph SessionPolicy Database AccountOps Payload.
Open Scope Z_scope.

(** ** Summaries *)

Definition ACCOUNT_IDENTITY_SCHEMA_VERSION : Z := 1.

Definition first_or_empty (l : list (list Z)) : list Z := default [] (hd_error l).

Definition downgrade_identity_to_snapshot (i : AccountIdentity) : AccountSnapshot :=
  mkSnapshot (display_name i) (first_or_empty (usernames i)) (default [] (current_password i))
    (first_or_empty (urls i)) (notes i) (totp_secret i).

Record AccountIdentitySummary : Type := mkSummary {
  sum_schema_version : Z;
  sum_id : AccountId;
  sum_head_revision_id : RevisionId;
  sum_display_name : list Z;
  sum_tags : list (list Z);
  sum_usernames : list (list Z);
  sum_urls : list (list Z);
  password_history_count : Z;
  sum_has_totp : bool;
  current_password_changed_at_ms : Z
}.

(** [String::from_utf8(..).unwrap_or_default()]. *)
Definition utf8_or_empty (s : list Z) : list Z := if utf8 s then s else [].

Definition identity_to_summary (id : AccountId) (head_revision : RevisionId) (i : AccountIdentity) :
    AccountIdentitySummary :=
  mkSummary ACCOUNT_IDENTITY_SCHEMA_VERSION id head_revision (utf8_or_empty (display_name i))
    (utf8_or_empty <$> tags i) (utf8_or_empty <$> usernames i) (utf8_or_empty <$> urls i)
    (default U32_MAX (u32_try_from (Z.of_nat (length (password_history i))))) (has_totp i)
    match hd_error (password_history i) with Some e => set_at_ms e | None => 0 end.

Record AccountStatus : Type := mkStatus {
  status_id : AccountId;
  is_tombstoned : bool;
  is_forked : bool;
  is_frozen_pending_resolve : bool;
  status_requires_upgrade : bool
}.

Section handlers.
Context {Key Index P : Type} `{!PresenceProof P} `{!SearchIndexOps Index SearchProjection} `{!Cbor.Cbor}.
Context (clock wall rng : nat -> Z) (vault_id wrap_schema : Z).
Context (nfc to_lowercase : list Z -> list Z) (url_parse : list Z -> option (list Z))
        (url_host : list Z -> option (option (list Z))).
Context (aead_seal : Key -> Z -> list Z -> list Z -> option (list Z))
        (open_identity : Key -> Z -> list Z -> Aad -> store_result (DecodedPayload AccountIdentity))
        (totp : list Z -> Z -> TotpParams -> result TotpError TotpCode)
        (index_search : list Z -> Index -> list (AccountId * Z)).

Notation W := (World Database AccountSnapshot Key Index P).
Notation vop := (op W StoreError).
Notation from_identity := (from_identity to_lowercase url_host).
Notation read_identity_at := (read_identity_at vault_id open_identity).

(** ** Edits *)

Definition account_add_prepare (draft : AccountIdentityDraft) : vop (NewRevision * AccountIdentity) :=
  check_session_freshness clock ≫= fun _ =>
  require_active ≫= fun _ =>
  now ← current_unix_ms wall;
  v ← gets vault;
  identity ← lift (validate_into_identity nfc to_lowercase url_parse draft now (vault_device_id v));
  account_id ← derive_fresh_account_id rng ADD_ACCOUNT_RETRY_BUDGET;
  revision_id ← random_32 rng;
  a ← require_active;
  nonce ← random_32 rng;
  ct ← lift (seal_identity aead_seal (vdk a) nonce identity (mkAad vault_id account_id GENESIS_PARENT wrap_schema));
  v ← gets vault;
  mret (mkNewRevision account_id revision_id
    (local_row account_id GENESIS_PARENT (vault_device_id v) wrap_schema now ct nonce false
               (current_vdk_epoch_i64 v)) now, identity).

Definition account_add (draft : AccountIdentityDraft) : vop AccountId :=
  '(p, identity) ← account_add_prepare draft;
  transaction (tx_add (new_account p) (new_id p) (new_row p) (new_now p)) ≫= fun _ =>
  put_snapshot clock (index_insert (new_account p) (new_now p) (from_identity identity))
    (new_account p) (downgrade_identity_to_snapshot identity) (new_now p) ≫= fun _ =>
  mret (new_account p).

Definition account_update_prepare (id : AccountId) (patch : AccountIdentityPatch) :
    vop (NewRevision * AccountIdentity) :=
  parent ← edit_target clock id;
  v ← gets vault;
  identity ← lift (read_identity_at id parent v);
  now ← current_unix_ms wall;
  identity ← lift (apply nfc to_lowercase url_parse patch identity now (vault_device_id v));
  revision_id ← random_32 rng;
  a ← require_active;
  nonce ← random_32 rng;
  ct ← lift (seal_identity aead_seal (vdk a) nonce identity (mkAad vault_id id parent wrap_schema));
  v ← gets vault;
  mret (mkNewRevision id revision_id
    (local_row id parent (vault_device_id v) wrap_schema now ct nonce false
               (current_vdk_epoch_i64 v)) now, identity).

Definition account_update (id : AccountId) (patch : AccountIdentityPatch) : vop RevisionId :=
  '(p, identity) ← account_update_prepare id patch;
  transaction (tx_edit id (new_id p) (new_row p) (new_now p) false) ≫= fun _ =>
  put_snapshot clock (index_update id (new_now p) (from_identity identity))
    id (downgrade_identity_to_snapshot identity) (new_now p) ≫= fun _ =>
  mret (new_id p).

(** ** Reads *)

Definition account_summary (id : AccountId) : vop AccountIdentitySummary :=
  '(head, identity) ← account_get clock vault_id open_identity id; mret (identity_to_summary id head identity).

(** One candidate of a search; [None] when it is skipped. *)
Definition search_hit (frozen_set : list AccountId) (acct : AccountId) (v : Vault Database AccountSnapshot Key Index) :
    store_result (option AccountIdentitySummary) :=
  if bool_decide (acct ∈ frozen_set) then Ok None
  else
    match account_identities (db v) !! acct with
    | None => Ok None
    | Some a =>
        if tombstoned a then Ok None
        else if account_requires_upgrade v acct then Ok None
        else
          heads ← account_heads (db v) acct;
          head ← (if 1 <? Z.of_nat (length heads) then
                    match vault_canonical_head (db v) acct with Some r => r | None => Err Internal end
                  else Ok (head_revision_id a));
          identity ← read_identity_at acct head v;
          Ok (Some (identity_to_summary acct head identity))
    end.

Fixpoint search_hits (frozen_set : list AccountId) (candidates : list (AccountId * Z))
    (v : Vault Database AccountSnapshot Key Index) : store_result (list AccountIdentitySummary) :=
  match candidates with
  | [] => Ok []
  | (acct, _) :: candidates =>
      hit ← search_hit frozen_set acct v;
      hits ← search_hits frozen_set candidates v;
      Ok (match hit with Some s => s :: hits | None => hits end)
  end.

(** [Vault::search], on the cache. *)
Definition vault_search (w : W) (query : list Z) : list AccountId :=
  if is_session_active clock w then
    match active (vault w) with
    | None => []
    | Some a => filter (fun id => id ∉ list_frozen_accounts (db (vault w))) (cache_search (cache a) query)
    end
  else [].

Definition account_search (query : list Z) : vop (list AccountIdentitySummary) :=
  check_session_freshness clock ≫= fun _ =>
  a ← require_active;
  v ← gets vault;
  hits ← lift (search_hits (list_frozen_accounts (db v)) (index_search query (search_index a)) v);
  touch_session clock ≫= fun _ => mret hits.

(** Ties of [created_at], which the query leaves open, by id. *)
Definition account_history (id : AccountId) (v : Vault Database AccountSnapshot Key Index) :
    store_result (list RevisionMeta) :=
  match account_identities (db v) !! id with
  | None => Err AccountNotFound
  | Some _ => read_revision_rows_for (db v) id
  end.

Definition account_status (id : AccountId) (v : Vault Database AccountSnapshot Key Index) : store_result AccountStatus :=
  a ← ok_or (account_identities (db v) !! id) AccountNotFound;
  heads ← account_heads (db v) id;
  Ok (mkStatus id (tombstoned a) (1 <? Z.of_nat (length heads)) (frozen a) (account_requires_upgrade v id)).

(** ** Reveals and codes *)

Definition reveal_current_password (id : AccountId) : vop (list Z) := reveal_secret_field clock wall id snap_password.
Definition reveal_password (id : AccountId) : vop (list Z) := reveal_current_password id.
Definition reveal_notes (id : AccountId) : vop (list Z) := reveal_secret_field clock wall id snap_notes.
Definition reveal_totp_secret (id : AccountId) : vop (list Z) := reveal_secret_field clock wall id snap_totp_secret.

Definition read_head_identity (id : AccountId) (v : Vault Database AccountSnapshot Key Index) :
    store_result AccountIdentity :=
  a ← ok_or (account_identities (db v) !! id) AccountNotFound;
  if tombstoned a then Err AccountTombstoned else read_identity_at id (head_revision_id a) v.

Definition reveal_password_history (id : AccountId) : vop (list PasswordEntry) :=
  check_session_freshness clock ≫= fun _ =>
  refuse_if_frozen id ≫= fun _ =>
  refuse_if_requires_upgrade id ≫= fun _ =>
  ensure_presence_fresh clock wall ≫= fun _ =>
  v ← gets vault;
  identity ← lift (read_head_identity id v);
  touch_session clock ≫= fun _ => mret (password_history identity).

Definition totp_generate (id : AccountId) (at_unix_secs : Z) : vop TotpCode :=
  check_session_freshness clock ≫= fun _ =>
  refuse_if_frozen id ≫= fun _ =>
  refuse_if_requires_upgrade id ≫= fun _ =>
  v ← gets vault;
  identity ← lift (read_head_identity id v);
  if negb (has_totp identity) then throw (Validation "totp_not_configured")
  else
    code ← lift (map_err (fun _ => Validation "totp_params") (totp (totp_secret identity) at_unix_secs (totp_params identity)));
    touch_session clock ≫= fun _ => mret code.
End handlers.

(** ** What an edit did *)

(** The session keeps its keys; the cache and the index are the ones given. *)
Record session_after {Key Index} (a a' : ActiveState AccountSnapshot Key Index) (cache' : gmap Z AccountSnapshot)
    (m : op Index StoreError unit) : Prop := mkSessionAfter {
  after_vdk : vdk a' = vdk a;
  after_chain : chain a' = chain a;
  after_upgrade : requires_upgrade a' = requires_upgrade a;
  after_cache : cache a' = cache';
  after_index : m (search_index a) = (Ok tt, search_index a')
}.

Section edits.
Context {Key Index P : Type} `{!PresenceProof P} `{!SearchIndexOps Index SearchProjection} `{!Cbor.Cbor}.
Context (clock wall rng : nat -> Z) (vault_id wrap_schema : Z).
Context (nfc to_lowercase : list Z -> list Z) (url_parse : list Z -> option (list Z))
        (url_host : list Z -> option (option (list Z))).
Context (aead_seal : Key -> Z -> list Z -> list Z -> option (list Z))
        (open_identity : Key -> Z -> list Z -> Aad -> store_result (DecodedPayload AccountIdentity)).

Notation W := (World Database AccountSnapshot Key Index P).
Notation vop := (op W StoreError).
Notation account_add := (account_add clock wall rng vault_id wrap_schema nfc to_lowercase url_parse url_host aead_seal).
Notation account_update :=
  (account_update clock wall rng vault_id wrap_schema nfc to_lowercase url_parse url_host aead_seal open_identity).
Notation read_identity_at := (read_identity_at vault_id open_identity).
Notation projection := (Search.from_identity to_lowercase url_host).

Lemma edit_tail_Ok m f now (w w' : W) a :
  active (vault w) = Some a ->
  (note_dirty_marker_stamped now ≫= fun _ => on_index m ≫= fun _ => map_cache f ≫= fun _ => touch_session clock) w
    = (Ok tt, w') ->
  db (vault w') = db (vault w)
  /\ exists a', active (vault w') = Some a' /\ session_after a a' (f (cache a)) m.
Proof.
  intros Ha. unfold note_dirty_marker_stamped, map_cache, map_active, modify. rewrite op_bind_eq.
  set (w1 := map_vault _ w). set (a1 := match window_started_at_unix_ms a with None => set_window (Some now) a | Some _ => a end).
  assert (Ha1 : active (vault w1) = Some a1) by (unfold w1; simpl; rewrite Ha; done).
  assert (Hd1 : db (vault w1) = db (vault w)) by done.
  assert (Hk : vdk a1 = vdk a /\ chain a1 = chain a /\ requires_upgrade a1 = requires_upgrade a
               /\ cache a1 = cache a /\ search_index a1 = search_index a).
  { unfold a1. by destruct (window_started_at_unix_ms a). }
  clearbody w1 a1. rewrite op_bind_eq. unfold on_index at 1. rewrite Ha1.
  destruct (m (search_index a1)) as [[[]|e] ix] eqn:Em; [|done]. rewrite op_bind_eq.
  match goal with |- touch_session clock ?w2 = _ -> _ =>
    destruct (touch_session_total clock w2) as (w3 & Ht & _ & Hact & Hdb) end.
  rewrite Ht. intros [= <-]. split; [by rewrite Hdb|]. simpl in Hact. eexists. split; [exact Hact|].
  destruct Hk as (H1 & H2 & H3 & H4 & H5). split; simpl; [done|done|done|by rewrite H4|by rewrite <- H5].
Qed.

Lemma unix_ms_is_i64 t : is_i64 (unix_ms_of t).
Proof.
  unfold unix_ms_of, is_i64. destruct (t <? 0); [unfold I64_MIN, I64_MAX; lia|].
  unfold i64_try_from. destruct (try_from I64_MIN I64_MAX (t / 1000000)) as [x|] eqn:E; simpl; [|unfold I64_MIN, I64_MAX; lia].
  apply try_from_Some in E. lia.
Qed.

(** The row of an edit of identity [i]: sealed under the current key, with its
    epoch. *)
Record sealed_row (a : ActiveState AccountSnapshot Key Index) (id parent : Z) (i : AccountIdentity) (row : RevisionRow) : Prop := mkSealedRow {
  sealed_account : row_account row = id;
  sealed_parent : row_parent row = parent;
  sealed_schema : row_schema row = wrap_schema;
  sealed_epoch : vdk_epoch row = default I64_MAX (i64_try_from (current_epoch (chain a)));
  sealed_live : row_is_tombstone row = false /\ row_superseded_by row = None /\ revoked row = false;
  sealed_nonce : exists k, enc_nonce row = rng k;
  sealed_payload : seal_identity aead_seal (vdk a) (enc_nonce row) i (mkAad vault_id id parent wrap_schema)
                   = Ok (enc_payload row)
}.

Record updated (w w' : W) (id : AccountId) (patch : AccountIdentityPatch) (rid : RevisionId)
    (acc : AccountRow) (a a' : ActiveState AccountSnapshot Key Index) (i i' : AccountIdentity) (now : Z)
    (row : RevisionRow) : Prop := mkUpdated {
  up_editable : editable clock w id acc;
  up_active : active (vault w) = Some a;
  up_read : read_identity_at id (head_revision_id acc) (vault w) = Ok i;
  up_now : is_i64 now;
  up_apply : apply nfc to_lowercase url_parse patch i now (vault_device_id (vault w)) = Ok i';
  up_rid : exists k, rid = rng k;
  up_row : t_revisions (db (vault w')) = <[rid := row]> (t_revisions (db (vault w)));
  up_fresh : t_revisions (db (vault w)) !! rid = None;
  up_sealed : sealed_row a id (head_revision_id acc) i' row;
  up_accounts : account_identities (db (vault w'))
    = <[id := mkAccountRow (account_created_at acc) now false rid (frozen acc)]> (account_identities (db (vault w)));
  up_active' : active (vault w') = Some a';
  up_session : session_after a a' (<[id := downgrade_identity_to_snapshot i']> (cache a)) (index_update id now (projection i'))
}.

(** What the preparation of an update leaves for its transaction. *)
Record prepared (w w1 : W) (id : AccountId) (patch : AccountIdentityPatch) (acc : AccountRow)
    (a : ActiveState AccountSnapshot Key Index) (i i' : AccountIdentity) (p : NewRevision) : Prop := mkPrepared {
  prep_editable : editable clock w id acc;
  prep_active : active (vault w) = Some a;
  prep_read : read_identity_at id (head_revision_id acc) (vault w) = Ok i;
  prep_now : is_i64 (new_now p);
  prep_apply : apply nfc to_lowercase url_parse patch i (new_now p) (vault_device_id (vault w)) = Ok i';
  prep_rid : exists k, new_id p = rng k;
  prep_sealed : sealed_row a id (head_revision_id acc) i' (new_row p);
  prep_db : exists n, db (vault w1) = set_draws n (db (vault w));
  prep_active' : active (vault w1) = Some a
}.

Lemma account_update_prepare_inv id patch (w w1 : W) p i' :
  account_update_prepare clock wall rng vault_id wrap_schema nfc to_lowercase url_parse aead_seal open_identity id patch w
    = (Ok (p, i'), w1) ->
  exists acc a i, prepared w w1 id patch acc a i i' p.
Proof.
  intros Hp. unfold account_update_prepare in Hp.
  apply op_bind_Ok in Hp as (parent & s0 & (Hv & [a Ha] & acc & Hed & ->)%edit_target_inv & Hp).
  rewrite (op_bind_run (gets vault) _ s0 (vault s0) s0) in Hp by done. rewrite Hv in Hp.
  apply op_bind_Ok in Hp as (i & s1 & Hi & Hp). unfold lift in Hi. injection Hi as Hi <-.
  rewrite (op_bind_run (current_unix_ms wall) _ s0 _ _ eq_refl) in Hp.
  apply op_bind_Ok in Hp as (i2 & s2 & Hi2 & Hp). unfold lift in Hi2. injection Hi2 as Hi2 <-.
  unfold random_32, get_db, put_db, require_active, gets, modify, lift, mbind, op_bind in Hp. simpl in Hp.
  rewrite Hv in Hp. rewrite Ha in Hp. simpl in Hp.
  destruct (seal_identity _ _ _ _ _) as [ct|e] eqn:Hs; [|done]. injection Hp as <- <- <-.
  exists acc, a, i. split; simpl; rewrite ?Hv; try done.
  - apply unix_ms_is_i64.
  - by eexists.
  - split; cbn; [done|done|done| |done|by eexists|exact Hs]. unfold current_vdk_epoch_i64. simpl. by rewrite Ha.
  - by eexists.
Qed.

(** What the transaction of an edit makes of tables equal to [d] up to the draws. *)
Lemma tx_edit_inv (d d2 : Database) n id p u :
  tx_edit id (new_id p) (new_row p) (new_now p) false (set_draws n d) = Ok (d2, u) ->
  t_revisions d2 = <[new_id p := new_row p]> (t_revisions d) /\ t_revisions d !! new_id p = None
  /\ forall acc, account_identities d !! id = Some acc -> account_identities d2
     = <[id := mkAccountRow (account_created_at acc) (new_now p) (tombstoned acc) (new_id p) (frozen acc)]> (account_identities d).
Proof.
  unfold tx_edit. unfold mbind, result_bind. intros Ht. destruct (insert_revision _ _ _) as [d3|e] eqn:Hins; [|done].
  apply insert_revision_Ok in Hins as (Hfresh & _ & ->). injection Ht as <- _.
  match goal with |- context [insert_dirty ?i ?r ?n ?d0] => destruct (insert_dirty_spec i r n d0) as (H1 & H2 & _) end.
  simpl in H1, H2. split_and!; [by rewrite H2|done|]. intros acc Hacc. rewrite H1. by erewrite alter_Some by exact Hacc.
Qed.

Lemma account_update_inv id patch (w w' : W) rid :
  account_update id patch w = (Ok rid, w') ->
  exists acc a a' i i' now row, updated w w' id patch rid acc a a' i i' now row.
Proof.
  unfold IdentityOps.account_update. intros Hr. apply op_bind_Ok in Hr as ([p i'] & w1 & Hp & Hr).
  apply account_update_prepare_inv in Hp as (acc & a & i & [Hed Ha Hi Hnow Happly Hrid Hseal [n Hdb1] Ha1]).
  apply op_bind_Ok in Hr as ([] & w2 & Ht & Hr). apply transaction_inv in Ht as (d2 & Ht & ->).
  apply op_bind_Ok in Hr as ([] & w3 & Hput & Hr). injection Hr as <- <-.
  eapply edit_tail_Ok in Hput as (Hdb & a' & Ha' & Hafter); [|simpl; exact Ha1].
  rewrite Hdb1 in Ht. apply tx_edit_inv in Ht as (H2 & Hfresh & H1). simpl in Hdb.
  specialize (H1 acc (ed_row _ _ _ _ Hed)). rewrite (ed_live _ _ _ _ Hed) in H1.
  exists acc, a, a', i, i', (new_now p), (new_row p). split; try done; by rewrite Hdb.
Qed.

(** [account_add]: the new account, its first revision, and the session. *)
Record added (w w' : W) (draft : AccountIdentityDraft) (id : AccountId) (rid : RevisionId)
    (a a' : ActiveState AccountSnapshot Key Index) (i : AccountIdentity) (now : Z) (row : RevisionRow) : Prop := mkAdded {
  add_active : active (vault w) = Some a;
  add_now : is_i64 now;
  add_valid : validate_into_identity nfc to_lowercase url_parse draft now (vault_device_id (vault w)) = Ok i;
  add_new : account_identities (db (vault w)) !! id = None;
  add_rid : exists k, rid = rng k;
  add_row : t_revisions (db (vault w')) = <[rid := row]> (t_revisions (db (vault w)));
  add_fresh : t_revisions (db (vault w)) !! rid = None;
  add_sealed : sealed_row a id GENESIS_PARENT i row;
  add_accounts : account_identities (db (vault w'))
    = <[id := mkAccountRow now now false rid false]> (account_identities (db (vault w)));
  add_active' : active (vault w') = Some a';
  add_session : session_after a a' (<[id := downgrade_identity_to_snapshot i]> (cache a)) (index_insert id now (projection i))
}.

Lemma derive_fresh_account_id_frame n (w w' : W) id :
  derive_fresh_account_id rng n w = (Ok id, w') ->
  same_tables (db (vault w)) (db (vault w')) /\ active (vault w') = active (vault w)
  /\ vault_device_id (vault w') = vault_device_id (vault w).
Proof.
  revert w. induction n as [|n IH]; intros w; [done|]. cbn [derive_fresh_account_id].
  unfold random_32, get_db, put_db, gets, modify, mbind, op_bind. simpl.
  destruct (account_identities _ !! _) as [x|]; [destruct (tombstoned x)|].
  - intros Hd. apply IH in Hd as (H1 & H2 & H3). split_and!; [|exact H2|exact H3].
    etrans; [|exact H1]. simpl. apply same_tables_draws.
  - intros [= <- <-]. split_and!; [apply same_tables_draws|done|done].
  - intros [= <- <-]. split_and!; [apply same_tables_draws|done|done].
Qed.

Lemma account_add_inv draft (w w' : W) id :
  account_add draft w = (Ok id, w') ->
  exists rid a a' i now row, added w w' draft id rid a a' i now row.
Proof.
  unfold IdentityOps.account_add. intros Hr. apply op_bind_Ok in Hr as ([p i] & w1 & Hp & Hr).
  unfold account_add_prepare in Hp.
  apply op_bind_Ok in Hp as (u0 & s0 & [Hv _]%check_inv & Hp).
  apply op_bind_Ok in Hp as (a & s1 & [-> Ha]%require_active_inv & Hp).
  rewrite (op_bind_run (current_unix_ms wall) _ s0 _ _ eq_refl) in Hp.
  rewrite (op_bind_run (gets vault) _ _ _ _ eq_refl) in Hp.
  apply op_bind_Ok in Hp as (i2 & s2 & Hi & Hp). unfold lift in Hi. injection Hi as Hi <-.
  apply op_bind_Ok in Hp as (aid & s3 & Hd & Hp).
  apply derive_fresh_account_id_frame in Hd as ((Hacc & Hrev & _)%same_tables_fields & Hact & Hdev).
  simpl in Hacc, Hrev, Hact, Hdev, Hi. rewrite Hv in Hacc, Hrev, Hact, Hdev, Hi. rewrite Hv in Ha.
  unfold random_32, get_db, put_db, require_active, gets, modify, lift, mbind, op_bind in Hp. simpl in Hp.
  rewrite Hact, Ha in Hp. simpl in Hp.
  destruct (seal_identity _ _ _ _ _) as [ct|e] eqn:Hs; [|done]. injection Hp as <- <- <-.
  apply op_bind_Ok in Hr as ([] & w2 & Ht & Hr). apply transaction_inv in Ht as (d2 & Ht & ->).
  apply op_bind_Ok in Hr as ([] & w3 & Hput & Hr). injection Hr as <- <-.
  eapply edit_tail_Ok in Hput as (Hdb & a' & Ha' & Hafter); [|simpl; rewrite Hact; exact Ha].
  cbn [new_account new_id new_row new_now] in *. unfold tx_add, mbind, result_bind in Ht.
  destruct (insert_account _ _ _) as [d3|e] eqn:Hina; [|done].
  apply insert_account_Ok in Hina as [Hnone ->].
  destruct (insert_revision _ _ _) as [d4|e] eqn:Hins; [|done].
  apply insert_revision_Ok in Hins as (Hfresh & _ & ->). injection Ht as <-.
  match type of Hdb with _ = ?d => match d with context [insert_dirty ?i ?r ?n ?d0] =>
    destruct (insert_dirty_spec i r n d0) as (H1 & H2 & _) end end.
  simpl in Hdb, H1, H2, Hnone, Hfresh. eexists _, a, a', i2, _, _. split.
  - done.
  - apply unix_ms_is_i64.
  - exact Hi.
  - by rewrite Hacc.
  - by eexists.
  - rewrite Hdb. rewrite H2, Hrev. reflexivity.
  - by rewrite Hrev.
  - split; cbn; [done|done|done| |done|by eexists|exact Hs]. unfold current_vdk_epoch_i64. simpl. by rewrite Hact, Ha.
  - rewrite Hdb. rewrite H1, Hacc. reflexivity.
  - done.
  - done.
Qed.

(** [delete_account]. *)
Record deleted (w w' : W) (id : AccountId) (rid : RevisionId) (acc : AccountRow)
    (a a' : ActiveState AccountSnapshot Key Index) (now : Z) (row : RevisionRow) : Prop := mkDeleted {
  del_editable : editable clock w id acc;
  del_active : active (vault w) = Some a;
  del_row : t_revisions (db (vault w')) = <[rid := row]> (t_revisions (db (vault w)));
  del_fresh : t_revisions (db (vault w)) !! rid = None;
  del_row_account : row_account row = id;
  del_accounts : account_identities (db (vault w'))
    = <[id := mkAccountRow (account_created_at acc) now true rid (frozen acc)]> (account_identities (db (vault w)));
  del_active' : active (vault w') = Some a';
  del_session : session_after a a' (delete id (cache a)) (index_remove id)
}.

Lemma delete_account_inv {Identity} seal_payload id (w w' : W) u :
  delete_account (Identity := Identity) clock wall rng vault_id wrap_schema seal_payload id w = (Ok u, w') ->
  exists rid acc a a' now row, deleted w w' id rid acc a a' now row.
Proof.
  unfold delete_account. intros Hr. apply op_bind_Ok in Hr as (p & w1 & Hp & Hr).
  pose proof Hp as Hsame. apply (moves_Ok _ _ _ _ (delete_prepare_same _ _ _ _ _ _ id)) in Hsame.
  apply same_tables_fields in Hsame as (Hacc & Hrev & _).
  apply delete_prepare_inv in Hp as (Hact & [a Ha] & acc & Hed & [Hid Hra _ Hcr _ _ _ _]).
  apply op_bind_Ok in Hr as ([] & w2 & Ht & Hput). apply transaction_inv in Ht as (d2 & Ht & ->). destruct u.
  eapply edit_tail_Ok in Hput as (Hdb & a' & Ha' & Hafter); [|simpl; rewrite Hact; exact Ha].
  unfold tx_edit, mbind, result_bind in Ht. destruct (insert_revision _ _ _) as [d3|e] eqn:Hins; [|done].
  apply insert_revision_Ok in Hins as (Hfresh & _ & ->). injection Ht as <-.
  match type of Hdb with _ = ?d => match d with context [insert_dirty ?i ?r ?n ?d0] =>
    destruct (insert_dirty_spec i r n d0) as (H1 & H2 & _) end end.
  simpl in Hdb, H1, H2. exists (new_id p), acc, a, a', (new_now p), (new_row p). split; try done.
  - rewrite Hdb, H2. by rewrite Hrev.
  - by rewrite Hrev.
  - rewrite Hdb, H1, <- Hacc. by erewrite alter_Some by apply Hed.
Qed.
End edits.

(** ** What is read after an edit *)

Section reading.
Context {Key Index P : Type} `{!PresenceProof P} `{!SearchIndexOps Index SearchProjection} `{!Cbor.Cbor} `{!CborLaws _}.
Context (memory : Z) (memory_lo : 32 <= memory) (memory_hi : memory <= I64_MAX).
Context (clock wall rng : nat -> Z) (vault_id wrap_schema : Z).
Context (nfc to_lowercase : list Z -> list Z) (url_parse : list Z -> option (list Z))
        (url_host : list Z -> option (option (list Z))).
Context (aead_seal aead_open : Key -> Z -> list Z -> list Z -> option (list Z))
        (open_identity : Key -> Z -> list Z -> Aad -> store_result (DecodedPayload AccountIdentity)).

Notation W := (World Database AccountSnapshot Key Index P).
Notation account_update :=
  (account_update clock wall rng vault_id wrap_schema nfc to_lowercase url_parse url_host aead_seal open_identity).
Notation read_identity_at := (read_identity_at vault_id open_identity).
Notation projection := (Search.from_identity to_lowercase url_host).
Notation stored := (stored_identity nfc to_lowercase url_parse).

(** What the AEAD promises, and that [open_identity] is the reader of [Payload]
    wherever that one ends in a value. *)
Hypothesis aead_opens : forall k n m a c, aead_seal k n m a = Some c -> aead_open k n c a = Some m.
Hypothesis opens_payload : forall k n ct a p,
  open_identity_payload memory aead_open k n ct a = Ok p -> open_identity k n ct a = Ok p.
(** The rows written here carry a version this build reads. *)
Hypothesis schema_ok : 0 <= wrap_schema <= REVISION_SCHEMA_VERSION_MAX.

Lemma seal_opens k n i a ct :
  stored i -> sizes_ok memory i -> seal_identity aead_seal k n i a = Ok ct -> open_identity k n ct a = Ok (LivePayload i).
Proof using aead_opens opens_payload memory_lo memory_hi CborLaws0.
  intros Hi Hz Hs. apply opens_payload. eapply open_sealed; [exact aead_opens| |exact Hs].
  apply (reads_identity memory memory_lo memory_hi i PAYLOAD_VERSION_V2); [|by right].
  apply values_sizes_ok; [|done]. by apply (stored_values_ok nfc to_lowercase url_parse).
Qed.

Lemma schema_u8 : u8_try_from wrap_schema = Some wrap_schema /\ (REVISION_SCHEMA_VERSION_MAX <? wrap_schema) = false.
Proof using schema_ok.
  split; [|apply Z.ltb_ge; lia]. apply try_from_Some. unfold REVISION_SCHEMA_VERSION_MAX, U8_MAX in *. lia.
Qed.

(** A row sealed in this session is read as what was sealed. *)
Lemma read_sealed_row (v : Vault Database AccountSnapshot Key Index) (a a0 : ActiveState AccountSnapshot Key Index) id parent rid i row :
  t_revisions (db v) !! rid = Some row -> active v = Some a -> vdk a = vdk a0 ->
  sealed_row rng vault_id wrap_schema aead_seal a0 id parent i row -> stored i -> sizes_ok memory i ->
  read_identity_at id rid v = Ok i.
Proof using aead_opens opens_payload memory_lo memory_hi CborLaws0 schema_ok.
  intros Hr Ha Hk [Hacc Hpar Hsch _ _ _ Hs] Hi Hz. unfold AccountOps.read_identity_at.
  rewrite Hr. cbn. rewrite bool_decide_eq_true_2 by done. rewrite Hsch. destruct schema_u8 as [-> Hle]. cbn.
  rewrite Ha. cbn. rewrite Hk, Hpar. rewrite (seal_opens _ _ _ _ _ Hi Hz Hs). cbn. by rewrite Hle.
Qed.

(** Reading depends on the row and on the key. *)
Lemma read_identity_at_frame (v v' : Vault Database AccountSnapshot Key Index) a a' id rid :
  t_revisions (db v') !! rid = t_revisions (db v) !! rid -> active v = Some a -> active v' = Some a' -> vdk a' = vdk a ->
  read_identity_at id rid v' = read_identity_at id rid v.
Proof.
  intros Hr Ha Ha' Hk. unfold AccountOps.read_identity_at. rewrite Hr, Ha, Ha'. cbn. by rewrite Hk.
Qed.

(** C19. An edit is what the next read returns.  When [account_update] succeeds, the
    patch was applied to the identity read at the old head; the returned revision is the
    new head, it reads as exactly the patched identity, while the old head still reads as
    the old one; the snapshot that the first interface serves and the projection the
    index was updated with are those of the patched identity; and no other account, no
    other revision and no other entry of the cache changed. *)
Theorem update_then_read id patch (w w' : W) rid i :
  account_update id patch w = (Ok rid, w') ->
  (forall a, account_identities (db (vault w)) !! id = Some a -> read_identity_at id (head_revision_id a) (vault w) = Ok i) ->
  stored i -> is_id (vault_device_id (vault w)) -> (forall q, patch_totp_params patch = Some q -> 0 <= period_seconds q) ->
  (forall now i', apply nfc to_lowercase url_parse patch i now (vault_device_id (vault w)) = Ok i' -> sizes_ok memory i') ->
  exists now i' acc a a',
    apply nfc to_lowercase url_parse patch i now (vault_device_id (vault w)) = Ok i' /\ stored i'
    /\ account_identities (db (vault w)) !! id = Some acc /\ active (vault w) = Some a /\ active (vault w') = Some a'
    /\ read_identity_at id rid (vault w') = Ok i'
    /\ read_identity_at id (head_revision_id acc) (vault w') = Ok i
    /\ account_identities (db (vault w'))
       = <[id := mkAccountRow (account_created_at acc) now false rid false]> (account_identities (db (vault w)))
    /\ delete rid (t_revisions (db (vault w'))) = t_revisions (db (vault w))
    /\ cache a' = <[id := downgrade_identity_to_snapshot i']> (cache a)
    /\ index_update id now (projection i') (search_index a) = (Ok tt, search_index a').
Proof using aead_opens opens_payload memory_lo memory_hi CborLaws0 schema_ok.
  intros (acc & a & a' & i0 & i' & now & row & U)%account_update_inv Hread Hi Hdev Hp Hsz.
  destruct U as [[Hacc Hlive Hunf _ _] Ha Hr0 Hnow Happly _ Hrow Hfresh Hseal Haccs Ha' Hses].
  rewrite (Hread acc Hacc) in Hr0. injection Hr0 as <-.
  assert (Hst : stored i') by (by eapply stored_edit).
  exists now, i', acc, a, a'. destruct Hses as [Hvdk _ _ Hc Hix].
  split_and!; try done.
  - eapply read_sealed_row; [rewrite Hrow; by rewrite lookup_insert_eq|exact Ha'|exact Hvdk|exact Hseal|done|by eapply Hsz].
  - rewrite <- (Hread acc Hacc). eapply read_identity_at_frame; [|exact Ha|exact Ha'|exact Hvdk].
    rewrite Hrow. rewrite lookup_insert_ne; [done|]. intros Heq.
    specialize (Hread acc Hacc). unfold AccountOps.read_identity_at in Hread. by rewrite <- Heq, Hfresh in Hread.
  - by rewrite Haccs, Hunf.
  - rewrite Hrow. rewrite delete_insert_id; done.
Qed.
End reading.

Module IdentitySample.
Import PayloadSample.

(** A total reader: what the model of [Payload] ends with, an abort as [Internal]. *)
Definition sample_open (k n : Z) (ct : list Z) (a : Aad) : store_result (DecodedPayload AccountIdentity) :=
  match open_identity_payload memory record_open k n ct a with
  | Ok p => Ok p
  | Err (Prelude.Failed e) => Err e
  | Err Abort => Err Internal
  end.

Definition sample_rng (k : nat) : Z := 1000 + Z.of_nat k.
Definition sample_clock (k : nat) : Z := from_secs (Z.of_nat k).

(** Account 2 of vault 1, its one revision sealed under key 77 of epoch 1. *)
Definition sample_ct : list Z :=
  default [] (record_seal 77 6 (encode_identity_cbor sample_identity) (build_aad (mkAad 1 2 GENESIS_PARENT 1))).

Definition sample_row : RevisionRow :=
  mkRevisionRow 2 GENESIS_PARENT 9 1 10 sample_ct 6 false 1 None None Finalized None None None false.

Definition sample_db : Database :=
  mkDatabase {[ 2 := mkAccountRow 10 10 false 3 false ]} {[ 3 := sample_row ]} ∅ ∅ None None None 0.

Definition sample_session : ActiveState AccountSnapshot Z SearchIndex :=
  mkActiveState 77 (mkVdkChain ∅ 1) {[ 2 := downgrade_identity_to_snapshot sample_identity ]}
    (index_insert 2 10 (Search.from_identity to_ascii_lowercase SearchSample.host sample_identity) new_empty).2
    1 2 (Some 0) ∅ None false false None.

Definition sample_world : World Database AccountSnapshot Z SearchIndex PressYPresenceProof :=
  mkWorld (mkVault (Active (from_secs 900) 0 0) (Some sample_session) Min15 None 9 sample_db) (PressY_confirmed 0) 0.

Notation sample_update := (account_update sample_clock sample_clock sample_rng 1 1 id to_ascii_lowercase Some SearchSample.host
  record_seal sample_open).

Lemma sample_opens k n ct a p :
  open_identity_payload memory record_open k n ct a = Ok p -> sample_open k n ct a = Ok p.
Proof. unfold sample_open. by intros ->. Qed.

Lemma sample_identity_stored : stored_identity id to_ascii_lowercase Some sample_identity.
Proof.
  eapply (stored_new id to_ascii_lowercase Some sample_draft 1700000000000 7);
    [unfold is_i64, I64_MIN, I64_MAX; lia|unfold is_id; lia|vm_compute; discriminate|exact sample_identity_validates].
Qed.

Lemma sample_sizes now i' :
  apply id to_ascii_lowercase Some sample_patch sample_identity now 9 = Ok i' -> sizes_ok memory i'.
Proof.
  intros [= <-]. split; unfold few, small, memory; repeat constructor; vm_compute; discriminate.
Qed.

Lemma update_then_read_witness :
  exists w', sample_update 2 sample_patch sample_world = (Ok 1000, w')
    /\ exists i', read_identity_at 1 sample_open 2 1000 (vault w') = Ok i'
       /\ read_identity_at 1 sample_open 2 3 (vault w') = Ok sample_identity
       /\ password_history i' = mkPasswordEntry (bytes_of "new") 1000 9 :: password_history sample_identity.
Proof.
  destruct (sample_update 2 sample_patch sample_world) as [r w'] eqn:Hr.
  assert (Hok : r = Ok 1000) by (change r with (fst (r, w')); rewrite <- Hr; vm_compute; reflexivity).
  rewrite Hok in *.
  destruct (update_then_read memory ltac:(vm_compute; discriminate) ltac:(vm_compute; discriminate)
    sample_clock sample_clock sample_rng 1 1 id to_ascii_lowercase Some SearchSample.host record_seal record_open sample_open
    record_opens sample_opens ltac:(vm_compute; split; discriminate)
    2 sample_patch sample_world w' 1000 sample_identity Hr) as (now & i' & acc & a & a' & _ & _ & Hacc & _ & _ & H1 & H2 & _).
  - intros a Ha. cbn in Ha. injection Ha as <-. vm_compute. reflexivity.
  - exact sample_identity_stored.
  - unfold is_id. cbn. lia.
  - intros q [= <-]. vm_compute. discriminate.
  - exact sample_sizes.
  - cbn in Hacc. injection Hacc as <-. exists w'. split; [done|]. exists i'. split; [exact H1|]. split; [exact H2|].
    assert (H3 : read_identity_at 1 sample_open 2 1000 (vault (sample_update 2 sample_patch sample_world).2) = Ok i')
      by (rewrite Hr; exact H1).
    clear -H3. vm_compute in H3. injection H3 as <-. vm_compute. reflexivity.
Defined.
End IdentitySample.
