(* ===== verification/Hydrate.v ===== *)
(** * What an unlock makes of the rows

    [decode_head_row], [hydrate_account_into_state] and [build_active_state_data] of
    crates/pangolin-store/src/vault.rs: the cache of snapshots, the full-text index and
    the set of accounts that need a newer build, from the rows of the accounts that are
    not deleted.  The edits of [IdentityOps] and [AccountOps] keep the same data current
    while the session lasts; [coherent] says that it is what the next unlock would
    build. *)

From Stdlib Require Import String.
From S2P Require Import Prelude StoreError Bytes Text Cbor Totp Account Search RevisionGraph SessionPolicy Database AccountOps Payload IdentityOps.
Open Scope Z_scope.

(** ** Decoding the heads *)

Inductive HeadDecodeOutcome : Type :=
| HeadLive (identity : AccountIdentity)
| HeadTombstone
| FutureVersion
| PlaceholderNonce.

Record ActiveStateData (Index : Type) : Type := mkActiveStateData {
  data_cache : gmap Z AccountSnapshot;
  data_index : Index;
  data_requires_upgrade : gset Z
}.
Arguments mkActiveStateData {Index} data_cache data_index data_requires_upgrade.
Arguments data_cache {Index} a.
Arguments data_index {Index} a.
Arguments data_requires_upgrade {Index} a.

Section hydrate.
Context {Key Index : Type} `{!SearchIndexOps Index SearchProjection}.
Context (vault_id : Z) (to_lowercase : list Z -> list Z) (url_host : list Z -> option (option (list Z))).
Context (open_identity : Key -> Z -> list Z -> Aad -> store_result (DecodedPayload AccountIdentity)).
Context (d : Database) (key : Key) (old_keys : VdkChain Key).
Notation from_identity := (Search.from_identity to_lowercase url_host).

(** [None]: an epoch this device holds no key of. *)
Definition epoch_key (epoch : Z) : option Key :=
  if epoch =? current_epoch old_keys then Some key else retained old_keys !! epoch.

Definition decode_head_row (id : AccountId) (rid : RevisionId) : store_result HeadDecodeOutcome :=
  r ← ok_or (t_revisions d !! rid) (Corrupted MissingRow);
  if bool_decide (row_account r = id) then
    epoch ← ok_or (u64_try_from (vdk_epoch r)) (Corrupted IntegerOverflow);
    match epoch_key epoch with
    | None => Ok PlaceholderNonce
    | Some entry_key =>
        schema ← ok_or (u8_try_from (row_schema r)) (Corrupted IntegerOverflow);
        if enc_nonce r =? 0 then Ok PlaceholderNonce
        else
          match open_identity entry_key (enc_nonce r) (enc_payload r) (mkAad vault_id id (row_parent r) schema) with
          | Err (UnsupportedRevisionSchemaVersion _ _ _ _) => Ok FutureVersion
          | Err e => Err e
          | Ok payload =>
              if REVISION_SCHEMA_VERSION_MAX <? schema then Ok FutureVersion
              else match payload with LivePayload i => Ok (HeadLive i) | TombstonePayload _ _ => Ok HeadTombstone end
          end
    end
  else Err (Corrupted MissingRow).

(** The canonical head, and the leaves that are authenticated. *)
Definition leaves_of (id : AccountId) (cached_head : RevisionId) : store_result (RevisionId * list RevisionId) :=
  if 1 <? Z.of_nat (length (head_query d id)) then
    match revision_graph d id with
    | Some (Ok g) => Ok (default cached_head (canonical_head g), heads g)
    | Some (Err e) => Err e
    | None => Err Internal
    end
  else Ok (cached_head, [cached_head]).

(** The loop over the leaves: what the canonical one is, and whether one is of a
    future version. *)
Fixpoint decode_leaves (id : AccountId) (canonical : RevisionId) (leaves : list RevisionId)
    (outcome : option HeadDecodeOutcome) (upgrade : bool) : store_result (option HeadDecodeOutcome * bool) :=
  match leaves with
  | [] => Ok (outcome, upgrade)
  | leaf :: leaves =>
      o ← decode_head_row id leaf;
      match o with
      | FutureVersion => decode_leaves id canonical leaves outcome true
      | _ => decode_leaves id canonical leaves (if leaf =? canonical then Some o else outcome) upgrade
      end
  end.

Definition canonical_outcome (id : AccountId) (cached_head : RevisionId) :
    store_result (option HeadDecodeOutcome * bool) :=
  '(canonical, leaves) ← leaves_of id cached_head;
  '(outcome, upgrade) ← decode_leaves id canonical leaves None false;
  match outcome with
  | Some PlaceholderNonce =>
      if cached_head =? canonical then Ok (None, upgrade)
      else o ← decode_head_row id cached_head; Ok (Some o, upgrade)
  | _ => Ok (outcome, upgrade)
  end.

(** [unreachable!()] aborts. *)
Definition hydrate_account_into_state (id : AccountId) (cached_head : RevisionId) (modified_at : Z)
    (st : ActiveStateData Index) : result (failure StoreError) (ActiveStateData Index) :=
  '(outcome, upgrade) ← map_err Prelude.Failed (canonical_outcome id cached_head);
  let ups := (if upgrade : bool then {[ id ]} else ∅) ∪ data_requires_upgrade st in
  match outcome with
  | Some (HeadLive identity) =>
      match index_insert id modified_at (from_identity identity) (data_index st) with
      | (Ok _, index) => Ok (mkActiveStateData (<[id := downgrade_identity_to_snapshot identity]> (data_cache st)) index ups)
      | (Err e, _) => Err (Prelude.Failed e)
      end
  | Some HeadTombstone | Some PlaceholderNonce | None =>
      match index_remove id (data_index st) with
      | (Ok _, index) => Ok (mkActiveStateData (delete id (data_cache st)) index ups)
      | (Err e, _) => Err (Prelude.Failed e)
      end
  | Some FutureVersion => Err Abort
  end.

Fixpoint hydrate_accounts (rows : list (AccountId * AccountRow)) (st : ActiveStateData Index) :
    result (failure StoreError) (ActiveStateData Index) :=
  match rows with
  | [] => Ok st
  | (id, a) :: rows =>
      st ← hydrate_account_into_state id (head_revision_id a) (last_modified_at a) st; hydrate_accounts rows st
  end.

(** [SELECT ... FROM account_identities WHERE tombstoned = 0], in some order. *)
Definition live_accounts : list (AccountId * AccountRow) :=
  filter (fun e => tombstoned e.2 = false) (map_to_list (account_identities d)).

Definition build_active_state_data (index_empty : Index) : result (failure StoreError) (ActiveStateData Index) :=
  hydrate_accounts live_accounts (mkActiveStateData ∅ index_empty ∅).
End hydrate.

(** ** Another account's rows do not matter *)

(** Two databases with the same rows of account [id]. *)
Definition same_rows (id : AccountId) (d d' : Database) : Prop :=
  forall rid r, row_account r = id -> t_revisions d !! rid = Some r <-> t_revisions d' !! rid = Some r.

Lemma head_query_local id d d' : same_rows id d d' -> head_query d' id = head_query d id.
Proof.
  intros Hs. apply head_query_ext.
  - intros rid r Hr (r' & Hr' & Ha & _)%elem_of_head_query. rewrite Hr in Hr'. injection Hr' as <-.
    exists r. split; [by apply Hs|done].
  - intros rid. rewrite !elem_of_head_query. split; intros (r & Hr & Ha & H1 & H2 & Hc); exists r;
      (split_and!; [by apply (Hs rid r Ha)|done|done|done|]); intros k r' Hk Hp Ha'; apply (Hc k r'); try done;
      by apply (Hs k r' Ha').
Qed.

Lemma row_le_antisymm e e' : row_le e e' -> row_le e' e -> e.1 = e'.1.
Proof. unfold row_le. intros H1 H2. pose proof (pair_le_antisymm _ _ H1 H2) as E. by injection E. Qed.

#[local] Instance row_le_trans : Transitive row_le.
Proof. intros a b c. unfold row_le. apply pair_le_trans. Qed.
#[local] Instance row_le_total : Total row_le.
Proof. intros a b. unfold row_le. apply pair_le_total. Qed.

Lemma honored_rows_local id d d' : same_rows id d d' -> honored_rows d' id = honored_rows d id.
Proof.
  intros Hs. apply (StronglySorted_unique_strong row_le).
  - intros [k r] [k' r'] [Hk _]%elem_of_honored_rows [Hk' [Ha _]]%elem_of_honored_rows H1 H2.
    pose proof (row_le_antisymm _ _ H1 H2) as E. cbn in E. subst k'.
    apply (Hs k r' Ha) in Hk'. congruence.
  - unfold honored_rows. apply merge_sort_sorted; apply _.
  - unfold honored_rows. apply merge_sort_sorted; apply _.
  - apply NoDup_Permutation.
    + unfold honored_rows. rewrite merge_sort_Permutation. apply NoDup_filter, NoDup_map_to_list.
    + unfold honored_rows. rewrite merge_sort_Permutation. apply NoDup_filter, NoDup_map_to_list.
    + intros [k r]. rewrite !elem_of_honored_rows. split; intros (Hk & Ha & Hv); (split_and!; [|done|done]);
        by apply (Hs k r Ha).
Qed.

Lemma revision_graph_local id d d' : same_rows id d d' -> revision_graph d' id = revision_graph d id.
Proof.
  intros Hs. unfold revision_graph, read_revision_rows_for. by rewrite (honored_rows_local id d d' Hs).
Qed.

Section local.
Context {Key : Type} (vault_id : Z).
Context (open_identity : Key -> Z -> list Z -> Aad -> store_result (DecodedPayload AccountIdentity)).
Notation decode_head_row := (decode_head_row vault_id open_identity).
Notation decode_leaves := (decode_leaves vault_id open_identity).
Notation canonical_outcome := (canonical_outcome vault_id open_identity).

Lemma decode_head_row_local id d d' key old rid :
  same_rows id d d' -> decode_head_row d' key old id rid = decode_head_row d key old id rid.
Proof.
  intros Hs. unfold Hydrate.decode_head_row.
  destruct (t_revisions d' !! rid) as [r'|] eqn:E', (t_revisions d !! rid) as [r|] eqn:E; cbn.
  - case_bool_decide as Ha.
    + apply (Hs rid r' Ha) in E'. assert (r' = r) as -> by congruence. by rewrite bool_decide_eq_true_2.
    + case_bool_decide as Hb; [|done]. apply (Hs rid r Hb) in E. congruence.
  - case_bool_decide as Ha; [|done]. apply (Hs rid r' Ha) in E'. congruence.
  - case_bool_decide as Hb; [|done]. apply (Hs rid r Hb) in E. congruence.
  - done.
Qed.

Lemma decode_leaves_local id d d' key old canonical leaves o up :
  same_rows id d d' -> decode_leaves d' key old id canonical leaves o up = decode_leaves d key old id canonical leaves o up.
Proof.
  intros Hs. revert o up. induction leaves as [|leaf leaves IH]; intros o up; [done|]. cbn.
  rewrite (decode_head_row_local id d d' key old leaf Hs). destruct (decode_head_row d key old id leaf) as [x|e]; [|done].
  cbn. by destruct x; rewrite IH.
Qed.

Lemma canonical_outcome_local id d d' key old h :
  same_rows id d d' -> canonical_outcome d' key old id h = canonical_outcome d key old id h.
Proof.
  intros Hs. unfold Hydrate.canonical_outcome, leaves_of.
  rewrite (head_query_local id d d' Hs), (revision_graph_local id d d' Hs).
  destruct (if 1 <? _ then _ else _) as [[canonical leaves]|e]; [|done]. cbn.
  rewrite (decode_leaves_local id d d' key old canonical leaves None false Hs).
  destruct (decode_leaves d key old id canonical leaves None false) as [[o up]|e]; [|done]. cbn.
  destruct o as [[]|]; try done. destruct (h =? canonical); [done|]. by rewrite (decode_head_row_local id d d' key old h Hs).
Qed.

(** A linear account is what its head decodes to. *)
Lemma canonical_outcome_linear id d key old h :
  head_query d id = [h] ->
  canonical_outcome d key old id h =
  (o ← decode_head_row d key old id h;
   Ok match o with
      | FutureVersion => (None, true)
      | PlaceholderNonce => (None, false)
      | o => (Some o, false)
      end).
Proof.
  intros Hh. unfold Hydrate.canonical_outcome, leaves_of. rewrite Hh. change (1 <? Z.of_nat (length [h])) with false. cbn.
  destruct (decode_head_row d key old id h) as [[]|e]; cbn; rewrite ?Z.eqb_refl; cbn; by rewrite ?Z.eqb_refl.
Qed.
End local.

(** ** The data of a session against the rows *)

Definition live_of (o : option HeadDecodeOutcome) : option AccountIdentity :=
  match o with Some (HeadLive i) => Some i | _ => None end.

Section coherence.
Context {Key : Type} (vault_id : Z).
Context (to_lowercase : list Z -> list Z) (url_host : list Z -> option (option (list Z))).
Context (open_identity : Key -> Z -> list Z -> Aad -> store_result (DecodedPayload AccountIdentity)).

Notation St := (ActiveStateData SearchIndex).
Notation projection := (Search.from_identity to_lowercase url_host).
Notation canonical_outcome := (canonical_outcome vault_id open_identity).
Notation hydrate_account_into_state := (hydrate_account_into_state vault_id to_lowercase url_host open_identity).
Notation hydrate_accounts := (hydrate_accounts vault_id to_lowercase url_host open_identity).
Notation build_active_state_data := (build_active_state_data vault_id to_lowercase url_host open_identity).

(** What a session holds of an account, and what shows identity [i], last changed
    at [t]. *)
Definition view (st : St) (id : AccountId) : option AccountSnapshot * option (Z * SearchProjection) :=
  (data_cache st !! id, entry (data_index st) id).

Definition shown (t : Z) (i : option AccountIdentity) : option AccountSnapshot * option (Z * SearchProjection) :=
  (downgrade_identity_to_snapshot <$> i, (fun i => (t, projection i)) <$> i).

(** The account is shown as its canonical head decodes. *)
Definition shows (d : Database) (key : Key) (old : VdkChain Key) (st : St) (id : AccountId) (acc : AccountRow) : Prop :=
  exists o up, canonical_outcome d key old id (head_revision_id acc) = Ok (o, up) /\ o <> Some FutureVersion
    /\ view st id = shown (last_modified_at acc) (live_of o)
    /\ (id ∈ data_requires_upgrade st <-> up = true).

Definition account_coherent (d : Database) (key : Key) (old : VdkChain Key) (st : St) (id : AccountId) : Prop :=
  match account_identities d !! id with
  | Some acc => if tombstoned acc then view st id = (None, None) else shows d key old st id acc
  | None => view st id = (None, None) /\ id ∉ data_requires_upgrade st
  end.

Record coherent (d : Database) (key : Key) (old : VdkChain Key) (st : St) : Prop := mkCoherent {
  coherent_index : index_ok (data_index st);
  coherent_account : forall id, account_coherent d key old st id
}.

(** *** The loop over the accounts *)

Section unlock.
Context (d : Database) (key : Key) (old : VdkChain Key).

(** Why an account stops the unlock. *)
Definition stops (e : failure StoreError) (id : AccountId) (acc : AccountRow) : Prop :=
  match e with
  | Prelude.Failed e => canonical_outcome d key old id (head_revision_id acc) = Err e
  | Abort => exists up, canonical_outcome d key old id (head_revision_id acc) = Ok (Some FutureVersion, up)
  end.

Lemma hydrate_account_spec id acc (st : St) :
  index_ok (data_index st) -> view st id = (None, None) -> id ∉ data_requires_upgrade st ->
  match hydrate_account_into_state d key old id (head_revision_id acc) (last_modified_at acc) st with
  | Ok st' => index_ok (data_index st') /\ shows d key old st' id acc
      /\ forall k, k <> id -> view st' k = view st k /\ (k ∈ data_requires_upgrade st' <-> k ∈ data_requires_upgrade st)
  | Err e => stops e id acc
  end.
Proof.
  intros Hok [= Hc He] Hup. unfold Hydrate.hydrate_account_into_state, shows, stops.
  destruct (canonical_outcome d key old id (head_revision_id acc)) as [[o up]|e] eqn:Eo; [|done]. cbn.
  assert (Hups : forall k, (k ∈ (if up then {[id]} else ∅ : gset Z) ∪ data_requires_upgrade st)
                   <-> (k = id /\ up = true) \/ k ∈ data_requires_upgrade st) by (intros k; destruct up; set_solver).
  destruct o as [[i| | |]|].
  3: by exists up.
  2-4: destruct (remove_sets _ id Hok) as (ix' & -> & Hok' & Hset); split; [done|]; split;
    [eexists _, _; split_and!; [done|done| |rewrite Hups; naive_solver];
       unfold view, shown; cbn; by rewrite lookup_delete_eq, Hset, decide_True
    |intros k Hk; rewrite Hups; split; [|naive_solver]; unfold view; cbn; by rewrite lookup_delete_ne, Hset, decide_False].
  - destruct (insert_fresh _ id (last_modified_at acc) (projection i) Hok He) as (ix' & -> & Hok' & Hset).
    split; [done|]. split.
    + exists (Some (HeadLive i)), up. split_and!; [done|done| |rewrite Hups; naive_solver].
      unfold view, shown. cbn. by rewrite lookup_insert_eq, Hset, decide_True.
    + intros k Hk. rewrite Hups. split; [|naive_solver]. unfold view. cbn.
      by rewrite lookup_insert_ne, Hset, decide_False.
Qed.

Lemma shows_ext (st st' : St) id acc :
  view st' id = view st id -> (id ∈ data_requires_upgrade st' <-> id ∈ data_requires_upgrade st) ->
  shows d key old st id acc -> shows d key old st' id acc.
Proof.
  intros Hv Hu (o & up & Ho & Hne & Hs & Hup). exists o, up. by rewrite Hv, Hu.
Qed.

Lemma hydrate_accounts_spec rows (st : St) :
  index_ok (data_index st) -> NoDup rows.*1 ->
  (forall id, id ∈ rows.*1 -> view st id = (None, None) /\ id ∉ data_requires_upgrade st) ->
  match hydrate_accounts d key old rows st with
  | Ok st' => index_ok (data_index st') /\ (forall id acc, (id, acc) ∈ rows -> shows d key old st' id acc)
      /\ forall k, k ∉ rows.*1 -> view st' k = view st k /\ (k ∈ data_requires_upgrade st' <-> k ∈ data_requires_upgrade st)
  | Err e => exists id acc, (id, acc) ∈ rows /\ stops e id acc
  end.
Proof.
  revert st. induction rows as [|[id acc] rows IH]; intros st Hok Hnd Hempty; cbn.
  { split_and!; [done| |done]. intros id acc H. by apply not_elem_of_nil in H. }
  apply NoDup_cons in Hnd as [Hid Hnd]. destruct (Hempty id) as [Hv Hu]; [by apply elem_of_cons; left|].
  pose proof (hydrate_account_spec id acc st Hok Hv Hu) as H1.
  destruct (hydrate_account_into_state d key old id (head_revision_id acc) (last_modified_at acc) st) as [st1|e].
  2: { exists id, acc. split; [by apply elem_of_cons; left|done]. }
  destruct H1 as (Hok1 & Hs1 & Ho1). cbn.
  assert (Hempty1 : forall k, k ∈ rows.*1 -> view st1 k = (None, None) /\ k ∉ data_requires_upgrade st1).
  { intros k Hk. assert (Hne : k <> id) by (intros ->; done). destruct (Ho1 k Hne) as [-> ->].
    apply Hempty. by apply elem_of_cons; right. }
  specialize (IH st1 Hok1 Hnd Hempty1).
  destruct (hydrate_accounts d key old rows st1) as [st'|e].
  - destruct IH as (Hok' & Hs & Ho). split_and!; [done| |].
    + intros k acck [[= -> ->]|Hk]%elem_of_cons; [|by apply Hs].
      destruct (Ho id Hid) as [Hv' Hu']. by eapply shows_ext.
    + intros k [Hne Hk]%not_elem_of_cons. destruct (Ho k Hk) as [-> ->]. by apply Ho1.
  - destruct IH as (k & acck & Hk & He). exists k, acck. split; [by apply elem_of_cons; right|done].
Qed.

Lemma elem_of_live_accounts id acc :
  (id, acc) ∈ live_accounts d <-> account_identities d !! id = Some acc /\ tombstoned acc = false.
Proof.
  unfold live_accounts. rewrite list_elem_of_filter, elem_of_map_to_list. cbn. tauto.
Qed.

Lemma build_spec :
  match build_active_state_data d key old new_empty with
  | Ok st => coherent d key old st
      /\ forall id acc, account_identities d !! id = Some acc -> tombstoned acc = false -> shows d key old st id acc
  | Err e => exists id acc, account_identities d !! id = Some acc /\ tombstoned acc = false /\ stops e id acc
  end.
Proof.
  unfold Hydrate.build_active_state_data. destruct new_empty_ok as [Hok He].
  pose proof (hydrate_accounts_spec (live_accounts d) (mkActiveStateData ∅ new_empty ∅) Hok) as H.
  assert (Hv : forall id, view (mkActiveStateData ∅ new_empty ∅) id = (None, None)).
  { intros id. unfold view. cbn. by rewrite lookup_empty, He. }
  assert (Hnd : NoDup (live_accounts d).*1) by apply NoDup_fmap_filter, NoDup_fst_map_to_list.
  specialize (H Hnd). ospecialize (H _); [intros id _; split; [apply Hv|cbn; set_solver]|].
  destruct (hydrate_accounts d key old (live_accounts d) _) as [st|e].
  2: { destruct H as (id & acc & [Ha Ht]%elem_of_live_accounts & Hst). by exists id, acc. }
  destruct H as (Hok' & Hs & Ho).
  assert (Hdead : forall id, (forall acc, account_identities d !! id = Some acc -> tombstoned acc = true) ->
            view st id = (None, None) /\ id ∉ data_requires_upgrade st).
  { intros id Hd. destruct (Ho id) as [-> ->]; [|split; [apply Hv|cbn; set_solver]].
    intros ([k acc] & -> & [H1 H2]%elem_of_live_accounts)%list_elem_of_fmap. cbn in *.
    specialize (Hd acc H1). congruence. }
  split; [split; [done|]|].
  - intros id. unfold account_coherent. destruct (account_identities d !! id) as [acc|] eqn:Ea.
    + destruct (tombstoned acc) eqn:Et; [|by apply Hs, elem_of_live_accounts].
      apply Hdead. congruence.
    + apply Hdead. intros acc. by rewrite Ea.
  - intros id acc Ha Ht. by apply Hs, elem_of_live_accounts.
Qed.

(** C18. An unlock shows every account as the rows say, or says why not.  If it succeeds,
    the cache and the index hold, for every account that is not deleted, the snapshot
    and the projection of its canonical head (of the cached head when the canonical one
    is a foreign revision this device cannot read), nothing when that head is a deletion
    or unreadable, and nothing for any other account; and an account needs a newer build
    exactly when one of its leaves is of a future version.  It fails exactly when some
    account's heads do not decode, with the error of such an account, and it aborts only
    when the fallback head of one is of a future version. *)
Theorem unlock_shows_rows :
  match build_active_state_data d key old new_empty with
  | Ok st => coherent d key old st
  | Err e => exists id acc, account_identities d !! id = Some acc /\ tombstoned acc = false /\ stops e id acc
  end
  /\ (is_ok (build_active_state_data d key old new_empty) = true <->
      forall id acc, account_identities d !! id = Some acc -> tombstoned acc = false ->
      exists o up, canonical_outcome d key old id (head_revision_id acc) = Ok (o, up) /\ o <> Some FutureVersion).
Proof.
  pose proof build_spec as H. destruct (build_active_state_data d key old new_empty) as [st|e].
  - destruct H as [Hc Hs]. split; [done|]. split; [|done]. intros _ id acc Ha Ht.
    destruct (Hs id acc Ha Ht) as (o & up & H1 & H2 & _). by exists o, up.
  - split; [done|]. split; [done|]. intros Hall. destruct H as (id & acc & Ha & Ht & Hst).
    destruct (Hall id acc Ha Ht) as (o & up & Ho & Hne). destruct e as [|e]; cbn in Hst.
    + destruct Hst as [up' Hst]. congruence.
    + congruence.
Qed.
End unlock.
End coherence.

(** *** An edit, seen from the rows *)

Definition data_of {Key} (a : ActiveState AccountSnapshot Key SearchIndex) : ActiveStateData SearchIndex :=
  mkActiveStateData (cache a) (search_index a) (requires_upgrade a).

Lemma same_rows_insert k id rid row d d' :
  t_revisions d' = <[rid := row]> (t_revisions d) -> t_revisions d !! rid = None -> row_account row = id -> k <> id ->
  same_rows k d d'.
Proof.
  intros Hd' Hf Hr Hk r x Hx. rewrite Hd'. destruct (decide (r = rid)) as [->|Hne].
  - rewrite lookup_insert_eq, Hf. split; [done|]. intros [= <-]. congruence.
  - by rewrite lookup_insert_ne.
Qed.

(** A new revision on top of every head is the only head. *)
Lemma new_leaf d d' id rid row :
  t_revisions d' = <[rid := row]> (t_revisions d) -> t_revisions d !! rid = None ->
  row_account row = id -> row_superseded_by row = None -> revoked row = false -> row_parent row <> rid ->
  (forall k r, t_revisions d !! k = Some r -> row_account r = id -> row_parent r <> rid) ->
  (forall x, x ∈ head_query d id -> x = row_parent row) ->
  head_query d' id = [rid].
Proof.
  intros Hd' Hf Ha Hs Hr Hp Hc Hh. apply head_query_singleton. intros x. rewrite elem_of_head_query, Hd'. split.
  - intros (r & Hx & Hra & Hrs & Hrr & Hch). destruct (decide (x = rid)) as [->|Hne]; [done|].
    rewrite lookup_insert_ne in Hx by done.
    assert (Hin : x ∈ head_query d id).
    { apply elem_of_head_query. exists r. split_and!; [done..|]. intros k r' Hk. apply (Hch k).
      rewrite lookup_insert_ne; [done|]. congruence. }
    apply Hh in Hin. exfalso. rewrite (Hch rid row) in Hr; [done|by rewrite lookup_insert_eq|done|done].
  - intros ->. exists row. rewrite lookup_insert_eq. split_and!; [done..|]. intros k r' Hk Hpk Hak.
    destruct (decide (k = rid)) as [->|Hne].
    + rewrite lookup_insert_eq in Hk. congruence.
    + rewrite lookup_insert_ne in Hk by done. by destruct (Hc k r' Hk Hak).
Qed.

Section edited.
Context {Key P : Type} `{!PresenceProof P} `{!Cbor.Cbor} `{!CborLaws _}.
Context (memory : Z) (memory_lo : 32 <= memory) (memory_hi : memory <= I64_MAX).
Context (clock wall rng : nat -> Z) (vault_id wrap_schema : Z).
Context (nfc to_lowercase : list Z -> list Z) (url_parse : list Z -> option (list Z))
        (url_host : list Z -> option (option (list Z))).
Context (aead_seal aead_open : Key -> Z -> list Z -> list Z -> option (list Z))
        (open_identity : Key -> Z -> list Z -> Aad -> store_result (DecodedPayload AccountIdentity)).

Notation W := (World Database AccountSnapshot Key SearchIndex P).
Notation account_add :=
  (account_add (Index := SearchIndex) clock wall rng vault_id wrap_schema nfc to_lowercase url_parse url_host aead_seal).
Notation account_update :=
  (account_update (Index := SearchIndex) clock wall rng vault_id wrap_schema nfc to_lowercase url_parse url_host aead_seal open_identity).
Notation read_identity_at := (read_identity_at vault_id open_identity).
Notation projection := (Search.from_identity to_lowercase url_host).
Notation stored := (stored_identity nfc to_lowercase url_parse).
Notation coherent := (coherent vault_id to_lowercase url_host open_identity).
Notation account_coherent := (account_coherent vault_id to_lowercase url_host open_identity).

Hypothesis aead_opens : forall k n m a c, aead_seal k n m a = Some c -> aead_open k n c a = Some m.
Hypothesis opens_payload : forall k n ct a p,
  open_identity_payload memory aead_open k n ct a = Ok p -> open_identity k n ct a = Ok p.
Hypothesis schema_ok : 0 <= wrap_schema <= REVISION_SCHEMA_VERSION_MAX.
(** The draws avoid the reserved values: the placeholder nonce and the parent of a
    first revision are zero. *)
Hypothesis rng_nonzero : forall k, rng k <> 0.

Lemma decode_sealed_row d (a : ActiveState AccountSnapshot Key SearchIndex) id parent rid i row :
  t_revisions d !! rid = Some row -> 0 <= current_epoch (chain a) <= I64_MAX ->
  sealed_row rng vault_id wrap_schema aead_seal a id parent i row -> stored i -> sizes_ok memory i ->
  decode_head_row vault_id open_identity d (vdk a) (chain a) id rid = Ok (HeadLive i).
Proof using aead_opens opens_payload memory_lo memory_hi CborLaws0 schema_ok rng_nonzero.
  intros Hr He [Hacc Hpar Hsch Hep _ [k Hn] Hs] Hi Hz. unfold decode_head_row. rewrite Hr. cbn.
  rewrite bool_decide_eq_true_2 by done. rewrite Hep, Hsch. destruct (schema_u8 wrap_schema schema_ok) as [-> Hle].
  unfold i64_try_from. rewrite (proj2 (try_from_Some I64_MIN I64_MAX _ _)) by (split; [done|unfold I64_MIN; lia]). cbn.
  unfold u64_try_from. rewrite (proj2 (try_from_Some 0 U64_MAX _ _)) by (split; [done|unfold U64_MAX, I64_MAX in *; lia]).
  cbn. unfold epoch_key. rewrite Z.eqb_refl. cbn.
  replace (enc_nonce row =? 0) with false by (symmetry; apply Z.eqb_neq; rewrite Hn; apply rng_nonzero).
  rewrite Hpar. rewrite (seal_opens memory memory_lo memory_hi nfc to_lowercase url_parse aead_seal aead_open open_identity
    aead_opens opens_payload _ _ _ _ _ Hi Hz Hs). by rewrite Hle.
Qed.

(** Coherence is a property of each account. *)
Lemma coherent_edit d d' key old (st st' : ActiveStateData SearchIndex) id rid row acc' e :
  coherent d key old st ->
  t_revisions d' = <[rid := row]> (t_revisions d) -> t_revisions d !! rid = None -> row_account row = id ->
  account_identities d' = <[id := acc']> (account_identities d) ->
  sets (data_index st) (data_index st') id e ->
  (forall k, k <> id -> data_cache st' !! k = data_cache st !! k) ->
  data_requires_upgrade st' = data_requires_upgrade st ->
  account_coherent d' key old st' id ->
  coherent d' key old st'.
Proof.
  intros [_ Hst] Hd' Hf Hr Ha' [Hok Hset] Hc Hu Hid. split; [done|]. intros k.
  destruct (decide (k = id)) as [->|Hk]; [done|].
  specialize (Hst k). unfold Hydrate.account_coherent in *. rewrite Ha', lookup_insert_ne by done.
  assert (Hv : view st' k = view st k).
  { unfold view. rewrite Hc by done. by rewrite Hset, decide_False. }
  assert (Hl : same_rows k d d') by by eapply same_rows_insert.
  destruct (account_identities d !! k) as [acc|]; [|by rewrite Hv, Hu].
  destruct (tombstoned acc); [by rewrite Hv|]. destruct Hst as (o & up & Ho & Hst).
  exists o, up. by rewrite (canonical_outcome_local vault_id open_identity k d d' key old _ Hl), Hv, Hu.
Qed.

(** The account whose only head was sealed in this session. *)
Lemma sealed_coherent d (a : ActiveState AccountSnapshot Key SearchIndex) (st : ActiveStateData SearchIndex) id rid i row acc :
  t_revisions d !! rid = Some row -> 0 <= current_epoch (chain a) <= I64_MAX ->
  sealed_row rng vault_id wrap_schema aead_seal a id (row_parent row) i row -> stored i -> sizes_ok memory i ->
  head_query d id = [rid] -> account_identities d !! id = Some acc -> tombstoned acc = false -> head_revision_id acc = rid ->
  view st id = shown to_lowercase url_host (last_modified_at acc) (Some i) -> id ∉ data_requires_upgrade st ->
  account_coherent d (vdk a) (chain a) st id.
Proof using aead_opens opens_payload memory_lo memory_hi CborLaws0 schema_ok rng_nonzero.
  intros Hr He Hs Hi Hz Hh Ha Ht Hhd Hv Hu. unfold Hydrate.account_coherent. rewrite Ha, Ht.
  exists (Some (HeadLive i)), false. rewrite Hhd, canonical_outcome_linear by done.
  rewrite (decode_sealed_row d a id (row_parent row) rid i row) by done. cbn. split_and!; try done.
Qed.

(** The session serves what the next unlock would build. *)
Definition session_coherent (w : W) : Prop :=
  exists a, active (vault w) = Some a /\ coherent (db (vault w)) (vdk a) (chain a) (data_of a).

(** A session in order: coherent, an epoch the database can store, draws that no row
    names as its parent, and the foreign keys of the rows. *)
Record in_order (w : W) (a : ActiveState AccountSnapshot Key SearchIndex) : Prop := mkInOrder {
  order_active : active (vault w) = Some a;
  order_coherent : coherent (db (vault w)) (vdk a) (chain a) (data_of a);
  order_epoch : 0 <= current_epoch (chain a) <= I64_MAX;
  order_draws : forall k rid row, t_revisions (db (vault w)) !! rid = Some row -> row_parent row <> rng k;
  order_accounts : forall rid row, t_revisions (db (vault w)) !! rid = Some row ->
    is_Some (account_identities (db (vault w)) !! row_account row)
}.

(** One more sealed revision, alone at the head of its account. *)
Lemma sealed_edit_coherent (w w' : W) a a' id rid row i now acc' m :
  in_order w a -> sealed_row rng vault_id wrap_schema aead_seal a id (row_parent row) i row -> stored i -> sizes_ok memory i ->
  (exists k, rid = rng k) -> t_revisions (db (vault w)) !! rid = None ->
  t_revisions (db (vault w')) = <[rid := row]> (t_revisions (db (vault w))) ->
  row_parent row <> rid -> (forall x, x ∈ head_query (db (vault w)) id -> x = row_parent row) ->
  account_identities (db (vault w')) = <[id := acc']> (account_identities (db (vault w))) ->
  tombstoned acc' = false -> head_revision_id acc' = rid -> last_modified_at acc' = now ->
  id ∉ requires_upgrade a -> active (vault w') = Some a' ->
  session_after a a' (<[id := downgrade_identity_to_snapshot i]> (cache a)) m ->
  (forall ix', m (search_index a) = (Ok tt, ix') -> sets (search_index a) ix' id (Some (now, projection i))) ->
  session_coherent w'.
Proof using aead_opens opens_payload memory_lo memory_hi CborLaws0 schema_ok rng_nonzero.
  intros [Ha Hcoh Hep Hdr _] Hseal Hi Hz [k ->] Hfresh Hrow Hpar Hheads Haccs Ht Hh Hnow Hup Ha' [Hk Hch Hu Hc Hix] Hm.
  exists a'. split; [done|]. rewrite Hk, Hch. apply Hm in Hix. pose proof Hix as [_ Hset].
  pose proof Hseal as [Hra _ _ _ (_ & Hsup & Hrev) _ _].
  eapply (coherent_edit _ _ _ _ (data_of a) (data_of a') id); try done.
  - intros j Hj. cbn. rewrite Hc. by rewrite lookup_insert_ne.
  - eapply (sealed_coherent _ a); [rewrite Hrow; apply lookup_insert_eq|done|done|done|done| | |done|done| |].
    + eapply new_leaf; try done. intros; by eapply Hdr.
    + rewrite Haccs. by rewrite lookup_insert_eq.
    + unfold view, shown. cbn. rewrite Hc, lookup_insert_eq, Hnow. by rewrite Hset, decide_True.
    + cbn. by rewrite Hu.
Qed.

(** C17. A session keeps serving what an unlock would build.  From a session whose cache,
    index and upgrade marks are those of the rows, adding an account, updating one that
    has a single head and deleting one end in such a session again: the edited account is
    shown with the new identity (or not at all), every other account as before.  So
    locking and unlocking changes nothing that is shown. *)
Theorem edits_keep_session_coherent (w w' : W) a :
  in_order w a -> is_id (vault_device_id (vault w)) ->
  (forall id patch rid i, account_update id patch w = (Ok rid, w') ->
     (forall acc, account_identities (db (vault w)) !! id = Some acc ->
        head_query (db (vault w)) id = [head_revision_id acc]
        /\ read_identity_at id (head_revision_id acc) (vault w) = Ok i) ->
     stored i -> (forall q, patch_totp_params patch = Some q -> 0 <= period_seconds q) ->
     (forall now i', apply nfc to_lowercase url_parse patch i now (vault_device_id (vault w)) = Ok i' -> sizes_ok memory i') ->
     session_coherent w')
  /\ (forall draft id, account_add draft w = (Ok id, w') -> 0 <= period_seconds (draft_totp_params draft) ->
     (forall now i, validate_into_identity nfc to_lowercase url_parse draft now (vault_device_id (vault w)) = Ok i ->
        sizes_ok memory i) ->
     session_coherent w')
  /\ (forall id u, delete_account clock wall rng vault_id wrap_schema (seal_payload aead_seal) id w = (Ok u, w') ->
     session_coherent w').
Proof using aead_opens opens_payload memory_lo memory_hi CborLaws0 schema_ok rng_nonzero.
  intros Hord Hdev. pose proof Hord as [Ha Hcoh Hep Hdr Hfk]. pose proof Hcoh as [Hok Hids]. split_and!.
  - intros id patch rid i (acc & a0 & a' & i0 & i' & now & row & U)%account_update_inv Hhd Hi Hp Hsz.
    destruct U as [[Hacc Hlive Hunf Hup _] Ha0 Hr0 Hnow Happly Hrid Hrow Hfresh Hseal Haccs Ha' Hses].
    assert (a0 = a) as -> by congruence. destruct (Hhd acc Hacc) as [Hlin Hread]. rewrite Hread in Hr0. injection Hr0 as <-.
    pose proof Hseal as [_ Hrp _ _ _ _ _].
    assert (Hin : head_revision_id acc ∈ head_query (db (vault w)) id) by (rewrite Hlin; by apply list_elem_of_singleton).
    eapply (sealed_edit_coherent w w' a a' id rid row i' now); [done|by rewrite Hrp|by eapply stored_edit|by eapply Hsz|done|done|done
      | | |exact Haccs|done|done|done| |done|exact Hses|].
    + rewrite Hrp. intros E. apply elem_of_head_query in Hin as (r & Hr & _). congruence.
    + rewrite Hlin, Hrp. by intros x ->%list_elem_of_singleton.
    + unfold account_requires_upgrade in Hup. rewrite Ha0 in Hup. cbn in Hup. by apply bool_decide_eq_false in Hup.
    + intros ix' Hix. destruct (update_sets _ id now (projection i') Hok) as (ix2 & E & Hs). pose proof (eq_trans (eq_sym Hix) E) as [= ->]. exact Hs.
  - intros draft id (rid & a0 & a' & i & now & row & U)%account_add_inv Hp Hsz.
    destruct U as [Ha0 Hnow Hval Hnew Hrid Hrow Hfresh Hseal Haccs Ha' Hses].
    assert (a0 = a) as -> by congruence. pose proof Hseal as [_ Hrp _ _ _ _ _].
    specialize (Hids id). unfold Hydrate.account_coherent in Hids. rewrite Hnew in Hids. destruct Hids as [[= _ He] Hu].
    eapply (sealed_edit_coherent w w' a a' id rid row i now); [done|by rewrite Hrp|by eapply stored_new|by eapply Hsz|done|done|done
      | | |exact Haccs|done|done|done|exact Hu|done|exact Hses|].
    + rewrite Hrp. destruct Hrid as [k ->]. intros E. by apply (rng_nonzero k).
    + intros x (r & Hr & Hax & _)%elem_of_head_query. destruct (Hfk x r Hr) as [y Hy]. congruence.
    + intros ix' Hix. destruct (insert_fresh _ id now (projection i) Hok He) as (ix2 & E & Hs). pose proof (eq_trans (eq_sym Hix) E) as [= ->]. exact Hs.
  - intros id u (rid & acc & a0 & a' & now & row & [Hed Ha0 Hrow Hfresh Hra Haccs Ha' [Hk Hch Hu Hc Hix]])%delete_account_inv.
    assert (a0 = a) as -> by congruence. exists a'. split; [done|]. rewrite Hk, Hch.
    destruct (remove_sets _ id Hok) as (ix2 & E & Hs). pose proof (eq_trans (eq_sym Hix) E) as [= Eix].
    eapply (coherent_edit _ _ _ _ (data_of a) (data_of a') id _ _ _ None); try done.
    + cbn. rewrite Eix. exact Hs.
    + intros j Hj. cbn. rewrite Hc. by rewrite lookup_delete_ne.
    + unfold Hydrate.account_coherent. rewrite Haccs, lookup_insert_eq. cbn. unfold view. cbn. rewrite Hc, lookup_delete_eq.
      destruct Hs as [_ Hs]. by rewrite Eix, Hs, decide_True.
Qed.
End edited.

Module HydrateSample.
Import PayloadSample IdentitySample.

Notation sample_build d := (build_active_state_data 1 to_ascii_lowercase SearchSample.host sample_open d 77 (mkVdkChain ∅ 1) new_empty).

(** The session of [sample_world] is what an unlock builds. *)
Lemma sample_built : sample_build sample_db = Ok (data_of sample_session).
Proof. vm_compute. reflexivity. Qed.

Lemma sample_in_order :
  in_order sample_rng 1 to_ascii_lowercase SearchSample.host sample_open sample_world sample_session.
Proof.
  split.
  - reflexivity.
  - pose proof (build_spec 1 to_ascii_lowercase SearchSample.host sample_open sample_db 77 (mkVdkChain ∅ 1)) as H.
    rewrite sample_built in H. apply H.
  - unfold I64_MAX. cbn. lia.
  - intros k rid row Hr. cbn in Hr. apply lookup_singleton_Some in Hr as [_ <-]. unfold sample_rng. cbn. unfold GENESIS_PARENT. lia.
  - intros rid row Hr. cbn in Hr. apply lookup_singleton_Some in Hr as [_ <-]. by eexists.
Qed.

Lemma edits_keep_session_coherent_witness :
  exists w', sample_update 2 sample_patch sample_world = (Ok 1000, w')
    /\ session_coherent 1 to_ascii_lowercase SearchSample.host sample_open w'.
Proof.
  destruct (sample_update 2 sample_patch sample_world) as [r w'] eqn:Hr.
  assert (Hok : r = Ok 1000) by (change r with (fst (r, w')); rewrite <- Hr; vm_compute; reflexivity).
  rewrite Hok in *. exists w'. split; [done|].
  destruct (edits_keep_session_coherent memory ltac:(vm_compute; discriminate) ltac:(vm_compute; discriminate)
    sample_clock sample_clock sample_rng 1 1 id to_ascii_lowercase Some SearchSample.host record_seal record_open sample_open
    record_opens sample_opens ltac:(vm_compute; split; discriminate) ltac:(intros k; unfold sample_rng; lia)
    sample_world w' sample_session sample_in_order ltac:(unfold is_id; cbn; lia)) as (H & _ & _).
  eapply H; [exact Hr| |exact sample_identity_stored| |exact sample_sizes].
  - intros acc Hacc. cbn in Hacc. injection Hacc as <-. split; vm_compute; reflexivity.
  - intros q [= <-]. vm_compute. discriminate.
Defined.

(** A fork of a foreign revision, which wins the election, and of a local head written
    by a newer build: the fallback reaches the branch the code calls unreachable. *)
Definition future_ct : list Z :=
  default [] (record_seal 77 6 (encode_identity_cbor sample_identity) (build_aad (mkAad 1 2 GENESIS_PARENT 9))).

Definition future_fork_db : Database :=
  mkDatabase {[ 2 := mkAccountRow 10 10 false 3 true ]}
    {[ 3 := mkRevisionRow 2 GENESIS_PARENT 9 9 10 future_ct 6 false 1 None None Finalized None None None false;
       5 := mkRevisionRow 2 GENESIS_PARENT 8 1 20 [1; 2] 0 false 0 None None Finalized None None None false ]}
    ∅ ∅ None None None 0.

Lemma unlock_panics_on_future_fallback : sample_build future_fork_db = Err Abort.
Proof. vm_compute. reflexivity. Qed.
End HydrateSample.
