(* ===== verification/ChainIngest.v ===== *)
(** * Chain events into the vault

    The chain side of crates/pangolin-store/src/vault.rs: [mark_published],
    [ingest_chain_revision], the pending/finalized status of 4.1 (ingest,
    rollback, promotion), the V2 honor gate with the retroactive revocation
    pass, and the sync checkpoints.

    [canonical_hash] (keccak-256 over the event, pangolin-chain) and the AEAD
    open are parameters. *)

From S2P Require Import Prelude StoreError RevisionGraph SessionPolicy Database AccountOps.

(** pangolin-chain's [RevisionEvent]. *)
Record RevisionEvent : Type := mkRevisionEvent {
  ev_vault_id : Z;
  ev_account_id : AccountId;
  ev_parent_revision : RevisionId;
  ev_device_id : Z;
  ev_schema_version : Z;
  ev_sequence : Z;
  ev_enc_payload : list Z;
  ev_anchor : ChainAnchor
}.

Inductive IngestOutcome : Type := Inserted | AlreadyPresent.

#[export] Instance IngestOutcome_eq_dec : EqDecision IngestOutcome.
Proof. solve_decision. Defined.

Definition CONFIRMATION_DEPTH_FOR_FINALIZATION : Z := 12.

(** The anchor as the [revisions] columns store it: both counters widened
    with [i64::try_from]. *)
Definition store_anchor (a : ChainAnchor) : store_result StoredAnchor :=
  b ← ok_or (i64_try_from (block_number a)) (Corrupted IntegerOverflow);
  l ← ok_or (i64_try_from (log_index a)) (Corrupted IntegerOverflow);
  Ok (mkStoredAnchor (tx_hash a) b l).

(** [WHERE chain_tx_hash = ? AND chain_block_number = ? AND chain_log_index = ?]. *)
Definition at_anchor (sa : StoredAnchor) (r : RevisionRow) : bool :=
  bool_decide (row_anchor r = Some sa).

(** ** Status of a revision *)

Definition mark_published_row (rid : RevisionId) (sa : StoredAnchor) (d : Database) :
    store_result Database :=
  match t_revisions d !! rid with
  | None => Err RevisionNotFound
  | Some _ => Ok (update_revisions (fun k _ => bool_decide (k = rid)) (set_row_anchor sa) d)
  end.

Definition in_window (low high : Z) (r : RevisionRow) : bool :=
  bool_decide (revision_status r = Pending)
  && match observed_at_block r with
     | Some b => (low <=? b) && (b <=? high)
     | None => false
     end.

(** The database and the number of rows removed. *)
Definition rollback_pending_revisions_in_range (block_low block_high : Z) (d : Database) :
    store_result (Database * Z) :=
  low ← ok_or (i64_try_from block_low) (Corrupted IntegerOverflow);
  high ← ok_or (i64_try_from block_high) (Corrupted IntegerOverflow);
  let kept := filter (fun e => in_window low high e.2 = false) (t_revisions d) in
  let removed := Z.of_nat (size (t_revisions d)) - Z.of_nat (size kept) in
  Ok (set_revisions kept d, default U32_MAX (u32_try_from removed)).

Definition is_final_at (threshold : Z) (r : RevisionRow) : bool :=
  bool_decide (revision_status r = Pending)
  && match observed_at_block r with Some b => b <=? threshold | None => false end.

Definition promote_finalized_revisions (current_block_head : Z) (d : Database) :
    store_result (Database * Z) :=
  let threshold := saturating_sub current_block_head CONFIRMATION_DEPTH_FOR_FINALIZATION in
  t ← ok_or (i64_try_from threshold) (Corrupted IntegerOverflow);
  let n := Z.of_nat (size (filter (fun e => is_final_at t e.2 = true) (t_revisions d))) in
  Ok (update_revisions (fun _ r => is_final_at t r) (set_row_status Finalized) d,
      default U32_MAX (u32_try_from n)).

(** ** Revocation *)

Definition is_signer_honored (signer : Z) (current_onchain_set : list Z) : bool :=
  bool_decide (signer ∈ current_onchain_set).

Definition want_revoked (set : list Z) (r : RevisionRow) : bool :=
  match recovered_signer r with
  | Some signer => negb (is_signer_honored signer set)
  | None => true
  end.

Definition anchored (r : RevisionRow) : bool := bool_decide (is_Some (row_anchor r)).

(** One turn of the loop over the chain-anchored rows: the row is marked when
    the mark changes, and a 0 to 1 transition is counted. *)
Definition reevaluate_row (set : list Z) (acc : Database * Z) (e : RevisionId * RevisionRow) :
    Database * Z :=
  let '(d, newly_revoked) := acc in
  let want := want_revoked set e.2 in
  if bool_decide (want = revoked e.2) then acc
  else (update_revisions (fun k _ => bool_decide (k = e.1)) (set_row_revoked want) d,
        if want && negb (revoked e.2) then saturating_add U32_MAX newly_revoked 1
        else newly_revoked).

Definition reevaluate_revocation_against_set (set : list Z) (d : Database) : Database * Z :=
  foldl (reevaluate_row set) (d, 0)
    (filter (fun e => is_Some (row_anchor e.2)) (map_to_list (t_revisions d))).

(** ** Sync checkpoints *)

Definition set_sync_state (v : option Z) (d : Database) : Database :=
  mkDatabase (account_identities d) (t_revisions d) (dirty_accounts d) (pending_merges d) v
    (chain_sync_v1_state d) (chain_sync_v2_state d) (random_draws d).
Definition set_v1_state (v : option Z) (d : Database) : Database :=
  mkDatabase (account_identities d) (t_revisions d) (dirty_accounts d) (pending_merges d)
    (sync_state d) v (chain_sync_v2_state d) (random_draws d).
Definition set_v2_state (v : option Z) (d : Database) : Database :=
  mkDatabase (account_identities d) (t_revisions d) (dirty_accounts d) (pending_merges d)
    (sync_state d) (chain_sync_v1_state d) v (random_draws d).

(** [u64::try_from] of a stored [i64] checkpoint. *)
Definition read_checkpoint (raw : option Z) : store_result (option Z) :=
  match raw with
  | None => Ok None
  | Some v => b ← ok_or (u64_try_from v) (Corrupted IntegerOverflow); Ok (Some b)
  end.

Definition last_pulled_block (d : Database) : store_result Z :=
  b ← read_checkpoint (sync_state d); Ok (default 0 b).
Definition last_synced_block_v1 (d : Database) : store_result (option Z) :=
  read_checkpoint (chain_sync_v1_state d).
Definition last_synced_block_v2 (d : Database) : store_result (option Z) :=
  read_checkpoint (chain_sync_v2_state d).

Definition advance_last_pulled_block (new_block : Z) (d : Database) : store_result Database :=
  current ← last_pulled_block d;
  if new_block <? current then Err (Corrupted BackwardCheckpoint)
  else if new_block =? current then Ok d
  else
    i ← ok_or (i64_try_from new_block) (Corrupted IntegerOverflow);
    Ok (set_sync_state (Some i) d).

(** The body [update_last_synced_block_v1] and [_v2] share. *)
Definition next_checkpoint (stored : option Z) (new_block : Z) : store_result (option Z) :=
  let current := default 0 stored in
  if new_block <? current then Err (Corrupted BackwardCheckpoint)
  else if (new_block =? current) && bool_decide (is_Some stored) then Ok None
  else
    i ← ok_or (i64_try_from new_block) (Corrupted IntegerOverflow);
    Ok (Some i).

Definition update_last_synced_block_v1 (new_block : Z) (d : Database) : store_result Database :=
  stored ← last_synced_block_v1 d;
  next ← next_checkpoint stored new_block;
  Ok (match next with Some i => set_v1_state (Some i) d | None => d end).

Definition update_last_synced_block_v2 (new_block : Z) (d : Database) : store_result Database :=
  stored ← last_synced_block_v2 d;
  next ← next_checkpoint stored new_block;
  Ok (match next with Some i => set_v2_state (Some i) d | None => d end).

(** ** The handlers *)

Section handlers.
Context {Snapshot Key Index P : Type}.
Context (clock wall : nat -> Z) (vault_id : Z).
Context (canonical_hash : Z -> Z -> Z -> Z -> Z -> list Z -> Z)
        (open_payload : Key -> Z -> list Z -> Aad -> store_result (DecodedPayload Snapshot)).

Notation W := (World Database Snapshot Key Index P).
Notation vop := (op W StoreError).

Definition mark_published (rid : RevisionId) (anchor : ChainAnchor) : vop unit :=
  maybe_expire_active_session clock ≫= fun _ =>
  sa ← lift (store_anchor anchor);
  d ← get_db;
  d' ← lift (mark_published_row rid sa d);
  put_db d' ≫= fun _ => touch_session clock.

(** The id of an event. *)
Definition event_id (e : RevisionEvent) : RevisionId :=
  canonical_hash (ev_vault_id e) (ev_account_id e) (ev_parent_revision e) (ev_device_id e)
    (ev_schema_version e) (ev_enc_payload e).

(** A 24-byte zero nonce. *)
Definition placeholder_nonce : Z := 0.

(** A decoded tombstone always has [deleted = true]: the decoder refuses
    anything else. *)
Definition detect_tombstone_bit_at_ingest (e : RevisionEvent)
    (v : Vault Database Snapshot Key Index) : bool :=
  match active v with
  | None => false
  | Some a =>
      match open_payload (vdk a) placeholder_nonce (ev_enc_payload e)
              (mkAad vault_id (ev_account_id e) (ev_parent_revision e) (ev_schema_version e)) with
      | Ok (TombstonePayload account_id _) => bool_decide (account_id = ev_account_id e)
      | _ => false
      end
  end.

(** Idempotency check 3's [SELECT ... LIMIT 1]. *)
Definition is_merge_target (e : RevisionEvent) (r : RevisionRow) : bool :=
  bool_decide (row_account r = ev_account_id e) && bool_decide (row_parent r = ev_parent_revision e)
  && bool_decide (enc_payload r = ev_enc_payload e)
  && bool_decide (row_schema r = ev_schema_version e)
  && bool_decide (row_device r = ev_device_id e) && bool_decide (row_anchor r = None).

Definition merge_target (e : RevisionEvent) (d : Database) : option RevisionId :=
  head ((filter (fun p => is_merge_target e p.2 = true) (map_to_list (t_revisions d))).*1).

(** Idempotency check 2. *)
Definition present_by_anchor (e : RevisionEvent) (sa : StoredAnchor) (d : Database) : bool :=
  existsb (fun r => bool_decide (row_account r = ev_account_id e) && at_anchor sa r)
    (map_to_list (t_revisions d)).*2.

(** The row of a foreign event; [revision_status] and [vdk_epoch] take the
    column defaults. *)
Definition foreign_row (e : RevisionEvent) (sa : StoredAnchor) (now : Z) (tomb : bool) :
    RevisionRow :=
  mkRevisionRow (ev_account_id e) (ev_parent_revision e) (ev_device_id e) (ev_schema_version e) now
    (ev_enc_payload e) placeholder_nonce tomb 0 (Some sa) None Finalized None None None false.

Definition tx_ingest (e : RevisionEvent) (sa : StoredAnchor) (now : Z) (tomb : bool)
    (d : Database) : store_result (Database * unit) :=
  let id := ev_account_id e in
  d1 ← match account_identities d !! id with
       | Some _ =>
           Ok (update_account_row id
                 (fun a => mkAccountRow (account_created_at a) now (tomb || tombstoned a)
                             (head_revision_id a) true) d)
       | None => insert_account id (mkAccountRow now now tomb (event_id e) true) d
       end;
  d2 ← insert_revision (event_id e) (foreign_row e sa now tomb) d1;
  Ok (d2, tt).

Definition ingest_chain_revision (e : RevisionEvent) : vop IngestOutcome :=
  maybe_expire_active_session clock ≫= fun _ =>
  d ← get_db;
  match t_revisions d !! event_id e with
  | Some _ => touch_session clock ≫= fun _ => mret AlreadyPresent
  | None =>
      sa ← lift (store_anchor (ev_anchor e));
      if present_by_anchor e sa d then touch_session clock ≫= fun _ => mret AlreadyPresent
      else
        match merge_target e d with
        | Some existing =>
            put_db (update_revisions (fun k _ => bool_decide (k = existing)) (set_row_anchor sa) d)
              ≫= fun _ =>
            touch_session clock ≫= fun _ => mret AlreadyPresent
        | None =>
            now ← current_unix_ms wall;
            v ← gets vault;
            transaction (tx_ingest e sa now (detect_tombstone_bit_at_ingest e v)) ≫= fun _ =>
            touch_session clock ≫= fun _ => mret Inserted
        end
  end.

Definition stamp_pending (sa : StoredAnchor) (block hash : Z) (d : Database) : Database :=
  update_revisions (fun _ r => at_anchor sa r)
    (fun r => set_row_observed block hash (set_row_status Pending r)) d.

Definition ingest_pending_chain_revision (e : RevisionEvent) (observed_block observed_hash : Z) :
    vop IngestOutcome :=
  outcome ← ingest_chain_revision e;
  block ← lift (ok_or (i64_try_from observed_block) (Corrupted IntegerOverflow));
  sa ← lift (store_anchor (ev_anchor e));
  d ← get_db;
  put_db (stamp_pending sa block observed_hash d) ≫= fun _ => mret outcome.

Definition stamp_recovered_signer (e : RevisionEvent) (signer : Z) : vop unit :=
  sa ← lift (store_anchor (ev_anchor e));
  d ← get_db;
  put_db (update_revisions
            (fun _ r => bool_decide (row_account r = ev_account_id e) && at_anchor sa r)
            (set_row_signer signer) d).

Definition ingest_v2_revision_if_honored (e : RevisionEvent) (signer : Z)
    (current_onchain_set : list Z) : vop (option IngestOutcome) :=
  if is_signer_honored signer current_onchain_set then
    outcome ← ingest_chain_revision e;
    stamp_recovered_signer e signer ≫= fun _ => mret (Some outcome)
  else mret None.
End handlers.

(** ** Revocation: the loop as a map over the rows *)

Definition mark (set : list Z) (r : RevisionRow) : RevisionRow :=
  if anchored r then set_row_revoked (want_revoked set r) r else r.

Definition newly (set : list Z) (r : RevisionRow) : bool :=
  anchored r && want_revoked set r && negb (revoked r).

Lemma set_row_revoked_same r : set_row_revoked (revoked r) r = r.
Proof. by destruct r. Qed.

Lemma update_revisions_rest p f d :
  set_revisions ∅ (update_revisions p f d) = set_revisions ∅ d.
Proof. done. Qed.

Lemma reevaluate_fold set l d n :
  NoDup l.*1 -> (forall k r, (k, r) ∈ l -> t_revisions d !! k = Some r /\ is_Some (row_anchor r)) ->
  0 <= n <= U32_MAX ->
  let res := foldl (reevaluate_row set) (d, n) l in
  (forall k, t_revisions res.1 !! k =
     (fun r => if decide (k ∈ l.*1) then mark set r else r) <$> t_revisions d !! k)
  /\ set_revisions ∅ res.1 = set_revisions ∅ d
  /\ res.2 = Z.min U32_MAX
       (n + Z.of_nat (length (filter (fun e => newly set e.2 = true) l))).
Proof.
  revert d n. induction l as [|[k0 r0] l IH]; intros d n Hnd Hin Hn.
  { cbn [foldl fst snd]. split_and!; [|done|cbn; lia]. intros k.
    destruct (t_revisions d !! k); [|done]. done. }
  apply NoDup_cons in Hnd as [Hni Hnd].
  destruct (Hin k0 r0) as [Hk0 Hanc]; [set_solver|].
  assert (Ha : anchored r0 = true) by by apply bool_decide_eq_true.
  set (acc := reevaluate_row set (d, n) (k0, r0)).
  assert (Hacc : (forall k, t_revisions acc.1 !! k =
                    (fun r => if decide (k = k0) then mark set r else r) <$> t_revisions d !! k)
                 /\ set_revisions ∅ acc.1 = set_revisions ∅ d
                 /\ acc.2 = Z.min U32_MAX (n + if newly set r0 then 1 else 0)).
  { unfold acc, reevaluate_row, newly, saturating_add. simpl. rewrite Ha.
    destruct (bool_decide (want_revoked set r0 = revoked r0)) eqn:Eq.
    - apply bool_decide_eq_true in Eq. simpl. split_and!; [|done|].
      + intros k. destruct (decide (k = k0)) as [->|Hne].
        2: { destruct (t_revisions d !! k); [|done]. done. }
        rewrite Hk0. cbn. unfold mark. by rewrite Ha, Eq, set_row_revoked_same.
      + rewrite Eq. destruct (revoked r0); simpl; lia.
    - split_and!; [|done|simpl; destruct (want_revoked set r0), (revoked r0); simpl; lia].
      intros k. cbn [fst snd]. rewrite update_revisions_lookup. destruct (t_revisions d !! k) as [r|] eqn:Ek; [|done].
      simpl. f_equal. destruct (decide (k = k0)) as [->|Hne];
        [rewrite bool_decide_eq_true_2 by done|by rewrite bool_decide_eq_false_2 by done].
       rewrite Hk0 in Ek. injection Ek as <-. unfold mark. by rewrite Ha. }
  destruct Hacc as (Hl & Hrest & Hcnt). cbn [foldl].
  change (reevaluate_row set (d, n) (k0, r0)) with acc. rewrite (surjective_pairing acc).
  destruct (IH acc.1 acc.2) as (IHl & IHr & IHc); [done| |destruct (newly set r0); lia|].
  { intros k r Hkr. destruct (Hin k r) as [Hk Hk']; [set_solver|]. rewrite Hl, Hk. simpl.
    rewrite decide_False; [done|]. intros ->. apply Hni. by apply (list_elem_of_fmap_2 fst _ (k0, r)). }
  split_and!.
  - intros k. rewrite IHl, Hl. destruct (t_revisions d !! k) as [r|] eqn:Ek; [|done]. simpl. f_equal.
    destruct (decide (k = k0)) as [->|Hne].
    + rewrite decide_False by done. by rewrite decide_True by set_solver.
    + destruct (decide (k ∈ l.*1)); [by rewrite decide_True by set_solver|].
      by rewrite decide_False by set_solver.
  - by rewrite IHr.
  - rewrite IHc, Hcnt, filter_cons. simpl. destruct (newly set r0) eqn:En.
    + rewrite decide_True by done. simpl. lia.
    + rewrite decide_False by done. lia.
Qed.

Lemma map_to_list_filter_lookup (P : Z * RevisionRow -> Prop) `{!forall x, Decision (P x)} m k r :
  (k, r) ∈ filter P (map_to_list m) <-> m !! k = Some r /\ P (k, r).
Proof. rewrite list_elem_of_filter, elem_of_map_to_list. tauto. Qed.

Lemma reevaluate_lookup set d k :
  t_revisions (reevaluate_revocation_against_set set d).1 !! k = mark set <$> t_revisions d !! k.
Proof.
  unfold reevaluate_revocation_against_set.
  destruct (reevaluate_fold set
    (filter (fun e => is_Some (row_anchor e.2)) (map_to_list (t_revisions d))) d 0) as (Hl & _);
    [apply NoDup_fmap_filter, NoDup_fst_map_to_list
    |by intros k' r' ?%map_to_list_filter_lookup|done|].
  simpl in Hl. rewrite Hl. destruct (t_revisions d !! k) as [r|] eqn:Ek; [|done]. simpl. f_equal.
  destruct (decide (k ∈ _)) as [|Hni]; [done|]. unfold mark, anchored.
  case_bool_decide as Ha; [|done]. exfalso. apply Hni.
  apply (list_elem_of_fmap_2 fst _ (k, r)). by apply map_to_list_filter_lookup.
Qed.

Lemma reevaluate_rest set d :
  set_revisions ∅ (reevaluate_revocation_against_set set d).1 = set_revisions ∅ d
  /\ (reevaluate_revocation_against_set set d).2 =
     Z.min U32_MAX (Z.of_nat (size (filter (fun e => newly set e.2 = true) (t_revisions d)))).
Proof.
  unfold reevaluate_revocation_against_set.
  destruct (reevaluate_fold set
    (filter (fun e => is_Some (row_anchor e.2)) (map_to_list (t_revisions d))) d 0) as (_ & Hr & Hc);
    [apply NoDup_fmap_filter, NoDup_fst_map_to_list
    |by intros k' r' ?%map_to_list_filter_lookup|done|].
  split; [done|]. rewrite Hc, list_filter_filter, size_map_filter, Z.add_0_l. do 3 f_equal.
  apply list_filter_iff. intros [k r]. simpl. unfold newly, anchored.
  rewrite !andb_true_iff, bool_decide_eq_true. tauto.
Qed.

Lemma db_ext d d' :
  t_revisions d = t_revisions d' -> set_revisions ∅ d = set_revisions ∅ d' -> d = d'.
Proof. destruct d, d'; simpl. unfold set_revisions. simpl. intros -> H. injection H. intros. by subst. Qed.

Lemma mark_mark set r : mark set (mark set r) = mark set r.
Proof.
  unfold mark. destruct (anchored r) eqn:E; [|by rewrite E].
  change (anchored (set_row_revoked (want_revoked set r) r)) with (anchored r). by rewrite E.
Qed.

Lemma want_revoked_false set r :
  want_revoked set r = false <-> exists s, recovered_signer r = Some s /\ s ∈ set.
Proof.
  unfold want_revoked, is_signer_honored. destruct (recovered_signer r) as [s|]; [|naive_solver].
  rewrite negb_false_iff, bool_decide_eq_true. naive_solver.
Qed.

(** C23. The retroactive revocation pass.  It changes nothing but the
    [revoked] column; a row without a chain anchor is untouched; an anchored
    row ends honored exactly when its recovered signer is in the given set (a
    row without a recovered signer is revoked), in both directions, whatever
    device id the row claims; the returned count is the number of newly
    revoked rows; a second pass with the same set changes nothing and counts
    zero; and no anchored head of any account is the work of a signer
    outside the set. *)
Theorem revocation_pass set d :
  let '(d', n) := reevaluate_revocation_against_set set d in
  set_revisions ∅ d' = set_revisions ∅ d
  /\ dom (t_revisions d') = dom (t_revisions d)
  /\ (forall k r, t_revisions d !! k = Some r -> exists r', t_revisions d' !! k = Some r'
       /\ set_row_revoked false r' = set_row_revoked false r
       /\ (row_anchor r = None -> r' = r)
       /\ (is_Some (row_anchor r) ->
            revoked r' = false <-> exists s, recovered_signer r = Some s /\ s ∈ set))
  /\ n = Z.min U32_MAX (Z.of_nat (size (filter (fun e => newly set e.2 = true) (t_revisions d))))
  /\ reevaluate_revocation_against_set set d' = (d', 0)
  /\ (forall id h r, h ∈ head_query d' id -> t_revisions d' !! h = Some r ->
       row_anchor r = None \/ exists s, recovered_signer r = Some s /\ s ∈ set).
Proof.
  pose proof (reevaluate_lookup set d) as Hl. destruct (reevaluate_rest set d) as [Hrest Hn].
  destruct (reevaluate_revocation_against_set set d) as [d' n] eqn:Ed'. cbn [fst snd] in *.
  assert (Hmark : forall k r', t_revisions d' !! k = Some r' -> mark set r' = r').
  { intros k r'. rewrite Hl. intros (r & _ & ->)%fmap_Some. apply mark_mark. }
  split_and!; [done| |  |done| |].
  - apply set_eq. intros k. rewrite !elem_of_dom, Hl. by rewrite fmap_is_Some.
  - intros k r Hk. exists (mark set r). split; [by rewrite Hl, Hk|].
    unfold mark, anchored. case_bool_decide as Ha; (split_and!; [by destruct r| |]).
    + intros Hx. rewrite Hx in Ha. by apply is_Some_None in Ha.
    + intros _. apply want_revoked_false.
    + done.
    + done.
  - pose proof (reevaluate_lookup set d') as Hl'. destruct (reevaluate_rest set d') as [Hr' Hn'].
    destruct (reevaluate_revocation_against_set set d') as [d2 n2]. cbn [fst snd] in *. f_equal.
    + apply db_ext; [|done]. apply map_eq. intros k. rewrite Hl'.
      destruct (t_revisions d' !! k) as [r'|] eqn:Ek; [|done]. simpl. f_equal. by apply (Hmark k).
    + rewrite Hn'. rewrite (proj2 (map_size_empty_iff _)); [done|].
      apply map_empty. intros k. apply map_lookup_filter_None. right. intros r' Hk. simpl. pose proof (Hmark k r' Hk) as Hm. unfold newly, mark in *.
      destruct (anchored r'); [|done]. replace (revoked r') with (want_revoked set r')
        by (by rewrite <- Hm at 2). by destruct (want_revoked set r').
  - intros id h r (r1 & Hr1 & _ & _ & Hrev & _)%elem_of_head_query Hr.
    rewrite Hr in Hr1. injection Hr1 as <-. pose proof (Hmark h r Hr) as Hm. unfold mark, anchored in Hm.
    case_bool_decide as Ha; [right|left; by apply eq_None_not_Some].
    apply want_revoked_false. rewrite <- Hrev at 1. by rewrite <- Hm at 2.
Qed.

(** ** Reorganisations: promotion, then roll-back *)

(** What the roll-back sees of a row after promotion at threshold [t]. *)
Lemma in_window_promoted t low high r :
  in_window low high (if is_final_at t r then set_row_status Finalized r else r) = true <->
  revision_status r = Pending /\ exists b, observed_at_block r = Some b /\ t < b /\ low <= b <= high.
Proof.
  unfold is_final_at. destruct (bool_decide (revision_status r = Pending)) eqn:Ep.
  - apply bool_decide_eq_true in Ep. simpl. destruct (observed_at_block r) as [b|] eqn:Eb.
    + destruct (b <=? t) eqn:El; zbool; unfold in_window; simpl; rewrite ?Ep, ?Eb; simpl.
      * split; [done|]. intros (_ & b' & [= <-] & ? & _). lia.
      * rewrite andb_true_iff, !Z.leb_le. naive_solver lia.
    + unfold in_window. rewrite Ep, Eb. simpl. naive_solver.
  - apply bool_decide_eq_false in Ep. simpl. unfold in_window.
    rewrite bool_decide_eq_false_2 by done. simpl. naive_solver.
Qed.

(** The reorg window.  Promotion at chain head [h] followed by the
    roll-back of blocks [low..high] deletes exactly the rows that were
    pending, observed inside the window and less than
    [CONFIRMATION_DEPTH_FOR_FINALIZATION] blocks deep: a finalized row, and a
    pending one deep enough, survive any roll-back.  A surviving row differs
    at most in its status, nothing appears, and the counter is the number of
    deleted rows.  The account rows are not touched at all: a head pointer to
    a deleted revision is left in place. *)
Theorem reorg_window h low high d :
  0 <= h <= I64_MAX -> 0 <= low <= I64_MAX -> 0 <= high <= I64_MAX ->
  exists d1 n1 d2 n2,
    promote_finalized_revisions h d = Ok (d1, n1)
    /\ rollback_pending_revisions_in_range low high d1 = Ok (d2, n2)
    /\ (forall k r, t_revisions d !! k = Some r ->
          (t_revisions d2 !! k = None <->
             revision_status r = Pending /\ exists b, observed_at_block r = Some b
             /\ saturating_sub h CONFIRMATION_DEPTH_FOR_FINALIZATION < b /\ low <= b <= high)
          /\ (forall r', t_revisions d2 !! k = Some r' ->
                r' = r \/ revision_status r = Pending /\ r' = set_row_status Finalized r
                          /\ exists b, observed_at_block r = Some b
                             /\ b <= saturating_sub h CONFIRMATION_DEPTH_FOR_FINALIZATION))
    /\ (forall k, t_revisions d !! k = None -> t_revisions d2 !! k = None)
    /\ n2 = default U32_MAX (u32_try_from
              (Z.of_nat (size (t_revisions d)) - Z.of_nat (size (t_revisions d2))))
    /\ set_revisions ∅ d2 = set_revisions ∅ d.
Proof.
  intros Hh Hlow Hhigh.
  assert (Hfit : forall x, 0 <= x <= I64_MAX -> i64_try_from x = Some x).
  { intros x Hx. apply try_from_Some. unfold I64_MIN. lia. }
  set (t := saturating_sub h CONFIRMATION_DEPTH_FOR_FINALIZATION).
  assert (Ht : i64_try_from t = Some t).
  { apply Hfit. unfold t, saturating_sub, CONFIRMATION_DEPTH_FOR_FINALIZATION. lia. }
  set (d1 := update_revisions (fun _ r => is_final_at t r) (set_row_status Finalized) d).
  unfold promote_finalized_revisions, rollback_pending_revisions_in_range, mbind, result_bind.
  fold t. rewrite Ht, !Hfit by done. simpl. do 4 eexists.
  split; [reflexivity|]. split; [reflexivity|]. fold d1. cbn [t_revisions set_revisions].
  assert (Hl : forall k r', t_revisions d1 !! k = Some r' <->
    exists r, t_revisions d !! k = Some r
      /\ r' = if is_final_at t r then set_row_status Finalized r else r).
  { intros k r'. unfold d1. rewrite update_revisions_lookup, fmap_Some. naive_solver. }
  pose proof (in_window_promoted t low high) as Hwin.
  split_and!; [| | |done].
  - intros k r Hk. split.
    + rewrite map_lookup_filter_None. rewrite <- Hwin. split.
      * intros [Hn|Hin].
        { exfalso. unfold d1 in Hn. rewrite update_revisions_lookup, Hk in Hn. done. }
        apply not_false_iff_true. simpl in Hin. apply Hin, Hl. eauto.
      * intros Hw. right. intros r' (r1 & Hr1 & ->)%Hl. rewrite Hk in Hr1. injection Hr1 as <-.
        simpl. by rewrite Hw.
    + intros r' [(r1 & Hr1 & ->)%Hl _]%map_lookup_filter_Some. rewrite Hk in Hr1. injection Hr1 as <-.
      destruct (is_final_at t r) eqn:Ef; [right|by left]. unfold is_final_at in Ef.
      destruct (observed_at_block r) as [b|]; [|by rewrite andb_false_r in Ef]. zbool.
      split_and!; [by eapply bool_decide_eq_true|done|by exists b].
  - intros k Hk. apply map_lookup_filter_None. left. unfold d1.
    by rewrite update_revisions_lookup, Hk.
  - do 3 f_equal. f_equal. rewrite <- !size_dom. f_equal. apply set_eq. intros k.
    rewrite !elem_of_dom. unfold d1. by rewrite update_revisions_lookup, fmap_is_Some.
Qed.

(** ** Ingestion *)

Lemma merge_target_spec e d rid :
  merge_target e d = Some rid ->
  exists r, t_revisions d !! rid = Some r /\ is_merge_target e r = true.
Proof.
  unfold merge_target. destruct (filter _ _) as [|[k r] l] eqn:Ef; [done|]. intros [= <-].
  assert (Hin : (k, r) ∈ filter (fun p => is_merge_target e p.2 = true) (map_to_list (t_revisions d)))
    by (rewrite Ef; left).
  apply map_to_list_filter_lookup in Hin as [Hk Hm]. by exists r.
Qed.

Lemma is_merge_target_spec e r :
  is_merge_target e r = true ->
  row_account r = ev_account_id e /\ row_parent r = ev_parent_revision e
  /\ enc_payload r = ev_enc_payload e /\ row_anchor r = None.
Proof. unfold is_merge_target. rewrite !andb_true_iff, !bool_decide_eq_true. tauto. Qed.

Lemma present_by_anchor_spec e sa d :
  present_by_anchor e sa d = true <->
  exists k r, t_revisions d !! k = Some r /\ row_account r = ev_account_id e
    /\ row_anchor r = Some sa.
Proof.
  unfold present_by_anchor. rewrite existsb_exists. setoid_rewrite <- list_elem_of_In. split.
  - intros (r & ([k r'] & -> & Hk%elem_of_map_to_list)%list_elem_of_fmap & Hb). simpl in *.
    unfold at_anchor in Hb. rewrite andb_true_iff, !bool_decide_eq_true in Hb. naive_solver.
  - intros (k & r & Hk & Ha & Hr). exists r. split.
    + apply list_elem_of_fmap. exists (k, r). split; [done|]. by apply elem_of_map_to_list.
    + unfold at_anchor. by rewrite andb_true_iff, !bool_decide_eq_true.
Qed.

Lemma update_one_lookup rid f d k :
  t_revisions (update_revisions (fun j _ => bool_decide (j = rid)) f d) !! k =
  (fun r => if decide (k = rid) then f r else r) <$> t_revisions d !! k.
Proof.
  rewrite update_revisions_lookup. destruct (t_revisions d !! k); [|done]. simpl. f_equal.
  destruct (decide (k = rid)); [by rewrite bool_decide_eq_true_2|by rewrite bool_decide_eq_false_2].
Qed.

Section ingestion.
Context {Snapshot Key Index P : Type}.
Context (clock wall : nat -> Z) (vault_id : Z).
Context (canonical_hash : Z -> Z -> Z -> Z -> Z -> list Z -> Z)
        (open_payload : Key -> Z -> list Z -> Aad -> store_result (DecodedPayload Snapshot)).

Notation W := (World Database Snapshot Key Index P).
Notation ingest := (ingest_chain_revision clock wall vault_id canonical_hash open_payload
                      : RevisionEvent -> op W StoreError IngestOutcome).
Notation ingest_pending :=
  (ingest_pending_chain_revision clock wall vault_id canonical_hash open_payload
     : RevisionEvent -> Z -> Z -> op W StoreError IngestOutcome).
Notation ingest_v2 :=
  (ingest_v2_revision_if_honored clock wall vault_id canonical_hash open_payload
     : RevisionEvent -> Z -> list Z -> op W StoreError (option IngestOutcome)).
Notation eid := (event_id canonical_hash).

Lemma maybe_expire_total (w : W) :
  exists w', maybe_expire_active_session clock w = (Ok tt, w') /\ db (vault w') = db (vault w).
Proof.
  unfold maybe_expire_active_session, clock_now, expire, modify, gets, mbind, op_bind, when.
  destruct (session_state (vault w)); simpl; try by eexists.
  destruct (expires_at <? clock (ticks w)); by eexists.
Qed.

(** What one ingest does to the tables. *)
Inductive ingest_effect (e : RevisionEvent) (d : Database) :
    Database -> result StoreError IngestOutcome -> Prop :=
| IngestKnownId :
    is_Some (t_revisions d !! eid e) -> ingest_effect e d d (Ok AlreadyPresent)
| IngestOverflow err :
    t_revisions d !! eid e = None -> store_anchor (ev_anchor e) = Err err ->
    ingest_effect e d d (Err err)
| IngestKnownAnchor sa :
    t_revisions d !! eid e = None -> store_anchor (ev_anchor e) = Ok sa ->
    present_by_anchor e sa d = true -> ingest_effect e d d (Ok AlreadyPresent)
| IngestMerged sa rid :
    t_revisions d !! eid e = None -> store_anchor (ev_anchor e) = Ok sa ->
    present_by_anchor e sa d = false -> merge_target e d = Some rid ->
    ingest_effect e d (update_revisions (fun k _ => bool_decide (k = rid)) (set_row_anchor sa) d)
      (Ok AlreadyPresent)
| IngestForeign sa now tomb d' :
    t_revisions d !! eid e = None -> store_anchor (ev_anchor e) = Ok sa ->
    present_by_anchor e sa d = false -> merge_target e d = None ->
    tx_ingest canonical_hash e sa now tomb d = Ok (d', tt) -> ingest_effect e d d' (Ok Inserted).

(** The insertion cannot be refused: the id is new, the account exists. *)
Lemma tx_ingest_total e sa now tomb d :
  t_revisions d !! eid e = None -> exists d', tx_ingest canonical_hash e sa now tomb d = Ok (d', tt).
Proof.
  intros Hn. unfold tx_ingest, insert_account, insert_revision, mbind, result_bind.
  destruct (account_identities d !! ev_account_id e) as [a|] eqn:Ea; simpl; rewrite Hn.
  - rewrite lookup_alter_eq, Ea. simpl. by eexists.
  - rewrite lookup_insert_eq. by eexists.
Qed.

Lemma finish_touch (w : W) (o : IngestOutcome) :
  exists w', (touch_session clock ≫= fun _ => mret o) w = (Ok o, w')
    /\ db (vault w') = db (vault w).
Proof.
  destruct (touch_session_total clock w) as (w' & Ht & _ & _ & Hd).
  exists w'. by rewrite (op_bind_run _ _ _ _ _ Ht).
Qed.

Lemma ingest_inv e (w : W) r w' :
  ingest e w = (r, w') -> ingest_effect e (db (vault w)) (db (vault w')) r.
Proof.
  unfold ingest_chain_revision. destruct (maybe_expire_total w) as (w1 & Hm & Hd1).
  rewrite (op_bind_run _ _ _ _ _ Hm). unfold get_db, gets. rewrite op_bind_eq. rewrite Hd1.
  destruct (t_revisions (db (vault w)) !! eid e) as [row|] eqn:Eid.
  { destruct (finish_touch w1 AlreadyPresent) as (w2 & -> & Hd2). intros [= <- <-].
    rewrite Hd2, Hd1. by apply IngestKnownId. }
  unfold lift. rewrite op_bind_eq. destruct (store_anchor (ev_anchor e)) as [sa|err] eqn:Esa.
  2: { intros [= <- <-]. rewrite Hd1. by apply IngestOverflow. }
  destruct (present_by_anchor e sa (db (vault w))) eqn:Ep.
  { destruct (finish_touch w1 AlreadyPresent) as (w2 & -> & Hd2). intros [= <- <-].
    rewrite Hd2, Hd1. by apply (IngestKnownAnchor e _ sa). }
  destruct (merge_target e (db (vault w))) as [rid|] eqn:Em.
  { unfold put_db, modify. rewrite op_bind_eq.
    match goal with |- (_ ≫= _) ?w2 = _ -> _ =>
      destruct (finish_touch w2 AlreadyPresent) as (w3 & -> & Hd3) end.
    intros [= <- <-]. rewrite Hd3. by apply IngestMerged. }
  rewrite op_bind_eq. unfold current_unix_ms. rewrite op_bind_eq.
  match goal with |- context [transaction (tx_ingest _ _ _ ?now ?tomb)] =>
    destruct (tx_ingest_total e sa now tomb (db (vault w)) Eid) as [d' Htx] end.
  match goal with |- (transaction ?f ≫= _) ?w2 = _ -> _ =>
    destruct (transaction f w2) as [r1 w3] eqn:Et end.
  pose proof (transaction_inv _ _ _ _ Et) as Hti. simpl in Hti. rewrite Hd1 in Hti.
  destruct r1 as [[]|err]; [|destruct Hti as [Hti _]; simpl in *; congruence].
  destruct Hti as (d1 & Hti & ->). rewrite (op_bind_run _ _ _ _ _ Et).
  match goal with |- (_ ≫= _) ?w2 = _ -> _ =>
    destruct (finish_touch w2 Inserted) as (w4 & -> & Hd4) end.
  intros [= <- <-]. rewrite Hd4. simpl. by eapply IngestForeign.
Qed.

Lemma ingest_run e (w : W) :
  exists r w', ingest e w = (r, w') /\ ingest_effect e (db (vault w)) (db (vault w')) r.
Proof. destruct (ingest e w) as [r w'] eqn:E. exists r, w'. eauto using ingest_inv. Qed.

Lemma tx_ingest_effect e sa now tomb d d' :
  tx_ingest canonical_hash e sa now tomb d = Ok (d', tt) ->
  t_revisions d' = <[eid e := foreign_row e sa now tomb]> (t_revisions d)
  /\ dirty_accounts d' = dirty_accounts d
  /\ exists a', account_identities d' = <[ev_account_id e := a']> (account_identities d)
     /\ frozen a' = true
     /\ match account_identities d !! ev_account_id e with
        | Some a => head_revision_id a' = head_revision_id a
                    /\ account_created_at a' = account_created_at a
                    /\ tombstoned a' = tomb || tombstoned a
        | None => head_revision_id a' = eid e /\ tombstoned a' = tomb
        end.
Proof.
  unfold tx_ingest, insert_account, mbind, result_bind.
  destruct (account_identities d !! ev_account_id e) as [a|] eqn:Ea;
    (destruct (insert_revision _ _ _) as [d2|] eqn:Ei; [|done]); intros [= <-];
    apply insert_revision_Ok in Ei as (_ & _ & ->); simpl; (split_and!; [done..|]).
  - exists (mkAccountRow (account_created_at a) now (tomb || tombstoned a) (head_revision_id a) true).
    split; [|done]. apply map_eq. intros k. destruct (decide (k = ev_account_id e)) as [->|Hne].
    + by rewrite lookup_alter_eq, lookup_insert_eq, Ea.
    + by rewrite lookup_alter_ne, lookup_insert_ne.
  - eexists. split; [reflexivity|]. done.
Qed.

(** The event is in the database: under its id, or at its anchor. *)
Definition known (ev : RevisionEvent) (d : Database) : Prop :=
  is_Some (t_revisions d !! eid ev)
  \/ exists sa, store_anchor (ev_anchor ev) = Ok sa /\ present_by_anchor ev sa d = true.

(** The stored checkpoints. *)
Definition checkpoints (d : Database) : option Z * option Z * option Z :=
  (sync_state d, chain_sync_v1_state d, chain_sync_v2_state d).

(** Rows stay, with their account and, once set, their anchor. *)
Definition keeps (d d' : Database) : Prop :=
  forall k r, t_revisions d !! k = Some r -> exists r', t_revisions d' !! k = Some r'
    /\ row_account r' = row_account r
    /\ (is_Some (row_anchor r) -> row_anchor r' = row_anchor r).

#[export] Instance keeps_preorder : PreOrder keeps.
Proof.
  split; [intros d k r; eauto|]. intros d1 d2 d3 H1 H2 k r Hk.
  destruct (H1 k r Hk) as (r2 & Hk2 & Ha2 & Hx2). destruct (H2 k r2 Hk2) as (r3 & Hk3 & Ha3 & Hx3).
  exists r3. split_and!; [done|congruence|]. intros Hs. rewrite Hx3; [by apply Hx2|]. by rewrite Hx2.
Qed.

Lemma keeps_eq d d' : t_revisions d' = t_revisions d -> keeps d d'.
Proof. intros Heq k r Hk. exists r. by rewrite Heq. Qed.

Lemma known_keeps ev d d' : keeps d d' -> known ev d -> known ev d'.
Proof.
  intros Hk [[r Hr]|(sa & Hsa & Hp)].
  - left. destruct (Hk _ _ Hr) as (r' & -> & _). by eexists.
  - right. exists sa. split; [done|].
    apply present_by_anchor_spec in Hp as (k & r & Hr & Ha & Hx).
    apply present_by_anchor_spec. destruct (Hk k r Hr) as (r' & Hr' & Ha' & Hx').
    exists k, r'. rewrite Ha', Hx' by (by rewrite Hx). done.
Qed.

Lemma ingest_effect_keeps ev d d' r :
  ingest_effect ev d d' r -> keeps d d' /\ checkpoints d' = checkpoints d.
Proof.
  intros [Hk|err Hn Hs|sa Hn Hs Hp|sa rid Hn Hs Hp Hm|sa now tomb d1 Hn Hs Hp Hm Htx];
    try (split; [reflexivity|done]).
  - apply merge_target_spec in Hm as (row & Hrow & Hm). apply is_merge_target_spec in Hm as (_ & _ & _ & Hm).
    split; [|done]. intros k r' Hk. rewrite update_one_lookup, Hk. simpl. eexists. split; [done|].
    destruct (decide (k = rid)) as [->|]; [|done]. rewrite Hrow in Hk. injection Hk as <-.
    split; [done|]. rewrite Hm. by intros [].
  - split.
    + apply tx_ingest_effect in Htx as (Hrev & _). intros k r' Hk. exists r'. rewrite Hrev.
      rewrite lookup_insert_ne by congruence. done.
    + revert Htx. unfold tx_ingest, insert_account, mbind, result_bind.
      destruct (account_identities d !! ev_account_id ev);
        (destruct (insert_revision _ _ _) as [d2|] eqn:Ei; [|done]); intros [= <-];
        apply insert_revision_Ok in Ei as (_ & _ & ->); done.
Qed.

Lemma ingest_effect_known ev d d' o :
  ingest_effect ev d d' (Ok o) -> known ev d'.
Proof.
  inversion 1 as [Hk|err Hn Hs|sa Hn Hs Hp|sa rid Hn Hs Hp Hm|sa now tomb d1 Hn Hs Hp Hm Htx]; subst.
  - by left.
  - right. by exists sa.
  - right. exists sa. split; [done|]. apply merge_target_spec in Hm as (row & Hrow & Hm).
    apply is_merge_target_spec in Hm as (Ha & _). apply present_by_anchor_spec.
    exists rid, (set_row_anchor sa row). rewrite update_one_lookup, Hrow. simpl.
    by rewrite decide_True.
  - left. apply tx_ingest_effect in Htx as (-> & _). by rewrite lookup_insert_eq.
Qed.

(** Ingestion is append-only and freezes.  A stored revision is never
    removed or rewritten: at most an unpublished local row that matches the
    event field for field gets its anchor.  A new event adds exactly one row,
    under the canonical hash of the event, and leaves its account frozen: the
    head pointer, the creation time and the dirty markers of an account that
    was already there do not move, so a foreign revision never becomes what
    the user reads or publishes without a resolution.  An event already
    present leaves every account as it was, and the only failure is an anchor
    out of range, which changes nothing. *)
Theorem ingest_append_only e (w : W) r w' :
  ingest e w = (r, w') ->
  let d := db (vault w) in
  let d' := db (vault w') in
  (forall rid row, t_revisions d !! rid = Some row ->
     exists row', t_revisions d' !! rid = Some row'
       /\ (row' = row
           \/ is_merge_target e row = true
              /\ exists sa, store_anchor (ev_anchor e) = Ok sa /\ row' = set_row_anchor sa row))
  /\ dirty_accounts d' = dirty_accounts d
  /\ match r with
     | Ok Inserted =>
         t_revisions d !! eid e = None
         /\ (exists sa now tomb, store_anchor (ev_anchor e) = Ok sa
               /\ t_revisions d' = <[eid e := foreign_row e sa now tomb]> (t_revisions d))
         /\ is_account_frozen d' (ev_account_id e) = true
         /\ (forall id, id <> ev_account_id e ->
               account_identities d' !! id = account_identities d !! id)
         /\ exists a', account_identities d' !! ev_account_id e = Some a'
              /\ match account_identities d !! ev_account_id e with
                 | Some a => head_revision_id a' = head_revision_id a
                             /\ account_created_at a' = account_created_at a
                             /\ (tombstoned a = true -> tombstoned a' = true)
                 | None => head_revision_id a' = eid e
                 end
     | Ok AlreadyPresent =>
         account_identities d' = account_identities d
         /\ dom (t_revisions d') = dom (t_revisions d)
     | Err err => d' = d /\ store_anchor (ev_anchor e) = Err err
     end.
Proof.
  intros Hr. apply ingest_inv in Hr. simpl.
  set (d := db (vault w)) in *. set (d' := db (vault w')) in *. clearbody d d'.
  destruct Hr as [Hk|err Hn Hs|sa Hn Hs Hp|sa rid Hn Hs Hp Hm|sa now tomb d' Hn Hs Hp Hm Htx].
  1-3: by eauto 10.
  - apply merge_target_spec in Hm as (row & Hrow & Hm). split_and!; [|done|done|].
    + intros k r' Hk. rewrite update_one_lookup, Hk. simpl. eexists. split; [done|].
      destruct (decide (k = rid)) as [->|]; [|by left]. right. rewrite Hrow in Hk.
      injection Hk as <-. eauto.
    + apply set_eq. intros k. by rewrite !elem_of_dom, update_one_lookup, fmap_is_Some.
  - apply tx_ingest_effect in Htx as (Hrev & Hd & a' & Hacc & Hf & Ha'). split_and!; try done.
    + intros k r' Hk. rewrite Hrev, lookup_insert_ne by congruence. eauto.
    + eauto.
    + rewrite (is_account_frozen_row d' _ a'); [done|by rewrite Hacc, lookup_insert_eq].
    + intros id Hid. by rewrite Hacc, lookup_insert_ne.
    + exists a'. rewrite Hacc, lookup_insert_eq. split; [done|].
      destruct (account_identities d !! ev_account_id e) as [a|]; [|tauto].
      destruct Ha' as (? & ? & Ht). split_and!; try done. rewrite Ht. intros ->. apply orb_true_r.
Qed.

(** Ingestion is idempotent: after any ingest that returns, ingesting the
    same event again finds it present and leaves the database exactly as it
    is, whether the first call inserted the row, merged it onto an
    unpublished local one or found it. *)
Theorem ingest_idempotent e (w : W) o w1 :
  ingest_chain_revision clock wall vault_id canonical_hash open_payload e w = (Ok o, w1) ->
  exists w2,
    ingest_chain_revision clock wall vault_id canonical_hash open_payload e w1
      = (Ok AlreadyPresent, w2)
    /\ db (vault w2) = db (vault w1).
Proof.
  intros Hr. apply ingest_inv in Hr. destruct (ingest_run e w1) as (r2 & w2 & Hr2 & He2).
  exists w2. rewrite Hr2.
  set (d := db (vault w)) in *. set (d1 := db (vault w1)) in *. set (d2 := db (vault w2)) in *.
  clearbody d d1 d2.
  assert (Hid : is_Some (t_revisions d1 !! eid e) -> (r2, w2) = (Ok AlreadyPresent, w2) /\ d2 = d1).
  { intros [x Hx]. destruct He2; try done; congruence. }
  assert (Hpres : forall sa, store_anchor (ev_anchor e) = Ok sa -> present_by_anchor e sa d1 = true ->
    (r2, w2) = (Ok AlreadyPresent, w2) /\ d2 = d1).
  { intros sa Hs Hp. destruct He2; try done; try congruence. }
  inversion Hr as [Hk|err Hn Hs|sa Hn Hs Hp|sa rid Hn Hs Hp Hm|sa now tomb d' Hn Hs Hp Hm Htx];
    subst; try done.
  - by apply Hid.
  - by apply (Hpres sa).
  - apply (Hpres sa); [done|]. apply present_by_anchor_spec.
    apply merge_target_spec in Hm as (row & Hrow & (Ha & _)%is_merge_target_spec).
    exists rid, (set_row_anchor sa row). rewrite update_one_lookup, Hrow. simpl.
    by rewrite decide_True.
  - apply Hid. apply tx_ingest_effect in Htx as (-> & _). by rewrite lookup_insert_eq.
Qed.

(** The honor gate of the V2 path.  An event whose signer is not in the
    authorized set does nothing at all, to the tables or to the session.  For
    an honored signer the event is ingested as [ingest_chain_revision] does
    and every row of its account at its anchor carries that signer, whatever
    device id the event claims; no other row changes, so no event can put a
    signer on a row mined elsewhere. *)
Theorem honor_gate e signer set (w : W) r w' :
  ingest_v2 e signer set w = (r, w') ->
  if bool_decide (signer ∈ set)
  then exists r1 w1, ingest e w = (r1, w1)
    /\ match r1 with
       | Err err => r = Err err /\ db (vault w') = db (vault w1)
       | Ok o =>
           (r = Ok (Some o)
            /\ set_revisions ∅ (db (vault w')) = set_revisions ∅ (db (vault w1))
            /\ exists sa, store_anchor (ev_anchor e) = Ok sa /\
              forall k, t_revisions (db (vault w')) !! k =
               (fun row => if decide (row_account row = ev_account_id e /\ row_anchor row = Some sa)
                           then set_row_signer signer row else row)
                 <$> t_revisions (db (vault w1)) !! k)
           \/ exists err, r = Err err /\ store_anchor (ev_anchor e) = Err err
                /\ db (vault w') = db (vault w1)
       end
  else r = Ok None /\ w' = w.
Proof.
  unfold ingest_v2_revision_if_honored, is_signer_honored.
  destruct (bool_decide (signer ∈ set)); [|by intros [= <- <-]].
  destruct (ingest e w) as [[o|err] w1] eqn:Ei.
  2: { rewrite (op_bind_fail _ _ _ _ _ Ei). intros [= <- <-]. by exists (Err err), w1. }
  rewrite (op_bind_run _ _ _ _ _ Ei). unfold stamp_recovered_signer, get_db, put_db, gets, modify, lift.
  rewrite !op_bind_eq. destruct (store_anchor (ev_anchor e)) as [sa|err] eqn:Es; simpl.
  2: { intros [= <- <-]. do 2 eexists. split; [done|]. simpl. right. by exists err. }
  unfold mbind, op_bind, mret, op_ret. intros [= <- <-]. do 2 eexists. split; [done|]. simpl. left.
  split_and!; [done|done|]. exists sa. split; [done|]. intros k.
  rewrite map_lookup_imap. destruct (t_revisions (db (vault w1)) !! k) as [row|]; [|done]. simpl.
  do 2 f_equal. unfold at_anchor. destruct (decide _) as [[-> ->]|Hn].
  - by rewrite !bool_decide_eq_true_2.
  - destruct (_ && _) eqn:E; [|done]. rewrite andb_true_iff, !bool_decide_eq_true in E. tauto.
Qed.

(** Re-ingesting un-finalizes.  When the event of a chain-anchored row is
    seen again, [ingest_pending_chain_revision] reports it present and stamps
    the row pending at the new observation, whatever its status was, so the
    next roll-back of that block deletes a revision that had been finalized,
    one the user wrote and published included, while the account keeps
    pointing at it. *)
Theorem reingest_unfinalizes e sa rid row block hash (w : W) :
  store_anchor (ev_anchor e) = Ok sa ->
  t_revisions (db (vault w)) !! rid = Some row -> row_account row = ev_account_id e ->
  row_anchor row = Some sa -> revision_status row = Finalized -> 0 <= block <= I64_MAX ->
  exists w', ingest_pending e block hash w = (Ok AlreadyPresent, w')
    /\ t_revisions (db (vault w')) !! rid
       = Some (set_row_observed block hash (set_row_status Pending row))
    /\ account_identities (db (vault w')) = account_identities (db (vault w))
    /\ exists d2 n, rollback_pending_revisions_in_range block block (db (vault w')) = Ok (d2, n)
         /\ t_revisions d2 !! rid = None
         /\ account_identities d2 = account_identities (db (vault w)).
Proof.
  intros Hs Hrow Hacct Hanc Hst Hb.
  assert (Hfit : i64_try_from block = Some block).
  { apply try_from_Some. unfold I64_MIN. lia. }
  destruct (ingest_run e w) as (r & w1 & Hr & He).
  assert (Hp : present_by_anchor e sa (db (vault w)) = true).
  { apply present_by_anchor_spec. eauto. }
  assert (r = Ok AlreadyPresent /\ db (vault w1) = db (vault w)) as [-> Hd1].
  { inversion He; subst; try done; congruence. }
  unfold ingest_pending_chain_revision. rewrite (op_bind_run _ _ _ _ _ Hr).
  unfold lift, get_db, put_db, gets, modify. rewrite op_bind_eq, Hfit. simpl.
  rewrite op_bind_eq, Hs. rewrite op_bind_eq. rewrite op_bind_eq. eexists. split; [reflexivity|].
  cbn [vault map_vault db set_db]. rewrite Hd1. unfold stamp_pending.
  assert (Hl : t_revisions (update_revisions (fun _ r => at_anchor sa r)
      (fun r => set_row_observed block hash (set_row_status Pending r)) (db (vault w))) !! rid
    = Some (set_row_observed block hash (set_row_status Pending row))).
  { rewrite update_revisions_lookup, Hrow. simpl. unfold at_anchor. by rewrite bool_decide_eq_true_2. }
  split_and!; [done|done|].
  unfold rollback_pending_revisions_in_range, mbind, result_bind. rewrite Hfit. simpl.
  do 2 eexists. split; [reflexivity|]. split; [|done]. cbn [t_revisions set_revisions].
  apply map_lookup_filter_None. right. intros r Hr'. pose proof (eq_trans (eq_sym Hl) Hr') as Heq.
  injection Heq as <-. unfold in_window. simpl. by rewrite Z.leb_refl.
Qed.
End ingestion.

(** ** Checkpoints *)

Lemma next_checkpoint_spec stored b :
  0 <= b ->
  match next_checkpoint stored b with
  | Ok next => default 0 stored <= b
      /\ (next = Some b /\ b <= I64_MAX \/ next = None /\ stored = Some b)
  | Err e => e = Corrupted BackwardCheckpoint /\ b < default 0 stored
             \/ e = Corrupted IntegerOverflow /\ default 0 stored <= b /\ I64_MAX < b
  end.
Proof.
  intros Hb. unfold next_checkpoint, mbind, result_bind.
  destruct (b <? default 0 stored) eqn:E1; zbool; [by left|].
  destruct (b =? default 0 stored) eqn:E2; zbool.
  - destruct stored as [s|]; simpl in *.
    + split; [lia|right]. by subst.
    + unfold i64_try_from, try_from, in_range, I64_MAX, I64_MIN. subst b. simpl. split; [lia|by left].
  - rewrite andb_false_l. destruct (i64_try_from b) as [i|] eqn:Ei; simpl.
    + apply try_from_Some in Ei as [-> ?]. split; [lia|left]. split; [done|lia].
    + right. split_and!; [done|lia|]. destruct (Z.lt_ge_cases I64_MAX b) as [|Hle]; [done|].
      exfalso. assert (i64_try_from b = Some b) by (apply try_from_Some; unfold I64_MIN; lia). congruence.
Qed.

Lemma next_checkpoint_again b : next_checkpoint (Some b) b = Ok None.
Proof. unfold next_checkpoint. simpl. by rewrite Z.ltb_irrefl, Z.eqb_refl. Qed.

Lemma read_checkpoint_Some b : 0 <= b <= I64_MAX -> read_checkpoint (Some b) = Ok (Some b).
Proof.
  intros Hb. unfold read_checkpoint. replace (u64_try_from b) with (Some b); [done|].
  symmetry. apply try_from_Some. unfold I64_MAX, U64_MAX in *. lia.
Qed.

Lemma read_checkpoint_inv raw o :
  read_checkpoint raw = Ok o -> raw = o /\ forall b, o = Some b -> 0 <= b.
Proof.
  unfold read_checkpoint. destruct raw as [v|]; [|by intros [= <-]].
  destruct (u64_try_from v) as [b|] eqn:E; [|done]. intros [= <-].
  apply try_from_Some in E as [-> [? _]]. split; [done|]. by intros ? [= <-].
Qed.

#[local] Arguments read_checkpoint _ : simpl never.
#[local] Arguments next_checkpoint _ _ : simpl never.

(** The part of the next proof the two cursors share. *)
Ltac checkpoint_step d field :=
  destruct (read_checkpoint (field d)) as [o|e] eqn:Ec; [|by intros];
  pose proof (next_checkpoint_spec o) as Hnext;
  match goal with Hb : 0 <= ?b |- _ => specialize (Hnext b Hb); destruct (next_checkpoint o b) as [nx|e] end;
  [ destruct Hnext as [Hle [[-> Hmax]|[-> ->]]];
    [ simpl; rewrite read_checkpoint_Some by lia; split_and!; [done|done|by eexists|];
      by rewrite next_checkpoint_again
    | split_and!; [done|done|by eexists|]; rewrite Ec;
      by rewrite next_checkpoint_again ]
  | intros ? [= <-]; tauto ].

Lemma advance_spec b d :
  0 <= b ->
  match advance_last_pulled_block b d with
  | Ok d' => last_pulled_block d' = Ok b
      /\ set_sync_state None d' = set_sync_state None d
      /\ exists c, last_pulled_block d = Ok c /\ c <= b
  | Err e => forall c, last_pulled_block d = Ok c ->
      e = Corrupted BackwardCheckpoint /\ b < c \/ e = Corrupted IntegerOverflow /\ I64_MAX < b
  end.
Proof.
  intros Hb. unfold advance_last_pulled_block, last_pulled_block, mbind, result_bind.
  destruct (read_checkpoint (sync_state d)) as [o|e] eqn:Ec; [|by intros].
  destruct (b <? default 0 o) eqn:E1; zbool; [naive_solver|].
  destruct (b =? default 0 o) eqn:E2; zbool.
  { subst b. rewrite Ec. split_and!; [done|done|by eexists]. }
  destruct (i64_try_from b) as [i|] eqn:Ei; simpl.
  - apply try_from_Some in Ei as [-> [_ Hi]]. rewrite read_checkpoint_Some by done. simpl.
    split_and!; try done. eexists. split; [done|lia].
  - intros c [= <-]. right. split; [done|]. destruct (Z.lt_ge_cases I64_MAX b); [done|].
    exfalso. assert (i64_try_from b = Some b) by (apply try_from_Some; unfold I64_MIN; lia). congruence.
Qed.

(** The sync checkpoints never move backwards.  A successful advance
    leaves the checkpoint at the requested block, which is at least the one
    stored before, and touches nothing else: the V1 and V2 cursors are
    independent.  A smaller block is refused as a backward move, one past
    [i64::MAX] as an overflow, and asking again for the same block succeeds
    without a change. *)
Theorem checkpoints_monotone b d :
  0 <= b ->
  match advance_last_pulled_block b d with
  | Ok d' => last_pulled_block d' = Ok b
      /\ set_sync_state None d' = set_sync_state None d
      /\ (exists c, last_pulled_block d = Ok c /\ c <= b)
      /\ advance_last_pulled_block b d' = Ok d'
  | Err e => forall c, last_pulled_block d = Ok c ->
      e = Corrupted BackwardCheckpoint /\ b < c \/ e = Corrupted IntegerOverflow /\ I64_MAX < b
  end
  /\ match update_last_synced_block_v1 b d with
     | Ok d' => last_synced_block_v1 d' = Ok (Some b)
         /\ set_v1_state None d' = set_v1_state None d
         /\ (exists o, last_synced_block_v1 d = Ok o /\ default 0 o <= b)
         /\ update_last_synced_block_v1 b d' = Ok d'
     | Err e => forall o, last_synced_block_v1 d = Ok o ->
         e = Corrupted BackwardCheckpoint /\ b < default 0 o
         \/ e = Corrupted IntegerOverflow /\ I64_MAX < b
     end
  /\ match update_last_synced_block_v2 b d with
     | Ok d' => last_synced_block_v2 d' = Ok (Some b)
         /\ set_v2_state None d' = set_v2_state None d
         /\ (exists o, last_synced_block_v2 d = Ok o /\ default 0 o <= b)
         /\ update_last_synced_block_v2 b d' = Ok d'
     | Err e => forall o, last_synced_block_v2 d = Ok o ->
         e = Corrupted BackwardCheckpoint /\ b < default 0 o
         \/ e = Corrupted IntegerOverflow /\ I64_MAX < b
     end.
Proof.
  intros Hb. split; [|split].
  - pose proof (advance_spec b d Hb) as Ha.
    destruct (advance_last_pulled_block b d) as [d'|e]; [|done]. destruct Ha as (H1 & H2 & Hc).
    split_and!; [done|done|done|]. revert H1. unfold last_pulled_block, advance_last_pulled_block.
    destruct (last_pulled_block d') as [c|e'] eqn:El; unfold last_pulled_block in El;
      rewrite El; [|done]. intros [= ->]. unfold mbind, result_bind.
    by rewrite Z.ltb_irrefl, Z.eqb_refl.
  - unfold update_last_synced_block_v1, last_synced_block_v1, mbind, result_bind.
    checkpoint_step d chain_sync_v1_state.
  - unfold update_last_synced_block_v2, last_synced_block_v2, mbind, result_bind.
    checkpoint_step d chain_sync_v2_state.
Qed.

(** ** Witnesses *)

Module ChainSample.
Import AccountSample.

(** Stands for keccak-256 on the events of the samples. *)
Definition toy_hash (v a p d s : Z) (payload : list Z) : Z :=
  be_value (v :: a :: p :: d :: s :: payload).

Definition anchor (block : Z) : ChainAnchor := mkChainAnchor 99 block 2 0.
Definition event (parent block : Z) : RevisionEvent :=
  mkRevisionEvent 1 100 parent 20 1 0 [42] (anchor block).

Notation sample_ingest :=
  (ingest_chain_revision sample_clock sample_clock 1 toy_hash toy_open (Index := unit)
     (P := PressYPresenceProof)).
Notation sample_pending :=
  (ingest_pending_chain_revision sample_clock sample_clock 1 toy_hash toy_open (Index := unit)
     (P := PressYPresenceProof)).
Notation sample_v2 :=
  (ingest_v2_revision_if_honored sample_clock sample_clock 1 toy_hash toy_open (Index := unit)
     (P := PressYPresenceProof)).

(** A published row signed by 11, one signed by 12, an anchored row without a
    signer and a local one. *)
Definition chain_row (parent at_ms block : Z) (signer : option Z) : RevisionRow :=
  mkRevisionRow 100 parent 20 1 at_ms [42] 0 false 0 (Some (mkStoredAnchor 99 block 2)) None Finalized
    None None signer false.

Definition signed_db : Database :=
  mkDatabase {[ 100 := mkAccountRow 10 40 false 3 false ]}
    {[ 3 := chain_row GENESIS_PARENT 10 5 (Some 11); 4 := chain_row 3 20 6 (Some 12);
       5 := chain_row 3 30 7 None; 6 := leaf_row 3 40 50 ]}
    ∅ ∅ None None None 0.

Lemma revocation_pass_witness :
  (reevaluate_revocation_against_set [11] signed_db).2 = 2
  /\ (revoked <$> t_revisions (reevaluate_revocation_against_set [11] signed_db).1 !! 3) = Some false
  /\ reevaluate_revocation_against_set [11] (reevaluate_revocation_against_set [11] signed_db).1
     = ((reevaluate_revocation_against_set [11] signed_db).1, 0).
Proof.
  pose proof (revocation_pass [11] signed_db) as H. split_and!; [vm_compute; reflexivity..|].
  destruct (reevaluate_revocation_against_set [11] signed_db) as [d' n]. apply H.
Defined.

(** One finalized row and two pending ones, observed at 88 and 95. *)
Definition pending_db : Database :=
  mkDatabase {[ 100 := mkAccountRow 10 40 false 3 false ]}
    {[ 3 := chain_row GENESIS_PARENT 10 90 None;
       4 := set_row_observed 88 1 (set_row_status Pending (chain_row 3 20 88 None));
       5 := set_row_observed 95 1 (set_row_status Pending (chain_row 3 30 95 None)) ]}
    ∅ ∅ None None None 0.

Lemma reorg_window_witness :
  exists d1 n1 d2 n2, promote_finalized_revisions 100 pending_db = Ok (d1, n1)
    /\ rollback_pending_revisions_in_range 80 99 d1 = Ok (d2, n2)
    /\ n1 = 1 /\ n2 = 1 /\ t_revisions d2 !! 5 = None.
Proof.
  destruct (reorg_window 100 80 99 pending_db) as (d1 & n1 & d2 & n2 & H1 & H2 & Hrow & _ & _ & _);
    [vm_compute; split; discriminate..|].
  exists d1, n1, d2, n2. split; [exact H1|]. split; [exact H2|].
  assert (H5 : t_revisions d2 !! 5 = None).
  { apply (Hrow 5 (set_row_observed 95 1 (set_row_status Pending (chain_row 3 30 95 None)))).
    - vm_compute. reflexivity.
    - split; [reflexivity|]. exists 95. split; [reflexivity|]. vm_compute.
      split; [reflexivity|]. split; discriminate. }
  vm_compute in H1. injection H1 as <- <-. vm_compute in H2. injection H2 as <- <-.
  split_and!; [reflexivity|reflexivity|exact H5].
Defined.

Lemma ingest_append_only_witness :
  exists w', sample_ingest (event 3 8) (world_with signed_db) = (Ok Inserted, w')
    /\ is_account_frozen (db (vault w')) 100 = true.
Proof.
  destruct (sample_ingest (event 3 8) (world_with signed_db)) as [r w'] eqn:Hr.
  assert (Hok : r = Ok Inserted).
  { change r with (fst (r, w')). rewrite <- Hr. vm_compute. reflexivity. }
  pose proof (ingest_append_only sample_clock sample_clock 1 toy_hash toy_open _ _ _ _ Hr) as H.
  rewrite Hok in H. exists w'. rewrite Hok. split; [reflexivity|]. apply H.
Defined.

Lemma ingest_idempotent_witness :
  exists w1 w2, sample_ingest (event 3 8) (world_with signed_db) = (Ok Inserted, w1)
    /\ sample_ingest (event 3 8) w1 = (Ok AlreadyPresent, w2) /\ db (vault w2) = db (vault w1).
Proof.
  destruct (sample_ingest (event 3 8) (world_with signed_db)) as [r w1] eqn:Hr.
  assert (Hok : r = Ok Inserted).
  { change r with (fst (r, w1)). rewrite <- Hr. vm_compute. reflexivity. }
  subst r.
  destruct (ingest_idempotent sample_clock sample_clock 1 toy_hash toy_open _ _ _ _ Hr)
    as (w2 & H2 & Hd).
  exists w1, w2. split_and!; [reflexivity|exact H2|exact Hd].
Defined.

(** A signer outside the set does nothing; one inside is stamped. *)
Lemma honor_gate_witness :
  (exists w', sample_v2 (event 3 8) 13 [11; 12] (world_with signed_db) = (Ok None, w')
     /\ w' = world_with signed_db)
  /\ is_ok (sample_v2 (event 3 8) 12 [11; 12] (world_with signed_db)).1 = true.
Proof.
  split; [|vm_compute; reflexivity].
  destruct (sample_v2 (event 3 8) 13 [11; 12] (world_with signed_db)) as [r w'] eqn:Hr.
  destruct (honor_gate sample_clock sample_clock 1 toy_hash toy_open _ _ _ _ _ _ Hr) as [-> ->].
  eexists. split; reflexivity.
Defined.

Lemma reingest_unfinalizes_witness :
  exists w', sample_pending (event GENESIS_PARENT 5) 30 7 (world_with signed_db)
             = (Ok AlreadyPresent, w')
    /\ exists d2 n, rollback_pending_revisions_in_range 30 30 (db (vault w')) = Ok (d2, n)
       /\ t_revisions d2 !! 3 = None.
Proof.
  destruct (reingest_unfinalizes sample_clock sample_clock 1 toy_hash toy_open
    (event GENESIS_PARENT 5) (mkStoredAnchor 99 5 2) 3 (chain_row GENESIS_PARENT 10 5 (Some 11)) 30 7
    (world_with signed_db) (Index := unit) (P := PressYPresenceProof))
    as (w' & Hr & _ & _ & d2 & n & H2 & H3 & _);
    [reflexivity|reflexivity|reflexivity|reflexivity|reflexivity|vm_compute; split; discriminate|].
  exists w'. split; [exact Hr|]. exists d2, n. split; [exact H2|exact H3].
Defined.

Lemma checkpoints_monotone_witness :
  exists d', advance_last_pulled_block 7 signed_db = Ok d' /\ last_pulled_block d' = Ok 7
    /\ advance_last_pulled_block 6 d' = Err (Corrupted BackwardCheckpoint).
Proof.
  destruct (checkpoints_monotone 7 signed_db ltac:(discriminate)) as [H _].
  destruct (advance_last_pulled_block 7 signed_db) as [d'|e] eqn:E; [|vm_compute in E; discriminate E].
  exists d'. split; [reflexivity|]. split; [apply H|].
  vm_compute in E. injection E as <-. vm_compute. reflexivity.
Defined.
End ChainSample.
