(* ===== verification/PublishQueue.v ===== *)
(** * The publish queue

    The [dirty_accounts] markers of crates/pangolin-store (vault.rs, dirty.rs):
    stamping, clearing and listing them, the per-account coalescing pass, the
    batch window and the queue snapshot, and the row a publish reads. *)

From Stdlib Require Import Ascii.
From S2P Require Import Prelude StoreError RevisionGraph SessionPolicy Database AccountOps ChainIngest.

(** [dirty::DirtyEntry]. *)
Record DirtyEntry : Type := mkDirtyEntry {
  de_account : AccountId;
  de_revision : RevisionId;
  marked_at : Z
}.

#[export] Instance DirtyEntry_eq_dec : EqDecision DirtyEntry.
Proof. solve_decision. Defined.

(** [dirty::RevisionPublishPayload]. *)
Record RevisionPublishPayload : Type := mkPublishPayload {
  pub_parent_revision : RevisionId;
  pub_schema_version : Z;
  pub_enc_payload : list Z
}.

Record PublishQueueState : Type := mkPublishQueueState {
  queue_window_started_at : option Z;
  dirty_count : Z;
  dirty_byte_size : Z;
  blocked_on_balance : bool
}.

(** [ORDER BY marked_at ASC, account_id ASC, revision_id ASC]. *)
Definition entry_le (a b : DirtyEntry) : Prop :=
  marked_at a < marked_at b
  \/ marked_at a = marked_at b
     /\ pair_le (de_account a, de_revision a) (de_account b, de_revision b).

#[export] Instance entry_le_dec : RelDecision entry_le.
Proof. intros a b. unfold entry_le. apply _. Defined.

Definition entry_of (e : Z * Z * Z) : DirtyEntry := mkDirtyEntry e.1.1 e.1.2 e.2.

Definition list_dirty (d : Database) : list DirtyEntry :=
  merge_sort entry_le (entry_of <$> map_to_list (dirty_accounts d)).

(** [DELETE FROM dirty_accounts WHERE account_id = ? AND revision_id = ?]: the
    database and the number of rows removed. *)
Definition delete_dirty (id : AccountId) (rid : RevisionId) (d : Database) : Database * Z :=
  match dirty_accounts d !! (id, rid) with
  | None => (d, 0)
  | Some _ => (set_dirty (delete (id, rid) (dirty_accounts d)) d, 1)
  end.

(** ** Coalescing *)

Definition group_by_account (dirty : list DirtyEntry) : gmap Z (list RevisionId) :=
  foldl (fun m e => <[de_account e := default [] (m !! de_account e) ++ [de_revision e]]> m)
    ∅ dirty.

Definition prune_marker (id : AccountId) (head_id : RevisionId) (acc : Database * Z)
    (rev : RevisionId) : Database * Z :=
  let '(d, pruned) := acc in
  if bool_decide (rev = head_id) then acc
  else let '(d', affected) := delete_dirty id rev d in
       (d', saturating_add U64_MAX pruned affected).

Definition prune_account (acc : Database * Z) (g : AccountId * list RevisionId) : Database * Z :=
  let '(d, pruned) := acc in
  if Z.of_nat (length g.2) <? 2 then acc
  else match account_identities d !! g.1 with
       | None => acc
       | Some a => foldl (prune_marker g.1 (head_revision_id a)) acc g.2
       end.

(** The transaction of [coalesce_dirty_markers]; the [HashMap] is walked in
    some order. *)
Definition coalesce (d : Database) : Database * Z :=
  foldl prune_account (d, 0) (map_to_list (group_by_account (list_dirty d))).

(** ** The handlers *)

Section handlers.
Context {Snapshot Key Index P : Type}.
Context (clock wall : nat -> Z).

Notation W := (World Database Snapshot Key Index P).
Notation vop := (op W StoreError).

Definition mark_dirty (id : AccountId) (rid : RevisionId) : vop unit :=
  maybe_expire_active_session clock ≫= fun _ =>
  refuse_if_frozen id ≫= fun _ =>
  now ← current_unix_ms wall;
  d ← get_db;
  let '(d', affected) := insert_dirty id rid now d in
  put_db d' ≫= fun _ =>
  when affected (note_dirty_marker_stamped now) ≫= fun _ =>
  touch_session clock.

Definition clear_dirty (id : AccountId) (rid : RevisionId) : vop unit :=
  maybe_expire_active_session clock ≫= fun _ =>
  d ← get_db;
  put_db (delete_dirty id rid d).1 ≫= fun _ =>
  touch_session clock.

Definition coalesce_dirty_markers : vop Z :=
  d ← get_db;
  if bool_decide (list_dirty d = []) then mret 0
  else let '(d', pruned) := coalesce d in put_db d' ≫= fun _ => mret pruned.

Definition set_flush_enabled (on : bool) (a : ActiveState Snapshot Key Index) :
    ActiveState Snapshot Key Index :=
  mkActiveState (vdk a) (chain a) (cache a) (search_index a) (evm_wallet a) (device_key a)
    (last_presence_at a) (requires_upgrade a) (window_started_at_unix_ms a) on
    (last_flush_failed_balance a) (last_pull_at_unix_ms a).

Definition enable_window_elapsed_flush (on : bool) : vop unit :=
  require_active ≫= fun _ => map_active (set_flush_enabled on).

(** [SELECT LENGTH(enc_payload)], summed with saturation. *)
Definition queued_bytes (d : Database) : Z :=
  foldl (fun acc e =>
    saturating_add U64_MAX acc
      match t_revisions d !! de_revision e with
      | Some r => if bool_decide (row_account r = de_account e)
                  then Z.of_nat (length (enc_payload r)) else 0
      | None => 0
      end) 0 (list_dirty d).

Definition publish_queue_state (v : Vault Database Snapshot Key Index) : PublishQueueState :=
  mkPublishQueueState
    (active v ≫= window_started_at_unix_ms)
    (Z.of_nat (length (list_dirty (db v))))
    (queued_bytes (db v))
    match active v with Some a => last_flush_failed_balance a | None => false end.

Definition read_revision_row (id : AccountId) (rid : RevisionId) (d : Database) :
    store_result RevisionPublishPayload :=
  match t_revisions d !! rid with
  | None => Err RevisionNotFound
  | Some r =>
      if bool_decide (row_account r = id) then
        schema ← ok_or (u8_try_from (row_schema r)) (Corrupted IntegerOverflow);
        Ok (mkPublishPayload (row_parent r) schema (enc_payload r))
      else Err RevisionNotFound
  end.

Definition read_revision_for_publish (id : AccountId) (rid : RevisionId) :
    vop RevisionPublishPayload :=
  maybe_expire_active_session clock ≫= fun _ =>
  d ← get_db; lift (read_revision_row id rid d).
End handlers.

(** ** The batch window *)

Definition BATCH_WINDOW_SECS_DEFAULT : Z := 30.
Definition BATCH_WINDOW_SECS_MIN : Z := 1.
Definition BATCH_WINDOW_SECS_MAX : Z := 300.

(** [str::parse::<u64>]: an optional plus sign and at least one decimal digit,
    within the type. *)
Definition digit (c : ascii) : option Z :=
  let n := Z.of_N (N_of_ascii c) - 48 in if in_range 0 9 n then Some n else None.

Fixpoint parse_digits (s : string) (acc : Z) : option Z :=
  match s with
  | EmptyString => Some acc
  | String c r =>
      match digit c with
      | None => None
      | Some n => v ← u64_try_from (acc * 10 + n); parse_digits r v
      end
  end.

Definition parse_u64 (s : string) : option Z :=
  let body := match s with String "+" r => r | _ => s end in
  match body with EmptyString => None | _ => parse_digits body 0 end.

Definition clamp (lo hi x : Z) : Z := if x <? lo then lo else if hi <? x then hi else x.

Definition resolve_batch_window_secs_from (raw : option string) : Z :=
  clamp BATCH_WINDOW_SECS_MIN BATCH_WINDOW_SECS_MAX
    (default BATCH_WINDOW_SECS_DEFAULT (raw ≫= parse_u64)).

(** ** The queue as a list *)

#[export] Instance entry_le_total : Total entry_le.
Proof. intros [a r t] [a' r' t']. unfold entry_le, pair_le. simpl. lia. Qed.
#[export] Instance entry_le_trans : Transitive entry_le.
Proof. intros [] [] []. unfold entry_le, pair_le. simpl. lia. Qed.

#[export] Instance entry_of_inj : Inj (=) (=) entry_of.
Proof. intros [[a r] t] [[a' r'] t']. unfold entry_of. simpl. by intros [= -> -> ->]. Qed.

Lemma elem_of_list_dirty d e :
  e ∈ list_dirty d <-> dirty_accounts d !! (de_account e, de_revision e) = Some (marked_at e).
Proof.
  unfold list_dirty. rewrite elem_of_merge_sort, list_elem_of_fmap. split.
  - intros ([[a r] t] & -> & Hin%elem_of_map_to_list). done.
  - intros Hin. exists (de_account e, de_revision e, marked_at e). split; [by destruct e|].
    by apply elem_of_map_to_list.
Qed.

Lemma NoDup_list_dirty d : NoDup (list_dirty d).
Proof.
  unfold list_dirty. rewrite NoDup_merge_sort. apply (NoDup_fmap_2 entry_of), NoDup_map_to_list.
Qed.

(** At most one entry per pair: the primary key of the table. *)
Lemma list_dirty_key d e e' :
  e ∈ list_dirty d -> e' ∈ list_dirty d -> de_account e = de_account e' ->
  de_revision e = de_revision e' -> e = e'.
Proof.
  rewrite !elem_of_list_dirty. destruct e, e'; simpl. intros H1 H2 -> ->. congruence.
Qed.

(** The markers of one account, in queue order. *)
Definition markers (d : Database) (id : AccountId) : list RevisionId :=
  de_revision <$> filter (fun e => de_account e = id) (list_dirty d).

Lemma elem_of_markers d id rid :
  rid ∈ markers d id <-> is_Some (dirty_accounts d !! (id, rid)).
Proof.
  unfold markers. rewrite list_elem_of_fmap. setoid_rewrite list_elem_of_filter.
  setoid_rewrite elem_of_list_dirty. split.
  - intros (e & -> & <- & He). by eexists.
  - intros [t Ht]. by exists (mkDirtyEntry id rid t).
Qed.

Lemma NoDup_markers d id : NoDup (markers d id).
Proof.
  unfold markers. apply NoDup_fmap_2_strong; [|apply NoDup_filter, NoDup_list_dirty].
  intros e e' [H1 H2]%list_elem_of_filter [H3 H4]%list_elem_of_filter Heq.
  apply (list_dirty_key d); congruence.
Qed.

Lemma group_by_account_lookup dirty id :
  group_by_account dirty !! id =
  (let l := de_revision <$> filter (fun e => de_account e = id) dirty in
   if decide (l = []) then None else Some l).
Proof.
  unfold group_by_account. induction dirty as [|e l IH] using rev_ind; [done|].
  rewrite foldl_snoc. cbv zeta in *. rewrite filter_app, fmap_app, filter_cons. simpl.
  destruct (decide (de_account e = id)) as [<-|Hne].
  - rewrite lookup_insert_eq, IH. destruct (decide (_ = [])) as [->|Hn]; simpl.
    + done.
    + rewrite decide_False; [done|]. by intros [_ ?]%app_nil.
  - rewrite lookup_insert_ne by done. by rewrite IH, app_nil_r.
Qed.

(** ** Coalescing: which markers survive *)

Lemma delete_dirty_spec id rid d :
  let '(d', n) := delete_dirty id rid d in
  dirty_accounts d' = delete (id, rid) (dirty_accounts d)
  /\ set_dirty ∅ d' = set_dirty ∅ d
  /\ n + Z.of_nat (size (dirty_accounts d')) = Z.of_nat (size (dirty_accounts d)) /\ 0 <= n.
Proof.
  unfold delete_dirty. destruct (dirty_accounts d !! (id, rid)) as [t|] eqn:E.
  - split_and!; [done|done| |done]. simpl. rewrite map_size_delete, E.
    assert (size (dirty_accounts d) <> 0%nat); [|lia].
    intros Hs%map_size_empty_inv. rewrite Hs in E. by rewrite lookup_empty in E.
  - split_and!; [by rewrite delete_id|done|lia|done].
Qed.

(** What a partial run of the pass has done: the markers in [gone] deleted and
    counted, nothing else touched. *)
Record pruned_to (d : Database) (gone : Z * Z -> Prop) (acc : Database * Z) : Prop := {
  pt_kept : forall k, ~ gone k -> dirty_accounts acc.1 !! k = dirty_accounts d !! k;
  pt_gone : forall k, gone k -> dirty_accounts acc.1 !! k = None;
  pt_rest : set_dirty ∅ acc.1 = set_dirty ∅ d;
  pt_count : acc.2 = Z.min U64_MAX
    (Z.of_nat (size (dirty_accounts d)) - Z.of_nat (size (dirty_accounts acc.1)));
  pt_size : (size (dirty_accounts acc.1) <= size (dirty_accounts d))%nat
}.

Lemma pruned_to_iff d (g g' : Z * Z -> Prop) acc :
  (forall k, g k <-> g' k) -> pruned_to d g acc -> pruned_to d g' acc.
Proof.
  intros Hg [H1 H2 H3 H4 H5]. split; [intros k Hk|intros k Hk|done|done|done].
  - apply H1. by rewrite Hg.
  - apply H2. by rewrite Hg.
Qed.

Lemma prune_marker_spec d gone id h acc rev :
  pruned_to d gone acc ->
  pruned_to d (fun k => gone k \/ k = (id, rev) /\ rev <> h) (prune_marker id h acc rev).
Proof.
  intros [H1 H2 H3 H4 H5]. destruct acc as [d1 n]. simpl in *.
  case_bool_decide as Hh; [by split; simpl; naive_solver|].
  pose proof (delete_dirty_spec id rev d1) as Hd.
  destruct (delete_dirty id rev d1) as [d2 m]. destruct Hd as (Hd & Hr & Hs & Hm).
  split; simpl; [| |by rewrite Hr|unfold saturating_add; rewrite H4; lia|lia].
  - intros k Hk. rewrite Hd, lookup_delete_ne by naive_solver. apply H1. naive_solver.
  - intros k [Hk|[-> _]]; rewrite Hd; [|by rewrite lookup_delete_eq].
    destruct (decide ((id, rev) = k)) as [->|]; [by rewrite lookup_delete_eq|].
    rewrite lookup_delete_ne by done. by apply H2.
Qed.

Lemma prune_markers_spec d gone id h acc revs :
  pruned_to d gone acc ->
  pruned_to d (fun k => gone k \/ k.1 = id /\ k.2 ∈ revs /\ k.2 <> h)
    (foldl (prune_marker id h) acc revs).
Proof.
  revert gone acc. induction revs as [|rev revs IH]; intros gone acc Hacc.
  - eapply pruned_to_iff; [|exact Hacc]. intros k. set_solver.
  - simpl. eapply pruned_to_iff; [|apply IH, prune_marker_spec, Hacc].
    intros [i r]. simpl. set_solver.
Qed.

Definition doomed (d : Database) (id : AccountId) (revs : list RevisionId) (k : Z * Z) : Prop :=
  2 <= Z.of_nat (length revs) /\ k.1 = id /\ k.2 ∈ revs
  /\ exists a, account_identities d !! id = Some a /\ k.2 <> head_revision_id a.

Lemma prune_account_spec d gone acc id revs :
  pruned_to d gone acc ->
  pruned_to d (fun k => gone k \/ doomed d id revs k) (prune_account acc (id, revs)).
Proof.
  intros Hacc. destruct acc as [d1 n]. unfold prune_account. simpl.
  assert (Hacct : account_identities d1 = account_identities d).
  { pose proof (pt_rest _ _ _ Hacc) as Hr. simpl in Hr. by injection Hr. }
  destruct (Z.of_nat (length revs) <? 2) eqn:El; zbool.
  { eapply pruned_to_iff; [|exact Hacc]. intros k. unfold doomed. split; [by left|].
    intros [|[? _]]; [done|lia]. }
  rewrite Hacct. destruct (account_identities d !! id) as [a|] eqn:Ea.
  - eapply pruned_to_iff; [|apply prune_markers_spec, Hacc]. intros k. unfold doomed.
    rewrite Ea. naive_solver.
  - eapply pruned_to_iff; [|exact Hacc]. intros k. unfold doomed. rewrite Ea. naive_solver.
Qed.

Lemma prune_accounts_spec d gone acc groups :
  pruned_to d gone acc ->
  pruned_to d (fun k => gone k \/ exists g, g ∈ groups /\ doomed d g.1 g.2 k)
    (foldl prune_account acc groups).
Proof.
  revert gone acc. induction groups as [|[id revs] groups IH]; intros gone acc Hacc.
  - eapply pruned_to_iff; [|exact Hacc]. set_solver.
  - simpl. eapply pruned_to_iff; [|apply IH, prune_account_spec, Hacc].
    intros k. set_solver.
Qed.

(** A marker survives when it is the only one of its account, when the
    account has no row, or when it is at the head pointer. *)
Definition survives (d : Database) (id : AccountId) (rid : RevisionId) : Prop :=
  (length (markers d id) < 2)%nat
  \/ forall a, account_identities d !! id = Some a -> rid = head_revision_id a.

Lemma coalesce_pruned d :
  pruned_to d (fun k => is_Some (dirty_accounts d !! k) /\ ~ survives d k.1 k.2) (coalesce d).
Proof.
  assert (H0 : pruned_to d (fun _ => False) (d, 0)) 
    by (split; simpl; try done; unfold U64_MAX; lia).
  eapply pruned_to_iff; [|apply (prune_accounts_spec d _ _ _ H0)].
  intros [id rid]. cbn [fst snd]. rewrite <- elem_of_markers. split.
  - intros [[]|([id' revs] & Hg%elem_of_map_to_list & Hlen & Hid & Hr & a & Ha & Hne)].
    cbn [fst snd] in *. subst id'. rewrite group_by_account_lookup in Hg. simpl in Hg.
    case_decide; [done|]. injection Hg as <-. split; [done|].
    intros [Hs|Hs]; [unfold markers in Hs; lia|]. by apply Hne, Hs.
  - intros [Hin Hs]. right. exists (id, markers d id). unfold survives in Hs. split.
    + apply elem_of_map_to_list. rewrite group_by_account_lookup. simpl. fold (markers d id).
      rewrite decide_False; [done|]. intros Hn. rewrite Hn in Hin. set_solver.
    + unfold doomed. cbn [fst snd]. destruct (account_identities d !! id) as [a|] eqn:Ea.
      * split_and!; [lia|done|done|]. exists a. split; [done|]. intros ->. apply Hs. right.
        by intros ? [= <-].
      * exfalso. apply Hs. by right.
Qed.

(** Coalescing.  Of the markers of one account the pass keeps the one at
    the account's head pointer, keeps a sole marker, keeps the markers of an
    account without a row, and deletes exactly the others; it touches nothing
    but the queue and returns the number of markers deleted. *)
Theorem coalesce_spec d :
  let '(d', n) := coalesce d in
  set_dirty ∅ d' = set_dirty ∅ d
  /\ (forall id rid, survives d id rid ->
        dirty_accounts d' !! (id, rid) = dirty_accounts d !! (id, rid))
  /\ (forall id rid, ~ survives d id rid -> dirty_accounts d' !! (id, rid) = None)
  /\ n = Z.min U64_MAX
       (Z.of_nat (size (dirty_accounts d)) - Z.of_nat (size (dirty_accounts d'))).
Proof.
  destruct (coalesce_pruned d) as [H1 H2 H3 H4 _]. destruct (coalesce d) as [d' n].
  cbn [fst snd] in *. split_and!; [done| | |done].
  - intros id rid Hs. apply H1. cbn [fst snd]. tauto.
  - intros id rid Hs. destruct (dirty_accounts d !! (id, rid)) as [t|] eqn:E.
    + by apply H2.
    + rewrite H1; [done|]. rewrite E. by intros [[] _].
Qed.

(** Coalescing can drop a whole branch.  When the head pointer of an
    account is not one of its markers, as after [clear_frozen] on a foreign
    revision, and the account has two or more markers, all of them go: none
    of the local revisions they name is queued any more, although no publish
    has happened and their rows are untouched. *)
Theorem coalesce_drops_branch d id a :
  account_identities d !! id = Some a -> dirty_accounts d !! (id, head_revision_id a) = None ->
  (2 <= length (markers d id))%nat ->
  let d' := (coalesce d).1 in
  (forall rid, dirty_accounts d' !! (id, rid) = None) /\ t_revisions d' = t_revisions d
  /\ markers d' id = [].
Proof.
  intros Ha Hh Hlen. destruct (coalesce_pruned d) as [H1 H2 H3 _ _]. simpl.
  assert (Hnone : forall rid, dirty_accounts (coalesce d).1 !! (id, rid) = None).
  { intros rid. destruct (dirty_accounts d !! (id, rid)) as [t|] eqn:E.
    - apply H2. cbn [fst snd]. split; [by rewrite E|]. unfold survives.
      intros [Hs|Hs]; [lia|]. rewrite (Hs a Ha) in E. congruence.
    - rewrite H1; [done|]. rewrite E. by intros [[] _]. }
  split_and!; [done|by injection H3|].
  apply elem_of_nil_inv. intros rid Hin%elem_of_markers. rewrite Hnone in Hin. by destruct Hin.
Qed.

(** ** Witnesses *)

Module QueueSample.
Import AccountSample ChainSample.

(** Two edits of one account, then a delete of another account's only marker:
    three markers, two of them of account 100, whose head is 7. *)
Definition edited_db : Database :=
  mkDatabase
    {[ 100 := mkAccountRow 10 10 false 7 false; 200 := mkAccountRow 10 10 false 9 false ]}
    ∅ {[ (100, 5) := 1; (100, 7) := 2; (200, 8) := 3 ]} ∅ None None None 0.

Lemma coalesce_spec_witness :
  (coalesce edited_db).2 = 1
  /\ dirty_accounts (coalesce edited_db).1 !! (200, 8) = Some 3
  /\ dirty_accounts (coalesce edited_db).1 !! (100, 5) = None.
Proof.
  pose proof (coalesce_spec edited_db) as H. split; [vm_compute; reflexivity|].
  destruct (coalesce edited_db) as [d' n]. destruct H as (_ & H1 & H2 & _). split.
  - refine (eq_trans (H1 200 8 _) _); [left; vm_compute; lia|reflexivity].
  - apply H2. intros [Hs|Hs]; [vm_compute in Hs; lia|].
    specialize (Hs (mkAccountRow 10 10 false 7 false) eq_refl). discriminate Hs.
Defined.

(** Two local edits, a foreign event that freezes the account, and a
    [clear_frozen] that picks the foreign head. *)
Definition foreign_id : Z := event_id toy_hash (event 3 8).
Definition picked : World Database Z Z unit PressYPresenceProof :=
  let w1 := (sample_update 100 6 (world_with linear_db)).2 in
  let w2 := (sample_update 100 7 w1).2 in
  let w3 := (sample_ingest (event 3 8) w2).2 in
  (clear_frozen sample_clock sample_clock 100 foreign_id w3).2.

Lemma coalesce_drops_branch_witness :
  length (markers (db (vault picked)) 100) = 2%nat
  /\ head_revision_id <$> account_identities (db (vault picked)) !! 100 = Some foreign_id
  /\ markers (coalesce (db (vault picked))).1 100 = [].
Proof.
  assert (Hlen : length (markers (db (vault picked)) 100) = 2%nat) by (vm_compute; reflexivity).
  assert (Ha : exists a, account_identities (db (vault picked)) !! 100 = Some a
                 /\ head_revision_id a = foreign_id
                 /\ dirty_accounts (db (vault picked)) !! (100, head_revision_id a) = None).
  { eexists. split; [vm_compute; reflexivity|]. split; vm_compute; reflexivity. }
  destruct Ha as (a & Ha & Hh & Hd). split; [exact Hlen|]. split.
  - rewrite Ha. simpl. f_equal. exact Hh.
  - apply (coalesce_drops_branch (db (vault picked)) 100 a Ha Hd). rewrite Hlen. constructor.
Defined.
End QueueSample.
