(* ===== verification/ChainAdapter.v ===== *)
(** * The chain adapter

    crates/pangolin-chain: the [ChainAdapter] trait as an interface, the laws
    its clients rely on ([ChainLog]), and the in-memory [MockChainAdapter] of
    mock.rs as an implementation that satisfies them.  The production adapter
    (base_sepolia.rs, JSON-RPC) is not modelled; a client theorem holds of it
    as far as it keeps the laws.

    Ed25519 signing and verification and keccak-256 are parameters. *)

From S2P Require Import Prelude StoreError RevisionGraph SessionPolicy Database AccountOps ChainIngest.

(** [types::SignedRevision]. *)
Record SignedRevision : Type := mkSignedRevision {
  sr_vault_id : Z;
  sr_account_id : AccountId;
  sr_parent_revision : RevisionId;
  sr_device_id : Z;
  sr_schema_version : Z;
  sr_enc_payload : list Z;
  sr_signature : Z
}.

Record BatchBalanceCheck : Type := mkBatchBalanceCheck {
  total_estimated_cost_wei : Z;
  current_balance_wei : Z
}.

Definition is_sufficient (c : BatchBalanceCheck) : bool :=
  total_estimated_cost_wei c <=? current_balance_wei c.

(** The variants of [ChainError] the in-memory adapter returns. *)
Inductive ChainError : Type := Rpc | Wallet | SignatureInvalid.

#[export] Instance ChainError_eq_dec : EqDecision ChainError.
Proof. solve_decision. Defined.

(** [trait ChainAdapter].  [C] is the adapter with the chain behind it; every
    call may find it changed. *)
Class ChainAdapter (C X : Type) := {
  publish : SignedRevision -> op C X ChainAnchor;
  pull_since : Z -> Z -> option Z -> op C X (list RevisionEvent);
  current_block : op C X Z;
  pre_flight_batch_balance : Z -> op C X (option BatchBalanceCheck)
}.

(** The event a submission becomes. *)
Definition event_of (s : SignedRevision) (anchor : ChainAnchor) : RevisionEvent :=
  mkRevisionEvent (sr_vault_id s) (sr_account_id s) (sr_parent_revision s) (sr_device_id s)
    (sr_schema_version s) (sequence anchor) (sr_enc_payload s) anchor.

Definition in_pull_range (vault_id from_block : Z) (until_block : option Z) (e : RevisionEvent) :
    bool :=
  bool_decide (ev_vault_id e = vault_id) && (from_block <? block_number (ev_anchor e))
  && (block_number (ev_anchor e) <=? default U64_MAX until_block).

(** What the callers rely on: the chain is an append-only log, a submission
    that returns an anchor is in it, and a successful pull returns exactly the
    events of the vault after [from_block] (exclusive) up to [until_block]. *)
Class ChainLog (C X : Type) `{!ChainAdapter C X} := {
  log : C -> list RevisionEvent;
  publish_grows : forall s c, log c `prefix_of` log (publish s c).2;
  pull_grows : forall v f u c, log c `prefix_of` log (pull_since v f u c).2;
  current_grows : forall c, log c `prefix_of` log (current_block c).2;
  pre_flight_grows : forall n c, log c `prefix_of` log (pre_flight_batch_balance n c).2;
  publish_logs : forall s c a c', publish s c = (Ok a, c') -> event_of s a ∈ log c';
  pull_complete : forall v f u c evs c' e, pull_since v f u c = (Ok evs, c') ->
    e ∈ evs <-> e ∈ log c' /\ in_pull_range v f u e = true
}.

(** ** Signing *)

Section signing.
Context {Device : Type} (verifying_key : Device -> Z) (sign : Device -> Z -> Z).
Context (canonical_hash : Z -> Z -> Z -> Z -> Z -> list Z -> Z).

Definition signed_hash (s : SignedRevision) : Z :=
  canonical_hash (sr_vault_id s) (sr_account_id s) (sr_parent_revision s) (sr_device_id s)
    (sr_schema_version s) (sr_enc_payload s).

Definition build_signed_revision (device : Device) (vault_id account_id parent_revision
    schema_version : Z) (enc_payload : list Z) : SignedRevision :=
  let device_id := verifying_key device in
  let hash := canonical_hash vault_id account_id parent_revision device_id schema_version
                enc_payload in
  mkSignedRevision vault_id account_id parent_revision device_id schema_version enc_payload
    (sign device hash).
End signing.

(** ** [MockChainAdapter] *)

Record MockChain : Type := mkMockChain {
  next_sequence : Z;
  next_block : Z;
  events : list RevisionEvent;
  disconnected : bool
}.

Definition mock_new : MockChain := mkMockChain 0 0 [] false.

Definition checked_add_u64 (a b : Z) : option Z := u64_try_from (a + b).

Definition event_le (a b : RevisionEvent) : Prop :=
  pair_le (block_number (ev_anchor a), log_index (ev_anchor a))
    (block_number (ev_anchor b), log_index (ev_anchor b)).

#[export] Instance event_le_dec : RelDecision event_le.
Proof. intros a b. unfold event_le. apply _. Defined.

Section mock.
Context (verify_signed_revision : SignedRevision -> bool).

(** The anchor the next submission gets: the low 8 bytes of the transaction
    hash are the sequence number. *)
Definition mock_anchor (sequence block_number : Z) : ChainAnchor :=
  mkChainAnchor sequence block_number 0 sequence.

Definition mock_publish (s : SignedRevision) : op MockChain ChainError ChainAnchor :=
  fun c =>
    if disconnected c then (Err Rpc, c)
    else if negb (verify_signed_revision s) then (Err SignatureInvalid, c)
    else
      match checked_add_u64 (next_sequence c) 1 with
      | None => (Err Wallet, c)
      | Some seq' =>
          match checked_add_u64 (next_block c) 1 with
          | None => (Err Wallet, mkMockChain seq' (next_block c) (events c) (disconnected c))
          | Some block' =>
              let anchor := mock_anchor (next_sequence c) block' in
              (Ok anchor,
               mkMockChain seq' block' (events c ++ [event_of s anchor]) (disconnected c))
          end
      end.

Definition mock_pull_since (vault_id from_block : Z) (until_block : option Z) :
    op MockChain ChainError (list RevisionEvent) :=
  fun c =>
    if disconnected c then (Err Rpc, c)
    else
      let upper := default U64_MAX until_block in
      (Ok (merge_sort event_le
             (filter (fun e => from_block < block_number (ev_anchor e)
                               /\ block_number (ev_anchor e) <= upper
                               /\ ev_vault_id e = vault_id) (events c))), c).

Definition mock_current_block : op MockChain ChainError Z :=
  fun c => if disconnected c then (Err Rpc, c) else (Ok (next_block c), c).

(** The default implementation of the trait. *)
Definition default_pre_flight (queued_count : Z) :
    op MockChain ChainError (option BatchBalanceCheck) := mret None.

#[export] Instance MockChainAdapter : ChainAdapter MockChain ChainError := {|
  publish := mock_publish;
  pull_since := mock_pull_since;
  current_block := mock_current_block;
  pre_flight_batch_balance := default_pre_flight
|}.

(** The in-memory chain keeps the laws. *)
#[export] Instance MockChainLog : @ChainLog MockChain ChainError MockChainAdapter.
Proof.
  refine {| log := events |}; simpl.
  - intros s c. unfold mock_publish. repeat case_match; simpl; try done. by apply prefix_app_r.
  - intros v f u c. unfold mock_pull_since. by case_match.
  - intros c. unfold mock_current_block. by case_match.
  - done.
  - intros s c a c'. unfold mock_publish. repeat case_match; try done.
    intros [= <- <-]. simpl. apply elem_of_app. right. left.
  - intros v f u c evs c' e. unfold mock_pull_since. case_match; [done|]. intros [= <- <-].
    rewrite elem_of_merge_sort, list_elem_of_filter. unfold in_pull_range.
    rewrite !andb_true_iff, bool_decide_eq_true, Z.ltb_lt, Z.leb_le. tauto.
Defined.
End mock.
