(* ===== verification/Sync.v ===== *)
(** * Publishing and pulling

    The orchestration over a chain adapter: [publish_one] and
    [publish_all_for_vault] (crates/pangolin-store/src/publish.rs),
    [flush_publish_queue] (vault.rs) and the chunked [pull_all]
    (apps/cli/src/sync.rs).  A call runs on the vault's world and the adapter
    together; the awaits are calls of the adapter, which may find the chain
    changed. *)

From S2P Require Import Prelude StoreError RevisionGraph SessionPolicy Database AccountOps.
From S2P Require Import ChainIngest PublishQueue ChainAdapter.

(** [PublishOutcome]; the error string of [Failed] is the error. *)
Inductive PublishOneError (X : Type) : Type :=
| PublishStore (e : StoreError)
| PublishChain (x : X).
Arguments PublishStore {X} e.
Arguments PublishChain {X} x.

Inductive PublishOutcome (X : Type) : Type :=
| Published (anchor : ChainAnchor) (was_already_on_chain : bool)
| PublishFailed (error : PublishOneError X).
Arguments Published {X} anchor was_already_on_chain.
Arguments PublishFailed {X} error.

Record PublishOutcomeRow (X : Type) : Type := mkOutcomeRow {
  out_account : AccountId;
  out_revision : RevisionId;
  outcome : PublishOutcome X
}.
Arguments mkOutcomeRow {X} out_account out_revision outcome.
Arguments out_account {X} p.
Arguments out_revision {X} p.
Arguments outcome {X} p.

Definition is_published {X} (o : PublishOutcome X) : bool :=
  match o with Published _ _ => true | PublishFailed _ => false end.

Definition published_count {X} (rows : list (PublishOutcomeRow X)) : Z :=
  Z.of_nat (length (filter (fun r => is_published (outcome r) = true) rows)).
Definition failed_count {X} (rows : list (PublishOutcomeRow X)) : Z :=
  Z.of_nat (length (filter (fun r => is_published (outcome r) = false) rows)).
Definition all_ok {X} (rows : list (PublishOutcomeRow X)) : bool := failed_count rows =? 0.

Inductive BatchFlushError (X : Type) : Type :=
| BalanceInsufficientForBatch (needed available queued_count : Z)
| FlushChainError (x : X)
| FlushStore (e : StoreError)
| NoActiveSession.
Arguments BalanceInsufficientForBatch {X} needed available queued_count.
Arguments FlushChainError {X} x.
Arguments FlushStore {X} e.
Arguments NoActiveSession {X}.

(** [coalesced_markers_pruned] and [publish_report]. *)
Record BatchFlushReport (X : Type) : Type := mkBatchFlushReport {
  coalesced_markers_pruned : Z;
  publish_report : list (PublishOutcomeRow X)
}.
Arguments mkBatchFlushReport {X} _ _.
Arguments coalesced_markers_pruned {X} _.
Arguments publish_report {X} _.

(** The errors [pull_all] passes on, and its own refusal of an event whose
    device id is not a verifying key. *)
Inductive PullError (X : Type) : Type :=
| PullStore (e : StoreError)
| PullChain (x : X)
| NonCanonicalDevice.
Arguments PullStore {X} e.
Arguments PullChain {X} x.
Arguments NonCanonicalDevice {X}.

Record PullReport : Type := mkPullReport {
  applied : Z;
  forks : list (AccountId * list RevisionId);
  pull_frozen : list AccountId;
  pull_last_block : Z
}.

Definition PULL_CHUNK_SIZE : Z := 8000.

Section sync.
Context {Snapshot Key Index P C X Device : Type} `{!ChainAdapter C X}.
Context (clock wall : nat -> Z) (vault_id : Z).
Context (verifying_key : Device -> Z) (sign : Device -> Z -> Z).
Context (canonical_hash : Z -> Z -> Z -> Z -> Z -> list Z -> Z)
        (open_payload : Key -> Z -> list Z -> Aad -> store_result (DecodedPayload Snapshot))
        (canonical_device : Z -> bool).

Notation W := (World Database Snapshot Key Index P).
Notation vop := (op W StoreError).
Notation S2 := (W * C)%type.
Notation ingest := (ingest_chain_revision clock wall vault_id canonical_hash open_payload
                      : RevisionEvent -> vop IngestOutcome).
Notation eid := (event_id canonical_hash).

(** A vault call and an adapter call inside the orchestration. *)
Definition in_vault {E A} (f : StoreError -> E) (m : vop A) : op S2 E A :=
  fun s => let '(r, w) := m s.1 in (map_err f r, (w, s.2)).
Definition in_chain {E A} (f : X -> E) (m : op C X A) : op S2 E A :=
  fun s => let '(r, c) := m s.2 in (map_err f r, (s.1, c)).
(** The [Result] of a call as a value. *)
Definition attempt {E F A} (m : op S2 E A) : op S2 F (result E A) :=
  fun s => let '(r, s') := m s in (Ok r, s').

(** ** Publishing *)

(** The loop over the pulled events. *)
Definition find_on_chain (our_hash : Z) (chain_view : option (list RevisionEvent)) :
    option RevisionEvent :=
  chain_view ≫= List.find (fun ev => bool_decide (eid ev = our_hash)).

Definition signed_for (device : Device) (entry : DirtyEntry) (p : RevisionPublishPayload) :
    SignedRevision :=
  build_signed_revision verifying_key sign canonical_hash device vault_id (de_account entry)
    (pub_parent_revision p) (pub_schema_version p) (pub_enc_payload p).

Definition commit_published (entry : DirtyEntry) (anchor : ChainAnchor) :
    op S2 (PublishOneError X) unit :=
  in_vault PublishStore (mark_published clock (de_revision entry) anchor) ≫= fun _ =>
  in_vault PublishStore (clear_dirty clock (de_account entry) (de_revision entry)).

Definition publish_one (device : Device) (entry : DirtyEntry)
    (chain_view : option (list RevisionEvent)) : op S2 (PublishOneError X) (PublishOutcome X) :=
  payload ← in_vault PublishStore
              (read_revision_for_publish clock (de_account entry) (de_revision entry));
  let signed := signed_for device entry payload in
  match find_on_chain (signed_hash canonical_hash signed) chain_view with
  | Some ev =>
      commit_published entry (ev_anchor ev) ≫= fun _ => mret (Published (ev_anchor ev) true)
  | None =>
      anchor ← in_chain PublishChain (publish signed);
      commit_published entry anchor ≫= fun _ => mret (Published anchor false)
  end.

Definition outcome_row (entry : DirtyEntry)
    (r : result (PublishOneError X) (PublishOutcome X)) : PublishOutcomeRow X :=
  mkOutcomeRow (de_account entry) (de_revision entry)
    match r with Ok o => o | Err e => PublishFailed e end.

Fixpoint publish_entries (device : Device) (chain_view : option (list RevisionEvent))
    (dirty : list DirtyEntry) : op S2 StoreError (list (PublishOutcomeRow X)) :=
  match dirty with
  | [] => mret []
  | entry :: rest =>
      r ← attempt (publish_one device entry chain_view);
      rows ← publish_entries device chain_view rest;
      mret (outcome_row entry r :: rows)
  end.

Definition ok_option {E A} (r : result E A) : option A :=
  match r with Ok a => Some a | Err _ => None end.

Definition publish_all_for_vault (device : Device) :
    op S2 StoreError (list (PublishOutcomeRow X)) :=
  d ← in_vault id get_db;
  last_pulled ← lift (last_pulled_block d);
  pulled ← attempt (in_chain id (pull_since vault_id last_pulled None));
  publish_entries device (ok_option pulled) (list_dirty d).

Definition set_flush_failed (b : bool) (a : ActiveState Snapshot Key Index) :
    ActiveState Snapshot Key Index :=
  mkActiveState (vdk a) (chain a) (cache a) (search_index a) (evm_wallet a) (device_key a)
    (last_presence_at a) (requires_upgrade a) (window_started_at_unix_ms a)
    (window_elapsed_flush_enabled a) b (last_pull_at_unix_ms a).

Definition flush_publish_queue (device : Device) (force : bool) :
    op S2 (BatchFlushError X) (BatchFlushReport X) :=
  v ← in_vault FlushStore (gets vault);
  match active v with
  | None => throw NoActiveSession
  | Some _ =>
      pruned ← in_vault FlushStore coalesce_dirty_markers;
      d ← in_vault FlushStore get_db;
      let queued_count := Z.of_nat (length (list_dirty d)) in
      check ← in_chain FlushChainError (pre_flight_batch_balance queued_count);
      match check with
      | Some b =>
          if is_sufficient b then mret tt
          else in_vault FlushStore (map_active (set_flush_failed true)) ≫= fun _ =>
               throw (BalanceInsufficientForBatch (total_estimated_cost_wei b)
                        (current_balance_wei b) queued_count)
      | None => mret tt
      end ≫= fun _ =>
      report ← (fun s => let '(r, s') := publish_all_for_vault device s in
                         (map_err FlushStore r, s'));
      in_vault FlushStore (map_active (fun a => set_flush_failed false (set_window None a)))
        ≫= fun _ =>
      mret (mkBatchFlushReport pruned report)
  end.

(** ** Pulling *)

Fixpoint ingest_events (evs : list RevisionEvent) (n : Z) (touched : gset Z) :
    op S2 (PullError X) (Z * gset Z) :=
  match evs with
  | [] => mret (n, touched)
  | ev :: rest =>
      if canonical_device (ev_device_id ev) then
        o ← in_vault PullStore (ingest ev);
        ingest_events rest (match o with Inserted => n + 1 | AlreadyPresent => n end)
          ({[ ev_account_id ev ]} ∪ touched)
      else throw NonCanonicalDevice
  end.

Fixpoint prune_touched (ids : list AccountId) : vop unit :=
  match ids with
  | [] => mret tt
  | id :: rest =>
      best_effort (prune_orphan_pending_merges clock id) ≫= fun _ => prune_touched rest
  end.

Definition advance_checkpoint (b : Z) : vop unit :=
  d ← get_db; d' ← lift (advance_last_pulled_block b d); put_db d'.

(** The body of the chunk loop. *)
Definition pull_chunk (chunk_start chunk_end n : Z) (touched : gset Z) :
    op S2 (PullError X) (Z * gset Z) :=
  evs ← in_chain PullChain (pull_since vault_id chunk_start (Some chunk_end));
  '(n', touched') ← ingest_events evs n touched;
  in_vault PullStore (advance_checkpoint chunk_end) ≫= fun _ =>
  in_vault PullStore (prune_touched (elements touched')) ≫= fun _ => mret (n', touched').

(** The chunk loop; [None] is the out-of-fuel value. *)
Fixpoint pull_chunks (fuel : nat) (chunk_start chain_head n : Z) (touched : gset Z) :
    op S2 (PullError X) (option (Z * gset Z * Z)) :=
  if chunk_start <? chain_head then
    match fuel with
    | O => mret None
    | S fuel' =>
        let chunk_end := Z.min (saturating_add U64_MAX chunk_start PULL_CHUNK_SIZE) chain_head in
        '(n', touched') ← pull_chunk chunk_start chunk_end n touched;
        pull_chunks fuel' chunk_end chain_head n' touched'
    end
  else mret (Some (n, touched, chunk_start)).

Definition fork_summaries (ids : list AccountId) (d : Database) :
    store_result (list (AccountId * list RevisionId)) :=
  rows ← collect ((fun id => heads ← account_heads d id; Ok (id, heads)) <$> ids);
  Ok (filter (fun r => 1 < Z.of_nat (length r.2)) rows).

Definition pull_all (from_block_override until_block_override : option Z) :
    op S2 (PullError X) (option PullReport) :=
  starting_checkpoint ←
    match from_block_override with
    | Some b => mret b
    | None => d ← in_vault PullStore get_db;
              in_vault PullStore (lift (last_pulled_block d))
    end;
  chain_head ←
    match until_block_override with
    | Some b => mret b
    | None => in_chain PullChain current_block
    end;
  if chain_head <=? starting_checkpoint then
    mret (Some (mkPullReport 0 [] [] starting_checkpoint))
  else
    r ← pull_chunks (Z.to_nat (chain_head - starting_checkpoint)) starting_checkpoint chain_head
          0 ∅;
    match r with
    | None => mret None
    | Some (n, touched, last) =>
        d ← in_vault PullStore get_db;
        forks ← in_vault PullStore (lift (fork_summaries (elements touched) d));
        mret (Some (mkPullReport n forks (list_frozen_accounts d) last))
    end.

(** ** What the vault calls do to the tables *)

Lemma maybe_expire_run {A} (k : unit -> vop A) (w : W) :
  exists w1, (maybe_expire_active_session clock ≫= k) w = k tt w1
    /\ db (vault w1) = db (vault w).
Proof.
  destruct (maybe_expire_total clock w) as (w1 & Hm & Hd). exists w1.
  by rewrite (op_bind_run _ _ _ _ _ Hm).
Qed.

Ltac expire_first w1 Hd :=
  match goal with |- context [(maybe_expire_active_session clock ≫= ?k) ?w0] =>
    destruct (maybe_expire_run k w0) as (w1 & -> & Hd) end.

Lemma read_for_publish_run id rid (w : W) :
  exists w', read_revision_for_publish clock id rid w
             = (read_revision_row id rid (db (vault w)), w')
    /\ db (vault w') = db (vault w).
Proof.
  unfold read_revision_for_publish. expire_first w1 Hd.
  exists w1. split; [|done]. unfold get_db, gets, lift. rewrite op_bind_eq. by rewrite Hd.
Qed.

Lemma touch_run (w : W) :
  exists w', touch_session clock w = (Ok tt, w') /\ db (vault w') = db (vault w).
Proof. destruct (touch_session_total clock w) as (w' & ? & _ & _ & ?). eauto. Qed.

Lemma delete_dirty_eq id rid d :
  (delete_dirty id rid d).1 = set_dirty (delete (id, rid) (dirty_accounts d)) d.
Proof.
  unfold delete_dirty. destruct (dirty_accounts d !! (id, rid)) eqn:E; [done|]. simpl.
  rewrite delete_id by done. by destruct d.
Qed.

Lemma clear_dirty_run id rid (w : W) :
  exists w', clear_dirty clock id rid w = (Ok tt, w')
    /\ db (vault w') = set_dirty (delete (id, rid) (dirty_accounts (db (vault w)))) (db (vault w)).
Proof.
  unfold clear_dirty. expire_first w1 Hd.
  unfold get_db, put_db, gets, modify. rewrite op_bind_eq. rewrite op_bind_eq.
  match goal with |- context [touch_session clock ?w2] =>
    destruct (touch_run w2) as (w3 & -> & Hd3) end.
  exists w3. split; [done|]. rewrite Hd3. simpl. by rewrite delete_dirty_eq, Hd.
Qed.

Lemma mark_published_run rid anchor (w : W) :
  exists r w', mark_published clock rid anchor w = (r, w')
    /\ match r with
       | Ok _ => exists sa, store_anchor anchor = Ok sa
           /\ is_Some (t_revisions (db (vault w)) !! rid)
           /\ db (vault w') = update_revisions (fun k _ => bool_decide (k = rid))
                                 (set_row_anchor sa) (db (vault w))
       | Err _ => db (vault w') = db (vault w)
       end.
Proof.
  unfold mark_published. expire_first w1 Hd.
  unfold get_db, put_db, gets, modify, lift. rewrite op_bind_eq.
  destruct (store_anchor anchor) as [sa|e]; [|by do 2 eexists].
  rewrite op_bind_eq. rewrite op_bind_eq. unfold mark_published_row. rewrite Hd.
  destruct (t_revisions (db (vault w)) !! rid) eqn:Er; [|by do 2 eexists].
  rewrite op_bind_eq.
  match goal with |- context [touch_session clock ?w2] =>
    destruct (touch_run w2) as (w3 & -> & Hd3) end.
  do 2 eexists. split; [reflexivity|]. simpl. exists sa. split_and!; [done|done|].
  rewrite Hd3. reflexivity.
Qed.

(** The local commit of a published revision. *)
Definition committed (entry : DirtyEntry) (sa : StoredAnchor) (d : Database) : Database :=
  set_dirty (delete (de_account entry, de_revision entry) (dirty_accounts d))
    (update_revisions (fun k _ => bool_decide (k = de_revision entry)) (set_row_anchor sa) d).

Lemma commit_published_inv entry anchor (s : S2) r s' :
  commit_published entry anchor s = (r, s') ->
  s'.2 = s.2
  /\ match r with
     | Ok _ => exists sa, store_anchor anchor = Ok sa
                 /\ db (vault s'.1) = committed entry sa (db (vault s.1))
     | Err e => db (vault s'.1) = db (vault s.1) /\ exists se, e = PublishStore se
     end.
Proof.
  unfold commit_published. rewrite op_bind_eq. unfold in_vault at 1.
  destruct (mark_published_run (de_revision entry) anchor s.1) as (r1 & w1 & -> & H1).
  destruct r1 as [u|e]; simpl; [|intros [= <- <-]; simpl; eauto].
  destruct H1 as (sa & Hsa & _ & Hd1). unfold in_vault. simpl.
  destruct (clear_dirty_run (de_account entry) (de_revision entry) w1) as (w2 & -> & Hd2).
  intros [= <- <-]. simpl. split; [done|]. exists sa. split; [done|]. rewrite Hd2, Hd1. done.
Qed.

(** One entry of the queue, from the tables before to the tables after. *)
Lemma publish_one_inv device entry view (s : S2) r s' :
  publish_one device entry view s = (r, s') ->
  let d := db (vault s.1) in
  match r with
  | Ok (Published anchor already) => exists payload sa,
      read_revision_row (de_account entry) (de_revision entry) d = Ok payload
      /\ store_anchor anchor = Ok sa /\ db (vault s'.1) = committed entry sa d
      /\ let signed := signed_for device entry payload in
         if already
         then s'.2 = s.2 /\ exists ev,
                find_on_chain (signed_hash canonical_hash signed) view = Some ev
                /\ anchor = ev_anchor ev
         else find_on_chain (signed_hash canonical_hash signed) view = None
              /\ publish signed s.2 = (Ok anchor, s'.2)
  | Ok (PublishFailed _) => False
  | Err e => db (vault s'.1) = d
      /\ forall payload, read_revision_row (de_account entry) (de_revision entry) d = Ok payload ->
         is_Some (find_on_chain (signed_hash canonical_hash (signed_for device entry payload)) view) ->
         s'.2 = s.2 /\ exists se, e = PublishStore se
  end.
Proof.
  unfold publish_one. rewrite op_bind_eq. unfold in_vault at 1.
  destruct (read_for_publish_run (de_account entry) (de_revision entry) s.1) as (w1 & -> & Hd1).
  destruct (read_revision_row _ _ _) as [payload|e] eqn:Er; simpl.
  2: { intros [= <- <-]. by split. }
  set (signed := signed_for device entry payload).
  destruct (find_on_chain (signed_hash canonical_hash signed) view) as [ev|] eqn:Ef.
  - rewrite op_bind_eq. destruct (commit_published entry (ev_anchor ev) _) as [r2 s2] eqn:Ec.
    apply commit_published_inv in Ec as [Hc Hm]. simpl in *. rewrite Hd1 in Hm.
    destruct r2 as [u|e].
    + destruct Hm as (sa & Hsa & Hd). intros [= <- <-]. exists payload, sa. split_and!; try done.
      by exists ev.
    + destruct Hm as [Hd Hse]. intros [= <- <-]. by split.
  - rewrite op_bind_eq. unfold in_chain. simpl.
    destruct (publish signed s.2) as [[anchor|x] c2] eqn:Ep; simpl.
    2: { intros [= <- <-]. simpl. split; [done|]. intros p [= <-]. fold signed. rewrite Ef.
         by intros [? ?]. }
    rewrite op_bind_eq. destruct (commit_published entry anchor _) as [r2 s2] eqn:Ec.
    apply commit_published_inv in Ec as [Hc Hm]. simpl in *. rewrite Hd1 in Hm.
    destruct r2 as [u|e].
    + destruct Hm as (sa & Hsa & Hd). intros [= <- <-]. exists payload, sa. split_and!; try done.
      by rewrite Hc.
    + destruct Hm as [Hd _]. intros [= <- <-]. split; [done|]. intros p [= <-]. fold signed.
      rewrite Ef. by intros [? ?].
Qed.

Definition entry_pair (e : DirtyEntry) : Z * Z := (de_account e, de_revision e).
Definition row_pair (r : PublishOutcomeRow X) : Z * Z := (out_account r, out_revision r).

(** The anchor a report gives for an account and revision. *)
Fixpoint report_anchor (rows : list (PublishOutcomeRow X)) (k : Z * Z) : option ChainAnchor :=
  match rows with
  | [] => None
  | row :: rest =>
      match outcome row with
      | Published a _ => if decide (row_pair row = k) then Some a else report_anchor rest k
      | PublishFailed _ => report_anchor rest k
      end
  end.

Definition anchored_by (rows : list (PublishOutcomeRow X)) (rid : RevisionId) (r : RevisionRow) :
    RevisionRow :=
  match report_anchor rows (row_account r, rid) with
  | Some a => match store_anchor a with Ok sa => set_row_anchor sa r | Err _ => r end
  | None => r
  end.

(** The tables after a run, read off its report. *)
Record report_effect (d d' : Database) (rows : list (PublishOutcomeRow X)) : Prop := {
  re_rest : set_revisions ∅ (set_dirty ∅ d') = set_revisions ∅ (set_dirty ∅ d);
  re_dirty : forall k, dirty_accounts d' !! k =
    if report_anchor rows k then None else dirty_accounts d !! k;
  re_rows : forall rid, t_revisions d' !! rid = anchored_by rows rid <$> t_revisions d !! rid
}.

Lemma report_anchor_None rows k : k ∉ row_pair <$> rows -> report_anchor rows k = None.
Proof.
  induction rows as [|row rows IH]; [done|]. rewrite fmap_cons, not_elem_of_cons. intros [Hne Hni].
  simpl. rewrite IH by done. destruct (outcome row); [|done]. by rewrite decide_False.
Qed.

Lemma committed_rows entry sa d rid :
  t_revisions (committed entry sa d) !! rid =
  (fun r => if decide (rid = de_revision entry) then set_row_anchor sa r else r)
    <$> t_revisions d !! rid.
Proof. apply (update_one_lookup (de_revision entry) (set_row_anchor sa) d rid). Qed.

Lemma read_revision_row_inv id rid d p :
  read_revision_row id rid d = Ok p ->
  exists r, t_revisions d !! rid = Some r /\ row_account r = id.
Proof.
  unfold read_revision_row. destruct (t_revisions d !! rid) as [r|]; [|done].
  case_bool_decide; [|done]. eauto.
Qed.

Lemma publish_entries_cons device view entry l (s : S2) r s' :
  publish_entries device view (entry :: l) s = (r, s') ->
  exists r1 s1 rows, publish_one device entry view s = (r1, s1)
    /\ publish_entries device view l s1 = (Ok rows, s') /\ r = Ok (outcome_row entry r1 :: rows).
Proof.
  simpl. rewrite op_bind_eq. unfold attempt.
  destruct (publish_one device entry view s) as [r1 s1]. rewrite op_bind_eq.
  destruct (publish_entries device view l s1) as [[rows|e] s2] eqn:E.
  - intros [= <- <-]. by exists r1, s1, rows.
  - exfalso. clear -E. revert s1 e s2 E. induction l as [|e0 l IH]; intros s1 e s2; [done|].
    simpl. rewrite op_bind_eq. unfold attempt. destruct (publish_one device e0 view s1) as [r2 s3].
    rewrite op_bind_eq. destruct (publish_entries device view l s3) as [[]] eqn:E; [done|].
    intros _. by eapply IH.
Qed.

Lemma publish_entries_effect device view l (s : S2) rows s' :
  NoDup (entry_pair <$> l) -> publish_entries device view l s = (Ok rows, s') ->
  row_pair <$> rows = entry_pair <$> l
  /\ report_effect (db (vault s.1)) (db (vault s'.1)) rows
  /\ Forall (fun row => forall a b, outcome row = Published a b -> is_ok (store_anchor a) = true) rows.
Proof.
  revert s rows. induction l as [|entry l IH]; intros s rows Hnd Hr.
  { injection Hr as <- <-. split_and!; [done| |done]. split; [done|done|]. intros rid.
    by destruct (t_revisions _ !! rid). }
  apply NoDup_cons in Hnd as [Hni Hnd].
  apply publish_entries_cons in Hr as (r1 & s1 & rows1 & H1 & H2 & [= ->]).
  destruct (IH s1 rows1 Hnd H2) as (Hkeys & [Hrest Hdirty Hrows] & Hok).
  apply publish_one_inv in H1. simpl in H1. destruct r1 as [[a b|err]|err]; [|done|].
  - destruct H1 as (p & sa & Hread & Hsa & Hd1 & _).
    assert (Hn : report_anchor rows1 (entry_pair entry) = None).
    { apply report_anchor_None. by rewrite Hkeys. }
    split_and!; [by rewrite fmap_cons, Hkeys| |].
    2: { constructor; [|done]. simpl. intros ? ? [= <- _]. by rewrite Hsa. }
    rewrite Hd1 in *. split.
    + by rewrite Hrest.
    + intros k. rewrite Hdirty. simpl. unfold row_pair at 1. simpl. fold (entry_pair entry).
      destruct (decide (entry_pair entry = k)) as [<-|Hne].
      * rewrite Hn. simpl. apply lookup_delete_eq.
      * destruct (report_anchor rows1 k); [done|]. simpl. by rewrite lookup_delete_ne.
    + intros rid. rewrite Hrows, committed_rows.
      destruct (t_revisions (db (vault s.1)) !! rid) as [r|] eqn:Erow; [|done]. simpl. f_equal.
      unfold anchored_by. simpl. unfold row_pair at 1. simpl. fold (entry_pair entry).
      destruct (decide (rid = de_revision entry)) as [->|Hne].
      * apply read_revision_row_inv in Hread as (r' & Hr' & Hacc). rewrite Erow in Hr'.
        injection Hr' as <-. simpl. rewrite Hacc. fold (entry_pair entry).
        by rewrite Hn, decide_True, Hsa.
      * rewrite decide_False; [done|]. intros Heq. apply Hne. by injection Heq.
  - destruct H1 as [Hd1 _]. rewrite Hd1 in *.
    split_and!; [by rewrite fmap_cons, Hkeys| |by constructor].
    split; [done|done|]. intros rid. rewrite Hrows. by destruct (t_revisions _ !! rid).
Qed.

Lemma NoDup_entry_pairs d : NoDup (entry_pair <$> list_dirty d).
Proof.
  apply NoDup_fmap_2_strong; [|apply NoDup_list_dirty]. intros e e' He He' [= H1 H2].
  by apply (list_dirty_key d).
Qed.

Lemma publish_entries_Ok device view l (s : S2) :
  exists rows s', publish_entries device view l s = (Ok rows, s').
Proof.
  destruct (publish_entries device view l s) as [r s'] eqn:E. destruct l as [|e l].
  { injection E as <- <-. by exists [], s. }
  apply publish_entries_cons in E as (r1 & s1 & rows & _ & _ & ->). by eexists _, s'.
Qed.

(** The whole run: the pull, then the loop. *)
Lemma publish_all_eq device (s : S2) :
  publish_all_for_vault device s =
  match last_pulled_block (db (vault s.1)) with
  | Err e => (Err e, s)
  | Ok last =>
      let '(rp, c1) := pull_since vault_id last None s.2 in
      publish_entries device (ok_option rp) (list_dirty (db (vault s.1))) (s.1, c1)
  end.
Proof.
  unfold publish_all_for_vault. rewrite op_bind_eq. unfold in_vault, get_db, gets. simpl.
  rewrite op_bind_eq. unfold lift. destruct (last_pulled_block (db (vault s.1))) as [last|e];
    [|by destruct s].
  rewrite op_bind_eq. unfold attempt, in_chain. simpl.
  destruct (pull_since vault_id last None s.2) as [[evs|x] c1]; done.
Qed.

(** The publish report is faithful.  A run over the queue returns one row
    per marker, in queue order, and the tables afterwards are what the report
    says: a marker is gone exactly when its row is [Published]; the revision
    it names then carries the reported anchor; a failed entry keeps its marker
    for the next run; and nothing else is touched.  The run itself fails only
    when the checkpoint cannot be read, and then does nothing. *)
Theorem publish_report_faithful device (s : S2) r s' :
  publish_all_for_vault device s = (r, s') ->
  let d := db (vault s.1) in
  let d' := db (vault s'.1) in
  match r with
  | Ok rows =>
      row_pair <$> rows = entry_pair <$> list_dirty d
      /\ report_effect d d' rows
      /\ (forall row, row ∈ rows -> is_published (outcome row) = true ->
           dirty_accounts d' !! row_pair row = None
           /\ forall r, t_revisions d !! out_revision row = Some r -> row_account r = out_account row ->
              exists a b sa, outcome row = Published a b /\ store_anchor a = Ok sa
                /\ t_revisions d' !! out_revision row = Some (set_row_anchor sa r))
      /\ (forall row, row ∈ rows -> is_published (outcome row) = false ->
           is_Some (dirty_accounts d' !! row_pair row))
      /\ (all_ok rows = true -> list_dirty d' = [])
  | Err e => last_pulled_block d = Err e /\ s' = s
  end.
Proof.
  rewrite publish_all_eq. simpl.
  destruct (last_pulled_block (db (vault s.1))) as [last|e]; [|by intros [= <- <-]].
  destruct (pull_since vault_id last None s.2) as [rp c1].
  destruct (publish_entries_Ok device (ok_option rp) (list_dirty (db (vault s.1))) (s.1, c1))
    as (rows & s2 & Hr). rewrite Hr. intros [= <- <-].
  destruct (publish_entries_effect _ _ _ _ _ _ (NoDup_entry_pairs _) Hr) as (Hkeys & Heff & Hok).
  simpl in *. pose proof Heff as [_ Hdirty Hrows].
  assert (Hnd : NoDup (row_pair <$> rows)) by (rewrite Hkeys; apply NoDup_entry_pairs).
  assert (Hanchor : forall row, row ∈ rows -> report_anchor rows (row_pair row) =
    match outcome row with Published a _ => Some a | PublishFailed _ => None end).
  { clear -Hnd. induction rows as [|row rows IH]; [set_solver|].
    apply NoDup_cons in Hnd as [Hni Hnd]. intros row' [->|Hin]%elem_of_cons; simpl.
    - destruct (outcome row); [by rewrite decide_True|]. by apply report_anchor_None.
    - rewrite (IH Hnd row' Hin). destruct (outcome row); [|done]. rewrite decide_False; [done|].
      intros Heq. apply Hni. rewrite Heq. by apply list_elem_of_fmap_2. }
  assert (Hmark : forall row, row ∈ rows -> is_Some (dirty_accounts (db (vault s.1)) !! row_pair row)).
  { intros row Hin. assert (Hk : row_pair row ∈ entry_pair <$> list_dirty (db (vault s.1))).
    { rewrite <- Hkeys. by apply list_elem_of_fmap_2. }
    apply list_elem_of_fmap in Hk as (e & -> & He%elem_of_list_dirty). by eexists. }
  split_and!; try done.
  - intros row Hin Hp. pose proof (Hanchor row Hin) as Ha. rewrite Hdirty, Ha.
    destruct (outcome row) as [a b|] eqn:Eo; [|done]. split; [done|]. intros r Hrow Hacc.
    rewrite Forall_forall in Hok. specialize (Hok row Hin a b Eo).
    destruct (store_anchor a) as [sa|] eqn:Esa; [|done]. exists a, b, sa. split_and!; try done.
    rewrite Hrows, Hrow. simpl. unfold anchored_by. rewrite Hacc.
    change (out_account row, out_revision row) with (row_pair row). by rewrite Ha, Esa.
  - intros row Hin Hp. rewrite Hdirty, (Hanchor row Hin). destruct (outcome row); [done|]. auto.
  - intros Hall. apply elem_of_nil_inv. intros e He%elem_of_list_dirty. rewrite Hdirty in He.
    destruct (report_anchor rows _) eqn:Er; [done|].
    assert (Hk : entry_pair e ∈ row_pair <$> rows).
    { rewrite Hkeys. apply list_elem_of_fmap. exists e. split; [done|]. by apply elem_of_list_dirty. }
    apply list_elem_of_fmap in Hk as (row & Hk & Hin). unfold entry_pair in Hk. rewrite Hk in Er.
    rewrite (Hanchor row Hin) in Er. destruct (outcome row) eqn:Eo; [done|].
    unfold all_ok, failed_count in Hall. apply Z.eqb_eq in Hall.
    assert (Hf : row ∈ filter (fun r => is_published (outcome r) = false) rows).
    { apply list_elem_of_filter. by rewrite Eo. }
    destruct (filter _ rows); [set_solver|done].
Qed.

(** ** A submission is not repeated while the pull still sees it *)

Lemma find_on_chain_Some h evs ev :
  ev ∈ evs -> eid ev = h -> is_Some (find_on_chain h (Some evs)).
Proof.
  intros Hin Hh. unfold find_on_chain. simpl.
  destruct (List.find _ evs) eqn:E; [done|]. exfalso.
  apply list_elem_of_In in Hin. pose proof (find_none _ _ E _ Hin) as Hf. simpl in Hf.
  by rewrite bool_decide_eq_true_2 in Hf.
Qed.

(** The payload of a row does not change while the queue is published. *)
Lemma read_revision_row_committed e sa id rid d :
  read_revision_row id rid (committed e sa d) = read_revision_row id rid d.
Proof.
  unfold read_revision_row. rewrite committed_rows.
  destruct (t_revisions d !! rid) as [r|]; [|done]. simpl. by destruct (decide _).
Qed.

Lemma publish_one_payload device entry view (s : S2) r s' id rid :
  publish_one device entry view s = (r, s') ->
  read_revision_row id rid (db (vault s'.1)) = read_revision_row id rid (db (vault s.1)).
Proof.
  intros H. apply publish_one_inv in H. simpl in H. destruct r as [[a b|]|]; [|done|].
  - destruct H as (p & sa & _ & _ & -> & _). apply read_revision_row_committed.
  - by destruct H as [-> _].
Qed.

Lemma publish_entries_seen device view l (s : S2) rows s' entry payload :
  publish_entries device view l s = (Ok rows, s') ->
  read_revision_row (de_account entry) (de_revision entry) (db (vault s.1)) = Ok payload ->
  is_Some (find_on_chain (signed_hash canonical_hash (signed_for device entry payload)) view) ->
  forall row, row ∈ rows -> row_pair row = entry_pair entry ->
    (exists a, outcome row = Published a true)
    \/ exists se, outcome row = PublishFailed (PublishStore se).
Proof.
  revert s rows. induction l as [|e l IH]; intros s rows Hr Hp Hf row Hin Hk.
  { injection Hr as <- <-. set_solver. }
  apply publish_entries_cons in Hr as (r1 & s1 & rows1 & H1 & H2 & [= ->]).
  apply elem_of_cons in Hin as [->|Hin].
  2: { apply (IH s1 rows1 H2); [|done..]. by rewrite (publish_one_payload _ _ _ _ _ _ _ _ H1). }
  unfold row_pair, entry_pair in Hk. simpl in Hk. injection Hk as Ha Hrev.
  pose proof (publish_one_inv _ _ _ _ _ _ H1) as Hi. simpl in Hi.
  assert (Hs : forall p, signed_for device e p = signed_for device entry p).
  { intros p. unfold signed_for. by rewrite Ha. }
  destruct r1 as [[a b|]|err]; [|done|]; simpl.
  - destruct Hi as (p & sa & Hread & _ & _ & Hb). rewrite Ha, Hrev, Hp in Hread.
    injection Hread as <-. rewrite Hs in Hb. destruct b; [left; by exists a|].
    destruct Hb as [Hn _]. rewrite Hn in Hf. by destruct Hf.
  - destruct Hi as [_ Hi]. right. rewrite Ha, Hrev in Hi. destruct (Hi payload Hp) as [_ [se ->]].
    + by rewrite Hs.
    + by exists se.
Qed.

(** Crash between the submission and the local commit.  On a chain that
    keeps the laws of [ChainLog], if the event of a queued revision is on the
    chain after the pull checkpoint and the run's pull succeeds, the run does
    not submit the revision again: its row is [Published] as already on chain
    (with an anchor of that content) or a local failure, never a second
    submission, whatever happened to the first call's answer. *)
Theorem publish_recovers_submitted `{!ChainLog C X} device (s : S2) last evs c1 rows s' entry
    payload ev :
  last_pulled_block (db (vault s.1)) = Ok last ->
  entry ∈ list_dirty (db (vault s.1)) ->
  read_revision_row (de_account entry) (de_revision entry) (db (vault s.1)) = Ok payload ->
  ev ∈ log s.2 -> in_pull_range vault_id last None ev = true ->
  eid ev = signed_hash canonical_hash (signed_for device entry payload) ->
  pull_since vault_id last None s.2 = (Ok evs, c1) ->
  publish_all_for_vault device s = (Ok rows, s') ->
  exists row, row ∈ rows /\ row_pair row = entry_pair entry
    /\ ((exists a, outcome row = Published a true)
        \/ exists se, outcome row = PublishFailed (PublishStore se)).
Proof.
  intros Hl He Hp Hev Hrange Hh Hpull Hr. rewrite publish_all_eq, Hl, Hpull in Hr. simpl in Hr.
  destruct (publish_entries_effect _ _ _ _ _ _ (NoDup_entry_pairs _) Hr) as (Hkeys & _).
  assert (Hk : entry_pair entry ∈ row_pair <$> rows) by (rewrite Hkeys; by apply list_elem_of_fmap_2).
  apply list_elem_of_fmap in Hk as (row & Hk & Hin). exists row. split_and!; [done|done|].
  eapply publish_entries_seen; [exact Hr|exact Hp| |done|done].
  apply (find_on_chain_Some _ evs ev); [|done].
  apply (pull_complete _ _ _ _ _ _ ev Hpull). split; [|done].
  pose proof (pull_grows vault_id last None s.2) as Hg. rewrite Hpull in Hg. simpl in Hg.
  destruct Hg as [k ->]. apply elem_of_app. by left.
Qed.

(** A revision already anchored is submitted again.  [publish_one] does
    not look at the row's own anchor: when the pull that the run starts with
    no longer covers the event (the checkpoint has passed its block, as after
    [pull_all] merged the event onto the row and left its marker), the
    revision is submitted a second time and its anchor overwritten. *)
Theorem publish_resubmits_anchored device entry view (s : S2) row sa0 payload anchor sa c' :
  t_revisions (db (vault s.1)) !! de_revision entry = Some row ->
  row_anchor row = Some sa0 ->
  read_revision_row (de_account entry) (de_revision entry) (db (vault s.1)) = Ok payload ->
  (forall ev, ev ∈ default [] view ->
     eid ev <> signed_hash canonical_hash (signed_for device entry payload)) ->
  publish (signed_for device entry payload) s.2 = (Ok anchor, c') -> store_anchor anchor = Ok sa ->
  exists s', publish_one device entry view s = (Ok (Published anchor false), s')
    /\ s'.2 = c'
    /\ t_revisions (db (vault s'.1)) !! de_revision entry = Some (set_row_anchor sa row).
Proof.
  intros Hrow _ Hp Hview Hpub Hsa.
  assert (Hn : find_on_chain (signed_hash canonical_hash (signed_for device entry payload)) view = None).
  { destruct view as [evs|]; [|done]. unfold find_on_chain. simpl in *.
    destruct (List.find _ evs) as [ev|] eqn:E; [|done]. exfalso.
    apply find_some in E as [Hin%list_elem_of_In Hb]. apply bool_decide_eq_true in Hb.
    by apply (Hview ev). }
  destruct (publish_one device entry view s) as [r s'] eqn:E. exists s'.
  revert E. unfold publish_one. rewrite op_bind_eq. unfold in_vault at 1.
  destruct (read_for_publish_run (de_account entry) (de_revision entry) s.1) as (w1 & -> & Hd1).
  rewrite Hp. simpl. rewrite Hn. rewrite op_bind_eq. unfold in_chain. simpl. rewrite Hpub. simpl.
  rewrite op_bind_eq. unfold commit_published. rewrite op_bind_eq. unfold in_vault at 1. simpl.
  destruct (mark_published_run (de_revision entry) anchor w1) as (r1 & w2 & Hm & H1). rewrite Hm.
  assert (Hok : exists u, r1 = Ok u).
  { revert Hm. unfold mark_published. expire_first w3 Hd3.
    unfold get_db, put_db, gets, modify, lift. rewrite op_bind_eq, Hsa. rewrite op_bind_eq.
    rewrite op_bind_eq. unfold mark_published_row. rewrite Hd3, Hd1, Hrow. rewrite op_bind_eq.
    match goal with |- context [touch_session clock ?w2] =>
      destruct (touch_run w2) as (w4 & -> & Hd4) end. intros [= <- _]. by eexists. }
  destruct Hok as [u ->]. simpl. destruct H1 as (sa' & Hsa' & _ & Hd2). rewrite Hsa in Hsa'.
  injection Hsa' as <-. unfold in_vault.
  destruct (clear_dirty_run (de_account entry) (de_revision entry) w2) as (w3 & Hc & Hd3).
  simpl. rewrite Hc. intros [= <- <-]. simpl. split_and!; [done|done|].
  rewrite Hd3, Hd2, Hd1. simpl. rewrite map_lookup_imap, Hrow. simpl.
  by rewrite bool_decide_eq_true_2.
Qed.

(** ** The batch flush *)

Lemma coalesce_dirty_run (w : W) :
  coalesce_dirty_markers w
  = (Ok (coalesce (db (vault w))).2, map_vault (set_db (coalesce (db (vault w))).1) w).
Proof.
  unfold coalesce_dirty_markers, get_db, put_db, gets, modify. rewrite op_bind_eq.
  case_bool_decide as Hn.
  - unfold coalesce. rewrite Hn. simpl. unfold mret, op_ret.
    destruct w as [[] ? ?]. done.
  - by destruct (coalesce (db (vault w))) as [d' n].
Qed.

(** The flush is everything or nothing.  Without a session it does nothing.
    With one it first coalesces; then, if the projected cost of what is left
    in the queue exceeds the balance, or the projection fails, the chain has
    seen no call but the projection, no revision or marker has changed beyond
    the coalescing, and the blocked-on-balance flag is raised for a shortfall.
    Otherwise the result is that of the publish run, the window is closed and
    the flag cleared. *)
Theorem flush_everything_or_nothing device force (s : S2) r s' :
  flush_publish_queue device force s = (r, s') ->
  match active (vault s.1) with
  | None => r = Err NoActiveSession /\ s' = s
  | Some a =>
      let '(d1, pruned) := coalesce (db (vault s.1)) in
      let queued := Z.of_nat (length (list_dirty d1)) in
      match pre_flight_batch_balance queued s.2 with
      | (Err x, c1) =>
          r = Err (FlushChainError x) /\ s' = (map_vault (set_db d1) s.1, c1)
      | (Ok check, c1) =>
          if match check with Some b => is_sufficient b | None => true end
          then exists r0 s1,
            publish_all_for_vault device (map_vault (set_db d1) s.1, c1) = (r0, s1)
            /\ s'.2 = s1.2 /\ db (vault s'.1) = db (vault s1.1)
            /\ match r0 with
               | Ok rows => r = Ok (mkBatchFlushReport pruned rows)
                   /\ forall a', active (vault s'.1) = Some a' ->
                      window_started_at_unix_ms a' = None /\ last_flush_failed_balance a' = false
               | Err e => r = Err (FlushStore e)
               end
          else exists b, check = Some b
            /\ r = Err (BalanceInsufficientForBatch (total_estimated_cost_wei b)
                          (current_balance_wei b) queued)
            /\ s'.2 = c1 /\ db (vault s'.1) = d1
            /\ exists a', active (vault s'.1) = Some a' /\ last_flush_failed_balance a' = true
      end
  end.
Proof.
  unfold flush_publish_queue. rewrite op_bind_eq. unfold in_vault at 1, gets. simpl.
  destruct (active (vault s.1)) as [a|] eqn:Ea.
  2: { unfold throw. intros [= <- <-]. by destruct s. }
  rewrite op_bind_eq. unfold in_vault at 1. rewrite coalesce_dirty_run. simpl.
  destruct (coalesce (db (vault s.1))) as [d1 pruned]. simpl.
  rewrite op_bind_eq. unfold in_vault at 1, get_db, gets. simpl.
  rewrite op_bind_eq. unfold in_chain. simpl.
  destruct (pre_flight_batch_balance _ s.2) as [[check|x] c1]; simpl; [|by intros [= <- <-]].
  intros H.
  destruct (match check with Some b => is_sufficient b | None => true end) eqn:Es.
  - assert (Hm : (match check with
      | Some b => if is_sufficient b then mret tt else
          in_vault FlushStore (map_active (set_flush_failed true)) ≫= fun _ =>
               throw (BalanceInsufficientForBatch (total_estimated_cost_wei b)
                        (current_balance_wei b) (Z.of_nat (length (list_dirty d1))))
      | None => mret tt
      end : op S2 (BatchFlushError X) unit) (map_vault (set_db d1) s.1, c1)
      = (Ok tt, (map_vault (set_db d1) s.1, c1))).
    { destruct check as [b|]; [|done]. by rewrite Es. }
    revert H. rewrite op_bind_eq. rewrite Hm. rewrite op_bind_eq.
    destruct (publish_all_for_vault device _) as [r0 s1] eqn:Ep. intros H.
    exists r0, s1. split; [reflexivity|]. revert H.
    destruct r0 as [rows|e]; simpl; [|by intros [= <- <-]].
    intros [= <- <-]. simpl. split_and!; try done.
    intros a'. simpl. destruct (active (vault s1.1)); [|done]. simpl. by intros [= <-].
  - destruct check as [b|]; [|done]. exists b. split; [done|]. revert H.
    rewrite op_bind_eq, Es. rewrite op_bind_eq. unfold in_vault, map_active, modify. simpl.
    unfold throw. intros [= <- <-]. simpl. rewrite Ea. simpl. split_and!; try done. by eexists.
Qed.

(** ** Pulling *)

Notation known := (known canonical_hash).

Lemma ingest_events_inv evs n touched (s : S2) r s' :
  ingest_events evs n touched s = (r, s') ->
  s'.2 = s.2 /\ keeps (db (vault s.1)) (db (vault s'.1))
  /\ sync_state (db (vault s'.1)) = sync_state (db (vault s.1))
  /\ (is_ok r = true -> forall ev, ev ∈ evs -> known ev (db (vault s'.1))).
Proof.
  revert n touched s. induction evs as [|ev evs IH]; intros n touched s; simpl.
  { intros [= <- <-]. split_and!; [done|reflexivity|done|]. intros _ ev. set_solver. }
  destruct (canonical_device (ev_device_id ev)).
  2: { intros [= <- <-]. split_and!; [done|reflexivity|done|done]. }
  rewrite op_bind_eq. unfold in_vault at 1.
  destruct (ingest_run clock wall vault_id canonical_hash open_payload ev s.1) as (r1 & w1 & -> & He).
  pose proof (ingest_effect_keeps _ _ _ _ _ He) as [Hk [= Hs _ _]].
  destruct r1 as [o|e]; simpl; [|by intros [= <- <-]].
  intros Hr. apply IH in Hr as (Hc & Hk2 & Hs2 & Hkn). simpl in *. split_and!; [done| | |].
  - by etrans.
  - congruence.
  - intros Hok ev' [->|Hin]%elem_of_cons; [|by apply Hkn].
    eapply known_keeps; [exact Hk2|]. by eapply ingest_effect_known.
Qed.

Lemma prune_touched_same ids : moves db_same (prune_touched ids).
Proof.
  induction ids as [|id ids IH]; simpl; [apply moves_ret; apply _|].
  apply moves_bind; [apply _| |done]. apply best_effort_same, prune_same.
Qed.

Lemma advance_checkpoint_inv b (w : W) r w' :
  0 <= b -> advance_checkpoint b w = (r, w') ->
  t_revisions (db (vault w')) = t_revisions (db (vault w))
  /\ match r with
     | Ok _ => last_pulled_block (db (vault w')) = Ok b
         /\ (forall c, last_pulled_block (db (vault w)) = Ok c -> c <= b)
     | Err _ => db (vault w') = db (vault w)
     end.
Proof.
  intros Hb. unfold advance_checkpoint, get_db, put_db, gets, modify, lift.
  rewrite op_bind_eq. rewrite op_bind_eq.
  pose proof (advance_spec b (db (vault w)) Hb) as Ha.
  destruct (advance_last_pulled_block b (db (vault w))) as [d'|e]; intros [= <- <-]; [|done].
  simpl. destruct Ha as (H1 & H2 & c & H3 & H4). split; [by injection H2|].
  split; [done|]. intros c'. rewrite H3. by intros [= <-].
Qed.

Lemma same_tables_sync d d' :
  same_tables d d' -> t_revisions d' = t_revisions d /\ sync_state d' = sync_state d.
Proof. unfold same_tables. destruct d, d'. by intros [=]. Qed.

Lemma last_pulled_ext d d' : sync_state d' = sync_state d -> last_pulled_block d' = last_pulled_block d.
Proof. unfold last_pulled_block. by intros ->. Qed.

Lemma prune_touched_Ok ids (w : W) : (prune_touched ids w).1 = Ok tt.
Proof. revert w. induction ids as [|id ids IH]; intros w; [done|]. simpl. apply IH. Qed.

(** One chunk: what holds whether it completes or not. *)
Lemma pull_chunk_inv `{!ChainLog C X} chunk_start chunk_end n touched (s : S2) r s' :
  0 <= chunk_end -> pull_chunk chunk_start chunk_end n touched s = (r, s') ->
  log s.2 `prefix_of` log s'.2 /\ keeps (db (vault s.1)) (db (vault s'.1))
  /\ match r with
     | Ok _ => last_pulled_block (db (vault s'.1)) = Ok chunk_end
         /\ (forall c, last_pulled_block (db (vault s.1)) = Ok c -> c <= chunk_end)
         /\ forall ev, ev ∈ log s.2 -> in_pull_range vault_id chunk_start (Some chunk_end) ev = true ->
              known ev (db (vault s'.1))
     | Err _ => last_pulled_block (db (vault s'.1)) = last_pulled_block (db (vault s.1))
     end.
Proof.
  intros Hce. unfold pull_chunk. rewrite op_bind_eq. unfold in_chain.
  pose proof (pull_grows vault_id chunk_start (Some chunk_end) s.2) as Hg.
  destruct (pull_since vault_id chunk_start (Some chunk_end) s.2) as [[evs|x] c1] eqn:Hp; simpl in *.
  2: { intros [= <- <-]. simpl. by split_and!; [|reflexivity|]. }
  rewrite op_bind_eq. destruct (ingest_events evs n touched (s.1, c1)) as [r1 s1] eqn:Ei.
  apply ingest_events_inv in Ei as (Hc & Hk & Hs & Hkn). simpl in *. rewrite <- Hc in Hg.
  destruct r1 as [[n' touched']|e]; [|intros [= <- <-]; by rewrite (last_pulled_ext _ _ Hs)].
  rewrite op_bind_eq. unfold in_vault at 1.
  destruct (advance_checkpoint chunk_end s1.1) as [r2 w2] eqn:Ea.
  apply advance_checkpoint_inv in Ea as [Hrev Ha]; [|done].
  assert (Hk2 : keeps (db (vault s.1)) (db (vault w2))) by (etrans; [exact Hk|by apply keeps_eq]).
  destruct r2 as [u|e]; simpl.
  2: { intros [= <- <-]. simpl. by rewrite Ha, (last_pulled_ext _ _ Hs). }
  rewrite op_bind_eq. unfold in_vault. simpl.
  pose proof (prune_touched_same (elements touched') w2) as Hps. unfold db_same in Hps.
  pose proof (prune_touched_Ok (elements touched') w2) as Hpo.
  destruct (prune_touched (elements touched') w2) as [r3 w3]. simpl in *. subst r3. simpl.
  apply same_tables_sync in Hps as [Hrev3 Hs3]. destruct Ha as [Hl Hle].
  assert (Hk3 : keeps (db (vault w2)) (db (vault w3))) by by apply keeps_eq.
  intros [= <- <-]. simpl. split_and!; [done|by etrans| | |].
  - by rewrite (last_pulled_ext _ _ Hs3).
  - intros c Hcc. apply Hle. by rewrite (last_pulled_ext _ _ Hs).
  - intros ev Hev Hr. eapply known_keeps; [exact Hk3|]. eapply known_keeps; [by apply keeps_eq|].
    apply Hkn; [done|]. apply (pull_complete _ _ _ _ _ _ ev Hp). split; [|done].
    rewrite <- Hc. by eapply elem_of_prefix.
Qed.

Lemma pull_chunks_inv `{!ChainLog C X} fuel start head n touched (s : S2) r s' :
  (Z.to_nat (head - start) <= fuel)%nat -> 0 <= start -> head <= U64_MAX ->
  last_pulled_block (db (vault s.1)) = Ok start ->
  pull_chunks fuel start head n touched s = (r, s') ->
  log s.2 `prefix_of` log s'.2 /\ keeps (db (vault s.1)) (db (vault s'.1)) /\ r <> Ok None
  /\ exists b, last_pulled_block (db (vault s'.1)) = Ok b /\ start <= b <= Z.max start head
    /\ (forall ev, ev ∈ log s.2 -> in_pull_range vault_id start (Some b) ev = true ->
          known ev (db (vault s'.1)))
    /\ forall n' t' l, r = Ok (Some (n', t', l)) -> l = b /\ b = Z.max start head.
Proof.
  revert start n touched s r s'. induction fuel as [|fuel IH]; intros start n touched s r s' Hf Hst Hhd Hl;
    simpl; destruct (start <? head) eqn:Elt; zbool.
  1: lia.
  1,3: intros [= <- <-]; split_and!; [done|reflexivity|done|]; exists start;
    (split_and!; [done|lia|lia| |intros; simplify_eq; lia]);
    intros ev _ Hr; exfalso; unfold in_pull_range in Hr; simpl in Hr; zbool; lia.
  set (chunk_end := Z.min (saturating_add U64_MAX start PULL_CHUNK_SIZE) head).
  assert (Hce : start < chunk_end <= head).
  { unfold chunk_end, saturating_add, PULL_CHUNK_SIZE, U64_MAX in *. lia. }
  rewrite op_bind_eq. destruct (pull_chunk start chunk_end n touched s) as [r1 s1] eqn:Ec.
  apply pull_chunk_inv in Ec as (Hg & Hk & Hm); [|lia].
  destruct r1 as [[n' touched']|e].
  - destruct Hm as (Hl1 & _ & Hkn). intros Hr.
    apply IH in Hr as (Hg2 & Hk2 & Hno & b & Hb & Hbb & Hev & Hend); [|lia|lia|done|done].
    split_and!; [by etrans|by etrans|done|]. exists b. split_and!; [done|lia|lia| |].
    + intros ev Hin Hr. destruct (Z.le_gt_cases (block_number (ev_anchor ev)) chunk_end).
      * eapply known_keeps; [exact Hk2|]. apply Hkn; [done|]. unfold in_pull_range in *.
        simpl in *. zbool. rewrite !andb_true_iff, Z.ltb_lt, Z.leb_le. done.
      * apply Hev; [by eapply elem_of_prefix|]. unfold in_pull_range in *. simpl in *. zbool.
        rewrite !andb_true_iff, Z.ltb_lt, Z.leb_le. split_and!; [done|lia|done].
    + intros n2 t2 l2 Hr2. destruct (Hend _ _ _ Hr2) as [-> ->]. split; [done|lia].
  - intros [= <- <-]. split_and!; [done|done|done|]. exists start. rewrite Hm.
    split_and!; [done|lia|lia| |done].
    intros ev _ Hr. exfalso. unfold in_pull_range in Hr. simpl in Hr. zbool. lia.
Qed.

(** The block the pull stops at. *)
Definition pulls_to (until : option Z) (s : S2) (h : Z) : Prop :=
  match until with Some u => h = u | None => (current_block s.2).1 = Ok h end.

Lemma last_pulled_nonneg d c : last_pulled_block d = Ok c -> 0 <= c.
Proof.
  unfold last_pulled_block, mbind, result_bind.
  destruct (read_checkpoint (sync_state d)) as [o|e] eqn:E; [|done]. intros [= <-].
  apply read_checkpoint_inv in E as [_ E]. destruct o as [b|]; [|done]. by apply E.
Qed.

(** [pull_all], up to the chunk loop. *)
Lemma pull_all_eq from until (s : S2) start h c1 :
  match from with Some b => b = start | None => last_pulled_block (db (vault s.1)) = Ok start end ->
  match until with Some u => h = u /\ c1 = s.2 | None => current_block s.2 = (Ok h, c1) end ->
  pull_all from until s =
  (if h <=? start then (Ok (Some (mkPullReport 0 [] [] start)), (s.1, c1))
   else match pull_chunks (Z.to_nat (h - start)) start h 0 ∅ (s.1, c1) with
        | (Ok None, s1) => (Ok None, s1)
        | (Ok (Some (n, touched, last)), s1) =>
            (match map_err PullStore (fork_summaries (elements touched) (db (vault s1.1))) with
             | Ok f => Ok (Some (mkPullReport n f (list_frozen_accounts (db (vault s1.1))) last))
             | Err e => Err e
             end, s1)
        | (Err e, s1) => (Err e, s1)
        end).
Proof.
  intros Hf Hu. unfold pull_all. rewrite op_bind_eq.
  assert (Hs : (match from with
    | Some b => mret b
    | None => d ← in_vault PullStore get_db; in_vault PullStore (lift (last_pulled_block d))
    end : op S2 (PullError X) Z) s = (Ok start, s)).
  { destruct from as [b|]; [by subst|]. rewrite op_bind_eq. unfold in_vault, get_db, gets, lift.
    simpl. rewrite Hf. by destruct s. }
  rewrite Hs. rewrite op_bind_eq.
  assert (Hh : (match until with Some b => mret b | None => in_chain PullChain current_block end
    : op S2 (PullError X) Z) s = (Ok h, (s.1, c1))).
  { destruct until as [u|]; [destruct Hu as [-> ->]; by destruct s|]. unfold in_chain. by rewrite Hu. }
  rewrite Hh. destruct (h <=? start); [done|]. rewrite op_bind_eq.
  destruct (pull_chunks _ _ _ _ _ _) as [[[[[n t] l]|]|e] s1]; [|done|done].
  rewrite op_bind_eq. unfold in_vault, get_db, gets, lift. simpl. rewrite op_bind_eq. simpl.
  destruct s1 as [w1 c2]. simpl. by destruct (fork_summaries _ _).
Qed.

(** C34. The pull checkpoint is safe.  On a chain that keeps the laws of
    [ChainLog], a pull from the stored checkpoint always ends (it never runs
    out of fuel) and leaves a checkpoint such that every event of the vault
    on the chain between the old and the new checkpoint is in the database,
    also when the pull failed half-way: the checkpoint never runs ahead of
    what has been ingested.  Rows that were there keep their account and
    their anchor.  A completed pull has reached the head it was asked for. *)
Theorem pull_checkpoint_safe `{!ChainLog C X} until (s : S2) last h r s' :
  last_pulled_block (db (vault s.1)) = Ok last -> pulls_to until s h -> h <= U64_MAX ->
  pull_all None until s = (r, s') ->
  r <> Ok None /\ keeps (db (vault s.1)) (db (vault s'.1))
  /\ exists b, last_pulled_block (db (vault s'.1)) = Ok b /\ last <= b <= Z.max last h
     /\ (forall ev, ev ∈ log s.2 -> ev_vault_id ev = vault_id ->
           last < block_number (ev_anchor ev) <= b -> known ev (db (vault s'.1)))
     /\ (forall report, r = Ok (Some report) -> b = Z.max last h /\ pull_last_block report = b).
Proof.
  intros Hl Hh Hmax. pose proof (last_pulled_nonneg _ _ Hl) as Hpos.
  set (c1 := match until with Some _ => s.2 | None => (current_block s.2).2 end).
  assert (Hg : log s.2 `prefix_of` log c1).
  { unfold c1. destruct until; [done|apply current_grows]. }
  rewrite (pull_all_eq None until s last h c1 Hl).
  2: { unfold c1, pulls_to in *. destruct until; [done|]. rewrite <- Hh. by destruct (current_block s.2). }
  destruct (h <=? last) eqn:El; zbool.
  { intros [= <- <-]. split_and!; [done|reflexivity|]. exists last.
    split_and!; [done|lia|lia|intros; lia|]. intros rep [= <-]. simpl. lia. }
  destruct (pull_chunks _ _ _ _ _ _) as [r1 s1] eqn:Ep.
  apply pull_chunks_inv in Ep as (_ & Hk & Hno & b & Hb & Hbb & Hev & Hend); [|lia|done|done|done].
  simpl in *. intros Hr.
  assert (s' = s1) as -> by (by destruct r1 as [[[[n t] l]|]|e]; injection Hr).
  assert (Hkn : forall ev, ev ∈ log s.2 -> ev_vault_id ev = vault_id ->
    last < block_number (ev_anchor ev) <= b -> known ev (db (vault s1.1))).
  { intros ev Hin Hv [H1 H2]. apply Hev; [by eapply elem_of_prefix|]. unfold in_pull_range. simpl.
    rewrite !andb_true_iff, bool_decide_eq_true, Z.ltb_lt, Z.leb_le. done. }
  destruct r1 as [[[[n t] l]|]|e]; [|done|].
  - destruct (Hend n t l eq_refl) as [-> Hmaxb].
    split_and!; [by destruct (map_err _ _); injection Hr as <- |done|].
    exists b. split_and!; [done|lia|lia|done|]. intros rep Hrep. split; [done|].
    destruct (map_err _ _); injection Hr as <-; [|done]. by injection Hrep as <-.
  - injection Hr as <-. split_and!; [done|done|]. exists b. split_and!; [done|lia|lia|done|done].
Qed.

(** A pull from an earlier block does not complete.  With a starting
    block given explicitly, as for disaster recovery, and a first chunk that
    ends below the stored checkpoint, the pull never returns a report: the
    checkpoint refuses to move backward and the call fails, leaving the
    checkpoint where it was. *)
Theorem pull_override_refused `{!ChainLog C X} from h (s : S2) last r s' :
  last_pulled_block (db (vault s.1)) = Ok last -> 0 <= from < h -> h <= U64_MAX ->
  Z.min (from + PULL_CHUNK_SIZE) h < last ->
  pull_all (Some from) (Some h) s = (r, s') ->
  is_ok r = false /\ last_pulled_block (db (vault s'.1)) = Ok last.
Proof.
  intros Hl Hf Hmax Hlt. rewrite (pull_all_eq (Some from) (Some h) s from h s.2 eq_refl (conj eq_refl eq_refl)).
  replace (h <=? from) with false by (symmetry; apply Z.leb_gt; lia).
  destruct (Z.to_nat (h - from)) as [|fuel] eqn:Efuel; [lia|]. simpl.
  replace (from <? h) with true by (symmetry; apply Z.ltb_lt; lia).
  set (ce := Z.min (saturating_add U64_MAX from PULL_CHUNK_SIZE) h).
  assert (Hce : 0 <= ce < last).
  { unfold ce, saturating_add, PULL_CHUNK_SIZE, U64_MAX in *. lia. }
  rewrite op_bind_eq. destruct (pull_chunk from ce 0 ∅ (s.1, s.2)) as [r1 s1] eqn:Ec.
  apply pull_chunk_inv in Ec as (_ & _ & Hm); [|lia]. simpl in Hm. destruct r1 as [[n t]|e].
  - destruct Hm as (_ & Hle & _). specialize (Hle last Hl). lia.
  - intros [= <- <-]. by rewrite Hm.
Qed.
End sync.

(** ** Witnesses, on the in-memory chain *)

Module SyncSample.
Import AccountSample ChainSample.

Definition verify_all (_ : SignedRevision) : bool := true.
Definition mock : ChainAdapter MockChain ChainError := MockChainAdapter verify_all.
Definition key_of (device : Z) : Z := device.
Definition toy_sign (device hash : Z) : Z := device + hash.
Definition any_device (_ : Z) : bool := true.

Notation SW := (World Database Z Z unit PressYPresenceProof).
Notation sample_publish_all :=
  (publish_all_for_vault (ChainAdapter0 := mock) (Snapshot := Z) (Key := Z) (Index := unit)
     (P := PressYPresenceProof) sample_clock 1 key_of toy_sign toy_hash).
Notation sample_pull :=
  (pull_all (ChainAdapter0 := mock) (P := PressYPresenceProof) (Index := unit)
     sample_clock sample_clock 1 toy_hash toy_open any_device).

(** One unpublished revision of this device (20), queued. *)
Definition queued_row : RevisionRow :=
  mkRevisionRow 100 GENESIS_PARENT 20 1 10 [42] 4 false 0 None None Finalized None None None false.
Definition queued_db : Database :=
  mkDatabase {[ 100 := mkAccountRow 10 10 false 3 false ]} {[ 3 := queued_row ]}
    {[ (100, 3) := 10 ]} ∅ None None None 0.
Definition queued_entry : DirtyEntry := mkDirtyEntry 100 3 10.
Definition queued_payload : RevisionPublishPayload := mkPublishPayload GENESIS_PARENT 1 [42].
Definition queued_signed : SignedRevision :=
  signed_for 1 key_of toy_sign toy_hash 20 queued_entry queued_payload.

(** The chain after a first submission whose answer was lost. *)
Definition submitted : MockChain := (mock_publish verify_all queued_signed mock_new).2.

Lemma publish_report_faithful_witness :
  exists rows s', sample_publish_all 20 (world_with queued_db, mock_new) = (Ok rows, s')
    /\ list_dirty (db (vault s'.1)) = [].
Proof.
  destruct (sample_publish_all 20 (world_with queued_db, mock_new)) as [r s'] eqn:Hr.
  pose proof (publish_report_faithful _ _ _ _ _ _ _ _ _ Hr) as H.
  assert (Hok : r = Ok [mkOutcomeRow 100 3 (Published (mock_anchor 0 1) false)]).
  { change r with (fst (r, s')). rewrite <- Hr. vm_compute. reflexivity. }
  rewrite Hok in H. exists [mkOutcomeRow 100 3 (Published (mock_anchor 0 1) false)], s'.
  split; [rewrite Hok; reflexivity|]. apply H. vm_compute. reflexivity.
Defined.

Lemma publish_recovers_submitted_witness :
  exists rows s', sample_publish_all 20 (world_with queued_db, submitted) = (Ok rows, s')
    /\ (exists row, row ∈ rows /\ row_pair row = (100, 3)
         /\ ((exists a, outcome row = Published a true)
             \/ exists se, outcome row = PublishFailed (PublishStore se)))
    /\ s'.2 = submitted.
Proof.
  destruct (sample_publish_all 20 (world_with queued_db, submitted)) as [r s'] eqn:Hr.
  assert (Hok : r = Ok [mkOutcomeRow 100 3 (Published (mock_anchor 0 1) true)]).
  { change r with (fst (r, s')). rewrite <- Hr. vm_compute. reflexivity. }
  assert (Hc : s'.2 = submitted).
  { change s' with (snd (r, s')). rewrite <- Hr. vm_compute. reflexivity. }
  rewrite Hok in Hr |- *. eexists _, s'. split; [reflexivity|]. split; [|exact Hc].
  refine (publish_recovers_submitted (ChainLog0 := MockChainLog verify_all) _ _ _ _ _ 20 _ 0
    (events submitted) submitted _ _ queued_entry queued_payload (event_of queued_signed (mock_anchor 0 1))
    _ _ _ _ _ _ _ Hr).
  - reflexivity.
  - apply elem_of_list_dirty. reflexivity.
  - reflexivity.
  - apply list_elem_of_here.
  - reflexivity.
  - vm_compute. reflexivity.
  - vm_compute. reflexivity.
Defined.

(** After the lost answer a pull merges the event onto the row and passes its
    block; the next publish run submits the revision again. *)
Definition merged : SW * MockChain := (sample_pull None None (world_with queued_db, submitted)).2.

Lemma publish_resubmits_anchored_witness :
  (exists s', publish_one (ChainAdapter0 := mock) sample_clock 1 key_of toy_sign toy_hash 20
                queued_entry (Some []) merged = (Ok (Published (mock_anchor 1 2) false), s'))
  /\ length (events (sample_publish_all 20 merged).2.2) = 2%nat.
Proof.
  split; [|vm_compute; reflexivity].
  destruct (publish_resubmits_anchored (ChainAdapter0 := mock) sample_clock 1 key_of toy_sign toy_hash
    20 queued_entry (Some []) merged (set_row_anchor (mkStoredAnchor 0 1 0) queued_row)
    (mkStoredAnchor 0 1 0) queued_payload (mock_anchor 1 2) (mkStoredAnchor 1 2 0)
    (mock_publish verify_all queued_signed submitted).2) as (s' & H & _).
  - vm_compute. reflexivity.
  - reflexivity.
  - vm_compute. reflexivity.
  - intros ev Hev. inversion Hev.
  - vm_compute. reflexivity.
  - reflexivity.
  - exists s'. exact H.
Defined.

(** A chain whose projected cost exceeds the balance. *)
Definition poor_pre_flight (n : Z) : op MockChain ChainError (option BatchBalanceCheck) :=
  mret (Some (mkBatchBalanceCheck (1000000 * n) 1000)).
Definition poor : ChainAdapter MockChain ChainError := {|
  publish := mock_publish verify_all; pull_since := mock_pull_since;
  current_block := mock_current_block; pre_flight_batch_balance := poor_pre_flight |}.

Lemma flush_everything_or_nothing_witness :
  exists s', flush_publish_queue (ChainAdapter0 := poor) sample_clock 1 key_of toy_sign toy_hash 20
               true (world_with queued_db, mock_new)
             = (Err (BalanceInsufficientForBatch 1000000 1000 1), s')
    /\ s'.2 = mock_new.
Proof.
  destruct (flush_publish_queue (ChainAdapter0 := poor) sample_clock 1 key_of toy_sign toy_hash 20
    true (world_with queued_db, mock_new)) as [r s'] eqn:Hr.
  assert (Hok : r = Err (BalanceInsufficientForBatch 1000000 1000 1)).
  { change r with (fst (r, s')). rewrite <- Hr. vm_compute. reflexivity. }
  pose proof (flush_everything_or_nothing (ChainAdapter0 := poor) _ _ _ _ _ _ _ _ _ _ Hr) as H.
  exists s'. rewrite Hok. split; [reflexivity|].
  assert (Hc : coalesce (db (vault (world_with queued_db))) = (queued_db, 0)).
  { vm_compute. reflexivity. }
  assert (Hl : length (list_dirty queued_db) = 1%nat) by (vm_compute; reflexivity).
  cbn [active vault world_with vault_with fst] in H. cbn [vault world_with fst] in Hc.
  rewrite Hc in H. cbv zeta in H. rewrite Hl in H.
  destruct H as (b & _ & _ & H & _). exact H.
Defined.

(** The pull that produced [merged]: the event is known, the checkpoint at 1. *)
Lemma pull_checkpoint_safe_witness :
  exists r s', sample_pull None None (world_with queued_db, submitted) = (r, s')
    /\ last_pulled_block (db (vault s'.1)) = Ok 1
    /\ known toy_hash (event_of queued_signed (mock_anchor 0 1)) (db (vault s'.1)).
Proof.
  destruct (sample_pull None None (world_with queued_db, submitted)) as [r s'] eqn:Hr.
  exists r, s'. split; [reflexivity|].
  assert (Hl : last_pulled_block (db (vault s'.1)) = Ok 1).
  { change s' with (snd (r, s')). rewrite <- Hr. vm_compute. reflexivity. }
  split; [exact Hl|].
  destruct (pull_checkpoint_safe (ChainLog0 := MockChainLog verify_all) sample_clock sample_clock 1 toy_hash
    toy_open any_device None
    (world_with queued_db, submitted) 0 1 r s') as (_ & _ & b & Hb & _ & Hev & _).
  - reflexivity.
  - reflexivity.
  - discriminate.
  - exact Hr.
  - rewrite Hl in Hb. injection Hb as <-. apply Hev.
    + apply list_elem_of_here.
    + reflexivity.
    + vm_compute. split; [reflexivity|discriminate].
Defined.

Definition far_db : Database := set_sync_state (Some 20000) queued_db.

Lemma pull_override_refused_witness :
  exists r s', sample_pull (Some 0) (Some 30000) (world_with far_db, mock_new) = (r, s')
    /\ is_ok r = false.
Proof.
  destruct (sample_pull (Some 0) (Some 30000) (world_with far_db, mock_new)) as [r s'] eqn:Hr.
  exists r, s'. split; [reflexivity|].
  destruct (pull_override_refused (ChainLog0 := MockChainLog verify_all) sample_clock sample_clock 1 toy_hash
    toy_open any_device 0 30000
    (world_with far_db, mock_new) 20000 r s') as [H _].
  - reflexivity.
  - vm_compute. split; [discriminate|reflexivity].
  - discriminate.
  - reflexivity.
  - exact Hr.
  - exact H.
Defined.
End SyncSample.
