(* ===== verification/Resolve.v ===== *)
(** * The resolve flow of the command line

    [build_merge_payload_for_resolve] and the [pending_merges] stash of
    crates/pangolin-store/src/vault.rs, and [resolve_one] of apps/cli/src/sync.rs, which
    pulls, publishes a merge revision on top of the chosen head, ingests it and clears
    the freeze.  The stash keeps the signing seed, the nonce and the ciphertext from
    before the submission, so that a run that was cut off can be repeated with the same
    bytes.  Warnings on standard error are dropped. *)

From S2P Require Import Prelude StoreError Search RevisionGraph SessionPolicy Database AccountOps.
From S2P Require Import ChainIngest PublishQueue ChainAdapter Sync.

Inductive ResolveOutcome : Type :=
| DryRun (planned_revision_id : RevisionId)
| ResolvePublished (revision_id : RevisionId) (anchor : ChainAnchor)
| AlreadyOnChain (revision_id : RevisionId) (anchor : ChainAnchor).

(** [Chain] carries the error it is made a string of. *)
Inductive ResolveError (X : Type) : Type :=
| ChainMovedDuringResolve (account_id : AccountId) (previous_heads new_heads : list RevisionId)
| ResolveNotAHead (account_id : AccountId) (chosen : RevisionId) (current_heads : list RevisionId)
| ResolveAccountNotFound (account_id : AccountId)
| ResolveStore (e : StoreError)
| ResolveChain (e : PullError X).
Arguments ChainMovedDuringResolve {X} account_id previous_heads new_heads.
Arguments ResolveNotAHead {X} account_id chosen current_heads.
Arguments ResolveAccountNotFound {X} account_id.
Arguments ResolveStore {X} e.
Arguments ResolveChain {X} e.

(** The [map_err] on [account_heads]. *)
Definition heads_error {X} (account_id : AccountId) (e : StoreError) : ResolveError X :=
  match e with AccountNotFound => ResolveAccountNotFound account_id | other => ResolveStore other end.

(** [pending::PendingMerge], what a stashed row is read as. *)
Record StashedMerge : Type := mkStashedMerge {
  st_device_secret : Z;
  st_aead_nonce : Z;
  st_enc_payload : list Z;
  st_schema_version : Z
}.

Record StashRebuild : Type := mkStashRebuild {
  rb_enc_payload : list Z;
  rb_schema_version : Z;
  rb_device_id : Z
}.

Section resolve.
Context {Snapshot Identity Key Index P C X Device : Type} `{!ChainAdapter C X}.
Context (clock wall rng : nat -> Z) (vault_id : Z).
Context (verifying_key : Device -> Z) (sign : Device -> Z -> Z) (from_seed : Z -> Device) (secret_seed_bytes : Device -> Z).
Context (canonical_hash : Z -> Z -> Z -> Z -> Z -> list Z -> Z)
        (seal_snapshot : Key -> Z -> Snapshot -> Aad -> store_result (list Z))
        (seal_payload : Key -> Z -> DecodedPayload Identity -> Aad -> store_result (list Z))
        (open_payload : Key -> Z -> list Z -> Aad -> store_result (DecodedPayload Snapshot))
        (canonical_device : Z -> bool).

Notation W := (World Database Snapshot Key Index P).
Notation vop := (op W StoreError).
Notation S2 := (W * C)%type.
Notation ingest := (ingest_chain_revision clock wall vault_id canonical_hash open_payload
                      : RevisionEvent -> vop IngestOutcome).
Notation pull_all := (pull_all clock wall vault_id canonical_hash open_payload canonical_device : option Z -> option Z -> op S2 (PullError X) (option PullReport)).

(** ** The vault's side *)

(** The ciphertext, its nonce, the schema version and the tombstone bit. *)
Definition build_merge_payload_for_resolve (id : AccountId) (chosen : RevisionId) : vop (list Z * Z * Z * bool) :=
  check_session_freshness clock ≫= fun _ =>
  require_active ≫= fun _ =>
  d ← get_db;
  r ← lift (ok_or (t_revisions d !! chosen) AccountNotFound);
  (if bool_decide (row_account r = id) then mret tt else throw AccountNotFound) ≫= fun _ =>
  schema ← lift (ok_or (u8_try_from (row_schema r)) (Corrupted IntegerOverflow));
  let merge_aad := mkAad vault_id id chosen schema in
  a ← require_active;
  '(ct, nonce) ←
    (if row_is_tombstone r then
       now ← current_unix_ms wall;
       nonce ← random_32 rng;
       ct ← lift (seal_payload (vdk a) nonce (TombstonePayload id (Z.max 0 now)) merge_aad);
       mret (ct, nonce)
     else
       snapshot ← read_payload_plaintext_for_resolve clock vault_id open_payload id chosen;
       a ← require_active;
       nonce ← random_32 rng;
       ct ← lift (seal_snapshot (vdk a) nonce snapshot merge_aad);
       mret (ct, nonce));
  touch_session clock ≫= fun _ => mret (ct, nonce, schema, row_is_tombstone r).

Definition stash_pending_merge (id : AccountId) (target : RevisionId) (device_secret aead_nonce : Z)
    (enc_payload : list Z) (schema : Z) : vop unit :=
  maybe_expire_active_session clock ≫= fun _ =>
  now ← current_unix_ms wall;
  d ← get_db;
  put_db (set_pending_merges
            (<[(id, target) := mkPendingMerge device_secret aead_nonce enc_payload schema now]> (pending_merges d)) d)
  ≫= fun _ => touch_session clock.

Definition take_pending_merge (id : AccountId) (target : RevisionId) (d : Database) : store_result (option StashedMerge) :=
  match pending_merges d !! (id, target) with
  | None => Ok None
  | Some m =>
      schema ← ok_or (u8_try_from (pm_schema_version m)) (Corrupted IntegerOverflow);
      Ok (Some (mkStashedMerge (pm_device_secret m) (pm_aead_nonce m) (pm_enc_payload m) schema))
  end.

Definition clear_pending_merge (id : AccountId) (target : RevisionId) : vop unit :=
  maybe_expire_active_session clock ≫= fun _ =>
  d ← get_db;
  put_db (set_pending_merges (delete (id, target) (pending_merges d)) d) ≫= fun _ =>
  touch_session clock.

(** The order of rows of one time, which the query leaves open, by id. *)
Definition revisions_for (id : AccountId) (d : Database) : store_result (list RevisionMeta) := read_revision_rows_for d id.

(** ** [resolve_one] *)

Definition from_stash (s : StashedMerge) : StashRebuild :=
  mkStashRebuild (st_enc_payload s) (st_schema_version s) (verifying_key (from_seed (st_device_secret s))).

Definition compute_canonical_hash (b : StashRebuild) (id : AccountId) (chosen : RevisionId) : Z :=
  canonical_hash vault_id id chosen (rb_device_id b) (rb_schema_version b) (rb_enc_payload b).

(** The anchor of the stashed merge revision when the vault has it. *)
Definition stash_match (stash : option StashedMerge) (dry_run : bool) (id : AccountId) (chosen : RevisionId)
    (d : Database) : store_result (option (StashRebuild * ChainAnchor)) :=
  match stash with
  | Some s =>
      if dry_run then Ok None
      else
        let rebuilt := from_stash s in
        let target := compute_canonical_hash rebuilt id chosen in
        rows ← revisions_for id d;
        Ok ((fun a => (rebuilt, a)) <$> (List.find (fun m => bool_decide (revision_id m = target)) rows ≫= chain_anchor))
  | None => Ok None
  end.

Definition finish_already_on_chain (id : AccountId) (chosen : RevisionId) (rebuilt : StashRebuild)
    (anchor : ChainAnchor) : op S2 (ResolveError X) ResolveOutcome :=
  let merge := compute_canonical_hash rebuilt id chosen in
  in_vault ResolveStore (clear_frozen clock wall id merge) ≫= fun _ =>
  in_vault ResolveStore (best_effort (clear_pending_merge id chosen)) ≫= fun _ =>
  mret (AlreadyOnChain merge anchor).

(** The bytes to submit and the key to sign them with: the stashed ones, or new
    ones. *)
Definition merge_bytes (device_key : Device) (stash : option StashedMerge) (id : AccountId) (chosen : RevisionId) :
    op S2 (ResolveError X) (list Z * Z * Z * Device) :=
  match stash with
  | Some s => mret (st_enc_payload s, st_aead_nonce s, st_schema_version s, from_seed (st_device_secret s))
  | None =>
      '(ct, nonce, schema, _) ← in_vault ResolveStore (build_merge_payload_for_resolve id chosen);
      mret (ct, nonce, schema, device_key)
  end.

(** From the answer of the chain to the end. *)
Definition settle (id : AccountId) (chosen : RevisionId) (signed : SignedRevision) (anchor : ChainAnchor) :
    op S2 (ResolveError X) ResolveOutcome :=
  let merge := signed_hash canonical_hash signed in
  in_vault ResolveStore (ingest (event_of signed anchor)) ≫= fun _ =>
  in_vault ResolveStore (clear_frozen clock wall id merge) ≫= fun _ =>
  in_vault ResolveStore (best_effort (clear_pending_merge id chosen)) ≫= fun _ =>
  in_vault ResolveStore (best_effort (advance_checkpoint (block_number anchor))) ≫= fun _ =>
  mret (ResolvePublished merge anchor).

Definition stash_merge (stash : option StashedMerge) (id : AccountId) (chosen : RevisionId)
    (b : list Z * Z * Z * Device) : vop unit :=
  let '(ct, nonce, schema, key) := b in
  match stash with
  | Some _ => mret tt
  | None => stash_pending_merge id chosen (secret_seed_bytes key) nonce ct schema
  end.

Definition merge_signed (id : AccountId) (chosen : RevisionId) (b : list Z * Z * Z * Device) : SignedRevision :=
  let '(ct, _, schema, key) := b in
  build_signed_revision verifying_key sign canonical_hash key vault_id id chosen schema ct.

(** Where a run stands before the submission. *)
Inductive ResolvePlan : Type :=
| Finished (o : ResolveOutcome)
| Submit (signed : SignedRevision).

Definition plan_merge (device_key : Device) (stash : option StashedMerge) (dry_run : bool) (id : AccountId)
    (chosen : RevisionId) : op S2 (ResolveError X) ResolvePlan :=
  b ← merge_bytes device_key stash id chosen;
  let signed := merge_signed id chosen b in
  if dry_run then mret (Finished (DryRun (signed_hash canonical_hash signed)))
  else in_vault ResolveStore (stash_merge stash id chosen b) ≫= fun _ => mret (Submit signed).

(** The heads after the pull; [None] is [pull_all]'s out-of-fuel value. *)
Definition post_pull_heads (dry_run : bool) (id : AccountId) (pre : list RevisionId) :
    op S2 (ResolveError X) (option (list RevisionId)) :=
  if dry_run then mret (Some pre)
  else
    r ← (fun s => let '(r, s') := pull_all None None s in (map_err ResolveChain r, s'));
    match r with
    | None => mret None
    | Some _ =>
        d ← in_vault ResolveStore get_db;
        post ← lift (map_err (heads_error id) (account_heads d id)); mret (Some post)
    end.

(** The steps up to the submission. *)
Definition resolve_plan (device_key : Device) (id : AccountId) (chosen : RevisionId) (dry_run : bool) :
    op S2 (ResolveError X) (option ResolvePlan) :=
  d ← in_vault ResolveStore get_db;
  pre ← lift (map_err (heads_error id) (account_heads d id));
  stash ← lift (map_err ResolveStore (take_pending_merge id chosen d));
  (if dry_run then mret tt
   else in_vault ResolveStore (best_effort (prune_orphan_pending_merges clock id))) ≫= fun _ =>
  post ← post_pull_heads dry_run id pre;
  match post with
  | None => mret None
  | Some post =>
      d ← in_vault ResolveStore get_db;
      matched ← lift (map_err ResolveStore (stash_match stash dry_run id chosen d));
      match matched with
      | Some (rebuilt, anchor) => o ← finish_already_on_chain id chosen rebuilt anchor; mret (Some (Finished o))
      | None =>
          if existsb (fun h => negb (bool_decide (h ∈ pre))) post then throw (ChainMovedDuringResolve id pre post)
          else if bool_decide (chosen ∈ post) then p ← plan_merge device_key stash dry_run id chosen; mret (Some p)
          else throw (ResolveNotAHead id chosen post)
      end
  end.

Definition resolve_one (device_key : Device) (id : AccountId) (chosen : RevisionId) (dry_run : bool) :
    op S2 (ResolveError X) (option ResolveOutcome) :=
  plan ← resolve_plan device_key id chosen dry_run;
  match plan with
  | None => mret None
  | Some (Finished o) => mret (Some o)
  | Some (Submit signed) =>
      anchor ← in_chain (fun x => ResolveChain (PullChain x)) (publish signed);
      o ← settle id chosen signed anchor; mret (Some o)
  end.
End resolve.

(** ** What a run may change *)

(** Everything but the random generator. *)
Definition only_draws (d d' : Database) : Prop := set_draws 0 d = set_draws 0 d'.

#[export] Instance only_draws_preorder : PreOrder only_draws.
Proof. unfold only_draws. split; [by intros ?|intros ?????; by etrans]. Qed.

Lemma only_draws_fields d d' :
  only_draws d d' ->
  account_identities d' = account_identities d /\ t_revisions d' = t_revisions d
  /\ pending_merges d' = pending_merges d.
Proof. unfold only_draws. destruct d, d'. simpl. by intros [=]. Qed.

(** What a run does short of clearing the freeze: rows stay, with their nonce, new rows
    have the placeholder one, and frozen accounts stay frozen. *)
Record calm (d d' : Database) : Prop := mkCalm {
  calm_keeps : keeps d d';
  calm_nonces : forall k r', t_revisions d' !! k = Some r' ->
    enc_nonce r' = match t_revisions d !! k with Some r => enc_nonce r | None => placeholder_nonce end;
  calm_frozen : forall k, is_account_frozen d k = true -> is_account_frozen d' k = true
}.

#[export] Instance calm_preorder : PreOrder calm.
Proof.
  split.
  - intros d. split; [reflexivity| |done]. intros k r' Hr. by rewrite Hr.
  - intros d1 d2 d3 [K1 N1 F1] [K2 N2 F2]. split.
    + by etrans.
    + intros k r' Hr. rewrite (N2 k r' Hr). destruct (t_revisions d2 !! k) as [r2|] eqn:E2; [by apply N1|].
      destruct (t_revisions d1 !! k) as [r1|] eqn:E1; [|done]. destruct (K1 k r1 E1) as (? & ? & _). congruence.
    + auto.
Qed.

(** And while a known revision [h] is a head of [id], it was one before and its stash
    stays. *)
Record quiet (id : AccountId) (h : RevisionId) (d d' : Database) : Prop := mkQuiet {
  quiet_calm : calm d d';
  quiet_head : is_Some (t_revisions d !! h) -> h ∈ head_query d' id -> h ∈ head_query d id;
  quiet_stash : is_Some (t_revisions d !! h) -> h ∈ head_query d' id ->
    forall m, pending_merges d !! (id, h) = Some m -> pending_merges d' !! (id, h) = Some m
}.

Lemma keeps_Some d d' h : keeps d d' -> is_Some (t_revisions d !! h) -> is_Some (t_revisions d' !! h).
Proof. intros Hk [r Hr]. destruct (Hk h r Hr) as (r' & -> & _). by eexists. Qed.

#[export] Instance quiet_preorder id h : PreOrder (quiet id h).
Proof.
  split; [intros d; by split|].
  intros d1 d2 d3 [C1 H1 S1] [C2 H2 S2]. pose proof (keeps_Some _ _ h (calm_keeps _ _ C1)) as K. split.
  - by etrans.
  - intros Hs Hh. apply H1; [done|]. apply H2; [by apply K|done].
  - intros Hs Hh m Hm. apply S2; [by apply K|done|]. apply S1; [done| |done]. apply H2; [by apply K|done].
Qed.

Lemma head_query_rows d d' id : t_revisions d' = t_revisions d -> head_query d' id = head_query d id.
Proof. intros Hr. unfold head_query, head_rows, is_sql_head, has_honored_child. by rewrite Hr. Qed.

(** A change of the other tables. *)
Lemma calm_same_rows d d' :
  t_revisions d' = t_revisions d ->
  (forall k, is_account_frozen d k = true -> is_account_frozen d' k = true) -> calm d d'.
Proof.
  intros Hr Hf. split; [by apply keeps_eq| |done]. intros k r'. rewrite Hr. intros E. by rewrite E.
Qed.

Lemma quiet_same_rows id h d d' :
  t_revisions d' = t_revisions d ->
  (forall k, is_account_frozen d k = true -> is_account_frozen d' k = true) ->
  (h ∈ head_query d id -> pending_merges d' !! (id, h) = pending_merges d !! (id, h)) ->
  quiet id h d d'.
Proof.
  intros Hr Hf Hp. split; [by apply calm_same_rows| |].
  - intros _. by rewrite (head_query_rows d d').
  - intros _ Hh m Hm. rewrite (head_query_rows d d') in Hh by done. by rewrite Hp.
Qed.

Lemma quiet_draws id h d d' : only_draws d d' -> quiet id h d d'.
Proof.
  intros (Ha & Hr & Hp)%only_draws_fields. apply quiet_same_rows; [done| |by rewrite Hp].
  intros k. unfold is_account_frozen. simpl. by rewrite Ha.
Qed.

(** An ingested event. *)
Lemma quiet_ingest canonical_hash id h ev d d' r : ingest_effect canonical_hash ev d d' r -> quiet id h d d'.
Proof.
  intros He. pose proof (ingest_effect_keeps _ _ _ _ _ He) as [Hk _].
  destruct He as [Hs|err Hn Hs|sa Hn Hs Hp|sa rid Hn Hs Hp Hm|sa now tomb d1 Hn Hs Hp Hm Htx];
    try reflexivity.
  - assert (Hrow : forall k r', t_revisions (update_revisions (fun k _ => bool_decide (k = rid)) (set_row_anchor sa) d) !! k = Some r' ->
      exists r0, t_revisions d !! k = Some r0 /\ enc_nonce r' = enc_nonce r0 /\ row_account r' = row_account r0
        /\ row_parent r' = row_parent r0 /\ row_superseded_by r' = row_superseded_by r0 /\ revoked r' = revoked r0).
    { intros k r'. rewrite update_revisions_lookup. destruct (t_revisions d !! k) as [r0|]; [|done]. cbn.
      intros [= <-]. exists r0. by case_bool_decide. }
    assert (Hfwd : forall k r0, t_revisions d !! k = Some r0 -> exists r', t_revisions
       (update_revisions (fun k _ => bool_decide (k = rid)) (set_row_anchor sa) d) !! k = Some r'
        /\ row_account r' = row_account r0 /\ row_parent r' = row_parent r0 /\ revoked r' = revoked r0).
    { intros k r0 E. rewrite update_revisions_lookup, E. cbn. eexists. split; [done|]. by case_bool_decide. }
    assert (Hheads : forall x, x ∈ head_query (update_revisions (fun k _ => bool_decide (k = rid)) (set_row_anchor sa) d) id ->
              x ∈ head_query d id).
    { intros x (r' & Hx & Ha & Hsup & Hrev & Hch)%elem_of_head_query. destruct (Hrow x r' Hx) as (r0 & H0 & _ & E1 & _ & E3 & E4).
      apply elem_of_head_query. exists r0. split_and!; [done|congruence|congruence|congruence|].
      intros j rj Hj Hpj Haj. destruct (Hfwd j rj Hj) as (rj' & Hj' & E5 & E6 & E7).
      rewrite <- E7. apply (Hch j rj'); [done|congruence|congruence]. }
    split; [split; [done| |done]| |].
    + intros k r' Hr'. destruct (Hrow k r' Hr') as (r0 & -> & E & _). exact E.
    + intros _. apply Hheads.
    + done.
  - apply tx_ingest_effect in Htx as Heff. destruct Heff as (Hrev & _ & a' & Hacc & Hfr & _).
    split; [split; [done| |]| |].
    + intros k r'. rewrite Hrev. destruct (decide (k = event_id canonical_hash ev)) as [->|Hne].
      * rewrite lookup_insert_eq. intros [= <-]. by rewrite Hn.
      * rewrite lookup_insert_ne by done. intros E. by rewrite E.
    + intros k. unfold is_account_frozen. simpl. rewrite Hacc.
      destruct (decide (k = ev_account_id ev)) as [->|Hne]; [|by rewrite lookup_insert_ne].
      rewrite lookup_insert_eq. cbn. by rewrite Hfr.
    + intros [r0 Hr0] (r' & Hr' & Ha & Hsup & Hv & Hch)%elem_of_head_query. apply elem_of_head_query.
      rewrite Hrev in Hr', Hch. assert (Hne : h <> event_id canonical_hash ev) by congruence.
      rewrite lookup_insert_ne in Hr' by done. exists r'. split_and!; [done..|].
      intros j rj Hj. apply (Hch j). rewrite lookup_insert_ne; [done|]. congruence.
    + intros _ _ m. revert Htx. unfold tx_ingest, insert_account, mbind, result_bind.
      destruct (account_identities d !! ev_account_id ev);
        (destruct (insert_revision _ _ _) as [d2|] eqn:Ei; [|done]); intros [= <-];
        apply insert_revision_Ok in Ei as (_ & _ & ->); done.
Qed.

Lemma quiet_prune id h k d : quiet id h d (tx_prune_pending_merges k d).
Proof.
  apply quiet_same_rows; [done|done|]. intros Hh. cbn.
  destruct (pending_merges d !! (id, h)) as [m|] eqn:E.
  - apply map_lookup_filter_Some. split; [done|]. cbn. destruct (decide (id = k)) as [->|Hne]; [by right|by left].
  - apply map_lookup_filter_None. by left.
Qed.

(** ** Every step is one of these *)

Section moves.
Context {Snapshot Identity Key Index P C X Device : Type} `{!ChainAdapter C X}.
Context (clock wall rng : nat -> Z) (vault_id : Z).
Context (canonical_hash : Z -> Z -> Z -> Z -> Z -> list Z -> Z)
        (seal_snapshot : Key -> Z -> Snapshot -> Aad -> store_result (list Z))
        (seal_payload : Key -> Z -> DecodedPayload Identity -> Aad -> store_result (list Z))
        (open_payload : Key -> Z -> list Z -> Aad -> store_result (DecodedPayload Snapshot))
        (canonical_device : Z -> bool).

Notation W := (World Database Snapshot Key Index P).
Notation vop := (op W StoreError).
Notation S2 := (W * C)%type.

Definition on_db (R : relation Database) : relation W := fun w w' => R (db (vault w)) (db (vault w')).
Definition on_db2 (R : relation Database) : relation S2 := fun s s' => R (db (vault s.1)) (db (vault s'.1)).

#[export] Instance on_db_preorder R : PreOrder R -> PreOrder (on_db R).
Proof. intros HR. unfold on_db. split; [by intros ?|intros ?????; by etrans]. Qed.
#[export] Instance on_db2_preorder R : PreOrder R -> PreOrder (on_db2 R).
Proof. intros HR. unfold on_db2. split; [by intros ?|intros ?????; by etrans]. Qed.

Notation draws m := (moves (on_db only_draws) m).

Lemma check_draws : draws (check_session_freshness clock : vop unit).
Proof.
  intros w. unfold on_db. rewrite check_session_freshness_eq.
  destruct (session_state (vault w)); try done. case_match; done.
Qed.
Lemma maybe_expire_draws : draws (maybe_expire_active_session clock : vop unit).
Proof. intros w. unfold on_db. destruct (maybe_expire_total clock w) as (w' & -> & Hd). cbn. by rewrite Hd. Qed.
Lemma touch_draws : draws (touch_session clock : vop unit).
Proof. intros w. unfold on_db. destruct (touch_session_total clock w) as (w' & -> & _ & _ & Hd). cbn. by rewrite Hd. Qed.
Lemma require_active_draws : draws (require_active : vop _).
Proof. intros w. unfold require_active, gets, lift, mbind, op_bind. cbn. by destruct (active (vault w)). Qed.
Lemma random_32_draws : draws (random_32 rng : vop Z).
Proof. by intros w. Qed.
Lemma current_unix_ms_draws : draws (current_unix_ms wall : vop Z).
Proof. by intros w. Qed.
Lemma get_db_draws : draws (get_db : vop Database).
Proof. by intros w. Qed.

Hint Resolve check_draws maybe_expire_draws touch_draws require_active_draws random_32_draws current_unix_ms_draws
  get_db_draws : pangolin.

Lemma read_payload_draws id rid : draws (read_payload_plaintext_for_resolve clock vault_id open_payload id rid : vop Snapshot).
Proof. unfold read_payload_plaintext_for_resolve. moving. Qed.
Hint Resolve read_payload_draws : pangolin.

Lemma build_merge_draws id chosen :
  draws (build_merge_payload_for_resolve clock wall rng vault_id seal_snapshot seal_payload open_payload id chosen : vop _).
Proof. unfold build_merge_payload_for_resolve. moving. Qed.

(** *** Short of the freeze *)

Section quiet.
Context (id : AccountId) (h : RevisionId).
Notation still m := (moves (on_db (quiet id h)) m).
Notation still2 m := (moves (on_db2 (quiet id h)) m).

Lemma draws_still {A} (m : vop A) : draws m -> still m.
Proof. intros Hm w. by apply quiet_draws, Hm. Qed.

Lemma ingest_still ev : still (ingest_chain_revision clock wall vault_id canonical_hash open_payload ev : vop _).
Proof.
  intros w. destruct (ingest_run clock wall vault_id canonical_hash open_payload ev w) as (r & w' & -> & He).
  by eapply quiet_ingest.
Qed.

Lemma best_effort_still {A} (m : vop A) : still m -> still (best_effort m).
Proof. intros Hm w. apply Hm. Qed.

Lemma prune_still k : still (prune_orphan_pending_merges clock k : vop Z).
Proof.
  unfold prune_orphan_pending_merges. apply moves_bind; [apply _|apply draws_still, maybe_expire_draws|intros _].
  intros w. unfold get_db, put_db, gets, modify, lift, mbind, op_bind. simpl.
  destruct (account_identities (db (vault w)) !! k) as [a|]; simpl; [|unfold on_db; reflexivity].
  set (w1 := map_vault _ w). destruct (touch_session_total clock w1) as (w2 & -> & _ & _ & Hd).
  unfold on_db. cbn. rewrite Hd. cbn. apply quiet_prune.
Qed.

Lemma prune_touched_still ids : still (prune_touched clock ids : vop unit).
Proof.
  induction ids as [|k ids IH]; [apply moves_ret; apply _|].
  cbn [prune_touched]. apply moves_bind; [apply _|apply best_effort_still, prune_still|done].
Qed.

Lemma advance_still b : still (advance_checkpoint b : vop unit).
Proof.
  intros w. unfold advance_checkpoint, get_db, put_db, gets, modify, lift, mbind, op_bind. cbn.
  destruct (advance_last_pulled_block b (db (vault w))) as [d'|e] eqn:E; [|unfold on_db; reflexivity].
  unfold advance_last_pulled_block, mbind, result_bind in E.
  destruct (last_pulled_block _); [|done]. unfold on_db. cbn.
  destruct (b <? _); [done|]. destruct (b =? _); [injection E as <-; reflexivity|].
  destruct (ok_or _ _); [|done]. injection E as <-. by apply quiet_same_rows.
Qed.

Lemma in_vault_still {E A} (f : StoreError -> E) (m : vop A) : still m -> still2 (in_vault (C := C) f m).
Proof. intros Hm [w c]. unfold in_vault. specialize (Hm w). cbn. by destruct (m w). Qed.
Lemma in_chain_still {E A} (f : X -> E) (m : op C X A) : still2 (in_chain (Snapshot := Snapshot) (Key := Key) (Index := Index) (P := P) f m).
Proof. intros [w c]. unfold in_chain, on_db2. cbn. destruct (m c). cbn. reflexivity. Qed.

Notation pull_all := (pull_all clock wall vault_id canonical_hash open_payload canonical_device
  : option Z -> option Z -> op S2 (PullError X) (option PullReport)).

Lemma ingest_events_still evs n touched :
  still2 (ingest_events clock wall vault_id canonical_hash open_payload canonical_device evs n touched : op S2 (PullError X) _).
Proof.
  revert n touched. induction evs as [|ev evs IH]; intros n touched; [apply moves_ret; apply _|].
  cbn [ingest_events]. destruct (canonical_device _); [|apply moves_throw; apply _].
  apply moves_bind; [apply _|apply in_vault_still, ingest_still|intros o]. apply IH.
Qed.

Lemma pull_chunk_still a b n touched :
  still2 (pull_chunk clock wall vault_id canonical_hash open_payload canonical_device a b n touched : op S2 (PullError X) _).
Proof.
  unfold pull_chunk. apply moves_bind; [apply _|apply in_chain_still|intros evs].
  apply moves_bind; [apply _|apply ingest_events_still|intros [n' t']].
  apply moves_bind; [apply _|apply in_vault_still, advance_still|intros _].
  apply moves_bind; [apply _|apply in_vault_still, prune_touched_still|intros _]. apply moves_ret; apply _.
Qed.

Lemma pull_chunks_still fuel a b n touched :
  still2 (pull_chunks clock wall vault_id canonical_hash open_payload canonical_device fuel a b n touched : op S2 (PullError X) _).
Proof.
  revert a n touched. induction fuel as [|fuel IH]; intros a n touched; cbn [pull_chunks];
    (destruct (a <? b); [|apply moves_ret; apply _]); [apply moves_ret; apply _|].
  apply moves_bind; [apply _|apply pull_chunk_still|intros [n' t']]. apply IH.
Qed.

Lemma pull_all_still a b : still2 (pull_all a b).
Proof.
  unfold Sync.pull_all. apply moves_bind; [apply _| |intros start].
  { destruct a; [apply moves_ret; apply _|]. apply moves_bind; [apply _|by apply in_vault_still, draws_still, get_db_draws|intros d].
    apply in_vault_still, moves_lift; apply _. }
  apply moves_bind; [apply _| |intros head].
  { destruct b; [apply moves_ret; apply _|apply in_chain_still]. }
  destruct (head <=? start); [apply moves_ret; apply _|].
  apply moves_bind; [apply _|apply pull_chunks_still|intros [[[n t] last]|]]; [|apply moves_ret; apply _].
  apply moves_bind; [apply _|by apply in_vault_still, draws_still, get_db_draws|intros d].
  apply moves_bind; [apply _|by apply in_vault_still, moves_lift; apply _|intros forks]. apply moves_ret; apply _.
Qed.

Lemma post_pull_heads_still dry_run pre :
  still2 (post_pull_heads clock wall vault_id canonical_hash open_payload canonical_device dry_run id pre : op S2 (ResolveError X) _).
Proof.
  unfold post_pull_heads. destruct dry_run; [apply moves_ret; apply _|]. apply moves_bind; [apply _| |intros r].
  { intros s. pose proof (pull_all_still None None s) as Hp. by destruct (pull_all None None s). }
  destruct r; [|apply moves_ret; apply _].
  apply moves_bind; [apply _|by apply in_vault_still, draws_still, get_db_draws|intros d].
  apply moves_bind; [apply _|apply moves_lift; apply _|intros post]. apply moves_ret; apply _.
Qed.
End quiet.
End moves.

(** ** The flow *)

Section flow.
Context {Snapshot Identity Key Index P C X Device : Type} `{!ChainAdapter C X}.
Context (clock wall rng : nat -> Z) (vault_id : Z).
Context (verifying_key : Device -> Z) (sign : Device -> Z -> Z) (from_seed : Z -> Device) (secret_seed_bytes : Device -> Z).
Context (canonical_hash : Z -> Z -> Z -> Z -> Z -> list Z -> Z)
        (seal_snapshot : Key -> Z -> Snapshot -> Aad -> store_result (list Z))
        (seal_payload : Key -> Z -> DecodedPayload Identity -> Aad -> store_result (list Z))
        (open_payload : Key -> Z -> list Z -> Aad -> store_result (DecodedPayload Snapshot))
        (canonical_device : Z -> bool).

Notation W := (World Database Snapshot Key Index P).
Notation vop := (op W StoreError).
Notation S2 := (W * C)%type.
Notation resolve_plan := (resolve_plan (Snapshot := Snapshot) (Key := Key) (Index := Index) (P := P) (C := C) (X := X) clock wall rng vault_id verifying_key sign from_seed secret_seed_bytes canonical_hash
  seal_snapshot seal_payload open_payload canonical_device).
Notation resolve_one := (resolve_one (Snapshot := Snapshot) (Key := Key) (Index := Index) (P := P) (C := C) (X := X) clock wall rng vault_id verifying_key sign from_seed secret_seed_bytes canonical_hash
  seal_snapshot seal_payload open_payload canonical_device).
Notation plan_merge := (plan_merge (Snapshot := Snapshot) (Key := Key) (Index := Index) (P := P) (C := C) (X := X) clock wall rng vault_id verifying_key sign from_seed secret_seed_bytes canonical_hash
  seal_snapshot seal_payload open_payload).
Notation merge_signed := (merge_signed vault_id verifying_key sign canonical_hash).
Notation finish_already_on_chain := (finish_already_on_chain (Snapshot := Snapshot) (Key := Key) (Index := Index) (P := P) (C := C) (X := X) clock wall vault_id canonical_hash).
Notation stash_match := (stash_match vault_id verifying_key from_seed canonical_hash).
Notation settle := (settle (Snapshot := Snapshot) (Key := Key) (Index := Index) (P := P) (C := C) (X := X) clock wall vault_id canonical_hash open_payload).
Notation rebuilt_hash st id chosen := (compute_canonical_hash vault_id canonical_hash (from_stash verifying_key from_seed st) id chosen).
Notation stashed_bytes st := (st_enc_payload st, st_aead_nonce st, st_schema_version st, from_seed (st_device_secret st)).

Lemma clear_frozen_inv id m (w : W) r w' :
  clear_frozen clock wall id m w = (r, w') ->
  match r with
  | Ok _ => exists acc now, account_identities (db (vault w)) !! id = Some acc /\ m ∈ head_query (db (vault w)) id
      /\ t_revisions (db (vault w')) = t_revisions (db (vault w))
      /\ account_identities (db (vault w'))
         = <[id := mkAccountRow (account_created_at acc) now (tombstoned acc) m false]> (account_identities (db (vault w)))
  | Err _ => db (vault w') = db (vault w)
  end.
Proof.
  unfold clear_frozen, clear_frozen_prepare. intros Hr. destruct (maybe_expire_total clock w) as (w1 & Hm & Hd).
  rewrite op_bind_eq in Hr. rewrite op_bind_eq, Hm in Hr.
  unfold get_db, gets, lift, current_unix_ms, throw, mbind, op_bind in Hr. cbn in Hr. rewrite Hd in Hr.
  destruct (account_identities (db (vault w)) !! id) as [acc|] eqn:Ea; cbn in Hr; [|by injection Hr as <- <-].
  destruct (t_revisions (db (vault w)) !! m) as [row|]; cbn in Hr; [|by injection Hr as <- <-].
  case_bool_decide; cbn in Hr; [|by injection Hr as <- <-].
  match type of Hr with context [transaction ?f ?w2] => destruct (transaction f w2) as [r1 w3] eqn:Et end.
  apply transaction_inv in Et. cbn in Et. rewrite Hd in Et. destruct r1 as [u|e].
  - destruct Et as (d' & Htx & ->). match type of Hr with touch_session clock ?w2 = _ =>
      destruct (touch_session_total clock w2) as (w4 & Ht & _ & _ & Hd4) end.
    rewrite Ht in Hr. injection Hr as <- <-. unfold tx_clear_frozen in Htx. case_bool_decide as Hh; [|done].
    injection Htx as <- _. rewrite Hd4. cbn. exists acc. eexists. split_and!; [done|done|done|]. rewrite (alter_Some _ _ _ acc) by done. reflexivity.
  - destruct Et as [_ ->]. injection Hr as <- <-. cbn. done.
Qed.

(** The accounts and the rows stay. *)
Definition same_accounts (d d' : Database) : Prop :=
  account_identities d' = account_identities d /\ t_revisions d' = t_revisions d.

Lemma clear_pending_run id h (w : W) :
  same_accounts (db (vault w)) (db (vault (best_effort (clear_pending_merge clock id h) w).2)).
Proof.
  unfold best_effort, clear_pending_merge. destruct (maybe_expire_total clock w) as (w1 & Hm & Hd).
  rewrite (op_bind_run _ _ _ _ _ Hm). unfold get_db, put_db, gets, modify. rewrite op_bind_eq. rewrite op_bind_eq.
  match goal with |- context [touch_session clock ?w2] => destruct (touch_session_total clock w2) as (w3 & -> & _ & _ & Hd3) end.
  cbn. rewrite Hd3. cbn. rewrite Hd. done.
Qed.

Lemma advance_run b (w : W) : same_accounts (db (vault w)) (db (vault (best_effort (advance_checkpoint b) w).2)).
Proof.
  unfold best_effort, advance_checkpoint, get_db, put_db, gets, modify, lift, mbind, op_bind. cbn.
  destruct (advance_last_pulled_block b (db (vault w))) as [d'|e] eqn:E; [|done].
  unfold advance_last_pulled_block, mbind, result_bind in E. cbn. destruct (last_pulled_block _); [|done].
  destruct (b <? _); [done|]. destruct (b =? _); [by injection E as <-|].
  destruct (ok_or _ _); [|done]. by injection E as <-.
Qed.

(** The account after the freeze was cleared. *)
Definition resolved (d d' : Database) (id : AccountId) (m : RevisionId) : Prop :=
  (exists acc, account_identities d' !! id = Some acc /\ head_revision_id acc = m /\ frozen acc = false)
  /\ (exists row, t_revisions d' !! m = Some row /\ row_account row = id
        /\ (t_revisions d !! m = None -> enc_nonce row = placeholder_nonce))
  /\ (forall k, k <> id -> is_account_frozen d k = true -> is_account_frozen d' k = true).

Lemma resolved_intro id m (d d1 d2 d3 : Database) acc now :
  calm d d1 -> account_identities d1 !! id = Some acc -> m ∈ head_query d1 id ->
  t_revisions d2 = t_revisions d1 ->
  account_identities d2 = <[id := mkAccountRow (account_created_at acc) now (tombstoned acc) m false]> (account_identities d1) ->
  same_accounts d2 d3 -> resolved d d3 id m /\ keeps d d3.
Proof.
  intros Hq Ha Hh Hr2 Ha2 [Ha3 Hr3]. split; [split_and!|].
  - rewrite Ha3, Ha2, lookup_insert_eq. by eexists.
  - apply elem_of_head_query in Hh as (row & Hrow & Hacc & _). exists row. rewrite Hr3, Hr2. split_and!; [done|done|].
    intros Hn. pose proof (calm_nonces _ _ Hq m row Hrow) as H. by rewrite Hn in H.
  - intros k Hk Hf. apply (calm_frozen _ _ Hq) in Hf. revert Hf. unfold is_account_frozen. cbn.
    by rewrite Ha3, Ha2, lookup_insert_ne.
  - etrans; [apply Hq|]. apply keeps_eq. by rewrite Hr3.
Qed.

Lemma finish_inv id chosen rb anchor (s0 s : S2) r s' :
  on_db2 calm s0 s -> finish_already_on_chain id chosen rb anchor s = (r, s') ->
  s'.2 = s.2
  /\ match r with
     | Ok o => o = AlreadyOnChain (compute_canonical_hash vault_id canonical_hash rb id chosen) anchor
         /\ resolved (db (vault s0.1)) (db (vault s'.1)) id (compute_canonical_hash vault_id canonical_hash rb id chosen)
         /\ keeps (db (vault s0.1)) (db (vault s'.1))
     | Err _ => on_db2 calm s0 s'
     end.
Proof.
  intros Hq. unfold Resolve.finish_already_on_chain. rewrite op_bind_eq. unfold in_vault at 1. destruct s as [w c]. cbn.
  destruct (clear_frozen clock wall id _ w) as [r1 w1] eqn:Ec. apply clear_frozen_inv in Ec. cbn.
  destruct r1 as [u|e]; cbn.
  2: { intros [= <- <-]. split; [done|]. unfold on_db2 in *. cbn in *. by rewrite Ec. }
  destruct Ec as (acc & now & Ha & Hh & Hr & Ha'). rewrite op_bind_eq. unfold in_vault.
  pose proof (clear_pending_run id chosen w1) as Hcp. cbn in Hcp |- *.
  intros [= <- <-]. cbn in *. split; [done|]. split; [done|].
  eapply resolved_intro; [exact Hq|exact Ha|exact Hh|exact Hr|exact Ha'|exact Hcp].
Qed.

Lemma settle_inv id chosen signed anchor (s0 s : S2) r s' :
  on_db2 calm s0 s -> settle id chosen signed anchor s = (r, s') ->
  s'.2 = s.2
  /\ match r with
     | Ok o => o = ResolvePublished (signed_hash canonical_hash signed) anchor
         /\ resolved (db (vault s0.1)) (db (vault s'.1)) id (signed_hash canonical_hash signed)
         /\ keeps (db (vault s0.1)) (db (vault s'.1))
     | Err _ => on_db2 calm s0 s'
     end.
Proof.
  intros Hq. unfold Resolve.settle. rewrite op_bind_eq. unfold in_vault at 1. destruct s as [w c]. cbn.
  pose proof (ingest_still clock wall vault_id canonical_hash open_payload id GENESIS_PARENT (event_of signed anchor) w) as Hi.
  destruct (ingest_chain_revision _ _ _ _ _ (event_of signed anchor) w) as [r0 w0]. cbn in *.
  apply quiet_calm in Hi.
  assert (Hq0 : on_db2 calm s0 (w0, c)) by (unfold on_db2, on_db in *; cbn in *; by etrans).
  destruct r0 as [o|e]; cbn; [|by intros [= <- <-]].
  rewrite op_bind_eq. unfold in_vault at 1. cbn.
  destruct (clear_frozen clock wall id _ w0) as [r1 w1] eqn:Ec. apply clear_frozen_inv in Ec. cbn.
  destruct r1 as [u|e]; cbn.
  2: { intros [= <- <-]. split; [done|]. unfold on_db2 in *. cbn in *. by rewrite Ec. }
  destruct Ec as (acc & now & Ha & Hh & Hr & Ha'). rewrite op_bind_eq. unfold in_vault. cbn.
  pose proof (clear_pending_run id chosen w1) as Hcp. cbn in Hcp |- *.
  set (w2 := (clear_pending_merge clock id chosen w1).2) in *. clearbody w2.
  pose proof (advance_run (block_number anchor) w2) as Had. cbn in Had |- *.
  rewrite op_bind_eq. cbn.
  intros [= <- <-]. cbn in *. split; [done|]. split; [done|].
  eapply resolved_intro; [exact Hq0|exact Ha|exact Hh|exact Hr|exact Ha'|].
  destruct Hcp as [E1 E2], Had as [E3 E4]. split; cbn in *; congruence.
Qed.

Lemma merge_signed_hash st id chosen :
  signed_hash canonical_hash (merge_signed id chosen (stashed_bytes st)) = rebuilt_hash st id chosen.
Proof. done. Qed.

(** The stash of a state, as a run reads it. *)
Notation stash_of id h s := (take_pending_merge id h (db (vault s.1))).

Lemma take_pending_Some id h d st :
  take_pending_merge id h d = Ok (Some st) <->
  exists m, pending_merges d !! (id, h) = Some m /\ u8_try_from (pm_schema_version m) = Some (st_schema_version st)
    /\ st = mkStashedMerge (pm_device_secret m) (pm_aead_nonce m) (pm_enc_payload m) (st_schema_version st).
Proof.
  unfold take_pending_merge, mbind, result_bind. destruct (pending_merges d !! (id, h)) as [m|]; [|naive_solver].
  destruct (u8_try_from (pm_schema_version m)) as [v|] eqn:E; cbn; [|naive_solver]. split.
  - intros [= <-]. by exists m.
  - intros (m' & [= <-] & E' & ->). rewrite E in E'. by injection E' as ->.
Qed.

Lemma build_merge_schema id h (w w' : W) ct nonce schema tomb :
  build_merge_payload_for_resolve clock wall rng vault_id seal_snapshot seal_payload open_payload id h w
    = (Ok (ct, nonce, schema, tomb), w') -> u8_try_from schema = Some schema.
Proof.
  unfold build_merge_payload_for_resolve. intros Hr.
  apply op_bind_Ok in Hr as (u0 & s0 & _ & Hr). apply op_bind_Ok in Hr as (a0 & s1 & _ & Hr).
  apply op_bind_Ok in Hr as (d & s2 & _ & Hr). apply op_bind_Ok in Hr as (row & s3 & _ & Hr).
  apply op_bind_Ok in Hr as (u1 & s4 & _ & Hr). apply op_bind_Ok in Hr as (v & s5 & Hv & Hr).
  apply op_bind_Ok in Hr as (a & s6 & _ & Hr). apply op_bind_Ok in Hr as ([ct' n'] & s7 & _ & Hr).
  apply op_bind_Ok in Hr as (u2 & s8 & _ & Hr). injection Hr as <- <- <- <- <-.
  unfold lift in Hv. destruct (u8_try_from (row_schema row)) as [x|] eqn:E; [|done]. injection Hv as <- _.
  apply try_from_Some. by apply try_from_Some in E as [<- H].
Qed.

(** Up to the submission of a fresh merge or of the stashed one. *)
Lemma plan_merge_inv device_key stash dry_run id h (s : S2) r s' :
  plan_merge device_key stash dry_run id h s = (r, s') ->
  s'.2 = s.2 /\ on_db2 calm s s'
  /\ match r with
     | Err _ => True
     | Ok (Finished o) => dry_run = true /\ on_db2 only_draws s s' /\ exists x, o = DryRun x
     | Ok (Submit signed) => dry_run = false /\
         match stash with
         | Some st => signed = merge_signed id h (stashed_bytes st) /\ s' = s
         | None => exists st, stash_of id h s' = Ok (Some st)
             /\ ((forall k, from_seed (secret_seed_bytes k) = k) -> signed = merge_signed id h (stashed_bytes st))
             /\ sr_account_id signed = id /\ sr_parent_revision signed = h
         end
     end.
Proof.
  unfold Resolve.plan_merge. rewrite op_bind_eq. destruct stash as [st|]; cbn.
  { destruct dry_run.
    - intros [= <- <-]. split_and!; [done|unfold on_db2; reflexivity|done|unfold on_db2; reflexivity|by eexists].
    - rewrite op_bind_eq. unfold in_vault. cbn. destruct s as [w c]. cbn. intros [= <- <-].
      split_and!; [done|unfold on_db2; reflexivity|done..]. }
  unfold merge_bytes. rewrite op_bind_eq. unfold in_vault at 1. destruct s as [w c]. cbn.
  pose proof (build_merge_draws clock wall rng vault_id seal_snapshot seal_payload open_payload id h w) as Hb.
  destruct (build_merge_payload_for_resolve _ _ _ _ _ _ _ id h w) as [[[[[ct nonce] schema] tomb]|e] w1] eqn:Eb; cbn in *.
  2: { intros [= <- <-]. split_and!; [done|by apply (quiet_calm id h), quiet_draws|done]. }
  assert (Hq : calm (db (vault w)) (db (vault w1))) by by apply (quiet_calm id h), quiet_draws.
  destruct dry_run. { intros [= <- <-]. split_and!; [done|done|done|done|by eexists]. }
  rewrite op_bind_eq. unfold in_vault. cbn. unfold stash_pending_merge.
  destruct (maybe_expire_total clock w1) as (w2 & Hm & Hd). rewrite (op_bind_run _ _ _ _ _ Hm).
  unfold current_unix_ms, get_db, put_db, gets, modify. do 3 (rewrite op_bind_eq).
  match goal with |- context [touch_session clock ?w3] => destruct (touch_session_total clock w3) as (w4 & -> & _ & _ & Hd4) end.
  cbn. intros [= <- <-]. cbn in *. split; [done|]. split.
  { unfold on_db2. cbn. etrans; [exact Hq|]. rewrite Hd4, Hd. by apply calm_same_rows. }
  split; [done|]. exists (mkStashedMerge (secret_seed_bytes device_key) nonce ct schema). split; [|split; [|done]].
  - apply take_pending_Some. rewrite Hd4. cbn. rewrite lookup_insert_eq. eexists. split; [reflexivity|].
    split; [|done]. cbn. by eapply build_merge_schema.
  - intros Hinv. cbn. by rewrite Hinv.
Qed.
(** How far a run gets: it stops early, or it has pulled and knows the heads before and
    after. *)
Inductive progress (device_key : Device) (id : AccountId) (h : RevisionId) (dry_run : bool) (s : S2) :
    result (ResolveError X) (option ResolvePlan) -> S2 -> Prop :=
| Stopped r s1 :
    (is_ok r = false \/ r = Ok None) -> on_db2 (quiet id h) s s1 -> progress device_key id h dry_run s r s1
| OnChain st rb anchor s2 r1 s1 :
    stash_of id h s = Ok (Some st) -> rb = from_stash verifying_key from_seed st -> dry_run = false ->
    on_db2 (quiet id h) s s2 -> finish_already_on_chain id h rb anchor s2 = (r1, s1) ->
    progress device_key id h dry_run s (p ← r1; Ok (Some (Finished p))) s1
| Planned stash s2 r1 s1 :
    stash_of id h s = Ok stash -> h ∈ head_query (db (vault s.1)) id -> h ∈ head_query (db (vault s2.1)) id ->
    on_db2 (quiet id h) s s2 -> (dry_run = true -> s2 = s) ->
    plan_merge device_key stash dry_run id h s2 = (r1, s1) ->
    progress device_key id h dry_run s (p ← r1; Ok (Some p)) s1.

Lemma account_heads_Ok d id hs :
  map_err (heads_error (X := X) id) (account_heads d id) = Ok hs -> hs = head_query d id.
Proof. unfold account_heads. destruct (account_identities d !! id); [|done]. by intros [= <-]. Qed.

Lemma post_pull_heads_Ok dry_run id pre (s s' : S2) post :
  post_pull_heads clock wall vault_id canonical_hash open_payload canonical_device dry_run id pre s = (Ok (Some post), s') ->
  (dry_run = true /\ s' = s /\ post = pre) \/ (dry_run = false /\ post = head_query (db (vault s'.1)) id).
Proof.
  unfold post_pull_heads. destruct dry_run; [intros [= <- <-]; by left|]. intros Hr. right. split; [done|].
  apply op_bind_Ok in Hr as (r & s1 & _ & Hr). destruct r; [|done].
  apply op_bind_Ok in Hr as (d & s2 & Hd & Hr). unfold in_vault, get_db, gets in Hd. cbn in Hd. injection Hd as <- <-.
  apply op_bind_Ok in Hr as (hs & s3 & Hh & Hr). injection Hr as <- <-. unfold lift in Hh. injection Hh as Hh <-.
  cbn. by apply account_heads_Ok in Hh.
Qed.

Lemma stash_match_Some stash dry_run id h d rb anchor :
  stash_match stash dry_run id h d = Ok (Some (rb, anchor)) ->
  dry_run = false /\ exists st, stash = Some st /\ rb = from_stash verifying_key from_seed st.
Proof.
  unfold Resolve.stash_match. destruct stash as [st|]; [|done]. destruct dry_run; [done|]. unfold mbind, result_bind.
  destruct (revisions_for id d) as [rows|]; [|done]. intros [= Hf]. split; [done|]. exists st. split; [done|].
  apply fmap_Some in Hf as (a & _ & [= -> _]). done.
Qed.

Lemma resolve_plan_progress device_key id h dry_run (s : S2) r s1 :
  resolve_plan device_key id h dry_run s = (r, s1) -> progress device_key id h dry_run s r s1.
Proof.
  unfold Resolve.resolve_plan. rewrite (op_bind_run (in_vault ResolveStore get_db) _ s _ s) by (by destruct s).
  destruct s as [w c]. cbn [fst]. rewrite op_bind_eq. unfold lift at 1.
  destruct (map_err (heads_error id) (account_heads (db (vault w)) id)) as [pre|e] eqn:Epre.
  2: { intros [= <- <-]. apply Stopped; [by left|unfold on_db2; reflexivity]. }
  apply account_heads_Ok in Epre. rewrite op_bind_eq. unfold lift at 1.
  destruct (take_pending_merge id h (db (vault w))) as [stash|e] eqn:Est; cbn.
  2: { intros [= <- <-]. apply Stopped; [by left|unfold on_db2; reflexivity]. }
  set (s0 := (w, c)). set (prune := if dry_run then mret tt else _).
  assert (Hpr : exists sp, prune s0 = (Ok tt, sp) /\ on_db2 (quiet id h) s0 sp /\ (dry_run = true -> sp = s0)).
  { unfold prune. destruct dry_run; [exists s0; split_and!; [done|unfold on_db2; reflexivity|done]|].
    unfold in_vault, best_effort. cbn. eexists. split; [reflexivity|]. split; [|done].
    apply (prune_still clock id h id w). }
  destruct Hpr as (sp & Hp & Hqp & Hdp). rewrite (op_bind_run _ _ _ _ _ Hp). rewrite op_bind_eq.
  pose proof (post_pull_heads_still clock wall vault_id canonical_hash open_payload canonical_device id h dry_run pre sp) as Hq.
  destruct (post_pull_heads _ _ _ _ _ _ dry_run id pre sp) as [ro s2] eqn:Epost. cbn in Hq.
  assert (Hq2 : on_db2 (quiet id h) s0 s2) by (by etrans).
  destruct ro as [[post|]|e].
  2,3: intros [= <- <-]; apply Stopped; [auto|done].
  apply post_pull_heads_Ok in Epost. destruct s2 as [w2 c2].
  rewrite (op_bind_run (in_vault ResolveStore get_db) _ (w2, c2) _ (w2, c2) eq_refl). cbn [fst]. rewrite op_bind_eq. unfold lift.
  destruct (stash_match stash dry_run id h (db (vault w2))) as [[[rb anchor]|]|e] eqn:Em; cbn.
  3: { intros [= <- <-]. by apply Stopped; [left|]. }
  - apply stash_match_Some in Em as (Hdry & st & -> & Hrb). rewrite op_bind_eq.
    destruct (finish_already_on_chain id h rb anchor (w2, c2)) as [r1 s3] eqn:Ef. intros Hr.
    replace r with (p ← r1; Ok (Some (Finished p)) : result (ResolveError X) (option ResolvePlan)) by (by destruct r1; injection Hr).
    replace s1 with s3 by (by destruct r1; injection Hr). by eapply OnChain.
  - destruct (existsb _ post) eqn:Ex; [intros [= <- <-]; by apply Stopped; [left|]|].
    case_bool_decide as Hin; [|intros [= <- <-]; by apply Stopped; [left|]]. rewrite op_bind_eq.
    destruct (plan_merge device_key stash dry_run id h (w2, c2)) as [r1 s3] eqn:Ef. intros Hr.
    replace r with (p ← r1; Ok (Some p) : result (ResolveError X) (option ResolvePlan)) by (by destruct r1; injection Hr).
    replace s1 with s3 by (by destruct r1; injection Hr).
    assert (Hpre : h ∈ pre).
    { destruct (decide (h ∈ pre)) as [|Hn]; [done|]. exfalso. apply not_true_iff_false in Ex. apply Ex, existsb_exists.
      exists h. split; [by apply list_elem_of_In|]. by rewrite bool_decide_eq_false_2. }
    rewrite Epre in Hpre. eapply Planned; [done|exact Hpre| |exact Hq2| |exact Ef].
    + destruct Epost as [(Hd & E & _)|(_ & E)]; [|by rewrite E in Hin]. by rewrite E, (Hdp Hd).
    + intros Hd. destruct Epost as [(_ & E & _)|(Hd' & _)]; [by rewrite E, (Hdp Hd)|congruence].
Qed.

(** The pull inside a run comes to an end. *)
Lemma pull_chunks_ends fuel start head n touched (s : S2) :
  (Z.to_nat (head - start) <= fuel)%nat -> 0 <= start -> head <= U64_MAX ->
  (pull_chunks clock wall vault_id canonical_hash open_payload canonical_device fuel start head n touched s).1 <> Ok None.
Proof.
  revert start n touched s. induction fuel as [|fuel IH]; intros start n touched s Hf Hst Hhd; simpl;
    destruct (start <? head) eqn:Elt; zbool; [lia|done| |done].
  rewrite op_bind_eq. destruct (pull_chunk _ _ _ _ _ _ _ _ _ _ s) as [[[n' t']|e] s1]; [|done].
  apply IH; unfold saturating_add, PULL_CHUNK_SIZE, U64_MAX in *; lia.
Qed.

Lemma pull_ends (s : S2) :
  (forall b, (current_block s.2).1 = Ok b -> b <= U64_MAX) ->
  (pull_all clock wall vault_id canonical_hash open_payload canonical_device None None s).1 <> Ok None.
Proof.
  intros Hb. unfold Sync.pull_all. destruct s as [w c]. cbn [snd] in Hb.
  destruct (last_pulled_block (db (vault w))) as [start|e] eqn:El.
  2: { unfold mbind, op_bind, in_vault, get_db, gets, lift. cbn. by rewrite El. }
  rewrite (op_bind_run _ _ (w, c) start (w, c)) by (unfold mbind, op_bind, in_vault, get_db, gets, lift; cbn; by rewrite El).
  rewrite op_bind_eq. unfold in_chain. cbn [snd fst].
  destruct (current_block c) as [[h|x] c1] eqn:Ec; cbn; [|done]. specialize (Hb h eq_refl).
  case_match eqn:Hle; [done|]. apply last_pulled_nonneg in El. rewrite op_bind_eq.
  pose proof (pull_chunks_ends (Z.to_nat (h - start)) start h 0 ∅ (w, c1)) as Hp.
  destruct (pull_chunks _ _ _ _ _ _ _ _ _ _ _ _) as [[[[[n t] last]|]|e] s1]; [|by exfalso; apply Hp; [lia..|]|done].
  unfold mbind, op_bind, in_vault, get_db, gets, lift. cbn. by destruct (fork_summaries _ _).
Qed.

Lemma resolve_ends device_key id h dry_run (s : S2) :
  (forall b, (current_block s.2).1 = Ok b -> b <= U64_MAX) ->
  (resolve_one device_key id h dry_run s).1 <> Ok None.
Proof.
  intros Hb E. destruct (resolve_one _ _ _ _ s) as [r s'] eqn:Hr. cbn in E. subst r. unfold Resolve.resolve_one in Hr.
  apply op_bind_Ok in Hr as (plan & s1 & Hp & Hr). destruct plan as [[o|signed]|]; [done| |].
  { apply op_bind_Ok in Hr as (a & s2 & _ & Hr). by apply op_bind_Ok in Hr as (o & s3 & _ & ?). }
  clear Hr. unfold Resolve.resolve_plan in Hp.
  apply op_bind_Ok in Hp as (d & s2 & Hd & Hp). injection Hd as _ <-.
  apply op_bind_Ok in Hp as (pre & s3 & Hpre & Hp). injection Hpre as _ <-.
  apply op_bind_Ok in Hp as (st & s4 & Hst & Hp). injection Hst as _ <-.
  apply op_bind_Ok in Hp as (u & s5 & Hpr & Hp).
  assert (Hc : s5.2 = s.2).
  { revert Hpr. destruct dry_run; [by intros [= _ <-]|]. unfold in_vault. cbn.
    destruct (prune_orphan_pending_merges clock id s.1). by intros [= _ <-]. }
  apply op_bind_Ok in Hp as (post & s6 & Hpost & Hp). destruct post as [post|].
  - apply op_bind_Ok in Hp as (d' & s7 & _ & Hp). apply op_bind_Ok in Hp as (m & s8 & _ & Hp).
    destruct m as [[rb anchor]|]; [by apply op_bind_Ok in Hp as (o & s9 & _ & ?)|].
    destruct (existsb _ _); [done|]. case_bool_decide; [|done]. by apply op_bind_Ok in Hp as (p & s9 & _ & ?).
  - revert Hpost. unfold post_pull_heads. destruct dry_run; [done|]. intros Hpost.
    apply op_bind_Ok in Hpost as (r & s7 & Hpull & Hr). pose proof (pull_ends s5) as Hno. rewrite Hc in Hno.
    specialize (Hno Hb). destruct (pull_all _ _ _ _ _ _ None None s5) as [r1 s8]. cbn in Hno.
    destruct r as [rep|]; [by apply op_bind_Ok in Hr as (? & ? & _ & Hr); apply op_bind_Ok in Hr as (? & ? & _ & ?)|].
    destruct r1 as [[rep|]|e]; [done|by apply Hno|done].
Qed.

Lemma quiet_on_calm id h (s s' : S2) : on_db2 (quiet id h) s s' -> on_db2 calm s s'.
Proof. intros Hq. exact (quiet_calm _ _ _ _ Hq). Qed.

Lemma stash_stays id h (s s2 : S2) st :
  on_db2 (quiet id h) s s2 -> h ∈ head_query (db (vault s.1)) id -> h ∈ head_query (db (vault s2.1)) id ->
  stash_of id h s = Ok (Some st) -> stash_of id h s2 = Ok (Some st).
Proof.
  intros Hq H1 H2 (m & Hm & Hrest)%take_pending_Some. apply take_pending_Some. exists m. split; [|done].
  apply (quiet_stash _ _ _ _ Hq); [|done|done]. apply elem_of_head_query in H1 as (r & Hr & _). by exists r.
Qed.

(** Where a run stands before the submission, from where it started. *)
Lemma resolve_plan_inv device_key id h dry_run (s : S2) r s1 :
  resolve_plan device_key id h dry_run s = (r, s1) ->
  match r with
  | Err _ | Ok None => on_db2 calm s s1
  | Ok (Some (Finished (DryRun _))) => dry_run = true /\ on_db2 only_draws s s1 /\ s1.2 = s.2
  | Ok (Some (Finished (ResolvePublished _ _))) => False
  | Ok (Some (Finished (AlreadyOnChain m _))) => dry_run = false /\ keeps (db (vault s.1)) (db (vault s1.1))
      /\ resolved (db (vault s.1)) (db (vault s1.1)) id m
      /\ exists st, stash_of id h s = Ok (Some st) /\ m = rebuilt_hash st id h
  | Ok (Some (Submit signed)) => dry_run = false /\ on_db2 calm s s1 /\ h ∈ head_query (db (vault s.1)) id
      /\ sr_account_id signed = id /\ sr_parent_revision signed = h
  end.
Proof.
  intros Hr. apply resolve_plan_progress in Hr.
  destruct Hr as [r s1 Hr Hq|st rb anchor s2 r1 s1 Hst -> Hd Hq Hf|stash s2 r1 s1 Hst Hin Hin2 Hq Hdry Hp].
  - destruct r as [[p|]|e]; [by destruct Hr|by apply quiet_on_calm in Hq..].
  - apply quiet_on_calm in Hq. destruct (finish_inv _ _ _ _ _ _ _ _ Hq Hf) as [_ Hfin].
    destruct r1 as [o|e]; cbn; [|done]. destruct Hfin as (-> & Hres & Hk). split_and!; [done|done|done|].
    by exists st.
  - apply quiet_on_calm in Hq. destruct (plan_merge_inv _ _ _ _ _ _ _ _ Hp) as (Hc & Hcalm & Hm).
    destruct r1 as [[o|signed]|e]; cbn; [| |by etrans].
    + destruct Hm as (Hd & Hod & x & ->). specialize (Hdry Hd). subst s2. done.
    + destruct Hm as [Hd Hm]. split_and!; [done|by etrans|done|..]; destruct stash as [st|];
        naive_solver.
Qed.

(** C15. What a call of [resolve_one] did, by its answer.  A dry run drew from the random
    generator and nothing else.  A published resolution started from a chosen revision
    that was a head of the account and did not end before a revision of that account,
    signed on top of the chosen one, was in the log of the chain and the account was
    unfrozen with that revision as its head.  A resolution found on the chain is the one
    of the stash and leaves the account as well unfrozen on it.  Whatever the answer, no
    stored revision is lost and no other frozen account is unfrozen; an error unfreezes
    none.  The call comes to an end when the chain's block number fits 64 bits. *)
Theorem resolve_one_outcome `{!ChainLog C X} device_key id chosen dry_run (s : S2) r s' :
  (forall b, (current_block s.2).1 = Ok b -> b <= U64_MAX) ->
  resolve_one device_key id chosen dry_run s = (r, s') ->
  let d := db (vault s.1) in let d' := db (vault s'.1) in
  keeps d d'
  /\ match r with
     | Ok None => False
     | Ok (Some (DryRun _)) => dry_run = true /\ only_draws d d' /\ s'.2 = s.2
     | Ok (Some (ResolvePublished m anchor)) => dry_run = false /\ chosen ∈ head_query d id /\ resolved d d' id m
         /\ exists signed, signed_hash canonical_hash signed = m /\ sr_account_id signed = id
              /\ sr_parent_revision signed = chosen /\ event_of signed anchor ∈ log s'.2
     | Ok (Some (AlreadyOnChain m _)) => dry_run = false /\ resolved d d' id m
         /\ exists st, take_pending_merge id chosen d = Ok (Some st) /\ m = rebuilt_hash st id chosen
     | Err _ => forall k, is_account_frozen d k = true -> is_account_frozen d' k = true
     end.
Proof.
  intros Hb Hr. cbv zeta. pose proof (resolve_ends device_key id chosen dry_run s Hb) as Hend. rewrite Hr in Hend. cbn in Hend.
  unfold Resolve.resolve_one in Hr. rewrite op_bind_eq in Hr.
  destruct (resolve_plan device_key id chosen dry_run s) as [r1 s1] eqn:Hp. apply resolve_plan_inv in Hp.
  destruct r1 as [[[[m|m a|m a]|signed]|]|e].
  1-3,5,6: injection Hr as <- <-.
  - destruct Hp as (Hd & Ho & Hc). split; [|done]. by apply calm_keeps, (quiet_calm id chosen), quiet_draws.
  - done.
  - naive_solver.
  - done.
  - destruct Hp as [Hk _ Hf]. done.
  - destruct Hp as (Hd & Hcalm & Hin & Hacc & Hpar). rewrite op_bind_eq in Hr. unfold in_chain in Hr. destruct s1 as [w c]. cbn in Hr.
    destruct (publish signed c) as [[anchor|x] c1] eqn:Epub; cbn in Hr.
    2: { injection Hr as <- <-. destruct Hcalm as [Hk _ Hf]. done. }
    rewrite op_bind_eq in Hr. destruct (settle id chosen signed anchor (w, c1)) as [r2 s2] eqn:Es.
    assert (Hcalm1 : on_db2 calm s (w, c1)) by exact Hcalm.
    destruct (settle_inv _ _ _ _ _ _ _ _ Hcalm1 Es) as [Hc Hset]. destruct r2 as [o|e]; injection Hr as <- <-.
    2: { destruct Hset as [Hk _ Hf]. done. }
    destruct Hset as (-> & Hres & Hk). split; [done|]. split_and!; [done|done|done|].
    exists signed. split_and!; [done|done|done|]. rewrite Hc. cbn. by eapply publish_logs.
Qed.

(** C16. A resolution that was cut off is repeated with the same bytes.  When a run has
    come as far as the submission of a merge revision, its stash is in the vault, and any
    later run for the same account and head that finds this stash, on whatever device and
    after whatever happened to the vault and the chain, either stops, or submits this very
    signed revision once more and keeps the stash, or ends with this very revision found
    on the chain.  The hypothesis is that a device key is rebuilt from its seed. *)
Theorem resolve_retry_same device_key id h (s : S2) signed s1 :
  (forall k, from_seed (secret_seed_bytes k) = k) ->
  resolve_plan device_key id h false s = (Ok (Some (Submit signed)), s1) ->
  exists st, stash_of id h s1 = Ok (Some st)
  /\ forall device_key2 (s2 : S2) r s3,
       stash_of id h s2 = Ok (Some st) -> resolve_plan device_key2 id h false s2 = (r, s3) ->
       match r with
       | Err _ | Ok None => True
       | Ok (Some (Submit again)) => again = signed /\ stash_of id h s3 = Ok (Some st)
       | Ok (Some (Finished o)) => exists a, o = AlreadyOnChain (signed_hash canonical_hash signed) a
       end.
Proof.
  intros Hseed Hr.
  assert (exists st, stash_of id h s1 = Ok (Some st) /\ signed = merge_signed id h (stashed_bytes st)) as (st & Hst & ->).
  { apply resolve_plan_progress in Hr. inversion Hr as [r0 s0 Hn Hq|? ? ? ? r0 ? ? ? ? ? ? Ef|stash s0 r0 s2 Hs Hi1 Hi2 Hq Hd Hp]; subst.
    - naive_solver.
    - by destruct r0.
    - destruct r0 as [p|]; [|done]. match goal with E : _ = Ok (Some (Submit signed)) |- _ => injection E as -> end.
      destruct (plan_merge_inv _ _ _ _ _ _ _ _ Hp) as (_ & _ & _ & Hm). destruct stash as [st|].
      + destruct Hm as [-> ->]. exists st. split; [|done]. by eapply stash_stays.
      + destruct Hm as (st & Hst & Hsig & _). exists st. split; [done|by apply Hsig]. }
  exists st. split; [done|]. intros device_key2 s2 r s3 Hst2 Hr2. apply resolve_plan_progress in Hr2.
  destruct Hr2 as [r s3 Hn Hq|st' rb anchor s4 r1 s3 Hst' -> Hd Hq Hf|stash s4 r1 s3 Hst' Hi1 Hi2 Hq Hd Hp].
  - destruct r as [[p|]|e]; [by destruct Hn|done..].
  - rewrite Hst2 in Hst'. injection Hst' as <-. apply quiet_on_calm in Hq.
    destruct (finish_inv _ _ _ _ _ _ _ _ Hq Hf) as [_ Hfin]. destruct r1 as [o|e]; [|done].
    destruct Hfin as (-> & _). exists anchor. by rewrite merge_signed_hash.
  - rewrite Hst2 in Hst'. injection Hst' as <-. destruct (plan_merge_inv _ _ _ _ _ _ _ _ Hp) as (_ & _ & Hm).
    destruct r1 as [[o|signed]|e]; [naive_solver| |done]. destruct Hm as (_ & -> & ->). split; [done|]. by eapply stash_stays.
Qed.
End flow.

(** ** Witnesses, and what a run leaves behind *)

Module ResolveSample.
Import AccountSample ChainSample SyncSample.

Notation sample_plan :=
  (resolve_plan (ChainAdapter0 := mock) (Identity := Z) (Index := unit) (P := PressYPresenceProof)
     sample_clock sample_clock sample_rng 1 key_of toy_sign id id toy_hash toy_seal_snapshot toy_seal toy_open any_device).
Notation sample_resolve_one :=
  (resolve_one (ChainAdapter0 := mock) (Identity := Z) (Index := unit) (P := PressYPresenceProof)
     sample_clock sample_clock sample_rng 1 key_of toy_sign id id toy_hash toy_seal_snapshot toy_seal toy_open any_device).

Definition forked : SW * MockChain := (world_with fork_db, mock_new).
Definition merge_revision : SignedRevision :=
  build_signed_revision key_of toy_sign toy_hash 20 1 100 3 1 [77; 1000; 1; 100; 3; 1; 0; 51; 0].
Definition merge_id : RevisionId := signed_hash toy_hash merge_revision.

(** Device 20 has submitted the merge revision and was cut off. *)
Definition planned : SW * MockChain := (sample_plan 20 100 3 false forked).2.
Definition cut_off : SW * MockChain := (planned.1, (mock_publish verify_all merge_revision planned.2).2).

Lemma resolve_one_outcome_witness :
  exists s', sample_resolve_one 20 100 3 false forked = (Ok (Some (ResolvePublished merge_id (mock_anchor 0 1))), s')
    /\ resolved fork_db (db (vault s'.1)) 100 merge_id.
Proof.
  destruct (sample_resolve_one 20 100 3 false forked) as [r s'] eqn:Hr.
  assert (Hok : r = Ok (Some (ResolvePublished merge_id (mock_anchor 0 1)))).
  { change r with (fst (r, s')). rewrite <- Hr. vm_compute. reflexivity. }
  pose proof (fun Hb => resolve_one_outcome (ChainLog0 := MockChainLog verify_all)
                _ _ _ _ _ _ _ _ _ _ _ _ _ _ _ _ _ _ _ _ Hb Hr) as H.
  destruct H as [_ H]; [intros b Hb; cbn in Hb; injection Hb as <-; discriminate|].
  rewrite Hok in H |- *. exists s'. split; [reflexivity|]. apply H.
Defined.

(** The cut off run is repeated on another device. *)
Lemma resolve_retry_same_witness :
  exists s3, sample_plan 21 100 3 false cut_off = (Ok (Some (Finished (AlreadyOnChain merge_id (mock_anchor 0 1)))), s3)
    /\ sample_plan 20 100 3 false forked = (Ok (Some (Submit merge_revision)), planned)
    /\ exists a, AlreadyOnChain merge_id (mock_anchor 0 1) = AlreadyOnChain (signed_hash toy_hash merge_revision) a.
Proof.
  assert (Hp : sample_plan 20 100 3 false forked = (Ok (Some (Submit merge_revision)), planned))
    by (vm_compute; reflexivity).
  destruct (sample_plan 21 100 3 false cut_off) as [r s3] eqn:Hr.
  assert (Hok : r = Ok (Some (Finished (AlreadyOnChain merge_id (mock_anchor 0 1))))).
  { change r with (fst (r, s3)). rewrite <- Hr. vm_compute. reflexivity. }
  destruct (resolve_retry_same _ _ _ _ _ _ _ _ _ _ _ _ _ _ _ _ _ _ _ (fun k : Z => eq_refl) Hp) as (st & Hst & H).
  exists s3. rewrite Hok in Hr |- *. split; [reflexivity|]. split; [exact Hp|].
  refine (H 21 cut_off _ s3 _ Hr). exact Hst.
Defined.

(** The pull that ingests the merge revision prunes the stash, since the chosen revision
    is no longer a head; cut off after it, or after a pull of its own, the account is left
    frozen and no repetition reaches the end. *)
Lemma pull_loses_stash :
  let s := (sample_pull None None cut_off).2 in
  pending_merges (db (vault cut_off.1)) !! (100, 3) <> None
  /\ pending_merges (db (vault s.1)) !! (100, 3) = None
  /\ is_account_frozen (db (vault s.1)) 100 = true
  /\ (sample_resolve_one 20 100 3 false s).1 = Err (ResolveNotAHead 100 3 [5; merge_id])
  /\ (sample_resolve_one 20 100 merge_id false s).1 = Err (ResolveStore AuthenticationFailed).
Proof. vm_compute. split_and!; [discriminate|reflexivity..]. Qed.

(** The row of a published merge has the placeholder nonce, and the stash with the nonce
    it was sealed with is deleted: this device cannot open the head it resolved to. *)
Lemma resolved_head_unreadable :
  let s := (sample_resolve_one 20 100 3 false forked).2 in
  (sample_resolve_one 20 100 3 false forked).1 = Ok (Some (ResolvePublished merge_id (mock_anchor 0 1)))
  /\ head_revision_id <$> account_identities (db (vault s.1)) !! 100 = Some merge_id
  /\ (read_payload_plaintext_for_resolve sample_clock 1 toy_open 100 merge_id s.1).1 = Err AuthenticationFailed.
Proof. vm_compute. split_and!; reflexivity. Qed.
End ResolveSample.
