(* ===== verification/MultiDevice.v ===== *)
(** * Devices and rotations

    The multi-device tables of crates/pangolin-store/src/multi_device.rs (the
    signer directory and the rotation-pending rows), the removal trigger of
    vault.rs, and the pure set functions of crates/pangolin-core/src/device_add.rs.

    The device-authorization events come from the chain.  Sealing the key to the
    survivors is in [Escrow], the rotation that uses them in [Rekey]. *)

From S2P Require Import Prelude StoreError.

(** ** The authorized set *)

(** [SetMgmtEvent]. *)
Inductive SetMgmtEvent : Type :=
| Bootstrapped (first_signer : Z)
| Added (signer : Z)
| Removed (signer : Z).

Definition push_new (s : Z) (set : list Z) : list Z :=
  if bool_decide (s ∈ set) then set else set ++ [s].

Definition fold_authorized_step (set : list Z) (ev : SetMgmtEvent) : list Z :=
  match ev with
  | Bootstrapped first_signer => push_new first_signer set
  | Added signer => push_new signer set
  | Removed signer => filter (fun s => s <> signer) set
  end.

Definition fold_authorized_set (events : list SetMgmtEvent) : list Z :=
  foldl fold_authorized_step [] events.

Definition detect_removed_devices (current_onchain_set locally_known_signers : list Z) : list Z :=
  filter (fun s => s ∉ current_onchain_set) locally_known_signers.

(** ** The directory *)

(** [DirectoryEntry] (and [SurvivorDirectoryEntry], its copy in
    pangolin-core). *)
Record DirectoryEntry : Type := mkDirectoryEntry {
  dir_signer : Z;
  dir_device_id : Z;
  pairing_pub : Z
}.

(** [SurvivingDevice]. *)
Record SurvivingDevice : Type := mkSurvivingDevice {
  surviving_device_id : Z;
  x25519_pairing_pub : Z
}.

Record RotationPending : Type := mkRotationPending {
  removed_signer : Z;
  observed_epoch : Z;
  observed_at : Z
}.

#[export] Instance RotationPending_eq_dec : EqDecision RotationPending.
Proof. solve_decision. Defined.

(** A [rotation_pending] row: the observation and the [resolved] column. *)
Record PendingRow : Type := mkPendingRow {
  pend_epoch : Z;
  pend_at : Z;
  resolved : bool
}.

(** The two tables, keyed by the signer. *)
Record DeviceTables : Type := mkDeviceTables {
  device_directory : gmap Z (Z * Z);
  rotation_pending : gmap Z PendingRow
}.

Definition upsert_directory_entry (e : DirectoryEntry) (t : DeviceTables) : DeviceTables :=
  mkDeviceTables (<[dir_signer e := (dir_device_id e, pairing_pub e)]> (device_directory t))
    (rotation_pending t).

Definition lookup_directory_entry (signer : Z) (t : DeviceTables) : option DirectoryEntry :=
  (fun r => mkDirectoryEntry signer r.1 r.2) <$> device_directory t !! signer.

Definition entry_signer_le (a b : DirectoryEntry) : Prop := dir_signer a <= dir_signer b.
#[export] Instance entry_signer_le_dec : RelDecision entry_signer_le.
Proof. intros a b. unfold entry_signer_le. apply _. Defined.

Definition read_directory (t : DeviceTables) : list DirectoryEntry :=
  merge_sort entry_signer_le
    ((fun e => mkDirectoryEntry e.1 e.2.1 e.2.2) <$> map_to_list (device_directory t)).

(** [resolve_survivors]: the devices a rotation can seal to, and the signers
    whose pairing key is not known yet. *)
Fixpoint resolve_survivors (current_onchain_set : list Z) (directory : list DirectoryEntry) :
    list SurvivingDevice * list Z :=
  match current_onchain_set with
  | [] => ([], [])
  | signer :: rest =>
      let '(survivors, unknown) := resolve_survivors rest directory in
      match List.find (fun e => dir_signer e =? signer) directory with
      | Some e => (mkSurvivingDevice (dir_device_id e) (pairing_pub e) :: survivors, unknown)
      | None => (survivors, signer :: unknown)
      end
  end.

(** ** Rotation-pending rows *)

(** [INSERT OR IGNORE]. *)
Definition queue_rotation_pending (p : RotationPending) (t : DeviceTables) :
    store_result (DeviceTables * bool) :=
  epoch ← ok_or (i64_try_from (observed_epoch p)) (Corrupted IntegerOverflow);
  match rotation_pending t !! removed_signer p with
  | Some _ => Ok (t, false)
  | None =>
      Ok (mkDeviceTables (device_directory t)
            (<[removed_signer p := mkPendingRow epoch (observed_at p) false]> (rotation_pending t)),
          true)
  end.

(** [ORDER BY observed_at ASC, removed_signer ASC]. *)
Definition pending_le (a b : Z * PendingRow) : Prop :=
  pair_le (pend_at a.2, a.1) (pend_at b.2, b.1).
#[export] Instance pending_le_dec : RelDecision pending_le.
Proof. intros a b. unfold pending_le. apply _. Defined.

Definition decode_pending (e : Z * PendingRow) : store_result RotationPending :=
  epoch ← ok_or (u64_try_from (pend_epoch e.2)) (Corrupted IntegerOverflow);
  Ok (mkRotationPending e.1 epoch (pend_at e.2)).

Fixpoint decode_all (l : list (Z * PendingRow)) : store_result (list RotationPending) :=
  match l with
  | [] => Ok []
  | e :: rest => p ← decode_pending e; k ← decode_all rest; Ok (p :: k)
  end.

Definition read_pending_rotations (t : DeviceTables) : store_result (list RotationPending) :=
  decode_all (merge_sort pending_le
    (filter (fun e => resolved e.2 = false) (map_to_list (rotation_pending t)))).

Definition mark_rotation_resolved (signer : Z) (t : DeviceTables) : DeviceTables :=
  mkDeviceTables (device_directory t)
    (alter (fun r => mkPendingRow (pend_epoch r) (pend_at r) true) signer (rotation_pending t)).

(** The loop of [process_device_removed_trigger]; an error leaves the rows
    queued before it. *)
Fixpoint process_removed (current_onchain_set : list Z) (epoch now_ms queued : Z)
    (signers : list Z) : op DeviceTables StoreError Z :=
  match signers with
  | [] => mret queued
  | signer :: rest =>
      if bool_decide (signer ∈ current_onchain_set)
      then process_removed current_onchain_set epoch now_ms queued rest
      else fun t =>
        match queue_rotation_pending (mkRotationPending signer epoch now_ms) t with
        | Err e => (Err e, t)
        | Ok (t', inserted) =>
            process_removed current_onchain_set epoch now_ms
              (if inserted then saturating_add U32_MAX queued 1 else queued) rest t'
        end
  end.

Definition process_device_removed_trigger (current_onchain_set locally_known_signers : list Z)
    (epoch now_ms : Z) : op DeviceTables StoreError Z :=
  process_removed current_onchain_set epoch now_ms 0 locally_known_signers.

(** Step 5 of [complete_rotation]: every outstanding row of a signer outside
    the set is resolved. *)
Definition retire_pending (current_onchain_set : list Z) : op DeviceTables StoreError unit :=
  fun t =>
    match read_pending_rotations t with
    | Err e => (Err e, t)
    | Ok rows =>
        (Ok tt, foldl (fun t p => if bool_decide (removed_signer p ∈ current_onchain_set) then t
                                  else mark_rotation_resolved (removed_signer p) t) t rows)
    end.

(** ** The authorized set is the last word on each signer *)

Definition mentions (s : Z) (ev : SetMgmtEvent) : Prop :=
  match ev with Bootstrapped x | Added x | Removed x => x = s end.

Definition adds (ev : SetMgmtEvent) : bool :=
  match ev with Bootstrapped _ | Added _ => true | Removed _ => false end.

#[export] Instance mentions_dec s ev : Decision (mentions s ev).
Proof. destruct ev; simpl; apply _. Defined.

Lemma elem_of_push_new s x set : s ∈ push_new x set <-> s ∈ set \/ s = x.
Proof. unfold push_new. case_bool_decide; set_solver. Qed.

Lemma NoDup_push_new x set : NoDup set -> NoDup (push_new x set).
Proof.
  intros Hnd. unfold push_new. case_bool_decide; [done|]. apply NoDup_app.
  split_and!; [done|set_solver|apply NoDup_singleton].
Qed.

(** The events up to the last one about [s]. *)
Definition last_adds (s : Z) (events : list SetMgmtEvent) : Prop :=
  exists pre ev post, events = pre ++ ev :: post /\ mentions s ev /\ adds ev = true
    /\ Forall (fun e => ~ mentions s e) post.

Lemma last_adds_snoc s events ev :
  last_adds s (events ++ [ev])
  <-> mentions s ev /\ adds ev = true \/ ~ mentions s ev /\ last_adds s events.
Proof.
  split.
  - intros (pre & e & post & Heq & Hm & Ha & Hp).
    destruct post as [|x post _] using rev_ind.
    + apply app_inj_tail in Heq as [_ ->]. by left.
    + right. rewrite app_comm_cons, app_assoc in Heq. apply app_inj_tail in Heq as [-> ->].
      apply Forall_app in Hp as [Hp Hx]. apply Forall_cons in Hx as [Hx _]. split; [exact Hx|].
      by exists pre, e, post.
  - intros [[Hm Ha]|[Hm (pre & e & post & -> & He & Ha & Hp)]].
    + by exists events, ev, [].
    + exists pre, e, (post ++ [ev]). split_and!; [by rewrite <- app_assoc|done|done|].
      apply Forall_app. by rewrite Forall_singleton.
Qed.

(** The fold over the device-management events gives the authorized set:
    without duplicates, a signer is in it exactly when the last event about
    that signer adds it.  A later removal always wins over an earlier
    addition, and a re-addition over an earlier removal. *)
Theorem fold_authorized_set_spec events s :
  NoDup (fold_authorized_set events)
  /\ (s ∈ fold_authorized_set events <-> last_adds s events).
Proof.
  unfold fold_authorized_set. induction events as [|ev events [Hnd IH]] using rev_ind.
  { split; [constructor|]. split; [set_solver|].
    intros (pre & ? & ? & Heq & _). by destruct pre. }
  rewrite foldl_snoc, last_adds_snoc, <- IH. split.
  - destruct ev; simpl; [by apply NoDup_push_new..|by apply NoDup_filter].
  - destruct ev; simpl; rewrite ?elem_of_push_new, ?list_elem_of_filter;
      (match goal with |- context [?x = s] => destruct (decide (x = s)) end); naive_solver.
Qed.

(** ** Survivors *)

Lemma find_read_directory t s :
  List.find (fun e => dir_signer e =? s) (read_directory t) = lookup_directory_entry s t.
Proof.
  unfold lookup_directory_entry.
  assert (Hin : forall e, e ∈ read_directory t <->
    device_directory t !! dir_signer e = Some (dir_device_id e, pairing_pub e)).
  { intros e. unfold read_directory. rewrite elem_of_merge_sort, list_elem_of_fmap. split.
    - intros ([k [a b]] & -> & Hk%elem_of_map_to_list). done.
    - intros Hk. exists (dir_signer e, (dir_device_id e, pairing_pub e)). split; [by destruct e|].
      by apply elem_of_map_to_list. }
  destruct (List.find _ _) as [e|] eqn:E.
  - apply find_some in E as [Hi%list_elem_of_In Hs%Z.eqb_eq]. apply Hin in Hi. subst s.
    rewrite Hi. by destruct e.
  - destruct (device_directory t !! s) as [[a b]|] eqn:Ed; [|done]. exfalso.
    assert (Hi : mkDirectoryEntry s a b ∈ read_directory t) by by apply Hin.
    apply list_elem_of_In in Hi. pose proof (find_none _ _ E _ Hi) as Hf. simpl in Hf.
    by rewrite Z.eqb_refl in Hf.
Qed.

(** Survivors of a rotation.  Resolved against the persisted directory,
    the current set splits exactly: a signer whose device is known gives its
    device, in set order, every other one is reported unknown; a signer
    outside the set, such as a removed device still in the directory, is in
    neither list. *)
Theorem resolve_survivors_exact set t :
  resolve_survivors set (read_directory t) =
  (omap (fun s => (fun e => mkSurvivingDevice (dir_device_id e) (pairing_pub e))
                    <$> lookup_directory_entry s t) set,
   filter (fun s => device_directory t !! s = None) set).
Proof.
  induction set as [|s set IH]; [done|]. cbn [resolve_survivors omap list_omap].
  rewrite IH, find_read_directory, filter_cons. unfold lookup_directory_entry.
  destruct (device_directory t !! s) as [[a b]|]; simpl; [done|]. done.
Qed.

(** ** The trigger *)

Lemma process_removed_spec set epoch now_ms q signers t :
  0 <= epoch <= I64_MAX -> 0 <= q <= U32_MAX ->
  exists t', process_removed set epoch now_ms q signers t =
      (Ok (Z.min U32_MAX (q + Z.of_nat (size (rotation_pending t')) -
                              Z.of_nat (size (rotation_pending t)))), t')
    /\ device_directory t' = device_directory t
    /\ (size (rotation_pending t) <= size (rotation_pending t'))%nat
    /\ forall s, rotation_pending t' !! s =
         match rotation_pending t !! s with
         | Some r => Some r
         | None => if decide (s ∈ detect_removed_devices set signers)
                   then Some (mkPendingRow epoch now_ms false) else None
         end.
Proof.
  intros He. revert q t. induction signers as [|x signers IH]; intros q t Hq; simpl.
  { exists t. split_and!; [|done|done|].
    - unfold mret, op_ret. do 2 f_equal. lia.
    - intros s. by destruct (rotation_pending t !! s). }
  unfold detect_removed_devices. rewrite filter_cons. fold (detect_removed_devices set signers).
  destruct (decide (x ∈ set)) as [Hx|Hx].
  { rewrite bool_decide_eq_true_2 by done. rewrite decide_False by tauto. by apply IH. }
  rewrite bool_decide_eq_false_2 by done. rewrite decide_True by done.
  unfold queue_rotation_pending, mbind, result_bind. simpl.
  replace (i64_try_from epoch) with (Some epoch)
    by (symmetry; apply try_from_Some; unfold I64_MIN; lia). simpl.
  destruct (rotation_pending t !! x) as [r|] eqn:Er.
  - destruct (IH q t Hq) as (t' & Ht & Hd & Hs & Hl). exists t'. split_and!; try done.
    intros s. rewrite Hl. destruct (rotation_pending t !! s) eqn:Es; [done|].
    assert (s <> x) by congruence.
    destruct (decide (s ∈ detect_removed_devices set signers));
      [by rewrite decide_True by set_solver|by rewrite decide_False by set_solver].
  - set (t1 := mkDeviceTables _ _).
    assert (Hsz : size (rotation_pending t1) = S (size (rotation_pending t))).
    { simpl. by apply map_size_insert_None. }
    destruct (IH (saturating_add U32_MAX q 1) t1) as (t' & Ht & Hd & Hs & Hl).
    { unfold saturating_add, U32_MAX in *. lia. }
    exists t'. split_and!; [|done|lia|].
    + rewrite Ht. do 2 f_equal. unfold saturating_add. lia.
    + intros s. rewrite Hl. simpl. destruct (decide (s = x)) as [->|Hne].
      * rewrite lookup_insert_eq, Er. by rewrite decide_True by set_solver.
      * rewrite lookup_insert_ne by done. destruct (rotation_pending t !! s); [done|].
        destruct (decide (s ∈ detect_removed_devices set signers));
          [by rewrite decide_True by set_solver|by rewrite decide_False by set_solver].
Qed.

(** The removal trigger queues exactly what [detect_removed_devices]
    detects: one unresolved row, at the observed epoch, for every locally
    known signer that is no longer in the set and has no row yet; existing
    rows and the directory are untouched; the count is the number of rows
    added; and observing the same removals again, at whatever epoch and time,
    changes nothing and counts zero. *)
Theorem rotation_trigger set known epoch now_ms t :
  0 <= epoch <= I64_MAX ->
  exists t', process_device_removed_trigger set known epoch now_ms t =
      (Ok (Z.min U32_MAX (Z.of_nat (size (rotation_pending t')) -
                              Z.of_nat (size (rotation_pending t)))), t')
    /\ device_directory t' = device_directory t
    /\ (forall s, rotation_pending t' !! s =
         match rotation_pending t !! s with
         | Some r => Some r
         | None => if decide (s ∈ detect_removed_devices set known)
                   then Some (mkPendingRow epoch now_ms false) else None
         end)
    /\ forall epoch' now', 0 <= epoch' <= I64_MAX ->
         process_device_removed_trigger set known epoch' now' t' = (Ok 0, t').
Proof.
  intros He. unfold process_device_removed_trigger.
  destruct (process_removed_spec set epoch now_ms 0 known t He ltac:(done)) as (t' & Ht & Hd & _ & Hl).
  exists t'. split_and!; [exact Ht|done|done|]. intros epoch' now' He'.
  destruct (process_removed_spec set epoch' now' 0 known t' He' ltac:(done))
    as (t2 & Ht2 & Hd2 & _ & Hl2).
  assert (t2 = t') as ->.
  { destruct t2 as [dd2 rp2], t' as [dd' rp']. simpl in *. f_equal; [congruence|].
    apply map_eq. intros s. rewrite Hl2, (Hl s). destruct (rotation_pending t !! s); [done|].
    by destruct (decide _). }
  rewrite Ht2. do 2 f_equal. unfold U32_MAX; lia.
Qed.

(** ** A resolved removal is never queued again *)

Lemma decode_all_signers l rows : decode_all l = Ok rows -> removed_signer <$> rows = l.*1.
Proof.
  revert rows. induction l as [|[s r] l IH]; intros rows; simpl; [by intros [= <-]|].
  unfold mbind, result_bind, decode_pending, mbind, result_bind. simpl.
  destruct (ok_or (u64_try_from (pend_epoch r)) _); [|done].
  destruct (decode_all l) as [k|]; [|done]. intros [= <-]. csimpl. by rewrite (IH k).
Qed.

Lemma read_pending_outstanding t rows s :
  read_pending_rotations t = Ok rows -> s ∈ removed_signer <$> rows ->
  exists r, rotation_pending t !! s = Some r /\ resolved r = false.
Proof.
  intros Hr%decode_all_signers. rewrite Hr. intros ([s' r] & -> & Hin)%list_elem_of_fmap.
  apply elem_of_merge_sort in Hin. apply list_elem_of_filter in Hin as [Hres Hin%elem_of_map_to_list].
  by exists r.
Qed.

(** A second removal is not surfaced.  Once a removal has been resolved
    its row stays, so if the same signer is authorized again and later
    removed again, no later observation queues a rotation for it: the trigger
    leaves the resolved row as it is and the outstanding list never names the
    signer, although it is outside the set. *)
Theorem rotation_not_requeued set known epoch now_ms t s r :
  0 <= epoch <= I64_MAX -> rotation_pending t !! s = Some r -> resolved r = true ->
  s ∈ detect_removed_devices set known ->
  exists n t', process_device_removed_trigger set known epoch now_ms t = (Ok n, t')
    /\ rotation_pending t' !! s = Some r
    /\ forall rows, read_pending_rotations t' = Ok rows -> s ∉ removed_signer <$> rows.
Proof.
  intros He Hs Hr _. unfold process_device_removed_trigger.
  destruct (process_removed_spec set epoch now_ms 0 known t He ltac:(done)) as (t' & Ht & _ & _ & Hl).
  eexists _, t'. split; [exact Ht|].
  assert (Hs' : rotation_pending t' !! s = Some r) by (by rewrite Hl, Hs).
  split; [done|]. intros rows Hrows Hin.
  destruct (read_pending_outstanding _ _ _ Hrows Hin) as (r' & Hr' & Hf). congruence.
Qed.

(** ** Witnesses *)

Module DeviceSample.

(** Device 30 is added, removed, resolved, added again and removed again. *)
Definition known : list Z := [10; 20; 30].
Definition after_first : DeviceTables :=
  (process_device_removed_trigger
     (fold_authorized_set [Bootstrapped 10; Added 20; Added 30; Removed 30]) known 0 1000
     (mkDeviceTables {[ 10 := (1, 11); 30 := (3, 33) ]} ∅)).2.
Definition after_retire : DeviceTables := (retire_pending [10; 20] after_first).2.

Lemma fold_authorized_set_spec_witness :
  20 ∈ fold_authorized_set [Bootstrapped 10; Removed 20; Added 20]
  /\ 30 ∉ fold_authorized_set [Bootstrapped 10; Added 30; Removed 30].
Proof.
  split.
  - apply fold_authorized_set_spec. exists [Bootstrapped 10; Removed 20], (Added 20), [].
    split_and!; [reflexivity|reflexivity|reflexivity|constructor].
  - vm_compute. intros H. inversion H as [|? ? ? H1]; subst. inversion H1.
Defined.

Lemma resolve_survivors_exact_witness :
  resolve_survivors [10; 20] (read_directory after_first) = ([mkSurvivingDevice 1 11], [20]).
Proof. rewrite resolve_survivors_exact. vm_compute. reflexivity. Defined.

Lemma rotation_trigger_witness :
  exists t', process_device_removed_trigger [10; 20] known 0 1000 (mkDeviceTables ∅ ∅) = (Ok 1, t')
    /\ process_device_removed_trigger [10; 20] known 5 2000 t' = (Ok 0, t').
Proof.
  destruct (rotation_trigger [10; 20] known 0 1000 (mkDeviceTables ∅ ∅)) as (t' & Ht & _ & _ & H).
  { vm_compute. split; discriminate. }
  exists t'. split; [|apply H; vm_compute; split; discriminate].
  rewrite Ht. f_equal. change t' with (snd (Ok (E := StoreError) 0, t')).
  assert (Hc : (process_device_removed_trigger [10; 20] known 0 1000 (mkDeviceTables ∅ ∅)).1 = Ok 1)
    by (vm_compute; reflexivity).
  rewrite Ht in Hc. exact Hc.
Defined.

Lemma rotation_not_requeued_witness :
  exists n t', process_device_removed_trigger [10; 20] known 1 9000 after_retire = (Ok n, t')
    /\ forall rows, read_pending_rotations t' = Ok rows -> 30 ∉ removed_signer <$> rows.
Proof.
  destruct (rotation_not_requeued [10; 20] known 1 9000 after_retire 30 (mkPendingRow 0 1000 true))
    as (n & t' & Ht & _ & H).
  - vm_compute. split; discriminate.
  - vm_compute. reflexivity.
  - reflexivity.
  - vm_compute. left.
  - exists n, t'. split; [exact Ht|exact H].
Defined.
End DeviceSample.
