(* ===== verification/Escrow.v ===== *)
(** * Wrapped keys, the guardian escrow and key rotation

    The wrappers of the vault key in crates/pangolin-crypto (aead.rs, keys.rs, the device
    part of pairing.rs), the guardian escrow of escrow.rs, and the drivers of
    crates/pangolin-core (recovery/mod.rs, recovery/orchestration.rs, rotation.rs) that set
    it up, recover the vault key from it and rotate the key to the surviving devices.

    The ciphers, the hash-based derivations and the secret sharing are third-party: the
    class [Primitives] has their operations and [PrimitiveLaws] what the code relies on. *)

From Stdlib Require Import String.
From S2P Require Import Prelude Bytes MultiDevice.

(** ** Third-party primitives

    XChaCha20-Poly1305 (key, nonce, plaintext, associated data), HKDF-SHA512 to 32 bytes
    (info, key), the sealed box of crypto_box (public key, ephemeral secret, plaintext),
    Shamir's sharing of vsss-rs (threshold, count, secret, coefficients). *)
Class Primitives : Type := {
  encrypt : Z -> Z -> list Z -> list Z -> option (list Z);
  decrypt : Z -> Z -> list Z -> list Z -> option (list Z);
  hkdf : list Z -> Z -> Z;
  box_public : Z -> Z;
  box_seal : Z -> Z -> list Z -> option (list Z);
  box_unseal : Z -> list Z -> option (list Z);
  split_array : nat -> nat -> list Z -> Z -> option (list (list Z));
  combine_array : list (list Z) -> option (list Z)
}.

Definition TAG_LEN : nat := 16.
Definition KEY_LEN : nat := 32.
Definition NONCE_LEN : nat := 24.
Definition VAULT_ID_LEN : nat := 32.
Definition DEVICE_ID_LEN : nat := 32.
Definition EPOCH_LEN : nat := 16.
Definition X25519_KEY_LEN : nat := 32.
Definition SHARE_ENCODED_LEN : nat := 1 + KEY_LEN.
Definition MIN_THRESHOLD : Z := 2.
Definition MAX_THRESHOLD : Z := 9.
Definition MIN_GUARDIANS : Z := 3.
Definition MAX_GUARDIANS : Z := 15.

Class PrimitiveLaws `{!Primitives} : Prop := {
  (** Authenticated encryption: what was sealed opens, under the same key, nonce and
      associated data only. *)
  decrypt_encrypt : forall k n p a c, encrypt k n p a = Some c -> decrypt k n c a = Some p;
  decrypt_only : forall k n p a c k' n' a' p', encrypt k n p a = Some c ->
    decrypt k' n' c a' = Some p' -> k' = k /\ n' = n /\ a' = a;
  encrypt_length : forall k n p a c, encrypt k n p a = Some c -> length c = (length p + TAG_LEN)%nat;
  hkdf_inj : forall info x y, hkdf info x = hkdf info y -> x = y;
  (** A sealed box opens with the secret of its public key only. *)
  unseal_seal : forall s r p c, box_seal (box_public s) r p = Some c -> box_unseal s c = Some p;
  unseal_only : forall pk r p c s p', box_seal pk r p = Some c -> box_unseal s c = Some p' -> box_public s = pk;
  (** A sharing has one share per holder, each with its non-zero identifier first, and any
      [t] of them give the secret back. *)
  split_shares : forall t m x r shares, split_array t m x r = Some shares ->
    length shares = m /\ Forall (fun s => length s = S (length x) /\ hd_error s <> Some 0) shares;
  combine_split : forall t m x r shares sub, split_array t m x r = Some shares ->
    sub ⊆+ shares -> (t <= length sub)%nat -> combine_array sub = Some x
}.

Inductive AeadError : Type := Tampered | InvalidKey | AeadInternal.

Inductive EscrowError : Type :=
| InvalidThreshold | SplitFailed | ReconstructFailed | MalformedShare | SealFailed | OpenFailed | WrapFailed.

Inductive PairingError : Type := PairSealFailed | PairOpenFailed | PairWrapFailed.

(** ** Wrapped vault keys *)

(** The bytes of a text constant. *)
Definition WRAP_KEY_INFO : list Z := bytes_of "pangolin-vdk-wrap-v0".
Definition WRAP_AAD_DOMAIN : list Z := bytes_of "pangolin-vdk-wrap-aad-v0".
Definition RECOVERY_WRAP_KEY_INFO : list Z := bytes_of "pangolin-recovery-wrap-v0".
Definition DEVICE_WRAP_KEY_INFO : list Z := bytes_of "pangolin-device-wrap-v0".
Definition SEALED_SHARE_DOMAIN : list Z := bytes_of "pangolin-recovery-seal-v0".
Definition SEALED_VDK_DOMAIN : list Z := bytes_of "pangolin-device-pair-seal-v0".
Definition SCHEMA_VERSION_V0 : Z := 0.

Record WrapContext : Type := mkWrapContext { wc_vault_id : Z; wc_schema_version : Z }.

Definition WrapContext_new (vault_id : Z) : WrapContext := mkWrapContext vault_id SCHEMA_VERSION_V0.

Definition encode (c : WrapContext) : list Z :=
  WRAP_AAD_DOMAIN ++ to_be_bytes VAULT_ID_LEN (wc_vault_id c) ++ [wc_schema_version c].

Record WrappedVdk : Type := mkWrappedVdk { ciphertext : list Z; wrap_nonce : Z; ctx : WrapContext }.

(** A byte array of a fixed length, as its integer. *)
Definition array (n : nat) (b : list Z) : option Z := if (length b =? n)%nat then Some (be_value b) else None.

Section crypto.
Context `{!Primitives}.
(** The random generator, by the number of draws so far. *)
Context (rng : nat -> Z).

Definition random {E} (n : nat) : op nat E Z := fun k => (Ok (rng k mod 256 ^ Z.of_nat n), S k).

Definition seal (key nonce : Z) (plaintext aad : list Z) : result AeadError (list Z) :=
  ok_or (encrypt key nonce plaintext aad) AeadInternal.

Definition open (key nonce : Z) (ciphertext aad : list Z) : result AeadError (list Z) :=
  if (length ciphertext <? TAG_LEN)%nat then Err Tampered else ok_or (decrypt key nonce ciphertext aad) Tampered.

Definition seal_under_key (vdk wrap_key : Z) (c : WrapContext) : op nat AeadError WrappedVdk :=
  nonce ← random NONCE_LEN;
  ct ← lift (seal wrap_key nonce (to_be_bytes KEY_LEN vdk) (encode c));
  mret (mkWrappedVdk ct nonce c).

Definition open_with_key (w : WrappedVdk) (wrap_key : Z) (c : WrapContext) : result AeadError Z :=
  plaintext ← open wrap_key (wrap_nonce w) (ciphertext w) (encode c);
  ok_or (array KEY_LEN plaintext) Tampered.

(** An authority is the seed of its signing key. *)
Definition derive_wrap_key (authority : Z) : Z := hkdf WRAP_KEY_INFO authority.

Definition wrap (vdk authority : Z) (c : WrapContext) : op nat AeadError WrappedVdk :=
  seal_under_key vdk (derive_wrap_key authority) c.

Definition unwrap_with (w : WrappedVdk) (authority : Z) : result AeadError Z :=
  open_with_key w (derive_wrap_key authority) (ctx w).

Definition rewrap (w : WrappedVdk) (old_authority new_authority : Z) (new_ctx : WrapContext) : op nat AeadError WrappedVdk :=
  vdk ← lift (unwrap_with w old_authority); wrap vdk new_authority new_ctx.

(** The errors of a step as those of its caller. *)
Definition map_op {S E F A} (f : E -> F) (m : op S E A) : op S F A := fun s => let '(r, s') := m s in (map_err f r, s').

Definition wrap_vdk_under_rwk (vdk rwk : Z) (c : WrapContext) : op nat EscrowError WrappedVdk :=
  map_op (fun _ => WrapFailed) (seal_under_key vdk (hkdf RECOVERY_WRAP_KEY_INFO rwk) c).
Definition unwrap_vdk_under_rwk (w : WrappedVdk) (rwk : Z) : result EscrowError Z :=
  map_err (fun _ => WrapFailed) (open_with_key w (hkdf RECOVERY_WRAP_KEY_INFO rwk) (ctx w)).

(** A device key is its seed. *)
Definition derive_device_wrap_key (device : Z) : Z := hkdf DEVICE_WRAP_KEY_INFO device.
Definition wrap_vdk_for_device (vdk device_key : Z) (c : WrapContext) : op nat PairingError WrappedVdk :=
  map_op (fun _ => PairWrapFailed) (seal_under_key vdk (derive_device_wrap_key device_key) c).
Definition unwrap_vdk_for_device (w : WrappedVdk) (device_key : Z) : result PairingError Z :=
  map_err (fun _ => PairWrapFailed) (open_with_key w (derive_device_wrap_key device_key) (ctx w)).

(** ** The escrow *)

Definition check_bounds (threshold guardian_count : Z) : result EscrowError unit :=
  if negb (in_range MIN_THRESHOLD MAX_THRESHOLD threshold) || negb (in_range MIN_GUARDIANS MAX_GUARDIANS guardian_count)
     || (guardian_count <? threshold)
  then Err InvalidThreshold else Ok tt.

(** [Share::from_bytes]. *)
Definition share_from_bytes (bytes : list Z) : result EscrowError (list Z) :=
  if negb (length bytes =? SHARE_ENCODED_LEN)%nat || (byte_at 0 bytes =? 0) then Err MalformedShare else Ok bytes.

Definition split_rwk (rwk threshold guardian_count : Z) : op nat EscrowError (list (list Z)) :=
  lift (check_bounds threshold guardian_count) ≫= fun _ =>
  r ← (fun k => (Ok (rng k), S k));
  raw_shares ← lift (ok_or (split_array (Z.to_nat threshold) (Z.to_nat guardian_count) (to_be_bytes KEY_LEN rwk) r) SplitFailed);
  lift (map_err (fun _ => SplitFailed) (collect (share_from_bytes <$> raw_shares))).

Definition reconstruct_rwk (shares : list (list Z)) : result EscrowError Z :=
  combined ← ok_or (combine_array shares) ReconstructFailed;
  ok_or (array KEY_LEN combined) ReconstructFailed.

Definition sealed_share_header (vault_id : Z) (epoch : list Z) : list Z :=
  SEALED_SHARE_DOMAIN ++ to_be_bytes VAULT_ID_LEN vault_id ++ epoch.

(** [pk.seal] with a fresh ephemeral key. *)
Definition box {E} (e : E) (pk : Z) (plaintext : list Z) : op nat E (list Z) :=
  r ← random X25519_KEY_LEN; lift (ok_or (box_seal pk r plaintext) e).

Definition seal_share (share : list Z) (guardian_x25519_pub vault_id : Z) (epoch : list Z) : op nat EscrowError (list Z) :=
  box SealFailed guardian_x25519_pub (sealed_share_header vault_id epoch ++ share).

(** [open_sealed_share] and [open_vdk_from_pairing] check the header inside the box. *)
Definition open_headed (sealed : list Z) (secret : Z) (header : list Z) (len : nat) : option (list Z) :=
  plaintext ← box_unseal secret sealed;
  if negb (length plaintext =? length header + len)%nat then None
  else if bool_decide (take (length header) plaintext = header) then Some (drop (length header) plaintext)
  else None.

Definition open_sealed_share (sealed : list Z) (guardian_x25519_secret vault_id : Z) (epoch : list Z) :
    result EscrowError (list Z) :=
  share ← ok_or (open_headed sealed guardian_x25519_secret (sealed_share_header vault_id epoch) SHARE_ENCODED_LEN) OpenFailed;
  map_err (fun _ => OpenFailed) (share_from_bytes share).

Record EscrowAssignment : Type := mkAssignment {
  index : Z;
  assigned_pub : Z;
  sealed_share : list Z
}.
Record EscrowOnboarding : Type := mkOnboarding {
  on_wrapped_recovery : WrappedVdk;
  on_assignments : list EscrowAssignment
}.

Definition to_escrow_bytes (epoch : Z) : list Z := replicate 8 0 ++ to_be_bytes 8 epoch.

(** The loop over [shares.iter().zip(pubs).enumerate()]. *)
Fixpoint seal_shares (i : Z) (shares : list (list Z)) (pubs : list Z) (vault_id : Z) (epoch : list Z) :
    op nat EscrowError (list EscrowAssignment) :=
  match shares, pubs with
  | share :: shares', pubkey :: pubs' =>
      sealed ← seal_share share pubkey vault_id epoch;
      rest ← seal_shares (i + 1) shares' pubs' vault_id epoch;
      mret (mkAssignment i pubkey sealed :: rest)
  | _, _ => mret []
  end.

Definition onboard_escrow (vdk vault_id threshold guardian_count : Z) (guardian_x25519_pubs : list Z) (epoch : Z) :
    op nat EscrowError EscrowOnboarding :=
  rwk ← random KEY_LEN;
  wrapped_recovery ← wrap_vdk_under_rwk vdk rwk (WrapContext_new vault_id);
  shares ← split_rwk rwk threshold guardian_count;
  assignments ← seal_shares 0 shares guardian_x25519_pubs vault_id (to_escrow_bytes epoch);
  mret (mkOnboarding wrapped_recovery assignments).

(** ** Handing the key to a device *)

Definition sealed_vdk_header (vault_id device_id : Z) (epoch : list Z) : list Z :=
  SEALED_VDK_DOMAIN ++ to_be_bytes VAULT_ID_LEN vault_id ++ to_be_bytes DEVICE_ID_LEN device_id ++ epoch.

Definition seal_vdk_to_device (vdk recipient_x25519_pub vault_id device_id : Z) (epoch : list Z) :
    op nat PairingError (list Z) :=
  box PairSealFailed recipient_x25519_pub (sealed_vdk_header vault_id device_id epoch ++ to_be_bytes KEY_LEN vdk).

Definition open_vdk_from_pairing (sealed : list Z) (recipient_x25519_secret vault_id device_id : Z) (epoch : list Z) :
    result PairingError Z :=
  vdk ← ok_or (open_headed sealed recipient_x25519_secret (sealed_vdk_header vault_id device_id epoch) KEY_LEN) PairOpenFailed;
  ok_or (array KEY_LEN vdk) PairOpenFailed.

(** ** The recovery drivers *)

Record GuardianSetConfig : Type := mkGuardianSet { threshold : Z; guardian_count : Z }.

Inductive GuardianSetError : Type := GuardianCountOutOfBounds | ThresholdOutOfBounds.

Definition validate (c : GuardianSetConfig) : result GuardianSetError unit :=
  if (guardian_count c <? MIN_GUARDIANS) || (MAX_GUARDIANS <? guardian_count c) then Err GuardianCountOutOfBounds
  else if (threshold c <? MIN_THRESHOLD) || (MAX_THRESHOLD <? threshold c) || (guardian_count c <? threshold c)
  then Err ThresholdOutOfBounds else Ok tt.

Inductive RecoveryOrchestrationError : Type :=
| InvalidGuardianSet (e : GuardianSetError)
| GuardianCountMismatch (expected : Z) (got : nat)
| InsufficientShares (threshold : Z) (got : nat)
| Escrow (e : EscrowError).

(** [RecoveryEpoch::next]. *)
Definition next (epoch : Z) : Z := saturating_add U64_MAX epoch 1.

Record OnboardingArtifacts : Type := mkArtifacts {
  wrapped_recovery : WrappedVdk;
  config : GuardianSetConfig;
  epoch : Z;
  assignments : list EscrowAssignment
}.

Record RecoveryArtifacts : Type := mkRecovery { recovered_vdk : Z; recovery_re_split : OnboardingArtifacts }.

Definition onboard_guardian_escrow (vdk vault_id : Z) (cfg : GuardianSetConfig) (guardian_x25519_pubs : list Z)
    (epoch : Z) : op nat RecoveryOrchestrationError OnboardingArtifacts :=
  lift (map_err InvalidGuardianSet (validate cfg)) ≫= fun _ =>
  if negb (Z.of_nat (length guardian_x25519_pubs) =? guardian_count cfg)
  then throw (GuardianCountMismatch (guardian_count cfg) (length guardian_x25519_pubs))
  else
    onboarding ← map_op Escrow (onboard_escrow vdk vault_id (threshold cfg) (guardian_count cfg) guardian_x25519_pubs epoch);
    mret (mkArtifacts (on_wrapped_recovery onboarding) cfg epoch (on_assignments onboarding)).

Definition recover_vdk_from_shares (wrapped : WrappedVdk) (opened_shares : list (list Z)) (vault_id : Z)
    (cfg : GuardianSetConfig) (guardian_x25519_pubs : list Z) (current_epoch : Z) :
    op nat RecoveryOrchestrationError RecoveryArtifacts :=
  if Z.of_nat (length opened_shares) <? threshold cfg
  then throw (InsufficientShares (threshold cfg) (length opened_shares))
  else
    rwk ← lift (map_err Escrow (reconstruct_rwk opened_shares));
    vdk ← lift (map_err Escrow (unwrap_vdk_under_rwk wrapped rwk));
    re_split ← onboard_guardian_escrow vdk vault_id cfg guardian_x25519_pubs (next current_epoch);
    mret (mkRecovery vdk re_split).

(** ** The rotation driver *)

Record SurvivorSeal : Type := mkSurvivorSeal { seal_device_id : Z; sealed : list Z }.

Record RotationArtifacts : Type := mkRotation {
  new_vdk : Z;
  survivor_seals : list SurvivorSeal;
  re_split : OnboardingArtifacts;
  new_epoch : Z
}.

Inductive RotationError : Type :=
| NoSurvivors
| Pairing (e : PairingError)
| EscrowRePoint (e : RecoveryOrchestrationError).

Fixpoint seal_survivors (vdk vault_id : Z) (epoch_bytes : list Z) (survivors : list SurvivingDevice) :
    op nat RotationError (list SurvivorSeal) :=
  match survivors with
  | [] => mret []
  | s :: rest =>
      sealed ← map_op Pairing (seal_vdk_to_device vdk (x25519_pairing_pub s) vault_id (surviving_device_id s) epoch_bytes);
      seals ← seal_survivors vdk vault_id epoch_bytes rest;
      mret (mkSurvivorSeal (surviving_device_id s) sealed :: seals)
  end.

Definition rotate_vdk_for_survivors (survivors : list SurvivingDevice) (vault_id : Z)
    (guardian_config : GuardianSetConfig) (guardian_x25519_pubs : list Z) (current_epoch : Z) :
    op nat RotationError RotationArtifacts :=
  match survivors with
  | [] => throw NoSurvivors
  | _ =>
      vdk ← random KEY_LEN;
      let e := next current_epoch in
      seals ← seal_survivors vdk vault_id (to_escrow_bytes e) survivors;
      rs ← map_op EscrowRePoint (onboard_guardian_escrow vdk vault_id guardian_config guardian_x25519_pubs e);
      mret (mkRotation vdk seals rs e)
  end.
End crypto.

(** ** What was sealed, and who opens it *)

Section laws.
Context `{!Primitives, !PrimitiveLaws}.
Context (rng : nat -> Z).

Notation is_key x := (0 <= x < 256 ^ Z.of_nat KEY_LEN).

Lemma map_op_Ok {S E F A} (f : E -> F) (m : op S E A) s a s' :
  map_op f m s = (Ok a, s') -> m s = (Ok a, s').
Proof. unfold map_op. destruct (m s) as [[x|err] s1]; naive_solver. Qed.

Lemma array_bytes n x : 0 <= x < 256 ^ Z.of_nat n -> array n (to_be_bytes n x) = Some x.
Proof.
  intros Hx. unfold array. rewrite length_to_be_bytes, Nat.eqb_refl, be_value_to_be_bytes. by rewrite Z.mod_small.
Qed.

Lemma random_inv {E} n k (x : Z) k' : random rng n k = (Ok x, k') :> result E Z * nat -> 0 <= x < 256 ^ Z.of_nat n.
Proof. intros [= <- _]. apply Z.mod_pos_bound. lia. Qed.

Lemma open_encrypt k n p a c : encrypt k n p a = Some c -> open k n c a = Ok p.
Proof.
  intros Hc. unfold open. rewrite (encrypt_length _ _ _ _ _ Hc).
  rewrite (proj2 (Nat.ltb_ge _ _)) by lia. by rewrite (decrypt_encrypt _ _ _ _ _ Hc).
Qed.

Lemma open_other k n p a c k' n' a' :
  encrypt k n p a = Some c -> ~ (k' = k /\ n' = n /\ a' = a) -> open k' n' c a' = Err Tampered.
Proof.
  intros Hc Hne. unfold open. destruct (_ <? _)%nat; [done|]. destruct (decrypt k' n' c a') as [p'|] eqn:Hd; [|done].
  exfalso. by apply Hne, (decrypt_only _ _ _ _ _ _ _ _ _ Hc Hd).
Qed.

Lemma encode_inj c c' : 0 <= wc_vault_id c < 256 ^ 32 -> 0 <= wc_vault_id c' < 256 ^ 32 -> encode c = encode c' -> c = c'.
Proof.
  intros Hc Hc'. unfold encode. intros E. apply app_inj_1 in E as [_ E]; [|done].
  apply app_inj_1 in E as [E1 [= E2]]; [|by rewrite !length_to_be_bytes].
  apply to_be_bytes_inj in E1; [|done..]. destruct c, c'. simpl in *. by subst.
Qed.

(** A wrapper holds this vault key, under this wrap key. *)
Definition wraps (w : WrappedVdk) (vdk wrap_key : Z) : Prop :=
  is_key vdk /\ encrypt wrap_key (wrap_nonce w) (to_be_bytes KEY_LEN vdk) (encode (ctx w)) = Some (ciphertext w).

Lemma seal_under_key_inv vdk wk c k w k' :
  is_key vdk -> seal_under_key rng vdk wk c k = (Ok w, k') -> wraps w vdk wk /\ ctx w = c /\ 0 <= wrap_nonce w < 256 ^ 24.
Proof.
  intros Hv. unfold seal_under_key. intros Hr. apply op_bind_Ok in Hr as (n & k1 & Hn & Hr). apply random_inv in Hn.
  apply op_bind_Ok in Hr as (ct & k2 & Hs & Hr). injection Hr as <- <-. unfold lift, seal in Hs.
  destruct (encrypt _ _ _ _) as [c0|] eqn:Ec; [|done]. injection Hs as <- <-. done.
Qed.

Lemma open_wraps w vdk wk wk' :
  wraps w vdk wk -> open_with_key w wk' (ctx w) = if decide (wk' = wk) then Ok vdk else Err Tampered.
Proof.
  intros [Hv He]. unfold open_with_key. destruct (decide (wk' = wk)) as [->|Hne].
  - rewrite (open_encrypt _ _ _ _ _ He). unfold mbind, result_bind. by rewrite array_bytes.
  - rewrite (open_other _ _ _ _ _ _ _ _ He); [done|]. naive_solver.
Qed.

Lemma unwrap_wraps w vdk authority authority' :
  wraps w vdk (derive_wrap_key authority) ->
  unwrap_with w authority' = if decide (authority' = authority) then Ok vdk else Err Tampered.
Proof.
  intros Hw. unfold unwrap_with. rewrite (open_wraps _ _ _ _ Hw).
  destruct (decide (authority' = authority)) as [->|Hne]; [by rewrite decide_True|].
  rewrite decide_False; [done|]. intros E. by apply hkdf_inj in E.
Qed.

(** *** Headed boxes *)

Lemma open_headed_seal pk r header x c s header' len :
  box_seal pk r (header ++ x) = Some c -> length x = len -> length header' = length header ->
  open_headed c s header' len = if decide (box_public s = pk /\ header' = header) then Some x else None.
Proof.
  intros Hc Hx Hl. unfold open_headed. destruct (box_unseal s c) as [p|] eqn:Hu.
  - pose proof (unseal_only _ _ _ _ _ _ Hc Hu) as <-. rewrite (unseal_seal _ _ _ _ Hc) in Hu. injection Hu as <-.
    cbn. rewrite length_app, Hx, Hl, Nat.eqb_refl. cbn.
    rewrite take_app_length', drop_app_length' by done.
    destruct (decide (box_public s = box_public s /\ header' = header)) as [[_ ->]|Hn]; [by rewrite bool_decide_eq_true_2|].
    rewrite bool_decide_eq_false_2; [done|]. naive_solver.
  - cbn. rewrite decide_False; [done|]. intros [<- _]. by rewrite (unseal_seal _ _ _ _ Hc) in Hu.
Qed.

Lemma box_inv {E} (e : E) pk p k c k' : box rng e pk p k = (Ok c, k') -> exists r, box_seal pk r p = Some c.
Proof.
  unfold box. intros Hr. apply op_bind_Ok in Hr as (r & k1 & _ & Hr). unfold lift in Hr.
  destruct (box_seal pk r p) as [c0|] eqn:Ec; [|done]. injection Hr as <- _. by exists r.
Qed.

Lemma to_escrow_bytes_inj e e' : 0 <= e <= U64_MAX -> 0 <= e' <= U64_MAX -> to_escrow_bytes e = to_escrow_bytes e' -> e = e'.
Proof.
  intros He He' E. apply app_inj_1 in E as [_ E]; [|done]. apply to_be_bytes_inj in E; [done|..]; unfold U64_MAX in *; lia.
Qed.

Lemma share_header_inj v v' e e' :
  0 <= v < 256 ^ 32 -> 0 <= v' < 256 ^ 32 -> 0 <= e <= U64_MAX -> 0 <= e' <= U64_MAX ->
  sealed_share_header v (to_escrow_bytes e) = sealed_share_header v' (to_escrow_bytes e') <-> v = v' /\ e = e'.
Proof.
  intros. split; [|by intros [-> ->]]. unfold sealed_share_header. intros E. apply app_inj_1 in E as [_ E]; [|done].
  apply app_inj_1 in E as [E1 E2]; [|by rewrite !length_to_be_bytes].
  split; [by apply to_be_bytes_inj in E1|by apply to_escrow_bytes_inj].
Qed.

Lemma vdk_header_inj v v' d d' e e' :
  0 <= v < 256 ^ 32 -> 0 <= v' < 256 ^ 32 -> 0 <= d < 256 ^ 32 -> 0 <= d' < 256 ^ 32 ->
  0 <= e <= U64_MAX -> 0 <= e' <= U64_MAX ->
  sealed_vdk_header v d (to_escrow_bytes e) = sealed_vdk_header v' d' (to_escrow_bytes e') <-> v = v' /\ d = d' /\ e = e'.
Proof.
  intros. split; [|by intros (-> & -> & ->)]. unfold sealed_vdk_header. intros E. apply app_inj_1 in E as [_ E]; [|done].
  apply app_inj_1 in E as [E1 E]; [|by rewrite !length_to_be_bytes].
  apply app_inj_1 in E as [E2 E3]; [|by rewrite !length_to_be_bytes].
  split_and!; [by apply to_be_bytes_inj in E1|by apply to_be_bytes_inj in E2|by apply to_escrow_bytes_inj].
Qed.

(** *** The escrow *)

Notation header v e := (sealed_share_header v (to_escrow_bytes e)).

(** The shares of [rwk] boxed to the guardians, from position [i]. *)
Definition boxed (i : Z) (vault_id epoch : Z) (shares : list (list Z)) (pubs : list Z) (l : list EscrowAssignment) : Prop :=
  length l = length pubs
  /\ forall j a, l !! j = Some a -> index a = i + Z.of_nat j /\ exists share r,
       shares !! j = Some share /\ pubs !! j = Some (assigned_pub a)
       /\ box_seal (assigned_pub a) r (header vault_id epoch ++ share) = Some (sealed_share a).

Lemma seal_shares_inv i shares pubs v e k l k' :
  length shares = length pubs -> seal_shares rng i shares pubs v (to_escrow_bytes e) k = (Ok l, k') -> boxed i v e shares pubs l.
Proof.
  revert i pubs k l. induction shares as [|share shares IH]; intros i [|pub pubs] k l Hl; try done; simpl.
  { intros [= <- <-]. by split. }
  intros Hr. apply op_bind_Ok in Hr as (ct & k1 & Hs & Hr). apply op_bind_Ok in Hr as (rest & k2 & Hrest & Hr).
  injection Hr as <- <-. apply IH in Hrest as [Hlen Hrest]; [|simpl in Hl; lia]. apply box_inv in Hs as (r & Hs).
  split; [simpl; lia|]. intros [|j] a; simpl.
  - intros [= <-]. split; [simpl; lia|]. by exists share, r.
  - intros Ha. destruct (Hrest j a Ha) as [Hi Hx]. split; [lia|done].
Qed.

(** What [onboard_guardian_escrow] returns for a vault key. *)
Definition escrow_of (art : OnboardingArtifacts) (vdk vault_id : Z) (cfg : GuardianSetConfig) (pubs : list Z) (e : Z) : Prop :=
  config art = cfg /\ epoch art = e /\ ctx (wrapped_recovery art) = WrapContext_new vault_id
  /\ 0 <= wrap_nonce (wrapped_recovery art) < 256 ^ Z.of_nat NONCE_LEN
  /\ exists rwk shares r, is_key rwk /\ wraps (wrapped_recovery art) vdk (hkdf RECOVERY_WRAP_KEY_INFO rwk)
     /\ split_array (Z.to_nat (threshold cfg)) (Z.to_nat (guardian_count cfg)) (to_be_bytes KEY_LEN rwk) r = Some shares
     /\ boxed 0 vault_id e shares pubs (assignments art).

Lemma split_rwk_inv rwk t m k shares k' :
  split_rwk rng rwk t m k = (Ok shares, k') ->
  check_bounds t m = Ok tt /\ exists r, split_array (Z.to_nat t) (Z.to_nat m) (to_be_bytes KEY_LEN rwk) r = Some shares.
Proof.
  unfold split_rwk. intros Hr. apply op_bind_Ok in Hr as ([] & k1 & Hb & Hr). injection Hb as Hb <-.
  apply op_bind_Ok in Hr as (r & k2 & Hk & Hr). injection Hk as <- <-.
  apply op_bind_Ok in Hr as (raw & k3 & Hs & Hr). unfold lift in Hs, Hr.
  destruct (split_array _ _ _ _) as [raw'|] eqn:Es; [|done]. injection Hs as <- <-.
  split; [done|]. exists (rng k). rewrite Es. f_equal.
  destruct (collect (share_from_bytes <$> raw')) as [l|] eqn:Ec; [|done]. injection Hr as <- _.
  apply collect_Forall2 in Ec. clear -Ec. induction Ec as [|x y raw' l Hx _ IH]; [done|]. f_equal; [|done].
  unfold share_from_bytes in Hx. destruct (_ || _); [done|]. by injection Hx.
Qed.

Lemma onboard_inv vdk v cfg pubs e k art k' :
  is_key vdk -> onboard_guardian_escrow rng vdk v cfg pubs e k = (Ok art, k') ->
  validate cfg = Ok tt /\ Z.of_nat (length pubs) = guardian_count cfg /\ escrow_of art vdk v cfg pubs e.
Proof.
  intros Hv. unfold onboard_guardian_escrow. intros Hr. apply op_bind_Ok in Hr as ([] & k1 & Hva & Hr).
  unfold lift in Hva. destruct (validate cfg) as [[]|] eqn:Eva; [|done]. injection Hva as <-.
  destruct (_ =? guardian_count cfg) eqn:Ec; [|done]. apply Z.eqb_eq in Ec. cbn [negb] in Hr. split; [done|]. split; [done|].
  apply op_bind_Ok in Hr as (on & k2 & Hon & Hr). injection Hr as <- <-. apply map_op_Ok in Hon.
  unfold onboard_escrow in Hon. apply op_bind_Ok in Hon as (rwk & k3 & Hrwk & Hon). apply random_inv in Hrwk.
  apply op_bind_Ok in Hon as (w & k4 & Hw & Hon). apply map_op_Ok, seal_under_key_inv in Hw as (Hw & Hctx & Hnonce); [|done].
  apply op_bind_Ok in Hon as (shares & k5 & Hs & Hon). apply split_rwk_inv in Hs as (Hb & r & Hs).
  apply op_bind_Ok in Hon as (l & k6 & Hl & Hon). injection Hon as <- <-.
  do 4 (split; [done|]). exists rwk, shares, r. do 3 (split; [done|]).
  eapply seal_shares_inv; [|exact Hl]. apply split_shares in Hs as [-> _]. lia.
Qed.

Lemma share_is_share t m rwk r shares i share :
  split_array t m (to_be_bytes KEY_LEN rwk) r = Some shares -> shares !! i = Some share ->
  length share = SHARE_ENCODED_LEN /\ share_from_bytes share = Ok share.
Proof.
  intros Hs Hi. apply split_shares in Hs as [_ Hs]. rewrite Forall_lookup in Hs. destruct (Hs i share Hi) as [Hl Hz].
  rewrite length_to_be_bytes in Hl. split; [done|]. unfold share_from_bytes. rewrite Hl. cbn.
  destruct share as [|x share]; [done|]. cbn in Hz |- *. destruct (x =? 0) eqn:E; [|done]. apply Z.eqb_eq in E. by subst.
Qed.

Lemma lookups_submseteq {A} (l xs : list A) (is_ : list nat) :
  NoDup is_ -> Forall2 (fun i x => l !! i = Some x) is_ xs -> xs ⊆+ l.
Proof.
  intros Hnd H2. destruct l as [|d l]; [destruct H2 as [|???? Hx]; [apply submseteq_nil_l|by rewrite lookup_nil in Hx]|]. set (ll := d :: l) in *.
  assert (Hxs : xs = (fun i => default d (ll !! i)) <$> is_).
  { clear Hnd. induction H2 as [|i x is' xs' Hi _ IH]; [done|]. csimpl. rewrite Hi. by f_equal. }
  assert (Hll : ll = (fun i => default d (ll !! i)) <$> seq 0 (length ll)).
  { apply list_eq. intros i. rewrite list_lookup_fmap. destruct (decide (i < length ll)%nat).
    - rewrite lookup_seq_lt by done. simpl. by destruct (lookup_lt_is_Some_2 ll i) as [x ->].
    - rewrite lookup_seq_ge by lia. apply lookup_ge_None. lia. }
  rewrite Hxs. transitivity ((fun i => default d (ll !! i)) <$> seq 0 (length ll)); [|by rewrite <- Hll].
  apply fmap_submseteq, NoDup_submseteq; [done|]. intros i Hi. apply elem_of_seq. split; [lia|].
  apply list_elem_of_lookup in Hi as [j Hj]. destruct (Forall2_lookup_l _ _ _ _ _ H2 Hj) as (x & _ & Hx).
  by apply lookup_lt_Some in Hx.
Qed.

(** A guardian's share opens for the guardian, the vault and the epoch it was made for. *)
Lemma share_opens t m rwk r shares v e pubs l i a :
  0 <= v < 256 ^ 32 -> 0 <= e <= U64_MAX ->
  split_array t m (to_be_bytes KEY_LEN rwk) r = Some shares -> boxed 0 v e shares pubs l -> l !! i = Some a ->
  index a = Z.of_nat i /\ pubs !! i = Some (assigned_pub a) /\ exists share, shares !! i = Some share
    /\ forall s v' e', 0 <= v' < 256 ^ 32 -> 0 <= e' <= U64_MAX ->
       open_sealed_share (sealed_share a) s v' (to_escrow_bytes e')
       = if decide (box_public s = assigned_pub a /\ v' = v /\ e' = e) then Ok share else Err OpenFailed.
Proof.
  intros Hv He Hs [Hlen Hb] Ha. destruct (Hb i a Ha) as (Hi & share & r' & Hsh & Hpub & Hbox).
  split; [lia|]. split; [done|]. exists share. split; [done|]. intros s v' e' Hv' He'.
  destruct (share_is_share _ _ _ _ _ _ _ Hs Hsh) as [Hl Hok]. unfold open_sealed_share.
  rewrite (open_headed_seal _ _ _ _ _ s (header v' e') SHARE_ENCODED_LEN Hbox Hl).
  2: { unfold sealed_share_header, to_escrow_bytes. by rewrite !length_app, !length_to_be_bytes. }
  pose proof (share_header_inj v' v e' e Hv' Hv He' He) as Hinj.
  destruct (decide (box_public s = assigned_pub a /\ header v' e' = header v e)) as [[Hp Hh]|Hn].
  - rewrite decide_True by (split; [done|by apply Hinj]). cbn. by rewrite Hok.
  - rewrite decide_False; [done|]. intros [Hp Hve]. apply Hn. split; [done|by apply Hinj].
Qed.

Lemma reconstruct_shares rwk t m r shares sub :
  is_key rwk -> split_array t m (to_be_bytes KEY_LEN rwk) r = Some shares -> sub ⊆+ shares -> (t <= length sub)%nat ->
  reconstruct_rwk sub = Ok rwk.
Proof.
  intros Hk Hs Hsub Hlen. unfold reconstruct_rwk. rewrite (combine_split _ _ _ _ _ _ Hs Hsub Hlen).
  cbn [ok_or mbind result_bind]. by rewrite array_bytes.
Qed.

(** The shares that guardians at distinct positions release. *)
Definition released (art : OnboardingArtifacts) (v e : Z) (positions : list nat) (opened : list (list Z)) : Prop :=
  NoDup positions /\ Forall2 (fun i share => exists a s, assignments art !! i = Some a /\ box_public s = assigned_pub a
    /\ open_sealed_share (sealed_share a) s v (to_escrow_bytes e) = Ok share) positions opened.

Lemma released_reconstruct art vdk v cfg pubs e positions opened :
  0 <= v < 256 ^ 32 -> 0 <= e <= U64_MAX -> escrow_of art vdk v cfg pubs e -> released art v e positions opened ->
  threshold cfg <= Z.of_nat (length opened) ->
  exists rwk, reconstruct_rwk opened = Ok rwk /\ unwrap_vdk_under_rwk (wrapped_recovery art) rwk = Ok vdk.
Proof.
  intros Hv He (_ & _ & _ & _ & rwk & shares & r & Hk & Hw & Hs & Hb) [Hnd Hrel] Hlen. exists rwk. split.
  - eapply reconstruct_shares; [done|exact Hs| |lia]. apply (lookups_submseteq _ _ positions); [done|].
    apply (Forall2_impl _ _ _ _ Hrel). intros i share (a & s & Ha & Hpub & Hopen).
    destruct (share_opens _ _ _ _ _ _ _ _ _ i a Hv He Hs Hb Ha) as (_ & _ & share' & Hsh & Hall).
    rewrite (Hall s v e Hv He), decide_True in Hopen by done. injection Hopen as <-. done.
  - unfold unwrap_vdk_under_rwk. by rewrite (open_wraps _ _ _ _ Hw), decide_True.
Qed.

Lemma recover_run art vdk v cfg pubs e positions opened pubs' e' k :
  0 <= v < 256 ^ 32 -> 0 <= e <= U64_MAX -> escrow_of art vdk v cfg pubs e -> released art v e positions opened ->
  threshold cfg <= Z.of_nat (length opened) ->
  recover_vdk_from_shares rng (wrapped_recovery art) opened v cfg pubs' e' k
  = match onboard_guardian_escrow rng vdk v cfg pubs' (next e') k with
    | (Ok again, k') => (Ok (mkRecovery vdk again), k')
    | (Err err, k') => (Err err, k')
    end.
Proof.
  intros Hv He Hart Hrel Hlen. destruct (released_reconstruct _ _ _ _ _ _ _ _ Hv He Hart Hrel Hlen) as (rwk & Hrwk & Hunw).
  unfold recover_vdk_from_shares. rewrite (proj2 (Z.ltb_ge _ _)) by lia.
  rewrite Hrwk, (op_bind_run (lift (map_err Escrow (Ok rwk))) _ k rwk k eq_refl).
  rewrite Hunw, (op_bind_run (lift (map_err Escrow (Ok vdk))) _ k vdk k eq_refl), op_bind_eq.
  by destruct (onboard_guardian_escrow _ _ _ _ _ _ _) as [[again|err] k'].
Qed.

(** C2. The escrow gives the vault key back, and to nobody else.  Each assignment of
    [onboard_guardian_escrow] is at its guardian's position and opens for the secret of
    its public key, in its vault and epoch, and for nothing else; the shares that any
    [threshold] guardians at distinct positions release recover exactly the vault key that
    was escrowed, and the recovery sets up the next escrow for it, one epoch later. *)
Theorem escrow_recovers vdk v cfg pubs e k art k' :
  is_key vdk -> 0 <= v < 256 ^ 32 -> 0 <= e <= U64_MAX ->
  onboard_guardian_escrow rng vdk v cfg pubs e k = (Ok art, k') ->
  length (assignments art) = length pubs
  /\ (forall i a, assignments art !! i = Some a -> index a = Z.of_nat i /\ pubs !! i = Some (assigned_pub a)
      /\ exists share, forall s v' e', 0 <= v' < 256 ^ 32 -> 0 <= e' <= U64_MAX ->
         open_sealed_share (sealed_share a) s v' (to_escrow_bytes e')
         = if decide (box_public s = assigned_pub a /\ v' = v /\ e' = e) then Ok share else Err OpenFailed)
  /\ forall positions opened pubs' k2, released art v e positions opened -> threshold cfg <= Z.of_nat (length opened) ->
     recover_vdk_from_shares rng (wrapped_recovery art) opened v cfg pubs' e k2
     = match onboard_guardian_escrow rng vdk v cfg pubs' (next e) k2 with
       | (Ok again, k3) => (Ok (mkRecovery vdk again), k3)
       | (Err err, k3) => (Err err, k3)
       end.
Proof.
  intros Hk Hv He Hon. apply onboard_inv in Hon as (_ & _ & Hart); [|done]. split_and!.
  - by destruct Hart as (_ & _ & _ & _ & ? & ? & ? & _ & _ & _ & [? _]).
  - intros i a Ha. destruct Hart as (_ & _ & _ & _ & rwk & shares & r & _ & _ & Hs & Hb).
    destruct (share_opens _ _ _ _ _ _ _ _ _ i a Hv He Hs Hb Ha) as (Hi & Hp & share & _ & Hall). eauto.
  - intros. by eapply recover_run.
Qed.

(** ** The rotation *)

Lemma Forall2_with {A B} (P : A -> Prop) (Q R : A -> B -> Prop) l k :
  Forall P l -> Forall2 Q l k -> (forall x y, P x -> Q x y -> R x y) -> Forall2 R l k.
Proof. intros Hp Hq Himp. induction Hq; inversion Hp; subst; constructor; auto. Qed.

Lemma seal_survivors_inv vdk v eb survivors k l k' :
  seal_survivors rng vdk v eb survivors k = (Ok l, k') ->
  Forall2 (fun s seal => seal_device_id seal = surviving_device_id s /\ exists r,
    box_seal (x25519_pairing_pub s) r (sealed_vdk_header v (surviving_device_id s) eb ++ to_be_bytes KEY_LEN vdk)
    = Some (sealed seal)) survivors l.
Proof.
  revert k l k'. induction survivors as [|s survivors IH]; intros k l k'; simpl; [intros [= <- _]; constructor|].
  intros Hr. apply op_bind_Ok in Hr as (ct & k1 & Hs & Hr). apply op_bind_Ok in Hr as (rest & k2 & Hrest & Hr).
  injection Hr as <- _. apply map_op_Ok, box_inv in Hs as (r & Hs). constructor; [|by eapply IH]. split; [done|by exists r].
Qed.

Lemma rotate_inv survivors v cfg pubs e k art k' :
  rotate_vdk_for_survivors rng survivors v cfg pubs e k = (Ok art, k') ->
  survivors <> [] /\ is_key (new_vdk art) /\ new_epoch art = next e
  /\ Forall2 (fun s seal => seal_device_id seal = surviving_device_id s /\ exists r,
       box_seal (x25519_pairing_pub s) r
         (sealed_vdk_header v (surviving_device_id s) (to_escrow_bytes (next e)) ++ to_be_bytes KEY_LEN (new_vdk art))
       = Some (sealed seal)) survivors (survivor_seals art)
  /\ escrow_of (re_split art) (new_vdk art) v cfg pubs (next e).
Proof.
  unfold rotate_vdk_for_survivors. destruct survivors as [|s survivors]; [done|]. set (ss := s :: survivors). intros Hr.
  apply op_bind_Ok in Hr as (vdk & k1 & Hv & Hr). apply random_inv in Hv.
  apply op_bind_Ok in Hr as (seals & k2 & Hs & Hr). apply op_bind_Ok in Hr as (rs & k3 & Hon & Hr).
  injection Hr as <- _. apply map_op_Ok, onboard_inv in Hon as (_ & _ & Hon); [|done].
  split; [done|]. split; [done|]. split; [done|]. split; [by apply seal_survivors_inv in Hs|done].
Qed.

(** C6. A rotation hands the new key to the surviving devices and to them only.  When
    [rotate_vdk_for_survivors] returns, there is one seal per surviving device, in order;
    each opens to the new vault key with the pairing secret of its device, for the right
    vault, device and epoch, and with no other secret and for nothing else; and the guardian
    escrow is one of the new key, at the next epoch. *)
Theorem rotation_reaches_survivors survivors v cfg pubs e k art k' :
  0 <= v < 256 ^ 32 -> 0 <= e <= U64_MAX -> Forall (fun s => 0 <= surviving_device_id s < 256 ^ 32) survivors ->
  rotate_vdk_for_survivors rng survivors v cfg pubs e k = (Ok art, k') ->
  survivors <> [] /\ new_epoch art = next e
  /\ Forall2 (fun s seal => seal_device_id seal = surviving_device_id s /\ forall secret v' d' e',
       0 <= v' < 256 ^ 32 -> 0 <= d' < 256 ^ 32 -> 0 <= e' <= U64_MAX ->
       open_vdk_from_pairing (sealed seal) secret v' d' (to_escrow_bytes e')
       = if decide (box_public secret = x25519_pairing_pub s /\ v' = v /\ d' = surviving_device_id s /\ e' = next e)
         then Ok (new_vdk art) else Err PairOpenFailed) survivors (survivor_seals art)
  /\ escrow_of (re_split art) (new_vdk art) v cfg pubs (next e).
Proof.
  intros Hv He Hd Hr. apply rotate_inv in Hr as (Hne & Hk & Hep & Hseals & Hesc). do 2 (split; [done|]). split; [|done].
  assert (Hn : 0 <= next e <= U64_MAX) by (unfold next, saturating_add, U64_MAX in *; lia).
  refine (Forall2_with _ _ _ _ _ Hd Hseals _). intros s seal Hds [Hid (r & Hbox)]. split; [done|]. intros secret v' d' e' Hv' Hd' He'. unfold open_vdk_from_pairing.
  rewrite (open_headed_seal _ _ _ _ _ secret (sealed_vdk_header v' d' (to_escrow_bytes e')) KEY_LEN Hbox).
  2: { apply length_to_be_bytes. }
  2: { unfold sealed_vdk_header, to_escrow_bytes. by rewrite !length_app, !length_to_be_bytes. }
  pose proof (vdk_header_inj v' v d' (surviving_device_id s) e' (next e) Hv' Hv Hd' Hds He' Hn) as Hinj.
  destruct (decide (box_public secret = x25519_pairing_pub s /\ sealed_vdk_header v' d' (to_escrow_bytes e') = _)) as [[Hp Hh]|Hno].
  - rewrite decide_True by (split; [done|by apply Hinj]). cbn [ok_or mbind result_bind]. by rewrite array_bytes.
  - rewrite decide_False; [done|]. intros [Hp Hvde]. apply Hno. split; [done|by apply Hinj].
Qed.
End laws.

(** ** Witnesses, with transparent primitives *)

Module EscrowSample.

(** Bounds of constants. *)
Ltac bounded := split; vm_compute; (reflexivity || discriminate).

Definition toy_encrypt (k n : Z) (p a : list Z) : option (list Z) :=
  Some ([k; n; Zpos (countable.encode a)] ++ replicate 13 0 ++ p).
Definition toy_decrypt (k n : Z) (c a : list Z) : option (list Z) :=
  match c with
  | k' :: n' :: h :: rest =>
      if bool_decide (k' = k /\ n' = n /\ h = Zpos (countable.encode a)) then Some (drop 13 rest) else None
  | _ => None
  end.
Definition toy_unseal (s : Z) (c : list Z) : option (list Z) :=
  match c with pk :: p => if pk =? s + 1 then Some p else None | [] => None end.
Definition toy_split (t m : nat) (x : list Z) (_ : Z) : option (list (list Z)) :=
  match t with O => None | S _ => Some ((fun i => Z.of_nat (S i) :: x) <$> seq 0 m) end.
Definition toy_combine (shares : list (list Z)) : option (list Z) :=
  match shares with (_ :: x) :: _ => Some x | _ => None end.

#[export] Instance toy : Primitives := {|
  encrypt := toy_encrypt; decrypt := toy_decrypt; hkdf := fun _ x => x;
  box_public := fun s => s + 1; box_seal := fun pk _ p => Some (pk :: p); box_unseal := toy_unseal;
  split_array := toy_split; combine_array := toy_combine |}.

#[export] Instance toy_laws : PrimitiveLaws.
Proof.
  split; cbn.
  - intros k n p a c [= <-]. simpl. by rewrite bool_decide_eq_true_2.
  - intros k n p a c k' n' a' p' [= <-]. simpl. case_bool_decide as Hd; [|done]. destruct Hd as (-> & -> & E). intros _.
    injection E as E. apply (inj countable.encode) in E. by subst.
  - intros k n p a c [= <-]. simpl. unfold TAG_LEN. lia.
  - intros _ x y. done.
  - intros s r p c [= <-]. simpl. by rewrite Z.eqb_refl.
  - intros pk r p c s p' [= <-]. simpl. destruct (pk =? s + 1) eqn:Ek; [|done]. zbool. done.
  - intros [|t] m x r shares; [done|]. intros [= <-]. split; [by rewrite length_fmap, length_seq|].
    apply Forall_fmap, Forall_forall. intros i _. simpl. split; [done|]. intros [=].
  - intros [|t] m x r shares sub; [done|]. intros [= <-] Hsub Hlen. destruct sub as [|s sub]; [simpl in Hlen; lia|].
    assert (Hin : s ∈ (fun i => Z.of_nat (S i) :: x) <$> seq 0 m) by (eapply elem_of_submseteq; [|exact Hsub]; left).
    apply list_elem_of_fmap in Hin as (i & -> & _). done.
Qed.

Definition toy_rng (k : nat) : Z := 1000 + Z.of_nat k.
Definition two_of_three : GuardianSetConfig := mkGuardianSet 2 3.
Definition guardians : list Z := [11; 12; 13].
Definition sample_onboard : result RecoveryOrchestrationError OnboardingArtifacts * nat :=
  onboard_guardian_escrow toy_rng 77 5 two_of_three guardians 4 0%nat.
Definition share_of (i : Z) : list Z := (i + 1) :: to_be_bytes KEY_LEN 1000.

Lemma escrow_recovers_witness :
  exists art k' again k3, sample_onboard = (Ok art, k')
    /\ recover_vdk_from_shares toy_rng (wrapped_recovery art) [share_of 2; share_of 0] 5 two_of_three guardians 4 k'
       = (Ok (mkRecovery 77 again), k3).
Proof.
  destruct sample_onboard as [r k'] eqn:Hr. assert (Hok : is_ok r = true) by (change r with (r, k').1; rewrite <- Hr; vm_compute; reflexivity).
  destruct r as [art|]; [|discriminate Hok]. pose proof Hr as Hart.
  destruct (escrow_recovers toy_rng 77 5 two_of_three guardians 4 0%nat art k') as (_ & _ & H); [bounded|bounded|bounded|exact Hr|].
  assert (Hrel : released art 5 4 [2%nat; 0%nat] [share_of 2; share_of 0]).
  { split; [apply (bool_decide_unpack _); vm_compute; exact I|].
    injection Hart as <- _. repeat constructor;
      [exists (mkAssignment 2 13 (13 :: sealed_share_header 5 (to_escrow_bytes 4) ++ share_of 2)), 12
      |exists (mkAssignment 0 11 (11 :: sealed_share_header 5 (to_escrow_bytes 4) ++ share_of 0)), 10];
      vm_compute; split_and!; reflexivity. }
  specialize (H [2%nat; 0%nat] [share_of 2; share_of 0] guardians k' Hrel ltac:(vm_compute; discriminate)).
  destruct (onboard_guardian_escrow toy_rng 77 5 two_of_three guardians (next 4) k') as [[again|e] k3] eqn:Hagain.
  - exists art, k', again, k3. split; [reflexivity|exact H].
  - exfalso. injection Hr as _ <-. vm_compute in Hagain. discriminate Hagain.
Defined.

Definition survivor : SurvivingDevice := mkSurvivingDevice 900 21.

Lemma rotation_reaches_survivors_witness :
  exists art k', rotate_vdk_for_survivors toy_rng [survivor] 5 two_of_three guardians 4 0%nat = (Ok art, k')
    /\ exists seal, survivor_seals art = [seal]
       /\ open_vdk_from_pairing (sealed seal) 20 5 900 (to_escrow_bytes 5) = Ok (new_vdk art)
       /\ open_vdk_from_pairing (sealed seal) 30 5 900 (to_escrow_bytes 5) = Err PairOpenFailed.
Proof.
  destruct (rotate_vdk_for_survivors toy_rng [survivor] 5 two_of_three guardians 4 0%nat) as [r k'] eqn:Hr.
  assert (Hok : is_ok r = true) by (change r with (r, k').1; rewrite <- Hr; vm_compute; reflexivity).
  destruct r as [art|]; [|discriminate Hok]. exists art, k'. split; [reflexivity|].
  destruct (rotation_reaches_survivors toy_rng [survivor] 5 two_of_three guardians 4 0%nat art k') as (_ & _ & H & _);
    [bounded|bounded|repeat constructor; vm_compute; (reflexivity || discriminate)|exact Hr|].
  inversion H as [|s seal ss seals [_ Hs] Hrest E1 E2]; subst. inversion Hrest; subst. exists seal. split; [congruence|].
  split.
  - rewrite Hs by bounded. reflexivity.
  - rewrite Hs by bounded. reflexivity.
Defined.
End EscrowSample.
