(* ===== verification/KeyStore.v ===== *)
(** * The key tables of a vault file

    The tables of crates/pangolin-store that hold wrapped keys, as the rows SQLite returns,
    and the code that reads and writes them: meta.rs, vdk_chain.rs (the retained keys of
    earlier epochs), recovery_escrow.rs, recovery_recipient.rs and the device rows of
    device.rs.  A blob is a list of bytes whose length the reader checks. *)

From Stdlib Require Import String.
From S2P Require Import Prelude Bytes Cbor StoreError SessionPolicy RecoveryBackup MultiDevice Escrow.

Definition MAGIC : list Z := bytes_of "PNGLNVT0".
Definition FORMAT_VERSION : Z := 0.
Definition VDK_CHAIN_SCHEMA_VERSION : Z := 1.
Definition RECOVERY_ESCROW_SCHEMA_VERSION : Z := 2.
Definition RECOVERY_RECIPIENT_SCHEMA_VERSION : Z := 1.
Definition DEVICE_IDENTITY_SCHEMA_VERSION : Z := 1.
Definition RECOVERY_SHARE_AAD_DOMAIN : list Z := bytes_of "pgresh0" ++ [0].
Definition RECOVERY_RECIPIENT_AAD_DOMAIN : list Z := bytes_of "pgrecv0" ++ [0].
Definition DEVICE_KEY_AAD_DOMAIN : list Z := bytes_of "pgdvk0" ++ [0; 0].
Definition GUARDIAN_SIGNER_LEN : nat := 20.
Definition EVM_ADDRESS_LEN : nat := 20.

(** ** The rows *)

(** The columns [meta::read] selects, and the settings columns. *)
Record RawMeta : Type := mkRawMeta {
  magic_blob : list Z;
  format_version_i : Z;
  vault_id_blob : list Z;
  raw_created_at : Z;
  memory_kib_i : Z;
  time_cost_i : Z;
  parallelism_i : Z;
  kdf_salt_blob : list Z;
  schema_version_i : Z;
  raw_wrapped_ct : list Z;
  wrapped_nonce_blob : list Z
}.
Record MetaRow : Type := mkMetaRow {
  raw_meta : RawMeta;
  session_idle_secs : option Z;
  sync_mode_preference : option (list Z);
  revisionlog_version : option Z
}.

Record ChainRow : Type := mkChainRow {
  anchor_ct : list Z;
  anchor_nonce : list Z;
  anchor_wrap_schema : Z;
  device_ct : list Z;
  device_nonce : list Z;
  device_wrap_schema : Z;
  chain_row_schema : Z
}.

Record EscrowRow : Type := mkEscrowRow {
  er_wrapped_ct : list Z;
  er_wrapped_nonce : list Z;
  er_wrap_schema_version : Z;
  er_threshold : Z;
  er_guardian_count : Z;
  er_epoch : Z;
  er_schema_version : Z
}.
Record GuardianRow : Type := mkGuardianRow {
  gr_x25519_pub : list Z;
  gr_signer : list Z;
  gr_enc_sealed_share : list Z;
  gr_enc_nonce : list Z;
  gr_schema_version : Z
}.

Record DeviceKeyRow : Type := mkDeviceKeyRow { enc_seed : list Z; enc_nonce : list Z; dk_schema_version : Z }.
Record DeviceRow : Type := mkDeviceRow {
  dev_label : list Z;
  dev_added_at : Z;
  dev_public_key : option (list Z);
  dev_evm_address : option (list Z)
}.

Record RecipientRow : Type := mkRecipientRow {
  rr_attempt_nonce : Z;
  rr_x25519_pub : list Z;
  rr_enc_secret : list Z;
  rr_enc_nonce : list Z;
  rr_created_at_unix : Z
}.

(** Single-row tables are options, the others maps from their primary key. *)
Record Store : Type := mkStore {
  meta_row : option MetaRow;
  chain_state : option Z;
  chain_rows : gmap Z ChainRow;
  escrow_row : option EscrowRow;
  guardian_rows : gmap Z GuardianRow;
  device_key_row : option DeviceKeyRow;
  device_rows : gmap Z DeviceRow;
  recipient_rows : gmap Z RecipientRow
}.

Definition set_meta_row x st := mkStore x (chain_state st) (chain_rows st) (escrow_row st) (guardian_rows st)
  (device_key_row st) (device_rows st) (recipient_rows st).
Definition set_chain x y st := mkStore (meta_row st) x y (escrow_row st) (guardian_rows st)
  (device_key_row st) (device_rows st) (recipient_rows st).
Definition set_escrow x y st := mkStore (meta_row st) (chain_state st) (chain_rows st) x y
  (device_key_row st) (device_rows st) (recipient_rows st).
Definition set_device_key x st := mkStore (meta_row st) (chain_state st) (chain_rows st) (escrow_row st) (guardian_rows st)
  x (device_rows st) (recipient_rows st).
Definition set_devices x st := mkStore (meta_row st) (chain_state st) (chain_rows st) (escrow_row st) (guardian_rows st)
  (device_key_row st) x (recipient_rows st).
Definition set_recipients x st := mkStore (meta_row st) (chain_state st) (chain_rows st) (escrow_row st) (guardian_rows st)
  (device_key_row st) (device_rows st) x.

(** The checks of a column. *)
Definition blob (n : nat) (b : list Z) : store_result Z := ok_or (array n b) (Corrupted WrongLength).
Definition int (f : Z -> option Z) (x : Z) : store_result Z := ok_or (f x) (Corrupted IntegerOverflow).
Definition supported (max found : Z) : store_result unit :=
  if max <? found then Err (UnsupportedFormatVersion found max) else Ok tt.

(** ** The meta row *)

Record VaultMeta : Type := mkVaultMeta {
  vm_vault_id : Z;
  vm_created_at : Z;
  kdf_params : KdfParams;
  kdf_salt : Z;
  wrap_context : WrapContext;
  wrapped_ciphertext : list Z;
  wrapped_nonce : Z
}.

Definition wrapped_vdk (m : VaultMeta) : WrappedVdk :=
  mkWrappedVdk (wrapped_ciphertext m) (wrapped_nonce m) (wrap_context m).

Definition into_validated (r : RawMeta) : store_result VaultMeta :=
  if negb (bool_decide (magic_blob r = MAGIC)) then Err BadMagic
  else
    format_version ← int u32_try_from (format_version_i r);
    if negb (format_version =? FORMAT_VERSION) then Err (UnsupportedFormatVersion format_version FORMAT_VERSION)
    else
      vault_id ← blob VAULT_ID_LEN (vault_id_blob r);
      memory_kib ← int u32_try_from (memory_kib_i r);
      time_cost ← int u32_try_from (time_cost_i r);
      parallelism ← int u32_try_from (parallelism_i r);
      salt ← blob SALT_LEN (kdf_salt_blob r);
      schema_version ← int u8_try_from (schema_version_i r);
      nonce ← blob NONCE_LEN (wrapped_nonce_blob r);
      Ok (mkVaultMeta vault_id (raw_created_at r) (mkKdfParams memory_kib time_cost parallelism) salt
            (mkWrapContext vault_id schema_version) (raw_wrapped_ct r) nonce).

(** [meta::read]. *)
Definition read_meta (st : Store) : store_result (option VaultMeta) :=
  match meta_row st with
  | None => Ok None
  | Some r => m ← into_validated (raw_meta r); Ok (Some m)
  end.

(** [meta::write]: the statement is an [INSERT OR REPLACE] that does not name the settings
    columns, which are therefore null afterwards. *)
Definition write_meta (m : VaultMeta) (st : Store) : Store :=
  set_meta_row (Some (mkMetaRow
    (mkRawMeta MAGIC FORMAT_VERSION (to_be_bytes VAULT_ID_LEN (vm_vault_id m)) (vm_created_at m)
       (memory_kib (kdf_params m)) (time_cost (kdf_params m)) (parallelism (kdf_params m))
       (to_be_bytes SALT_LEN (kdf_salt m)) (wc_schema_version (wrap_context m)) (wrapped_ciphertext m)
       (to_be_bytes NONCE_LEN (wrapped_nonce m)))
    None None None)) st.

Definition update_settings (f : MetaRow -> MetaRow) (st : Store) : Store := set_meta_row (f <$> meta_row st) st.
Definition write_session_idle_secs (secs : option Z) : Store -> Store :=
  update_settings (fun r => mkMetaRow (raw_meta r) secs (sync_mode_preference r) (revisionlog_version r)).
Definition write_sync_mode_preference (pref : option (list Z)) : Store -> Store :=
  update_settings (fun r => mkMetaRow (raw_meta r) (session_idle_secs r) pref (revisionlog_version r)).
Definition write_revisionlog_version (version : option Z) : Store -> Store :=
  update_settings (fun r => mkMetaRow (raw_meta r) (session_idle_secs r) (sync_mode_preference r) version).
Definition read_session_idle_secs (st : Store) : option Z := meta_row st ≫= session_idle_secs.
Definition read_sync_mode_preference (st : Store) : option (list Z) := meta_row st ≫= sync_mode_preference.
Definition read_revisionlog_version (st : Store) : option Z := meta_row st ≫= revisionlog_version.

Section tables.
Context `{!Primitives}.
Context (rng : nat -> Z).

(** ** The retained keys *)

Record StoredEpochVdk : Type := mkStoredEpoch { stored_epoch : Z; password_anchor : WrappedVdk; device_wrapped : WrappedVdk }.

Definition read_current_epoch (st : Store) : store_result Z :=
  match chain_state st with None => Ok 0 | Some e => int u64_try_from e end.

Definition decode_chain_row (vault_id : Z) (raw : Z * ChainRow) : store_result StoredEpochVdk :=
  let '(epoch_i, r) := raw in
  schema ← int u16_try_from (chain_row_schema r);
  supported VDK_CHAIN_SCHEMA_VERSION schema ≫= fun _ =>
  epoch ← int u64_try_from epoch_i;
  an ← blob NONCE_LEN (anchor_nonce r);
  asv ← int u8_try_from (anchor_wrap_schema r);
  dn ← blob NONCE_LEN (device_nonce r);
  dsv ← int u8_try_from (device_wrap_schema r);
  Ok (mkStoredEpoch epoch (mkWrappedVdk (anchor_ct r) an (mkWrapContext vault_id asv))
        (mkWrappedVdk (device_ct r) dn (mkWrapContext vault_id dsv))).

(** [ORDER BY] of an integer primary key. *)
Definition key_le {A} (a b : Z * A) : Prop := a.1 <= b.1.
#[export] Instance key_le_dec {A} : RelDecision (@key_le A).
Proof. intros a b. unfold key_le. apply _. Defined.
Definition by_key {A} (m : gmap Z A) : list (Z * A) := merge_sort key_le (map_to_list m).

Definition read_chain (st : Store) (vault_id : Z) : store_result (list StoredEpochVdk) :=
  collect (decode_chain_row vault_id <$> by_key (chain_rows st)).

(** The loop of [build_on_unlock]. *)
Fixpoint retain (current authority : Z) (rows : list StoredEpochVdk) (retained : gmap Z Z) : store_result (gmap Z Z) :=
  match rows with
  | [] => Ok retained
  | s :: rest =>
      if stored_epoch s =? current then retain current authority rest retained
      else
        vdk ← map_err (fun _ => AuthenticationFailed) (unwrap_with (password_anchor s) authority);
        retain current authority rest (<[stored_epoch s := vdk]> retained)
  end.

Definition build_on_unlock (st : Store) (vault_id authority : Z) : store_result (VdkChain Z) :=
  current ← read_current_epoch st;
  rows ← read_chain st vault_id;
  retained ← retain current authority rows ∅;
  Ok (mkVdkChain retained current).

Definition append_retained_and_advance_tx (retained_epoch : Z) (anchor device : WrappedVdk) (new_current_epoch : Z)
    (st : Store) : store_result Store :=
  retained_i ← int i64_try_from retained_epoch;
  new_current_i ← int i64_try_from new_current_epoch;
  Ok (set_chain (Some new_current_i)
        (<[retained_i := mkChainRow (ciphertext anchor) (to_be_bytes NONCE_LEN (wrap_nonce anchor))
              (wc_schema_version (ctx anchor)) (ciphertext device) (to_be_bytes NONCE_LEN (wrap_nonce device))
              (wc_schema_version (ctx device)) VDK_CHAIN_SCHEMA_VERSION]> (chain_rows st)) st).

(** ** The recovery escrow *)

(** An AEAD failure as a [StoreError]. *)
Definition auth {E} (_ : E) : StoreError := AuthenticationFailed.

Definition recovery_share_aad (vault_id epoch guardian_index : Z) : list Z :=
  RECOVERY_SHARE_AAD_DOMAIN ++ to_be_bytes VAULT_ID_LEN vault_id ++ to_escrow_bytes epoch ++ [guardian_index].

(** [GuardianRecord] and [StoredGuardian]. *)
Record GuardianRecord : Type := mkGuardianRecord {
  g_index : Z;
  g_x25519_pub : Z;
  g_signer : Z;
  g_sealed_share : list Z
}.

Record StoredRecoveryEscrow : Type := mkStoredEscrow {
  se_wrapped_recovery : WrappedVdk;
  se_threshold : Z;
  se_guardian_count : Z;
  se_epoch : Z;
  se_guardians : list GuardianRecord
}.

Fixpoint write_guardians (vault_id vdk_aead epoch : Z) (guardians : list GuardianRecord) (rows : gmap Z GuardianRow) :
    op nat StoreError (gmap Z GuardianRow) :=
  match guardians with
  | [] => mret rows
  | g :: rest =>
      nonce ← random rng NONCE_LEN;
      enc ← lift (map_err auth (seal vdk_aead nonce (g_sealed_share g) (recovery_share_aad vault_id epoch (g_index g))));
      write_guardians vault_id vdk_aead epoch rest
        (<[g_index g := mkGuardianRow (to_be_bytes X25519_KEY_LEN (g_x25519_pub g)) (to_be_bytes GUARDIAN_SIGNER_LEN (g_signer g))
              enc (to_be_bytes NONCE_LEN nonce) RECOVERY_ESCROW_SCHEMA_VERSION]> rows)
  end.

Definition write_recovery_escrow_tx (vault_id vdk_aead : Z) (w : WrappedVdk) (threshold guardian_count epoch : Z)
    (guardians : list GuardianRecord) (st : Store) : op nat StoreError Store :=
  epoch_i ← lift (int i64_try_from epoch);
  rows ← write_guardians vault_id vdk_aead epoch guardians ∅;
  mret (set_escrow (Some (mkEscrowRow (ciphertext w) (to_be_bytes NONCE_LEN (wrap_nonce w)) (wc_schema_version (ctx w))
          threshold guardian_count epoch_i RECOVERY_ESCROW_SCHEMA_VERSION)) rows st).

Record EscrowMetaRow : Type := mkEscrowMeta {
  em_wrap_schema_version : Z;
  em_threshold : Z;
  em_guardian_count : Z;
  em_epoch : Z;
  em_schema_version : Z
}.

Definition read_escrow_meta_row (r : EscrowRow) : store_result EscrowMetaRow :=
  wsv ← int u8_try_from (er_wrap_schema_version r);
  t ← int u8_try_from (er_threshold r);
  m ← int u8_try_from (er_guardian_count r);
  e ← int u64_try_from (er_epoch r);
  sv ← int u16_try_from (er_schema_version r);
  Ok (mkEscrowMeta wsv t m e sv).

Definition decode_guardian_row (vault_id epoch vdk_aead : Z) (raw : Z * GuardianRow) : store_result GuardianRecord :=
  let '(index_i, r) := raw in
  schema ← int u16_try_from (gr_schema_version r);
  supported RECOVERY_ESCROW_SCHEMA_VERSION schema ≫= fun _ =>
  index ← int u8_try_from index_i;
  pub ← blob X25519_KEY_LEN (gr_x25519_pub r);
  signer ← blob GUARDIAN_SIGNER_LEN (gr_signer r);
  if forallb (fun b => b =? 0) (gr_signer r) then Err (Corrupted ZeroGuardianSigner)
  else
    nonce ← blob NONCE_LEN (gr_enc_nonce r);
    plaintext ← map_err auth (open vdk_aead nonce (gr_enc_sealed_share r) (recovery_share_aad vault_id epoch index));
    Ok (mkGuardianRecord index pub signer plaintext).

Definition read_recovery_escrow (st : Store) (vault_id vdk_aead : Z) : store_result (option StoredRecoveryEscrow) :=
  match escrow_row st with
  | None => Ok None
  | Some r =>
      m ← read_escrow_meta_row r;
      supported RECOVERY_ESCROW_SCHEMA_VERSION (em_schema_version m) ≫= fun _ =>
      nonce ← blob NONCE_LEN (er_wrapped_nonce r);
      guardians ← collect (decode_guardian_row vault_id (em_epoch m) vdk_aead <$> by_key (guardian_rows st));
      Ok (Some (mkStoredEscrow (mkWrappedVdk (er_wrapped_ct r) nonce (mkWrapContext vault_id (em_wrap_schema_version m)))
                  (em_threshold m) (em_guardian_count m) (em_epoch m) guardians))
  end.

(** ** The recipient of a recovery attempt *)

Definition recipient_aad (target_vault_id attempt_nonce : Z) : list Z :=
  RECOVERY_RECIPIENT_AAD_DOMAIN ++ to_be_bytes VAULT_ID_LEN target_vault_id ++ to_be_bytes 8 attempt_nonce.

Record StoredRecipientIdentity : Type := mkRecipientIdentity { ri_attempt_nonce : Z; ri_x25519_pub : Z; ri_created_at_unix : Z }.

Definition write_recipient_tx (vdk_aead target_vault_id attempt_nonce x25519_secret x25519_pub created_at_unix : Z)
    (st : Store) : op nat StoreError Store :=
  nonce ← random rng NONCE_LEN;
  enc ← lift (map_err auth (seal vdk_aead nonce (to_be_bytes X25519_KEY_LEN x25519_secret) (recipient_aad target_vault_id attempt_nonce)));
  attempt_nonce_i ← lift (int i64_try_from attempt_nonce);
  mret (set_recipients (<[target_vault_id := mkRecipientRow attempt_nonce_i (to_be_bytes X25519_KEY_LEN x25519_pub) enc
          (to_be_bytes NONCE_LEN nonce) created_at_unix]> (recipient_rows st)) st).

Definition read_recipient_identity (st : Store) (target_vault_id : Z) : store_result (option StoredRecipientIdentity) :=
  match recipient_rows st !! target_vault_id with
  | None => Ok None
  | Some r =>
      attempt_nonce ← int u64_try_from (rr_attempt_nonce r);
      pub ← blob X25519_KEY_LEN (rr_x25519_pub r);
      Ok (Some (mkRecipientIdentity attempt_nonce pub (rr_created_at_unix r)))
  end.

Definition peek_recipient_secret (st : Store) (vdk_aead target_vault_id : Z) : store_result (option (Z * Z * Z)) :=
  match recipient_rows st !! target_vault_id with
  | None => Ok None
  | Some r =>
      attempt_nonce ← int u64_try_from (rr_attempt_nonce r);
      pub ← blob X25519_KEY_LEN (rr_x25519_pub r);
      nonce ← blob NONCE_LEN (rr_enc_nonce r);
      plaintext ← map_err auth (open vdk_aead nonce (rr_enc_secret r) (recipient_aad target_vault_id attempt_nonce));
      secret ← blob X25519_KEY_LEN plaintext;
      Ok (Some (attempt_nonce, secret, pub))
  end.

Definition clear_recipient_tx (target_vault_id : Z) (st : Store) : Store :=
  set_recipients (delete target_vault_id (recipient_rows st)) st.

(** ** The device *)

Context (ed25519_public : Z -> Z) (derive_evm_address : Z -> option Z).

(** A device key is its seed, a device id its verifying key. *)
Definition device_id_from_key (key : Z) : Z := ed25519_public key.

Definition device_key_aad (vault_id device_id : Z) : list Z :=
  DEVICE_KEY_AAD_DOMAIN ++ to_be_bytes VAULT_ID_LEN vault_id ++ to_be_bytes DEVICE_ID_LEN device_id.

(** [ORDER BY added_at ASC, device_id ASC LIMIT 1]. *)
Definition device_le (a b : Z * DeviceRow) : Prop := pair_le (dev_added_at a.2, a.1) (dev_added_at b.2, b.1).
#[export] Instance device_le_dec : RelDecision device_le.
Proof. intros a b. unfold device_le. apply _. Defined.
Definition read_registered_device_id (st : Store) : option Z :=
  fst <$> hd_error (merge_sort device_le (map_to_list (device_rows st))).

Definition backfill_evm_address_if_missing (key device_id : Z) (st : Store) : store_result Store :=
  let existing := device_rows st !! device_id ≫= dev_evm_address in
  address ← ok_or (derive_evm_address key) (Corrupted WalletDerivation);
  match existing with
  | Some cached =>
      if negb (length cached =? EVM_ADDRESS_LEN)%nat then Err (Corrupted WrongLength)
      else if bool_decide (cached = to_be_bytes EVM_ADDRESS_LEN address) then Ok st
      else Err (Corrupted EvmAddressMismatch)
  | None =>
      match device_rows st !! device_id with
      | None => Err (Corrupted MissingRow)
      | Some r =>
          Ok (set_devices (<[device_id := mkDeviceRow (dev_label r) (dev_added_at r) (dev_public_key r)
                (Some (to_be_bytes EVM_ADDRESS_LEN address))]> (device_rows st)) st)
      end
  end.

Definition load_device_key_with_id (vault_id vdk_aead device_id : Z) (st : Store) : store_result (option (Z * Store)) :=
  match device_key_row st with
  | None => Ok None
  | Some r =>
      schema_version ← int u16_try_from (dk_schema_version r);
      supported DEVICE_IDENTITY_SCHEMA_VERSION schema_version ≫= fun _ =>
      nonce ← blob NONCE_LEN (enc_nonce r);
      plaintext ← map_err auth (open vdk_aead nonce (enc_seed r) (device_key_aad vault_id device_id));
      key ← ok_or (array KEY_LEN plaintext) AuthenticationFailed;
      if negb (device_id_from_key key =? device_id) then Err AuthenticationFailed
      else st' ← backfill_evm_address_if_missing key device_id st; Ok (Some (key, st'))
  end.

Definition sealed_device_key (vault_id vdk_aead key : Z) : op nat StoreError DeviceKeyRow :=
  nonce ← random rng NONCE_LEN;
  ct ← lift (map_err auth (seal vdk_aead nonce (to_be_bytes KEY_LEN key) (device_key_aad vault_id (device_id_from_key key))));
  mret (mkDeviceKeyRow ct (to_be_bytes NONCE_LEN nonce) DEVICE_IDENTITY_SCHEMA_VERSION).

Definition reseal_device_key_tx (vault_id new_vdk_aead key : Z) (st : Store) : op nat StoreError Store :=
  match device_key_row st with
  | None => mret st
  | Some _ => row ← sealed_device_key vault_id new_vdk_aead key; mret (set_device_key (Some row) st)
  end.

Definition register_device (vault_id vdk_aead key : Z) (label : list Z) (now_ms : Z) (st : Store) :
    op nat StoreError (Z * Store) :=
  let device_id := device_id_from_key key in
  row ← sealed_device_key vault_id vdk_aead key;
  evm_address ← lift (ok_or (derive_evm_address key) (Corrupted WalletDerivation));
  mret (device_id, set_devices (<[device_id := mkDeviceRow label now_ms (Some (to_be_bytes 32 (ed25519_public key)))
          (Some (to_be_bytes EVM_ADDRESS_LEN evm_address))]> (device_rows st)) (set_device_key (Some row) st)).

(** The device part of [unlock]. *)
Definition load_or_register_device (vault_id vdk_aead now_ms : Z) (st : Store) : op nat StoreError (Store * Z * Z) :=
  match read_registered_device_id st with
  | Some existing_id =>
      r ← lift (load_device_key_with_id vault_id vdk_aead existing_id st);
      match r with
      | Some (key, st') => mret (st', existing_id, key)
      | None => throw (Corrupted MissingRow)
      end
  | None =>
      key ← random rng KEY_LEN;
      '(device_id, st') ← register_device vault_id vdk_aead key (bytes_of "This device") now_ms st;
      mret (st', device_id, key)
  end.
End tables.


(** ** Round trips *)

#[local] Opaque to_be_bytes.

Section facts.
Context `{!Primitives, !PrimitiveLaws}.
Context (rng : nat -> Z).

Notation is_key x := (0 <= x < 256 ^ Z.of_nat KEY_LEN).

Lemma blob_bytes n x : 0 <= x < 256 ^ Z.of_nat n -> blob n (to_be_bytes n x) = Ok x.
Proof. intros Hx. unfold blob. by rewrite array_bytes. Qed.

Lemma int_ok lo hi x : lo <= x <= hi -> int (try_from lo hi) x = Ok x.
Proof. intros Hx. unfold int. by rewrite (proj2 (try_from_Some lo hi x x)). Qed.

Lemma int_inv f x y : int f x = Ok y -> f x = Some y.
Proof. unfold int. destruct (f x); naive_solver. Qed.

(** A meta row the code may hold. *)
Record meta_ok (m : VaultMeta) : Prop := {
  mo_vault_id : 0 <= vm_vault_id m < 256 ^ Z.of_nat VAULT_ID_LEN;
  mo_memory : 0 <= memory_kib (kdf_params m) <= U32_MAX;
  mo_time : 0 <= time_cost (kdf_params m) <= U32_MAX;
  mo_parallelism : 0 <= parallelism (kdf_params m) <= U32_MAX;
  mo_salt : 0 <= kdf_salt m < 256 ^ Z.of_nat SALT_LEN;
  mo_nonce : 0 <= wrapped_nonce m < 256 ^ Z.of_nat NONCE_LEN;
  mo_context : wrap_context m = mkWrapContext (vm_vault_id m) (wc_schema_version (wrap_context m));
  mo_schema : 0 <= wc_schema_version (wrap_context m) <= U8_MAX
}.

Lemma read_write_meta m st : meta_ok m -> read_meta (write_meta m st) = Ok (Some m).
Proof.
  intros [? ? ? ? ? ? Hctx ?]. unfold read_meta, write_meta, into_validated. cbn [meta_row set_meta_row raw_meta magic_blob
    format_version_i vault_id_blob raw_created_at memory_kib_i time_cost_i parallelism_i kdf_salt_blob schema_version_i
    raw_wrapped_ct wrapped_nonce_blob].
  rewrite (bool_decide_eq_true_2 (MAGIC = MAGIC)) by done. cbn [negb]. unfold FORMAT_VERSION.
  rewrite !blob_bytes by done. unfold u32_try_from, u8_try_from. rewrite !int_ok by (done || (unfold U32_MAX; lia)).
  cbn. rewrite <- Hctx. destruct m as [? ? [] ? ? ? ?]. done.
Qed.

(** *** Rows in key order *)

Lemma by_key_elem {A} (m : gmap Z A) x : x ∈ by_key m <-> m !! x.1 = Some x.2.
Proof. unfold by_key. rewrite merge_sort_Permutation. destruct x. apply elem_of_map_to_list. Qed.

Lemma foldl_insert_rows {A} (rs : list (Z * A)) m :
  NoDup rs.*1 -> (forall r, r ∈ rs -> m !! r.1 = None) ->
  map_to_list (foldl (fun m r => <[r.1 := r.2]> m) m rs) ≡ₚ rs ++ map_to_list m.
Proof.
  revert m. induction rs as [|r rs IH]; intros m Hnd Hm; [done|]. cbn. inversion Hnd as [|? ? Hr Hnd']; subst.
  rewrite IH; [|done|].
  - rewrite map_to_list_insert by (apply Hm; left). destruct r. cbn. by rewrite Permutation_middle.
  - intros r' Hr'. rewrite lookup_insert_ne; [apply Hm; by right|]. intros E. apply Hr. rewrite E.
    by apply list_elem_of_fmap_2.
Qed.

Lemma by_key_sorted {A} (rs : list (Z * A)) :
  StronglySorted Z.lt rs.*1 -> by_key (foldl (fun m r => <[r.1 := r.2]> m) (∅ : gmap Z A) rs) = rs.
Proof.
  intros Hs. assert (Hnd : NoDup rs.*1).
  { clear -Hs. induction Hs as [|x l Hs IH Hx]; constructor; [|done]. intros Hin. rewrite Forall_forall in Hx.
    specialize (Hx _ Hin). lia. }
  assert (Hp : by_key (foldl (fun m r => <[r.1 := r.2]> m) (∅ : gmap Z A) rs) ≡ₚ rs).
  { unfold by_key. rewrite merge_sort_Permutation, foldl_insert_rows; [|done|done].
    by rewrite map_to_list_empty, app_nil_r. }
  apply (StronglySorted_unique_strong key_le); [| | |done].
  - intros [k1 a1] [k2 a2] H1 H2 H12 H21. unfold key_le in *. cbn in *. assert (k1 = k2) as -> by lia. f_equal.
    rewrite <- Hp in H2. apply by_key_elem in H1, H2. cbn in *. congruence.
  - apply StronglySorted_merge_sort; [intros ? ? ?; unfold key_le; lia|intros ? ?; unfold key_le; lia].
  - clear -Hs. induction rs as [|r rs IH]; [constructor|]. inversion Hs as [|? ? Hs' Hr]; subst. constructor; [auto|].
    apply Forall_forall. intros x Hx. unfold key_le.
    assert (Hlt : r.1 < x.1) by (revert Hr; rewrite Forall_forall; intros Hr; apply Hr, list_elem_of_fmap_2, Hx). lia.
Qed.

(** *** The recovery escrow *)

(** A guardian record the code may hold; the second is what a reader accepts. *)
Definition record_ok (g : GuardianRecord) : Prop :=
  0 <= g_index g <= U8_MAX /\ 0 <= g_x25519_pub g < 256 ^ Z.of_nat X25519_KEY_LEN
  /\ 0 <= g_signer g < 256 ^ Z.of_nat GUARDIAN_SIGNER_LEN.

Lemma zero_bytes n x : 0 <= x < 256 ^ Z.of_nat n -> forallb (fun b => b =? 0) (to_be_bytes n x) = (x =? 0).
Proof.
  intros Hx. destruct (decide (x = 0)) as [->|Hne].
  - rewrite Z.eqb_refl. apply forallb_forall. intros b Hb. apply list_elem_of_In in Hb.
    assert (Hz : to_be_bytes n 0 = replicate n 0).
    { apply be_value_inj; [by rewrite length_to_be_bytes, length_replicate|apply to_be_bytes_bytes| |].
      - apply Forall_replicate. unfold is_byte. lia.
      - rewrite be_value_to_be_bytes, Z.mod_0_l by lia. clear. induction n as [|n IH]; [done|]. cbn. rewrite <- IH. lia. }
    rewrite Hz in Hb. apply elem_of_replicate in Hb as [-> _]. done.
  - rewrite (proj2 (Z.eqb_neq _ _) Hne). apply not_true_iff_false. intros Hall. apply Hne.
    rewrite <- (Z.mod_small x (256 ^ Z.of_nat n)), <- be_value_to_be_bytes by done.
    rewrite forallb_forall in Hall. clear -Hall. revert Hall. induction (to_be_bytes n x) as [|b bs IH]; intros Hall; [done|].
    cbn [be_value]. rewrite IH by (intros y Hy; apply Hall; by right). specialize (Hall b (or_introl eq_refl)). zbool. lia.
Qed.

(** What [decode_guardian_row] reads in a row that [write_guardians] wrote for a guardian. *)
Definition row_of (vault_id epoch vdk : Z) (g : GuardianRecord) (r : Z * GuardianRow) : Prop :=
  r.1 = g_index g /\ forall key, decode_guardian_row vault_id epoch key r
  = if g_signer g =? 0 then Err (Corrupted ZeroGuardianSigner)
    else if decide (key = vdk) then Ok g else Err AuthenticationFailed.

Lemma write_guardians_inv v vdk e guardians rows k rows' k' :
  Forall record_ok guardians -> write_guardians rng v vdk e guardians rows k = (Ok rows', k') ->
  exists rs, Forall2 (row_of v e vdk) guardians rs /\ rows' = foldl (fun m r => <[r.1 := r.2]> m) rows rs.
Proof.
  revert rows k. induction guardians as [|g guardians IH]; intros rows k Hg Hr.
  { injection Hr as <- _. exists []. split; [constructor|done]. }
  inversion Hg as [|? ? Hok Hg']; subst. cbn [write_guardians] in Hr.
  apply op_bind_Ok in Hr as (n & k1 & Hn & Hr). apply random_inv in Hn.
  apply op_bind_Ok in Hr as (ct & k2 & Hs & Hr). unfold lift, seal in Hs.
  destruct (encrypt _ _ _ _) as [c|] eqn:Ec; [|done]. injection Hs as <- <-.
  apply IH in Hr as (rs & Hrs & ->); [|done].
  eexists ((g_index g, _) :: rs). split; [|reflexivity]. constructor; [|done]. split; [done|]. intros key.
  destruct Hok as (Hi & Hp & Hsig). unfold decode_guardian_row.
  cbn [gr_schema_version gr_x25519_pub gr_signer gr_enc_sealed_share gr_enc_nonce].
  unfold u16_try_from, u8_try_from, supported. rewrite !int_ok by (done || (unfold RECOVERY_ESCROW_SCHEMA_VERSION, U16_MAX; lia)).
  unfold mbind, result_bind. rewrite !blob_bytes, zero_bytes by done.
  change (RECOVERY_ESCROW_SCHEMA_VERSION <? RECOVERY_ESCROW_SCHEMA_VERSION) with false. cbv beta iota.
  destruct (g_signer g =? 0); [done|]. destruct (decide (key = vdk)) as [->|Hne].
  - rewrite (open_encrypt _ _ _ _ _ Ec). by destruct g.
  - rewrite (open_other _ _ _ _ _ _ _ _ Ec) by naive_solver. done.
Qed.

Lemma escrow_read_guardians v vdk e guardians rs key :
  Forall2 (row_of v e vdk) guardians rs ->
  collect (decode_guardian_row v e key <$> rs)
  = collect ((fun g => if g_signer g =? 0 then Err (Corrupted ZeroGuardianSigner)
                       else if decide (key = vdk) then Ok g else Err AuthenticationFailed) <$> guardians).
Proof. induction 1 as [|g r guardians rs [_ Hr] Hrs IH]; [done|]. csimpl. by rewrite Hr, IH. Qed.

(** What [read_recovery_escrow] makes of the rows of [write_recovery_escrow_tx]. *)
Definition reads_back (v vdk : Z) (w : WrappedVdk) (t m e : Z) (guardians : list GuardianRecord) (st : Store) : Prop :=
  forall key, read_recovery_escrow st v key
  = (gs ← collect ((fun g => if g_signer g =? 0 then Err (Corrupted ZeroGuardianSigner)
                            else if decide (key = vdk) then Ok g else Err AuthenticationFailed) <$> guardians);
     Ok (Some (mkStoredEscrow w t m e gs))).

(** What the Rust types of the arguments guarantee, and the order of the assignments. *)
Record escrow_ok (v : Z) (w : WrappedVdk) (t m e : Z) (guardians : list GuardianRecord) : Prop := {
  eo_context : ctx w = mkWrapContext v (wc_schema_version (ctx w));
  eo_schema : 0 <= wc_schema_version (ctx w) <= U8_MAX;
  eo_nonce : 0 <= wrap_nonce w < 256 ^ Z.of_nat NONCE_LEN;
  eo_threshold : 0 <= t <= U8_MAX;
  eo_count : 0 <= m <= U8_MAX;
  eo_epoch : 0 <= e <= U64_MAX;
  eo_records : Forall record_ok guardians;
  eo_order : StronglySorted Z.lt (g_index <$> guardians)
}.

Lemma write_escrow_inv v vdk w t m e guardians st k st' k' :
  escrow_ok v w t m e guardians ->
  write_recovery_escrow_tx rng v vdk w t m e guardians st k = (Ok st', k') ->
  e <= I64_MAX /\ reads_back v vdk w t m e guardians st'
  /\ exists x y, st' = set_escrow x y st.
Proof.
  intros [Hctx Hwsv Hn Ht Hm He Hg Hs] Hr. unfold write_recovery_escrow_tx in Hr.
  apply op_bind_Ok in Hr as (ei & k1 & Hei & Hr). injection Hei as Hei <-. apply int_inv, try_from_Some in Hei as [-> He'].
  apply op_bind_Ok in Hr as (rows & k2 & Hw & Hr). injection Hr as <- _. split; [lia|]. split; [|eauto].
  apply write_guardians_inv in Hw as (rs & Hrs & ->); [|done].
  assert (Hsort : StronglySorted Z.lt rs.*1).
  { assert (Hi : rs.*1 = g_index <$> guardians).
    { clear -Hrs. induction Hrs as [|g r guardians rs [Hr _] Hrs IH]; [done|]. csimpl. by rewrite Hr, IH. }
    by rewrite Hi. }
  intros key. unfold read_recovery_escrow, read_escrow_meta_row, set_escrow.
  cbn [escrow_row guardian_rows er_wrap_schema_version er_threshold er_guardian_count er_epoch er_schema_version er_wrapped_nonce
       er_wrapped_ct].
  unfold u8_try_from, u16_try_from, u64_try_from. rewrite !int_ok by (done || (unfold RECOVERY_ESCROW_SCHEMA_VERSION, U16_MAX; lia)).
  unfold mbind, result_bind. cbn [em_schema_version em_wrap_schema_version em_threshold em_guardian_count em_epoch].
  unfold supported. change (RECOVERY_ESCROW_SCHEMA_VERSION <? RECOVERY_ESCROW_SCHEMA_VERSION) with false. cbv beta iota.
  rewrite blob_bytes, by_key_sorted by done. cbv beta iota. rewrite (escrow_read_guardians _ vdk _ guardians) by done.
  rewrite <- Hctx. destruct w. done.
Qed.

Lemma collect_some_err {E A B} (f : A -> result E B) l e :
  (exists x, x ∈ l /\ is_ok (f x) = false) -> (forall x e', x ∈ l -> f x = Err e' -> e' = e) -> collect (f <$> l) = Err e.
Proof.
  intros (x & Hx & Hfx) Hall. induction l as [|y l IH]; [by apply elem_of_nil in Hx|]. csimpl.
  unfold mbind, result_bind in *. destruct (f y) as [b|e'] eqn:Ey.
  - rewrite IH; [done| |intros; eapply Hall; [by right|done]]. apply elem_of_cons in Hx as [->|Hx]; [by rewrite Ey in Hfx|done].
  - f_equal. eapply Hall; [left|done].
Qed.

(** What [write_recovery_escrow_tx] stores is what [read_recovery_escrow] returns, under
    the vault key it was sealed with and no other: under another key it answers
    [AuthenticationFailed].  A guardian without a signer address is stored all the same, and
    no key reads the escrow afterwards. *)
Theorem escrow_rows_roundtrip v vdk w t m e guardians st k st' k' :
  escrow_ok v w t m e guardians ->
  write_recovery_escrow_tx rng v vdk w t m e guardians st k = (Ok st', k') ->
  (Forall (fun g => g_signer g <> 0) guardians ->
   read_recovery_escrow st' v vdk = Ok (Some (mkStoredEscrow w t m e guardians))
   /\ (guardians <> [] -> forall key, key <> vdk -> read_recovery_escrow st' v key = Err AuthenticationFailed))
  /\ (Exists (fun g => g_signer g = 0) guardians -> read_recovery_escrow st' v vdk = Err (Corrupted ZeroGuardianSigner)
      /\ forall key, is_ok (read_recovery_escrow st' v key) = false).
Proof.
  intros Hok Hr. apply (write_escrow_inv _ _ _ _ _ _ _ _ _ _ _ Hok) in Hr as (_ & Hread & _). split.
  - intros Hnz. rewrite Forall_forall in Hnz. split.
    + rewrite Hread. rewrite (proj2 (collect_Forall2 _ guardians guardians)); [done|]. apply Forall_Forall2_diag, Forall_forall.
      intros g Hg. rewrite (proj2 (Z.eqb_neq _ _) (Hnz g Hg)). by rewrite decide_True.
    + intros Hne key Hkey. rewrite Hread. rewrite (collect_some_err _ guardians AuthenticationFailed); [done| |].
      * destruct guardians as [|g guardians]; [done|]. exists g. split; [left|].
        rewrite (proj2 (Z.eqb_neq _ _) (Hnz g ltac:(left))). by rewrite decide_False.
      * intros g e' Hg. rewrite (proj2 (Z.eqb_neq _ _) (Hnz g Hg)). rewrite decide_False by done. by intros [= <-].
  - intros Hz. apply Exists_exists in Hz as (g & Hg & Hz). split.
    + rewrite Hread. rewrite (collect_some_err _ guardians (Corrupted ZeroGuardianSigner)); [done| |].
      * exists g. split; [done|]. by rewrite Hz.
      * intros g' e' _. destruct (g_signer g' =? 0); [by intros [= <-]|]. by rewrite decide_True.
    + intros key. rewrite Hread. destruct (collect _) as [gs|err] eqn:Ec; [|done]. exfalso.
      apply collect_Forall2 in Ec. apply list_elem_of_lookup in Hg as [i Hi].
      destruct (Forall2_lookup_l _ _ _ _ _ Ec Hi) as (y & _ & Hy). cbn in Hy. by rewrite Hz in Hy.
Qed.

(** *** The retained keys *)

Lemma retain_inv current a rows acc m :
  retain current a rows acc = Ok m ->
  Forall (fun s => stored_epoch s = current \/ is_ok (unwrap_with (password_anchor s) a) = true) rows.
Proof.
  revert acc. induction rows as [|s rows IH]; intros acc Hr; [constructor|]. cbn in Hr.
  destruct (stored_epoch s =? current) eqn:Ee.
  - constructor; [left; lia|by eapply IH].
  - unfold mbind, result_bind in Hr. destruct (unwrap_with (password_anchor s) a) as [x|err] eqn:Eu; [|done].
    constructor; [right; by rewrite Eu|exact (IH _ Hr)].
Qed.

Lemma decode_chain_row_inv v e r s :
  decode_chain_row v (e, r) = Ok s ->
  stored_epoch s = e /\ exists n sv, array NONCE_LEN (anchor_nonce r) = Some n
  /\ password_anchor s = mkWrappedVdk (anchor_ct r) n (mkWrapContext v sv).
Proof.
  unfold decode_chain_row, mbind, result_bind. intros Hr.
  destruct (int u16_try_from (chain_row_schema r)); [|done]. destruct (supported _ _); [|done].
  destruct (int u64_try_from e) as [e'|] eqn:Ee; [|done]. apply int_inv, try_from_Some in Ee as [-> _].
  unfold blob in Hr. destruct (array NONCE_LEN (anchor_nonce r)) as [n|]; [|done]. cbn [ok_or] in Hr.
  destruct (int u8_try_from (anchor_wrap_schema r)) as [sv|]; [|done].
  destruct (ok_or (array NONCE_LEN (device_nonce r)) _); [|done].
  destruct (int u8_try_from (device_wrap_schema r)); [|done]. injection Hr as <-. eauto.
Qed.

(** When the chain is built, every row of another epoch opened under the authority. *)
Lemma build_on_unlock_inv st v a c :
  build_on_unlock st v a = Ok c -> forall e r, chain_rows st !! e = Some r -> read_current_epoch st <> Ok e ->
  exists n sv, array NONCE_LEN (anchor_nonce r) = Some n
  /\ is_ok (unwrap_with (mkWrappedVdk (anchor_ct r) n (mkWrapContext v sv)) a) = true.
Proof.
  unfold build_on_unlock, mbind, result_bind. intros Hb e r He Hne.
  destruct (read_current_epoch st) as [cur|]; [|done].
  destruct (read_chain st v) as [rows|] eqn:Ec; [|done]. destruct (retain _ _ _ _) as [m|] eqn:Er; [|done].
  apply retain_inv in Er. unfold read_chain in Ec. apply collect_Forall2 in Ec.
  assert (Hin : (e, r) ∈ by_key (chain_rows st)) by (apply (proj2 (by_key_elem (chain_rows st) (e, r))); done).
  apply list_elem_of_lookup in Hin as [i Hi]. destruct (Forall2_lookup_l _ _ _ _ _ Ec Hi) as (s & Hs & Hd). cbn in Hd.
  apply decode_chain_row_inv in Hd as (<- & n & sv & Hn & Hw).
  rewrite Forall_forall in Er. destruct (Er s (list_elem_of_lookup_2 _ _ _ Hs)) as [Hcur|Hu]; [by rewrite Hcur in Hne|].
  exists n, sv. by rewrite <- Hw.
Qed.

(** The row holds a key under this authority. *)
Definition row_under (a : Z) (r : ChainRow) : Prop :=
  exists n w vdk, array NONCE_LEN (anchor_nonce r) = Some n /\ ciphertext w = anchor_ct r /\ wrap_nonce w = n
  /\ wraps w vdk (derive_wrap_key a).

Lemma build_on_unlock_locked st v a a' e r :
  chain_rows st !! e = Some r -> read_current_epoch st <> Ok e -> row_under a r -> a' <> a ->
  is_ok (build_on_unlock st v a') = false.
Proof.
  intros He Hne (n & w & vdk & Hn & Hc & Hwn & _ & Henc) Ha. destruct (build_on_unlock st v a') as [c|] eqn:Eb; [|done].
  exfalso. destruct (build_on_unlock_inv _ _ _ _ Eb e r He Hne) as (n' & sv & Hn' & Hu). rewrite Hn in Hn'. injection Hn' as <-.
  unfold unwrap_with, open_with_key in Hu. cbn [ciphertext wrap_nonce ctx] in Hu. rewrite <- Hc in Hu.
  rewrite (open_other _ _ _ _ _ _ _ _ Henc) in Hu; [done|]. intros (Hk & _). apply Ha. by apply hkdf_inj in Hk.
Qed.

Lemma append_row_under e anchor dev e' st st' vdk a :
  append_retained_and_advance_tx e anchor dev e' st = Ok st' -> 0 <= wrap_nonce anchor < 256 ^ Z.of_nat NONCE_LEN ->
  wraps anchor vdk (derive_wrap_key a) ->
  exists r, st' = set_chain (Some e') (<[e := r]> (chain_rows st)) st /\ row_under a r /\ e <= I64_MAX /\ e' <= I64_MAX.
Proof.
  intros Hr Hn Hw. unfold append_retained_and_advance_tx, mbind, result_bind in Hr.
  destruct (int i64_try_from e) as [ei|] eqn:E1; [|done]. destruct (int i64_try_from e') as [ei'|] eqn:E2; [|done].
  apply int_inv, try_from_Some in E1 as [-> ?], E2 as [-> ?]. injection Hr as <-. eexists. split; [done|]. split; [|lia].
  exists (wrap_nonce anchor), anchor, vdk. cbn [anchor_nonce anchor_ct]. by rewrite array_bytes.
Qed.

(** The first rotation of a vault: the unlock finds the earlier key. *)
Lemma build_after_first st e anchor dev e' st' vdk a v :
  chain_rows st = ∅ -> 0 <= e -> 0 <= e' -> e <> e' ->
  append_retained_and_advance_tx e anchor dev e' st = Ok st' ->
  0 <= wrap_nonce anchor < 256 ^ Z.of_nat NONCE_LEN -> 0 <= wrap_nonce dev < 256 ^ Z.of_nat NONCE_LEN ->
  ctx anchor = WrapContext_new v -> ctx dev = WrapContext_new v -> wraps anchor vdk (derive_wrap_key a) ->
  build_on_unlock st' v a = Ok (mkVdkChain {[e := vdk]} e').
Proof.
  intros Hnone He He' Hne Hr Hn Hd Hc Hcd Hw. unfold append_retained_and_advance_tx, mbind, result_bind in Hr.
  destruct (int i64_try_from e) as [ei|] eqn:E1; [|done]. destruct (int i64_try_from e') as [ei'|] eqn:E2; [|done].
  apply int_inv, try_from_Some in E1 as [-> ?], E2 as [-> ?]. injection Hr as <-.
  assert (Hu : forall x, 0 <= x <= I64_MAX -> int u64_try_from x = Ok x).
  { intros x Hx. unfold u64_try_from. rewrite int_ok; [done|]. unfold U64_MAX, I64_MAX in *. lia. }
  unfold build_on_unlock, read_chain, read_current_epoch, set_chain. cbn [chain_state chain_rows]. rewrite Hnone, Hu by lia.
  set (r := mkChainRow _ _ _ _ _ _ _). change (<[e := r]> (∅ : gmap Z ChainRow)) with (foldl (fun m x => <[x.1 := x.2]> m) (∅ : gmap Z ChainRow) [(e, r)]).
  rewrite by_key_sorted by repeat constructor. subst r. csimpl. unfold decode_chain_row.
  cbn [chain_row_schema anchor_nonce anchor_wrap_schema device_nonce device_wrap_schema anchor_ct device_ct].
  rewrite Hc, Hcd, Hu by lia. unfold u16_try_from, u8_try_from. cbn [WrapContext_new wc_schema_version].
  rewrite !int_ok by (unfold SCHEMA_VERSION_V0, VDK_CHAIN_SCHEMA_VERSION, U8_MAX, U16_MAX; lia). unfold mbind, result_bind.
  change (supported VDK_CHAIN_SCHEMA_VERSION VDK_CHAIN_SCHEMA_VERSION) with (@Ok StoreError unit tt). cbv beta iota.
  rewrite !blob_bytes by done. cbv beta iota. cbn [retain stored_epoch password_anchor].
  rewrite (proj2 (Z.eqb_neq _ _) Hne). change (mkWrapContext v SCHEMA_VERSION_V0) with (WrapContext_new v). rewrite <- Hc.
  assert (Hanchor : mkWrappedVdk (ciphertext anchor) (wrap_nonce anchor) (ctx anchor) = anchor) by by destruct anchor.
  rewrite Hanchor, (unwrap_wraps _ _ _ _ Hw), decide_True by done. done.
Qed.

(** *** The device key *)

Context (ed25519_public : Z -> Z) (derive_evm_address : Z -> option Z).

(** The row holds this device key, under this vault key. *)
Definition device_sealed (v vdk key : Z) (r : DeviceKeyRow) : Prop :=
  is_key key /\ exists n ct, 0 <= n < 256 ^ Z.of_nat NONCE_LEN
  /\ encrypt vdk n (to_be_bytes KEY_LEN key) (device_key_aad v (ed25519_public key)) = Some ct
  /\ r = mkDeviceKeyRow ct (to_be_bytes NONCE_LEN n) DEVICE_IDENTITY_SCHEMA_VERSION.

Lemma sealed_device_key_inv v vdk key k r k' :
  is_key key -> sealed_device_key rng ed25519_public v vdk key k = (Ok r, k') -> device_sealed v vdk key r.
Proof.
  intros Hk Hr. unfold sealed_device_key in Hr. apply op_bind_Ok in Hr as (n & k1 & Hn & Hr). apply random_inv in Hn.
  apply op_bind_Ok in Hr as (ct & k2 & Hs & Hr). injection Hr as <- _. unfold lift, seal in Hs. split; [done|].
  exists n, ct. split; [done|]. split; [|done].
  unfold device_id_from_key in Hs. destruct (encrypt _ _ _ _) as [c|]; [|done]. by injection Hs as <-.
Qed.

(** The row of this device is the one an unlock picks, and its address is the one derived from the key. *)
Definition device_registered (st : Store) (key : Z) : Prop :=
  read_registered_device_id st = Some (ed25519_public key)
  /\ exists r a, device_rows st !! ed25519_public key = Some r /\ derive_evm_address key = Some a
     /\ (dev_evm_address r = None \/ dev_evm_address r = Some (to_be_bytes EVM_ADDRESS_LEN a)).

Lemma device_registered_ext st st' key :
  device_rows st' = device_rows st -> device_registered st key -> device_registered st' key.
Proof. intros E. unfold device_registered, read_registered_device_id. by rewrite E. Qed.

Lemma load_backfilled st st' v vdk vdk' key r now k :
  device_key_row st = Some r -> device_sealed v vdk key r -> read_registered_device_id st = Some (ed25519_public key) ->
  backfill_evm_address_if_missing derive_evm_address key (ed25519_public key) st = Ok st' ->
  load_or_register_device rng ed25519_public derive_evm_address v vdk' now st k
  = if decide (vdk' = vdk) then (Ok (st', ed25519_public key, key), k) else (Err AuthenticationFailed, k).
Proof.
  intros Hrow (Hk & n & ct & Hn & Henc & ->) Hid Hb. unfold load_or_register_device. rewrite Hid.
  unfold load_device_key_with_id. rewrite Hrow. cbn [dk_schema_version enc_nonce enc_seed].
  unfold u16_try_from. rewrite int_ok by (unfold DEVICE_IDENTITY_SCHEMA_VERSION, U16_MAX; lia). unfold mbind at 2 3 4 5 6, result_bind.
  change (supported DEVICE_IDENTITY_SCHEMA_VERSION DEVICE_IDENTITY_SCHEMA_VERSION) with (@Ok StoreError unit tt). cbv beta iota.
  rewrite blob_bytes by done. destruct (decide (vdk' = vdk)) as [->|Hne].
  - rewrite (open_encrypt _ _ _ _ _ Henc). cbn [map_err]. rewrite array_bytes by done. cbn [ok_or].
    unfold device_id_from_key. rewrite Z.eqb_refl. cbn [negb]. by rewrite Hb.
  - rewrite (open_other _ _ _ _ _ _ _ _ Henc) by naive_solver. done.
Qed.

Lemma load_device_key st v vdk vdk' key r :
  device_key_row st = Some r -> device_sealed v vdk key r -> device_registered st key ->
  exists devs, forall now k,
  load_or_register_device rng ed25519_public derive_evm_address v vdk' now st k
  = if decide (vdk' = vdk) then (Ok (set_devices devs st, ed25519_public key, key), k) else (Err AuthenticationFailed, k).
Proof.
  intros Hrow Hs (Hid & dr & a & Hd & Ha & Hcase).
  assert (Hb : exists devs, backfill_evm_address_if_missing derive_evm_address key (ed25519_public key) st = Ok (set_devices devs st)).
  { unfold backfill_evm_address_if_missing. rewrite Hd, Ha. cbn. destruct Hcase as [-> | ->]; [eauto|].
    exists (device_rows st). rewrite length_to_be_bytes. cbn. rewrite bool_decide_eq_true_2 by done. by destruct st. }
  destruct Hb as [devs Hb]. exists devs. intros now k. by apply (load_backfilled st _ v vdk vdk' key r).
Qed.

Lemma first_device st id row :
  device_rows st !! id = Some row ->
  (forall id' row', device_rows st !! id' = Some row' -> pair_le (dev_added_at row, id) (dev_added_at row', id')) ->
  read_registered_device_id st = Some id.
Proof.
  intros Hrow Hmin. unfold read_registered_device_id.
  assert (Hin : (id, row) ∈ merge_sort device_le (map_to_list (device_rows st))).
  { rewrite merge_sort_Permutation. by apply elem_of_map_to_list. }
  assert (Hsort : StronglySorted device_le (merge_sort device_le (map_to_list (device_rows st)))).
  { apply StronglySorted_merge_sort; [intros a b c; apply pair_le_trans|intros a b; apply pair_le_total]. }
  assert (Hsub : forall x, x ∈ merge_sort device_le (map_to_list (device_rows st)) -> device_le (id, row) x).
  { intros [id' row'] Hx. rewrite merge_sort_Permutation in Hx. apply elem_of_map_to_list in Hx. by apply Hmin. }
  destruct (merge_sort _ _) as [|[id' row'] l]; [by apply elem_of_nil in Hin|]. cbn. f_equal.
  inversion Hsort as [|? ? _ Hl]; subst.
  assert (Hle : device_le (id', row') (id, row)).
  { apply elem_of_cons in Hin as [Hx|Hin]; [injection Hx as -> ->; unfold device_le, pair_le; cbn; lia|].
    rewrite Forall_forall in Hl. by apply Hl. }
  pose proof (pair_le_antisymm _ _ Hle (Hsub _ ltac:(left))) as E. by injection E.
Qed.

(** Some row is the first. *)
Lemma registered_row st :
  device_rows st <> ∅ -> exists id row, device_rows st !! id = Some row
  /\ forall id' row', device_rows st !! id' = Some row' -> pair_le (dev_added_at row, id) (dev_added_at row', id').
Proof.
  intros Hne. assert (Hsort : StronglySorted device_le (merge_sort device_le (map_to_list (device_rows st)))).
  { apply StronglySorted_merge_sort; [intros a b c; apply pair_le_trans|intros a b; apply pair_le_total]. }
  assert (Hin : forall id row, (id, row) ∈ merge_sort device_le (map_to_list (device_rows st)) <-> device_rows st !! id = Some row).
  { intros id row. rewrite merge_sort_Permutation. apply elem_of_map_to_list. }
  destruct (merge_sort _ _) as [|[id row] l].
  - destruct Hne. apply map_empty. intros i. apply eq_None_not_Some. intros [row Hr]. apply Hin in Hr. by apply elem_of_nil in Hr.
  - exists id, row. split; [apply Hin; left|]. intros id' row' Hr. apply Hin in Hr. apply elem_of_cons in Hr as [[= -> ->]|Hr].
    + unfold pair_le. cbn. lia.
    + inversion Hsort as [|? ? _ Hl]; subst. rewrite Forall_forall in Hl. exact (Hl _ Hr).
Qed.

(** A row of this device that is complete. *)
Definition own_row (key : Z) (row : DeviceRow) : Prop :=
  exists a, derive_evm_address key = Some a /\ dev_evm_address row = Some (to_be_bytes EVM_ADDRESS_LEN a).

(** No row sorts before it. *)
Definition first_row (st : Store) (id : Z) (row : DeviceRow) : Prop :=
  map_Forall (fun id' row' => pair_le (dev_added_at row, id) (dev_added_at row', id')) (device_rows st).

#[export] Instance first_row_dec st id row : Decision (first_row st id row).
Proof. unfold first_row, pair_le. apply _. Defined.

(** The first unlock of a file: a key is drawn and its rows are written. *)
Lemma register_first st v vdk now k st' id key k' :
  device_rows st = ∅ ->
  load_or_register_device rng ed25519_public derive_evm_address v vdk now st k = (Ok (st', id, key), k') ->
  id = ed25519_public key /\ (exists own, device_rows st' = {[id := own]} /\ dev_added_at own = now /\ own_row key own)
  /\ exists row, device_key_row st' = Some row /\ device_sealed v vdk key row.
Proof.
  intros Hnone Hr. unfold load_or_register_device in Hr.
  assert (Hid : read_registered_device_id st = None) by (unfold read_registered_device_id; by rewrite Hnone, map_to_list_empty).
  rewrite Hid in Hr. apply op_bind_Ok in Hr as (x & k1 & Hx & Hr). apply random_inv in Hx.
  apply op_bind_Ok in Hr as ([id1 st1] & k2 & Hreg & Hr). injection Hr as <- <- <- _.
  unfold register_device in Hreg. apply op_bind_Ok in Hreg as (row & k3 & Hrow & Hreg).
  apply op_bind_Ok in Hreg as (addr & k4 & Haddr & Hreg). unfold lift in Haddr.
  destruct (derive_evm_address x) as [ad|] eqn:Ead; [|done]. injection Haddr as <- _.
  apply sealed_device_key_inv in Hrow; [|done]. injection Hreg as <- <- _. split; [done|]. split; [|exists row; by split].
  eexists. cbn [device_rows set_devices]. rewrite Hnone. split; [apply insert_empty|]. split; [done|]. by exists ad.
Qed.

(** A device row that sorts before the own one, as a chain sync writes it when the clock was
    set back or in the millisecond of the registration, ends every later unlock. *)
Lemma discovered_device_locks st v vdk key r id row vdk' now k :
  0 <= ed25519_public key < 256 ^ Z.of_nat DEVICE_ID_LEN -> 0 <= id < 256 ^ Z.of_nat DEVICE_ID_LEN ->
  device_key_row st = Some r -> device_sealed v vdk key r -> device_rows st !! id = Some row -> id <> ed25519_public key ->
  (forall id' row', device_rows st !! id' = Some row' -> pair_le (dev_added_at row, id) (dev_added_at row', id')) ->
  load_or_register_device rng ed25519_public derive_evm_address v vdk' now st k = (Err AuthenticationFailed, k).
Proof.
  intros Hpub Hid Hr (Hk & n & ct & Hn & Henc & ->) Hrow Hne Hmin. unfold load_or_register_device.
  rewrite (first_device st id row) by done. unfold load_device_key_with_id. rewrite Hr.
  cbn [dk_schema_version enc_nonce enc_seed]. unfold u16_try_from.
  rewrite int_ok by (unfold DEVICE_IDENTITY_SCHEMA_VERSION, U16_MAX; lia). unfold mbind at 2 3 4 5 6, result_bind.
  change (supported DEVICE_IDENTITY_SCHEMA_VERSION DEVICE_IDENTITY_SCHEMA_VERSION) with (@Ok StoreError unit tt). cbv beta iota.
  rewrite blob_bytes by done. rewrite (open_other _ _ _ _ _ _ _ _ Henc); [done|]. intros (_ & _ & Haad). apply Hne.
  unfold device_key_aad in Haad. apply app_inj_1 in Haad as [_ Haad]; [|done].
  apply app_inj_1 in Haad as [_ Haad]; [|done]. by apply to_be_bytes_inj in Haad.
Qed.
(** An unlock of a file with a complete row of this device: it loads the key and changes
    nothing when no row sorts before that one, and fails otherwise, as with another key. *)
Lemma reload_device st v vdk vdk' key r own now k :
  device_key_row st = Some r -> device_sealed v vdk key r ->
  device_rows st !! ed25519_public key = Some own -> own_row key own ->
  first_row st (ed25519_public key) own
  \/ (forall i, is_Some (device_rows st !! i) -> 0 <= i < 256 ^ Z.of_nat DEVICE_ID_LEN) ->
  load_or_register_device rng ed25519_public derive_evm_address v vdk' now st k
  = if decide (vdk' = vdk /\ first_row st (ed25519_public key) own) then (Ok (st, ed25519_public key, key), k)
    else (Err AuthenticationFailed, k).
Proof.
  intros Hr Hs Hown (a & Ha & Haddr) Hids. destruct (decide (first_row st (ed25519_public key) own)) as [Hf|Hf].
  - rewrite (load_backfilled st st v vdk vdk' key r); [|done|done|by apply (first_device st _ own)|].
    + destruct (decide (vdk' = vdk)); [by rewrite decide_True|by rewrite decide_False by tauto].
    + unfold backfill_evm_address_if_missing. rewrite Hown, Ha. cbn. rewrite Haddr, length_to_be_bytes. cbn.
      by rewrite bool_decide_eq_true_2.
  - rewrite decide_False by tauto. destruct Hids as [|Hids]; [done|].
    destruct (registered_row st) as (id & row & Hrow & Hmin); [by intros E; rewrite E, lookup_empty in Hown|].
    apply (discovered_device_locks st v vdk key r id row); [by apply Hids|by apply Hids|done|done|done| |done].
    intros ->. rewrite Hown in Hrow. injection Hrow as ->. by apply Hf.
Qed.
End facts.

(** ** Witnesses *)

Module KeyStoreSample.
Import EscrowSample.

Definition empty_store : Store := mkStore None None ∅ None ∅ None ∅ ∅.
Definition sample_wrapped : WrappedVdk := mkWrappedVdk [1; 2; 3] 9 (WrapContext_new 5).
Definition sample_guardians : list GuardianRecord := [mkGuardianRecord 0 11 101 [1; 2]; mkGuardianRecord 1 12 102 [3]].

Lemma sample_escrow_ok : escrow_ok 5 sample_wrapped 2 3 7 sample_guardians.
Proof. split; try bounded; [|repeat constructor].
  repeat apply Forall_cons_2; try apply Forall_nil_2; unfold record_ok; split_and!; vm_compute; (reflexivity || discriminate). Qed.

Lemma escrow_rows_roundtrip_witness :
  exists st k, write_recovery_escrow_tx toy_rng 5 77 sample_wrapped 2 3 7 sample_guardians empty_store 0%nat = (Ok st, k)
    /\ read_recovery_escrow st 5 77 = Ok (Some (mkStoredEscrow sample_wrapped 2 3 7 sample_guardians)).
Proof.
  destruct (write_recovery_escrow_tx toy_rng 5 77 sample_wrapped 2 3 7 sample_guardians empty_store 0%nat) as [r k] eqn:Hr.
  assert (Hok : is_ok r = true) by (change r with (r, k).1; rewrite <- Hr; vm_compute; reflexivity).
  destruct r as [st|]; [|discriminate Hok]. exists st, k. split; [reflexivity|].
  destruct (escrow_rows_roundtrip toy_rng 5 77 sample_wrapped 2 3 7 sample_guardians empty_store 0%nat st k sample_escrow_ok Hr)
    as [H _]. apply H. repeat constructor; discriminate.
Defined.
End KeyStoreSample.
