(* ===== verification/Rekey.v ===== *)
(** * Rekeying a vault: rotation, recovery, pairing and the escrow handlers

    The methods of crates/pangolin-store/src/vault.rs that change or hand out the vault key
    ([create], [open], [unlock]'s steps below the session gate, [recover_with_new_password],
    [commit_recovery_rekey], [commit_vdk_rotation], [onboard_guardians],
    [recovery_escrow_params], [create_recovery_backup], the pairing and the recipient
    methods), and crates/pangolin-core/src/composition.rs that drives them.

    A transaction is a function from the tables to the tables: its result is stored when it
    committed, and a failed one leaves the tables as they were. *)

From Stdlib Require Import String.
From S2P Require Import Prelude Bytes Cbor SeedPhrase RecoveryBackup StoreError SessionPolicy MultiDevice Escrow KeyStore.

(** ** The vault handle *)

(** [self.conn] and [self.meta]: the key tables, the other tables, the cached meta row, and
    how often the random generator was used. *)
Record KeyDb (T : Type) : Type := mkKeyDb {
  store : Store;
  mem_meta : VaultMeta;
  draws : nat;
  devices : DeviceTables;
  tables : T
}.
Arguments mkKeyDb {T} store mem_meta draws devices tables.
Arguments store {T} k.
Arguments mem_meta {T} k.
Arguments draws {T} k.
Arguments devices {T} k.
Arguments tables {T} k.

Definition set_store {T} (x : Store) (d : KeyDb T) : KeyDb T := mkKeyDb x (mem_meta d) (draws d) (devices d) (tables d).
Definition set_meta {T} (x : VaultMeta) (d : KeyDb T) : KeyDb T := mkKeyDb (store d) x (draws d) (devices d) (tables d).
Definition set_draws {T} (x : nat) (d : KeyDb T) : KeyDb T := mkKeyDb (store d) (mem_meta d) x (devices d) (tables d).
Definition set_device_tables {T} (x : DeviceTables) (d : KeyDb T) : KeyDb T := mkKeyDb (store d) (mem_meta d) (draws d) x (tables d).

#[export] Instance KeyDb_accounts {T} `{!AccountTable T} : AccountTable (KeyDb T) := {
  frozen_pending_resolve d := frozen_pending_resolve (tables d);
  head_pointer d := head_pointer (tables d)
}.

(** [RecoveryEscrowParams], [OnboardingOutcome] and the types of composition.rs. *)
Record RecoveryEscrowParams : Type := mkEscrowParams {
  rp_threshold : Z;
  rp_guardian_count : Z;
  rp_guardian_x25519_pubs : list Z;
  rp_guardian_signers : list Z;
  rp_current_epoch : Z
}.
Record RotationOutcome : Type := mkRotationOutcome { ro_new_epoch : Z; unknown_survivors : list Z }.
Record GuardianRoster : Type := mkRoster { ros_threshold : Z; ros_guardian_count : Z; x25519_pubs : list Z; evm_addrs : list Z }.
Inductive CompositionError : Type :=
| Store_error (e : StoreError)
| Rotation (e : RotationError)
| Recovery (e : RecoveryOrchestrationError)
| NoRecoveryEscrow.

(** [derive_seed] of kdf.rs; the authority is the key of this seed. *)
Definition derive_seed (argon2id : list Z -> list Z -> KdfParams -> option Z) (password : list Z) (salt : Z) (params : KdfParams) :
    store_result Z :=
  map_err auth (derive_key argon2id password (to_be_bytes SALT_LEN salt) params).

Section rekey.
Context `{!Primitives}.
Context (rng : nat -> Z).
Context {T Snapshot Index P : Type}.
Context (argon2id : list Z -> list Z -> KdfParams -> option Z).
(** The verifying key, the address and the two X25519 secrets of a device key. *)
Context (ed25519_public : Z -> Z) (derive_evm_address : Z -> option Z).
Context (pairing_secret sealing_secret : Z -> Z).

Notation V := (Vault (KeyDb T) Snapshot Z Index).
Notation W := (World (KeyDb T) Snapshot Z Index P).
Notation vop := (op W StoreError).

Definition map_db (f : KeyDb T -> KeyDb T) : W -> W := map_vault (fun v => set_db (f (db v)) v).
Definition get_db {E A} (f : KeyDb T -> A) : op W E A := gets (fun w => f (db (vault w))).

(** A step that uses the random generator. *)
Definition drawing {E A} (m : op nat E A) : op W E A := fun w =>
  let '(r, k) := m (draws (db (vault w))) in (r, map_db (set_draws k) w).

(** [unchecked_transaction] up to [commit]. *)
Definition transaction {E} (m : Store -> op nat E Store) : op W E unit := fun w =>
  match drawing (m (store (db (vault w)))) w with
  | (Ok st, w') => (Ok tt, map_db (set_store st) w')
  | (Err e, w') => (Err e, w')
  end.

(** ** Creation and opening *)

(** How often the generator was used so far. *)
Definition drawn {E} : op nat E nat := fun k => (Ok k, k).

Definition rewrap_meta (vault_id created_at vdk : Z) (password : list Z) : op nat StoreError VaultMeta :=
  salt ← random rng SALT_LEN;
  authority ← lift (derive_seed argon2id password salt RECOMMENDED);
  w ← map_op auth (wrap rng vdk authority (WrapContext_new vault_id));
  mret (mkVaultMeta vault_id created_at RECOMMENDED salt (WrapContext_new vault_id) (ciphertext w) (wrap_nonce w)).

Definition no_rows : Store := mkStore None None ∅ None ∅ None ∅ ∅.

(** The handle of [create]; the other tables are those of the schema. *)
Definition create (password : list Z) (now_ms : Z) (schema : T) : op nat StoreError V :=
  vault_id ← random rng VAULT_ID_LEN;
  salt ← random rng SALT_LEN;
  authority ← lift (derive_seed argon2id password salt RECOMMENDED);
  vdk ← random rng KEY_LEN;
  w ← map_op auth (wrap rng vdk authority (WrapContext_new vault_id));
  let m := mkVaultMeta vault_id now_ms RECOMMENDED salt (WrapContext_new vault_id) (ciphertext w) (wrap_nonce w) in
  let st := write_revisionlog_version (Some 1) (write_meta m no_rows) in
  device_id ← random rng DEVICE_ID_LEN;
  k ← drawn;
  mret (mkVault Locked None SessionDuration_DEFAULT None device_id (mkKeyDb st m k (mkDeviceTables ∅ ∅) schema)).

(** [Vault::open] on a file with these tables. *)
Definition open_vault (st : Store) (devs : DeviceTables) (rest : T) : op nat StoreError V :=
  m ← lift (read_meta st);
  m ← lift (ok_or m BadMagic);
  device_id ← match read_registered_device_id st with Some id => mret id | None => random rng DEVICE_ID_LEN end;
  k ← drawn;
  mret (mkVault Locked None (from_meta_secs (read_session_idle_secs st)) (read_session_idle_secs st) device_id
          (mkKeyDb st m k devs rest)).

(** ** The steps of [unlock] *)

Definition unlock_seed (d : KeyDb T) (password : list Z) : store_result Z :=
  derive_seed argon2id password (kdf_salt (mem_meta d)) (kdf_params (mem_meta d)).
Definition unlock_unwrap (d : KeyDb T) (authority : Z) : store_result Z :=
  map_err auth (unwrap_with (wrapped_vdk (mem_meta d)) authority).
Definition unlock_chain (d : KeyDb T) (authority : Z) : store_result (VdkChain Z) :=
  build_on_unlock (store d) (vm_vault_id (mem_meta d)) authority.

Definition system_time_to_unix_ms (t : Z) : Z :=
  if t <? 0 then 0 else default 0 (i64_try_from (t / (NANOS_PER_SEC / 1000))).

Definition unlock_device (d : KeyDb T) (key now : Z) : store_result (KeyDb T * Z * Z) :=
  match load_or_register_device rng ed25519_public derive_evm_address (vm_vault_id (mem_meta d)) key
          (system_time_to_unix_ms now) (store d) (draws d) with
  | (Ok (st, id, dev), k) => Ok (set_draws k (set_store st d), id, dev)
  | (Err e, _) => Err e
  end.

(** ** Rekeying *)

(** The end of every rekey: memory follows the disk, the session is gone.  The settings
    columns went with the replaced meta row. *)
Definition relock (m : VaultMeta) : vop unit :=
  modify (map_vault (fun v => set_session_state Locked (set_active None (set_meta_idle None (set_db (set_meta m (db v)) v))))).

Definition build_recovery_meta (recovered_vdk : Z) (new_password : list Z) : vop VaultMeta :=
  m ← get_db mem_meta;
  drawing (rewrap_meta (vm_vault_id m) (vm_created_at m) recovered_vdk new_password).

Definition recover_with_new_password (recovered_vdk : Z) (new_password : list Z) : vop unit :=
  new_meta ← build_recovery_meta recovered_vdk new_password;
  transaction (fun st => mret (write_meta new_meta st)) ≫= fun _ =>
  relock new_meta.

Definition commit_recovery_rekey (recovered_vdk : Z) (new_password : list Z) (w : WrappedVdk)
    (re_split_threshold re_split_guardian_count re_split_epoch : Z) (guardians : list GuardianRecord) : vop unit :=
  new_meta ← build_recovery_meta recovered_vdk new_password;
  m ← get_db mem_meta;
  transaction (fun st =>
    write_recovery_escrow_tx rng (vm_vault_id m) recovered_vdk w re_split_threshold re_split_guardian_count re_split_epoch
      guardians (write_meta new_meta st)) ≫= fun _ =>
  relock new_meta.

Definition commit_vdk_rotation (new_vdk old_vdk local_device : Z) (new_password : list Z) (new_epoch : Z) (w : WrappedVdk)
    (re_split_threshold re_split_guardian_count re_split_epoch : Z) (guardians : list GuardianRecord) : vop unit :=
  st ← get_db store;
  current_epoch ← lift (read_current_epoch st);
  m ← get_db mem_meta;
  let wrap_ctx := WrapContext_new (vm_vault_id m) in
  salt ← drawing (random rng SALT_LEN);
  new_authority ← lift (derive_seed argon2id new_password salt RECOMMENDED);
  new_wrapped ← drawing (map_op auth (wrap rng new_vdk new_authority wrap_ctx));
  let new_meta := mkVaultMeta (vm_vault_id m) (vm_created_at m) RECOMMENDED salt wrap_ctx (ciphertext new_wrapped)
                    (wrap_nonce new_wrapped) in
  retained_anchor ← drawing (map_op auth (wrap rng old_vdk new_authority wrap_ctx));
  retained_device_wrap ← drawing (map_op auth (wrap_vdk_for_device rng old_vdk local_device wrap_ctx));
  transaction (fun st =>
    st ← lift (append_retained_and_advance_tx current_epoch retained_anchor retained_device_wrap new_epoch (write_meta new_meta st));
    st ← write_recovery_escrow_tx rng (vm_vault_id m) new_vdk w re_split_threshold re_split_guardian_count re_split_epoch guardians st;
    reseal_device_key_tx rng ed25519_public (vm_vault_id m) new_vdk local_device st) ≫= fun _ =>
  relock new_meta.

Definition commit_vdk_rotation_from_active (new_vdk : Z) (new_password : list Z) (new_epoch : Z) (w : WrappedVdk)
    (re_split_threshold re_split_guardian_count re_split_epoch : Z) (guardians : list GuardianRecord) : vop unit :=
  a ← require_active;
  modify (map_vault (set_active None)) ≫= fun _ =>
  commit_vdk_rotation new_vdk (vdk a) (device_key a) new_password new_epoch w re_split_threshold re_split_guardian_count
    re_split_epoch guardians.

Definition install_paired_vdk (recovered_vdk vault_id : Z) (new_password : list Z) : vop unit :=
  a ← require_active;
  m ← get_db mem_meta;
  new_meta ← drawing (rewrap_meta vault_id (vm_created_at m) recovered_vdk new_password);
  transaction (fun st =>
    reseal_device_key_tx rng ed25519_public vault_id recovered_vdk (device_key a) (write_meta new_meta st)) ≫= fun _ =>
  modify (map_vault (set_device_id (ed25519_public (device_key a)))) ≫= fun _ =>
  relock new_meta.

(** ** The escrow of the vault *)

(** [guardian_signers[usize::from(a.index)]]; indexing panics out of bounds, which no caller
    reaches: there are as many signers as guardians. *)
Definition records (assignments : list EscrowAssignment) (guardian_signers : list Z) : list GuardianRecord :=
  (fun a => mkGuardianRecord (index a) (assigned_pub a) (nth (Z.to_nat (index a)) guardian_signers 0) (sealed_share a)) <$> assignments.

Definition GENESIS_EPOCH : Z := 0.

Definition onboard_guardians (threshold : Z) (guardian_x25519_pubs guardian_signers : list Z) : vop Z :=
  if negb (length guardian_x25519_pubs =? length guardian_signers)%nat then throw (Corrupted GuardianCounts)
  else
    a ← require_active;
    m ← get_db mem_meta;
    guardian_count ← lift (ok_or (u8_try_from (Z.of_nat (length guardian_x25519_pubs))) (Corrupted IntegerOverflow));
    onboarding ← drawing (map_op auth (onboard_escrow rng (vdk a) (vm_vault_id m) threshold guardian_count guardian_x25519_pubs GENESIS_EPOCH));
    transaction (write_recovery_escrow_tx rng (vm_vault_id m) (vdk a) (on_wrapped_recovery onboarding) threshold guardian_count
      GENESIS_EPOCH (records (on_assignments onboarding) guardian_signers)) ≫= fun _ =>
    mret GENESIS_EPOCH.

Definition recovery_escrow_params : vop (option RecoveryEscrowParams) :=
  a ← require_active;
  d ← get_db id;
  escrow ← lift (read_recovery_escrow (store d) (vm_vault_id (mem_meta d)) (vdk a));
  current_epoch ← lift (read_current_epoch (store d));
  mret ((fun e => mkEscrowParams (se_threshold e) (se_guardian_count e) (g_x25519_pub <$> se_guardians e)
                    (g_signer <$> se_guardians e) current_epoch) <$> escrow).

(** What [create_recovery_backup] seals. *)
Definition backup_contents (vault_id current_epoch created_at_unix : Z) (e : StoredRecoveryEscrow) : BackupContents :=
  let w := se_wrapped_recovery e in
  mkBackupContents ([wc_schema_version (ctx w)] ++ to_be_bytes NONCE_LEN (wrap_nonce w) ++ ciphertext w)
    (to_be_bytes VAULT_ID_LEN vault_id) current_epoch (se_threshold e) (se_guardian_count e)
    (to_be_bytes X25519_KEY_LEN <$> (g_x25519_pub <$> se_guardians e)) (g_sealed_share <$> se_guardians e)
    (to_be_bytes GUARDIAN_SIGNER_LEN <$> (g_signer <$> se_guardians e)) [] created_at_unix.

Definition create_recovery_backup `{!Cbor.Cbor} (sha256 : list Z -> list Z) (aead_seal : Z -> list Z -> list Z -> list Z -> option (list Z)) :
    vop (option (list string * list Z)) :=
  a ← require_active;
  d ← get_db id;
  escrow ← lift (read_recovery_escrow (store d) (vm_vault_id (mem_meta d)) (vdk a));
  match escrow with
  | None => mret None
  | Some e =>
      current_epoch ← lift (read_current_epoch (store d));
      let created_at_unix := default 0 (u64_try_from (vm_created_at (mem_meta d))) in
      let contents := backup_contents (vm_vault_id (mem_meta d)) current_epoch created_at_unix e in
      entropy ← drawing (random rng BIP39_ENTROPY_BYTES);
      seed_phrase ← lift (map_err (fun _ => StoreError.RecoveryBackup) (generate_seed_phrase sha256 (to_be_bytes BIP39_ENTROPY_BYTES entropy)));
      salt ← drawing (random rng SALT_LEN);
      nonce ← drawing (random rng NONCE_LEN);
      bytes ← lift (map_err (fun _ => StoreError.RecoveryBackup)
        (seal_backup sha256 argon2id aead_seal (to_be_bytes SALT_LEN salt) (to_be_bytes NONCE_LEN nonce) contents seed_phrase));
      mret (Some (seed_phrase, bytes))
  end.

Definition guardian_open_sealed_share (sealed : list Z) (vault_id : Z) (epoch : list Z) : vop (list Z) :=
  a ← require_active;
  lift (map_err auth (open_sealed_share sealed (sealing_secret (device_key a)) vault_id epoch)).

(** ** Pairing *)

Definition seal_vdk_for_new_device (recipient_x25519_pairing_pub recipient_device_id vault_id epoch : Z) : vop (list Z) :=
  a ← require_active;
  drawing (map_op auth (seal_vdk_to_device rng (vdk a) recipient_x25519_pairing_pub vault_id recipient_device_id (to_escrow_bytes epoch))).

Definition device_pairing_pubkey : vop Z := a ← require_active; mret (box_public (pairing_secret (device_key a))).
Definition guardian_sealing_pubkey : vop Z := a ← require_active; mret (box_public (sealing_secret (device_key a))).
Definition device_pairing_device_id : vop Z := a ← require_active; mret (ed25519_public (device_key a)).

Definition open_paired_vdk_seal (sealed : list Z) (vault_id epoch : Z) : vop Z :=
  a ← require_active;
  lift (map_err auth (open_vdk_from_pairing sealed (pairing_secret (device_key a)) vault_id (ed25519_public (device_key a))
                        (to_escrow_bytes epoch))).

(** [consume_survivor_seal] of multi_device.rs. *)
Definition consume_survivor_seal (sealed : list Z) (local_device vault_id device_id new_epoch : Z) :
    op nat StoreError (Z * WrappedVdk) :=
  vdk ← lift (map_err auth (open_vdk_from_pairing sealed (pairing_secret local_device) vault_id device_id (to_escrow_bytes new_epoch)));
  w ← map_op auth (wrap_vdk_for_device rng vdk local_device (WrapContext_new vault_id));
  mret (vdk, w).

(** ** The recipient of a recovery *)

Definition persist_recovery_recipient (target_vault_id attempt_nonce x25519_secret x25519_pub now : Z) : vop unit :=
  a ← require_active;
  transaction (write_recipient_tx rng (vdk a) target_vault_id attempt_nonce x25519_secret x25519_pub now).

Definition recovery_recipient_pubkey (target_vault_id : Z) : vop (option StoredRecipientIdentity) :=
  st ← get_db store; lift (read_recipient_identity st target_vault_id).

Definition peek_recovery_recipient_secret (target_vault_id : Z) : vop (option (Z * Z * Z)) :=
  a ← require_active;
  st ← get_db store;
  lift (peek_recipient_secret st (vdk a) target_vault_id).

Definition clear_recovery_recipient (target_vault_id : Z) : vop bool :=
  st ← get_db store;
  transaction (fun st => mret (clear_recipient_tx target_vault_id st)) ≫= fun _ =>
  mret (bool_decide (is_Some (recipient_rows st !! target_vault_id))).

(** ** The composition layer *)

Definition on_store {A} (m : vop A) : op W CompositionError A := map_op Store_error m.

Definition re_split_records (re_split : OnboardingArtifacts) (guardian_signers : list Z) : list GuardianRecord :=
  records (assignments re_split) guardian_signers.

Definition complete_rotation (master_password : list Z) (current_onchain_set : list Z) : op W CompositionError RotationOutcome :=
  m ← get_db mem_meta;
  devs ← get_db devices;
  let '(survivors, unknown) := resolve_survivors current_onchain_set (read_directory devs) in
  params ← on_store recovery_escrow_params;
  params ← lift (ok_or params NoRecoveryEscrow);
  art ← drawing (map_op Rotation (rotate_vdk_for_survivors rng survivors (vm_vault_id m)
                   (mkGuardianSet (rp_threshold params) (rp_guardian_count params)) (rp_guardian_x25519_pubs params) (rp_current_epoch params)));
  let rs := re_split art in
  on_store (commit_vdk_rotation_from_active (new_vdk art) master_password (new_epoch art) (wrapped_recovery rs)
    (threshold (config rs)) (guardian_count (config rs)) (epoch rs) (re_split_records rs (rp_guardian_signers params))) ≫= fun _ =>
  on_store (fun w => let '(r, t) := retire_pending current_onchain_set (devices (db (vault w))) in (r, map_db (set_device_tables t) w)) ≫= fun _ =>
  mret (mkRotationOutcome (new_epoch art) unknown).

Definition recover_from_shares (w : WrappedVdk) (opened_shares : list (list Z)) (roster : GuardianRoster) (new_password : list Z)
    (current_epoch vault_id : Z) : op W CompositionError Z :=
  if negb (Z.of_nat (length (x25519_pubs roster)) =? ros_guardian_count roster)
     || negb (Z.of_nat (length (evm_addrs roster)) =? ros_guardian_count roster)
  then throw (Store_error (Corrupted GuardianCounts))
  else
    art ← drawing (map_op Recovery (recover_vdk_from_shares rng w opened_shares vault_id
                     (mkGuardianSet (ros_threshold roster) (ros_guardian_count roster)) (x25519_pubs roster) current_epoch));
    let rs := recovery_re_split art in
    on_store (commit_recovery_rekey (recovered_vdk art) new_password (wrapped_recovery rs) (threshold (config rs))
      (guardian_count (config rs)) (epoch rs) (re_split_records rs (evm_addrs roster))) ≫= fun _ =>
    mret (epoch rs).
End rekey.

(** ** What a rekey leaves *)

#[local] Opaque to_be_bytes.

Section facts.
Context `{!Primitives, !PrimitiveLaws}.
Context (rng : nat -> Z).
Context {T Snapshot Index P : Type}.
Context (argon2id : list Z -> list Z -> KdfParams -> option Z).
Context (ed25519_public : Z -> Z) (derive_evm_address : Z -> option Z).

Notation W := (World (KeyDb T) Snapshot Z Index P).
Notation vop := (op W StoreError).
Notation is_key x := (0 <= x < 256 ^ Z.of_nat KEY_LEN).
Notation seed_of := (derive_seed argon2id).
Notation key_db w := (db (vault w)).

(** The meta row holds this vault key under the seed of this password. *)
Record locked_with (m : VaultMeta) (vdk a : Z) (password : list Z) : Prop := {
  lw_seed : seed_of password (kdf_salt m) (kdf_params m) = Ok a;
  lw_wraps : wraps (wrapped_vdk m) vdk (derive_wrap_key a);
  lw_context : wrap_context m = WrapContext_new (vm_vault_id m);
  lw_nonce : 0 <= wrapped_nonce m < 256 ^ Z.of_nat NONCE_LEN;
  lw_salt : 0 <= kdf_salt m < 256 ^ Z.of_nat SALT_LEN;
  lw_params : kdf_params m = RECOMMENDED
}.

Lemma locked_meta_ok m vdk a pw : locked_with m vdk a pw -> 0 <= vm_vault_id m < 256 ^ 32 -> meta_ok m.
Proof.
  intros [_ _ Hc Hn Hs Hp] Hv. split; [exact Hv| | | |done|done| |]; rewrite ?Hp, ?Hc; try done;
    vm_compute; split; discriminate.
Qed.

Lemma unwrap_locked m vdk a pw d seed :
  locked_with m vdk a pw -> mem_meta d = m ->
  unlock_unwrap (T := T) d seed = if decide (seed = a) then Ok vdk else Err AuthenticationFailed.
Proof.
  intros Hl <-. unfold unlock_unwrap. rewrite (unwrap_wraps _ _ _ _ (lw_wraps _ _ _ _ Hl)). by destruct (decide _).
Qed.

Lemma wrap_inv vdk a c k w k' :
  is_key vdk -> map_op auth (wrap rng vdk a c) k = (Ok w, k') ->
  wraps w vdk (derive_wrap_key a) /\ ctx w = c /\ 0 <= wrap_nonce w < 256 ^ Z.of_nat NONCE_LEN.
Proof. intros Hk Hr. apply map_op_Ok in Hr. unfold wrap in Hr. by apply seal_under_key_inv in Hr. Qed.

Lemma locked_of_wrap v c salt a pw w vdk :
  seed_of pw salt RECOMMENDED = Ok a -> 0 <= salt < 256 ^ Z.of_nat SALT_LEN ->
  wraps w vdk (derive_wrap_key a) -> ctx w = WrapContext_new v -> 0 <= wrap_nonce w < 256 ^ Z.of_nat NONCE_LEN ->
  locked_with (mkVaultMeta v c RECOMMENDED salt (WrapContext_new v) (ciphertext w) (wrap_nonce w)) vdk a pw.
Proof.
  intros Hs Hsalt Hw Hc Hn. split; try done. unfold wrapped_vdk. cbn. rewrite <- Hc. by destruct w.
Qed.

Lemma rewrap_meta_inv v c vdk pw k m k' :
  is_key vdk -> rewrap_meta rng argon2id v c vdk pw k = (Ok m, k') ->
  (exists a, locked_with m vdk a pw) /\ vm_vault_id m = v /\ vm_created_at m = c.
Proof.
  intros Hk Hr. unfold rewrap_meta in Hr. apply op_bind_Ok in Hr as (salt & k1 & Hsalt & Hr). apply random_inv in Hsalt.
  apply op_bind_Ok in Hr as (a & k2 & Ha & Hr). injection Ha as Ha <-.
  apply op_bind_Ok in Hr as (w & k3 & Hw & Hr). injection Hr as <- _. apply wrap_inv in Hw as (Hw & Hc & Hn); [|done].
  split; [exists a; by apply locked_of_wrap|done].
Qed.

(** *** Running the steps *)

Lemma drawing_inv {E A} (m : op nat E A) (w w' : W) r :
  drawing m w = (r, w') -> exists k, m (draws (key_db w)) = (r, k) /\ w' = map_db (set_draws k) w.
Proof. unfold drawing. destruct (m _) as [r' k]. intros [= -> <-]. eauto. Qed.

Lemma commit_inv {E} (m : Store -> op nat E Store) (w w' : W) r :
  transaction m w = (r, w') ->
  exists k, match r with
            | Ok _ => exists st, m (store (key_db w)) (draws (key_db w)) = (Ok st, k)
                      /\ w' = map_db (fun d => set_draws k (set_store st d)) w
            | Err e => m (store (key_db w)) (draws (key_db w)) = (Err e, k) /\ w' = map_db (set_draws k) w
            end.
Proof.
  unfold transaction. destruct (drawing _ _) as [[st|e] w1] eqn:Ed; apply drawing_inv in Ed as (k & Hm & ->);
    intros [= <- <-]; exists k; eauto.
Qed.

(** Nothing but the generator moved. *)
Definition only_draws (w w' : W) : Prop := exists k, w' = map_db (set_draws k) w.

Lemma only_draws_refl (w : W) : only_draws w w.
Proof. exists (draws (key_db w)). by destruct w as [[? ? ? ? ? []] ? ?]. Qed.
Lemma only_draws_trans (w1 w2 w3 : W) : only_draws w1 w2 -> only_draws w2 w3 -> only_draws w1 w3.
Proof. intros [k ->] [k' ->]. by exists k'. Qed.
Lemma only_draws_draws k (w w' : W) : only_draws w w' -> only_draws w (map_db (set_draws k) w').
Proof. intros [k' ->]. by exists k. Qed.

(** The world a committed rekey leaves: the tables [st], the meta row [m] in memory and on
    disk, no session. *)
Definition rekeyed (w : W) (st : Store) (m : VaultMeta) (w' : W) : Prop :=
  exists k, w' = map_vault (fun v => set_session_state Locked (set_active None (set_meta_idle None
    (set_db (mkKeyDb st m k (devices (db v)) (tables (db v))) v)))) w.

Lemma relock_rekeyed m (w w1 w2 : W) st k :
  only_draws w w1 -> relock m (map_db (fun d => set_draws k (set_store st d)) w1) = (Ok tt, w2) -> rekeyed w st m w2.
Proof. intros [k1 ->] [= <-]. exists k. by destruct w as [[? ? ? ? ? []] ? ?]. Qed.

(** The three rekeys that take the vault key from the caller. *)
Inductive RekeyCall : Type :=
| RecoverPassword (vdk : Z) (password : list Z)
| RecoverEscrow (vdk : Z) (password : list Z) (w : WrappedVdk) (t m e : Z) (guardians : list GuardianRecord)
| Rotate (vdk old_vdk local_device : Z) (password : list Z) (new_epoch : Z) (w : WrappedVdk) (t m e : Z)
    (guardians : list GuardianRecord).

Definition run_rekey (c : RekeyCall) : vop unit :=
  match c with
  | RecoverPassword vdk pw => recover_with_new_password rng argon2id vdk pw
  | RecoverEscrow vdk pw w t m e gs => commit_recovery_rekey rng argon2id vdk pw w t m e gs
  | Rotate vdk old dev pw ne w t m e gs => commit_vdk_rotation rng argon2id ed25519_public vdk old dev pw ne w t m e gs
  end.
Definition call_vdk (c : RekeyCall) : Z :=
  match c with RecoverPassword x _ | RecoverEscrow x _ _ _ _ _ _ | Rotate x _ _ _ _ _ _ _ _ _ => x end.
Definition call_password (c : RekeyCall) : list Z :=
  match c with RecoverPassword _ p | RecoverEscrow _ p _ _ _ _ _ | Rotate _ _ _ p _ _ _ _ _ _ => p end.

(** What a call does to the tables, once the new meta row is known. *)
Definition rekey_tables (c : RekeyCall) (v : Z) (m : VaultMeta) (st st' : Store) : Prop :=
  match c with
  | RecoverPassword _ _ => st' = write_meta m st
  | RecoverEscrow vdk _ w t g e gs =>
      exists k k', write_recovery_escrow_tx rng v vdk w t g e gs (write_meta m st) k = (Ok st', k')
  | Rotate vdk old dev pw ne w t g e gs =>
      exists cur an dw a st1 st2 k k' k2 k2', read_current_epoch st = Ok cur
      /\ seed_of pw (kdf_salt m) (kdf_params m) = Ok a
      /\ (is_key old -> wraps an old (derive_wrap_key a))
      /\ ctx an = WrapContext_new v /\ ctx dw = WrapContext_new v
      /\ 0 <= wrap_nonce an < 256 ^ Z.of_nat NONCE_LEN /\ 0 <= wrap_nonce dw < 256 ^ Z.of_nat NONCE_LEN
      /\ append_retained_and_advance_tx cur an dw ne (write_meta m st) = Ok st1
      /\ write_recovery_escrow_tx rng v vdk w t g e gs st1 k = (Ok st2, k')
      /\ reseal_device_key_tx rng ed25519_public v vdk dev st2 k2 = (Ok st', k2')
  end.

Lemma seal_under_key_ctx vdk wk c k w k' :
  seal_under_key rng vdk wk c k = (Ok w, k') -> ctx w = c /\ 0 <= wrap_nonce w < 256 ^ Z.of_nat NONCE_LEN.
Proof.
  unfold seal_under_key. intros Hr. apply op_bind_Ok in Hr as (n & k1 & Hn & Hr). apply random_inv in Hn.
  apply op_bind_Ok in Hr as (ct & k2 & Hs & Hr). by injection Hr as <- <-.
Qed.

Lemma rekey_inv c (w w' : W) :
  is_key (call_vdk c) -> run_rekey c w = (Ok tt, w') ->
  exists m st a, rekeyed w st m w' /\ locked_with m (call_vdk c) a (call_password c)
  /\ vm_vault_id m = vm_vault_id (mem_meta (key_db w)) /\ vm_created_at m = vm_created_at (mem_meta (key_db w))
  /\ rekey_tables c (vm_vault_id (mem_meta (key_db w))) m (store (key_db w)) st.
Proof.
  intros Hk Hr. destruct c as [vdk pw|vdk pw wr t g e gs|vdk old dev pw ne wr t g e gs]; cbn in Hk, Hr |- *.
  - unfold recover_with_new_password in Hr. apply op_bind_Ok in Hr as (m & w1 & Hm & Hr).
    change (drawing (rewrap_meta rng argon2id (vm_vault_id (mem_meta (key_db w))) (vm_created_at (mem_meta (key_db w))) vdk pw) w = (Ok m, w1)) in Hm.
    apply drawing_inv in Hm as (k1 & Hm & ->). apply rewrap_meta_inv in Hm as ([a Hl] & Hv & Hc); [|done].
    apply op_bind_Ok in Hr as ([] & w2 & Ht & Hr). apply commit_inv in Ht as (k2 & st & Ht & ->).
    injection Ht as <- ->. eexists m, _, a. split; [eapply relock_rekeyed; [by eexists|exact Hr]|]. done.
  - unfold commit_recovery_rekey in Hr. apply op_bind_Ok in Hr as (m & w1 & Hm & Hr).
    change (drawing (rewrap_meta rng argon2id (vm_vault_id (mem_meta (key_db w))) (vm_created_at (mem_meta (key_db w))) vdk pw) w = (Ok m, w1)) in Hm.
    apply drawing_inv in Hm as (k1 & Hm & ->). apply rewrap_meta_inv in Hm as ([a Hl] & Hv & Hc); [|done].
    apply op_bind_Ok in Hr as (m0 & w2 & Hm0 & Hr). injection Hm0 as <- <-.
    apply op_bind_Ok in Hr as ([] & w3 & Ht & Hr). apply commit_inv in Ht as (k2 & st & Ht & ->).
    eexists m, st, a. split; [eapply relock_rekeyed; [by eexists|exact Hr]|]. cbn in Ht. eauto 10.
  - unfold commit_vdk_rotation in Hr. apply op_bind_Ok in Hr as (st0 & w1 & Hst & Hr). injection Hst as <- <-.
    apply op_bind_Ok in Hr as (cur & w1 & Hcur & Hr). injection Hcur as Hcur <-.
    apply op_bind_Ok in Hr as (m0 & w1 & Hm0 & Hr). injection Hm0 as <- <-.
    apply op_bind_Ok in Hr as (salt & w1 & Hs & Hr). apply drawing_inv in Hs as (k1 & Hs & ->). apply random_inv in Hs.
    apply op_bind_Ok in Hr as (a & w2 & Ha & Hr). injection Ha as Ha <-.
    apply op_bind_Ok in Hr as (nw & w2 & Hn & Hr). apply drawing_inv in Hn as (k2 & Hn & ->). apply wrap_inv in Hn as (Hn & Hnc & Hnn); [|done].
    apply op_bind_Ok in Hr as (an & w3 & Han & Hr). apply drawing_inv in Han as (k3 & Han & ->).
    apply op_bind_Ok in Hr as (dw & w4 & Hdw & Hr). apply drawing_inv in Hdw as (k4 & Hdw & ->).
    apply op_bind_Ok in Hr as ([] & w5 & Ht & Hr). apply commit_inv in Ht as (k5 & st & Ht & ->).
    cbn [store draws map_db map_vault vault set_db db set_draws] in Ht.
    apply op_bind_Ok in Ht as (st1 & k6 & Hap & Ht). injection Hap as Hap <-.
    apply op_bind_Ok in Ht as (st2 & k7 & Hesc & Ht).
    exists (mkVaultMeta (vm_vault_id (mem_meta (key_db w))) (vm_created_at (mem_meta (key_db w))) RECOMMENDED salt
      (WrapContext_new (vm_vault_id (mem_meta (key_db w)))) (ciphertext nw) (wrap_nonce nw)), st, a.
    split; [eapply relock_rekeyed; [|exact Hr]; by eexists|]. split; [by apply locked_of_wrap|]. do 2 (split; [done|]).
    assert (Hwa : is_key old -> wraps an old (derive_wrap_key a)) by (intros Ho; by apply wrap_inv in Han as (? & _)).
    apply map_op_Ok in Han, Hdw. unfold wrap in Han. apply seal_under_key_ctx in Han as [Hac Hanon].
    unfold wrap_vdk_for_device in Hdw. apply map_op_Ok, seal_under_key_ctx in Hdw as [Hdc Hdn].
    exists cur, an, dw, a, st1, st2, k4, k7, k7, k5. cbn. done.
Qed.

(** *** Unlocking *)

Context {I : Type} `{!PresenceProof P} `{!IdentityProof I}.
Context (clock wall : nat -> Z).
Context (build_active_state_data : KeyDb T -> Z -> VdkChain Z -> store_result (gmap Z Snapshot * Index * gset Z))
        (derive_evm_wallet : Z -> option Z).

Notation unlock_vault := (unlock clock wall (unlock_seed argon2id) unlock_unwrap unlock_chain build_active_state_data
  (unlock_device rng ed25519_public derive_evm_address) derive_evm_wallet).

Lemma unlock_needs (identity : I) (w w' : W) :
  unlock_vault identity w = (Ok tt, w') ->
  exists pw a key c now, unlock_seed argon2id (key_db w) pw = Ok a /\ unlock_unwrap (key_db w) a = Ok key
  /\ unlock_chain (key_db w) a = Ok c /\ is_ok (unlock_device rng ed25519_public derive_evm_address (key_db w) key now) = true.
Proof.
  unfold unlock. intros Hr. apply op_bind_Ok in Hr as ([] & w1 & Hp & Hr).
  assert (Hdb : key_db w1 = key_db w).
  { unfold verify_presence in Hp. destruct (presence_verify _ _) as [[[]|e] q]; [|done]. by injection Hp as <-. }
  apply op_bind_Ok in Hr as ([] & w2 & Hi & Hr). injection Hi as _ <-.
  apply op_bind_Ok in Hr as (pw & w2 & Hpw & Hr). injection Hpw as _ <-.
  apply op_bind_Ok in Hr as (d & w2 & Hd & Hr). injection Hd as <- <-.
  apply op_bind_Ok in Hr as (a & w2 & Ha & Hr). injection Ha as Ha <-.
  apply op_bind_Ok in Hr as (key & w2 & Hk & Hr). injection Hk as Hk <-.
  apply op_bind_Ok in Hr as (c & w2 & Hc & Hr). injection Hc as Hc <-.
  apply op_bind_Ok in Hr as ([[snaps index] upg] & w2 & _ & Hr).
  apply op_bind_Ok in Hr as (now & w3 & _ & Hr).
  apply op_bind_Ok in Hr as ([[d' id] dev] & w4 & Hdev & Hr). injection Hdev as Hdev _.
  rewrite Hdb in *. exists pw, a, key, c, now. by rewrite Hdev.
Qed.

Lemma unlock_runs (identity : I) (w : W) pw a key c snaps index upg d' id dev x p :
  presence_verify (wall (ticks w)) (presence w) = (Ok tt, p) -> identity_verify identity = Ok tt ->
  derive_secret identity = Ok pw -> unlock_seed argon2id (key_db w) pw = Ok a -> unlock_unwrap (key_db w) a = Ok key ->
  unlock_chain (key_db w) a = Ok c -> build_active_state_data (key_db w) key c = Ok (snaps, index, upg) ->
  unlock_device rng ed25519_public derive_evm_address (key_db w) key (clock (ticks w)) = Ok (d', id, dev) ->
  derive_evm_wallet dev = Some x ->
  exists w' ac, unlock_vault identity w = (Ok tt, w') /\ active (vault w') = Some ac /\ vdk ac = key /\ chain ac = c
  /\ device_key ac = dev /\ key_db w' = d'.
Proof.
  intros Hp Hi Hs Ha Hk Hc Hb Hd Hx. unfold unlock.
  assert (E1 : verify_presence wall from_auth_error w = (Ok tt, set_presence p w)) by (unfold verify_presence; by rewrite Hp).
  rewrite (op_bind_run _ _ _ _ _ E1), Hi. rewrite (op_bind_run (lift (map_err from_auth_error (Ok tt))) _ (set_presence p w) tt (set_presence p w) eq_refl).
  rewrite Hs, (op_bind_run (lift (map_err from_auth_error (Ok pw))) _ (set_presence p w) pw (set_presence p w) eq_refl).
  rewrite (op_bind_run (gets (fun w => db (vault w))) _ (set_presence p w) (key_db w) (set_presence p w) eq_refl).
  rewrite Ha, (op_bind_run (lift (Ok a)) _ (set_presence p w) a (set_presence p w) eq_refl).
  rewrite Hk, (op_bind_run (lift (Ok key)) _ (set_presence p w) key (set_presence p w) eq_refl).
  rewrite Hc, (op_bind_run (lift (Ok c)) _ (set_presence p w) c (set_presence p w) eq_refl).
  rewrite Hb, (op_bind_run (lift (Ok (snaps, index, upg))) _ (set_presence p w) (snaps, index, upg) (set_presence p w) eq_refl).
  rewrite (op_bind_run (clock_now clock) _ (set_presence p w) (clock (ticks w)) (mkWorld (vault w) p (S (ticks w))) eq_refl).
  rewrite Hd. erewrite op_bind_run; [|reflexivity]. cbv beta iota. erewrite op_bind_run; [|reflexivity]. rewrite Hx.
  erewrite op_bind_run; [|reflexivity]. do 2 eexists. split; [reflexivity|]. done.
Qed.

Lemma unlock_none (identity : I) (w : W) :
  (forall w', unlock_vault identity w <> (Ok tt, w')) -> is_ok (unlock_vault identity w).1 = false.
Proof. intros Hno. destruct (unlock_vault identity w) as [[[]|e] w']; [by destruct (Hno w')|done]. Qed.

(** *** The first rotation *)

Lemma reseal_inv v vdk key st k st' k' r :
  is_key key -> device_key_row st = Some r -> reseal_device_key_tx rng ed25519_public v vdk key st k = (Ok st', k') ->
  exists row, device_sealed ed25519_public v vdk key row /\ st' = set_device_key (Some row) st.
Proof.
  intros Hk Hr Hrun. unfold reseal_device_key_tx in Hrun. rewrite Hr in Hrun.
  apply op_bind_Ok in Hrun as (row & k1 & Hs & Hrun). injection Hrun as <- _. exists row. split; [|done].
  by eapply sealed_device_key_inv.
Qed.

(** C1. After the first rotation of a vault the new password opens it.  When
    [commit_vdk_rotation] returns on a vault that was never rotated, whose session holds the
    registered device key, then memory and disk agree, the session is locked, and the next
    [unlock] with the new password ends in a session with the new vault key, in which the
    earlier key is retained under its epoch, with the same device key; and the guardian
    records of the rotation read back under the new key. *)
Theorem rotation_reopens new old dev pw ne wr t g e gs (w w' : W) cur row :
  is_key new -> is_key old -> is_key dev -> 0 <= ne ->
  chain_rows (store (key_db w)) = ∅ -> read_current_epoch (store (key_db w)) = Ok cur -> cur <> ne ->
  device_key_row (store (key_db w)) = Some row -> device_registered ed25519_public derive_evm_address (store (key_db w)) dev ->
  0 <= vm_vault_id (mem_meta (key_db w)) < 256 ^ 32 ->
  escrow_ok (vm_vault_id (mem_meta (key_db w))) wr t g e gs -> Forall (fun x => g_signer x <> 0) gs ->
  commit_vdk_rotation rng argon2id ed25519_public new old dev pw ne wr t g e gs w = (Ok tt, w') ->
  read_meta (store (key_db w')) = Ok (Some (mem_meta (key_db w')))
  /\ session_state (vault w') = Locked /\ active (vault w') = None
  /\ read_recovery_escrow (store (key_db w')) (vm_vault_id (mem_meta (key_db w'))) new = Ok (Some (mkStoredEscrow wr t g e gs))
  /\ forall identity p p' snaps index upg x,
     presence_verify (wall (ticks w')) p = (Ok tt, p') -> identity_verify identity = Ok tt -> derive_secret identity = Ok pw ->
     build_active_state_data (key_db w') new (mkVdkChain {[cur := old]} ne) = Ok (snaps, index, upg) ->
     derive_evm_wallet dev = Some x ->
     exists w2 ac, unlock_vault identity (set_presence p w') = (Ok tt, w2) /\ active (vault w2) = Some ac
     /\ vdk ac = new /\ chain ac = mkVdkChain {[cur := old]} ne /\ device_key ac = dev.
Proof.
  intros Hn Ho Hd Hne Hnone Hcur Hdiff Hrow Hreg Hv Hesc Hsig Hr.
  apply (rekey_inv (Rotate new old dev pw ne wr t g e gs)) in Hr as (m & st & a & [k ->] & Hl & Hvm & Hc & Htab); [|done].
  destruct Htab as (cur' & an & dw & a' & st1 & st2 & k1 & k1' & k2 & k2' & Hcur' & Ha' & Hwa & Hac & Hdc & Han & Hdn & Happ & Hwr & Hres).
  rewrite Hcur in Hcur'. injection Hcur' as <-. specialize (Hwa Ho).
  cbn [call_vdk call_password] in Hl. rewrite (lw_seed _ _ _ _ Hl) in Ha'. injection Ha' as <-.
  assert (Hcur0 : 0 <= cur).
  { unfold read_current_epoch in Hcur. destruct (chain_state _); [|injection Hcur as <-; lia]. apply int_inv, try_from_Some in Hcur. lia. }
  pose proof (build_after_first (write_meta m (store (key_db w))) _ _ _ _ _ _ _ (vm_vault_id (mem_meta (key_db w))) Hnone Hcur0 Hne Hdiff Happ Han Hdn Hac Hdc Hwa) as Hbuild.
  assert (Hst1 : exists x y, st1 = set_chain x y (write_meta m (store (key_db w)))).
  { unfold append_retained_and_advance_tx, mbind, result_bind in Happ. destruct (int _ cur); [|done]. destruct (int _ ne); [|done].
    injection Happ as <-. eauto. }
  destruct Hst1 as (x1 & y1 & ->). apply (write_escrow_inv _ _ _ _ _ _ _ _ _ _ _ _ Hesc) in Hwr as (_ & Hread & x2 & y2 & ->).
  eapply reseal_inv in Hres as (row' & Hsealed & ->); [|done|exact Hrow]. cbn [vault map_vault db set_session_state set_active set_meta_idle set_db store mem_meta session_state active].
  split_and!; try done.
  - assert (Hok : meta_ok m) by (eapply locked_meta_ok; [exact Hl|by rewrite Hvm]). exact (read_write_meta m (store (key_db w)) Hok).
  - rewrite Hvm. change (read_recovery_escrow (set_escrow x2 y2 (set_chain x1 y1 (write_meta m (store (key_db w))))) (vm_vault_id (mem_meta (key_db w))) new
      = Ok (Some (mkStoredEscrow wr t g e gs))). rewrite Hread. rewrite (proj2 (collect_Forall2 _ gs gs)); [done|].
    apply Forall_Forall2_diag. apply (Forall_impl _ _ _ Hsig). intros y Hy. rewrite (proj2 (Z.eqb_neq _ _) Hy). by rewrite decide_True.
  - intros identity p p' snaps index upg x Hp Hi Hs Hb Hx.
    match type of Hb with build_active_state_data ?d _ _ = _ => set (d1 := d) in * end.
    destruct (load_device_key rng ed25519_public derive_evm_address (store d1) (vm_vault_id (mem_meta d1)) new new dev row') as (devs & Hload);
      [done|by rewrite <- Hvm in Hsealed|exact (device_registered_ext _ _ (store (key_db w)) (store d1) dev eq_refl Hreg)|].
    destruct (unlock_runs identity (set_presence p (map_vault (fun v => set_session_state Locked (set_active None (set_meta_idle None (set_db d1 v)))) w))
      pw a new (mkVdkChain {[cur := old]} ne) snaps index upg (set_draws k (set_store (set_devices devs (store d1)) d1)) (ed25519_public dev) dev x p')
      as (w2 & ac & Hrun & Hac2 & Hv2 & Hc2 & Hd2 & _); try done.
    + exact (lw_seed _ _ _ _ Hl).
    + change (unlock_unwrap d1 a = Ok new). by rewrite (unwrap_locked m new a pw d1 a Hl eq_refl), decide_True.
    + change (build_on_unlock (store d1) (vm_vault_id m) a = Ok (mkVdkChain {[cur := old]} ne)). rewrite Hvm. exact Hbuild.
    + unfold unlock_device. change (key_db (set_presence p (map_vault (fun v => set_session_state Locked (set_active None (set_meta_idle None (set_db d1 v)))) w))) with d1.
      rewrite Hload, decide_True by done. done.
    + eauto 10.
Qed.

(** *** The second rekey *)

Lemma write_escrow_frame v key wr t g e gs st k st' k' :
  write_recovery_escrow_tx rng v key wr t g e gs st k = (Ok st', k') -> exists x y, st' = set_escrow x y st.
Proof.
  intros Hr. apply op_bind_Ok in Hr as (ei & k1 & _ & Hr). apply op_bind_Ok in Hr as (rows & k2 & _ & Hr).
  injection Hr as <- _. eauto.
Qed.

Lemma reseal_frame v key dev st k st' k' :
  reseal_device_key_tx rng ed25519_public v key dev st k = (Ok st', k') -> exists x, st' = set_device_key x st.
Proof.
  unfold reseal_device_key_tx. destruct (device_key_row st) eqn:Er.
  - intros Hr. apply op_bind_Ok in Hr as (row & k1 & _ & Hr). injection Hr as <- _. eauto.
  - intros [= <- _]. exists None. by destruct st; cbn in *; subst.
Qed.

Lemma rotate_chain new old dev pw ne wr t g e gs v m st st' :
  rekey_tables (Rotate new old dev pw ne wr t g e gs) v m st st' -> is_key old ->
  exists cur r a, read_current_epoch st = Ok cur /\ chain_state st' = Some ne
  /\ chain_rows st' = <[cur := r]> (chain_rows st) /\ row_under a r /\ seed_of pw (kdf_salt m) (kdf_params m) = Ok a.
Proof.
  intros (cur & an & dw & a & st1 & st2 & k1 & k1' & k2 & k2' & Hcur & Ha & Hwa & _ & _ & Han & _ & Happ & Hwr & Hres) Ho.
  destruct (append_row_under _ _ _ _ _ _ _ _ Happ Han (Hwa Ho)) as (r & -> & Hr & _).
  apply write_escrow_frame in Hwr as (x & y & ->). apply reseal_frame in Hres as (z & ->).
  exists cur, r, a. done.
Qed.

Lemma rekey_keeps_row c v m st st' e r :
  rekey_tables c v m st st' -> chain_rows st !! e = Some r -> read_current_epoch st <> Ok e -> chain_rows st' !! e = Some r.
Proof.
  destruct c as [x pw|x pw wr t g ep gs|new old dev pw ne wr t g ep gs]; cbn.
  - by intros ->.
  - intros (k & k' & Hw). by apply write_escrow_frame in Hw as (? & ? & ->).
  - intros (cur & an & dw & a & st1 & st2 & k1 & k1' & k2 & k2' & Hcur & Ha & _ & _ & _ & Han & _ & Happ & Hwr & Hres) Hr Hne.
    apply write_escrow_frame in Hwr as (? & ? & ->). apply reseal_frame in Hres as (? & ->). cbn.
    unfold append_retained_and_advance_tx, mbind, result_bind in Happ. destruct (int i64_try_from cur) as [c|] eqn:Ec; [|done].
    apply int_inv, try_from_Some in Ec as [-> _]. destruct (int _ ne); [|done]. injection Happ as <-. cbn.
    rewrite lookup_insert_ne; [done|]. by intros ->.
Qed.

(** A retained key under another authority than that of the new password ends every unlock. *)
Lemma retained_row_locks c (w w' : W) e r a identity p :
  is_key (call_vdk c) -> run_rekey c w = (Ok tt, w') ->
  chain_rows (store (key_db w)) !! e = Some r -> row_under a r ->
  read_current_epoch (store (key_db w)) <> Ok e -> read_current_epoch (store (key_db w')) <> Ok e ->
  unlock_seed argon2id (key_db w') (call_password c) <> Ok a ->
  is_ok (unlock_vault identity (set_presence p w')).1 = false.
Proof.
  intros Hk Hr Hrow Hunder Hne Hne' Hseed. apply unlock_none. intros w2 Hun.
  apply unlock_needs in Hun as (pw & a' & key & ch & now & _ & Hu & Hch & _). cbn [set_presence vault] in Hu, Hch.
  apply rekey_inv in Hr as (m & st & an & [k ->] & Hl & Hvm & _ & Htab); [|done].
  match type of Hu with unlock_unwrap ?d _ = _ => set (d1 := d) in * end.
  rewrite (unwrap_locked m _ an _ d1 a' Hl eq_refl) in Hu. destruct (decide (a' = an)) as [->|]; [|done].
  assert (Ha : an <> a). { intros ->. apply Hseed. exact (lw_seed _ _ _ _ Hl). }
  pose proof (build_on_unlock_locked (store d1) (vm_vault_id (mem_meta d1)) a an e r (rekey_keeps_row _ _ _ _ _ _ _ Htab Hrow Hne) Hne' Hunder Ha) as Hno.
  unfold unlock_chain in Hch. by rewrite Hch in Hno.
Qed.

Definition same_chain (st st' : Store) : Prop := chain_state st = chain_state st' /\ chain_rows st = chain_rows st'.

(** C4. A vault that was rotated cannot be rekeyed again: the keys that the first rotation
    retained stay wrapped under the authority of its password, and [unlock] opens all of
    them with the new one.  After [commit_vdk_rotation] returned, whatever was done that left
    the chain alone, and then a second rotation, [commit_recovery_rekey] or
    [recover_with_new_password] returned, no password unlocks the vault, unless the two
    passwords and their salts derive the same authority. *)
Theorem second_rekey_locks new old dev pw ne wr t g e gs c (w0 w1 w w' : W) cur identity p :
  is_key new -> is_key old -> is_key (call_vdk c) ->
  run_rekey (Rotate new old dev pw ne wr t g e gs) w0 = (Ok tt, w1) ->
  read_current_epoch (store (key_db w0)) = Ok cur -> cur <> ne ->
  same_chain (store (key_db w1)) (store (key_db w)) ->
  run_rekey c w = (Ok tt, w') ->
  read_current_epoch (store (key_db w')) <> Ok cur ->
  unlock_seed argon2id (key_db w1) pw <> unlock_seed argon2id (key_db w') (call_password c) ->
  is_ok (unlock_vault identity (set_presence p w')).1 = false.
Proof.
  intros Hn Ho Hk Hfst Hcur Hne [Hcs Hcr] Hc Hne' Hseed.
  apply rekey_inv in Hfst as (m & st & a & [k ->] & Hl & _ & _ & Htab); [|done].
  apply rotate_chain in Htab as (cur' & r & a' & Hcur' & Hst & Hrows & Hunder & Ha'); [|done].
  rewrite Hcur in Hcur'. injection Hcur' as <-.
  apply (retained_row_locks c w w' cur r a'); try done.
  - rewrite <- Hcr. cbn [vault map_vault db set_session_state set_active set_meta_idle set_db store]. by rewrite Hrows, lookup_insert_eq.
  - unfold read_current_epoch. rewrite <- Hcs. cbn [vault map_vault db set_session_state set_active set_meta_idle set_db store].
    rewrite Hst. intros E. apply int_inv, try_from_Some in E as [-> _]. done.
  - intros E. apply Hseed. rewrite E. exact Ha'.
Qed.

(** *** Recovering onto a device that was used before *)

(** A recovery locks out the device it runs on, when its vault was ever unlocked with
    another key.  [commit_recovery_rekey] and [recover_with_new_password] leave the sealed
    device key as it is; when it was sealed under a vault key other than the recovered one,
    no password unlocks the vault after they returned. *)
Theorem recovery_locks_registered_device c (w w' : W) row sealed_under key identity p :
  (forall new old dev pw ne wr t g e gs, c <> Rotate new old dev pw ne wr t g e gs) ->
  is_key (call_vdk c) -> run_rekey c w = (Ok tt, w') ->
  device_key_row (store (key_db w)) = Some row ->
  device_sealed ed25519_public (vm_vault_id (mem_meta (key_db w))) sealed_under key row ->
  device_registered ed25519_public derive_evm_address (store (key_db w)) key ->
  call_vdk c <> sealed_under ->
  is_ok (unlock_vault identity (set_presence p w')).1 = false.
Proof.
  intros Hc Hk Hr Hrow Hsealed Hreg Hne. apply unlock_none. intros w2 Hun.
  apply unlock_needs in Hun as (pw & a' & vk & ch & now & _ & Hu & _ & Hdev). cbn [set_presence vault] in Hu, Hdev.
  apply rekey_inv in Hr as (m & st & an & [k ->] & Hl & Hvm & _ & Htab); [|done].
  match type of Hu with unlock_unwrap ?d _ = _ => set (d1 := d) in * end.
  rewrite (unwrap_locked m _ an _ d1 a' Hl eq_refl) in Hu. destruct (decide (a' = an)) as [_|]; [|done]. injection Hu as <-.
  assert (Hst : device_key_row st = Some row /\ device_rows st = device_rows (store (key_db w))).
  { destruct c as [x q|x q wr t g e gs|]; cbn in Htab; [by subst st| |by edestruct Hc].
    destruct Htab as (k1 & k2 & Hw). by apply write_escrow_frame in Hw as (? & ? & ->). }
  destruct Hst as [Hrow' Hrows].
  destruct (load_device_key rng ed25519_public derive_evm_address (store d1) (vm_vault_id (mem_meta d1)) sealed_under (call_vdk c) key row) as (devs & Hload);
    [done|cbn; by rewrite Hvm|exact (device_registered_ext _ _ (store (key_db w)) (store d1) key Hrows Hreg)|].
  unfold unlock_device in Hdev. rewrite Hload, decide_False in Hdev by done. done.
Qed.

(** *** Failures *)

Lemma only_draws_drawing {E A} (m : op nat E A) (w w' : W) r : drawing m w = (r, w') -> only_draws w w'.
Proof. intros Hr. apply drawing_inv in Hr as (k & _ & ->). by exists k. Qed.

Lemma rekey_err c (w w' : W) e : run_rekey c w = (Err e, w') -> only_draws w w'.
Proof.
  assert (Htx : forall (m : Store -> op nat StoreError Store) nm (w1 w2 : W) (E : StoreError),
    only_draws w w1 -> (transaction m ≫= fun _ => relock nm) w1 = (Err E, w2) -> only_draws w w2).
  { intros m nm w1 w2 E Hd Hr. apply op_bind_Err in Hr as [Hr|([] & w3 & _ & Hr)]; [|done].
    apply commit_inv in Hr as (k & _ & ->). by apply only_draws_draws. }
  assert (Hstep : forall {A B} (m : op nat StoreError A) (f : A -> vop B) (w1 w2 : W) (E : StoreError),
    only_draws w w1 -> (drawing m ≫= f) w1 = (Err E, w2) ->
    only_draws w w2 \/ exists x w3, only_draws w w3 /\ f x w3 = (Err E, w2)).
  { intros A B m f w1 w2 E Hd Hr. apply op_bind_Err in Hr as [Hr|(x & w3 & Hr & Hf)].
    - left. eapply only_draws_trans; [done|by eapply only_draws_drawing].
    - right. exists x, w3. split; [|done]. eapply only_draws_trans; [done|by eapply only_draws_drawing]. }
  destruct c as [x pw|x pw wr t g ep gs|new old dev pw ne wr t g ep gs]; cbn; intros Hr.
  - unfold recover_with_new_password, build_recovery_meta in Hr. apply op_bind_Err in Hr as [Hr|(m & w1 & Hm & Hr)].
    + by apply only_draws_drawing in Hr.
    + apply only_draws_drawing in Hm. by eapply Htx.
  - unfold commit_recovery_rekey, build_recovery_meta in Hr. apply op_bind_Err in Hr as [Hr|(m & w1 & Hm & Hr)].
    + by apply only_draws_drawing in Hr.
    + apply only_draws_drawing in Hm. apply op_bind_Err in Hr as [Hr|(m0 & w2 & Hm0 & Hr)]; [done|]. injection Hm0 as <- <-.
      by eapply Htx.
  - unfold commit_vdk_rotation in Hr. apply op_bind_Err in Hr as [Hr|(st0 & w1 & Hst & Hr)]; [done|]. injection Hst as <- <-.
    apply op_bind_Err in Hr as [Hr|(cur & w1 & Hst & Hr)]; [injection Hr as _ <-; apply only_draws_refl|]. injection Hst as _ <-.
    apply op_bind_Err in Hr as [Hr|(m0 & w1 & Hm0 & Hr)]; [done|]. injection Hm0 as <- <-.
    apply Hstep in Hr as [?|(salt & w1 & Hd1 & Hr)]; [done| |apply only_draws_refl].
    apply op_bind_Err in Hr as [Hr|(a & w2 & Ha & Hr)]; [by injection Hr as _ <-|]. injection Ha as _ <-.
    apply Hstep in Hr as [?|(nw & w2 & Hd2 & Hr)]; [done| |done].
    apply Hstep in Hr as [?|(an & w3 & Hd3 & Hr)]; [done| |done].
    apply Hstep in Hr as [?|(dw & w4 & Hd4 & Hr)]; [done| |done].
    by eapply Htx.
Qed.

Lemma rekey_meta_row c v m st st' : rekey_tables c v m st st' -> meta_row st' = meta_row (write_meta m st).
Proof.
  destruct c as [x pw|x pw wr t g ep gs|new old dev pw ne wr t g ep gs]; cbn.
  - by intros ->.
  - intros (k & k' & Hw). by apply write_escrow_frame in Hw as (? & ? & ->).
  - intros (cur & an & dw & a & st1 & st2 & k1 & k1' & k2 & k2' & _ & _ & _ & _ & _ & _ & _ & Happ & Hwr & Hres).
    apply write_escrow_frame in Hwr as (? & ? & ->). apply reseal_frame in Hres as (? & ->). cbn.
    unfold append_retained_and_advance_tx, mbind, result_bind in Happ. destruct (int i64_try_from cur); [|done].
    destruct (int _ ne); [|done]. by injection Happ as <-.
Qed.

(** C5. A rekey happens entirely or not at all.  When a recovery or a rotation fails, the
    tables, the cached meta row and the session are as before.  When it returns, the meta row
    on disk is the cached one, for the same vault id and creation time, the session is gone
    and locked, every table that holds no key is untouched; but the replaced meta row has
    lost the configured idle time, sync mode and revision log version. *)
Theorem rekey_atomic c (w w' : W) r :
  is_key (call_vdk c) -> 0 <= vm_vault_id (mem_meta (key_db w)) < 256 ^ 32 ->
  run_rekey c w = (r, w') ->
  match r with
  | Err _ => exists k, vault w' = set_db (set_draws k (key_db w)) (vault w) /\ presence w' = presence w /\ ticks w' = ticks w
  | Ok _ =>
      read_meta (store (key_db w')) = Ok (Some (mem_meta (key_db w')))
      /\ vm_vault_id (mem_meta (key_db w')) = vm_vault_id (mem_meta (key_db w))
      /\ vm_created_at (mem_meta (key_db w')) = vm_created_at (mem_meta (key_db w))
      /\ session_state (vault w') = Locked /\ active (vault w') = None
      /\ devices (key_db w') = devices (key_db w) /\ tables (key_db w') = tables (key_db w)
      /\ read_session_idle_secs (store (key_db w')) = None /\ read_sync_mode_preference (store (key_db w')) = None
      /\ read_revisionlog_version (store (key_db w')) = None
  end.
Proof.
  intros Hk Hv Hr. destruct r as [[]|e].
  - apply rekey_inv in Hr as (m & st & a & [k ->] & Hl & Hvm & Hc & Htab); [|done].
    apply rekey_meta_row in Htab. cbn [vault map_vault db set_session_state set_active set_meta_idle set_db store mem_meta session_state
      active devices tables]. unfold read_session_idle_secs, read_sync_mode_preference, read_revisionlog_version, read_meta.
    rewrite Htab. split; [|done]. rewrite <- Hvm in Hv. exact (read_write_meta m st (locked_meta_ok _ _ _ _ Hl Hv)).
  - apply rekey_err in Hr as [k ->]. by exists k.
Qed.

(** A rotation that fails has dropped the active session all the same: the state machine
    still says [Active], and nothing that needs the session works until it expires or the
    vault is locked. *)
Lemma rotation_failure_drops_session vk pw ne wr t g e gs (w w' : W) a err :
  active (vault w) = Some a ->
  commit_vdk_rotation_from_active rng argon2id ed25519_public vk pw ne wr t g e gs w = (Err err, w') ->
  active (vault w') = None /\ session_state (vault w') = session_state (vault w) /\ store (key_db w') = store (key_db w).
Proof.
  intros Ha Hr. unfold commit_vdk_rotation_from_active in Hr.
  assert (E : require_active w = (Ok a, w) :> result StoreError _ * W).
  { unfold require_active, gets. unfold mbind, op_bind. by rewrite Ha. }
  rewrite (op_bind_run _ _ _ _ _ E) in Hr.
  rewrite (op_bind_run (modify (map_vault (set_active None))) _ w tt (map_vault (set_active None) w) eq_refl) in Hr.
  apply (rekey_err (Rotate vk (vdk a) (device_key a) pw ne wr t g e gs)) in Hr as [k ->]. done.
Qed.

(** *** Creation *)

(** What may happen to the file of a device between its unlocks: another unlock, or a sync,
    which changes the devices but not the row of this one, and any of the vault's tables. *)
Inductive device_step (vk id : Z) (d : KeyDb T) : KeyDb T -> Prop :=
| StepUnlock now d' i dev :
    unlock_device rng ed25519_public derive_evm_address d vk now = Ok (d', i, dev) -> device_step vk id d d'
| StepSync d' :
    mem_meta d' = mem_meta d -> device_key_row (store d') = device_key_row (store d) ->
    device_rows (store d') !! id = device_rows (store d) !! id ->
    (forall i, is_Some (device_rows (store d') !! i) -> 0 <= i < 256 ^ Z.of_nat DEVICE_ID_LEN) -> device_step vk id d d'.

(** The file with the row of this device, which is the first or among device ids. *)
Record device_file (v vk dev : Z) (row : DeviceKeyRow) (own : DeviceRow) (d : KeyDb T) : Prop := mkDeviceFile {
  df_vault_id : vm_vault_id (mem_meta d) = v;
  df_key_row : device_key_row (store d) = Some row;
  df_own : device_rows (store d) !! ed25519_public dev = Some own;
  df_ids : first_row (store d) (ed25519_public dev) own
    \/ forall i, is_Some (device_rows (store d) !! i) -> 0 <= i < 256 ^ Z.of_nat DEVICE_ID_LEN
}.

Lemma unlock_device_file v vk dev row own d key now :
  device_sealed ed25519_public v vk dev row -> own_row derive_evm_address dev own -> device_file v vk dev row own d ->
  unlock_device rng ed25519_public derive_evm_address d key now
  = if decide (key = vk /\ first_row (store d) (ed25519_public dev) own) then Ok (d, ed25519_public dev, dev)
    else Err AuthenticationFailed.
Proof.
  intros Hs Ho [Hv Hr Hown Hids]. unfold unlock_device. rewrite Hv, (reload_device _ _ _ _ v vk key dev row own) by done.
  destruct (decide (key = vk /\ _)); [|done]. by destruct d.
Qed.

Lemma device_file_steps v vk dev row own d d' :
  device_sealed ed25519_public v vk dev row -> own_row derive_evm_address dev own -> device_file v vk dev row own d ->
  rtc (device_step vk (ed25519_public dev)) d d' -> device_file v vk dev row own d'.
Proof.
  intros Hs Ho Hd Hsteps. induction Hsteps as [|d d1 d2 Hstep _ IH]; [done|]. apply IH. clear IH.
  destruct Hstep as [now d1 i k Hu|d1 Hm Hk Hown Hids].
  - rewrite (unlock_device_file v vk dev row own) in Hu by done. destruct (decide _); [|done]. by injection Hu as <- _ _.
  - destruct Hd as [Hv Hr Hrow _]. split; [by rewrite Hm|by rewrite Hk|by rewrite Hown|by right].
Qed.

(** C7. A new vault opens with its password.  What [create] leaves is what [open] reads; the
    seed of the password and no other unwraps the vault key; no earlier key is retained; the
    first unlock draws a device key and leaves its row as the only device.  From then on,
    whatever unlocks and syncs come in between, an unlock with the vault key loads that
    device key again and changes nothing, as long as no device row with an earlier
    registration time (or the same and a smaller id) has come into the file; with such a
    row, as with any other key, it fails to authenticate. *)
Theorem create_opens pw now_ms (schema : T) k v k' :
  create (Snapshot := Snapshot) (Index := Index) rng argon2id pw now_ms schema k = (Ok v, k') ->
  session_state v = Locked /\ active v = None
  /\ (forall devs (rest : T) j, exists (v' : Vault (KeyDb T) Snapshot Z Index) j', open_vault (Snapshot := Snapshot) (Index := Index) rng (store (db v)) devs rest j = (Ok v', j')
      /\ mem_meta (db v') = mem_meta (db v) /\ store (db v') = store (db v) /\ session_state v' = Locked /\ active v' = None)
  /\ exists vk a, is_key vk /\ unlock_seed argon2id (db v) pw = Ok a
     /\ (forall seed, unlock_unwrap (db v) seed = if decide (seed = a) then Ok vk else Err AuthenticationFailed)
     /\ (forall seed, unlock_chain (db v) seed = Ok (mkVdkChain ∅ 0))
     /\ forall now d id dev, unlock_device rng ed25519_public derive_evm_address (db v) vk now = Ok (d, id, dev) ->
        id = ed25519_public dev /\ exists own, device_rows (store d) = {[id := own]} /\ dev_added_at own = system_time_to_unix_ms now
        /\ forall d', rtc (device_step vk id) d d' -> forall key now',
           unlock_device rng ed25519_public derive_evm_address d' key now'
           = if decide (key = vk /\ first_row (store d') id own) then Ok (d', id, dev) else Err AuthenticationFailed.
Proof.
  intros Hr. unfold create in Hr. apply op_bind_Ok in Hr as (vid & k1 & Hvid & Hr). apply random_inv in Hvid.
  apply op_bind_Ok in Hr as (salt & k2 & Hs & Hr). apply random_inv in Hs.
  apply op_bind_Ok in Hr as (a & k3 & Ha & Hr). injection Ha as Ha <-.
  apply op_bind_Ok in Hr as (vk & k4 & Hvk & Hr). apply random_inv in Hvk.
  apply op_bind_Ok in Hr as (w & k5 & Hw & Hr). apply wrap_inv in Hw as (Hw & Hc & Hn); [|done].
  apply op_bind_Ok in Hr as (did & k6 & _ & Hr). apply op_bind_Ok in Hr as (kk & k7 & Hkk & Hr). injection Hkk as <- <-.
  injection Hr as <- _. set (m := mkVaultMeta vid now_ms RECOMMENDED salt (WrapContext_new vid) (ciphertext w) (wrap_nonce w)).
  assert (Hl : locked_with m vk a pw) by by apply locked_of_wrap.
  cbn [session_state active db store mem_meta]. do 2 (split; [done|]). split.
  - intros devs rest j. unfold open_vault.
    assert (Hm : read_meta (write_revisionlog_version (Some 1) (write_meta m no_rows)) = Ok (Some m)).
    { assert (Hok : meta_ok m) by (eapply locked_meta_ok; [exact Hl|done]). exact (read_write_meta m no_rows Hok). }
    rewrite Hm. rewrite (op_bind_run (lift (Ok (Some m))) _ j (Some m) j eq_refl).
    rewrite (op_bind_run (lift (ok_or (Some m) BadMagic)) _ j m j eq_refl). cbn. eauto 10.
  - exists vk, a. split; [done|]. split; [done|]. split.
    + intros seed. by apply (unwrap_locked m vk a pw _ seed Hl).
    + split; [by intros seed|]. intros now d id dev Hdev.
      unfold unlock_device in Hdev. cbn [store mem_meta draws] in Hdev.
      destruct (load_or_register_device _ _ _ _ _ _ _ _) as [[[[st0 id0] dev0]|e] kd] eqn:Erun; [|done]. injection Hdev as <- <- <-.
      apply register_first in Erun as (-> & (own & Hdevs & Hat & Ho) & row & Hrow & Hsealed); [|done].
      split; [done|]. exists own. split; [done|]. split; [done|]. intros d' Hsteps key now'.
      apply (unlock_device_file vid vk dev0 row own); [done|done|]. eapply device_file_steps; [done|done| |exact Hsteps].
      split; cbn [store mem_meta set_store set_draws]; [done|done|by rewrite Hdevs, lookup_singleton_eq|left].
      unfold first_row. rewrite Hdevs. apply map_Forall_singleton. unfold pair_le. cbn. lia.
Qed.

(** *** Recovery *)

Lemma boxed_index i v e shares pubs l : boxed i v e shares pubs l -> index <$> l = (fun j => i + Z.of_nat j) <$> seq 0 (length l).
Proof.
  intros [_ Hb]. apply list_eq. intros j. rewrite !list_lookup_fmap. destruct (l !! j) as [a|] eqn:Ea.
  - rewrite lookup_seq_lt by (eapply lookup_lt_Some, Ea). cbn. f_equal. by destruct (Hb j a Ea).
  - rewrite lookup_seq_ge; [done|]. by apply lookup_ge_None.
Qed.

Lemma sorted_seq i j n : StronglySorted Z.lt ((fun k => i + Z.of_nat k) <$> seq j n).
Proof.
  revert j. induction n as [|n IH]; intros j; cbn; constructor; [apply IH|]. apply Forall_forall. intros x Hx.
  change (x ∈ (fun k => i + Z.of_nat k) <$> seq (S j) n) in Hx.
  apply list_elem_of_fmap in Hx as (k & -> & Hk). apply elem_of_seq in Hk. lia.
Qed.

(** The records of an escrow are well formed. *)
Lemma escrow_records art vk v cfg pubs e signers :
  validate cfg = Ok tt -> Z.of_nat (length pubs) = guardian_count cfg -> escrow_of art vk v cfg pubs e ->
  Forall (fun x => 0 <= x < 256 ^ Z.of_nat X25519_KEY_LEN) pubs ->
  Forall (fun x => 0 < x < 256 ^ Z.of_nat GUARDIAN_SIGNER_LEN) signers -> length signers = length pubs -> 0 <= e <= U64_MAX ->
  escrow_ok v (wrapped_recovery art) (threshold cfg) (guardian_count cfg) e (records (assignments art) signers)
  /\ Forall (fun x => g_signer x <> 0) (records (assignments art) signers).
Proof.
  intros Hva Hlen (Hcfg & Hep & Hctx & Hnonce & rwk & shares & r & _ & _ & _ & Hb) Hp Hs Hls He.
  assert (Hbounds : 3 <= guardian_count cfg <= 15 /\ 2 <= threshold cfg <= 9).
  { unfold validate, MIN_GUARDIANS, MAX_GUARDIANS, MIN_THRESHOLD, MAX_THRESHOLD in Hva.
    destruct (_ || _) eqn:E1 in Hva; [done|]. destruct (_ || _) eqn:E2 in Hva; [done|]. zbool. lia. }
  pose proof (boxed_index _ _ _ _ _ _ Hb) as Hidx. destruct Hb as [Hl Hb].
  assert (Hrec : Forall (fun g => record_ok g /\ g_signer g <> 0) (records (assignments art) signers)).
  { apply Forall_fmap, Forall_lookup. intros j a Ha. destruct (Hb j a Ha) as (Hj & _ & _ & _ & Hpub & _). cbn.
    assert (Hjl : (j < length pubs)%nat) by (rewrite <- Hl; eapply lookup_lt_Some, Ha).
    destruct (lookup_lt_is_Some_2 signers j) as [sg Hsg]; [lia|]. rewrite Forall_lookup in Hp, Hs.
    assert (Hnth : nth (Z.to_nat (index a)) signers 0 = sg).
    { replace (Z.to_nat (index a)) with j by lia. by apply nth_lookup_Some. }
    unfold record_ok. cbn. rewrite Hnth. specialize (Hp j _ Hpub). specialize (Hs j _ Hsg). unfold U8_MAX.
    split; [|lia]. split; [lia|]. split; [done|lia]. }
  apply Forall_and in Hrec as [Hrec Hnz]. split; [|done]. split; try done.
  - by rewrite Hctx.
  - rewrite Hctx. by vm_compute.
  - unfold U8_MAX. lia.
  - unfold U8_MAX. lia.
  - assert (E : g_index <$> records (assignments art) signers = index <$> assignments art).
    { unfold records. clear. induction (assignments art) as [|x l IH]; [done|]. csimpl. by rewrite IH. }
    rewrite E, Hidx. apply sorted_seq.
Qed.

(** C3. A recovery gives the vault back.  When [recover_from_shares] returns, given the
    recovery wrapper of the escrow of [vk] and shares that its guardians released, on the
    file of that vault, then the new password unwraps exactly [vk]; and the escrow stored
    with it is one of [vk] for the guardians of the roster at the next epoch, and reads back
    under [vk] with their signers. *)
Theorem recovery_restores art vk pubs e positions opened roster pw ne (w w' : W) :
  is_key vk -> 0 <= vm_vault_id (mem_meta (key_db w)) < 256 ^ 32 -> 0 <= e <= U64_MAX ->
  let v := vm_vault_id (mem_meta (key_db w)) in
  let cfg := mkGuardianSet (ros_threshold roster) (ros_guardian_count roster) in
  escrow_of art vk v cfg pubs e -> released art v e positions opened ->
  Forall (fun x => 0 <= x < 256 ^ Z.of_nat X25519_KEY_LEN) (x25519_pubs roster) ->
  Forall (fun x => 0 < x < 256 ^ Z.of_nat GUARDIAN_SIGNER_LEN) (evm_addrs roster) ->
  recover_from_shares rng argon2id (wrapped_recovery art) opened roster pw e v w = (Ok ne, w') ->
  ne = next e
  /\ (exists a, unlock_seed argon2id (key_db w') pw = Ok a
      /\ forall seed, unlock_unwrap (key_db w') seed = if decide (seed = a) then Ok vk else Err AuthenticationFailed)
  /\ exists again, escrow_of again vk v cfg (x25519_pubs roster) (next e)
     /\ read_recovery_escrow (store (key_db w')) v vk
        = Ok (Some (mkStoredEscrow (wrapped_recovery again) (ros_threshold roster) (ros_guardian_count roster) (next e)
                     (records (assignments again) (evm_addrs roster)))).
Proof.
  intros Hk Hv He v cfg Hart Hrel Hpubs Haddrs Hr. unfold recover_from_shares in Hr.
  destruct (negb _ || negb _) eqn:El in Hr; [done|]. zbool.
  apply op_bind_Ok in Hr as (ra & w1 & Hd & Hr). apply drawing_inv in Hd as (k1 & Hd & ->). apply map_op_Ok in Hd.
  assert (Hlen : threshold cfg <= Z.of_nat (length opened)).
  { unfold recover_vdk_from_shares in Hd. destruct (Z.of_nat (length opened) <? _) eqn:Et in Hd; [done|]. zbool. done. }
  rewrite (recover_run rng art vk v cfg pubs e positions opened) in Hd by done.
  destruct (onboard_guardian_escrow _ _ _ _ _ _ _) as [[again|err] k2] eqn:Hon in Hd; [|done]. injection Hd as <- <-.
  apply onboard_inv in Hon as (Hva & Hpl & Hesc); [|done].
  apply op_bind_Ok in Hr as ([] & w2 & Hc & Hr). injection Hr as <- <-. apply map_op_Ok in Hc.
  pose proof Hesc as (Hcfg & Hep & _). cbn [recovered_vdk recovery_re_split] in Hc |- *. rewrite Hcfg, Hep in Hc.
  assert (Hn : 0 <= next e <= U64_MAX) by (unfold next, saturating_add, U64_MAX in *; lia).
  destruct (escrow_records again vk v cfg (x25519_pubs roster) (next e) (evm_addrs roster)) as [Hok Hnz]; try done; [lia|].
  apply (rekey_inv (RecoverEscrow vk pw (wrapped_recovery again) (threshold cfg) (guardian_count cfg) (next e)
    (re_split_records again (evm_addrs roster)))) in Hc as (m & st & a & [k ->] & Hl & Hvm & _ & Htab); [|done].
  cbn [call_vdk call_password] in Hl. split; [done|]. split.
  - exists a. split; [exact (lw_seed _ _ _ _ Hl)|]. intros seed. by apply (unwrap_locked m vk a pw _ seed Hl).
  - exists again. split; [done|]. destruct Htab as (j & j' & Hw).
    apply (write_escrow_inv _ _ _ _ _ _ _ _ _ _ _ _ Hok) in Hw as (_ & Hread & _).
    change (read_recovery_escrow st v vk = Ok (Some (mkStoredEscrow (wrapped_recovery again) (threshold cfg) (guardian_count cfg) (next e)
      (records (assignments again) (evm_addrs roster))))). rewrite Hread.
    rewrite (proj2 (collect_Forall2 _ _ (records (assignments again) (evm_addrs roster)))); [done|].
    apply Forall_Forall2_diag. apply (Forall_impl _ _ _ Hnz). intros y Hy. rewrite (proj2 (Z.eqb_neq _ _) Hy). by rewrite decide_True.
Qed.

(** *** What the next recovery finds *)

(** Recovered onto another file, the escrow is read back for the id of that file, and no
    recovery key opens its wrapper any more. *)
Lemma escrow_in_other_file art vk v cfg pubs e file t m gs rwk :
  0 <= v < 256 ^ 32 -> 0 <= file < 256 ^ 32 -> file <> v -> escrow_of art vk v cfg pubs e ->
  let w := wrapped_recovery art in
  let stored := mkStoredEscrow (mkWrappedVdk (ciphertext w) (wrap_nonce w) (mkWrapContext file (wc_schema_version (ctx w)))) t m e gs in
  unwrap_vdk_under_rwk (se_wrapped_recovery stored) rwk = Err WrapFailed.
Proof.
  intros Hv Hf Hne (_ & _ & Hctx & _ & rwk0 & shares & r & _ & [_ Hw] & _ & _) w. subst w. cbn.
  unfold unwrap_vdk_under_rwk, open_with_key. cbn [wrap_nonce ciphertext ctx]. rewrite (open_other _ _ _ _ _ _ _ _ Hw); [done|].
  intros (_ & _ & Ha). rewrite Hctx in Ha. apply encode_inj in Ha; [|done..]. by injection Ha.
Qed.

(** A recovery moves the epoch of the escrow and leaves that of the key chain, which is the
    one a backup names. *)
Lemma recovery_keeps_chain_epoch vk pw wr t g e gs (w w' : W) :
  is_key vk -> run_rekey (RecoverEscrow vk pw wr t g e gs) w = (Ok tt, w') ->
  read_current_epoch (store (key_db w')) = read_current_epoch (store (key_db w)).
Proof.
  intros Hk Hr. apply rekey_inv in Hr as (m & st & a & [k ->] & _ & _ & _ & j & j' & Hw); [|done].
  apply write_escrow_frame in Hw as (? & ? & ->). done.
Qed.
End facts.

(** ** Witnesses *)

Module RekeySample.
Import EscrowSample KeyStoreSample.

Notation W := (World (KeyDb unit) unit Z unit PressYPresenceProof).

Definition toy_argon2id (password salt : list Z) (_ : KdfParams) : option Z := Some (be_value (password ++ salt)).
Definition toy_public (key : Z) : Z := key + 1.
Definition toy_address (key : Z) : option Z := Some (key mod 256).
Definition no_accounts (_ : KeyDb unit) (_ : Z) (_ : VdkChain Z) : store_result (gmap Z unit * unit * gset Z) := Ok (∅, tt, ∅).
Definition zero (_ : nat) : Z := 0.

Definition toy_unlock (password : list Z) : op W StoreError unit :=
  unlock zero zero (unlock_seed toy_argon2id) unlock_unwrap unlock_chain no_accounts
    (unlock_device toy_rng toy_public toy_address) (fun k => Some k) (mkPin password).
Definition fresh (w : W) : W := set_presence (PressY_confirmed 0) w.

(** A vault that was created and unlocked. *)
Definition created : result StoreError (Vault (KeyDb unit) unit Z unit) * nat := create toy_rng toy_argon2id [7] 0 tt 0%nat.
Definition blank : W :=
  mkWorld (mkVault Locked None Min15 None 0 (mkKeyDb empty_store (mkVaultMeta 0 0 RECOMMENDED 0 (WrapContext_new 0) [] 0) 0%nat (mkDeviceTables ∅ ∅) tt))
    (PressY_confirmed 0) 0%nat.
Definition unlocked : W :=
  match created with
  | (Ok v, _) => (toy_unlock [7] (mkWorld v (PressY_confirmed 0) 0%nat)).2
  | _ => blank
  end.
Definition old_key : Z := match active (vault unlocked) with Some a => vdk a | None => 0 end.
Definition own_device : Z := match active (vault unlocked) with Some a => device_key a | None => 0 end.
Definition vault_id : Z := vm_vault_id (mem_meta (db (vault unlocked))).
Definition sealed_row : DeviceKeyRow := default (mkDeviceKeyRow [] [] 0) (device_key_row (store (db (vault unlocked)))).
Definition wrapper : WrappedVdk := mkWrappedVdk [1; 2; 3] 9 (WrapContext_new vault_id).

Definition rotate (new : Z) (password : list Z) (new_epoch : Z) : op W StoreError unit :=
  commit_vdk_rotation toy_rng toy_argon2id toy_public new old_key own_device password new_epoch wrapper 2 3 new_epoch sample_guardians.

Lemma unlocked_escrow_ok e : 0 <= e <= U64_MAX -> escrow_ok vault_id wrapper 2 3 e sample_guardians.
Proof.
  intros He. split; try done; try bounded; [|repeat constructor].
  repeat apply Forall_cons_2; try apply Forall_nil_2; unfold record_ok; split_and!; vm_compute; (reflexivity || discriminate).
Qed.

Lemma unlocked_registered : device_registered toy_public toy_address (store (db (vault unlocked))) own_device.
Proof.
  split; [by vm_compute|]. exists (default (mkDeviceRow [] 0 None None) (device_rows (store (db (vault unlocked))) !! toy_public own_device)),
    (default 0 (toy_address own_device)). split_and!; [by vm_compute|by vm_compute|right; by vm_compute].
Qed.

Lemma unlocked_sealed : device_sealed toy_public vault_id old_key own_device sealed_row.
Proof.
  split; [bounded|]. eexists (be_value (enc_nonce sealed_row)), (enc_seed sealed_row). split; [bounded|]. split; by vm_compute.
Qed.

Lemma rotation_reopens_witness :
  exists w' w2 ac, rotate 500 [8] 1 unlocked = (Ok tt, w') /\ toy_unlock [8] (fresh w') = (Ok tt, w2)
    /\ active (vault w2) = Some ac /\ vdk ac = 500 /\ retained (chain ac) = {[0 := old_key]}.
Proof.
  destruct (rotate 500 [8] 1 unlocked) as [r w'] eqn:Hr.
  assert (Hok : is_ok r = true) by (change r with (r, w').1; rewrite <- Hr; vm_compute; reflexivity).
  destruct r as [[]|]; [|discriminate Hok].
  destruct (rotation_reopens toy_rng toy_argon2id toy_public toy_address zero zero no_accounts (fun k => Some k)
    500 old_key own_device [8] 1 wrapper 2 3 1 sample_guardians unlocked w' 0 sealed_row) as (_ & _ & _ & _ & Hun);
    [bounded|bounded|bounded|discriminate|by vm_compute|by vm_compute|discriminate|by vm_compute|exact unlocked_registered
    |bounded|apply unlocked_escrow_ok; bounded|repeat constructor; discriminate|exact Hr|].
  destruct (Hun (mkPin [8]) (PressY_confirmed 0) (mkPressY 0 true) ∅ tt ∅ own_device) as (w2 & ac & H1 & H2 & H3 & H4 & _); try reflexivity.
  exists w', w2, ac. split; [reflexivity|]. split; [exact H1|]. split; [exact H2|]. split; [exact H3|]. rewrite H4. reflexivity.
Defined.

Lemma second_rekey_locks_witness :
  exists w1 w', rotate 500 [8] 1 unlocked = (Ok tt, w1) /\ rotate 600 [9] 2 w1 = (Ok tt, w')
    /\ forall password, is_ok (toy_unlock password (fresh w')).1 = false.
Proof.
  destruct (rotate 500 [8] 1 unlocked) as [r1 w1] eqn:Hr1.
  assert (Hok : is_ok r1 = true) by (change r1 with (r1, w1).1; rewrite <- Hr1; vm_compute; reflexivity).
  destruct r1 as [[]|]; [|discriminate Hok]. pose proof (f_equal snd Hr1) as Hw1. cbn [snd] in Hw1.
  destruct (rotate 600 [9] 2 w1) as [r w'] eqn:Hr.
  assert (Hok2 : is_ok r = true) by (change r with (r, w').1; rewrite <- Hr, <- Hw1; vm_compute; reflexivity).
  destruct r as [[]|]; [|discriminate Hok2]. pose proof (f_equal snd Hr) as Hw'. cbn [snd] in Hw'.
  exists w1, w'. split; [reflexivity|]. split; [exact Hr|]. intros password.
  apply (second_rekey_locks toy_rng toy_argon2id toy_public toy_address zero zero no_accounts (fun k => Some k)
    500 old_key own_device [8] 1 wrapper 2 3 1 sample_guardians
    (Rotate 600 old_key own_device [9] 2 wrapper 2 3 2 sample_guardians) unlocked w1 w1 w' 0);
    [bounded|bounded|bounded|exact Hr1|by vm_compute|discriminate|split; reflexivity|exact Hr| |];
    rewrite <- Hw', <- Hw1; vm_compute; discriminate.
Defined.

Lemma recovery_locks_registered_device_witness :
  exists w', recover_with_new_password toy_rng toy_argon2id 500 [8] unlocked = (Ok tt, w')
    /\ forall password, is_ok (toy_unlock password (fresh w')).1 = false.
Proof.
  destruct (recover_with_new_password toy_rng toy_argon2id 500 [8] unlocked) as [r w'] eqn:Hr.
  assert (Hok : is_ok r = true) by (change r with (r, w').1; rewrite <- Hr; vm_compute; reflexivity).
  destruct r as [[]|]; [|discriminate Hok]. exists w'. split; [reflexivity|]. intros password.
  apply (recovery_locks_registered_device toy_rng toy_argon2id toy_public toy_address zero zero no_accounts (fun k => Some k)
    (RecoverPassword 500 [8]) unlocked w' sealed_row old_key own_device);
    [discriminate|bounded|exact Hr|by vm_compute|exact unlocked_sealed|exact unlocked_registered|vm_compute; discriminate].
Defined.

Lemma rekey_atomic_witness :
  exists w', rotate 500 [8] 1 unlocked = (Ok tt, w') /\ session_state (vault w') = Locked
    /\ read_meta (store (db (vault w'))) = Ok (Some (mem_meta (db (vault w')))).
Proof.
  destruct (rotate 500 [8] 1 unlocked) as [r w'] eqn:Hr.
  assert (Hok : is_ok r = true) by (change r with (r, w').1; rewrite <- Hr; vm_compute; reflexivity).
  destruct r as [[]|]; [|discriminate Hok].
  destruct (rekey_atomic toy_rng toy_argon2id toy_public (Rotate 500 old_key own_device [8] 1 wrapper 2 3 1 sample_guardians) unlocked w' (Ok tt))
    as (H1 & _ & _ & H2 & _); [bounded|bounded|exact Hr|].
  exists w'. split; [reflexivity|]. split; [exact H2|exact H1].
Defined.

(** The file after the first unlock, and with a row of another device of a given time. *)
Definition first_file (now : Z) : KeyDb unit * Z * Z :=
  match created with
  | (Ok v, _) => match unlock_device toy_rng toy_public toy_address (db v) old_key now with Ok x => x | Err _ => (db (vault blank), 0, 0) end
  | _ => (db (vault blank), 0, 0)
  end.

Definition with_device (added_at : Z) (d : KeyDb unit) : KeyDb unit :=
  set_store (set_devices (<[3 := mkDeviceRow [] added_at None None]> (device_rows (store d))) (store d)) d.

(** A second unlock, and one after a sync that found a device: registered later, it does
    not matter; registered earlier, it locks this device out. *)
Lemma create_opens_witness :
  exists v k d id dev, created = (Ok v, k) /\ unlock_device toy_rng toy_public toy_address (db v) old_key (5 * 10 ^ 9) = Ok (d, id, dev)
    /\ unlock_device toy_rng toy_public toy_address d old_key 0 = Ok (d, id, dev)
    /\ unlock_device toy_rng toy_public toy_address (with_device 6000 d) old_key 0 = Ok (with_device 6000 d, id, dev)
    /\ unlock_device toy_rng toy_public toy_address (with_device 4000 d) old_key 0 = Err AuthenticationFailed.
Proof.
  destruct created as [r k] eqn:Hr.
  assert (Hok : is_ok r = true) by (change r with (r, k).1; rewrite <- Hr; vm_compute; reflexivity).
  destruct r as [v|]; [|discriminate Hok].
  destruct (create_opens toy_rng toy_argon2id toy_public toy_address [7] 0 tt 0%nat v k) as (_ & _ & _ & vk & a & _ & H1 & H2 & _ & H3);
    [exact Hr|].
  assert (Hv : Ok v = created.1) by (by rewrite Hr).
  assert (Hvk : vk = old_key).
  { specialize (H2 a). rewrite decide_True in H2 by done. injection Hv as Hv.
    assert (Hu : (x ← created.1; s ← unlock_seed toy_argon2id (db x) [7]; unlock_unwrap (db x) s) = Ok old_key) by (vm_compute; reflexivity).
    rewrite Hr in Hu. cbn [fst mbind result_bind] in Hu. rewrite H1 in Hu. cbn [mbind result_bind] in Hu. congruence. }
  subst vk. destruct (first_file (5 * 10 ^ 9)) as [[d id] dev] eqn:Hf.
  assert (Hd : unlock_device toy_rng toy_public toy_address (db v) old_key (5 * 10 ^ 9) = Ok (d, id, dev)).
  { rewrite <- Hf. unfold first_file. rewrite Hr.
    assert (Hu : is_ok (x ← created.1; unlock_device toy_rng toy_public toy_address (db x) old_key (5 * 10 ^ 9)) = true) by (vm_compute; reflexivity).
    rewrite Hr in Hu. cbn [fst mbind result_bind] in Hu. destruct (unlock_device _ _ _ (db v) _ _); [done|discriminate Hu]. }
  exists v, k, d, id, dev. split; [reflexivity|]. split; [exact Hd|].
  destruct (H3 _ d id dev Hd) as (Hid & own & Hdevs & Hat & Hlater).
  assert (Hrange : 0 <= id < 256 ^ Z.of_nat DEVICE_ID_LEN /\ 3 <> id).
  { assert (E : id = (first_file (5 * 10 ^ 9)).1.2) by (by rewrite Hf). rewrite E. vm_compute. split; [split; [discriminate|reflexivity]|discriminate]. }
  assert (Hstep : forall t, rtc (device_step toy_rng toy_public toy_address old_key id) d (with_device t d)).
  { intros t. apply rtc_once, StepSync; [done|done| |]; cbn [with_device set_store store set_devices device_rows].
    - rewrite lookup_insert_ne; [done|apply Hrange].
    - rewrite Hdevs. intros i [row Hi]. apply lookup_insert_Some in Hi as [[<- _]|[_ Hi]]; [split; [done|reflexivity]|].
      apply lookup_singleton_Some in Hi as [<- _]. apply Hrange. }
  assert (Hown : dev_added_at own = 5000) by (rewrite Hat; vm_compute; reflexivity).
  assert (Hfirst : forall t, first_row (store (with_device t d)) id own <-> pair_le (5000, id) (t, 3)).
  { intros t. unfold first_row. cbn [with_device set_store store set_devices device_rows]. rewrite Hdevs, map_Forall_insert, map_Forall_singleton, Hown.
    - cbn. unfold pair_le. cbn. intuition lia.
    - apply lookup_singleton_None. intros E. by apply (proj2 Hrange). }
  split_and!; rewrite Hlater; try apply Hstep; try apply rtc_refl.
  - rewrite decide_True; [done|]. split; [done|]. unfold first_row. rewrite Hdevs. apply map_Forall_singleton. unfold pair_le. cbn. lia.
  - rewrite decide_True; [done|]. split; [done|]. apply Hfirst. unfold pair_le. cbn. lia.
  - rewrite decide_False; [done|]. intros [_ H]. apply Hfirst in H. unfold pair_le in H. cbn in H. lia.
Defined.


(** The vault of this file, escrowed to three guardians, recovered by two of them. *)
Definition roster : GuardianRoster := mkRoster 2 3 guardians [101; 102; 103].
Definition escrowed : result RecoveryOrchestrationError OnboardingArtifacts * nat :=
  onboard_guardian_escrow toy_rng old_key vault_id two_of_three guardians 0 50%nat.
Definition share (i : Z) : list Z := (i + 1) :: to_be_bytes KEY_LEN (toy_rng 50).

Lemma recovery_restores_witness :
  exists art k ne w' a, escrowed = (Ok art, k)
    /\ recover_from_shares toy_rng toy_argon2id (wrapped_recovery art) [share 2; share 0] roster [8] 0 vault_id unlocked = (Ok ne, w')
    /\ unlock_seed toy_argon2id (db (vault w')) [8] = Ok a /\ unlock_unwrap (db (vault w')) a = Ok old_key.
Proof.
  destruct escrowed as [r k] eqn:Hr.
  assert (Hok : is_ok r = true) by (change r with (r, k).1; rewrite <- Hr; vm_compute; reflexivity).
  destruct r as [art|]; [|discriminate Hok]. pose proof Hr as Hart.
  apply (onboard_inv toy_rng) in Hr as (_ & _ & Hesc); [|bounded].
  destruct (recover_from_shares toy_rng toy_argon2id (wrapped_recovery art) [share 2; share 0] roster [8] 0 vault_id unlocked) as [rr w'] eqn:Hrec.
  assert (Hok2 : is_ok rr = true).
  { change rr with (rr, w').1. rewrite <- Hrec. injection Hart as <- _. vm_compute. reflexivity. }
  destruct rr as [ne|]; [|discriminate Hok2].
  assert (Hrel : released art vault_id 0 [2%nat; 0%nat] [share 2; share 0]).
  { split; [apply (bool_decide_unpack _); vm_compute; exact I|].
    injection Hart as <- _. repeat constructor;
      [exists (mkAssignment 2 13 (13 :: sealed_share_header vault_id (to_escrow_bytes 0) ++ share 2)), 12
      |exists (mkAssignment 0 11 (11 :: sealed_share_header vault_id (to_escrow_bytes 0) ++ share 0)), 10];
      vm_compute; split_and!; reflexivity. }
  destruct (recovery_restores toy_rng toy_argon2id toy_public art old_key guardians 0 [2%nat; 0%nat] [share 2; share 0] roster [8] ne unlocked w')
    as (_ & (a & Ha & Hu) & _); [bounded|bounded|bounded|exact Hesc|exact Hrel| | |exact Hrec|].
  - repeat constructor; vm_compute; (reflexivity || discriminate).
  - repeat constructor; vm_compute; (reflexivity || discriminate).
  - exists art, k, ne, w', a. split; [reflexivity|]. split; [exact Hrec|]. split; [exact Ha|]. rewrite Hu. by rewrite decide_True.
Defined.
End RekeySample.
