(* ===== verification/Lifetime.v ===== *)
(** * The session over the life of a vault

    The calls of SessionPolicy.v together with those of Rekey.v: rotations, recoveries,
    pairing and the handlers of the escrow, in any order.  [session_lifetime] says when the
    secrets are in memory and when they can be used. *)

From Stdlib Require Import String.
From S2P Require Import Prelude Bytes Cbor SeedPhrase RecoveryBackup StoreError SessionPolicy MultiDevice Escrow KeyStore Rekey.
Open Scope Z_scope.

Section lifetime.
Context `{!Primitives} `{!Cbor.Cbor}.
Context (rng : nat -> Z).
Context {T Snapshot Index P I : Type}.
Context `{!AccountTable T} `{!PresenceProof P} `{!IdentityProof I}.
Context (clock wall : nat -> Z).
Context (argon2id : list Z -> list Z -> KdfParams -> option Z).
Context (ed25519_public : Z -> Z) (derive_evm_address : Z -> option Z).
Context (pairing_secret sealing_secret : Z -> Z).
Context (sha256 : list Z -> list Z) (aead_seal : Z -> list Z -> list Z -> list Z -> option (list Z)).
Context (build_active_state_data : KeyDb T -> Z -> VdkChain Z -> store_result (gmap Z Snapshot * Index * gset Z))
        (derive_evm_wallet : Z -> option Z).

Notation W := (World (KeyDb T) Snapshot Z Index P).
Notation vop := (op W StoreError).
Notation Call := (@Call Snapshot I).
Notation run_call := (run_call clock wall (unlock_seed argon2id) unlock_unwrap unlock_chain build_active_state_data
  (unlock_device rng ed25519_public derive_evm_address) derive_evm_wallet).

(** ** The calls *)

Definition forget {E A} (m : op W E A) : op W E (list Z) := m ≫= fun _ => mret [].

(** The handlers of the escrow, of pairing and of the recipient of a recovery. *)
Inductive HandlerCall : Type :=
| OnboardGuardians (threshold : Z) (pubs signers : list Z)
| EscrowParams
| CreateBackup
| OpenSealedShare (sealed : list Z) (vault_id : Z) (epoch : list Z)
| SealForNewDevice (pub device vault_id epoch : Z)
| OpenPairedSeal (sealed : list Z) (vault_id epoch : Z)
| PairingPubkey
| SealingPubkey
| PairingDeviceId
| PersistRecipient (vault_id attempt secret pub now : Z)
| PeekRecipient (vault_id : Z)
| RecipientPubkey (vault_id : Z)
| ClearRecipient (vault_id : Z).

Definition run_handler (h : HandlerCall) : vop (list Z) :=
  match h with
  | OnboardGuardians t pubs signers => forget (onboard_guardians rng t pubs signers)
  | EscrowParams => forget recovery_escrow_params
  | CreateBackup => forget (create_recovery_backup rng argon2id sha256 aead_seal)
  | OpenSealedShare sealed v e => guardian_open_sealed_share sealing_secret sealed v e
  | SealForNewDevice pub device v e => seal_vdk_for_new_device rng pub device v e
  | OpenPairedSeal sealed v e => forget (open_paired_vdk_seal ed25519_public pairing_secret sealed v e)
  | PairingPubkey => forget (device_pairing_pubkey pairing_secret)
  | SealingPubkey => forget (guardian_sealing_pubkey sealing_secret)
  | PairingDeviceId => forget (device_pairing_device_id ed25519_public)
  | PersistRecipient v a s p now => forget (persist_recovery_recipient rng v a s p now)
  | PeekRecipient v => forget (peek_recovery_recipient_secret v)
  | RecipientPubkey v => forget (recovery_recipient_pubkey v)
  | ClearRecipient v => forget (clear_recovery_recipient v)
  end.

(** A call on the vault handle.  [OnGated] is any credential operation whose body leaves
    the session alone: the freshness check, the body, and a touch when it succeeded. *)
Inductive VaultCall : Type :=
| OnSession (c : Call)
| OnGated (body : vop (list Z))
| OnRekey (c : RekeyCall)
| OnRotate (new_vdk : Z) (password : list Z) (new_epoch : Z) (w : WrappedVdk) (t m e : Z) (guardians : list GuardianRecord)
| OnCompleteRotation (password : list Z) (current_set : list Z)
| OnRecover (w : WrappedVdk) (shares : list (list Z)) (roster : GuardianRoster) (password : list Z) (epoch vault_id : Z)
| OnInstallPaired (vdk vault_id : Z) (password : list Z)
| OnHandler (h : HandlerCall).

Definition gated_op (body : vop (list Z)) : vop (list Z) :=
  check_session_freshness clock ≫= fun _ => x ← body; touch_session clock ≫= fun _ => mret x.

Definition run_vault_call (c : VaultCall) : op W CompositionError (list Z) :=
  match c with
  | OnSession c => on_store (run_call c)
  | OnGated body => on_store (gated_op body)
  | OnRekey c => on_store (forget (run_rekey rng argon2id ed25519_public c))
  | OnRotate vk pw ne w t m e gs => on_store (forget (commit_vdk_rotation_from_active rng argon2id ed25519_public vk pw ne w t m e gs))
  | OnCompleteRotation pw current => forget (complete_rotation rng argon2id ed25519_public pw current)
  | OnRecover w shares roster pw e v => forget (recover_from_shares rng argon2id w shares roster pw e v)
  | OnInstallPaired vk v pw => on_store (forget (install_paired_vdk rng argon2id ed25519_public vk v pw))
  | OnHandler h => on_store (run_handler h)
  end.

(** The body of a gated operation changes the tables and what is cached, not the session. *)
Definition keeps_session {A} (m : vop A) : Prop := forall w,
  session_state (vault (m w).2) = session_state (vault w)
  /\ (is_Some (active (vault (m w).2)) <-> is_Some (active (vault w))).

Definition admissible (c : VaultCall) : Prop := match c with OnGated body => keeps_session body | _ => True end.

(** The operations that check the deadline, and those that only ask for the secrets. *)
Definition timed (c : VaultCall) : bool :=
  match c with OnSession c => credential c | OnGated _ => true | _ => false end.
Definition untimed (c : VaultCall) : bool :=
  match c with
  | OnRotate _ _ _ _ _ _ _ _ | OnCompleteRotation _ _ | OnInstallPaired _ _ _ => true
  | OnHandler (RecipientPubkey _) | OnHandler (ClearRecipient _) => false
  | OnHandler _ => true
  | _ => false
  end.

(** What a call adds to the clock readings of the successful unlocks, and whether a rotation
    has failed since the last of them. *)
Definition unlocks_of (c : VaultCall) (ok : bool) (w : W) : list Z :=
  match c with OnSession c => unlocked_at clock c ok w | _ => [] end.
Definition lost_after (c : VaultCall) (ok lost : bool) : bool :=
  match c with
  | OnSession c => still_lost c ok lost
  | OnRotate _ _ _ _ _ _ _ _ | OnCompleteRotation _ _ => if ok then lost else true
  | _ => lost
  end.

(** A freshly opened vault, as [Vault::open] returns it. *)
Definition opened (w : W) : Prop := session_state (vault w) = Locked /\ active (vault w) = None.

(** [history w us lost]: [w] is reached from an opened vault by any calls, each with any
    presence proof; [us] are the clock readings of the successful unlocks, the latest last,
    and a rotation has failed since the latest if [lost]. *)
Inductive history : W -> list Z -> bool -> Prop :=
| history_open w : opened w -> history w [] false
| history_call w us lost p c r w' :
    history w us lost -> admissible c -> run_vault_call c (set_presence p w) = (r, w') ->
    history w' (us ++ unlocks_of c (is_ok r) w) (lost_after c (is_ok r) lost).

(** ** The invariant *)

Section preserved.
Context (lost : bool) (us : list Z).
Notation ok := (session_ok lost us : W -> Prop).

Lemma preserves_next {E A} (m : op W E A) : (forall w, ok w -> ok (m w).2) -> preserves ok m.
Proof. intros Hm w Hw. specialize (Hm w Hw). destruct (m w) as [[a|e] w1]; exact Hm. Qed.

Lemma preserves_map_op {E F A} (f : E -> F) (m : op W E A) : preserves ok m -> preserves ok (map_op f m).
Proof. intros Hm w Hw. unfold map_op. specialize (Hm w Hw). destruct (m w) as [[a|e] w1]; exact Hm. Qed.

Lemma map_db_ok f w : ok w -> ok (map_db f w).
Proof. intros Hw. by apply (session_ok_ext lost us us w). Qed.

Lemma drawing_ok {E A} (m : op nat E A) : preserves ok (drawing m : op W E A).
Proof. apply preserves_next. intros w Hw. unfold drawing. destruct (m _) as [r k]. by apply map_db_ok. Qed.

Lemma transaction_ok {E} (m : Store -> op nat E Store) : preserves ok (transaction m : op W E unit).
Proof.
  intros w Hw. unfold transaction. pose proof (drawing_ok (m (store (db (vault w)))) w Hw) as Hd.
  destruct (drawing _ w) as [[st|e] w1]; [by apply map_db_ok|done].
Qed.

Lemma get_db_ok {E A} (f : KeyDb T -> A) : preserves ok (get_db f : op W E A).
Proof. apply preserves_gets. Qed.

Lemma relock_ok m : preserves ok (relock m : vop unit).
Proof. apply preserves_modify. intros w _. by apply session_ok_off. Qed.

Hint Resolve preserves_map_op drawing_ok transaction_ok get_db_ok relock_ok require_active_ok : pangolin.

Lemma rekey_ok c : preserves ok (run_rekey rng argon2id ed25519_public c : vop unit).
Proof.
  destruct c; cbn [run_rekey]; unfold recover_with_new_password, commit_recovery_rekey, commit_vdk_rotation,
    build_recovery_meta; preserve.
Qed.

Lemma install_ok vk v pw : preserves ok (install_paired_vdk rng argon2id ed25519_public vk v pw : vop unit).
Proof.
  unfold install_paired_vdk. apply preserves_bind; [preserve|intros a]. apply preserves_bind; [preserve|intros m].
  apply preserves_bind; [preserve|intros nm]. apply preserves_bind; [preserve|intros _].
  apply preserves_bind; [|intros _; preserve]. apply preserves_modify. intros w Hw. by apply (session_ok_ext lost us us w).
Qed.

Lemma recover_ok w shares ros pw e v :
  preserves ok (recover_from_shares rng argon2id w shares ros pw e v : op W CompositionError Z).
Proof.
  unfold recover_from_shares, on_store. case_match; [preserve|]. apply preserves_bind; [preserve|intros art].
  apply preserves_bind; [|intros ?; preserve]. apply preserves_map_op. exact (rekey_ok (RecoverEscrow _ _ _ _ _ _ _)).
Qed.

Lemma escrow_params_ok : preserves ok (recovery_escrow_params : vop _).
Proof. unfold recovery_escrow_params. preserve. Qed.

Lemma handler_ok h : preserves ok (run_handler h).
Proof.
  destruct h; cbn [run_handler]; unfold forget, onboard_guardians, create_recovery_backup, guardian_open_sealed_share,
    seal_vdk_for_new_device, open_paired_vdk_seal, device_pairing_pubkey, guardian_sealing_pubkey, device_pairing_device_id,
    persist_recovery_recipient, peek_recovery_recipient_secret, recovery_recipient_pubkey, clear_recovery_recipient;
    try (apply preserves_bind; [apply escrow_params_ok|intros ?; preserve]); preserve.
Qed.

Lemma gated_ok body : keeps_session body -> preserves ok (gated_op body).
Proof.
  intros Hb. unfold gated_op. apply preserves_bind; [apply check_session_freshness_ok|intros _].
  apply preserves_bind; [|intros x; apply preserves_bind; [apply touch_session_ok|intros ?; preserve]].
  apply preserves_next. intros w Hw. destruct (Hb w) as [Hs Ha]. by apply (session_ok_ext lost us us w).
Qed.

(** A call other than a rotation and an unlock. *)
Lemma quiet_call_ok c :
  admissible c -> match c with OnSession _ | OnRotate _ _ _ _ _ _ _ _ | OnCompleteRotation _ _ => False | _ => True end ->
  preserves ok (run_vault_call c).
Proof.
  destruct c; try done; intros Hadm _; cbn [run_vault_call]; unfold on_store, forget.
  - by apply preserves_map_op, gated_ok.
  - apply preserves_map_op, preserves_bind; [apply rekey_ok|intros ?; preserve].
  - apply preserves_bind; [apply recover_ok|intros ?; preserve].
  - apply preserves_map_op, preserves_bind; [apply install_ok|intros ?; preserve].
  - apply preserves_map_op, handler_ok.
Qed.
End preserved.

(** *** Rotations

    The secrets are dropped first and may be lost. *)

Section rotation.
Context (us : list Z).
Notation ok := (session_ok true us : W -> Prop).

Lemma rotate_lost vk pw ne w t m e gs :
  preserves ok (commit_vdk_rotation_from_active rng argon2id ed25519_public vk pw ne w t m e gs : vop unit).
Proof.
  unfold commit_vdk_rotation_from_active. apply preserves_bind; [apply require_active_ok|intros a].
  apply preserves_bind; [|intros _; exact (rekey_ok true us (Rotate _ _ _ _ _ _ _ _ _ _))].
  apply preserves_modify. intros x [_ _ Hd]. split; [by intros [? ?]|done|exact Hd].
Qed.

Lemma complete_lost pw current : preserves ok (complete_rotation rng argon2id ed25519_public pw current : op W _ _).
Proof.
  unfold complete_rotation, on_store. apply preserves_bind; [apply get_db_ok|intros m].
  apply preserves_bind; [apply get_db_ok|intros devs]. destruct (resolve_survivors _ _) as [survivors unknown].
  apply preserves_bind; [apply preserves_map_op, escrow_params_ok|intros params].
  apply preserves_bind; [preserve|intros ps]. apply preserves_bind; [apply drawing_ok|intros art].
  apply preserves_bind; [apply preserves_map_op, rotate_lost|intros _]. apply preserves_bind; [|intros ?; preserve].
  apply preserves_map_op. apply preserves_next. intros w Hw. destruct (retire_pending _ _) as [r t]. by apply map_db_ok.
Qed.
End rotation.

(** A rotation that succeeds has locked the vault. *)
Definition locked (w : W) : Prop := is_active (session_state (vault w)) = false /\ active (vault w) = None.

Lemma rotate_locks vk pw ne wr t m e gs (w w' : W) :
  commit_vdk_rotation_from_active rng argon2id ed25519_public vk pw ne wr t m e gs w = (Ok tt, w') -> locked w'.
Proof.
  unfold commit_vdk_rotation_from_active, commit_vdk_rotation. intros Hr. op_inv. by injection Hr as <-.
Qed.

Lemma complete_locks pw current (w w' : W) o :
  complete_rotation rng argon2id ed25519_public pw current w = (Ok o, w') -> locked w'.
Proof.
  unfold complete_rotation, on_store. intros Hr. apply op_bind_Ok in Hr as (m & w1 & _ & Hr).
  apply op_bind_Ok in Hr as (devs & w2 & _ & Hr). destruct (resolve_survivors _ _) as [survivors unknown].
  apply op_bind_Ok in Hr as (params & w3 & _ & Hr). apply op_bind_Ok in Hr as (ps & w4 & _ & Hr).
  apply op_bind_Ok in Hr as (art & w5 & _ & Hr). apply op_bind_Ok in Hr as ([] & w6 & Hc & Hr).
  apply map_op_Ok, rotate_locks in Hc. apply op_bind_Ok in Hr as (u & w7 & Ht & Hr). injection Hr as _ <-.
  apply map_op_Ok in Ht. destruct (retire_pending _ _) as [r t]. by injection Ht as _ <-.
Qed.

Lemma run_vault_call_ok lost us c (w : W) r w' :
  session_ok lost us w -> admissible c -> run_vault_call c w = (r, w') ->
  session_ok (lost_after c (is_ok r) lost) (us ++ unlocks_of c (is_ok r) w) w'.
Proof.
  intros Hok Hadm Hr. destruct c; try (simpl; rewrite app_nil_r;
    exact (preserves_run _ _ _ _ _ (quiet_call_ok lost us _ Hadm ltac:(done)) Hok Hr)).
  - simpl in *. unfold on_store, map_op in Hr. destruct (run_call c w) as [r1 w1] eqn:Hc. injection Hr as <- <-.
    replace (is_ok (map_err Store_error r1)) with (is_ok r1) by (by destruct r1). by eapply run_call_session_ok.
  - assert (Hlost : session_ok true us w) by (destruct lost; [done|by apply session_ok_lose]).
    assert (Hw' : session_ok true us w').
    { eapply (preserves_run (session_ok true us)); [|exact Hlost|exact Hr]. apply preserves_map_op, preserves_bind; [apply rotate_lost|].
      intros _. apply preserves_ret. }
    simpl. rewrite app_nil_r. destruct r as [x|err]; [|exact Hw']. simpl in Hr. apply map_op_Ok in Hr.
    apply op_bind_Ok in Hr as ([] & w1 & Hr & Hx). injection Hx as _ <-. apply rotate_locks in Hr as [H1 H2]. by apply session_ok_off.
  - assert (Hlost : session_ok true us w) by (destruct lost; [done|by apply session_ok_lose]).
    assert (Hw' : session_ok true us w').
    { eapply (preserves_run (session_ok true us)); [|exact Hlost|exact Hr]. apply preserves_bind; [apply complete_lost|].
      intros _. apply preserves_ret. }
    simpl. rewrite app_nil_r. destruct r as [x|err]; [|exact Hw']. simpl in Hr.
    apply op_bind_Ok in Hr as (o & w1 & Hr & Hx). injection Hx as _ <-. apply complete_locks in Hr as [H1 H2]. by apply session_ok_off.
Qed.

Lemma history_ok (w : W) us lost : history w us lost -> session_ok lost us w.
Proof.
  induction 1 as [w [Hs Ha]|w us lost p c r w' _ IH Hadm Hr].
  - apply session_ok_off; [by rewrite Hs|done].
  - apply (run_vault_call_ok lost us c (set_presence p w)); [|done|done].
    by apply (session_ok_ext lost us us w).
Qed.

(** ** What succeeds *)

Lemma require_active_Ok (w w' : W) a : require_active w = (Ok a, w') -> active (vault w) = Some a.
Proof.
  unfold require_active, gets, mbind, op_bind. destruct (active (vault w)); [by intros [= ->]|done].
Qed.

Lemma timed_within c (w w' : W) bytes :
  timed c = true -> run_vault_call c w = (Ok bytes, w') ->
  exists e l s, session_state (vault w) = Active e l s /\ clock (ticks w) <= e.
Proof.
  destruct c as [c|body| | | | | |]; try done; intros Hc Hr; simpl in Hr; apply map_op_Ok in Hr.
  - by eapply run_call_credential.
  - unfold gated_op in Hr. apply op_bind_Ok in Hr as (u & w1 & Hf & _). by apply check_session_freshness_Ok in Hf as [? _].
Qed.

Lemma unlock_needs_proofs identity (w w' : W) bytes :
  run_vault_call (OnSession (CUnlock identity)) w = (Ok bytes, w') ->
  (exists p', presence_verify (wall (ticks w)) (presence w) = (Ok tt, p'))
  /\ identity_verify identity = Ok tt /\ is_ok (derive_secret identity) = true.
Proof.
  intros Hr. apply map_op_Ok, op_bind_Ok in Hr as ([] & w1 & Hr & _). apply unlock_inv in Hr as ((p & Hp & _) & Hi & Hs & _).
  eauto.
Qed.

Lemma handler_active h (w w' : W) bytes :
  untimed (OnHandler h) = true -> run_handler h w = (Ok bytes, w') -> is_Some (active (vault w)).
Proof.
  intros Hu Hr.
  assert (Hx : exists u w1, require_active w = (Ok u, w1)).
  { destruct h; try discriminate Hu; cbn [run_handler] in Hr; unfold forget, onboard_guardians, recovery_escrow_params, create_recovery_backup,
      guardian_open_sealed_share, seal_vdk_for_new_device, open_paired_vdk_seal, device_pairing_pubkey, guardian_sealing_pubkey,
      device_pairing_device_id, persist_recovery_recipient, peek_recovery_recipient_secret in Hr;
      repeat match type of Hr with
      | require_active _ = _ => by eauto
      | mbind _ _ _ = _ => apply op_bind_Ok in Hr as (? & ? & Hr & _)
      | _ => case_match; [done|]
      end. }
  destruct Hx as (u & w1 & Hx). apply require_active_Ok in Hx. by eexists.
Qed.

Lemma untimed_active c (w w' : W) bytes :
  untimed c = true -> run_vault_call c w = (Ok bytes, w') -> is_Some (active (vault w)).
Proof.
  intros Hu Hr. destruct c as [| | |vk pw ne wr t m e gs|pw current| |vk v pw|h]; try discriminate Hu; cbn [run_vault_call] in Hr.
  - apply map_op_Ok, op_bind_Ok in Hr as (u & w1 & Hr & _). apply op_bind_Ok in Hr as (a & w2 & Ha & _).
    apply require_active_Ok in Ha. by eexists.
  - apply op_bind_Ok in Hr as (u & w1 & Hr & _). unfold complete_rotation in Hr.
    apply op_bind_Ok in Hr as (m & w2 & Hm & Hr). injection Hm as _ <-.
    apply op_bind_Ok in Hr as (devs & w2 & Hd & Hr). injection Hd as _ <-. destruct (resolve_survivors _ _).
    apply op_bind_Ok in Hr as (params & w2 & Hp & _). apply map_op_Ok, op_bind_Ok in Hp as (a & w3 & Ha & _).
    apply require_active_Ok in Ha. by eexists.
  - apply map_op_Ok, op_bind_Ok in Hr as (u & w1 & Hr & _). apply op_bind_Ok in Hr as (a & w2 & Ha & _).
    apply require_active_Ok in Ha. by eexists.
  - apply map_op_Ok in Hr. by eapply handler_active.
Qed.

(** C9. Session lifetime, over every sequence of session calls, credential operations,
    rotations, recoveries, pairings and escrow handlers, with any proofs and any clock.
    Secrets are in memory only in the state [Active]; in that state they are, unless a
    rotation has failed since the last successful unlock; the start of an active session
    is the clock reading of a successful unlock, and its deadline is at most four hours
    later; and an unlock succeeds only when it accepts both its proofs.  So a credential
    operation that succeeds does so within four hours of a successful two-proof unlock,
    whatever was touched, extended or reconfigured in between; a rotation, a pairing or an
    escrow handler, which does not check the deadline, succeeds only while the secrets of
    such an unlock are still in memory. *)
Theorem session_lifetime (w : W) us lost :
  history w us lost ->
  (is_Some (active (vault w)) -> is_active (session_state (vault w)) = true)
  /\ (lost = false -> is_active (session_state (vault w)) = true -> is_Some (active (vault w)))
  /\ (forall e l s, session_state (vault w) = Active e l s ->
        s ∈ us /\ e <= s + ABSOLUTE_MAX_DEFAULT)
  /\ (forall p identity bytes w', run_vault_call (OnSession (CUnlock identity)) (set_presence p w) = (Ok bytes, w') ->
        (exists p', presence_verify (wall (ticks w)) p = (Ok tt, p'))
        /\ identity_verify identity = Ok tt /\ is_ok (derive_secret identity) = true)
  /\ (forall p c bytes w', timed c = true ->
        run_vault_call c (set_presence p w) = (Ok bytes, w') ->
        exists s, s ∈ us /\ clock (ticks w) <= s + ABSOLUTE_MAX_DEFAULT)
  /\ (forall p c bytes w', untimed c = true ->
        run_vault_call c (set_presence p w) = (Ok bytes, w') ->
        is_Some (active (vault w)) /\ exists s e l, session_state (vault w) = Active e l s /\ s ∈ us).
Proof.
  intros Hx%history_ok. destruct Hx as [Ha Ht Hd]. split_and!; [done..| | |].
  - intros p identity bytes w' Hr. by eapply unlock_needs_proofs in Hr.
  - intros p c bytes w' Hc Hr. destruct (timed_within c _ _ _ Hc Hr) as (e & l & s & Hs & Hle). simpl in *.
    destruct (Hd e l s Hs) as [Hin Hmax]. exists s. split; [done|lia].
  - intros p c bytes w' Hc Hr. pose proof (untimed_active c _ _ _ Hc Hr) as Hsome. simpl in Hsome. split; [done|].
    specialize (Ha Hsome). destruct (session_state (vault w)) as [| |e l s|] eqn:Es; try discriminate Ha.
    exists s, e, l. split; [done|]. by apply (Hd e l s).
Qed.
End lifetime.

(** ** Witnesses *)

Module LifetimeSample.
Import EscrowSample KeyStoreSample RekeySample.

Definition no_table : AccountTable unit := {| frozen_pending_resolve := fun _ _ => None; head_pointer := fun _ _ => None |}.
#[local] Existing Instance no_table.

(** A clock that moves on by a hundred seconds at each reading. *)
Definition ticking (k : nat) : Z := from_secs (100 * Z.of_nat k).

Notation sample_run := (run_vault_call toy_rng ticking ticking toy_argon2id toy_public toy_address (fun k => k) (fun k => k)
  (fun bytes => bytes) (fun _ _ plain _ => Some plain) no_accounts (fun k => Some k) (I := PinIdentityProof)).
Notation sample_history := (history toy_rng ticking ticking toy_argon2id toy_public toy_address (fun k => k) (fun k => k)
  (fun bytes => bytes) (fun _ _ plain _ => Some plain) no_accounts (fun k => Some k) (I := PinIdentityProof)).
Notation sample_lifetime := (session_lifetime toy_rng ticking ticking toy_argon2id toy_public toy_address (fun k => k) (fun k => k)
  (fun bytes => bytes) (fun _ _ plain _ => Some plain) no_accounts (fun k => Some k) (I := PinIdentityProof)).

(** A vault after its creation, after an unlock, and after a rotation whose epoch the
    tables cannot hold. *)
Definition start : W :=
  match created with (Ok v, _) => mkWorld v (PressY_confirmed 0) 0%nat | _ => blank end.
Definition open_at_zero : W := (sample_run (OnSession (CUnlock (mkPin [7]))) (fresh start)).2.
Notation bad_rotation := (OnRotate 500 [8] (2 ^ 63) wrapper 2 3 1 sample_guardians).
Definition rotated : W := (sample_run bad_rotation (fresh open_at_zero)).2.

Lemma unlocked_history : sample_history open_at_zero [0] false.
Proof.
  assert (Hs : sample_history start [] false) by (apply history_open; split; vm_compute; reflexivity).
  destruct (sample_run (OnSession (CUnlock (mkPin [7]))) (fresh start)) as [r w1] eqn:E.
  assert (Hok : is_ok r = true) by (change r with (r, w1).1; rewrite <- E; vm_compute; reflexivity).
  unfold open_at_zero. rewrite E. eapply history_call in E; [|exact Hs|exact Logic.I]. rewrite Hok in E. exact E.
Qed.

Lemma rotated_history : sample_history rotated [0] true.
Proof.
  destruct (sample_run bad_rotation (fresh open_at_zero)) as [r w1] eqn:E.
  assert (Hok : is_ok r = false) by (change r with (r, w1).1; rewrite <- E; vm_compute; reflexivity).
  unfold rotated. rewrite E. eapply history_call in E; [|exact unlocked_history|exact Logic.I]. rewrite Hok in E. exact E.
Qed.

(** A credential operation inside the four hours; and the session that the failed rotation
    leaves, active without secrets, in which no handler of the escrow succeeds. *)
Lemma session_lifetime_witness :
  (sample_run (OnSession CGate) (fresh open_at_zero)).1 = Ok []
  /\ (exists s, s ∈ [0] /\ ticking (ticks open_at_zero) <= s + ABSOLUTE_MAX_DEFAULT)
  /\ is_active (session_state (vault rotated)) = true /\ active (vault rotated) = None
  /\ (forall bytes w', sample_run (OnHandler CreateBackup) (fresh rotated) <> (Ok bytes, w')).
Proof.
  destruct (sample_lifetime open_at_zero [0] false unlocked_history) as (_ & _ & _ & _ & H & _).
  destruct (sample_lifetime rotated [0] true rotated_history) as (_ & _ & _ & _ & _ & H2).
  assert (E : (sample_run (OnSession CGate) (fresh open_at_zero)).1 = Ok []) by (vm_compute; reflexivity).
  assert (Hn : active (vault rotated) = None) by (vm_compute; reflexivity).
  split_and!; [exact E| |vm_compute; reflexivity|exact Hn|].
  - destruct (sample_run (OnSession CGate) (fresh open_at_zero)) as [r w'] eqn:Hr. simpl in E. subst r.
    exact (H _ (OnSession CGate) [] w' eq_refl Hr).
  - intros bytes w' Hr. destruct (H2 _ (OnHandler CreateBackup) bytes w' eq_refl Hr) as [[a Ha] _]. by rewrite Hn in Ha.
Defined.
End LifetimeSample.
