(* ===== verification/TypedData.v ===== *)
(** * Typed data, signatures and chain errors

    crates/pangolin-chain: the EIP-712 messages the workspace signs
    (secp256k1_signing.rs, revisionlog_v2_signing.rs, recovery_signing.rs and
    the credit of the funder), their byte layouts and digests, signing and
    recovering with the malleability checks, and the v0 canonical body of
    signing.rs.  32-byte values are the integers of their big-endian bytes;
    a buffer is a list of bytes.

    Keccak-256, the domain separator of a domain (alloy computes it), the
    secp256k1 signer and the key recovery are parameters. *)

From Stdlib Require Import Ascii String.
From S2P Require Import Prelude Bytes.
Open Scope Z_scope.

(** ** Words *)

(** An ABI word: the [k] bytes of the value, padded on the left. *)
Definition word (k : nat) (x : Z) : list Z := replicate (32 - k) 0 ++ to_be_bytes k x.

Definition encode_words (fields : list (nat * Z)) : list Z :=
  mjoin ((fun f => word f.1 f.2) <$> fields).

(** ** Environments and errors *)

Inductive ChainEnv : Type := BaseSepolia | BaseMainnet | Dev.

#[export] Instance ChainEnv_eq_dec : EqDecision ChainEnv.
Proof. solve_decision. Defined.

Definition chain_id (env : ChainEnv) : option Z :=
  match env with BaseSepolia => Some 84532 | BaseMainnet => Some 8453 | Dev => None end.

(** What a [ChainError::Decode] message says. *)
Inductive DecodeFailure : Type :=
| MissingBlockNumber | MissingBlockHash | BadLog | UserIdMismatch | AmountMismatch
| NonceMismatch | MissingLogIndex.

(** Why a signer was not recovered. *)
Inductive RecoveryFailure : Type := HighS | BadV (v : Z) | CurveError.

(** [ChainError], without the messages and details that only a log shows. *)
Inductive ChainError : Type :=
| WrongChain (expected observed : Z)
| Deployment
| Rpc (message : string)
| Decode (what : DecodeFailure)
| Reverted (tx_hash : Z)
| MissingEvent (tx_hash : Z)
| Wallet
| Keystore
| Io
| DeploymentMismatch
| SignatureInvalid
| DeploymentNotFound
| DeploymentParseError
| DeploymentAddressMismatch (expected actual : Z)
| ChainIdMismatch (expected observed : Z)
| InsufficientFunds (message : string)
| RevertedOnChain (tx_hash : Z)
| RevertedPreBroadcast (reason : string)
| GasCapExceeded (observed_gwei cap_gwei : Z)
| NonceUnresolvable (attempts : Z)
| ReceiptMismatch (expected observed : Z)
| RpcTransient (message : string) (attempts : Z)
| PrePublishBalanceInsufficient (balance_wei estimate_wei : Z)
| BalanceQueryFailed
| BalanceUnknown
| SignerRecoveryFailed (why : RecoveryFailure)
| EventSignerMismatch (claimed recovered : Z)
| EventVaultIdMismatch (requested observed : Z)
| UnsupportedSchemaVersionEvent (observed max_known : Z)
| CheckpointOutOfRange (observed tip : Z).

(** [load_deployed_address] with the cross-check against the pinned address of
    the environment. *)
Definition checked_address (deployed : result ChainError Z) (env : ChainEnv) (pinned : Z) :
    result ChainError Z :=
  contract ← deployed;
  if bool_decide (env = BaseSepolia) && negb (bool_decide (contract = pinned))
  then Err (DeploymentAddressMismatch pinned contract) else Ok contract.

(** ** Pinned constants *)

Definition REVISION_TYPEHASH_V1 : Z :=
  0x240c1b72b1e92476cf861a8c19ed0f617734c55e97342ad6f99ed18467b8d211.
Definition REDEMPTION_TYPEHASH_V1 : Z :=
  0x2a1614246eddcb4b1915f697272835ba7c8fefd0ff42b3eae7692c9fc2977663.
Definition CREDIT_TYPEHASH_V1 : Z :=
  0xca59260047837893befb7ee9800fca1d13197892f987afca3a253303e077dd77.
Definition ADD_DEVICE_TYPEHASH_V2 : Z :=
  0x279755e7721a61f392c6808f60242717f80776f95a7a209bbcece753e878465b.
Definition REMOVE_DEVICE_TYPEHASH_V2 : Z :=
  0x747a3f87853a374441ba222dac7e7cda1a2b79f37db2af06c1a7d64f025ebb69.
Definition PROMOTE_TYPEHASH_V2 : Z :=
  0x843d7972ce26d17fc4887717ffd5efe23ff95263d4dc8a7dd733c71486c3be4b.
Definition APPROVE_TYPEHASH_V1 : Z :=
  0x2d50d9bb83a24b2700f4d752384ad02f0b24549ca3d91247428f3b54eaa24113.
Definition APPROVE_TYPEHASH_V2 : Z :=
  0x8035ba2c3e373fe0071228b32e9b133bd20163069315c2af924dc620245d0f28.
Definition ENTITLEMENT_DOMAIN_SEPARATOR_BASE_SEPOLIA_V1 : Z :=
  0xb33d25188e5fc32cf5021ce63f28ee4ffb13d1d9a4ca720c46272f4c87c42fd0.
Definition EXPECTED_ENTITLEMENT_REGISTRY_ADDRESS_BASE_SEPOLIA : Z :=
  0xdda04e427e95e50cfd22703a76cae2e1da4f5fcd.
Definition EXPECTED_DEPLOYED_ADDRESS_BASE_SEPOLIA : Z :=
  0x179362ad7fb7da664312aefddaa53431eb748e42.

Definition SECP256K1_HALF_N : list Z :=
  to_be_bytes 32 0x7fffffffffffffffffffffffffffffff5d576e7357a4501ddfe92f46681b20a0.

(** ** Messages *)

Record RevisionFieldsV1 : Type := mkRevisionFieldsV1 {
  rf_vault_id : Z;
  rf_account_id : Z;
  rf_parent_revision : Z;
  rf_device_id : Z;
  rf_schema_version : Z;
  rf_enc_payload_hash : Z
}.

Record RedemptionFieldsV1 : Type := mkRedemptionFieldsV1 {
  user_id : Z;
  amount : Z;
  nonce : Z;
  schema_version : Z;
  expires_at : Z
}.

Inductive DeviceAuthKind : Type := AddDevice | RemoveDevice | Promote.

Record DeviceAuthFields : Type := mkDeviceAuthFields {
  da_kind : DeviceAuthKind;
  da_vault_id : Z;
  da_subject : Z;
  da_nonce : Z;
  da_schema_version : Z
}.

Record ApproveFieldsV1 : Type := mkApproveFieldsV1 {
  ap_vault_id : Z;
  ap_proposed_authority : Z;
  ap_attempt_nonce : Z;
  ap_expires_at : Z;
  ap_schema_version : Z
}.

Record ApproveFieldsV2 : Type := mkApproveFieldsV2 {
  ap2_vault_id : Z;
  ap2_proposed_authority : Z;
  ap2_attempt_nonce : Z;
  ap2_expires_at : Z;
  ap2_recipient_commitment : Z;
  ap2_schema_version : Z
}.

#[export] Instance RevisionFieldsV1_eq_dec : EqDecision RevisionFieldsV1.
Proof. solve_decision. Defined.
#[export] Instance RedemptionFieldsV1_eq_dec : EqDecision RedemptionFieldsV1.
Proof. solve_decision. Defined.

Record SignedRevisionV1 : Type := mkSignedRevisionV1 {
  revision_fields : RevisionFieldsV1;
  revision_enc_payload : list Z;
  revision_signature : list Z
}.

#[export] Instance SignedRevisionV1_eq_dec : EqDecision SignedRevisionV1.
Proof. solve_decision. Defined.

(** [SignedRevisionV2] has the same fields. *)
Definition SignedRevisionV2 : Type := SignedRevisionV1.

Record SignedRedemptionV1 : Type := mkSignedRedemptionV1 {
  redemption_fields : RedemptionFieldsV1;
  redemption_signature : list Z
}.

#[export] Instance SignedRedemptionV1_eq_dec : EqDecision SignedRedemptionV1.
Proof. solve_decision. Defined.

Record SignedDeviceAuth : Type := mkSignedDeviceAuth {
  auth_fields : DeviceAuthFields;
  auth_signature : list Z
}.

Record SignedApprovalV1 : Type := mkSignedApprovalV1 {
  approval_fields : ApproveFieldsV1;
  approval_signature : list Z
}.

Record SignedApprovalV2 : Type := mkSignedApprovalV2 {
  approval2_fields : ApproveFieldsV2;
  approval2_signature : list Z
}.

(** [RevisionFieldsV1::device_id_from_address]: 12 zero bytes and the address,
    which as an integer is the address. *)
Definition device_id_from_address (addr : Z) : list Z := word 20 addr.

Definition typehash (k : DeviceAuthKind) : Z :=
  match k with
  | AddDevice => ADD_DEVICE_TYPEHASH_V2
  | RemoveDevice => REMOVE_DEVICE_TYPEHASH_V2
  | Promote => PROMOTE_TYPEHASH_V2
  end.

Definition revision_words (f : RevisionFieldsV1) : list (nat * Z) :=
  [(32, REVISION_TYPEHASH_V1); (32, rf_vault_id f); (32, rf_account_id f);
   (32, rf_parent_revision f); (32, rf_device_id f); (2, rf_schema_version f);
   (32, rf_enc_payload_hash f)]%nat.

Definition redemption_words (f : RedemptionFieldsV1) : list (nat * Z) :=
  [(32, REDEMPTION_TYPEHASH_V1); (32, user_id f); (32, amount f); (8, nonce f);
   (2, schema_version f); (8, expires_at f)]%nat.

(** The credit has the fields of a redemption under its own type hash. *)
Definition credit_words (f : RedemptionFieldsV1) : list (nat * Z) :=
  [(32, CREDIT_TYPEHASH_V1); (32, user_id f); (32, amount f); (8, nonce f);
   (2, schema_version f); (8, expires_at f)]%nat.

Definition device_auth_words (f : DeviceAuthFields) : list (nat * Z) :=
  [(32, typehash (da_kind f)); (32, da_vault_id f); (20, da_subject f); (8, da_nonce f);
   (2, da_schema_version f)]%nat.

Definition approve_words (f : ApproveFieldsV1) : list (nat * Z) :=
  [(32, APPROVE_TYPEHASH_V1); (32, ap_vault_id f); (20, ap_proposed_authority f);
   (8, ap_attempt_nonce f); (8, ap_expires_at f); (2, ap_schema_version f)]%nat.

Definition approve_words_v2 (f : ApproveFieldsV2) : list (nat * Z) :=
  [(32, APPROVE_TYPEHASH_V2); (32, ap2_vault_id f); (20, ap2_proposed_authority f);
   (8, ap2_attempt_nonce f); (8, ap2_expires_at f); (32, ap2_recipient_commitment f);
   (2, ap2_schema_version f)]%nat.

(** [alloy::primitives::Signature]: [r], [s] and the parity of [y]. *)
Record Signature : Type := mkSignature {
  sig_r : Z;
  sig_s : Z;
  y_parity : bool
}.

(** [Eip712Domain]. *)
Record Eip712Domain : Type := mkDomain {
  domain_name : string;
  domain_version : string;
  domain_chain_id : Z;
  domain_verifying_contract : Z
}.

Definition build_domain (verifying_contract cid : Z) : Eip712Domain :=
  mkDomain "Pangolin RevisionLog" "1" cid verifying_contract.

Definition build_domain_revisionlog_v2 (verifying_contract cid : Z) : Eip712Domain :=
  mkDomain "Pangolin RevisionLog" "2" cid verifying_contract.

Definition build_domain_recovery (verifying_contract cid : Z) : Eip712Domain :=
  mkDomain "Pangolin Recovery" "1" cid verifying_contract.

Definition build_entitlement_domain (env : ChainEnv) (verifying_contract : Z) : Eip712Domain :=
  mkDomain "Pangolin EntitlementRegistry" "1" (default 0 (chain_id env)) verifying_contract.

Definition is_canonical_s (s_be : list Z) : bool :=
  match lex_compare s_be SECP256K1_HALF_N with Gt => false | _ => true end.

Section signing.
Context (keccak256 : list Z -> Z) (separator : Eip712Domain -> Z).

(** ** Digests *)

Definition struct_hash (f : RevisionFieldsV1) : Z := keccak256 (encode_words (revision_words f)).
Definition redemption_struct_hash (f : RedemptionFieldsV1) : Z :=
  keccak256 (encode_words (redemption_words f)).
Definition credit_struct_hash (f : RedemptionFieldsV1) : Z :=
  keccak256 (encode_words (credit_words f)).
Definition device_auth_struct_hash (f : DeviceAuthFields) : Z :=
  keccak256 (encode_words (device_auth_words f)).
Definition approve_struct_hash (f : ApproveFieldsV1) : Z :=
  keccak256 (encode_words (approve_words f)).
Definition approve_struct_hash_v2 (f : ApproveFieldsV2) : Z :=
  keccak256 (encode_words (approve_words_v2 f)).

Definition digest_buffer (domain_sep struct_hash_value : Z) : list Z :=
  [25; 1] ++ to_be_bytes 32 domain_sep ++ to_be_bytes 32 struct_hash_value.

Definition eip712_digest (domain_sep struct_hash_value : Z) : Z :=
  keccak256 (digest_buffer domain_sep struct_hash_value).

Definition revision_v1_digest (contract cid : Z) (f : RevisionFieldsV1) : Z :=
  eip712_digest (separator (build_domain contract cid)) (struct_hash f).
Definition revision_v2_digest (contract cid : Z) (f : RevisionFieldsV1) : Z :=
  eip712_digest (separator (build_domain_revisionlog_v2 contract cid)) (struct_hash f).
Definition device_auth_digest (contract cid : Z) (f : DeviceAuthFields) : Z :=
  eip712_digest (separator (build_domain_revisionlog_v2 contract cid)) (device_auth_struct_hash f).
Definition approve_digest (contract cid : Z) (f : ApproveFieldsV1) : Z :=
  eip712_digest (separator (build_domain_recovery contract cid)) (approve_struct_hash f).
Definition approve_digest_v2 (contract cid : Z) (f : ApproveFieldsV2) : Z :=
  eip712_digest (separator (build_domain_recovery contract cid)) (approve_struct_hash_v2 f).

(** ** Signing and recovering *)

Context {Key : Type} (sign_hash_sync : Key -> Z -> option Signature).
Context (normalize_s : Signature -> option Signature) (as_bytes : Signature -> list Z).
Context (recover_address_from_prehash : Signature -> Z -> option Z).

Definition sign_digest_to_rsv (signer : Key) (digest : Z) : result ChainError (list Z) :=
  sig ← ok_or (sign_hash_sync signer digest) Wallet;
  Ok (as_bytes (default sig (normalize_s sig))).

(** The tail every recovery function shares: high [s] and a bad [v] are
    refused before the curve is asked. *)
Definition recover_rsv (digest : Z) (signature : list Z) : result ChainError Z :=
  if negb (is_canonical_s (take 32 (drop 32 signature))) then Err (SignerRecoveryFailed HighS)
  else
    let v_byte := nth 64 signature 0 in
    if negb (v_byte =? 27) && negb (v_byte =? 28) then Err (SignerRecoveryFailed (BadV v_byte))
    else
      let r := be_value (take 32 signature) in
      let s := be_value (take 32 (drop 32 signature)) in
      ok_or (recover_address_from_prehash (mkSignature r s (v_byte =? 28)) digest)
        (SignerRecoveryFailed CurveError).

Definition build_signed_revision_v1 (wallet : Key) (f : RevisionFieldsV1) (enc_payload : list Z)
    (deployed : result ChainError Z) (env : ChainEnv) (cid : Z) :
    result ChainError SignedRevisionV1 :=
  contract ← checked_address deployed env EXPECTED_DEPLOYED_ADDRESS_BASE_SEPOLIA;
  signature ← sign_digest_to_rsv wallet (revision_v1_digest contract cid f);
  Ok (mkSignedRevisionV1 f enc_payload signature).

Definition recover_signer_v1_raw (f : RevisionFieldsV1) (signature : list Z)
    (deployed : result ChainError Z) (env : ChainEnv) (cid : Z) : result ChainError Z :=
  contract ← checked_address deployed env EXPECTED_DEPLOYED_ADDRESS_BASE_SEPOLIA;
  recover_rsv (revision_v1_digest contract cid f) signature.

Definition recover_signer_v1 (s : SignedRevisionV1) (deployed : result ChainError Z)
    (env : ChainEnv) (cid : Z) : result ChainError Z :=
  recover_signer_v1_raw (revision_fields s) (revision_signature s) deployed env cid.

Definition build_signed_revision_v2 (wallet : Key) (f : RevisionFieldsV1) (enc_payload : list Z)
    (contract cid : Z) : result ChainError SignedRevisionV2 :=
  signature ← sign_digest_to_rsv wallet (revision_v2_digest contract cid f);
  Ok (mkSignedRevisionV1 f enc_payload signature).

Definition recover_signer_v2_raw (f : RevisionFieldsV1) (signature : list Z) (contract cid : Z) :
    result ChainError Z :=
  recover_rsv (revision_v2_digest contract cid f) signature.

Definition build_signed_device_auth (signer : Key) (f : DeviceAuthFields) (contract cid : Z) :
    result ChainError SignedDeviceAuth :=
  signature ← sign_digest_to_rsv signer (device_auth_digest contract cid f);
  Ok (mkSignedDeviceAuth f signature).

Definition recover_device_auth_signer (auth : SignedDeviceAuth) (contract cid : Z) :
    result ChainError Z :=
  recover_rsv (device_auth_digest contract cid (auth_fields auth)) (auth_signature auth).

Definition build_signed_approval_v1 (signer : Key) (f : ApproveFieldsV1) (contract cid : Z) :
    result ChainError SignedApprovalV1 :=
  signature ← sign_digest_to_rsv signer (approve_digest contract cid f);
  Ok (mkSignedApprovalV1 f signature).

Definition recover_approver_v1 (a : SignedApprovalV1) (contract cid : Z) : result ChainError Z :=
  recover_rsv (approve_digest contract cid (approval_fields a)) (approval_signature a).

Definition build_signed_approval_v2 (signer : Key) (f : ApproveFieldsV2) (contract cid : Z) :
    result ChainError SignedApprovalV2 :=
  signature ← sign_digest_to_rsv signer (approve_digest_v2 contract cid f);
  Ok (mkSignedApprovalV2 f signature).

Definition recover_approver_v2 (a : SignedApprovalV2) (contract cid : Z) : result ChainError Z :=
  recover_rsv (approve_digest_v2 contract cid (approval2_fields a)) (approval2_signature a).

Definition build_signed_redemption_v1 (signer : Key) (f : RedemptionFieldsV1)
    (deployed : result ChainError Z) (env : ChainEnv) : result ChainError SignedRedemptionV1 :=
  contract ← checked_address deployed env EXPECTED_ENTITLEMENT_REGISTRY_ADDRESS_BASE_SEPOLIA;
  signature ← sign_digest_to_rsv signer
    (eip712_digest (separator (build_entitlement_domain env contract)) (redemption_struct_hash f));
  Ok (mkSignedRedemptionV1 f signature).

(** ** The v0 canonical hash (signing.rs) *)

(** The bytes of "pangolin-chain-signed-revision-v0". *)
Definition SIGNED_REVISION_DOMAIN : list Z :=
  (fun c => Z.of_N (N_of_ascii c)) <$>
    list_ascii_of_string "pangolin-chain-signed-revision-v0"%string.

Definition encode_canonical_body (vault_id account_id parent_revision device_id schema_version
    payload_keccak : Z) : list Z :=
  to_be_bytes 32 vault_id ++ to_be_bytes 32 account_id ++ to_be_bytes 32 parent_revision
  ++ to_be_bytes 32 device_id ++ to_be_bytes 1 schema_version ++ to_be_bytes 32 payload_keccak.

Definition canonical_hash (vault_id account_id parent_revision device_id schema_version : Z)
    (enc_payload : list Z) : Z :=
  keccak256 (SIGNED_REVISION_DOMAIN
    ++ encode_canonical_body vault_id account_id parent_revision device_id schema_version
         (keccak256 enc_payload)).
End signing.

(** ** Words: facts *)

Lemma length_word k x : (k <= 32)%nat -> length (word k x) = 32%nat.
Proof. intros Hk. unfold word. rewrite length_app, length_replicate, length_to_be_bytes. lia. Qed.

(** The fields of a message in the range of their Solidity types. *)
Definition in_words (l : list (nat * Z)) : Prop :=
  Forall (fun f => (f.1 <= 32)%nat /\ 0 <= f.2 < 256 ^ Z.of_nat f.1) l.

Lemma encode_words_cons f l : encode_words (f :: l) = word f.1 f.2 ++ encode_words l.
Proof. done. Qed.

Lemma encode_words_head f1 f2 l1 l2 :
  f1.1 = f2.1 -> in_words (f1 :: l1) -> in_words (f2 :: l2) ->
  encode_words (f1 :: l1) = encode_words (f2 :: l2) ->
  f1 = f2 /\ encode_words l1 = encode_words l2.
Proof.
  destruct f1 as [k1 x1], f2 as [k2 x2]. simpl. intros <- H1 H2. rewrite !encode_words_cons.
  apply Forall_cons in H1 as [[Hk Hx1] _], H2 as [[_ Hx2] _]. simpl in *.
  intros He. apply app_inj_1 in He as [Hw Hl]; [|by rewrite !length_word].
  split; [|done]. f_equal. unfold word in Hw. apply app_inv_head in Hw. by apply (to_be_bytes_inj k1).
Qed.

Lemma encode_words_inj l1 l2 :
  l1.*1 = l2.*1 -> in_words l1 -> in_words l2 -> encode_words l1 = encode_words l2 -> l1 = l2.
Proof.
  revert l2. induction l1 as [|f1 l1 IH]; intros [|f2 l2] Hs H1 H2 He; simpl in *; try done.
  injection Hs as Hf Hs.
  destruct (encode_words_head f1 f2 l1 l2 Hf H1 H2 He) as [-> Hl]. f_equal.
  apply IH; [done| | |done]; by apply Forall_cons in H1 as [_ ?], H2 as [_ ?].
Qed.

Lemma checked_address_Ok deployed env pinned c :
  checked_address deployed env pinned = Ok c ->
  deployed = Ok c /\ (env = BaseSepolia -> c = pinned).
Proof.
  unfold checked_address, mbind, result_bind. destruct deployed as [a|e]; [|done].
  case_bool_decide; simpl; [|naive_solver]. case_bool_decide; simpl; naive_solver.
Qed.

(** ** Every message of the workspace *)

Inductive TypedMessage : Type :=
| MRevision (f : RevisionFieldsV1)
| MRedemption (f : RedemptionFieldsV1)
| MCredit (f : RedemptionFieldsV1)
| MDeviceAuth (f : DeviceAuthFields)
| MApprove (f : ApproveFieldsV1)
| MApproveV2 (f : ApproveFieldsV2).

Definition message_words (m : TypedMessage) : list (nat * Z) :=
  match m with
  | MRevision f => revision_words f
  | MRedemption f => redemption_words f
  | MCredit f => credit_words f
  | MDeviceAuth f => device_auth_words f
  | MApprove f => approve_words f
  | MApproveV2 f => approve_words_v2 f
  end.

Definition message_hash (keccak256 : list Z -> Z) (m : TypedMessage) : Z :=
  match m with
  | MRevision f => struct_hash keccak256 f
  | MRedemption f => redemption_struct_hash keccak256 f
  | MCredit f => credit_struct_hash keccak256 f
  | MDeviceAuth f => device_auth_struct_hash keccak256 f
  | MApprove f => approve_struct_hash keccak256 f
  | MApproveV2 f => approve_struct_hash_v2 keccak256 f
  end.

Lemma message_hash_words keccak256 m :
  message_hash keccak256 m = keccak256 (encode_words (message_words m)).
Proof. by destruct m. Qed.

(** The type hashes are different, so the first word tells the type. *)
Lemma message_words_head m1 m2 l1 l2 h :
  message_words m1 = (32%nat, h) :: l1 -> message_words m2 = (32%nat, h) :: l2 ->
  (message_words m1).*1 = (message_words m2).*1.
Proof.
  intros E1 E2. assert (He : head (message_words m1) = head (message_words m2))
    by by rewrite E1, E2.
  clear E1 E2. destruct m1 as [?|?|?|[[]]|?|?], m2 as [?|?|?|[[]]|?|?]; simpl in *;
    first [reflexivity | by vm_compute in He].
Qed.

Lemma message_words_inj m1 m2 : message_words m1 = message_words m2 -> m1 = m2.
Proof.
  destruct m1 as [[]|[]|[]|[[]]|[]|[]], m2 as [[]|[]|[]|[[]]|[]|[]]; simpl; intros He;
    try (by vm_compute in He); injection He; intros; try (by subst).
Qed.

Lemma message_words_typed m : exists h l, message_words m = (32%nat, h) :: l.
Proof. destruct m; by do 2 eexists. Qed.

Definition no_collision (keccak256 : list Z -> Z) (x y : list Z) : Prop :=
  keccak256 x = keccak256 y -> x = y.

(** A 32-byte value. *)
Definition is_word (x : Z) : Prop := 0 <= x < 256 ^ 32.

Lemma digest_buffer_inj s1 h1 s2 h2 :
  is_word s1 -> is_word h1 -> is_word s2 -> is_word h2 ->
  digest_buffer s1 h1 = digest_buffer s2 h2 -> s1 = s2 /\ h1 = h2.
Proof.
  unfold digest_buffer, is_word. intros ? ? ? ? He. apply app_inv_head in He.
  apply app_inj_1 in He as [Ha Hb]; [|by rewrite !length_to_be_bytes].
  split; by apply (to_be_bytes_inj 32).
Qed.

(** C39. A digest binds its domain and its message.  If keccak-256 does not
    collide on the buffers hashed, two messages of any of the types the
    workspace signs (revision, redemption, credit, device authorization of
    either kind, recovery approval of either version) have the same digest
    only if they are the same message under the same domain separator: no
    signature can be replayed as another message, on another contract, chain
    or protocol version. *)
Theorem digest_binds keccak256 sep1 sep2 m1 m2 :
  (forall x, is_word (keccak256 x)) -> is_word sep1 -> is_word sep2 ->
  in_words (message_words m1) -> in_words (message_words m2) ->
  no_collision keccak256 (encode_words (message_words m1)) (encode_words (message_words m2)) ->
  no_collision keccak256 (digest_buffer sep1 (message_hash keccak256 m1))
    (digest_buffer sep2 (message_hash keccak256 m2)) ->
  eip712_digest keccak256 sep1 (message_hash keccak256 m1)
    = eip712_digest keccak256 sep2 (message_hash keccak256 m2) ->
  sep1 = sep2 /\ m1 = m2.
Proof.
  intros Hk H1 H2 Hm1 Hm2 Hc Hd He. apply Hd in He.
  rewrite !message_hash_words in He. apply digest_buffer_inj in He as [-> Hh]; [|done..].
  split; [done|]. apply Hc in Hh. apply message_words_inj.
  destruct (message_words_typed m1) as (t1 & l1 & E1), (message_words_typed m2) as (t2 & l2 & E2).
  pose proof (message_words_head m1 m2 l1 l2 t1 E1) as Hs.
  rewrite E1, E2 in *.
  destruct (encode_words_head (32%nat, t1) (32%nat, t2) l1 l2 eq_refl Hm1 Hm2 Hh) as [[= <-] _].
  apply encode_words_inj; [by apply Hs|done..].
Qed.

(** A hash for the witnesses: the value of the bytes, wrapped. *)
Definition toy_hash (x : list Z) : Z := be_value x mod 256 ^ 32.

Lemma toy_hash_word x : is_word (toy_hash x).
Proof. unfold is_word, toy_hash. by apply Z.mod_pos_bound. Qed.

Definition sample_revision : TypedMessage := MRevision (mkRevisionFieldsV1 1 2 3 4 1 6).

Lemma sample_revision_in_words : in_words (message_words sample_revision).
Proof. unfold in_words. apply (bool_decide_unpack _). by vm_compute. Qed.

Lemma digest_binds_witness :
  (eip712_digest toy_hash 5 (message_hash toy_hash sample_revision) =?
   eip712_digest toy_hash 5 (message_hash toy_hash (MApprove (mkApproveFieldsV1 1 2 3 4 1)))) = false
  /\ ((5 : Z) = 5 /\ sample_revision = sample_revision).
Proof.
  split; [vm_compute; reflexivity|].
  refine (digest_binds toy_hash 5 5 sample_revision sample_revision toy_hash_word _ _
    sample_revision_in_words sample_revision_in_words _ _ eq_refl).
  - unfold is_word. split; [lia|reflexivity].
  - unfold is_word. split; [lia|reflexivity].
  - intros _. reflexivity.
  - intros _. reflexivity.
Defined.

(** ** Signing and recovering: facts *)

Definition HALF_N : Z := be_value SECP256K1_HALF_N.

(** The order of the curve is odd. *)
Definition SECP256K1_N : Z := 2 * HALF_N + 1.

(** The 65 bytes of a signature. *)
Definition rsv (r s v : Z) : list Z := to_be_bytes 32 r ++ to_be_bytes 32 s ++ [v].

Lemma is_canonical_s_spec s : is_word s -> is_canonical_s (to_be_bytes 32 s) = (s <=? HALF_N).
Proof.
  intros Hs. unfold is_canonical_s. rewrite lex_compare_be_value.
  - rewrite be_value_to_be_bytes, Z.mod_small by done. fold HALF_N. unfold Z.leb.
    by destruct (s ?= HALF_N).
  - unfold SECP256K1_HALF_N. by rewrite !length_to_be_bytes.
  - apply to_be_bytes_bytes.
  - apply to_be_bytes_bytes.
Qed.

Lemma take_drop_rsv r s v :
  take 32 (rsv r s v) = to_be_bytes 32 r /\ take 32 (drop 32 (rsv r s v)) = to_be_bytes 32 s
  /\ nth 64 (rsv r s v) 0 = v.
Proof.
  unfold rsv. split_and!.
  - by rewrite take_app_length' by (by rewrite length_to_be_bytes).
  - rewrite drop_app_length' by (by rewrite length_to_be_bytes).
    by rewrite take_app_length' by (by rewrite length_to_be_bytes).
  - rewrite app_assoc, app_nth2; rewrite length_app, !length_to_be_bytes; [done|lia].
Qed.

Section recovery_facts.
Context (recover_address_from_prehash : Signature -> Z -> option Z).

Lemma recover_rsv_eq digest r s v :
  is_word r -> is_word s ->
  recover_rsv recover_address_from_prehash digest (rsv r s v) =
    if negb (s <=? HALF_N) then Err (SignerRecoveryFailed HighS)
    else if negb (v =? 27) && negb (v =? 28) then Err (SignerRecoveryFailed (BadV v))
    else ok_or (recover_address_from_prehash (mkSignature r s (v =? 28)) digest)
           (SignerRecoveryFailed CurveError).
Proof.
  intros Hr Hs. unfold recover_rsv. destruct (take_drop_rsv r s v) as (Ha & Hb & Hv).
  rewrite Ha, Hb, Hv, is_canonical_s_spec by done.
  by rewrite !be_value_to_be_bytes, !Z.mod_small by done.
Qed.
End recovery_facts.

(** What alloy documents of its secp256k1 signer: a signature over a digest
    recovers to the signer's address, also after [normalize_s], which leaves
    [s] in the lower half; [as_bytes] is [r], [s] and [27 + parity]. *)
Record Secp256k1Laws {Key : Type} (sign_hash_sync : Key -> Z -> option Signature)
    (normalize_s : Signature -> option Signature) (as_bytes : Signature -> list Z)
    (recover_address_from_prehash : Signature -> Z -> option Z) (address : Key -> Z) : Prop := {
  law_recover : forall k d sig, sign_hash_sync k d = Some sig ->
    recover_address_from_prehash (default sig (normalize_s sig)) d = Some (address k);
  law_canonical : forall k d sig, sign_hash_sync k d = Some sig ->
    let c := default sig (normalize_s sig) in
    is_word (sig_r c) /\ 0 <= sig_s c <= HALF_N;
  law_bytes : forall sig, as_bytes sig = rsv (sig_r sig) (sig_s sig) (if y_parity sig then 28 else 27)
}.

Section roundtrip.
Context (keccak256 : list Z -> Z) (separator : Eip712Domain -> Z).
Context {Key : Type} (sign_hash_sync : Key -> Z -> option Signature).
Context (normalize_s : Signature -> option Signature) (as_bytes : Signature -> list Z).
Context (recover_address_from_prehash : Signature -> Z -> option Z) (address : Key -> Z).
#[local] Notation laws := (Secp256k1Laws sign_hash_sync normalize_s as_bytes
  recover_address_from_prehash address).
#[local] Notation recover := (recover_rsv recover_address_from_prehash).
#[local] Notation sign := (sign_digest_to_rsv sign_hash_sync normalize_s as_bytes).

Lemma sign_then_recover k d bytes : laws -> sign k d = Ok bytes -> recover d bytes = Ok (address k).
Proof.
  intros [Hrec Hcan Hbytes]. unfold sign_digest_to_rsv, mbind, result_bind.
  destruct (sign_hash_sync k d) as [sig|] eqn:Es; simpl; [|done]. intros [= <-].
  specialize (Hrec k d sig Es). destruct (Hcan k d sig Es) as (Hr & Hs0 & Hs1).
  set (c := default sig (normalize_s sig)) in *. rewrite Hbytes, recover_rsv_eq.
  - replace (sig_s c <=? HALF_N) with true by (symmetry; by apply Z.leb_le). simpl.
    destruct c as [r s p]. simpl in *. destruct p; simpl; by rewrite Hrec.
  - done.
  - unfold is_word. split; [done|]. eapply Z.le_lt_trans; [exact Hs1|]. by vm_compute.
Qed.
End roundtrip.

(** Sign, then recover.  For each message type that is both signed and
    recovered (revisions of both versions, device authorizations, approvals
    of both versions), what a builder returns recovers to the signer's own
    address under the same contract, chain and environment, and carries the
    fields it was given; a builder fails only if the signer or the address
    check does. *)
Theorem sign_recover_roundtrip keccak256 separator {Key} sign_hash_sync normalize_s as_bytes
    recover_address_from_prehash (address : Key -> Z) key f payload fa f1 f2 deployed env contract cid :
  Secp256k1Laws sign_hash_sync normalize_s as_bytes recover_address_from_prehash address ->
  (forall s, build_signed_revision_v1 keccak256 separator sign_hash_sync normalize_s as_bytes key f
       payload deployed env cid = Ok s ->
     revision_fields s = f /\ revision_enc_payload s = payload
     /\ recover_signer_v1 keccak256 separator recover_address_from_prehash s deployed env cid
        = Ok (address key))
  /\ (forall s, build_signed_revision_v2 keccak256 separator sign_hash_sync normalize_s as_bytes key f
       payload contract cid = Ok s ->
     revision_fields s = f /\ revision_enc_payload s = payload
     /\ recover_signer_v2_raw keccak256 separator recover_address_from_prehash (revision_fields s)
          (revision_signature s) contract cid = Ok (address key))
  /\ (forall s, build_signed_device_auth keccak256 separator sign_hash_sync normalize_s as_bytes key fa
       contract cid = Ok s ->
     auth_fields s = fa
     /\ recover_device_auth_signer keccak256 separator recover_address_from_prehash s contract cid
        = Ok (address key))
  /\ (forall s, build_signed_approval_v1 keccak256 separator sign_hash_sync normalize_s as_bytes key f1
       contract cid = Ok s ->
     approval_fields s = f1
     /\ recover_approver_v1 keccak256 separator recover_address_from_prehash s contract cid
        = Ok (address key))
  /\ (forall s, build_signed_approval_v2 keccak256 separator sign_hash_sync normalize_s as_bytes key f2
       contract cid = Ok s ->
     approval2_fields s = f2
     /\ recover_approver_v2 keccak256 separator recover_address_from_prehash s contract cid
        = Ok (address key)).
Proof.
  intros Hl. split_and!; intros s H; unfold build_signed_revision_v1, build_signed_revision_v2,
    build_signed_device_auth, build_signed_approval_v1, build_signed_approval_v2, mbind, result_bind in H.
  - unfold recover_signer_v1, recover_signer_v1_raw, mbind, result_bind.
    destruct (checked_address _ _ _) as [c|] eqn:Ec; [|done].
    destruct (sign_digest_to_rsv _ _ _ _ _) as [b|] eqn:Es; [|done]. injection H as <-.
    simpl. split_and!; [done|done|]. by eapply sign_then_recover.
  - destruct (sign_digest_to_rsv _ _ _ _ _) as [b|] eqn:Es; [|done]. injection H as <-.
    split_and!; [done|done|]. by eapply sign_then_recover.
  - destruct (sign_digest_to_rsv _ _ _ _ _) as [b|] eqn:Es; [|done]. injection H as <-.
    split; [done|]. by eapply sign_then_recover.
  - destruct (sign_digest_to_rsv _ _ _ _ _) as [b|] eqn:Es; [|done]. injection H as <-.
    split; [done|]. by eapply sign_then_recover.
  - destruct (sign_digest_to_rsv _ _ _ _ _) as [b|] eqn:Es; [|done]. injection H as <-.
    split; [done|]. by eapply sign_then_recover.
Qed.

(** One form per signature.  A recovery accepts [s] only in the lower
    half and [v] only 27 or 28, so of a signature and its twin [N - s], which
    verify alike on the curve, at most one is accepted, whatever its [r] and
    [v]; and the refusal does not depend on the message or the curve. *)
Theorem no_malleability_twin recover_address_from_prehash digest digest' r r' s v v' a :
  is_word r -> is_word r' -> 0 <= s <= SECP256K1_N ->
  recover_rsv recover_address_from_prehash digest (rsv r s v) = Ok a ->
  s <= HALF_N /\ (v = 27 \/ v = 28)
  /\ recover_rsv recover_address_from_prehash digest' (rsv r' (SECP256K1_N - s) v')
     = Err (SignerRecoveryFailed HighS).
Proof.
  intros Hr Hr' Hs. assert (HN : SECP256K1_N < 256 ^ 32) by by vm_compute.
  assert (Hw : is_word s) by (unfold is_word; lia).
  rewrite (recover_rsv_eq recover_address_from_prehash digest) by done.
  destruct (s <=? HALF_N) eqn:E; simpl; [|done]. zbool.
  destruct (negb (v =? 27) && negb (v =? 28)) eqn:Ev; [done|]. intros _.
  split_and!; [done| |].
  - apply andb_false_iff in Ev as [Ev|Ev]; apply negb_false_iff in Ev; zbool; auto.
  - rewrite recover_rsv_eq; [|done|unfold is_word; lia].
    replace (SECP256K1_N - s <=? HALF_N) with false; [done|]. symmetry. apply Z.leb_gt.
    unfold SECP256K1_N. lia.
Qed.

(** A signer for the witnesses. *)
Definition toy_address (k : bool) : Z := if k then 1 else 2.
Definition toy_sign (k : bool) (digest : Z) : option Signature :=
  Some (mkSignature (toy_address k) 3 true).
Definition toy_normalize (sig : Signature) : option Signature := None.
Definition toy_as_bytes (sig : Signature) : list Z :=
  rsv (sig_r sig) (sig_s sig) (if y_parity sig then 28 else 27).
Definition toy_recover (sig : Signature) (digest : Z) : option Z := Some (sig_r sig).

Lemma toy_laws : Secp256k1Laws toy_sign toy_normalize toy_as_bytes toy_recover toy_address.
Proof.
  split; [by intros k d sig [= <-]| |done].
  intros k d sig [= <-]. simpl. split; [by destruct k|by vm_compute].
Qed.

Lemma sign_recover_roundtrip_witness :
  exists s, build_signed_device_auth toy_hash (fun _ => 7) toy_sign toy_normalize toy_as_bytes true
      (mkDeviceAuthFields AddDevice 1 2 3 1) 9 84532 = Ok s
    /\ recover_device_auth_signer toy_hash (fun _ => 7) toy_recover s 9 84532 = Ok 1.
Proof.
  eexists. split; [reflexivity|].
  exact (proj2 (proj1 (proj2 (proj2 (sign_recover_roundtrip toy_hash (fun _ => 7) toy_sign toy_normalize
    toy_as_bytes toy_recover toy_address true (mkRevisionFieldsV1 1 2 3 4 1 6) []
    (mkDeviceAuthFields AddDevice 1 2 3 1) (mkApproveFieldsV1 1 2 3 4 1)
    (mkApproveFieldsV2 1 2 3 4 5 1) (Ok 9) Dev 9 84532 toy_laws))) _ eq_refl)).
Defined.

Lemma no_malleability_twin_witness :
  recover_rsv toy_recover 5 (rsv 1 3 27) = Ok 1
  /\ recover_rsv toy_recover 5 (rsv 1 (SECP256K1_N - 3) 28) = Err (SignerRecoveryFailed HighS).
Proof.
  split; [reflexivity|].
  refine (proj2 (proj2 (no_malleability_twin toy_recover 5 5 1 1 3 27 28 1 _ _ _ _)));
    [by vm_compute|by vm_compute|by vm_compute|reflexivity].
Defined.
