(* ===== verification/ChainSubmit.v ===== *)
(** * Submitting transactions

    crates/pangolin-chain/src/chain_submit.rs: the three submit paths of the v1
    transport (revision publish, redemption, plain transfer), each a broadcast
    loop with its retry taxonomy followed by the wait for one receipt and its
    cross-checks.  A node is whatever answers the calls of [NodeCall]; nothing
    is assumed of it.  The reads of the deployment file, the ABI encoder and
    the event decoder are third-party or I/O: calldata and decoded logs are
    values, the deployed address is an argument.  The balance gate in front of a
    publish is that of balance_check.rs. *)

From Stdlib Require Import Ascii String.
From S2P Require Import Prelude Bytes Effects TypedData.
Open Scope Z_scope.

(** ** Constants *)

Definition MAX_FEE_PER_GAS_CAP_WEI : Z := 50000000000.
Definition PRIORITY_FEE_DEFAULT_WEI : Z := 1000000000.
Definition PUBLISH_REVISION_MAX_RETRIES : Z := 3.
Definition PUBLISH_REVISION_BACKOFF_MS : list Z := [250; 1000; 4000].
Definition GAS_ESTIMATE_NUMER : Z := 12.
Definition GAS_ESTIMATE_DENOM : Z := 10.

(** ** Classifying the messages of a node *)

Definition to_ascii_lowercase_char (c : ascii) : ascii :=
  let n := N_of_ascii c in
  if (N.leb 65 n && N.leb n 90)%bool then ascii_of_N (n + 32) else c.

Fixpoint to_ascii_lowercase (s : string) : string :=
  match s with
  | EmptyString => EmptyString
  | String c r => String (to_ascii_lowercase_char c) (to_ascii_lowercase r)
  end.

Fixpoint contains (s sub : string) : bool :=
  String.prefix sub s || match s with EmptyString => false | String _ r => contains r sub end.

Definition contains_any (s : string) (subs : list string) : bool := existsb (contains s) subs.

Definition is_nonce_collision (msg : string) : bool :=
  contains_any (to_ascii_lowercase msg)
    ["nonce too low"; "nonce already used"; "already known"; "replacement underpriced";
     "replacement transaction underpriced"]%string.

Definition is_transient_rpc_error (msg : string) : bool :=
  contains_any (to_ascii_lowercase msg)
    ["timeout"; "timed out"; "connection reset"; "connection refused"; "connection closed";
     "temporarily unavailable"; "502 "; "503 "; "504 "; "bad gateway"; "service unavailable";
     "gateway timeout"]%string.

Definition is_insufficient_funds (msg : string) : bool :=
  contains_any (to_ascii_lowercase msg)
    ["insufficient funds"; "insufficient balance"; "not enough funds"]%string.

Definition decode_reason (knowns : list string) (msg : string) : option string :=
  let lower := to_ascii_lowercase msg in
  if negb (contains_any lower ["revert"; "execution reverted"]%string) then None
  else match List.find (contains msg) knowns with
       | Some known => Some known
       | None => if contains_any lower ["out of gas"; "outofgas"]%string
                 then Some "OutOfGas"%string else Some "unknown revert"%string
       end.

Definition decode_revert_reason_from_msg : string -> option string :=
  decode_reason ["ErrInvalidSignature"; "ErrSignerNotRegistered";
                 "ErrUnsupportedSchemaVersion"]%string.

Definition decode_redemption_revert_reason_from_msg : string -> option string :=
  decode_reason ["ErrInvalidSignature"; "ErrUnauthorizedSigner"; "ErrInsufficientBalance";
                 "ErrNonceTooLow"; "ErrUnsupportedSchemaVersion"; "ErrAttestationExpired";
                 "ErrZeroAuthority"]%string.

(** ** Data *)

(** The calldata of a transaction, before ABI encoding. *)
Inductive Calldata : Type :=
| NoInput
| RedeemCall (userId amount attestationNonce schemaVersion expiresAt : Z) (signature : list Z)
| PublishRevisionCall (vaultId accountId parentRevision deviceId schemaVersion : Z)
    (encPayload signature : list Z).

#[export] Instance Calldata_eq_dec : EqDecision Calldata.
Proof. solve_decision. Defined.

(** [TransactionRequest]. *)
Record Tx : Type := mkTx {
  tx_from : Z;
  tx_to : Z;
  tx_nonce : Z;
  tx_input : Calldata;
  tx_value : Z;
  max_fee_per_gas : Z;
  max_priority_fee_per_gas : Z;
  tx_chain_id : Z;
  tx_gas_limit : option Z
}.

#[export] Instance Tx_eq_dec : EqDecision Tx.
Proof. solve_decision. Defined.

Definition with_gas_limit (g : Z) (t : Tx) : Tx :=
  mkTx (tx_from t) (tx_to t) (tx_nonce t) (tx_input t) (tx_value t) (max_fee_per_gas t)
    (max_priority_fee_per_gas t) (tx_chain_id t) (Some g).

(** The events of the two contracts, decoded, and a log of a receipt: its
    emitter, its first topic and what the decoder makes of it. *)
Record Redeemed : Type := mkRedeemed {
  ev_user_id : Z;
  ev_amount : Z;
  ev_new_balance : Z;
  ev_nonce : Z
}.

Record RevisionPublished : Type := mkRevisionPublished {
  ev_sequence : Z;
  ev_signer : Z
}.

Inductive Topic : Type := RedeemedTopic | RevisionPublishedTopic | OtherTopic.

#[export] Instance Topic_eq_dec : EqDecision Topic.
Proof. solve_decision. Defined.

Record Log : Type := mkLog {
  log_address : Z;
  first_topic : option Topic;
  decode_redeemed : option Redeemed;
  decode_revision_published : option RevisionPublished;
  log_index : option Z
}.

Record TransactionReceipt : Type := mkTransactionReceipt {
  receipt_status : bool;
  receipt_block_number : option Z;
  receipt_block_hash : option Z;
  receipt_to : option Z;
  receipt_logs : list Log
}.

(** ** Calls on the node *)

Inductive NodeCall : Type :=
| Connect
| GetChainId
| GetTransactionCount (address : Z)
| GetFeeHistory
| GetGasPrice
| EstimateGas (tx : Tx)
| SendTransaction (tx : Tx)
| GetReceipt (tx_hash : Z)
| GetBalance (address : Z)
| Sleep (ms : Z).

(** A failed call answers with its message. *)
Definition Answer (q : NodeCall) : Type :=
  match q with
  | Connect => result string unit
  | GetFeeHistory => result string (option Z)
  | GetReceipt _ => result string TransactionReceipt
  | Sleep _ => unit
  | _ => result string Z
  end.

Definition nprog (A : Type) : Type := eprog Answer ChainError A.

(** [fetch_base_fee]; [map_rpc_err] is [Rpc]. *)
Definition fetch_base_fee : nprog Z :=
  hist ← (Do GetFeeHistory (fun r => Ret (map_err Rpc r)) : nprog (option Z));
  match hist with
  | Some b =>
      if negb (b =? 0) then mret b else Do GetGasPrice (fun r => Ret (map_err Rpc r))
  | None => Do GetGasPrice (fun r => Ret (map_err Rpc r))
  end.

(** [base_fee.checked_mul(2).and_then(|v| v.checked_add(PRIORITY))] on [u128]. *)
Definition max_fee_of (base_fee : Z) : option Z :=
  let twice := base_fee * 2 in
  if U128_MAX <? twice then None
  else if U128_MAX <? twice + PRIORITY_FEE_DEFAULT_WEI then None
  else Some (twice + PRIORITY_FEE_DEFAULT_WEI).

Definition backoff_ms (attempts : Z) : Z :=
  nth (Z.to_nat (Z.min (saturating_sub attempts 1) 2)) PUBLISH_REVISION_BACKOFF_MS 0.

Definition gas_limit_of (est : Z) : Z := 
  Z.min U64_MAX (est * GAS_ESTIMATE_NUMER) / GAS_ESTIMATE_DENOM.

(** ** The broadcast loop

    The three copies of the loop in the source differ in the transaction they
    build ([build], from the nonce and the fee) and in how a failed gas
    estimate is recognised as a revert ([reverted]).  [remaining] is
    [PUBLISH_REVISION_MAX_RETRIES - attempts], so [attempts <
    PUBLISH_REVISION_MAX_RETRIES] is [remaining <> 0]. *)
Section broadcast.
Context (from : Z) (build : Z -> Z -> Tx) (reverted : string -> option string).

(** The last arm of every error: wait and go round again, or fail. *)
Definition transient_or_fail (attempts : Z) (again : option (nprog Z)) (msg : string) : nprog Z :=
  match again with
  | Some next =>
      if is_transient_rpc_error msg then Do (Sleep (backoff_ms attempts)) (fun _ => next)
      else Ret (Err (RpcTransient msg attempts))
  | None => Ret (Err (RpcTransient msg attempts))
  end.

Definition send_failed (attempts : Z) (again : option (nprog Z)) (msg : string) : nprog Z :=
  if is_nonce_collision msg then
    match again with Some next => next | None => Ret (Err (NonceUnresolvable attempts)) end
  else if is_insufficient_funds msg then Ret (Err (InsufficientFunds msg))
  else transient_or_fail attempts again msg.

Definition estimate_failed (attempts : Z) (again : option (nprog Z)) (msg : string) : nprog Z :=
  match reverted msg with
  | Some reason => Ret (Err (RevertedPreBroadcast reason))
  | None =>
      if is_insufficient_funds msg then Ret (Err (InsufficientFunds msg))
      else transient_or_fail attempts again msg
  end.

Definition broadcast_attempt (attempts : Z) (again : option (nprog Z)) : nprog Z :=
  Do (GetTransactionCount from) (fun r =>
    match r with
    | Err msg => transient_or_fail attempts again msg
    | Ok nonce =>
        base_fee ← fetch_base_fee;
        match max_fee_of base_fee with
        | None => Ret (Err (Rpc "base fee arithmetic overflow"))
        | Some max_fee =>
            if MAX_FEE_PER_GAS_CAP_WEI <? max_fee then
              Ret (Err (GasCapExceeded (default U64_MAX (u64_try_from (max_fee / 1000000000)))
                          (default U64_MAX (u64_try_from (MAX_FEE_PER_GAS_CAP_WEI / 1000000000)))))
            else
              let tx := build nonce max_fee in
              Do (EstimateGas tx) (fun r =>
                match r with
                | Err msg => estimate_failed attempts again msg
                | Ok est =>
                    let tx := with_gas_limit (gas_limit_of est) tx in
                    Do (SendTransaction tx) (fun r =>
                      match r with
                      | Ok tx_hash => Ret (Ok tx_hash)
                      | Err msg => send_failed attempts again msg
                      end)
                end)
        end
    end).

Fixpoint broadcast_loop (remaining : nat) : nprog Z :=
  broadcast_attempt (PUBLISH_REVISION_MAX_RETRIES - Z.of_nat remaining)
    match remaining with O => None | S n => Some (broadcast_loop n) end.

(** The loop starts with [attempts = 1]. *)
Definition broadcast : nprog Z :=
  broadcast_loop (Z.to_nat (PUBLISH_REVISION_MAX_RETRIES - 1)).
End broadcast.

(** [pending.with_timeout(..).get_receipt()]. *)
Definition await_receipt (tx_hash : Z) : nprog TransactionReceipt :=
  Do (GetReceipt tx_hash) (fun r => Ret (map_err Rpc r)).

(** [build_provider_for_signer] and [resolve_envelope_chain_id]. *)
Definition build_provider : nprog unit := Do Connect (fun r => Ret (map_err Rpc r)).

Definition resolve_envelope_chain_id (env : ChainEnv) : nprog Z :=
  observed ← (Do GetChainId (fun r => Ret (map_err Rpc r)) : nprog Z);
  match chain_id env with
  | Some expected =>
      if bool_decide (observed = expected) then mret expected
      else Ret (Err (ChainIdMismatch expected observed))
  | None => mret observed
  end.

(** ** Receipts *)

Definition require {A} (o : option A) (e : ChainError) : result ChainError A := ok_or o e.

(** The first log of [topic] emitted by the contract. *)
Definition find_log (contract : Z) (topic : Topic) (logs : list Log) : option Log :=
  List.find (fun l => bool_decide (log_address l = contract)
                      && bool_decide (first_topic l = Some topic)) logs.

Record RedemptionAnchorV1 : Type := mkRedemptionAnchorV1 {
  ra_tx_hash : Z;
  ra_block_number : Z;
  ra_block_hash : Z;
  ra_log_index : Z;
  ra_new_balance : Z;
  ra_nonce : Z
}.

Definition ensure (b : bool) (e : ChainError) : result ChainError unit :=
  if b then Ok tt else Err e.

Definition process_redemption_receipt (receipt : TransactionReceipt) (contract tx_hash : Z)
    (s : SignedRedemptionV1) : result ChainError RedemptionAnchorV1 :=
  ensure (receipt_status receipt) (RevertedOnChain tx_hash) ≫= fun _ =>
  block_number ← require (receipt_block_number receipt) (Decode MissingBlockNumber);
  block_hash ← require (receipt_block_hash receipt) (Decode MissingBlockHash);
  log ← require (find_log contract RedeemedTopic (receipt_logs receipt)) (MissingEvent tx_hash);
  decoded ← require (decode_redeemed log) (Decode BadLog);
  let fields := redemption_fields s in
  ensure (bool_decide (ev_user_id decoded = user_id fields)) (Decode UserIdMismatch) ≫= fun _ =>
  ensure (bool_decide (ev_amount decoded = amount fields)) (Decode AmountMismatch) ≫= fun _ =>
  ensure (bool_decide (ev_nonce decoded = nonce fields)) (Decode NonceMismatch) ≫= fun _ =>
  index ← require (log_index log) (Decode MissingLogIndex);
  Ok (mkRedemptionAnchorV1 tx_hash block_number block_hash index (ev_new_balance decoded)
        (ev_nonce decoded)).

Record EthTransferAnchorV1 : Type := mkEthTransferAnchorV1 {
  ea_tx_hash : Z;
  ea_block_number : Z;
  ea_block_hash : Z;
  ea_value_wei : Z
}.

Definition process_eth_transfer_receipt (receipt : TransactionReceipt)
    (tx_hash expected_to expected_value : Z) : result ChainError EthTransferAnchorV1 :=
  ensure (receipt_status receipt) (RevertedOnChain tx_hash) ≫= fun _ =>
  block_number ← require (receipt_block_number receipt) (Decode MissingBlockNumber);
  block_hash ← require (receipt_block_hash receipt) (Decode MissingBlockHash);
  ensure (bool_decide (receipt_to receipt = Some expected_to))
    (ReceiptMismatch expected_to (default 0 (receipt_to receipt))) ≫= fun _ =>
  Ok (mkEthTransferAnchorV1 tx_hash block_number block_hash expected_value).

Record ChainAnchorV1 : Type := mkChainAnchorV1 {
  ca_tx_hash : Z;
  ca_block_number : Z;
  ca_block_hash : Z;
  ca_log_index : Z;
  ca_sequence : Z;
  ca_signer : Z
}.

Definition process_receipt (receipt : TransactionReceipt) (wallet contract tx_hash : Z) :
    result ChainError ChainAnchorV1 :=
  ensure (receipt_status receipt) (RevertedOnChain tx_hash) ≫= fun _ =>
  block_number ← require (receipt_block_number receipt) (Decode MissingBlockNumber);
  block_hash ← require (receipt_block_hash receipt) (Decode MissingBlockHash);
  log ← require (find_log contract RevisionPublishedTopic (receipt_logs receipt))
          (MissingEvent tx_hash);
  decoded ← require (decode_revision_published log) (Decode BadLog);
  ensure (bool_decide (ev_signer decoded = wallet)) (ReceiptMismatch wallet (ev_signer decoded))
    ≫= fun _ =>
  index ← require (log_index log) (Decode MissingLogIndex);
  Ok (mkChainAnchorV1 tx_hash block_number block_hash index (ev_sequence decoded)
        (ev_signer decoded)).

(** ** The three submit paths *)

Definition eprog_lift {A} (r : result ChainError A) : nprog A := Ret r.

Definition redemption_tx (signer contract : Z) (s : SignedRedemptionV1) (cid nonce' fee : Z) : Tx :=
  let f := redemption_fields s in
  mkTx signer contract nonce'
    (RedeemCall (user_id f) (amount f) (nonce f) (schema_version f) (expires_at f)
       (redemption_signature s))
    0 fee PRIORITY_FEE_DEFAULT_WEI cid None.

Definition broadcast_redemption_with_retries (signer contract : Z) (s : SignedRedemptionV1)
    (cid : Z) : nprog Z :=
  broadcast signer (redemption_tx signer contract s cid) decode_redemption_revert_reason_from_msg.

Definition submit_redemption_v1_with_provider (signer contract : Z) (s : SignedRedemptionV1)
    (cid : Z) : nprog RedemptionAnchorV1 :=
  tx_hash ← broadcast_redemption_with_retries signer contract s cid;
  receipt ← await_receipt tx_hash;
  eprog_lift (process_redemption_receipt receipt contract tx_hash s).

Definition submit_redemption_v1 (deployed : result ChainError Z) (signer : Z)
    (s : SignedRedemptionV1) (env : ChainEnv) : nprog RedemptionAnchorV1 :=
  contract ← eprog_lift
    (checked_address deployed env EXPECTED_ENTITLEMENT_REGISTRY_ADDRESS_BASE_SEPOLIA);
  build_provider ≫= fun _ =>
  cid ← resolve_envelope_chain_id env;
  submit_redemption_v1_with_provider signer contract s cid.

Definition eth_transfer_tx (signer to value cid nonce' fee : Z) : Tx :=
  mkTx signer to nonce' NoInput value fee PRIORITY_FEE_DEFAULT_WEI cid None.

Definition eth_transfer_reverted (msg : string) : option string :=
  if contains (to_ascii_lowercase msg) "revert"
  then Some "eth_transfer estimate reverted"%string else None.

Definition broadcast_eth_transfer_with_retries (signer to value cid : Z) : nprog Z :=
  broadcast signer (eth_transfer_tx signer to value cid) eth_transfer_reverted.

Definition submit_eth_transfer_v1_with_provider (signer to value cid : Z) :
    nprog EthTransferAnchorV1 :=
  tx_hash ← broadcast_eth_transfer_with_retries signer to value cid;
  receipt ← await_receipt tx_hash;
  eprog_lift (process_eth_transfer_receipt receipt tx_hash to value).

Definition submit_eth_transfer_v1 (signer to value : Z) (env : ChainEnv) :
    nprog EthTransferAnchorV1 :=
  build_provider ≫= fun _ =>
  cid ← resolve_envelope_chain_id env;
  submit_eth_transfer_v1_with_provider signer to value cid.

Definition revision_tx (wallet contract : Z) (s : SignedRevisionV1) (cid nonce' fee : Z) : Tx :=
  let f := revision_fields s in
  mkTx wallet contract nonce'
    (PublishRevisionCall (rf_vault_id f) (rf_account_id f) (rf_parent_revision f) (rf_device_id f)
       (rf_schema_version f) (revision_enc_payload s) (revision_signature s))
    0 fee PRIORITY_FEE_DEFAULT_WEI cid None.

Definition broadcast_with_retries (wallet contract : Z) (s : SignedRevisionV1) (cid : Z) : nprog Z :=
  broadcast wallet (revision_tx wallet contract s cid) decode_revert_reason_from_msg.

Definition publish_revision_v1_with_provider (wallet contract : Z) (s : SignedRevisionV1)
    (cid : Z) : nprog ChainAnchorV1 :=
  tx_hash ← broadcast_with_retries wallet contract s cid;
  receipt ← await_receipt tx_hash;
  eprog_lift (process_receipt receipt wallet contract tx_hash).

(** ** The balance gate (balance_check.rs) *)

Definition EXPECTED_REVISION_GAS : Z := 500000.
Definition MIN_BUFFER_REVISIONS : Z := 3.
Definition U256_MAX : Z := 2 ^ 256 - 1.
Definition saturating_mul (hi a b : Z) : Z := Z.min hi (a * b).

(** The variants [compute_balance_state] returns. *)
Inductive GasBalanceState : Type :=
| Sufficient (balance_wei estimate_wei : Z)
| RequiresActiveAccount (balance_wei estimate_wei : Z).

Definition compute_balance_state (balance_wei estimate_wei : Z) : GasBalanceState :=
  let balance_u128 := Z.min balance_wei U128_MAX in
  let estimate_u128 := Z.min estimate_wei U128_MAX in
  if estimate_wei <=? balance_wei then Sufficient balance_u128 estimate_u128
  else RequiresActiveAccount balance_u128 estimate_u128.

(** The chain-id cross-check of both queries. *)
Definition balance_chain_check (env : ChainEnv) : nprog unit :=
  match chain_id env with
  | Some expected =>
      observed ← (Do GetChainId (fun r => Ret (map_err (fun _ => BalanceQueryFailed) r)) : nprog Z);
      if bool_decide (observed = expected) then mret tt
      else Ret (Err (ChainIdMismatch expected observed))
  | None => mret tt
  end.

Definition query_evm_balance_with_provider (address : Z) (env : ChainEnv) : nprog Z :=
  balance_chain_check env ≫= fun _ =>
  Do (GetBalance address) (fun r => Ret (map_err (fun _ => BalanceQueryFailed) r)).

Definition fetch_base_fee_with_fallback (env : ChainEnv) : nprog Z :=
  balance_chain_check env ≫= fun _ =>
  hist ← (Do GetFeeHistory (fun r => Ret (map_err (fun _ => BalanceQueryFailed) r))
            : nprog (option Z));
  match hist with
  | Some b => if negb (b =? 0) then mret b else Ret (Err BalanceQueryFailed)
  | None => Ret (Err BalanceQueryFailed)
  end.

Definition publish_cost_of (base_fee : result ChainError Z) : Z :=
  let max_fee := match base_fee with
    | Ok b => Z.min (saturating_add U128_MAX (saturating_mul U128_MAX b 2) PRIORITY_FEE_DEFAULT_WEI)
                MAX_FEE_PER_GAS_CAP_WEI
    | Err _ => MAX_FEE_PER_GAS_CAP_WEI
    end in
  saturating_mul U256_MAX (saturating_mul U256_MAX max_fee EXPECTED_REVISION_GAS)
    MIN_BUFFER_REVISIONS.

Definition estimate_next_publish_cost_with_provider (env : ChainEnv) : nprog Z :=
  prog_bind (fun base_fee => Ret (Ok (publish_cost_of base_fee))) (fetch_base_fee_with_fallback env).

Definition pre_publish_balance_gate (wallet : Z) (env : ChainEnv) : nprog unit :=
  balance ← query_evm_balance_with_provider wallet env;
  estimate ← estimate_next_publish_cost_with_provider env;
  match compute_balance_state balance estimate with
  | RequiresActiveAccount b e => Ret (Err (PrePublishBalanceInsufficient b e))
  | Sufficient _ _ => mret tt
  end.

Definition publish_revision_v1_with_config (deployed : result ChainError Z) (wallet : Z)
    (s : SignedRevisionV1) (env : ChainEnv) (pre_publish_balance_check_enabled : bool) :
    nprog ChainAnchorV1 :=
  contract ← eprog_lift (checked_address deployed env EXPECTED_DEPLOYED_ADDRESS_BASE_SEPOLIA);
  build_provider ≫= fun _ =>
  cid ← resolve_envelope_chain_id env;
  (if pre_publish_balance_check_enabled then pre_publish_balance_gate wallet env else mret tt)
    ≫= fun _ =>
  publish_revision_v1_with_provider wallet contract s cid.

(** ** What a run has handed to the node

    The transactions passed to [send_transaction], and those among them it
    answered with a hash. *)
Definition track (c : call Answer) (s : list Tx * list Tx) : list Tx * list Tx :=
  let '(existT e r) := c in
  match e return Answer e -> list Tx * list Tx with
  | SendTransaction tx => fun r => (s.1 ++ [tx], if is_ok r then s.2 ++ [tx] else s.2)
  | _ => fun _ => s
  end r.

Definition tracked (evs : list (call Answer)) : list Tx * list Tx :=
  foldl (fun s c => track c s) ([], []) evs.
Definition sent (evs : list (call Answer)) : list Tx := (tracked evs).1.
Definition accepted (evs : list (call Answer)) : list Tx := (tracked evs).2.

(** At any point of any run of [p], whatever the node answers: every
    transaction handed over satisfies [P], there are at most three, and at most
    one was accepted. *)
Definition bounded_sends {A} (P : Tx -> Prop) (p : nprog A) : Prop :=
  forall evs p', reaches p evs p' ->
    Forall P (sent evs)
    /\ (Z.of_nat (length (sent evs)) <= PUBLISH_REVISION_MAX_RETRIES)
    /\ (length (accepted evs) <= 1)%nat.

(** *** Rules for protocols on the node

    [inert p]: the code makes quiet calls only, which a protocol ignores.  The
    rule for the loop works for any protocol: [Inv r s] holds when [r] further
    attempts are left. *)
Definition quiet_call (e : NodeCall) : Prop :=
  match e with SendTransaction _ | GetReceipt _ => False | _ => True end.

Class QuietProtocol {S : Type} (pre : NodeCall -> S -> Prop) (upd : call Answer -> S -> S) : Prop := {
  quiet_pre : forall e s, quiet_call e -> pre e s;
  quiet_upd : forall e r s, quiet_call e -> upd (existT e r) s = s
}.

Section rules.
Context {S : Type} (pre : NodeCall -> S -> Prop) (upd : call Answer -> S -> S).
Context `{!QuietProtocol pre upd}.

Definition inert {A} (p : nprog A) : Prop :=
  forall (Q : result ChainError A -> S -> Prop) s, (forall r, Q r s) -> wp pre upd p Q s.

Lemma inert_ret {A} (r : result ChainError A) : inert (Ret r).
Proof using. intros Q s HQ. apply HQ. Qed.

Lemma inert_call {A} e (k : Answer e -> nprog A) :
  quiet_call e -> (forall r, inert (k r)) -> inert (Do e k).
Proof using QuietProtocol0.
  intros He Hk Q s HQ. split; [by apply quiet_pre|]. intros r. rewrite quiet_upd by done. by apply Hk.
Qed.

Lemma inert_bind {A B} (p : nprog A) (f : A -> nprog B) :
  inert p -> (forall a, inert (f a)) -> inert (p ≫= f).
Proof using.
  intros Hp Hf Q s HQ. apply wp_ebind, Hp. intros [a|e]; [|apply HQ]. by apply Hf.
Qed.

Lemma fetch_base_fee_inert : inert fetch_base_fee.
Proof using QuietProtocol0.
  apply inert_bind; [apply inert_call; [done|]; intros; apply inert_ret|].
  intros [b|]; [destruct (negb (b =? 0)); [apply inert_ret|]|];
    (apply inert_call; [done|]; intros; apply inert_ret).
Qed.

Lemma build_provider_inert : inert build_provider.
Proof using QuietProtocol0. apply inert_call; [done|]. intros. apply inert_ret. Qed.

Lemma balance_chain_check_inert env : inert (balance_chain_check env).
Proof using QuietProtocol0.
  unfold balance_chain_check. destruct (chain_id env); [|apply inert_ret].
  apply inert_bind; [apply inert_call; [done|]; intros; apply inert_ret|].
  intros o. case_bool_decide; apply inert_ret.
Qed.

Lemma fetch_base_fee_with_fallback_inert env : inert (fetch_base_fee_with_fallback env).
Proof using QuietProtocol0.
  apply inert_bind; [apply balance_chain_check_inert|]. intros _.
  apply inert_bind; [apply inert_call; [done|]; intros; apply inert_ret|].
  intros [b|]; [destruct (negb (b =? 0))|]; apply inert_ret.
Qed.

Lemma pre_publish_balance_gate_inert wallet env : inert (pre_publish_balance_gate wallet env).
Proof using QuietProtocol0.
  apply inert_bind.
  - apply inert_bind; [apply balance_chain_check_inert|].
    intros _. apply inert_call; [done|]; intros; apply inert_ret.
  - intros b. apply inert_bind.
    + intros Q s HQ. apply wp_bind, fetch_base_fee_with_fallback_inert. intros r. apply HQ.
    + intros e. destruct (compute_balance_state b e); apply inert_ret.
Qed.

Lemma resolve_envelope_chain_id_wp env (Q : result ChainError Z -> S -> Prop) s :
  (forall cid, match chain_id env with Some pinned => cid = pinned | None => True end -> Q (Ok cid) s) ->
  (forall e, Q (Err e) s) ->
  wp pre upd (resolve_envelope_chain_id env) Q s.
Proof using QuietProtocol0.
  intros HO HE. split; [by apply quiet_pre|]. intros r. rewrite quiet_upd by done.
  destruct r as [o|m]; simpl; [|apply HE].
  destruct (chain_id env); simpl; [|by apply HO]. case_bool_decide; simpl; auto.
Qed.

Section loop.
Context (from : Z) (build : Z -> Z -> Tx) (reverted : string -> option string).
Context (Inv : nat -> S -> Prop) (Q : result ChainError Z -> S -> Prop).
Hypothesis step : forall r s n fee g, Inv r s -> fee <= MAX_FEE_PER_GAS_CAP_WEI ->
  let tx := with_gas_limit g (build n fee) in
  pre (SendTransaction tx) s
  /\ (forall h, Q (Ok h) (upd (existT (SendTransaction tx) (Ok h : Answer (SendTransaction tx))) s))
  /\ (forall m, let s' := upd (existT (SendTransaction tx) (Err m : Answer (SendTransaction tx))) s in
        (forall e, Q (Err e) s') /\ (forall r', r = Datatypes.S r' -> Inv r' s')).
Hypothesis fails : forall r s e, Inv r s -> Q (Err e) s.
Hypothesis weaken : forall r s, Inv (Datatypes.S r) s -> Inv r s.

Lemma transient_or_fail_wp attempts again msg s :
  (forall e, Q (Err e) s) ->
  match again with Some next => wp pre upd next Q s | None => True end ->
  wp pre upd (transient_or_fail attempts again msg) Q s.
Proof using QuietProtocol0.
  intros HE Hn. unfold transient_or_fail. destruct again as [next|]; [|apply HE].
  destruct (is_transient_rpc_error msg); [|apply HE].
  split; [by apply quiet_pre|]. intros r. by rewrite quiet_upd by done.
Qed.

Lemma broadcast_attempt_wp r attempts again s :
  Inv r s ->
  match again with
  | Some next => exists r', r = Datatypes.S r' /\ forall s', Inv r' s' -> wp pre upd next Q s'
  | None => True
  end ->
  wp pre upd (broadcast_attempt from build reverted attempts again) Q s.
Proof using QuietProtocol0 step fails weaken.
  intros Hi Ha.
  assert (Hsame : match again with Some next => wp pre upd next Q s | None => True end).
  { destruct again as [next|]; [|done]. destruct Ha as (r' & -> & Ha). by apply Ha, weaken. }
  assert (HE : forall e, Q (Err e) s) by (intros e; by apply (fails r)).
  split; [by apply quiet_pre|]. intros rn. rewrite quiet_upd by done.
  destruct rn as [nonce'|msg]; [|by apply transient_or_fail_wp].
  apply wp_ebind, fetch_base_fee_inert. intros [fee|e]; [|apply HE].
  destruct (max_fee_of fee) as [max_fee|]; [|apply HE].
  destruct (MAX_FEE_PER_GAS_CAP_WEI <? max_fee) eqn:Ecap; [apply HE|]. apply Z.ltb_ge in Ecap.
  split; [by apply quiet_pre|]. intros re. rewrite quiet_upd by done. destruct re as [est|msg].
  - destruct (step r s nonce' max_fee (gas_limit_of est) Hi Ecap) as (Hp & HO & Hf).
    split; [exact Hp|]. intros [h|msg]; [apply HO|]. destruct (Hf msg) as [HE' Hn'].
    set (s1 := upd _ s) in *.
    assert (Hnext : match again with Some next => wp pre upd next Q s1 | None => True end).
    { destruct again as [next|]; [|exact I]. destruct Ha as (r' & -> & Ha). apply Ha, Hn'. done. }
    unfold send_failed. destruct (is_nonce_collision msg).
    + destruct again as [next|]; [exact Hnext|apply HE'].
    + destruct (is_insufficient_funds msg); [apply HE'|]. by apply transient_or_fail_wp.
  - unfold estimate_failed. destruct (reverted msg); [apply HE|].
    destruct (is_insufficient_funds msg); [apply HE|]. by apply transient_or_fail_wp.
Qed.

Lemma broadcast_loop_wp r s : Inv r s -> wp pre upd (broadcast_loop from build reverted r) Q s.
Proof using QuietProtocol0 step fails weaken.
  revert s. induction r as [|r IH]; intros s Hi; cbn [broadcast_loop];
    apply (broadcast_attempt_wp _ _ _ _ Hi); eauto.
Qed.
End loop.

(** The two funder paths: the loop, then one receipt. *)
Definition receipt_rule {A} (Qb : result ChainError Z -> S -> Prop) (Q : result ChainError A -> S -> Prop)
    (process : TransactionReceipt -> Z -> result ChainError A) : Prop :=
  (forall e s, Qb (Err e) s -> Q (Err e) s)
  /\ forall h s, Qb (Ok h) s -> pre (GetReceipt h) s
     /\ (forall m, Q (Err (Rpc m)) (upd (existT (GetReceipt h) (Err m : Answer (GetReceipt h))) s))
     /\ (forall receipt, Q (process receipt h)
           (upd (existT (GetReceipt h) (Ok receipt : Answer (GetReceipt h))) s)).

Definition loop_rule (build : Z -> Z -> Tx) (Inv : nat -> S -> Prop)
    (Q : result ChainError Z -> S -> Prop) : Prop :=
  (forall r s n fee g, Inv r s -> fee <= MAX_FEE_PER_GAS_CAP_WEI ->
    let tx := with_gas_limit g (build n fee) in
    pre (SendTransaction tx) s
    /\ (forall h, Q (Ok h) (upd (existT (SendTransaction tx) (Ok h : Answer (SendTransaction tx))) s))
    /\ (forall m, let s' := upd (existT (SendTransaction tx) (Err m : Answer (SendTransaction tx))) s in
          (forall e, Q (Err e) s') /\ (forall r', r = Datatypes.S r' -> Inv r' s')))
  /\ (forall r s e, Inv r s -> Q (Err e) s) /\ (forall r s, Inv (Datatypes.S r) s -> Inv r s).

Lemma broadcast_receipt_wp {A} from build reverted Inv Qb Q
    (process : TransactionReceipt -> Z -> result ChainError A) s :
  loop_rule build Inv Qb -> receipt_rule Qb Q process -> Inv 2%nat s ->
  wp pre upd (tx_hash ← broadcast from build reverted;
              receipt ← await_receipt tx_hash; eprog_lift (process receipt tx_hash)) Q s.
Proof using QuietProtocol0.
  intros (H1 & H2 & H3) [He Hh] Hi. apply wp_ebind. eapply wp_mono.
  { by apply (broadcast_loop_wp from build reverted Inv Qb H1 H2 H3). }
  intros [h|e] s' Hq; [|by apply He]. apply wp_ebind.
  destruct (Hh h s' Hq) as (Hp & Hm & Hr). split; [done|]. intros [receipt|m]; [apply Hr|apply Hm].
Qed.

Lemma submit_eth_transfer_wp signer to value env Inv Qb Q s :
  (forall cid, loop_rule (eth_transfer_tx signer to value cid) Inv Qb) ->
  receipt_rule Qb Q (fun r h => process_eth_transfer_receipt r h to value) ->
  Inv 2%nat s -> (forall e, Q (Err e) s) ->
  wp pre upd (submit_eth_transfer_v1 signer to value env) Q s.
Proof using QuietProtocol0.
  intros Hl Hr Hi He. apply wp_ebind, build_provider_inert. intros [[]|e]; [|apply He].
  apply wp_ebind, resolve_envelope_chain_id_wp; [|done]. intros cid _.
  by eapply broadcast_receipt_wp.
Qed.

Lemma submit_redemption_wp deployed signer sr env Inv Qb Q s :
  (forall c cid, loop_rule (redemption_tx signer c sr cid) Inv Qb) ->
  (forall c, deployed = Ok c -> receipt_rule Qb Q (fun r h => process_redemption_receipt r c h sr)) ->
  Inv 2%nat s -> (forall e, Q (Err e) s) ->
  wp pre upd (submit_redemption_v1 deployed signer sr env) Q s.
Proof using QuietProtocol0.
  intros Hl Hr Hi He. unfold submit_redemption_v1.
  destruct (checked_address deployed env _) as [c|e] eqn:Ec; [|apply He].
  apply checked_address_Ok in Ec as [-> _].
  apply (wp_ebind _ _ _ (eprog_lift (Ok c))). simpl.
  apply (wp_ebind _ _ _ build_provider), build_provider_inert. intros [[]|e]; [|apply He].
  apply wp_ebind, resolve_envelope_chain_id_wp; [|done]. intros cid _.
  by eapply broadcast_receipt_wp; [apply Hl|apply (Hr c eq_refl)|].
Qed.
End rules.

(** The protocol of [bounded_sends]: at most three sends, none after one was
    accepted. *)
Definition may_call (P : Tx -> Prop) (e : NodeCall) (s : list Tx * list Tx) : Prop :=
  match e with
  | SendTransaction tx => P tx /\ (length s.1 <= 2)%nat /\ s.2 = []
  | _ => True
  end.

#[export] Instance may_call_quiet P : QuietProtocol (may_call P) track.
Proof. split; by intros []. Qed.

Lemma broadcast_wp P from build reverted :
  (forall n fee g, fee <= MAX_FEE_PER_GAS_CAP_WEI -> P (with_gas_limit g (build n fee))) ->
  wp (may_call P) track (broadcast from build reverted) (fun _ _ => True) ([], []).
Proof.
  intros Hb. apply (broadcast_loop_wp _ _ _ _ _
    (fun r s => (length s.1 + r <= 2)%nat /\ s.2 = []) (fun _ _ => True)); try done.
  - intros r s n fee g [Hl Hs] Hfee. simpl. split; [split_and!; [auto|lia|done]|].
    split; [done|]. intros _. split; [done|]. intros r' ->. rewrite length_app. simpl.
    split; [lia|done].
  - intros r s [Hl Hs]. split; [lia|done].
Qed.

(** What every transaction of an environment must look like. *)
Definition envelope (env : ChainEnv) (tx : Tx) : Prop :=
  max_fee_per_gas tx <= MAX_FEE_PER_GAS_CAP_WEI
  /\ max_priority_fee_per_gas tx = PRIORITY_FEE_DEFAULT_WEI
  /\ is_Some (tx_gas_limit tx)
  /\ match chain_id env with Some pinned => tx_chain_id tx = pinned | None => True end.

Definition redemption_envelope (deployed : result ChainError Z) signer (s : SignedRedemptionV1) env (tx : Tx) : Prop :=
  envelope env tx /\ tx_from tx = signer /\ tx_value tx = 0
  /\ (env = BaseSepolia -> tx_to tx = EXPECTED_ENTITLEMENT_REGISTRY_ADDRESS_BASE_SEPOLIA)
  /\ deployed = Ok (tx_to tx)
  /\ tx_input tx = tx_input (redemption_tx signer (tx_to tx) s 0 0 0).

Definition transfer_envelope signer to value env (tx : Tx) : Prop :=
  envelope env tx /\ tx_from tx = signer /\ tx_value tx = value /\ tx_to tx = to
  /\ tx_input tx = NoInput.

Definition revision_envelope (deployed : result ChainError Z) wallet (s : SignedRevisionV1) env (tx : Tx) : Prop :=
  envelope env tx /\ tx_from tx = wallet /\ tx_value tx = 0
  /\ (env = BaseSepolia -> tx_to tx = EXPECTED_DEPLOYED_ADDRESS_BASE_SEPOLIA)
  /\ deployed = Ok (tx_to tx)
  /\ tx_input tx = tx_input (revision_tx wallet (tx_to tx) s 0 0 0).

Lemma lift_Ok_bind {A B} (a : A) (f : A -> nprog B) : eprog_lift (Ok a) ≫= f = f a.
Proof. done. Qed.

Lemma bounded_sends_intro {A} P (p : nprog A) :
  wp (may_call P) track p (fun _ _ => True) ([], []) -> bounded_sends P p.
Proof.
  intros Hw evs p' Hr.
  pose proof (wp_invariant (may_call P) track
    (fun s => Forall P s.1 /\ (length s.1 <= 3)%nat /\ (length s.2 <= 1)%nat)
    p p' (fun _ _ => True) ([], []) evs) as Hinv.
  destruct Hinv as (H1 & H2 & H3); [|done|exact Hw|by simpl; split_and!; [|lia|lia]|].
  - intros e r s (H1 & H2 & H3) Hp. destruct e; simpl in *; try done.
    destruct Hp as (HP & Hl & Hs). rewrite length_app, Hs. simpl. split_and!; [|lia|].
    + apply Forall_app. auto.
    + destruct (is_ok r); simpl; lia.
  - split_and!; [done| |done]. unfold PUBLISH_REVISION_MAX_RETRIES. unfold sent, tracked. lia.
Qed.

Lemma after_chain_id_wp {A} P env (f : Z -> nprog A) :
  (forall cid, match chain_id env with Some pinned => cid = pinned | None => True end ->
     wp (may_call P) track (f cid) (fun _ _ => True) ([], [])) ->
  wp (may_call P) track (resolve_envelope_chain_id env ≫= f) (fun _ _ => True) ([], []).
Proof.
  intros Hf. apply wp_ebind, resolve_envelope_chain_id_wp; [apply _|exact Hf|done].
Qed.

Lemma broadcast_then_receipt_wp {A} P from build reverted
    (f : Z -> TransactionReceipt -> result ChainError A) :
  (forall n fee g, fee <= MAX_FEE_PER_GAS_CAP_WEI -> P (with_gas_limit g (build n fee))) ->
  wp (may_call P) track
    (tx_hash ← broadcast from build reverted;
     receipt ← await_receipt tx_hash; eprog_lift (f tx_hash receipt))
    (fun _ _ => True) ([], []).
Proof.
  intros Hb. apply wp_ebind. eapply wp_mono; [by apply broadcast_wp|].
  intros [h|e] s' _; [|done]. apply wp_ebind. split; [done|]. by intros [a|e].
Qed.

(** *** How many calls a path makes *)

Lemma fetch_base_fee_within : within 2 fetch_base_fee.
Proof. intros [[b|]|e]; simpl; [destruct (negb _); [exact I|by intros ?]|by intros ?|exact I]. Qed.

Lemma broadcast_attempt_within from build reverted attempts again n :
  match again with Some next => within n next | None => True end ->
  within (6 + n) (broadcast_attempt from build reverted attempts again).
Proof.
  intros Hn.
  assert (Htf : forall msg, within (1 + n) (transient_or_fail attempts again msg)).
  { intros msg. unfold transient_or_fail. destruct again; [|done].
    destruct (is_transient_rpc_error msg); [by intros ?|done]. }
  assert (Hsf : forall msg, within (1 + n) (send_failed attempts again msg)).
  { intros msg. unfold send_failed. destruct (is_nonce_collision msg).
    - destruct again; [|done]. apply (within_mono _ n); [done|lia].
    - destruct (is_insufficient_funds msg); [done|apply Htf]. }
  intros [k|msg]; [|apply (within_mono _ _ _ (Htf msg)); lia].
  apply (within_ebind _ _ 2); [apply fetch_base_fee_within|]. intros fee.
  destruct (max_fee_of fee) as [max_fee|]; [|done]. destruct (_ <? _); [done|].
  intros [est|msg].
  - intros [h|msg]; [done|apply Hsf].
  - unfold estimate_failed. destruct (reverted msg); [done|].
    destruct (is_insufficient_funds msg); [done|]. apply (within_mono _ _ _ (Htf msg)). lia.
Qed.

Lemma broadcast_within from build reverted : within 18 (broadcast from build reverted).
Proof. do 2 apply (broadcast_attempt_within _ _ _ _ _ _).  by apply (broadcast_attempt_within _ _ _ _ _ 0). Qed.

Lemma broadcast_receipt_within {A} from build reverted (f : TransactionReceipt -> Z -> result ChainError A) :
  within 19 (tx_hash ← broadcast from build reverted;
             receipt ← await_receipt tx_hash; eprog_lift (f receipt tx_hash)).
Proof.
  apply (within_ebind _ _ 18 1); [apply broadcast_within|]. intros h. by intros [receipt|m].
Qed.

Lemma build_and_resolve_within {A} env (f : Z -> nprog A) n :
  (forall cid, within n (f cid)) ->
  within (2 + n) (build_provider ≫= fun _ => resolve_envelope_chain_id env ≫= f).
Proof.
  intros Hf [[]|e]; [|done]. intros [o|m]; [|done]. simpl.
  destruct (chain_id env); [case_bool_decide|]; simpl; by try apply Hf.
Qed.

Lemma submit_eth_transfer_within signer to v env : within 21 (submit_eth_transfer_v1 signer to v env).
Proof. apply (build_and_resolve_within env _ 19). intros cid. apply broadcast_receipt_within. Qed.

Lemma submit_redemption_within deployed signer s env :
  within 21 (submit_redemption_v1 deployed signer s env).
Proof.
  unfold submit_redemption_v1. destruct (checked_address _ _ _) as [c|e]; [|done]. rewrite lift_Ok_bind.
  apply (build_and_resolve_within env _ 19). intros cid.
  apply (broadcast_receipt_within _ _ _ (fun r h => process_redemption_receipt r c h s)).
Qed.

(** C37. What the submit paths hand to a node.  Whatever the node answers and
    wherever the run is cut off, every transaction of a redemption, a transfer
    or a publish carries the pinned chain id of a fixed environment (never the
    one the node reports), a fee under the cap, the sender, and exactly the
    calldata, recipient and value asked for, the contract being the deployed
    one and on Base Sepolia the pinned one; at most three are handed over and
    at most one of them is accepted with a hash. *)
Theorem submit_envelope deployed signer (r : SignedRedemptionV1) (v : SignedRevisionV1) to value env
    gate :
  bounded_sends (redemption_envelope deployed signer r env) (submit_redemption_v1 deployed signer r env)
  /\ bounded_sends (transfer_envelope signer to value env) (submit_eth_transfer_v1 signer to value env)
  /\ bounded_sends (revision_envelope deployed signer v env)
       (publish_revision_v1_with_config deployed signer v env gate).
Proof.
  split_and!; apply bounded_sends_intro; unfold submit_redemption_v1, submit_eth_transfer_v1,
    publish_revision_v1_with_config.
  - destruct (checked_address deployed env _) as [c|e] eqn:Ec; [|done].
    apply checked_address_Ok in Ec as [-> Hc]. rewrite lift_Ok_bind.
    apply wp_ebind, build_provider_inert; [apply _|]. intros [[]|e]; [|done].
    apply after_chain_id_wp. intros cid Hcid. apply broadcast_then_receipt_wp.
    intros n fee g Hfee. unfold redemption_envelope, envelope. simpl. by split_and!.
  - apply wp_ebind, build_provider_inert; [apply _|]. intros [[]|e]; [|done].
    apply after_chain_id_wp. intros cid Hcid. apply broadcast_then_receipt_wp.
    intros n fee g Hfee. unfold transfer_envelope, envelope. simpl. by split_and!.
  - destruct (checked_address deployed env _) as [c|e] eqn:Ec; [|done].
    apply checked_address_Ok in Ec as [-> Hc]. rewrite lift_Ok_bind.
    apply wp_ebind, build_provider_inert; [apply _|]. intros [[]|e]; [|done].
    apply after_chain_id_wp. intros cid Hcid. apply wp_ebind.
    destruct gate; [apply pre_publish_balance_gate_inert; [apply _|]; intros [[]|e]; [|done]|simpl];
      (apply broadcast_then_receipt_wp;
       intros n fee g Hfee; unfold revision_envelope, envelope; simpl; by split_and!).
Qed.

(** *** Runs of the loop, for the theorems about what a node can cause *)

Section runs.
Context (from : Z) (build : Z -> Z -> Tx) (reverted : string -> option string).
Context (n fee gas max_fee : Z).
Hypothesis Hfee : fee <> 0.
Hypothesis Hmax : max_fee_of fee = Some max_fee.
Hypothesis Hcap : max_fee <= MAX_FEE_PER_GAS_CAP_WEI.

Definition attempt_tx : Tx := with_gas_limit (gas_limit_of gas) (build n max_fee).

Definition attempt_calls (r : result string Z) : list (call Answer) :=
  [existT (GetTransactionCount from) (Ok n : Answer (GetTransactionCount from));
   existT GetFeeHistory (Ok (Some fee) : Answer GetFeeHistory);
   existT (EstimateGas (build n max_fee)) (Ok gas : Answer (EstimateGas (build n max_fee)));
   existT (SendTransaction attempt_tx) (r : Answer (SendTransaction attempt_tx))].

Lemma attempt_runs attempts again r :
  reaches (broadcast_attempt from build reverted attempts again) (attempt_calls r)
    match r with Ok h => Ret (Ok h) | Err msg => send_failed attempts again msg end.
Proof using Hfee Hmax Hcap.
  apply reaches_call. simpl.
  refine (reaches_app _ _ _ [existT GetFeeHistory _] _ _ _).
  { apply reaches_bind with (p' := Ret (Ok fee)).
    change (reaches fetch_base_fee [existT GetFeeHistory (Ok (Some fee) : Answer GetFeeHistory)]
              (Ret (Ok fee))).
    apply reaches_call. simpl. replace (fee =? 0) with false by (symmetry; by apply Z.eqb_neq).
    apply reaches_here. }
  simpl. rewrite Hmax. replace (MAX_FEE_PER_GAS_CAP_WEI <? max_fee) with false
    by (symmetry; by apply Z.ltb_ge).
  apply reaches_call, reaches_call. apply reaches_here.
Qed.
End runs.

(** A path whose first attempt is accepted gets as far as its receipt. *)
Lemma accepted_reaches {A} env from build reverted (process : TransactionReceipt -> Z -> result ChainError A)
    pinned n fee gas max_fee h :
  fee <> 0 -> max_fee_of fee = Some max_fee -> max_fee <= MAX_FEE_PER_GAS_CAP_WEI ->
  chain_id env = Some pinned ->
  reaches (build_provider ≫= fun _ => cid ← resolve_envelope_chain_id env;
           tx_hash ← broadcast from (build cid) reverted;
           receipt ← await_receipt tx_hash; eprog_lift (process receipt tx_hash))
    (existT Connect (Ok tt : Answer Connect) :: existT GetChainId (Ok pinned : Answer GetChainId)
       :: attempt_calls from (build pinned) n fee gas max_fee (Ok h))
    (receipt ← await_receipt h; eprog_lift (process receipt h)).
Proof.
  intros Hf Hm Hc Hp.
  assert (Hgo : reaches (tx_hash ← broadcast from (build pinned) reverted;
      receipt ← await_receipt tx_hash; eprog_lift (process receipt tx_hash))
    (attempt_calls from (build pinned) n fee gas max_fee (Ok h))
    (receipt ← await_receipt h; eprog_lift (process receipt h))).
  { apply reaches_bind with (p' := Ret (Ok h)).
    exact (attempt_runs from (build pinned) reverted n fee gas max_fee Hf Hm Hc 1 _ (Ok h)). }
  apply reaches_call, reaches_call. simpl. rewrite Hp. rewrite bool_decide_eq_true_2 by done.
  exact Hgo.
Qed.

(** A lost answer becomes a second transaction.  If the node answers a
    transfer with a message the loop takes for a nonce collision (as "already
    known", which says that the node has this very transaction) or for a
    transient failure (a timeout after it was accepted), the loop asks for the
    pending nonce again and sends a second transfer of the same value under
    whatever nonce it is told, and the call reports one transfer.  With the
    first one pending the two nonces differ, so both can be mined. *)
Theorem lost_answer_sends_twice signer to value env cid msg n m fee gas h receipt a max_fee :
  match chain_id env with Some pinned => cid = pinned | None => True end ->
  is_nonce_collision msg = true
    \/ is_insufficient_funds msg = false /\ is_transient_rpc_error msg = true ->
  fee <> 0 -> max_fee_of fee = Some max_fee -> max_fee <= MAX_FEE_PER_GAS_CAP_WEI ->
  process_eth_transfer_receipt receipt h to value = Ok a ->
  exists evs, reaches (submit_eth_transfer_v1 signer to value env) evs (Ret (Ok a))
    /\ sent evs =
         (fun k => with_gas_limit (gas_limit_of gas) (eth_transfer_tx signer to value cid k max_fee))
           <$> [n; m].
Proof.
  intros Hcid Hmsg Hfee Hmax Hcap Hrec.
  set (build := eth_transfer_tx signer to value cid).
  set (again := broadcast_loop signer build eth_transfer_reverted 1).
  assert (Hsf : exists evs, reaches (send_failed 1 (Some again) msg) evs again
                            /\ forall s, foldl (fun s c => track c s) s evs = s).
  { unfold send_failed, transient_or_fail. destruct (is_nonce_collision msg) eqn:En.
    - exists []. split; [apply reaches_here|done].
    - destruct Hmsg as [?|[-> ->]]; [done|]. exists [existT (Sleep (backoff_ms 1)) tt].
      split; [apply reaches_call, reaches_here|done]. }
  destruct Hsf as (sf & Hsf & Hquiet).
  set (id := existT GetChainId (Ok cid : Answer GetChainId) : call Answer).
  set (got := existT (GetReceipt h) (Ok receipt : Answer (GetReceipt h)) : call Answer).
  exists (existT Connect (Ok tt : Answer Connect) :: id ::
    (attempt_calls signer build n fee gas max_fee (Err msg) ++ sf ++
     attempt_calls signer build m fee gas max_fee (Ok h)) ++ [got]).
  split.
  - assert (Hp : reaches (submit_eth_transfer_v1_with_provider signer to value cid)
      ((attempt_calls signer build n fee gas max_fee (Err msg) ++ sf ++
        attempt_calls signer build m fee gas max_fee (Ok h)) ++ [got]) (Ret (Ok a))).
    { eapply reaches_app.
      - apply reaches_bind. eapply reaches_app; [|eapply reaches_app; [exact Hsf|]].
        + exact (attempt_runs signer build eth_transfer_reverted n fee gas max_fee Hfee Hmax Hcap 1
                   (Some again) (Err msg)).
        + exact (attempt_runs signer build eth_transfer_reverted m fee gas max_fee Hfee Hmax Hcap 2
                   _ (Ok h)).
      - simpl. apply reaches_call. simpl. rewrite Hrec. apply reaches_here. }
    apply reaches_call, reaches_call. simpl. destruct (chain_id env) as [pinned|]; [|exact Hp].
    rewrite Hcid in *. rewrite bool_decide_eq_true_2 by done. exact Hp.
  - unfold sent, tracked. simpl. rewrite !foldl_app. simpl. by rewrite Hquiet.
Qed.

Lemma lost_answer_sends_twice_witness :
  is_nonce_collision "already known" = true
  /\ exists evs, reaches (submit_eth_transfer_v1 1 2 5 BaseSepolia) evs
       (Ret (Ok (mkEthTransferAnchorV1 77 9 8 5))) /\ map tx_nonce (sent evs) = [10; 11].
Proof.
  split; [done|].
  destruct (lost_answer_sends_twice 1 2 5 BaseSepolia 84532 "already known" 10 11 1000000000 21000 77
    (mkTransactionReceipt true (Some 9) (Some 8) (Some 2) []) (mkEthTransferAnchorV1 77 9 8 5)
    3000000000) as (evs & Hr & Hs); try done; [by left|].
  exists evs. split; [done|]. by rewrite Hs.
Defined.
