(* ===== verification/RateLimit.v ===== *)
(** * The rate limiter of the funder service

    services/funder/src/rate_limit.rs: a token bucket per device address and a
    global hourly counter.  [check] is three critical sections (the bucket, the
    counter, the refund), each under its own lock, so it is a program over
    [LimiterCall] and other requests may run between them.  [Instant]s are
    nanoseconds. *)

From S2P Require Import Prelude Effects.

Definition PER_ADDRESS_BUCKET_SIZE : Z := 10.
Definition PER_ADDRESS_REPLENISH_INTERVAL_SECS : Z := 600.
Definition GLOBAL_CAP_PER_HOUR : Z := 200.
Definition BUCKET_TTL_SECS : Z := 3600.

Record TokenBucketState : Type := mkBucket {
  tokens : Z;
  last_replenish : Z;
  last_seen : Z
}.

Record GlobalCounterState : Type := mkGlobal {
  count : Z;
  window_start : Z
}.

Record RateLimitConfig : Type := mkRateLimitConfig {
  per_address_bucket_size : Z;
  per_address_replenish_interval_secs : Z;
  global_cap_per_hour : Z
}.

Definition default_config : RateLimitConfig :=
  mkRateLimitConfig PER_ADDRESS_BUCKET_SIZE PER_ADDRESS_REPLENISH_INTERVAL_SECS
    GLOBAL_CAP_PER_HOUR.

Inductive RateLimitOutcome : Type :=
| Allowed
| Denied (retry_after_seconds : Z).

#[export] Instance RateLimitOutcome_eq_dec : EqDecision RateLimitOutcome.
Proof. solve_decision. Defined.

Record RateLimiter : Type := mkRateLimiter {
  per_address : gmap Z TokenBucketState;
  global : GlobalCounterState
}.

(** [RateLimiter::new] at the instant [now]. *)
Definition new_limiter (now : Z) : RateLimiter := mkRateLimiter ∅ (mkGlobal 0 now).

Definition set_global (g : GlobalCounterState) (l : RateLimiter) : RateLimiter :=
  mkRateLimiter (per_address l) g.

Section limiter.
Context (config : RateLimitConfig).

(** ** The critical sections *)

(** The lazy eviction at the head of [check_per_address]. *)
Definition evict (now : Z) (m : gmap Z TokenBucketState) : gmap Z TokenBucketState :=
  if 64 <? Z.of_nat (size m)
  then filter (fun e => duration_since now (last_seen e.2) < from_secs BUCKET_TTL_SECS) m
  else m.

Definition replenish (now : Z) (b : TokenBucketState) : TokenBucketState :=
  let elapsed := duration_since now (last_replenish b) in
  let interval := from_secs (per_address_replenish_interval_secs config) in
  if (0 <? as_secs interval) && (interval <=? elapsed) then
    let intervals_elapsed := as_secs elapsed / as_secs interval in
    let cap := per_address_bucket_size config in
    let new_tokens := saturating_add U64_MAX (tokens b) intervals_elapsed in
    mkBucket (default U32_MAX (u32_try_from (Z.min new_tokens cap)))
      (last_replenish b + interval * default U32_MAX (u32_try_from intervals_elapsed))
      (last_seen b)
  else b.

Definition check_per_address (addr now : Z) (l : RateLimiter) : RateLimitOutcome * RateLimiter :=
  let m := evict now (per_address l) in
  let entry := default (mkBucket (per_address_bucket_size config) now now) (m !! addr) in
  let entry := replenish now entry in
  let entry := mkBucket (tokens entry) (last_replenish entry) now in
  let put b := mkRateLimiter (<[addr := b]> m) (global l) in
  if tokens entry =? 0 then
    let interval := from_secs (per_address_replenish_interval_secs config) in
    let remaining :=
      as_secs (saturating_sub interval (duration_since now (last_replenish entry))) in
    (Denied (Z.max remaining 1), put entry)
  else (Allowed, put (mkBucket (tokens entry - 1) (last_replenish entry) (last_seen entry))).

Definition window : Z := from_secs 3600.

Definition check_global (now : Z) (l : RateLimiter) : RateLimitOutcome * RateLimiter :=
  let state := if window <=? duration_since now (window_start (global l))
               then mkGlobal 0 now else global l in
  if global_cap_per_hour config <=? count state then
    let remaining := as_secs (saturating_sub window (duration_since now (window_start state))) in
    (Denied (Z.max remaining 1), set_global state l)
  else (Allowed, set_global (mkGlobal (count state + 1) (window_start state)) l).

Definition refund_per_address (addr : Z) (l : RateLimiter) : RateLimiter :=
  mkRateLimiter
    (alter (fun b => mkBucket (Z.min (saturating_add U32_MAX (tokens b) 1)
                                 (per_address_bucket_size config))
                       (last_replenish b) (last_seen b)) addr (per_address l))
    (global l).
End limiter.

(** ** [check] as a program *)

Inductive LimiterCall : Type :=
| InstantNow
| PerAddress (addr now : Z)
| Global (now : Z)
| RefundPerAddress (addr : Z).

Definition LimiterAnswer (c : LimiterCall) : Type :=
  match c with
  | InstantNow => Z
  | PerAddress _ _ | Global _ => RateLimitOutcome
  | RefundPerAddress _ => unit
  end.

Definition check (addr : Z) : prog LimiterAnswer RateLimitOutcome :=
  Do InstantNow (fun now =>
  Do (PerAddress addr now) (fun bucket_outcome =>
  match bucket_outcome with
  | Denied s => Ret (Denied s)
  | Allowed =>
      Do (Global now) (fun global_outcome =>
      match global_outcome with
      | Denied s => Do (RefundPerAddress addr) (fun _ => Ret (Denied s))
      | Allowed => Ret Allowed
      end)
  end)).

(** The answer to a call; a clock may answer anything. *)
Definition limiter_exec (config : RateLimitConfig) (c : LimiterCall) (l : RateLimiter) :
    LimiterAnswer c -> RateLimiter -> Prop :=
  match c with
  | InstantNow => fun _ l' => l' = l
  | PerAddress addr now => fun r l' => check_per_address config addr now l = (r, l')
  | Global now => fun r l' => check_global config now l = (r, l')
  | RefundPerAddress addr => fun _ l' => l' = refund_per_address config addr l
  end.

(** ** Any interleaving

    A sequence of critical sections with their outcomes, as any interleaving
    of concurrent checks performs it. *)
Inductive limiter_run (config : RateLimitConfig) :
    RateLimiter -> list (call LimiterAnswer) -> RateLimiter -> Prop :=
| limiter_run_nil l : limiter_run config l [] l
| limiter_run_call l c r l1 evs l2 :
    limiter_exec config c l r l1 -> limiter_run config l1 evs l2 ->
    limiter_run config l (existT c r :: evs) l2.

Definition call_time (c : LimiterCall) : option Z :=
  match c with PerAddress _ now | Global now => Some now | _ => None end.

(** The sections see the clock advance from [t] on. *)
Fixpoint in_order (t : Z) (evs : list (call LimiterAnswer)) : Prop :=
  match evs with
  | [] => True
  | existT c _ :: rest =>
      match call_time c with
      | Some now => t <= now /\ in_order now rest
      | None => in_order t rest
      end
  end.

Definition end_time (t : Z) (evs : list (call LimiterAnswer)) : Z :=
  foldl (fun t c => default t (call_time (projT1 c))) t evs.

(** Requests the counter admitted in [[t, t + 1h)]. *)
Definition admits (t : Z) (c : call LimiterAnswer) : bool :=
  let '(existT c r) := c in
  match c return LimiterAnswer c -> bool with
  | Global now => fun r => bool_decide (r = Allowed) && (t <=? now) && (now <? t + window)
  | _ => fun _ => false
  end r.

Definition admitted_in_hour (t : Z) (evs : list (call LimiterAnswer)) : Z :=
  Z.of_nat (length (filter (fun c => admits t c = true) evs)).

(** What an address has got out of its bucket: tokens taken less refunds. *)
Definition takes (a : Z) (c : call LimiterAnswer) : Z :=
  let '(existT c r) := c in
  match c return LimiterAnswer c -> Z with
  | PerAddress addr _ => fun r => if bool_decide (addr = a /\ r = Allowed) then 1 else 0
  | RefundPerAddress addr => fun _ => if bool_decide (addr = a) then -1 else 0
  | _ => fun _ => 0
  end r.

Definition taken (a : Z) (evs : list (call LimiterAnswer)) : Z :=
  foldr (fun c n => takes a c + n) 0 evs.

(** [a] never stays away for an hour: [seen] is when it was last seen. *)
Fixpoint keeps_asking (a : Z) (seen : option Z) (evs : list (call LimiterAnswer)) : Prop :=
  match evs with
  | [] => True
  | existT (PerAddress addr now) _ :: rest =>
      if bool_decide (addr = a)
      then match seen with Some s => now < s + from_secs BUCKET_TTL_SECS | None => True end
           /\ keeps_asking a (Some now) rest
      else keeps_asking a seen rest
  | _ :: rest => keeps_asking a seen rest
  end.

Definition config_ok (c : RateLimitConfig) : Prop :=
  0 <= per_address_bucket_size c <= U32_MAX /\ 0 < per_address_replenish_interval_secs c
  /\ 0 <= global_cap_per_hour c.

Section limiter_facts.
Context (config : RateLimitConfig) (Hconfig : config_ok config).
#[local] Notation size_ := (per_address_bucket_size config).
#[local] Notation cap := (global_cap_per_hour config).
#[local] Notation I := (from_secs (per_address_replenish_interval_secs config)).

(** *** The counter *)

Lemma check_global_cases now l r l' :
  check_global config now l = (r, l') ->
  let g := if window <=? duration_since now (window_start (global l)) then mkGlobal 0 now
           else global l in
  (r = Allowed /\ count g < cap /\ global l' = mkGlobal (count g + 1) (window_start g))
  \/ ((exists s, r = Denied s) /\ global l' = g).
Proof.
  intros H g. unfold check_global in H. fold g in H.
  destruct (cap <=? count g) eqn:E; injection H as <- <-; zbool; [right|left]; eauto.
Qed.

(** What the counter can still admit in [[t, t + 1h)] from [clock] on. *)
Definition budget (t clock : Z) (g : GlobalCounterState) : Z :=
  if t <=? window_start g then cap - count g
  else if t <=? clock then 2 * cap - count g else 2 * cap.

Lemma admitted_budget t evs l l' clock :
  limiter_run config l evs l' -> in_order clock evs ->
  window_start (global l) <= clock -> 0 <= count (global l) <= cap ->
  admitted_in_hour t evs
    <= (if t + window <=? clock then 0 else budget t clock (global l)).
Proof using Hconfig.
  intros Hr. revert clock. destruct Hconfig as (_ & _ & Hcap).
  induction Hr as [l|l c r l1 evs l2 He Hr IH]; intros clock Ho Hw Hc.
  { unfold admitted_in_hour, budget. simpl. repeat case_match; lia. }
  unfold admitted_in_hour in *. rewrite filter_cons.
  destruct c as [|addr now|now|addr]; simpl in He, Ho.
  - subst l1. rewrite decide_False by done. by apply IH.
  - rewrite decide_False by done. destruct Ho as [Hle Ho].
    assert (Hg : global l1 = global l).
    { revert He. unfold check_per_address. case_match; intros [= _ <-]; done. }
    specialize (IH now Ho). rewrite Hg in IH. specialize (IH ltac:(lia) Hc).
    unfold budget in *. repeat case_match; zbool; lia.
  - destruct Ho as [Hle Ho]. specialize (IH now Ho).
    pose proof (check_global_cases now l r l1 He) as Hcases.
    assert (Hwin : 0 < window) by done. unfold duration_since in Hcases.
    destruct (window <=? Z.max 0 (now - window_start (global l))) eqn:Ew; simpl in Hcases;
      destruct Hcases as [(-> & Hlt & Hg)|((s & ->) & Hg)]; rewrite Hg in IH; simpl in IH;
      specialize (IH ltac:(lia) ltac:(lia)); unfold budget in *; zbool.
    all: case_decide as Ha; simpl in Ha |- *; zbool; rewrite ?Nat2Z.inj_succ;
      revert IH; repeat case_match; intros; cbn [count window_start] in *; zbool; try done; try lia.
  - rewrite decide_False by done. subst l1. by apply IH.
Qed.

(** *** The bucket *)

Definition bucket_ok (now : Z) (b : TokenBucketState) : Prop :=
  0 <= tokens b <= size_ /\ last_replenish b <= now.

Lemma as_secs_from_secs s : as_secs (from_secs s) = s.
Proof. unfold as_secs, from_secs, NANOS_PER_SEC. apply Z.div_mul. lia. Qed.

(** Every token granted is paid for by an interval of waiting. *)
Lemma replenish_step now b :
  bucket_ok now b ->
  let b' := replenish config now b in
  bucket_ok now b' /\ last_seen b' = last_seen b
  /\ I * (tokens b' - tokens b) <= last_replenish b' - last_replenish b.
Proof using Hconfig.
  destruct Hconfig as ((Hs0 & Hs1) & Hi & _). intros [Ht Hlr]. unfold replenish.
  rewrite as_secs_from_secs. set (i := per_address_replenish_interval_secs config) in *.
  destruct (_ && _) eqn:E; [|simpl; split_and!; [done..|lia]]. zbool.
  set (e := duration_since now (last_replenish b)) in *.
  assert (He : e = now - last_replenish b) by (unfold e, duration_since; lia).
  set (k := as_secs e / i).
  assert (Hk0 : 0 <= k). { unfold k. apply Z.div_pos; [|lia]. apply Z.div_pos; [lia|done]. }
  assert (Hk : from_secs i * k <= e).
  { unfold k, as_secs, from_secs. rewrite Z.div_div by (unfold NANOS_PER_SEC; lia).
    rewrite (Z.mul_comm NANOS_PER_SEC). apply Z.mul_div_le. unfold NANOS_PER_SEC. lia. }
  assert (HI : 0 <= from_secs i) by (unfold from_secs, NANOS_PER_SEC; lia).
  assert (Htok : default U32_MAX (u32_try_from (Z.min (saturating_add U64_MAX (tokens b) k) size_))
                 = Z.min (saturating_add U64_MAX (tokens b) k) size_).
  { unfold u32_try_from. destruct (try_from 0 U32_MAX _) as [x|] eqn:Ex; simpl.
    - by apply try_from_Some in Ex as [-> _].
    - exfalso. revert Ex. unfold try_from, in_range.
      unfold saturating_add, U64_MAX. destruct (_ && _) eqn:E; [done|]. intros _.
      apply andb_false_iff in E as [E|E]; zbool; lia. }
  set (kk := default U32_MAX (u32_try_from k)).
  assert (Hkk : 0 <= kk <= k /\ (kk = k \/ kk = U32_MAX)).
  { unfold kk, u32_try_from. destruct (try_from 0 U32_MAX k) as [x|] eqn:Ex; simpl.
    - apply try_from_Some in Ex as [-> _]. lia.
    - revert Ex. unfold try_from, in_range. destruct (_ && _) eqn:E; [done|]. intros _.
      apply andb_false_iff in E as [E|E]; zbool; [lia|]. unfold U32_MAX in *. lia. }
  cbn [tokens last_replenish last_seen]. rewrite Htok. unfold bucket_ok.
  cbn [tokens last_replenish]. unfold saturating_add, U64_MAX in *.
  assert (Hgain : Z.min (Z.min 18446744073709551615 (tokens b + k)) size_ - tokens b <= kk) by lia.
  split_and!; [lia|lia|nia|done|nia].
Qed.

Lemma check_per_address_self a now l r l' b :
  default (mkBucket size_ now now) (evict now (per_address l) !! a) = b ->
  bucket_ok now b -> check_per_address config a now l = (r, l') ->
  exists b', per_address l' !! a = Some b' /\ bucket_ok now b' /\ last_seen b' = now
    /\ I * (tokens b' + (if bool_decide (r = Allowed) then 1 else 0) - tokens b)
         <= last_replenish b' - last_replenish b.
Proof using Hconfig.
  intros Hb Hok Hc. unfold check_per_address in Hc. rewrite Hb in Hc.
  destruct (replenish_step now b Hok) as ([Ht Hlr] & _ & Hpay).
  set (b1 := replenish config now b) in *. cbn [tokens last_replenish last_seen] in Hc.
  destruct (tokens b1 =? 0) eqn:E; injection Hc as <- <-; zbool; eexists;
    (split; [by simpl; rewrite lookup_insert_eq|]); unfold bucket_ok;
    cbn [tokens last_replenish last_seen]; (split; [lia|]); (split; [done|]).
  - rewrite bool_decide_eq_false_2 by done. nia.
  - rewrite bool_decide_eq_true_2 by done. nia.
Qed.

Lemma check_per_address_other a addr now l r l' :
  addr <> a -> check_per_address config addr now l = (r, l') ->
  per_address l' !! a = evict now (per_address l) !! a.
Proof.
  intros Hne. unfold check_per_address. case_match; intros [= _ <-]; simpl; by rewrite lookup_insert_ne.
Qed.

Lemma evict_lookup now m a :
  evict now m !! a = m !! a
  \/ evict now m !! a = None
     /\ forall b, m !! a = Some b -> from_secs BUCKET_TTL_SECS <= duration_since now (last_seen b).
Proof.
  unfold evict. case_match; [|by left]. rewrite map_lookup_filter.
  destruct (m !! a) as [b|] eqn:E; simpl; [|by left].
  case_guard; simpl; [by left|]. right. split; [done|]. intros ? [= <-]. simpl in *. lia.
Qed.

(** Either the bucket of [a] is there and accounts for everything taken since
    [t0], or it is not and [a] either never asked or has stayed away. *)
Definition accounted (a t0 clock n : Z) (seen : option Z) (l : RateLimiter) : Prop :=
  match per_address l !! a with
  | Some b => bucket_ok clock b /\ seen = Some (last_seen b)
              /\ I * (n + tokens b - size_) <= last_replenish b - t0
  | None => match seen with
            | Some s => s + from_secs BUCKET_TTL_SECS <= clock
            | None => n <= 0
            end
  end.

Lemma accounted_mono a t0 clock clock' n n' seen l l' :
  accounted a t0 clock n seen l -> clock <= clock' -> n' <= n ->
  per_address l' !! a = per_address l !! a -> accounted a t0 clock' n' seen l'.
Proof using Hconfig.
  destruct Hconfig as (_ & Hi & _).
  unfold accounted, bucket_ok. intros Ha Hc Hn ->.
  assert (0 <= I) by (unfold from_secs, NANOS_PER_SEC; lia).
  destruct (per_address l !! a) as [b|]; [|destruct seen; lia].
  destruct Ha as ([? ?] & -> & ?). split_and!; [lia|lia|lia|done|nia].
Qed.

(** A call on the bucket of [a] keeps the books. *)
Lemma accounted_take a t0 clock now n seen l r l' :
  check_per_address config a now l = (r, l') -> clock <= now -> t0 <= clock ->
  match seen with Some s => now < s + from_secs BUCKET_TTL_SECS | None => True end ->
  accounted a t0 clock n seen l ->
  let n' := n + if bool_decide (r = Allowed) then 1 else 0 in
  accounted a t0 now n' (Some now) l' /\ I * (n' - size_) <= now - t0.
Proof using Hconfig.
  pose proof Hconfig as ((Hs0 & _) & Hi & _). intros Hc Hle Ht Hseen Ha.
  assert (HI : 0 <= I) by (unfold from_secs, NANOS_PER_SEC; lia).
  assert (Hstart : exists b, default (mkBucket size_ now now) (evict now (per_address l) !! a) = b
    /\ bucket_ok now b /\ I * (n + tokens b - size_) <= last_replenish b - t0).
  { unfold accounted in Ha.
    destruct (evict_lookup now (per_address l) a) as [He|[He Hold]]; rewrite He.
    - destruct (per_address l !! a) as [b|]; simpl.
      + destruct Ha as ([? ?] & -> & ?). exists b. unfold bucket_ok. split_and!; [done|lia|lia|lia|lia].
      + destruct seen as [s|]; [lia|]. eexists. split; [done|]. unfold bucket_ok.
        cbn [tokens last_replenish]. split_and!; [lia|lia|lia|nia].
    - destruct (per_address l !! a) as [b|]; simpl.
      + destruct Ha as (_ & -> & _). specialize (Hold b eq_refl). unfold duration_since in Hold.
        assert (0 < from_secs BUCKET_TTL_SECS) by done. lia.
      + destruct seen as [s|]; [lia|]. eexists. split; [done|]. unfold bucket_ok.
        cbn [tokens last_replenish]. split_and!; [lia|lia|lia|nia]. }
  destruct Hstart as (b & Hb & Hok & Hpay).
  destruct (check_per_address_self a now l r l' b Hb Hok Hc) as (b' & Hl' & Hok' & Hseen' & Hpay').
  unfold accounted. rewrite Hl'. destruct Hok' as [? ?]. unfold bucket_ok.
  destruct (bool_decide (r = Allowed)); split_and!; try done; try lia; try nia; by rewrite Hseen'.
Qed.

Lemma taken_bound a t0 evs l l' clock n seen :
  limiter_run config l evs l' -> in_order clock evs -> keeps_asking a seen evs ->
  t0 <= clock -> accounted a t0 clock n seen l -> I * (n - size_) <= clock - t0 ->
  I * (n + taken a evs - size_) <= end_time clock evs - t0.
Proof using Hconfig.
  intros Hr. revert clock n seen. destruct Hconfig as ((Hs0 & _) & Hi & _).
  assert (HI : 0 <= I) by (unfold from_secs, NANOS_PER_SEC; lia).
  induction Hr as [l|l c r l1 evs l2 He Hr IH]; intros clock n seen Ho Hk Ht Ha Hn.
  { simpl. unfold taken. simpl. lia. }
  unfold taken in *. simpl foldr. unfold end_time in *. simpl foldl. rewrite Z.add_assoc.
  destruct c as [|addr now|now|addr]; simpl in He, Ho, Hk; simpl takes; simpl call_time;
    cbn [default from_option id].
  - subst l1. rewrite Z.add_0_r. by apply (IH clock n seen).
  - destruct Ho as [Hle Ho]. destruct (decide (addr = a)) as [->|Hne].
    + rewrite bool_decide_eq_true_2 in Hk by done. destruct Hk as [Hs Hk].
      rewrite (bool_decide_ext (a = a /\ r = Allowed) (r = Allowed)) by naive_solver.
      destruct (accounted_take _ _ _ _ _ _ _ _ _ He Hle Ht Hs Ha) as [Ha' Hn'].
      apply (IH now _ (Some now)); [done|done|lia|done|done].
    + rewrite bool_decide_eq_false_2 in Hk by done. rewrite bool_decide_eq_false_2 by naive_solver.
      rewrite Z.add_0_r. apply (IH now n seen); [done|done|lia| |lia].
      pose proof (check_per_address_other _ _ _ _ _ _ Hne He) as Hl.
      destruct (evict_lookup now (per_address l) a) as [Hev|[Hev Hold]]; rewrite Hev in Hl.
      * by apply (accounted_mono a t0 clock now n n seen l).
      * unfold accounted in *. rewrite Hl. destruct (per_address l !! a) as [b|]; [|destruct seen; lia].
        destruct Ha as (_ & -> & _). specialize (Hold b eq_refl). unfold duration_since in Hold.
        assert (0 < from_secs BUCKET_TTL_SECS) by done. lia.
  - destruct Ho as [Hle Ho]. rewrite Z.add_0_r. apply (IH now n seen); [done|done|lia| |lia].
    apply (accounted_mono a t0 clock now n n seen l); [done|lia|lia|].
    revert He. unfold check_global, set_global. by repeat case_match; intros [= _ <-].
  - subst l1. destruct (decide (addr = a)) as [->|Hne].
    + rewrite bool_decide_eq_true_2 by done.
      apply (IH clock (n + -1) seen); [done|done|lia| |nia].
      unfold accounted in *. simpl. rewrite lookup_alter_eq.
      destruct (per_address l !! a) as [b|]; simpl; [|destruct seen; lia].
      destruct Ha as ([? ?] & -> & ?). unfold bucket_ok, saturating_add, U32_MAX.
      cbn [tokens last_replenish last_seen]. split_and!; [lia|lia|lia|done|nia].
    + rewrite bool_decide_eq_false_2 by done. rewrite Z.add_0_r.
      apply (IH clock n seen); [done|done|lia| |done].
      apply (accounted_mono a t0 clock clock n n seen l); [done|lia|lia|]. simpl.
      by rewrite lookup_alter_ne.
Qed.
End limiter_facts.

(** What the limiter lets through, under any interleaving of concurrent
    checks that see the clock advance.  The counter admits at most twice its
    cap in any hour (its windows are fixed, so a burst can straddle two of
    them).  An address that is not known yet and then never stays away for an
    hour takes at most a bucketful and one more per replenishment interval
    that has passed. *)
Theorem limiter_bounds config l evs l' t0 a t :
  config_ok config -> limiter_run config l evs l' -> in_order t0 evs ->
  window_start (global l) <= t0 -> 0 <= count (global l) <= global_cap_per_hour config ->
  admitted_in_hour t evs <= 2 * global_cap_per_hour config
  /\ (per_address l !! a = None -> keeps_asking a None evs ->
      taken a evs <= per_address_bucket_size config
        + (end_time t0 evs - t0) / from_secs (per_address_replenish_interval_secs config)).
Proof.
  intros Hc Hr Ho Hw Hn. split.
  - pose proof (admitted_budget config Hc t evs l l' t0 Hr Ho Hw Hn) as H.
    destruct Hc as (_ & _ & ?). unfold budget in H. repeat case_match; lia.
  - intros Ha Hk. pose proof (taken_bound config Hc a t0 evs l l' t0 0 None Hr Ho Hk) as H.
    destruct Hc as ((Hs & _) & Hi & _).
    assert (HI : 0 < from_secs (per_address_replenish_interval_secs config))
      by (unfold from_secs, NANOS_PER_SEC; lia).
    unfold accounted in H. rewrite Ha in H. specialize (H ltac:(lia) ltac:(lia) ltac:(nia)).
    pose proof (Z.div_le_lower_bound (end_time t0 evs - t0) _ _ HI H). lia.
Qed.

(** One admitted request. *)
Definition sample_run : list (call LimiterAnswer) :=
  [existT (PerAddress 7 1000000000) Allowed; existT (Global 1000000000) Allowed].

Lemma sample_runs : exists l', limiter_run default_config (new_limiter 0) sample_run l'.
Proof.
  eexists. eapply limiter_run_call; [reflexivity|]. eapply limiter_run_call; [reflexivity|].
  apply limiter_run_nil.
Qed.

Lemma default_config_ok : config_ok default_config.
Proof. unfold config_ok. simpl. by vm_compute. Qed.

Lemma limiter_bounds_witness :
  admitted_in_hour 0 sample_run = 1 /\ taken 7 sample_run = 1
  /\ admitted_in_hour 0 sample_run <= 2 * global_cap_per_hour default_config.
Proof.
  split_and!; [by vm_compute|by vm_compute|]. destruct sample_runs as [l' Hr].
  refine (proj1 (limiter_bounds default_config (new_limiter 0) sample_run l' 0 7 0
    default_config_ok Hr _ _ _)); [simpl; lia|simpl; lia|].
  split; by vm_compute.
Defined.

(** A bucket made at [now] gains nothing, and lets one request through. *)
Lemma replenish_fresh config n now seen :
  replenish config now (mkBucket n now seen) = mkBucket n now seen.
Proof.
  unfold replenish, duration_since. cbn [last_replenish]. rewrite as_secs_from_secs.
  replace ((0 <? _) && _) with false; [done|]. symmetry. apply andb_false_iff.
  destruct (0 <? _) eqn:E; [right|by left]. apply Z.leb_gt. unfold from_secs, NANOS_PER_SEC.
  zbool. lia.
Qed.

Lemma fresh_bucket_allows config a now l :
  1 <= per_address_bucket_size config -> evict now (per_address l) !! a = None ->
  exists l', check_per_address config a now l = (Allowed, l') /\ global l' = global l
    /\ per_address l' !! a = Some (mkBucket (per_address_bucket_size config - 1) now now).
Proof.
  intros Hs He. unfold check_per_address. rewrite He. cbn [default from_option].
  rewrite replenish_fresh. simpl. replace (per_address_bucket_size config =? 0) with false
    by (symmetry; apply Z.eqb_neq; lia).
  eexists. split_and!; [done|done|]. simpl. by rewrite lookup_insert_eq.
Qed.

Lemma fresh_counter_allows config now l :
  1 <= global_cap_per_hour config -> global l = mkGlobal 0 now ->
  exists l', check_global config now l = (Allowed, l').
Proof.
  intros Hc Hg. unfold check_global. rewrite Hg. unfold duration_since. cbn [window_start].
  replace (now - now) with 0 by lia. simpl.
  replace (global_cap_per_hour config <=? 0) with false by (symmetry; apply Z.leb_gt; lia). eauto.
Qed.

(** Eviction hands the burst back.  Once the map holds more than 64
    addresses, an address that was last seen an hour ago gets a full bucket
    whatever it had left and whatever the replenishment rate, because its
    entry is dropped and made afresh; without the eviction an emptied bucket
    has, with the default settings, six tokens after that hour. *)
Theorem eviction_refills config l a now b :
  1 <= per_address_bucket_size config -> per_address l !! a = Some b ->
  from_secs BUCKET_TTL_SECS <= now - last_seen b ->
  if bool_decide (64 < Z.of_nat (size (per_address l)))
  then exists l', check_per_address config a now l = (Allowed, l')
         /\ per_address l' !! a = Some (mkBucket (per_address_bucket_size config - 1) now now)
  else config = default_config -> tokens b = 0 -> last_replenish b = last_seen b ->
       now - last_seen b = from_secs BUCKET_TTL_SECS ->
       exists l', check_per_address config a now l = (Allowed, l')
         /\ per_address l' !! a = Some (mkBucket 5 now now).
Proof.
  intros Hs Hb Hold. case_bool_decide as Hsize.
  - unfold check_per_address.
    assert (He : evict now (per_address l) !! a = None).
    { unfold evict. replace (64 <? Z.of_nat (size (per_address l))) with true
        by (symmetry; by apply Z.ltb_lt).
      apply map_lookup_filter_None. right. intros b' Hb'. rewrite Hb in Hb'. injection Hb' as <-.
      simpl. unfold duration_since. lia. }
    destruct (fresh_bucket_allows config a now l Hs He) as (l' & Hl & _ & Ha). eauto.
  - intros -> Ht Hr Hnow. unfold check_per_address, evict.
    replace (64 <? Z.of_nat (size (per_address l))) with false by (symmetry; apply Z.ltb_ge; lia).
    rewrite Hb. simpl. destruct b as [tok lr ls]. simpl in *. subst tok lr.
    assert (Hrep : replenish default_config now (mkBucket 0 ls ls) = mkBucket 6 now ls).
    { assert (now = ls + 3600000000000) as -> by (revert Hnow; vm_compute (from_secs _); lia).
      unfold replenish, duration_since. cbn [tokens last_replenish last_seen].
      replace (Z.max 0 (ls + 3600000000000 - ls)) with 3600000000000 by lia.
      by vm_compute (_ && _); simpl. }
    rewrite Hrep. simpl. eexists. split; [done|]. simpl. by rewrite lookup_insert_eq.
Qed.

(** 65 addresses last seen an hour ago, their buckets empty. *)
Definition crowded : RateLimiter :=
  mkRateLimiter (list_to_map ((fun i => (i, mkBucket 0 0 0)) <$> seqZ 0 65)) (mkGlobal 0 0).

Lemma eviction_refills_witness :
  exists l', check_per_address default_config 5 (from_secs BUCKET_TTL_SECS) crowded = (Allowed, l')
    /\ per_address l' !! 5 = Some (mkBucket 9 (from_secs BUCKET_TTL_SECS) (from_secs BUCKET_TTL_SECS)).
Proof.
  assert (Hb : per_address crowded !! 5 = Some (mkBucket 0 0 0)) by (by vm_compute).
  pose proof (eviction_refills default_config crowded 5 (from_secs BUCKET_TTL_SECS) (mkBucket 0 0 0)
    ltac:(by vm_compute) Hb ltac:(by vm_compute)) as H.
  rewrite bool_decide_eq_true_2 in H; [exact H|]. by vm_compute.
Defined.
