(* ===== verification/Funder.v ===== *)
(** * The funder service

    services/funder/src: the payment ledger (ledger.rs), the top-up handler
    (http/top_up.rs), the restart scan (resume.rs) and the errors (error.rs),
    with the credit and the device binding of crates/pangolin-funder-client.
    A handler or a resume task is a program over [FunderCall]: calls on the
    node, writes of the ledger (each under its lock), the limiter's critical
    sections and the clocks.  [System] is the whole service: requests arrive,
    tasks interleave, a task can be dropped (a client that goes away), and the
    process can die and restart at any point; the node answers anything and a
    ledger write can fail.

    The schema migration of the ledger, the formatting of a response and the
    parsing of a request body are not modelled. *)

From Stdlib Require Import Ascii String.
From S2P Require Import Prelude Bytes Effects TypedData ChainSubmit RateLimit.
Open Scope Z_scope.

(** ** The ledger *)

Inductive PaymentState : Type :=
| PreRedeem | RedeemSubmitted | RedeemMined | EthTransferSubmitted | EthTransferMined
| EthTransferFailed.

#[export] Instance PaymentState_eq_dec : EqDecision PaymentState.
Proof. solve_decision. Defined.

Definition as_db_str (s : PaymentState) : string :=
  match s with
  | PreRedeem => "pre_redeem"
  | RedeemSubmitted => "redeem_submitted"
  | RedeemMined => "redeem_mined"
  | EthTransferSubmitted => "eth_transfer_submitted"
  | EthTransferMined => "eth_transfer_mined"
  | EthTransferFailed => "eth_transfer_failed"
  end.

Definition parse_db_str (s : string) : option PaymentState :=
  if bool_decide (s = "pre_redeem"%string) then Some PreRedeem
  else if bool_decide (s = "redeem_submitted"%string) then Some RedeemSubmitted
  else if bool_decide (s = "redeem_mined"%string) then Some RedeemMined
  else if bool_decide (s = "eth_transfer_submitted"%string) then Some EthTransferSubmitted
  else if bool_decide (s = "eth_transfer_mined"%string) then Some EthTransferMined
  else if bool_decide (s = "eth_transfer_failed"%string) then Some EthTransferFailed
  else None.

(** A row of [payments]; the key is the attestation hash. *)
Record PaymentRow : Type := mkPaymentRow {
  attestation_hash : Z;
  pay_user_id : Z;
  device_address : Z;
  credit_amount : Z;
  redemption_tx_hash : option Z;
  state : PaymentState;
  eth_transfer_tx_hash : option Z;
  eth_transfer_block : option Z;
  eth_transferred_wei : option Z;
  created_at : Z
}.

Notation Ledger := (gmap Z PaymentRow).

Definition set_state (s : PaymentState) (r : PaymentRow) : PaymentRow :=
  mkPaymentRow (attestation_hash r) (pay_user_id r) (device_address r) (credit_amount r)
    (redemption_tx_hash r) s (eth_transfer_tx_hash r) (eth_transfer_block r)
    (eth_transferred_wei r) (created_at r).

(** The writes, one per method. *)
Inductive LedgerOp : Type :=
| TryInsert (h user device amount now : Z)
| UpdateRedemptionTxHash (h tx_hash : Z)
| TransitionState (h : Z) (s : PaymentState)
| MarkEthTransferSubmitted (h tx_hash wei : Z)
| MarkEthTransferMined (h block : Z).

Definition update_row (f : PaymentRow -> PaymentRow) (h : Z) (l : Ledger) : bool * Ledger :=
  (bool_decide (is_Some (l !! h)), alter f h l).

Definition ledger_apply (o : LedgerOp) (l : Ledger) : bool * Ledger :=
  match o with
  | TryInsert h user device amt now =>
      match l !! h with
      | Some _ => (false, l)
      | None => (true, <[h := mkPaymentRow h user device amt None PreRedeem None None None now]> l)
      end
  | UpdateRedemptionTxHash h tx =>
      update_row (fun r => mkPaymentRow (attestation_hash r) (pay_user_id r) (device_address r)
        (credit_amount r) (Some tx) RedeemSubmitted (eth_transfer_tx_hash r) (eth_transfer_block r)
        (eth_transferred_wei r) (created_at r)) h l
  | TransitionState h s => update_row (set_state s) h l
  | MarkEthTransferSubmitted h tx wei =>
      update_row (fun r => mkPaymentRow (attestation_hash r) (pay_user_id r) (device_address r)
        (credit_amount r) (redemption_tx_hash r) EthTransferSubmitted (Some tx)
        (eth_transfer_block r) (Some wei) (created_at r)) h l
  | MarkEthTransferMined h block =>
      update_row (fun r => mkPaymentRow (attestation_hash r) (pay_user_id r) (device_address r)
        (credit_amount r) (redemption_tx_hash r) EthTransferMined (eth_transfer_tx_hash r)
        (Some (default I64_MAX (i64_try_from block))) (eth_transferred_wei r) (created_at r)) h l
  end.

(** [find_resumable_entries]. *)
Definition resumable (s : PaymentState) : bool :=
  match s with RedeemSubmitted | RedeemMined | EthTransferSubmitted => true | _ => false end.

Definition find_resumable_entries (l : Ledger) : list PaymentRow :=
  filter (fun r => resumable (state r) = true) (map_to_list l).*2.

(** ** Calls *)

(** A failed write answers [LedgerError::Sqlite]. *)
Inductive LedgerError : Type := Sqlite.

Inductive FunderCall : Type :=
| Node (q : NodeCall)
| LedgerWrite (o : LedgerOp)
| Limiter (c : LimiterCall)
| UnixNow.

Definition FunderAnswer (c : FunderCall) : Type :=
  match c with
  | Node q => Answer q
  | LedgerWrite _ => result LedgerError bool
  | Limiter c => LimiterAnswer c
  | UnixNow => Z
  end.

Fixpoint on_node {A} (p : prog Answer A) : prog FunderAnswer A :=
  match p with
  | Ret a => Ret a
  | Do q k => Do (Node q : FunderCall) (fun r => on_node (k r))
  end.

Fixpoint on_limiter {A} (p : prog LimiterAnswer A) : prog FunderAnswer A :=
  match p with
  | Ret a => Ret a
  | Do q k => Do (Limiter q : FunderCall) (fun r => on_limiter (k r))
  end.

(** ** Errors *)

Inductive FunderError : Type :=
| RateLimited (retry_after_seconds : Z)
| BadRequest
| CreditSigInvalid
| CreditExpired
| CreditSchemaUnsupported
| DeviceBindingInvalid
| AlreadyRedeemed
| ChainSubmitFailed (class : string)
| EthTransferCapExceeded (observed_wei cap_wei : Z)
| EthTransferError (redeem_tx_hash : Z) (class : string)
| LedgerFailed
| Configuration.

(** [From<ChainError> for FunderError]. *)
Definition from_chain_error (e : ChainError) : FunderError :=
  ChainSubmitFailed match e with
  | WrongChain _ _ | ChainIdMismatch _ _ => "chain_id_mismatch"
  | Deployment | DeploymentNotFound | DeploymentParseError | DeploymentAddressMismatch _ _
  | DeploymentMismatch => "deployment_misconfigured"
  | Rpc _ | RpcTransient _ _ => "rpc_transient"
  | Decode _ => "decode_error"
  | Reverted _ | RevertedOnChain _ | RevertedPreBroadcast _ => "contract_reverted"
  | MissingEvent _ => "missing_event"
  | Wallet => "wallet_error"
  | Keystore => "keystore_error"
  | Io => "io_error"
  | SignatureInvalid => "signature_invalid"
  | InsufficientFunds _ => "insufficient_funds"
  | GasCapExceeded _ _ => "gas_cap_exceeded"
  | NonceUnresolvable _ => "nonce_unresolvable"
  | ReceiptMismatch _ _ => "receipt_mismatch"
  | _ => "chain_error_other"
  end.

(** The class of a failed transfer. *)
Definition eth_transfer_class (e : ChainError) : string :=
  match e with
  | InsufficientFunds _ => "insufficient_funds"
  | GasCapExceeded _ _ => "gas_cap_exceeded"
  | Rpc _ | RpcTransient _ _ => "rpc_transient"
  | Reverted _ | RevertedOnChain _ | RevertedPreBroadcast _ => "contract_reverted"
  | ChainIdMismatch _ _ => "chain_id_mismatch"
  | ReceiptMismatch _ _ => "receipt_mismatch"
  | _ => "eth_transfer_other"
  end.

Definition status (e : FunderError) : Z :=
  match e with
  | RateLimited _ => 429
  | BadRequest | CreditSigInvalid | CreditExpired | CreditSchemaUnsupported
  | DeviceBindingInvalid | EthTransferCapExceeded _ _ => 400
  | AlreadyRedeemed => 409
  | ChainSubmitFailed _ => 502
  | EthTransferError _ _ | LedgerFailed | Configuration => 500
  end.

(** ** Requests *)

Definition MAX_KNOWN_SCHEMA_VERSION : Z := 1.

(** [Credit]: the fields of a redemption and the authority's signature. *)
Record Credit : Type := mkCredit {
  credit_fields : RedemptionFieldsV1;
  credit_signature : list Z
}.

Record TopUpRequest : Type := mkTopUpRequest {
  req_credit : Credit;
  device_binding_sig : list Z;
  req_device_address : Z
}.

Record TopUpResponse : Type := mkTopUpResponse {
  resp_redeem_tx_hash : Z;
  resp_eth_transfer_tx_hash : option Z;
  resp_eth_transferred_wei : Z
}.

(** "PangolinFunderDeviceBinding\x01v1\x01". *)
Definition FUNDER_DEVICE_BINDING_DOMAIN_V1 : list Z :=
  let ascii_bytes s := (fun c => Z.of_N (N_of_ascii c)) <$> list_ascii_of_string s in
  ascii_bytes "PangolinFunderDeviceBinding"%string ++ [1] ++ ascii_bytes "v1"%string ++ [1].

Definition attestation_buffer (c : Credit) : list Z :=
  let f := credit_fields c in
  to_be_bytes 32 (user_id f) ++ to_be_bytes 32 (amount f) ++ to_be_bytes 8 (nonce f)
  ++ to_be_bytes 2 (schema_version f) ++ to_be_bytes 8 (expires_at f) ++ credit_signature c.

Definition device_binding_buffer (hash device : Z) : list Z :=
  FUNDER_DEVICE_BINDING_DOMAIN_V1 ++ to_be_bytes 32 hash ++ to_be_bytes 20 device.

(** [clamp_eth_transfer_amount]. *)
Definition clamp_eth_transfer_amount (credit_amount cap : Z) : option Z :=
  if cap <? credit_amount then None else Some credit_amount.

Section funder.
Context (keccak256 : list Z -> Z) (separator : Eip712Domain -> Z).
Context (recover_address_from_prehash : Signature -> Z -> option Z).

Definition credit_attestation_hash (c : Credit) : Z := keccak256 (attestation_buffer c).

Definition device_binding_digest (hash device : Z) : Z :=
  keccak256 (device_binding_buffer hash device).

Definition verify_device_binding (sig : list Z) (hash device : Z) : bool :=
  let v_byte := nth 64 sig 0 in
  if negb (v_byte =? 27) && negb (v_byte =? 28) then false
  else match recover_address_from_prehash
         (mkSignature (be_value (take 32 sig)) (be_value (take 32 (drop 32 sig))) (v_byte =? 28))
         (device_binding_digest hash device) with
       | Some recovered => bool_decide (recovered = device)
       | None => false
       end.

Definition verify_credit_signature (c : Credit) (payment_authority : Z) (env : ChainEnv) : bool :=
  match env with
  | BaseSepolia =>
      let domain_sep := separator (build_entitlement_domain env
                          EXPECTED_ENTITLEMENT_REGISTRY_ADDRESS_BASE_SEPOLIA) in
      if negb (domain_sep =? ENTITLEMENT_DOMAIN_SEPARATOR_BASE_SEPOLIA_V1) then false
      else
        let digest := eip712_digest keccak256 domain_sep (credit_struct_hash keccak256 (credit_fields c)) in
        match recover_rsv recover_address_from_prehash digest (credit_signature c) with
        | Ok recovered => bool_decide (recovered = payment_authority)
        | Err _ => false
        end
  | _ => false
  end.

(** [AppState]; the signer is what [sign_redemption] returns and, for a signer
    with a local key, its address. *)
Record AppState : Type := mkAppState {
  sign_redemption : RedemptionFieldsV1 -> ChainEnv -> result ChainError SignedRedemptionV1;
  local_signer : option Z;
  registry_deployed : result ChainError Z;
  payment_authority : Z;
  app_env : ChainEnv;
  eth_transfer_per_tx_cap_wei : Z
}.

Context (app : AppState).

(** ** The handler *)

Definition fprog (A : Type) : Type := eprog FunderAnswer FunderError A.

(** [state.ledger.f(..).await.map_err(FunderError::from)?]. *)
Definition write (o : LedgerOp) : fprog bool :=
  Do (LedgerWrite o) (fun r => Ret (map_err (fun _ => LedgerFailed) r)).

(** Steps 2 to 6: the checks on a request at [now], and the amount to send. *)
Definition validate (now : Z) (req : TopUpRequest) : result FunderError Z :=
  let c := req_credit req in let f := credit_fields c in
  if MAX_KNOWN_SCHEMA_VERSION <? schema_version f then Err CreditSchemaUnsupported
  else if expires_at f <? now then Err CreditExpired
  else if negb (verify_credit_signature c (payment_authority app) (app_env app)) then
    Err CreditSigInvalid
  else if negb (verify_device_binding (device_binding_sig req) (credit_attestation_hash c)
                  (req_device_address req)) then Err DeviceBindingInvalid
  else match clamp_eth_transfer_amount (amount f) (eth_transfer_per_tx_cap_wei app) with
       | Some wei => Ok wei
       | None => Err (EthTransferCapExceeded (amount f) (eth_transfer_per_tx_cap_wei app))
       end.

(** Step 10: the transfer and its two marks. *)
Definition transfer_leg (h redeem_tx signer device wei : Z) : fprog TopUpResponse :=
  prog_bind (fun sent =>
    match sent with
    | Err e =>
        Do (LedgerWrite (TransitionState h EthTransferFailed)) (fun _ =>
          Ret (Err (EthTransferError redeem_tx (eth_transfer_class e))))
    | Ok anchor =>
        write (MarkEthTransferSubmitted h (ea_tx_hash anchor) wei) ≫= fun _ =>
        write (MarkEthTransferMined h (ea_block_number anchor)) ≫= fun _ =>
        Ret (Ok (mkTopUpResponse redeem_tx (Some (ea_tx_hash anchor)) wei))
    end) (on_node (submit_eth_transfer_v1 signer device wei (app_env app))).

(** Steps 8 and 9, with the row inserted. *)
Definition redeem_leg (h : Z) (req : TopUpRequest) (wei : Z) : fprog TopUpResponse :=
  match sign_redemption app (credit_fields (req_credit req)) (app_env app) with
  | Err e => Ret (Err (from_chain_error e))
  | Ok signed =>
      match local_signer app with
      | None => Ret (Err Configuration)
      | Some signer =>
          redeem_anchor ← prog_bind (fun r => Ret (map_err from_chain_error r))
            (on_node (submit_redemption_v1 (registry_deployed app) signer signed (app_env app)));
          write (UpdateRedemptionTxHash h (ra_tx_hash redeem_anchor)) ≫= fun _ =>
          write (TransitionState h RedeemMined) ≫= fun _ =>
          transfer_leg h (ra_tx_hash redeem_anchor) signer (req_device_address req) wei
      end
  end.

(** [handle]: [parsed] is the outcome of [wire.parse()]. *)
Definition handle (parsed : option TopUpRequest) : fprog TopUpResponse :=
  match parsed with
  | None => Ret (Err BadRequest)
  | Some req =>
      prog_bind (fun outcome =>
        match outcome with
        | Denied s => Ret (Err (RateLimited s))
        | Allowed =>
            Do UnixNow (fun now =>
              match validate now req with
              | Err e => Ret (Err e)
              | Ok wei =>
                  let h := credit_attestation_hash (req_credit req) in
                  Do UnixNow (fun created =>
                    inserted ← write (TryInsert h (user_id (credit_fields (req_credit req)))
                      (req_device_address req) (amount (credit_fields (req_credit req))) created);
                    if (inserted : bool) then redeem_leg h req wei else Ret (Err AlreadyRedeemed))
              end)
        end) (on_limiter (check (req_device_address req)))
  end.

(** ** Resuming after a restart *)

Definition redemption_fields_from_row (row : PaymentRow) : RedemptionFieldsV1 :=
  mkRedemptionFieldsV1 (pay_user_id row) (credit_amount row) 0 1 U64_MAX.

(** The tasks return only whether they failed. *)
Definition rprog (A : Type) : Type := eprog FunderAnswer unit A.

Definition rwrite (o : LedgerOp) : rprog bool :=
  Do (LedgerWrite o) (fun r => Ret (map_err (fun _ => tt) r)).

Definition drive_eth_transfer (row : PaymentRow) : rprog unit :=
  match local_signer app with
  | None => Ret (Err tt)
  | Some signer =>
      match clamp_eth_transfer_amount (credit_amount row) (eth_transfer_per_tx_cap_wei app) with
      | None => Ret (Err tt)
      | Some wei =>
          anchor ← prog_bind (fun r => Ret (map_err (fun _ => tt) r))
            (on_node (submit_eth_transfer_v1 signer (device_address row) wei (app_env app)));
          rwrite (MarkEthTransferSubmitted (attestation_hash row) (ea_tx_hash anchor) wei)
            ≫= fun _ =>
          rwrite (MarkEthTransferMined (attestation_hash row) (ea_block_number anchor))
            ≫= fun _ => Ret (Ok tt)
      end
  end.

Definition drive_to_completion (row : PaymentRow) : rprog unit :=
  match local_signer app with
  | None => Ret (Err tt)
  | Some signer =>
      match state row with
      | RedeemSubmitted =>
          match sign_redemption app (redemption_fields_from_row row) (app_env app) with
          | Err _ => Ret (Err tt)
          | Ok signed =>
              prog_bind (fun r =>
                match r with
                | Ok _ | Err (RevertedOnChain _) | Err (RevertedPreBroadcast _) =>
                    rwrite (TransitionState (attestation_hash row) RedeemMined) ≫= fun _ =>
                    drive_eth_transfer row
                | Err _ => Ret (Err tt)
                end)
                (on_node (submit_redemption_v1 (registry_deployed app) signer signed (app_env app)))
          end
      | RedeemMined => drive_eth_transfer row
      | EthTransferSubmitted =>
          rwrite (TransitionState (attestation_hash row) EthTransferMined) ≫= fun _ => Ret (Ok tt)
      | _ => Ret (Ok tt)
      end
  end.

(** The task [resume_in_flight] spawns for a row. *)
Definition resume_task (row : PaymentRow) : prog FunderAnswer unit :=
  prog_bind (fun r =>
    match r with
    | Ok _ => Ret tt
    | Err _ =>
        Do (LedgerWrite (TransitionState (attestation_hash row) EthTransferFailed)) (fun _ => Ret tt)
    end) (drive_to_completion row).

(** A request's task; its response leaves the system. *)
Definition request_task (parsed : option TopUpRequest) : prog FunderAnswer unit :=
  prog_bind (fun _ => Ret tt) (handle parsed).

(** ** The service *)

Record Shared : Type := mkShared {
  ledger : Ledger;
  limiter : RateLimiter;
  history : list (call FunderAnswer)
}.

Context (limits : RateLimitConfig).

(** How a call is answered: the node and the clocks anything, a write its
    result or a failure that changes nothing. *)
Definition funder_exec (c : FunderCall) (w : Shared) : FunderAnswer c -> Shared -> Prop :=
  match c with
  | Node q => fun r w' => w' = mkShared (ledger w) (limiter w) (history w ++ [existT (Node q) r])
  | LedgerWrite o => fun r w' =>
      let h := history w ++ [existT (LedgerWrite o) r] in
      match r with
      | Err _ => w' = mkShared (ledger w) (limiter w) h
      | Ok b => exists l, ledger_apply o (ledger w) = (b, l) /\ w' = mkShared l (limiter w) h
      end
  | Limiter c => fun r w' =>
      exists l, limiter_exec limits c (limiter w) r l
        /\ w' = mkShared (ledger w) l (history w ++ [existT (Limiter c) r])
  | UnixNow => fun r w' => w' = mkShared (ledger w) (limiter w) (history w ++ [existT UnixNow r])
  end.

Record System : Type := mkSystem {
  shared : Shared;
  restarts : Z;
  tasks : list (prog FunderAnswer unit)
}.

(** A parsed request has an amount (a [U256]) that is not negative. *)
Definition request_ok (parsed : option TopUpRequest) : Prop :=
  match parsed with Some req => 0 <= amount (credit_fields (req_credit req)) | None => True end.

Inductive system_step : System -> System -> Prop :=
| step_request s parsed :
    request_ok parsed ->
    system_step s (mkSystem (shared s) (restarts s) (tasks s ++ [request_task parsed]))
| step_task s w pool :
    pool_step funder_exec (shared s, tasks s) (w, pool) ->
    system_step s (mkSystem w (restarts s) pool)
| step_drop s i :
    system_step s (mkSystem (shared s) (restarts s) (delete i (tasks s)))
| step_restart s now :
    system_step s (mkSystem (mkShared (ledger (shared s)) (new_limiter now) (history (shared s)))
      (restarts s + 1) (resume_task <$> find_resumable_entries (ledger (shared s)))).

(** The first start: an empty ledger and nothing done. *)
Definition first_start (now : Z) : System :=
  mkSystem (mkShared ∅ (new_limiter now) []) 0 [].

Definition reachable (s : System) : Prop := exists now, rtc system_step (first_start now) s.
End funder.
