(* ===== verification/FunderFacts.v ===== *)
(** * What the funder pays, and for what

    The theorems about the service of Funder.v.  Each is a protocol on the
    calls of a task, kept by every task and turned into an invariant of the
    whole system ([system_protocol]): requests, interleavings, dropped tasks and
    restarts included. *)

From Stdlib Require Import Ascii String.
From S2P Require Import Prelude Bytes Effects TypedData ChainSubmit RateLimit Funder.
Open Scope Z_scope.

(** ** Protocols for the calls on the node *)

Section lift.
Context {S : Type} (pre : FunderCall -> S -> Prop) (upd : call FunderAnswer -> S -> S).

Definition node_pre (e : NodeCall) (s : S) : Prop := pre (Node e) s.
Definition node_upd (c : call Answer) (s : S) : S :=
  let '(existT e r) := c in upd (existT (Node e) r) s.

Lemma on_node_wp {A} (p : prog Answer A) Q s :
  wp node_pre node_upd p Q s -> wp pre upd (on_node p) Q s.
Proof.
  revert s. induction p as [a|e k IH]; intros s; simpl; [done|].
  intros [Hp Hk]. split; [exact Hp|]. intros r. apply IH, Hk.
Qed.

(** The limiter's sections change nothing of what is tracked. *)
Lemma on_limiter_wp {A} (p : prog LimiterAnswer A) (Q : A -> S -> Prop) s :
  (forall c s, pre (Limiter c) s) -> (forall c r s, upd (existT (Limiter c) r) s = s) ->
  (forall a, Q a s) -> wp pre upd (on_limiter p) Q s.
Proof.
  intros Hp Hu HQ. induction p as [a|e k IH]; simpl; [by apply HQ|].
  split; [by apply Hp|]. intros r. rewrite Hu. apply IH.
Qed.
(** Nor do the calls on the node, for a protocol on the writes alone. *)
Lemma on_node_free {A} (p : prog Answer A) (Q : A -> S -> Prop) s :
  (forall q s, pre (Node q) s) -> (forall q r s, upd (existT (Node q) r) s = s) ->
  (forall a, Q a s) -> wp pre upd (on_node p) Q s.
Proof.
  intros Hp Hu HQ. induction p as [a|e k IH]; simpl; [by apply HQ|].
  split; [by apply Hp|]. intros r. rewrite Hu. apply IH.
Qed.

(** A write and what follows it. *)
Definition wrote (o : LedgerOp) (r : result LedgerError bool) : call FunderAnswer :=
  existT (LedgerWrite o) r.

Lemma write_wp {B} o (f : bool -> fprog B) Q s :
  pre (LedgerWrite o) s -> (forall e, Q (Err LedgerFailed) (upd (wrote o (Err e)) s)) ->
  (forall b, wp pre upd (f b) Q (upd (wrote o (Ok b)) s)) -> wp pre upd (write o ≫= f) Q s.
Proof. intros Hp He Hf. split; [done|]. intros [b|e]; simpl; [apply Hf|apply He]. Qed.

Lemma rwrite_wp {B} o (f : bool -> rprog B) Q s :
  pre (LedgerWrite o) s -> (forall e, Q (Err tt) (upd (wrote o (Err e)) s)) ->
  (forall b, wp pre upd (f b) Q (upd (wrote o (Ok b)) s)) -> wp pre upd (rwrite o ≫= f) Q s.
Proof. intros Hp He Hf. split; [done|]. intros [b|e]; simpl; [apply Hf|apply He]. Qed.
End lift.

(** The answer of an insert that made a row. *)
Definition was_inserted (r : result LedgerError bool) : bool :=
  match r with Ok b => b | Err _ => false end.

(** ** Amounts *)

(** What a row entitles [addr] to. *)
Definition weight (addr : Z) (r : PaymentRow) : Z :=
  if bool_decide (device_address r = addr) then credit_amount r else 0.

Definition owed (addr : Z) (l : Ledger) : Z := sum_Z (weight addr <$> (map_to_list l).*2).

(** What a call pays [addr]: a transfer the node accepted, and [w] times one it
    answered with an error. *)
Definition pays (w addr : Z) (c : call FunderAnswer) : Z :=
  let '(existT e r) := c in
  match e return FunderAnswer e -> Z with
  | Node q =>
      match q return FunderAnswer (Node q) -> Z with
      | SendTransaction tx => fun r =>
          if bool_decide (tx_to tx = addr) then (if is_ok r then 1 else w) * tx_value tx else 0
      | _ => fun _ => 0
      end
  | _ => fun _ => 0
  end r.

Definition paid (w addr : Z) (evs : list (call FunderAnswer)) : Z := sum_Z (pays w addr <$> evs).

(** Wei in the transactions to [addr] a node accepted, and in all those it was
    given. *)
Definition accepted_wei : Z -> list (call FunderAnswer) -> Z := paid 0.
Definition handed_wei : Z -> list (call FunderAnswer) -> Z := paid 1.

Lemma paid_snoc w addr evs c : paid w addr (evs ++ [c]) = paid w addr evs + pays w addr c.
Proof. unfold paid. rewrite fmap_app, sum_Z_app. unfold sum_Z. simpl. lia. Qed.

Lemma owed_fmap addr l : owed addr l = sum_Z (map_to_list (weight addr <$> l)).*2.
Proof.
  unfold owed. rewrite map_to_list_fmap, <-!list_fmap_compose. reflexivity.
Qed.

Lemma owed_insert addr h r l :
  l !! h = None -> owed addr (<[h := r]> l) = weight addr r + owed addr l.
Proof.
  intros Hl. unfold owed. rewrite (map_to_list_insert l h r Hl). done.
Qed.

Lemma owed_alter addr f h l :
  (forall r, weight addr (f r) = weight addr r) -> owed addr (alter f h l) = owed addr l.
Proof.
  intros Hf. rewrite !owed_fmap. do 3 f_equal. apply map_eq. intros i.
  rewrite !lookup_fmap. destruct (decide (i = h)) as [->|].
  - rewrite lookup_alter_eq. destruct (l !! h); simpl; by rewrite ?Hf.
  - by rewrite lookup_alter_ne.
Qed.

(** ** From a protocol of the tasks to an invariant of the service *)

Section system.
Context (keccak256 : list Z -> Z) (separator : Eip712Domain -> Z).
Context (recover_address_from_prehash : Signature -> Z -> option Z).
Context (app : AppState) (limits : RateLimitConfig).

#[local] Notation system_step := (system_step keccak256 separator recover_address_from_prehash app limits).
#[local] Notation reachable := (reachable keccak256 separator recover_address_from_prehash app limits).
#[local] Notation request_task := (request_task keccak256 separator recover_address_from_prehash app).
#[local] Notation resume_task := (resume_task app).

Section protocol.
Context {S : Type} (pre : FunderCall -> S -> Prop) (upd : call FunderAnswer -> S -> S).
Context (J : Z -> Shared -> list S -> Prop).

Hypothesis J_call : forall k w ss i s e r w', J k w ss -> ss !! i = Some s -> pre e s ->
  funder_exec limits e w r w' -> J k w' (<[i := upd (existT e r) s]> ss).
Hypothesis J_request : forall k w ss, J k w ss -> forall parsed, request_ok parsed ->
  exists s, wp pre upd (request_task parsed) (fun _ _ => True) s /\ J k w (ss ++ [s]).
Hypothesis J_drop : forall k w ss i, J k w ss -> J k w (delete i ss).
Hypothesis J_restart : forall k w ss now, J k w ss ->
  exists ss', Forall2 (fun row s => wp pre upd (resume_task row) (fun _ _ => True) s)
                (find_resumable_entries (ledger w)) ss'
    /\ J (k + 1) (mkShared (ledger w) (new_limiter now) (history w)) ss'.

Lemma protocol_steps s0 s :
  rtc system_step s0 s ->
  (exists ss, follows pre upd (tasks s0) ss /\ J (restarts s0) (shared s0) ss) ->
  exists ss, follows pre upd (tasks s) ss /\ J (restarts s) (shared s) ss.
Proof using J_call J_request J_drop J_restart.
  intros Hr H0. revert s Hr. apply (rtc_ind_r (fun s => exists ss, follows pre upd (tasks s) ss
    /\ J (restarts s) (shared s) ss)); [done|].
  intros s1 s2 _ Hs (ss & Hf & HJ). destruct Hs as [s parsed Hp|s w pool Hp|s i|s now]; simpl in *.
  - destruct (J_request _ _ _ HJ parsed Hp) as (x & Hw & HJ'). exists (ss ++ [x]).
    split; [|done]. apply Forall2_app; [done|]. by constructor.
  - apply (pool_invariant (funder_exec limits) pre upd (J (restarts s))
      (fun w ss i x e r w' => J_call (restarts s) w ss i x e r w') _ _ _ _ ss Hp Hf HJ).
  - exists (delete i ss). split; [by apply Forall2_delete|by apply J_drop].
  - destruct (J_restart _ _ _ now HJ) as (ss' & Hf' & HJ'). exists ss'. split; [|done].
    apply Forall2_fmap_l. exact Hf'.
Qed.

Lemma system_protocol s :
  (forall now, J 0 (mkShared ∅ (new_limiter now) []) []) -> reachable s ->
  exists ss, follows pre upd (tasks s) ss /\ J (restarts s) (shared s) ss.
Proof using J_call J_request J_drop J_restart.
  intros H0 [now Hr]. apply (protocol_steps _ _ Hr). exists []. split; [constructor|apply H0].
Qed.
End protocol.

(** ** Budgets

    A task's tracked state is what it may still hand over to [addr]. *)
Section budget.
Context (w addr : Z) (Hw : w = 0 \/ w = 1).
#[local] Notation F := (1 + 2 * w).

Definition budget_pre (e : FunderCall) (s : Z) : Prop :=
  match e with
  | Node (SendTransaction tx) => 0 <= tx_value tx /\ (tx_to tx = addr -> tx_value tx <= s)
  | LedgerWrite (TryInsert _ _ _ a _) => 0 <= a
  | _ => True
  end.

Definition budget_upd (c : call FunderAnswer) (s : Z) : Z :=
  s - pays w addr c +
  let '(existT e r) := c in
  match e return FunderAnswer e -> Z with
  | LedgerWrite (TryInsert _ _ d a _) => fun r =>
      if bool_decide (d = addr) && was_inserted r then F * a else 0
  | _ => fun _ => 0
  end r.

#[local] Notation bwp := (wp budget_pre budget_upd).

#[local] Instance budget_quiet : QuietProtocol (node_pre budget_pre) (node_upd budget_upd).
Proof using. split; [by intros []|]. intros [] r s He; try done; unfold node_upd, budget_upd; simpl; lia. Qed.

Lemma transfer_budget signer to v env s (Q : result ChainError EthTransferAnchorV1 -> Z -> Prop) :
  0 <= v -> (if bool_decide (to = addr) then F * v else 0) <= s -> (forall r s, Q r s) ->
  bwp (on_node (submit_eth_transfer_v1 signer to v env)) Q s.
Proof using Hw.
  intros Hv Hs HQ. apply on_node_wp.
  apply (submit_eth_transfer_wp _ _ _ _ _ _
    (fun r s => (if bool_decide (to = addr) then (1 + w * Z.of_nat r) * v else 0) <= s)
    (fun _ _ => True)); [| |by case_bool_decide; lia|done].
  - intros cid. split_and!; [|done|].
    + intros r s' n fee g Hi _ tx. unfold node_pre, node_upd, budget_pre, budget_upd, pays. simpl.
      split; [|split; [done|]].
      * split; [done|]. intros ->. rewrite bool_decide_eq_true_2 in Hi by done. destruct Hw; nia.
      * intros _. split; [done|]. intros r' ->. case_bool_decide; nia.
    + intros r s' Hi. case_bool_decide; nia.
  - split; [done|]. intros h s' _. split_and!; [done|intros; apply HQ..].
Qed.

Lemma redemption_budget deployed signer sr env s (Q : result ChainError RedemptionAnchorV1 -> Z -> Prop) :
  0 <= s -> (forall r, Q r s) -> bwp (on_node (submit_redemption_v1 deployed signer sr env)) Q s.
Proof using Hw.
  intros Hs HQ. apply on_node_wp.
  apply (submit_redemption_wp _ _ _ _ _ _ (fun _ s' => s' = s) (fun _ s' => s' = s)); [| |done|auto].
  - intros c cid. split_and!; [|by intros; subst|by intros; subst].
    intros r s' n fee g -> _ tx. unfold node_pre, node_upd, budget_pre, budget_upd, pays. simpl.
    assert (Hz : forall b, s - (if bool_decide (c = addr) then b * 0 else 0) + 0 = s)
      by (intros; case_bool_decide; lia).
    rewrite !Hz. repeat split; lia.
  - intros c _. split; [by intros e s' ->|]. intros h s' ->.
    unfold node_pre, node_upd, budget_pre, budget_upd, pays. rewrite Z.sub_0_r, Z.add_0_r. auto.
Qed.

(** A write that inserts no row. *)
Lemma budget_write o r s :
  match o with TryInsert _ _ _ _ _ => False | _ => True end ->
  budget_pre (LedgerWrite o) s /\ budget_upd (wrote o r) s = s.
Proof using. destruct o; [done|..]; intros _; split; try done; unfold budget_upd; simpl; lia. Qed.

Lemma transfer_leg_budget h tx signer to v s :
  0 <= v -> (if bool_decide (to = addr) then F * v else 0) <= s ->
  bwp (transfer_leg app h tx signer to v) (fun _ _ => True) s.
Proof using Hw.
  intros Hv Hs. apply wp_bind, transfer_budget; [done|done|]. intros [a|e] s'.
  - apply write_wp; [done|done|]. intros ?. by apply write_wp.
  - by split.
Qed.

Lemma handle_budget parsed s :
  request_ok parsed -> 0 <= s ->
  bwp (handle keccak256 separator recover_address_from_prehash app parsed) (fun _ _ => True) s.
Proof using Hw.
  intros Hp Hs. destruct parsed as [req|]; [|done]. simpl in Hp. apply wp_bind, on_limiter_wp.
  { done. } { intros. unfold budget_upd. simpl. lia. }
  intros [|s']; [|done]. split; [done|]. intros now.
  replace (budget_upd _ s) with s by (unfold budget_upd; simpl; lia).
  destruct (validate _ _ _ _ now req) as [v|e] eqn:Ev; [|done].
  assert (v = amount (credit_fields (req_credit req))) as ->.
  { revert Ev. unfold validate, clamp_eth_transfer_amount. repeat case_match; congruence. }
  split; [done|]. intros created.
  replace (budget_upd _ s) with s by (unfold budget_upd; simpl; lia).
  apply write_wp; [done|done|]. intros []; [|done].
  set (s1 := budget_upd _ s).
  assert (Hs1 : (if bool_decide (req_device_address req = addr)
                 then F * amount (credit_fields (req_credit req)) else 0) <= s1).
  { unfold s1, budget_upd, wrote. simpl. rewrite andb_true_r. case_bool_decide; lia. }
  assert (Hs1' : 0 <= s1) by (revert Hs1; case_bool_decide; destruct Hw; nia).
  unfold redeem_leg. destruct (sign_redemption _ _ _) as [signed|e]; [|done].
  destruct (local_signer app) as [signer|]; [|done].
  apply wp_ebind, wp_bind.
  apply redemption_budget; [done|]. intros [a|e]; [|done].
  set (h := credit_attestation_hash _ _).
  assert (Hq : forall o r, match o with TryInsert _ _ _ _ _ => False | _ => True end ->
    budget_upd (wrote o r) s1 = s1) by (intros; by apply budget_write).
  apply write_wp; [done|done|]. intros b. rewrite (Hq (UpdateRedemptionTxHash _ _)) by done.
  apply write_wp; [done|done|]. intros b'. rewrite (Hq (TransitionState _ _)) by done.
  by apply transfer_leg_budget.
Qed.

Lemma drive_eth_transfer_budget row s :
  0 <= credit_amount row -> F * weight addr row <= s ->
  bwp (drive_eth_transfer app row) (fun _ _ => True) s.
Proof using Hw.
  intros Hc Hs. unfold drive_eth_transfer. destruct (local_signer app) as [signer|]; [|done].
  unfold clamp_eth_transfer_amount. destruct (_ <? _); [done|].
  apply wp_ebind, wp_bind, transfer_budget; [done| |].
  { unfold weight in Hs. case_bool_decide; lia. }
  intros [a|e] s'; [|done]. apply rwrite_wp; [done|done|]. intros ?. by apply rwrite_wp.
Qed.

Lemma resume_budget row s :
  0 <= credit_amount row -> F * weight addr row <= s ->
  bwp (resume_task row) (fun _ _ => True) s.
Proof using Hw.
  intros Hc Hs. apply wp_bind.
  assert (Hs0 : 0 <= s) by (unfold weight in Hs; case_bool_decide; destruct Hw; nia).
  apply (wp_mono _ _ _ (fun _ _ => True)); [|by intros [?|?] s' _].
  unfold drive_to_completion. destruct (local_signer app) as [signer|]; [|done].
  destruct (state row); try done; [|by apply drive_eth_transfer_budget|by apply rwrite_wp].
  destruct (sign_redemption _ _ _) as [signed|e]; [|done].
  apply wp_bind, redemption_budget; [done|].
  assert (Hgo : bwp (rwrite (TransitionState (attestation_hash row) RedeemMined) ≫= fun _ =>
    drive_eth_transfer app row) (fun _ _ => True) s).
  { apply rwrite_wp; [done|done|]. intros b. unfold budget_upd. simpl. rewrite Z.sub_0_r, Z.add_0_r.
    by apply drive_eth_transfer_budget. }
  by intros [?|[]].
Qed.

(** What is paid and what the tasks may still pay is within what is owed. *)
Definition in_budget (k : Z) (sh : Shared) (ss : list Z) : Prop :=
  0 <= k /\ Forall (fun s => 0 <= s) ss
  /\ map_Forall (fun _ r => 0 <= credit_amount r) (ledger sh)
  /\ paid w addr (history sh) + sum_Z ss <= F * (k + 1) * owed addr (ledger sh).

Lemma ledger_apply_budget o l b l' :
  ledger_apply o l = (b, l') -> budget_pre (LedgerWrite o) 0 ->
  map_Forall (fun _ r => 0 <= credit_amount r) l ->
  map_Forall (fun _ r => 0 <= credit_amount r) l'
  /\ owed addr l' = owed addr l + match o with
       | TryInsert _ _ d a _ => if bool_decide (d = addr) && b then a else 0 | _ => 0 end.
Proof using.
  assert (Hup : forall f h, update_row f h l = (b, l') ->
    (forall r, weight addr (f r) = weight addr r) -> (forall r, credit_amount (f r) = credit_amount r) ->
    map_Forall (fun _ r => 0 <= credit_amount r) l ->
    map_Forall (fun _ r => 0 <= credit_amount r) l' /\ owed addr l' = owed addr l + 0).
  { intros f h [= _ <-] Hf Hc Hl. rewrite owed_alter by done. split; [|lia].
    intros i r. rewrite lookup_alter_Some. intros [(-> & r0 & Hr & ->)|[_ Hr]].
    - rewrite Hc. by apply (Hl i). - by apply (Hl i). }
  intros Ho Hp Hl. destruct o; simpl in *; try by eapply Hup.
  destruct (l !! h) as [r|] eqn:E; injection Ho as <- <-.
  - rewrite andb_false_r. split; [done|lia].
  - rewrite owed_insert by done. rewrite andb_true_r. split.
    + by apply map_Forall_insert_2.
    + unfold weight. simpl. lia.
Qed.

Lemma in_budget_call k sh ss i s e r sh' :
  in_budget k sh ss -> ss !! i = Some s -> budget_pre e s -> funder_exec limits e sh r sh' ->
  in_budget k sh' (<[i := budget_upd (existT e r) s]> ss).
Proof using Hw.
  intros (Hk & Hss & Hl & Hp) Hi Hpre He. pose proof (Forall_lookup_1 _ _ _ _ Hss Hi) as Hs.
  simpl in Hs. unfold in_budget. rewrite (sum_Z_insert _ _ s) by done.
  destruct e as [q|o|c|]; simpl in He, Hpre.
  - subst sh'. simpl. rewrite paid_snoc. unfold budget_upd. cbn [budget_upd].
    assert (Hpay : pays w addr (existT (Node q) r) <= s).
    { destruct q; simpl in *; try lia. case_bool_decide; [|lia].
      destruct Hpre as [Hv Hle]. specialize (Hle ltac:(done)). destruct (is_ok r), Hw; nia. }
    split_and!; [done|apply Forall_insert; [done|lia]|done|lia].
  - destruct r as [b|e]; [destruct He as (l & Ha & ->)|subst sh']; simpl; rewrite paid_snoc.
    + destruct (ledger_apply_budget _ _ _ _ Ha) as [Hl' Ho]; [by destruct o|done|].
      rewrite Ho. unfold budget_upd. cbn [pays].
      destruct o; simpl in *; try (split_and!; [done|apply Forall_insert; [done|lia]|done|lia]).
      destruct (bool_decide _ && b) eqn:Eb; cbn [Z.add];
        (split_and!; [done|apply Forall_insert; [done|destruct Hw; nia]|done|destruct Hw; nia]).
    + set (s1 := budget_upd _ s). assert (Hq : s1 = s).
      { unfold s1, budget_upd. destruct o; simpl; rewrite ?andb_false_r; lia. }
      rewrite Hq. clear s1 Hq Hpre. cbn [pays]. split_and!; [done|by apply Forall_insert|done|lia].
  - destruct He as (l & _ & ->). simpl. rewrite paid_snoc. unfold budget_upd; cbn [pays].
    split_and!; [done|apply Forall_insert; [done|lia]|done|lia].
  - subst sh'. simpl. rewrite paid_snoc. unfold budget_upd; cbn [pays].
    split_and!; [done|apply Forall_insert; [done|lia]|done|lia].
Qed.

Lemma resumable_owed l :
  map_Forall (fun _ r => 0 <= credit_amount r) l ->
  Forall (fun r => 0 <= credit_amount r) (find_resumable_entries l)
  /\ sum_Z ((fun r => F * weight addr r) <$> find_resumable_entries l) <= F * owed addr l.
Proof using Hw.
  intros Hl. unfold find_resumable_entries, owed.
  assert (Hall : forall r, r ∈ (map_to_list l).*2 -> 0 <= credit_amount r).
  { intros r Hr. apply list_elem_of_fmap in Hr as ([h r'] & -> & Hr).
    apply elem_of_map_to_list in Hr. by apply (Hl h). }
  split.
  - apply Forall_forall. intros r Hr. apply list_elem_of_filter in Hr as [_ Hr]. by apply Hall.
  - rewrite <-sum_Z_scale. apply sum_Z_filter_le. intros r Hr. specialize (Hall r Hr).
    unfold weight. case_bool_decide; destruct Hw; nia.
Qed.

Lemma in_budget_start now : in_budget 0 (mkShared ∅ (new_limiter now) []) [].
Proof using.
  unfold in_budget, paid, owed. simpl. rewrite map_to_list_empty. unfold sum_Z. simpl.
  split_and!; [lia|constructor|apply map_Forall_empty|lia].
Qed.

Lemma within_budget s : reachable s -> exists ss, in_budget (restarts s) (shared s) ss.
Proof using Hw.
  intros Hr. destruct (system_protocol budget_pre budget_upd in_budget) with s as (ss & _ & HJ);
    [exact in_budget_call| | | |exact in_budget_start|done|by exists ss].
  - intros k sh ss (Hk & Hss & Hl & Hp) parsed Hreq. exists 0. split.
    + apply wp_bind. eapply wp_mono; [by apply handle_budget|done].
    + split_and!; [done|apply Forall_app_2; [done|repeat constructor; lia]|done|].
      rewrite sum_Z_app. unfold sum_Z at 2. simpl. lia.
  - intros k sh ss i (Hk & Hss & Hl & Hp). pose proof (sum_Z_delete_le ss i Hss).
    split_and!; [done|by apply Forall_delete|done|lia].
  - intros k sh ss now (Hk & Hss & Hl & Hp).
    destruct (resumable_owed (ledger sh) Hl) as [Hpos Hsum]. pose proof (sum_Z_nonneg _ Hss).
    exists ((fun r => F * weight addr r) <$> find_resumable_entries (ledger sh)). split.
    + apply Forall2_fmap_r, Forall_Forall2_diag. eapply Forall_impl; [exact Hpos|].
      intros row Hrow. by apply resume_budget.
    + split_and!; [lia| |done|simpl; lia]. apply Forall_fmap. eapply Forall_impl; [exact Hpos|].
      intros row Hrow. simpl in *. unfold weight. case_bool_decide; destruct Hw; nia.
Qed.
End budget.

(** C10. What the service can pay a device.  Whatever is requested, however
    the tasks interleave, wherever they are dropped and wherever the process
    dies, and whatever the node answers: the wei of the transfers to an
    address that the node accepted are at most, per start of the process, the
    amounts of the credits the ledger has for this address; and those of all
    transfers it was handed at most three times that. *)
Theorem no_overpay s addr :
  reachable s ->
  accepted_wei addr (history (shared s)) <= (restarts s + 1) * owed addr (ledger (shared s))
  /\ handed_wei addr (history (shared s)) <= 3 * (restarts s + 1) * owed addr (ledger (shared s)).
Proof.
  intros Hr. split.
  - destruct (within_budget 0 addr (or_introl eq_refl) s Hr) as (ss & _ & Hss & _ & Hp).
    pose proof (sum_Z_nonneg _ Hss). unfold accepted_wei. lia.
  - destruct (within_budget 1 addr (or_intror eq_refl) s Hr) as (ss & _ & Hss & _ & Hp).
    pose proof (sum_Z_nonneg _ Hss). unfold handed_wei. lia.
Qed.

(** ** Runs of the service *)

Fixpoint funder_run (sh : Shared) (evs : list (call FunderAnswer)) (sh' : Shared) : Prop :=
  match evs with
  | [] => sh = sh'
  | existT c r :: rest => exists sh1, funder_exec limits c sh r sh1 /\ funder_run sh1 rest sh'
  end.

Lemma funder_run_app sh e1 sh1 e2 sh2 :
  funder_run sh e1 sh1 -> funder_run sh1 e2 sh2 -> funder_run sh (e1 ++ e2) sh2.
Proof.
  revert sh. induction e1 as [|[c r] e1 IH]; intros sh; simpl; [by intros ->|].
  intros (x & Hx & H1) H2. eauto.
Qed.

(** A task that can run does. *)
Lemma task_runs s i p evs p' sh' :
  tasks s !! i = Some p -> reaches p evs p' -> funder_run (shared s) evs sh' ->
  rtc system_step s (mkSystem sh' (restarts s) (<[i := p']> (tasks s))).
Proof.
  intros Hi Hr. revert s sh' Hi. induction Hr as [p|e k r evs p' Hr IH]; intros s sh' Hi Hrun.
  - simpl in Hrun. subst sh'. rewrite list_insert_id by done. destruct s. apply rtc_refl.
  - destruct Hrun as (sh1 & He & Hrun). eapply rtc_l.
    + apply step_task. apply pool_call; [exact Hi|exact He].
    + specialize (IH (mkSystem sh1 (restarts s) (<[i := k r]> (tasks s))) sh').
      simpl in IH. rewrite list_insert_insert_eq in IH. apply IH; [|done].
      apply list_lookup_insert_eq. by eapply lookup_lt_Some.
Qed.

Definition at_node (c : call Answer) : call FunderAnswer :=
  let '(existT e r) := c in existT (Node e) r.

Lemma on_node_reaches {A} (p p' : prog Answer A) evs :
  reaches p evs p' -> reaches (on_node p) (at_node <$> evs) (on_node p').
Proof. induction 1 as [|e k r evs p' Hr IH]; simpl; [apply reaches_here|by apply reaches_call]. Qed.

Lemma at_node_runs sh evs :
  funder_run sh (at_node <$> evs) (mkShared (ledger sh) (limiter sh) (history sh ++ (at_node <$> evs))).
Proof.
  revert sh. induction evs as [|[e r] evs IH]; intros sh; simpl.
  - rewrite app_nil_r. by destruct sh.
  - eexists. split; [done|]. specialize (IH (mkShared (ledger sh) (limiter sh)
      (history sh ++ [existT (Node e) r]))). simpl in IH. by rewrite <-app_assoc in IH.
Qed.

Lemma update_row_here f i r (l : Ledger) : update_row f i (<[i := r]> l) = (true, <[i := f r]> l).
Proof.
  unfold update_row. rewrite lookup_insert_eq, alter_insert_eq. by rewrite bool_decide_eq_true_2.
Qed.

(** *** A request that is paid and then forgotten *)

Section twice.
Context (req : TopUpRequest) (signed : SignedRedemptionV1) (signer wei : Z).
#[local] Notation c := (credit_fields (req_credit req)).
#[local] Notation dev := (req_device_address req).
#[local] Notation h := (credit_attestation_hash keccak256 (req_credit req)).
#[local] Notation registry := EXPECTED_ENTITLEMENT_REGISTRY_ADDRESS_BASE_SEPOLIA.
Hypothesis Henv : app_env app = BaseSepolia.
Hypothesis Hdeployed : registry_deployed app = Ok registry.
Hypothesis Hsigner : local_signer app = Some signer.
Hypothesis Hsign : sign_redemption app c (app_env app) = Ok signed.
Hypothesis Hvalid : validate keccak256 separator recover_address_from_prehash app 0 req = Ok wei.
Hypothesis Hamount : 0 <= amount c.
Hypothesis Hlimits : 1 <= per_address_bucket_size limits /\ 1 <= global_cap_per_hour limits.

Definition redeemed_receipt : TransactionReceipt :=
  let f := redemption_fields signed in
  mkTransactionReceipt true (Some 1) (Some 1) (Some registry)
    [mkLog registry (Some RedeemedTopic)
       (Some (mkRedeemed (user_id f) (amount f) 0 (nonce f))) None (Some 0)].

Definition redeem_calls : list (call Answer) :=
  existT Connect (Ok tt : Answer Connect) :: existT GetChainId (Ok 84532 : Answer GetChainId)
  :: attempt_calls signer (redemption_tx signer registry signed 84532) 0 1 100000 1000000002 (Ok 5)
  ++ [existT (GetReceipt 5) (Ok redeemed_receipt : Answer (GetReceipt 5))].

Definition transfer_calls : list (call Answer) :=
  existT Connect (Ok tt : Answer Connect) :: existT GetChainId (Ok 84532 : Answer GetChainId)
  :: attempt_calls signer (eth_transfer_tx signer dev wei 84532) 1 1 21000 1000000002 (Ok 6).

Lemma redeem_reaches : exists a,
  reaches (submit_redemption_v1 (registry_deployed app) signer signed (app_env app)) redeem_calls
    (Ret (Ok a)) /\ ra_tx_hash a = 5.
Proof using Henv Hdeployed.
  exists (mkRedemptionAnchorV1 5 1 1 0 0 (nonce (redemption_fields signed))). split; [|done].
  unfold submit_redemption_v1. rewrite Henv, Hdeployed.
  eapply (reaches_app _ _ _ (_ :: _ :: attempt_calls _ _ _ _ _ _ _)).
  - apply (accepted_reaches BaseSepolia signer
      (fun cid => redemption_tx signer registry signed cid) decode_redemption_revert_reason_from_msg
      (fun r t => process_redemption_receipt r registry t signed) 84532); done.
  - apply reaches_call. simpl. unfold process_redemption_receipt, find_log. simpl.
    rewrite !bool_decide_eq_true_2 by done. simpl.
    apply reaches_here.
Qed.

Lemma transfer_reaches : exists k,
  reaches (submit_eth_transfer_v1 signer dev wei (app_env app)) transfer_calls (Do (GetReceipt 6) k).
Proof using Henv.
  eexists. rewrite Henv.
  apply (accepted_reaches BaseSepolia signer (fun cid => eth_transfer_tx signer dev wei cid)
    eth_transfer_reverted (fun r t => process_eth_transfer_receipt r t dev wei) 84532); done.
Qed.

(** The calls of the request up to the insert, and from there up to the answer
    that the transfer was accepted. *)
Definition insert_calls : list (call FunderAnswer) :=
  [existT (Limiter InstantNow) 0; existT (Limiter (PerAddress dev 0)) Allowed;
   existT (Limiter (Global 0)) Allowed; existT UnixNow 0; existT UnixNow 0;
   wrote (TryInsert h (user_id c) dev (amount c) 0) (Ok true)].

Definition request_calls : list (call FunderAnswer) :=
  insert_calls ++ (at_node <$> redeem_calls)
  ++ [wrote (UpdateRedemptionTxHash h 5) (Ok true); wrote (TransitionState h RedeemMined) (Ok true)]
  ++ (at_node <$> transfer_calls).

Definition resume_calls : list (call FunderAnswer) := at_node <$> transfer_calls.

Definition forgotten_row : PaymentRow :=
  mkPaymentRow h (user_id c) dev (amount c) (Some 5) RedeemMined None None None 0.

Lemma redeem_leg_reaches : exists p, reaches (redeem_leg app h req wei)
  ((at_node <$> redeem_calls)
   ++ [wrote (UpdateRedemptionTxHash h 5) (Ok true); wrote (TransitionState h RedeemMined) (Ok true)]
   ++ (at_node <$> transfer_calls)) p.
Proof using Henv Hdeployed Hsigner Hsign.
  destruct redeem_reaches as (a & Ha & Htx). destruct transfer_reaches as (k & Hk).
  eexists. unfold redeem_leg. rewrite Hsign, Hsigner. eapply reaches_app.
  - do 2 apply reaches_bind. apply on_node_reaches, Ha.
  - cbn [on_node prog_bind map_err]. rewrite Htx. apply reaches_call, reaches_call.
    apply reaches_bind, on_node_reaches, Hk.
Qed.

Lemma insert_reaches : exists p, reaches (request_task (Some req)) insert_calls p
  /\ p = prog_bind (fun _ => Ret tt) (redeem_leg app h req wei).
Proof using Hvalid.
  eexists. split; [|reflexivity]. do 4 apply reaches_call. simpl. rewrite Hvalid.
  do 2 apply reaches_call. apply reaches_here.
Qed.

Lemma handle_reaches : exists p, reaches (request_task (Some req)) request_calls p.
Proof using Henv Hdeployed Hsigner Hsign Hvalid.
  destruct redeem_leg_reaches as (p & Hp). destruct insert_reaches as (q & Hq & ->). eexists.
  eapply reaches_app; [exact Hq|]. apply reaches_bind, Hp.
Qed.

Definition inserted_row : PaymentRow :=
  mkPaymentRow h (user_id c) dev (amount c) None PreRedeem None None None 0.

Lemma insert_runs : exists l,
  funder_run (mkShared ∅ (new_limiter 0) []) insert_calls
    (mkShared {[h := inserted_row]} l insert_calls).
Proof using Hlimits.
  destruct Hlimits as [Hsize Hcap].
  destruct (fresh_bucket_allows limits dev 0 (new_limiter 0) Hsize) as (l1 & H1 & Hg & _); [done|].
  destruct (fresh_counter_allows limits 0 l1 Hcap Hg) as (l2 & H2). exists l2.
  simpl. do 6 (eexists; split; [eauto|]). reflexivity.
Qed.

Lemma request_runs : exists l,
  funder_run (mkShared ∅ (new_limiter 0) []) request_calls
    (mkShared {[h := forgotten_row]} l request_calls).
Proof using Hlimits.
  destruct insert_runs as (l & Hl). exists l.
  eapply funder_run_app; [exact Hl|]. eapply funder_run_app; [apply at_node_runs|].
  simpl ledger. simpl limiter. simpl history. eapply (funder_run_app _ [_; _]).
  - eexists. split; [eexists; split; [apply update_row_here|reflexivity]|].
    eexists. split; [eexists; split; [apply update_row_here|reflexivity]|]. reflexivity.
  - exact (at_node_runs _ transfer_calls).
Qed.

(** The process died right after the insert. *)
Lemma stranded : exists s, reachable s /\ ledger (shared s) !! h = Some inserted_row.
Proof using Hvalid Hamount Hlimits.
  destruct insert_reaches as (p & Hp & _). destruct insert_runs as (l & Hrun).
  eexists. split; [exists 0|].
  - eapply rtc_l; [by apply (step_request _ _ _ _ _ (first_start 0) (Some req))|].
    eapply (task_runs _ 0 (request_task (Some req))); [reflexivity|exact Hp|exact Hrun].
  - simpl. apply lookup_singleton_eq.
Qed.

Lemma paid_twice : exists s,
  reachable s /\ restarts s = 1 /\ owed dev (ledger (shared s)) = amount c
  /\ accepted_wei dev (history (shared s)) = 2 * amount c
  /\ exists tx r, existT (Node (SendTransaction tx)) r ∈ history (shared s) /\ tx_input tx = NoInput
       /\ tx_to tx = dev /\ tx_value tx = wei.
Proof using Henv Hdeployed Hsigner Hsign Hvalid Hamount Hlimits.
  assert (Hwei : wei = amount c).
  { revert Hvalid. unfold validate, clamp_eth_transfer_amount. repeat case_match; congruence. }
  assert (Hclamp : clamp_eth_transfer_amount (amount c) (eth_transfer_per_tx_cap_wei app) = Some wei).
  { revert Hvalid. unfold validate. repeat case_match; congruence. }
  destruct handle_reaches as (p & Hp). destruct request_runs as (l & Hrun).
  destruct transfer_reaches as (k & Hk).
  assert (Hres : exists q, reaches (resume_task forgotten_row) resume_calls q).
  { eexists. unfold resume_task, drive_to_completion, drive_eth_transfer. rewrite Hsigner. simpl state.
    cbn [credit_amount forgotten_row]. rewrite Hclamp. do 3 apply reaches_bind.
    apply on_node_reaches, Hk. }
  destruct Hres as (q & Hq).
  eexists. split; [exists 0|split_and!].
  - eapply rtc_l; [by apply (step_request _ _ _ _ _ (first_start 0) (Some req))|].
    etrans; [eapply (task_runs _ 0 (request_task (Some req))); [reflexivity|exact Hp|exact Hrun]|].
    eapply rtc_l; [apply (step_restart _ _ _ _ _ _ 0)|]. simpl.
    apply (task_runs (mkSystem _ _ _) 0 _ _ _ (mkShared {[h := forgotten_row]} (new_limiter 0)
      (request_calls ++ resume_calls))) with (2 := Hq); [|apply at_node_runs].
    unfold find_resumable_entries. by rewrite map_to_list_singleton.
  - done.
  - simpl. unfold owed. rewrite map_to_list_singleton. unfold sum_Z, weight. simpl.
    rewrite bool_decide_eq_true_2 by done. lia.
  - change (accepted_wei dev (request_calls ++ resume_calls) = 2 * amount c).
    unfold accepted_wei, paid, sum_Z. simpl.
    rewrite !(bool_decide_eq_true_2 (dev = dev)) by done. case_bool_decide; lia.
  - exists (attempt_tx (eth_transfer_tx signer dev wei 84532) 1 21000 1000000002),
      (Ok 6 : Answer (SendTransaction _)).
    split; [|done]. apply elem_of_app. right. do 5 apply list_elem_of_further. apply list_elem_of_here.
Qed.
End twice.

(** The factor of [no_overpay] is needed: a crash pays twice.  For any
    request that passes the checks there is a run with one restart in which
    the node accepted twice the amount of the only credit of the ledger: the
    process dies after the transfer is accepted and before it is marked, the
    row is still [RedeemMined], and the restart scan sends it again. *)
Theorem crash_pays_twice req signed signer wei :
  app_env app = BaseSepolia ->
  registry_deployed app = Ok EXPECTED_ENTITLEMENT_REGISTRY_ADDRESS_BASE_SEPOLIA ->
  local_signer app = Some signer ->
  sign_redemption app (credit_fields (req_credit req)) (app_env app) = Ok signed ->
  validate keccak256 separator recover_address_from_prehash app 0 req = Ok wei ->
  0 <= amount (credit_fields (req_credit req)) ->
  1 <= per_address_bucket_size limits /\ 1 <= global_cap_per_hour limits ->
  exists s, reachable s /\ restarts s = 1
    /\ owed (req_device_address req) (ledger (shared s)) = amount (credit_fields (req_credit req))
    /\ accepted_wei (req_device_address req) (history (shared s))
       = 2 * amount (credit_fields (req_credit req)).
Proof.
  intros. destruct (paid_twice req signed signer wei) as (s & Hr & Hk & Ho & Ha & _); eauto.
Qed.

(** ** What a transfer is for *)

Section entitlement.
(** A request that passed the checks has this hash, user, device and amount. *)
Definition authorised (h user device amt : Z) : Prop :=
  exists req, let c := req_credit req in
    credit_attestation_hash keccak256 c = h /\ user_id (credit_fields c) = user
    /\ req_device_address req = device /\ amount (credit_fields c) = amt
    /\ verify_credit_signature keccak256 separator recover_address_from_prehash c
         (payment_authority app) (app_env app) = true
    /\ verify_device_binding keccak256 recover_address_from_prehash (device_binding_sig req) h device
       = true
    /\ schema_version (credit_fields c) <= MAX_KNOWN_SCHEMA_VERSION
    /\ amt <= eth_transfer_per_tx_cap_wei app.

(** A receipt shows that the registry took the amount off the user's balance. *)
Definition redeems (user amt : Z) (receipt : TransactionReceipt) : Prop :=
  receipt_status receipt = true /\
  exists registry log ev, registry_deployed app = Ok registry
    /\ log ∈ receipt_logs receipt /\ log_address log = registry
    /\ first_topic log = Some RedeemedTopic /\ decode_redeemed log = Some ev
    /\ ev_user_id ev = user /\ ev_amount ev = amt.

Definition seen (receipt : TransactionReceipt) (evs : list (call FunderAnswer)) : Prop :=
  exists t, existT (Node (GetReceipt t)) (Ok receipt : Answer (GetReceipt t)) ∈ evs.

Definition past_redeem (s : PaymentState) : bool :=
  match s with PreRedeem | EthTransferFailed => false | _ => true end.

(** A task knows the receipts it was given and the rows it works on. *)
Definition Known : Type := list TransactionReceipt * list (Z * Z * Z * Z).

Definition entitled (h user device amt : Z) (s : Known) : Prop :=
  (h, user, device, amt) ∈ s.2 /\ exists receipt, receipt ∈ s.1 /\ redeems user amt receipt.

Definition known_pre (e : FunderCall) (s : Known) : Prop :=
  match e with
  | Node (SendTransaction tx) =>
      tx_input tx = NoInput -> exists h user, entitled h user (tx_to tx) (tx_value tx) s
  | LedgerWrite (TryInsert h user device amt _) => authorised h user device amt
  | LedgerWrite (TransitionState h st) =>
      st = EthTransferFailed \/ exists user device amt, entitled h user device amt s
  | LedgerWrite (UpdateRedemptionTxHash h _ | MarkEthTransferSubmitted h _ _
                 | MarkEthTransferMined h _) => exists user device amt, entitled h user device amt s
  | _ => True
  end.

Definition known_upd (c : call FunderAnswer) (s : Known) : Known :=
  let '(existT e r) := c in
  match e return FunderAnswer e -> Known with
  | Node q =>
      match q return FunderAnswer (Node q) -> Known with
      | GetReceipt _ => fun r => match r with Ok receipt => (receipt :: s.1, s.2) | Err _ => s end
      | _ => fun _ => s
      end
  | LedgerWrite (TryInsert h user device amt _) => fun r =>
      if was_inserted r then (s.1, (h, user, device, amt) :: s.2) else s
  | _ => fun _ => s
  end r.

#[local] Notation kwp := (wp known_pre known_upd).

#[local] Instance known_quiet : QuietProtocol (node_pre known_pre) (node_upd known_upd).
Proof using. split; by intros []. Qed.

(** What is known stays known. *)
Definition grows (s s' : Known) : Prop := s.1 ⊆ s'.1 /\ s.2 ⊆ s'.2.

Lemma entitled_grows h u d a s s' : entitled h u d a s -> grows s s' -> entitled h u d a s'.
Proof using. intros (Hr & x & Hx & Hred) [H1 H2]. split; [by apply H2|]. exists x. auto. Qed.

Lemma redeemed_receipt_redeems receipt contract t sr a :
  registry_deployed app = Ok contract ->
  process_redemption_receipt receipt contract t sr = Ok a ->
  redeems (user_id (redemption_fields sr)) (amount (redemption_fields sr)) receipt.
Proof using.
  intros Hd. unfold process_redemption_receipt, ensure, require, find_log.
  destruct (receipt_status receipt) eqn:Es; [|done]. simpl.
  destruct (receipt_block_number receipt); [|done]. destruct (receipt_block_hash receipt); [|done].
  simpl. destruct (List.find _ _) as [log|] eqn:Ef; [|done]. simpl.
  apply List.find_some in Ef as [Hin Hlog]. apply list_elem_of_In in Hin.
  apply andb_true_iff in Hlog as [Haddr%bool_decide_eq_true Htopic%bool_decide_eq_true]. destruct (decode_redeemed log) as [ev|] eqn:Ed; [|done]. simpl.

  destruct (bool_decide_reflect (ev_user_id ev = user_id (redemption_fields sr))); [simpl|done].
  destruct (bool_decide_reflect (ev_amount ev = amount (redemption_fields sr))); [simpl|done].
  intros _. split; [done|]. by exists contract, log, ev.
Qed.

Lemma redemption_known signer sr env s :
  kwp (on_node (submit_redemption_v1 (registry_deployed app) signer sr env))
    (fun r s' => grows s s' /\ s'.2 = s.2 /\ match r with
       | Ok _ => exists receipt, receipt ∈ s'.1 /\
           redeems (user_id (redemption_fields sr)) (amount (redemption_fields sr)) receipt
       | Err _ => True end) s.
Proof using.
  apply on_node_wp.
  apply (submit_redemption_wp _ _ _ _ _ _ (fun _ s' => s' = s) (fun _ s' => s' = s)); [| |done|].
  - intros c cid. split_and!; [|by intros; subst|by intros; subst].
    intros r s' n fee g -> _ tx. split_and!; [done|done|]. intros m. split; [done|]. by intros r' ->.
  - intros c Hc. split; [by intros e s' ->|]. intros t s' ->. split_and!; [done|done|].
    intros receipt. unfold grows. simpl. split_and!; [set_solver|set_solver|done|].
    destruct (process_redemption_receipt receipt c t sr) as [a|] eqn:E; [|done].
    exists receipt. split; [set_solver|]. by eapply redeemed_receipt_redeems.
  - by intros e.
Qed.

Lemma transfer_known signer to v env s h user (Q : result ChainError EthTransferAnchorV1 -> Known -> Prop) :
  entitled h user to v s -> (forall r s', grows s s' -> Q r s') ->
  kwp (on_node (submit_eth_transfer_v1 signer to v env)) Q s.
Proof using.
  intros He HQ. apply on_node_wp.
  apply (submit_eth_transfer_wp _ _ _ _ _ _ (fun _ s' => s' = s) (fun _ s' => s' = s)); [| |done|].
  - intros cid. split_and!; [|by intros; subst|by intros; subst].
    intros r s' n fee g -> _ tx. split_and!; [|done|].
    + intros _. by exists h, user.
    + intros m. split; [done|]. by intros r' ->.
  - split; [intros e s' ->; by apply HQ|]. intros t s' ->. split_and!; [done|by intros; apply HQ|].
    intros receipt. apply HQ. split; simpl; set_solver.
  - intros e. by apply HQ.
Qed.

Lemma transfer_leg_known h user tx signer to v s :
  entitled h user to v s -> kwp (transfer_leg app h tx signer to v) (fun _ _ => True) s.
Proof using.
  intros He. apply wp_bind. eapply transfer_known; [exact He|]. intros [a|e] s' Hg.
  - pose proof (entitled_grows _ _ _ _ _ _ He Hg).
    apply write_wp; [simpl; eauto|done|]. intros ?. apply write_wp; [simpl; eauto|done|done].
  - split; [by left|done].
Qed.

Lemma validate_authorised now req v :
  validate keccak256 separator recover_address_from_prehash app now req = Ok v ->
  let c := req_credit req in
  v = amount (credit_fields c)
  /\ authorised (credit_attestation_hash keccak256 c) (user_id (credit_fields c))
       (req_device_address req) v.
Proof using.
  unfold validate, clamp_eth_transfer_amount. intros H. simpl. repeat case_match; zbool; simplify_eq.
  split; [done|]. exists req. split_and!; try done; by apply negb_false_iff.
Qed.

Definition of_row (r : PaymentRow) : Z * Z * Z * Z :=
  (attestation_hash r, pay_user_id r, device_address r, credit_amount r).

Lemma drive_eth_transfer_known row s :
  entitled (attestation_hash row) (pay_user_id row) (device_address row) (credit_amount row) s ->
  kwp (drive_eth_transfer app row) (fun _ _ => True) s.
Proof using.
  intros He. unfold drive_eth_transfer. destruct (local_signer app) as [signer|]; [|done].
  unfold clamp_eth_transfer_amount. destruct (_ <? _); [done|].
  apply wp_ebind, wp_bind. eapply transfer_known; [exact He|]. intros [a|e] s' Hg; [|done].
  pose proof (entitled_grows _ _ _ _ _ _ He Hg).
  apply rwrite_wp; [simpl; eauto|done|]. intros ?. by apply rwrite_wp; [simpl; eauto|..].
Qed.

(** *** The invariant of the service *)

Definition row_ok (evs : list (call FunderAnswer)) (h : Z) (r : PaymentRow) : Prop :=
  attestation_hash r = h /\ authorised h (pay_user_id r) (device_address r) (credit_amount r)
  /\ (past_redeem (state r) = true ->
      exists receipt, seen receipt evs /\ redeems (pay_user_id r) (credit_amount r) receipt).

Definition backed (sh : Shared) (tx : Tx) : Prop :=
  exists h row receipt, ledger sh !! h = Some row /\ device_address row = tx_to tx
    /\ credit_amount row = tx_value tx /\ seen receipt (history sh)
    /\ redeems (pay_user_id row) (credit_amount row) receipt.

Definition true_knowledge (sh : Shared) (s : Known) : Prop :=
  (forall receipt, receipt ∈ s.1 -> seen receipt (history sh))
  /\ forall x, x ∈ s.2 -> exists r, ledger sh !! x.1.1.1 = Some r /\ of_row r = x.

Definition justified (_ : Z) (sh : Shared) (ss : list Known) : Prop :=
  map_Forall (row_ok (history sh)) (ledger sh)
  /\ (forall tx r, existT (Node (SendTransaction tx)) r ∈ history sh -> tx_input tx = NoInput ->
        backed sh tx)
  /\ Forall (true_knowledge sh) ss.

(** The history grows and rows keep who they are. *)
Definition later (sh sh' : Shared) : Prop :=
  (forall c, c ∈ history sh -> c ∈ history sh')
  /\ forall h r, ledger sh !! h = Some r -> exists r', ledger sh' !! h = Some r' /\ of_row r' = of_row r.

Lemma seen_later sh sh' receipt : seen receipt (history sh) -> later sh sh' -> seen receipt (history sh').
Proof using. intros [t Ht] [H _]. exists t. by apply H. Qed.

Lemma backed_later sh sh' tx : backed sh tx -> later sh sh' -> backed sh' tx.
Proof using.
  intros (h & r & x & Hr & Hd & Ha & Hx & Hred) Hl. destruct (proj2 Hl h r Hr) as (r' & Hr' & [= ? Hu Hd' Ha']).
  exists h, r', x. rewrite Hu, Hd', Ha'. split_and!; try done. by eapply seen_later.
Qed.

Lemma true_knowledge_later sh sh' s : true_knowledge sh s -> later sh sh' -> true_knowledge sh' s.
Proof using.
  intros [H1 H2] Hl. split; [intros x Hx; by eapply seen_later; [apply H1|]|].
  intros x Hx. destruct (H2 x Hx) as (r & Hr & <-). destruct (proj2 Hl _ _ Hr) as (r' & Hr' & He). eauto.
Qed.

Lemma ledger_apply_keeps o l b l' h r :
  ledger_apply o l = (b, l') -> l !! h = Some r -> exists r', l' !! h = Some r' /\ of_row r' = of_row r.
Proof using.
  assert (Hup : forall f i, update_row f i l = (b, l') -> (forall r, of_row (f r) = of_row r) ->
    l !! h = Some r -> exists r', l' !! h = Some r' /\ of_row r' = of_row r).
  { intros f i [= _ <-] Hf Hr. destruct (decide (i = h)) as [->|].
    - rewrite lookup_alter_eq, Hr. simpl. eauto.
    - rewrite lookup_alter_ne by done. eauto. }
  destruct o; simpl; try by (intros; eapply Hup).
  destruct (l !! h0) eqn:E; intros [= <- <-] Hr; [eauto|]. rewrite lookup_insert_ne by congruence. eauto.
Qed.

Lemma exec_later e sh r sh' : funder_exec limits e sh r sh' -> later sh sh'.
Proof.
  intros He. destruct e as [q|o|c|]; simpl in He.
  - subst sh'. split; simpl; [set_solver|eauto].
  - destruct r as [b|e].
    + destruct He as (l & Ha & ->). split; simpl; [set_solver|].
      intros h r. by apply ledger_apply_keeps with o b.
    + subst sh'. split; simpl; [set_solver|eauto].
  - destruct He as (l & _ & ->). split; simpl; [set_solver|eauto].
  - subst sh'. split; simpl; [set_solver|eauto].
Qed.

Lemma row_ok_later evs evs' h r :
  row_ok evs h r -> (forall c, c ∈ evs -> c ∈ evs') -> row_ok evs' h r.
Proof using.
  intros (Hh & Ha & Hp) Hl. split_and!; [done|done|]. intros H. destruct (Hp H) as (x & [t Ht] & Hx).
  exists x. split; [exists t; by apply Hl|done].
Qed.

Lemma entitled_true sh s h u d a r :
  entitled h u d a s -> true_knowledge sh s -> ledger sh !! h = Some r ->
  of_row r = (h, u, d, a) /\ exists x, seen x (history sh) /\ redeems u a x.
Proof using.
  intros (Hin & x & Hx & Hred) [H1 H2] Hr. destruct (H2 _ Hin) as (r' & Hr' & He).
  simpl in Hr'. rewrite Hr in Hr'. injection Hr' as <-. split; [done|]. eauto.
Qed.

(** A write keeps the rows good: what moves a row past the redemption is
    entitled to. *)
Lemma ledger_apply_rows sh s o b l' :
  map_Forall (row_ok (history sh)) (ledger sh) -> true_knowledge sh s ->
  known_pre (LedgerWrite o) s -> ledger_apply o (ledger sh) = (b, l') ->
  map_Forall (row_ok (history sh)) l'.
Proof using.
  intros Hrows Hk Hp Ha.
  assert (Hup : forall f h, update_row f h (ledger sh) = (b, l') -> (forall r, of_row (f r) = of_row r) ->
    ((forall r, past_redeem (state (f r)) = false)
     \/ exists user device amt, entitled h user device amt s) ->
    map_Forall (row_ok (history sh)) l').
  { intros f h [= _ <-] Hf Hcase i r. rewrite lookup_alter_Some.
    intros [(-> & r0 & Hr & ->)|[_ Hr]]; [|by apply Hrows].
    destruct (Hrows _ _ Hr) as (Hh & Haut & Hpast). pose proof (Hf r0) as [= E1 E2 E3 E4].
    unfold row_ok. rewrite E1, E2, E3, E4. split_and!; [done|done|]. intros Hpr.
    destruct Hcase as [Hno|(u & d & a & He)]; [by rewrite Hno in Hpr|].
    destruct (entitled_true sh s _ u d a r0 He Hk Hr) as (Hrow & Hx). unfold of_row in Hrow.
    injection Hrow as ? ? ? ?. by subst. }
  destruct o; simpl in Hp, Ha; try (eapply Hup; [exact Ha|done|by right]).
  - destruct (ledger sh !! h) eqn:E; injection Ha as _ <-; [done|].
    apply map_Forall_insert_2; [|done]. by split_and!.
  - eapply Hup; [exact Ha|done|]. destruct Hp as [->|?]; [by left|by right].
Qed.

Lemma exec_rows e sh s r sh' :
  map_Forall (row_ok (history sh)) (ledger sh) -> true_knowledge sh s -> known_pre e s ->
  funder_exec limits e sh r sh' -> map_Forall (row_ok (history sh')) (ledger sh').
Proof using.
  intros Hrows Hs Hpre He. pose proof (exec_later _ _ _ _ He) as [Hl _].
  assert (Hgo : map_Forall (row_ok (history sh)) (ledger sh')).
  { destruct e as [q|o|c|]; simpl in He.
    - by subst sh'.
    - destruct r as [b|e]; [|by subst sh']. destruct He as (l & Ha & ->).
      by apply (ledger_apply_rows sh s o b).
    - by destruct He as (? & _ & ->).
    - by subst sh'. }
  intros h row Hr. by apply row_ok_later with (history sh); [apply Hgo|].
Qed.

Lemma exec_history e sh r sh' :
  funder_exec limits e sh r sh' -> history sh' = history sh ++ [existT e r].
Proof using.
  intros He. destruct e as [q|o|c|]; simpl in He; [by subst| | |by subst].
  - destruct r; [by destruct He as (? & _ & ->)|by subst].
  - by destruct He as (? & _ & ->).
Qed.

Lemma exec_knowledge e sh s r sh' :
  true_knowledge sh' s -> funder_exec limits e sh r sh' ->
  true_knowledge sh' (known_upd (existT e r) s).
Proof using.
  intros [H1 H2] He. pose proof (exec_history _ _ _ _ He) as Hh.
  destruct e as [q|o|c|]; simpl; [|destruct o| |]; try by split.
  - destruct q; simpl; try by split. simpl in r. destruct r as [receipt|m]; [|by split].
    split; [|done]. intros x [->|Hx]%elem_of_cons; [|by apply H1].
    exists tx_hash. rewrite Hh. apply elem_of_app. right. by constructor.
  - simpl in r. destruct r as [[]|]; simpl; try by split.
    split; [done|]. intros x [->|Hx]%elem_of_cons; [|by apply H2].
    destruct He as (l & Ha & ->). simpl in Ha |- *. destruct (ledger sh !! h); [done|].
    injection Ha as <-. rewrite lookup_insert_eq. eauto.
Qed.

Lemma justified_call k sh ss i s e r sh' :
  justified k sh ss -> ss !! i = Some s -> known_pre e s -> funder_exec limits e sh r sh' ->
  justified k sh' (<[i := known_upd (existT e r) s]> ss).
Proof using.
  intros (Hrows & Hsends & Hss) Hi Hpre He. pose proof (exec_later _ _ _ _ He) as Hl.
  pose proof (Forall_lookup_1 _ _ _ _ Hss Hi) as Hs. simpl in Hs.
  assert (Hs' : true_knowledge sh' s) by by eapply true_knowledge_later.
  split_and!; [by eapply exec_rows| |].
  - intros tx r'. rewrite (exec_history _ _ _ _ He).
    intros [Hold|Hnew%list_elem_of_singleton]%elem_of_app Htx.
    + eapply backed_later; [by eapply Hsends|done].
    + apply (f_equal (fun c => projT1 c)) in Hnew. simpl in Hnew. subst e.
      destruct (Hpre Htx) as (h & u & Hent).
      destruct (proj2 Hs' _ (proj1 Hent)) as (row & Hrow & _). simpl in Hrow.
      destruct (entitled_true _ _ _ _ _ _ _ Hent Hs' Hrow) as (Hof & x & Hx & Hred).
      injection Hof as _ Hu Hd Ha. exists h, row, x. rewrite Hu, Ha. by split_and!.
  - apply Forall_insert; [|by eapply exec_knowledge].
    eapply Forall_impl; [exact Hss|]. intros x Hx. by eapply true_knowledge_later.
Qed.

(** [sign_redemption] signs the fields it is given. *)
Hypothesis signer_keeps_fields :
  forall f env sr, sign_redemption app f env = Ok sr -> redemption_fields sr = f.

Lemma handle_known parsed :
  kwp (handle keccak256 separator recover_address_from_prehash app parsed) (fun _ _ => True) ([], []).
Proof using signer_keeps_fields.
  destruct parsed as [req|]; [|done]. apply wp_bind, on_limiter_wp; [done|done|].
  intros [|s']; [|done]. split; [done|]. intros now. cbn [known_upd].
  destruct (validate _ _ _ _ now req) as [v|e] eqn:Ev; [|done].
  apply validate_authorised in Ev as [-> Ha].
  split; [done|]. intros created. cbn [known_upd].
  apply write_wp; [exact Ha|done|]. intros []; [|done].
  unfold redeem_leg. destruct (sign_redemption _ _ _) as [signed|e] eqn:Es; [|done].
  apply signer_keeps_fields in Es as <-.
  destruct (local_signer app) as [signer|]; [|done].
  apply wp_ebind, wp_bind. eapply wp_mono; [apply redemption_known|].
  intros [a|e] s1 (Hg & Hrows & Hr); [|done]. simpl in Hrows. cbn [wp map_err].
  assert (He : entitled (credit_attestation_hash keccak256 (req_credit req))
    (user_id (redemption_fields signed)) (req_device_address req) (amount (redemption_fields signed)) s1).
  { split; [|exact Hr]. rewrite Hrows. by constructor. }
  apply write_wp; [simpl; eauto|done|]. intros ?. apply write_wp; [simpl; eauto|done|].
  intros ?. by eapply transfer_leg_known.
Qed.

Lemma resume_known row s :
  entitled (attestation_hash row) (pay_user_id row) (device_address row) (credit_amount row) s ->
  kwp (resume_task row) (fun _ _ => True) s.
Proof using signer_keeps_fields.
  intros He. apply wp_bind.
  apply (wp_mono _ _ _ (fun _ _ => True)); [|intros [?|?] s' _; [done|by split; [left|]]].
  unfold drive_to_completion. destruct (local_signer app) as [signer|]; [|done].
  destruct (state row); try done; [|by apply drive_eth_transfer_known
    |by apply rwrite_wp; [simpl; eauto 10|..]].
  destruct (sign_redemption _ _ _) as [signed|e] eqn:Es; [|done].
  apply wp_bind. eapply wp_mono; [apply redemption_known|]. intros r s' (Hg & _).
  assert (Hgo : kwp (rwrite (TransitionState (attestation_hash row) RedeemMined) ≫= fun _ =>
    drive_eth_transfer app row) (fun _ _ => True) s').
  { pose proof (entitled_grows _ _ _ _ _ _ He Hg).
    apply rwrite_wp; [simpl; eauto 10|done|]. intros ?. by apply drive_eth_transfer_known. }
  by destruct r as [?|[]].
Qed.


(** A resumed row carries the receipt that moved it past the redemption. *)
Lemma resume_knowledge sh ss now :
  justified 0 sh ss ->
  exists ss', Forall2 (fun row s => kwp (resume_task row) (fun _ _ => True) s)
                (find_resumable_entries (ledger sh)) ss'
    /\ Forall (true_knowledge (mkShared (ledger sh) (new_limiter now) (history sh))) ss'.
Proof using signer_keeps_fields.
  intros (Hrows & _ & _). unfold find_resumable_entries.
  assert (Hall : forall row, row ∈ filter (fun r => resumable (state r) = true) (map_to_list (ledger sh)).*2 ->
    exists s, kwp (resume_task row) (fun _ _ => True) s
      /\ true_knowledge (mkShared (ledger sh) (new_limiter now) (history sh)) s).
  { intros row [Hres Hin]%list_elem_of_filter.
    apply list_elem_of_fmap in Hin as ([h r] & -> & Hin%elem_of_map_to_list). simpl in *.
    destruct (Hrows _ _ Hin) as (Hh & _ & Hp). destruct Hp as (x & Hx & Hred); [by destruct (state r)|].
    exists ([x], [of_row r]). split.
    - apply resume_known. split; [by constructor|]. exists x. split; [by constructor|done].
    - split; simpl; [by intros y ->%list_elem_of_singleton|].
      intros y ->%list_elem_of_singleton. exists r. simpl. by rewrite Hh. }
  revert Hall. generalize (filter (fun r => resumable (state r) = true) (map_to_list (ledger sh)).*2).
  intros l. induction l as [|row l IH]; intros Hall; [by exists []|].
  destruct (Hall row) as (s & Hw & Hk); [by constructor|].
  destruct IH as (ss' & Hf & Hks); [intros; apply Hall; by constructor|].
  exists (s :: ss'). split; by constructor.
Qed.

Lemma always_justified s : reachable s -> exists ss, justified (restarts s) (shared s) ss.
Proof using signer_keeps_fields.
  intros Hr. destruct (system_protocol known_pre known_upd justified) with s as (ss & _ & HJ);
    [exact justified_call| | | | |done|by exists ss].
  - intros k sh ss (Hrows & Hsends & Hss) parsed _. exists ([], []). split.
    + apply wp_bind. eapply wp_mono; [apply handle_known|done].
    + split_and!; [done|done|]. apply Forall_app_2; [done|]. constructor; [|done].
      split; intros x Hx; by apply elem_of_nil in Hx.
  - intros k sh ss i (Hrows & Hsends & Hss). split_and!; [done|done|by apply Forall_delete].
  - intros k sh ss now HJ. destruct (resume_knowledge sh ss now HJ) as (ss' & Hf & Hk).
    exists ss'. split; [done|]. destruct HJ as (Hrows & Hsends & _). by split_and!.
  - intros now. split_and!; [apply map_Forall_empty| |constructor].
    intros tx r Hin. by apply elem_of_nil in Hin.
Qed.
End entitlement.

(** C11. Every transfer is for a redeemed credit.  Whatever is requested,
    however the tasks interleave and wherever the process dies, each plain
    transfer the service hands to a node goes to the device and has the amount
    of a row of the ledger; the row's hash is that of a credit the payment
    authority signed, with a binding signature the device itself made, under
    the cap; and a receipt answered to the service shows the registry redeeming
    that amount for that user. *)
Theorem transfers_authorised s tx (r : Answer (SendTransaction tx)) :
  (forall f env sr, sign_redemption app f env = Ok sr -> redemption_fields sr = f) ->
  reachable s ->
  existT (Node (SendTransaction tx)) r ∈ history (shared s) -> tx_input tx = NoInput ->
  exists h row receipt, ledger (shared s) !! h = Some row
    /\ tx_to tx = device_address row /\ tx_value tx = credit_amount row
    /\ authorised h (pay_user_id row) (device_address row) (credit_amount row)
    /\ seen receipt (history (shared s)) /\ redeems (pay_user_id row) (credit_amount row) receipt.
Proof.
  intros Hsig Hr Hin Htx. destruct (always_justified Hsig s Hr) as (ss & Hrows & Hsends & _).
  destruct (Hsends tx r Hin Htx) as (h & row & x & Hrow & Hd & Ha & Hx & Hred).
  destruct (Hrows _ _ Hrow) as (_ & Haut & _). exists h, row, x. by split_and!.
Qed.

(** ** Rows the restart scan does not know *)

Definition keyed (sh : Shared) : Prop := map_Forall (fun h r => attestation_hash r = h) (ledger sh).

Lemma exec_keyed e sh r sh' : funder_exec limits e sh r sh' -> keyed sh -> keyed sh'.
Proof.
  unfold keyed. intros He Hk. destruct e as [q|o|c|]; simpl in He;
    [by subst| |by destruct He as (? & _ & ->)|by subst].
  destruct r as [b|e]; [|by subst]. destruct He as (l & Ha & ->). simpl.
  assert (Hup : forall f h, update_row f h (ledger sh) = (b, l) ->
    (forall r, attestation_hash (f r) = attestation_hash r) ->
    map_Forall (fun h r => attestation_hash r = h) l).
  { intros f h [= _ <-] Hf i row. rewrite lookup_alter_Some.
    intros [(-> & r0 & Hr & ->)|[_ Hr]]; [rewrite Hf|]; by apply Hk. }
  destruct o; simpl in Ha; try by eapply Hup.
  destruct (ledger sh !! h); injection Ha as _ <-; [done|]. by apply map_Forall_insert_2.
Qed.

Lemma reachable_keyed s : reachable s -> keyed (shared s).
Proof.
  intros [now Hr]. revert Hr. apply (rtc_ind_r (fun s => keyed (shared s))).
  - by apply map_Forall_empty.
  - intros s1 s2 _ Hs Hk. destruct Hs as [s0 parsed _|s0 w pool Hp|s0 i|s0 now']; try done.
    inversion Hp as [? ? ? ? ? ? ? _ He]; subst. by eapply exec_keyed.
Qed.

Section stuck.
Context (h : Z) (row : PaymentRow) (Hstate : state row = PreRedeem).

(** A task may write to the row only after it inserted it. *)
Definition target (o : LedgerOp) : Z :=
  match o with
  | TryInsert h _ _ _ _ | UpdateRedemptionTxHash h _ | TransitionState h _
  | MarkEthTransferSubmitted h _ _ | MarkEthTransferMined h _ => h
  end.

Definition stuck_pre (e : FunderCall) (own : bool) : Prop :=
  match e with
  | LedgerWrite (TryInsert _ _ _ _ _) => True
  | LedgerWrite o => own = true \/ target o <> h
  | _ => True
  end.

Definition stuck_upd (c : call FunderAnswer) (own : bool) : bool :=
  let '(existT e r) := c in
  match e return FunderAnswer e -> bool with
  | LedgerWrite (TryInsert h' _ _ _ _) => fun r => own || (was_inserted r && bool_decide (h' = h))
  | _ => fun _ => own
  end r.

#[local] Notation swp := (wp stuck_pre stuck_upd).

Lemma redeem_leg_stuck h' req v own :
  own = true \/ h' <> h -> swp (redeem_leg app h' req v) (fun _ _ => True) own.
Proof using.
  intros Ho. unfold redeem_leg. destruct (sign_redemption _ _ _) as [signed|e]; [|done].
  destruct (local_signer app) as [signer|]; [|done].
  apply wp_ebind, wp_bind, on_node_free; [done|done|]. intros [a|e]; [|done].
  apply write_wp; [done|done|]. intros ?. apply write_wp; [done|done|]. intros ?.
  apply wp_bind, on_node_free; [done|done|]. intros [a'|e]; [|by split].
  apply write_wp; [done|done|]. intros ?. by apply write_wp.
Qed.

Lemma request_stuck parsed : swp (request_task parsed) (fun _ _ => True) false.
Proof using.
  apply wp_bind, (wp_mono _ _ _ (fun _ _ => True)); [|done]. destruct parsed as [req|]; [|done].
  apply wp_bind, on_limiter_wp; [done|done|]. intros [|s']; [|done]. split; [done|]. intros now.
  destruct (validate _ _ _ _ now req) as [v|e]; [|done]. split; [done|]. intros created.
  apply write_wp; [done|done|]. intros []; [|done]. apply redeem_leg_stuck. simpl.
  destruct (decide (credit_attestation_hash keccak256 (req_credit req) = h)); [left|by right].
  by apply bool_decide_eq_true.
Qed.

Lemma resume_stuck r : attestation_hash r <> h -> swp (resume_task r) (fun _ _ => True) false.
Proof using.
  intros Hr. apply wp_bind.
  apply (wp_mono _ _ _ (fun _ _ => True)); [|intros [?|?] own _; [done|split; [by right|done]]].
  assert (Hdrive : forall own, swp (drive_eth_transfer app r) (fun _ _ => True) own).
  { intros own. unfold drive_eth_transfer. destruct (local_signer app); [|done].
    destruct (clamp_eth_transfer_amount _ _); [|done].
    apply wp_ebind, wp_bind, on_node_free; [done|done|]. intros [a|e]; [|done].
    apply rwrite_wp; [by right|done|]. intros ?. by apply rwrite_wp; [right|..]. }
  unfold drive_to_completion. destruct (local_signer app) as [signer|]; [|done].
  destruct (state r); try done; [|by apply rwrite_wp; [right|..]].
  destruct (sign_redemption _ _ _); [|done]. apply wp_bind, on_node_free; [done|done|].
  assert (Hgo : swp (rwrite (TransitionState (attestation_hash r) RedeemMined) ≫= fun _ =>
    drive_eth_transfer app r) (fun _ _ => True) false)
    by (apply rwrite_wp; [by right|done|]; intros ?; apply Hdrive).
  by intros [?|[]].
Qed.

Definition untouched (_ : Z) (sh : Shared) (ss : list bool) : Prop :=
  ledger sh !! h = Some row /\ keyed sh /\ Forall (fun own => own = false) ss.

Lemma untouched_call k sh ss i own e r sh' :
  untouched k sh ss -> ss !! i = Some own -> stuck_pre e own -> funder_exec limits e sh r sh' ->
  untouched k sh' (<[i := stuck_upd (existT e r) own]> ss).
Proof using.
  intros (Hrow & Hk & Hss) Hi Hpre He. pose proof (exec_keyed _ _ _ _ He Hk) as Hk'.
  pose proof (Forall_lookup_1 _ _ _ _ Hss Hi) as Ho. simpl in Ho. subst own.
  assert (Hgo : ledger sh' !! h = Some row /\ stuck_upd (existT e r) false = false).
  { destruct e as [q|o|c|]; simpl in He;
      [by subst| |by destruct He as (? & _ & ->)|by subst].
    destruct r as [b|e]; [|subst; by destruct o].
    destruct He as (l & Ha & ->). simpl ledger.
    destruct o as [h' ? ? ? ?|h' ?|h' ?|h' ? ?|h' ?]; simpl in *.
    2-5: destruct Hpre as [?|Hne]; [done|]; injection Ha as _ <-; by rewrite lookup_alter_ne.
    destruct (ledger sh !! h') eqn:E; injection Ha as <- <-; [done|].
    rewrite lookup_insert_ne, bool_decide_eq_false_2 by congruence. done. }
  destruct Hgo as [Hrow' ->]. split_and!; [done|done|]. by apply Forall_insert.
Qed.
End stuck.

(** A crash before the redemption's receipt strands the credit.  Once
    the process has restarted, a row still in [PreRedeem] (its redemption may
    have been sent, mined even) never changes again, whatever is requested and
    however often the process restarts: the restart scan skips it and no
    request can insert its hash. *)
Theorem pre_redeem_stuck s h row now s' :
  reachable s -> ledger (shared s) !! h = Some row -> state row = PreRedeem ->
  rtc system_step (mkSystem (mkShared (ledger (shared s)) (new_limiter now) (history (shared s)))
    (restarts s + 1) (resume_task <$> find_resumable_entries (ledger (shared s)))) s' ->
  ledger (shared s') !! h = Some row.
Proof.
  intros Hr Hrow Hst Hs.
  assert (Hresume : forall sh, untouched h row 0 sh [] ->
    Forall2 (fun r own => wp (stuck_pre h) (stuck_upd h) (resume_task r) (fun _ _ => True) own)
      (find_resumable_entries (ledger sh)) ((fun _ => false) <$> find_resumable_entries (ledger sh))).
  { intros sh (Hl & Hk & _). apply Forall2_fmap_r, Forall_Forall2_diag, Forall_forall.
    intros r [Hres Hin]%list_elem_of_filter.
    apply list_elem_of_fmap in Hin as ([i r0] & -> & Hin%elem_of_map_to_list). simpl in *.
    apply resume_stuck. rewrite (Hk _ _ Hin). intros ->. rewrite Hl in Hin. injection Hin as <-.
    by rewrite Hst in Hres. }
  pose proof (reachable_keyed s Hr) as Hkeyed.
  assert (Hfalse : forall l : list PaymentRow, Forall (fun own => own = false) ((fun _ => false) <$> l))
    by (intros l; apply Forall_fmap, Forall_forall; done).
  destruct (protocol_steps (stuck_pre h) (stuck_upd h) (untouched h row)) with (s := s') (1 := untouched_call h row)
    (5 := Hs) as (ss & _ & H & _); [| | | |done].
  - intros k sh ss (H1 & H2 & H3) parsed _. exists false. split; [apply request_stuck|].
    split_and!; [done|done|]. apply Forall_app_2; [done|by constructor].
  - intros k sh ss i (H1 & H2 & H3). split_and!; [done|done|by apply Forall_delete].
  - intros k sh ss now' (H1 & H2 & H3). eexists. split; [by apply Hresume|]. by split_and!.
  - eexists. split; [apply Forall2_fmap_l, (Hresume (shared s)); by split_and!|]. by split_and!.
Qed.

(** ** Responses *)

(** The ledger writes of a run with their answers, and whether it called the
    node. *)
Definition Trace : Type := list (LedgerOp * result LedgerError bool) * bool.

Definition trace_upd (c : call FunderAnswer) (s : Trace) : Trace :=
  let '(existT e r) := c in
  match e return FunderAnswer e -> Trace with
  | Node _ => fun _ => (s.1, true)
  | LedgerWrite o => fun r => (s.1 ++ [(o, r)], s.2)
  | _ => fun _ => s
  end r.

Definition trace (evs : list (call FunderAnswer)) : Trace :=
  foldl (fun s c => trace_upd c s) ([], false) evs.

(** What a response says about the writes of its run. *)
Definition outcome (req : TopUpRequest) (resp : result FunderError TopUpResponse) (t : Trace) : Prop :=
  let c := credit_fields (req_credit req) in
  let h := credit_attestation_hash keccak256 (req_credit req) in
  let insert created b := (TryInsert h (user_id c) (req_device_address req) (amount c) created, Ok b) in
  match resp with
  | Ok answer => exists created block tx b1 b2 b3 b4,
      t.1 = [insert created true; (UpdateRedemptionTxHash h (resp_redeem_tx_hash answer), Ok b1);
             (TransitionState h RedeemMined, Ok b2);
             (MarkEthTransferSubmitted h tx (amount c), Ok b3); (MarkEthTransferMined h block, Ok b4)]
      /\ answer = mkTopUpResponse (resp_redeem_tx_hash answer) (Some tx) (amount c)
  | Err AlreadyRedeemed => exists created, t = ([insert created false], false)
  | Err (ChainSubmitFailed _) => exists created, t.1 = [insert created true]
  | Err Configuration => exists created, t = ([insert created true], false)
  | Err (EthTransferError tx _) => exists created b1 b2 r,
      t.1 = [insert created true; (UpdateRedemptionTxHash h tx, Ok b1);
             (TransitionState h RedeemMined, Ok b2); (TransitionState h EthTransferFailed, r)]
  | Err LedgerFailed => exists ws o e, t.1 = ws ++ [(o, Err e)]
  | Err _ => t = ([], false)
  end.

#[local] Notation twp := (wp (fun _ _ => True) trace_upd).

Lemma on_node_trace {A} (p : prog Answer A) (Q : A -> Trace -> Prop) ws b :
  (forall a b', Q a (ws, b')) -> twp (on_node p) Q (ws, b).
Proof.
  intros HQ. revert b. induction p as [a|e k IH]; intros b; simpl; [by apply HQ|].
  split; [done|]. intros r. apply IH.
Qed.

Lemma validate_error now req e :
  validate keccak256 separator recover_address_from_prehash app now req = Err e -> outcome req (Err e) ([], false).
Proof. unfold validate. by repeat case_match; intros [= <-]. Qed.

Lemma redeem_leg_trace req created :
  let c := credit_fields (req_credit req) in
  let h := credit_attestation_hash keccak256 (req_credit req) in
  twp (redeem_leg app h req (amount c)) (outcome req)
    ([(TryInsert h (user_id c) (req_device_address req) (amount c) created, Ok true)], false).
Proof.
  intros c h. unfold redeem_leg.
  destruct (sign_redemption _ _ _) as [signed|e]; [|by exists created].
  destruct (local_signer app) as [signer|]; [|by exists created].
  apply wp_ebind, wp_bind, on_node_trace. intros [a|e] b; [|by exists created].
  apply write_wp; [done|intros e; by eexists [_], _, e|]. intros b1.
  apply write_wp; [done|intros e; by eexists [_; _], _, e|]. intros b2.
  apply wp_bind, on_node_trace. intros [a'|e] b'.
  - apply write_wp; [done|intros e; by eexists [_; _; _], _, e|]. intros b3.
    apply write_wp; [done|intros e; by eexists [_; _; _; _], _, e|]. intros b4.
    by exists created, (ea_block_number a'), (ea_tx_hash a'), b1, b2, b3, b4.
  - split; [done|]. intros r. by exists created, b1, b2, r.
Qed.

Lemma handle_trace req :
  twp (handle keccak256 separator recover_address_from_prehash app (Some req)) (outcome req) ([], false).
Proof.
  apply wp_bind, on_limiter_wp; [done|done|]. intros [|s']; [|done]. split; [done|]. intros now.
  destruct (validate _ _ _ _ now req) as [v|e] eqn:Ev; [|by apply validate_error in Ev].
  apply validate_authorised in Ev as [-> _]. split; [done|]. intros created.
  apply write_wp; [done|intros e; by eexists [], _, e|]. intros []; [|by exists created].
  apply redeem_leg_trace.
Qed.

(** What a response means.  A 200 names the two transactions and comes
    with the row written through to [EthTransferMined]; 409 made no row and no
    call to the node; a 502 leaves the new row in [PreRedeem]; a failed
    transfer (500) leaves it in [EthTransferFailed]; a ledger failure is the
    last write; every other error wrote nothing and called nothing. *)
Theorem top_up_outcomes parsed evs resp :
  reaches (handle keccak256 separator recover_address_from_prehash app parsed) evs (Ret resp) ->
  match parsed with
  | Some req => outcome req resp (trace evs)
  | None => resp = Err BadRequest /\ evs = []
  end.
Proof.
  intros Hr. destruct parsed as [req|].
  - apply (wp_reaches _ _ _ _ _ _ _ Hr (handle_trace req)).
  - simpl in Hr. by inversion Hr.
Qed.

(** ** Every request is answered *)

Lemma on_node_within {A} n (p : prog Answer A) : within n p -> within n (on_node p).
Proof.
  revert n. induction p as [a|e k IH]; intros n; simpl; [done|]. destruct n; [done|]. intros Hn r. by apply IH.
Qed.

Lemma on_limiter_within {A} n (p : prog LimiterAnswer A) : within n p -> within n (on_limiter p).
Proof.
  revert n. induction p as [a|e k IH]; intros n; simpl; [done|]. destruct n; [done|]. intros Hn r. by apply IH.
Qed.

Lemma write_within {B} n o (f : bool -> fprog B) :
  (forall b, within n (f b)) -> within (S n) (write o ≫= f).
Proof. intros Hf [b|e]; simpl; [apply Hf|done]. Qed.

Lemma rwrite_within {B} n o (f : bool -> rprog B) :
  (forall b, within n (f b)) -> within (S n) (rwrite o ≫= f).
Proof. intros Hf [b|e]; simpl; [apply Hf|done]. Qed.

Lemma transfer_leg_within h tx signer to v : within 23 (transfer_leg app h tx signer to v).
Proof.
  apply (within_bind _ _ 21 2); [apply on_node_within, submit_eth_transfer_within|].
  intros [?|e]; [|by intros r]. do 2 (apply write_within; intros ?). done.
Qed.

Lemma redeem_leg_within h req v : within 46 (redeem_leg app h req v).
Proof.
  unfold redeem_leg. destruct (sign_redemption _ _ _); [|done]. destruct (local_signer app); [|done].
  apply (within_ebind _ _ 21 25).
  - apply (within_bind _ _ 21 0); [apply on_node_within, submit_redemption_within|done].
  - intros ?. do 2 (apply write_within; intros ?). apply transfer_leg_within.
Qed.

Lemma handle_within parsed :
  within 53 (handle keccak256 separator recover_address_from_prehash app parsed).
Proof.
  destruct parsed as [req|]; [|done].
  apply (within_bind _ _ 4 49).
  - apply on_limiter_within. intros now [|s]; [|done]. by intros [|s].
  - intros [|s]; [|done]. intros now. destruct (validate _ _ _ _ now req); [|done]. intros created.
    apply write_within. intros []; [apply redeem_leg_within|done].
Qed.

Lemma resume_within row : within 46 (resume_task row).
Proof.
  apply (within_bind _ _ 45 1); [|by intros [?|?]].
  assert (Hdrive : within 23 (drive_eth_transfer app row)).
  { unfold drive_eth_transfer. destruct (local_signer app); [|done].
    destruct (clamp_eth_transfer_amount _ _); [|done]. apply (within_ebind _ _ 21 2).
    - apply (within_bind _ _ 21 0); [apply on_node_within, submit_eth_transfer_within|done].
    - intros ?. do 2 (apply rwrite_within; intros ?). done. }
  unfold drive_to_completion. destruct (local_signer app); [|done].
  destruct (state row); try done; [|by apply (within_mono _ 23); [|lia]
    |by apply rwrite_within; intros ?].
  destruct (sign_redemption _ _ _); [|done].
  assert (Hgo : within 24 (rwrite (TransitionState (attestation_hash row) RedeemMined) ≫= fun _ =>
    drive_eth_transfer app row)) by (apply rwrite_within; intros ?; done).
  apply (within_bind _ _ 21 24); [apply on_node_within, submit_redemption_within|].
  by intros [?|[]].
Qed.

Lemma answers_inhabited (c : FunderCall) : inhabited (FunderAnswer c).
Proof.
  destruct c as [q|o|c|].
  - destruct q; first [exact (inhabits (Err EmptyString))|exact (inhabits tt)].
  - exact (inhabits (Ok true)).
  - destruct c; first [exact (inhabits 0)|exact (inhabits Allowed)|exact (inhabits tt)].
  - exact (inhabits 0).
Qed.

(** At most [n] calls, and from every point an end that can be reached. *)
Definition completes {A} (n : nat) (p : prog FunderAnswer A) : Prop :=
  forall evs p', reaches p evs p' -> (length evs <= n)%nat /\ exists evs' a, reaches p' evs' (Ret a).

Lemma within_completes {A} n (p : prog FunderAnswer A) : within n p -> completes n p.
Proof.
  intros Hw evs p' Hr. split; [exact (within_reaches _ _ _ _ Hw Hr)|].
  destruct (reaches_end p' answers_inhabited) as (evs' & a & Hp). eauto.
Qed.

(** Every request is answered and every resumed row is finished with.
    Whatever the node, the limiter and the ledger answer, a request makes at
    most 53 calls and a resume task at most 46, retries included, and from
    every point of a run there is a response it can reach. *)
Theorem service_terminates parsed row :
  completes 53 (handle keccak256 separator recover_address_from_prehash app parsed)
  /\ completes 46 (resume_task row).
Proof.
  split; apply within_completes; [apply handle_within|apply resume_within].
Qed.
End system.

(** ** A concrete service

    A hash and a recovery that give constants, an authority and a device with
    the recovered address, the default limits. *)

Definition sample_keccak (_ : list Z) : Z := 7.
Definition sample_separator (_ : Eip712Domain) : Z := ENTITLEMENT_DOMAIN_SEPARATOR_BASE_SEPOLIA_V1.
Definition sample_recover (_ : Signature) (_ : Z) : option Z := Some 9.
Definition sample_signature : list Z := replicate 64 0 ++ [27].

Definition sample_app : AppState :=
  mkAppState (fun f _ => Ok (mkSignedRedemptionV1 f sample_signature)) (Some 3)
    (Ok EXPECTED_ENTITLEMENT_REGISTRY_ADDRESS_BASE_SEPOLIA) 9 BaseSepolia 100.

Definition sample_request : TopUpRequest :=
  mkTopUpRequest (mkCredit (mkRedemptionFieldsV1 5 40 1 1 10) sample_signature) sample_signature 9.

Lemma sample_limits :
  1 <= per_address_bucket_size default_config /\ 1 <= global_cap_per_hour default_config.
Proof. by vm_compute. Qed.

Lemma sample_twice : exists s,
  reachable sample_keccak sample_separator sample_recover sample_app default_config s
  /\ restarts s = 1 /\ owed 9 (ledger (shared s)) = 40 /\ accepted_wei 9 (history (shared s)) = 80
  /\ exists tx r, existT (Node (SendTransaction tx)) r ∈ history (shared s) /\ tx_input tx = NoInput
       /\ tx_to tx = 9 /\ tx_value tx = 40.
Proof.
  apply (paid_twice sample_keccak sample_separator sample_recover sample_app default_config
    sample_request (mkSignedRedemptionV1 (credit_fields (req_credit sample_request)) sample_signature)
    3 40); try done; apply sample_limits.
Qed.

Lemma no_overpay_witness : exists s,
  accepted_wei 9 (history (shared s)) = 80
  /\ accepted_wei 9 (history (shared s)) <= (restarts s + 1) * owed 9 (ledger (shared s)).
Proof.
  destruct sample_twice as (s & Hr & _ & _ & Ha & _). exists s. split; [exact Ha|].
  exact (proj1 (no_overpay sample_keccak sample_separator sample_recover sample_app default_config s 9 Hr)).
Defined.

Lemma crash_pays_twice_witness : exists s,
  restarts s = 1 /\ owed 9 (ledger (shared s)) = 40 /\ accepted_wei 9 (history (shared s)) = 80.
Proof.
  destruct (crash_pays_twice sample_keccak sample_separator sample_recover sample_app default_config
    sample_request (mkSignedRedemptionV1 (credit_fields (req_credit sample_request)) sample_signature)
    3 40) as (s & _ & Hs); [done|done|done|done|by vm_compute|done|apply sample_limits|].
  exists s. exact Hs.
Defined.

Lemma transfers_authorised_witness : exists s tx receipt,
  tx_to tx = 9 /\ tx_value tx = 40 /\ seen receipt (history (shared s))
  /\ exists user, redeems sample_app user 40 receipt.
Proof.
  destruct sample_twice as (s & Hr & _ & _ & _ & tx & r & Hin & Htx & Hto & Hv).
  destruct (transfers_authorised sample_keccak sample_separator sample_recover sample_app default_config
    s tx r ltac:(by intros f env sr [= <-]) Hr Hin Htx) as (h & row & x & _ & _ & Ha & _ & Hx & Hred).
  exists s, tx, x. split_and!; [done|done|exact Hx|]. exists (pay_user_id row).
  rewrite Hv in Ha. rewrite Ha. exact Hred.
Defined.

Lemma pre_redeem_stuck_witness : exists s s' row,
  ledger (shared s) !! 7 = Some row /\ state row = PreRedeem
  /\ restarts s' = restarts s + 1 /\ ledger (shared s') !! 7 = Some row.
Proof.
  destruct (stranded sample_keccak sample_separator sample_recover sample_app default_config
    sample_request 40 ltac:(by vm_compute) ltac:(done) sample_limits) as (s & Hr & Hrow).
  eexists s, (mkSystem _ (restarts s + 1) _), _. split_and!; [exact Hrow|done|reflexivity|].
  apply (pre_redeem_stuck sample_keccak sample_separator sample_recover sample_app default_config
    s 7 _ 0 _ Hr Hrow eq_refl). apply rtc_refl.
Defined.

(** A second request with the same credit. *)
Definition sample_conflict : list (call FunderAnswer) :=
  [existT (Limiter InstantNow) 0; existT (Limiter (PerAddress 9 0)) Allowed;
   existT (Limiter (Global 0)) Allowed; existT UnixNow 0; existT UnixNow 0;
   wrote (TryInsert 7 5 9 40 0) (Ok false)].

Lemma top_up_outcomes_witness :
  trace sample_conflict = ([(TryInsert 7 5 9 40 0, Ok false)], false)
  /\ outcome sample_keccak sample_request (Err AlreadyRedeemed) (trace sample_conflict).
Proof.
  split; [reflexivity|].
  apply (top_up_outcomes sample_keccak sample_separator sample_recover sample_app (Some sample_request)).
  do 4 apply reaches_call. do 2 apply reaches_call. apply reaches_here.
Defined.
