(* ===== verification/ChainSync.v ===== *)
(** * Chain synchronisation

    The orchestrators [sync_from_chain_with_ws_url] and
    [sync_from_chain_v2_path] of crates/pangolin-store/src/vault.rs with what
    they call in crates/pangolin-chain/src/chain_sync (poll.rs, reorg.rs, v2.rs,
    ws.rs), [read_authorized_set_v2] and the device auto-registration.

    They are asynchronous and hold the vault exclusively, so a sync is a
    program over the calls of [SyncCall] whose every call carries the vault as
    it is while the call is pending ([Pending]): a sync that is dropped, or
    whose process dies, leaves that vault.  The node answers anything.

    The decoding of a log is the contract binding's: a log is given with what
    its decoder makes of it.  The web-socket loop ends when the clock passes its
    deadline; [rounds] bounds the readings of the clock it makes before that. *)

From Stdlib Require Import Ascii String.
From S2P Require Import Prelude Effects StoreError RevisionGraph SessionPolicy Database AccountOps.
From S2P Require Import ChainIngest MultiDevice TypedData.
Open Scope Z_scope.

(** ** Constants *)

Definition LOG_BLOCK_CHUNK : Z := 9000.
Definition WS_RECONNECT_INITIAL_BACKOFF_MS : Z := 250.
Definition WS_RECONNECT_MAX_BACKOFF_MS : Z := 30000.
Definition MAX_KNOWN_CLIENT_SCHEMA_VERSION : Z := 1.
Definition WS_CIRCUIT_BREAKER_THRESHOLD : Z := 5.
Definition WS_TIP_FOLLOW_WINDOW_SECS : Z := 30.

Definition d017_deploy_block (env : ChainEnv) : Z :=
  match env with BaseSepolia => 41507120 | _ => 0 end.

(** [prev_ms.saturating_mul(2).clamp(..)]. *)
Definition next_reconnect_backoff_ms (prev_ms : Z) : Z :=
  Z.min WS_RECONNECT_MAX_BACKOFF_MS
    (Z.max WS_RECONNECT_INITIAL_BACKOFF_MS (Z.min U64_MAX (prev_ms * 2))).

Definition check_ws_scheme (ws_url : string) (env : ChainEnv) : bool :=
  let is_wss := String.prefix "wss://" ws_url in
  let is_ws := String.prefix "ws://" ws_url in
  if negb is_wss && negb is_ws then false
  else negb (bool_decide (env = BaseSepolia \/ env = BaseMainnet) && is_ws).

(** [strip_prefix]. *)
Definition strip_prefix (p s : string) : option string :=
  if String.prefix p s
  then Some (String.substring (String.length p) (String.length s - String.length p) s) else None.

Definition resolve_ws_url (http_url : string) (pinned : option string) : option string :=
  match pinned with
  | Some u => Some u
  | None =>
      match strip_prefix "https://" http_url with
      | Some rest => Some ("wss://" ++ rest)%string
      | None =>
          match strip_prefix "http://" http_url with
          | Some rest => Some ("ws://" ++ rest)%string
          | None => None
          end
      end
  end.

(** ** Logs *)

(** [RevisionPublished], decoded. *)
Record Published : Type := mkPublished {
  pub_sequence : Z;
  pub_vault_id : Z;
  pub_account_id : Z;
  pub_parent_revision : Z;
  pub_device_id : Z;
  pub_schema_version : Z;
  pub_enc_payload : list Z;
  pub_signer : Z
}.

Inductive DeviceMgmtEvent : Type :=
| Bootstrapped (first_signer manager : Z)
| Added (signer nonce : Z)
| Removed (signer nonce : Z)
| PromotionFinalized (new_manager : Z).

(** A log of [eth_getLogs]: its metadata and what the two decoders make of it. *)
Record RpcLog : Type := mkRpcLog {
  rpc_address : Z;
  decode_revision : option Published;
  decode_mgmt : option DeviceMgmtEvent;
  rpc_block_number : option Z;
  rpc_log_index : option Z;
  rpc_tx_hash : option Z;
  rpc_block_hash : option Z
}.

Record VerifiedRevisionEvent : Type := mkVerifiedRevisionEvent {
  vre_event : RevisionEvent;
  vre_signer : Z;
  vre_block_hash : Z;
  vre_schema_version : Z
}.

(** [u8::try_from(schema_version).unwrap_or(0)]. *)
Definition event_to_revision_event (vault_id : Z) (p : Published) (sequence : Z) (a : ChainAnchor) :
    RevisionEvent :=
  mkRevisionEvent vault_id (pub_account_id p) (pub_parent_revision p) (pub_device_id p)
    (default 0 (try_from 0 255 (pub_schema_version p))) sequence (pub_enc_payload p) a.

(** [verify_alloy_log] and [verify_alloy_log_v2]; [None] is [Rejected]. *)
Definition verify_alloy_log (log : RpcLog) (vault_id contract : Z) : option VerifiedRevisionEvent :=
  if negb (bool_decide (rpc_address log = contract)) then None
  else
    decoded ← decode_revision log;
    if negb (bool_decide (pub_vault_id decoded = vault_id)) then None
    else if MAX_KNOWN_CLIENT_SCHEMA_VERSION <? pub_schema_version decoded then None
    else
      block ← rpc_block_number log;
      index ← rpc_log_index log;
      tx ← rpc_tx_hash log;
      hash ← rpc_block_hash log;
      sequence ← u64_try_from (pub_sequence decoded);
      Some (mkVerifiedRevisionEvent
        (event_to_revision_event vault_id decoded sequence (mkChainAnchor tx block index sequence))
        (pub_signer decoded) hash (pub_schema_version decoded)).

(** The loop of [fetch_chunk] over the answered logs. *)
Definition verify_step (vault_id contract : Z) (acc : list VerifiedRevisionEvent * Z) (log : RpcLog) :
    list VerifiedRevisionEvent * Z :=
  match verify_alloy_log log vault_id contract with
  | Some ev => (acc.1 ++ [ev], acc.2)
  | None => (acc.1, saturating_add U32_MAX acc.2 1)
  end.

Definition verify_logs (vault_id contract : Z) (logs : list RpcLog) :
    list VerifiedRevisionEvent * Z :=
  foldl (verify_step vault_id contract) ([], 0) logs.

Definition decode_device_mgmt_events (contract : Z) (logs : list RpcLog) : list DeviceMgmtEvent :=
  omap (fun log => if bool_decide (rpc_address log = contract) then decode_mgmt log else None) logs.

(** The candidates of the event fold: every signer ever seen. *)
Definition candidate (ev : DeviceMgmtEvent) : option Z :=
  match ev with
  | Bootstrapped first_signer _ => Some first_signer
  | Added signer _ | Removed signer _ => Some signer
  | PromotionFinalized _ => None
  end.

Definition collect_candidates (evs : list DeviceMgmtEvent) (candidates : list Z) : list Z :=
  foldl (fun cs ev => match candidate ev with Some s => push_new s cs | None => cs end)
    candidates evs.

(** ** The reorganisation detector *)

Record ReorgDetector : Type := mkReorgDetector { observed : gmap Z Z; tip : Z }.

Record ReorgInfo : Type := mkReorgInfo { affected_block_low : Z; affected_block_high : Z }.

Definition new_detector : ReorgDetector := mkReorgDetector ∅ 0.

Definition maybe_evict (d : ReorgDetector) : ReorgDetector :=
  let evict_below := saturating_sub (tip d) (CONFIRMATION_DEPTH_FOR_FINALIZATION * 2) in
  mkReorgDetector (filter (fun e => evict_below <= e.1) (observed d)) (tip d).

Definition record_observed (block hash : Z) (d : ReorgDetector) : ReorgDetector :=
  maybe_evict (mkReorgDetector (<[block := hash]> (observed d))
    (if tip d <? block then block else tip d)).

Definition forget_window (i : ReorgInfo) (d : ReorgDetector) : ReorgDetector :=
  mkReorgDetector
    (filter (fun e => ~ (affected_block_low i <= e.1 <= affected_block_high i)) (observed d)) (tip d).

Definition height_le (a b : Z * Z) : Prop := a.1 <= b.1.

#[export] Instance height_le_dec : RelDecision height_le.
Proof. intros a b. unfold height_le. apply _. Defined.
#[export] Instance height_le_total : Total height_le.
Proof. intros a b. unfold height_le. lia. Qed.

(** The observations in the order of the B-tree. *)
Definition observations (d : ReorgDetector) : list (Z * Z) :=
  merge_sort height_le (map_to_list (observed d)).

Definition extend_window (w : option (Z * Z)) (block : Z) : option (Z * Z) :=
  match w with
  | None => Some (block, block)
  | Some (low, high) =>
      Some (if block <? low then block else low, if high <? block then block else high)
  end.

(** ** Options, reports and routing *)

Record SyncOptions : Type := mkSyncOptions {
  from_genesis : bool;
  until_block : option Z;
  prefer_websocket : bool
}.

Inductive ChainEventSource : Type := WebSocket | HttpPolling.

Record SyncReport : Type := mkSyncReport {
  revisions_pulled : Z;
  revisions_applied : Z;
  revisions_rejected : Z;
  last_block_synced : Z;
  new_devices_registered : Z;
  revisions_finalized : Z;
  revisions_rolled_back : Z;
  event_source : ChainEventSource;
  ws_drops : Z;
  revisions_revoked : Z
}.

Definition empty_report : SyncReport := mkSyncReport 0 0 0 0 0 0 0 HttpPolling 0 0.

(** [report.field = report.field.saturating_add(n)]. *)
Inductive Counter : Type :=
| Pulled | Applied | Rejected | Registered | FinalizedRows | RolledBack | Drops | RevokedRows.

Definition bump (c : Counter) (n : Z) (r : SyncReport) : SyncReport :=
  let '(mkSyncReport pu ap re la ne fi ro es wd rv) := r in
  let add v := saturating_add U32_MAX v n in
  match c with
  | Pulled => mkSyncReport (add pu) ap re la ne fi ro es wd rv
  | Applied => mkSyncReport pu (add ap) re la ne fi ro es wd rv
  | Rejected => mkSyncReport pu ap (add re) la ne fi ro es wd rv
  | Registered => mkSyncReport pu ap re la (add ne) fi ro es wd rv
  | FinalizedRows => mkSyncReport pu ap re la ne (add fi) ro es wd rv
  | RolledBack => mkSyncReport pu ap re la ne fi (add ro) es wd rv
  | Drops => mkSyncReport pu ap re la ne fi ro es (add wd) rv
  | RevokedRows => mkSyncReport pu ap re la ne fi ro es wd (add rv)
  end.

Definition set_last_block (b : Z) (r : SyncReport) : SyncReport :=
  let '(mkSyncReport pu ap re _ ne fi ro es wd rv) := r in mkSyncReport pu ap re b ne fi ro es wd rv.

Definition set_event_source (es : ChainEventSource) (r : SyncReport) : SyncReport :=
  let '(mkSyncReport pu ap re la ne fi ro _ wd rv) := r in mkSyncReport pu ap re la ne fi ro es wd rv.

Inductive RevisionLogVersion : Type := V1 | V2.

#[export] Instance RevisionLogVersion_eq_dec : EqDecision RevisionLogVersion.
Proof. solve_decision. Defined.

Definition to_meta_int (v : RevisionLogVersion) : Z := match v with V1 => 1 | V2 => 2 end.

Definition from_meta_int (v : option Z) : store_result RevisionLogVersion :=
  match v with
  | None => Ok V1
  | Some i => if i =? 1 then Ok V1 else if i =? 2 then Ok V2
              else Err (Corrupted UnrecognizedRevisionLogVersion)
  end.

(** ** Device rows *)

(** A row of [devices]; the key is the 32-byte device id, of which an address
    is the low 20 bytes. *)
Record DeviceRow : Type := mkDeviceRow {
  device_label : string;
  added_at : Z;
  revoked_at : option Z;
  capabilities : Z;
  last_sync_at : option Z;
  public_key : option Z;
  device_schema_version : Z;
  evm_address : option Z;
  discovered_via_chain_sync : bool;
  discovered_at_block : option Z
}.

(** [INSERT OR IGNORE]: the rows and whether one was added. *)
Definition auto_register_device_from_chain_sync (evm_address discovered_at_block now_ms : Z)
    (devices : gmap Z DeviceRow) : store_result (gmap Z DeviceRow * bool) :=
  block_i ← ok_or (i64_try_from discovered_at_block) (Corrupted IntegerOverflow);
  match devices !! evm_address with
  | Some _ => Ok (devices, false)
  | None =>
      Ok (<[evm_address := mkDeviceRow "discovered-via-chain-sync" now_ms None 0 None None 1
                             (Some evm_address) true (Some block_i)]> devices, true)
  end.

(** ** Calls

    A failed call answers with its message. *)

Inductive WsRecvOutcome : Type := Event (log : RpcLog) | SubscriptionClosed.

Inductive SyncCall : Type :=
| Connect (url : string)
| GetChainId
| GetBlockNumber
| GetLogs (contract vault_id from_block to_block : Z)
| GetDeviceLogs (contract vault_id from_block to_block : Z)
| GetBlock (number : Z)
| AuthorizedDevice (contract vault_id signer : Z)
| ConnectWs (url : string)
| WsChainId
| SubscribeLogs (contract vault_id : Z)
| Recv
| InstantNow
| Sleep (ms : Z).

(** [GetBlock] answers with the hash, if there is a block; [Recv] with
    nothing when the idle time-out expires first. *)
Definition SyncAnswer (q : SyncCall) : Type :=
  match q with
  | Connect _ | ConnectWs _ | SubscribeLogs _ _ => result string unit
  | GetChainId | WsChainId | GetBlockNumber => result string Z
  | GetLogs _ _ _ _ | GetDeviceLogs _ _ _ _ => result string (list RpcLog)
  | GetBlock _ => result string (option Z)
  | AuthorizedDevice _ _ _ => result string bool
  | Recv => option WsRecvOutcome
  | InstantNow => Z
  | Sleep _ => unit
  end.

(** [StoreError], with the [ChainError] it may wrap. *)
Inductive SyncError : Type := StoreErr (e : StoreError) | ChainErr (e : ChainError).

Section sync.
Context {Snapshot Key Index P : Type}.
Notation W := (World Database Snapshot Key Index P).

(** The vault of a sync: the session and the tables of [World], the [devices]
    table and the routing column of [meta]. *)
Record SyncVault : Type := mkSyncVault {
  sv_world : W;
  sv_devices : gmap Z DeviceRow;
  meta_revisionlog_version : option Z
}.

(** A call, and the vault while it is pending. *)
Record Pending : Type := mkPending { pd_call : SyncCall; pd_vault : SyncVault }.

Definition PAnswer (p : Pending) : Type := SyncAnswer (pd_call p).

(** An [async] method on [&mut self]. *)
Definition sprog (A : Type) : Type := SyncVault -> prog PAnswer (result SyncError A * SyncVault).

#[export] Instance sprog_ret : MRet sprog := fun A a s => Ret (Ok a, s).
#[export] Instance sprog_bind : MBind sprog := fun A B f m s =>
  prog_bind (fun x => match x with
                      | (Ok a, s') => f a s'
                      | (Err e, s') => Ret (Err e, s')
                      end) (m s).

Definition call_out (q : SyncCall) : sprog (SyncAnswer q) :=
  fun s => Do (mkPending q s) (fun r => Ret (Ok r, s)).

(** [.map_err(|e| ChainError::Rpc(..))?]. *)
Definition chain_result {A} (r : result ChainError A) : sprog A := fun s => Ret (map_err ChainErr r, s).
Definition rpc {A} (m : sprog (result string A)) : sprog A :=
  r ← m; chain_result (map_err Rpc r).

(** The synchronous methods of the vault. *)
Definition on_world {A} (m : op W StoreError A) : sprog A := fun s =>
  let '(r, w) := m (sv_world s) in
  Ret (map_err StoreErr r, mkSyncVault w (sv_devices s) (meta_revisionlog_version s)).

Definition on_database {A} (f : Database -> store_result (Database * A)) : sprog A :=
  on_world (d ← get_db; '(d', a) ← lift (f d); put_db d' ≫= fun _ => mret a).

Definition on_devices {A} (f : gmap Z DeviceRow -> store_result (gmap Z DeviceRow * A)) : sprog A :=
  fun s => match f (sv_devices s) with
           | Ok (t, a) => Ret (Ok a, mkSyncVault (sv_world s) t (meta_revisionlog_version s))
           | Err e => Ret (Err (StoreErr e), s)
           end.

Context (wall clock : nat -> Z) (self_vault_id : Z).
Context (canonical_hash : Z -> Z -> Z -> Z -> Z -> list Z -> Z)
        (open_payload : Key -> Z -> list Z -> Aad -> store_result (DecodedPayload Snapshot)).
Context (load_deployed_address : RevisionLogVersion -> ChainEnv -> result ChainError Z).
Context (rpc_url : string) (env : ChainEnv) (vault_id : Z).

(** [resolve_and_check_contract], and [resolve_contract_address] of V2. *)
Definition resolve_contract (version : RevisionLogVersion) : result ChainError Z :=
  match version with
  | V1 => checked_address (load_deployed_address V1 env) env EXPECTED_DEPLOYED_ADDRESS_BASE_SEPOLIA
  | V2 => load_deployed_address V2 env
  end.

(** ** Reading the chain *)

Definition build_read_provider : sprog unit := rpc (call_out (Connect rpc_url)).

Definition check_chain_id_matches (query : sprog (result string Z)) : sprog unit :=
  match chain_id env with
  | None => mret tt
  | Some expected =>
      observed ← rpc query;
      if bool_decide (observed = expected) then mret tt
      else chain_result (Err (ChainIdMismatch expected observed))
  end.

Definition fetch_current_block_number : sprog Z :=
  build_read_provider ≫= fun _ => rpc (call_out GetBlockNumber).

(** [fetch_chunk] and [fetch_chunk_v2]. *)
Definition fetch_chunk (contract from_block to_block : Z) : sprog (list VerifiedRevisionEvent * Z) :=
  logs ← rpc (call_out (GetLogs contract vault_id from_block to_block));
  mret (verify_logs vault_id contract logs).

(** [fetch_and_verify_chunk] and [fetch_and_verify_chunk_v2]. *)
Definition fetch_and_verify_chunk (version : RevisionLogVersion) (from_block to_block : Z) :
    sprog (list VerifiedRevisionEvent * Z) :=
  contract ← chain_result (resolve_contract version);
  build_read_provider ≫= fun _ =>
  check_chain_id_matches (call_out GetChainId) ≫= fun _ =>
  fetch_chunk contract from_block to_block.

(** [ReorgDetector::detect_reorg]: an observed block that is gone or has
    another hash widens the window. *)
Fixpoint compare_blocks (obs : list (Z * Z)) (w : option (Z * Z)) : sprog (option (Z * Z)) :=
  match obs with
  | [] => mret w
  | (block, observed_hash) :: obs =>
      canonical ← rpc (call_out (GetBlock block));
      compare_blocks obs (if bool_decide (canonical = Some observed_hash) then w
                          else extend_window w block)
  end.

Definition detect_reorg (d : ReorgDetector) : sprog (option ReorgInfo) :=
  w ← compare_blocks (observations d) None;
  mret ((fun w => mkReorgInfo w.1 w.2) <$> w).

Definition detect_reorg_via_rpc (d : ReorgDetector) : sprog (option ReorgInfo) :=
  build_read_provider ≫= fun _ => detect_reorg d.

(** How many chunks cover [from..=to]. *)
Definition chunks_of (from_block to_block : Z) : nat :=
  Z.to_nat ((to_block - from_block) / LOG_BLOCK_CHUNK + 1).

(** The event fold of [read_authorized_set_v2]. *)
Fixpoint fold_events (fuel : nat) (contract from head : Z) (candidates : list Z) : sprog (list Z) :=
  match fuel with
  | O => mret candidates
  | S fuel =>
      if from <=? head then
        let to := Z.min (saturating_add U64_MAX from (LOG_BLOCK_CHUNK - 1)) head in
        logs ← rpc (call_out (GetDeviceLogs contract vault_id from to));
        let candidates := collect_candidates (decode_device_mgmt_events contract logs) candidates in
        if to =? head then mret candidates
        else fold_events fuel contract (saturating_add U64_MAX to 1) head candidates
      else mret candidates
  end.

(** Its live cross-check. *)
Fixpoint cross_check (contract : Z) (candidates set : list Z) : sprog (list Z) :=
  match candidates with
  | [] => mret set
  | signer :: candidates =>
      live ← rpc (call_out (AuthorizedDevice contract vault_id signer));
      cross_check contract candidates (if (live : bool) then push_new signer set else set)
  end.

Definition resolve_envelope_chain_id : sprog Z :=
  observed ← rpc (call_out GetChainId);
  match chain_id env with
  | Some expected => if bool_decide (observed = expected) then mret expected
                     else chain_result (Err (ChainIdMismatch expected observed))
  | None => mret observed
  end.

Definition bind_read : sprog Z :=
  contract ← chain_result (resolve_contract V2);
  build_read_provider ≫= fun _ => mret contract.

Definition read_authorized_set_v2 (from_block : Z) : sprog (list Z) :=
  contract ← chain_result (resolve_contract V2);
  build_read_provider ≫= fun _ =>
  resolve_envelope_chain_id ≫= fun _ =>
  head ← rpc (call_out GetBlockNumber);
  let from := Z.min from_block head in
  candidates ← fold_events (chunks_of from head) contract from head [];
  bound ← bind_read;
  cross_check bound candidates [].

(** ** One event *)

(** What the rest of the sync sees of its progress. *)
Record Progress : Type := mkProgress {
  report : SyncReport;
  detector : ReorgDetector;
  cursor : Z
}.

Definition count (c : Counter) (n : Z) (p : Progress) : Progress :=
  mkProgress (bump c n (report p)) (detector p) (cursor p).
Definition set_cursor (b : Z) (p : Progress) : Progress := mkProgress (report p) (detector p) b.
Definition set_detector (d : ReorgDetector) (p : Progress) : Progress :=
  mkProgress (report p) d (cursor p).

(** Registration, ingestion, and in V2 the recovered signer. *)
Definition apply_event (version : RevisionLogVersion) (ev : VerifiedRevisionEvent) (p : Progress) :
    sprog Progress :=
  let block := block_number (ev_anchor (vre_event ev)) in
  now_ms ← on_world (current_unix_ms wall);
  inserted_new ← on_devices (auto_register_device_from_chain_sync (vre_signer ev) block now_ms);
  let p := if (inserted_new : bool) then count Registered 1 p else p in
  on_world (ingest_pending_chain_revision clock wall self_vault_id canonical_hash open_payload
              (vre_event ev) block (vre_block_hash ev)) ≫= fun _ =>
  match version with
  | V1 => mret tt
  | V2 => on_world (stamp_recovered_signer (vre_event ev) (vre_signer ev))
  end ≫= fun _ =>
  mret (count Applied 1 (set_detector (record_observed block (vre_block_hash ev) (detector p)) p)).

(** The honor gate in front of it. *)
Definition gated (version : RevisionLogVersion) (set : list Z) (ev : VerifiedRevisionEvent) : bool :=
  match version with V1 => false | V2 => negb (is_signer_honored (vre_signer ev) set) end.

Fixpoint apply_events (version : RevisionLogVersion) (set : list Z)
    (evs : list VerifiedRevisionEvent) (p : Progress) : sprog Progress :=
  match evs with
  | [] => mret p
  | ev :: evs =>
      p ← (if gated version set ev then mret (count RevokedRows 1 p) else apply_event version ev p);
      apply_events version set evs p
  end.

(** ** Stage 1: the backfill *)

Definition last_synced_block (version : RevisionLogVersion) : sprog (option Z) :=
  on_database (fun d =>
    o ← match version with V1 => last_synced_block_v1 d | V2 => last_synced_block_v2 d end;
    Ok (d, o)).

Definition update_last_synced_block (version : RevisionLogVersion) (b : Z) : sprog unit :=
  on_database (fun d =>
    d' ← match version with
         | V1 => update_last_synced_block_v1 b d
         | V2 => update_last_synced_block_v2 b d
         end;
    Ok (d', tt)).

Definition promote (head : Z) (p : Progress) : sprog Progress :=
  promoted ← on_database (promote_finalized_revisions head);
  mret (count FinalizedRows promoted p).

Definition roll_back (info : option ReorgInfo) (p : Progress) : sprog Progress :=
  match info with
  | None => mret p
  | Some info =>
      rolled ← on_database (rollback_pending_revisions_in_range (affected_block_low info)
                              (affected_block_high info));
      mret (set_detector (forget_window info (detector p)) (count RolledBack rolled p))
  end.

(** One turn of the loop. *)
Definition backfill_chunk (version : RevisionLogVersion) (set : list Z) (head : Z) (p : Progress) :
    sprog Progress :=
  let chunk_start := saturating_add U64_MAX (cursor p) 1 in
  let chunk_end := Z.min (saturating_add U64_MAX chunk_start (saturating_sub LOG_BLOCK_CHUNK 1)) head in
  '(events, rejected) ← fetch_and_verify_chunk version chunk_start chunk_end;
  let pulled := default U32_MAX (u32_try_from (Z.of_nat (length events))) in
  p ← apply_events version set events (count Rejected rejected (count Pulled pulled p));
  info ← detect_reorg_via_rpc (detector p);
  p ← roll_back info p;
  p ← promote head p;
  update_last_synced_block version chunk_end ≫= fun _ =>
  mret (set_cursor chunk_end p).

Fixpoint backfill (fuel : nat) (version : RevisionLogVersion) (set : list Z) (head : Z)
    (p : Progress) : sprog Progress :=
  match fuel with
  | O => mret p
  | S fuel =>
      if cursor p <? head then
        p ← backfill_chunk version set head p;
        if head <=? cursor p then mret p else backfill fuel version set head p
      else mret p
  end.

(** ** Stage 2: following the tip *)

Definition open_subscription (ws_url : string) (contract : Z) : sprog bool :=
  if check_ws_scheme ws_url env then
    opened ← call_out (ConnectWs ws_url);
    match opened with
    | Err _ => mret false
    | Ok _ =>
        let subscribe := r ← call_out (SubscribeLogs contract vault_id);
                         mret match r with Ok _ => true | Err _ => false end in
        match chain_id env with
        | None => subscribe
        | Some expected =>
            observed ← call_out WsChainId;
            match observed with
            | Ok o => if bool_decide (o = expected) then subscribe else mret false
            | Err _ => mret false
            end
        end
    end
  else mret false.

Record WsState : Type := mkWsState {
  ws_progress : Progress;
  consecutive_failures : Z;
  backoff_ms : Z;
  ws_path_used : bool
}.

(** An arriving log; the flag says that an event was ingested. *)
Definition ws_event (version : RevisionLogVersion) (set : list Z) (contract : Z) (log : RpcLog)
    (p : Progress) : sprog (Progress * bool) :=
  match verify_alloy_log log vault_id contract with
  | None => mret (count Rejected 1 p, false)
  | Some ev =>
      let p := count Pulled 1 p in
      if gated version set ev then mret (count RevokedRows 1 p, false)
      else
        p ← apply_event version ev p;
        let new_cursor := block_number (ev_anchor (vre_event ev)) in
        if cursor p <? new_cursor then
          update_last_synced_block version new_cursor ≫= fun _ =>
          mret (set_cursor new_cursor p, true)
        else mret (p, true)
  end.

(** The two loops, of which each turn starts by reading the clock: outside a
    subscription ([None]), or inside one, where the flag is
    [event_ingested_this_open].  After [rounds] readings the deadline has
    passed. *)
Fixpoint ws_session (rounds : nat) (version : RevisionLogVersion) (set : list Z) (ws_url : string)
    (contract deadline : Z) (inside : option bool) (s : WsState) : sprog WsState :=
  match rounds with
  | O => mret s
  | S rounds =>
      now ← call_out InstantNow;
      let again := ws_session rounds version set ws_url contract deadline in
      let reconnect ingested_this_open :=
        let backoff := next_reconnect_backoff_ms (backoff_ms s) in
        let p := count Drops 1 (ws_progress s) in
        again None
          (if (ingested_this_open : bool) then mkWsState p 0 0 (ws_path_used s)
           else mkWsState p (saturating_add U32_MAX (consecutive_failures s) 1) backoff
                  (ws_path_used s)) in
      match inside with
      | None =>
          if ((now : Z) <? deadline) && (consecutive_failures s <? WS_CIRCUIT_BREAKER_THRESHOLD) then
            (if 0 <? backoff_ms s then call_out (Sleep (backoff_ms s)) else mret tt) ≫= fun _ =>
            opened ← open_subscription ws_url contract;
            if (opened : bool) then again (Some false) s else reconnect false
          else mret s
      | Some ingested =>
          if deadline <=? (now : Z) then mret s
          else
            outcome ← call_out Recv;
            match (outcome : option WsRecvOutcome) with
            | None => mret s
            | Some SubscriptionClosed => reconnect ingested
            | Some (Event log) =>
                '(p, landed) ← ws_event version set contract log (ws_progress s);
                again (Some (ingested || landed))
                  (mkWsState p (consecutive_failures s) (backoff_ms s) (ws_path_used s || landed))
            end
      end
  end.

Definition follow_tip (rounds : nat) (version : RevisionLogVersion) (set : list Z)
    (ws_url_override : option string) (options : SyncOptions) (head : Z) (p : Progress) :
    sprog SyncReport :=
  if negb (prefer_websocket options && bool_decide (until_block options = None)) then mret (report p)
  else
    match resolve_contract version with
    | Err _ => mret (report p)
    | Ok contract =>
        match (match ws_url_override with Some forced => Some forced
               | None => resolve_ws_url rpc_url None end) with
        | None => mret (report p)
        | Some ws_url =>
            now ← call_out InstantNow;
            s ← ws_session rounds version set ws_url contract
                  ((now : Z) + from_secs WS_TIP_FOLLOW_WINDOW_SECS) None (mkWsState p 0 0 false);
            let p := ws_progress s in
            if ws_path_used s then
              p ← promote head (mkProgress (set_event_source WebSocket (report p)) (detector p) (cursor p));
              mret (report p)
            else mret (report p)
        end
    end.

(** ** The orchestrators

    The two paths of the source, which differ in the first cursor, the
    authorized set, the contract and the checkpoint. *)
Definition first_cursor (version : RevisionLogVersion) : Z :=
  match version with V1 => d017_deploy_block env | V2 => 0 end.

(** The retroactive pass of V2. *)
Definition retro_pass (version : RevisionLogVersion) (set : list Z) (p : Progress) : sprog Progress :=
  match version with
  | V1 => mret p
  | V2 =>
      retro_revoked ← on_database (fun d => Ok (reevaluate_revocation_against_set set d));
      mret (count RevokedRows retro_revoked p)
  end.

(** Both stages, once the head and the set are known. *)
Definition run_stages (rounds : nat) (version : RevisionLogVersion) (ws_url_override : option string)
    (options : SyncOptions) (start head : Z) (set : list Z) : sprog SyncReport :=
  p ← backfill (chunks_of start head) version set head (mkProgress empty_report new_detector start);
  p ← promote head p;
  p ← retro_pass version set (mkProgress (set_last_block head (report p)) (detector p) (cursor p));
  follow_tip rounds version set ws_url_override options head p.

(** V1 honors every signer. *)
Definition current_set (version : RevisionLogVersion) : sprog (list Z) :=
  match version with V1 => mret [] | V2 => read_authorized_set_v2 0 end.

Definition sync_from (rounds : nat) (version : RevisionLogVersion) (ws_url_override : option string)
    (options : SyncOptions) (start head : Z) : sprog SyncReport :=
  if head <? start then chain_result (Err (CheckpointOutOfRange start head))
  else
    set ← current_set version;
    run_stages rounds version ws_url_override options start head set.

Definition start_cursor (version : RevisionLogVersion) (options : SyncOptions) (persisted : option Z) : Z :=
  if from_genesis options then first_cursor version else default (first_cursor version) persisted.

Definition read_head (options : SyncOptions) : sprog Z :=
  match until_block options with Some t => mret t | None => fetch_current_block_number end.

Definition sync_path (rounds : nat) (version : RevisionLogVersion) (ws_url_override : option string)
    (options : SyncOptions) : sprog SyncReport :=
  persisted ← last_synced_block version;
  head ← read_head options;
  sync_from rounds version ws_url_override options (start_cursor version options persisted) head.

Definition sync_from_chain_v2_path (rounds : nat) (ws_url_override : option string)
    (options : SyncOptions) : sprog SyncReport :=
  sync_path rounds V2 ws_url_override options.

Definition revisionlog_version : sprog RevisionLogVersion := fun s =>
  Ret (map_err StoreErr (from_meta_int (meta_revisionlog_version s)), s).

Definition sync_from_chain_with_ws_url (rounds : nat) (ws_url_override : option string)
    (options : SyncOptions) : sprog SyncReport :=
  version ← revisionlog_version;
  match version with
  | V2 => sync_from_chain_v2_path rounds ws_url_override options
  | V1 => sync_path rounds V1 ws_url_override options
  end.

Definition sync_from_chain (rounds : nat) (options : SyncOptions) : sprog SyncReport :=
  sync_from_chain_with_ws_url rounds None options.
End sync.
