(* ===== verification/ChainSyncFacts.v ===== *)
(** * Chain synchronisation: what it guarantees

    A logic for the programs of [ChainSync] over the protocols of [Effects],
    what one event does to the vault, and the theorems about whole runs: which
    requests a sync makes, what its checkpoint covers, whose rows a V2 sync
    honors, that it fails closed, that it ends, and what a web-socket event and
    a roll-back leave behind. *)

From Stdlib Require Import String.
From S2P Require Import Prelude Effects StoreError RevisionGraph SessionPolicy Database AccountOps.
From S2P Require Import ChainIngest MultiDevice TypedData ChainSync.
Open Scope Z_scope.

Section sync.
Context {Snapshot Key Index P : Type}.
Context (wall clock : nat -> Z) (self_vault_id : Z).
Context (canonical_hash : Z -> Z -> Z -> Z -> Z -> list Z -> Z)
        (open_payload : Key -> Z -> list Z -> Aad -> store_result (DecodedPayload Snapshot)).
Context (load_deployed_address : RevisionLogVersion -> ChainEnv -> result ChainError Z).
Context (rpc_url : string) (env : ChainEnv) (vault_id : Z).

Notation W := (World Database Snapshot Key Index P).
Notation SV := (@SyncVault Snapshot Key Index P).
Notation Pend := (@Pending Snapshot Key Index P).
Notation Ans := (@PAnswer Snapshot Key Index P).
Notation sprog := (@sprog Snapshot Key Index P).
Notation apply_event := (apply_event wall clock self_vault_id canonical_hash open_payload
                           : RevisionLogVersion -> VerifiedRevisionEvent -> Progress -> sprog Progress).
Notation known := (known canonical_hash).
Notation backfill := (backfill wall clock self_vault_id canonical_hash open_payload load_deployed_address
                        rpc_url env vault_id
   : nat -> RevisionLogVersion -> list Z -> Z -> Progress -> sprog Progress).
Notation follow_tip := (follow_tip wall clock self_vault_id canonical_hash open_payload load_deployed_address
                          rpc_url env vault_id
   : nat -> RevisionLogVersion -> list Z -> option string -> SyncOptions -> Z -> Progress -> sprog SyncReport).
Notation run_stages := (run_stages wall clock self_vault_id canonical_hash open_payload load_deployed_address
                          rpc_url env vault_id
   : nat -> RevisionLogVersion -> option string -> SyncOptions -> Z -> Z -> list Z -> sprog SyncReport).
Notation sync_from := (sync_from wall clock self_vault_id canonical_hash open_payload load_deployed_address
                         rpc_url env vault_id
   : nat -> RevisionLogVersion -> option string -> SyncOptions -> Z -> Z -> sprog SyncReport).
Notation sync_path := (sync_path wall clock self_vault_id canonical_hash open_payload load_deployed_address
                         rpc_url env vault_id
   : nat -> RevisionLogVersion -> option string -> SyncOptions -> sprog SyncReport).

Definition sdb (s : SV) : Database := db (vault (sv_world s)).
Definition with_sdb (d : Database) (s : SV) : SV :=
  mkSyncVault (map_vault (set_db d) (sv_world s)) (sv_devices s) (meta_revisionlog_version s).

Lemma with_sdb_same (s : SV) : with_sdb (sdb s) s = s.
Proof. destruct s as [[[] ? ?] ? ?]. done. Qed.

(** The vault at a point of a run. *)
Definition vault_at {A} (p : prog Ans (result SyncError A * SV)) : SV :=
  match p with Ret x => x.2 | Do e _ => pd_vault e end.

(** ** The logic *)

Section logic.
Context {T : Type} (rely : call Ans -> Prop) (pre : Pend -> T -> Prop) (upd : call Ans -> T -> T).

Definition sp {A} (m : sprog A) (Q : result SyncError A -> SV -> T -> Prop) (s : SV) (t : T) : Prop :=
  rwp rely pre upd (m s) (fun x t => Q x.1 x.2 t) t.

Lemma sp_mono {A} (m : sprog A) (Q Q' : result SyncError A -> SV -> T -> Prop) s t :
  sp m Q s t -> (forall r s t, Q r s t -> Q' r s t) -> sp m Q' s t.
Proof. intros Hm HQ. eapply rwp_mono; [exact Hm|]. intros [r s'] t'. apply HQ. Qed.

Lemma sp_bind {A B} (m : sprog A) (f : A -> sprog B) Q s t :
  sp m (fun r s t => match r with Ok a => sp (f a) Q s t | Err e => Q (Err e) s t end) s t ->
  sp (m ≫= f) Q s t.
Proof. intros Hm. apply rwp_bind. eapply rwp_mono; [exact Hm|]. by intros [[a|e] s'] t'. Qed.

Lemma sp_ret {A} (a : A) (Q : result SyncError A -> SV -> T -> Prop) s t :
  Q (Ok a) s t -> sp (mret a) Q s t.
Proof. done. Qed.

Lemma sp_call q (Q : result SyncError (SyncAnswer q) -> SV -> T -> Prop) (s : SV) t :
  pre (mkPending q s) t ->
  (forall r, rely (existT (mkPending q s) r) -> Q (Ok r) s (upd (existT (mkPending q s) r) t)) ->
  sp (call_out q) Q s t.
Proof. by split. Qed.

Lemma sp_chain {A} (r : result ChainError A) Q (s : SV) t :
  Q (map_err ChainErr r) s t -> sp (chain_result r) Q s t.
Proof. done. Qed.

Lemma sp_rpc {A} (m : sprog (result string A)) (Q : result SyncError A -> SV -> T -> Prop) s t :
  sp m (fun r s t => match r with
                     | Ok (Ok a) => Q (Ok a) s t
                     | Ok (Err msg) => Q (Err (ChainErr (Rpc msg))) s t
                     | Err e => Q (Err e) s t
                     end) s t ->
  sp (rpc m) Q s t.
Proof. intros Hm. apply sp_bind. eapply sp_mono; [exact Hm|]. by intros [[a|msg]|e] s' t'. Qed.

Lemma sp_database {A} (f : Database -> store_result (Database * A)) Q (s : SV) t :
  match f (sdb s) with
  | Ok (d', a) => Q (Ok a) (with_sdb d' s) t
  | Err e => Q (Err (StoreErr e)) s t
  end -> sp (on_database f) Q s t.
Proof.
  unfold sp, on_database, on_world, get_db, put_db, gets, modify, lift, mbind, op_bind, sdb.
  destruct s as [[[] ? ?] ? ?]. simpl. by destruct (f _) as [[d' a]|e].
Qed.

Lemma sp_run {A} (m : sprog A) Q (s s' : SV) r t : m s = Ret (r, s') -> Q r s' t -> sp m Q s t.
Proof. unfold sp. by intros ->. Qed.

Lemma sp_reaches {A} (m : sprog A) Q s t evs p' :
  sp m Q s t -> reaches (m s) evs p' -> Forall rely evs ->
  rwp rely pre upd p' (fun x t => Q x.1 x.2 t) (foldl (fun t c => upd c t) t evs).
Proof. intros Hm Hr Hf. by eapply rwp_reaches. Qed.
End logic.

(** ** One event *)

(** The anchor fits the columns. *)
Definition storable (ev : RevisionEvent) : Prop := is_Some (i64_try_from (block_number (ev_anchor ev)))
  /\ is_Some (i64_try_from (log_index (ev_anchor ev))).

Lemma store_anchor_storable ev :
  (exists sa, store_anchor (ev_anchor ev) = Ok sa) \/ (store_anchor (ev_anchor ev) = Err (Corrupted IntegerOverflow) /\ ~ storable ev).
Proof.
  unfold store_anchor, storable, mbind, result_bind, ok_or.
  destruct (i64_try_from (block_number _)); [|right; split; [done|by intros [[? ?] _]]].
  destruct (i64_try_from (log_index _)); [by left; eexists|right; split; [done|by intros [_ [? ?]]]].
Qed.

Notation ingest_pending := (ingest_pending_chain_revision clock wall self_vault_id canonical_hash open_payload
     : RevisionEvent -> Z -> Z -> op W StoreError IngestOutcome).

Lemma ingest_pending_run ev hash (w : W) :
  exists r w', ingest_pending ev (block_number (ev_anchor ev)) hash w = (r, w')
  /\ match r with
     | Ok _ => exists sa block d1 o, store_anchor (ev_anchor ev) = Ok sa
         /\ ingest_effect canonical_hash ev (db (vault w)) d1 (Ok o)
         /\ db (vault w') = stamp_pending sa block hash d1
     | Err e => e = Corrupted IntegerOverflow /\ db (vault w') = db (vault w) /\ ~ storable ev
     end.
Proof.
  unfold ingest_pending_chain_revision.
  destruct (ingest_run clock wall self_vault_id canonical_hash open_payload ev w) as (r1 & w1 & E1 & He).
  destruct (store_anchor_storable ev) as [[sa Hsa]|[Hsa Hns]].
  - destruct r1 as [o|e]; [|inversion He; congruence].
    rewrite (op_bind_run _ _ _ _ _ E1). rewrite op_bind_eq. unfold lift at 1.
    destruct (i64_try_from (block_number (ev_anchor ev))) as [b|] eqn:Eb.
    2: { exfalso. revert Hsa. unfold store_anchor, mbind, result_bind, ok_or. by rewrite Eb. }
    simpl. rewrite op_bind_eq. unfold lift, get_db, put_db, gets, modify. rewrite Hsa. rewrite !op_bind_eq.
    do 2 eexists. split; [reflexivity|]. exists sa, b, (db (vault w1)), o. by split_and!.
  - assert (Hd : db (vault w1) = db (vault w)) by (inversion He; congruence).
    destruct r1 as [o|e].
    + rewrite (op_bind_run _ _ _ _ _ E1). rewrite op_bind_eq. unfold lift at 1.
      destruct (i64_try_from (block_number (ev_anchor ev))) as [b|] eqn:Eb; simpl.
      2: { by exists (Err (Corrupted IntegerOverflow)), w1. }
      rewrite op_bind_eq. unfold lift. rewrite Hsa. simpl. by exists (Err (Corrupted IntegerOverflow)), w1.
    + rewrite (op_bind_fail _ _ _ _ _ E1). exists (Err e), w1. split; [done|].
      inversion He; subst. split_and!; congruence.
Qed.

(** Every anchored row that is honored is the work of a signer of the set. *)
Definition signed_by (set : list Z) (d : Database) : Prop :=
  forall k r, t_revisions d !! k = Some r -> is_Some (row_anchor r) -> revoked r = false ->
  exists signer, recovered_signer r = Some signer /\ signer ∈ set.

(** What [stamp_pending] and the signer stamp leave alone. *)
Lemma update_revisions_keeps p f d :
  (forall r, row_account (f r) = row_account r /\ row_anchor (f r) = row_anchor r) ->
  keeps d (update_revisions p f d).
Proof.
  intros Hf k r Hk. rewrite update_revisions_lookup, Hk. simpl. eexists. split; [done|].
  destruct (p k r); [|done]. destruct (Hf r) as [-> ->]. done.
Qed.

Lemma known_update ev p f d :
  (forall r, row_account (f r) = row_account r /\ row_anchor (f r) = row_anchor r) ->
  known ev d -> known ev (update_revisions p f d).
Proof. intros Hf. apply known_keeps. by apply update_revisions_keeps. Qed.

(** After the signer stamp: a row the ingest anchored belongs to a signer of
    the set, the others are as before. *)
Lemma signed_by_stamped set signer ev sa block hash d d1 o :
  signer ∈ set -> store_anchor (ev_anchor ev) = Ok sa ->
  ingest_effect canonical_hash ev d d1 (Ok o) -> signed_by set d ->
  signed_by set (update_revisions (fun _ r => bool_decide (row_account r = ev_account_id ev) && at_anchor sa r)
                   (set_row_signer signer) (stamp_pending sa block hash d1)).
Proof.
  intros Hin Hsa He Hd k r. rewrite update_revisions_lookup. unfold stamp_pending. rewrite update_revisions_lookup.
  destruct (t_revisions d1 !! k) as [r1|] eqn:Ek; [|done]. simpl. intros [= <-].
  set (r2 := if at_anchor sa r1 then _ else r1).
  assert (H2 : row_account r2 = row_account r1 /\ row_anchor r2 = row_anchor r1 /\ revoked r2 = revoked r1
               /\ recovered_signer r2 = recovered_signer r1) by (unfold r2; by destruct (at_anchor sa r1)).
  destruct H2 as (Hac & Han & Hre & Hsi).
  destruct (bool_decide (row_account r2 = ev_account_id ev) && at_anchor sa r2) eqn:Est.
  { intros _ _. by exists signer. }
  rewrite Han, Hre, Hsi. intros Ha Hr.
  assert (Hnot : ~ (row_account r1 = ev_account_id ev /\ row_anchor r1 = Some sa)).
  { intros [H1 H2]. revert Est. unfold at_anchor. rewrite Hac, Han, H1, H2.
    by rewrite !bool_decide_eq_true_2. }
  inversion He as [Hk|err Hn Hs|sa' Hn Hs Hp|sa' rid Hn Hs Hp Hm|sa' now tomb d1' Hn Hs Hp Hm Htx]; subst.
  - by apply (Hd k).
  - by apply (Hd k).
  - rewrite Hsa in Hs. injection Hs as <-. rewrite update_one_lookup in Ek.
    destruct (t_revisions d !! k) as [r0|] eqn:E0; [|done]. simpl in Ek. injection Ek as <-.
    destruct (decide (k = rid)) as [->|]; [|by apply (Hd k)]. exfalso. apply Hnot.
    apply merge_target_spec in Hm as (row & Hrow & Hm). rewrite E0 in Hrow. injection Hrow as <-.
    by apply is_merge_target_spec in Hm as (? & _).
  - rewrite Hsa in Hs. injection Hs as <-.
    apply tx_ingest_effect in Htx as (Hrev & _). rewrite Hrev in Ek.
    apply lookup_insert_Some in Ek as [[<- <-]|[_ Ek]]; [|by apply (Hd k)].
    exfalso. by apply Hnot.
Qed.

(** The run of [apply_event] on the vault and the progress. *)
Inductive event_effect (version : RevisionLogVersion) (ev : VerifiedRevisionEvent) (p : Progress) (s : SV) :
    result SyncError Progress -> SV -> Prop :=
| EventApplied p' s' :
    storable (vre_event ev) ->
    keeps (sdb s) (sdb s') -> checkpoints (sdb s') = checkpoints (sdb s) ->
    known (vre_event ev) (sdb s') ->
    (forall set, version = V2 -> vre_signer ev ∈ set -> signed_by set (sdb s) -> signed_by set (sdb s')) ->
    detector p' = record_observed (block_number (ev_anchor (vre_event ev))) (vre_block_hash ev) (detector p) ->
    cursor p' = cursor p ->
    event_effect version ev p s (Ok p') s'
| EventRefused s' :
    ~ storable (vre_event ev) -> sdb s' = sdb s ->
    event_effect version ev p s (Err (StoreErr (Corrupted IntegerOverflow))) s'.

Lemma storable_anchor ev sa : store_anchor (ev_anchor ev) = Ok sa -> storable ev.
Proof.
  unfold store_anchor, storable, mbind, result_bind, ok_or.
  destruct (i64_try_from (block_number _)); [|done]. by destruct (i64_try_from (log_index _)).
Qed.

Lemma ingest_effect_stamped version ev set sa block hash d d1 o :
  ingest_effect canonical_hash (vre_event ev) d d1 (Ok o) ->
  store_anchor (ev_anchor (vre_event ev)) = Ok sa ->
  let d2 := stamp_pending sa block hash d1 in
  let d3 := match version with
            | V1 => d2
            | V2 => update_revisions (fun _ r => bool_decide (row_account r = ev_account_id (vre_event ev))
                                                 && at_anchor sa r) (set_row_signer (vre_signer ev)) d2
            end in
  keeps d d3 /\ checkpoints d3 = checkpoints d /\ known (vre_event ev) d3
  /\ (version = V2 -> vre_signer ev ∈ set -> signed_by set d -> signed_by set d3).
Proof.
  intros He Hsa d2 d3. destruct (ingest_effect_keeps _ _ _ _ _ He) as [Hk Hc].
  assert (Hk2 : keeps d1 d2) by by apply update_revisions_keeps.
  assert (Hkn2 : known (vre_event ev) d2).
  { eapply known_keeps; [exact Hk2|]. by eapply ingest_effect_known. }
  destruct version; subst d3; split_and!.
  - by etrans.
  - exact Hc.
  - done.
  - done.
  - etrans; [exact Hk|]. etrans; [exact Hk2|]. by apply update_revisions_keeps.
  - exact Hc.
  - by apply known_update.
  - intros _ Hin Hd. by eapply signed_by_stamped.
Qed.

Lemma sprog_run {A B} (m : sprog A) (f : A -> sprog B) (s s' : SV) a :
  m s = Ret (Ok a, s') -> (m ≫= f) s = f a s'.
Proof. unfold mbind, sprog_bind. by intros ->. Qed.

Lemma sprog_fail {A B} (m : sprog A) (f : A -> sprog B) (s s' : SV) e :
  m s = Ret (Err e, s') -> (m ≫= f) s = Ret (Err e, s').
Proof. unfold mbind, sprog_bind. by intros ->. Qed.

Lemma on_world_run {A} (m : op W StoreError A) (s : SV) r w :
  m (sv_world s) = (r, w) ->
  on_world m s = Ret (map_err StoreErr r, mkSyncVault w (sv_devices s) (meta_revisionlog_version s)).
Proof. unfold on_world. by intros ->. Qed.

Lemma stamp_recovered_signer_run ev signer sa (w : W) :
  store_anchor (ev_anchor ev) = Ok sa ->
  stamp_recovered_signer ev signer w =
  (Ok tt, map_vault (set_db (update_revisions
     (fun _ r => bool_decide (row_account r = ev_account_id ev) && at_anchor sa r)
     (set_row_signer signer) (db (vault w)))) w).
Proof.
  intros Hsa. unfold stamp_recovered_signer, lift, get_db, put_db, gets, modify.
  by rewrite op_bind_eq, Hsa, op_bind_eq.
Qed.

(** A device row is inserted, or was there. *)
Lemma on_devices_run ev now (s : SV) :
  let reg := on_devices (auto_register_device_from_chain_sync (vre_signer ev)
                           (block_number (ev_anchor (vre_event ev))) now) in
  (exists b devs, reg s = Ret (Ok b, mkSyncVault (sv_world s) devs (meta_revisionlog_version s)))
  \/ (reg s = Ret (Err (StoreErr (Corrupted IntegerOverflow)), s) /\ ~ storable (vre_event ev)).
Proof.
  unfold on_devices, auto_register_device_from_chain_sync, ok_or.
  destruct (i64_try_from (block_number (ev_anchor (vre_event ev)))) as [b|] eqn:Eb.
  - left. simpl. destruct (sv_devices s !! vre_signer ev); by do 2 eexists.
  - right. split; [done|]. unfold storable. rewrite Eb. by intros [[? ?] _].
Qed.

Lemma apply_event_run version ev p (s : SV) :
  exists r s', apply_event version ev p s = Ret (r, s') /\ event_effect version ev p s r s'.
Proof.
  unfold ChainSync.apply_event. 
  set (now := unix_ms_of (wall (ticks (sv_world s)))).
  set (s1 := mkSyncVault (mkWorld (vault (sv_world s)) (presence (sv_world s)) (S (ticks (sv_world s))))
               (sv_devices s) (meta_revisionlog_version s)).
  rewrite (sprog_run (on_world (current_unix_ms wall)) _ s s1 now) by done.
  destruct (on_devices_run ev now s1) as [(b & devs & Hreg)|[Hreg Hns]].
  2: { rewrite (sprog_fail _ _ _ _ _ Hreg). do 2 eexists. split; [reflexivity|]. by apply EventRefused. }
  rewrite (sprog_run _ _ _ _ _ Hreg). set (s2 := mkSyncVault _ devs _). cbv zeta.
  destruct (ingest_pending_run (vre_event ev) (vre_block_hash ev) (sv_world s2)) as (r & w3 & Hi & Hr).
  apply on_world_run in Hi. destruct r as [o'|e]; cbn [map_err] in Hi.
  2: { rewrite (sprog_fail _ _ _ _ _ Hi). do 2 eexists. split; [reflexivity|].
       destruct Hr as (-> & Hd & Hns). by apply EventRefused. }
  destruct Hr as (sa & block & d1 & o & Hsa & He & Hd). change (db (vault (sv_world s2))) with (sdb s) in He.
  rewrite (sprog_run _ _ _ _ _ Hi). set (s3 := mkSyncVault w3 _ _).
  pose proof (fun set => ingest_effect_stamped version ev set sa block (vre_block_hash ev) _ _ _ He Hsa) as Hst.
  assert (Hstamp : exists s4, (match version with V1 => mret tt
      | V2 => on_world (stamp_recovered_signer (vre_event ev) (vre_signer ev)) end : sprog unit) s3 = Ret (Ok tt, s4)
    /\ keeps (sdb s) (sdb s4) /\ checkpoints (sdb s4) = checkpoints (sdb s) /\ known (vre_event ev) (sdb s4)
    /\ forall set, version = V2 -> vre_signer ev ∈ set -> signed_by set (sdb s) -> signed_by set (sdb s4)).
  { destruct version.
    - exists s3. split; [done|]. unfold sdb. cbn [s3 sv_world]. rewrite Hd. destruct (Hst []) as (? & ? & ? & _). done.
    - rewrite (on_world_run _ _ _ _ (stamp_recovered_signer_run _ _ _ _ Hsa)). cbn [map_err].
      eexists. split; [reflexivity|]. unfold sdb. cbn [s3 sv_world]. simpl. rewrite Hd.
      split_and!; [by apply (Hst [])..|]. intros set. apply (Hst set). }
  destruct Hstamp as (s4 & Hrun & Hk & Hc & Hkn & Hs).
  rewrite (sprog_run _ _ _ _ _ Hrun). do 2 eexists. split; [reflexivity|].
  apply EventApplied; try done; [by eapply storable_anchor|by destruct b..].
Qed.

(** ** The detector *)

(** Every observation is at a height of the window and satisfies [R]. *)
Definition detector_ok (R : Z -> Z -> Prop) (d : ReorgDetector) : Prop :=
  forall b h, observed d !! b = Some h -> tip d - 24 <= b <= tip d /\ R b h.

Lemma new_detector_ok R : detector_ok R new_detector.
Proof. intros b h. simpl. by rewrite lookup_empty. Qed.

Lemma record_observed_ok (R : Z -> Z -> Prop) b h d :
  detector_ok R d -> R b h -> detector_ok R (record_observed b h d).
Proof.
  intros Hd HR b' h'. unfold record_observed, maybe_evict. simpl.
  rewrite map_lookup_filter_Some. simpl. intros [Hl Hev].
  assert (Htip : tip d <= (if tip d <? b then b else tip d) /\ b <= (if tip d <? b then b else tip d)).
  { destruct (tip d <? b) eqn:E; zbool; lia. }
  unfold saturating_sub, CONFIRMATION_DEPTH_FOR_FINALIZATION in Hev.
  apply lookup_insert_Some in Hl as [[<- <-]|[_ Hl]]; [split; [lia|done]|].
  destruct (Hd b' h' Hl). split; [lia|done].
Qed.

Lemma forget_window_ok R i d : detector_ok R d -> detector_ok R (forget_window i d).
Proof. intros Hd b h [Hl _]%map_lookup_filter_Some. by apply Hd. Qed.

Lemma observations_spec d b h : (b, h) ∈ observations d <-> observed d !! b = Some h.
Proof. unfold observations. by rewrite elem_of_merge_sort, elem_of_map_to_list. Qed.

(** At most 25 heights are compared. *)
Lemma observations_length R d : detector_ok R d -> (length (observations d) <= 25)%nat.
Proof.
  intros Hd. unfold observations. rewrite merge_sort_Permutation.
  rewrite <- (length_fmap fst (map_to_list (observed d))).
  transitivity (length (seqZ (tip d - 24) 25)); [|by rewrite length_seqZ].
  apply submseteq_length, NoDup_submseteq; [apply NoDup_fst_map_to_list|].
  intros b ([b' h] & -> & Hin%elem_of_map_to_list)%list_elem_of_fmap. simpl.
  destruct (Hd _ _ Hin). apply elem_of_seqZ. lia.
Qed.

(** ** Rules for the parts of a chunk *)

(** The calls of the backfill. *)
Definition backfill_call (q : SyncCall) : Prop :=
  match q with Connect _ | GetChainId | GetLogs _ _ _ _ | GetBlock _ => True | _ => False end.

(** Those of the part after the logs. *)
Definition tail_call (q : SyncCall) : Prop :=
  match q with Connect _ | GetBlock _ => True | _ => False end.

(** An answer on which the backfill gives up. *)
Definition unhealthy (c : call Ans) : Prop :=
  match pd_call (projT1 c) as q return SyncAnswer q -> Prop with
  | Connect _ | GetBlock _ | GetLogs _ _ _ _ | GetDeviceLogs _ _ _ _ | AuthorizedDevice _ _ _
  | GetBlockNumber => fun r => is_ok r = false
  | GetChainId => fun r => is_ok r = false \/ exists expected observed,
      chain_id env = Some expected /\ r = Ok observed /\ observed <> expected
  | _ => fun _ => False
  end (projT2 c).

(** The error an answer of the chain is turned into. *)
Definition answer_failure (c : call Ans) : option ChainError :=
  match pd_call (projT1 c) as q return SyncAnswer q -> option ChainError with
  | Connect _ | GetDeviceLogs _ _ _ _ | AuthorizedDevice _ _ _ | GetBlockNumber => fun r =>
      match r with Err msg => Some (Rpc msg) | Ok _ => None end
  | GetChainId => fun r =>
      match r, chain_id env with
      | Err msg, _ => Some (Rpc msg)
      | Ok observed, Some expected => if bool_decide (observed = expected) then None else Some (ChainIdMismatch expected observed)
      | Ok _, None => None
      end
  | _ => fun _ => None
  end (projT2 c).

Lemma answer_failure_unhealthy c e : answer_failure c = Some e -> unhealthy c.
Proof.
  destruct c as [[q s] r]. unfold answer_failure, unhealthy. simpl. destruct q; try done; destruct r as [o|msg]; try done; [|by left].
  destruct (chain_id env) as [x|]; [|done]. case_bool_decide; [done|]. intros _. right. by exists x, o.
Qed.

Section parts.
Context {T : Type} (rely : call Ans -> Prop) (pre : Pend -> T -> Prop) (upd : call Ans -> T -> T).
Context (Inv : SV -> T -> Prop) (reads : SyncCall -> Prop).
Hypothesis reads_tail : forall q, tail_call q -> reads q.
Hypothesis inv_pre : forall q s t, reads q -> Inv s t -> pre (mkPending q s) t.
Hypothesis upd_same : forall q s r t, reads q -> upd (existT (mkPending q s) r) t = t.
Notation sp := (sp rely pre upd).

(** What may make the network fail. *)
Definition may_fail : Prop := exists c : call Ans, rely c /\ unhealthy c.

Lemma sp_read q (Q : result SyncError (SyncAnswer q) -> SV -> T -> Prop) (s : SV) t :
  reads q -> Inv s t ->
  (forall r, rely (existT (mkPending q s) r) -> Q (Ok r) s t) -> sp (call_out q) Q s t.
Proof.
  intros Hq Hi HQ. apply sp_call; [by apply inv_pre|]. intros r Hr. rewrite upd_same by done. by apply HQ.
Qed.

Lemma sp_connect Q (s : SV) t :
  Inv s t -> (forall e, may_fail -> Q (Err (ChainErr e)) s t) -> Q (Ok tt) s t ->
  sp (build_read_provider rpc_url) Q s t.
Proof.
  intros Hi He Hok. apply sp_rpc, sp_read; [by apply reads_tail|done|]. intros [[]|msg] Hr; [done|].
  apply He. eexists. split; [exact Hr|]. done.
Qed.

Lemma sp_fetch version from to Q (s : SV) t :
  (forall q, backfill_call q -> reads q) -> Inv s t ->
  (forall e, is_ok (resolve_contract load_deployed_address env version) = false \/ may_fail -> Q (Err (ChainErr e)) s t) ->
  (forall contract logs, resolve_contract load_deployed_address env version = Ok contract ->
     rely (existT (mkPending (GetLogs contract vault_id from to) s) (Ok logs)) ->
     Q (Ok (verify_logs vault_id contract logs)) s t) ->
  sp (fetch_and_verify_chunk load_deployed_address rpc_url env vault_id version from to) Q s t.
Proof.
  intros Hreads Hi He Hok. apply sp_bind, sp_chain.
  destruct (resolve_contract _ _ _) as [contract|e]; simpl; [|by apply He; left].
  apply sp_bind, sp_connect; [done|by intros e Hf; apply He; right|].
  apply sp_bind. unfold check_chain_id_matches.
  assert (Hlogs : sp (fetch_chunk vault_id contract from to) Q s t).
  { apply sp_bind, sp_rpc, sp_read; [by apply Hreads|done|]. intros [logs|msg] Hr.
    - by apply sp_ret, Hok.
    - apply He. right. eexists. split; [exact Hr|]. done. }
  destruct (chain_id env) as [expected|] eqn:Ech; [|by apply sp_ret].
  apply sp_bind, sp_rpc, sp_read; [by apply Hreads|done|]. intros [o|msg] Hr.
  - case_bool_decide as Hb; [by apply sp_ret|]. apply sp_chain. apply He. right.
    eexists. split; [exact Hr|]. right. by exists expected, o.
  - apply He. right. eexists. split; [exact Hr|]. by left.
Qed.

Lemma sp_event version ev p Q (s : SV) t :
  (forall r s', event_effect version ev p s r s' -> Q r s' t) -> sp (apply_event version ev p) Q s t.
Proof.
  intros HQ. change (rwp rely pre upd (apply_event version ev p s) (fun x t => Q x.1 x.2 t) t).
  destruct (apply_event_run version ev p s) as (r & s' & -> & He). by apply HQ.
Qed.

(** The window spans observed heights; there is none when every answer
    confirms its observation. *)
Lemma sp_compare (R : Z -> Prop) obs w Q (s : SV) t :
  Inv s t -> (forall b h, (b, h) ∈ obs -> R b) ->
  (forall lo hi, w = Some (lo, hi) -> R lo /\ R hi) ->
  (forall e, may_fail -> Q (Err (ChainErr e)) s t) ->
  (forall w', (forall lo hi, w' = Some (lo, hi) -> R lo /\ R hi) ->
     (w' = w \/ exists b h c, (b, h) ∈ obs /\ rely (existT (mkPending (GetBlock b) s) (Ok c)) /\ c <> Some h) ->
     Q (Ok w') s t) ->
  sp (compare_blocks obs w) Q s t.
Proof.
  intros Hi HR Hw He. revert w Hw. induction obs as [|[b h] obs IH]; intros w Hw HQ; simpl.
  { apply sp_ret, HQ; [done|]. by left. }
  apply sp_bind, sp_rpc, sp_read; [by apply reads_tail|done|]. intros [c|msg] Hr.
  2: { apply He. eexists. split; [exact Hr|]. done. }
  apply IH; [set_solver| |].
  - case_bool_decide; [done|]. intros lo hi. assert (Rb : R b) by (apply (HR b h); left).
    destruct w as [[l0 h0]|]; simpl; [|by intros [= <- <-]].
    destruct (Hw l0 h0 eq_refl). intros [= <- <-]. split; [by destruct (b <? l0)|by destruct (h0 <? b)].
  - intros w' Hw' Hsame. apply HQ; [done|]. destruct Hsame as [->|(b' & h' & c' & Hin & Hr' & Hne)].
    + case_bool_decide as Hb; [by left|]. right. exists b, h, c. split_and!; [by left|exact Hr|done].
    + right. exists b', h', c'. split_and!; [by right|done|done].
Qed.

Lemma sp_detect (R : Z -> Z -> Prop) d Q (s : SV) t :
  Inv s t -> detector_ok R d -> (forall e, may_fail -> Q (Err (ChainErr e)) s t) ->
  (forall info,
     (forall i, info = Some i -> (exists h, R (affected_block_low i) h) /\ (exists h, R (affected_block_high i) h)) ->
     (info = None \/ exists b h c, R b h /\ rely (existT (mkPending (GetBlock b) s) (Ok c)) /\ c <> Some h) ->
     Q (Ok info) s t) ->
  sp (detect_reorg_via_rpc rpc_url d) Q s t.
Proof.
  intros Hi Hd He HQ. apply sp_bind, sp_connect; [done|done|].
  apply sp_bind. apply (sp_compare (fun b => exists h, R b h)); [done| |done|done|].
  - intros b h Hin%observations_spec. exists h. by apply (Hd b h).
  - intros w Hw Hsame. apply sp_ret, HQ.
    + intros i. destruct w as [[lo hi]|]; simpl; [|done]. intros [= <-]. by apply Hw.
    + destruct Hsame as [->|(b & h & c & Hin%observations_spec & Hr & Hne)]; [by left|right].
      exists b, h, c. split_and!; [by apply (Hd b h)|done|done].
Qed.
End parts.

(** ** The tables under the vault's own methods *)

Definition stored (version : RevisionLogVersion) (d : Database) : option Z :=
  match version with V1 => chain_sync_v1_state d | V2 => chain_sync_v2_state d end.

Lemma stored_checkpoints version d d' : checkpoints d' = checkpoints d -> stored version d' = stored version d.
Proof. unfold checkpoints. intros H. injection H as _ H1 H2. by destruct version. Qed.

Lemma sp_last_synced {T} (rely : call Ans -> Prop) pre upd version Q (s : SV) (t : T) :
  (forall e, is_ok (read_checkpoint (stored version (sdb s))) = false -> Q (Err (StoreErr e)) s t) ->
  ((forall b, stored version (sdb s) = Some b -> 0 <= b) -> Q (Ok (stored version (sdb s))) s t) ->
  sp rely pre upd (last_synced_block version) Q s t.
Proof.
  intros He HQ. apply sp_database.
  assert (Hread : (o ← (match version with V1 => last_synced_block_v1 (sdb s) | V2 => last_synced_block_v2 (sdb s) end);
                   Ok (sdb s, o)) = (o ← read_checkpoint (stored version (sdb s)); Ok (sdb s, o)))
    by (by destruct version).
  rewrite Hread. unfold mbind, result_bind.
  destruct (read_checkpoint (stored version (sdb s))) as [o|e] eqn:Er; [|by apply He].
  apply read_checkpoint_inv in Er as [Ho Hpos]. rewrite with_sdb_same, <- Ho. apply HQ. by rewrite Ho.
Qed.

Lemma sdb_with (d : Database) (s : SV) : sdb (with_sdb d s) = d.
Proof. done. Qed.

Lemma promote_inv h d d' n :
  promote_finalized_revisions h d = Ok (d', n) -> keeps d d' /\ checkpoints d' = checkpoints d.
Proof.
  unfold promote_finalized_revisions, mbind, result_bind, ok_or.
  destruct (i64_try_from _); [|done]. intros [= <- _]. split; [by apply update_revisions_keeps|done].
Qed.

Lemma update_checkpoint_inv version b d d' :
  (d'' ← match version with
        | V1 => update_last_synced_block_v1 b d
        | V2 => update_last_synced_block_v2 b d
        end; Ok (d'', tt)) = (Ok (d', tt) : store_result _) -> 0 <= b ->
  t_revisions d' = t_revisions d /\ stored version d' = Some b
  /\ (forall c, stored version d = Some c -> 0 <= c <= b).
Proof.
  intros Hu Hb.
  assert (H : exists o next, read_checkpoint (stored version d) = Ok o /\ next_checkpoint o b = Ok next
    /\ t_revisions d' = t_revisions d
    /\ stored version d' = match next with Some i => Some i | None => stored version d end).
  { revert Hu. unfold update_last_synced_block_v1, update_last_synced_block_v2, last_synced_block_v1, last_synced_block_v2.
    unfold mbind, result_bind. destruct version; simpl;
      (destruct (read_checkpoint _) as [o|]; [|done]); (destruct (next_checkpoint o b) as [next|] eqn:En; [|done]);
      intros [= <-]; exists o, next; by destruct next. }
  destruct H as (o & next & Hr & Hn & Ht & Hs). apply read_checkpoint_inv in Hr as [Ho Hpos].
  pose proof (next_checkpoint_spec o b Hb) as Hspec. rewrite Hn in Hspec. destruct Hspec as [Hle Hspec].
  split_and!; [done| |].
  - rewrite Hs. destruct Hspec as [[-> _]|[-> Hx]]; [done|]. by rewrite Ho, Hx.
  - intros c Hc. rewrite Hc in Ho. subst o. simpl in Hle. split; [by apply Hpos|done].
Qed.

(** ** Logs and events *)

Definition ev_block (ev : VerifiedRevisionEvent) : Z := block_number (ev_anchor (vre_event ev)).

Lemma verify_alloy_log_inv l v k ev :
  verify_alloy_log l v k = Some ev ->
  rpc_address l = k /\ rpc_block_number l = Some (ev_block ev) /\ rpc_block_hash l = Some (vre_block_hash ev).
Proof.
  unfold verify_alloy_log, ev_block. case_bool_decide as Ha; simpl; [|done].
  destruct (decode_revision l) as [dc|]; simpl; [|done].
  destruct (negb _); [done|]. destruct (_ <? _); [done|].
  destruct (rpc_block_number l), (rpc_log_index l), (rpc_tx_hash l), (rpc_block_hash l); simpl; try done.
  destruct (u64_try_from _); simpl; [|done]. by intros [= <-].
Qed.

Lemma verify_logs_fold logs acc n v k :
  (foldl (verify_step v k) (acc, n) logs).1 = acc ++ omap (fun l => verify_alloy_log l v k) logs.
Proof.
  revert acc n. induction logs as [|l logs IH]; intros acc n; simpl; [by rewrite app_nil_r|].
  unfold verify_step at 2. simpl. destruct (verify_alloy_log l v k); rewrite IH; [|done].
  by rewrite <- app_assoc.
Qed.

Lemma verify_logs_events logs v k : (verify_logs v k logs).1 = omap (fun l => verify_alloy_log l v k) logs.
Proof. apply (verify_logs_fold logs [] 0). Qed.

(** A batch of events makes no calls: what it does to the tables. *)
Lemma apply_events_run version set evs p (s : SV) :
  exists r s', ChainSync.apply_events wall clock self_vault_id canonical_hash open_payload version set evs p s = Ret (r, s')
  /\ keeps (sdb s) (sdb s') /\ checkpoints (sdb s') = checkpoints (sdb s)
  /\ match r with
     | Ok p' => cursor p' = cursor p
         /\ (forall ev, ev ∈ evs -> gated version set ev = false -> known (vre_event ev) (sdb s'))
         /\ (forall R, detector_ok R (detector p) ->
               (forall ev, ev ∈ evs -> storable (vre_event ev) -> R (ev_block ev) (vre_block_hash ev)) ->
               detector_ok R (detector p'))
     | Err e => (exists k, e = StoreErr k) /\ exists ev, ev ∈ evs /\ ~ storable (vre_event ev)
     end.
Proof.
  revert p s. induction evs as [|ev evs IH]; intros p s; simpl.
  { do 2 eexists. split; [reflexivity|]. split_and!; [reflexivity|done|done|set_solver|done]. }
  destruct (gated version set ev) eqn:Eg.
  - rewrite (sprog_run _ _ s s (count RevokedRows 1 p)) by done.
    destruct (IH (count RevokedRows 1 p) s) as (r & s' & -> & Hk & Hc & Hr).
    do 2 eexists. split; [reflexivity|]. split_and!; [done|done|]. destruct r as [p'|e].
    + destruct Hr as (H1 & H2 & H3). split_and!; [done| |].
      * intros ev' [->|Hin]%elem_of_cons; [congruence|by apply H2].
      * intros R Hd Hall. apply H3; [done|]. intros ev' Hin. apply Hall. by right.
    + destruct Hr as (H1 & ev' & Hin & H2). split; [done|]. exists ev'. split; [by right|done].
  - destruct (apply_event_run version ev p s) as (r1 & s1 & E1 & He). destruct He as [p1 s1 Hst Hk Hc Hkn _ Hd Hcu|s1 Hst Heq].
    2: { rewrite (sprog_fail _ _ _ _ _ E1). do 2 eexists. split; [reflexivity|]. rewrite Heq.
         split_and!; [reflexivity|done|by eexists|]. exists ev. split; [by left|done]. }
    rewrite (sprog_run _ _ _ _ _ E1). destruct (IH p1 s1) as (r & s' & -> & Hk2 & Hc2 & Hr).
    do 2 eexists. split; [reflexivity|]. split_and!; [by etrans|congruence|]. destruct r as [p'|e].
    + destruct Hr as (H1 & H2 & H3). split_and!; [congruence| |].
      * intros ev' [->|Hin]%elem_of_cons Hg; [by eapply known_keeps|by apply H2].
      * intros R Hdet Hall. apply H3.
        { rewrite Hd. apply record_observed_ok; [done|]. apply Hall; [by left|done]. }
        intros ev' Hin. apply Hall. by right.
    + destruct Hr as (H1 & ev' & Hin & H2). split; [done|]. exists ev'. split; [by right|done].
Qed.

(** ** One chunk *)

Section chunk.
Context {T : Type} (rely : call Ans -> Prop) (pre : Pend -> T -> Prop) (upd : call Ans -> T -> T).
Context (Inv : SV -> T -> Prop) (reads : SyncCall -> Prop).
Context (R : Z -> Z -> Prop) (version : RevisionLogVersion) (set : list Z) (head : Z).
Hypothesis reads_tail : forall q, tail_call q -> reads q.
Hypothesis inv_pre : forall q s t, reads q -> Inv s t -> pre (mkPending q s) t.
Hypothesis upd_same : forall q s r t, reads q -> upd (existT (mkPending q s) r) t = t.

(** The node denied an observation. *)
Definition denied : Prop := exists b h (s : SV) (c : option Z),
  R b h /\ rely (existT (mkPending (GetBlock b) s) (Ok c)) /\ c <> Some h.

(** The tables may have grown, and shrink only after a denial. *)
Definition tables_move (s s' : SV) : Prop :=
  checkpoints (sdb s') = checkpoints (sdb s) /\ (keeps (sdb s) (sdb s') \/ denied).

Lemma tables_move_trans s1 s2 s3 : tables_move s1 s2 -> tables_move s2 s3 -> tables_move s1 s3.
Proof.
  intros [H1 H2] [H3 H4]. split; [congruence|].
  destruct H2, H4; [left; by etrans|by right..].
Qed.

Hypothesis inv_move : forall s s' t, Inv s t -> tables_move s s' -> Inv s' t.

(** Why a chunk fails. *)
Inductive chunk_failure (ce : Z) (s : SV) : SyncError -> Prop :=
| FailNetwork e :
    is_ok (resolve_contract load_deployed_address env version) = false \/ may_fail rely ->
    chunk_failure ce s (ChainErr e)
| FailEvent k contract from to (s0 : SV) logs ev :
    rely (existT (mkPending (GetLogs contract vault_id from to) s0) (Ok logs)) ->
    ev ∈ (verify_logs vault_id contract logs).1 -> ~ storable (vre_event ev) ->
    chunk_failure ce s (StoreErr k)
| FailWindow k b h : R b h -> i64_try_from b = None -> chunk_failure ce s (StoreErr k)
| FailHead k : i64_try_from (saturating_sub head CONFIRMATION_DEPTH_FOR_FINALIZATION) = None -> chunk_failure ce s (StoreErr k)
| FailCheckpoint k :
    (d'' ← match version with
          | V1 => update_last_synced_block_v1 ce (sdb s)
          | V2 => update_last_synced_block_v2 ce (sdb s)
          end; Ok (d'', tt)) = (Err k : store_result (Database * unit)) ->
    chunk_failure ce s (StoreErr k).

Lemma sp_roll_back info p Q (s : SV) t :
  detector_ok R (detector p) ->
  (info <> None -> denied) ->
  (forall i, info = Some i -> (exists h, R (affected_block_low i) h) /\ (exists h, R (affected_block_high i) h)) ->
  (forall k b h, R b h -> i64_try_from b = None -> Q (Err (StoreErr k)) s t) ->
  (forall p' s', tables_move s s' -> detector_ok R (detector p') -> cursor p' = cursor p -> Q (Ok p') s' t) ->
  sp rely pre upd (roll_back info p) Q s t.
Proof.
  intros Hd Hden Hi He HQ. destruct info as [i|]; simpl.
  2: { apply sp_ret, HQ; [|done|done]. split; [done|left; reflexivity]. }
  apply sp_bind, sp_database. unfold rollback_pending_revisions_in_range, mbind, result_bind, ok_or.
  destruct (Hi i eq_refl) as [[hl Hl] [hh Hh]].
  destruct (i64_try_from (affected_block_low i)) eqn:El; [|exact (He _ _ _ Hl El)].
  destruct (i64_try_from (affected_block_high i)) eqn:Eh; [|exact (He _ _ _ Hh Eh)].
  apply sp_ret, HQ; [|by apply forget_window_ok|done]. split; [done|right; by apply Hden].
Qed.

Lemma sp_promote h p Q (s : SV) t :
  (forall k, i64_try_from (saturating_sub h CONFIRMATION_DEPTH_FOR_FINALIZATION) = None -> Q (Err (StoreErr k)) s t) ->
  (forall p' s', tables_move s s' -> detector p' = detector p -> cursor p' = cursor p -> Q (Ok p') s' t) ->
  sp rely pre upd (promote h p) Q s t.
Proof.
  intros He HQ. apply sp_bind, sp_database.
  destruct (promote_finalized_revisions h (sdb s)) as [[d' n]|k] eqn:Ep.
  - apply promote_inv in Ep as [Hk Hc]. apply sp_ret, HQ; [|done|done]. split; [done|by left].
  - apply He. revert Ep. unfold promote_finalized_revisions, mbind, result_bind, ok_or.
    by destruct (i64_try_from _).
Qed.
(** What a node may say about a range must fit the detector's relation. *)
Hypothesis events_fit : forall contract from to (s : SV) logs ev,
  rely (existT (mkPending (GetLogs contract vault_id from to) s) (Ok logs)) ->
  ev ∈ (verify_logs vault_id contract logs).1 -> storable (vre_event ev) ->
  R (ev_block ev) (vre_block_hash ev).

Definition chunk_start (p : Progress) : Z := saturating_add U64_MAX (cursor p) 1.
Definition chunk_end (p : Progress) : Z :=
  Z.min (saturating_add U64_MAX (chunk_start p) (saturating_sub LOG_BLOCK_CHUNK 1)) head.

(** A completed chunk. *)
Definition chunk_done (p : Progress) (s : SV) (p' : Progress) (s' : SV) : Prop :=
  exists contract logs s1 (s0 : SV),
    resolve_contract load_deployed_address env version = Ok contract
    /\ rely (existT (mkPending (GetLogs contract vault_id (chunk_start p) (chunk_end p)) s0) (Ok logs))
    /\ tables_move s s1
    /\ (d'' ← match version with
             | V1 => update_last_synced_block_v1 (chunk_end p) (sdb s1)
             | V2 => update_last_synced_block_v2 (chunk_end p) (sdb s1)
             end; Ok (d'', tt)) = (Ok (sdb s', tt) : store_result (Database * unit))
    /\ detector_ok R (detector p') /\ cursor p' = chunk_end p
    /\ (forall ev, ev ∈ (verify_logs vault_id contract logs).1 -> gated version set ev = false ->
          known (vre_event ev) (sdb s1) \/ denied).

(** What follows the events: the detector, promotion, the checkpoint. *)
Lemma sp_chunk_tail ce p Q (s : SV) t :
  Inv s t -> detector_ok R (detector p) ->
  (forall e s', tables_move s s' -> chunk_failure ce s' e -> Q (Err e) s' t) ->
  (forall p' s1 s', tables_move s s1 -> detector_ok R (detector p') -> cursor p' = ce ->
     (d'' ← match version with
           | V1 => update_last_synced_block_v1 ce (sdb s1)
           | V2 => update_last_synced_block_v2 ce (sdb s1)
           end; Ok (d'', tt)) = (Ok (sdb s', tt) : store_result (Database * unit)) -> Q (Ok p') s' t) ->
  sp rely pre upd (info ← detect_reorg_via_rpc rpc_url (detector p);
     p ← roll_back info p; p ← promote head p;
     update_last_synced_block version ce ≫= fun _ => mret (set_cursor ce p)) Q s t.
Proof.
  intros Hi Hd He HQ. assert (Hrefl : tables_move s s) by (split; [done|left; by apply keeps_eq]).
  apply sp_bind. apply (sp_detect _ _ _ Inv reads reads_tail inv_pre upd_same R); [done|done| |].
  { intros e Hf. apply He; [done|]. apply FailNetwork. by right. }
  intros info Hwin Hnone. apply sp_bind, sp_roll_back; [done| |done| |].
  - intros Hinfo. destruct Hnone as [|(b & h & c & ? & ? & ?)]; [done|]. by exists b, h, s, c.
  - intros k b h HR Hb. apply He; [done|]. by eapply FailWindow.
  - intros p1 s1 Hm1 Hd1 _. apply sp_bind, sp_promote.
    + intros k Hk. apply He; [done|]. by apply FailHead.
    + intros p2 s2 Hm2 Hd2 _. assert (Hm : tables_move s s2) by by eapply tables_move_trans.
      apply sp_bind, sp_database.
      destruct (_ ≫= _) as [[d'' []]|k] eqn:Eu; [|apply He; [done|by apply FailCheckpoint]].
      apply sp_ret, (HQ _ s2); [done|by rewrite <- Hd2 in Hd1|done|exact Eu].
Qed.

Lemma sp_chunk p Q (s : SV) t :
  (forall q, backfill_call q -> reads q) -> Inv s t -> detector_ok R (detector p) ->
  (forall e s', tables_move s s' -> chunk_failure (chunk_end p) s' e -> Q (Err e) s' t) ->
  (forall p' s', chunk_done p s p' s' -> Q (Ok p') s' t) ->
  sp rely pre upd (backfill_chunk wall clock self_vault_id canonical_hash open_payload load_deployed_address
     rpc_url env vault_id version set head p) Q s t.
Proof.
  intros Hreads Hi Hd He HQ. assert (Hrefl : tables_move s s) by (split; [done|left; by apply keeps_eq]).
  unfold backfill_chunk. apply sp_bind. apply (sp_fetch _ _ _ Inv reads reads_tail inv_pre upd_same); [done|done| |].
  { intros e Hf. apply He; [done|]. by apply FailNetwork. }
  intros contract logs Hc Hl. fold (chunk_start p) (chunk_end p).
  destruct (verify_logs vault_id contract logs) as [events rejected] eqn:Ev.
  apply sp_bind. set (p0 := count Rejected _ _).
  destruct (apply_events_run version set events p0 s) as (r & s1 & Hrun & Hk & Hck & Hr).
  unfold sp. rewrite Hrun. cbn [rwp fst snd].
  assert (Hm1 : tables_move s s1) by (split; [done|by left]).
  destruct r as [p1|e].
  2: { destruct Hr as ([k ->] & ev & Hin & Hns). apply He; [done|].
       eapply FailEvent; [exact Hl|by rewrite Ev|done]. }
  destruct Hr as (_ & Hkn & Hdet).
  apply sp_chunk_tail.
  - by eapply inv_move.
  - apply Hdet; [done|]. intros ev Hin. by eapply events_fit; [exact Hl|rewrite Ev].
  - intros e s' Hm. apply He. by eapply tables_move_trans.
  - intros p' s2 s' Hm Hd' Hcur Hu. apply HQ. exists contract, logs, s2, s.
    split_and!; [done|exact Hl|by eapply tables_move_trans|exact Hu|done|done|].
    intros ev Hin Hg. rewrite Ev in Hin. destruct Hm as [_ [Hm|Hden]]; [left|by right].
    eapply known_keeps; [exact Hm|]. by apply Hkn.
Qed.
End chunk.

(** ** Reading the authorized set *)

(** The signers a run was told are authorized. *)
Definition told_live (c : call Ans) (live : list Z) : list Z :=
  match pd_call (projT1 c) as q return SyncAnswer q -> list Z with
  | AuthorizedDevice _ _ signer => fun r => match r with Ok true => signer :: live | _ => live end
  | _ => fun _ => live
  end (projT2 c).


Definition set_call (q : SyncCall) : Prop :=
  match q with
  | Connect _ | GetChainId | GetBlockNumber | GetDeviceLogs _ _ _ _ | AuthorizedDevice _ _ _ => True
  | _ => False
  end.

(** A set call that was answered, a membership question apart. *)
Definition plain_answer (c : call Ans) : Prop :=
  match pd_call (projT1 c) as q return SyncAnswer q -> Prop with
  | Connect _ | GetChainId | GetBlockNumber | GetDeviceLogs _ _ _ _ => fun _ => answer_failure c = None
  | _ => fun _ => False
  end (projT2 c).

(** What is tracked right after an answer that fails the read. *)
Definition failed_read {T} (rely : call Ans -> Prop) (upd : call Ans -> T -> T) (Good : list Z -> T -> Prop) (s : SV)
    (e : ChainError) (t : T) : Prop :=
  exists q (r : SyncAnswer q) set t0, let c := existT (mkPending q s) r in
    rely c /\ answer_failure c = Some e /\ Good set t0 /\ t = upd c t0.

Lemma failed_read_may_fail {T} rely upd Good s e (t : T) : failed_read rely upd Good s e t -> may_fail rely.
Proof. intros (q & r & set & t0 & Hr & He & _). eexists. split; [exact Hr|]. by eapply answer_failure_unhealthy. Qed.

(** [Good set t]: what is tracked agrees with the set so far. *)
Section read_set.
Context {T : Type} (rely : call Ans -> Prop) (pre : Pend -> T -> Prop) (upd : call Ans -> T -> T).
Context (s : SV) (Q : result SyncError (list Z) -> SV -> T -> Prop) (Good : list Z -> T -> Prop).
Hypothesis all_calls : forall q set t, set_call q -> Good set t -> pre (mkPending q s) t.
Hypothesis on_error : forall e t,
  failed_read rely upd Good s e t
  \/ is_ok (resolve_contract load_deployed_address env V2) = false /\ (exists set, Good set t) -> Q (Err (ChainErr e)) s t.
Hypothesis good_plain : forall q r set t,
  plain_answer (existT (mkPending q s) r) -> Good set t -> Good set (upd (existT (mkPending q s) r) t).
Hypothesis good_live : forall k v x (b : bool) set t, Good set t ->
  Good (if b then push_new x set else set) (upd (existT (mkPending (AuthorizedDevice k v x) s) (Ok b)) t).
Notation sp := (sp rely pre upd).

Lemma read_error q (r : SyncAnswer q) e set t :
  Good set t -> rely (existT (mkPending q s) r) -> answer_failure (existT (mkPending q s) r) = Some e ->
  Q (Err (ChainErr e)) s (upd (existT (mkPending q s) r) t).
Proof using on_error. intros Hg Hr He. apply on_error. left. by exists q, r, set, t. Qed.

Lemma sp_fold_events fuel contract from head cands set t (K : result SyncError (list Z) -> SV -> T -> Prop) :
  Good set t -> (forall cands t, Good set t -> K (Ok cands) s t) -> (forall e t, failed_read rely upd Good s e t -> K (Err (ChainErr e)) s t) ->
  sp (fold_events vault_id fuel contract from head cands) K s t.
Proof.
  intros Hg Hok He. revert from cands t Hg. induction fuel as [|fuel IH]; intros from cands t Hg; simpl.
  { by apply sp_ret, Hok. }
  destruct (from <=? head); [|by apply sp_ret, Hok].
  set (to := Z.min (saturating_add U64_MAX from (LOG_BLOCK_CHUNK - 1)) head). set (q := GetDeviceLogs contract vault_id from to).
  apply sp_bind, sp_rpc, sp_call; [by eapply all_calls|]. intros [logs|msg] Hr; simpl.
  2: { apply He. by exists q, (Err msg), set, t. }
  assert (Hg' := good_plain q (Ok logs) _ _ eq_refl Hg).
  destruct (_ =? head); [by apply sp_ret, Hok|by apply IH].
Qed.

Lemma sp_cross_check contract cands set t :
  Good set t -> (forall set t, Good set t -> Q (Ok set) s t) ->
  sp (cross_check vault_id contract cands set) Q s t.
Proof.
  intros Hg Hok. revert set t Hg. induction cands as [|c cands IH]; intros set t Hg; simpl.
  { by apply sp_ret, Hok. }
  apply sp_bind, sp_rpc, sp_call; [by eapply all_calls|]. intros [b|msg] Hr; simpl.
  - by apply IH, good_live.
  - by apply (read_error (AuthorizedDevice contract vault_id c) (Err msg) (Rpc msg) set).
Qed.

(** The vault does not change, and the set agrees with what is tracked. *)
Lemma sp_read_set from t :
  Good [] t -> (forall set t, Good set t -> Q (Ok set) s t) ->
  sp (read_authorized_set_v2 load_deployed_address rpc_url env vault_id from) Q s t.
Proof.
  intros Hg Hok. apply sp_bind, sp_chain. case_eq (resolve_contract load_deployed_address env V2);
    [intros k Ek|intros e Ek]; simpl; [|by apply on_error; right; rewrite Ek; split; [done|exists []]].
  apply sp_bind, sp_rpc, sp_call; [by eapply all_calls|]. intros [[]|msg] Hr; simpl; [|by apply (read_error (Connect rpc_url) (Err msg) (Rpc msg) [])].
  apply (good_plain (Connect rpc_url) (Ok tt)) in Hg; [|done]. revert Hg. generalize (upd (existT (mkPending (Connect rpc_url) s) (Ok tt)) t) as t1. clear t Hr. intros t Hg.
  apply sp_bind. apply sp_bind, sp_rpc, sp_call; [by eapply all_calls|]. intros [o|msg] Ho; simpl; [|by apply (read_error GetChainId (Err msg) (Rpc msg) [])].
  set (K := fun (r : result SyncError Z) (s' : SV) t => _).
  assert (Hrest : answer_failure (existT (mkPending GetChainId s) (Ok o)) = None -> K (Ok o) s (upd (existT (mkPending GetChainId s) (Ok o)) t)).
  { intros Hf. apply (good_plain GetChainId (Ok o)) in Hg; [|done]. revert Hg. generalize (upd (existT (mkPending GetChainId s) (Ok o)) t) as t1. clear t Ho. intros t Hg.
    unfold K. apply sp_bind, sp_rpc, sp_call; [by eapply all_calls|]. intros [h|msg] Hr; simpl; [|by apply (read_error GetBlockNumber (Err msg) (Rpc msg) [])].
    apply (good_plain GetBlockNumber (Ok h)) in Hg; [|done].
    apply sp_bind. eapply sp_fold_events; [exact Hg| |intros e t0 Hf0; by apply on_error; left]. clear Hg Hr. intros cands t0 Hg.
    apply sp_bind. apply sp_bind, sp_chain. rewrite Ek. simpl.
    apply sp_bind, sp_rpc, sp_call; [by eapply all_calls|]. intros [[]|msg] Hr; simpl; [|by apply (read_error (Connect rpc_url) (Err msg) (Rpc msg) [])].
    apply sp_ret, sp_cross_check; [|done]. by apply (good_plain (Connect rpc_url) (Ok tt)). }
  unfold answer_failure in Hrest. simpl in Hrest. destruct (chain_id env) as [expected|] eqn:Ech; [|by apply Hrest].
  case_bool_decide as Hb; [subst; by apply Hrest|]. apply (read_error GetChainId (Ok o) _ []); [done|done|].
  unfold answer_failure. simpl. rewrite Ech. by rewrite bool_decide_eq_false_2.
Qed.
End read_set.

(** What was tracked with [told_live] is the set. *)
Definition same_elements (set live : list Z) : Prop := forall x, x ∈ set <-> x ∈ live.

Lemma told_plain q (s : SV) r set live :
  plain_answer (existT (mkPending q s) r) -> same_elements set live ->
  same_elements set (told_live (existT (mkPending q s) r) live).
Proof. by destruct q. Qed.

Lemma told_push k v x (s : SV) (b : bool) set live :
  same_elements set live ->
  same_elements (if b then push_new x set else set) (told_live (existT (mkPending (AuthorizedDevice k v x) s) (Ok b)) live).
Proof. intros Hs. destruct b; [|exact Hs]. intros y. cbn. rewrite elem_of_push_new, elem_of_cons, (Hs y). tauto. Qed.

Lemma first_cursor_nonneg e v : 0 <= first_cursor e v.
Proof. by destruct v, e. Qed.

(** Why a sync stops before its stages. *)
Definition entry_failure (rely : call Ans -> Prop) (version : RevisionLogVersion) (options : SyncOptions) (s : SV) : Prop :=
  may_fail rely \/ is_ok (resolve_contract load_deployed_address env V2) = false /\ version = V2
  \/ is_ok (read_checkpoint (stored version (sdb s))) = false
  \/ exists head, head < start_cursor env version options (stored version (sdb s))
       /\ (until_block options = Some head \/ rely (existT (mkPending GetBlockNumber s) (Ok head))).

(** An error up to the set read, with what is tracked then: that of an answer, or one of
    the sync's own. *)
Definition entry_error {T} (rely : call Ans -> Prop) (upd : call Ans -> T -> T) (Good : list Z -> T -> Prop) (s : SV)
    (e : SyncError) (t : T) : Prop :=
  (exists k, e = ChainErr k /\ failed_read rely upd Good s k t) \/ exists set, Good set t.

(** A sync up to its set read, for any tracking. *)
Lemma sync_path_entry {T} (rely : call Ans -> Prop) (pre : Pend -> T -> Prop) upd (Good : list Z -> T -> Prop) version
    rounds ov options (s : SV) t (Q : result SyncError SyncReport -> SV -> T -> Prop) :
  (forall q set t, set_call q -> Good set t -> pre (mkPending q s) t) ->
  (forall e t, entry_failure rely version options s -> entry_error rely upd Good s e t -> Q (Err e) s t) ->
  (forall q r set t, plain_answer (existT (mkPending q s) r) -> Good set t -> Good set (upd (existT (mkPending q s) r) t)) ->
  (forall k v x (b : bool) set t, Good set t ->
    Good (if b then push_new x set else set) (upd (existT (mkPending (AuthorizedDevice k v x) s) (Ok b)) t)) ->
  Good [] t ->
  (forall head set t, let start := start_cursor env version options (stored version (sdb s)) in
     (forall b, stored version (sdb s) = Some b -> 0 <= b) ->
     until_block options = Some head \/ rely (existT (mkPending GetBlockNumber s) (Ok head)) ->
     0 <= start <= head -> Good set t ->
     sp rely pre upd (run_stages rounds version ov options start head set) Q s t) ->
  sp rely pre upd (sync_path rounds version ov options) Q s t.
Proof.
  intros Hpre He Hplain Hlive Hg Hok. apply sp_bind, sp_last_synced.
  { intros e Hf. apply He; [by right; right; left|right; by exists []]. }
  intros Hpos. set (start := start_cursor _ _ _ _).
  assert (Hstart : 0 <= start).
  { unfold start, start_cursor. pose proof (first_cursor_nonneg env version).
    destruct (from_genesis options); [done|]. destruct (stored version (sdb s)) as [c|]; [by apply Hpos|done]. }
  assert (Hread : forall e t, failed_read rely upd Good s e t -> Q (Err (ChainErr e)) s t).
  { intros e t0 Hf. apply He; [left; by eapply failed_read_may_fail|left; by exists e]. }
  assert (Hfrom : forall head t, until_block options = Some head \/ rely (existT (mkPending GetBlockNumber s) (Ok head)) ->
    Good [] t -> sp rely pre upd (sync_from rounds version ov options start head) Q s t).
  { clear t Hg. intros head t Hh Hg. unfold ChainSync.sync_from. destruct (head <? start) eqn:E; zbool.
    { apply sp_chain, He; [right; right; right; by exists head|right; by exists []]. }
    apply sp_bind. unfold current_set. destruct version; [by apply sp_ret, Hok|].
    apply (sp_read_set _ _ _ _ _ Good); try done; [|intros set live Hs; by apply Hok].
    intros e t0 [Hf|[Hf Hg0]]; [by apply Hread|]. apply He; [by right; left|by right]. }
  apply sp_bind. unfold read_head. destruct (until_block options) as [b|]; [by apply sp_ret, Hfrom; [left|]|].
  apply sp_bind, sp_rpc, sp_call; [by eapply Hpre|]. intros [[]|msg] Hr; simpl; [|apply Hread; by exists (Connect rpc_url), (Err msg), [], t].
  apply (Hplain (Connect rpc_url) (Ok tt)) in Hg; [|done].
  apply sp_rpc, sp_call; [by eapply Hpre|]. clear Hr. intros [n|msg] Hr; simpl.
  - apply Hfrom; [by right|]. by apply (Hplain GetBlockNumber (Ok n)).
  - apply Hread. by eexists GetBlockNumber, (Err msg), [], _.
Qed.

(** ** What the checkpoint covers *)

Section covers.
Context (version : RevisionLogVersion) (contract : Z) (chain : list RpcLog) (hash_at : Z -> Z).
Hypothesis contract_resolved : resolve_contract load_deployed_address env version = Ok contract.

(** A node on one chain: it hands over every log of the contract in the range
    it is asked for, and names the same hash for a block every time. *)
Definition honest_answer (q : SyncCall) : SyncAnswer q -> Prop :=
  match q with
  | GetBlockNumber => fun r => forall n, r = Ok n -> 0 <= n <= U64_MAX
  | GetLogs k _ from to => fun r => forall logs, r = Ok logs ->
      (forall l b h, l ∈ logs -> rpc_block_number l = Some b -> rpc_block_hash l = Some h -> h = hash_at b)
      /\ (forall l b, l ∈ chain -> rpc_address l = k -> rpc_block_number l = Some b -> from <= b <= to -> l ∈ logs)
  | GetBlock n => fun r => forall h, r = Ok h -> h = Some (hash_at n)
  | _ => fun _ => True
  end.

Definition honest (c : call Ans) : Prop := honest_answer (pd_call (projT1 c)) (projT2 c).

(** An event of the chain whose signer counts. *)
Definition honored_event (live : list Z) (ev : VerifiedRevisionEvent) : Prop :=
  (exists l, l ∈ chain /\ verify_alloy_log l vault_id contract = Some ev)
  /\ (version = V1 \/ vre_signer ev ∈ live).

(** Every such event of the blocks [(floor, c]] is in the tables. *)
Definition covered (floor c : Z) (d : Database) (live : list Z) : Prop :=
  forall ev, honored_event live ev -> floor < ev_block ev <= c -> known (vre_event ev) d.

(** What holds at every point: what the stored checkpoint passes is covered. *)
Definition checkpoint_covers_at (floor : Z) (s : SV) (live : list Z) : Prop :=
  forall c, stored version (sdb s) = Some c -> covered floor c (sdb s) live.

Lemma covered_keeps floor c d d' live : keeps d d' -> covered floor c d live -> covered floor c d' live.
Proof. intros Hk Hc ev He Hb. eapply known_keeps; [exact Hk|]. by apply Hc. Qed.
Notation hashes := (fun b h : Z => h = hash_at b).

Lemma honest_fits k from to (s : SV) logs ev :
  honest (existT (mkPending (GetLogs k vault_id from to) s) (Ok logs)) ->
  ev ∈ (verify_logs vault_id k logs).1 -> storable (vre_event ev) -> vre_block_hash ev = hash_at (ev_block ev).
Proof.
  intros Hh. rewrite verify_logs_events, list_elem_of_omap. intros (l & Hl & Hv) _.
  apply verify_alloy_log_inv in Hv as (_ & Hb & Hx). destruct (Hh logs eq_refl) as [H _]. by apply (H l).
Qed.

Lemma honest_denied : ~ denied honest hashes.
Proof. intros (b & h & s & c & -> & Hh & Hne). apply Hne. by apply Hh. Qed.

Context (floor : Z) (c0 : option Z).
Hypothesis floor_above : forall c, c0 = Some c -> c <= floor.

(** The stored checkpoint is the cursor, or still the one of the start. *)
Definition at_cursor (cu : Z) (o : option Z) : Prop := o = Some cu \/ o = c0.

Definition covered_to (cu : Z) (s : SV) (live : list Z) : Prop :=
  covered floor cu (sdb s) live /\ at_cursor cu (stored version (sdb s)).

Lemma covered_to_at cu s live : covered_to cu s live -> checkpoint_covers_at floor s live.
Proof using floor_above.
  intros [Hc [Hs|Hs]] c Hst; rewrite Hs in Hst; [by injection Hst as <-|].
  intros ev _ Hb. apply floor_above in Hst. lia.
Qed.

Lemma covered_to_move cu s s' live :
  covered_to cu s live -> tables_move honest hashes s s' -> covered_to cu s' live.
Proof.
  intros [Hc Hs] [Hck [Hk|Hd]]; [|by apply honest_denied in Hd]. split; [by eapply covered_keeps|].
  by rewrite (stored_checkpoints _ _ _ Hck).
Qed.

Notation pre := (fun (e : Pend) live => checkpoint_covers_at floor (pd_vault e) live).

Lemma chunk_covers set head p (s : SV) p' (s' : SV) live :
  (version = V1 \/ live ⊆ set) -> head <= U64_MAX -> 0 <= cursor p < head ->
  covered_to (cursor p) s live ->
  chunk_done honest hashes version set head p s p' s' ->
  covered_to (cursor p') s' live /\ 0 <= cursor p' /\ detector_ok hashes (detector p').
Proof using contract_resolved.
  intros Hset Hmax Hcu [Hcov Hat] (k & logs & s1 & s0 & Hk & Hl & [Hck Hm] & Hu & Hd & Hcur & Hkn).
  rewrite contract_resolved in Hk. injection Hk as <-.
  destruct Hm as [Hm|Hden]; [|by apply honest_denied in Hden].
  assert (Hcs : chunk_start p = cursor p + 1) by (unfold chunk_start, saturating_add, U64_MAX in *; lia).
  assert (Hce : 0 <= chunk_end head p).
  { unfold chunk_end, saturating_sub, saturating_add, LOG_BLOCK_CHUNK, U64_MAX in *. rewrite Hcs. lia. }
  apply update_checkpoint_inv in Hu as (Hrev & Hst & _); [|done]. rewrite Hcur.
  split_and!; [|done|done]. split; [|by left].
  intros ev Hev Hb. apply (known_keeps _ _ (sdb s1)); [by apply keeps_eq|].
  destruct (Z.le_gt_cases (ev_block ev) (cursor p)) as [Hle|Hgt].
  { apply (known_keeps _ _ (sdb s)); [done|]. apply Hcov; [done|lia]. }
  destruct Hev as [(l & Hin & Hv) Hw]. destruct (verify_alloy_log_inv _ _ _ _ Hv) as (Ha & Hbl & _).
  destruct (Hl logs eq_refl) as [_ Hall].
  destruct (Hkn ev) as [|Hden]; [| |done|by apply honest_denied in Hden].
  - rewrite verify_logs_events, list_elem_of_omap. exists l. split; [|done].
    apply (Hall l (ev_block ev)); [done|done|done|lia].
  - unfold gated, is_signer_honored. destruct version; [done|]. destruct Hw as [|Hw]; [done|].
    destruct Hset as [|Hset]; [done|]. rewrite bool_decide_eq_true_2; [done|]. by apply Hset.
Qed.

Lemma backfill_covers fuel set head p (s : SV) live :
  (version = V1 \/ live ⊆ set) -> head <= U64_MAX -> 0 <= cursor p ->
  covered_to (cursor p) s live -> detector_ok hashes (detector p) ->
  sp honest pre told_live
    (backfill fuel version set head p)
    (fun _ s' live' => live' = live /\ checkpoint_covers_at floor s' live) s live.
Proof using contract_resolved floor_above.
  intros Hset Hmax. revert p s. induction fuel as [|fuel IH]; intros p s Hpos Hcov Hd; simpl.
  { apply sp_ret. split; [done|]. by eapply covered_to_at. }
  destruct (cursor p <? head) eqn:Elt; zbool; [|apply sp_ret; split; [done|by eapply covered_to_at]].
  apply sp_bind. apply (sp_chunk honest pre told_live (covered_to (cursor p)) backfill_call hashes);
    [by intros []| | | | |done|done|done| |].
  - intros q s0 live0 _. apply covered_to_at.
  - by intros [] s0 r0 live0 Hq.
  - intros s0 s1 live0. apply covered_to_move.
  - exact honest_fits.
  - intros e s' Hm _. split; [done|]. eapply covered_to_at, covered_to_move; [exact Hcov|exact Hm].
  - intros p' s' Hdone. destruct (chunk_covers set head p s p' s' live) as (H1 & H2 & H3); [done..|].
    destruct (head <=? cursor p') eqn:Ele; [apply sp_ret; split; [done|by eapply covered_to_at]|].
    by apply IH.
Qed.
Lemma covers_move s s' live :
  checkpoint_covers_at floor s live -> tables_move honest hashes s s' -> checkpoint_covers_at floor s' live.
Proof.
  intros Hc [Hck [Hk|Hd]] c; [|by apply honest_denied in Hd].
  rewrite (stored_checkpoints _ _ _ Hck). intros Hst. eapply covered_keeps; [exact Hk|]. by apply Hc.
Qed.

Lemma reevaluate_tables set (s : SV) :
  tables_move honest hashes s (with_sdb (reevaluate_revocation_against_set set (sdb s)).1 s).
Proof.
  destruct (reevaluate_rest set (sdb s)) as [Hr _]. split.
  - change (checkpoints (set_revisions ∅ (reevaluate_revocation_against_set set (sdb s)).1) = checkpoints (set_revisions ∅ (sdb s))).
    by rewrite Hr.
  - left. intros k r Hk. exists (mark set r). rewrite sdb_with, reevaluate_lookup, Hk.
    unfold mark. split; [done|]. destruct (anchored r); by split.
Qed.

Lemma run_stages_covers rounds ov options start head set (s : SV) live :
  prefer_websocket options && bool_decide (until_block options = None) = false ->
  (version = V1 \/ live ⊆ set) -> head <= U64_MAX -> 0 <= start <= floor -> stored version (sdb s) = c0 ->
  sp honest pre told_live (run_stages rounds version ov options start head set)
    (fun _ s' live => checkpoint_covers_at floor s' live) s live.
Proof using contract_resolved floor_above.
  intros Hws Hset Hmax Hstart Hst. apply sp_bind. eapply sp_mono.
  { apply backfill_covers; [exact Hset|exact Hmax|simpl; lia| |apply new_detector_ok].
    split; [intros ev _ Hb; simpl in Hb; lia|by right]. }
  intros r s1 live1 [-> Hc1]. destruct r as [p|e]; [|done].
  apply sp_bind, (sp_promote honest pre told_live hashes); [intros; done|].
  intros p' s2 Hm2 _ _. assert (Hc2 := covers_move _ _ _ Hc1 Hm2).
  assert (Hend : forall p (s3 : SV), checkpoint_covers_at floor s3 live ->
    sp honest pre told_live (follow_tip rounds version set ov options head p)
      (fun _ s' live => checkpoint_covers_at floor s' live) s3 live).
  { intros p0 s3 Hc3. unfold ChainSync.follow_tip. rewrite Hws. by apply sp_ret. }
  unfold retro_pass. apply sp_bind. destruct version; [by apply sp_ret, Hend|].
  apply sp_bind, sp_database. destruct (reevaluate_revocation_against_set set (sdb s2)) as [d' n] eqn:Er.
  apply sp_ret, Hend. eapply covers_move; [exact Hc2|].
  pose proof (reevaluate_tables set s2) as Ht. by rewrite Er in Ht.
Qed.

Lemma sync_path_covers rounds ov options (s : SV) :
  prefer_websocket options && bool_decide (until_block options = None) = false ->
  (forall b, until_block options = Some b -> 0 <= b <= U64_MAX) ->
  stored version (sdb s) = c0 ->
  floor = Z.max (start_cursor env version options c0) (default (start_cursor env version options c0) c0) ->
  sp honest pre told_live (sync_path rounds version ov options)
    (fun _ s' live => checkpoint_covers_at floor s' live) s [].
Proof using contract_resolved floor_above.
  intros Hws Hub Hst Hfl.
  assert (Hinit : forall live, checkpoint_covers_at floor s live).
  { intros live c Hc ev _ Hb. rewrite Hst in Hc. apply floor_above in Hc. lia. }
  apply (sync_path_entry _ _ _ same_elements); [intros q set live _ _; apply Hinit|intros e live _ _; apply Hinit
    |intros q r set live; apply told_plain|intros; by apply told_push|done|].
  intros head set live start _ Hh Hs Hsl. subst start. rewrite Hst in *.
  apply run_stages_covers; [done| | |lia|done].
  - right. intros x. by rewrite (Hsl x).
  - destruct Hh as [Hh|Hh]; [by apply Hub|by apply (Hh head)].
Qed.
End covers.

Lemma told_live_in k v x (s1 : SV) evs live :
  existT (mkPending (AuthorizedDevice k v x) s1) (Ok true) ∈ evs \/ x ∈ live ->
  x ∈ foldl (fun live c => told_live c live) live evs.
Proof.
  revert live. induction evs as [|c evs IH]; intros live; simpl; [set_solver|].
  intros [[<-|Hin]%elem_of_cons|Hin]; apply IH; [right; left|by left|right].
  unfold told_live. destruct c as [[q s0] r]. simpl in *. destruct q; try done.
  destruct r as [[]|]; [by right|done..].
Qed.

(** C12. What the checkpoint passes is in the vault.  Take a sync that does not
    follow the tip, at any point of any run, finished or interrupted, against
    a node that stays on one chain and answers the ranges it is asked for
    completely.  Every event of that chain in a block after the point the sync
    started from and up to the stored checkpoint, which verifies and (in V2)
    whose signer the node called authorized in this run, is in the tables
    under its id or at its anchor. *)
Theorem checkpoint_covers version rounds ov options (s : SV) contract chain hash_at evs p' :
  resolve_contract load_deployed_address env version = Ok contract ->
  prefer_websocket options && bool_decide (until_block options = None) = false ->
  (forall b, until_block options = Some b -> 0 <= b <= U64_MAX) ->
  reaches (sync_path rounds version ov options s) evs p' -> Forall (honest chain hash_at) evs ->
  let c0 := stored version (sdb s) in
  let start := start_cursor env version options c0 in
  forall l ev c, l ∈ chain -> verify_alloy_log l vault_id contract = Some ev ->
    (version = V1 \/ exists k s1,
       existT (mkPending (AuthorizedDevice k vault_id (vre_signer ev)) s1) (Ok true) ∈ evs) ->
    stored version (sdb (vault_at p')) = Some c ->
    Z.max start (default start c0) < ev_block ev <= c ->
    known (vre_event ev) (sdb (vault_at p')).
Proof.
  intros Hk Hws Hub Hr Hh c0 start l ev c Hin Hv Hw Hc Hb.
  assert (Hat : checkpoint_covers_at version contract chain (Z.max start (default start c0)) (vault_at p')
                  (foldl (fun live c => told_live c live) [] evs)).
  { pose proof (sync_path_covers version contract chain hash_at Hk (Z.max start (default start c0)) c0) as Hsp.
    eapply sp_reaches in Hsp; [| |exact Hws|exact Hub|done|done|exact Hr|exact Hh].
    - destruct p' as [x|e k]; [exact Hsp|exact (proj1 Hsp)].
    - intros c' Hc'. rewrite Hc'. simpl. lia. }
  apply (Hat c Hc); [|done]. split; [by exists l|]. destruct Hw as [|(k & s1 & Hw)]; [by left|right].
  eapply told_live_in. by left.
Qed.

(** ** After the set is read *)

(** Every call but the two of the set read. *)
Definition past_set (q : SyncCall) : Prop :=
  match q with GetDeviceLogs _ _ _ _ | AuthorizedDevice _ _ _ => False | _ => True end.

(** The calls of the tip. *)
Definition ws_call (q : SyncCall) : Prop :=
  match q with
  | ConnectWs _ | WsChainId | SubscribeLogs _ _ | Recv | InstantNow | Sleep _ => True
  | _ => False
  end.

(** [m] makes only calls of [C]. *)
Definition sp_only {A} (C : SyncCall -> Prop) (m : sprog A) (Q : result SyncError A -> SV -> Prop) (s : SV) : Prop :=
  sp (fun _ => True) (fun (e : Pend) (_ : unit) => C (pd_call e)) (fun _ _ => tt) m (fun r s' _ => Q r s') s tt.

Lemma sp_framed {T A} (C : SyncCall -> Prop) (rely : call Ans -> Prop) pre upd (m : sprog A) Q (s : SV) (t : T) :
  sp_only C m Q s -> (forall e, C (pd_call e) -> pre e t /\ forall r, upd (existT e r) t = t) ->
  sp rely pre upd m (fun r s' t' => t' = t /\ Q r s') s t.
Proof.
  intros Hm HC. apply (rwp_frame (fun e => C (pd_call e)) rely pre upd (m s) (fun x => Q x.1 x.2)); [|exact HC].
  exact Hm.
Qed.

Lemma sp_only_weaken {A} (C C' : SyncCall -> Prop) (m : sprog A) Q (s : SV) :
  (forall q, C q -> C' q) -> sp_only C m Q s -> sp_only C' m Q s.
Proof.
  intros HC Hm. eapply sp_mono; [apply (sp_framed C); [exact Hm|]|by intros r s' t' [_ ?]].
  intros e He. split; [by apply HC|done].
Qed.

Definition within_head (head : Z) (r : result SyncError Progress) (_ : SV) : Prop :=
  forall p, r = Ok p -> 0 <= cursor p <= head.

Lemma backfill_plain fuel version set head p (s : SV) :
  0 <= cursor p <= head -> detector_ok (fun _ _ => True) (detector p) ->
  sp_only backfill_call (backfill fuel version set head p) (within_head head) s.
Proof.
  revert p s. induction fuel as [|fuel IH]; intros p s Hcu Hd; simpl; [apply sp_ret; by intros p' [= <-]|].
  destruct (cursor p <? head) eqn:E; zbool; [|apply sp_ret; by intros p' [= <-]]. apply sp_bind.
  apply (sp_chunk _ _ _ (fun _ _ => True) backfill_call (fun _ _ => True)); try done.
  - by intros [].
  - by intros q s0 r [] _.
  - intros p' s' (k & logs & s1 & s0 & _ & _ & _ & _ & Hd' & Hcur & _).
    assert (Hp' : 0 <= cursor p' <= head).
    { rewrite Hcur. unfold chunk_end, chunk_start, saturating_sub, saturating_add, LOG_BLOCK_CHUNK, U64_MAX. lia. }
    destruct (head <=? cursor p'); [apply sp_ret; by intros p0 [= <-]|]. by apply IH.
Qed.

Lemma signed_by_move set d d' :
  (forall k r', t_revisions d' !! k = Some r' -> exists r, t_revisions d !! k = Some r
     /\ row_anchor r' = row_anchor r /\ revoked r' = revoked r /\ recovered_signer r' = recovered_signer r) ->
  signed_by set d -> signed_by set d'.
Proof.
  intros H Hd k r' Hk. destruct (H k r' Hk) as (r & Hr & -> & -> & ->). by apply (Hd k).
Qed.

Lemma signed_by_promote set h d d' n :
  promote_finalized_revisions h d = Ok (d', n) -> signed_by set d -> signed_by set d'.
Proof.
  unfold promote_finalized_revisions, mbind, result_bind, ok_or. destruct (i64_try_from _); [|done].
  intros [= <- _]. apply signed_by_move. intros k r'. rewrite update_revisions_lookup.
  destruct (t_revisions d !! k) as [r|]; [|done]. simpl. intros [= <-]. exists r. by destruct (is_final_at _ _).
Qed.

Lemma signed_by_retro set d : signed_by set (reevaluate_revocation_against_set set d).1.
Proof.
  intros k r'. rewrite reevaluate_lookup. destruct (t_revisions d !! k) as [r|]; [|done]. simpl. intros [= <-].
  unfold mark, anchored. case_bool_decide as Ha; [|done]. intros _ Hrev. by apply want_revoked_false.
Qed.

Lemma update_checkpoint_rows version b d d' :
  (d'' ← match version with
        | V1 => update_last_synced_block_v1 b d
        | V2 => update_last_synced_block_v2 b d
        end; Ok (d'', tt)) = (Ok (d', tt) : store_result _) -> t_revisions d' = t_revisions d.
Proof.
  unfold update_last_synced_block_v1, update_last_synced_block_v2, mbind, result_bind.
  destruct version; (destruct (_ d) as [o|]; [|done]); (destruct (next_checkpoint o b) as [nx|]; [|done]);
    intros [= <-]; by destruct nx.
Qed.

(** *** The tip, with the gate in place *)

(** [G]: the gate matters to the caller. *)
Definition gate_kept (G : Prop) (set : list Z) {A} (r : result SyncError A) (s : SV) : Prop :=
  is_ok r = true -> G -> signed_by set (sdb s).

Lemma ws_event_gate C G version set contract log p (s : SV) :
  (G -> version = V2) -> (G -> signed_by set (sdb s)) ->
  sp_only C (ws_event wall clock self_vault_id canonical_hash open_payload vault_id version set contract log p)
    (gate_kept G set) s.
Proof.
  intros HG Hs. unfold ws_event. destruct (verify_alloy_log log vault_id contract) as [ev|]; [|apply sp_ret; by intros _].
  cbv zeta. destruct (gated version set ev) eqn:Eg; [apply sp_ret; by intros _|]. apply sp_bind, sp_event.
  intros r s1 He. destruct He as [p1 s1 _ _ _ _ Hset _ _|]; [|done].
  assert (H1 : G -> signed_by set (sdb s1)).
  { intros Hv. pose proof (HG Hv) as ->. apply Hset; [done| |by apply Hs]. unfold gated, is_signer_honored in Eg. apply negb_false_iff in Eg.
    by apply bool_decide_eq_true in Eg. }
  destruct (_ <? _); [|apply sp_ret; by intros _]. apply sp_bind, sp_database.
  destruct (_ ≫= _) as [[d' []]|k] eqn:Eu; [|done]. apply sp_ret. intros _ Hv. rewrite sdb_with.
  apply (update_checkpoint_rows version) in Eu. generalize (H1 Hv). apply signed_by_move. intros k r' Hk.
  exists r'. by rewrite <- Eu.
Qed.

Notation ws_session := (ws_session wall clock self_vault_id canonical_hash open_payload env vault_id
   : nat -> RevisionLogVersion -> list Z -> string -> Z -> Z -> option bool -> WsState -> sprog WsState).

Definition open_call (q : SyncCall) : Prop :=
  match q with ConnectWs _ | WsChainId | SubscribeLogs _ _ => True | _ => False end.

Lemma sp_open_subscription {T} (rely : call Ans -> Prop) pre upd url contract Q (s : SV) (t : T) :
  (forall q r, open_call q -> pre (mkPending q s) t /\ upd (existT (mkPending q s) r) t = t) ->
  (forall b, Q (Ok b) s t) -> sp rely pre upd (open_subscription env vault_id url contract) Q s t.
Proof.
  intros Hq HQ.
  assert (Hcall : forall q (Q : result SyncError (SyncAnswer q) -> SV -> T -> Prop) (r0 : SyncAnswer q), open_call q ->
    (forall r, Q (Ok r) s t) -> sp rely pre upd (call_out q) Q s t).
  { intros q Q0 r0 Hopen HQ0. apply sp_call; [by apply (Hq q r0)|]. intros r _. by rewrite (proj2 (Hq q r Hopen)). }
  unfold open_subscription. destruct (check_ws_scheme url env); [|by apply sp_ret].
  apply sp_bind, Hcall; [exact (Ok tt)|done|]. intros [[]|msg]; [|by apply sp_ret].
  assert (Hsub : sp rely pre upd ((r ← call_out (SubscribeLogs contract vault_id);
                                   mret match r with Ok _ => true | Err _ => false end) : sprog bool) Q s t).
  { apply sp_bind, Hcall; [exact (Ok tt)|done|]. intros r. by apply sp_ret. }
  destruct (chain_id env) as [expected|]; [|exact Hsub].
  apply sp_bind, Hcall; [exact (Ok 0)|done|]. intros [o|msg]; [|by apply sp_ret].
  case_bool_decide; [exact Hsub|by apply sp_ret].
Qed.

Lemma ws_session_gate rounds G version set url contract deadline inside st (s : SV) :
  (G -> version = V2) -> (G -> signed_by set (sdb s)) ->
  sp_only ws_call (ws_session rounds version set url contract deadline inside st) (gate_kept G set) s.
Proof.
  intros HG. revert inside st s. induction rounds as [|rounds IH]; intros inside st s Hs; simpl; [apply sp_ret; by intros _|].
  apply sp_bind, sp_call; [done|]. intros now _. destruct inside as [ingested|].
  - destruct (deadline <=? now); [apply sp_ret; by intros _|]. apply sp_bind, sp_call; [done|].
    intros [[log|]|] _; [| |apply sp_ret; by intros _].
    + apply sp_bind. eapply sp_mono; [by apply (ws_event_gate ws_call)|]. intros [[p landed]|e] s1 [] H1; [|done].
      apply IH. by apply H1.
    + by apply IH.
  - destruct (_ && _); [|apply sp_ret; by intros _].
    set (next := fun _ : unit => open_subscription env vault_id url contract ≫= _ : sprog WsState).
    assert (Hopen : sp_only ws_call (next tt) (gate_kept G set) s).
    { apply sp_bind, sp_open_subscription; [by intros []|]. intros []; by apply IH. }
    apply sp_bind. destruct (0 <? backoff_ms st); [|apply sp_ret; exact Hopen].
    apply sp_call; [done|]. intros [] _. exact Hopen.
Qed.

Lemma follow_tip_gate rounds G version set ov options head p (s : SV) :
  (G -> version = V2) -> (G -> signed_by set (sdb s)) ->
  sp_only ws_call (follow_tip rounds version set ov options head p) (gate_kept G set) s.
Proof.
  intros HG Hs. unfold ChainSync.follow_tip. destruct (negb _); [apply sp_ret; by intros _|].
  destruct (resolve_contract _ _ _) as [contract|]; [|apply sp_ret; by intros _].
  destruct (match ov with Some _ => _ | None => _ end) as [url|]; [|apply sp_ret; by intros _].
  apply sp_bind, sp_call; [done|]. intros now _. apply sp_bind.
  eapply sp_mono; [by apply ws_session_gate|]. intros [st|e] s1 [] H1; [|done].
  destruct (ws_path_used st); [|apply sp_ret; by intros _; apply H1].
  apply sp_bind. apply sp_bind, sp_database.
  destruct (promote_finalized_revisions head (sdb s1)) as [[d' n]|k] eqn:Ep; [|done].
  apply sp_ret, sp_ret. intros _ Hv. rewrite sdb_with. eapply signed_by_promote; [exact Ep|by apply H1].
Qed.

Lemma past_backfill q : backfill_call q -> past_set q.
Proof. by destruct q. Qed.
Lemma past_ws q : ws_call q -> past_set q.
Proof. by destruct q. Qed.

Lemma run_stages_gate rounds version ov options start head set (s : SV) :
  0 <= start <= head ->
  sp_only past_set (run_stages rounds version ov options start head set) (gate_kept (version = V2) set) s.
Proof.
  intros Hs. apply sp_bind. eapply sp_mono.
  { apply (sp_only_weaken _ _ _ (within_head head) _ past_backfill). by apply backfill_plain, new_detector_ok. }
  intros [p|e] s1 [] _; [|done].
  apply sp_bind, (sp_promote (fun _ => True) _ _ (fun _ _ => True)); [done|]. intros p2 s2 _ _ _.
  apply sp_bind. unfold retro_pass. destruct version.
  { apply sp_ret. apply (sp_only_weaken _ _ _ (gate_kept (V1 = V2) set) _ past_ws). by apply follow_tip_gate. }
  apply sp_bind, sp_database.
  destruct (reevaluate_revocation_against_set set (sdb s2)) as [d' n] eqn:Er.
  apply sp_ret, (sp_only_weaken _ _ _ (gate_kept (V2 = V2) set) _ past_ws), follow_tip_gate; [done|]. intros _. rewrite sdb_with.
  pose proof (signed_by_retro set (sdb s2)) as H. by rewrite Er in H.
Qed.

Lemma told_live_elem x evs live :
  x ∈ foldl (fun live c => told_live c live) live evs -> x ∈ live \/
  exists k v (s1 : SV), existT (mkPending (AuthorizedDevice k v x) s1) (Ok true) ∈ evs.
Proof.
  revert live. induction evs as [|c evs IH]; intros live; simpl; [by left|].
  intros [Hin|(k & v & s1 & Hin)]%IH; [|right; exists k, v, s1; by right].
  revert Hin. unfold told_live. destruct c as [[q s0] r]. simpl in *.
  destruct q; try (by left). destruct r as [[]|]; try (by left).
  intros [->|Hin]%elem_of_cons; [right|by left]. do 3 eexists. by left.
Qed.

(** C13. A V2 sync leaves no honored row of an unauthorized signer.  When a sync
    of a V2-bound vault succeeds, with or without web-socket events, every
    chain-anchored row of the tables that is not revoked carries a recovered
    signer which the node called authorized in this very run. *)
Theorem v2_honors_only_the_set rounds ov options (s : SV) evs rep s' :
  reaches (sync_path rounds V2 ov options s) evs (Ret (Ok rep, s')) ->
  forall k r, t_revisions (sdb s') !! k = Some r -> is_Some (row_anchor r) -> revoked r = false ->
  exists signer c v s1, recovered_signer r = Some signer
    /\ existT (mkPending (AuthorizedDevice c v signer) s1) (Ok true) ∈ evs.
Proof.
  intros Hr k r Hk Ha Hrev.
  assert (Hsp : sp (fun _ => True) (fun _ _ => True) told_live (sync_path rounds V2 ov options)
    (fun r s' live => is_ok r = true -> signed_by live (sdb s')) s []).
  { apply (sync_path_entry _ _ _ same_elements);
      [done|done|intros q r0 set live; apply told_plain|intros; by apply told_push|done|].
    intros head set live start _ _ Hs Hset. eapply sp_mono.
    { apply (sp_framed past_set); [by apply run_stages_gate|]. intros [q s0] Hq. split; [done|]. by destruct q. }
    intros r0 s0 t0 [-> Hsg] Hok k0 row H1 H2 H3. destruct (Hsg Hok eq_refl k0 row H1 H2 H3) as (x & Hx & Hin).
    exists x. split; [done|]. by apply (Hset x). }
  eapply sp_reaches in Hsp; [|exact Hr|by apply Forall_true].
  destruct (Hsp eq_refl k r Hk Ha Hrev) as (x & Hx & Hin).
  apply told_live_elem in Hin as [Hin|(c & v & s1 & Hin)]; [by apply elem_of_nil in Hin|].
  by exists x, c, v, s1.
Qed.

(** *** Up to the first log request

    Where a run is: before any log request, past one, or at its end because of an error. *)
Inductive phase : Type := Reading | Logged | Failed (e : ChainError).

(** The questions only the set read asks. *)
Definition asks_set (q : SyncCall) : bool :=
  match q with GetDeviceLogs _ _ _ _ | AuthorizedDevice _ _ _ => true | _ => false end.
Definition asks_logs (q : SyncCall) : bool := match q with GetLogs _ _ _ _ => true | _ => false end.

Definition next_phase (c : call Ans) (t : phase) : phase :=
  match t with
  | Reading => match answer_failure c with
               | Some e => Failed e
               | None => if asks_logs (pd_call (projT1 c)) then Logged else Reading
               end
  | Logged => if asks_set (pd_call (projT1 c)) then
                match answer_failure c with Some e => Failed e | None => Logged end
              else Logged
  | Failed e => Failed e
  end.

Definition running (_ : Pend) (t : phase) : Prop := forall e, t <> Failed e.

(** A failure ends the run with that error and the vault as it was. *)
Definition ends_failed {A} (s : SV) (r : result SyncError A) (s' : SV) (t : phase) : Prop :=
  forall e, t = Failed e -> r = Err (ChainErr e) /\ s' = s.

Notation sp_phase := (sp (fun _ => True) running next_phase).

Lemma phase_past_logs e : past_set (pd_call e) -> running e Logged /\ forall r, next_phase (existT e r) Logged = Logged.
Proof. intros H. split; [done|]. intros r. destruct e as [q s]. by destruct q. Qed.

Lemma phase_tip e : ws_call (pd_call e) -> running e Reading /\ forall r, next_phase (existT e r) Reading = Reading.
Proof. intros H. split; [done|]. intros r. destruct e as [q s]. by destruct q. Qed.

(** What comes after the backfill calls only the tip. *)
Definition after_backfill rounds version ov options head set (p : Progress) : sprog SyncReport :=
  p ← promote head p;
  p ← retro_pass version set (mkProgress (set_last_block head (report p)) (detector p) (cursor p));
  follow_tip rounds version set ov options head p.

Lemma after_backfill_tip rounds version ov options head set p (s : SV) :
  sp_only ws_call (after_backfill rounds version ov options head set p) (fun _ _ => True) s.
Proof.
  assert (Htip : forall p s, sp_only ws_call (follow_tip rounds version set ov options head p) (fun _ _ => True) s).
  { intros p0 s0. eapply sp_mono; [by apply (follow_tip_gate rounds False)|done]. }
  apply sp_bind, (sp_promote (fun _ => True) _ _ (fun _ _ => True)); [done|]. intros p2 s2 _ _ _.
  apply sp_bind. unfold retro_pass. destruct version; [apply sp_ret, Htip|].
  apply sp_bind, sp_database. destruct (reevaluate_revocation_against_set set (sdb s2)) as [d' n]. apply sp_ret, Htip.
Qed.

(** What follows the logs of a chunk. *)
Definition after_logs version set head (p : Progress) (logs : list VerifiedRevisionEvent * Z) : sprog Progress :=
  let '(events, rejected) := logs in
  let pulled := default U32_MAX (u32_try_from (Z.of_nat (length events))) in
  p1 ← ChainSync.apply_events wall clock self_vault_id canonical_hash open_payload version set events
        (count Rejected rejected (count Pulled pulled p));
  info ← detect_reorg_via_rpc rpc_url (detector p1);
  p1 ← roll_back info p1;
  p1 ← promote head p1;
  update_last_synced_block version (chunk_end head p) ≫= fun _ => mret (set_cursor (chunk_end head p) p1).

Lemma after_logs_plain version set head p logs (s : SV) :
  0 <= cursor p <= head -> detector_ok (fun _ _ => True) (detector p) ->
  sp_only backfill_call (after_logs version set head p logs)
    (fun r _ => forall p', r = Ok p' -> 0 <= cursor p' <= head /\ detector_ok (fun _ _ => True) (detector p')) s.
Proof.
  intros Hcu Hd. destruct logs as [events rejected]. apply sp_bind.
  destruct (apply_events_run version set events (count Rejected rejected
    (count Pulled (default U32_MAX (u32_try_from (Z.of_nat (length events)))) p)) s) as (r & s1 & Hrun & _ & _ & Hr).
  eapply sp_run; [exact Hrun|]. destruct r as [p1|e]; [|done]. destruct Hr as (_ & _ & Hdet).
  apply (sp_chunk_tail _ _ _ (fun _ _ => True) backfill_call (fun _ _ => True)); try done.
  - by intros [].
  - by intros q s0 r0 [] _.
  - by apply Hdet.
  - intros p' s2 s' _ Hd' Hc _ p0 [= <-]. split; [|done]. rewrite Hc.
    unfold chunk_end, chunk_start, saturating_sub, saturating_add, LOG_BLOCK_CHUNK, U64_MAX. lia.
Qed.

(** The first log request and what it takes to make it. *)
Lemma fetch_phase version from to (s : SV) (K : result SyncError (list VerifiedRevisionEvent * Z) -> SV -> phase -> Prop) :
  (forall e, K (Err e) s Reading) -> (forall e, K (Err (ChainErr e)) s (Failed e)) -> (forall r, K r s Logged) ->
  sp_phase (fetch_and_verify_chunk load_deployed_address rpc_url env vault_id version from to) K s Reading.
Proof.
  intros He Hf Hl. apply sp_bind, sp_chain. destruct (resolve_contract _ _ _) as [k|e]; [|by apply He].
  apply sp_bind. apply sp_rpc, sp_call; [done|]. intros [[]|msg] _; [|apply Hf].
  apply sp_bind. unfold check_chain_id_matches.
  assert (Hlogs : sp_phase (fetch_chunk vault_id k from to) K s Reading).
  { apply sp_bind, sp_rpc, sp_call; [done|]. intros [logs|msg] _; [apply sp_ret, Hl|apply Hl]. }
  destruct (chain_id env) as [expected|] eqn:Ech; [|by apply sp_ret].
  apply sp_bind, sp_rpc, sp_call; [done|]. intros [o|msg] _; simpl; [|apply Hf].
  unfold answer_failure. simpl. rewrite Ech. case_bool_decide; [by apply sp_ret|apply sp_chain, Hf].
Qed.

Lemma run_stages_phase rounds version ov options start head set (s : SV) :
  0 <= start <= head ->
  sp_phase (run_stages rounds version ov options start head set) (ends_failed s) s Reading.
Proof.
  intros Hs. apply sp_bind. fold (after_backfill rounds version ov options head set).
  set (K := fun (r : result SyncError Progress) s' t => _).
  assert (HK : forall r s', K r s' Logged).
  { intros [p|e] s'; [|done]. eapply sp_mono.
    - apply (sp_framed ws_call); [apply after_backfill_tip|]. intros e He. apply phase_past_logs, past_ws, He.
    - by intros r s0 t [-> _]. }
  assert (Hd : detector_ok (fun _ _ => True) new_detector) by apply new_detector_ok.
  set (p := mkProgress empty_report new_detector start). generalize (chunks_of start head) as fuel.
  assert (Hnone : sp_phase (mret p : sprog Progress) K s Reading).
  { apply sp_ret. eapply sp_mono; [apply (sp_framed ws_call); [apply after_backfill_tip|apply phase_tip]|]. by intros r s0 t [-> _]. }
  intros [|fuel]; [exact Hnone|]. simpl. destruct (start <? head); [|exact Hnone]. apply sp_bind.
  apply sp_bind, fetch_phase; [done|by intros e e' [= <-]|]. intros [logs|e]; [|by apply HK].
  change (sp_phase (after_logs version set head p logs) (fun r s' t => match r with
    | Ok a => sp_phase (if head <=? cursor a then mret a else backfill fuel version set head a) K s' t
    | Err e => K (Err e) s' t end) s Logged).
  eapply sp_mono; [apply (sp_framed backfill_call); [by apply after_logs_plain|intros e He; apply phase_past_logs, past_backfill, He]|].
  intros [p'|e] s' t [-> Hp]; [|by apply HK]. destruct (Hp p' eq_refl) as [Hc Hd'].
  destruct (head <=? cursor p'); [apply sp_ret, HK|].
  eapply sp_mono; [apply (sp_framed backfill_call); [by apply backfill_plain|intros e He; apply phase_past_logs, past_backfill, He]|].
  intros r s0 t [-> _]. apply HK.
Qed.

Lemma before_logs evs :
  Forall (fun c => asks_logs (pd_call (projT1 c)) = false) evs -> foldl (fun t c => next_phase c t) Reading evs <> Logged.
Proof.
  intros Hno. assert (Ht : Reading <> Logged) by done. revert Ht. generalize Reading as t.
  induction Hno as [|c evs Hc _ IH]; intros t Ht; [exact Ht|]. simpl. apply IH. destruct t; simpl; [|done|done].
  rewrite Hc. by destruct (answer_failure c).
Qed.

(** C14. Fail closed.  When a call of the authorized-set read of a V2 sync fails, the
    sync is over with that call's error, and the vault it leaves (tables, session,
    devices, binding) is the one it found.  That is so of every call before the first log
    request, so of each of the read's: the connection, the chain id (an error, or not the
    one of the environment), the head, the device logs and the membership questions; and
    of the last two whenever they are asked. *)
Theorem set_read_fails_closed rounds ov options (s : SV) evs c p' e :
  reaches (sync_path rounds V2 ov options s) (evs ++ [c]) p' ->
  answer_failure c = Some e ->
  asks_set (pd_call (projT1 c)) = true \/ Forall (fun c => asks_logs (pd_call (projT1 c)) = false) evs ->
  p' = Ret (Err (ChainErr e), s).
Proof.
  intros Hr Hc Hwhen.
  assert (Hsp : sp_phase (sync_path rounds V2 ov options) (ends_failed s) s Reading).
  { apply (sync_path_entry _ _ _ (fun _ t => t = Reading)).
    - by intros q set t _ ->.
    - intros e0 t _ [(k & -> & q & r & set & t0 & _ & Hf & -> & ->)|[_ ->]] e' Ht; [|done]. unfold next_phase in Ht.
      rewrite Hf in Ht. by injection Ht as ->.
    - intros q r set t Hp ->. unfold next_phase. destruct q; try done; by rewrite Hp.
    - by intros k v x b set t ->.
    - done.
    - intros head set t start _ _ Hs ->. by apply run_stages_phase. }
  apply reaches_split in Hr as (p1 & H1 & H2).
  pose proof (sp_reaches _ _ _ _ _ _ _ _ _ Hsp H1 (Forall_true _ _ (fun _ => I))) as Hw.
  pose proof (before_logs evs) as Hl. set (t := foldl _ _ evs) in *.
  pose proof (rwp_reaches _ _ _ _ _ _ _ _ H2 (Forall_true _ _ (fun _ => I)) Hw) as Hend. simpl in Hend.
  assert (Ht : (forall e0, t <> Failed e0) -> next_phase c t = Failed e).
  { intros Hrun. unfold next_phase. rewrite Hc. destruct t as [| |e0] eqn:Et; [done| |by destruct (Hrun e0)].
    destruct Hwhen as [->|Hno]; [done|]. by destruct (Hl Hno). }
  inversion H2 as [|q k r evs' p2 H3]; subst. inversion H3; subst. rewrite Ht in Hend by apply Hw.
  destruct (k r) as [[r0 s0]|e1 k1]; simpl in Hend; [|by destruct (proj1 Hend e)].
  by destruct (Hend e eq_refl) as [-> ->].
Qed.

(** ** The requests of a sync *)

Section requests.
Context (version : RevisionLogVersion) (heads : Z -> Prop).

(** The range of a log request. *)
Definition log_request (c : call Ans) : option (Z * Z) :=
  match pd_call (projT1 c) with GetLogs _ _ from to => Some (from, to) | _ => None end.

(** Each range starts right above the last one and is no wider than a chunk. *)
Fixpoint consecutive (last : Z) (l : list (Z * Z)) : Prop :=
  match l with
  | [] => True
  | (from, to) :: l => from = last + 1 /\ from <= to < from + LOG_BLOCK_CHUNK /\ consecutive to l
  end.

Definition request_ok (e : Pend) (last : Z) : Prop :=
  match pd_call e with
  | GetLogs k v from to =>
      resolve_contract load_deployed_address env version = Ok k /\ v = vault_id
      /\ from = last + 1 /\ from <= to < from + LOG_BLOCK_CHUNK /\ exists head, heads head /\ to <= head
  | _ => True
  end.

Definition last_request (c : call Ans) (last : Z) : Z :=
  match log_request c with Some (_, to) => to | None => last end.

(** The head is a [u64], and one of [heads]. *)
Definition typed (c : call Ans) : Prop :=
  match pd_call (projT1 c) as q return SyncAnswer q -> Prop with
  | GetBlockNumber => fun r => forall n, r = Ok n -> 0 <= n <= U64_MAX /\ heads n
  | _ => fun _ => True
  end (projT2 c).

Notation sp := (sp typed request_ok last_request).

Lemma fetch_requests from to head Q (s : SV) last :
  heads head -> to <= head -> from = last + 1 -> from <= to < from + LOG_BLOCK_CHUNK ->
  (forall e, Q (Err e) s last) -> (forall e, Q (Err e) s to) ->
  (forall k logs, Q (Ok (verify_logs vault_id k logs)) s to) ->
  sp (fetch_and_verify_chunk load_deployed_address rpc_url env vault_id version from to) Q s last.
Proof.
  intros Hhd Hle Hf Ht He He' Hok. apply sp_bind, sp_chain. destruct (resolve_contract _ _ _) as [k|e] eqn:Ek; simpl; [|by apply He].
  apply sp_bind, sp_rpc, sp_call; [done|]. intros [[]|msg] _; simpl; [|by apply He].
  assert (Hlogs : sp (fetch_chunk vault_id k from to) Q s last).
  { apply sp_bind, sp_rpc, sp_call; [split_and!; [done|done|done|lia|lia|by exists head]|].
    intros [logs|msg] _; [by apply sp_ret, Hok|by apply He']. }
  unfold check_chain_id_matches. apply sp_bind. destruct (chain_id env) as [expected|]; [|by apply sp_ret].
  apply sp_bind, sp_rpc, sp_call; [done|]. intros [o|msg] _; simpl; [|by apply He].
  case_bool_decide; [by apply sp_ret|by apply He].
Qed.

Definition requests_done (r : result SyncError Progress) (_ : SV) (last : Z) : Prop :=
  forall p, r = Ok p -> last = cursor p /\ 0 <= cursor p /\ detector_ok (fun _ _ => True) (detector p).

Lemma chunk_requests set head p (s : SV) :
  heads head -> 0 <= cursor p < head -> head <= U64_MAX -> detector_ok (fun _ _ => True) (detector p) ->
  sp (backfill_chunk wall clock self_vault_id canonical_hash open_payload load_deployed_address rpc_url env vault_id
        version set head p) requests_done s (cursor p).
Proof.
  intros Hhd Hcu Hmax Hd. unfold backfill_chunk. fold (chunk_start p). fold (chunk_end head p).
  assert (Hle : chunk_end head p <= head) by (unfold chunk_end; lia).
  assert (Hce : cursor p + 1 <= chunk_end head p < cursor p + 1 + LOG_BLOCK_CHUNK /\ chunk_start p = cursor p + 1).
  { unfold chunk_end, chunk_start, saturating_sub, saturating_add, LOG_BLOCK_CHUNK, U64_MAX in *. lia. }
  destruct Hce as [Hce Hcs]. apply sp_bind, (fetch_requests _ _ head); [done|done|lia|lia|done|done|]. intros k logs.
  destruct (verify_logs vault_id k logs) as [events rejected]. cbv zeta.
  set (p0 := count Rejected _ _). apply sp_bind.
  destruct (apply_events_run version set events p0 s) as (r & s1 & Hrun & _ & _ & Hr).
  apply (sp_run _ _ _ _ _ _ _ _ _ Hrun). destruct r as [p1|e]; [|done]. destruct Hr as (_ & _ & Hdet).
  apply (sp_chunk_tail _ _ _ (fun _ _ => True) tail_call (fun _ _ => True)); try done.
  - by intros [].
  - by intros [].
  - by apply Hdet.
  - intros p2 s2 s3 _ Hd2 Hc2 _ p' [= <-]. rewrite Hc2. split_and!; [done|lia|done].
Qed.

Lemma backfill_requests fuel set head p (s : SV) :
  heads head -> 0 <= cursor p -> head <= U64_MAX -> detector_ok (fun _ _ => True) (detector p) ->
  sp (backfill fuel version set head p) requests_done s (cursor p).
Proof.
  intros Hhd Hp Hmax. revert p Hp s. induction fuel as [|fuel IH]; intros p Hp s Hd; simpl.
  { apply sp_ret. by intros p' [= <-]. }
  destruct (cursor p <? head) eqn:E; zbool; [|apply sp_ret; by intros p' [= <-]].
  apply sp_bind. eapply sp_mono; [by apply chunk_requests|]. intros [p1|e] s1 last Hdone; [|done].
  destruct (Hdone p1 eq_refl) as (-> & Hp1 & Hd1).
  destruct (head <=? cursor p1); [apply sp_ret; by intros p' [= <-]|by apply IH].
Qed.

Lemma ws_requests e last : ws_call (pd_call e) ->
  request_ok e last /\ forall r, last_request (existT e r) last = last.
Proof. destruct e as [q s]. by destruct q. Qed.

Lemma run_stages_requests rounds ov options start head set (s : SV) :
  heads head -> 0 <= start -> head <= U64_MAX ->
  sp (run_stages rounds version ov options start head set) (fun _ _ _ => True) s start.
Proof.
  intros Hhd Hs Hmax. apply sp_bind. eapply sp_mono.
  { by apply backfill_requests; [| | |apply new_detector_ok]. }
  intros [p|e] s1 last _; [|done]. apply sp_bind, (sp_promote _ _ _ (fun _ _ => True)); [done|].
  intros p2 s2 _ _ _. apply sp_bind.
  assert (Hend : forall p s3, sp (follow_tip rounds version set ov options head p) (fun _ _ _ => True) s3 last).
  { intros p0 s3. eapply sp_mono; [|done]. apply (sp_framed ws_call _ _ _ _ (fun _ _ => True)); [|intros e; apply ws_requests].
    eapply sp_mono; [by apply (follow_tip_gate rounds False)|done]. }
  unfold retro_pass. destruct version; [apply sp_ret, Hend|].
  apply sp_bind, sp_database. destruct (reevaluate_revocation_against_set _ _). apply sp_ret, Hend.
Qed.
End requests.

(** The heads a run was given. *)
Definition head_of (options : SyncOptions) (evs : list (call Ans)) (head : Z) : Prop :=
  until_block options = Some head \/ exists s1 : SV, existT (mkPending GetBlockNumber s1) (Ok head) ∈ evs.

Definition u64_heads : call Ans -> Prop := typed (fun _ => True).

Lemma u64_heads_typed options evs : Forall u64_heads evs -> Forall (typed (head_of options evs)) evs.
Proof.
  rewrite !Forall_forall. intros Hf [[q s0] r] Hin. specialize (Hf _ Hin). destruct q; try done.
  intros n Hr. split; [by apply Hf|]. right. exists s0. simpl in Hr. by rewrite <- Hr.
Qed.

Lemma sync_path_requests version heads rounds ov options (s : SV) :
  (forall b, until_block options = Some b -> 0 <= b <= U64_MAX /\ heads b) ->
  sp (typed heads) (request_ok version heads) last_request (sync_path rounds version ov options) (fun _ _ _ => True) s
    (start_cursor env version options (stored version (sdb s))).
Proof.
  intros Hub. set (start := start_cursor _ _ _ _).
  apply (sync_path_entry _ _ _ (fun _ last => last = start)); try done.
  - by intros [] _ t Hq _.
  - by intros [] r _ t Hp ->.
  - intros head set t start' _ Hh Hs ->.
    assert (Hhd : 0 <= head <= U64_MAX /\ heads head) by (destruct Hh as [Hh|Hh]; [by apply Hub|by apply (Hh head)]).
    apply run_stages_requests; [by apply Hhd|lia|lia].
Qed.

Lemma consecutive_reaches {A} version heads (p p' : prog Ans A) evs Q last :
  reaches p evs p' -> Forall (typed heads) evs -> rwp (typed heads) (request_ok version heads) last_request p Q last ->
  consecutive last (omap log_request evs)
  /\ Forall (fun c => forall k v from to, pd_call (projT1 c) = GetLogs k v from to ->
       resolve_contract load_deployed_address env version = Ok k /\ v = vault_id
       /\ exists head, heads head /\ to <= head) evs.
Proof.
  intros Hr. revert last. induction Hr as [p|e k r evs p' Hr IH]; intros last Ht Hw; [by split|].
  apply Forall_cons in Ht as [Ht1 Ht]. destruct Hw as [Hp Hk].
  destruct (IH _ Ht (Hk r Ht1)) as [Hc Hf]. split.
  - simpl. unfold log_request at 1. unfold last_request, log_request in Hc. unfold request_ok in Hp. simpl in *.
    destruct (pd_call e); try exact Hc. destruct Hp as (_ & _ & H1 & H2 & _). split; [exact H1|split; [exact H2|exact Hc]].
  - constructor; [|exact Hf]. intros k0 v from to Hq. simpl in Hq. unfold request_ok in Hp. rewrite Hq in Hp.
    by destruct Hp as (? & ? & _ & _ & ?).
Qed.

(** Every request lies above the starting cursor and below the head. *)
Lemma requests_of_run version rounds ov options (s : SV) evs p' :
  (forall b, until_block options = Some b -> 0 <= b <= U64_MAX) ->
  reaches (sync_path rounds version ov options s) evs p' -> Forall u64_heads evs ->
  let start := start_cursor env version options (stored version (sdb s)) in
  consecutive start (omap log_request evs)
  /\ Forall (fun c => forall k v from to, pd_call (projT1 c) = GetLogs k v from to ->
       resolve_contract load_deployed_address env version = Ok k /\ v = vault_id /\ start < from
       /\ exists head, head_of options evs head /\ to <= head) evs.
Proof.
  intros Hub Hr Ht start. apply (u64_heads_typed options) in Ht.
  destruct (consecutive_reaches version (head_of options evs) _ _ _ _ _ Hr Ht
    (sync_path_requests version (head_of options evs) rounds ov options s
       (fun b Hb => conj (Hub b Hb) (or_introl Hb)))) as [Hc Hf].
  split; [exact Hc|]. fold start in Hc.
  assert (Hlow : forall evs' last, consecutive last (omap log_request evs') ->
    Forall (fun c => forall k v from to, pd_call (projT1 c) = GetLogs k v from to -> last < from) evs').
  { clear. induction evs' as [|c evs IH]; intros last Hc; [done|]. constructor.
    - intros k v from to Hq. simpl in Hc. unfold log_request at 1 in Hc. rewrite Hq in Hc. destruct Hc as [-> _]. lia.
    - simpl in Hc. destruct (log_request c) as [[from to]|]; [|by apply IH]. destruct Hc as (H1 & H2 & Hc).
      apply IH in Hc. eapply Forall_impl; [exact Hc|]. intros c' H k v f t' Hq. specialize (H _ _ _ _ Hq). lia. }
  apply Hlow in Hc. rewrite Forall_forall in Hc. rewrite Forall_forall in Hf. apply Forall_forall. intros c Hin k v from to Hq.
  destruct (Hf c Hin _ _ _ _ Hq) as (? & ? & ?). split_and!; [done|done|by apply (Hc c Hin _ _ _ _ Hq)|done].
Qed.

(** What a sync asks for.  In every run, whatever the node answers, the log
    requests are for the resolved contract and the synced vault; the first
    starts right above the starting cursor (the stored checkpoint, the genesis
    cursor when there is none or when it is asked for), each later one right
    above the end of the one before, none is wider than a chunk and none passes
    a head the run was given.  So a block at or below the starting cursor is
    never asked for. *)
Theorem requests_consecutive version rounds ov options (s : SV) evs p' :
  (forall b, until_block options = Some b -> 0 <= b <= U64_MAX) ->
  reaches (sync_path rounds version ov options s) evs p' -> Forall u64_heads evs ->
  let start := start_cursor env version options (stored version (sdb s)) in
  consecutive start (omap log_request evs)
  /\ Forall (fun c => forall k v from to, pd_call (projT1 c) = GetLogs k v from to ->
       resolve_contract load_deployed_address env version = Ok k /\ v = vault_id /\ start < from
       /\ exists head, head_of options evs head /\ to <= head) evs.
Proof. apply requests_of_run. Qed.

(** ** A sync that nothing disturbs *)

Section healthy.
Context (version : RevisionLogVersion) (contract start : Z).
Hypothesis contract_resolved : resolve_contract load_deployed_address env version = Ok contract.

(** Every call is answered, by the right chain, with a head at or above the
    starting cursor and with events that fit the tables. *)
Definition healthy (c : call Ans) : Prop :=
  ~ unhealthy c
  /\ match pd_call (projT1 c) as q return SyncAnswer q -> Prop with
     | GetBlockNumber => fun r => forall n, r = Ok n -> start <= n <= I64_MAX
     | GetLogs k _ _ _ => fun r => forall logs ev, r = Ok logs ->
         ev ∈ (verify_logs vault_id k logs).1 -> storable (vre_event ev)
     | _ => fun _ => True
     end (projT2 c).

Notation fits := (fun b _ : Z => is_Some (i64_try_from b)).

Lemma healthy_may_fail : ~ may_fail healthy.
Proof. by intros (c & [Hn _] & Hu). Qed.

Lemma healthy_fits k from to (s : SV) logs ev :
  healthy (existT (mkPending (GetLogs k vault_id from to) s) (Ok logs)) ->
  ev ∈ (verify_logs vault_id k logs).1 -> storable (vre_event ev) -> is_Some (i64_try_from (ev_block ev)).
Proof. by intros _ _ [? _]. Qed.

Lemma i64_fits b : 0 <= b <= I64_MAX -> i64_try_from b = Some b.
Proof. intros Hb. apply try_from_Some. unfold I64_MIN. lia. Qed.

Lemma update_checkpoint_ok b d :
  0 <= b <= I64_MAX -> (forall c, stored version d = Some c -> 0 <= c <= b) ->
  exists d', (d'' ← match version with
                   | V1 => update_last_synced_block_v1 b d
                   | V2 => update_last_synced_block_v2 b d
                   end; Ok (d'', tt)) = (Ok (d', tt) : store_result _).
Proof.
  intros Hb Hst.
  assert (Hr : read_checkpoint (stored version d) = Ok (stored version d)).
  { unfold read_checkpoint. destruct (stored version d) as [c|]; [|done].
    replace (u64_try_from c) with (Some c); [done|]. symmetry. apply try_from_Some.
    specialize (Hst c eq_refl). unfold I64_MAX, U64_MAX in *. lia. }
  assert (Hn : exists nx, next_checkpoint (stored version d) b = Ok nx).
  { pose proof (next_checkpoint_spec (stored version d) b (proj1 Hb)) as Hspec.
    destruct (next_checkpoint _ _) as [nx|e]; [by eexists|].
    assert (default 0 (stored version d) <= b) by (destruct (stored version d); simpl; [by apply Hst|lia]).
    destruct Hspec as [[_ ?]|[_ ?]]; lia. }
  destruct Hn as [nx Hn]. unfold update_last_synced_block_v1, update_last_synced_block_v2, last_synced_block_v1, last_synced_block_v2.
  unfold stored in Hr, Hn. destruct version; rewrite Hr; unfold mbind at 2, result_bind at 2; rewrite Hn; by eexists.
Qed.

(** The stored checkpoint does not pass the cursor. *)
Definition behind (p : Progress) (s : SV) : Prop :=
  (forall c, stored version (sdb s) = Some c -> 0 <= c <= cursor p)
  /\ (start < cursor p -> stored version (sdb s) = Some (cursor p)).

Notation pre := (fun (_ : Pend) (_ : unit) => True).
Notation upd := (fun (_ : call Ans) (_ : unit) => tt).

Lemma chunk_healthy set head p (s : SV) Q :
  0 <= start <= cursor p -> cursor p < head <= I64_MAX -> behind p s -> detector_ok fits (detector p) ->
  (forall p' s', cursor p' = chunk_end head p -> behind p' s' -> detector_ok fits (detector p') -> Q (Ok p') s' tt) ->
  sp healthy pre upd (backfill_chunk wall clock self_vault_id canonical_hash open_payload load_deployed_address
    rpc_url env vault_id version set head p) Q s tt.
Proof using contract_resolved.
  intros Hs Hh [Hb1 Hb2] Hd HQ.
  assert (Hce : cursor p < chunk_end head p <= I64_MAX).
  { unfold chunk_end, chunk_start, saturating_sub, saturating_add, LOG_BLOCK_CHUNK, U64_MAX, I64_MAX in *. lia. }
  assert (Hmove : forall s' : SV, checkpoints (sdb s') = checkpoints (sdb s) ->
    forall c, stored version (sdb s') = Some c -> 0 <= c <= chunk_end head p).
  { intros s' Hck c. rewrite (stored_checkpoints _ _ _ Hck). intros Hc. specialize (Hb1 c Hc). lia. }
  apply (sp_chunk healthy pre upd (fun _ _ => True) (fun _ => True) fits); try done.
  - by intros q s0 r [] _.
  - apply healthy_fits.
  - intros e s' [Hck _] Hf. exfalso. destruct Hf as [e [Hx|Hx]|k c from to s0 logs ev Hr Hin Hns|k b h HR Hn|k Hn|k Hn].
    + by rewrite contract_resolved in Hx.
    + by apply healthy_may_fail in Hx.
    + destruct Hr as [_ Hr]. by apply Hns, (Hr logs ev).
    + rewrite Hn in HR. by destruct HR.
    + rewrite i64_fits in Hn; [done|]. unfold saturating_sub, CONFIRMATION_DEPTH_FOR_FINALIZATION. lia.
    + destruct (update_checkpoint_ok (chunk_end head p) (sdb s')) as [d' Hd']; [lia|by apply Hmove|]. congruence.
  - intros p' s' (k & logs & s1 & s0 & _ & _ & [Hck _] & Hu & Hd' & Hcur & _).
    apply update_checkpoint_inv in Hu as (_ & Hst & _); [|lia].
    apply HQ; [done| |done]. unfold behind. rewrite Hcur, Hst. split; [|done]. intros c [= <-]. lia.
Qed.

Lemma backfill_healthy fuel set head p (s : SV) Q :
  0 <= start <= cursor p -> cursor p <= head <= I64_MAX -> (chunks_of (cursor p) head <= fuel)%nat ->
  behind p s -> detector_ok fits (detector p) ->
  (forall p' s', cursor p' = head -> behind p' s' -> Q (Ok p') s' tt) ->
  sp healthy pre upd (backfill fuel version set head p) Q s tt.
Proof using contract_resolved.
  intros Hs Hh Hfuel Hb Hd HQ. revert p s Hs Hh Hfuel Hb Hd. induction fuel as [|fuel IH]; intros p s Hs Hh Hfuel Hb Hd; simpl.
  { exfalso. unfold chunks_of, LOG_BLOCK_CHUNK in Hfuel.
    pose proof (Z.div_pos (head - cursor p) 9000 ltac:(lia) ltac:(lia)). lia. }
  destruct (cursor p <? head) eqn:E; zbool; [|apply sp_ret, HQ; [lia|done]].
  apply sp_bind, chunk_healthy; [lia|lia|done|done|]. intros p' s' Hcur Hb' Hd'.
  assert (Hce : chunk_end head p = Z.min (cursor p + LOG_BLOCK_CHUNK) head).
  { unfold chunk_end, chunk_start, saturating_sub, saturating_add, LOG_BLOCK_CHUNK, U64_MAX, I64_MAX in *. lia. }
  destruct (head <=? cursor p') eqn:Ele; zbool; [apply sp_ret, HQ; [lia|done]|].
  unfold chunks_of, LOG_BLOCK_CHUNK in *. assert (Hp' : cursor p' = cursor p + 9000) by lia.
  apply IH; try done; [lia|lia|]. rewrite Hp'. pose proof (Z.div_pos (head - (cursor p + 9000)) 9000 ltac:(lia) ltac:(lia)).
  replace ((head - cursor p) / 9000) with ((head - (cursor p + 9000)) / 9000 + 1) in Hfuel; [lia|].
  replace (head - cursor p) with (head - (cursor p + 9000) + 1 * 9000) by lia. by rewrite Z.div_add by lia.
Qed.
Lemma last_block_bump c n r : last_block_synced (bump c n r) = last_block_synced r.
Proof. by destruct r, c. Qed.
Lemma last_block_set b r : last_block_synced (set_last_block b r) = b.
Proof. by destruct r. Qed.

(** The end of an undisturbed sync. *)
Definition completed (head : Z) (r : result SyncError SyncReport) (s' : SV) : Prop :=
  exists rep, r = Ok rep /\ last_block_synced rep = head
  /\ (start < head -> stored version (sdb s') = Some head).

Lemma run_stages_healthy rounds ov options head set (s : SV) :
  prefer_websocket options && bool_decide (until_block options = None) = false ->
  0 <= start <= head -> head <= I64_MAX ->
  (forall c, stored version (sdb s) = Some c -> 0 <= c <= start) ->
  sp healthy pre upd (run_stages rounds version ov options start head set) (fun r s' _ => completed head r s') s tt.
Proof using contract_resolved.
  intros Hws Hs Hmax Hst.
  assert (Hnone : i64_try_from (saturating_sub head CONFIRMATION_DEPTH_FOR_FINALIZATION) <> None).
  { rewrite i64_fits; [done|]. unfold saturating_sub, CONFIRMATION_DEPTH_FOR_FINALIZATION. lia. }
  apply sp_bind, backfill_healthy; simpl; [lia|lia|done|split; simpl; [done|lia]|apply new_detector_ok|].
  intros p s1 Hcur Hb. apply sp_bind, (sp_promote healthy pre upd (fun _ _ => True)); [done|].
  intros p2 s2 [Hck _] _ _. apply sp_bind.
  assert (Hend : forall p3 (s3 : SV), last_block_synced (report p3) = head -> checkpoints (sdb s3) = checkpoints (sdb s1) ->
    sp healthy pre upd (follow_tip rounds version set ov options head p3) (fun r s' _ => completed head r s') s3 tt).
  { intros p3 s3 Hl Hck3. unfold ChainSync.follow_tip. rewrite Hws. apply sp_ret. exists (report p3).
    split_and!; [done|done|]. intros Hlt. rewrite (stored_checkpoints _ _ _ Hck3).
    destruct Hb as [_ Hb]. rewrite Hcur in Hb. by apply Hb. }
  unfold retro_pass. destruct version; [apply sp_ret, Hend; [apply last_block_set|done]|].
  apply sp_bind, sp_database.
  pose proof (reevaluate_tables [] (fun _ => 0) set s2) as [Hrc _].
  destruct (reevaluate_revocation_against_set set (sdb s2)) as [d' n].
  apply sp_ret, Hend; [cbn; by rewrite last_block_bump, last_block_set|]. simpl in Hrc |- *. by rewrite Hrc.
Qed.
End healthy.

(** C36. An undisturbed sync completes.  When the contract is deployed, the sync
    does not follow the tip and starts from a stored checkpoint that fits its
    column, and the node answers every call, from the right chain, with a head
    at or above the start and with events that fit the tables, every run that
    ends returns a report.  It names the head it was given, and the stored
    checkpoint is that head when there was anything to do: no error of the
    store, no reorganisation and no roll-back gets in the way, and the fuel of
    the loops is enough. *)
Theorem healthy_sync_completes version contract rounds ov options (s : SV) evs r s' :
  resolve_contract load_deployed_address env version = Ok contract ->
  prefer_websocket options && bool_decide (until_block options = None) = false ->
  from_genesis options = false ->
  (forall c, stored version (sdb s) = Some c -> 0 <= c <= I64_MAX) ->
  let start := start_cursor env version options (stored version (sdb s)) in
  (forall b, until_block options = Some b -> start <= b <= I64_MAX) ->
  reaches (sync_path rounds version ov options s) evs (Ret (r, s')) -> Forall (healthy start) evs ->
  exists rep, r = Ok rep /\ start <= last_block_synced rep
    /\ (until_block options = Some (last_block_synced rep) \/ exists s1 : SV,
          existT (mkPending GetBlockNumber s1) (Ok (last_block_synced rep)) ∈ evs)
    /\ (start < last_block_synced rep -> stored version (sdb s') = Some (last_block_synced rep)).
Proof.
  intros Hk Hws Hg Hst start Hub Hr Hh.
  assert (Hsp : sp (fun c => healthy start c /\ c ∈ evs) (fun _ _ => True) (fun _ _ => tt) (sync_path rounds version ov options)
    (fun r s' _ => exists head, completed version start head r s' /\ start <= head
       /\ (until_block options = Some head \/ exists s1 : SV, existT (mkPending GetBlockNumber s1) (Ok head) ∈ evs)) s tt).
  { apply (sync_path_entry _ _ _ (fun _ _ => True)); try done.
    - intros e t [Hf|[[Hf ->]|[Hf|(head & Hlt & Hf)]]] _; exfalso.
      + destruct Hf as (c & [[Hn _] _] & Hu). by apply Hn.
      + by rewrite Hk in Hf.
      + destruct (stored version (sdb s)) as [c|] eqn:Es; [|done]. rewrite read_checkpoint_Some in Hf; [done|by apply Hst].
      + fold start in Hlt. destruct Hf as [Hf|[[_ Hf] _]]; [apply Hub in Hf; lia|]. specialize (Hf head eq_refl). lia.
    - intros head set [] start' Hpos Hhd Hs _. fold start in start'. subst start'.
      assert (Hmax : head <= I64_MAX).
      { destruct Hhd as [Hhd|[[_ Hhd] _]]; [by apply Hub|by apply (Hhd head)]. }
      assert (Hstart : forall c, stored version (sdb s) = Some c -> 0 <= c <= start).
      { intros c Hc. unfold start, start_cursor. rewrite Hg, Hc. simpl. specialize (Hpos c Hc). lia. }
      pose proof (run_stages_healthy version contract start Hk rounds ov options head set s Hws Hs Hmax Hstart) as Hrun.
      eapply sp_mono; [eapply (rwp_rely _ (healthy start)); [by intros c [? _]|exact Hrun]|].
      intros r0 s0 [] Hc. exists head. split_and!; [done|lia|]. destruct Hhd as [?|[_ ?]]; [by left|right; by eexists]. }
  eapply sp_reaches in Hsp; [|exact Hr|]; [|rewrite Forall_forall in Hh |- *; intros c Hc; split; [by apply Hh|done]].
  destruct Hsp as (head & (rep & Hrep & Hl & Hdone) & Hle & Hhd). simpl in *. exists rep. rewrite Hl. done.
Qed.

(** ** Starting over *)

(** The head is a [u64] above the genesis cursor. *)
Definition head_above (first : Z) (c : call Ans) : Prop :=
  match pd_call (projT1 c) as q return SyncAnswer q -> Prop with
  | GetBlockNumber => fun r => forall n, r = Ok n -> first < n <= U64_MAX
  | _ => fun _ => True
  end (projT2 c).

Lemma run_stages_refused (rely : call Ans -> Prop) version rounds ov options start head set c (s : SV) :
  0 <= start < head -> head <= U64_MAX -> start + LOG_BLOCK_CHUNK < c -> stored version (sdb s) = Some c ->
  sp rely (fun (e : Pend) (_ : unit) => stored version (sdb (pd_vault e)) = Some c) (fun _ _ => tt)
    (run_stages rounds version ov options start head set)
    (fun r s' _ => stored version (sdb s') = Some c /\ is_ok r = false) s tt.
Proof.
  intros Hs Hmax Hc Hst. unfold ChainSync.run_stages. apply sp_bind.
  assert (Hfuel : exists n, chunks_of start head = S n).
  { unfold chunks_of, LOG_BLOCK_CHUNK. pose proof (Z.div_pos (head - start) 9000 ltac:(lia) ltac:(lia)).
    exists (pred (Z.to_nat ((head - start) / 9000 + 1))). lia. }
  destruct Hfuel as [n ->]. simpl. replace (start <? head) with true by (symmetry; apply Z.ltb_lt; lia).
  set (p := mkProgress empty_report new_detector start).
  assert (Hce : 0 <= chunk_end head p < c).
  { unfold chunk_end, chunk_start, saturating_sub, saturating_add, LOG_BLOCK_CHUNK, U64_MAX in *. simpl. lia. }
  apply sp_bind. apply (sp_chunk rely _ _ (fun s _ => stored version (sdb s) = Some c) (fun _ => True) (fun _ _ => True)); try done.
  - by intros q s0 r [] _.
  - intros s0 s1 [] H [Hck _]. by rewrite (stored_checkpoints _ _ _ Hck).
  - intros e s' [Hck _] _. split; [by rewrite (stored_checkpoints _ _ _ Hck)|done].
  - intros p' s' (k & logs & s1 & s0 & _ & _ & [Hck _] & Hu & _). exfalso.
    apply update_checkpoint_inv in Hu as (_ & _ & Hle); [|lia].
    specialize (Hle c). rewrite (stored_checkpoints _ _ _ Hck) in Hle. specialize (Hle Hst). lia.
Qed.

(** Starting over from genesis is refused.  A sync asked to ignore a
    stored checkpoint that lies more than one chunk above the genesis cursor
    never returns a report, whatever the node answers above that cursor: its
    first chunk is read and ingested, and then the checkpoint refuses to move
    backward.  The stored checkpoint keeps its value throughout. *)
Theorem genesis_resync_refused version rounds ov options (s : SV) c evs p' :
  from_genesis options = true -> stored version (sdb s) = Some c ->
  first_cursor env version + LOG_BLOCK_CHUNK < c ->
  (forall b, until_block options = Some b -> first_cursor env version < b <= U64_MAX) ->
  reaches (sync_path rounds version ov options s) evs p' -> Forall (head_above (first_cursor env version)) evs ->
  stored version (sdb (vault_at p')) = Some c /\ forall rep s', p' <> Ret (Ok rep, s').
Proof.
  intros Hg Hst Hc Hub Hr Hh.
  assert (Hsp : sp (head_above (first_cursor env version)) (fun e (_ : unit) => stored version (sdb (pd_vault e)) = Some c)
    (fun _ _ => tt) (sync_path rounds version ov options)
    (fun r s' _ => stored version (sdb s') = Some c /\ is_ok r = false) s tt).
  { apply (sync_path_entry _ _ _ (fun _ _ => True)); try done.
    intros head set [] start _ Hhd Hs _. unfold start, start_cursor in *. rewrite Hg in *.
    assert (first_cursor env version < head <= U64_MAX).
    { destruct Hhd as [Hhd|Hhd]; [by apply Hub|by apply (Hhd head)]. }
    by apply run_stages_refused; try lia. }
  eapply sp_reaches in Hsp; [|exact Hr|exact Hh]. destruct p' as [[r s']|e k]; simpl in *.
  - destruct Hsp as [H1 H2]. split; [done|]. intros rep s1 [= -> _]. done.
  - by destruct Hsp.
Qed.

(** ** Web-socket events and the checkpoint *)

Section tip.
Context (contract head : Z) (set : list Z).

(** The blocks of the verified events that arrived. *)
Definition arrived (c : call Ans) (blocks : list Z) : list Z :=
  match pd_call (projT1 c) as q return SyncAnswer q -> list Z with
  | Recv => fun r =>
      match r with
      | Some (Event l) => match verify_alloy_log l vault_id contract with Some ev => ev_block ev :: blocks | None => blocks end
      | _ => blocks
      end
  | _ => fun _ => blocks
  end (projT2 c).

Notation sp := (sp (fun _ => True) (fun _ _ => True) arrived).

(** The cursor has passed every event that arrived above the head, and is the
    stored checkpoint when it has left the head. *)
Definition passed (p : Progress) (s : SV) (blocks : list Z) : Prop :=
  0 <= cursor p
  /\ (head < cursor p -> stored V1 (sdb s) = Some (cursor p))
  /\ (forall b, b ∈ blocks -> head < b -> b <= cursor p).

Lemma ws_event_passed l p (s : SV) blocks (Q : result SyncError (Progress * bool) -> SV -> list Z -> Prop) :
  passed p s blocks ->
  (forall e s', Q (Err e) s' (arrived (existT (mkPending Recv s) (Some (Event l))) blocks)) ->
  (forall p' b s', passed p' s' (arrived (existT (mkPending Recv s) (Some (Event l))) blocks) ->
     Q (Ok (p', b)) s' (arrived (existT (mkPending Recv s) (Some (Event l))) blocks)) ->
  sp (ws_event wall clock self_vault_id canonical_hash open_payload vault_id V1 set contract l p) Q s
    (arrived (existT (mkPending Recv s) (Some (Event l))) blocks).
Proof.
  intros (Hpos & Hst & Hbl) He HQ. unfold ws_event. unfold arrived in *. simpl in *.
  destruct (verify_alloy_log l vault_id contract) as [ev|]; [|by apply sp_ret, HQ].
  apply sp_bind, sp_event. intros r s1 Hev. destruct Hev as [p1 s1 _ _ Hck _ _ _ Hcu|]; [|apply He].
  fold (ev_block ev). change (cursor (count Pulled 1 p)) with (cursor p) in Hcu. rewrite Hcu.
  assert (Hst1 : stored V1 (sdb s1) = stored V1 (sdb s)) by by apply stored_checkpoints.
  destruct (cursor p <? ev_block ev) eqn:E; zbool.
  - apply sp_bind, sp_database. destruct (_ ≫= _) as [[d' []]|k] eqn:Eu; [|apply He].
    apply (update_checkpoint_inv V1) in Eu as (_ & Hnew & _); [|lia].
    apply sp_ret, HQ. split_and!; [simpl; lia|done|]. intros b [->|Hin]%elem_of_cons Hb; simpl; [lia|].
    specialize (Hbl b Hin Hb). lia.
  - apply sp_ret, HQ. unfold passed. rewrite Hcu, Hst1. split_and!; [done|done|].
    intros b [->|Hin]%elem_of_cons Hb; [lia|by apply Hbl].
Qed.

Lemma ws_session_passed rounds url deadline inside st (s : SV) blocks :
  passed (ws_progress st) s blocks ->
  sp (ws_session rounds V1 set url contract deadline inside st)
    (fun r s' blocks' => forall st', r = Ok st' -> passed (ws_progress st') s' blocks') s blocks.
Proof.
  revert inside st s blocks. induction rounds as [|rounds IH]; intros inside st s blocks Hp; simpl.
  { apply sp_ret. by intros st' [= <-]. }
  apply sp_bind, sp_call; [done|]. intros now _. change (arrived _ blocks) with blocks. destruct inside as [ingested|].
  - destruct (deadline <=? now); [apply sp_ret; by intros st' [= <-]|].
    apply sp_bind, sp_call; [done|]. intros [[log|]|] _; [| |apply sp_ret; by intros st' [= <-]].
    + apply sp_bind, ws_event_passed; [done|done|]. intros p b s' Hp'. by apply IH.
    + destruct ingested; by apply IH.
  - destruct (_ && _); [|apply sp_ret; by intros st' [= <-]].
    set (next := fun _ : unit => open_subscription env vault_id url contract ≫= _ : sprog WsState).
    assert (Hopen : sp (next tt) (fun r s' blocks' => forall st', r = Ok st' -> passed (ws_progress st') s' blocks') s blocks).
    { apply sp_bind, sp_open_subscription; [by intros []|]. intros []; by apply IH. }
    apply sp_bind. destruct (0 <? backoff_ms st); [|apply sp_ret; exact Hopen].
    apply sp_call; [done|]. intros [] _. exact Hopen.
Qed.

Lemma follow_tip_passed rounds ov options p (s : SV) blocks :
  resolve_contract load_deployed_address env V1 = Ok contract -> passed p s blocks ->
  sp (follow_tip rounds V1 set ov options head p)
    (fun r s' blocks' => is_ok r = true -> exists p', passed p' s' blocks') s blocks.
Proof.
  intros Hk Hp. unfold ChainSync.follow_tip. destruct (negb _); [apply sp_ret; by exists p|].
  rewrite Hk. destruct (match ov with Some _ => _ | None => _ end) as [url|]; [|apply sp_ret; by exists p].
  apply sp_bind, sp_call; [done|]. intros now _. change (arrived _ blocks) with blocks. apply sp_bind.
  eapply sp_mono; [by apply ws_session_passed|]. intros [st|e] s1 blocks1 H1; [|done].
  destruct (ws_path_used st); [|apply sp_ret; intros _; by eexists; apply H1].
  apply sp_bind, (sp_promote _ _ _ (fun _ _ => True)); [done|].
  intros p2 s2 [Hck _] _ _. apply sp_ret. intros _. exists (ws_progress st).
  destruct (H1 st eq_refl) as (H2 & H3 & H4). split_and!; [done| |done]. by rewrite (stored_checkpoints _ _ _ Hck).
Qed.
End tip.

Lemma run_stages_passed contract rounds ov options start head set (s : SV) :
  resolve_contract load_deployed_address env V1 = Ok contract -> 0 <= start <= head ->
  sp (fun _ => True) (fun _ _ => True) (arrived contract) (run_stages rounds V1 ov options start head set)
    (fun r s' blocks => is_ok r = true -> exists p', passed head p' s' blocks) s [].
Proof.
  intros Hk Hs. apply sp_bind. eapply sp_mono.
  { apply (sp_framed backfill_call); [by apply backfill_plain, new_detector_ok|].
    intros [q s0] Hq. split; [done|]. by destruct q. }
  intros [p|e] s1 blocks [-> Hp]; [|done]. specialize (Hp p eq_refl).
  apply sp_bind, (sp_promote _ _ _ (fun _ _ => True)); [done|]. intros p2 s2 _ _ Hcu.
  apply sp_bind, sp_ret, (follow_tip_passed contract head); [done|].
  split_and!; simpl; [lia|lia|]. by intros b ?%elem_of_nil.
Qed.

Lemma elem_of_arrived contract l ev (s1 : SV) evs blocks :
  verify_alloy_log l vault_id contract = Some ev ->
  existT (mkPending Recv s1) (Some (Event l)) ∈ evs \/ ev_block ev ∈ blocks ->
  ev_block ev ∈ foldl (fun blocks c => arrived contract c blocks) blocks evs.
Proof.
  intros Hv. revert blocks. induction evs as [|c evs IH]; intros blocks; simpl; [set_solver|].
  intros [[<-|Hin]%elem_of_cons|Hin]; apply IH; [right|by left|right].
  - unfold arrived. simpl. rewrite Hv. by left.
  - unfold arrived. destruct c as [[q s0] r]. destruct q; try done. simpl in *.
    destruct r as [[l'|]|]; try done. destruct (verify_alloy_log l' vault_id contract); [by right|done].
Qed.

(** A web-socket event drags the checkpoint over blocks nobody read.  Let a
    V1 sync succeed in which a verified event arrived over the web socket from
    a block above every head the run was given.  No log request of the run
    reached past a head; the stored checkpoint has reached the event's block;
    and no later sync from the checkpoint, in any run, asks for that block or
    one below it.  So a revision published between the head and the event, or
    by another log of the event's block, that the subscription did not deliver
    is never pulled. *)
Theorem ws_event_skips_blocks contract rounds ov options (s : SV) evs rep s' l ev s1 :
  resolve_contract load_deployed_address env V1 = Ok contract ->
  (forall b, until_block options = Some b -> 0 <= b <= U64_MAX) ->
  reaches (sync_path rounds V1 ov options s) evs (Ret (Ok rep, s')) -> Forall u64_heads evs ->
  existT (mkPending Recv s1) (Some (Event l)) ∈ evs -> verify_alloy_log l vault_id contract = Some ev ->
  (forall head, head_of options evs head -> head < ev_block ev) ->
  Forall (fun c => forall k v from to, pd_call (projT1 c) = GetLogs k v from to ->
     exists head, head_of options evs head /\ to <= head) evs
  /\ (exists c, stored V1 (sdb s') = Some c /\ ev_block ev <= c)
  /\ (forall rounds2 ov2 options2 evs2 p2,
        from_genesis options2 = false -> (forall b, until_block options2 = Some b -> 0 <= b <= U64_MAX) ->
        reaches (sync_path rounds2 V1 ov2 options2 s') evs2 p2 -> Forall u64_heads evs2 ->
        Forall (fun c => forall k v from to, pd_call (projT1 c) = GetLogs k v from to -> ev_block ev < from) evs2).
Proof.
  intros Hk Hub Hr Ht Hin Hv Hlt.
  assert (Hst : exists c, stored V1 (sdb s') = Some c /\ ev_block ev <= c).
  { assert (Hsp : sp (fun c => c ∈ evs) (fun _ _ => True) (arrived contract) (sync_path rounds V1 ov options)
      (fun r s' blocks => is_ok r = true -> exists head p', head_of options evs head /\ passed head p' s' blocks) s []).
    { apply (sync_path_entry _ _ _ (fun _ blocks => blocks = [])); try done.
      - intros q r _ t Hp ->. by destruct q.
      - intros head set blocks start _ Hh Hs ->. eapply sp_mono.
        { exact (rwp_rely _ _ _ _ _ _ _ (fun _ _ => I) (run_stages_passed contract rounds ov options start head set s Hk Hs)). }
        intros r0 s0 blocks Hp Hok. destruct (Hp Hok) as [p' Hp']. exists head, p'. split; [|done].
        destruct Hh as [Hh|Hh]; [by left|right; by eexists]. }
    eapply sp_reaches in Hsp; [|exact Hr|by apply Forall_forall].
    destruct (Hsp eq_refl) as (head & p' & Hh & _ & Hp1 & Hp2). specialize (Hlt head Hh).
    assert (Hle : ev_block ev <= cursor p').
    { apply Hp2; [|done]. eapply elem_of_arrived; [exact Hv|by left]. }
    exists (cursor p'). split; [apply Hp1; lia|done]. }
  split_and!; [|exact Hst|].
  - destruct (requests_of_run V1 rounds ov options s evs _ Hub Hr Ht) as [_ Hf].
    eapply Forall_impl; [exact Hf|]. intros c H k v from to Hq. by destruct (H k v from to Hq) as (_ & _ & _ & ?).
  - intros rounds2 ov2 options2 evs2 p2 Hg Hub2 Hr2 Ht2. destruct Hst as (c & Hc & Hle).
    destruct (requests_of_run V1 rounds2 ov2 options2 s' evs2 _ Hub2 Hr2 Ht2) as [_ Hf].
    eapply Forall_impl; [exact Hf|]. intros c' H k v from to Hq. destruct (H k v from to Hq) as (_ & _ & Hs & _).
    unfold start_cursor in Hs. rewrite Hg, Hc in Hs. simpl in Hs. lia.
Qed.
End sync.

(** ** Witnesses *)

Module SyncSample.
Import AccountSample ChainSample.

(** A log of block [b] with the event signed by 10, and a node whose chain is
    the given logs; [pushed n] is what the web socket delivers as the [n]-th
    call. *)
Definition sample_log (b : Z) : RpcLog :=
  mkRpcLog 77 (Some (mkPublished 0 1 100 3 20 1 [42] 10)) None (Some b) (Some 2) (Some 99) (Some b).

Definition added (signer : Z) : RpcLog :=
  mkRpcLog 77 None (Some (Added signer 0)) (Some 1) (Some 0) (Some 98) (Some 1).

Definition in_blocks (from to : Z) (l : RpcLog) : bool :=
  match rpc_block_number l with Some b => (from <=? b) && (b <=? to) | None => false end.

Notation SPending := (@Pending Z Z unit PressYPresenceProof).

Definition node (chain : list RpcLog) (head : Z) (pushed : nat -> option WsRecvOutcome) (views : bool) (n : nat)
    (e : SPending) : PAnswer e :=
  match pd_call e as q return SyncAnswer q with
  | Connect _ | ConnectWs _ | SubscribeLogs _ _ => Ok tt
  | GetChainId | WsChainId => Ok 1
  | GetBlockNumber => Ok head
  | GetLogs _ _ from to => Ok (List.filter (in_blocks from to) chain)
  | GetDeviceLogs _ _ _ _ => Ok [added 10; added 12]
  | GetBlock b => Ok (Some b)
  | AuthorizedDevice _ _ x => if views then Ok (x =? 10) else Err "no view"%string
  | Recv => pushed n
  | InstantNow => 0
  | Sleep _ => tt
  end.

Definition quiet (n : nat) : option WsRecvOutcome := None.

Definition deployed (v : RevisionLogVersion) (env : ChainEnv) : result ChainError Z := Ok 77.

Notation sample_path := (sync_path sample_clock sample_clock 1 toy_hash toy_open deployed "http://node"%string Dev 1
  (Snapshot := Z) (Index := unit) (P := PressYPresenceProof)).

Definition tip_options : SyncOptions := mkSyncOptions false None true.
Definition poll_options : SyncOptions := mkSyncOptions false None false.

Definition sync_db (v1 v2 : option Z) : Database :=
  set_v2_state v2 (set_v1_state v1 signed_db).
Definition start_vault (v1 v2 : option Z) : SyncVault := mkSyncVault (world_with (sync_db v1 v2)) ∅ None.

(** The chain the samples sync from: an event in block 8. *)
Definition sample_chain : list RpcLog := [sample_log 8].

Definition genesis_options : SyncOptions := mkSyncOptions true None false.
Definition push_at (k : nat) (b : Z) (n : nat) : option WsRecvOutcome :=
  if decide (n = k) then Some (Event (sample_log b)) else None.

Definition run_of (version : RevisionLogVersion) (options : SyncOptions) (head : Z) (pushed : nat -> option WsRecvOutcome)
    (views : bool) (v1 v2 : option Z) :=
  drive (node sample_chain head pushed views) 0 (sample_path 20 version None options (start_vault v1 v2)).

Lemma run_of_reaches version options head pushed views v1 v2 :
  reaches (sample_path 20 version None options (start_vault v1 v2))
    (run_of version options head pushed views v1 v2).1 (run_of version options head pushed views v1 v2).2.
Proof. apply drive_reaches. Qed.

Lemma filter_sample from to l : l ∈ List.filter (in_blocks from to) sample_chain -> l = sample_log 8.
Proof. intros H%list_elem_of_In%filter_In. destruct H as [[<-|[]] _]. done. Qed.

Lemma node_honest head pushed views n e :
  0 <= head <= U64_MAX -> honest sample_chain (fun b => b) (existT e (node sample_chain head pushed views n e)).
Proof.
  intros Hh. destruct e as [q s]. destruct q; try done.
  - intros n0 [= <-]. done.
  - intros logs [= <-]. split.
    + intros l b h ->%filter_sample. simpl. by intros [= <-] [= <-].
    + intros l b Hin Ha Hb Hr. apply list_elem_of_In. refine (proj2 (filter_In (in_blocks _ _) l sample_chain) _).
      split; [by apply (proj1 (list_elem_of_In _ _))|]. unfold in_blocks. rewrite Hb. apply andb_true_iff. rewrite !Z.leb_le. done.
  - by intros h [= <-].
Qed.

Lemma node_heads head pushed views n e :
  0 <= head <= U64_MAX -> u64_heads (existT e (node sample_chain head pushed views n e)).
Proof. intros Hh. destruct e as [q s]. destruct q; try done. intros n0 [= <-]. done. Qed.


Definition pulled : Prop := exists ev, verify_alloy_log (sample_log 8) 1 77 = Some ev
  /\ known toy_hash (vre_event ev) (sdb (vault_at (run_of V1 poll_options 10 quiet true (Some 5) None).2)).

Lemma checkpoint_covers_witness :
  stored V1 (sdb (vault_at (run_of V1 poll_options 10 quiet true (Some 5) None).2)) = Some 10 /\ pulled.
Proof.
  assert (Hst : stored V1 (sdb (vault_at (run_of V1 poll_options 10 quiet true (Some 5) None).2)) = Some 10)
    by (vm_compute; reflexivity).
  split; [exact Hst|]. eexists. split; [reflexivity|].
  apply (checkpoint_covers sample_clock sample_clock 1 toy_hash toy_open deployed "http://node"%string Dev 1
    V1 20 None poll_options (start_vault (Some 5) None) 77 sample_chain (fun b => b)
    (run_of V1 poll_options 10 quiet true (Some 5) None).1 _) with (l := sample_log 8) (c := 10).
  - reflexivity.
  - reflexivity.
  - discriminate.
  - apply run_of_reaches.
  - apply drive_forall. intros n e. apply node_honest. vm_compute. split; discriminate.
  - apply list_elem_of_here.
  - reflexivity.
  - left. reflexivity.
  - exact Hst.
  - vm_compute. split; [reflexivity|discriminate].
Defined.

Definition v2_run := run_of V2 poll_options 10 quiet true None None.

Lemma v2_honors_only_the_set_witness :
  exists k r signer c v s1, t_revisions (sdb (vault_at v2_run.2)) !! k = Some r /\ revoked r = false
    /\ recovered_signer r = Some signer
    /\ existT (mkPending (AuthorizedDevice c v signer) s1) (Ok true) ∈ v2_run.1.
Proof.
  destruct v2_run.2 as [[[rep|e] s']|e k] eqn:Erun; [|vm_compute in Erun; discriminate Erun..].
  set (k := event_id toy_hash (mkRevisionEvent 1 100 3 20 1 0 [42] (mkChainAnchor 99 8 2 0))).
  destruct (t_revisions (sdb s') !! k) as [r|] eqn:Hk.
  2: { exfalso. revert Hk. replace s' with (vault_at v2_run.2) by (rewrite Erun; reflexivity).
       vm_compute. discriminate. }
  assert (Hr : is_Some (row_anchor r) /\ revoked r = false).
  { revert Hk. replace s' with (vault_at v2_run.2) by (rewrite Erun; reflexivity).
    vm_compute. intros [= <-]. split; [eexists; reflexivity|reflexivity]. }
  destruct Hr as [Ha Hrev].
  destruct (v2_honors_only_the_set sample_clock sample_clock 1 toy_hash toy_open deployed "http://node"%string Dev 1
    20 None poll_options (start_vault None None) v2_run.1 rep s') with (k := k) (r := r)
    as (signer & c & v & s1 & H1 & H2).
  - rewrite <- Erun. apply run_of_reaches.
  - exact Hk.
  - exact Ha.
  - exact Hrev.
  - exists k, r, signer, c, v, s1. split; [exact Hk|]. split; [exact Hrev|]. split; [exact H1|exact H2].
Defined.

Definition blind_run := run_of V2 poll_options 10 quiet false None None.

Lemma set_read_fails_closed_witness : exists e, blind_run.2 = Ret (Err (ChainErr e), start_vault None None).
Proof.
  destruct (last blind_run.1) as [c|] eqn:El; [|vm_compute in El; discriminate El].
  destruct (answer_failure Dev c) as [e|] eqn:Ef; [|vm_compute in El; injection El as <-; vm_compute in Ef; discriminate Ef].
  exists e. apply (set_read_fails_closed sample_clock sample_clock 1 toy_hash toy_open deployed "http://node"%string Dev 1
    20 None poll_options (start_vault None None) (removelast blind_run.1) c).
  - replace (removelast blind_run.1 ++ [c]) with blind_run.1; [apply run_of_reaches|].
    apply last_Some in El as [l El]. rewrite El. by rewrite removelast_last.
  - exact Ef.
  - left. vm_compute in El. injection El as <-. vm_compute. reflexivity.
Defined.

Lemma requests_consecutive_witness :
  omap log_request (run_of V1 poll_options 10 quiet true (Some 5) None).1 = [(6, 10)]
  /\ consecutive 5 (omap log_request (run_of V1 poll_options 10 quiet true (Some 5) None).1).
Proof.
  split; [vm_compute; reflexivity|].
  apply (requests_consecutive sample_clock sample_clock 1 toy_hash toy_open deployed "http://node"%string Dev 1
    V1 20 None poll_options (start_vault (Some 5) None) (run_of V1 poll_options 10 quiet true (Some 5) None).1
    (run_of V1 poll_options 10 quiet true (Some 5) None).2).
  - discriminate.
  - apply run_of_reaches.
  - apply drive_forall. intros n e. apply node_heads. vm_compute. split; discriminate.
Defined.

Lemma node_healthy n e : healthy Dev 1 5 (existT e (node sample_chain 10 quiet true n e)).
Proof.
  destruct e as [q s]. destruct q; (split; [|try done]); try (by intros Hx); try done.
  - intros [Hx|(x & y & Hx & _)]; [done|by simpl in Hx].
  - intros k [= <-]. vm_compute. split; discriminate.
  - intros logs ev [= <-]. rewrite verify_logs_events, list_elem_of_omap. intros (l & ->%filter_sample & Hv).
    unfold verify_alloy_log in Hv. destruct (negb _) in Hv; [done|]. vm_compute in Hv.
    injection Hv as <-. split; eexists; vm_compute; reflexivity.
Qed.

Lemma healthy_sync_completes_witness :
  exists rep s', (run_of V1 poll_options 10 quiet true (Some 5) None).2 = Ret (Ok rep, s')
    /\ 5 <= last_block_synced rep
    /\ (5 < last_block_synced rep -> stored V1 (sdb s') = Some (last_block_synced rep)).
Proof.
  destruct (run_of V1 poll_options 10 quiet true (Some 5) None).2 as [[r s']|e k] eqn:Erun;
    [|vm_compute in Erun; discriminate Erun].
  destruct (healthy_sync_completes sample_clock sample_clock 1 toy_hash toy_open deployed "http://node"%string Dev 1
    V1 77 20 None poll_options (start_vault (Some 5) None) (run_of V1 poll_options 10 quiet true (Some 5) None).1 r s')
    as (rep & -> & H1 & _ & H2).
  - reflexivity.
  - reflexivity.
  - reflexivity.
  - intros c [= <-]. vm_compute. split; discriminate.
  - discriminate.
  - rewrite <- Erun. apply run_of_reaches.
  - apply drive_forall. intros n e. apply node_healthy.
  - exists rep, s'. split; [reflexivity|]. split; [exact H1|exact H2].
Defined.

Definition restart_run := run_of V1 genesis_options 30000 quiet true (Some 20000) None.

Lemma genesis_resync_refused_witness :
  (exists s', restart_run.2 = Ret (Err (StoreErr (Corrupted BackwardCheckpoint)), s'))
  /\ stored V1 (sdb (vault_at restart_run.2)) = Some 20000.
Proof.
  split.
  - destruct restart_run.2 as [[[rep|e] s']|e k] eqn:E; vm_compute in E; [discriminate E| |discriminate E].
    injection E as <- <-. eexists. reflexivity.
  - apply (genesis_resync_refused sample_clock sample_clock 1 toy_hash toy_open deployed "http://node"%string Dev 1
      V1 20 None genesis_options (start_vault (Some 20000) None) 20000 restart_run.1 restart_run.2).
    + reflexivity.
    + reflexivity.
    + vm_compute. reflexivity.
    + discriminate.
    + apply run_of_reaches.
    + apply drive_forall. intros n [q s]. destruct q; try done. intros k [= <-]. vm_compute. split; [reflexivity|discriminate].
Defined.

(** The head is 5, the web socket delivers the event of block 9; the event of
    block 8 is on the chain. *)
Definition tip_run := run_of V1 tip_options 5 (push_at 7 9) true (Some 5) None.

Lemma ws_event_skips_blocks_witness :
  omap log_request tip_run.1 = [] /\ exists c, stored V1 (sdb (vault_at tip_run.2)) = Some c /\ 9 <= c.
Proof.
  split; [vm_compute; reflexivity|].
  destruct tip_run.2 as [[[rep|e] s']|e k] eqn:Erun; [|vm_compute in Erun; discriminate Erun..].
  assert (Hin : exists s1, existT (mkPending Recv s1) (Some (Event (sample_log 9))) ∈ tip_run.1).
  { destruct (tip_run.1 !! 7%nat) as [c|] eqn:E; [|vm_compute in E; discriminate E].
    pose proof (list_elem_of_lookup_2 _ _ _ E) as Hc. vm_compute in E. injection E as <-. eexists. exact Hc. }
  destruct Hin as [s1 Hin].
  apply (ws_event_skips_blocks sample_clock sample_clock 1 toy_hash toy_open deployed "http://node"%string Dev 1
    77 20 None tip_options (start_vault (Some 5) None) tip_run.1 rep s' (sample_log 9)
    (mkVerifiedRevisionEvent (mkRevisionEvent 1 100 3 20 1 0 [42] (mkChainAnchor 99 9 2 0)) 10 9 1) s1).
  - reflexivity.
  - discriminate.
  - rewrite <- Erun. apply run_of_reaches.
  - apply drive_forall. intros n e. apply node_heads. vm_compute. split; discriminate.
  - exact Hin.
  - reflexivity.
  - intros head [Hh|[s2 Hh]]; [discriminate Hh|].
    assert (Hall : Forall (fun c => forall s3 h, c = existT (mkPending GetBlockNumber s3) (Ok h) -> h = 5) tip_run.1).
    { apply drive_forall. intros n [q s3] s4 h Heq. destruct q; try discriminate Heq.
      apply (f_equal (fun c => match pd_call (projT1 c) as q return SyncAnswer q -> Z with
        | GetBlockNumber => fun r => match r with Ok h => h | Err _ => 0 end | _ => fun _ => 0 end (projT2 c))) in Heq.
      symmetry. exact Heq. }
    rewrite Forall_forall in Hall. rewrite (Hall _ Hh s2 head eq_refl). reflexivity.
Defined.
End SyncSample.
