(* ===== verification/Kdbx.v ===== *)
(** * KeePass containers

    crates/pangolin-kdbx: error.rs, header.rs, kdf.rs, crypto.rs and payload.rs, the
    reader of the KDBX 3.1 and 4 container down to its XML, and of test_writer.rs
    the part that wraps XML into such a container.

    A hostile file decides how much work the key derivation does before anything is
    authenticated; [kdf_work_bounded] says how much that can be.  [kdbx4_payload_exact]
    says which bytes after a header are accepted, and as what.

    A length is a [Z] until it has been checked, since a length field may be any
    32-bit number.  Hashes, ciphers, Argon2, base64 and gzip are the class
    [KdbxPrims]; [KdbxLaws] is what they document. *)

From Stdlib Require Import Ascii String.
From S2P Require Import Prelude Bytes Text.
Open Scope Z_scope.

Definition KDBX_MAX_ENTRIES : Z := 100000.
Definition KDBX_MAX_INFLATED_BYTES : Z := 256 * 1024 * 1024.
Definition KDBX_MAX_FILE_BYTES : Z := 64 * 1024 * 1024.
Definition KDBX_MAX_HISTORY_PER_ENTRY : Z := 64.

(** ** Errors

    Without the text of a message. *)
Inductive KdbxError : Type :=
| Io
| NotKdbx
| UnsupportedVersion (major minor : Z)
| FileTooLarge (len max : Z)
| CorruptHeader
| CorruptPayload
| BlockHmacMismatch
| WrongCredentials
| UnsupportedCredential
| UnsupportedKdf
| KdfParamsRejected
| UnsupportedCipher
| XmlMalformed
| TooManyEntries (limit : Z)
| InflatedTooLarge (limit : Z).

#[export] Instance KdbxError_eq_dec : EqDecision KdbxError.
Proof. solve_decision. Defined.

Definition error_kind_label (e : KdbxError) : string :=
  match e with
  | Io => "io"
  | NotKdbx => "not_kdbx"
  | UnsupportedVersion _ _ => "unsupported_version"
  | FileTooLarge _ _ => "file_too_large"
  | CorruptHeader => "corrupt_header"
  | CorruptPayload => "corrupt_payload"
  | BlockHmacMismatch | WrongCredentials => "wrong_credentials"
  | UnsupportedCredential => "unsupported_credential"
  | UnsupportedKdf => "unsupported_kdf"
  | KdfParamsRejected => "kdf_params_rejected"
  | UnsupportedCipher => "unsupported_cipher"
  | XmlMalformed => "malformed_xml"
  | TooManyEntries _ => "too_many_entries"
  | InflatedTooLarge _ => "inflated_too_large"
  end.

(** ** Bytes *)

Definition zlen {A} (l : list A) : Z := Z.of_nat (length l).

(** [uN::from_le_bytes] and [n.to_le_bytes()]. *)
Definition le_value (bs : list Z) : Z := be_value (reverse bs).
Definition to_le_bytes (n : nat) (x : Z) : list Z := reverse (to_be_bytes n x).

(** [buf.get(a..b)]. *)
Definition get_range (buf : list Z) (a b : Z) : option (list Z) :=
  if (0 <=? a) && (a <=? b) && (b <=? zlen buf)
  then Some (slice (Z.to_nat a) (Z.to_nat (b - a)) buf) else None.

(** [data.try_into()] for an array of [n] bytes. *)
Definition array (n : Z) (data : list Z) (e : KdbxError) : result KdbxError (list Z) :=
  if zlen data =? n then Ok data else Err e.

(** ** The outer header *)

Definition SIG1 : Z := 0x9AA2D903.
Definition SIG2_KP2 : Z := 0xB54BFB67.
Definition SIG2_KP1 : Z := 0xB54BFB65.
Definition SIG2_KP2_PRE : Z := 0xB54BFB66.

Definition CIPHER_AES256 : list Z :=
  [0x31; 0xC1; 0xF2; 0xE6; 0xBF; 0x71; 0x43; 0x50; 0xBE; 0x58; 0x05; 0x21; 0x6A; 0xFC; 0x5A; 0xFF].
Definition CIPHER_CHACHA20 : list Z :=
  [0xD6; 0x03; 0x8A; 0x2B; 0x8B; 0x6F; 0x4C; 0xB5; 0xA5; 0x24; 0x33; 0x9A; 0x31; 0xDB; 0xB5; 0x9A].
Definition CIPHER_TWOFISH : list Z :=
  [0xAD; 0x68; 0xF2; 0x9F; 0x57; 0x6F; 0x4B; 0xB9; 0xA3; 0x6A; 0xD4; 0x7A; 0xF9; 0x65; 0x34; 0x6C].
Definition KDF_AES : list Z :=
  [0xC9; 0xD9; 0xF3; 0x9A; 0x62; 0x8A; 0x44; 0x60; 0xBF; 0x74; 0x0D; 0x08; 0xC1; 0x8A; 0x4F; 0xEA].
Definition KDF_ARGON2D : list Z :=
  [0xEF; 0x63; 0x6D; 0xDF; 0x8C; 0x29; 0x44; 0x4B; 0x91; 0xF7; 0xA9; 0xA4; 0x03; 0xE3; 0x0A; 0x0C].
Definition KDF_ARGON2ID : list Z :=
  [0x9E; 0x29; 0x8B; 0x19; 0x56; 0xDB; 0x47; 0x73; 0xB2; 0x3D; 0xFC; 0x3E; 0xC6; 0xF0; 0xA1; 0xE6].

Inductive KdbxFormat : Type := V3 | V4.

(** [mod field]. *)
Definition FIELD_END : Z := 0.
Definition FIELD_CIPHER_ID : Z := 2.
Definition FIELD_COMPRESSION : Z := 3.
Definition FIELD_MASTER_SEED : Z := 4.
Definition FIELD_TRANSFORM_SEED : Z := 5.
Definition FIELD_TRANSFORM_ROUNDS : Z := 6.
Definition FIELD_ENCRYPTION_IV : Z := 7.
Definition FIELD_INNER_RANDOM_STREAM_KEY : Z := 8.
Definition FIELD_STREAM_START_BYTES : Z := 9.
Definition FIELD_INNER_RANDOM_STREAM_ID : Z := 10.
Definition FIELD_KDF_PARAMETERS : Z := 11.

Inductive Kdf : Type :=
| Aes (seed : list Z) (rounds : Z)
| Argon2 (variant : Z) (salt : list Z) (parallelism memory_kib iterations version : Z).

Inductive OuterCipher : Type := Aes256Cbc | ChaCha20.

#[export] Instance OuterCipher_eq_dec : EqDecision OuterCipher.
Proof. solve_decision. Defined.

Inductive InnerStreamCipher : Type := InnerNone | InnerSalsa20 | InnerChaCha20.

Definition from_id (id : Z) : result KdbxError InnerStreamCipher :=
  if id =? 0 then Ok InnerNone
  else if id =? 1 then Err CorruptPayload
  else if id =? 2 then Ok InnerSalsa20
  else if id =? 3 then Ok InnerChaCha20
  else Err CorruptPayload.

Record OuterHeader : Type := mkHeader {
  format : KdbxFormat;
  header_len : Z;
  cipher : OuterCipher;
  compressed : bool;
  master_seed : list Z;
  encryption_iv : list Z;
  kdf : Kdf;
  v3_inner_stream_key : option (list Z);
  v3_stream_start_bytes : option (list Z);
  v3_inner_stream_cipher : option InnerStreamCipher;
  raw_header : list Z
}.

(** *** The reader *)

Record Reader : Type := mkReader { rd_buf : list Z; rd_pos : Z }.

Notation reader := (op Reader KdbxError).

Definition read_fixed (n : Z) : reader (list Z) := fun r =>
  match get_range (rd_buf r) (rd_pos r) (rd_pos r + n) with
  | Some s => (Ok s, mkReader (rd_buf r) (rd_pos r + n))
  | None => (Err CorruptHeader, r)
  end.

Definition read_u8 : reader Z := s ← read_fixed 1; mret (le_value s).
Definition read_u16 : reader Z := s ← read_fixed 2; mret (le_value s).
Definition read_u32 : reader Z := s ← read_fixed 4; mret (le_value s).

(** The sum that could overflow is a [usize]. *)
Definition read_take (n : Z) : reader (list Z) :=
  pos ← gets rd_pos;
  if U64_MAX <? pos + n then throw CorruptHeader else read_fixed n.

Definition MAX_HEADER_FIELD : Z := Z.shiftl 1 20.

(** *** The fields *)

(** The variables of the loop. *)
Record HeaderFields : Type := mkFields {
  f_cipher : option OuterCipher;
  f_compressed : option bool;
  f_master_seed : option (list Z);
  f_transform_seed : option (list Z);
  f_transform_rounds : option Z;
  f_encryption_iv : option (list Z);
  f_inner_stream_key : option (list Z);
  f_stream_start_bytes : option (list Z);
  f_inner_stream_cipher : option InnerStreamCipher;
  f_kdf_variant_dict : option (list Z)
}.

Definition no_fields : HeaderFields := mkFields None None None None None None None None None None.

Definition cipher_of_uuid (uuid : list Z) : result KdbxError OuterCipher :=
  if bool_decide (uuid = CIPHER_AES256) then Ok Aes256Cbc
  else if bool_decide (uuid = CIPHER_CHACHA20) then Ok ChaCha20
  else if bool_decide (uuid = CIPHER_TWOFISH) then Err UnsupportedCipher
  else Err UnsupportedCipher.

Definition header_field (id : Z) (data : list Z) (h : HeaderFields) : result KdbxError HeaderFields :=
  let 'mkFields c z m ts tr iv k sb ic d := h in
  if id =? FIELD_CIPHER_ID then
    uuid ← array 16 data CorruptHeader;
    c ← cipher_of_uuid uuid;
    Ok (mkFields (Some c) z m ts tr iv k sb ic d)
  else if id =? FIELD_COMPRESSION then
    v ← array 4 data CorruptHeader;
    if le_value v =? 0 then Ok (mkFields c (Some false) m ts tr iv k sb ic d)
    else if le_value v =? 1 then Ok (mkFields c (Some true) m ts tr iv k sb ic d)
    else Err CorruptHeader
  else if id =? FIELD_MASTER_SEED then
    seed ← array 32 data CorruptHeader;
    Ok (mkFields c z (Some seed) ts tr iv k sb ic d)
  else if id =? FIELD_TRANSFORM_SEED then
    seed ← array 32 data CorruptHeader;
    Ok (mkFields c z m (Some seed) tr iv k sb ic d)
  else if id =? FIELD_TRANSFORM_ROUNDS then
    v ← array 8 data CorruptHeader;
    Ok (mkFields c z m ts (Some (le_value v)) iv k sb ic d)
  else if id =? FIELD_ENCRYPTION_IV then Ok (mkFields c z m ts tr (Some data) k sb ic d)
  else if id =? FIELD_INNER_RANDOM_STREAM_KEY then Ok (mkFields c z m ts tr iv (Some data) sb ic d)
  else if id =? FIELD_STREAM_START_BYTES then Ok (mkFields c z m ts tr iv k (Some data) ic d)
  else if id =? FIELD_INNER_RANDOM_STREAM_ID then
    v ← array 4 data CorruptHeader;
    ic ← from_id (le_value v);
    Ok (mkFields c z m ts tr iv k sb (Some ic) d)
  else if id =? FIELD_KDF_PARAMETERS then Ok (mkFields c z m ts tr iv k sb ic (Some data))
  else Ok h.

(** The fuel is one more than the bytes there are; a field takes at least three. *)
Fixpoint header_loop (fuel : nat) (format : KdbxFormat) (h : HeaderFields) : reader HeaderFields :=
  match fuel with
  | O => throw CorruptHeader
  | S fuel =>
      id ← read_u8;
      len ← match format with V3 => read_u16 | V4 => read_u32 end;
      if MAX_HEADER_FIELD <? len then throw CorruptHeader
      else
        data ← read_take len;
        if id =? FIELD_END then mret h
        else
          h ← lift (header_field id data h);
          header_loop fuel format h
  end.

(** *** The key derivation parameters *)

(** [mod vd]. *)
Definition VD_END : Z := 0x00.
Definition VD_U32 : Z := 0x04.
Definition VD_U64 : Z := 0x05.
Definition VD_BOOL : Z := 0x08.
Definition VD_I32 : Z := 0x0C.
Definition VD_I64 : Z := 0x0D.
Definition VD_STR : Z := 0x18.
Definition VD_BYTES : Z := 0x42.

Definition MAX_VARIANT_ENTRIES : Z := 64.
Definition MAX_VARIANT_VALUE : Z := Z.shiftl 1 20.

Record VariantDict : Type := mkDict {
  vd_uuid : option (list Z);
  vd_salt : option (list Z);
  vd_parallelism : option Z;
  vd_memory : option Z;
  vd_iterations : option Z;
  vd_version : option Z;
  vd_rounds : option Z
}.

Definition empty_dict : VariantDict := mkDict None None None None None None None.

Definition variant_entry (tag : Z) (key val : list Z) (d : VariantDict) : result KdbxError VariantDict :=
  let 'mkDict u s p m i v r := d in
  let entry := fun (name : string) (t : Z) => bool_decide (key = bytes_of name) && (tag =? t) in
  if entry "$UUID"%string VD_BYTES then x ← array 16 val CorruptHeader; Ok (mkDict (Some x) s p m i v r)
  else if entry "S"%string VD_BYTES then Ok (mkDict u (Some val) p m i v r)
  else if entry "P"%string VD_U32 then x ← array 4 val CorruptHeader; Ok (mkDict u s (Some (le_value x)) m i v r)
  else if entry "M"%string VD_U64 then x ← array 8 val CorruptHeader; Ok (mkDict u s p (Some (le_value x)) i v r)
  else if entry "I"%string VD_U64 then x ← array 8 val CorruptHeader; Ok (mkDict u s p m (Some (le_value x)) v r)
  else if entry "V"%string VD_U32 then x ← array 4 val CorruptHeader; Ok (mkDict u s p m i (Some (le_value x)) r)
  else if entry "R"%string VD_U64 then x ← array 8 val CorruptHeader; Ok (mkDict u s p m i v (Some (le_value x)))
  else if entry "R"%string VD_U32 then x ← array 4 val CorruptHeader; Ok (mkDict u s p m i v (Some (le_value x)))
  else if bool_decide (tag ∈ [VD_U32; VD_U64; VD_BOOL; VD_I32; VD_I64; VD_STR; VD_BYTES]) then Ok d
  else Err CorruptHeader.

Fixpoint variant_loop (fuel : nat) (count : Z) (d : VariantDict) : reader VariantDict :=
  match fuel with
  | O => throw CorruptHeader
  | S fuel =>
      tag ← read_u8;
      if tag =? VD_END then mret d
      else if MAX_VARIANT_ENTRIES <? count + 1 then throw CorruptHeader
      else
        key_len ← read_u32;
        if 256 <? key_len then throw CorruptHeader
        else
          key ← read_take key_len;
          val_len ← read_u32;
          if MAX_VARIANT_VALUE <? val_len then throw CorruptHeader
          else
            val ← read_take val_len;
            d ← lift (variant_entry tag key val d);
            variant_loop fuel (count + 1) d
  end.

Definition saturating_mul (hi a b : Z) : Z := Z.min hi (a * b).

Definition resolve_kdf (d : VariantDict) : result KdbxError Kdf :=
  uuid ← ok_or (vd_uuid d) CorruptHeader;
  if bool_decide (uuid = KDF_AES) then
    rounds ← ok_or (vd_rounds d) CorruptHeader;
    seed_v ← ok_or (vd_salt d) CorruptHeader;
    seed ← array 32 seed_v CorruptHeader;
    if 100000000 <? rounds then Err KdfParamsRejected else Ok (Aes seed rounds)
  else if bool_decide (uuid = KDF_ARGON2D) || bool_decide (uuid = KDF_ARGON2ID) then
    let variant := if bool_decide (uuid = KDF_ARGON2D) then 0 else 2 in
    salt ← ok_or (vd_salt d) CorruptHeader;
    parallelism ← ok_or (vd_parallelism d) CorruptHeader;
    memory ← ok_or (vd_memory d) CorruptHeader;
    iterations ← ok_or (vd_iterations d) CorruptHeader;
    let version := default 0x13 (vd_version d) in
    if negb (version =? 0x10) && negb (version =? 0x13) then Err KdfParamsRejected
    else if negb (memory mod 1024 =? 0) then Err CorruptHeader
    else
      let memory_kib := memory / 1024 in
      if negb (in_range 8 (1024 * 1024) memory_kib) then Err KdfParamsRejected
      else if (iterations =? 0) || (64 <? iterations) then Err KdfParamsRejected
      else if (parallelism =? 0) || (8 <? parallelism) then Err KdfParamsRejected
      else if 4 * 1024 * 1024 <? saturating_mul U64_MAX iterations memory_kib then Err KdfParamsRejected
      else if (zlen salt <? 8) || (64 <? zlen salt) then Err CorruptHeader
      else Ok (Argon2 variant salt parallelism memory_kib iterations version)
  else Err UnsupportedKdf.

Definition read_kdf (fuel : nat) : reader Kdf :=
  _ver ← read_u16;
  d ← variant_loop fuel 0 empty_dict;
  lift (resolve_kdf d).

Definition parse_kdf_variant_dict (buf : list Z) : result KdbxError Kdf :=
  (read_kdf (S (length buf)) (mkReader buf 0)).1.

(** *** The whole header *)

Definition resolve_header (format : KdbxFormat) (buf : list Z) (header_len : Z) (h : HeaderFields) :
    result KdbxError OuterHeader :=
  raw_header ← ok_or (get_range buf 0 header_len) CorruptHeader;
  cipher ← ok_or (f_cipher h) CorruptHeader;
  compressed ← ok_or (f_compressed h) CorruptHeader;
  master_seed ← ok_or (f_master_seed h) CorruptHeader;
  encryption_iv ← ok_or (f_encryption_iv h) CorruptHeader;
  kdf ← match format with
    | V3 =>
        seed ← ok_or (f_transform_seed h) CorruptHeader;
        rounds ← ok_or (f_transform_rounds h) CorruptHeader;
        if 100000000 <? rounds then Err KdfParamsRejected else Ok (Aes seed rounds)
    | V4 =>
        dict ← ok_or (f_kdf_variant_dict h) CorruptHeader;
        parse_kdf_variant_dict dict
    end;
  if negb (zlen encryption_iv =? match cipher with Aes256Cbc => 16 | ChaCha20 => 12 end) then Err CorruptHeader
  else
    Ok (mkHeader format header_len cipher compressed master_seed encryption_iv kdf
          (f_inner_stream_key h) (f_stream_start_bytes h) (f_inner_stream_cipher h) raw_header).

Definition read_outer_header (fuel : nat) : reader (KdbxFormat * HeaderFields) :=
  sig1 ← read_u32;
  sig2 ← read_u32;
  if negb (sig1 =? SIG1) then throw NotKdbx
  else if sig2 =? SIG2_KP1 then throw (UnsupportedVersion 1 0)
  else if sig2 =? SIG2_KP2_PRE then throw (UnsupportedVersion 2 0)
  else if negb (sig2 =? SIG2_KP2) then throw NotKdbx
  else
    minor ← read_u16;
    major ← read_u16;
    format ← (if major =? 3 then mret V3 else if major =? 4 then mret V4
              else throw (UnsupportedVersion major minor));
    h ← header_loop fuel format no_fields;
    mret (format, h).

Definition parse_outer_header (buf : list Z) : result KdbxError OuterHeader :=
  match read_outer_header (S (length buf)) (mkReader buf 0) with
  | (Ok (format, h), r) => resolve_header format buf (rd_pos r) h
  | (Err e, _) => Err e
  end.

(** ** Primitives

    A cipher's keystream is its byte at each position; [inflate] is the chunks that
    [GzDecoder::read] returns until it returns none or fails. *)
Class KdbxPrims : Type := {
  sha256 : list Z -> list Z;
  sha512 : list Z -> list Z;
  hmac_sha256 : list Z -> list Z -> list Z;
  aes_block : list Z -> list Z -> list Z;
  cbc_encrypt : list Z -> list Z -> list Z -> list Z;
  cbc_decrypt : list Z -> list Z -> list Z -> list Z;
  chacha20 : list Z -> list Z -> nat -> Z;
  salsa20 : list Z -> list Z -> nat -> Z;
  (** [Params::new(m, t, p, Some(32))] accepts, and [hash_password_into]. *)
  argon2_params : Z -> Z -> Z -> bool;
  argon2_hash : Z -> Z -> Z -> Z -> Z -> list Z -> list Z -> option (list Z);
  base64_encode : list Z -> list Z;
  base64_decode : list Z -> option (list Z);
  gzip : list Z -> list Z;
  inflate : list Z -> list (list Z) * bool
}.

Definition apply_keystream (ks : nat -> Z) (pos : nat) (data : list Z) : list Z :=
  zip_with Z.lxor data (ks <$> seq pos (length data)).

Definition is_block_list (n : nat) (l : list Z) : Prop := (n | length l)%nat /\ Forall is_byte l.

(** The alphabet of base64, and two identifiers that the test writer writes. *)
Definition base64_char (c : Z) : bool :=
  in_range 65 90 c || in_range 97 122 c || in_range 48 57 c || (c =? 43) || (c =? 47) || (c =? 61).

Definition RECYCLE_BIN : list Z := replicate 16 0x55.
Definition ROOT_UUID : list Z := bytes_of "AAAAAAAAAAAAAAAAAAAAAA==".

(** Of base64: its alphabet, and that the identifier of the recycle bin is neither all
    zero nor that of another group, however the letters are cased. *)
Class KdbxLaws `{KdbxPrims} : Prop := {
  length_sha256 l : length (sha256 l) = 32%nat;
  length_sha512 l : length (sha512 l) = 64%nat;
  length_hmac k l : length (hmac_sha256 k l) = 32%nat;
  sha256_bytes l : Forall is_byte (sha256 l);
  hmac_bytes k l : Forall is_byte (hmac_sha256 k l);
  cbc_roundtrip k iv l : is_block_list 16 l -> cbc_decrypt k iv (cbc_encrypt k iv l) = l;
  length_cbc_encrypt k iv l : length (cbc_encrypt k iv l) = length l;
  length_cbc_decrypt k iv l : length (cbc_decrypt k iv l) = length l;
  inflate_gzip l : (inflate (gzip l)).2 = true /\ mjoin (inflate (gzip l)).1 = l;
  gzip_bytes l : Forall is_byte l -> gzip l <> [] /\ Forall is_byte (gzip l);
  chacha20_byte k n i : is_byte (chacha20 k n i);
  salsa20_byte k n i : is_byte (salsa20 k n i);
  base64_roundtrip l : Forall is_byte l -> base64_decode (base64_encode l) = Some l;
  base64_bytes l : Forall (fun c => base64_char c = true) (base64_encode l);
  base64_length l : zlen (base64_encode l) <= 4 * zlen l;
  base64_bin : forallb (fun c => (c =? 65) || (c =? 61)) (base64_encode RECYCLE_BIN) = false;
  base64_root : to_ascii_lowercase ROOT_UUID <> to_ascii_lowercase (base64_encode RECYCLE_BIN);
  base64_groups n :
    to_ascii_lowercase (base64_encode (to_le_bytes 8 n ++ replicate 8 0)) <> to_ascii_lowercase (base64_encode RECYCLE_BIN);
  argon2_smallest v pw salt : 8 <= zlen salt -> argon2_params 16 1 1 = true
    /\ exists k, argon2_hash v 0x13 16 1 1 pw salt = Some k
}.

(** ** Keys *)

Fixpoint find (p s : list Z) : option nat :=
  if starts_with p s then Some 0%nat
  else match s with [] => None | _ :: r => S <$> find p r end.

Definition extract_tag_text (xml tag : list Z) : option (list Z) :=
  start_tag ← find (60 :: tag) xml;
  let rest := drop start_tag xml in
  gt ← find [62] rest;
  if bool_decide (rest !! (gt - 1)%nat = Some 47) then Some []
  else
    let content := drop (start_tag + gt + 1) xml in
    close_rel ← find (bytes_of "</" ++ tag ++ [62]) content;
    Some (take close_rel content).

Definition extract_attr (xml tag attr : list Z) : option (list Z) :=
  start ← find (60 :: tag) xml;
  let rest := drop start xml in
  gt ← find [62] rest;
  let opening := take gt rest in
  let needle := attr ++ [61; 34] in
  a ← find needle opening;
  let after := drop (a + length needle) opening in
  close ← find [34] after;
  Some (take close after).

(** [(b as char).to_digit(16)]. *)
Definition hex_digit (b : Z) : option Z :=
  if in_range 48 57 b then Some (b - 48)
  else if in_range 97 102 b then Some (b - 87)
  else if in_range 65 70 b then Some (b - 55)
  else None.

Fixpoint hex_pairs (b : list Z) : option (list Z) :=
  match b with
  | x :: y :: b =>
      hi ← hex_digit x;
      lo ← hex_digit y;
      out ← hex_pairs b;
      Some (Z.lor (Z.shiftl hi 4) lo :: out)
  | _ => Some []
  end.

Definition decode_hex (s : list Z) : option (list Z) :=
  let s := trim s in
  if Nat.even (length s) then hex_pairs s else None.

Section crypto.
Context `{KdbxPrims}.

Definition xml_keyfile_v2 (trimmed data_text_clean : list Z) : result KdbxError (list Z) :=
  v ← ok_or (decode_hex data_text_clean) UnsupportedCredential;
  if negb (zlen v =? 32) then Err UnsupportedCredential
  else
    match extract_attr trimmed (bytes_of "Data") (bytes_of "Hash") ≫= decode_hex with
    | Some expected =>
        if negb (zlen expected =? 4) || negb (bool_decide (take 4 (sha256 v) = expected))
        then Err UnsupportedCredential else Ok v
    | None => Ok v
    end.

Definition parse_xml_keyfile (bytes : list Z) : result KdbxError (option (list Z)) :=
  if negb (utf8 bytes) then Ok None
  else
    let trimmed := trim_start (strip_all (length bytes) [[0xEF; 0xBB; 0xBF]] bytes) in
    if negb (starts_with (bytes_of "<?xml") trimmed) && negb (starts_with (bytes_of "<KeyFile") trimmed)
    then Ok None
    else
      let version := extract_tag_text trimmed (bytes_of "Version") in
      data_text ← ok_or (extract_tag_text trimmed (bytes_of "Data")) UnsupportedCredential;
      let data_text_clean := mjoin (split_whitespace data_text) in
      let is_v2 := match version with Some v => starts_with (bytes_of "2.") (trim v) | None => false end in
      key_bytes ← (if is_v2 then xml_keyfile_v2 trimmed data_text_clean
                   else ok_or (base64_decode data_text_clean) UnsupportedCredential);
      if negb (zlen key_bytes =? 32) then Ok (Some (sha256 key_bytes)) else Ok (Some key_bytes).

Definition keyfile_key (bytes : list Z) : result KdbxError (list Z) :=
  xml ← parse_xml_keyfile bytes;
  match xml with
  | Some k => Ok k
  | None =>
      if zlen bytes =? 32 then Ok bytes
      else if (zlen bytes =? 64) && forallb (fun b => bool_decide (is_Some (hex_digit b))) bytes
      then ok_or (decode_hex bytes) UnsupportedCredential
      else Ok (sha256 bytes)
  end.

Definition composite_key (password keyfile_bytes : option (list Z)) : result KdbxError (list Z) :=
  match password, keyfile_bytes with
  | None, None => Err UnsupportedCredential
  | _, _ =>
      let pw_hash := match password with Some pw => sha256 pw | None => [] end in
      match keyfile_bytes with
      | Some kf => kk ← keyfile_key kf; Ok (sha256 (pw_hash ++ kk))
      | None => Ok (sha256 pw_hash)
      end
  end.

(** One round of AES-KDF: both halves, each in place. *)
Definition aes_kdf_round (seed block : list Z) : list Z :=
  aes_block seed (take 16 block) ++ aes_block seed (drop 16 block).

Definition transform_key (composite : list Z) (kdf : Kdf) : result KdbxError (list Z) :=
  match kdf with
  | Aes seed rounds => Ok (sha256 (Z.iter rounds (aes_kdf_round seed) composite))
  | Argon2 variant salt parallelism memory_kib iterations version =>
      if negb (in_range 0 2 variant) then Err UnsupportedKdf
      else if negb (version =? 0x10) && negb (version =? 0x13) then Err UnsupportedKdf
      else
        iterations ← ok_or (u32_try_from iterations) KdfParamsRejected;
        if negb (argon2_params memory_kib iterations parallelism) then Err KdfParamsRejected
        else ok_or (argon2_hash variant version memory_kib iterations parallelism composite salt) UnsupportedKdf
  end.

Definition master_key (master_seed transformed : list Z) : list Z := sha256 (master_seed ++ transformed).
Definition hmac_base_key (master_seed transformed : list Z) : list Z := sha512 (master_seed ++ transformed ++ [1]).
Definition block_hmac_key (base : list Z) (block_index : Z) : list Z := sha512 (to_le_bytes 8 block_index ++ base).

(** ** Decryption *)

Definition strip_pkcs7 (buf : list Z) : result KdbxError (list Z) :=
  pad ← ok_or (last buf) WrongCredentials;
  if (pad =? 0) || (16 <? pad) || (zlen buf <? pad) then Err WrongCredentials
  else
    let n := (length buf - Z.to_nat pad)%nat in
    if forallb (fun b => b =? pad) (drop n buf) then Ok (take n buf) else Err WrongCredentials.

Definition decrypt_outer (cipher : OuterCipher) (key iv ct : list Z) (strip : bool) : result KdbxError (list Z) :=
  match cipher with
  | Aes256Cbc =>
      if (zlen ct =? 0) || negb (zlen ct mod 16 =? 0) then Err WrongCredentials
      else
        iv16 ← array 16 iv CorruptHeader;
        let buf := cbc_decrypt key iv16 ct in
        if strip then strip_pkcs7 buf else Ok buf
  | ChaCha20 =>
      nonce ← array 12 iv CorruptHeader;
      Ok (apply_keystream (chacha20 key nonce) 0 ct)
  end.

Definition decrypt_kdbx3_payload (header : OuterHeader) (composite ciphertext : list Z) :
    result KdbxError (list Z) :=
  transformed ← transform_key composite (kdf header);
  let mkey := master_key (master_seed header) transformed in
  pt ← decrypt_outer (cipher header) mkey (encryption_iv header) ciphertext false;
  expected ← ok_or (v3_stream_start_bytes header) CorruptHeader;
  if zlen pt <? zlen expected then Err WrongCredentials
  else if negb (bool_decide (take (length expected) pt = expected)) then Err WrongCredentials
  else
    let body := drop (length expected) pt in
    match cipher header with
    | Aes256Cbc => strip_pkcs7 body
    | ChaCha20 => Ok body
    end.

(** The tag that the reader computes of a block: over its number, its length and its bytes. *)
Definition block_mac (hmac_base : list Z) (idx : Z) (data : list Z) : list Z :=
  hmac_sha256 (block_hmac_key hmac_base idx) (to_le_bytes 8 idx ++ to_le_bytes 4 (zlen data) ++ data).

(** Each round takes at least 36 bytes; the fuel is one more than the bytes there are. *)
Fixpoint block_loop (fuel : nat) (hmac_base blocks : list Z) (pos idx : Z) (ct : list Z) :
    result KdbxError (list Z) :=
  match fuel with
  | O => Err CorruptPayload
  | S fuel =>
      hmac_tag ← ok_or (get_range blocks pos (pos + 32)) CorruptPayload;
      let pos := pos + 32 in
      len_bytes ← ok_or (get_range blocks pos (pos + 4)) CorruptPayload;
      let pos := pos + 4 in
      let blk_len := le_value len_bytes in
      if KDBX_MAX_INFLATED_BYTES <? blk_len then Err CorruptPayload
      else
        data ← ok_or (get_range blocks pos (pos + blk_len)) CorruptPayload;
        let pos := pos + blk_len in
        if negb (bool_decide (block_mac hmac_base idx data = hmac_tag)) then Err BlockHmacMismatch
        else if blk_len =? 0 then Ok ct
        else
          let ct := ct ++ data in
          idx ← ok_or (u64_try_from (idx + 1)) CorruptPayload;
          if KDBX_MAX_INFLATED_BYTES <? zlen ct then Err (InflatedTooLarge KDBX_MAX_INFLATED_BYTES)
          else block_loop fuel hmac_base blocks pos idx ct
  end.

Definition decrypt_kdbx4_payload (header : OuterHeader) (composite after_header : list Z) :
    result KdbxError (list Z) :=
  transformed ← transform_key composite (kdf header);
  let mkey := master_key (master_seed header) transformed in
  let hmac_base := hmac_base_key (master_seed header) transformed in
  if zlen after_header <? 64 then Err CorruptHeader
  else
    let header_sha := slice 0 32 after_header in
    let header_hmac := slice 32 32 after_header in
    let blocks := drop 64 after_header in
    if negb (bool_decide (sha256 (raw_header header) = header_sha)) then Err CorruptHeader
    else if negb (bool_decide (hmac_sha256 (block_hmac_key hmac_base U64_MAX) (raw_header header) = header_hmac))
    then Err WrongCredentials
    else
      ct ← block_loop (S (length blocks)) hmac_base blocks 0 0 [];
      decrypt_outer (cipher header) mkey (encryption_iv header) ct (bool_decide (cipher header = Aes256Cbc)).

(** ** The inner payload *)

Definition SALSA20_IV : list Z := [0xE8; 0x30; 0x09; 0x4B; 0x97; 0x20; 0x5D; 0x2A].

(** The loop over the chunks read. *)
Fixpoint collect_chunks (limit : Z) (chunks : list (list Z)) (ends : bool) (out : list Z) :
    result KdbxError (list Z) :=
  match chunks with
  | [] => if ends then Ok out else Err CorruptPayload
  | chunk :: chunks =>
      if limit <? zlen out + zlen chunk then Err (InflatedTooLarge limit)
      else collect_chunks limit chunks ends (out ++ chunk)
  end.

Definition gunzip_bounded (data : list Z) (limit : Z) : result KdbxError (list Z) :=
  collect_chunks limit (inflate data).1 (inflate data).2 [].

(** The keystream, if there is one, and the bytes of it used. *)
Record InnerStream : Type := mkStream { keystream : option (nat -> Z); used : nat }.

Definition inner_stream_new (cipher : InnerStreamCipher) (raw_key : list Z) : InnerStream :=
  match cipher with
  | InnerNone => mkStream None 0
  | InnerSalsa20 => mkStream (Some (salsa20 (sha256 raw_key) SALSA20_IV)) 0
  | InnerChaCha20 =>
      let h := sha512 raw_key in
      mkStream (Some (chacha20 (slice 0 32 h) (slice 32 12 h))) 0
  end.

Definition inner_stream_apply (s : InnerStream) (buf : list Z) : list Z * InnerStream :=
  match keystream s with
  | None => (buf, s)
  | Some ks => (apply_keystream ks (used s) buf, mkStream (Some ks) (used s + length buf))
  end.

(** [mod inner_field]. *)
Definition INNER_END : Z := 0.
Definition INNER_STREAM_ID : Z := 1.
Definition INNER_STREAM_KEY : Z := 2.
Definition INNER_BINARY : Z := 3.

Record InnerPayload : Type := mkInner {
  inner_stream_cipher : InnerStreamCipher;
  inner_stream_key : list Z;
  xml : list Z;
  binary_count : Z;
  binary_total_bytes : Z
}.

(** The variables of the loop. *)
Record InnerFields : Type := mkInnerFields {
  i_cipher : option InnerStreamCipher;
  i_key : option (list Z);
  i_binary_count : Z;
  i_binary_total : Z
}.

Definition inner_field (id : Z) (data : list Z) (f : InnerFields) : result KdbxError InnerFields :=
  let 'mkInnerFields c k n t := f in
  if id =? INNER_STREAM_ID then
    v ← array 4 data CorruptPayload;
    if le_value v =? 0 then Ok (mkInnerFields (Some InnerNone) k n t)
    else if le_value v =? 2 then Ok (mkInnerFields (Some InnerSalsa20) k n t)
    else if le_value v =? 3 then Ok (mkInnerFields (Some InnerChaCha20) k n t)
    else Err CorruptPayload
  else if id =? INNER_STREAM_KEY then Ok (mkInnerFields c (Some data) n t)
  else if id =? INNER_BINARY then Ok (mkInnerFields c k (n + 1) (t + saturating_sub (zlen data) 1))
  else Ok f.

(** The fields and the position after them. *)
Fixpoint inner_loop (fuel : nat) (plain : list Z) (pos : Z) (f : InnerFields) :
    result KdbxError (InnerFields * Z) :=
  match fuel with
  | O => Err CorruptPayload
  | S fuel =>
      id ← ok_or (plain !! Z.to_nat pos) CorruptPayload;
      let pos := pos + 1 in
      len_bytes ← ok_or (get_range plain pos (pos + 4)) CorruptPayload;
      let pos := pos + 4 in
      let len := le_value len_bytes in
      if KDBX_MAX_INFLATED_BYTES <? len then Err CorruptPayload
      else
        data ← ok_or (get_range plain pos (pos + len)) CorruptPayload;
        let pos := pos + len in
        if id =? INNER_END then Ok (f, pos)
        else
          f ← inner_field id data f;
          inner_loop fuel plain pos f
  end.

Definition plain_payload (header : OuterHeader) (decrypted : list Z) : result KdbxError (list Z) :=
  if compressed header then gunzip_bounded decrypted KDBX_MAX_INFLATED_BYTES
  else if KDBX_MAX_INFLATED_BYTES <? zlen decrypted then Err (InflatedTooLarge KDBX_MAX_INFLATED_BYTES)
  else Ok decrypted.

Definition parse_inner_payload (header : OuterHeader) (decrypted : list Z) : result KdbxError InnerPayload :=
  plain ← plain_payload header decrypted;
  match format header with
  | V3 =>
      cipher ← ok_or (v3_inner_stream_cipher header) CorruptHeader;
      Ok (mkInner cipher (default [] (v3_inner_stream_key header)) plain 0 0)
  | V4 =>
      '(f, pos) ← inner_loop (S (length plain)) plain 0 (mkInnerFields None None 0 0);
      cipher ← ok_or (i_cipher f) CorruptPayload;
      Ok (mkInner cipher (default [] (i_key f)) (drop (Z.to_nat pos) plain) (i_binary_count f) (i_binary_total f))
  end.

(** [read_kdbx] up to the XML: which format it was, and the payload. *)
Definition fold_oracle (e : KdbxError) : KdbxError :=
  match e with BlockHmacMismatch => WrongCredentials | other => other end.

Definition open_kdbx (bytes : list Z) (password keyfile : option (list Z)) : result KdbxError (bool * InnerPayload) :=
  if KDBX_MAX_FILE_BYTES <? zlen bytes then Err (FileTooLarge (zlen bytes) KDBX_MAX_FILE_BYTES)
  else
    header ← parse_outer_header bytes;
    composite ← composite_key password keyfile;
    after_header ← ok_or (get_range bytes (header_len header) (zlen bytes)) CorruptHeader;
    decrypted ← map_err fold_oracle
      (match format header with
       | V3 => decrypt_kdbx3_payload header composite after_header
       | V4 => decrypt_kdbx4_payload header composite after_header
       end);
    inner ← parse_inner_payload header decrypted;
    Ok (match format header with V3 => false | V4 => true end, inner).

(** ** The writer of the tests

    [build_kdbx4] and [build_kdbx3] of test_writer.rs around the XML they wrap, with
    the constants they write.  The file has its own key and tag formulas, which share no
    code with the reader; here they are its own definitions too. *)

Inductive WriteCipher : Type := WriteAes256Cbc | WriteChaCha20.

Definition composite_key_pw (password : list Z) : list Z := sha256 (sha256 password).

Definition composite_key_pw_keyfile (password : option (list Z)) (keyfile32 : list Z) : list Z :=
  sha256 (match password with Some p => sha256 p | None => [] end ++ keyfile32).

(** [None] where the writer panics. *)
Definition write_composite (password keyfile32 : option (list Z)) : option (list Z) :=
  match keyfile32 with
  | Some kf => Some (composite_key_pw_keyfile password kf)
  | None => composite_key_pw <$> password
  end.

Definition write_aes_kdf (composite seed : list Z) (rounds : Z) : list Z :=
  sha256 (Z.iter rounds (fun block => aes_block seed (take 16 block) ++ aes_block seed (drop 16 block)) composite).

Definition write_argon2id (composite salt : list Z) (mem_kib iters par : Z) : option (list Z) :=
  argon2_hash 2 0x13 mem_kib iters par composite salt.

Definition write_master_key (seed transformed : list Z) : list Z := sha256 (seed ++ transformed).
Definition write_hmac_base (seed transformed : list Z) : list Z := sha512 (seed ++ transformed ++ [0x01]).
Definition write_block_key (base : list Z) (idx : Z) : list Z := sha512 (to_le_bytes 8 idx ++ base).

Definition pkcs7_pad (data : list Z) : list Z :=
  let pad := (16 - length data mod 16)%nat in data ++ replicate pad (Z.of_nat pad).

Definition push_field32 (id : Z) (data : list Z) : list Z := id :: to_le_bytes 4 (zlen data) ++ data.
Definition push_field16 (id : Z) (data : list Z) : list Z := id :: to_le_bytes 2 (zlen data) ++ data.

Definition vd_entry (tag : Z) (key : string) (val : list Z) : list Z :=
  tag :: to_le_bytes 4 (zlen (bytes_of key)) ++ bytes_of key ++ to_le_bytes 4 (zlen val) ++ val.

Definition kdf_dict : list Z :=
  to_le_bytes 2 0x0100
  ++ vd_entry VD_BYTES "$UUID" KDF_ARGON2ID
  ++ vd_entry VD_BYTES "S" (replicate 32 0x22)
  ++ vd_entry VD_U32 "P" (to_le_bytes 4 1)
  ++ vd_entry VD_U64 "M" (to_le_bytes 8 (16 * 1024))
  ++ vd_entry VD_U64 "I" (to_le_bytes 8 1)
  ++ vd_entry VD_U32 "V" (to_le_bytes 4 0x13)
  ++ [VD_END].

Definition write_iv (c : WriteCipher) : list Z :=
  replicate (match c with WriteAes256Cbc => 16 | WriteChaCha20 => 12 end) 0x44.

Definition kdbx4_header (c : WriteCipher) : list Z :=
  to_le_bytes 4 SIG1 ++ to_le_bytes 4 SIG2_KP2 ++ to_le_bytes 2 1 ++ to_le_bytes 2 4
  ++ push_field32 2 match c with WriteAes256Cbc => CIPHER_AES256 | WriteChaCha20 => CIPHER_CHACHA20 end
  ++ push_field32 3 (to_le_bytes 4 1)
  ++ push_field32 4 (replicate 32 0x11)
  ++ push_field32 7 (write_iv c)
  ++ push_field32 11 kdf_dict
  ++ push_field32 0 [].

Definition kdbx3_header : list Z :=
  to_le_bytes 4 SIG1 ++ to_le_bytes 4 SIG2_KP2 ++ to_le_bytes 2 1 ++ to_le_bytes 2 3
  ++ push_field16 2 CIPHER_AES256
  ++ push_field16 3 (to_le_bytes 4 1)
  ++ push_field16 4 (replicate 32 0x11)
  ++ push_field16 5 (replicate 32 0x22)
  ++ push_field16 6 (to_le_bytes 8 2)
  ++ push_field16 7 (replicate 16 0x44)
  ++ push_field16 8 (replicate 32 0x33)
  ++ push_field16 9 (replicate 32 0x66)
  ++ push_field16 10 (to_le_bytes 4 2)
  ++ push_field16 0 [].

Definition kdbx4_inner (xml : list Z) : list Z :=
  push_field32 1 (to_le_bytes 4 3) ++ push_field32 2 (replicate 64 0x33) ++ push_field32 0 [] ++ xml.

Definition kdbx4_stream : InnerStream :=
  let ih := sha512 (replicate 64 0x33) in mkStream (Some (chacha20 (take 32 ih) (take 12 (drop 32 ih)))) 0.
Definition kdbx3_stream : InnerStream :=
  mkStream (Some (salsa20 (sha256 (replicate 32 0x33)) [0xE8; 0x30; 0x09; 0x4B; 0x97; 0x20; 0x5D; 0x2A])) 0.

Definition write_header_mac (hbase header : list Z) : list Z := hmac_sha256 (write_block_key hbase U64_MAX) header.

Definition write_block (hbase : list Z) (idx : Z) (ct : list Z) : list Z :=
  hmac_sha256 (write_block_key hbase idx) (to_le_bytes 8 idx ++ to_le_bytes 4 (zlen ct) ++ ct)
  ++ to_le_bytes 4 (zlen ct) ++ ct.

Definition write_encrypt (c : WriteCipher) (mkey compressed : list Z) : list Z :=
  match c with
  | WriteAes256Cbc => cbc_encrypt mkey (write_iv c) (pkcs7_pad compressed)
  | WriteChaCha20 => apply_keystream (chacha20 mkey (write_iv c)) 0 compressed
  end.

(** The file of a ciphertext. *)
Definition kdbx4_file (c : WriteCipher) (hbase ct : list Z) : list Z :=
  let header := kdbx4_header c in
  header ++ sha256 header ++ write_header_mac hbase header
  ++ write_block hbase 0 ct ++ write_block hbase 1 [].

Definition seal_kdbx4 (xml : list Z) (password keyfile32 : option (list Z)) (c : WriteCipher) : option (list Z) :=
  composite ← write_composite password keyfile32;
  transformed ← write_argon2id composite (replicate 32 0x22) 16 1 1;
  let mkey := write_master_key (replicate 32 0x11) transformed in
  let hbase := write_hmac_base (replicate 32 0x11) transformed in
  Some (kdbx4_file c hbase (write_encrypt c mkey (gzip (kdbx4_inner xml)))).

Definition seal_kdbx3 (xml password : list Z) : list Z :=
  let transformed := write_aes_kdf (composite_key_pw password) (replicate 32 0x22) 2 in
  let mkey := write_master_key (replicate 32 0x11) transformed in
  kdbx3_header ++ cbc_encrypt mkey (replicate 16 0x44) (pkcs7_pad (replicate 32 0x66 ++ gzip xml)).
End crypto.

(** ** Facts: bytes *)

Lemma zlen_app {A} (a b : list A) : zlen (a ++ b) = zlen a + zlen b.
Proof. unfold zlen. rewrite length_app. lia. Qed.

Lemma zlen_nonneg {A} (l : list A) : 0 <= zlen l.
Proof. unfold zlen. lia. Qed.

Lemma zlen_nil {A} (l : list A) : zlen l = 0 <-> l = [].
Proof. unfold zlen. destruct l; simpl; split; intros; try done; lia. Qed.

#[export] Hint Resolve zlen_nonneg : core.
#[export] Hint Rewrite @zlen_app : zlen.

Lemma length_to_le_bytes n x : length (to_le_bytes n x) = n.
Proof. unfold to_le_bytes. by rewrite length_reverse, length_to_be_bytes. Qed.

Lemma to_le_bytes_bytes n x : Forall is_byte (to_le_bytes n x).
Proof. unfold to_le_bytes. apply Forall_reverse, to_be_bytes_bytes. Qed.

Lemma le_value_to_le_bytes n x : 0 <= x < 256 ^ Z.of_nat n -> le_value (to_le_bytes n x) = x.
Proof.
  intros Hx. unfold le_value, to_le_bytes. rewrite reverse_involutive, be_value_to_be_bytes. by apply Z.mod_small.
Qed.

Lemma to_le_bytes_le_value bs : Forall is_byte bs -> to_le_bytes (length bs) (le_value bs) = bs.
Proof.
  intros Hb. unfold le_value, to_le_bytes.
  rewrite <- (length_reverse bs), to_be_bytes_be_value by by apply Forall_reverse. apply reverse_involutive.
Qed.

Lemma le_value_bounds bs : Forall is_byte bs -> 0 <= le_value bs < 256 ^ zlen bs.
Proof.
  intros Hb. unfold le_value, zlen. rewrite <- (length_reverse bs). apply be_value_bounds. by apply Forall_reverse.
Qed.

Lemma get_range_Some buf a b s :
  get_range buf a b = Some s <-> exists pre post, buf = pre ++ s ++ post /\ a = zlen pre /\ b = a + zlen s.
Proof.
  unfold get_range, zlen. split.
  - destruct (_ && _) eqn:Hc; [|done]. intros [= <-].
    apply andb_prop in Hc as [[H1 H2]%andb_prop H3].
    apply Z.leb_le in H1, H2, H3. unfold slice.
    exists (take (Z.to_nat a) buf), (drop (Z.to_nat (b - a)) (drop (Z.to_nat a) buf)).
    rewrite !take_drop, !length_take, length_drop. split_and!; [done|lia..].
  - intros (pre & post & -> & -> & ->). rewrite !length_app, !Nat2Z.inj_add.
    replace (_ && _) with true by (symmetry; rewrite !andb_true_iff, !Z.leb_le; lia).
    f_equal. unfold slice. rewrite Nat2Z.id, drop_app_length.
    replace (Z.to_nat _) with (length s) by lia. by rewrite take_app_length.
Qed.

Lemma get_range_at pre s post n :
  n = zlen s -> get_range (pre ++ s ++ post) (zlen pre) (zlen pre + n) = Some s.
Proof. intros ->. apply get_range_Some. by exists pre, post. Qed.

Lemma get_range_extend buf rest a b s : get_range buf a b = Some s -> get_range (buf ++ rest) a b = Some s.
Proof.
  rewrite !get_range_Some. intros (pre & post & -> & H1 & H2). exists pre, (post ++ rest).
  by rewrite <- !app_assoc.
Qed.

(** Constants are bytes by computation. *)
Lemma check_bytes l : forallb (in_range 0 255) l = true -> Forall is_byte l.
Proof.
  intros Hf. apply List.Forall_forall. intros b Hb. apply forallb_forall with (x := b) in Hf; [|done].
  apply andb_prop in Hf as [?%Z.leb_le ?%Z.leb_le]. unfold is_byte. lia.
Qed.

Lemma array_Ok n data e x : array n data e = Ok x <-> x = data /\ zlen data = n.
Proof. unfold array. destruct (Z.eqb_spec (zlen data) n); naive_solver. Qed.

Lemma ok_or_Ok {E A} (o : option A) (e : E) a : ok_or o e = Ok a <-> o = Some a.
Proof. destruct o; naive_solver. Qed.

(** A step of a [result] computation that returned. *)
Lemma bind_Ok {E A B} (m : result E A) (f : A -> result E B) b :
  m ≫= f = Ok b <-> exists a, m = Ok a /\ f a = Ok b.
Proof. destruct m; cbn; naive_solver. Qed.

Ltac result_inv :=
  repeat match goal with
  | H : _ ≫= _ = Ok _ |- _ => apply bind_Ok in H as (? & ? & ?)
  | H : ok_or _ _ = Ok _ |- _ => apply ok_or_Ok in H
  | H : array _ _ _ = Ok _ |- _ => apply array_Ok in H as [-> ?]
  | H : Ok _ = Ok _ |- _ => injection H as H
  | H : Err _ = Ok _ |- _ => discriminate H
  | H : (if ?b then _ else _) = Ok _ |- _ => destruct b eqn:?
  end; simplify_eq/=.

(** ** Facts: reading

    [yields P m]: what [m] returns from a buffer of bytes satisfies [P]. *)
Definition yields {A} (P : A -> Prop) (m : reader A) : Prop :=
  forall r a r', Forall is_byte (rd_buf r) -> m r = (Ok a, r') -> P a /\ rd_buf r' = rd_buf r.

(** [m'] returns from a longer buffer what [m] returns. *)
Definition extends {A} (m m' : reader A) : Prop :=
  forall buf pos a r', m (mkReader buf pos) = (Ok a, r') ->
    exists pos', r' = mkReader buf pos'
      /\ forall rest, m' (mkReader (buf ++ rest) pos) = (Ok a, mkReader (buf ++ rest) pos').

Section reading.
Context {A B : Type}.

Lemma yields_seq (Q : A -> Prop) (P : B -> Prop) (m : reader A) (f : A -> reader B) :
  yields Q m -> (forall a, Q a -> yields P (f a)) -> yields P (m ≫= f).
Proof.
  intros Hm Hf r b r' Hb (a & r1 & H1 & H2)%op_bind_Ok.
  destruct (Hm _ _ _ Hb H1) as [Ha E1]. rewrite <- E1 in Hb |- *. by apply (Hf a Ha _ _ _ Hb).
Qed.

Lemma yields_pure (P : A -> Prop) a : P a -> yields P (mret a : reader A).
Proof. intros Ha r a' r' _ [= <- <-]. done. Qed.

Lemma yields_lift (P : A -> Prop) r : (forall a, r = Ok a -> P a) -> yields P (lift r : reader A).
Proof. intros Hr s a s' _ [= -> <-]. auto. Qed.

Lemma yields_throw (P : A -> Prop) e : yields P (throw e : reader A).
Proof. by intros r a r' _ ?. Qed.

Lemma yields_gets (f : Reader -> A) : yields (fun _ => True) (gets f : reader A).
Proof. intros r a r' _ [= _ <-]. done. Qed.

Lemma extends_bind (m m' : reader A) (f f' : A -> reader B) :
  extends m m' -> (forall a, extends (f a) (f' a)) -> extends (m ≫= f) (m' ≫= f').
Proof.
  intros Hm Hf buf pos b r' (a & r1 & H1 & H2)%op_bind_Ok.
  destruct (Hm _ _ _ _ H1) as (p1 & -> & E1). destruct (Hf _ _ _ _ _ H2) as (p2 & -> & E2).
  exists p2. split; [done|]. intros rest. by rewrite (op_bind_run _ _ _ _ _ (E1 rest)).
Qed.

Lemma extends_ret a : extends (mret a : reader A) (mret a).
Proof. intros buf pos a' r' [= <- <-]. by exists pos. Qed.

Lemma extends_lift r : extends (lift r : reader A) (lift r).
Proof. intros buf pos a' r' [= -> <-]. by exists pos. Qed.

Lemma extends_throw e m : extends (throw e : reader A) m.
Proof. by intros buf pos a' r' ?. Qed.
End reading.

Lemma extends_gets_pos : extends (gets rd_pos) (gets rd_pos).
Proof. intros buf pos a' r' [= <- <-]. by exists pos. Qed.

Lemma extends_fixed n : extends (read_fixed n) (read_fixed n).
Proof.
  intros buf pos s r'. unfold read_fixed. cbn. destruct (get_range _ _ _) eqn:E; [|done]. intros [= -> <-].
  exists (pos + n). split; [done|]. intros rest. by rewrite (get_range_extend _ _ _ _ _ E).
Qed.

Lemma yields_fixed n : yields (fun s => zlen s = n /\ Forall is_byte s) (read_fixed n).
Proof.
  intros [buf pos] s r' Hb. unfold read_fixed. cbn in *. destruct (get_range _ _ _) eqn:E; [|done]. intros [= -> <-].
  apply get_range_Some in E as (pre & post & -> & _ & Hn). apply Forall_app in Hb as [_ [Hs _]%Forall_app].
  split; [|done]. split; [lia|done].
Qed.

#[export] Hint Resolve extends_bind extends_ret extends_lift extends_throw extends_gets_pos extends_fixed : reading.
#[export] Hint Resolve yields_pure yields_throw yields_fixed : reading.

Lemma extends_if {A} (b : bool) (m m' k k' : reader A) :
  extends m m' -> extends k k' -> extends (if b then m else k) (if b then m' else k').
Proof. by destruct b. Qed.

Lemma extends_take n : extends (read_take n) (read_take n).
Proof. unfold read_take. apply extends_bind; [auto with reading|]. intros p. apply extends_if; auto with reading. Qed.

Lemma extends_int n : extends (s ← read_fixed n; mret (le_value s)) (s ← read_fixed n; mret (le_value s)).
Proof. auto with reading. Qed.

Lemma yields_take n : yields (fun s => zlen s = n /\ Forall is_byte s) (read_take n).
Proof.
  unfold read_take. eapply yields_seq; [apply yields_gets|]. intros p _. destruct (_ <? _); auto with reading.
Qed.

Lemma yields_int n : yields (fun x => 0 <= x) (s ← read_fixed n; mret (le_value s)).
Proof.
  eapply yields_seq; [apply yields_fixed|]. intros s [_ Hs]. apply yields_pure. by apply le_value_bounds.
Qed.

#[export] Hint Resolve extends_if extends_take extends_int yields_take yields_int : reading.

(** ** Facts: the header *)

Definition fields_ok (h : HeaderFields) : Prop :=
  (forall s, f_master_seed h = Some s -> zlen s = 32) /\
  (forall s, f_transform_seed h = Some s -> zlen s = 32) /\
  (forall r, f_transform_rounds h = Some r -> 0 <= r) /\
  (forall d, f_kdf_variant_dict h = Some d -> Forall is_byte d).

Definition dict_ok (d : VariantDict) : Prop :=
  (forall x, vd_parallelism d = Some x -> 0 <= x) /\ (forall x, vd_iterations d = Some x -> 0 <= x)
  /\ (forall x, vd_rounds d = Some x -> 0 <= x).

Lemma header_field_ok id data h h' :
  Forall is_byte data -> fields_ok h -> header_field id data h = Ok h' -> fields_ok h'.
Proof.
  intros Hb (H1 & H2 & H3 & H4). pose proof (proj1 (le_value_bounds data Hb)).
  destruct h as [c z m ts tr iv k sb ic d]. unfold header_field. intros He. result_inv;
    (split_and!; cbn in *; naive_solver).
Qed.

Lemma variant_entry_ok tag key val d d' :
  Forall is_byte val -> dict_ok d -> variant_entry tag key val d = Ok d' -> dict_ok d'.
Proof.
  intros Hb (H1 & H2 & H3). pose proof (proj1 (le_value_bounds val Hb)).
  destruct d as [u s p m i v r]. unfold variant_entry. cbv zeta. intros He. result_inv; (split_and!; cbn in *; naive_solver).
Qed.

Lemma header_loop_yields fuel format h : fields_ok h -> yields fields_ok (header_loop fuel format h).
Proof.
  revert h. induction fuel as [|fuel IH]; intros h Hh; cbn [header_loop]; [auto with reading|].
  eapply yields_seq; [apply yields_int|]. intros id _.
  apply (yields_seq (fun x => 0 <= x)); [destruct format; apply yields_int|]. intros len _.
  destruct (_ <? _); [auto with reading|].
  eapply yields_seq; [apply yields_take|]. intros data [_ Hd]. destruct (_ =? _); [auto with reading|].
  eapply (yields_seq fields_ok); [apply yields_lift; eauto using header_field_ok|]. auto.
Qed.

Lemma variant_loop_yields fuel count d : dict_ok d -> yields dict_ok (variant_loop fuel count d).
Proof.
  revert count d. induction fuel as [|fuel IH]; intros count d Hd; cbn [variant_loop]; [auto with reading|].
  eapply yields_seq; [apply yields_int|]. intros tag _.
  destruct (_ =? _); [auto with reading|]. destruct (_ <? _); [auto with reading|].
  eapply yields_seq; [apply yields_int|]. intros kl _. destruct (_ <? _); [auto with reading|].
  eapply yields_seq; [apply yields_take|]. intros key _.
  eapply yields_seq; [apply yields_int|]. intros vl _. destruct (_ <? _); [auto with reading|].
  eapply yields_seq; [apply yields_take|]. intros val [_ Hv].
  eapply (yields_seq dict_ok); [apply yields_lift; eauto using variant_entry_ok|]. auto.
Qed.

(** What a key derivation may cost. *)
Definition kdf_bounded (k : Kdf) : Prop :=
  match k with
  | Aes seed rounds => zlen seed = 32 /\ 0 <= rounds <= 100000000
  | Argon2 variant salt parallelism memory_kib iterations version =>
      (variant = 0 \/ variant = 2) /\ 8 <= zlen salt <= 64 /\ 1 <= parallelism <= 8
      /\ 8 <= memory_kib <= 1048576 /\ 1 <= iterations <= 64 /\ iterations * memory_kib <= 4194304
      /\ (version = 0x10 \/ version = 0x13)
  end.

Lemma resolve_kdf_bounded d k : dict_ok d -> resolve_kdf d = Ok k -> kdf_bounded k.
Proof.
  intros (H1 & H2 & H3). unfold resolve_kdf, saturating_mul, U64_MAX. intros He. result_inv.
  - split; [done|]. match goal with H : vd_rounds d = Some _ |- _ => apply H3 in H end.
    repeat match goal with H : (_ <? _) = false |- _ => apply Z.ltb_ge in H end. lia.
  - repeat match goal with
    | H : vd_parallelism d = Some _ |- _ => apply H1 in H
    | H : vd_iterations d = Some _ |- _ => apply H2 in H
    | H : (_ || _) = false |- _ => apply orb_false_iff in H as [? ?]
    | H : negb _ = false |- _ => apply negb_false_iff in H
    | H : in_range _ _ _ = true |- _ => apply andb_prop in H as [?%Z.leb_le ?%Z.leb_le]
    | H : (_ <? _) = false |- _ => apply Z.ltb_ge in H
    | H : (_ =? _) = false |- _ => apply Z.eqb_neq in H
    end.
    cbn [kdf_bounded]. split; [case_bool_decide; auto|]. split_and!; nia.
Qed.

Lemma read_kdf_yields fuel : yields kdf_bounded (read_kdf fuel).
Proof.
  unfold read_kdf. eapply yields_seq; [apply yields_int|]. intros _ _.
  eapply (yields_seq dict_ok); [apply variant_loop_yields; by split_and!|]. intros d Hd.
  apply yields_lift. intros k Hk. by apply (resolve_kdf_bounded d).
Qed.

Lemma parse_kdf_bounded buf k : Forall is_byte buf -> parse_kdf_variant_dict buf = Ok k -> kdf_bounded k.
Proof.
  intros Hb. unfold parse_kdf_variant_dict. destruct (read_kdf _ _) as [r r'] eqn:E. cbn [fst]. intros ->.
  by apply read_kdf_yields in E as [? _].
Qed.

Definition iv_length (c : OuterCipher) : Z := match c with Aes256Cbc => 16 | ChaCha20 => 12 end.

Definition header_ok (h : OuterHeader) : Prop :=
  kdf_bounded (kdf h) /\ zlen (master_seed h) = 32 /\ zlen (encryption_iv h) = iv_length (cipher h).

Lemma resolve_header_ok format buf n f h :
  fields_ok f -> resolve_header format buf n f = Ok h ->
  header_ok h /\ header_len h = n /\ exists rest, buf = raw_header h ++ rest /\ zlen (raw_header h) = n.
Proof.
  intros (H1 & H2 & H3 & H4). unfold resolve_header. intros He. result_inv;
    (match goal with H : get_range _ _ _ = Some _ |- _ => apply get_range_Some in H as (pre & post & -> & Hpre & ->) end;
     symmetry in Hpre; apply zlen_nil in Hpre as ->;
     match goal with H : negb _ = false |- _ => apply negb_false_iff, Z.eqb_eq in H end;
     split; [|split; [done|by exists post]]; split_and!; cbn; [|by auto|done]).
  - match goal with H : (_ <? _) = false |- _ => apply Z.ltb_ge in H end. naive_solver.
  - eauto using parse_kdf_bounded.
Qed.

Lemma read_outer_header_yields fuel : yields (fun x => fields_ok x.2) (read_outer_header fuel).
Proof.
  unfold read_outer_header. eapply yields_seq; [apply yields_int|]. intros s1 _.
  eapply yields_seq; [apply yields_int|]. intros s2 _.
  repeat (destruct (negb _) || destruct (s2 =? _)); try apply yields_throw.
  eapply yields_seq; [apply yields_int|]. intros mi _. eapply yields_seq; [apply yields_int|]. intros ma _.
  apply (yields_seq (fun _ => True)); [repeat destruct (_ =? _); auto with reading|]. intros fm _.
  eapply (yields_seq fields_ok); [apply header_loop_yields; by split_and!|]. intros h Hh. by apply yields_pure.
Qed.

(** C29. Whatever the bytes, a header that is accepted bounds the work and the memory of
    the key derivation that runs before anything is authenticated: at most 10^8
    rounds of AES, or at most 8 lanes, 1 GiB and 64 passes of Argon2 with at most
    2^22 KiB-passes in all, under a version and a variant there are; its seed and its
    IV have the lengths the hash and the cipher take; and the bytes it
    authenticates are those it was read from. *)
Theorem kdf_work_bounded buf h :
  Forall is_byte buf -> parse_outer_header buf = Ok h ->
  header_ok h /\ exists rest, buf = raw_header h ++ rest /\ zlen (raw_header h) = header_len h.
Proof.
  intros Hb. unfold parse_outer_header. destruct (read_outer_header _ _) as [[[fm f]|] r] eqn:E; [|done]. intros Hr.
  apply read_outer_header_yields in E as [Hf _]; [|done].
  destruct (resolve_header_ok _ _ _ _ _ Hf Hr) as (H1 & H2 & rest & H3 & H4). split; [done|]. exists rest.
  split; [done|congruence].
Qed.

(** *** A header does not depend on what follows it *)

Lemma header_loop_extends fuel fuel' format h :
  (fuel <= fuel')%nat -> extends (header_loop fuel format h) (header_loop fuel' format h).
Proof.
  revert fuel' h. induction fuel as [|fuel IH]; intros [|fuel'] h Hf; cbn [header_loop]; try apply extends_throw; [lia|].
  apply extends_bind; [apply extends_int|]. intros id.
  apply extends_bind; [destruct format; apply extends_int|]. intros len.
  apply extends_if; [apply extends_throw|]. apply extends_bind; [apply extends_take|]. intros data.
  apply extends_if; [apply extends_ret|]. apply extends_bind; [apply extends_lift|]. intros h'. apply IH. lia.
Qed.

Lemma read_outer_header_extends fuel fuel' :
  (fuel <= fuel')%nat -> extends (read_outer_header fuel) (read_outer_header fuel').
Proof.
  intros Hf. unfold read_outer_header. apply extends_bind; [apply extends_int|]. intros s1.
  apply extends_bind; [apply extends_int|]. intros s2.
  repeat (apply extends_if; [apply extends_throw|]).
  apply extends_bind; [apply extends_int|]. intros mi. apply extends_bind; [apply extends_int|]. intros ma.
  apply extends_bind; [repeat apply extends_if; auto with reading|]. intros fm.
  apply extends_bind; [by apply header_loop_extends|]. intros h. apply extends_ret.
Qed.

Lemma parse_outer_header_extend buf rest h :
  parse_outer_header buf = Ok h -> parse_outer_header (buf ++ rest) = Ok h.
Proof.
  unfold parse_outer_header. destruct (read_outer_header _ _) as [[[fm f]|] r] eqn:E; [|done]. intros Hr.
  apply (read_outer_header_extends _ (S (length (buf ++ rest)))) in E as (pos & -> & E); [|rewrite length_app; lia].
  rewrite E. cbn [rd_pos] in *. unfold resolve_header in *.
  destruct (get_range buf 0 pos) as [raw|] eqn:Er; [|done]. by rewrite (get_range_extend _ _ _ _ _ Er).
Qed.

(** ** Facts: the blocks *)

Section blocks.
Context `{KdbxLaws}.

(** The stream of a list of blocks, from number [i], with the empty block that ends it. *)
Fixpoint frame (hbase : list Z) (i : Z) (ds : list (list Z)) : list Z :=
  match ds with
  | [] => write_block hbase i []
  | d :: ds => write_block hbase i d ++ frame hbase (i + 1) ds
  end.

Lemma zlen_sha256 l : zlen (sha256 l) = 32.
Proof. unfold zlen. by rewrite length_sha256. Qed.

Lemma zlen_hmac k l : zlen (hmac_sha256 k l) = 32.
Proof. unfold zlen. by rewrite length_hmac. Qed.

Lemma zlen_le n x : zlen (to_le_bytes n x) = Z.of_nat n.
Proof. unfold zlen. by rewrite length_to_le_bytes. Qed.

Lemma get_range_next pre s post a n :
  a = zlen pre -> n = zlen s -> get_range (pre ++ s ++ post) a (a + n) = Some s.
Proof. intros ->. apply get_range_at. Qed.

Lemma get_range_rest pre s n x :
  get_range (pre ++ s) (zlen pre) (zlen pre + n) = Some x -> exists rest, s = x ++ rest /\ zlen x = n.
Proof.
  intros (pre' & post & He & Hl & Hn)%get_range_Some. unfold zlen in Hl.
  apply app_inj_1 in He as [-> ->]; [|lia]. exists post. split; [done|lia].
Qed.

(** *** The formulas of the reader and of the writer agree *)

(** A header accepted by its tag, as the writer would have computed it. *)
Lemma decrypt_kdbx4_written header composite after_header :
  decrypt_kdbx4_payload header composite after_header =
  (transformed ← transform_key composite (kdf header);
   let mkey := write_master_key (master_seed header) transformed in
   let hbase := write_hmac_base (master_seed header) transformed in
   if zlen after_header <? 64 then Err CorruptHeader
   else if negb (bool_decide (sha256 (raw_header header) = slice 0 32 after_header)) then Err CorruptHeader
   else if negb (bool_decide (write_header_mac hbase (raw_header header) = slice 32 32 after_header)) then Err WrongCredentials
   else
     ct ← block_loop (S (length (drop 64 after_header))) hbase (drop 64 after_header) 0 0 [];
     decrypt_outer (cipher header) mkey (encryption_iv header) ct (bool_decide (cipher header = Aes256Cbc))).
Proof. done. Qed.

Lemma block_mac_written hbase idx d :
  write_block hbase idx d = block_mac hbase idx d ++ to_le_bytes 4 (zlen d) ++ d.
Proof. done. Qed.

(** One round of the loop, on a stream that has a block there. *)
Lemma block_loop_step fuel hbase pre idx d rest ct :
  zlen d <= KDBX_MAX_INFLATED_BYTES ->
  block_loop (S fuel) hbase (pre ++ write_block hbase idx d ++ rest) (zlen pre) idx ct =
  if zlen d =? 0 then Ok ct
  else
    idx' ← ok_or (u64_try_from (idx + 1)) CorruptPayload;
    if KDBX_MAX_INFLATED_BYTES <? zlen (ct ++ d) then Err (InflatedTooLarge KDBX_MAX_INFLATED_BYTES)
    else block_loop fuel hbase (pre ++ write_block hbase idx d ++ rest)
           (zlen (pre ++ write_block hbase idx d)) idx' (ct ++ d).
Proof.
  intros Hd. cbn [block_loop]. rewrite block_mac_written, <- !app_assoc.
  set (tag := block_mac hbase idx d). set (len := to_le_bytes 4 (zlen d)).
  assert (Ht : zlen tag = 32) by apply zlen_hmac. assert (Hl : zlen len = 4) by apply zlen_le.
  rewrite (get_range_at pre tag) by lia. cbn [ok_or mbind result_bind].
  rewrite (app_assoc pre tag).
  rewrite (get_range_next (pre ++ tag) len _ (zlen pre + 32) 4) by (rewrite ?zlen_app; lia). cbn [ok_or mbind result_bind].
  rewrite (app_assoc (pre ++ tag) len).
  assert (Hv : le_value len = zlen d).
  { apply le_value_to_le_bytes. split; [apply zlen_nonneg|]. unfold KDBX_MAX_INFLATED_BYTES in Hd. lia. }
  rewrite Hv. destruct (Z.ltb_spec KDBX_MAX_INFLATED_BYTES (zlen d)); [lia|].
  rewrite (get_range_next ((pre ++ tag) ++ len) d) by (rewrite ?zlen_app; lia). cbn [ok_or mbind result_bind].
  rewrite (bool_decide_eq_true_2 (_ = tag)) by done. cbn [negb].
  replace (zlen (pre ++ tag ++ len ++ d)) with (zlen pre + 32 + 4 + zlen d) by (rewrite !zlen_app; lia). done.
Qed.

Lemma block_loop_frame ds fuel hbase pre idx rest ct :
  (length ds < fuel)%nat -> 0 <= idx -> idx + Z.of_nat (length ds) <= U64_MAX ->
  Forall (fun d => d <> []) ds -> zlen (ct ++ mjoin ds) <= KDBX_MAX_INFLATED_BYTES ->
  block_loop fuel hbase (pre ++ frame hbase idx ds ++ rest) (zlen pre) idx ct = Ok (ct ++ mjoin ds).
Proof.
  revert fuel pre idx ct. induction ds as [|d ds IH]; intros [|fuel] pre idx ct Hf H0i Hi Hne Hz; cbn in Hf; try lia.
  - cbn [frame]. rewrite block_loop_step by by vm_compute. cbn. by rewrite app_nil_r.
  - inversion Hne as [|? ? Hd Hds]; subst. cbn [length] in Hi.
    change (mjoin (d :: ds)) with (d ++ mjoin ds) in *. rewrite (app_assoc ct d) in Hz |- *.
    pose proof Hz as Hz'. rewrite !zlen_app in Hz'. pose proof (zlen_nonneg ct). pose proof (zlen_nonneg (mjoin ds)).
    cbn [frame]. rewrite <- (app_assoc (write_block _ _ _)). rewrite block_loop_step by lia.
    destruct (Z.eqb_spec (zlen d) 0) as [Hn|_]; [by apply zlen_nil in Hn|].
    unfold u64_try_from. rewrite (proj2 (try_from_Some _ _ _ (idx + 1))) by lia. cbn [ok_or mbind result_bind].
    destruct (Z.ltb_spec KDBX_MAX_INFLATED_BYTES (zlen (ct ++ d))); [rewrite zlen_app in *; lia|].
    rewrite (app_assoc pre). apply IH; [lia..|done|done].
Qed.

Lemma block_loop_inv fuel hbase pre s idx ct out :
  Forall is_byte s -> zlen ct <= KDBX_MAX_INFLATED_BYTES ->
  block_loop fuel hbase (pre ++ s) (zlen pre) idx ct = Ok out ->
  exists ds rest, s = frame hbase idx ds ++ rest /\ Forall (fun d => d <> []) ds
    /\ out = ct ++ mjoin ds /\ zlen out <= KDBX_MAX_INFLATED_BYTES.
Proof.
  revert pre s idx ct. induction fuel as [|fuel IH]; intros pre s idx ct Hb Hct He; [done|].
  assert (Hs : exists d rest, s = write_block hbase idx d ++ rest /\ zlen d <= KDBX_MAX_INFLATED_BYTES).
  { cbn [block_loop] in He. apply bind_Ok in He as (tag & Ht%ok_or_Ok & He).
    apply get_range_rest in Ht as (s1 & -> & Ht). rewrite app_assoc, <- Ht, <- zlen_app in He.
    apply bind_Ok in He as (len & Hl%ok_or_Ok & He).
    apply get_range_rest in Hl as (s2 & -> & Hl). rewrite app_assoc, <- Hl, <- zlen_app in He.
    destruct (Z.ltb_spec KDBX_MAX_INFLATED_BYTES (le_value len)) as [|Hle]; [done|].
    apply bind_Ok in He as (d & Hd%ok_or_Ok & He).
    apply get_range_rest in Hd as (s3 & -> & Hd). case_bool_decide as Hm; [|done].
    exists d, s3. rewrite block_mac_written, Hm, <- !app_assoc, Hd. split; [|done]. do 2 f_equal.
    apply Forall_app in Hb as [_ [Hlb _]%Forall_app]. rewrite <- (to_le_bytes_le_value len) at 1 by done.
    f_equal. unfold zlen in Hl. lia. }
  destruct Hs as (d & rest & -> & Hd). rewrite block_loop_step in He by done.
  destruct (Z.eqb_spec (zlen d) 0) as [Hn|Hn].
  { injection He as <-. apply zlen_nil in Hn as ->. exists [], rest. cbn. by rewrite app_nil_r. }
  apply bind_Ok in He as (i & Hi & He). apply ok_or_Ok, try_from_Some in Hi as [-> _].
  destruct (Z.ltb_spec KDBX_MAX_INFLATED_BYTES (zlen (ct ++ d))) as [|Hc]; [done|].
  rewrite app_assoc in He. apply Forall_app in Hb as [_ Hb].
  destruct (IH _ _ _ _ Hb Hc He) as (ds & r & -> & Hne & -> & Hz). exists (d :: ds), r.
  csimpl. rewrite <- !app_assoc in *. split_and!; try done. constructor; [|done]. by intros ->.
Qed.

(** What a KDBX 4 file says after its header, before decryption. *)
Definition kdbx4_tail (header : OuterHeader) (transformed : list Z) (ds : list (list Z)) : list Z :=
  let hbase := write_hmac_base (master_seed header) transformed in
  sha256 (raw_header header) ++ write_header_mac hbase (raw_header header) ++ frame hbase 0 ds.

Lemma slice_head n l m : length l = n -> slice 0 n (l ++ m) = l.
Proof. intros <-. unfold slice. rewrite drop_0. apply take_app_length. Qed.

Lemma slice_next n k l m r : length l = n -> length m = k -> slice n k (l ++ m ++ r) = m.
Proof. intros <- <-. unfold slice. rewrite drop_app_length. apply take_app_length. Qed.

Lemma slice_tags (l : list Z) : slice 0 32 l ++ slice 32 32 l ++ drop 64 l = l.
Proof.
  unfold slice. rewrite drop_0. change 64%nat with (32 + 32)%nat. rewrite <- drop_drop. by rewrite !take_drop.
Qed.

Lemma blocks_bound (ds : list (list Z)) : Forall (fun d => d <> []) ds -> Z.of_nat (length ds) <= zlen (mjoin ds).
Proof.
  induction 1 as [|d ds Hd _ IH]; [done|]. change (mjoin (d :: ds)) with (d ++ mjoin ds).
  rewrite zlen_app. cbn [length]. destruct d; [done|]. unfold zlen in *. cbn [length]. lia.
Qed.

Lemma frame_length hbase i ds : (length ds < length (frame hbase i ds))%nat.
Proof.
  revert i. induction ds as [|d ds IH]; intros i; cbn [frame]; unfold write_block;
    rewrite ?length_app, length_hmac; [cbn; lia|]. specialize (IH (i + 1)). cbn [length]. lia.
Qed.

Lemma decrypt_kdbx4_opens header composite transformed ds rest :
  transform_key composite (kdf header) = Ok transformed ->
  Forall (fun d => d <> []) ds -> zlen (mjoin ds) <= KDBX_MAX_INFLATED_BYTES ->
  decrypt_kdbx4_payload header composite (kdbx4_tail header transformed ds ++ rest) =
  decrypt_outer (cipher header) (write_master_key (master_seed header) transformed) (encryption_iv header) (mjoin ds)
    (bool_decide (cipher header = Aes256Cbc)).
Proof.
  intros Ht Hne Hz. rewrite decrypt_kdbx4_written. unfold kdbx4_tail. rewrite Ht. cbn [mbind result_bind].
  rewrite <- !app_assoc.
  set (sha := sha256 _). set (tag := write_header_mac _ (raw_header header)).
  assert (Hs : length sha = 32%nat) by apply length_sha256. assert (Hg : length tag = 32%nat) by apply length_hmac.
  rewrite slice_head, slice_next by done. replace (_ <? 64) with false by (symmetry; apply Z.ltb_ge; rewrite !zlen_app; unfold zlen; lia).
  rewrite !bool_decide_eq_true_2 by done. cbn [negb].
  replace (drop 64 _) with (frame (write_hmac_base (master_seed header) transformed) 0 ds ++ rest)
    by (rewrite (app_assoc sha), drop_app_length'; [done|rewrite length_app; lia]).
  pose proof (blocks_bound ds Hne). unfold KDBX_MAX_INFLATED_BYTES, U64_MAX in *.
  match goal with |- context [block_loop ?fuel ?h (?f ++ rest) 0 0 []] =>
    pose proof (block_loop_frame ds fuel h [] 0 rest []) as Hl end.
  cbn [app] in Hl. change (zlen []) with 0 in Hl. rewrite Hl; [done| |lia|unfold U64_MAX; lia|done|done].
  rewrite length_app. pose proof (frame_length (write_hmac_base (master_seed header) transformed) 0 ds). lia.
Qed.

(** C27. After a header, a KDBX 4 payload is decrypted from exactly these bytes: the hash
    of the header, its tag, and blocks that are not empty, each with the tag of its
    number, its length and its bytes under the key of its number, then the tagged
    empty block; what is decrypted is the blocks in their order, at most 256 MiB.  The
    keys and the tags are those of the formulas with which [build_kdbx4] writes a file.
    Nothing is authenticated after the empty block. *)
Theorem kdbx4_payload_exact header composite after_header pt :
  Forall is_byte after_header ->
  decrypt_kdbx4_payload header composite after_header = Ok pt <->
  exists transformed ds rest,
    transform_key composite (kdf header) = Ok transformed
    /\ after_header = kdbx4_tail header transformed ds ++ rest
    /\ Forall (fun d => d <> []) ds /\ zlen (mjoin ds) <= KDBX_MAX_INFLATED_BYTES
    /\ decrypt_outer (cipher header) (write_master_key (master_seed header) transformed) (encryption_iv header)
         (mjoin ds) (bool_decide (cipher header = Aes256Cbc)) = Ok pt.
Proof.
  intros Hb. split; [|intros (t & ds & rest & Ht & -> & Hne & Hz & Hd); by rewrite (decrypt_kdbx4_opens _ _ t)].
  rewrite decrypt_kdbx4_written. intros (t & Ht & He)%bind_Ok. exists t. cbv zeta in He.
  destruct (Z.ltb_spec (zlen after_header) 64) as [|Hl]; [done|].
  case_bool_decide as Hs; [|done]. case_bool_decide as Hg; [|done]. cbn [negb] in He.
  apply bind_Ok in He as (ct & Hct & Hd).
  rewrite <- (take_drop 64 after_header) in Hb. apply Forall_app in Hb as [_ Hb].
  apply (block_loop_inv _ _ [] _ 0 []) in Hct as (ds & rest & Hf & Hne & -> & Hz); [|done|by vm_compute].
  exists ds, rest. split_and!; try done. unfold kdbx4_tail. rewrite Hs, Hg, <- !app_assoc, <- Hf.
  cbn [app]. by rewrite slice_tags.
Qed.

(** ** Facts: what the writer writes is read back *)

Lemma strip_pad l : strip_pkcs7 (pkcs7_pad l) = Ok l.
Proof.
  unfold strip_pkcs7, pkcs7_pad. pose proof (Nat.mod_upper_bound (length l) 16 ltac:(lia)).
  set (pad := (16 - length l mod 16)%nat). assert (Hp : (0 < pad <= 16)%nat) by lia.
  assert (Hlast : last (l ++ replicate pad (Z.of_nat pad)) = Some (Z.of_nat pad)).
  { destruct pad as [|p]; [lia|]. rewrite replicate_S_end, app_assoc. apply last_snoc. }
  rewrite Hlast. cbn [ok_or mbind result_bind].
  replace (_ || _) with false.
  2: { symmetry. rewrite !orb_false_iff, Z.eqb_neq, !Z.ltb_ge, zlen_app. unfold zlen. rewrite length_replicate. lia. }
  rewrite length_app, length_replicate, Nat2Z.id.
  replace (length l + pad - pad)%nat with (length l) by lia. rewrite drop_app_length, take_app_length.
  replace (forallb _ _) with true; [done|]. symmetry. generalize pad at 2. intros n.
  induction n as [|n IH]; cbn; [done|by rewrite Z.eqb_refl].
Qed.

Lemma pad_blocks l : Forall is_byte l -> is_block_list 16 (pkcs7_pad l) /\ 0 < zlen (pkcs7_pad l).
Proof.
  intros Hb. unfold pkcs7_pad. pose proof (Nat.div_mod (length l) 16 ltac:(lia)).
  pose proof (Nat.mod_upper_bound (length l) 16 ltac:(lia)). split; [split|].
  - rewrite length_app, length_replicate. exists (length l / 16 + 1)%nat. lia.
  - apply Forall_app. split; [done|]. apply Forall_replicate. unfold is_byte. lia.
  - rewrite zlen_app. unfold zlen. rewrite length_replicate. lia.
Qed.

Lemma apply_keystream_twice ks pos l : apply_keystream ks pos (apply_keystream ks pos l) = l.
Proof.
  unfold apply_keystream. revert pos. induction l as [|x l IH]; intros pos; [done|].
  cbn [length seq]. rewrite fmap_cons. cbn [zip_with length seq]. rewrite fmap_cons. cbn [zip_with].
  rewrite Z.lxor_assoc, Z.lxor_nilpotent, Z.lxor_0_r. f_equal. apply IH.
Qed.

Lemma length_keystream ks pos l : length (apply_keystream ks pos l) = length l.
Proof. unfold apply_keystream. rewrite length_zip_with, length_fmap, length_seq. lia. Qed.

Lemma cbc_opens key iv l strip :
  Forall is_byte l -> zlen iv = 16 ->
  decrypt_outer Aes256Cbc key iv (cbc_encrypt key iv (pkcs7_pad l)) strip =
  if strip then Ok l else Ok (pkcs7_pad l).
Proof.
  intros Hb Hiv. destruct (pad_blocks l Hb) as [Hbl Hpos]. unfold decrypt_outer. destruct Hbl as [[k Hk] Hbb].
  assert (Hz : zlen (cbc_encrypt key iv (pkcs7_pad l)) = Z.of_nat k * 16).
  { unfold zlen. rewrite length_cbc_encrypt, Hk. lia. }
  rewrite Hz, Z_mod_mult. assert (zlen (pkcs7_pad l) = Z.of_nat k * 16) by (unfold zlen; lia).
  destruct (Z.eqb_spec (Z.of_nat k * 16) 0); [lia|]. cbn [orb negb Z.eqb].
  unfold array. rewrite (proj2 (Z.eqb_eq _ _) Hiv). cbn [mbind result_bind].
  rewrite cbc_roundtrip by (split; [by exists k|done]). destruct strip; [apply strip_pad|done].
Qed.

Lemma write_encrypt_opens c mkey l :
  l <> [] -> Forall is_byte l ->
  let cipher := match c with WriteAes256Cbc => Aes256Cbc | WriteChaCha20 => ChaCha20 end in
  decrypt_outer cipher mkey (write_iv c) (write_encrypt c mkey l) (bool_decide (cipher = Aes256Cbc)) = Ok l
  /\ write_encrypt c mkey l <> [].
Proof.
  intros Hne Hb. destruct c; cbn [write_encrypt]; cbv zeta.
  - rewrite bool_decide_eq_true_2 by done. split; [by apply cbc_opens|].
    intros He%(f_equal length). rewrite length_cbc_encrypt in He. destruct (pad_blocks l Hb) as [_ Hp].
    unfold zlen in Hp. cbn in He. lia.
  - rewrite bool_decide_eq_false_2 by done. split.
    + unfold decrypt_outer. change (array 12 (write_iv WriteChaCha20) CorruptHeader) with (Ok (E := KdbxError) (write_iv WriteChaCha20)).
      cbn [mbind result_bind]. by rewrite apply_keystream_twice.
    + intros He%(f_equal length). rewrite length_keystream in He. by destruct l.
Qed.

Lemma collect_chunks_all limit chunks out :
  zlen (out ++ mjoin chunks) <= limit -> collect_chunks limit chunks true out = Ok (out ++ mjoin chunks).
Proof.
  revert out. induction chunks as [|c chunks IH]; intros out Hl; [by rewrite app_nil_r|].
  change (mjoin (c :: chunks)) with (c ++ mjoin chunks) in *. cbn [collect_chunks].
  rewrite (app_assoc out) in Hl |- *. pose proof (zlen_nonneg (mjoin chunks)).
  destruct (Z.ltb_spec limit (zlen out + zlen c)); [rewrite !zlen_app in Hl; lia|]. by apply IH.
Qed.

Lemma gunzip_gzip l limit : zlen l <= limit -> gunzip_bounded (gzip l) limit = Ok l.
Proof.
  intros Hl. unfold gunzip_bounded. destruct (inflate_gzip l) as [-> He].
  rewrite collect_chunks_all; cbn [app]; by rewrite He.
Qed.

Lemma inner_loop_extend fuel fuel' plain rest pos f r :
  (fuel <= fuel')%nat -> inner_loop fuel plain pos f = Ok r -> inner_loop fuel' (plain ++ rest) pos f = Ok r.
Proof.
  revert fuel' pos f. induction fuel as [|fuel IH]; intros [|fuel'] pos f Hf; [done|done|lia|]. cbn [inner_loop].
  intros (id & Hid%ok_or_Ok & He)%bind_Ok. rewrite (lookup_app_l_Some _ _ _ _ Hid). cbn [ok_or mbind result_bind].
  apply bind_Ok in He as (len & Hlen%ok_or_Ok & He). rewrite (get_range_extend _ _ _ _ _ Hlen). cbn [ok_or mbind result_bind].
  destruct (_ <? _); [done|].
  apply bind_Ok in He as (data & Hd%ok_or_Ok & He). rewrite (get_range_extend _ _ _ _ _ Hd). cbn [ok_or mbind result_bind].
  destruct (_ =? _); [done|]. apply bind_Ok in He as (f' & Hf' & He). rewrite Hf'. cbn [mbind result_bind].
  apply IH; [lia|done].
Qed.

(** *** The headers it writes *)

Definition outer_of (c : WriteCipher) : OuterCipher := match c with WriteAes256Cbc => Aes256Cbc | WriteChaCha20 => ChaCha20 end.

Definition kdbx4_outer (c : WriteCipher) : OuterHeader :=
  mkHeader V4 (zlen (kdbx4_header c)) (outer_of c) true (replicate 32 0x11) (write_iv c)
    (Argon2 2 (replicate 32 0x22) 1 16 1 0x13) None None None (kdbx4_header c).

Definition kdbx3_outer : OuterHeader :=
  mkHeader V3 (zlen kdbx3_header) Aes256Cbc true (replicate 32 0x11) (replicate 16 0x44)
    (Aes (replicate 32 0x22) 2) (Some (replicate 32 0x33)) (Some (replicate 32 0x66)) (Some InnerSalsa20) kdbx3_header.

Lemma parse_kdbx4_header c rest : parse_outer_header (kdbx4_header c ++ rest) = Ok (kdbx4_outer c).
Proof. apply parse_outer_header_extend. destruct c; by vm_compute. Qed.

Lemma parse_kdbx3_header rest : parse_outer_header (kdbx3_header ++ rest) = Ok kdbx3_outer.
Proof. apply parse_outer_header_extend. by vm_compute. Qed.

Lemma parse_kdbx4_inner xml :
  inner_loop (S (length (kdbx4_inner xml))) (kdbx4_inner xml) 0 (mkInnerFields None None 0 0) =
  Ok (mkInnerFields (Some InnerChaCha20) (Some (replicate 64 0x33)) 0 0, zlen (kdbx4_inner [])).
Proof.
  replace (kdbx4_inner xml) with (kdbx4_inner [] ++ xml) by (unfold kdbx4_inner; by rewrite <- !app_assoc).
  eapply (inner_loop_extend (S (length (kdbx4_inner [])))); [rewrite length_app; lia|]. by vm_compute.
Qed.

(** *** Files *)

(** The bytes of a key file that are the key themselves. *)
Definition raw_keyfile (kf : list Z) : Prop := zlen kf = 32 /\ parse_xml_keyfile kf = Ok None.

Lemma composite_written password keyfile c :
  write_composite password keyfile = Some c -> (forall kf, keyfile = Some kf -> raw_keyfile kf) ->
  composite_key password keyfile = Ok c.
Proof.
  unfold write_composite, composite_key. intros Hc Hk. destruct keyfile as [kf|].
  - injection Hc as <-. destruct (Hk kf eq_refl) as [Hl Hx]. unfold keyfile_key. rewrite Hx. cbn [mbind result_bind].
    rewrite (proj2 (Z.eqb_eq _ _) Hl). by destruct password.
  - destruct password as [pw|]; [|done]. by injection Hc as <-.
Qed.

Lemma get_range_tail pre s : get_range (pre ++ s) (zlen pre) (zlen (pre ++ s)) = Some s.
Proof. rewrite zlen_app. rewrite <- (app_nil_r s) at 1. by apply get_range_at. Qed.

Lemma plain_written header l :
  compressed header = true -> zlen l <= KDBX_MAX_INFLATED_BYTES -> plain_payload header (gzip l) = Ok l.
Proof. intros Hc Hl. unfold plain_payload. rewrite Hc. by apply gunzip_gzip. Qed.

Lemma pad_after a b : length a = 32%nat -> pkcs7_pad (a ++ b) = a ++ pkcs7_pad b.
Proof.
  intros Ha. unfold pkcs7_pad. rewrite length_app, Ha, <- app_assoc.
  replace ((32 + length b) mod 16)%nat with (length b mod 16)%nat; [done|].
  replace (32 + length b)%nat with (length b + 2 * 16)%nat by lia. symmetry. apply Nat.Div0.mod_add.
Qed.

Lemma inner_xml xml : drop (Z.to_nat (zlen (kdbx4_inner []))) (kdbx4_inner xml) = xml.
Proof.
  unfold zlen. rewrite Nat2Z.id.
  replace (kdbx4_inner xml) with (kdbx4_inner [] ++ xml) by (unfold kdbx4_inner; by rewrite <- !app_assoc).
  apply drop_app_length.
Qed.

Lemma inner_bytes xml : Forall is_byte xml -> Forall is_byte (kdbx4_inner xml).
Proof.
  intros Hb. replace (kdbx4_inner xml) with (kdbx4_inner [] ++ xml) by (unfold kdbx4_inner; by rewrite <- !app_assoc).
  apply Forall_app. split; [by apply check_bytes|done].
Qed.

(** What [build_kdbx4] wraps, [read_kdbx] unwraps. *)
Lemma open_seal_kdbx4 xml password keyfile c file :
  seal_kdbx4 xml password keyfile c = Some file ->
  (forall kf, keyfile = Some kf -> raw_keyfile kf) ->
  Forall is_byte xml -> zlen file <= KDBX_MAX_FILE_BYTES -> zlen (kdbx4_inner xml) <= KDBX_MAX_INFLATED_BYTES ->
  open_kdbx file password keyfile = Ok (true, mkInner InnerChaCha20 (replicate 64 0x33) xml 0 0).
Proof.
  unfold seal_kdbx4, write_argon2id. intros (comp & Hc & (tr & Ht & He)%bind_Some)%bind_Some Hk Hb Hfile Hxml. injection He as <-.
  apply composite_written in Hc; [|done]. destruct (gzip_bytes (kdbx4_inner xml)) as [Hgn Hgb]; [by apply inner_bytes|].
  destruct (write_encrypt_opens c (write_master_key (replicate 32 17) tr) _ Hgn Hgb) as [Hdec Hct].
  cbv zeta in *. set (ct := write_encrypt _ _ _) in *. unfold open_kdbx.
  rewrite (proj2 (Z.ltb_ge _ _) Hfile). unfold kdbx4_file in *. rewrite parse_kdbx4_header. cbn [mbind result_bind]. rewrite Hc. cbn [mbind result_bind].
  change (header_len (kdbx4_outer c)) with (zlen (kdbx4_header c)). rewrite get_range_tail. cbn [ok_or mbind result_bind].
  change (format (kdbx4_outer c)) with V4. cbv beta iota.
  match goal with |- context [decrypt_kdbx4_payload _ _ ?t] =>
    replace t with (kdbx4_tail (kdbx4_outer c) tr [ct] ++ [])
      by (unfold kdbx4_tail; cbn [frame]; rewrite app_nil_r, <- ?app_assoc; reflexivity) end.
  rewrite (decrypt_kdbx4_opens _ _ tr).
  - change (mjoin [ct]) with (ct ++ []). rewrite app_nil_r.
    change (decrypt_outer (cipher (kdbx4_outer c)) _ _ ct _) with
      (decrypt_outer (outer_of c) (write_master_key (replicate 32 17) tr) (write_iv c) ct (bool_decide (outer_of c = Aes256Cbc))).
    unfold outer_of. rewrite Hdec. cbn [map_err mbind result_bind].
    unfold parse_inner_payload. rewrite plain_written by done. cbn [mbind result_bind].
    change (format (kdbx4_outer c)) with V4. cbv beta iota. rewrite parse_kdbx4_inner. cbn [mbind result_bind].
    rewrite inner_xml. done.
  - change (transform_key comp (kdf (kdbx4_outer c))) with
      (if negb (argon2_params 16 1 1) then Err KdfParamsRejected
       else ok_or (argon2_hash 2 0x13 16 1 1 comp (replicate 32 0x22)) UnsupportedKdf).
    destruct (argon2_smallest 2 comp (replicate 32 0x22) ltac:(by vm_compute)) as [-> _]. cbn [negb]. by rewrite Ht.
  - by repeat constructor.
  - change (mjoin [ct]) with (ct ++ []). rewrite app_nil_r. rewrite !zlen_app in Hfile. unfold write_block in Hfile.
    rewrite !zlen_app in Hfile. unfold KDBX_MAX_FILE_BYTES, KDBX_MAX_INFLATED_BYTES in *.
    unfold zlen in *. lia.
Qed.

Lemma open_seal_kdbx3 xml password :
  Forall is_byte xml -> zlen (seal_kdbx3 xml password) <= KDBX_MAX_FILE_BYTES -> zlen xml <= KDBX_MAX_INFLATED_BYTES ->
  open_kdbx (seal_kdbx3 xml password) (Some password) None =
  Ok (false, mkInner InnerSalsa20 (replicate 32 0x33) xml 0 0).
Proof.
  intros Hb Hfile Hxml. unfold open_kdbx. rewrite (proj2 (Z.ltb_ge _ _) Hfile).
  unfold seal_kdbx3. rewrite parse_kdbx3_header. cbn [mbind result_bind composite_key].
  change (header_len kdbx3_outer) with (zlen kdbx3_header). rewrite get_range_tail. cbn [ok_or mbind result_bind].
  change (format kdbx3_outer) with V3. cbv beta iota.
  destruct (gzip_bytes xml Hb) as [Hgn Hgb]. unfold decrypt_kdbx3_payload.
  change (transform_key _ (kdf kdbx3_outer)) with
    (Ok (E := KdbxError) (sha256 (Z.iter 2 (aes_kdf_round (replicate 32 0x22)) (composite_key_pw password)))).
  cbn [mbind result_bind]. change (cipher kdbx3_outer) with Aes256Cbc.
  change (encryption_iv kdbx3_outer) with (replicate 16 0x44). change (master_seed kdbx3_outer) with (replicate 32 0x11).
  rewrite cbc_opens by (done || by apply Forall_app; split; [apply Forall_replicate|]).
  change (v3_stream_start_bytes kdbx3_outer) with (Some (replicate 32 0x66)). cbn [ok_or mbind result_bind].
  rewrite pad_after by done. rewrite zlen_app. pose proof (zlen_nonneg (pkcs7_pad (gzip xml))).
  rewrite (proj2 (Z.ltb_ge _ _)) by (unfold zlen in *; lia).
  rewrite take_app_length, drop_app_length, bool_decide_eq_true_2 by done. cbn [negb]. rewrite strip_pad.
  cbn [map_err mbind result_bind]. unfold parse_inner_payload. by rewrite plain_written.
Qed.

(** A KDBX 3 header may name no start bytes at all; under ChaCha20, which has no
    padding either, every password then decrypts. *)
Lemma kdbx3_no_start_bytes header composite ciphertext transformed :
  cipher header = ChaCha20 -> zlen (encryption_iv header) = 12 -> v3_stream_start_bytes header = Some [] ->
  transform_key composite (kdf header) = Ok transformed ->
  is_ok (decrypt_kdbx3_payload header composite ciphertext) = true.
Proof.
  intros Hc Hiv Hs Ht. unfold decrypt_kdbx3_payload. rewrite Ht, Hc, Hs. cbn [mbind result_bind decrypt_outer].
  unfold array. rewrite (proj2 (Z.eqb_eq _ _) Hiv). cbn [mbind result_bind ok_or].
  rewrite (proj2 (Z.ltb_ge _ _)) by apply zlen_nonneg. done.
Qed.
End blocks.

Definition no_start_bytes_header : list Z :=
  to_le_bytes 4 SIG1 ++ to_le_bytes 4 SIG2_KP2 ++ to_le_bytes 2 1 ++ to_le_bytes 2 3
  ++ push_field16 2 CIPHER_CHACHA20 ++ push_field16 3 (to_le_bytes 4 0)
  ++ push_field16 4 (replicate 32 0) ++ push_field16 5 (replicate 32 0) ++ push_field16 6 (to_le_bytes 8 1)
  ++ push_field16 7 (replicate 12 0) ++ push_field16 9 [] ++ push_field16 10 (to_le_bytes 4 0) ++ push_field16 0 [].

Lemma no_start_bytes_accepted :
  (v3_stream_start_bytes <$> match parse_outer_header no_start_bytes_header with Ok h => Some h | Err _ => None end)
  = Some (Some []).
Proof. by vm_compute. Qed.

(** ** An instance

    Hashes that add, ciphers that mask, letters for base64 and one byte for gzip. *)
Module KdbxSample.
Definition toy_hash (n : nat) (l : list Z) : list Z := to_be_bytes n (foldl (fun a b => a * 3 + b + 1) 7 l).
Definition toy_mask (l : list Z) : list Z := (fun b => Z.lxor b 0x5a) <$> l.
Definition toy_keystream (key nonce : list Z) (i : nat) : Z := Z.land (foldl Z.add (Z.of_nat i * 7) (key ++ nonce)) 255.
Definition toy_encode (l : list Z) : list Z := l ≫= fun b => [65 + b / 16; 65 + b mod 16].

Fixpoint toy_decode (l : list Z) : option (list Z) :=
  match l with
  | a :: b :: l => cons ((a - 65) * 16 + (b - 65)) <$> toy_decode l
  | [] => Some []
  | _ => None
  end.

#[export] Instance toy : KdbxPrims := {
  sha256 := toy_hash 32;
  sha512 := toy_hash 64;
  hmac_sha256 k l := toy_hash 32 (k ++ l);
  aes_block k b := toy_mask b;
  cbc_encrypt k iv l := toy_mask l;
  cbc_decrypt k iv l := toy_mask l;
  chacha20 := toy_keystream;
  salsa20 := toy_keystream;
  argon2_params m t p := (8 * p <=? m);
  argon2_hash v ver m t p pw salt := Some (toy_hash 32 (v :: pw ++ salt));
  base64_encode l := toy_encode ((fun b => b mod 256) <$> l);
  base64_decode := toy_decode;
  gzip l := 31 :: l;
  inflate l := match l with 31 :: l => ([l], true) | _ => ([], false) end
}.

Lemma toy_decode_encode l : Forall is_byte l -> toy_decode (toy_encode l) = Some l.
Proof.
  induction 1 as [|b l Hb _ IH]; [done|]. unfold is_byte in Hb. cbn. change (l ≫= _) with (toy_encode l).
  rewrite IH. cbn. do 2 f_equal. pose proof (Z.div_mod b 16 ltac:(lia)). lia.
Qed.

Lemma toy_encode_chars l : Forall is_byte l -> Forall (fun c => base64_char c = true) (toy_encode l).
Proof.
  induction 1 as [|b l Hb _ IH]; [constructor|]. unfold is_byte in Hb. cbn. change (l ≫= _) with (toy_encode l).
  pose proof (Z.div_mod b 16 ltac:(lia)). pose proof (Z.mod_pos_bound b 16 ltac:(lia)).
  repeat constructor; [..|done]; unfold base64_char; apply orb_true_iff; left; do 4 (apply orb_true_iff; left);
    apply andb_true_iff; rewrite !Z.leb_le; lia.
Qed.

Lemma bytes_mod l : Forall is_byte ((fun b => b mod 256) <$> l).
Proof. apply Forall_fmap, Forall_true. intros b. apply Z.mod_pos_bound. lia. Qed.

Lemma mask_twice l : toy_mask (toy_mask l) = l.
Proof.
  unfold toy_mask. rewrite <- list_fmap_compose. rewrite <- (list_fmap_id l) at 2. apply list_fmap_ext. intros _ b _. cbn.
  by rewrite Z.lxor_assoc, Z.lxor_nilpotent, Z.lxor_0_r.
Qed.

Lemma toy_keystream_byte k n i : is_byte (toy_keystream k n i).
Proof. unfold toy_keystream. change 255 with (Z.ones 8). rewrite Z.land_ones by lia. apply Z.mod_pos_bound. lia. Qed.

#[export] Instance toy_laws : KdbxLaws.
Proof.
  constructor; cbn -[toy_keystream toy_hash toy_decode toy_encode toy_mask to_ascii_lowercase bytes_of to_le_bytes].
  - intros l. apply length_to_be_bytes.
  - intros l. apply length_to_be_bytes.
  - intros k l. apply length_to_be_bytes.
  - intros l. apply to_be_bytes_bytes.
  - intros k l. apply to_be_bytes_bytes.
  - intros k iv l _. apply mask_twice.
  - intros k iv l. apply length_fmap.
  - intros k iv l. apply length_fmap.
  - intros l. split; [done|]. apply app_nil_r.
  - intros l Hl. split; [done|]. constructor; [unfold is_byte; lia|done].
  - intros k n i. apply toy_keystream_byte.
  - intros k n i. apply toy_keystream_byte.
  - intros l Hl. rewrite <- toy_decode_encode by done. do 2 f_equal. rewrite <- (list_fmap_id l) at 2.
    apply list_fmap_ext. intros i b Hb. apply Forall_lookup_1 with (i := i) (x := b) in Hl; [|done].
    cbn. by apply Z.mod_small.
  - intros l. apply toy_encode_chars, bytes_mod.
  - intros l. unfold zlen. induction l as [|b l IH]; [done|]. cbn. change (_ ≫= _) with (toy_encode ((fun b => b mod 256) <$> l)). lia.
  - by vm_compute.
  - by vm_compute.
  - intros n. rewrite fmap_app. unfold toy_encode. rewrite bind_app. unfold to_ascii_lowercase. rewrite fmap_app.
    intros He%(f_equal (drop 16)). rewrite drop_app_length' in He; [by vm_compute in He|].
    rewrite length_fmap. pose proof (length_to_le_bytes 8 n) as Hl.
    destruct (to_le_bytes 8 n) as [|? [|? [|? [|? [|? [|? [|? [|? [|]]]]]]]]]; try discriminate Hl. done.
  - intros v pw salt _. split; [done|eauto].
Qed.

(** A file of test_writer.rs, and what its header asks for. *)
Definition sample_password : list Z := bytes_of "correct horse".
Definition sample_file (c : WriteCipher) : list Z :=
  default [] (seal_kdbx4 (bytes_of "<KeePassFile/>") (Some sample_password) None c).

Example sample_file_opens :
  open_kdbx (sample_file WriteChaCha20) (Some sample_password) None
  = Ok (true, mkInner InnerChaCha20 (replicate 64 0x33) (bytes_of "<KeePassFile/>") 0 0).
Proof. by vm_compute. Qed.

Example sample_wrong_password :
  open_kdbx (sample_file WriteAes256Cbc) (Some (bytes_of "incorrect horse")) None = Err WrongCredentials.
Proof. by vm_compute. Qed.

Lemma kdf_work_bounded_witness :
  header_ok (kdbx4_outer WriteChaCha20)
  /\ exists rest, sample_file WriteChaCha20 = raw_header (kdbx4_outer WriteChaCha20) ++ rest
       /\ zlen (raw_header (kdbx4_outer WriteChaCha20)) = header_len (kdbx4_outer WriteChaCha20).
Proof. apply kdf_work_bounded; [apply check_bytes; by vm_compute|by vm_compute]. Defined.

(** Three blocks, and bytes that nobody authenticates. *)
Definition sample_tail (transformed : list Z) : list Z :=
  kdbx4_tail (kdbx4_outer WriteChaCha20) transformed [[1; 2]; [3]; [4; 5; 6]] ++ [7; 7].

Lemma kdbx4_payload_exact_witness :
  let transformed := toy_hash 32 (2 :: [9] ++ replicate 32 0x22) in
  decrypt_kdbx4_payload (kdbx4_outer WriteChaCha20) [9] (sample_tail transformed)
  = Ok (apply_keystream (toy_keystream (write_master_key (replicate 32 0x11) transformed) (write_iv WriteChaCha20)) 0 [1; 2; 3; 4; 5; 6]).
Proof.
  intros transformed.
  apply (kdbx4_payload_exact (kdbx4_outer WriteChaCha20) [9] (sample_tail transformed)).
  - apply check_bytes. by vm_compute.
  - exists transformed, [[1; 2]; [3]; [4; 5; 6]], [7; 7]. split_and!; [by vm_compute|done|by repeat constructor|by vm_compute|by vm_compute].
Defined.
End KdbxSample.
