(* ===== verification/KdbxXml.v ===== *)
(** * KeePass databases

    crates/pangolin-kdbx: xml.rs, read.rs, and the XML of test_writer.rs.

    The reader walks the events of the XML with a stack of elements, one of groups and
    one of entries, and unmasks protected values in the order of the document.
    [written_database_reads_back] says that a database which the writer of the tests
    wrote is read as what was written.

    The events of a document are what quick-xml makes of its text ([XmlReader]).  The
    stacks have their top first. *)

From Stdlib Require Import String.
From S2P Require Import Prelude Bytes Text Kdbx.
Open Scope Z_scope.

Definition MAX_EVENTS : Z := 8000000.
Definition MAX_DEPTH : Z := 256.
Definition MAX_TEXT_BYTES : Z := 16 * 1024 * 1024.

(** ** Events

    Of a name its local part; an attribute that cannot be read is [None], and so are
    a value and a text that cannot be unescaped.  The list ends at the end of the
    document, or at the first error. *)
Inductive XmlEvent : Type :=
| Start (name : list Z) (attrs : list (option (list Z * option (list Z))))
| Empty (name : list Z) (attrs : list (option (list Z * option (list Z))))
| Text (s : option (list Z))
| CData (s : list Z)
| End
| OtherEvent
| XmlError.

Class XmlReader : Type := read_events : list Z -> list XmlEvent.

(** ** What is read *)

Record KdbxStringValue : Type := mkString { key : list Z; value : list Z; protected : bool }.

Record KdbxEntry : Type := mkEntry {
  strings : list KdbxStringValue;
  entry_tags : list (list Z);
  group_path : list (list Z);
  expires : bool;
  expiry_time_unix : option Z;
  history_passwords : list (list Z * option Z)
}.

Record KdbxDatabase : Type := mkDatabase {
  format_v4 : bool;
  db_entries : list KdbxEntry;
  recycle_bin_entries : Z;
  db_binary_count : Z;
  db_binary_total_bytes : Z
}.

(** [find(|s| s.key == key)]. *)
Definition find_string (k : list Z) (ss : list KdbxStringValue) : option KdbxStringValue :=
  head (filter (fun s => key s = k) ss).

Definition field (e : KdbxEntry) (k : list Z) : option KdbxStringValue := find_string k (strings e).

(** ** Times *)

Definition is_char_boundary (s : list Z) (i : nat) : bool :=
  match drop i s with
  | [] => (i =? length s)%nat
  | b :: _ => (i =? 0)%nat || negb (cont b)
  end.

(** [s.get(a..b)] of a [str]. *)
Definition str_get (s : list Z) (a b : nat) : option (list Z) :=
  if (a <=? b)%nat && is_char_boundary s a && is_char_boundary s b then Some (slice a (b - a) s) else None.

(** [s.parse::<i64>()]. *)
Definition parse_i64 (s : list Z) : option Z :=
  let digits := fun d => negb (length d =? 0)%nat && forallb (in_range 48 57) d in
  match s with
  | 45 :: d => if digits d then i64_try_from (- decimal_value d) else None
  | 43 :: d => if digits d then i64_try_from (decimal_value d) else None
  | d => if digits d then i64_try_from (decimal_value d) else None
  end.

(** The days from 1970-01-01; the year is at least 0, so [/] rounds down. *)
Definition days_of (year month day : Z) : Z :=
  let y := if month <=? 2 then year - 1 else year in
  let era := Z.quot (if 0 <=? y then y else y - 399) 400 in
  let yoe := y - era * 400 in
  let doy := Z.quot (153 * (if 2 <? month then month - 3 else month + 9) + 2) 5 + day - 1 in
  let doe := yoe * 365 + Z.quot yoe 4 - Z.quot yoe 100 + doy in
  era * 146097 + doe - 719468.

Definition parse_iso8601 (s : list Z) : option Z :=
  if (length s <? 19)%nat then None
  else
    let num := fun a b => str_get s a b ≫= parse_i64 in
    year ← num 0%nat 4%nat;
    month ← num 5%nat 7%nat;
    day ← num 8%nat 10%nat;
    hour ← num 11%nat 13%nat;
    min ← num 14%nat 16%nat;
    sec ← num 17%nat 19%nat;
    if negb (in_range 1 9999 year) || negb (in_range 1 12 month) || negb (in_range 1 31 day)
       || negb (in_range 0 23 hour) || negb (in_range 0 59 min) || negb (in_range 0 60 sec)
    then None
    else Some (days_of year month day * 86400 + hour * 3600 + min * 60 + sec).

(** [i64::from_le_bytes]. *)
Definition le_i64 (bs : list Z) : Z :=
  let n := le_value bs in if n <=? I64_MAX then n else n - 2 ^ 64.

Definition parse_kdbx_time `{KdbxPrims} (s : list Z) : option Z :=
  let s := trim s in
  if (length s =? 0)%nat then None
  else if (10 <=? length s)%nat && (byte_at 4 s =? 45) then parse_iso8601 s
  else
    raw ← base64_decode s;
    if (length raw <? 8)%nat then None else i64_try_from (le_i64 (take 8 raw) - 62135596800).

(** ** The walk *)

Record HistEntry : Type := mkHist { hist_password : option (list Z); last_mod_unix : option Z }.

Record EntryBuild : Type := mkBuild {
  b_strings : list KdbxStringValue;
  b_tags : list (list Z);
  b_expires : bool;
  b_expiry_time_raw : option (list Z);
  b_last_mod_raw : option (list Z);
  b_history : list HistEntry;
  cur_key : option (list Z);
  cur_val : option (list Z);
  cur_protected : bool
}.

Definition new_entry : EntryBuild := mkBuild [] [] false None None [] None None false.

Record GroupFrame : Type := mkGroup { group_name : list Z; group_uuid : option (list Z); in_recycle : bool }.

Record Walk : Type := mkWalk {
  path : list (list Z);
  groups : list GroupFrame;
  recycle_bin_uuid : option (list Z);
  entry_stack : list EntryBuild;
  entries : list KdbxEntry;
  recycle_skipped : Z;
  text_buf : list Z;
  stream : InnerStream
}.

Notation walk_op := (op Walk KdbxError).

Definition set_path p (w : Walk) : Walk :=
  mkWalk p (groups w) (recycle_bin_uuid w) (entry_stack w) (entries w) (recycle_skipped w) (text_buf w) (stream w).
Definition set_groups g (w : Walk) : Walk :=
  mkWalk (path w) g (recycle_bin_uuid w) (entry_stack w) (entries w) (recycle_skipped w) (text_buf w) (stream w).
Definition set_bin b (w : Walk) : Walk :=
  mkWalk (path w) (groups w) b (entry_stack w) (entries w) (recycle_skipped w) (text_buf w) (stream w).
Definition set_stack s (w : Walk) : Walk :=
  mkWalk (path w) (groups w) (recycle_bin_uuid w) s (entries w) (recycle_skipped w) (text_buf w) (stream w).
Definition set_entries e (w : Walk) : Walk :=
  mkWalk (path w) (groups w) (recycle_bin_uuid w) (entry_stack w) e (recycle_skipped w) (text_buf w) (stream w).
Definition set_skipped n (w : Walk) : Walk :=
  mkWalk (path w) (groups w) (recycle_bin_uuid w) (entry_stack w) (entries w) n (text_buf w) (stream w).
Definition set_text t (w : Walk) : Walk :=
  mkWalk (path w) (groups w) (recycle_bin_uuid w) (entry_stack w) (entries w) (recycle_skipped w) t (stream w).
Definition set_stream s (w : Walk) : Walk :=
  mkWalk (path w) (groups w) (recycle_bin_uuid w) (entry_stack w) (entries w) (recycle_skipped w) (text_buf w) s.

(** [if let Some(top) = entry_stack.last_mut()], and the same of the groups. *)
Definition on_top (f : EntryBuild -> EntryBuild) : walk_op unit :=
  modify (fun w => match entry_stack w with top :: s => set_stack (f top :: s) w | [] => w end).
Definition on_group (f : GroupFrame -> GroupFrame) : walk_op unit :=
  modify (fun w => match groups w with g :: gs => set_groups (f g :: gs) w | [] => w end).

Definition eq_ignore_ascii_case (a b : list Z) : bool := bool_decide (to_ascii_lowercase a = to_ascii_lowercase b).

(** [name == "..."], and [parent == Some("...")]. *)
Definition is_name (name : list Z) (s : string) : bool := bool_decide (name = bytes_of s).
Definition is_parent (parent : option (list Z)) (s : string) : bool := bool_decide (parent = Some (bytes_of s)).

Definition on_start (name : list Z) (protected : bool) (parent : option (list Z)) : walk_op unit :=
  if is_name name "Group" then
    modify (fun w => set_groups (mkGroup [] None match groups w with g :: _ => in_recycle g | [] => false end :: groups w) w)
  else if is_name name "Entry" then modify (fun w => set_stack (new_entry :: entry_stack w) w)
  else if is_name name "String" then
    on_top (fun t => mkBuild (b_strings t) (b_tags t) (b_expires t) (b_expiry_time_raw t) (b_last_mod_raw t) (b_history t)
                       None None false)
  else if is_name name "Value" && is_parent parent "String" then
    on_top (fun t => mkBuild (b_strings t) (b_tags t) (b_expires t) (b_expiry_time_raw t) (b_last_mod_raw t) (b_history t)
                       (cur_key t) (cur_val t) protected)
  else mret tt.

Section walk.
Context `{KdbxPrims}.

Definition decode_protected (b64 : list Z) : walk_op (list Z) :=
  raw ← lift (ok_or (base64_decode (trim b64)) XmlMalformed);
  w ← gets stream;
  let '(v, s) := inner_stream_apply w raw in
  modify (set_stream s) ≫= fun _ =>
  mret v.

Definition set_expires (b : bool) (t : EntryBuild) : EntryBuild :=
  mkBuild (b_strings t) (b_tags t) b (b_expiry_time_raw t) (b_last_mod_raw t) (b_history t) (cur_key t) (cur_val t) (cur_protected t).
Definition set_expiry (s : list Z) (t : EntryBuild) : EntryBuild :=
  mkBuild (b_strings t) (b_tags t) (b_expires t) (Some s) (b_last_mod_raw t) (b_history t) (cur_key t) (cur_val t) (cur_protected t).
Definition set_last_mod (s : list Z) (t : EntryBuild) : EntryBuild :=
  mkBuild (b_strings t) (b_tags t) (b_expires t) (b_expiry_time_raw t) (Some s) (b_history t) (cur_key t) (cur_val t) (cur_protected t).
Definition set_cur_key (k : list Z) (t : EntryBuild) : EntryBuild :=
  mkBuild (b_strings t) (b_tags t) (b_expires t) (b_expiry_time_raw t) (b_last_mod_raw t) (b_history t) (Some k) (cur_val t) (cur_protected t).
Definition set_cur_val (v : list Z) (t : EntryBuild) : EntryBuild :=
  mkBuild (b_strings t) (b_tags t) (b_expires t) (b_expiry_time_raw t) (b_last_mod_raw t) (b_history t) (cur_key t) (Some v) (cur_protected t).

Definition push_string (t : EntryBuild) : EntryBuild :=
  match cur_key t with
  | Some k =>
      mkBuild (b_strings t ++ [mkString k (default [] (cur_val t)) (cur_protected t)]) (b_tags t) (b_expires t)
        (b_expiry_time_raw t) (b_last_mod_raw t) (b_history t) None None (cur_protected t)
  | None => t
  end.

(** [text.split([';', ','])], the parts trimmed and without the empty ones. *)
Definition split_tags (text : list Z) : list (list Z) :=
  filter (fun t => t <> []) (trim <$> (split 59 text ≫= split 44)).

Definition push_tags (text : list Z) (t : EntryBuild) : EntryBuild :=
  mkBuild (b_strings t) (b_tags t ++ split_tags text) (b_expires t) (b_expiry_time_raw t) (b_last_mod_raw t) (b_history t)
    (cur_key t) (cur_val t) (cur_protected t).

Definition push_history (h : HistEntry) (t : EntryBuild) : EntryBuild :=
  mkBuild (b_strings t) (b_tags t) (b_expires t) (b_expiry_time_raw t) (b_last_mod_raw t) (b_history t ++ [h])
    (cur_key t) (cur_val t) (cur_protected t).

Definition history_of (built : EntryBuild) : HistEntry :=
  mkHist (value <$> find_string (bytes_of "Password") (b_strings built)) (b_last_mod_raw built ≫= parse_kdbx_time).

Definition entry_of (built : EntryBuild) (gs : list GroupFrame) : KdbxEntry :=
  mkEntry (b_strings built) (b_tags built)
    (filter (fun n => n <> []) (drop 1 (reverse (group_name <$> gs))))
    (b_expires built) (b_expiry_time_raw built ≫= parse_kdbx_time)
    (omap (fun h => (fun p => (p, last_mod_unix h)) <$> hist_password h) (b_history built)).

Definition end_entry (parent : option (list Z)) : walk_op unit :=
  stack ← gets entry_stack;
  match stack with
  | [] => throw XmlMalformed
  | built :: rest =>
      modify (set_stack rest) ≫= fun _ =>
      if is_parent parent "History" then on_top (push_history (history_of built))
      else
        gs ← gets groups;
        if match gs with g :: _ => in_recycle g | [] => false end
        then modify (fun w => set_skipped (recycle_skipped w + 1) w)
        else
          es ← gets entries;
          if KDBX_MAX_ENTRIES <=? zlen es then throw (TooManyEntries KDBX_MAX_ENTRIES)
          else modify (set_entries (es ++ [entry_of built gs]))
  end.

Definition end_value (text : list Z) : walk_op unit :=
  stack ← gets entry_stack;
  match stack with
  | [] => mret tt
  | top :: _ =>
      val ← (if cur_protected top then decode_protected text else mret text);
      on_top (set_cur_val val)
  end.

Definition on_end (name text : list Z) (parent : option (list Z)) : walk_op unit :=
  if is_name name "RecycleBinUUID" && is_parent parent "Meta" then
    let t := trim text in
    if negb (length t =? 0)%nat && negb (forallb (fun c => (c =? 65) || (c =? 61)) t)
    then modify (set_bin (Some t)) else mret tt
  else if is_name name "UUID" && is_parent parent "Group" then
    let u := trim text in
    rb ← gets recycle_bin_uuid;
    let is_rb := match rb with Some rb => eq_ignore_ascii_case rb u | None => false end in
    on_group (fun g => mkGroup (group_name g) (Some u) (is_rb || in_recycle g))
  else if is_name name "Name" && is_parent parent "Group" then
    on_group (fun g => mkGroup text (group_uuid g) (in_recycle g))
  else if is_name name "Key" && is_parent parent "String" then on_top (set_cur_key text)
  else if is_name name "Value" && is_parent parent "String" then end_value text
  else if is_name name "String" && is_parent parent "Entry" then on_top push_string
  else if is_name name "Tags" && is_parent parent "Entry" then on_top (push_tags text)
  else if is_name name "Expires" && is_parent parent "Times" then
    on_top (set_expires (eq_ignore_ascii_case (trim text) (bytes_of "true")))
  else if is_name name "ExpiryTime" && is_parent parent "Times" then on_top (set_expiry (trim text))
  else if is_name name "LastModificationTime" && is_parent parent "Times" then on_top (set_last_mod (trim text))
  else if is_name name "Entry" then end_entry parent
  else if is_name name "Group" then
    gs ← gets groups;
    match gs with [] => throw XmlMalformed | _ :: gs => modify (set_groups gs) end
  else mret tt.

Fixpoint read_protected_attr (attrs : list (option (list Z * option (list Z)))) : result KdbxError bool :=
  match attrs with
  | [] => Ok false
  | None :: _ => Err XmlMalformed
  | Some (k, v) :: attrs =>
      if is_name k "Protected" then
        match v with Some v => Ok (eq_ignore_ascii_case v (bytes_of "true")) | None => Err XmlMalformed end
      else read_protected_attr attrs
  end.

Definition local_name (ln : list Z) : result KdbxError (list Z) := if utf8 ln then Ok ln else Err XmlMalformed.

Definition push_text (s : list Z) : walk_op unit :=
  buf ← gets text_buf;
  if MAX_TEXT_BYTES <? zlen buf + zlen s then throw XmlMalformed else modify (set_text (buf ++ s)).

Definition handle_event (ev : XmlEvent) : walk_op unit :=
  match ev with
  | Start name attrs =>
      path_now ← gets path;
      if MAX_DEPTH <=? zlen path_now then throw XmlMalformed
      else
        name ← lift (local_name name);
        protected ← lift (read_protected_attr attrs);
        on_start name protected (head path_now) ≫= fun _ =>
        modify (fun w => set_text [] (set_path (name :: path_now) w))
  | Empty name attrs =>
      name ← lift (local_name name);
      protected ← lift (read_protected_attr attrs);
      parent ← gets (fun w => head (path w));
      on_start name protected parent ≫= fun _ =>
      on_end name [] parent
  | Text s => s ← lift (ok_or s XmlMalformed); push_text s
  | CData s => if utf8 s then push_text s else throw XmlMalformed
  | End =>
      path_now ← gets path;
      match path_now with
      | [] => throw XmlMalformed
      | name :: rest =>
          text ← gets text_buf;
          modify (fun w => set_text [] (set_path rest w)) ≫= fun _ =>
          on_end name text (head rest)
      end
  | OtherEvent => mret tt
  | XmlError => throw XmlMalformed
  end.

Fixpoint walk (events : Z) (evs : list XmlEvent) : walk_op unit :=
  match evs with
  | [] => if MAX_EVENTS <? events + 1 then throw XmlMalformed else mret tt
  | XmlError :: _ => throw XmlMalformed
  | ev :: evs =>
      if MAX_EVENTS <? events + 1 then throw XmlMalformed
      else handle_event ev ≫= fun _ => walk (events + 1) evs
  end.

Definition walk_start (s : InnerStream) : Walk := mkWalk [] [] None [] [] 0 [] s.

Context `{XmlReader}.

Definition parse_kdbx_xml (xml : list Z) (s : InnerStream) : result KdbxError (list KdbxEntry * Z) :=
  if negb (utf8 xml) then Err XmlMalformed
  else
    match walk 0 (read_events xml) (walk_start s) with
    | (Err e, _) => Err e
    | (Ok _, w) =>
        match entry_stack w with
        | _ :: _ => Err XmlMalformed
        | [] => Ok (entries w, recycle_skipped w)
        end
    end.

Definition read_kdbx (bytes : list Z) (password keyfile : option (list Z)) : result KdbxError KdbxDatabase :=
  '(format_v4, inner) ← open_kdbx bytes password keyfile;
  let s := inner_stream_new (inner_stream_cipher inner) (inner_stream_key inner) in
  '(es, skipped) ← parse_kdbx_xml (xml inner) s;
  Ok (mkDatabase format_v4 es skipped (binary_count inner) (binary_total_bytes inner)).
End walk.

(** ** The writer of the tests

    What [build_xml] pushes to its string, piece by piece; the events a piece is read
    as; and its bytes. *)

Inductive Piece : Type :=
| Declaration
| Open (name : string)
| OpenProtected
| Close (name : string)
| Raw (text : list Z)
| Escaped (text : list Z).

Definition xml_escape (s : list Z) : list Z :=
  s ≫= fun c =>
    if c =? 38 then bytes_of "&amp;" else if c =? 60 then bytes_of "&lt;"
    else if c =? 62 then bytes_of "&gt;" else if c =? 34 then bytes_of "&quot;" else [c].

Definition quoted (s : string) : list Z := 34 :: bytes_of s ++ [34].

Definition text_of (p : Piece) : list Z :=
  match p with
  | Declaration =>
      bytes_of "<?xml version=" ++ quoted "1.0" ++ bytes_of " encoding=" ++ quoted "utf-8"
      ++ bytes_of " standalone=" ++ quoted "yes" ++ bytes_of "?>"
  | Open name => bytes_of "<" ++ bytes_of name ++ bytes_of ">"
  | OpenProtected => bytes_of "<Value Protected=" ++ quoted "True" ++ bytes_of ">"
  | Close name => bytes_of "</" ++ bytes_of name ++ bytes_of ">"
  | Raw t => t
  | Escaped t => xml_escape t
  end.

Definition events_of (p : Piece) : list XmlEvent :=
  match p with
  | Declaration => [OtherEvent]
  | Open name => [Start (bytes_of name) []]
  | OpenProtected => [Start (bytes_of "Value") [Some (bytes_of "Protected", Some (bytes_of "True"))]]
  | Close _ => [End]
  | Raw t | Escaped t => if (length t =? 0)%nat then [] else [Text (Some t)]
  end.

Record TestEntry : Type := mkTest {
  title : list Z;
  username : list Z;
  password : list Z;
  url : list Z;
  notes : list Z;
  extra : list (list Z * list Z * bool);
  test_tags : list (list Z);
  test_group_path : list (list Z);
  history : list (list Z * option (list Z));
  test_expires : bool;
  expiry_time : option (list Z);
  recycled : bool
}.

(** What is written, and the stream after the values masked. *)
Definition xml_writer : Type := InnerStream -> list Piece * InnerStream.
Definition put (ps : list Piece) : xml_writer := fun s => (ps, s).
Definition seq_emit (a b : xml_writer) : xml_writer := fun s => let '(p, s) := a s in let '(q, s) := b s in (p ++ q, s).
Definition all_emit {A} (f : A -> xml_writer) (l : list A) : xml_writer := foldr (fun a k => seq_emit (f a) k) (put []) l.
Infix "+++" := seq_emit (at level 60, right associativity).

Section write.
Context `{KdbxPrims}.

Definition raw_leaf (name : string) (t : list Z) : list Piece := [Open name; Raw t; Close name].
Definition leaf (name : string) (t : list Z) : list Piece := [Open name; Escaped t; Close name].

Definition protected_value (plain : list Z) : InnerStream -> list Z * InnerStream := fun s =>
  let '(v, s) := inner_stream_apply s plain in (base64_encode v, s).

Definition emit_str (k v : list Z) (prot : bool) : xml_writer :=
  put (Open "String" :: leaf "Key" k)
  +++ (if prot then fun s => let '(b64, s) := protected_value v s in ([OpenProtected; Raw b64; Close "Value"], s)
       else put (leaf "Value" v))
  +++ put [Close "String"].

(** The strings of an entry, as [emit_entry_inner] writes them. *)
Definition test_strings (e : TestEntry) (pw : list Z) : list KdbxStringValue :=
  [mkString (bytes_of "Title") (title e) false; mkString (bytes_of "UserName") (username e) false;
   mkString (bytes_of "Password") pw true]
  ++ (if (length (url e) =? 0)%nat then [] else [mkString (bytes_of "URL") (url e) false])
  ++ (if (length (notes e) =? 0)%nat then [] else [mkString (bytes_of "Notes") (notes e) false])
  ++ ((fun x => mkString x.1.1 x.1.2 x.2) <$> extra e).

Definition opt_leaf (name : string) (t : option (list Z)) : list Piece :=
  match t with Some t => raw_leaf name t | None => [] end.

Definition emit_times (e : TestEntry) (last_mod : option (list Z)) : list Piece :=
  [Open "Times"] ++ raw_leaf "Expires" (bytes_of (if test_expires e then "True" else "False"))
  ++ opt_leaf "ExpiryTime" (expiry_time e) ++ opt_leaf "LastModificationTime" last_mod ++ [Close "Times"].

Definition emit_tags (e : TestEntry) : list Piece :=
  if (length (test_tags e) =? 0)%nat then [] else leaf "Tags" (join [59] (test_tags e)).

Definition emit_entry_inner (e : TestEntry) (pw : list Z) (last_mod : option (list Z)) : xml_writer :=
  put (Open "Entry" :: raw_leaf "UUID" ROOT_UUID)
  +++ all_emit (fun x => emit_str (key x) (value x) (protected x)) (test_strings e pw)
  +++ put (emit_tags e ++ emit_times e last_mod).

Definition emit_history (e : TestEntry) : xml_writer :=
  match history e with
  | [] => put []
  | hs =>
      put [Open "History"]
      +++ all_emit (fun h => emit_entry_inner e h.1 h.2 +++ put [Close "Entry"]) hs
      +++ put [Close "History"]
  end.

Definition emit_entry (e : TestEntry) : xml_writer :=
  emit_entry_inner e (password e) None +++ emit_history e +++ put [Close "Entry"].

(** The identifier of a group is the number of groups written so far. *)
Definition open_group (ctr : Z) (name : list Z) : list Piece :=
  Open "Group" :: raw_leaf "UUID" (base64_encode (to_le_bytes 8 ctr ++ replicate 8 0)) ++ leaf "Name" name.

Fixpoint open_groups (ctr : Z) (names : list (list Z)) : list Piece :=
  match names with [] => [] | g :: names => open_group (ctr + 1) g ++ open_groups (ctr + 1) names end.

Definition close_groups (names : list (list Z)) : list Piece := (fun _ => Close "Group") <$> names.

Fixpoint emit_live (ctr : Z) (es : list TestEntry) : xml_writer :=
  match es with
  | [] => put []
  | e :: es =>
      put (open_groups ctr (test_group_path e)) +++ emit_entry e +++ put (close_groups (test_group_path e))
      +++ emit_live (ctr + Z.of_nat (length (test_group_path e))) es
  end.

Definition is_live (e : TestEntry) : Prop := recycled e = false.
#[export] Instance is_live_dec e : Decision (is_live e).
Proof. unfold is_live. apply _. Defined.

Definition emit_document (es : list TestEntry) : xml_writer :=
  put ([Declaration; Open "KeePassFile"; Open "Meta"] ++ raw_leaf "Generator" (bytes_of "pangolin-test")
       ++ raw_leaf "RecycleBinUUID" (base64_encode RECYCLE_BIN)
       ++ raw_leaf "RecycleBinEnabled" (bytes_of "True") ++ [Close "Meta"; Open "Root"]
       ++ Open "Group" :: raw_leaf "UUID" ROOT_UUID ++ raw_leaf "Name" (bytes_of "Root"))
  +++ emit_live 1 (filter is_live es)
  +++ put (Open "Group" :: raw_leaf "UUID" (base64_encode RECYCLE_BIN) ++ raw_leaf "Name" (bytes_of "Recycle Bin"))
  +++ all_emit emit_entry (filter (fun e => ~ is_live e) es)
  +++ put [Close "Group"; Close "Group"; Close "Root"; Close "KeePassFile"].

Definition document_pieces (es : list TestEntry) (s : InnerStream) : list Piece := (emit_document es s).1.
Definition document_events (es : list TestEntry) (s : InnerStream) : list XmlEvent := document_pieces es s ≫= events_of.
Definition build_xml (es : list TestEntry) (s : InnerStream) : list Z := document_pieces es s ≫= text_of.

Definition build_kdbx4 (es : list TestEntry) (pw keyfile32 : option (list Z)) (c : WriteCipher) : option (list Z) :=
  seal_kdbx4 (build_xml es kdbx4_stream) pw keyfile32 c.

Definition build_kdbx3 (es : list TestEntry) (pw : list Z) : list Z := seal_kdbx3 (build_xml es kdbx3_stream) pw.
End write.

(** ** Facts: the walk of what is written *)

Section written.
Context `{KdbxLaws}.

Definition run (evs : list XmlEvent) : walk_op unit := foldr (fun ev k => handle_event ev ≫= fun _ => k) (mret tt) evs.

(** The pieces take one state to another; so does a writer, from the stream there. *)
Definition reads (ps : list Piece) (w w' : Walk) : Prop := run (ps ≫= events_of) w = (Ok tt, w').
Definition writes (m : xml_writer) (w w' : Walk) : Prop := reads (m (stream w)).1 w w' /\ stream w' = (m (stream w)).2.

Lemma run_app a b w w1 w2 : run a w = (Ok tt, w1) -> run b w1 = (Ok tt, w2) -> run (a ++ b) w = (Ok tt, w2).
Proof.
  revert w. induction a as [|ev a IH]; intros w Ha Hb; [by injection Ha as <-|]. cbn in *.
  apply op_bind_Ok in Ha as ([] & w' & H1 & H2). rewrite (op_bind_run _ _ _ _ _ H1). by apply IH.
Qed.

Lemma walk_run evs n w w' : n + zlen evs < MAX_EVENTS -> run evs w = (Ok tt, w') -> walk n evs w = (Ok tt, w').
Proof.
  revert n w. induction evs as [|ev evs IH]; intros n w Hn Hr; unfold zlen in *; cbn [length] in Hn; cbn [walk].
  { rewrite (proj2 (Z.ltb_ge _ _)) by lia. exact Hr. }
  cbn in Hr. apply op_bind_Ok in Hr as ([] & w1 & H1 & H2).
  assert (Hw : (if MAX_EVENTS <? n + 1 then throw XmlMalformed else handle_event ev ≫= fun _ => walk (n + 1) evs) w = (Ok tt, w')).
  { rewrite (proj2 (Z.ltb_ge _ _)) by lia. rewrite (op_bind_run _ _ _ _ _ H1). apply IH; [lia|done]. }
  by destruct ev.
Qed.

Lemma reads_app a b w w1 w2 : reads a w w1 -> reads b w1 w2 -> reads (a ++ b) w w2.
Proof. unfold reads. rewrite bind_app. apply run_app. Qed.

Lemma reads_cons a b w w1 w2 : reads [a] w w1 -> reads b w1 w2 -> reads (a :: b) w w2.
Proof. apply (reads_app [a]). Qed.

Lemma reads_nil w : reads [] w w.
Proof. done. Qed.

Lemma writes_put ps w w' : stream w' = stream w -> reads ps w w' -> writes (put ps) w w'.
Proof. by split. Qed.

Lemma writes_seq a b w w1 w2 : writes a w w1 -> writes b w1 w2 -> writes (a +++ b) w w2.
Proof.
  unfold writes, seq_emit. intros [Ha Hs] [Hb Ht]. destruct (a (stream w)) as [p s]. cbn in *. subst s.
  destruct (b (stream w1)) as [q t]. cbn in *. split; [by eapply reads_app|done].
Qed.


(** *** Elements *)

(** A state between two elements. *)
Notation at_ p g b st es n s := (mkWalk p g b st es n [] s).

Lemma reads_open name p g b st es n s g' st' :
  zlen p < MAX_DEPTH -> utf8 (bytes_of name) = true ->
  on_start (bytes_of name) false (head p) (at_ p g b st es n s) = (Ok tt, at_ p g' b st' es n s) ->
  reads [Open name] (at_ p g b st es n s) (at_ (bytes_of name :: p) g' b st' es n s).
Proof.
  intros Hp Hu Ho. unfold reads. cbn [mbind list_bind events_of app run foldr].
  erewrite op_bind_run; [reflexivity|]. cbn [handle_event].
  erewrite op_bind_run; [|reflexivity]. cbn [path]. rewrite (proj2 (Z.leb_gt _ _)) by done.
  unfold local_name. rewrite Hu. erewrite op_bind_run; [|reflexivity].
  erewrite op_bind_run; [|reflexivity]. by erewrite op_bind_run; [|exact Ho].
Qed.

Lemma reads_close name n0 p g b st es n t s w' :
  on_end n0 t (head p) (at_ p g b st es n s) = (Ok tt, w') ->
  reads [Close name] (mkWalk (n0 :: p) g b st es n t s) w'.
Proof.
  intros Ho. unfold reads. cbn [mbind list_bind events_of app run foldr].
  erewrite op_bind_run; [reflexivity|]. cbn [handle_event]. erewrite op_bind_run; [|reflexivity]. cbn [path].
  erewrite op_bind_run; [|reflexivity]. by erewrite op_bind_run; [|reflexivity].
Qed.

Lemma reads_text e t p g b st es n s :
  e = Raw t \/ e = Escaped t -> zlen t <= MAX_TEXT_BYTES ->
  reads [e] (at_ p g b st es n s) (mkWalk p g b st es n t s).
Proof.
  intros He Ht. unfold reads.
  replace ([e] ≫= events_of) with (if (length t =? 0)%nat then [] else [Text (Some t)]) by (destruct He as [-> | ->]; cbn; by rewrite app_nil_r).
  destruct t as [|x t]; [done|]. cbn [length Nat.eqb run foldr]. erewrite op_bind_run; [reflexivity|].
  cbn [handle_event]. erewrite op_bind_run; [|reflexivity]. unfold push_text. erewrite op_bind_run; [|reflexivity].
  cbn [text_buf]. change (zlen [] + zlen (x :: t)) with (zlen (x :: t)). by rewrite (proj2 (Z.ltb_ge _ _)).
Qed.

(** An element with text, of a name with no meaning at its start. *)
Definition inert (name : string) : bool :=
  utf8 (bytes_of name)
  && negb (is_name (bytes_of name) "Group" || is_name (bytes_of name) "Entry" || is_name (bytes_of name) "String").

Lemma on_start_inert name parent w :
  inert name = true -> is_name (bytes_of name) "Value" && is_parent parent "String" = false ->
  on_start (bytes_of name) false parent w = (Ok tt, w).
Proof.
  unfold inert, on_start. intros [_ Hn%negb_true_iff]%andb_prop Hv.
  apply orb_false_iff in Hn as [[-> ->]%orb_false_iff ->]. by rewrite Hv.
Qed.

Lemma reads_element name e t p g b st es n s w' :
  e = Raw t \/ e = Escaped t -> zlen p < MAX_DEPTH -> zlen t <= MAX_TEXT_BYTES -> inert name = true ->
  is_name (bytes_of name) "Value" && is_parent (head p) "String" = false ->
  on_end (bytes_of name) t (head p) (at_ p g b st es n s) = (Ok tt, w') ->
  reads [Open name; e; Close name] (at_ p g b st es n s) w'.
Proof.
  intros He Hp Ht Hi Hv Ho. pose proof (proj1 (andb_prop _ _ Hi)) as Hu.
  eapply reads_cons; [eapply reads_open; [done|done|by apply on_start_inert]|].
  eapply reads_cons; [by apply reads_text|]. by apply reads_close.
Qed.

(** *** Strings *)

Definition small (t : list Z) : Prop := zlen t <= 4 * 1024 * 1024.

Definition pushed (x : KdbxStringValue) (t : EntryBuild) : EntryBuild :=
  mkBuild (b_strings t ++ [x]) (b_tags t) (b_expires t) (b_expiry_time_raw t) (b_last_mod_raw t) (b_history t)
    None None (protected x).

Definition string_ok (x : KdbxStringValue) : Prop := small (key x) /\ small (value x) /\ Forall is_byte (value x).

Lemma strip_any_none ws c (s : list Z) :
  forallb (fun w => match w with x :: _ => negb (base64_char x) | [] => false end) ws = true ->
  base64_char c = true -> strip_any ws (c :: s) = None.
Proof.
  intros Hw Hc. unfold strip_any. induction ws as [|w ws IH]; [done|]. cbn in Hw. apply andb_prop in Hw as [H1 H2].
  destruct w as [|x w]; [done|]. csimpl.
  destruct (Z.eqb_spec x c) as [->|_]; [by rewrite Hc in H1|]. by apply IH.
Qed.

Lemma strip_all_base64 fuel ws s :
  forallb (fun w => match w with x :: _ => negb (base64_char x) | [] => false end) ws = true ->
  forallb (fun w => negb (length w =? 0)%nat) ws = true ->
  Forall (fun c => base64_char c = true) s -> strip_all fuel ws s = s.
Proof.
  intros Hw Hn Hs. destruct fuel as [|fuel]; [done|]. cbn [strip_all]. destruct Hs as [|c s Hc Hs].
  - replace (strip_any ws []) with (None (A := list Z)); [done|]. unfold strip_any.
    clear Hw. induction ws as [|w ws IH]; [done|]. cbn in Hn. apply andb_prop in Hn as [H1 H2].
    destruct w as [|x w]; [done|]. by apply IH.
  - by rewrite strip_any_none.
Qed.

Lemma trim_base64 s : Forall (fun c => base64_char c = true) s -> trim s = s.
Proof.
  intros Hs. unfold trim, trim_start, trim_end.
  rewrite (strip_all_base64 _ WHITE_SPACE) by (done || by vm_compute).
  rewrite strip_all_base64 by (by vm_compute) || by apply Forall_reverse. apply reverse_involutive.
Qed.

Lemma lxor_byte a b : is_byte a -> is_byte b -> is_byte (Z.lxor a b).
Proof.
  unfold is_byte. intros Ha Hb. split; [apply Z.lxor_nonneg; lia|].
  destruct (Z.eq_dec (Z.lxor a b) 0) as [->|Hne]; [lia|].
  apply (Z.log2_lt_pow2 _ 8); [pose proof (proj2 (Z.lxor_nonneg a b)); lia|].
  apply (Z.le_lt_trans _ _ _ (Z.log2_lxor a b (proj1 Ha) (proj1 Hb))).
  apply Z.max_lub_lt; [destruct (Z.eq_dec a 0) as [->|]|destruct (Z.eq_dec b 0) as [->|]]; try (cbn; lia);
    apply Z.log2_lt_pow2; lia.
Qed.

(** A stream whose bytes are bytes; those of a file are. *)
Definition stream_ok (s : InnerStream) : Prop :=
  match keystream s with Some ks => forall i, is_byte (ks i) | None => True end.

Lemma inner_stream_ok c k : stream_ok (inner_stream_new c k).
Proof. destruct c; cbn; [done|apply salsa20_byte|apply chacha20_byte]. Qed.

Lemma apply_ok s v : stream_ok s ->
  stream_ok (inner_stream_apply s v).2
  /\ (Forall is_byte v -> Forall is_byte (inner_stream_apply s v).1)
  /\ inner_stream_apply s (inner_stream_apply s v).1 = (v, (inner_stream_apply s v).2)
  /\ length (inner_stream_apply s v).1 = length v.
Proof.
  unfold stream_ok, inner_stream_apply. destruct s as [[ks|] n]; cbn -[apply_keystream]; [|done]. intros Hk. split_and!; [done| | |].
  - intros Hv. unfold apply_keystream. apply Forall_forall. intros x Hx. apply list_elem_of_lookup in Hx as [i Hi].
    apply lookup_zip_with_Some in Hi as (a & k & -> & Ha & (j & -> & _)%list_lookup_fmap_Some).
    apply lxor_byte; [|done]. by eapply Forall_lookup_1.
  - by rewrite apply_keystream_twice, length_keystream.
  - apply length_keystream.
Qed.

Lemma decode_written v w : stream_ok (stream w) -> Forall is_byte v ->
  decode_protected (protected_value v (stream w)).1 w = (Ok v, set_stream (protected_value v (stream w)).2 w).
Proof.
  intros Hs Hv. destruct (apply_ok (stream w) v Hs) as (_ & Hb & Ht & _). unfold protected_value, decode_protected.
  destruct (inner_stream_apply (stream w) v) as [m s'] eqn:Em. cbn [fst snd] in *.
  rewrite trim_base64 by apply base64_bytes. rewrite base64_roundtrip by auto.
  erewrite op_bind_run; [|reflexivity]. erewrite op_bind_run; [|reflexivity]. rewrite Ht. reflexivity.
Qed.


(** The entry after the start of a value. *)
Definition unmasking (prot : bool) (t : EntryBuild) : EntryBuild :=
  mkBuild (b_strings t) (b_tags t) (b_expires t) (b_expiry_time_raw t) (b_last_mod_raw t) (b_history t)
    (cur_key t) (cur_val t) prot.

Lemma reads_open_protected p g b t st es n s :
  zlen p + 1 < MAX_DEPTH ->
  reads [OpenProtected] (at_ (bytes_of "String" :: p) g b (t :: st) es n s)
    (at_ (bytes_of "Value" :: bytes_of "String" :: p) g b (unmasking true t :: st) es n s).
Proof.
  intros Hp. unfold reads. cbn [mbind list_bind events_of app run foldr]. erewrite op_bind_run; [reflexivity|].
  cbn [handle_event]. erewrite op_bind_run; [|reflexivity]. cbn [path]. rewrite (proj2 (Z.leb_gt _ _)); [reflexivity|].
  unfold zlen in *. cbn [length]. lia.
Qed.

(** The value of a string, from after the key. *)
Lemma writes_value x t p g b st es n s :
  zlen p + 1 < MAX_DEPTH -> string_ok x -> stream_ok s ->
  exists s', writes
    (if protected x then fun s => let '(b64, s) := protected_value (value x) s in ([OpenProtected; Raw b64; Close "Value"], s)
     else put (leaf "Value" (value x)))
    (at_ (bytes_of "String" :: p) g b (t :: st) es n s)
    (at_ (bytes_of "String" :: p) g b
       (mkBuild (b_strings t) (b_tags t) (b_expires t) (b_expiry_time_raw t) (b_last_mod_raw t) (b_history t)
          (cur_key t) (Some (value x)) (protected x) :: st) es n s')
    /\ stream_ok s'.
Proof.
  intros Hp (_ & Hv & Hb) Hs. unfold small in Hv. destruct x as [k v [|]]; cbn [protected value] in *.
  - exists (protected_value v s).2. pose proof (apply_ok s v Hs) as (Hs' & _ & _ & Hl).
    pose proof (base64_length (inner_stream_apply s v).1) as Hbl.
    pose proof (decode_written v) as Hd.
    assert (Hz : zlen (protected_value v s).1 <= MAX_TEXT_BYTES).
    { unfold protected_value. destruct (inner_stream_apply s v) as [m s1]. cbn in *. unfold MAX_TEXT_BYTES, zlen in *. lia. }
    split; [|unfold protected_value in *; by destruct (inner_stream_apply s v)].
    unfold writes. cbn [stream]. destruct (protected_value v s) as [b64 s1] eqn:Ev. cbn [fst snd] in *. split; [|done].
    eapply reads_cons; [apply reads_open_protected; done|].
    eapply reads_cons; [apply reads_text; [by left|done]|]. apply reads_close.
    change (on_end _ _ _) with (end_value b64). specialize (Hd (at_ (bytes_of "String" :: p) g b (unmasking true t :: st) es n s)).
    cbn [stream] in Hd. rewrite Ev in Hd. unfold end_value. erewrite op_bind_run; [|reflexivity].
    cbn [entry_stack cur_protected unmasking]. erewrite op_bind_run; [|by apply Hd]. reflexivity.
  - exists s. split; [|done]. apply writes_put; [done|].
    eapply reads_cons; [eapply reads_open; [unfold zlen in *; cbn [length]; lia|done|reflexivity]|].
    eapply reads_cons; [apply reads_text; [by right|unfold MAX_TEXT_BYTES; lia]|]. apply reads_close. reflexivity.
Qed.

Lemma writes_str x t p g b st es n s :
  zlen p + 3 < MAX_DEPTH -> string_ok x -> stream_ok s ->
  exists s', writes (emit_str (key x) (value x) (protected x))
    (at_ (bytes_of "Entry" :: p) g b (t :: st) es n s) (at_ (bytes_of "Entry" :: p) g b (pushed x t :: st) es n s')
    /\ stream_ok s'.
Proof.
  intros Hp Hx Hs. pose proof Hx as (Hk & _ & _). unfold small in Hk.
  set (t1 := mkBuild (b_strings t) (b_tags t) (b_expires t) (b_expiry_time_raw t) (b_last_mod_raw t) (b_history t)
               (Some (key x)) None false).
  destruct (writes_value x t1 (bytes_of "Entry" :: p) g b st es n s) as (s' & Hw & Hs');
    [unfold zlen in *; cbn [length]; lia|done|done|].
  exists s'. split; [|exact Hs']. unfold emit_str.
  eapply writes_seq; [|eapply writes_seq; [exact Hw|]]; apply writes_put; try done.
  - eapply reads_cons; [eapply reads_open; [unfold zlen in *; cbn [length]; lia|done|reflexivity]|].
    eapply reads_element; [by right|unfold zlen in *; cbn [length]; lia|unfold MAX_TEXT_BYTES; lia|done|done|reflexivity].
  - apply reads_close. destruct x. reflexivity.
Qed.

(** *** Entries *)

Definition opt_small (t : option (list Z)) : Prop := match t with Some t => small t | None => True end.

(** What the writer can write within the limits of the reader. *)
Record entry_ok (e : TestEntry) : Prop := {
  ok_strings : forall pw, pw = password e \/ pw ∈ (history e).*1 -> Forall string_ok (test_strings e pw);
  ok_tags : small (join [59] (test_tags e));
  ok_expiry : opt_small (expiry_time e);
  ok_mods : forall h, h ∈ history e -> opt_small h.2;
  ok_path : zlen (test_group_path e) <= 200 /\ Forall small (test_group_path e)
}.

(** An entry under construction that holds what is written. *)
Definition is_built (e : TestEntry) (pw : list Z) (lm : option (list Z)) (hs : list HistEntry) (t : EntryBuild) : Prop :=
  b_strings t = test_strings e pw /\ b_tags t = split_tags (join [59] (test_tags e))
  /\ b_expires t = test_expires e /\ b_expiry_time_raw t = trim <$> expiry_time e
  /\ b_last_mod_raw t = trim <$> lm /\ b_history t = hs.

Lemma writes_strings xs t p g b st es n s :
  zlen p + 3 < MAX_DEPTH -> Forall string_ok xs -> stream_ok s ->
  exists t' s', writes (all_emit (fun x => emit_str (key x) (value x) (protected x)) xs)
    (at_ (bytes_of "Entry" :: p) g b (t :: st) es n s) (at_ (bytes_of "Entry" :: p) g b (t' :: st) es n s')
    /\ stream_ok s' /\ b_strings t' = b_strings t ++ xs /\ b_tags t' = b_tags t /\ b_expires t' = b_expires t
    /\ b_expiry_time_raw t' = b_expiry_time_raw t /\ b_last_mod_raw t' = b_last_mod_raw t /\ b_history t' = b_history t.
Proof.
  intros Hp Hx. revert t s. induction Hx as [|x xs Hx _ IH]; intros t s Hs.
  - exists t, s. split; [by apply writes_put|]. by rewrite app_nil_r.
  - destruct (writes_str x t p g b st es n s Hp Hx Hs) as (s1 & Hw & Hs1).
    destruct (IH (pushed x t) s1 Hs1) as (t' & s' & Hw' & Hs' & Hst & Hr). exists t', s'. split; [by eapply writes_seq|].
    split; [done|]. rewrite Hst. split; [cbn; by rewrite <- app_assoc|]. exact Hr.
Qed.

Definition tagged (e : TestEntry) (t : EntryBuild) : EntryBuild :=
  mkBuild (b_strings t) (split_tags (join [59] (test_tags e))) (b_expires t) (b_expiry_time_raw t) (b_last_mod_raw t)
    (b_history t) (cur_key t) (cur_val t) (cur_protected t).

Lemma reads_tags e t p g b st es n s :
  zlen p + 3 < MAX_DEPTH -> small (join [59] (test_tags e)) -> b_tags t = [] ->
  reads (emit_tags e) (at_ (bytes_of "Entry" :: p) g b (t :: st) es n s)
    (at_ (bytes_of "Entry" :: p) g b (tagged e t :: st) es n s).
Proof.
  intros Hp Hsm Ht. unfold tagged, emit_tags, small in *. destruct (test_tags e) as [|x l].
  - cbn [length Nat.eqb join]. change (split_tags []) with (@nil (list Z)). destruct t; cbn in *; subst. apply reads_nil.
  - cbn [length Nat.eqb]. eapply reads_element;
      [by right|unfold zlen in *; cbn [length]; lia|unfold MAX_TEXT_BYTES; lia|done|done|].
    replace (split_tags _) with (b_tags t ++ split_tags (join [59] (x :: l))) by by rewrite Ht. reflexivity.
Qed.

(** An optional element inside [Times]. *)
Lemma reads_time name f o t p g b st es n s :
  zlen p < MAX_DEPTH -> opt_small o -> inert name = true ->
  is_name (bytes_of name) "Value" && is_parent (head p) "String" = false ->
  (forall x w, on_end (bytes_of name) x (head p) w = on_top (f (trim x)) w) ->
  reads (opt_leaf name o) (at_ p g b (t :: st) es n s)
    (at_ p g b (match o with Some x => f (trim x) t | None => t end :: st) es n s).
Proof.
  intros Hp Ho Hi Hv Hf. destruct o as [x|]; [|apply reads_nil]. cbn in Ho. unfold small in Ho.
  eapply reads_element; [by left|done|unfold MAX_TEXT_BYTES; lia|done|done|]. rewrite Hf. reflexivity.
Qed.

Definition timed (e : TestEntry) (lm : option (list Z)) (t : EntryBuild) : EntryBuild :=
  mkBuild (b_strings t) (b_tags t) (test_expires e)
    (match expiry_time e with Some x => Some (trim x) | None => b_expiry_time_raw t end)
    (match lm with Some x => Some (trim x) | None => b_last_mod_raw t end)
    (b_history t) (cur_key t) (cur_val t) (cur_protected t).

Lemma reads_times e lm t p g b st es n s :
  zlen p + 3 < MAX_DEPTH -> opt_small (expiry_time e) -> opt_small lm ->
  reads (emit_times e lm) (at_ (bytes_of "Entry" :: p) g b (t :: st) es n s)
    (at_ (bytes_of "Entry" :: p) g b (timed e lm t :: st) es n s).
Proof.
  intros Hp He Hl. unfold emit_times.
  assert (Hp' : zlen (bytes_of "Times" :: bytes_of "Entry" :: p) < MAX_DEPTH) by (unfold zlen in *; cbn [length]; lia).
  eapply reads_cons; [eapply reads_open; [unfold zlen in *; cbn [length]; lia|done|reflexivity]|].
  eapply reads_app.
  { eapply (reads_element "Expires" (Raw _)); [by left|done|destruct (test_expires e); by vm_compute|done|done|reflexivity]. }
  eapply reads_app; [apply (reads_time "ExpiryTime" set_expiry); [done..|reflexivity]|].
  eapply reads_app; [apply (reads_time "LastModificationTime" set_last_mod); [done..|reflexivity]|].
  apply reads_close.
  change (on_end _ _ _) with (mret tt : walk_op unit).
  unfold timed. destruct (test_expires e), (expiry_time e), lm; reflexivity.
Qed.

Lemma writes_inner e pw lm p g b st es n s :
  zlen p + 4 < MAX_DEPTH -> entry_ok e -> pw = password e \/ pw ∈ (history e).*1 -> opt_small lm -> stream_ok s ->
  exists t s', writes (emit_entry_inner e pw lm) (at_ p g b st es n s) (at_ (bytes_of "Entry" :: p) g b (t :: st) es n s')
    /\ stream_ok s' /\ is_built e pw lm [] t.
Proof.
  intros Hp He Hpw Hlm Hs. pose proof (ok_strings e He pw Hpw) as Hst.
  destruct (writes_strings (test_strings e pw) new_entry p g b st es n s) as (t1 & s1 & Hw & Hs1 & H1 & H2 & H3 & H4 & H5 & H6);
    [lia|done|done|].
  cbn [b_strings b_tags b_expires b_expiry_time_raw b_last_mod_raw b_history new_entry app] in *.
  exists (timed e lm (tagged e t1)), s1. split; [|split; [done|]].
  - unfold emit_entry_inner. eapply writes_seq; [|eapply writes_seq; [exact Hw|]]; (apply writes_put; [done|]).
    { eapply reads_cons; [eapply reads_open; [lia|done|reflexivity]|].
      eapply (reads_element "UUID" (Raw _)); [by left|unfold zlen in *; cbn [length]; lia|by vm_compute|done|done|reflexivity]. }
    eapply reads_app; [apply reads_tags; [lia|apply He|done]|].
    apply reads_times; [lia|apply He|done].
  - unfold is_built, timed, tagged. cbn. rewrite H1, H4, H5, H6. by split_and!.
Qed.

Definition hist_of (h : list Z * option (list Z)) : HistEntry :=
  mkHist (Some h.1) ((trim <$> h.2) ≫= parse_kdbx_time).

Lemma history_of_built e pw lm hs t : is_built e pw lm hs t -> history_of t = hist_of (pw, lm).
Proof. intros (H1 & _ & _ & _ & H5 & _). unfold history_of, hist_of. by rewrite H1, H5. Qed.

Lemma writes_items e hs t p g b st es n s :
  zlen p + 6 < MAX_DEPTH -> entry_ok e -> hs ⊆ history e -> stream_ok s ->
  exists s', writes (all_emit (fun h => emit_entry_inner e h.1 h.2 +++ put [Close "Entry"]) hs)
    (at_ (bytes_of "History" :: bytes_of "Entry" :: p) g b (t :: st) es n s)
    (at_ (bytes_of "History" :: bytes_of "Entry" :: p) g b (foldl (fun t h => push_history (hist_of h) t) t hs :: st) es n s')
    /\ stream_ok s'.
Proof.
  intros Hp He. revert t s. induction hs as [|h hs IH]; intros t s Hsub Hs.
  { exists s. split; [by apply writes_put|done]. }
  assert (Hh : h ∈ history e) by (apply Hsub; left).
  destruct (writes_inner e h.1 h.2 (bytes_of "History" :: bytes_of "Entry" :: p) g b (t :: st) es n s)
    as (th & s1 & Hw & Hs1 & Hb); [unfold zlen in *; cbn [length]; lia|done|right; by apply list_elem_of_fmap_2|by apply He|done|].
  destruct (IH (push_history (hist_of h) t) s1) as (s' & Hw' & Hs'); [intros x Hx; apply Hsub; by right|done|].
  exists s'. split; [|done]. cbn [all_emit foldr]. eapply writes_seq; [|exact Hw'].
  eapply writes_seq; [exact Hw|]. apply writes_put; [done|]. apply reads_close.
  change (on_end _ _ _) with (end_entry (Some (bytes_of "History"))). unfold end_entry.
  erewrite op_bind_run; [|reflexivity]. cbn [entry_stack]. erewrite op_bind_run; [|reflexivity].
  rewrite (history_of_built _ _ _ _ _ Hb). by destruct h.
Qed.

Lemma foldl_history hs t :
  foldl (fun t h => push_history (hist_of h) t) t hs =
  mkBuild (b_strings t) (b_tags t) (b_expires t) (b_expiry_time_raw t) (b_last_mod_raw t) (b_history t ++ (hist_of <$> hs))
    (cur_key t) (cur_val t) (cur_protected t).
Proof.
  revert t. induction hs as [|h hs IH]; intros t; [cbn; rewrite app_nil_r; by destruct t|]. cbn [foldl]. rewrite IH.
  cbn. by rewrite <- app_assoc.
Qed.

Lemma writes_history e t p g b st es n s :
  zlen p + 6 < MAX_DEPTH -> entry_ok e -> is_built e (password e) None [] t -> stream_ok s ->
  exists t' s', writes (emit_history e) (at_ (bytes_of "Entry" :: p) g b (t :: st) es n s)
    (at_ (bytes_of "Entry" :: p) g b (t' :: st) es n s')
    /\ stream_ok s' /\ is_built e (password e) None (hist_of <$> history e) t'.
Proof.
  intros Hp He Hb Hs. unfold emit_history. destruct (history e) as [|h hs] eqn:Eh.
  { exists t, s. split; [by apply writes_put|done]. }
  destruct (writes_items e (h :: hs) t p g b st es n s) as (s' & Hw & Hs'); [done|done|by rewrite Eh|done|].
  exists (foldl (fun t h => push_history (hist_of h) t) t (h :: hs)), s'. split; [|split; [done|]].
  - eapply writes_seq; [|eapply writes_seq; [exact Hw|]]; (apply writes_put; [done|]).
    + eapply reads_open; [unfold zlen in *; cbn [length]; lia|done|reflexivity].
    + apply reads_close. reflexivity.
  - rewrite foldl_history. destruct Hb as (H1 & H2 & H3 & H4 & H5 & H6). unfold is_built. cbn. by rewrite H6.
Qed.

(** What is read of an entry. *)
Definition expected_entry (e : TestEntry) : KdbxEntry :=
  mkEntry (test_strings e (password e)) (split_tags (join [59] (test_tags e)))
    (filter (fun n => n <> []) (test_group_path e)) (test_expires e)
    ((trim <$> expiry_time e) ≫= parse_kdbx_time)
    ((fun h => (h.1, (trim <$> h.2) ≫= parse_kdbx_time)) <$> history e).

Lemma entry_of_built e hs gs t :
  is_built e (password e) None (hist_of <$> history e) t -> drop 1 (reverse (group_name <$> gs)) = hs ->
  entry_of t gs = mkEntry (strings (expected_entry e)) (entry_tags (expected_entry e)) (filter (fun n => n <> []) hs)
    (expires (expected_entry e)) (expiry_time_unix (expected_entry e)) (history_passwords (expected_entry e)).
Proof.
  intros (H1 & H2 & H3 & H4 & H5 & H6) <-. unfold entry_of. rewrite H1, H2, H3, H4, H6. cbn. f_equal.
  clear. induction (history e) as [|h hs IH]; [done|]. cbn. by rewrite IH.
Qed.

(** An entry in a group that is not the recycle bin, and in it. *)
Lemma writes_entry e p g gs b es n s :
  zlen p + 6 < MAX_DEPTH -> is_parent (head p) "History" = false -> entry_ok e -> stream_ok s -> zlen es < KDBX_MAX_ENTRIES ->
  exists s', writes (emit_entry e) (at_ p (g :: gs) b [] es n s)
    (if in_recycle g then at_ p (g :: gs) b [] es (n + 1) s'
     else at_ p (g :: gs) b []
            (es ++ [mkEntry (strings (expected_entry e)) (entry_tags (expected_entry e))
                      (filter (fun n => n <> []) (drop 1 (reverse (group_name <$> g :: gs))))
                      (expires (expected_entry e)) (expiry_time_unix (expected_entry e)) (history_passwords (expected_entry e))])
            n s')
    /\ stream_ok s'.
Proof.
  intros Hp Hpar He Hs Hes.
  destruct (writes_inner e (password e) None p (g :: gs) b [] es n s) as (t & s1 & Hw1 & Hs1 & Hb); [lia|done|by left|done|done|].
  destruct (writes_history e t p (g :: gs) b [] es n s1) as (t' & s2 & Hw2 & Hs2 & Hb'); [done|done|done|done|].
  exists s2. split; [|done]. eapply writes_seq; [exact Hw1|]. eapply writes_seq; [exact Hw2|].
  apply writes_put; [by destruct (in_recycle g)|]. apply reads_close.
  change (on_end _ _ _) with (end_entry (head p)). unfold end_entry.
  erewrite op_bind_run; [|reflexivity]. cbn [entry_stack]. erewrite op_bind_run; [|reflexivity]. rewrite Hpar.
  erewrite op_bind_run; [|reflexivity]. cbn [groups set_stack]. destruct (in_recycle g); [reflexivity|].
  erewrite op_bind_run; [|reflexivity]. cbn [entries]. rewrite (proj2 (Z.leb_gt _ _)) by done.
  by rewrite (entry_of_built e _ (g :: gs) t' Hb' eq_refl).
Qed.

(** *** Groups and the document *)

Definition BIN : list Z := base64_encode RECYCLE_BIN.
Definition group_id (ctr : Z) : list Z := base64_encode (to_le_bytes 8 ctr ++ replicate 8 0).

Definition inherited (gs : list GroupFrame) : bool := match gs with g :: _ => in_recycle g | [] => false end.

Lemma small_base64 l : zlen l <= 1024 -> zlen (base64_encode l) <= MAX_TEXT_BYTES.
Proof. intros Hl. pose proof (base64_length l). unfold MAX_TEXT_BYTES. lia. Qed.

Lemma reads_group name id e p gs bin st es n s :
  e = Raw name \/ e = Escaped name -> zlen p + 2 < MAX_DEPTH -> zlen name <= MAX_TEXT_BYTES -> zlen id <= MAX_TEXT_BYTES ->
  trim id = id ->
  reads (Open "Group" :: raw_leaf "UUID" id ++ [Open "Name"; e; Close "Name"]) (at_ p gs (Some bin) st es n s)
    (at_ (bytes_of "Group" :: p) (mkGroup name (Some id) (eq_ignore_ascii_case bin id || inherited gs) :: gs) (Some bin) st es n s).
Proof.
  intros He Hp Hn Hi Ht. unfold zlen in Hp.
  eapply reads_cons; [eapply reads_open; [unfold zlen; lia|done|reflexivity]|].
  apply (reads_app _ _ _ (at_ (bytes_of "Group" :: p)
    (mkGroup [] (Some id) (eq_ignore_ascii_case bin id || inherited gs) :: gs) (Some bin) st es n s)).
  - eapply reads_element; [by left|unfold zlen; cbn [length]; lia|done|done|done|].
    change (on_end (bytes_of "UUID") id _ ?w) with
      ((rb ← gets recycle_bin_uuid;
        let is_rb := match rb with Some rb => eq_ignore_ascii_case rb (trim id) | None => false end in
        on_group (fun g => mkGroup (group_name g) (Some (trim id)) (is_rb || in_recycle g)) : walk_op unit) w).
    rewrite Ht. reflexivity.
  - eapply reads_element; [exact He|unfold zlen; cbn [length]; lia|done|done|done|reflexivity].
Qed.

Fixpoint group_frames (ctr : Z) (names : list (list Z)) (gs : list GroupFrame) : list GroupFrame :=
  match names with
  | [] => gs
  | x :: names => group_frames (ctr + 1) names (mkGroup x (Some (group_id (ctr + 1))) false :: gs)
  end.

Definition group_elements (names : list (list Z)) (p : list (list Z)) : list (list Z) :=
  foldl (fun p _ => bytes_of "Group" :: p) p names.

Lemma zlen_group_elements names p : zlen (group_elements names p) = zlen p + zlen names.
Proof.
  unfold group_elements, zlen. revert p. induction names as [|x names IH]; intros p; cbn [foldl length]; [lia|].
  rewrite IH. cbn [length]. lia.
Qed.

Lemma head_group_elements names p :
  head p = Some (bytes_of "Group") -> head (group_elements names p) = Some (bytes_of "Group").
Proof. unfold group_elements. revert p. induction names as [|x names IH]; intros p Hp; [done|]. by apply IH. Qed.

Lemma names_group_frames ctr names gs :
  reverse (group_name <$> group_frames ctr names gs) = reverse (group_name <$> gs) ++ names.
Proof.
  revert ctr gs. induction names as [|x names IH]; intros ctr gs; cbn [group_frames]; [by rewrite app_nil_r|].
  rewrite IH, fmap_cons, reverse_cons. cbn. by rewrite <- app_assoc.
Qed.

Lemma inherited_group_frames ctr names gs : inherited gs = false -> inherited (group_frames ctr names gs) = false.
Proof. revert ctr gs. induction names as [|x names IH]; intros ctr gs Hg; [done|]. by apply IH. Qed.

Lemma other_group ctr : eq_ignore_ascii_case BIN (group_id ctr) = false.
Proof. apply bool_decide_eq_false_2. intros He. by apply (base64_groups ctr). Qed.

Lemma reads_open_groups names ctr p gs es n s :
  zlen p + zlen names + 2 < MAX_DEPTH -> Forall small names -> inherited gs = false ->
  reads (open_groups ctr names) (at_ p gs (Some BIN) [] es n s)
    (at_ (group_elements names p) (group_frames ctr names gs) (Some BIN) [] es n s).
Proof.
  intros Hp Hn. revert ctr p gs Hp. induction Hn as [|x names Hx _ IH]; intros ctr p gs Hp Hg; [apply reads_nil|].
  unfold zlen in Hp. cbn [length] in Hp. cbn [open_groups group_frames group_elements foldl].
  eapply reads_app; [|apply IH; [unfold zlen; cbn [length]; lia|done]].
  replace (mkGroup x _ false) with (mkGroup x (Some (group_id (ctr + 1))) (eq_ignore_ascii_case BIN (group_id (ctr + 1)) || inherited gs))
    by by rewrite other_group, Hg.
  apply reads_group; [by right|unfold zlen; lia|unfold small in Hx; unfold MAX_TEXT_BYTES; lia| |apply trim_base64, base64_bytes].
  apply small_base64. unfold zlen. rewrite length_app, length_to_le_bytes, length_replicate. lia.
Qed.

Lemma close_groups_snoc x names : close_groups (x :: names) = close_groups names ++ [Close "Group"].
Proof. unfold close_groups. induction names as [|y names IH]; [done|]. cbn in *. by rewrite IH. Qed.

Lemma reads_close_groups names ctr p gs b es n s :
  reads (close_groups names) (at_ (group_elements names p) (group_frames ctr names gs) b [] es n s) (at_ p gs b [] es n s).
Proof.
  revert ctr p gs. induction names as [|x names IH]; intros ctr p gs; [apply reads_nil|].
  rewrite close_groups_snoc. eapply reads_app; [apply IH|]. apply reads_close. reflexivity.
Qed.

Lemma writes_live l ctr p gs es n s :
  zlen p + 208 < MAX_DEPTH -> head p = Some (bytes_of "Group") -> inherited gs = false ->
  length gs = 1%nat -> Forall entry_ok l -> stream_ok s -> zlen es + zlen l <= KDBX_MAX_ENTRIES ->
  exists s', writes (emit_live ctr l) (at_ p gs (Some BIN) [] es n s) (at_ p gs (Some BIN) [] (es ++ (expected_entry <$> l)) n s')
    /\ stream_ok s'.
Proof.
  intros Hp Hh Hg Hl Hok. revert ctr es s. induction Hok as [|e l He _ IH]; intros ctr es s Hs Hes.
  { exists s. rewrite app_nil_r. split; [by apply writes_put|done]. }
  destruct (ok_path e He) as [Hpath Hsmall].
  pose proof (inherited_group_frames ctr (test_group_path e) gs Hg) as Hin.
  pose proof (names_group_frames ctr (test_group_path e) gs) as Hnames.
  destruct (group_frames ctr (test_group_path e) gs) as [|g0 gs0] eqn:Eg.
  { by destruct gs as [|? [|? ?]]. }
  destruct (writes_entry e (group_elements (test_group_path e) p) g0 gs0 (Some BIN) es n s) as (s1 & Hw & Hs1);
    [rewrite zlen_group_elements; lia|by rewrite head_group_elements|done|done|unfold zlen in *; cbn [length] in *; lia|].
  assert (Hd : drop 1 (reverse (group_name <$> gs) ++ test_group_path e) = test_group_path e).
  { apply drop_app_length'. by rewrite length_reverse, length_fmap. }
  cbn in Hin. rewrite Hin, Hnames, Hd in Hw. change (mkEntry _ _ _ _ _ _) with (expected_entry e) in Hw.
  destruct (IH (ctr + Z.of_nat (length (test_group_path e))) (es ++ [expected_entry e]) s1) as (s2 & Hw2 & Hs2);
    [done|rewrite zlen_app; unfold zlen in *; cbn [length] in *; lia|].
  exists s2. split; [|done]. cbn [emit_live].
  eapply writes_seq; [apply writes_put; [|apply reads_open_groups; [lia|done|done]]; done|]. rewrite Eg.
  eapply writes_seq; [exact Hw|].
  eapply writes_seq; [apply writes_put; [|rewrite <- Eg; apply reads_close_groups]; done|].
  replace (es ++ (expected_entry <$> e :: l)) with ((es ++ [expected_entry e]) ++ (expected_entry <$> l)); [exact Hw2|].
  rewrite <- app_assoc. reflexivity.
Qed.

Lemma writes_recycled l p gs g b es n s :
  zlen p + 6 < MAX_DEPTH -> is_parent (head p) "History" = false -> in_recycle g = true ->
  Forall entry_ok l -> stream_ok s -> zlen es < KDBX_MAX_ENTRIES ->
  exists s', writes (all_emit emit_entry l) (at_ p (g :: gs) b [] es n s) (at_ p (g :: gs) b [] es (n + zlen l) s')
    /\ stream_ok s'.
Proof.
  intros Hp Hh Hg Hok. revert n s. induction Hok as [|e l He _ IH]; intros n s Hs Hes.
  { exists s. rewrite Z.add_0_r. split; [by apply writes_put|done]. }
  destruct (writes_entry e p g gs b es n s) as (s1 & Hw & Hs1); [done..|]. rewrite Hg in Hw.
  destruct (IH (n + 1) s1 Hs1 Hes) as (s2 & Hw2 & Hs2). exists s2. split; [|done].
  eapply writes_seq; [exact Hw|]. replace (n + zlen (e :: l)) with (n + 1 + zlen l); [exact Hw2|].
  unfold zlen. cbn [length]. lia.
Qed.

Lemma reads_bin p gs st es n s :
  zlen p < MAX_DEPTH -> head p = Some (bytes_of "Meta") ->
  reads (raw_leaf "RecycleBinUUID" BIN) (at_ p gs None st es n s) (at_ p gs (Some BIN) st es n s).
Proof.
  intros Hp Hh. eapply reads_element; [by left|done|by apply small_base64|done|by rewrite Hh|]. rewrite Hh.
  change (on_end (bytes_of "RecycleBinUUID") BIN (Some (bytes_of "Meta"))) with
    (let t := trim BIN in
     if negb (length t =? 0)%nat && negb (forallb (fun c => (c =? 65) || (c =? 61)) t)
     then modify (set_bin (Some t)) else mret tt : walk_op unit).
  cbv zeta. rewrite trim_base64 by apply base64_bytes. pose proof base64_bin as Hb. fold BIN in Hb. rewrite Hb.
  destruct BIN; [done|reflexivity].
Qed.

Lemma reads_inert name p gs b es n s :
  zlen p < MAX_DEPTH -> inert name = true -> is_name (bytes_of name) "Value" = false ->
  reads [Open name] (at_ p gs b [] es n s) (at_ (bytes_of name :: p) gs b [] es n s).
Proof.
  intros Hp Hi Hv. pose proof (proj1 (andb_prop _ _ Hi)) as Hu. apply reads_open; [done|done|].
  apply on_start_inert; [done|by rewrite Hv].
Qed.

Definition root_path : list (list Z) := [bytes_of "Group"; bytes_of "Root"; bytes_of "KeePassFile"].
Definition root_group : GroupFrame := mkGroup (bytes_of "Root") (Some ROOT_UUID) false.

(** The document up to its first group. *)
Lemma reads_prologue s :
  reads ([Declaration; Open "KeePassFile"; Open "Meta"] ++ raw_leaf "Generator" (bytes_of "pangolin-test")
       ++ raw_leaf "RecycleBinUUID" (base64_encode RECYCLE_BIN)
       ++ raw_leaf "RecycleBinEnabled" (bytes_of "True") ++ [Close "Meta"; Open "Root"]
       ++ Open "Group" :: raw_leaf "UUID" ROOT_UUID ++ raw_leaf "Name" (bytes_of "Root"))
    (walk_start s) (at_ root_path [root_group] (Some BIN) [] [] 0 s).
Proof.
  eapply reads_cons; [reflexivity|]. eapply reads_cons; [by apply reads_inert|]. eapply reads_cons; [by apply reads_inert|].
  eapply reads_app; [eapply reads_element; [by left|done|by vm_compute|done|done|reflexivity]|].
  eapply reads_app; [by apply reads_bin|].
  eapply reads_app; [eapply reads_element; [by left|done|by vm_compute|done|done|reflexivity]|].
  eapply reads_cons; [apply reads_close; reflexivity|]. eapply reads_cons; [by apply reads_inert|].
  replace root_group with (mkGroup (bytes_of "Root") (Some ROOT_UUID) (eq_ignore_ascii_case BIN ROOT_UUID || inherited [])).
  - apply reads_group; [by left|done|by vm_compute|by vm_compute|by vm_compute].
  - unfold root_group. f_equal. apply orb_false_iff. split; [|done]. apply bool_decide_eq_false_2.
    intros He. by apply base64_root.
Qed.

Lemma Forall_filter {A} (P Q : A -> Prop) `{!forall x, Decision (Q x)} l : Forall P l -> Forall P (filter Q l).
Proof. rewrite !Forall_forall. intros Hl x [_ Hx]%list_elem_of_filter. by apply Hl. Qed.

Lemma walk_document l s :
  Forall entry_ok l -> stream_ok s -> zlen l < KDBX_MAX_ENTRIES ->
  exists s', run (document_events l s) (walk_start s) =
    (Ok tt, mkWalk [] [] (Some BIN) [] (expected_entry <$> filter is_live l) (zlen (filter (fun e => ~ is_live e) l)) [] s').
Proof.
  intros Hok Hs Hl.
  assert (Hlen : zlen (filter is_live l) <= zlen l) by (unfold zlen; pose proof (length_filter is_live l); lia).
  destruct (writes_live (filter is_live l) 1 root_path [root_group] [] 0 s) as (s1 & Hw1 & Hs1);
    [done|done|done|done|by apply Forall_filter|done|unfold zlen in *; cbn [length]; lia|].
  set (bin_group := mkGroup (bytes_of "Recycle Bin") (Some BIN) (eq_ignore_ascii_case BIN BIN || inherited [root_group])).
  destruct (writes_recycled (filter (fun e => ~ is_live e) l) (bytes_of "Group" :: root_path) [root_group] bin_group (Some BIN)
              (expected_entry <$> filter is_live l) 0 s1) as (s2 & Hw2 & Hs2);
    [done|done|by apply orb_true_iff; left; apply bool_decide_eq_true_2|by apply Forall_filter|done|by unfold zlen in *; rewrite length_fmap; lia|].
  exists s2. cut (writes (emit_document l) (walk_start s)
    (at_ [] [] (Some BIN) [] (expected_entry <$> filter is_live l) (zlen (filter (fun e => ~ is_live e) l)) s2));
    [by intros [Hr _]|].
  unfold emit_document. eapply writes_seq; [apply writes_put; [|apply reads_prologue]; done|].
  eapply writes_seq; [exact Hw1|].
  eapply writes_seq; [apply writes_put; [|apply reads_group; [by left|done|by vm_compute|by apply small_base64|apply trim_base64, base64_bytes]]; done|].
  eapply writes_seq; [exact Hw2|]. apply writes_put; [done|].
  repeat (eapply reads_cons; [apply reads_close; reflexivity|]). apply reads_nil.
Qed.

(** *** Databases *)

(** A [String]. *)
Definition rust_string (s : list Z) : Prop := Forall is_byte s /\ utf8 s = true.

(** What the limits of the reader allow, of the entries and their document under a
    stream; and what quick-xml makes of that document. *)
Record writable `{XmlReader} (l : list TestEntry) (s : InnerStream) : Prop := {
  fits_entries : Forall entry_ok l /\ zlen l < KDBX_MAX_ENTRIES;
  fits_events : zlen (document_events l s) < MAX_EVENTS;
  is_text : rust_string (build_xml l s);
  tokenized : read_events (build_xml l s) = document_events l s
}.

Lemma parse_written `{XmlReader} l s :
  writable l s -> stream_ok s ->
  parse_kdbx_xml (build_xml l s) s = Ok (expected_entry <$> filter is_live l, zlen (filter (fun e => ~ is_live e) l)).
Proof.
  intros [[Hok Hn] He [_ Hu] Ht] Hs. unfold parse_kdbx_xml. rewrite Hu, Ht. cbn [negb].
  destruct (walk_document l s Hok Hs Hn) as (s' & Hr). by rewrite (walk_run _ 0 _ _ He Hr).
Qed.

(** C26. A KDBX 4 database that the writer of the tests wrote is read, under the same
    password and key file and either cipher, as the entries that were written: the
    strings in their order with the protected values unmasked, the tags, the groups
    above the entry, the expiry and the passwords of its history; what was written
    to the recycle bin is counted and left out. *)
Theorem written_database_reads_back `{XmlReader} l pw keyfile c file :
  build_kdbx4 l pw keyfile c = Some file ->
  (forall kf, keyfile = Some kf -> raw_keyfile kf) -> writable l kdbx4_stream ->
  zlen file <= KDBX_MAX_FILE_BYTES -> zlen (kdbx4_inner (build_xml l kdbx4_stream)) <= KDBX_MAX_INFLATED_BYTES ->
  read_kdbx file pw keyfile =
  Ok (mkDatabase true (expected_entry <$> filter is_live l) (zlen (filter (fun e => ~ is_live e) l)) 0 0).
Proof.
  intros Hf Hk Hw Hfile Hxml. unfold read_kdbx. destruct (is_text _ _ Hw) as [Hb _].
  rewrite (open_seal_kdbx4 _ _ _ _ _ Hf Hk Hb Hfile Hxml). cbn [mbind result_bind].
  change (parse_kdbx_xml _ _) with (parse_kdbx_xml (build_xml l kdbx4_stream) kdbx4_stream).
  by rewrite (parse_written l kdbx4_stream Hw (inner_stream_ok InnerChaCha20 (replicate 64 0x33))).
Qed.

(** The same of KDBX 3.1. *)
Lemma written_v3_reads_back `{XmlReader} l pw :
  writable l kdbx3_stream -> zlen (build_kdbx3 l pw) <= KDBX_MAX_FILE_BYTES ->
  zlen (build_xml l kdbx3_stream) <= KDBX_MAX_INFLATED_BYTES ->
  read_kdbx (build_kdbx3 l pw) (Some pw) None =
  Ok (mkDatabase false (expected_entry <$> filter is_live l) (zlen (filter (fun e => ~ is_live e) l)) 0 0).
Proof.
  intros Hw Hfile Hxml. unfold read_kdbx. destruct (is_text _ _ Hw) as [Hb _].
  unfold build_kdbx3 in *. rewrite (open_seal_kdbx3 _ _ Hb Hfile Hxml). cbn [mbind result_bind].
  change (parse_kdbx_xml _ _) with (parse_kdbx_xml (build_xml l kdbx3_stream) kdbx3_stream).
  by rewrite (parse_written l kdbx3_stream Hw (inner_stream_ok InnerSalsa20 (replicate 32 0x33))).
Qed.
End written.

(** ** An instance

    A reader of XML that knows elements, one attribute and the four entities written. *)
Module KdbxXmlSample.
Import KdbxSample.

Definition entities : list (list Z * Z) :=
  [(bytes_of "&amp;", 38); (bytes_of "&lt;", 60); (bytes_of "&gt;", 62); (bytes_of "&quot;", 34)].

Fixpoint unescape (fuel : nat) (s : list Z) : list Z :=
  match fuel, s with
  | S fuel, c :: r =>
      match head (omap (fun p : list Z * Z => pair p.2 <$> strip_prefix p.1 s) entities) with
      | Some (x, r) => x :: unescape fuel r
      | None => c :: unescape fuel r
      end
  | _, _ => []
  end.

(** One tag, without its brackets. *)
Definition tag_event (t : list Z) : XmlEvent :=
  match t with
  | 63 :: _ => OtherEvent
  | 47 :: _ => End
  | _ =>
      match split_once 32 t with
      | None => Start t []
      | Some (name, attr) =>
          match split_once 61 attr with
          | Some (k, v) => Start name [Some (k, Some (filter (fun c => c <> 34) v))]
          | None => XmlError
          end
      end
  end.

(** What stands between two opening brackets: a tag, and text after it. *)
Definition chunk_events (c : list Z) : list XmlEvent :=
  match split_once 62 c with
  | None => []
  | Some (t, []) => [tag_event t]
  | Some (t, text) => [tag_event t; Text (Some (unescape (length text) text))]
  end.

#[export] Instance toy_xml : XmlReader := fun s => split 60 s ≫= chunk_events.

Definition sample_entry (gone : bool) : TestEntry :=
  mkTest (bytes_of "Mail & co") (bytes_of "ann") (bytes_of "p<w>1") (bytes_of "https://mail.example") []
    [(bytes_of "PIN", bytes_of "0000", true)] [bytes_of "work"; bytes_of " home "] [bytes_of "Net"; []; bytes_of "Mail"]
    [(bytes_of "older", Some (bytes_of "2020-02-29T12:00:00Z")); (bytes_of "old", None)]
    true (Some (bytes_of "1970-01-02T00:00:01Z")) gone.

Definition sample_entries : list TestEntry := [sample_entry false; sample_entry true].

Lemma check_strings l :
  forallb (fun x => (zlen (key x) <=? 1000) && (zlen (value x) <=? 1000) && forallb (in_range 0 255) (value x)) l = true ->
  Forall string_ok l.
Proof.
  intros Hl. apply List.Forall_forall. intros x Hx. apply forallb_forall with (x := x) in Hl; [|done].
  apply andb_prop in Hl as [[Hk%Z.leb_le Hv%Z.leb_le]%andb_prop Hb].
  unfold string_ok, small. split_and!; [lia|lia|by apply check_bytes].
Qed.

Lemma sample_entry_ok gone : entry_ok (sample_entry gone).
Proof.
  split.
  - intros pw Hpw. assert (Hcases : pw = bytes_of "p<w>1" \/ pw = bytes_of "older" \/ pw = bytes_of "old") by (cbn in Hpw; set_solver).
    destruct Hcases as [-> |[-> | ->]]; apply check_strings; by vm_compute.
  - by vm_compute.
  - by vm_compute.
  - intros h Hh. cbn in Hh. assert (Hcases : h ∈ history (sample_entry gone)) by done.
    cbn in Hcases. repeat (apply elem_of_cons in Hcases as [-> |Hcases]; [by vm_compute|]). by apply not_elem_of_nil in Hcases.
  - split; [by vm_compute|]. repeat constructor; by vm_compute.
Qed.

Lemma sample_writable : writable sample_entries kdbx4_stream.
Proof.
  split.
  - split; [|by vm_compute]. apply Forall_cons_2; [apply sample_entry_ok|]. apply Forall_cons_2; [apply sample_entry_ok|constructor].
  - by vm_compute.
  - split; [apply check_bytes; by vm_compute|by vm_compute].
  - by vm_compute.
Qed.

Lemma written_database_reads_back_witness :
  let file := default [] (build_kdbx4 sample_entries (Some sample_password) None WriteAes256Cbc) in
  read_kdbx file (Some sample_password) None
  = Ok (mkDatabase true [expected_entry (sample_entry false)] 1 0 0)
  /\ group_path (expected_entry (sample_entry false)) = [bytes_of "Net"; bytes_of "Mail"]
  /\ entry_tags (expected_entry (sample_entry false)) = [bytes_of "work"; bytes_of "home"]
  /\ expiry_time_unix (expected_entry (sample_entry false)) = Some 86401.
Proof.
  intros file. split; [|by vm_compute].
  apply (written_database_reads_back sample_entries (Some sample_password) None WriteAes256Cbc file);
    [by vm_compute|done|apply sample_writable|by vm_compute|by vm_compute].
Defined.

(** A protected element that is no value of a string does not move the stream. *)
Example protected_elsewhere s :
  let binary := [Start (bytes_of "Binary") [Some (bytes_of "Protected", Some (bytes_of "True"))]; Text (Some (bytes_of "QUJD")); End] in
  stream (run binary (mkWalk [] [] None [] [] 0 [] s)).2 = s.
Proof. vm_compute. reflexivity. Qed.
End KdbxXmlSample.
