(* ===== verification/KdbxMap.v ===== *)
(** * KeePass entries as accounts

    crates/pangolin-kdbx/src/map.rs: what becomes of each entry of a database, and the
    draft that the importers (apps/cli import.rs, crates/pangolin-ffi kdbx.rs) make of
    it.

    [mapped_entry_fits] says what the store makes of a mapped entry: the draft never
    exceeds its limits, and is refused exactly for a control character or for an address
    that the URL parser does not take; [map_urls] keeps such addresses
    ([KdbxMapSample.bare_host_refused]). *)

From Stdlib Require Import String.
From S2P Require Import Prelude StoreError Bytes Text Totp Kdbx KdbxXml Account.
Open Scope Z_scope.

(** [mod caps]. *)
Definition DISPLAY_NAME_MAX : Z := 256.
Definition USERNAME_MAX : nat := 320.
Definition URL_MAX : nat := 2048.
Definition URLS_MAX : nat := 32.
Definition TAG_MAX : nat := 64.
Definition TAGS_MAX : nat := 32.
Definition NOTES_MAX : nat := Z.to_nat 65536.
Definition PASSWORD_MAX : nat := Z.to_nat 4096.
Definition HISTORY_MAX : nat := Z.to_nat KDBX_MAX_HISTORY_PER_ENTRY.

Definition is_known_key (k : list Z) : bool :=
  bool_decide (k ∈ bytes_of <$> ["Title"; "UserName"; "Password"; "URL"; "Notes"; "otp"]%string)
  || starts_with (bytes_of "TimeOtp-") k.

Record MappedEntry : Type := mkMapped {
  m_display_name : list Z;
  m_usernames : list (list Z);
  m_urls : list (list Z);
  m_notes : list Z;
  m_password : list Z;
  m_totp : option ParsedTotpSecret;
  m_tags : list (list Z);
  m_history : list (list Z * option Z)
}.

Inductive EntrySkip : Type := EmptyPassword | NoFields.

Record MapResult : Type := mkMapResult {
  mapped : list MappedEntry;
  skipped : list EntrySkip;
  map_recycle_bin_entries : Z
}.

(** ** Text *)

(** [String::from_utf8_lossy] of the value, or the empty string. *)
Definition val_str (e : KdbxEntry) (k : string) : list Z :=
  match field e (bytes_of k) with Some v => from_utf8_lossy (value v) | None => [] end.

(** [s.chars().take(n)]. *)
Fixpoint take_chars (n : Z) (s : list Z) : list Z :=
  match s with
  | [] => []
  | b :: r => if cont b then b :: take_chars n r else if n <=? 0 then [] else b :: take_chars (n - 1) r
  end.

Definition ELLIPSIS : list Z := [0xE2; 0x80; 0xA6].
Definition EM_DASH : list Z := [0xE2; 0x80; 0x94].

Definition truncate_chars (s : list Z) (max_chars : Z) : list Z :=
  if char_count s <=? max_chars then s else take_chars (saturating_sub max_chars 1) s ++ ELLIPSIS.

(** The last boundary at or before [n]. *)
Fixpoint floor_boundary (s : list Z) (n : nat) : nat :=
  match n with
  | O => O
  | S m => if is_char_boundary s n then n else floor_boundary s m
  end.

Definition truncate_bytes (s : list Z) (max_bytes : nat) : list Z :=
  if (length s <=? max_bytes)%nat then s else take (floor_boundary s max_bytes) s.

(** [s.replace(p, r)]. *)
Fixpoint replace_text (fuel : nat) (p r s : list Z) : list Z :=
  match fuel, s with
  | S fuel, b :: rest =>
      match strip_prefix p s with
      | Some rest => r ++ replace_text fuel p r rest
      | None => b :: replace_text fuel p r rest
      end
  | _, _ => []
  end.

Definition str_replace (p : string) (r : string) (s : list Z) : list Z :=
  replace_text (length s) (bytes_of p) (bytes_of r) s.

Definition untitled (s : list Z) : list Z := bytes_of "(untitled " ++ EM_DASH ++ [32] ++ s ++ [41].

(** ** The fields *)

Definition map_display_name (title username_raw url_raw : list Z) : list Z :=
  let imported := bytes_of "Imported entry" in
  let display_name :=
    if (length (trim title) =? 0)%nat then
      if negb (length (trim username_raw) =? 0)%nat then untitled (trim username_raw)
      else if negb (length (trim url_raw) =? 0)%nat then
        let t := trim url_raw in
        let t := strip_all (length t) [bytes_of "https://"] t in
        let t := strip_all (length t) [bytes_of "http://"] t in
        let host := default [] (head (split 47 t)) in
        if (length host =? 0)%nat then imported else untitled host
      else imported
    else trim title in
  truncate_chars display_name DISPLAY_NAME_MAX.

Definition map_username (username_raw : list Z) : list Z :=
  if (length (trim username_raw) =? 0)%nat then bytes_of "(no username)"
  else truncate_bytes (trim username_raw) USERNAME_MAX.

Definition map_urls (url_raw : list Z) : list (list Z) :=
  let url_trim := trim url_raw in
  let urls :=
    if negb (length url_trim =? 0)%nat && (length url_trim <=? URL_MAX)%nat
       && (contains (bytes_of "://") url_trim || contains [46] url_trim)
    then [url_trim] else [] in
  take URLS_MAX urls.

Definition push_line (notes line : list Z) : list Z := (if (length notes =? 0)%nat then [] else notes ++ [10]) ++ line.

Definition custom_block (e : KdbxEntry) (notes : list Z) : list Z :=
  match filter (fun s => is_known_key (key s) = false) (strings e) with
  | [] => notes
  | custom =>
      foldl (fun n s => n ++ [10] ++ key s ++ [58; 32] ++ from_utf8_lossy (value s))
        (push_line notes (bytes_of "--- Imported custom fields ---")) custom
  end.

Definition TRUNCATED_MARKER : list Z := 10 :: bytes_of "[notes truncated]".

Definition clip_notes (notes : list Z) : list Z :=
  let notes := truncate_bytes notes NOTES_MAX in
  if (length notes =? NOTES_MAX)%nat
  then truncate_bytes notes (NOTES_MAX - length TRUNCATED_MARKER) ++ TRUNCATED_MARKER
  else notes.

Definition map_notes (e : KdbxEntry) (attachment_note : option (list Z)) : list Z :=
  let notes := custom_block e (val_str e "Notes") in
  let notes := match attachment_note with Some an => push_line notes an | None => notes end in
  clip_notes notes.

(** [tags.retain(..)]: neither empty nor, in ASCII lower case, seen before. *)
Fixpoint retain_new (seen : list (list Z)) (tags : list (list Z)) : list (list Z) :=
  match tags with
  | [] => []
  | t :: tags =>
      if (length t =? 0)%nat then retain_new seen tags
      else if bool_decide (to_ascii_lowercase t ∈ seen) then retain_new seen tags
      else t :: retain_new (to_ascii_lowercase t :: seen) tags
  end.

Definition map_tags (e : KdbxEntry) (now : Z) : list (list Z) :=
  let tags := (fun t => truncate_bytes (trim t) TAG_MAX) <$> entry_tags e in
  let groups := (fun g => truncate_bytes g TAG_MAX) <$> filter (fun g => g <> []) (trim <$> group_path e) in
  let expired := expires e && match expiry_time_unix e with Some t => t <? now | None => false end in
  take TAGS_MAX (retain_new [] (tags ++ groups ++ (if expired then [bytes_of "expired"] else []))).

(** The loop over the history, with the last password kept; [room] are left to take. *)
Fixpoint map_history (room : nat) (current : list Z) (prev : option (list Z)) (l : list (list Z * option Z)) :
    list (list Z * option Z) :=
  match room, l with
  | S room', (pw, ts) :: l =>
      if (length pw =? 0)%nat then map_history room current prev l
      else if bool_decide (prev = Some pw) then map_history room current prev l
      else if bool_decide (pw = current) then map_history room current prev l
      else if (PASSWORD_MAX <? length pw)%nat then map_history room current prev l
      else (pw, ts) :: map_history room' current (Some pw) l
  | _, _ => []
  end.

(** *** One-time passwords *)

Definition parse_field (e : KdbxEntry) (k : string) (hi : Z) : option Z :=
  v ← field e (bytes_of k);
  parse_unsigned hi (trim (from_utf8_lossy (value v))).

Definition native_uri (e : KdbxEntry) (secret : list Z) : list Z :=
  let period := p ← parse_field e "TimeOtp-Period" U32_MAX; if 1 <=? p then Some p else None in
  let digits := d ← parse_field e "TimeOtp-Digits" U8_MAX; if in_range 6 8 d then Some d else None in
  let algo := (fun v => to_ascii_uppercase (trim (from_utf8_lossy (value v)))) <$> field e (bytes_of "TimeOtp-Algorithm") in
  bytes_of "otpauth://totp/imported?secret=" ++ secret
  ++ match period with Some p => bytes_of "&period=" ++ decimal 10 p | None => [] end
  ++ match digits with Some d => bytes_of "&digits=" ++ decimal 3 d | None => [] end
  ++ match algo with
     | Some a =>
         let canon := str_replace "-" "" (str_replace "SHA-" "SHA" (str_replace "HMAC" "" (str_replace "HMAC-" "" a))) in
         if bool_decide (canon ∈ bytes_of <$> ["SHA1"; "SHA256"; "SHA512"]%string) then bytes_of "&algorithm=" ++ canon else []
     | None => []
     end.

Definition ok {E A} (r : result E A) : option A := match r with Ok a => Some a | Err _ => None end.

Definition extract_totp (e : KdbxEntry) : option ParsedTotpSecret :=
  let from_otp :=
    otp ← field e (bytes_of "otp");
    let t := trim (from_utf8_lossy (value otp)) in
    if (length t =? 0)%nat then None else ok (parse_totp_secret t) in
  match from_otp with
  | Some p => Some p
  | None =>
      b32 ← field e (bytes_of "TimeOtp-Secret-Base32");
      let secret := trim (from_utf8_lossy (value b32)) in
      if (length secret =? 0)%nat then None else ok (parse_otpauth_uri (native_uri e secret))
  end.

(** ** An entry, and all of them *)

Definition map_entry (now : Z) (attachment_note : option (list Z)) (e : KdbxEntry) : result EntrySkip MappedEntry :=
  if (length (strings e) =? 0)%nat then Err NoFields
  else if (length (trim (val_str e "Password")) =? 0)%nat then Err EmptyPassword
  else
    let password := take PASSWORD_MAX match field e (bytes_of "Password") with Some v => value v | None => [] end in
    Ok (mkMapped
      (map_display_name (val_str e "Title") (val_str e "UserName") (val_str e "URL"))
      [map_username (val_str e "UserName")]
      (map_urls (val_str e "URL"))
      (map_notes e attachment_note)
      password
      (extract_totp e)
      (map_tags e now)
      (map_history HISTORY_MAX password None (history_passwords e))).

(** The note is the same on every entry: it counts the whole file. *)
Definition attachment_note (db : KdbxDatabase) : option (list Z) :=
  if 0 <? db_binary_count db then
    Some (bytes_of "[" ++ decimal 20 (db_binary_count db) ++ bytes_of " attachment(s) not imported, ~"
          ++ decimal 20 ((db_binary_total_bytes db + 1023) / 1024) ++ bytes_of " KiB total]")
  else None.

Definition map_database (now : Z) (db : KdbxDatabase) : MapResult :=
  let rs := map_entry now (attachment_note db) <$> db_entries db in
  mkMapResult (omap ok rs) (omap (fun r => match r with Err s => Some s | Ok _ => None end) rs) (recycle_bin_entries db).

(** The draft of [ingest_one], with the password it starts from. *)
Definition draft_of (m : MappedEntry) (genesis : list Z) : AccountIdentityDraft :=
  mkDraft (m_display_name m) (m_tags m) (m_usernames m) (m_urls m) (m_notes m) genesis
    match m_totp m with Some t => secret_bytes t | None => [] end
    match m_totp m with Some t => params t | None => default_params end.

(** ** Facts: text *)

Lemma char_count_app a b : char_count (a ++ b) = char_count a + char_count b.
Proof. unfold char_count. rewrite filter_app, length_app. lia. Qed.

Lemma char_count_le s : 0 <= char_count s <= Z.of_nat (length s).
Proof. unfold char_count. pose proof (length_filter (fun b => cont b = false) s). lia. Qed.

Lemma take_chars_prefix n s : exists r, s = take_chars n s ++ r.
Proof.
  revert n. induction s as [|b s IH]; intros n; [by exists []|]. cbn [take_chars].
  destruct (cont b); [destruct (IH n) as [r Hr]; exists r; cbn; by rewrite <- Hr|].
  destruct (n <=? 0); [by exists (b :: s)|]. destruct (IH (n - 1)) as [r Hr]. exists r. cbn. by rewrite <- Hr.
Qed.

Lemma take_chars_count n s : 0 <= n -> char_count (take_chars n s) = Z.min n (char_count s).
Proof.
  revert n. induction s as [|b s IH]; intros n Hn; [unfold char_count; cbn; lia|]. cbn [take_chars].
  change (b :: s) with ([b] ++ s). rewrite (char_count_app [b] s). pose proof (char_count_le s).
  assert (Hb : char_count [b] = if cont b then 0 else 1) by (unfold char_count, filter; cbn; by destruct (cont b)).
  destruct (cont b) eqn:Ec; rewrite Hb; [|destruct (Z.leb_spec n 0)].
  - change (b :: take_chars n s) with ([b] ++ take_chars n s). rewrite char_count_app, Hb, IH by done. lia.
  - unfold char_count at 1. cbn. lia.
  - change (b :: take_chars (n - 1) s) with ([b] ++ take_chars (n - 1) s). rewrite char_count_app, Hb, IH by lia. lia.
Qed.

Lemma truncate_chars_count s n : 1 <= n -> char_count (truncate_chars s n) <= n.
Proof.
  intros Hn. unfold truncate_chars. destruct (Z.leb_spec (char_count s) n); [done|].
  rewrite char_count_app, take_chars_count by (unfold saturating_sub; lia).
  change (char_count ELLIPSIS) with 1. unfold saturating_sub. lia.
Qed.

Lemma floor_boundary_le s n : (floor_boundary s n <= n)%nat.
Proof. induction n as [|n IH]; cbn [floor_boundary]; [lia|]. destruct (is_char_boundary s (S n)); lia. Qed.

Lemma truncate_bytes_length s n : (length (truncate_bytes s n) <= n)%nat.
Proof.
  unfold truncate_bytes. destruct (Nat.leb_spec (length s) n); [done|]. rewrite length_take.
  pose proof (floor_boundary_le s n). lia.
Qed.

Lemma truncate_bytes_prefix s n : exists r, s = truncate_bytes s n ++ r.
Proof.
  unfold truncate_bytes. destruct (_ <=? _)%nat; [exists []; by rewrite app_nil_r|].
  eexists. symmetry. apply take_drop.
Qed.

(** *** Trimmed text *)

(** Text that does not start with white space. *)
Definition unspaced (s : list Z) : Prop := strip_any WHITE_SPACE s = None.

Lemma strip_any_None ws s : strip_any ws s = None <-> forall w r, w ∈ ws -> s <> w ++ r.
Proof.
  unfold strip_any. induction ws as [|w ws IH]; [split; [intros _ w r Hw; by apply not_elem_of_nil in Hw|done]|]. csimpl.
  destruct (strip_prefix w s) as [r|] eqn:E.
  - split; [done|]. intros Hn. apply strip_prefix_Some in E. exfalso. apply (Hn w r); [left|done].
  - rewrite IH. split; intros Hn v r Hv; [|by apply Hn; right]. apply elem_of_cons in Hv as [->|Hv]; [|by apply Hn].
    intros Hs. apply strip_prefix_Some in Hs. congruence.
Qed.

Lemma strip_any_Some ws s r : strip_any ws s = Some r -> exists w, w ∈ ws /\ s = w ++ r.
Proof.
  unfold strip_any. induction ws as [|w ws IH]; [done|]. csimpl. destruct (strip_prefix w s) as [r'|] eqn:E.
  - intros [= <-]. exists w. split; [left|]. by apply strip_prefix_Some.
  - intros (v & Hv & Hs)%IH. exists v. split; [by right|done].
Qed.

Lemma strip_all_spec fuel ws s :
  exists ps, s = mjoin ps ++ strip_all fuel ws s /\ Forall (fun w => w ∈ ws) ps.
Proof.
  revert s. induction fuel as [|fuel IH]; intros s; cbn [strip_all]; [by exists []|].
  destruct (strip_any ws s) as [r|] eqn:E; [|by exists []]. apply strip_any_Some in E as (w & Hw & ->).
  destruct (IH r) as (ps & Hr & Hps). exists (w :: ps). split; [|by constructor].
  change (mjoin (w :: ps)) with (w ++ mjoin ps). by rewrite <- app_assoc, <- Hr.
Qed.

Lemma strip_all_done fuel ws s :
  Forall (fun w => w <> []) ws -> (length s <= fuel)%nat -> strip_any ws (strip_all fuel ws s) = None.
Proof.
  intros Hws. revert s. induction fuel as [|fuel IH]; intros s Hl; cbn [strip_all].
  - destruct s; [|cbn in Hl; lia]. apply strip_any_None. intros w r Hw. rewrite Forall_forall in Hws. specialize (Hws w Hw).
    by destruct w.
  - destruct (strip_any ws s) as [r|] eqn:E; [|done]. apply IH. apply strip_any_Some in E as (w & Hw & ->).
    rewrite Forall_forall in Hws. specialize (Hws w Hw). rewrite length_app in Hl. destruct w; [done|]. cbn in Hl. lia.
Qed.

Lemma white_space_nonempty : Forall (fun w => w <> []) WHITE_SPACE.
Proof. repeat constructor; done. Qed.

Lemma unspaced_prefix s r : unspaced (s ++ r) -> unspaced s.
Proof.
  unfold unspaced. rewrite !strip_any_None. intros Hn w q Hw ->. apply (Hn w (q ++ r) Hw). by rewrite app_assoc.
Qed.

Lemma trim_start_infix s : exists p, s = p ++ trim_start s.
Proof. destruct (strip_all_spec (length s) WHITE_SPACE s) as (ps & Hs & _). by exists (mjoin ps). Qed.

Lemma trim_end_prefix s : exists r, s = trim_end s ++ r.
Proof.
  unfold trim_end. destruct (strip_all_spec (length s) (reverse <$> WHITE_SPACE) (reverse s)) as (ps & Hs & _).
  exists (reverse (mjoin ps)). rewrite <- reverse_app, <- Hs. by rewrite reverse_involutive.
Qed.

Lemma trim_infix s : exists p r, s = p ++ trim s ++ r.
Proof.
  destruct (trim_start_infix s) as [p Hp]. destruct (trim_end_prefix (trim_start s)) as [r Hr].
  exists p, r. unfold trim. by rewrite <- Hr.
Qed.

Lemma trim_unspaced s : unspaced (trim s).
Proof.
  destruct (trim_end_prefix (trim_start s)) as [r Hr]. apply (unspaced_prefix _ r). unfold trim. rewrite <- Hr.
  apply strip_all_done; [apply white_space_nonempty|done].
Qed.

Lemma trim_nonempty s : s <> [] -> unspaced s -> trim s <> [].
Proof.
  intros Hne Hs He. unfold trim, trim_start in He.
  assert (Hid : strip_all (length s) WHITE_SPACE s = s).
  { destruct s as [|b s]; [done|]. cbn [length strip_all]. unfold unspaced in Hs. by rewrite Hs. }
  rewrite Hid in He. unfold trim_end in He. apply (f_equal reverse) in He. rewrite reverse_involutive in He.
  destruct (strip_all_spec (length s) (reverse <$> WHITE_SPACE) (reverse s)) as (ps & Hr & Hps). rewrite He in Hr.
  change (reverse []) with (@nil Z) in Hr. rewrite app_nil_r in Hr. apply (f_equal reverse) in Hr. rewrite reverse_involutive in Hr.
  destruct ps as [|w qs _] using rev_ind; [done|].
  apply Forall_app in Hps as [_ Hw]. inversion Hw as [|? ? Hw' _]; subst. apply list_elem_of_fmap in Hw' as (v & -> & Hv).
  unfold unspaced in Hs. rewrite strip_any_None in Hs.
  apply (Hs v (reverse (mjoin qs)) Hv). rewrite join_app, reverse_app. f_equal.
  change (mjoin [reverse v]) with (reverse v ++ []). by rewrite app_nil_r, reverse_involutive.
Qed.

Lemma char_count_trim s : char_count (trim s) <= char_count s.
Proof.
  destruct (trim_infix s) as (p & r & Hs). rewrite Hs at 2. rewrite !char_count_app.
  pose proof (char_count_le p). pose proof (char_count_le r). lia.
Qed.

(** *** Boundaries

    In well-formed text at most three continuation bytes follow one another, so a cut
    loses at most three bytes. *)
Definition short_runs (s : list Z) : Prop :=
  forall i a b c d, s !! i = Some a -> s !! S i = Some b -> s !! S (S i) = Some c -> s !! S (S (S i)) = Some d ->
    cont a = true -> cont b = true -> cont c = true -> cont d = false.

(** A list of characters: a byte that starts one, and at most three that do not. *)
Inductive characters : list Z -> Prop :=
| characters_nil : characters []
| characters_cons b r s : cont b = false -> (length r <= 3)%nat -> characters s -> characters (b :: r ++ s).

Lemma characters_head s b r : characters s -> s = b :: r -> cont b = false.
Proof. intros Hs He. destruct Hs; [done|]. by injection He as -> _. Qed.

Lemma characters_short s : characters s -> short_runs s.
Proof.
  induction 1 as [|b r s Hb Hr Hs IH]; intros i x y z w Hx Hy Hz Hw Cx Cy Cz; [done|].
  destruct i as [|i]; [injection Hx as ->; congruence|].
  change ((r ++ s) !! i = Some x) in Hx. change ((r ++ s) !! S i = Some y) in Hy.
  change ((r ++ s) !! S (S i) = Some z) in Hz. change ((r ++ s) !! S (S (S i)) = Some w) in Hw.
  destruct (decide (length r <= i)%nat) as [Hge|Hlt].
  - rewrite lookup_app_r in Hx, Hy, Hz, Hw by lia.
    replace (S i - length r)%nat with (S (i - length r)) in Hy by lia.
    replace (S (S i) - length r)%nat with (S (S (i - length r))) in Hz by lia.
    replace (S (S (S i)) - length r)%nat with (S (S (S (i - length r)))) in Hw by lia. by apply (IH (i - length r)%nat x y z w).
  - assert (Hh : forall k v, (r ++ s) !! k = Some v -> k = length r -> cont v = false).
    { intros k v Hk ->. rewrite lookup_app_r, Nat.sub_diag in Hk by lia. destruct s as [|v' s]; [done|]. injection Hk as ->.
      by apply (characters_head _ _ _ Hs eq_refl). }
    destruct (cont w) eqn:Cw; [|done].
    destruct (decide (S i = length r)) as [He|]; [apply Hh in Hy; congruence|].
    destruct (decide (S (S i) = length r)) as [He|]; [apply Hh in Hz; congruence|].
    apply Hh in Hw; [congruence|lia].
Qed.

Lemma lead_not_cont lo hi b : in_range lo hi b = true -> 0xC0 <= lo -> cont b = false.
Proof.
  unfold in_range, cont, in_range. intros [H1%Z.leb_le H2%Z.leb_le]%andb_prop Hlo. apply andb_false_iff. right. apply Z.leb_gt. lia.
Qed.

Lemma ascii_not_cont b : (b <=? 0x7F) = true -> cont b = false.
Proof. intros Hb%Z.leb_le. unfold cont, in_range. apply andb_false_iff. left. apply Z.leb_gt. lia. Qed.

#[local] Hint Resolve ascii_not_cont lead_not_cont : core.

Lemma utf8_characters s : utf8 s = true -> characters s.
Proof.
  remember (length s) as n eqn:Hn. revert s Hn. induction n as [n IH] using lt_wf_ind. intros s -> Hu.
  destruct s as [|b s]; [constructor|]. cbn [utf8] in Hu.
  assert (Hrec : forall r t, (length t < length (b :: s))%nat -> utf8 t = true -> s = r ++ t -> cont b = false ->
    (length r <= 3)%nat -> characters (b :: s)).
  { intros r t Hl Ht -> Hb Hr. constructor; [done|done|]. by apply (IH (length t)). }
  destruct (b <=? 127) eqn:E1; [apply (Hrec [] s); cbn; auto with lia|].
  destruct (in_range 194 223 b) eqn:E2.
  { destruct s as [|c s]; [done|]. apply andb_prop in Hu as [_ Hu]. apply (Hrec [c] s); cbn; try lia; [done|done|].
    eapply lead_not_cont; [done|lia]. }
  destruct (in_range 224 239 b) eqn:E3.
  { destruct s as [|c [|d s]]; try done. apply andb_prop in Hu as [_ Hu]. apply (Hrec [c; d] s); cbn; try lia; [done|done|].
    eapply lead_not_cont; [done|lia]. }
  destruct (in_range 240 244 b) eqn:E4; [|done].
  destruct s as [|c [|d [|e s]]]; try done. apply andb_prop in Hu as [_ Hu]. apply (Hrec [c; d; e] s); cbn; try lia; [done|done|].
  eapply lead_not_cont; [done|lia].
Qed.

Lemma utf8_chunk_spec b r :
  (1 <= (utf8_chunk b r).1 <= 4)%nat /\ ((utf8_chunk b r).2 = true -> cont b = false).
Proof.
  unfold utf8_chunk. destruct (b <=? 127) eqn:E1; [cbn; split; [lia|auto]|].
  destruct (in_range 194 223 b) eqn:E2; [|destruct (in_range 224 239 b) eqn:E3; [|destruct (in_range 240 244 b) eqn:E4; [|cbn; split; [lia|done]]]];
    (split; [|intros _; eapply lead_not_cont; [done|lia]]);
    repeat (match goal with |- context [match ?x with _ => _ end] => destruct x end; cbn [fst]); cbn; lia.
Qed.

Lemma lossy_characters fuel s : characters (lossy fuel s).
Proof.
  revert s. induction fuel as [|fuel IH]; intros s; [constructor|]. cbn [lossy]. destruct s as [|b r]; [constructor|].
  destruct (utf8_chunk b r) as [n whole] eqn:E. destruct (utf8_chunk_spec b r) as [Hn Hb]. rewrite E in Hn, Hb. cbn in Hn, Hb.
  destruct whole; [|apply (characters_cons 239 [191; 189]); [done|cbn; lia|apply IH]].
  destruct n as [|n]; [lia|]. cbn [take app drop]. apply characters_cons; [by apply Hb|rewrite length_take; lia|apply IH].
Qed.

Lemma short_runs_infix p s r : short_runs (p ++ s ++ r) -> short_runs s.
Proof.
  intros Hs i a b c d Ha Hb Hc Hd. apply (Hs (length p + i)%nat);
    rewrite ?Nat.add_succ_r, lookup_app_r by lia;
    rewrite <- ?Nat.add_succ_r, Nat.add_comm, Nat.add_sub; by apply lookup_app_l_Some.
Qed.

Lemma not_boundary s n : (0 < n < length s)%nat -> is_char_boundary s n = false -> exists b, s !! n = Some b /\ cont b = true.
Proof.
  intros Hn Hb. unfold is_char_boundary in Hb. destruct (drop n s) as [|b r] eqn:E.
  { apply (f_equal length) in E. rewrite length_drop in E. cbn in E. lia. }
  exists b. split; [rewrite <- (Nat.add_0_r n), <- lookup_drop, E; done|].
  apply orb_false_iff in Hb as [_ Hb]. by apply negb_false_iff.
Qed.

Lemma floor_boundary_near s n : short_runs s -> (3 < n)%nat -> (n < length s)%nat -> (n - 3 <= floor_boundary s n)%nat.
Proof.
  intros Hs Hn Hl. destruct n as [|[|[|[|n]]]]; try lia.
  cbn [floor_boundary]. destruct (is_char_boundary s (S (S (S (S n))))) eqn:E4; [lia|].
  destruct (is_char_boundary s (S (S (S n)))) eqn:E3; [lia|]. destruct (is_char_boundary s (S (S n))) eqn:E2; [lia|].
  destruct (is_char_boundary s (S n)) eqn:E1; [lia|].
  apply not_boundary in E4 as (d & Hd & Cd), E3 as (c & Hc & Cc), E2 as (b & Hb & Cb), E1 as (a & Ha & Ca); try lia.
  rewrite (Hs _ _ _ _ _ Ha Hb Hc Hd Ca Cb Cc) in Cd. done.
Qed.

Lemma truncate_bytes_nonempty s n : short_runs s -> (3 < n)%nat -> s <> [] -> truncate_bytes s n <> [].
Proof.
  intros Hs Hn Hne. unfold truncate_bytes. destruct (Nat.leb_spec (length s) n); [done|].
  pose proof (floor_boundary_near s n Hs Hn ltac:(lia)). destruct s as [|b s]; [done|].
  destruct (floor_boundary _ _) as [|k]; [lia|]. done.
Qed.

(** ** Facts: lists *)

Lemma retain_new_spec seen l :
  retain_new seen l `sublist_of` l /\ Forall (fun t => t <> []) (retain_new seen l)
  /\ NoDup (to_ascii_lowercase <$> retain_new seen l)
  /\ Forall (fun t => to_ascii_lowercase t ∉ seen) (retain_new seen l).
Proof.
  revert seen. induction l as [|t l IH]; intros seen; cbn [retain_new].
  { split_and!; [constructor|constructor|constructor|constructor]. }
  destruct (Nat.eqb_spec (length t) 0) as [_|Hne].
  { destruct (IH seen) as (H1 & H2 & H3 & H4). split_and!; [by constructor|done|done|done]. }
  case_bool_decide as Hs.
  { destruct (IH seen) as (H1 & H2 & H3 & H4). split_and!; [by constructor|done|done|done]. }
  destruct (IH (to_ascii_lowercase t :: seen)) as (H1 & H2 & H3 & H4). split_and!; [by constructor|..].
  - constructor; [by intros ->|done].
  - rewrite fmap_cons. constructor; [|done]. intros (t' & He & Ht')%list_elem_of_fmap.
    rewrite Forall_forall in H4. specialize (H4 t' Ht'). apply H4. rewrite <- He. left.
  - constructor; [done|]. eapply Forall_impl; [exact H4|]. cbn. intros t' Ht' Hin. apply Ht'. by right.
Qed.

(** The passwords kept of a history: in order, none of them empty, too long or the
    current one, and none the same as the one before it. *)
Record history_ok (current : list Z) (l h : list (list Z * option Z)) : Prop := {
  history_sublist : h `sublist_of` l;
  history_each : Forall (fun x => x.1 <> [] /\ x.1 <> current /\ (length x.1 <= PASSWORD_MAX)%nat) h;
  history_distinct : forall i x y, h !! i = Some x -> h !! S i = Some y -> x.1 <> y.1
}.

Lemma map_history_spec room current prev l :
  history_ok current l (map_history room current prev l) /\ (length (map_history room current prev l) <= room)%nat
  /\ (forall x, head (map_history room current prev l) = Some x -> prev <> Some x.1).
Proof.
  revert room prev. induction l as [|[pw ts] l IH]; intros room prev.
  { destruct room; cbn; (split_and!; [split; [constructor|constructor|done]|lia|done]). }
  destruct room as [|room]; [cbn; split_and!; [split; [apply sublist_nil_l|constructor|done]|lia|done]|].
  assert (Hskip : forall h, history_ok current l h -> history_ok current ((pw, ts) :: l) h).
  { intros h [H1 H2 H3]. split; [by constructor|done|done]. }
  cbn [map_history]. destruct (Nat.eqb_spec (length pw) 0) as [_|Hne].
  { destruct (IH (S room) prev) as (H1 & H2 & H3). auto. }
  case_bool_decide as Hp. { destruct (IH (S room) prev) as (H1 & H2 & H3). auto. }
  case_bool_decide as Hc. { destruct (IH (S room) prev) as (H1 & H2 & H3). auto. }
  destruct (Nat.ltb_spec PASSWORD_MAX (length pw)) as [|Hl]. { destruct (IH (S room) prev) as (H1 & H2 & H3). auto. }
  destruct (IH room (Some pw)) as ([H1 H2 H3] & Hlen & Hhead). split_and!; [split|cbn [length]; lia|].
  - by constructor.
  - constructor; [|done]. split_and!; cbn; [by intros He; rewrite He in Hne|done|done].
  - intros [|i] x y Hx Hy; [|by apply (H3 i)]. injection Hx as <-. intros He.
    apply (Hhead y); [|by rewrite <- He]. change (map_history room current (Some pw) l !! 0%nat = Some y) in Hy.
    by destruct (map_history _ _ _ _).
  - intros x [= <-]. done.
Qed.

(** ** Facts: the draft *)

Lemma unspaced_head b s : existsb (fun w => match w with x :: _ => x =? b | [] => true end) WHITE_SPACE = false -> unspaced (b :: s).
Proof.
  intros Hb. apply strip_any_None. intros w r Hw He. rewrite <- not_true_iff_false in Hb. apply Hb.
  apply existsb_exists. exists w. split; [by apply list_elem_of_In|]. destruct w as [|x w]; [done|].
  injection He as -> _. apply Z.eqb_refl.
Qed.

Lemma white_space_short : Forall (fun w => (length w <= 3)%nat) WHITE_SPACE.
Proof. repeat constructor. Qed.

Lemma truncate_chars_ok s n : 4 <= n -> s <> [] -> unspaced s -> truncate_chars s n <> [] /\ unspaced (truncate_chars s n).
Proof.
  intros Hn Hne Hs. unfold truncate_chars. destruct (Z.leb_spec (char_count s) n) as [|Hc]; [done|].
  split; [intros He; by apply app_eq_nil in He as [_ ?]|].
  pose proof (take_chars_count (saturating_sub n 1) s ltac:(unfold saturating_sub; lia)) as Ht.
  pose proof (char_count_le (take_chars (saturating_sub n 1) s)) as Hlen. unfold saturating_sub in *.
  destruct (take_chars_prefix (Z.max 0 (n - 1)) s) as [r Hr]. set (t := take_chars _ s) in *.
  apply strip_any_None. intros w q Hw He. pose proof white_space_short as Hws. rewrite Forall_forall in Hws.
  specialize (Hws w Hw). assert (Hpre : w = take (length w) t).
  { rewrite <- (take_app_length w q) at 1. rewrite <- He. apply take_app_le. lia. }
  unfold unspaced in Hs. rewrite strip_any_None in Hs. apply (Hs w (drop (length w) t ++ r) Hw).
  rewrite Hr at 1. rewrite app_assoc. f_equal. rewrite Hpre at 1. symmetry. apply take_drop.
Qed.

Lemma map_display_name_ok t u l :
  let d := map_display_name t u l in trim d <> [] /\ char_count (trim d) <= DISPLAY_NAME_MAX.
Proof.
  cbv zeta. unfold map_display_name. cbv zeta. match goal with |- context [truncate_chars ?x _] => set (d0 := x) end.
  assert (Hd : d0 <> [] /\ unspaced d0).
  { assert (Hu : forall x, untitled x <> [] /\ unspaced (untitled x)) by (intros x; split; [done|by apply unspaced_head]).
    assert (Hi : bytes_of "Imported entry" <> [] /\ unspaced (bytes_of "Imported entry")) by (split; [done|by apply unspaced_head]).
    unfold d0. destruct (Nat.eqb_spec (length (trim t)) 0) as [_|Hne].
    - repeat match goal with |- context [if ?b then _ else _] => destruct b end; auto.
    - split; [by intros He; rewrite He in Hne|apply trim_unspaced]. }
  destruct (truncate_chars_ok d0 DISPLAY_NAME_MAX ltac:(done) (proj1 Hd) (proj2 Hd)) as [H1 H2].
  split; [by apply trim_nonempty|]. etrans; [apply char_count_trim|]. by apply truncate_chars_count.
Qed.

(** A trimmed piece of well-formed text, cut. *)
Lemma cut_ok s raw n :
  (3 < n)%nat -> characters s -> raw = trim s -> raw <> [] ->
  trim (truncate_bytes raw n) <> [] /\ char_count (trim (truncate_bytes raw n)) <= Z.of_nat n.
Proof.
  intros Hn Hs -> Hne. assert (Hsr : short_runs (trim s)).
  { destruct (trim_infix s) as (p & r & He). apply characters_short in Hs. rewrite He in Hs. by eapply short_runs_infix. }
  split.
  - apply trim_nonempty; [by apply truncate_bytes_nonempty|]. destruct (truncate_bytes_prefix (trim s) n) as [r Hr].
    apply (unspaced_prefix _ r). rewrite <- Hr. apply trim_unspaced.
  - etrans; [apply char_count_trim|]. pose proof (truncate_bytes_length (trim s) n).
    pose proof (char_count_le (truncate_bytes (trim s) n)). lia.
Qed.

Lemma map_username_ok s : characters s ->
  trim (map_username s) <> [] /\ char_count (trim (map_username s)) <= USERNAME_MAX_CHARS.
Proof.
  intros Hs. unfold map_username. destruct (Nat.eqb_spec (length (trim s)) 0) as [_|Hne]; [split; [done|by vm_compute]|].
  apply (cut_ok s); [unfold USERNAME_MAX; lia|done|done|by intros He; rewrite He in Hne].
Qed.

Lemma map_tags_ok e now t :
  (forall t, t ∈ entry_tags e ++ group_path e -> utf8 t = true) -> t ∈ map_tags e now ->
  trim t <> [] /\ char_count (trim t) <= TAG_MAX_CHARS.
Proof.
  intros Hu Ht. unfold map_tags in Ht. set (expired := expires e && _) in Ht.
  pose proof (elem_of_sublist _ _ _ Ht (sublist_take _ _)) as Ht1. clear Ht. rename Ht1 into Ht.
  assert (Hne : t <> []).
  { destruct (retain_new_spec [] (((fun t => truncate_bytes (trim t) TAG_MAX) <$> entry_tags e)
      ++ ((fun g => truncate_bytes g TAG_MAX) <$> filter (fun g => g <> []) (trim <$> group_path e))
      ++ (if expired then [bytes_of "expired"] else []))) as (_ & Hf & _). rewrite Forall_forall in Hf. by apply Hf. }
  destruct (retain_new_spec [] (((fun t => truncate_bytes (trim t) TAG_MAX) <$> entry_tags e)
      ++ ((fun g => truncate_bytes g TAG_MAX) <$> filter (fun g => g <> []) (trim <$> group_path e))
      ++ (if expired then [bytes_of "expired"] else []))) as (Hsub & _).
  apply (elem_of_sublist _ _ _ Ht) in Hsub as Ht1. clear Ht. rename Ht1 into Ht.
  assert (Hcut : forall raw, utf8 raw = true -> t = truncate_bytes (trim raw) TAG_MAX ->
    trim t <> [] /\ char_count (trim t) <= TAG_MAX_CHARS).
  { intros raw Hr ->. apply (cut_ok raw); [unfold TAG_MAX; lia|by apply utf8_characters|done|]. intros He. by rewrite He in Hne. }
  apply elem_of_app in Ht as [(raw & He & Hr)%list_elem_of_fmap|[(g & He & Hr)%list_elem_of_fmap|Hx]%elem_of_app].
  - apply (Hcut raw); [|done]. apply Hu. apply elem_of_app. by left.
  - apply list_elem_of_filter in Hr as [_ (raw & -> & Hr)%list_elem_of_fmap]. apply (Hcut raw); [|done].
    apply Hu. apply elem_of_app. by right.
  - destruct expired; [|by apply not_elem_of_nil in Hx]. apply list_elem_of_singleton in Hx as ->. split; [done|by vm_compute].
Qed.

Lemma val_str_characters e k : characters (val_str e k).
Proof. unfold val_str. destruct (field e _); [apply lossy_characters|constructor]. Qed.

Lemma clip_notes_length n : (length (clip_notes n) <= NOTES_MAX)%nat.
Proof.
  unfold clip_notes. cbv zeta. destruct (_ =? _)%nat; [|apply truncate_bytes_length]. rewrite length_app.
  pose proof (truncate_bytes_length (truncate_bytes n NOTES_MAX) (NOTES_MAX - length TRUNCATED_MARKER)).
  assert (length TRUNCATED_MARKER <= NOTES_MAX)%nat by (apply Nat.leb_le; by vm_compute). lia.
Qed.

Lemma map_urls_short u : (length (map_urls u) <= 1)%nat /\ Forall (fun u => (length u <= URL_MAX)%nat) (map_urls u).
Proof.
  unfold map_urls, URLS_MAX. cbv zeta. match goal with |- context [if ?b then _ else _] => destruct b eqn:E end; cbn; [|split; [lia|done]].
  split; [lia|]. constructor; [|done]. apply andb_prop in E as [[_ E]%andb_prop _]. by apply Nat.leb_le.
Qed.

Lemma elem_of_map_urls raw u :
  u ∈ map_urls raw <->
  u = trim raw /\ (0 < length u <= URL_MAX)%nat /\ ((exists a b, u = a ++ bytes_of "://" ++ b) \/ 46 ∈ u).
Proof.
  assert (Hdot : forall t, contains [46] t = true <-> 46 ∈ t).
  { intros t. rewrite contains_spec. split.
    - intros (a & b & ->). apply elem_of_app. right. left.
    - intros (a & b & ->)%list_elem_of_split. by exists a, b. }
  unfold map_urls, URLS_MAX. cbv zeta. set (t := trim raw).
  assert (Hb : negb (length t =? 0)%nat && (length t <=? URL_MAX)%nat && (contains (bytes_of "://") t || contains [46] t) = true
    <-> (0 < length t <= URL_MAX)%nat /\ ((exists a b, t = a ++ bytes_of "://" ++ b) \/ 46 ∈ t)).
  { rewrite !andb_true_iff, orb_true_iff, negb_true_iff, Nat.eqb_neq, Nat.leb_le, contains_spec, Hdot. intuition lia. }
  destruct (_ && _ && _) eqn:E.
  - change (u ∈ [t] <-> u = t /\ (0 < length u <= URL_MAX)%nat /\ ((exists a b, u = a ++ bytes_of "://" ++ b) \/ 46 ∈ u)).
    rewrite list_elem_of_singleton. apply proj1 in Hb. specialize (Hb eq_refl). split; [by intros ->|by intros [-> _]].
  - change (u ∈ [] <-> u = t /\ (0 < length u <= URL_MAX)%nat /\ ((exists a b, u = a ++ bytes_of "://" ++ b) \/ 46 ∈ u)).
    split; [by intros ?%elem_of_nil|]. intros [-> Hu]. apply Hb in Hu. discriminate Hu.
Qed.

Lemma ok_Some {E A} (r : result E A) a : ok r = Some a -> r = Ok a.
Proof. destruct r; [by intros [= ->]|done]. Qed.

Lemma extract_totp_usable e p : extract_totp e = Some p -> usable p.
Proof.
  unfold extract_totp. cbv zeta.
  match goal with |- match ?x with _ => _ end = _ -> _ => destruct x as [q|] eqn:E end.
  - intros [= <-]. apply bind_Some in E as (o & _ & E). destruct (_ =? 0)%nat; [done|].
    apply ok_Some in E. by eapply parse_totp_usable.
  - intros Hb. apply bind_Some in Hb as (o & _ & Hb). destruct (_ =? 0)%nat; [done|].
    apply ok_Some in Hb. by eapply parse_otpauth_usable.
Qed.

(** *** What the checks of the store accept *)

Section fits.
Context (nfc to_lowercase : list Z -> list Z) (url_parse : list Z -> option (list Z)).

(** Text that Unicode normalisation leaves as it is. *)
Definition normalised (t : list Z) : Prop := nfc t = t /\ nfc (trim t) = trim t.

Definition controlled (t : list Z) : bool := has_disallowed_control (trim t).
Definition unparseable (u : list Z) : bool := bool_decide (url_parse u = None).

(** The field for which the store refuses the draft, in the order of its checks. *)
Definition objection (m : MappedEntry) : option string :=
  if controlled (m_display_name m) then Some "display_name"
  else if existsb controlled (m_tags m) then Some "tags"
  else if existsb controlled (m_usernames m) then Some "usernames"
  else if existsb unparseable (m_urls m) then Some "url"
  else None.

Lemma nonempty_length {A} (l : list A) : l <> [] -> (length l =? 0)%nat = false.
Proof. by destruct l. Qed.

Lemma validate_display_name_fits t :
  normalised t -> trim t <> [] -> char_count (trim t) <= DISPLAY_NAME_MAX_CHARS ->
  validate_display_name nfc t = if controlled t then Err (Validation "display_name") else Ok (trim t).
Proof.
  intros (Hn & _) Hne Hl. unfold validate_display_name, controlled. cbv zeta. rewrite Hn, (nonempty_length _ Hne).
  by destruct (Z.ltb_spec DISPLAY_NAME_MAX_CHARS (char_count (trim t))); [lia|].
Qed.

Lemma validate_username_fits t :
  normalised t -> trim t <> [] -> char_count (trim t) <= USERNAME_MAX_CHARS ->
  validate_username nfc t = if controlled t then Err (Validation "usernames") else Ok (trim t).
Proof.
  intros (_ & Hn) Hne Hl. unfold validate_username, controlled. cbv zeta. rewrite (nonempty_length _ Hne), Hn.
  by destruct (Z.ltb_spec USERNAME_MAX_CHARS (char_count (trim t))); [lia|].
Qed.

Lemma validate_tag_fits out t :
  normalised t -> trim t <> [] -> char_count (trim t) <= TAG_MAX_CHARS ->
  if controlled t then validate_tag nfc to_lowercase out t = Err (Validation "tags")
  else exists out', validate_tag nfc to_lowercase out t = Ok out'.
Proof.
  intros (Hn & _) Hne Hl. unfold validate_tag, controlled. cbv zeta. rewrite Hn, (nonempty_length _ Hne).
  destruct (Z.ltb_spec TAG_MAX_CHARS (char_count (trim t))); [lia|]. destruct (has_disallowed_control _); [done|by eexists].
Qed.

Lemma validate_tags_fits ts :
  (length ts <= TAGS_MAX_COUNT)%nat ->
  Forall (fun t => normalised t /\ trim t <> [] /\ char_count (trim t) <= TAG_MAX_CHARS) ts ->
  if existsb controlled ts then validate_tags nfc to_lowercase ts = Err (Validation "tags")
  else exists out, validate_tags nfc to_lowercase ts = Ok out.
Proof.
  intros Hl Hts. unfold validate_tags. destruct (Nat.ltb_spec TAGS_MAX_COUNT (length ts)) as [Hgt|_]; [exfalso; lia|]. clear Hl.
  generalize (@nil (list Z)). induction Hts as [|t ts (Hp & Hn & Hc) _ IH]; intros out; [by eexists|].
  pose proof (validate_tag_fits out t Hp Hn Hc) as Ho. cbn [foldl mbind result_bind existsb].
  destruct (controlled t); [|destruct Ho as [out' ->]; apply IH]. cbn [orb]. rewrite Ho. clear.
  induction ts as [|t ts IH]; [done|exact IH].
Qed.

Lemma validate_urls_fits us :
  (length us <= 1)%nat -> Forall (fun u => (length u <= URL_MAX)%nat) us ->
  if existsb unparseable us then validate_urls url_parse us = Err (Validation "url")
  else exists urls, validate_urls url_parse us = Ok urls.
Proof.
  intros Hl Hlen. unfold validate_urls, URLS_MAX_COUNT. destruct us as [|u [|]]; cbn in Hl; [by eexists| |lia].
  apply Forall_cons in Hlen as [Hu _]. cbn. unfold validate_url, unparseable. pose proof (char_count_le u).
  destruct (Z.ltb_spec URL_MAX_CHARS (char_count u)); [unfold URL_MAX_CHARS, URL_MAX in *; lia|].
  destruct (url_parse u); [by eexists|done].
Qed.

Lemma validate_notes_fits n : (length n <= NOTES_MAX)%nat -> validate_notes n = Ok n.
Proof.
  intros Hl. unfold validate_notes. pose proof (char_count_le n). unfold NOTES_MAX in Hl.
  destruct (Z.ltb_spec NOTES_MAX_CHARS (char_count n)); [unfold NOTES_MAX_CHARS in *; lia|done].
Qed.

Lemma validate_password_fits p : (0 < length p <= PASSWORD_MAX_BYTES)%nat -> validate_password p = Ok tt.
Proof.
  intros Hl. unfold validate_password. destruct (Nat.eqb_spec (length p) 0); [lia|].
  by destruct (Nat.ltb_spec PASSWORD_MAX_BYTES (length p)); [lia|].
Qed.

(** The draft of a mapped entry, starting from its password or one of its history. *)
Lemma draft_fits e now an m genesis :
  map_entry now an e = Ok m ->
  (forall t, t ∈ entry_tags e ++ group_path e -> utf8 t = true) ->
  Forall normalised (m_display_name m :: m_usernames m ++ m_tags m) ->
  (0 < length genesis <= PASSWORD_MAX_BYTES)%nat ->
  forall created device,
  match objection m with
  | Some f => validate_into_identity nfc to_lowercase url_parse (draft_of m genesis) created device = Err (Validation f)
  | None => exists i, validate_into_identity nfc to_lowercase url_parse (draft_of m genesis) created device = Ok i
  end.
Proof.
  unfold map_entry. intros Hm Hu Hplain Hg created device.
  destruct (_ =? 0)%nat; [done|]. destruct (_ =? 0)%nat; [done|]. injection Hm as <-. cbn [m_display_name m_usernames m_tags m_urls] in *.
  apply Forall_cons in Hplain as [Hd Hplain]. apply Forall_cons in Hplain as [Hn Ht].
  destruct (map_display_name_ok (val_str e "Title") (val_str e "UserName") (val_str e "URL")) as [Hd1 Hd2].
  destruct (map_username_ok (val_str e "UserName") (val_str_characters e "UserName")) as [Hn1 Hn2].
  assert (Htags : Forall (fun t => normalised t /\ trim t <> [] /\ char_count (trim t) <= TAG_MAX_CHARS) (map_tags e now)).
  { rewrite Forall_forall in Ht |- *. intros t Hin. split; [by apply Ht|by apply (map_tags_ok e now)]. }
  apply validate_tags_fits in Htags; [|unfold map_tags; rewrite length_take; unfold TAGS_MAX, TAGS_MAX_COUNT; lia].
  pose proof (validate_urls_fits _ (proj1 (map_urls_short (val_str e "URL"))) (proj2 (map_urls_short _))) as Hurls.
  unfold validate_into_identity, draft_of, objection. cbn [draft_display_name draft_tags draft_usernames draft_urls draft_notes draft_password draft_totp_secret draft_totp_params m_display_name m_tags m_usernames m_urls m_notes m_totp].
  rewrite (validate_display_name_fits _ Hd Hd1 Hd2). destruct (controlled (map_display_name _ _ _)); [done|]. cbn [mbind result_bind].
  destruct (existsb controlled (map_tags e now)); [by rewrite Htags|]. destruct Htags as [tags ->].
  cbn [mbind result_bind]. unfold validate_usernames. cbn [length Nat.eqb Nat.ltb Nat.leb mapM existsb].
  rewrite (validate_username_fits _ Hn Hn1 Hn2). destruct (controlled (map_username _)); [done|]. cbn [mbind result_bind mret result_ret orb].
  destruct (existsb unparseable _); [by rewrite Hurls|]. destruct Hurls as [urls ->]. cbn [mbind result_bind].
  rewrite validate_notes_fits by apply clip_notes_length. cbn [mbind result_bind].
  rewrite validate_password_fits by done. cbn [mbind result_bind].
  destruct (extract_totp e) as [p|] eqn:Et; [|by eexists]. apply extract_totp_usable in Et as (H1 & H2 & _).
  unfold validate_totp_secret, validate_totp_params. rewrite H2.
  destruct (Nat.ltb_spec TOTP_SECRET_MAX_BYTES (length (secret_bytes p))) as [Hlt|_];
    [unfold TOTP_SECRET_MAX_BYTES, MAX_SECRET_BYTES in *; lia|]. cbn [mbind result_bind].
  destruct (_ =? 0)%nat; by eexists.
Qed.
End fits.

(** ** A mapped entry fits the store *)

Lemma lossy_trim_nonempty e : (length (trim (val_str e "Password")) =? 0)%nat = false ->
  exists v, field e (bytes_of "Password") = Some v /\ value v <> [].
Proof.
  unfold val_str. destruct (field e (bytes_of "Password")) as [v|]; [|done]. intros Hl. exists v. split; [done|].
  intros He. by rewrite He in Hl.
Qed.

Section claim.
Context (nfc to_lowercase : list Z -> list Z) (url_parse : list Z -> option (list Z)).

(** C31. What the store makes of a mapped entry.  Take an entry that [map_entry] does not
    skip, whose tags and groups are UTF-8, and such that normalisation leaves its name,
    its user name and its tags alone.  The draft made of it, whether it starts from the
    current password or from one of the history, is valid, within every limit and has that
    password as its current one, except in these cases, in which the whole draft is
    refused: a control character in the name, the tags or the user name, or an address
    kept that the parser does not take.  The address kept is that of the entry, trimmed,
    when it is not empty, not too long and holds [://] or a dot, and none otherwise.  The
    password is the entry's, cut to what the store takes, and the history kept is that of
    the entry, in its order, without empty, repeated, too long and current passwords, and
    no longer than allowed. *)
Theorem mapped_entry_fits e now an m genesis created device :
  map_entry now an e = Ok m ->
  (forall t, t ∈ entry_tags e ++ group_path e -> utf8 t = true) ->
  Forall (normalised nfc) (m_display_name m :: m_usernames m ++ m_tags m) ->
  genesis ∈ m_password m :: (m_history m).*1 ->
  match objection url_parse m with
  | Some f => validate_into_identity nfc to_lowercase url_parse (draft_of m genesis) created device = Err (Validation f)
  | None => exists i, validate_into_identity nfc to_lowercase url_parse (draft_of m genesis) created device = Ok i
      /\ current_password i = Some genesis /\ within_limits i
  end
  /\ (forall u, u ∈ m_urls m <->
        u = trim (val_str e "URL") /\ (0 < length u <= URL_MAX)%nat /\ ((exists a b, u = a ++ bytes_of "://" ++ b) \/ 46 ∈ u))
  /\ (exists v, field e (bytes_of "Password") = Some v /\ m_password m = take PASSWORD_MAX (value v))
  /\ history_ok (m_password m) (history_passwords e) (m_history m)
  /\ (length (m_history m) <= HISTORY_MAX)%nat.
Proof.
  intros Hm Hu Hplain Hg. pose proof Hm as Hm'. unfold map_entry in Hm'.
  destruct (_ =? 0)%nat; [done|]. destruct (length (trim (val_str e "Password")) =? 0)%nat eqn:Ep; [done|].
  apply lossy_trim_nonempty in Ep as (v & Hv & Hne). rewrite Hv in Hm'.
  assert (Hpw : m_password m = take PASSWORD_MAX (value v)) by (by injection Hm' as <-).
  assert (Hh : m_history m = map_history HISTORY_MAX (m_password m) None (history_passwords e)) by (by injection Hm' as <-).
  destruct (map_history_spec HISTORY_MAX (m_password m) None (history_passwords e)) as (Hok & Hlen & _).
  assert (Hurls : m_urls m = map_urls (val_str e "URL")) by (by injection Hm' as <-).
  rewrite <- Hh in Hok, Hlen. split_and!; [|intros u; rewrite Hurls; apply elem_of_map_urls|by exists v|done|done].
  assert (Hl : (0 < length genesis <= PASSWORD_MAX_BYTES)%nat).
  { change PASSWORD_MAX_BYTES with PASSWORD_MAX. apply elem_of_cons in Hg as [->|(x & -> & Hx)%list_elem_of_fmap].
    - rewrite Hpw, length_take. destruct (value v); [done|]. cbn [length]. unfold PASSWORD_MAX. lia.
    - destruct Hok as [_ Hf _]. rewrite Forall_forall in Hf. destruct (Hf x Hx) as (H1 & _ & H2). destruct x.1; [done|]. cbn [length] in *. lia. }
  pose proof (draft_fits nfc to_lowercase url_parse e now an m genesis Hm Hu Hplain Hl created device) as Hd.
  destruct (objection url_parse m) as [f|]; [exact Hd|]. destruct Hd as [i Hi]. exists i. apply identity_limits_new in Hi as Hw. destruct Hw as [Hw Hc]. done.
Qed.
End claim.

(** ** What the cut of the notes does

    The marker is added when the cut notes are exactly as long as allowed: also when
    nothing was cut, and not when the cut fell before that length. *)

Lemma truncate_bytes_id s n : (length s <= n)%nat -> truncate_bytes s n = s.
Proof. intros Hl. unfold truncate_bytes. by rewrite (proj2 (Nat.leb_le _ _) Hl). Qed.

Lemma whole_notes_marked s :
  length s = NOTES_MAX -> clip_notes s = truncate_bytes s (NOTES_MAX - length TRUNCATED_MARKER) ++ TRUNCATED_MARKER.
Proof.
  intros Hl. unfold clip_notes. cbv zeta. rewrite (truncate_bytes_id s NOTES_MAX) by (by rewrite Hl).
  by rewrite Hl, Nat.eqb_refl.
Qed.

Lemma cut_notes_unmarked s : (length (truncate_bytes s NOTES_MAX) < NOTES_MAX)%nat -> clip_notes s = truncate_bytes s NOTES_MAX.
Proof. intros Hl. unfold clip_notes. cbv zeta. by destruct (Nat.eqb_spec (length (truncate_bytes s NOTES_MAX)) NOTES_MAX); [lia|]. Qed.

(** Two bytes and then euro signs: the cut is two bytes short of the limit. *)
Definition euro_notes : list Z := [120; 120] ++ mjoin (replicate (Z.to_nat 21846) [0xE2; 0x82; 0xAC]).

Lemma euro_notes_unmarked :
  (NOTES_MAX <? length euro_notes)%nat = true /\ clip_notes euro_notes = truncate_bytes euro_notes NOTES_MAX.
Proof.
  split; [vm_compute; reflexivity|]. apply cut_notes_unmarked. apply Nat.ltb_lt. vm_compute. reflexivity.
Qed.

Module KdbxMapSample.
Definition sample_value (k v : string) : KdbxStringValue := mkString (bytes_of k) (bytes_of v) false.

(** An entry without a title, with a one-time password, an expiry date and a history
    that repeats. *)
Definition sample_entry : KdbxEntry :=
  mkEntry
    [sample_value "Title" "  "; sample_value "UserName" " ann "; sample_value "Password" "new"; sample_value "URL" "https://x.org/login";
     sample_value "Notes" "hello"; sample_value "PIN" "1234"; sample_value "otp" "JBSWY3DPEHPK3PXP"]
    [bytes_of "Work"; bytes_of " work "; bytes_of " "] [bytes_of "Bank"; []] true (Some 10)
    [(bytes_of "a", None); (bytes_of "a", Some 1); ([], None); (bytes_of "new", Some 2); (bytes_of "b", Some 3)].

Definition sample_mapped : MappedEntry :=
  Eval vm_compute in
    match map_entry 20 None sample_entry with Ok m => m | Err _ => mkMapped [] [] [] [] [] None [] [] end.

Example sample_fields :
  m_display_name sample_mapped = bytes_of "(untitled " ++ EM_DASH ++ bytes_of " ann)"
  /\ m_usernames sample_mapped = [bytes_of "ann"] /\ m_urls sample_mapped = [bytes_of "https://x.org/login"]
  /\ m_notes sample_mapped = bytes_of "hello" ++ 10 :: bytes_of "--- Imported custom fields ---" ++ 10 :: bytes_of "PIN: 1234"
  /\ m_tags sample_mapped = [bytes_of "Work"; bytes_of "Bank"; bytes_of "expired"]
  /\ m_history sample_mapped = [(bytes_of "a", None); (bytes_of "b", Some 3)].
Proof. split_and!; vm_compute; reflexivity. Qed.

(** Nothing to import. *)
Example sample_skips :
  map_entry 20 None (mkEntry [] [] [] false None []) = Err NoFields
  /\ map_entry 20 None (mkEntry [sample_value "Title" "x"; sample_value "Password" " "] [] [] false None []) = Err EmptyPassword.
Proof. split; vm_compute; reflexivity. Qed.

(** An address without a scheme is kept; a parser that asks for one, as [Url::parse]
    does, refuses it, and with it the whole draft. *)
Definition with_scheme (u : list Z) : option (list Z) := if contains (bytes_of "://") u then Some u else None.

Definition bare_entry : KdbxEntry :=
  mkEntry [sample_value "Title" "shop"; sample_value "UserName" "ann"; sample_value "Password" "pw"; sample_value "URL" "example.com"]
    [] [] false None [].

Definition bare_mapped : MappedEntry :=
  Eval vm_compute in
    match map_entry 20 None bare_entry with Ok m => m | Err _ => mkMapped [] [] [] [] [] None [] [] end.

Lemma bare_host_refused :
  map_entry 20 None bare_entry = Ok bare_mapped /\ m_urls bare_mapped = [bytes_of "example.com"]
  /\ validate_into_identity id to_ascii_lowercase with_scheme (draft_of bare_mapped (bytes_of "pw")) 5 7 = Err (Validation "url").
Proof. split_and!; vm_compute; reflexivity. Qed.

(** An accepted draft, and a refused one. *)
Lemma mapped_entry_fits_witness :
  map_entry 20 None sample_entry = Ok sample_mapped
  /\ (exists i, validate_into_identity id to_ascii_lowercase with_scheme (draft_of sample_mapped (bytes_of "a")) 5 7 = Ok i
       /\ current_password i = Some (bytes_of "a"))
  /\ objection with_scheme bare_mapped = Some "url"%string.
Proof.
  assert (Hm : map_entry 20 None sample_entry = Ok sample_mapped) by (vm_compute; reflexivity).
  split; [exact Hm|]. split; [|vm_compute; reflexivity].
  destruct (mapped_entry_fits id to_ascii_lowercase with_scheme sample_entry 20 None sample_mapped (bytes_of "a") 5 7 Hm)
    as (Hd & _).
  - apply Forall_forall. repeat constructor.
  - repeat (constructor; [split; vm_compute; reflexivity|]). constructor.
  - right. left.
  - replace (objection with_scheme sample_mapped) with (@None string) in Hd by (vm_compute; reflexivity).
    destruct Hd as (i & Hi & Hc & _). exists i. split; [exact Hi|exact Hc].
Defined.
End KdbxMapSample.
