(* ===== verification/KdbxImport.v ===== *)
(** * Importing a KeePass file

    The importer of apps/cli/src/commands/import.rs and of crates/pangolin-ffi/src/kdbx.rs:
    the file is read and mapped before the vault is touched, and each mapped entry is
    then added, its old passwords replayed and its current one put last.  The two
    programs hold the same [ingest_one].

    [ingest_ends_with_current] says what an imported account reads as, also when the
    replay of the history stops half-way. *)

From Stdlib Require Import String.
From S2P Require Import Prelude StoreError Bytes Text Cbor Totp Kdbx KdbxXml KdbxMap Account Search RevisionGraph SessionPolicy Database AccountOps Payload IdentityOps.
Open Scope Z_scope.

(** ** The file *)

(** [std::fs]: [None] for a file that cannot be read. *)
Notation File := (option (list Z)) (only parsing).

Definition read_kdbx_file (path : File) : result KdbxError (list Z) :=
  bytes ← ok_or path Io;
  if KDBX_MAX_FILE_BYTES <? zlen bytes then Err (FileTooLarge (zlen bytes) KDBX_MAX_FILE_BYTES) else Ok bytes.

Record KdbxCredentials : Type := mkCredentials { cred_password : option (list Z); cred_keyfile : option (list Z) }.

(** The kind of the [FfiError::Validation] that is returned. *)
Definition map_kdbx_err (e : KdbxError) : string :=
  match e with
  | Io => "kdbx_io"
  | WrongCredentials | BlockHmacMismatch => "kdbx_credentials"
  | UnsupportedCredential => "kdbx_unsupported_credential"
  | FileTooLarge _ _ | TooManyEntries _ | InflatedTooLarge _ => "kdbx_too_large"
  | _ => "kdbx_format"
  end.

Definition kind_label (s : EntrySkip) : string :=
  match s with EmptyPassword => "empty_password" | NoFields => "no_fields" end.

Definition kind_of (e : StoreError) : string :=
  match e with Validation kind => "validation_" ++ kind | _ => "store_error" end.

Section file.
Context `{KdbxPrims} `{XmlReader}.

Definition import_kdbx_path (now : Z) (path : File) (creds : KdbxCredentials) : result KdbxError MapResult :=
  bytes ← read_kdbx_file path;
  db ← read_kdbx bytes (cred_password creds) (cred_keyfile creds);
  Ok (map_database now db).

(** The first half of the FFI's [kdbx_import]: with a keyfile an empty password is no
    password, without one it is the empty password. *)
Definition ffi_credentials (kdbx_password : list Z) (keyfile_path : option File) : result string KdbxCredentials :=
  match keyfile_path with
  | Some kf =>
      match kf with
      | Some kf =>
          if KDBX_MAX_FILE_BYTES <? zlen kf then Err "kdbx_credentials"%string
          else Ok (mkCredentials (if (length kdbx_password =? 0)%nat then None else Some kdbx_password) (Some kf))
      | None => Err "kdbx_io"%string
      end
  | None => Ok (mkCredentials (Some kdbx_password) None)
  end.

(** The credentials of the command line. *)
Definition cli_credentials (kdbx_pw : list Z) (keyfile : option (list Z)) : KdbxCredentials :=
  mkCredentials (if (length kdbx_pw =? 0)%nat then None else Some kdbx_pw) keyfile.

Definition ffi_load (now : Z) (path : File) (kdbx_password : list Z) (keyfile_path : option File) : result string MapResult :=
  creds ← ffi_credentials kdbx_password keyfile_path;
  map_err map_kdbx_err (import_kdbx_path now path creds).
End file.

(** ** The report *)

Record KdbxImportReport : Type := mkReport {
  imported : Z;
  report_skipped : Z;
  failed : Z;
  failure_kinds : list string
}.

Definition push_kind (kinds : list string) (label : string) : list string :=
  if bool_decide (label ∈ kinds) then kinds else kinds ++ [label].

Definition saturating_inc (n : Z) : Z := Z.min U32_MAX (n + 1).

Definition count_skip (r : KdbxImportReport) (s : EntrySkip) : KdbxImportReport :=
  mkReport (imported r) (saturating_inc (report_skipped r)) (failed r) (push_kind (failure_kinds r) (kind_label s)).

Definition start_report (m : MapResult) : KdbxImportReport :=
  foldl count_skip (mkReport 0 (default U32_MAX (u32_try_from (map_recycle_bin_entries m))) 0 []) (skipped m).

Definition count_outcome (r : KdbxImportReport) (o : store_result unit) : KdbxImportReport :=
  match o with
  | Ok _ => mkReport (saturating_inc (imported r)) (report_skipped r) (failed r) (failure_kinds r)
  | Err e => mkReport (imported r) (report_skipped r) (saturating_inc (failed r)) (push_kind (failure_kinds r) (kind_of e))
  end.

(** ** The entries *)

(** The first password of the account, and those that follow before the current one. *)
Definition genesis_pw (m : MappedEntry) : list Z := match m_history m with [] => m_password m | (p, _) :: _ => p end.
Definition historical_rotations (m : MappedEntry) : list (list Z) := (tail (m_history m)).*1.

Definition mk_patch (pw : list Z) : AccountIdentityPatch := mkPatch None None None None None (Some pw) None None.

Section ingest.
Context {Key Index P : Type} `{!PresenceProof P} `{!SearchIndexOps Index SearchProjection} `{!Cbor.Cbor}.
Context (clock wall rng : nat -> Z) (vault_id wrap_schema : Z).
Context (nfc to_lowercase : list Z -> list Z) (url_parse : list Z -> option (list Z))
        (url_host : list Z -> option (option (list Z))).
Context (aead_seal : Key -> Z -> list Z -> list Z -> option (list Z))
        (open_identity : Key -> Z -> list Z -> Aad -> store_result (DecodedPayload AccountIdentity)).

Notation W := (World Database AccountSnapshot Key Index P).
Notation vop := (op W StoreError).
Notation account_add := (account_add clock wall rng vault_id wrap_schema nfc to_lowercase url_parse url_host aead_seal).
Notation account_update :=
  (account_update clock wall rng vault_id wrap_schema nfc to_lowercase url_parse url_host aead_seal open_identity).

(** The loop over the old passwords, which the first error ends. *)
Fixpoint replay (id : AccountId) (historical_rotations : list (list Z)) : vop unit :=
  match historical_rotations with
  | [] => mret tt
  | pw :: rest => fun w =>
      match account_update id (mk_patch pw) w with
      | (Ok _, w1) => replay id rest w1
      | (Err _, w1) => (Ok tt, w1)
      end
  end.

Definition ingest_one (entry : MappedEntry) : vop unit :=
  id ← account_add (draft_of entry (genesis_pw entry));
  replay id (historical_rotations entry) ≫= fun _ =>
  match m_history entry with
  | [] => mret tt
  | _ => account_update id (mk_patch (m_password entry)) ≫= fun _ => mret tt
  end.

Fixpoint ingest_all (entries : list MappedEntry) (r : KdbxImportReport) (w : W) : KdbxImportReport * W :=
  match entries with
  | [] => (r, w)
  | e :: entries => let '(o, w1) := ingest_one e w in ingest_all entries (count_outcome r o) w1
  end.

(** The second half of the FFI's [kdbx_import]. *)
Definition ffi_ingest (m : MapResult) (w : W) : KdbxImportReport * W := ingest_all (mapped m) (start_report m) w.

Definition kdbx_import `{KdbxPrims} `{XmlReader} (now : Z) (path : File) (kdbx_password : list Z) (keyfile_path : option File) :
    op W string KdbxImportReport := fun w =>
  match ffi_load now path kdbx_password keyfile_path with
  | Ok m => let '(r, w') := ffi_ingest m w in (Ok r, w')
  | Err kind => (Err kind, w)
  end.
End ingest.

(** ** Facts: what every call keeps

    The device, and the key of the session as long as there is one. *)

Section keeps.
Context {Key Index P : Type} `{!PresenceProof P} `{!SearchIndexOps Index SearchProjection} `{!Cbor.Cbor}.
Context (clock wall rng : nat -> Z) (vault_id wrap_schema : Z).
Context (nfc to_lowercase : list Z -> list Z) (url_parse : list Z -> option (list Z))
        (url_host : list Z -> option (option (list Z))).
Context (aead_seal : Key -> Z -> list Z -> list Z -> option (list Z))
        (open_identity : Key -> Z -> list Z -> Aad -> store_result (DecodedPayload AccountIdentity)).

Notation W := (World Database AccountSnapshot Key Index P).
Notation vop := (op W StoreError).

Definition key_kept (w w' : W) : Prop :=
  vault_device_id (vault w') = vault_device_id (vault w)
  /\ forall a', active (vault w') = Some a' -> exists a, active (vault w) = Some a /\ vdk a' = vdk a.

#[export] Instance key_kept_preorder : PreOrder key_kept.
Proof.
  split; [intros w; split; [done|by eauto]|]. intros w1 w2 w3 [H1 H2] [H3 H4]. split; [by rewrite H3|].
  intros a3 (a2 & Ha2 & Hk)%H4. apply H2 in Ha2 as (a1 & Ha1 & Hk'). exists a1. by rewrite Hk.
Qed.

Lemma keeps_session {A} (m : vop A) :
  (forall w, vault_device_id (vault (m w).2) = vault_device_id (vault w) /\ active (vault (m w).2) = active (vault w)) ->
  moves key_kept m.
Proof. intros Hm w. destruct (Hm w) as [H1 H2]. split; [done|]. rewrite H2. by eauto. Qed.

Ltac session_same := apply keeps_session; intros w; done.

Lemma get_db_keeps : moves key_kept (get_db : vop _).
Proof. session_same. Qed.
Lemma random_32_keeps : moves key_kept (random_32 rng : vop _).
Proof. session_same. Qed.
Lemma current_unix_ms_keeps : moves key_kept (current_unix_ms wall : vop _).
Proof. session_same. Qed.
Lemma clock_now_keeps : moves key_kept (clock_now clock : vop _).
Proof. session_same. Qed.
Lemma expire_keeps : moves key_kept (expire : vop unit).
Proof. intros w. split; [done|]. done. Qed.
Lemma require_active_keeps : moves key_kept (require_active : vop _).
Proof. unfold require_active. moving. Qed.
Lemma transaction_keeps {A} (f : Database -> store_result (Database * A)) : moves key_kept (transaction f : vop A).
Proof.
  intros w. destruct (transaction f w) as [r w'] eqn:E. apply transaction_inv in E. cbn.
  destruct r; [destruct E as (d & _ & ->)|destruct E as [_ ->]]; split; try done; cbn; by eauto.
Qed.
Lemma map_active_keeps f : (forall a, vdk (f a) = vdk a) -> moves key_kept (map_active f : vop unit).
Proof.
  intros Hf w. split; [done|]. cbn. destruct (active (vault w)) as [a|]; [|done]. intros a' [= <-]. eauto.
Qed.
Lemma on_index_keeps m : moves key_kept (on_index m : vop unit).
Proof.
  intros w. unfold on_index. destruct (active (vault w)) as [a|] eqn:Ha; [|split; [done|]; cbn; rewrite Ha; by eauto].
  destruct (m (search_index a)) as [r ix]. split; [done|]. cbn. intros a' [= <-]. by exists a.
Qed.

Hint Resolve get_db_keeps random_32_keeps current_unix_ms_keeps clock_now_keeps expire_keeps require_active_keeps transaction_keeps
  on_index_keeps : pangolin.

Lemma check_keeps : moves key_kept (check_session_freshness clock : vop unit).
Proof. unfold check_session_freshness. moving. Qed.
Lemma touch_session_keeps : moves key_kept (touch_session clock : vop unit).
Proof.
  unfold touch_session. apply moves_bind; [apply _|apply moves_gets; apply _|intros v].
  destruct (session_state v); try (by apply moves_ret, _).
  apply moves_bind; [apply _|auto with pangolin|intros now]. session_same.
Qed.
Lemma refuse_if_frozen_keeps id : moves key_kept (refuse_if_frozen id : vop unit).
Proof. unfold refuse_if_frozen. moving. Qed.
Lemma refuse_if_requires_upgrade_keeps id : moves key_kept (refuse_if_requires_upgrade id : vop unit).
Proof. unfold refuse_if_requires_upgrade. moving. Qed.
Hint Resolve check_keeps touch_session_keeps refuse_if_frozen_keeps refuse_if_requires_upgrade_keeps : pangolin.

Lemma put_snapshot_keeps m id snap now : moves key_kept (put_snapshot clock m id snap now : vop unit).
Proof.
  unfold put_snapshot, note_dirty_marker_stamped, map_cache.
  repeat (apply moves_bind; [apply _| |intros _]); auto with pangolin; apply map_active_keeps; [|done].
  intros a. by destruct (window_started_at_unix_ms a).
Qed.
Lemma derive_fresh_account_id_keeps n : moves key_kept (derive_fresh_account_id rng n : vop _).
Proof. induction n as [|n IH]; simpl; moving. Qed.
Lemma edit_target_keeps id : moves key_kept (edit_target clock id : vop _).
Proof. unfold edit_target. moving. Qed.
Hint Resolve put_snapshot_keeps derive_fresh_account_id_keeps edit_target_keeps : pangolin.

Lemma account_add_keeps draft :
  moves key_kept (account_add clock wall rng vault_id wrap_schema nfc to_lowercase url_parse url_host aead_seal draft : vop _).
Proof. unfold account_add, account_add_prepare. moving. Qed.

Lemma account_update_keeps id patch :
  moves key_kept (account_update clock wall rng vault_id wrap_schema nfc to_lowercase url_parse url_host aead_seal open_identity id patch : vop _).
Proof. unfold account_update, account_update_prepare. moving. Qed.

(** The preparation of an update leaves the tables alone. *)
Lemma account_update_prepare_same id patch :
  moves db_same (account_update_prepare clock wall rng vault_id wrap_schema nfc to_lowercase url_parse aead_seal open_identity id patch : vop _).
Proof.
  unfold account_update_prepare. moving; first [apply edit_target_same|apply current_unix_ms_same|apply random_32_same|apply require_active_same].
Qed.
End keeps.

(** ** Facts: an account that is being imported *)

(** The identity with another history. *)
Definition with_history (h : list PasswordEntry) (i : AccountIdentity) : AccountIdentity :=
  mkIdentity (display_name i) (tags i) (notes i) (urls i) (usernames i) h (totp_secret i) (totp_params i).

Lemma apply_password nfc to_lowercase url_parse pw i now dev i' :
  apply nfc to_lowercase url_parse (mk_patch pw) i now dev = Ok i' ->
  i' = with_history (mkPasswordEntry pw now dev :: password_history i) i /\ (length pw <= PASSWORD_MAX_BYTES)%nat.
Proof.
  unfold apply, mk_patch. cbn. destruct (validate_password pw) as [[]|] eqn:E; [|done]. cbn.
  apply validate_password_spec in E. intros [= <-]. split; [done|lia].
Qed.

Section importing.
Context {Key Index P : Type} `{!PresenceProof P} `{!SearchIndexOps Index SearchProjection} `{!Cbor.Cbor} `{!CborLaws _}.
Context (memory : Z) (memory_lo : 32 <= memory) (memory_hi : memory <= I64_MAX).
Context (clock wall rng : nat -> Z) (vault_id wrap_schema : Z).
Context (nfc to_lowercase : list Z -> list Z) (url_parse : list Z -> option (list Z))
        (url_host : list Z -> option (option (list Z))).
Context (aead_seal aead_open : Key -> Z -> list Z -> list Z -> option (list Z))
        (open_identity : Key -> Z -> list Z -> Aad -> store_result (DecodedPayload AccountIdentity)).

Notation W := (World Database AccountSnapshot Key Index P).
Notation account_add := (account_add clock wall rng vault_id wrap_schema nfc to_lowercase url_parse url_host aead_seal).
Notation account_update :=
  (account_update clock wall rng vault_id wrap_schema nfc to_lowercase url_parse url_host aead_seal open_identity).
Notation replay :=
  (replay clock wall rng vault_id wrap_schema nfc to_lowercase url_parse url_host aead_seal open_identity).
Notation read_identity_at := (read_identity_at vault_id open_identity).
Notation stored := (stored_identity nfc to_lowercase url_parse).
Notation validate := (validate_into_identity nfc to_lowercase url_parse).

Hypothesis aead_opens : forall k n m a c, aead_seal k n m a = Some c -> aead_open k n c a = Some m.
Hypothesis opens_payload : forall k n ct a p,
  open_identity_payload memory aead_open k n ct a = Ok p -> open_identity k n ct a = Ok p.
Hypothesis schema_ok : 0 <= wrap_schema <= REVISION_SCHEMA_VERSION_MAX.
(** Room for a password and for a history of [room] passwords. *)
Context (room : nat).
Hypothesis memory_room : Z.of_nat PASSWORD_MAX_BYTES <= memory /\ Z.of_nat room * PASSWORD_ENTRY_SIZE <= memory.

(** An identity made of a draft by changing its password, the last of [pws] first. *)
Record imported_as (dev : DeviceId) (draft : AccountIdentityDraft) (pws : list (list Z)) (i : AccountIdentity) : Prop := mkImportedAs {
  as_stored : stored i;
  as_passwords : password <$> password_history i = pws;
  as_short : Forall (fun e => (length (password e) <= PASSWORD_MAX_BYTES)%nat) (password_history i);
  as_draft : exists now i0, validate draft now dev = Ok i0 /\ i = with_history (password_history i) i0
}.

(** In [w] the account [id], which [w0] does not have, reads as the identity made of
    [draft] with the passwords [pws], and nothing else was lost. *)
Record importing (w0 w : W) (draft : AccountIdentityDraft) (id : AccountId) (pws : list (list Z)) (i : AccountIdentity) : Prop := mkImporting {
  imp_fresh : account_identities (db (vault w0)) !! id = None;
  imp_head : exists acc, account_identities (db (vault w)) = <[id := acc]> (account_identities (db (vault w0)))
    /\ tombstoned acc = false
    /\ forall a, active (vault w) = Some a -> read_identity_at id (head_revision_id acc) (vault w) = Ok i;
  imp_revisions : t_revisions (db (vault w0)) ⊆ t_revisions (db (vault w));
  imp_device : vault_device_id (vault w) = vault_device_id (vault w0);
  imp_as : imported_as (vault_device_id (vault w0)) draft pws i
}.

(** What the hypotheses on sizes ask of an account: of what its draft makes. *)
Definition draft_sizes (dev : DeviceId) (draft : AccountIdentityDraft) : Prop :=
  forall now i, validate draft now dev = Ok i -> sizes_ok memory i.

Lemma imported_sizes dev draft pws i :
  imported_as dev draft pws i -> draft_sizes dev draft -> (length pws <= room)%nat -> sizes_ok memory i.
Proof using memory_room.
  intros [_ Hp Hs (now & i0 & Hv & Hi)] Hd Hl. destruct (Hd now i0 Hv) as [Ht _ Hls]. rewrite Hi.
  rewrite <- Hp, length_fmap in Hl. destruct memory_room as [Hm1 Hm2].
  split; cbn [with_history display_name notes totp_secret password_history tags urls usernames]; [done| |done].
  split; [unfold few; etrans; [apply Z.mul_le_mono_nonneg_r; [done|apply inj_le, Hl]|exact Hm2]|]. eapply Forall_impl; [exact Hs|]. intros e He. unfold small. cbn in He. lia.
Qed.

(** A new password, accepted, goes in front. *)
Lemma imported_edit dev draft pws i pw now i' :
  imported_as dev draft pws i -> is_id dev -> is_i64 now -> apply nfc to_lowercase url_parse (mk_patch pw) i now dev = Ok i' ->
  imported_as dev draft (pw :: pws) i'.
Proof.
  intros [Hst Hp Hs (now0 & i0 & Hv & Hi)] Hdev Hnow Ha. pose proof Ha as [-> Hpw]%apply_password. split.
  - by apply (stored_edit _ _ _ (mk_patch pw) i now dev).
  - cbn. by rewrite Hp.
  - cbn. by constructor.
  - exists now0, i0. split; [done|]. cbn. by rewrite Hi.
Qed.

(** Same tables, same key: the same account. *)
Lemma importing_frame w0 w w' draft id pws i :
  importing w0 w draft id pws i -> same_tables (db (vault w)) (db (vault w')) -> key_kept w w' -> importing w0 w' draft id pws i.
Proof.
  intros [H1 (acc & Hacc & Hl & Hr) H3 H4 H5] (Ha & Hrev & _)%same_tables_fields [Hdev Hkey].
  split; try done; [|by rewrite <- Hrev|by rewrite Hdev].
  exists acc. rewrite <- Ha. split_and!; try done. intros a' Ha'. destruct (Hkey a' Ha') as (a & Hact & Hk).
  rewrite <- (Hr a Hact). eapply read_identity_at_frame; [by rewrite Hrev|done|done|done].
Qed.

(** [account_update] as [edit_shape] has it. *)
Lemma account_update_shape id patch (w w' : W) r :
  account_update id patch w = (r, w') ->
  (is_ok r = false /\ same_tables (db (vault w)) (db (vault w')))
  \/ exists p i' w1 d1 u,
       account_update_prepare clock wall rng vault_id wrap_schema nfc to_lowercase url_parse aead_seal open_identity id patch w = (Ok (p, i'), w1)
       /\ tx_edit id (new_id p) (new_row p) (new_now p) false (db (vault w1)) = Ok (d1, u)
       /\ same_tables d1 (db (vault w')).
Proof.
  intros Hr. set (pre := account_update_prepare clock wall rng vault_id wrap_schema nfc to_lowercase url_parse aead_seal open_identity id patch).
  set (tx := fun x : NewRevision * AccountIdentity => tx_edit id (new_id x.1) (new_row x.1) (new_now x.1) false).
  set (post := fun (x : NewRevision * AccountIdentity) (_ : ()) =>
    put_snapshot clock (index_update id (new_now x.1) (from_identity to_lowercase url_host x.2)) id
      (downgrade_identity_to_snapshot x.2) (new_now x.1) ≫= fun _ => mret (new_id x.1) : op W StoreError RevisionId).
  assert (Hr' : (pre ≫= fun x => transaction (tx x) ≫= fun b => post x b) w = (r, w')).
  { rewrite <- Hr. unfold IdentityOps.account_update. rewrite !op_bind_eq. fold pre. by destruct (pre w) as [[[p i']|e] w1]. }
  apply edit_shape in Hr' as [Hl|([p i'] & w1 & d1 & u & Hp & _ & Ht & Hd & _)].
  - by left.
  - right. exists p, i', w1, d1, u. done.
  - apply account_update_prepare_same.
  - intros a b. apply moves_bind; [apply _|apply put_snapshot_same|intros _; apply moves_ret; apply _].
Qed.

(** What the transaction of an edit commits reads as the edited identity, as long as
    there is a session. *)
Lemma committed_reads id patch (w w1 w' : W) p i i' acc a d1 u :
  prepared clock rng vault_id wrap_schema nfc to_lowercase url_parse aead_seal open_identity w w1 id patch acc a i i' p ->
  tx_edit id (new_id p) (new_row p) (new_now p) false (db (vault w1)) = Ok (d1, u) ->
  same_tables d1 (db (vault w')) -> key_kept w w' -> stored i' -> sizes_ok memory i' ->
  t_revisions (db (vault w)) ⊆ t_revisions (db (vault w'))
  /\ exists acc', account_identities (db (vault w')) = <[id := acc']> (account_identities (db (vault w)))
     /\ tombstoned acc' = false
     /\ forall a', active (vault w') = Some a' -> read_identity_at id (head_revision_id acc') (vault w') = Ok i'.
Proof using aead_opens opens_payload memory_lo memory_hi CborLaws0 schema_ok.
  intros [Hed Ha _ _ _ _ Hseal [n Hn] _] Ht Hsame [_ Hkey] Hst Hsz. rewrite Hn in Ht.
  apply tx_edit_inv in Ht as (Hrev & Hfresh & Hacc). specialize (Hacc acc (ed_row _ _ _ _ Hed)). rewrite (ed_live _ _ _ _ Hed) in Hacc.
  apply same_tables_fields in Hsame as (H1 & H2 & _). split; [rewrite <- H2, Hrev; by apply insert_subseteq|].
  eexists. rewrite <- H1, Hacc. split_and!; [done|done|].
  intros a' Ha'. apply Hkey in Ha' as Hk. destruct Hk as (a0 & Ha0 & Hk). rewrite Ha in Ha0. injection Ha0 as <-.
  eapply (read_sealed_row memory); try done. cbn. by rewrite <- H2, Hrev, lookup_insert_eq.
Qed.

Lemma importing_step w0 w w' draft id pws i pw r :
  importing w0 w draft id pws i -> draft_sizes (vault_device_id (vault w0)) draft -> is_id (vault_device_id (vault w0)) ->
  (length pws < room)%nat -> account_update id (mk_patch pw) w = (r, w') ->
  (is_ok r = false /\ importing w0 w' draft id pws i) \/ exists i', importing w0 w' draft id (pw :: pws) i'.
Proof using aead_opens opens_payload memory_lo memory_hi memory_room CborLaws0 schema_ok.
  intros Hi Hd Hdev Hl Hr. assert (Hkk : key_kept w w').
  { pose proof (account_update_keeps clock wall rng vault_id wrap_schema nfc to_lowercase url_parse url_host aead_seal open_identity
      id (mk_patch pw) w) as Hk. by rewrite Hr in Hk. }
  apply account_update_shape in Hr as [[He Hsame]|(p & i1 & w1 & d1 & u & Hp & Ht & Hsame)].
  { left. split; [done|]. by apply (importing_frame w0 w). }
  right. apply account_update_prepare_inv in Hp as (acc & a & i2 & Hp).
  pose proof Hp as [[Hacc Hlive _ _ _] Ha Hread Hnow Happly _ _ _ _].
  destruct Hi as [F1 (acc' & F2 & F3 & F4) F5 F6 F7].
  rewrite F2, lookup_insert_eq in Hacc. injection Hacc as ->. rewrite (F4 a Ha) in Hread. injection Hread as <-.
  rewrite F6 in Happly. pose proof (imported_edit _ _ _ _ _ _ _ F7 Hdev Hnow Happly) as Has.
  assert (Hsz : sizes_ok memory i1) by (apply (imported_sizes _ _ _ _ Has Hd); cbn [length]; lia).
  destruct (committed_reads _ _ _ _ _ _ _ _ _ _ _ _ Hp Ht Hsame Hkk (as_stored _ _ _ _ Has) Hsz) as (E1 & acc2 & E2 & E3 & E4).
  exists i1. split; [done| |by etrans|by rewrite (proj1 Hkk)|done].
  exists acc2. rewrite E2, F2, insert_insert_eq. done.
Qed.

Lemma importing_start w w' draft id :
  account_add draft w = (Ok id, w') -> draft_sizes (vault_device_id (vault w)) draft -> is_id (vault_device_id (vault w)) ->
  0 <= period_seconds (draft_totp_params draft) ->
  exists i, importing w w' draft id [draft_password draft] i /\ is_Some (active (vault w')).
Proof using aead_opens opens_payload memory_lo memory_hi memory_room CborLaws0 schema_ok.
  intros Hr Hd Hdev Hper. assert (Hkk : key_kept w w').
  { pose proof (account_add_keeps clock wall rng vault_id wrap_schema nfc to_lowercase url_parse url_host aead_seal draft w) as Hk.
    by rewrite Hr in Hk. }
  apply account_add_inv in Hr as (rid & a & a' & i & now & row & [Ha Hnow Hv Hnew _ Hrow Hfresh Hseal Hacc Ha' [Hk _ _ _ _]]).
  assert (Hst : stored i) by (by eapply stored_new).
  apply identity_limits_new in Hv as Hlim. destruct Hlim as [Hlim Hpw].
  apply validate_into_identity_inv in Hv as Hh. destruct Hh as [Hh _].
  exists i. split; [|by exists a']. split.
  - done.
  - eexists. split; [exact Hacc|]. split; [done|]. intros a2 Ha2. rewrite Ha' in Ha2. injection Ha2 as <-.
    eapply (read_sealed_row memory); try done; [|by eapply Hd]. cbn. by rewrite Hrow, lookup_insert_eq.
  - rewrite Hrow. by apply insert_subseteq.
  - apply Hkk.
  - split; [done|by rewrite Hh| |].
    + destruct Hlim as [_ _ _ _ _ [_ Hf] _]. eapply Forall_impl; [exact Hf|]. cbn. intros e He. lia.
    + exists now, i. split; [done|]. by destruct i.
Qed.

(** The replay takes some of the passwords, in order. *)
Lemma replay_importing w0 draft id l :
  draft_sizes (vault_device_id (vault w0)) draft -> is_id (vault_device_id (vault w0)) ->
  forall w pws i, importing w0 w draft id pws i -> (length pws + length l <= room)%nat ->
  exists n i' w', replay id l w = (Ok tt, w') /\ importing w0 w' draft id (reverse (take n l) ++ pws) i'.
Proof using aead_opens opens_payload memory_lo memory_hi memory_room CborLaws0 schema_ok.
  intros Hd Hdev. induction l as [|pw l IH]; intros w pws i Hi Hl; cbn [KdbxImport.replay].
  { by exists 0%nat, i, w. }
  cbn [length] in Hl. destruct (account_update id (mk_patch pw) w) as [r w1] eqn:Hr.
  pose proof (importing_step w0 w w1 draft id pws i pw r Hi Hd Hdev ltac:(lia) Hr) as Hs. destruct r as [rid|e].
  - destruct Hs as [[? _]|[i1 Hi1]]; [done|]. destruct (IH w1 _ _ Hi1 ltac:(cbn [length]; lia)) as (n & i' & w' & Hrun & Hi').
    exists (S n), i', w'. split; [done|]. cbn [take]. by rewrite reverse_cons, <- app_assoc.
  - destruct Hs as [[_ Hi1]|[i1 Hi1]]; [by exists 0%nat, i, w1|]. exists 1%nat, i1, w1. split; [done|].
    cbn [take]. by rewrite take_0.
Qed.

(** What an import of [m] from [w] to [w'] leaves: the account [id], new, and nothing else
    changed; the session open; and an identity made by the draft, up to its passwords,
    which are the current one and the [n] first of the history, the newest first. *)
Record ingested (m : MappedEntry) (w w' : W) (id : AccountId) (acc : AccountRow) (i : AccountIdentity) (n : nat) : Prop := mkIngested {
  ing_fresh : account_identities (db (vault w)) !! id = None;
  ing_accounts : account_identities (db (vault w')) = <[id := acc]> (account_identities (db (vault w)));
  ing_live : tombstoned acc = false;
  ing_revisions : t_revisions (db (vault w)) ⊆ t_revisions (db (vault w'));
  ing_open : is_Some (active (vault w'));
  ing_reads : read_identity_at id (head_revision_id acc) (vault w') = Ok i;
  ing_draft : exists now i0, validate (draft_of m (genesis_pw m)) now (vault_device_id (vault w)) = Ok i0
    /\ i = with_history (password_history i) i0;
  ing_passwords : password <$> password_history i = m_password m :: reverse (take n (m_history m).*1);
  ing_current : current_password i = Some (m_password m)
}.

Lemma importing_ingested m w w' id i n :
  importing w w' (draft_of m (genesis_pw m)) id (m_password m :: reverse (take n (m_history m).*1)) i ->
  is_Some (active (vault w')) -> exists acc, ingested m w w' id acc i n.
Proof.
  intros [F1 (acc & F2 & F3 & F4) F5 _ [_ Hp _ Hd]] [a Ha]. exists acc. split; try done; [by apply (F4 a)|].
  unfold current_password. destruct (password_history i) as [|e h]; [done|]. injection Hp as Hp _. cbn. by rewrite Hp.
Qed.

(** C25. An imported account ends with its current password.  When [ingest_one] succeeds
    there is one account more, and no other account and no revision is lost or changed;
    the session is still open, and the head of the account reads as the identity that
    the draft makes, except for its passwords: the current one is that of the entry, and
    behind it are, the newest first, the passwords of its history up to some point,
    the oldest always among them, also when the replay of a later one failed. *)
Theorem ingest_ends_with_current m (w w' : W) :
  ingest_one clock wall rng vault_id wrap_schema nfc to_lowercase url_parse url_host aead_seal open_identity m w = (Ok tt, w') ->
  draft_sizes (vault_device_id (vault w)) (draft_of m (genesis_pw m)) -> is_id (vault_device_id (vault w)) ->
  (forall t, m_totp m = Some t -> 0 <= period_seconds (params t)) -> (length (m_history m) < room)%nat ->
  exists id acc i n, ingested m w w' id acc i n /\ (m_history m <> [] -> (0 < n)%nat).
Proof using aead_opens opens_payload memory_lo memory_hi memory_room CborLaws0 schema_ok.
  intros Hr Hd Hdev Hper Hlen. unfold ingest_one in Hr. apply op_bind_Ok in Hr as (id & w1 & Hadd & Hr).
  destruct (importing_start _ _ _ _ Hadd Hd Hdev) as (i1 & Hi1 & Hact1).
  { unfold draft_of. cbn. destruct (m_totp m) as [t|]; [by apply Hper|done]. }
  pose proof (importing_ingested m w) as Hend.
  unfold genesis_pw, historical_rotations in *. destruct (m_history m) as [|[g ts] h] eqn:Eh.
  - cbn in Hr. injection Hr as <-. destruct (Hend w1 id i1 0%nat Hi1 Hact1) as [acc Hing]. by exists id, acc, i1, 0%nat.
  - cbn [tail fmap list_fmap] in Hr. cbn [length] in Hlen.
    destruct (replay_importing w _ id (fst <$> h) Hd Hdev w1 _ i1 Hi1) as (n & i2 & w2 & Hrep & Hi2).
    { rewrite length_fmap. cbn. lia. }
    apply op_bind_Ok in Hr as (u & w2' & Hrep' & Hr). rewrite Hrep in Hrep'. injection Hrep' as <- <-.
    apply op_bind_Ok in Hr as (rid & w3 & Hup & Hr). injection Hr as <-.
    assert (Hl2 : (length (reverse (take n h.*1) ++ [g]) < room)%nat).
    { rewrite length_app, length_reverse, length_take, length_fmap. cbn. lia. }
    destruct (importing_step _ _ _ _ _ _ _ _ _ Hi2 Hd Hdev Hl2 Hup) as [[? _]|[i3 Hi3]]; [done|].
    apply account_update_inv in Hup as (? & ? & a' & ? & ? & ? & ? & [_ _ _ _ _ _ _ _ _ _ Ha' _]).
    destruct (Hend w3 id i3 (S n)) as [acc Hing]; [cbn [take fmap list_fmap]; by rewrite reverse_cons|by exists a'|].
    exists id, acc, i3, (S n). split; [done|lia].
Qed.
End importing.

(** The kind of an error says no more of the credentials than that they are wrong. *)
Lemma map_kdbx_err_no_oracle e : map_kdbx_err e = map_kdbx_err (fold_oracle e).
Proof. by destruct e. Qed.

Lemma push_kind_NoDup kinds l : NoDup kinds -> NoDup (push_kind kinds l).
Proof.
  intros Hk. unfold push_kind. case_bool_decide as Hl; [done|]. apply NoDup_app. split_and!; [done| |apply NoDup_singleton].
  intros x Hx Hx'. apply list_elem_of_singleton in Hx' as ->. done.
Qed.

Section report.
Context {Key Index P : Type} `{!PresenceProof P} `{!SearchIndexOps Index SearchProjection} `{!Cbor.Cbor}.
Context (clock wall rng : nat -> Z) (vault_id wrap_schema : Z).
Context (nfc to_lowercase : list Z -> list Z) (url_parse : list Z -> option (list Z))
        (url_host : list Z -> option (option (list Z))).
Context (aead_seal : Key -> Z -> list Z -> list Z -> option (list Z))
        (open_identity : Key -> Z -> list Z -> Aad -> store_result (DecodedPayload AccountIdentity)).

(** Every entry is counted once, as imported or as failed, and no kind is told twice. *)
Lemma ingest_all_counts entries r (w w' : World Database AccountSnapshot Key Index P) r' :
  ingest_all clock wall rng vault_id wrap_schema nfc to_lowercase url_parse url_host aead_seal open_identity entries r w = (r', w') ->
  0 <= imported r -> 0 <= failed r -> imported r + failed r + zlen entries <= U32_MAX -> NoDup (failure_kinds r) ->
  imported r' + failed r' = imported r + failed r + zlen entries /\ report_skipped r' = report_skipped r /\ NoDup (failure_kinds r').
Proof.
  revert r w. induction entries as [|e entries IH]; intros r w; cbn [ingest_all].
  { intros [= <- <-] _ _ _ Hn. unfold zlen. cbn. split_and!; [lia|done|done]. }
  destruct (ingest_one _ _ _ _ _ _ _ _ _ _ _ e w) as [o w1]. intros Hr H1 H2 H3 Hn. unfold zlen in *. cbn [length] in *.
  apply IH in Hr as (G1 & G2 & G3); destruct o; cbn [count_outcome imported failed report_skipped failure_kinds] in *;
    try (unfold saturating_inc; lia); try done; try by apply push_kind_NoDup.
  all: split_and!; [unfold saturating_inc in G1; lia|done|done].
Qed.
End report.

Module KdbxImportSample.
Import PayloadSample IdentitySample KdbxMapSample.

Notation sample_ingest := (ingest_one sample_clock sample_clock sample_rng 1 1 id to_ascii_lowercase Some SearchSample.host
  record_seal sample_open).

(** The passwords that the head of the account last added ends with. *)
Definition passwords_after (w : World Database AccountSnapshot Z SearchIndex PressYPresenceProof) (id : AccountId) : option (list (list Z)) :=
  acc ← account_identities (db (vault w)) !! id;
  i ← ok (read_identity_at 1 sample_open id (head_revision_id acc) (vault w));
  Some (password <$> password_history i).

Example sample_import :
  let '(r, w') := sample_ingest sample_mapped sample_world in
  r = Ok tt /\ passwords_after w' 1000 = Some [bytes_of "new"; bytes_of "b"; bytes_of "a"].
Proof. vm_compute. split; reflexivity. Qed.

(** A replay that stops at a password the store does not take: the ones behind it are
    lost, the current one is not. *)
Definition stopping_entry : MappedEntry :=
  mkMapped (bytes_of "x") [bytes_of "ann"] [] [] (bytes_of "new") None []
    [(bytes_of "a", None); (replicate (S PASSWORD_MAX) 97, None); (bytes_of "b", None)].

Example replay_stops :
  let '(r, w') := sample_ingest stopping_entry sample_world in
  r = Ok tt /\ passwords_after w' 1000 = Some [bytes_of "new"; bytes_of "a"].
Proof. vm_compute. split; reflexivity. Qed.

(** The report of three entries: one without a password, one that the store refuses, one
    imported; each kind once. *)
Example sample_report :
  (ffi_ingest sample_clock sample_clock sample_rng 1 1 id to_ascii_lowercase Some SearchSample.host record_seal sample_open
     (mkMapResult [sample_mapped; mkMapped [] [bytes_of "ann"] [] [] [97] None [] []] [EmptyPassword; EmptyPassword] 3) sample_world).1
  = mkReport 1 5 1 ["empty_password"; "validation_display_name"]%string.
Proof. vm_compute. reflexivity. Qed.

Lemma sample_draft_sizes : draft_sizes memory id to_ascii_lowercase Some 9 (draft_of sample_mapped (genesis_pw sample_mapped)).
Proof.
  intros now i [= <-]. split; unfold few, small, memory; repeat constructor; vm_compute; discriminate.
Qed.

Lemma ingest_ends_with_current_witness :
  exists w', sample_ingest sample_mapped sample_world = (Ok tt, w')
    /\ exists id acc i, account_identities (db (vault w')) !! id = Some acc
       /\ read_identity_at 1 sample_open id (head_revision_id acc) (vault w') = Ok i /\ current_password i = Some (bytes_of "new").
Proof.
  destruct (sample_ingest sample_mapped sample_world) as [r w'] eqn:Hr.
  assert (Hok : r = Ok tt) by (change r with (fst (r, w')); rewrite <- Hr; vm_compute; reflexivity).
  rewrite Hok in *. exists w'. split; [done|].
  destruct (ingest_ends_with_current memory ltac:(vm_compute; discriminate) ltac:(vm_compute; discriminate)
    sample_clock sample_clock sample_rng 1 1 id to_ascii_lowercase Some SearchSample.host record_seal record_open sample_open
    record_opens sample_opens ltac:(vm_compute; split; discriminate) (S (S HISTORY_MAX)) ltac:(vm_compute; split; discriminate)
    sample_mapped sample_world w' Hr sample_draft_sizes) as (acct & acc & i & n & [H1 H2 H3 H4 H5 H6 H7 H8 H9] & Hn).
  - unfold is_id. cbn. lia.
  - intros t [= <-]. vm_compute. discriminate.
  - apply Nat.leb_le. vm_compute. reflexivity.
  - exists acct, acc, i. split; [by rewrite H2, lookup_insert_eq|]. split; [exact H6|exact H9].
Defined.
End KdbxImportSample.
