(* ===== verification/Registries.v ===== *)
(** * The registries of the vault file

    Who may capture credentials in which context
    (crates/pangolin-store/src/capture_authority.rs), and the list of devices with their
    labels (device.rs), with the methods of vault.rs on both.

    The vault handle is that of [Rekey]: the key tables with, next to them, the tables of
    [Database] and the one of the capture authorities. *)

From Stdlib Require Import String.
From S2P Require Import Prelude Bytes Cbor SeedPhrase RecoveryBackup StoreError Text SessionPolicy Database AccountOps MultiDevice Escrow KeyStore Rekey.
Open Scope Z_scope.

(** ** Capture authorities *)

Definition CAPTURE_AUTHORITY_SCHEMA_VERSION_MAX : Z := 1.
Definition COMPONENT_ID_MAX_CHARS : Z := 256.
Definition COMPONENT_VERSION_MAX_CHARS : Z := 64.
Definition PLATFORM_HINT_MAX_CHARS : Z := 64.
Definition PLATFORM_HINT_ALLOWLIST : list (list Z) :=
  bytes_of <$> ["chrome"; "firefox"; "edge"; "safari"; "chromium"; "webview"; "ios"; "android"; "windows";
                "macos"; "linux"]%string.

Inductive CaptureAuthorityKind : Type := AuthorityDesktop | BrowserExtension | MobileOsAutofill.
Inductive CaptureContextKind : Type := ContextDesktop | Browser | MobileOs.

#[export] Instance CaptureAuthorityKind_eq_dec : EqDecision CaptureAuthorityKind.
Proof. solve_decision. Defined.
#[export] Instance CaptureContextKind_eq_dec : EqDecision CaptureContextKind.
Proof. solve_decision. Defined.

Definition authority_to_repr (k : CaptureAuthorityKind) : Z :=
  match k with AuthorityDesktop => 0 | BrowserExtension => 1 | MobileOsAutofill => 2 end.
Definition authority_from_repr (value : Z) : store_result CaptureAuthorityKind :=
  if value =? 0 then Ok AuthorityDesktop else if value =? 1 then Ok BrowserExtension
  else if value =? 2 then Ok MobileOsAutofill else Err CaptureAuthorityValidation.
Definition context_to_repr (k : CaptureContextKind) : Z :=
  match k with ContextDesktop => 0 | Browser => 1 | MobileOs => 2 end.
Definition context_from_repr (value : Z) : store_result CaptureContextKind :=
  if value =? 0 then Ok ContextDesktop else if value =? 1 then Ok Browser
  else if value =? 2 then Ok MobileOs else Err CaptureAuthorityValidation.

Record CaptureAuthority : Type := mkAuthority {
  ca_schema_version : Z;
  ca_kind : CaptureAuthorityKind;
  component_id : list Z;
  component_version : list Z
}.

Record CaptureContext : Type := mkContext {
  cx_schema_version : Z;
  cx_kind : CaptureContextKind;
  platform_hint : option (list Z)
}.

Record CaptureAuthorityEntry : Type := mkEntry {
  ce_schema_version : Z;
  ce_context : CaptureContext;
  ce_authority : CaptureAuthority;
  ce_registered_at : Z
}.

Inductive RegistrationOutcome : Type :=
| Created
| Replaced (prior : CaptureAuthority)
| NoOp (existing : CaptureAuthority).

(** A row of the table, under its context kind and platform hint. *)
Record AuthorityRow : Type := mkAuthorityRow {
  ar_authority_kind : Z;
  ar_component_id : list Z;
  ar_component_version : list Z;
  ar_registered_at : Z;
  ar_schema_version : Z
}.

(** The same with its key, as an archive carries it. *)
Record CapturedCaptureAuthority : Type := mkCaptured {
  cc_context_kind : Z;
  cc_platform_hint : list Z;
  cc_row : AuthorityRow
}.

Definition capture_invalid {A} : store_result A := Err CaptureAuthorityValidation.

(** The first, and the last, character is white space. *)
Definition starts_spaced (s : list Z) : bool := match strip_any WHITE_SPACE s with Some _ => true | None => false end.
Definition ends_spaced (s : list Z) : bool :=
  match strip_any (reverse <$> WHITE_SPACE) (reverse s) with Some _ => true | None => false end.

Definition disallowed (s : list Z) : bool := any_control (fun _ => false) s.

Section validate.
Context (nfc : list Z -> list Z).

Definition validate_component_id (input : list Z) : store_result (list Z) :=
  let normalised := nfc input in
  if (length normalised =? 0)%nat then capture_invalid
  else if COMPONENT_ID_MAX_CHARS <? char_count normalised then capture_invalid
  else if starts_spaced normalised || ends_spaced normalised then capture_invalid
  else if disallowed normalised then capture_invalid
  else Ok normalised.

Definition validate_component_version (input : list Z) : store_result (list Z) :=
  let normalised := nfc input in
  if COMPONENT_VERSION_MAX_CHARS <? char_count normalised then capture_invalid
  else if negb (length normalised =? 0)%nat && (starts_spaced normalised || ends_spaced normalised) then capture_invalid
  else if disallowed normalised then capture_invalid
  else Ok normalised.

Definition validate_platform_hint (input : option (list Z)) : store_result (option (list Z)) :=
  match input with
  | None => Ok None
  | Some s =>
      if (length s =? 0)%nat then capture_invalid
      else if PLATFORM_HINT_MAX_CHARS <? char_count s then capture_invalid
      else if negb (forallb (in_range 97 122) s) then capture_invalid
      else if bool_decide (s ∈ PLATFORM_HINT_ALLOWLIST) then Ok (Some s) else capture_invalid
  end.

Definition validate_authority (a : CaptureAuthority) : store_result CaptureAuthority :=
  if CAPTURE_AUTHORITY_SCHEMA_VERSION_MAX <? ca_schema_version a then capture_invalid
  else
    component_id ← validate_component_id (component_id a);
    component_version ← validate_component_version (component_version a);
    Ok (mkAuthority (ca_schema_version a) (ca_kind a) component_id component_version).

Definition validate_context (c : CaptureContext) : store_result CaptureContext :=
  if CAPTURE_AUTHORITY_SCHEMA_VERSION_MAX <? cx_schema_version c then capture_invalid
  else
    platform_hint ← validate_platform_hint (platform_hint c);
    Ok (mkContext (cx_schema_version c) (cx_kind c) platform_hint).

(** *** Devices: [validate_label] *)
Definition DEVICE_LABEL_MAX_CHARS : Z := 256.

Definition validate_label (input : list Z) : store_result (list Z) :=
  let trimmed := trim (nfc input) in
  if (length trimmed =? 0)%nat then Err (Validation "device_label")
  else if DEVICE_LABEL_MAX_CHARS <? char_count trimmed then Err (Validation "device_label")
  else if any_control (fun b => (b =? 9) || (b =? 10) || (b =? 13)) trimmed then Err (Validation "device_label")
  else Ok trimmed.
End validate.

Definition coalesce_platform_hint (hint : option (list Z)) : list Z := default [] hint.
Definition uncoalesce_platform_hint (stored : list Z) : option (list Z) :=
  if (length stored =? 0)%nat then None else Some stored.

Definition decode_row (context_kind_i : Z) (hint : list Z) (r : AuthorityRow) : store_result CaptureAuthorityEntry :=
  schema_version ← ok_or (u16_try_from (ar_schema_version r)) CaptureAuthorityValidation;
  if CAPTURE_AUTHORITY_SCHEMA_VERSION_MAX <? schema_version then capture_invalid
  else
    context_kind ← context_from_repr context_kind_i;
    authority_kind ← authority_from_repr (ar_authority_kind r);
    Ok (mkEntry schema_version
          (mkContext schema_version context_kind (uncoalesce_platform_hint hint))
          (mkAuthority schema_version authority_kind (ar_component_id r) (ar_component_version r))
          (ar_registered_at r)).

(** ** The tables *)

Definition ContextKey : Type := Z * list Z.

Record Tables : Type := mkTables { account_tables : Database; registry : gmap ContextKey AuthorityRow }.
Definition set_registry (x : gmap ContextKey AuthorityRow) (t : Tables) : Tables := mkTables (account_tables t) x.
Definition set_account_tables (x : Database) (t : Tables) : Tables := mkTables x (registry t).
Definition set_tables {T} (x : T) (d : KeyDb T) : KeyDb T := mkKeyDb (store d) (mem_meta d) (draws d) (Rekey.devices d) x.

#[export] Instance Tables_accounts : AccountTable Tables := {|
  frozen_pending_resolve t := frozen_pending_resolve (account_tables t);
  head_pointer t := head_pointer (account_tables t)
|}.

(** ORDER BY context_kind ASC, platform_hint ASC. *)
Definition context_le (a b : ContextKey * AuthorityRow) : Prop :=
  a.1.1 < b.1.1 \/ (a.1.1 = b.1.1 /\ lex_compare a.1.2 b.1.2 <> Gt).
#[export] Instance context_le_dec : RelDecision context_le.
Proof. intros a b. unfold context_le. apply _. Defined.

Definition registry_rows (t : Tables) : list (ContextKey * AuthorityRow) := merge_sort context_le (map_to_list (registry t)).

(** [DeviceIdentity] without the columns that no statement writes: the capabilities are
    always full and the time of the last synchronisation is always null. *)
Record DeviceIdentity : Type := mkDeviceIdentity {
  di_device_id : Z;
  di_label : list Z;
  registered_at : Z;
  di_public_key : option Z;
  di_evm_address : option Z;
  is_current : bool
}.

(** ** The handlers *)

Section handlers.
Context {Snapshot Key Index P : Type} `{!PresenceProof P}.
Context (clock wall : nat -> Z) (nfc : list Z -> list Z).
(** [VerifyingKey::from_bytes(..).ok()]. *)
Context (verifying_key : Z -> option Z).

Notation W := (World (KeyDb Tables) Snapshot Key Index P).
Notation vop := (op W StoreError).

Definition get_registry : vop (gmap ContextKey AuthorityRow) := gets (fun w => registry (tables (db (vault w)))).
Definition put_registry (x : gmap ContextKey AuthorityRow) : vop unit :=
  modify (map_vault (fun v => set_db (set_tables (set_registry x (tables (db v))) (db v)) v)).

(** [current_unix_ms]. *)
Definition unix_ms_now : vop Z :=
  fun w => (Ok (unix_ms_of (wall (ticks w))), mkWorld (vault w) (presence w) (S (ticks w))).

Definition context_key (c : CaptureContext) : ContextKey := (context_to_repr (cx_kind c), coalesce_platform_hint (platform_hint c)).

Definition authority_row (a : CaptureAuthority) (now_ms : Z) : AuthorityRow :=
  mkAuthorityRow (authority_to_repr (ca_kind a)) (component_id a) (component_version a) now_ms CAPTURE_AUTHORITY_SCHEMA_VERSION_MAX.

Definition same_payload (a b : CaptureAuthority) : bool :=
  bool_decide (ca_kind a = ca_kind b) && bool_decide (component_id a = component_id b)
  && bool_decide (component_version a = component_version b).

Definition existing_authority (r : AuthorityRow) : store_result CaptureAuthority :=
  existing_sv ← ok_or (u16_try_from (ar_schema_version r)) CaptureAuthorityValidation;
  if CAPTURE_AUTHORITY_SCHEMA_VERSION_MAX <? existing_sv then capture_invalid
  else
    existing_kind ← authority_from_repr (ar_authority_kind r);
    Ok (mkAuthority existing_sv existing_kind (ar_component_id r) (ar_component_version r)).

(** The body of the transaction. *)
Definition capture_authority_register_in_tx (a : CaptureAuthority) (key : ContextKey) (replace_existing : bool) :
    vop RegistrationOutcome :=
  rows ← get_registry;
  now_ms ← unix_ms_now;
  match rows !! key with
  | None => put_registry (<[key := authority_row a now_ms]> rows) ≫= fun _ => mret Created
  | Some r =>
      existing ← lift (existing_authority r);
      if same_payload existing a then mret (NoOp existing)
      else if negb replace_existing then throw CaptureAuthorityExclusivity
      else
        ensure_presence_fresh clock wall ≫= fun _ =>
        put_registry (<[key := authority_row a now_ms]> rows) ≫= fun _ =>
        mret (Replaced existing)
  end.

(** COMMIT, or ROLLBACK: the tables are what they were, the session is not rolled back. *)
Definition capture_authority_register (a : CaptureAuthority) (c : CaptureContext) (replace_existing : bool) :
    vop RegistrationOutcome :=
  check_session_freshness clock ≫= fun _ =>
  a ← lift (validate_authority nfc a);
  c ← lift (validate_context c);
  rows ← get_registry;
  o ← (fun w =>
    match capture_authority_register_in_tx a (context_key c) replace_existing w with
    | (Ok o, w') => (Ok o, w')
    | (Err e, w') => (Err e, (put_registry rows w').2)
    end);
  touch_session clock ≫= fun _ =>
  mret o.

Definition capture_authority_query (c : CaptureContext) : vop (option CaptureAuthorityEntry) :=
  check_session_freshness clock ≫= fun _ =>
  c ← lift (validate_context c);
  rows ← get_registry;
  match rows !! context_key c with
  | None => touch_session clock ≫= fun _ => mret None
  | Some r =>
      entry ← lift (decode_row (context_key c).1 (context_key c).2 r);
      touch_session clock ≫= fun _ => mret (Some entry)
  end.

Definition capture_authority_list : vop (list CaptureAuthorityEntry) :=
  check_session_freshness clock ≫= fun _ =>
  t ← gets (fun w => tables (db (vault w)));
  out ← lift (collect ((fun kr => decode_row kr.1.1 kr.1.2 kr.2) <$> registry_rows t));
  touch_session clock ≫= fun _ => mret out.

Definition capture_authority_clear (c : CaptureContext) : vop bool :=
  check_session_freshness clock ≫= fun _ =>
  c ← lift (validate_context c);
  rows ← get_registry;
  put_registry (delete (context_key c) rows) ≫= fun _ =>
  touch_session clock ≫= fun _ =>
  mret (match rows !! context_key c with Some _ => true | None => false end).

(** ** Devices *)

Definition into_identity (current device_id : Z) (r : DeviceRow) : store_result DeviceIdentity :=
  public_key ← match dev_public_key r with
               | None => Ok None
               | Some bytes => k ← blob KEY_LEN bytes; Ok (verifying_key k)
               end;
  evm_address ← match dev_evm_address r with
                | None => Ok None
                | Some bytes => a ← blob 20 bytes; Ok (Some a)
                end;
  Ok (mkDeviceIdentity device_id (dev_label r) (dev_added_at r) public_key evm_address (device_id =? current)).

(** ORDER BY added_at ASC, device_id ASC. *)
Definition list_devices (st : Store) (current : Z) : store_result (list DeviceIdentity) :=
  collect ((fun x => into_identity current x.1 x.2) <$> merge_sort device_le (map_to_list (device_rows st))).

Definition read_device (st : Store) (device_id current : Z) : store_result (option DeviceIdentity) :=
  match device_rows st !! device_id with
  | None => Ok None
  | Some r => d ← into_identity current device_id r; Ok (Some d)
  end.

Definition set_dev_label (label : list Z) (r : DeviceRow) : DeviceRow :=
  mkDeviceRow label (dev_added_at r) (dev_public_key r) (dev_evm_address r).

Definition set_device_label (st : Store) (device_id : Z) (label : list Z) : store_result Store :=
  match device_rows st !! device_id with
  | None => Err AccountNotFound
  | Some r => Ok (set_devices (<[device_id := set_dev_label label r]> (device_rows st)) st)
  end.

Definition device_current (v : Vault (KeyDb Tables) Snapshot Key Index) : store_result DeviceIdentity :=
  d ← read_device (store (db v)) (vault_device_id v) (vault_device_id v);
  ok_or d NotUnlocked.

Definition device_list (v : Vault (KeyDb Tables) Snapshot Key Index) : store_result (list DeviceIdentity) :=
  list_devices (store (db v)) (vault_device_id v).

Definition device_set_label (id : Z) (label : list Z) : vop unit :=
  check_session_freshness clock ≫= fun _ =>
  require_active ≫= fun _ =>
  canonical ← lift (validate_label nfc label);
  v ← gets vault;
  st ← lift (set_device_label (store (db v)) id canonical);
  modify (map_vault (fun v => set_db (set_store st (db v)) v)) ≫= fun _ =>
  touch_session clock.
End handlers.

(** ** What the handlers do *)

Section facts.
Context {Snapshot Key Index P : Type} `{!PresenceProof P}.
Context (clock wall : nat -> Z) (nfc : list Z -> list Z).

Notation W := (World (KeyDb Tables) Snapshot Key Index P).

Definition rows_of (w : W) : gmap ContextKey AuthorityRow := registry (tables (db (vault w))).
Definition with_rows (rows : gmap ContextKey AuthorityRow) (d : KeyDb Tables) : KeyDb Tables :=
  set_tables (set_registry rows (tables d)) d.

Lemma with_rows_same (w : W) : with_rows (rows_of w) (db (vault w)) = db (vault w).
Proof. unfold with_rows, rows_of. by destruct (db (vault w)) as [? ? ? ? []]. Qed.

Lemma check_session_db (w : W) : db (vault (check_session_freshness clock w).2) = db (vault w).
Proof. rewrite check_session_freshness_eq. destruct (session_state (vault w)); try done. simpl. by destruct (_ <? _). Qed.

Lemma ensure_presence_db (w : W) : db (vault (ensure_presence_fresh clock wall w).2) = db (vault w).
Proof.
  rewrite ensure_presence_fresh_eq. destruct (active (vault w)); [|done].
  destruct (presence_is_fresh _ _); [done|]. by destruct (presence_verify _ _) as [[[]|] ?].
Qed.

Lemma validate_context_key c c' :
  validate_context c = Ok c' ->
  c' = mkContext (cx_schema_version c) (cx_kind c) (platform_hint c)
  /\ cx_schema_version c <= CAPTURE_AUTHORITY_SCHEMA_VERSION_MAX
  /\ uncoalesce_platform_hint (coalesce_platform_hint (platform_hint c)) = platform_hint c.
Proof.
  unfold validate_context. destruct (_ <? _) eqn:E; [done|]. zbool. unfold validate_platform_hint.
  destruct (platform_hint c) as [[|b s]|]; simpl; try done.
  - destruct (_ <? _); [done|]. destruct (negb _); [done|]. case_bool_decide; [|done]. by intros [= <-].
  - by intros [= <-].
Qed.

Lemma validate_context_err c e : validate_context c = Err e -> e = CaptureAuthorityValidation.
Proof.
  unfold validate_context, validate_platform_hint, capture_invalid.
  repeat (case_match; simpl; try congruence).
Qed.

Lemma validate_authority_err a e : validate_authority nfc a = Err e -> e = CaptureAuthorityValidation.
Proof.
  unfold validate_authority, validate_component_id, validate_component_version, capture_invalid.
  repeat (case_match; simpl; try congruence).
Qed.

(** Two contexts share a row only when their kinds and hints are the same. *)
Lemma context_key_inj c1 c2 c1' c2' :
  validate_context c1 = Ok c1' -> validate_context c2 = Ok c2' -> context_key c1' = context_key c2' ->
  cx_kind c1' = cx_kind c2' /\ platform_hint c1' = platform_hint c2'.
Proof.
  intros (-> & _ & Hu1)%validate_context_key (-> & _ & Hu2)%validate_context_key [= Hk Hh]. simpl in *.
  split; [by destruct (cx_kind c1), (cx_kind c2)|]. by rewrite <- Hu1, <- Hu2, Hh.
Qed.

Lemma context_repr_inv k : context_from_repr (context_to_repr k) = Ok k.
Proof. by destruct k. Qed.
Lemma authority_repr_inv k : authority_from_repr (authority_to_repr k) = Ok k.
Proof. by destruct k. Qed.

(** A row that was written is read back. *)
Lemma decode_authority_row c c' a now :
  validate_context c = Ok c' ->
  decode_row (context_key c').1 (context_key c').2 (authority_row a now)
  = Ok (mkEntry CAPTURE_AUTHORITY_SCHEMA_VERSION_MAX
          (mkContext CAPTURE_AUTHORITY_SCHEMA_VERSION_MAX (cx_kind c') (platform_hint c'))
          (mkAuthority CAPTURE_AUTHORITY_SCHEMA_VERSION_MAX (ca_kind a) (component_id a) (component_version a)) now).
Proof.
  intros (-> & _ & Hu)%validate_context_key. unfold decode_row. simpl.
  rewrite context_repr_inv. simpl. rewrite authority_repr_inv. simpl. by rewrite Hu.
Qed.

Lemma decode_existing c c' r old :
  validate_context c = Ok c' -> existing_authority r = Ok old ->
  exists e, decode_row (context_key c').1 (context_key c').2 r = Ok e /\ ce_authority e = old.
Proof.
  intros (-> & _ & Hu)%validate_context_key. unfold existing_authority, decode_row. simpl.
  destruct (u16_try_from _); simpl; [|done]. destruct (_ <? _); [done|].
  rewrite context_repr_inv. simpl. destruct (authority_from_repr _); [|done]. simpl. intros [= <-]. by eexists.
Qed.

Lemma same_payload_spec a b :
  same_payload a b = true <->
  ca_kind a = ca_kind b /\ component_id a = component_id b /\ component_version a = component_version b.
Proof. unfold same_payload. rewrite !andb_true_iff, !bool_decide_eq_true. tauto. Qed.

(** What a registration may do to the rows. *)
Definition registered (w : W) (a : CaptureAuthority) (key : ContextKey) (replace_existing : bool) (now : Z)
    (o : RegistrationOutcome) (rows' : gmap ContextKey AuthorityRow) : Prop :=
  let rows := rows_of w in
  match o with
  | Created => rows !! key = None /\ rows' = <[key := authority_row a now]> rows
  | NoOp old => rows' = rows /\ same_payload old a = true /\ exists r, rows !! key = Some r /\ existing_authority r = Ok old
  | Replaced old =>
      rows' = <[key := authority_row a now]> rows /\ replace_existing = true /\ same_payload old a = false
      /\ (exists r, rows !! key = Some r /\ existing_authority r = Ok old)
      /\ exists act, active (vault w) = Some act
         /\ (presence_is_fresh act (clock (2 + ticks w)%nat) = true
             \/ exists p, presence_verify (wall (3 + ticks w)%nat) (presence w) = (Ok tt, p))
  end.

(** Why a registration with valid inputs may be refused. *)
Definition refused (w : W) (a : CaptureAuthority) (key : ContextKey) (replace_existing : bool) (e : StoreError) : Prop :=
  exists r, rows_of w !! key = Some r
    /\ match existing_authority r with
       | Err e' => e = e'
       | Ok old =>
           same_payload old a = false
           /\ if replace_existing
              then match active (vault w) with
                   | None => e = NotUnlocked
                   | Some act =>
                       presence_is_fresh act (clock (2 + ticks w)%nat) = false
                       /\ exists err p, presence_verify (wall (3 + ticks w)%nat) (presence w) = (Err err, p)
                          /\ e = reveal_site_auth_error err
                   end
              else e = CaptureAuthorityExclusivity
       end.

Lemma register_in_tx_inv a key replace_existing (w1 : W) r w2 :
  capture_authority_register_in_tx clock wall a key replace_existing w1 = (r, w2) ->
  exists rows', db (vault w2) = with_rows rows' (db (vault w1))
    /\ forall w, vault w = vault w1 -> presence w = presence w1 -> ticks w1 = S (ticks w) ->
       match r with
       | Err e => rows' = rows_of w1 /\ refused w a key replace_existing e
       | Ok o => registered w a key replace_existing (unix_ms_of (wall (S (ticks w)))) o rows'
       end.
Proof.
  unfold capture_authority_register_in_tx, get_registry, unix_ms_now, gets, mbind, op_bind. simpl.
  assert (Hsame : with_rows (rows_of w1) (db (vault w1)) = db (vault w1)) by apply with_rows_same.
  destruct (registry (tables (db (vault w1))) !! key) as [row|] eqn:Hr.
  - unfold lift. destruct (existing_authority row) as [old|e] eqn:He.
    2:{ intros [= <- <-]. exists (rows_of w1). split; [done|]. intros w Hv _ _. split; [done|].
        exists row. rewrite He. unfold rows_of. by rewrite Hv. }
    destruct (same_payload old a) eqn:Hp.
    { intros [= <- <-]. exists (rows_of w1). split; [done|]. intros w Hv _ _.
      unfold registered, rows_of. rewrite Hv. split_and!; try done. by exists row. }
    destruct replace_existing; simpl.
    2:{ intros [= <- <-]. exists (rows_of w1). split; [done|]. intros w Hv _ _. split; [done|].
        exists row. rewrite He. unfold rows_of. by rewrite Hv. }
    set (wt := mkWorld _ _ _). pose proof (ensure_presence_db wt) as Hd.
    pose proof (ensure_presence_fresh_eq clock wall wt) as Hq. simpl in Hq.
    destruct (ensure_presence_fresh clock wall wt) as [[[]|e] w3]; simpl in Hd; intros [= <- <-].
    + eexists (<[key := authority_row a _]> (rows_of w1)). split; [simpl; by rewrite Hd|].
      intros w Hv Hp' Ht. unfold registered, rows_of. rewrite Hv, Ht in *. split_and!; [done..|by exists row|].
      destruct (active (vault w1)) as [act|]; [|done]. exists act. split; [done|]. simpl.
      destruct (presence_is_fresh act _) eqn:Hf; [by left|right]. rewrite Hp'.
      destruct (presence_verify _ _) as [[[]|] p]; [|done]. by exists p.
    + exists (rows_of w1). rewrite Hd. split; [done|]. intros w Hv Hp' Ht. split; [done|].
      exists row. rewrite He. unfold rows_of. rewrite Hv, Ht in *. split_and!; try done.
      destruct (active (vault w1)) as [act|]; [|by simplify_eq]. simpl. rewrite Hp'.
      destruct (presence_is_fresh act _); [done|]. split; [done|].
      destruct (presence_verify _ _) as [[[]|err] p]; [done|]. exists err, p. by simplify_eq.
  - intros [= <- <-]. eexists (<[key := authority_row a _]> (rows_of w1)). split; [done|].
    intros w Hv _ Ht. unfold registered, rows_of. rewrite Hv, Ht. by split.
Qed.

Lemma registered_readable (w : W) a c c' replace_existing now o rows' :
  validate_context c = Ok c' -> registered w a (context_key c') replace_existing now o rows' ->
  exists row entry, rows' !! context_key c' = Some row
    /\ decode_row (context_key c').1 (context_key c').2 row = Ok entry
    /\ same_payload (ce_authority entry) a = true.
Proof.
  intros Hc Hreg.
  assert (Hwritten : rows' = <[context_key c' := authority_row a now]> (rows_of w) ->
    exists row entry, rows' !! context_key c' = Some row
      /\ decode_row (context_key c').1 (context_key c').2 row = Ok entry
      /\ same_payload (ce_authority entry) a = true).
  { intros ->. rewrite lookup_insert_eq. do 2 eexists. split; [done|]. split; [by apply decode_authority_row with c|].
    by apply same_payload_spec. }
  unfold registered in Hreg. destruct o as [|old|old].
  - apply Hwritten, Hreg.
  - apply Hwritten, Hreg.
  - destruct Hreg as (-> & Hp & r & Hr & He). destruct (decode_existing _ _ _ _ Hc He) as (e & Hd & Ha).
    exists r, e. split; [done|]. split; [done|]. by rewrite Ha.
Qed.

(** C33. [capture_authority_register]: a call that succeeds does so in a live session, with an
    authority and a context that are valid; it adds the row when the context had none, leaves the
    table alone when the row there has the same payload, and otherwise replaces it, which takes
    [replace_existing] and a fresh or verified presence proof; the row of the context then reads
    back with the payload registered.  A call that fails leaves every table as it was, and fails
    for one of the reasons the code has.  No other row and no other table changes in any case. *)
Theorem capture_register_exact a c replace_existing (w : W) r w' :
  capture_authority_register clock wall nfc a c replace_existing w = (r, w') ->
  exists rows', db (vault w') = with_rows rows' (db (vault w))
    /\ match r with
       | Err e =>
           rows' = rows_of w
           /\ ((check_session_freshness clock w).1 = Err e
               \/ (e = CaptureAuthorityValidation /\ (is_ok (validate_authority nfc a) = false \/ is_ok (validate_context c) = false))
               \/ exists a' c', validate_authority nfc a = Ok a' /\ validate_context c = Ok c'
                    /\ refused w a' (context_key c') replace_existing e)
       | Ok o =>
           (exists e l s, session_state (vault w) = Active e l s /\ clock (ticks w) <= e)
           /\ exists a' c', validate_authority nfc a = Ok a' /\ validate_context c = Ok c'
              /\ registered w a' (context_key c') replace_existing (unix_ms_of (wall (S (ticks w)))) o rows'
              /\ exists row entry, rows' !! context_key c' = Some row
                 /\ decode_row (context_key c').1 (context_key c').2 row = Ok entry
                 /\ same_payload (ce_authority entry) a' = true
       end.
Proof.
  unfold capture_authority_register. rewrite op_bind_eq. pose proof (check_session_db w) as Hdb.
  destruct (check_session_freshness clock w) as [[[]|e] w1] eqn:Hs; simpl in Hdb.
  2:{ intros [= <- <-]. exists (rows_of w). rewrite with_rows_same. auto. }
  apply check_session_freshness_Ok in Hs as (Hact & Hw1).
  unfold lift. rewrite op_bind_eq. destruct (validate_authority nfc a) as [a'|e] eqn:Ha.
  2:{ intros [= <- <-]. exists (rows_of w). rewrite with_rows_same. split_and!; [done..|]. right; left.
      split; [by apply validate_authority_err in Ha|by left]. }
  rewrite op_bind_eq. destruct (validate_context c) as [c'|e] eqn:Hc.
  2:{ intros [= <- <-]. exists (rows_of w). rewrite with_rows_same. split_and!; [done..|]. right; left.
      split; [by apply validate_context_err in Hc|by right]. }
  unfold get_registry, gets. rewrite !op_bind_eq.
  destruct (capture_authority_register_in_tx _ _ _ _ _ w1) as [ro w2] eqn:Hin.
  destruct (register_in_tx_inv _ _ _ _ _ _ Hin) as (rows' & Hd & Hro).
  specialize (Hro w ltac:(by rewrite Hw1) ltac:(by rewrite Hw1) ltac:(by rewrite Hw1)). rewrite Hdb in Hd.
  destruct ro as [o|e].
  - rewrite op_bind_eq. destruct (touch_session_total clock w2) as (w3 & -> & _ & _ & Ht).
    intros [= <- <-]. exists rows'. rewrite Ht, Hd. split; [done|]. split; [done|]. exists a', c'.
    split_and!; [done..|]. by eapply registered_readable.
  - destruct Hro as [-> Href]. intros [= <- <-]. exists (rows_of w). simpl. rewrite Hd. unfold rows_of. rewrite Hw1.
    split; [done|]. split; [done|]. right; right. by exists a', c'.
Qed.

(** Clearing and registering again replaces a row without any presence proof. *)
Lemma clear_then_created a c a' c' (w : W) :
  validate_authority nfc a = Ok a' -> validate_context c = Ok c' -> rows_of w !! context_key c' = None ->
  is_ok (check_session_freshness clock w).1 = true ->
  (capture_authority_register clock wall nfc a c false w).1 = Ok Created.
Proof.
  intros Ha Hc Hn Hs. unfold capture_authority_register. rewrite op_bind_eq.
  destruct (check_session_freshness clock w) as [[[]|e] w1] eqn:E; [|done].
  apply check_session_freshness_Ok in E as (_ & ->).
  unfold lift. rewrite op_bind_eq, Ha, op_bind_eq, Hc. unfold get_registry, gets. rewrite !op_bind_eq.
  unfold capture_authority_register_in_tx, get_registry, unix_ms_now, gets. rewrite !op_bind_eq. simpl.
  unfold rows_of in Hn. rewrite Hn. unfold put_registry, modify. rewrite op_bind_eq. simpl. rewrite op_bind_eq.
  match goal with |- context [touch_session clock ?w2] => destruct (touch_session_total clock w2) as (w3 & -> & _) end.
  done.
Qed.

(** *** The rows stay readable *)

Definition readable (rows : gmap ContextKey AuthorityRow) : Prop :=
  map_Forall (fun k r => is_ok (decode_row k.1 k.2 r) = true) rows.

Lemma register_readable a c replace_existing (w : W) r w' :
  capture_authority_register clock wall nfc a c replace_existing w = (r, w') ->
  readable (rows_of w) -> readable (rows_of w').
Proof.
  unfold capture_authority_register. intros Hrun Hread.
  revert Hrun. rewrite op_bind_eq. pose proof (check_session_db w) as Hdb.
  destruct (check_session_freshness clock w) as [[[]|e] w1] eqn:Hs; simpl in Hdb;
    [|intros [= <- <-]; unfold rows_of; by rewrite Hdb].
  apply check_session_freshness_Ok in Hs as (_ & Hw1).
  unfold lift. rewrite op_bind_eq. destruct (validate_authority nfc a) as [a'|e]; [|intros [= <- <-]; unfold rows_of; by rewrite Hdb].
  rewrite op_bind_eq. destruct (validate_context c) as [c'|e] eqn:Hc; [|intros [= <- <-]; unfold rows_of; by rewrite Hdb].
  unfold get_registry, gets. rewrite !op_bind_eq.
  destruct (capture_authority_register_in_tx _ _ _ _ _ w1) as [ro w2] eqn:Hin.
  destruct (register_in_tx_inv _ _ _ _ _ _ Hin) as (rows' & Hd & Hro).
  specialize (Hro w ltac:(by rewrite Hw1) ltac:(by rewrite Hw1) ltac:(by rewrite Hw1)). rewrite Hdb in Hd.
  destruct ro as [o|e].
  - rewrite op_bind_eq. destruct (touch_session_total clock w2) as (w3 & -> & _ & _ & Ht). intros [= <- <-].
    unfold rows_of. rewrite Ht, Hd. simpl. unfold registered in Hro.
    assert (Hins : readable (<[context_key c' := authority_row a' (unix_ms_of (wall (S (ticks w))))]> (rows_of w))).
    { apply map_Forall_insert_2; [|done]. by rewrite (decode_authority_row c). }
    destruct o; [by destruct Hro as (_ & ->)|by destruct Hro as (-> & _)|by destruct Hro as (-> & _)].
  - intros [= <- <-]. unfold rows_of. simpl. by rewrite Hw1.
Qed.

Lemma clear_run c (w : W) r w' :
  capture_authority_clear clock c w = (r, w') ->
  match r with
  | Ok b => exists c', validate_context c = Ok c' /\ db (vault w') = with_rows (delete (context_key c') (rows_of w)) (db (vault w))
      /\ b = bool_decide (is_Some (rows_of w !! context_key c'))
  | Err _ => db (vault w') = db (vault w)
  end.
Proof.
  unfold capture_authority_clear. rewrite op_bind_eq. pose proof (check_session_db w) as Hdb.
  destruct (check_session_freshness clock w) as [[[]|e] w1] eqn:Hs; simpl in Hdb; [|by intros [= <- <-]].
  unfold lift. rewrite op_bind_eq. destruct (validate_context c) as [c'|e]; [|by intros [= <- <-]].
  unfold get_registry, gets, put_registry, modify. rewrite !op_bind_eq.
  match goal with |- context [touch_session clock ?w2] => destruct (touch_session_total clock w2) as (w3 & -> & _ & _ & Ht) end.
  intros [= <- <-]. exists c'. rewrite Ht. simpl. unfold rows_of. rewrite Hdb.
  split_and!; [done..|]. by destruct (registry (tables (db (vault w))) !! context_key c').
Qed.

Lemma clear_readable c (w : W) r w' :
  capture_authority_clear clock c w = (r, w') -> readable (rows_of w) -> readable (rows_of w').
Proof.
  intros Hr Hread. pose proof (clear_run _ _ _ _ Hr) as Hrun. destruct r as [b|e].
  - destruct Hrun as (c' & _ & Hd & _). unfold rows_of at 1. rewrite Hd. by apply map_Forall_delete.
  - unfold rows_of. by rewrite Hrun.
Qed.

Lemma collect_all {E A B} (f : A -> result E B) l :
  (forall x, x ∈ l -> is_ok (f x) = true) -> exists k, collect (f <$> l) = Ok k.
Proof.
  induction l as [|x l IH]; intros Hall; csimpl; [by exists []|].
  destruct IH as (k & ->); [intros y Hy; apply Hall; by right|].
  specialize (Hall x ltac:(left)). destruct (f x) as [b|]; [|done]. by exists (b :: k).
Qed.

(** Then the list of the registry fails for no reason but the session, and has every row. *)
Lemma list_readable (w : W) :
  readable (rows_of w) -> is_ok (check_session_freshness clock w).1 = true ->
  exists out w', capture_authority_list clock w = (Ok out, w') /\ length out = size (rows_of w).
Proof.
  intros Hread Hs. unfold capture_authority_list. rewrite op_bind_eq.
  destruct (check_session_freshness clock w) as [[[]|e] w1] eqn:E; [|done].
  apply check_session_freshness_Ok in E as (_ & ->). unfold gets. rewrite op_bind_eq. simpl.
  destruct (collect_all (fun kr => decode_row kr.1.1 kr.1.2 kr.2) (registry_rows (tables (db (vault w))))) as (out & Ec).
  { intros [k r] Hin. unfold registry_rows in Hin. rewrite (merge_sort_Permutation _ _), elem_of_map_to_list in Hin.
    by apply (Hread k r). }
  rewrite Ec. unfold lift. rewrite !op_bind_eq.
  match goal with |- context [touch_session clock ?w2] => destruct (touch_session_total clock w2) as (w3 & -> & _) end.
  exists out, w3. split; [done|]. apply collect_Forall2, Forall2_length in Ec. rewrite <- Ec.
  unfold registry_rows. rewrite (Permutation_length (merge_sort_Permutation _ _)). apply length_map_to_list.
Qed.

(** *** Device labels *)

Lemma device_set_label_run id label (w : W) u w' :
  device_set_label clock nfc id label w = (Ok u, w') ->
  exists canonical r, validate_label nfc label = Ok canonical /\ device_rows (store (db (vault w))) !! id = Some r
    /\ is_Some (active (vault w))
    /\ db (vault w') = set_store (set_devices (<[id := set_dev_label canonical r]> (device_rows (store (db (vault w)))))
         (store (db (vault w)))) (db (vault w)).
Proof.
  unfold device_set_label. rewrite op_bind_eq.
  destruct (check_session_freshness clock w) as [[[]|e] w1] eqn:Hs; [|done].
  apply check_session_freshness_Ok in Hs as (_ & ->).
  unfold require_active, gets, lift, modify, mbind, op_bind. cbn.
  destruct (active (vault w)) as [ac|]; [|done]. cbn.
  destruct (validate_label nfc label) as [canonical|]; [|done]. unfold set_device_label. cbn.
  destruct (device_rows (store (db (vault w))) !! id) as [r|]; [|done]. cbn.
  match goal with |- context [touch_session clock ?w2] => destruct (touch_session_total clock w2) as (w3 & -> & _ & _ & Ht) end.
  intros [= _ <-]. exists canonical, r. rewrite Ht. split_and!; try done.
Qed.
End facts.

(** ** Examples *)

Module RegistriesSample.

Notation W := (World (KeyDb Tables) unit Z unit PressYPresenceProof).

Definition sample_clock (k : nat) : Z := from_secs (1000 + Z.of_nat k).
Definition empty_database : Database := mkDatabase ∅ ∅ ∅ ∅ None None None 0.
Definition sample_meta : VaultMeta := mkVaultMeta 5 0 RECOMMENDED 0 (WrapContext_new 5) [] 0.

(** A session whose presence proof is [age] seconds old when the first clock is read. *)
Definition sample_session (age : Z) : ActiveState unit Z unit :=
  mkActiveState 77 (mkVdkChain ∅ 0) ∅ tt 1 2 (Some (from_secs (1000 - age))) ∅ None false false None.
Definition sample_store : Store :=
  mkStore None None ∅ None ∅ None {[ 9 := mkDeviceRow (bytes_of "laptop") 3 None None ]} ∅.
Definition sample_world (age : Z) (confirmed : bool) (rows : gmap ContextKey AuthorityRow) : W :=
  mkWorld (mkVault (Active (from_secs 1900) 0 0) (Some (sample_session age)) Min15 None 9
             (mkKeyDb sample_store sample_meta 0%nat (mkDeviceTables ∅ ∅) (mkTables empty_database rows)))
    (mkPressY (from_secs 1000) (negb confirmed)) 0%nat.

Definition extension (id : string) : CaptureAuthority := mkAuthority 1 BrowserExtension (bytes_of id) (bytes_of "1.2").
Definition chrome : CaptureContext := mkContext 1 Browser (Some (bytes_of "chrome")).
Definition old_row : AuthorityRow := authority_row (extension "com.old") 7.
Definition old_rows : gmap ContextKey AuthorityRow := {[ context_key chrome := old_row ]}.

Notation register := (capture_authority_register sample_clock sample_clock id).

(** A first registration, the same again, another without and with [replace_existing], and
    the last with a proof that was used up. *)
Example registration_outcomes :
  (register (extension "com.new") chrome false (sample_world 500 true ∅)).1 = Ok Created
  /\ (register (extension "com.old") chrome false (sample_world 500 true old_rows)).1 = Ok (NoOp (extension "com.old"))
  /\ (register (extension "com.new") chrome false (sample_world 500 true old_rows)).1 = Err CaptureAuthorityExclusivity
  /\ (register (extension "com.new") chrome true (sample_world 500 true old_rows)).1 = Ok (Replaced (extension "com.old"))
  /\ is_ok (register (extension "com.new") chrome true (sample_world 500 false old_rows)).1 = false
  /\ (register (extension "com.new") chrome true (sample_world 10 false old_rows)).1 = Ok (Replaced (extension "com.old")).
Proof. vm_compute. split_and!; reflexivity. Qed.

(** The registry is listed in the order of the kinds, then of the hints. *)
Example sample_list :
  let ids := fun w => match (capture_authority_list sample_clock w).1 with Ok l => (fun e => component_id (ce_authority e)) <$> l | Err _ => [] end in
  let w1 := (register (extension "b") (mkContext 1 Browser (Some (bytes_of "firefox"))) false (sample_world 0 true old_rows)).2 in
  let w2 := (register (extension "c") (mkContext 1 ContextDesktop None) false w1).2 in
  ids w2 = [bytes_of "c"; bytes_of "com.old"; bytes_of "b"].
Proof. vm_compute. reflexivity. Qed.

(** Clearing asks for no presence, so a helper is exchanged without it in two calls. *)
Example exchanged_without_presence :
  let w1 := (capture_authority_clear sample_clock chrome (sample_world 500 false old_rows)).2 in
  (register (extension "com.new") chrome false w1).1 = Ok Created
  /\ rows_of (register (extension "com.new") chrome false w1).2 !! context_key chrome
     = Some (authority_row (extension "com.new") (unix_ms_of (sample_clock 3))).
Proof. vm_compute. split; reflexivity. Qed.

Example sample_labels :
  validate_label id (bytes_of "  my laptop ") = Ok (bytes_of "my laptop")
  /\ is_ok (validate_label id (bytes_of "   ")) = false
  /\ (device_set_label sample_clock id 9 (bytes_of " desk ") (sample_world 0 true ∅)).1 = Ok tt
  /\ (device_set_label sample_clock id 8 (bytes_of " desk ") (sample_world 0 true ∅)).1 = Err AccountNotFound.
Proof. vm_compute. split_and!; reflexivity. Qed.

Lemma capture_register_exact_witness :
  exists w', register (extension "com.new") chrome true (sample_world 500 true old_rows) = (Ok (Replaced (extension "com.old")), w')
    /\ rows_of w' = <[context_key chrome := authority_row (extension "com.new") (unix_ms_of (sample_clock 1))]> old_rows.
Proof.
  destruct (register (extension "com.new") chrome true (sample_world 500 true old_rows)) as [r w'] eqn:Hr.
  assert (Hok : r = Ok (Replaced (extension "com.old"))) by (change r with (fst (r, w')); rewrite <- Hr; vm_compute; reflexivity).
  rewrite Hok in *. exists w'. split; [reflexivity|].
  destruct (capture_register_exact sample_clock sample_clock id (extension "com.new") chrome true (sample_world 500 true old_rows) _ w' Hr)
    as (rows' & Hd & _ & a' & c' & Ha & Hc & (-> & _) & _).
  unfold rows_of at 1. rewrite Hd. vm_compute in Ha, Hc. injection Ha as <-. injection Hc as <-. reflexivity.
Defined.
End RegistriesSample.
