(* ===== verification/Export.v ===== *)
(** * The encrypted vault archive

    crates/pangolin-store/src/export.rs: the plaintext header with its gates, the CBOR
    snapshot, sealing and opening under an export passphrase, and the cleartext dump.

    The key derivation, the AEAD and the CBOR headers are those of [RecoveryBackup] and
    [Cbor].  A reader allocates the buffer of a string before it reads it; the vectors
    that are reserved for at most 4096 items are not counted. *)

From Stdlib Require Import String.
From S2P Require Import Prelude Bytes Text Cbor SeedPhrase RecoveryBackup StoreError Totp Account Payload Registries.
Open Scope Z_scope.

(** ** Constants *)

Definition ARCHIVE_MAGIC : list Z := bytes_of "PANGOLIN-VEA".
Definition ARCHIVE_FORMAT_VERSION : Z := 1.
Definition ARCHIVE_SNAPSHOT_SCHEMA_VERSION : Z := 2.
Definition KDF_ALGO_ARGON2ID : Z := 1.
Definition MAX_CIPHERTEXT_LEN : Z := 256 * 1024 * 1024.
Definition MAX_KDF_MEMORY_KIB : Z := 1024 * 1024.
Definition MAX_KDF_TIME_COST : Z := 8.
Definition MAX_KDF_PARALLELISM : Z := 8.
Definition MAX_KDF_MEMORY_KIB_TIME_COST_PRODUCT : Z := 3 * 1024 * 1024.
Definition ARCHIVE_HEADER_LEN : nat := length ARCHIVE_MAGIC + 1 + 1 + 4 + 4 + 4 + SALT_LEN + NONCE_LEN + 8.
Definition MAX_BLOB_LEN : Z := 64 * 1024 * 1024.
Definition MAX_ITEMS : Z := 2000000.

Definition fmt_err : StoreError := Validation "export_format".
Definition cbor_err : StoreError := Validation "export_format".
Definition credentials_err : StoreError := Validation "export_credentials".
Definition internal_err : StoreError := Validation "export_internal".

(** ** The contents *)

Record ArchiveHeader : Type := mkArchiveHeader {
  format_version : Z;
  kdf_algo_id : Z;
  ah_kdf_params : KdfParams;
  ah_salt : list Z;
  ah_nonce : list Z;
  ah_ct_len : Z
}.

Record ArchivedPasswordEntry : Type := mkArchivedEntry {
  ae_password : list Z;
  ae_set_at_ms : Z;
  ae_originating_device : Z
}.

Record ArchivedAccount : Type := mkArchivedAccount {
  aa_account_id : Z;
  aa_created_at_ms : Z;
  aa_display_name : list Z;
  aa_tags : list (list Z);
  aa_urls : list (list Z);
  aa_usernames : list (list Z);
  aa_notes : list Z;
  aa_password_history : list ArchivedPasswordEntry;
  aa_totp_secret : list Z;
  aa_totp_params : TotpParams
}.

Record ArchivedDevice : Type := mkArchivedDevice { ad_device_id : Z; ad_label : list Z; ad_added_at_ms : Z }.

Record ArchiveSnapshot : Type := mkArchive {
  ar_snapshot_schema : Z;
  exported_at : Z;
  source_device_id : Z;
  ar_vault_id : Z;
  ar_session_idle_secs : option Z;
  ar_accounts : list ArchivedAccount;
  ar_devices : list ArchivedDevice;
  capture_authorities : list CapturedCaptureAuthority
}.

(** ** The header *)

Definition to_bytes (h : ArchiveHeader) : list Z :=
  ARCHIVE_MAGIC ++ [format_version h] ++ [kdf_algo_id h] ++ to_be_bytes 4 (memory_kib (ah_kdf_params h))
  ++ to_be_bytes 4 (time_cost (ah_kdf_params h)) ++ to_be_bytes 4 (parallelism (ah_kdf_params h))
  ++ ah_salt h ++ ah_nonce h ++ to_be_bytes 8 (ah_ct_len h).

(** Where the cursor of the parser is after each field. *)
Definition AT_VERSION : nat := length ARCHIVE_MAGIC.
Definition AT_ALGO : nat := AT_VERSION + 1.
Definition AT_MEMORY : nat := AT_ALGO + 1.
Definition AT_TIME : nat := AT_MEMORY + 4.
Definition AT_PARALLELISM : nat := AT_TIME + 4.
Definition AT_SALT : nat := AT_PARALLELISM + 4.
Definition AT_NONCE : nat := AT_SALT + SALT_LEN.
Definition AT_CT_LEN : nat := AT_NONCE + NONCE_LEN.

Definition kdf_unsupported (p : KdfParams) : bool :=
  negb (is_ok (RecoveryBackup.validate p))
  || (MAX_KDF_MEMORY_KIB <? memory_kib p) || (MAX_KDF_TIME_COST <? time_cost p)
  || (MAX_KDF_PARALLELISM <? parallelism p)
  || (MAX_KDF_MEMORY_KIB_TIME_COST_PRODUCT <? Z.min U64_MAX (memory_kib p * time_cost p)).

Definition parse (bytes : list Z) : store_result (ArchiveHeader * list Z) :=
  if (length bytes <? ARCHIVE_HEADER_LEN)%nat then Err fmt_err
  else
    let header_bytes := take ARCHIVE_HEADER_LEN bytes in
    let rest := drop ARCHIVE_HEADER_LEN bytes in
    if negb (bool_decide (take (length ARCHIVE_MAGIC) header_bytes = ARCHIVE_MAGIC)) then Err fmt_err
    else if negb (byte_at AT_VERSION header_bytes =? ARCHIVE_FORMAT_VERSION) then Err fmt_err
    else if negb (byte_at AT_ALGO header_bytes =? KDF_ALGO_ARGON2ID) then Err fmt_err
    else
      let kdf_params := mkKdfParams (u32_at AT_MEMORY header_bytes) (u32_at AT_TIME header_bytes)
                          (u32_at AT_PARALLELISM header_bytes) in
      if kdf_unsupported kdf_params then Err fmt_err
      else
        let ct_len := be_value (slice AT_CT_LEN 8 header_bytes) in
        if MAX_CIPHERTEXT_LEN <? ct_len then Err fmt_err
        else if negb (Z.of_nat (length rest) =? ct_len) then Err fmt_err
        else Ok (mkArchiveHeader (byte_at AT_VERSION header_bytes) (byte_at AT_ALGO header_bytes) kdf_params
                   (slice AT_SALT SALT_LEN header_bytes) (slice AT_NONCE NONCE_LEN header_bytes) ct_len, rest).

(** ** The CBOR snapshot *)

Section snapshot.
Context `{!Cbor.Cbor} (memory : Z).

Definition put_int (v : Z) : list Z := if 0 <=? v then push (Positive v) else push (Negative (-1 - v)).

Definition put_id (x : Z) : list Z := put_bytes (to_be_bytes 32 x).

Definition put_idle (session_idle_secs : option Z) : list Z :=
  push (ArrayHeader (Some 2)) ++
  match session_idle_secs with
  | Some v => push (SimpleHeader simple_TRUE) ++ put_int v
  | None => push (SimpleHeader simple_FALSE) ++ put_int 0
  end.

Definition put_entry (e : ArchivedPasswordEntry) : list Z :=
  push (ArrayHeader (Some 3)) ++ put_bytes (ae_password e) ++ put_int (ae_set_at_ms e) ++ put_id (ae_originating_device e).

Definition put_totp (secret : list Z) (p : TotpParams) : list Z :=
  push (ArrayHeader (Some 4)) ++ put_bytes secret ++ push (Positive (to_wire (algorithm p)))
  ++ push (Positive (digits p)) ++ push (Positive (period_seconds p)).

Definition put_account (a : ArchivedAccount) : list Z :=
  push (ArrayHeader (Some 9)) ++ put_id (aa_account_id a) ++ put_int (aa_created_at_ms a) ++ put_bytes (aa_display_name a)
  ++ put_items put_bytes (aa_tags a) ++ put_items put_bytes (aa_urls a) ++ put_items put_bytes (aa_usernames a)
  ++ put_bytes (aa_notes a) ++ put_items put_entry (aa_password_history a)
  ++ put_totp (aa_totp_secret a) (aa_totp_params a).

Definition put_device (d : ArchivedDevice) : list Z :=
  push (ArrayHeader (Some 3)) ++ put_id (ad_device_id d) ++ put_text (ad_label d) ++ put_int (ad_added_at_ms d).

Definition put_authority (c : CapturedCaptureAuthority) : list Z :=
  push (ArrayHeader (Some 7)) ++ put_int (cc_context_kind c) ++ put_text (cc_platform_hint c)
  ++ put_int (ar_authority_kind (cc_row c)) ++ put_text (ar_component_id (cc_row c))
  ++ put_text (ar_component_version (cc_row c)) ++ put_int (ar_registered_at (cc_row c))
  ++ push (Positive (ar_schema_version (cc_row c))).

Definition encode_snapshot (snap : ArchiveSnapshot) : list Z :=
  push (ArrayHeader (Some 8)) ++ push (Positive (ar_snapshot_schema snap)) ++ put_int (exported_at snap)
  ++ put_id (source_device_id snap) ++ put_id (ar_vault_id snap) ++ put_idle (ar_session_idle_secs snap)
  ++ put_items put_account (ar_accounts snap) ++ put_items put_device (ar_devices snap)
  ++ put_items put_authority (capture_authorities snap).

Definition pull_header : reader StoreError Header := Cbor.pull_header cbor_err.

Definition expect_array (want : Z) : reader StoreError unit :=
  h ← pull_header;
  match h with ArrayHeader (Some n) => if n =? want then mret tt else fail cbor_err | _ => fail cbor_err end.

Definition pull_array_len : reader StoreError Z :=
  h ← pull_header; match h with ArrayHeader (Some n) => mret n | _ => fail cbor_err end.

Definition pull_uint : reader StoreError Z :=
  h ← pull_header; match h with Positive v => mret v | _ => fail cbor_err end.

Definition pull_int : reader StoreError Z :=
  h ← pull_header;
  match h with
  | Positive v => of_result (ok_or (i64_try_from v) cbor_err)
  | Negative v => n ← of_result (ok_or (i64_try_from v) cbor_err); mret (-1 - n)
  | _ => fail cbor_err
  end.

Definition pull_bool : reader StoreError bool :=
  h ← pull_header;
  match h with
  | SimpleHeader s => if s =? simple_TRUE then mret true else if s =? simple_FALSE then mret false else fail cbor_err
  | _ => fail cbor_err
  end.

Definition pull_bytes : reader StoreError (list Z) :=
  h ← pull_header;
  match h with
  | BytesHeader (Some len) => if MAX_BLOB_LEN <? len then fail cbor_err else read_buffer memory cbor_err len
  | _ => fail cbor_err
  end.

Definition pull_text : reader StoreError (list Z) :=
  h ← pull_header;
  match h with
  | TextHeader (Some len) =>
      if MAX_BLOB_LEN <? len then fail cbor_err
      else buf ← read_buffer memory cbor_err len; if utf8 buf then mret buf else fail cbor_err
  | _ => fail cbor_err
  end.

Definition pull_array32 : reader StoreError Z :=
  b ← pull_bytes; if (length b =? 32)%nat then mret (be_value b) else fail cbor_err.

(** A number of items, and the items. *)
Definition pull_items {A} (item : reader StoreError A) : reader StoreError (list A) :=
  n ← pull_array_len; if MAX_ITEMS <? n then fail cbor_err else read_items (Z.to_nat n) item.

Definition pull_secret_bytes_vec : reader StoreError (list (list Z)) := pull_items pull_bytes.

Definition pull_entry : reader StoreError ArchivedPasswordEntry :=
  expect_array 3 ≫= fun _ =>
  password ← pull_bytes;
  set_at_ms ← pull_int;
  dev ← pull_array32;
  mret (mkArchivedEntry password set_at_ms dev).

Definition pull_totp : reader StoreError (list Z * TotpParams) :=
  expect_array 4 ≫= fun _ =>
  totp_secret ← pull_bytes;
  algo_u ← pull_uint;
  algo_w ← of_result (ok_or (u8_try_from algo_u) cbor_err);
  algo ← of_result (map_err (fun _ => cbor_err) (from_wire algo_w));
  digits_u ← pull_uint;
  digits ← of_result (ok_or (u8_try_from digits_u) cbor_err);
  period_u ← pull_uint;
  period_seconds ← of_result (ok_or (u32_try_from period_u) cbor_err);
  mret (totp_secret, mkTotpParams algo digits period_seconds).

Definition decode_account : reader StoreError ArchivedAccount :=
  expect_array 9 ≫= fun _ =>
  account_id ← pull_array32;
  created_at_ms ← pull_int;
  display_name ← pull_bytes;
  tags ← pull_secret_bytes_vec;
  urls ← pull_secret_bytes_vec;
  usernames ← pull_secret_bytes_vec;
  notes ← pull_bytes;
  password_history ← pull_items pull_entry;
  totp ← pull_totp;
  mret (mkArchivedAccount account_id created_at_ms display_name tags urls usernames notes password_history totp.1 totp.2).

Definition pull_device : reader StoreError ArchivedDevice :=
  expect_array 3 ≫= fun _ =>
  device_id ← pull_array32;
  label ← pull_text;
  added_at_ms ← pull_int;
  mret (mkArchivedDevice device_id label added_at_ms).

Definition pull_authority : reader StoreError CapturedCaptureAuthority :=
  expect_array 7 ≫= fun _ =>
  context_kind ← pull_int;
  platform_hint ← pull_text;
  authority_kind ← pull_int;
  component_id ← pull_text;
  component_version ← pull_text;
  registered_at ← pull_int;
  sv_u ← pull_uint;
  sv ← of_result (ok_or (u16_try_from sv_u) cbor_err);
  mret (mkCaptured context_kind platform_hint (mkAuthorityRow authority_kind component_id component_version registered_at sv)).

Definition pull_idle : reader StoreError (option Z) :=
  expect_array 2 ≫= fun _ =>
  present ← pull_bool;
  idle_val ← pull_int;
  mret (if present : bool then Some idle_val else None).

Definition read_snapshot : reader StoreError ArchiveSnapshot :=
  top_len ← pull_array_len;
  if negb ((top_len =? 7) || (top_len =? 8)) then fail cbor_err
  else
    schema_version_u ← pull_uint;
    schema_version ← of_result (ok_or (u16_try_from schema_version_u) cbor_err);
    if negb ((top_len =? 7) && (schema_version =? 1) || (top_len =? 8) && (schema_version =? 2)) then fail cbor_err
    else
      exported_at ← pull_int;
      source_device_id ← pull_array32;
      vault_id ← pull_array32;
      session_idle_secs ← pull_idle;
      accounts ← pull_items decode_account;
      devices ← pull_items pull_device;
      capture_authorities ← (if top_len =? 8 then pull_items pull_authority else mret []);
      mret (mkArchive schema_version exported_at source_device_id vault_id session_idle_secs
              accounts devices capture_authorities).

(** What follows the snapshot is not looked at. *)
Definition decode_snapshot (buf : list Z) : result (failure StoreError) ArchiveSnapshot :=
  '(snap, _) ← read_snapshot buf; Ok snap.
End snapshot.

(** ** Sealing and opening *)

Section archive.
Context {Key : Type} `{!Cbor.Cbor} (memory : Z).
Context (argon2id : list Z -> list Z -> KdfParams -> option Key).
Context (aead_seal : Key -> list Z -> list Z -> list Z -> option (list Z))
        (aead_open : Key -> list Z -> list Z -> list Z -> option (list Z)).

(** The salt and the nonce are random. *)
Definition seal_archive (salt nonce : list Z) (passphrase plaintext : list Z) : store_result (list Z) :=
  key ← map_err (fun _ => internal_err) (derive_key argon2id passphrase salt RECOMMENDED);
  ct_len_guess ← ok_or (u64_try_from (Z.of_nat (length plaintext) + 16)) internal_err;
  let header := mkArchiveHeader ARCHIVE_FORMAT_VERSION KDF_ALGO_ARGON2ID RECOMMENDED salt nonce ct_len_guess in
  let aad := to_bytes header in
  ct ← ok_or (aead_seal key nonce plaintext aad) internal_err;
  Ok (aad ++ ct).

Definition decode_archive (bytes passphrase : list Z) : result (failure StoreError) ArchiveSnapshot :=
  plain ← map_err Failed
    ('(header, ct_region) ← parse bytes;
     key ← map_err (fun _ => internal_err) (derive_key argon2id passphrase (ah_salt header) (ah_kdf_params header));
     ok_or (aead_open key (ah_nonce header) ct_region (to_bytes header)) credentials_err);
  decode_snapshot memory plain.
End archive.

(** ** The cleartext dump *)

Definition text_line (parts : list (list Z)) : list Z := mjoin parts ++ [10].

(** The hexadecimal digit of [v], in lower case. *)
Definition hex_char (v : Z) : Z := if v <? 10 then 48 + v else 87 + v.

(** One character of a string between quotes; the bytes of longer characters are above 127. *)
Definition esc_char (b : Z) : list Z :=
  if b =? 34 then [92; 34]
  else if b =? 92 then [92; 92]
  else if b =? 10 then bytes_of "\n"
  else if b =? 13 then bytes_of "\r"
  else if b =? 9 then bytes_of "\t"
  else if b <? 32 then bytes_of "\u00" ++ [hex_char (b / 16); hex_char (b mod 16)]
  else [b].

Definition json_esc (s : list Z) : list Z := mjoin (esc_char <$> from_utf8_lossy s).
Definition hex32 (x : Z) : list Z := mjoin ((fun b => [hex_char (b / 16); hex_char (b mod 16)]) <$> to_be_bytes 32 x).
Definition int_text (v : Z) : list Z := if v <? 0 then 45 :: decimal 20 (- v) else decimal 20 v.
Definition quoted (s : list Z) : list Z := [34] ++ s ++ [34].

(** The items with [sep] between them. *)
Fixpoint intersperse (sep : list Z) (l : list (list Z)) : list Z :=
  match l with [] => [] | [x] => x | x :: l => x ++ sep ++ intersperse sep l end.

Definition json_str_array (l : list (list Z)) : list Z :=
  bytes_of "[" ++ intersperse (bytes_of ", ") ((fun v => quoted (json_esc v)) <$> l) ++ bytes_of "]".

Definition PLAINTEXT_EXPORT_BANNER : list Z :=
  bytes_of "*** WARNING: THIS FILE CONTAINS YOUR VAULT PASSWORDS IN CLEARTEXT ***".

(** A member of an object: its name, and its value as it is printed. *)
Definition member (name : string) (v : list Z) : list Z := quoted (bytes_of name) ++ bytes_of ": " ++ v.
Definition indented (n : nat) (v : list Z) (tail : string) : list Z := text_line [replicate n 32; v; bytes_of tail].

Definition algorithm_str (a : TotpAlgorithm) : list Z :=
  bytes_of match a with Sha1 => "SHA1" | Sha256 => "SHA256" | Sha512 => "SHA512" end.

Definition render_entry (e : ArchivedPasswordEntry) : list Z :=
  bytes_of "        { " ++ member "password" (quoted (json_esc (ae_password e))) ++ bytes_of ", "
  ++ member "set_at_ms" (int_text (ae_set_at_ms e)) ++ bytes_of ", "
  ++ member "originating_device" (quoted (hex32 (ae_originating_device e))) ++ bytes_of " }".

(** Every item on a line, with a comma after all but the last. *)
Definition lines {A} (render : A -> list Z) (l : list A) : list Z :=
  match l with [] => [] | _ => intersperse [44; 10] (render <$> l) ++ [10] end.

Definition render_plaintext_account (a : ArchivedAccount) : list Z :=
  indented 6 (member "account_id" (quoted (hex32 (aa_account_id a)))) ","
  ++ indented 6 (member "created_at_ms" (int_text (aa_created_at_ms a))) ","
  ++ indented 6 (member "display_name" (quoted (json_esc (aa_display_name a)))) ","
  ++ indented 6 (member "tags" (json_str_array (aa_tags a))) ","
  ++ indented 6 (member "urls" (json_str_array (aa_urls a))) ","
  ++ indented 6 (member "usernames" (json_str_array (aa_usernames a))) ","
  ++ indented 6 (member "notes" (quoted (json_esc (aa_notes a)))) ","
  ++ indented 6 (member "password_history" (bytes_of "[")) EmptyString
  ++ lines render_entry (aa_password_history a)
  ++ indented 6 (bytes_of "]") ","
  ++ indented 6 (member "totp_secret" (quoted (json_esc (aa_totp_secret a)))) ","
  ++ indented 6 (member "totp_params" (bytes_of "{ " ++ member "algorithm" (quoted (algorithm_str (algorithm (aa_totp_params a))))
       ++ bytes_of ", " ++ member "digits" (int_text (digits (aa_totp_params a))) ++ bytes_of ", "
       ++ member "period_seconds" (int_text (period_seconds (aa_totp_params a))) ++ bytes_of " }")) EmptyString.

Definition render_device (d : ArchivedDevice) : list Z :=
  bytes_of "    { " ++ member "device_id" (quoted (hex32 (ad_device_id d))) ++ bytes_of ", "
  ++ member "label" (quoted (json_esc (ad_label d))) ++ bytes_of ", "
  ++ member "added_at_ms" (int_text (ad_added_at_ms d)) ++ bytes_of " }".

Definition render_plaintext (snap : ArchiveSnapshot) : list Z :=
  text_line [bytes_of "// "; PLAINTEXT_EXPORT_BANNER]
  ++ text_line [bytes_of "// Anyone who can read this file can read every password in your vault."]
  ++ text_line [bytes_of "// Store it nowhere; delete it as soon as you no longer need it."]
  ++ text_line [bytes_of "{"]
  ++ indented 2 (member "WARNING" (quoted PLAINTEXT_EXPORT_BANNER)) ","
  ++ indented 2 (member "schema_version" (int_text (ar_snapshot_schema snap))) ","
  ++ indented 2 (member "exported_at" (int_text (exported_at snap))) ","
  ++ indented 2 (member "source_device_id" (quoted (hex32 (source_device_id snap)))) ","
  ++ indented 2 (member "vault_id" (quoted (hex32 (ar_vault_id snap)))) ","
  ++ indented 2 (member "session_idle_secs" match ar_session_idle_secs snap with None => bytes_of "null" | Some v => int_text v end) ","
  ++ indented 2 (member "accounts" (bytes_of "[")) EmptyString
  ++ lines (fun a => indented 4 (bytes_of "{") EmptyString ++ render_plaintext_account a ++ bytes_of "    }") (ar_accounts snap)
  ++ indented 2 (bytes_of "]") ","
  ++ indented 2 (member "devices" (bytes_of "[")) EmptyString
  ++ lines render_device (ar_devices snap)
  ++ indented 2 (bytes_of "]") EmptyString
  ++ text_line [bytes_of "}"].

(** ** Selections *)

Inductive AccountSelection : Type := AllAccounts | Subset (ids : list Z).

Definition includes (s : AccountSelection) (id : Z) : bool :=
  match s with AllAccounts => true | Subset ids => bool_decide (id ∈ ids) end.

Record PlaintextExportConfirmationData : Type := mkConfirmation { confirmation_schema : Z; token : list Z }.
Definition is_valid (c : PlaintextExportConfirmationData) : bool := negb (length (token c) =? 0)%nat.

(** ** The snapshot reads back *)

(** What the Rust types of the fields guarantee. *)
Record entry_typed (e : ArchivedPasswordEntry) : Prop := mkEntryTyped {
  et_password : short (ae_password e); et_time : is_i64 (ae_set_at_ms e); et_device : is_id (ae_originating_device e)
}.

Definition totp_typed (secret : list Z) (p : TotpParams) : Prop :=
  short secret /\ 0 <= digits p <= U8_MAX /\ 0 <= period_seconds p <= U32_MAX.

Definition list_typed {A} (ok : A -> Prop) (l : list A) : Prop := Z.of_nat (length l) <= U64_MAX /\ Forall ok l.

Record account_typed (a : ArchivedAccount) : Prop := mkAccountTyped {
  at_id : is_id (aa_account_id a);
  at_created : is_i64 (aa_created_at_ms a);
  at_name : short (aa_display_name a);
  at_tags : list_typed short (aa_tags a);
  at_urls : list_typed short (aa_urls a);
  at_usernames : list_typed short (aa_usernames a);
  at_notes : short (aa_notes a);
  at_history : list_typed entry_typed (aa_password_history a);
  at_totp : totp_typed (aa_totp_secret a) (aa_totp_params a)
}.

Definition text (s : list Z) : Prop := short s /\ utf8 s = true.

Record device_typed (d : ArchivedDevice) : Prop := mkDeviceTyped {
  dt_id : is_id (ad_device_id d); dt_label : text (ad_label d); dt_added : is_i64 (ad_added_at_ms d)
}.

Record authority_typed (c : CapturedCaptureAuthority) : Prop := mkAuthorityTyped {
  ut_context : is_i64 (cc_context_kind c);
  ut_hint : text (cc_platform_hint c);
  ut_kind : is_i64 (ar_authority_kind (cc_row c));
  ut_component : text (ar_component_id (cc_row c));
  ut_version : text (ar_component_version (cc_row c));
  ut_registered : is_i64 (ar_registered_at (cc_row c));
  ut_schema : 0 <= ar_schema_version (cc_row c) <= U16_MAX
}.

Record archive_typed (s : ArchiveSnapshot) : Prop := mkArchiveTyped {
  st_schema : 0 <= ar_snapshot_schema s <= U16_MAX;
  st_exported : is_i64 (exported_at s);
  st_source : is_id (source_device_id s);
  st_vault : is_id (ar_vault_id s);
  st_idle : forall v, ar_session_idle_secs s = Some v -> is_i64 v;
  st_accounts : list_typed account_typed (ar_accounts s);
  st_devices : list_typed device_typed (ar_devices s);
  st_authorities : list_typed authority_typed (capture_authorities s)
}.

(** What the decoder insists on. *)
Definition blob (l : list Z) : bool := fits MAX_BLOB_LEN l.
Definition items {A} (ok : A -> bool) (l : list A) : bool := (Z.of_nat (length l) <=? MAX_ITEMS) && forallb ok l.
Definition entry_fits (e : ArchivedPasswordEntry) : bool := blob (ae_password e).
Definition account_fits (a : ArchivedAccount) : bool :=
  blob (aa_display_name a) && (items blob (aa_tags a) && (items blob (aa_urls a) && (items blob (aa_usernames a)
  && (blob (aa_notes a) && (items entry_fits (aa_password_history a) && blob (aa_totp_secret a)))))).
Definition device_fits (d : ArchivedDevice) : bool := blob (ad_label d).
Definition authority_fits (c : CapturedCaptureAuthority) : bool :=
  blob (cc_platform_hint c) && (blob (ar_component_id (cc_row c)) && blob (ar_component_version (cc_row c))).
Definition archive_fits (s : ArchiveSnapshot) : bool :=
  (ar_snapshot_schema s =? ARCHIVE_SNAPSHOT_SCHEMA_VERSION)
  && (items account_fits (ar_accounts s) && (items device_fits (ar_devices s) && items authority_fits (capture_authorities s))).

Section facts.
Context `{!Cbor.Cbor} `{!CborLaws _} (memory : Z) (memory_enough : MAX_BLOB_LEN <= memory).

Lemma reads_if_end {A B} b (m : reader StoreError A) (f : A -> reader StoreError B) w a x e :
  reads_if b m w a e -> reads (f a) [] x -> reads_if b (m ≫= f) w x e.
Proof.
  intros Hm Hf. rewrite <- (app_nil_r w), <- (andb_true_r b). eapply reads_if_bind; [exact Hm|]. intros _. exact Hf.
Qed.

Lemma reads_pull h {A} (f : Header -> reader StoreError A) w a :
  pushable h -> reads (f h) w a -> reads (pull_header ≫= f) (push h ++ w) a.
Proof using CborLaws0. intros Hh Hf. eapply reads_bind; [by apply reads_header|done]. Qed.

Lemma reads_pull_only h {A} (f : Header -> reader StoreError A) a :
  pushable h -> reads (f h) [] a -> reads (pull_header ≫= f) (push h) a.
Proof using CborLaws0. intros Hh Hf. rewrite <- (app_nil_r (push h)). by apply reads_pull. Qed.

Lemma reads_array_len n : is_u64 n -> reads pull_array_len (push (ArrayHeader (Some n))) n.
Proof using CborLaws0. intros Hn. apply reads_pull_only; [done|apply reads_ret]. Qed.

Lemma reads_shape n : is_u64 n -> reads (expect_array n) (push (ArrayHeader (Some n))) tt.
Proof using CborLaws0. intros Hn. apply reads_pull_only; [done|]. cbv beta iota. rewrite Z.eqb_refl. apply reads_ret. Qed.

Lemma reads_uint n : is_u64 n -> reads pull_uint (push (Positive n)) n.
Proof using CborLaws0. intros Hn. apply reads_pull_only; [done|apply reads_ret]. Qed.

Lemma reads_narrow lo hi n : lo <= n <= hi -> reads (of_result (ok_or (try_from lo hi n) cbor_err)) [] n.
Proof. intros Hn rest. unfold of_result. by rewrite (proj2 (try_from_Some lo hi n n)). Qed.

Lemma reads_int v : is_i64 v -> reads pull_int (put_int v) v.
Proof using CborLaws0.
  unfold is_i64, put_int, I64_MIN, I64_MAX. intros Hv. destruct (Z.leb_spec 0 v).
  - apply reads_pull_only; [simpl; unfold is_u64, U64_MAX; lia|]. apply reads_narrow. unfold I64_MIN, I64_MAX. lia.
  - apply reads_pull_only; [simpl; unfold is_u64, U64_MAX; lia|].
    eapply reads_silent; [apply (reads_narrow _ _ (-1 - v)); unfold I64_MIN, I64_MAX; lia|].
    replace (-1 - (-1 - v)) with v by lia. apply reads_ret.
Qed.

Lemma reads_blob b : short b -> reads_if (blob b) (pull_bytes memory) (put_bytes b) b cbor_err.
Proof using CborLaws0 memory_enough.
  intros Hb. unfold pull_bytes, put_bytes, blob, fits.
  eapply reads_if_then; [apply reads_header, short_pushable, Hb|].
  destruct (Z.leb_spec (Z.of_nat (length b)) MAX_BLOB_LEN), (Z.ltb_spec MAX_BLOB_LEN (Z.of_nat (length b))); try lia.
  - apply reads_buffer. lia.
  - apply reads_if_false.
Qed.

Lemma reads_archive_text s : text s -> reads_if (blob s) (pull_text memory) (put_text s) s cbor_err.
Proof using CborLaws0 memory_enough.
  intros [Hs Hu]. unfold pull_text, put_text, blob, fits.
  eapply reads_if_then; [apply reads_header, short_pushable, Hs|].
  destruct (Z.leb_spec (Z.of_nat (length s)) MAX_BLOB_LEN), (Z.ltb_spec MAX_BLOB_LEN (Z.of_nat (length s))); try lia.
  - eapply reads_if_end; [apply reads_if_true, reads_buffer; lia|]. rewrite Hu. apply reads_ret.
  - apply reads_if_false.
Qed.

Lemma reads_id x : is_id x -> reads (pull_array32 memory) (put_id x) x.
Proof using CborLaws0 memory_enough.
  intros Hx. unfold pull_array32, put_id.
  pose proof (reads_blob (to_be_bytes 32 x)) as Hr. unfold blob, fits, short in Hr. rewrite length_to_be_bytes in Hr.
  rewrite <- (app_nil_r (put_bytes _)). eapply reads_bind; [apply Hr; unfold U64_MAX; lia|].
  cbv beta. rewrite length_to_be_bytes. cbn [Nat.eqb]. rewrite be_value_to_be_bytes, Z.mod_small by done. apply reads_ret.
Qed.

Lemma reads_list {A} (ok : A -> bool) (typed : A -> Prop) (item : reader StoreError A) (put : A -> list Z) l :
  (forall x, typed x -> reads_if (ok x) item (put x) x cbor_err) -> list_typed typed l ->
  reads_if (items ok l) (pull_items item) (put_items put l) l cbor_err.
Proof using CborLaws0.
  intros Hitem [Hl Ht]. unfold pull_items, put_items, items.
  eapply reads_if_then; [apply reads_array_len; unfold is_u64; lia|].
  destruct (Z.leb_spec (Z.of_nat (length l)) MAX_ITEMS), (Z.ltb_spec MAX_ITEMS (Z.of_nat (length l))); try lia.
  - rewrite Nat2Z.id. cbn [andb]. apply reads_if_items. intros x Hx. apply Hitem. by eapply Forall_forall in Ht.
  - apply reads_if_false.
Qed.

Lemma reads_entry e : entry_typed e -> reads_if (entry_fits e) (pull_entry memory) (put_entry e) e cbor_err.
Proof using CborLaws0 memory_enough.
  intros [Hp Ht Hd]. unfold pull_entry, put_entry, entry_fits. rewrite <- (andb_true_r (blob _)).
  eapply reads_if_then; [by apply reads_shape|].
  eapply reads_if_bind; [by apply reads_blob|intros _].
  eapply reads_if_then; [by apply reads_int|].
  eapply reads_if_end; [by apply reads_if_true, reads_id|]. destruct e. apply reads_ret.
Qed.

Lemma reads_totp secret p : totp_typed secret p -> reads_if (blob secret) (pull_totp memory) (put_totp secret p) (secret, p) cbor_err.
Proof using CborLaws0 memory_enough.
  intros (Hs & Hd & Hp). unfold pull_totp, put_totp, U8_MAX, U32_MAX in *. rewrite <- (andb_true_r (blob _)).
  eapply reads_if_then; [by apply reads_shape|].
  eapply reads_if_bind; [by apply reads_blob|intros _].
  eapply reads_if_then; [apply reads_uint; destruct (algorithm p); simpl; unfold is_u64, U64_MAX; lia|].
  eapply reads_if_silent; [apply reads_narrow; destruct (algorithm p); simpl; unfold U8_MAX; lia|].
  eapply (reads_if_silent _ _ _ _ (algorithm p)); [destruct (algorithm p); apply reads_ret|].
  eapply reads_if_then; [apply reads_uint; unfold is_u64, U64_MAX; lia|].
  eapply reads_if_silent; [apply reads_narrow; unfold U8_MAX; lia|].
  eapply reads_if_end; [apply reads_if_true, reads_uint; unfold is_u64, U64_MAX; lia|].
  eapply reads_silent; [apply reads_narrow; unfold U32_MAX; lia|]. destruct p. apply reads_ret.
Qed.

Lemma reads_account a : account_typed a -> reads_if (account_fits a) (decode_account memory) (put_account a) a cbor_err.
Proof using CborLaws0 memory_enough.
  intros [Hid Hc Hn Htg Hu Hus Hno Hh Ht]. unfold decode_account, put_account, account_fits.
  eapply reads_if_then; [by apply reads_shape|].
  eapply reads_if_then; [by apply reads_id|].
  eapply reads_if_then; [by apply reads_int|].
  eapply reads_if_bind; [by apply reads_blob|intros _].
  eapply reads_if_bind; [by apply (reads_list _ _ _ _ _ reads_blob)|intros _].
  eapply reads_if_bind; [by apply (reads_list _ _ _ _ _ reads_blob)|intros _].
  eapply reads_if_bind; [by apply (reads_list _ _ _ _ _ reads_blob)|intros _].
  eapply reads_if_bind; [by apply reads_blob|intros _].
  eapply reads_if_bind; [by apply (reads_list _ _ _ _ _ reads_entry)|intros _].
  eapply reads_if_end; [by apply reads_totp|]. destruct a. apply reads_ret.
Qed.

Lemma reads_device d : device_typed d -> reads_if (device_fits d) (pull_device memory) (put_device d) d cbor_err.
Proof using CborLaws0 memory_enough.
  intros [Hid Hl Ha]. unfold pull_device, put_device, device_fits. rewrite <- (andb_true_r (blob _)).
  eapply reads_if_then; [by apply reads_shape|].
  eapply reads_if_then; [by apply reads_id|].
  eapply reads_if_bind; [by apply reads_archive_text|intros _].
  eapply reads_if_end; [by apply reads_if_true, reads_int|]. destruct d. apply reads_ret.
Qed.

Lemma reads_authority c : authority_typed c -> reads_if (authority_fits c) (pull_authority memory) (put_authority c) c cbor_err.
Proof using CborLaws0 memory_enough.
  intros [Hc Hh Hk Hi Hv Hr Hs]. unfold pull_authority, put_authority, authority_fits, U16_MAX in *.
  rewrite <- (andb_true_r (blob (ar_component_version _))).
  eapply reads_if_then; [by apply reads_shape|].
  eapply reads_if_then; [by apply reads_int|].
  eapply reads_if_bind; [by apply reads_archive_text|intros _].
  eapply reads_if_then; [by apply reads_int|].
  eapply reads_if_bind; [by apply reads_archive_text|intros _].
  eapply reads_if_bind; [by apply reads_archive_text|intros _].
  eapply reads_if_then; [by apply reads_int|].
  eapply reads_if_end; [apply reads_if_true, reads_uint; unfold is_u64, U64_MAX; lia|].
  eapply reads_silent; [apply reads_narrow; unfold U16_MAX; lia|]. destruct c as [? ? []]. apply reads_ret.
Qed.

Lemma reads_idle o : (forall v, o = Some v -> is_i64 v) -> reads pull_idle (put_idle o) o.
Proof using CborLaws0.
  intros Hv. unfold pull_idle, put_idle. eapply reads_bind; [by apply reads_shape|].
  assert (Hz : is_i64 0) by (unfold is_i64, I64_MIN, I64_MAX; lia).
  destruct o as [v|].
  - eapply reads_bind; [apply reads_pull_only; [by left|apply reads_ret]|]. apply (reads_then _ Some), reads_int. by apply Hv.
  - eapply reads_bind; [apply reads_pull_only; [by right|apply reads_ret]|].
    apply (reads_then pull_int (fun _ => @None Z) _ 0). by apply reads_int.
Qed.

(** The decoder gives back what [encode_snapshot] wrote, or refuses it. *)
Lemma decode_encode_snapshot s : archive_typed s ->
  decode_snapshot memory (encode_snapshot s) = if archive_fits s then Ok s else Err (Failed cbor_err).
Proof using CborLaws0 memory_enough.
  intros [Hsc He Hsd Hv Hi Ha Hd Hc]. unfold U16_MAX in *.
  assert (Hr : reads_if (archive_fits s) (read_snapshot memory) (encode_snapshot s) s cbor_err).
  2: { unfold decode_snapshot. rewrite <- (app_nil_r (encode_snapshot s)), Hr. by case_match. }
  unfold read_snapshot, encode_snapshot, archive_fits.
  eapply reads_if_then; [by apply reads_array_len|]. cbn [orb negb Z.eqb Pos.eqb andb].
  eapply reads_if_then; [apply reads_uint; unfold is_u64, U64_MAX; lia|].
  eapply reads_if_silent; [apply reads_narrow; unfold U16_MAX; lia|]. unfold ARCHIVE_SNAPSHOT_SCHEMA_VERSION.
  destruct (ar_snapshot_schema s =? 2) eqn:Hs; [|apply reads_if_false]. cbn [negb andb].
  eapply reads_if_then; [by apply reads_int|].
  eapply reads_if_then; [by apply reads_id|].
  eapply reads_if_then; [by apply reads_id|].
  eapply reads_if_then; [by apply reads_idle|].
  eapply reads_if_bind; [by apply (reads_list _ _ _ _ _ reads_account)|intros _].
  eapply reads_if_bind; [by apply (reads_list _ _ _ _ _ reads_device)|intros _].
  eapply reads_if_end; [by apply (reads_list _ _ _ _ _ reads_authority)|]. destruct s. apply reads_ret.
Qed.

Hint Resolve never_aborts_ret never_aborts_fail never_aborts_header never_aborts_items : core.

(** No buffer is larger than [MAX_BLOB_LEN], whatever lengths the input announces. *)
Lemma read_snapshot_never_aborts : never_aborts (read_snapshot memory).
Proof using memory_enough.
  assert (Hh : never_aborts pull_header) by apply never_aborts_header.
  assert (Hr : forall A (r : store_result A), never_aborts (of_result r)) by (intros A [] ?; done).
  assert (Hb : never_aborts (pull_bytes memory)).
  { unfold pull_bytes. never_abort. apply never_aborts_buffer. zbool. lia. }
  assert (Ht : never_aborts (pull_text memory)).
  { unfold pull_text. never_abort. apply never_aborts_buffer. zbool. lia. }
  assert (Hl : never_aborts pull_array_len) by (unfold pull_array_len; never_abort).
  assert (Hu : never_aborts pull_uint) by (unfold pull_uint; never_abort).
  assert (Hi : never_aborts pull_int) by (unfold pull_int; never_abort).
  assert (Hs : forall n, never_aborts (expect_array n)) by (intros n; unfold expect_array; never_abort).
  assert (Hid : never_aborts (pull_array32 memory)) by (unfold pull_array32; never_abort).
  assert (Hn : forall A (m : reader StoreError A), never_aborts m -> never_aborts (pull_items m)).
  { intros A m Hm. unfold pull_items. never_abort. }
  assert (Hv : never_aborts (pull_secret_bytes_vec memory)) by (apply Hn, Hb).
  unfold read_snapshot. never_abort; try (unfold pull_idle, pull_bool; never_abort);
    apply Hn; unfold decode_account, pull_device, pull_authority, pull_totp; never_abort.
  apply Hn. unfold pull_entry. never_abort.
Qed.
End facts.

(** ** The header is exact *)

Definition supported (p : KdfParams) : Prop :=
  MIN_MEMORY_KIB <= memory_kib p <= MAX_KDF_MEMORY_KIB /\ MIN_TIME_COST <= time_cost p <= MAX_KDF_TIME_COST
  /\ MIN_PARALLELISM <= parallelism p <= MAX_KDF_PARALLELISM
  /\ memory_kib p * time_cost p <= MAX_KDF_MEMORY_KIB_TIME_COST_PRODUCT.

Record header_ok (h : ArchiveHeader) : Prop := mkHeaderOk {
  ok_version : format_version h = ARCHIVE_FORMAT_VERSION;
  ok_algo : kdf_algo_id h = KDF_ALGO_ARGON2ID;
  ok_params : supported (ah_kdf_params h);
  ok_salt : length (ah_salt h) = SALT_LEN;
  ok_nonce : length (ah_nonce h) = NONCE_LEN
}.

Lemma kdf_unsupported_spec p : kdf_unsupported p = false <-> supported p.
Proof.
  unfold kdf_unsupported, supported, RecoveryBackup.validate, MIN_MEMORY_KIB, MIN_TIME_COST, MIN_PARALLELISM, MAX_KDF_MEMORY_KIB,
    MAX_KDF_TIME_COST, MAX_KDF_PARALLELISM, MAX_KDF_MEMORY_KIB_TIME_COST_PRODUCT, U64_MAX.
  repeat (case_match; cbn [is_ok negb orb]); zbool; rewrite ?orb_false_iff, ?Z.ltb_ge; lia.
Qed.

Lemma supported_RECOMMENDED : supported RECOMMENDED.
Proof. by apply kdf_unsupported_spec. Qed.

Definition ARCHIVE_LAYOUT : list nat := [length ARCHIVE_MAGIC; 1; 1; 4; 4; 4; SALT_LEN; NONCE_LEN; 8]%nat.

Definition header_fields (h : ArchiveHeader) : list (list Z) :=
  [ARCHIVE_MAGIC; [format_version h]; [kdf_algo_id h]; to_be_bytes 4 (memory_kib (ah_kdf_params h));
   to_be_bytes 4 (time_cost (ah_kdf_params h)); to_be_bytes 4 (parallelism (ah_kdf_params h)); ah_salt h; ah_nonce h;
   to_be_bytes 8 (ah_ct_len h)].

Lemma to_bytes_fields h : to_bytes h = mjoin (header_fields h).
Proof. unfold to_bytes, header_fields. cbn -[app ARCHIVE_MAGIC to_be_bytes]. by rewrite app_nil_r. Qed.

Lemma header_fields_layout h :
  length (ah_salt h) = SALT_LEN -> length (ah_nonce h) = NONCE_LEN -> length <$> header_fields h = ARCHIVE_LAYOUT.
Proof. intros Hs Hn. unfold header_fields. rewrite !fmap_cons, Hs, Hn, !length_to_be_bytes. done. Qed.

Lemma length_to_bytes h :
  length (ah_salt h) = SALT_LEN -> length (ah_nonce h) = NONCE_LEN -> length (to_bytes h) = ARCHIVE_HEADER_LEN.
Proof.
  intros Hs Hn. unfold to_bytes, ARCHIVE_HEADER_LEN. rewrite !length_app, Hs, Hn, !length_to_be_bytes. cbn [length]. lia.
Qed.

(** The fields of the parser are those of the layout. *)
Definition parsed_fields (bytes : list Z) : list (list Z) :=
  [take (length ARCHIVE_MAGIC) bytes; slice AT_VERSION 1 bytes; slice AT_ALGO 1 bytes; slice AT_MEMORY 4 bytes;
   slice AT_TIME 4 bytes; slice AT_PARALLELISM 4 bytes; slice AT_SALT SALT_LEN bytes; slice AT_NONCE NONCE_LEN bytes;
   slice AT_CT_LEN 8 bytes].

Lemma parsed_fields_slices bytes : parsed_fields bytes = slices 0 ARCHIVE_LAYOUT bytes.
Proof. done. Qed.

Lemma u32_written p x : supported p -> x = memory_kib p \/ x = time_cost p \/ x = parallelism p ->
  be_value (to_be_bytes 4 x) = x.
Proof.
  intros (Hm & Ht & Hp & _) Hx. rewrite be_value_to_be_bytes. apply Z.mod_small.
  unfold MIN_MEMORY_KIB, MIN_TIME_COST, MIN_PARALLELISM, MAX_KDF_MEMORY_KIB, MAX_KDF_TIME_COST, MAX_KDF_PARALLELISM in *.
  simpl. lia.
Qed.

(** A header that was written, and a ciphertext. *)
Lemma parse_archive_written h ct :
  header_ok h -> ah_ct_len h = Z.of_nat (length ct) -> Z.of_nat (length ct) <= U64_MAX ->
  parse (to_bytes h ++ ct) = if Z.of_nat (length ct) <=? MAX_CIPHERTEXT_LEN then Ok (h, ct) else Err fmt_err.
Proof.
  intros [Hv Ha Hp Hs Hn] Hl Hmax. pose proof (length_to_bytes h Hs Hn) as Hlen.
  unfold parse. rewrite (proj2 (Nat.ltb_ge _ _)) by (rewrite length_app; lia).
  rewrite take_app_length', drop_app_length' by done.
  assert (Hf : parsed_fields (to_bytes h) = header_fields h).
  { rewrite parsed_fields_slices, <- (header_fields_layout h Hs Hn), to_bytes_fields, <- (app_nil_r (mjoin _)).
    apply slices_fields. }
  set (hb := to_bytes h) in *. clearbody hb.
  pose proof (fun k => f_equal (fun l => nth k l []) Hf) as Hk. unfold parsed_fields, header_fields in Hk.
  rewrite (slice_one AT_VERSION), (slice_one AT_ALGO) in Hk by (rewrite Hlen; vm_compute; lia).
  pose proof (Hk 0%nat) as E0. pose proof (Hk 1%nat) as [= E1]. pose proof (Hk 2%nat) as [= E2]. pose proof (Hk 3%nat) as E3.
  pose proof (Hk 4%nat) as E4. pose proof (Hk 5%nat) as E5. pose proof (Hk 6%nat) as E6. pose proof (Hk 7%nat) as E7.
  pose proof (Hk 8%nat) as E8. cbn [nth] in E0, E3, E4, E5, E6, E7, E8. unfold u32_at.
  rewrite E0, E1, E2, E3, E4, E5, E6, E7, E8, bool_decide_eq_true_2, Hv, Ha, !Z.eqb_refl by done. cbn [negb].
  rewrite !(u32_written (ah_kdf_params h)) by auto.
  replace (mkKdfParams _ _ _) with (ah_kdf_params h) by (by destruct (ah_kdf_params h)).
  rewrite (proj2 (kdf_unsupported_spec _) Hp), be_value_to_be_bytes, Hl, Z.mod_small by (unfold U64_MAX in Hmax; simpl; lia).
  destruct (Z.leb_spec (Z.of_nat (length ct)) MAX_CIPHERTEXT_LEN), (Z.ltb_spec MAX_CIPHERTEXT_LEN (Z.of_nat (length ct))); try lia; [|done].
  rewrite Z.eqb_refl. cbn [negb]. destruct h. cbn in *. by subst.
Qed.

Lemma parse_archive_inv bytes h ct :
  Forall is_byte bytes -> parse bytes = Ok (h, ct) ->
  header_ok h /\ ah_ct_len h = Z.of_nat (length ct) /\ Z.of_nat (length ct) <= MAX_CIPHERTEXT_LEN /\ bytes = to_bytes h ++ ct.
Proof.
  intros Hb. unfold parse. destruct (Nat.ltb_spec (length bytes) ARCHIVE_HEADER_LEN) as [|Hmin]; [done|].
  set (hb := take ARCHIVE_HEADER_LEN bytes). set (rest := drop ARCHIVE_HEADER_LEN bytes).
  assert (Hhb : length hb = ARCHIVE_HEADER_LEN) by (unfold hb; rewrite length_take; lia).
  assert (Hbb : Forall is_byte hb) by (by apply Forall_take).
  destruct (bool_decide_reflect (take (length ARCHIVE_MAGIC) hb = ARCHIVE_MAGIC)) as [Hd|]; [|done].
  destruct (Z.eqb_spec (byte_at AT_VERSION hb) ARCHIVE_FORMAT_VERSION) as [Hv|]; [|done].
  destruct (Z.eqb_spec (byte_at AT_ALGO hb) KDF_ALGO_ARGON2ID) as [Ha|]; [|done]. cbn [negb].
  set (params := mkKdfParams _ _ _). destruct (kdf_unsupported params) eqn:Ek; [done|].
  set (n := be_value (slice AT_CT_LEN 8 hb)). destruct (Z.ltb_spec MAX_CIPHERTEXT_LEN n) as [|Hn]; [done|].
  destruct (Z.eqb_spec (Z.of_nat (length rest)) n) as [Hl|]; [|done]. cbn [negb]. intros [= <- <-].
  assert (Hbe : forall off k, (off + k <= ARCHIVE_HEADER_LEN)%nat ->
    to_be_bytes k (be_value (slice off k hb)) = slice off k hb).
  { intros off k Hok. assert (Hk : length (slice off k hb) = k) by (apply length_slice; lia).
    rewrite <- Hk at 1. apply to_be_bytes_be_value. by apply Forall_take, Forall_drop. }
  cbn [ah_kdf_params ah_salt ah_nonce ah_ct_len format_version kdf_algo_id]. split_and!; [|done|lia|].
  { split; cbn [ah_kdf_params ah_salt ah_nonce format_version kdf_algo_id]; try done.
    - by apply kdf_unsupported_spec.
    - apply length_slice. rewrite Hhb. vm_compute. lia.
    - apply length_slice. rewrite Hhb. vm_compute. lia. }
  rewrite <- (take_drop ARCHIVE_HEADER_LEN bytes). fold hb rest. f_equal. rewrite to_bytes_fields.
  destruct (slices_join ARCHIVE_LAYOUT hb) as [Hj _]. rewrite drop_ge, app_nil_r in Hj by (rewrite Hhb; vm_compute; lia).
  etrans; [symmetry; exact Hj|]. rewrite <- parsed_fields_slices. unfold parsed_fields, header_fields, params, n, u32_at.
  cbn [ah_kdf_params ah_salt ah_nonce ah_ct_len format_version kdf_algo_id memory_kib time_cost parallelism].
  rewrite !Hbe by (vm_compute; lia).
  by rewrite (slice_one AT_VERSION), (slice_one AT_ALGO), Hd by (rewrite Hhb; vm_compute; lia).
Qed.

(** ** Sealing and opening *)

Section round_trip.
Context {Key : Type} `{!Cbor.Cbor} `{!CborLaws _} (memory : Z) (memory_enough : MAX_BLOB_LEN <= memory).
Context (argon2id : list Z -> list Z -> KdfParams -> option Key).
Context (aead_seal aead_open : Key -> list Z -> list Z -> list Z -> option (list Z)).
Context (aead_law : forall k n m a ct, aead_seal k n m a = Some ct ->
  aead_open k n ct a = Some m /\ Z.of_nat (length ct) = Z.of_nat (length m) + TAG_LEN).

Lemma seal_archive_inv salt nonce pw plain bytes :
  seal_archive argon2id aead_seal salt nonce pw plain = Ok bytes ->
  exists key ct, argon2id pw salt RECOMMENDED = Some key /\ Z.of_nat (length ct) = Z.of_nat (length plain) + TAG_LEN
    /\ Z.of_nat (length ct) <= U64_MAX
    /\ let h := mkArchiveHeader ARCHIVE_FORMAT_VERSION KDF_ALGO_ARGON2ID RECOMMENDED salt nonce (Z.of_nat (length ct)) in
       aead_seal key nonce plain (to_bytes h) = Some ct /\ bytes = to_bytes h ++ ct.
Proof using aead_law.
  unfold seal_archive, derive_key. change (RecoveryBackup.validate RECOMMENDED) with (@Ok KdfError unit tt).
  cbn [mbind result_bind]. destruct (argon2id pw salt RECOMMENDED) as [key|]; [|done]. cbn [ok_or map_err mbind result_bind].
  destruct (u64_try_from _) as [n|] eqn:En; [|done]. apply try_from_Some in En as [-> Hn]. cbn [ok_or mbind result_bind].
  destruct (aead_seal _ _ _ _) as [ct|] eqn:Ea; [|done]. cbn. intros [= <-].
  destruct (aead_law _ _ _ _ _ Ea) as (_ & Hl). unfold TAG_LEN in *. exists key, ct. rewrite Hl. split_and!; [done|done|lia|done|done].
Qed.

(** What [seal_archive] wrote decodes, unless it is past a limit of the decoder. *)
Lemma decode_sealed s pw salt nonce bytes :
  archive_typed s -> length salt = SALT_LEN -> length nonce = NONCE_LEN ->
  seal_archive argon2id aead_seal salt nonce pw (encode_snapshot s) = Ok bytes ->
  decode_archive memory argon2id aead_open bytes pw =
    if archive_fits s && (Z.of_nat (length (encode_snapshot s)) + TAG_LEN <=? MAX_CIPHERTEXT_LEN)
    then Ok s else Err (Failed fmt_err).
Proof using CborLaws0 memory_enough aead_law.
  intros Ht Hs Hn Hseal.
  apply seal_archive_inv in Hseal as (key & ct & Hk & Hl & Hmax & Ha & ->). destruct (aead_law _ _ _ _ _ Ha) as (Hopen & _).
  unfold decode_archive. rewrite parse_archive_written; [|split; try done; apply supported_RECOMMENDED|done|done]. rewrite <- Hl.
  destruct (_ <=? MAX_CIPHERTEXT_LEN); [|by rewrite andb_false_r]. rewrite andb_true_r. cbn [mbind result_bind].
  unfold derive_key. cbn [ah_kdf_params ah_salt ah_nonce]. change (RecoveryBackup.validate RECOMMENDED) with (@Ok KdfError unit tt).
  cbn [mbind result_bind]. rewrite Hk. cbn [ok_or map_err mbind result_bind]. rewrite Hopen.
  cbn [ok_or map_err mbind result_bind]. by apply decode_encode_snapshot.
Qed.

(** C32. An archive opens.  What [seal_archive] wrote of a snapshot decodes under the same
    passphrase to that very snapshot when it is within the limits of the decoder, its
    ciphertext included, and otherwise is refused as malformed.  Whatever bytes decode are
    a header of this version with affordable parameters and a ciphertext, and the AEAD
    accepted exactly that ciphertext under exactly these header bytes: nothing of an
    archive can be changed without the tag failing. *)
Theorem archive_roundtrip s pw salt nonce bytes :
  archive_typed s -> length salt = SALT_LEN -> length nonce = NONCE_LEN ->
  seal_archive argon2id aead_seal salt nonce pw (encode_snapshot s) = Ok bytes ->
  decode_archive memory argon2id aead_open bytes pw =
    (if archive_fits s && (Z.of_nat (length (encode_snapshot s)) + TAG_LEN <=? MAX_CIPHERTEXT_LEN)
     then Ok s else Err (Failed fmt_err))
  /\ forall bytes' pw' s', Forall is_byte bytes' -> decode_archive memory argon2id aead_open bytes' pw' = Ok s' ->
     exists h ct key plain, header_ok h /\ bytes' = to_bytes h ++ ct
       /\ argon2id pw' (ah_salt h) (ah_kdf_params h) = Some key /\ aead_open key (ah_nonce h) ct (to_bytes h) = Some plain
       /\ decode_snapshot memory plain = Ok s'.
Proof using CborLaws0 memory_enough aead_law.
  intros Ht Hs Hn Hseal. split; [by apply (decode_sealed _ _ salt nonce)|].
  intros bytes' pw' s' Hb. unfold decode_archive. destruct (parse bytes') as [[h ct]|e] eqn:Hp; [|done].
  apply parse_archive_inv in Hp as (Hh & _ & _ & Heq); [|done]. cbn [mbind result_bind].
  unfold derive_key. destruct (RecoveryBackup.validate _); [|done]. cbn [mbind result_bind].
  destruct (argon2id _ _ _) as [key|] eqn:Hk; [|done]. cbn [ok_or map_err mbind result_bind].
  destruct (aead_open _ _ _ _) as [plain|] eqn:Ho; [|done]. cbn [ok_or map_err mbind result_bind].
  intros Hd. by exists h, ct, key, plain.
Qed.
End round_trip.

(** ** The dump keeps the strings *)

Definition hex_value (c : Z) : Z := if c <=? 57 then c - 48 else c - 87.

(** What a reader of the dump undoes. *)
Fixpoint json_unesc (s : list Z) : list Z :=
  match s with
  | 92 :: 34 :: r => 34 :: json_unesc r
  | 92 :: 92 :: r => 92 :: json_unesc r
  | 92 :: 110 :: r => 10 :: json_unesc r
  | 92 :: 114 :: r => 13 :: json_unesc r
  | 92 :: 116 :: r => 9 :: json_unesc r
  | 92 :: 117 :: 48 :: 48 :: h :: l :: r => hex_value h * 16 + hex_value l :: json_unesc r
  | b :: r => b :: json_unesc r
  | [] => []
  end.

Lemma json_unesc_plain b r : b <> 92 -> json_unesc (b :: r) = b :: json_unesc r.
Proof. intros Hb. cbn [json_unesc]. repeat case_match; try done; congruence. Qed.

Lemma hex_value_char v : 0 <= v < 16 -> hex_value (hex_char v) = v.
Proof.
  intros Hv. unfold hex_value, hex_char. destruct (Z.ltb_spec v 10); [rewrite (proj2 (Z.leb_le _ _)) by lia; lia|].
  rewrite (proj2 (Z.leb_gt _ _)) by lia. lia.
Qed.

Lemma json_unesc_char b r : 0 <= b -> json_unesc (esc_char b ++ r) = b :: json_unesc r.
Proof.
  intros Hb. unfold esc_char.
  destruct (Z.eqb_spec b 34) as [->|]; [done|]. destruct (Z.eqb_spec b 92) as [->|]; [done|].
  destruct (Z.eqb_spec b 10) as [->|]; [done|]. destruct (Z.eqb_spec b 13) as [->|]; [done|].
  destruct (Z.eqb_spec b 9) as [->|]; [done|]. destruct (Z.ltb_spec b 32); [|by apply json_unesc_plain].
  assert (H1 : 0 <= b / 16 < 16) by (split; [apply Z.div_pos; lia|apply Z.div_lt_upper_bound; lia]).
  assert (H2 : 0 <= b mod 16 < 16) by (apply Z.mod_pos_bound; lia).
  change ((bytes_of "\u00" ++ [hex_char (b / 16); hex_char (b mod 16)]) ++ r)
    with (92 :: 117 :: 48 :: 48 :: hex_char (b / 16) :: hex_char (b mod 16) :: r).
  cbn [json_unesc]. rewrite !hex_value_char by done. f_equal. pose proof (Z.div_mod b 16). lia.
Qed.

Lemma esc_char_printable b : 0 <= b -> Forall (fun c => 32 <= c) (esc_char b).
Proof.
  intros Hb. assert (Hh : forall v, 0 <= v -> 32 <= hex_char v) by (intros v Hv; unfold hex_char; case_match; lia).
  assert (0 <= b / 16) by (apply Z.div_pos; lia). assert (0 <= b mod 16) by (apply Z.mod_pos_bound; lia).
  unfold esc_char. destruct (Z.eqb_spec b 34); [by repeat constructor|]. destruct (Z.eqb_spec b 92); [by repeat constructor|].
  destruct (Z.eqb_spec b 10); [by repeat constructor|]. destruct (Z.eqb_spec b 13); [by repeat constructor|].
  destruct (Z.eqb_spec b 9); [by repeat constructor|]. destruct (Z.ltb_spec b 32); [|by repeat constructor].
  apply Forall_app. split; [by repeat constructor|]. repeat constructor; by apply Hh.
Qed.

(** A string of the dump is the text of the field, escaped: no quote and no control
    character ends it early, and undoing the escapes gives the text back. *)
Lemma json_esc_text s :
  Forall (fun b => 0 <= b) (from_utf8_lossy s) ->
  json_unesc (json_esc s) = from_utf8_lossy s /\ Forall (fun b => 32 <= b) (json_esc s).
Proof.
  unfold json_esc. induction 1 as [|b l Hb _ [IH1 IH2]]; [done|].
  rewrite fmap_cons. change (mjoin (esc_char b :: (esc_char <$> l))) with (esc_char b ++ mjoin (esc_char <$> l)). split.
  - by rewrite json_unesc_char, IH1.
  - apply Forall_app. split; [|done]. by apply esc_char_printable.
Qed.

(** ** Examples *)

Module ExportSample.

(** A tag that depends on every byte. *)
Definition mixed_tag (key nonce m aad : list Z) : list Z :=
  to_be_bytes 16 (foldl (fun h b => (h * 257 + b + 1) mod 2 ^ 61) 7 (key ++ nonce ++ m ++ aad)).
Definition toy_seal (key nonce m aad : list Z) : option (list Z) := Some (m ++ mixed_tag key nonce m aad).
Definition toy_open (key nonce ct aad : list Z) : option (list Z) :=
  if (length ct <? 16)%nat then None
  else
    let m := take (length ct - 16) ct in
    if bool_decide (drop (length ct - 16) ct = mixed_tag key nonce m aad) then Some m else None.

Lemma toy_law k n m a ct : toy_seal k n m a = Some ct ->
  toy_open k n ct a = Some m /\ Z.of_nat (length ct) = Z.of_nat (length m) + TAG_LEN.
Proof.
  intros [= <-]. assert (Ht : length (mixed_tag k n m a) = 16%nat) by apply length_to_be_bytes.
  unfold toy_open. rewrite length_app, Ht, (proj2 (Nat.ltb_ge _ _)), Nat.add_sub by lia.
  rewrite take_app_length, drop_app_length, bool_decide_eq_true_2 by done. split; [done|unfold TAG_LEN; lia].
Qed.

Definition sample_archive : ArchiveSnapshot :=
  mkArchive 2 1700000000 7 9 (Some 900)
    [mkArchivedAccount 1 1600000000000 (bytes_of "GitHub") [bytes_of "work"] [bytes_of "https://github.com"] [bytes_of "octocat"]
       (bytes_of "recovery") [mkArchivedEntry (bytes_of "new") 1650000000000 2; mkArchivedEntry (bytes_of "old") (-5) 3]
       (bytes_of "JBSWY3DPEHPK3PXP") default_params]
    [mkArchivedDevice 2 (bytes_of "laptop") 1600000000000]
    [mkCaptured 1 (bytes_of "chrome") (mkAuthorityRow 1 (bytes_of "ext") [] 5 1)].

Definition sample_pw : list Z := bytes_of "export".
Definition sample_bytes : list Z :=
  match seal_archive toy_argon2id toy_seal (replicate 16 5) (replicate 24 6) sample_pw (encode_snapshot sample_archive) with
  | Ok b => b | Err _ => [] end.
Definition open (bytes pw : list Z) : result (failure StoreError) ArchiveSnapshot :=
  decode_archive (64 * 1024 * 1024) toy_argon2id toy_open bytes pw.

(** The right passphrase, a wrong one, a bit of the ciphertext and of the salt turned, a
    truncated file and memory costs that are too high. *)
Example sample_openings :
  open sample_bytes sample_pw = Ok sample_archive
  /\ open sample_bytes (bytes_of "other") = Err (Failed credentials_err)
  /\ open (<[(length sample_bytes - 1)%nat := 0]> sample_bytes) sample_pw = Err (Failed credentials_err)
  /\ open (<[26%nat := 4]> sample_bytes) sample_pw = Err (Failed credentials_err)
  /\ open (take 200 sample_bytes) sample_pw = Err (Failed fmt_err)
  /\ open (<[14%nat := 4]> sample_bytes) sample_pw = Err (Failed fmt_err).
Proof. vm_compute. split_and!; reflexivity. Qed.

(** An archive of version 1 has no capture authorities. *)
Example legacy_archive :
  decode_snapshot (64 * 1024 * 1024)
    (push (ArrayHeader (Some 7)) ++ push (Positive 1) ++ put_int 3 ++ put_id 7 ++ put_id 9 ++ put_idle None
     ++ put_items put_account [] ++ put_items put_device [])
  = Ok (mkArchive 1 3 7 9 None [] [] []).
Proof. vm_compute. reflexivity. Qed.

Example sample_escape : json_esc (34 :: 10 :: bytes_of "a" ++ [1]) = bytes_of "\" ++ [34] ++ bytes_of "\na\u0001".
Proof. vm_compute. reflexivity. Qed.

Ltac bounds := unfold is_id, is_i64, short, text, totp_typed, I64_MIN, I64_MAX, U64_MAX, U32_MAX, U16_MAX, U8_MAX; cbn; split_and?; (lia || reflexivity).

Lemma sample_archive_typed : archive_typed sample_archive.
Proof.
  split; cbn [ar_snapshot_schema exported_at source_device_id ar_vault_id ar_session_idle_secs ar_accounts ar_devices capture_authorities sample_archive];
    [bounds|bounds|bounds|bounds|intros v [= <-]; bounds| | |].
  - split; [bounds|]. repeat constructor; bounds.
  - split; [bounds|]. repeat constructor; bounds.
  - split; [bounds|]. repeat constructor; bounds.
Qed.

Lemma archive_roundtrip_witness :
  exists bytes, seal_archive toy_argon2id toy_seal (replicate 16 5) (replicate 24 6) sample_pw (encode_snapshot sample_archive) = Ok bytes
    /\ open bytes sample_pw = Ok sample_archive.
Proof.
  destruct (seal_archive toy_argon2id toy_seal (replicate 16 5) (replicate 24 6) sample_pw (encode_snapshot sample_archive)) as [bytes|e] eqn:Hs.
  - exists bytes. split; [reflexivity|]. unfold open.
    rewrite (proj1 (archive_roundtrip (64 * 1024 * 1024) ltac:(discriminate) toy_argon2id toy_seal toy_open toy_law
      sample_archive sample_pw (replicate 16 5) (replicate 24 6) bytes sample_archive_typed eq_refl eq_refl Hs)).
    vm_compute. reflexivity.
  - vm_compute in Hs. discriminate Hs.
Defined.
End ExportSample.
