(* ===== verification/VaultExport.v ===== *)
(** * Exporting a vault and restoring it into a new one

    The export methods of crates/pangolin-store/src/vault.rs ([export_payload],
    [gather_archive_snapshot], [export_encrypted], [export_plaintext]) and
    [restore_to_new_vault], which creates a file, opens and unlocks it and adds the
    archived accounts through the same handlers as the user.

    The handle is that of [Rekey] over the tables of [Registries]; a handler of
    [IdentityOps] runs on the account tables of the handle by [in_accounts]. *)

From Stdlib Require Import String.
From S2P Require Import Prelude Bytes Text Cbor SeedPhrase RecoveryBackup StoreError Totp Account Search RevisionGraph SessionPolicy Database AccountOps Payload IdentityOps Hydrate MultiDevice Escrow KeyStore Rekey Registries Export KdbxMap KdbxImport.
Open Scope Z_scope.

(** ** The account tables of a handle *)

Section lens.
Context {Index P : Type}.
Notation VK := (Vault (KeyDb Tables) AccountSnapshot Z Index).
Notation VD := (Vault Database AccountSnapshot Z Index).
Notation WK := (World (KeyDb Tables) AccountSnapshot Z Index P).
Notation WD := (World Database AccountSnapshot Z Index P).

Definition narrow (v : VK) : VD :=
  mkVault (session_state v) (active v) (session_idle v) (meta_session_idle_secs v) (vault_device_id v)
    (account_tables (tables (db v))).
Definition widen (v : VK) (v' : VD) : VK :=
  mkVault (session_state v') (active v') (session_idle v') (meta_session_idle_secs v') (vault_device_id v')
    (set_tables (set_account_tables (db v') (tables (db v))) (db v)).

Definition narrow_world (w : WK) : WD := mkWorld (narrow (vault w)) (presence w) (ticks w).
Definition widen_world (w : WK) (w' : WD) : WK := mkWorld (widen (vault w) (vault w')) (presence w') (ticks w').

Definition in_accounts {E A} (m : op WD E A) : op WK E A := fun w =>
  let '(r, w') := m (narrow_world w) in (r, widen_world w w').
End lens.

(** ** Archived accounts *)

Definition archived_entry (e : PasswordEntry) : ArchivedPasswordEntry :=
  mkArchivedEntry (password e) (set_at_ms e) (originating_device e).

Definition archived_account (id : AccountId) (created_at_ms : Z) (i : AccountIdentity) : ArchivedAccount :=
  mkArchivedAccount id created_at_ms (display_name i) (tags i) (urls i) (usernames i) (notes i)
    (archived_entry <$> password_history i) (totp_secret i) (totp_params i).

Definition archived_device (d : DeviceIdentity) : ArchivedDevice :=
  mkArchivedDevice (di_device_id d) (di_label d) (registered_at d).

Definition captured_authority (k : ContextKey) (r : AuthorityRow) : store_result CapturedCaptureAuthority :=
  sv ← ok_or (u16_try_from (ar_schema_version r)) CaptureAuthorityValidation;
  Ok (mkCaptured k.1 k.2 (mkAuthorityRow (ar_authority_kind r) (ar_component_id r) (ar_component_version r) (ar_registered_at r) sv)).

Definition gather_archive_capture_authorities (t : Tables) : store_result (list CapturedCaptureAuthority) :=
  collect ((fun kr => captured_authority kr.1 kr.2) <$> registry_rows t).

(** ORDER BY account_id ASC. *)
Definition id_le (a b : AccountId * AccountRow) : Prop := a.1 <= b.1.
#[export] Instance id_le_dec : RelDecision id_le.
Proof. intros a b. unfold id_le. apply _. Defined.

Definition selected_rows (d : Database) (selection : AccountSelection) : list (AccountId * AccountRow) :=
  filter (fun x => includes selection x.1 = true)
    (filter (fun x => tombstoned x.2 = false) (merge_sort id_le (map_to_list (account_identities d)))).

(** The draft of an archived account; a placeholder stands in for no user name. *)
Definition to_str (b : list Z) : list Z := from_utf8_lossy b.
Definition NO_USERNAME : list Z := bytes_of "(no username)".

Definition first_pw (entries : list ArchivedPasswordEntry) : list Z :=
  match entries with [] => [] | e :: _ => ae_password e end.

Definition restore_draft (a : ArchivedAccount) (pw : list Z) : AccountIdentityDraft :=
  mkDraft (to_str (aa_display_name a)) (to_str <$> aa_tags a)
    match aa_usernames a with [] => [NO_USERNAME] | l => to_str <$> l end
    (to_str <$> aa_urls a) (to_str (aa_notes a)) pw (aa_totp_secret a) (aa_totp_params a).

(** What is on disk. *)
Record VaultFile : Type := mkVaultFile { file_store : Store; file_devices : DeviceTables; file_tables : Tables }.

Definition empty_tables : Tables := mkTables (mkDatabase ∅ ∅ ∅ ∅ None None None 0) ∅.

Section vault.
Context `{!Primitives, !Cbor.Cbor}.
Context {Index P : Type} `{!PresenceProof P} `{!SearchIndexOps Index SearchProjection} (index_empty : Index).
Context (clock wall rng : nat -> Z) (wrap_schema : Z).
Context (argon2id : list Z -> list Z -> KdfParams -> option Z).
Context (ed25519_public : Z -> Z) (derive_evm_address derive_evm_wallet verifying_key : Z -> option Z).
Context (nfc to_lowercase : list Z -> list Z) (url_parse : list Z -> option (list Z))
        (url_host : list Z -> option (option (list Z))).
Context (aead_seal : Z -> Z -> list Z -> list Z -> option (list Z))
        (open_identity : Z -> Z -> list Z -> Aad -> store_result (DecodedPayload AccountIdentity))
        (archive_seal : Z -> list Z -> list Z -> list Z -> option (list Z)).

Notation VK := (Vault (KeyDb Tables) AccountSnapshot Z Index).
Notation WK := (World (KeyDb Tables) AccountSnapshot Z Index P).
Notation WD := (World Database AccountSnapshot Z Index P).
Notation vop := (op WK StoreError).

Definition vault_id_of (v : VK) : Z := vm_vault_id (mem_meta (db v)).

(** ** Exporting *)

(** The ciphertext of the head, after its nonce. *)
Definition export_payload (id : AccountId) : vop (list Z) :=
  check_session_freshness clock ≫= fun _ =>
  refuse_if_frozen id ≫= fun _ =>
  refuse_if_requires_upgrade id ≫= fun _ =>
  ensure_presence_fresh clock wall ≫= fun _ =>
  d ← gets (fun w => account_tables (tables (db (vault w))));
  a ← lift (ok_or (account_identities d !! id) AccountNotFound);
  r ← lift (ok_or (t_revisions d !! head_revision_id a) AccountNotFound);
  if tombstoned a then throw AccountTombstoned
  else touch_session clock ≫= fun _ => mret (to_be_bytes NONCE_LEN (Database.enc_nonce r) ++ Database.enc_payload r).

(** One account; [None] when it is skipped. *)
Definition gather_account (v : VK) (x : AccountId * AccountRow) : store_result (option ArchivedAccount) :=
  if account_requires_upgrade v x.1 then Ok None
  else
    match read_head_identity (vault_id_of v) open_identity x.1 (narrow v) with
    | Ok i => Ok (Some (archived_account x.1 (account_created_at x.2) i))
    | Err AccountTombstoned => Ok None
    | Err e => Err e
    end.

Definition gather_archive_snapshot (selection : AccountSelection) : vop ArchiveSnapshot :=
  now_ms ← unix_ms_now wall;
  v ← gets vault;
  accounts ← lift (collect (gather_account v <$> selected_rows (account_tables (tables (db v))) selection));
  devices ← lift (list_devices verifying_key (store (db v)) (vault_device_id v));
  capture_authorities ← lift (gather_archive_capture_authorities (tables (db v)));
  mret (mkArchive ARCHIVE_SNAPSHOT_SCHEMA_VERSION (Z.quot now_ms 1000) (vault_device_id v) (vault_id_of v)
          (read_session_idle_secs (store (db v))) (omap id accounts) (archived_device <$> devices) capture_authorities).

Definition export_encrypted (passphrase : list Z) (selection : AccountSelection) : vop (list Z) :=
  check_session_freshness clock ≫= fun _ =>
  ensure_presence_fresh clock wall ≫= fun _ =>
  snapshot ← gather_archive_snapshot selection;
  salt ← drawing (random rng SALT_LEN);
  nonce ← drawing (random rng NONCE_LEN);
  archive ← lift (seal_archive argon2id archive_seal (to_be_bytes SALT_LEN salt) (to_be_bytes NONCE_LEN nonce) passphrase
                    (encode_snapshot snapshot));
  touch_session clock ≫= fun _ => mret archive.

Definition export_plaintext (confirmation : PlaintextExportConfirmationData) (selection : AccountSelection) : vop (list Z) :=
  check_session_freshness clock ≫= fun _ =>
  ensure_presence_fresh clock wall ≫= fun _ =>
  if negb (is_valid confirmation) then throw (Validation "export_not_confirmed")
  else
    snapshot ← gather_archive_snapshot selection;
    touch_session clock ≫= fun _ => mret (render_plaintext snapshot).

(** ** Restoring *)

Section account.
Context (vault_id : Z).
Notation account_add := (account_add clock wall rng vault_id wrap_schema nfc to_lowercase url_parse url_host aead_seal).
Notation account_update :=
  (account_update clock wall rng vault_id wrap_schema nfc to_lowercase url_parse url_host aead_seal open_identity).

Fixpoint replay_all (id : AccountId) (passwords : list (list Z)) : op WD StoreError unit :=
  match passwords with
  | [] => mret tt
  | pw :: rest => account_update id (mk_patch pw) ≫= fun _ => replay_all id rest
  end.

Definition restore_write_account (a : ArchivedAccount) : op WD StoreError AccountId :=
  let entries := reverse (aa_password_history a) in
  id ← account_add (restore_draft a (first_pw entries));
  replay_all id (ae_password <$> tail entries) ≫= fun _ => mret id.

Fixpoint restore_accounts (accounts : list ArchivedAccount) : op WD StoreError unit :=
  match accounts with
  | [] => mret tt
  | a :: accounts => restore_write_account a ≫= fun _ => restore_accounts accounts
  end.
End account.

(** The session data of the unlock; a fresh vault has no account that could abort it. *)
Definition hydrate (d : KeyDb Tables) (key : Z) (old_keys : VdkChain Z) :
    store_result (gmap Z AccountSnapshot * Index * gset Z) :=
  match build_active_state_data (vm_vault_id (mem_meta d)) to_lowercase url_host open_identity (account_tables (tables d)) key old_keys
          index_empty with
  | Ok st => Ok (data_cache st, data_index st, data_requires_upgrade st)
  | Err (Prelude.Failed e) => Err e
  | Err Abort => Err Internal
  end.

Definition restore_unlock (password : list Z) : vop unit :=
  unlock clock wall (unlock_seed argon2id) unlock_unwrap unlock_chain hydrate
    (unlock_device rng ed25519_public derive_evm_address) derive_evm_wallet (mkPin password).

Definition put_idle_setting (session_idle_secs : option Z) : vop unit :=
  match session_idle_secs with
  | Some secs => modify (map_db (fun d => set_store (write_session_idle_secs (Some secs) (store d)) d))
  | None => mret tt
  end.

Definition restore_session (password : list Z) (snap : ArchiveSnapshot) : vop unit :=
  restore_unlock password ≫= fun _ =>
  put_idle_setting (ar_session_idle_secs snap) ≫= fun _ =>
  v ← gets vault;
  in_accounts (restore_accounts (vault_id_of v) (ar_accounts snap)).

Definition file_of (v : VK) : VaultFile := mkVaultFile (store (db v)) (devices (db v)) (tables (db v)).

(** The result, and the file that is left: what was committed before an error stays. *)
Definition restore_to_new_vault (confirmed : P) (password : list Z) (now_ms : Z) (snap : ArchiveSnapshot) (k : nat) :
    store_result unit * option VaultFile :=
  match create (Snapshot := AccountSnapshot) (Index := Index) rng argon2id password now_ms empty_tables k with
  | (Err e, _) => (Err e, None)
  | (Ok v, k) =>
      match open_vault (Snapshot := AccountSnapshot) (Index := Index) rng (store (db v)) (devices (db v)) (tables (db v)) k with
      | (Err e, _) => (Err e, Some (file_of v))
      | (Ok v', _) => let '(r, w) := restore_session password snap (mkWorld v' confirmed 0) in (r, Some (file_of (vault w)))
      end
  end.
End vault.

(** ** Facts: restoring the accounts *)

(** The passwords an archived account comes back with, the newest first. *)
Definition restored_passwords (a : ArchivedAccount) : list (list Z) :=
  match aa_password_history a with [] => [[]] | l => ae_password <$> l end.

Definition oldest (a : ArchivedAccount) : list Z := first_pw (reverse (aa_password_history a)).

Lemma restored_passwords_spec a :
  restored_passwords a = reverse (ae_password <$> tail (reverse (aa_password_history a))) ++ [oldest a].
Proof.
  unfold restored_passwords, oldest. destruct (reverse (aa_password_history a)) as [|e l] eqn:Er.
  - apply (f_equal reverse) in Er. rewrite reverse_involutive in Er. by rewrite Er.
  - apply (f_equal reverse) in Er. rewrite reverse_involutive, reverse_cons in Er. rewrite Er. cbn [tail first_pw].
    rewrite <- fmap_reverse. destruct (reverse l ++ [e]) eqn:E; [by destruct (reverse l)|]. rewrite <- E. by rewrite fmap_app.
Qed.

Section restoring.
Context `{!Cbor.Cbor, !CborLaws _}.
Context {Index P : Type} `{!PresenceProof P} `{!SearchIndexOps Index SearchProjection}.
Context (memory : Z) (memory_lo : 32 <= memory) (memory_hi : memory <= I64_MAX).
Context (clock wall rng : nat -> Z) (vault_id wrap_schema : Z).
Context (nfc to_lowercase : list Z -> list Z) (url_parse : list Z -> option (list Z))
        (url_host : list Z -> option (option (list Z))).
Context (aead_seal aead_open : Z -> Z -> list Z -> list Z -> option (list Z))
        (open_identity : Z -> Z -> list Z -> Aad -> store_result (DecodedPayload AccountIdentity)).

Notation WD := (World Database AccountSnapshot Z Index P).
Notation replay_all := (replay_all clock wall rng wrap_schema nfc to_lowercase url_parse url_host aead_seal open_identity vault_id).
Notation restore_write_account :=
  (restore_write_account clock wall rng wrap_schema nfc to_lowercase url_parse url_host aead_seal open_identity vault_id).
Notation restore_accounts :=
  (restore_accounts clock wall rng wrap_schema nfc to_lowercase url_parse url_host aead_seal open_identity vault_id).
Notation importing := (importing vault_id nfc to_lowercase url_parse open_identity).
Notation imported_as := (imported_as nfc to_lowercase url_parse).
Notation draft_sizes := (draft_sizes memory nfc to_lowercase url_parse).

Hypothesis aead_opens : forall k n m a c, aead_seal k n m a = Some c -> aead_open k n c a = Some m.
Hypothesis opens_payload : forall k n ct a p,
  open_identity_payload memory aead_open k n ct a = Ok p -> open_identity k n ct a = Ok p.
Hypothesis schema_ok : 0 <= wrap_schema <= REVISION_SCHEMA_VERSION_MAX.
Context (room : nat).
Hypothesis memory_room : Z.of_nat PASSWORD_MAX_BYTES <= memory /\ Z.of_nat room * PASSWORD_ENTRY_SIZE <= memory.

Lemma replay_all_importing w0 draft id l :
  draft_sizes (vault_device_id (vault w0)) draft -> is_id (vault_device_id (vault w0)) ->
  forall (w w' : WD) pws i, importing w0 w draft id pws i -> is_Some (active (vault w)) -> (length pws + length l <= room)%nat ->
  replay_all id l w = (Ok tt, w') -> exists i', importing w0 w' draft id (reverse l ++ pws) i' /\ is_Some (active (vault w')).
Proof using aead_opens opens_payload memory_lo memory_hi memory_room CborLaws0 schema_ok.
  intros Hd Hdev. induction l as [|pw l IH]; intros w w' pws i Hi Hact Hl Hr; cbn [VaultExport.replay_all] in Hr.
  { injection Hr as <-. by exists i. }
  cbn [length] in Hl. apply op_bind_Ok in Hr as (rid & w1 & Hup & Hr).
  destruct (importing_step memory memory_lo memory_hi clock wall rng vault_id wrap_schema nfc to_lowercase url_parse url_host aead_seal
    aead_open open_identity aead_opens opens_payload schema_ok room memory_room _ _ _ _ _ _ _ _ _ Hi Hd Hdev ltac:(lia) Hup)
    as [[? _]|[i1 Hi1]]; [done|].
  apply account_update_inv in Hup as (? & ? & a' & ? & ? & ? & ? & [_ _ _ _ _ _ _ _ _ _ Ha' _]).
  destruct (IH w1 w' _ i1 Hi1 ltac:(by exists a') ltac:(cbn [length]; lia) Hr) as (i' & Hi' & Hact').
  exists i'. split; [|done]. by rewrite reverse_cons, <- app_assoc.
Qed.

Lemma restore_write_account_importing a (w w' : WD) id :
  restore_write_account a w = (Ok id, w') ->
  draft_sizes (vault_device_id (vault w)) (restore_draft a (oldest a)) -> is_id (vault_device_id (vault w)) ->
  0 <= period_seconds (aa_totp_params a) -> (length (restored_passwords a) <= room)%nat ->
  exists i, importing w w' (restore_draft a (oldest a)) id (restored_passwords a) i /\ is_Some (active (vault w')).
Proof using aead_opens opens_payload memory_lo memory_hi memory_room CborLaws0 schema_ok.
  intros Hr Hd Hdev Hper Hl. unfold VaultExport.restore_write_account in Hr. apply op_bind_Ok in Hr as (id1 & w1 & Hadd & Hr).
  apply op_bind_Ok in Hr as ([] & w2 & Hrep & Hr). injection Hr as -> <-.
  destruct (importing_start memory memory_lo memory_hi clock wall rng vault_id wrap_schema nfc to_lowercase url_parse url_host aead_seal
    aead_open open_identity aead_opens opens_payload schema_ok room memory_room _ _ _ _ Hadd Hd Hdev Hper) as (i & Hi & Hact).
  rewrite restored_passwords_spec in *. rewrite length_app, length_reverse in Hl. cbn [length] in Hl.
  eapply replay_all_importing in Hrep as (i' & Hi' & Hact'); [|exact Hd|exact Hdev|exact Hi|exact Hact|cbn [length]; lia].
  by exists i'.
Qed.

(** The tables [d] hold the archived account [x.1] as the account [x.2]: under [key] its
    head reads as what its draft makes, with its passwords. *)
Definition holds_account (dev key : Z) (d : Database) (x : ArchivedAccount * AccountId) : Prop :=
  exists acc r i, account_identities d !! x.2 = Some acc /\ tombstoned acc = false
    /\ t_revisions d !! head_revision_id acc = Some r
    /\ imported_as dev (restore_draft x.1 (oldest x.1)) (restored_passwords x.1) i
    /\ forall (v : Vault Database AccountSnapshot Z Index) b,
         t_revisions (db v) !! head_revision_id acc = Some r -> active v = Some b -> vdk b = key ->
         read_identity_at vault_id open_identity x.2 (head_revision_id acc) v = Ok i.

Lemma read_identity_row (v : Vault Database AccountSnapshot Z Index) id rid i :
  read_identity_at vault_id open_identity id rid v = Ok i -> is_Some (t_revisions (db v) !! rid).
Proof. unfold read_identity_at. destruct (t_revisions (db v) !! rid); [by eexists|done]. Qed.

Lemma importing_holds a (w w' : WD) id i key :
  importing w w' (restore_draft a (oldest a)) id (restored_passwords a) i ->
  (exists b, active (vault w') = Some b /\ vdk b = key) ->
  holds_account (vault_device_id (vault w)) key (db (vault w')) (a, id).
Proof.
  intros [_ (acc & Hacc & Hlive & Hread) _ _ Has] (b & Hb & Hk). pose proof (Hread b Hb) as Hi.
  destruct (read_identity_row _ _ _ _ Hi) as [r Hr]. exists acc, r, i. rewrite Hacc. cbn [fst snd].
  split_and!; [by rewrite lookup_insert_eq|done|done|done|]. intros v b' Hrow Hv Hk'. rewrite <- Hi.
  eapply read_identity_at_frame; [|exact Hb|exact Hv|by rewrite Hk']. by rewrite Hr, Hrow.
Qed.

(** More rows do not hide an account. *)
Lemma holds_account_mono dev key d d' x :
  holds_account dev key d x -> account_identities d' !! x.2 = account_identities d !! x.2 ->
  t_revisions d ⊆ t_revisions d' -> holds_account dev key d' x.
Proof.
  intros (acc & r & i & Hacc & Hl & Hr & Has & Hread) He Hs. exists acc, r, i. rewrite He.
  split_and!; try done. by eapply lookup_weaken.
Qed.

Lemma restore_write_account_keeps a : moves key_kept (restore_write_account a : op WD StoreError AccountId).
Proof.
  unfold VaultExport.restore_write_account. apply moves_bind; [apply _|apply account_add_keeps|intros id].
  apply moves_bind; [apply _| |intros _; apply moves_ret, _]. generalize (ae_password <$> tail (reverse (aa_password_history a))).
  intros l. induction l as [|pw l IH]; cbn [VaultExport.replay_all]; [apply moves_ret, _|].
  apply moves_bind; [apply _|apply account_update_keeps|done].
Qed.

(** What the accounts ask of the room there is. *)
Definition account_sizes (dev : Z) (a : ArchivedAccount) : Prop :=
  draft_sizes dev (restore_draft a (oldest a)) /\ 0 <= period_seconds (aa_totp_params a)
  /\ (length (restored_passwords a) <= room)%nat.

Lemma restore_accounts_hold accounts (w w' : WD) key :
  restore_accounts accounts w = (Ok tt, w') -> (exists b, active (vault w) = Some b /\ vdk b = key) ->
  is_id (vault_device_id (vault w)) -> Forall (account_sizes (vault_device_id (vault w))) accounts ->
  exists ids, length ids = length accounts /\ NoDup ids
    /\ Forall (holds_account (vault_device_id (vault w)) key (db (vault w'))) (zip accounts ids)
    /\ (forall id, id ∈ ids -> account_identities (db (vault w)) !! id = None)
    /\ (forall id, id ∉ ids -> account_identities (db (vault w')) !! id = account_identities (db (vault w)) !! id)
    /\ t_revisions (db (vault w)) ⊆ t_revisions (db (vault w'))
    /\ exists b, active (vault w') = Some b /\ vdk b = key.
Proof using aead_opens opens_payload memory_lo memory_hi memory_room CborLaws0 schema_ok.
  revert w. induction accounts as [|a accounts IH]; intros w Hr Hkey Hdev Hs; cbn [VaultExport.restore_accounts] in Hr.
  { injection Hr as <-. exists []. split_and!; try done; [constructor|]. intros id Hid. by apply elem_of_nil in Hid. }
  apply op_bind_Ok in Hr as (id & w1 & Hw & Hr). apply Forall_cons in Hs as [(Hd & Hper & Hl) Hs].
  destruct (restore_write_account_importing _ _ _ _ Hw Hd Hdev Hper Hl) as (i & Hi & [b1 Hb1]).
  pose proof Hi as [Hfresh (acc & Hacc & _) Hrev Hdevw _].
  assert (Hk1 : exists b, active (vault w1) = Some b /\ vdk b = key).
  { pose proof (restore_write_account_keeps a w) as Hkk. rewrite Hw in Hkk. destruct Hkk as [_ Hkk]. destruct (Hkk _ Hb1) as (b & Hb & Hk).
    destruct Hkey as (b0 & Hb0 & Hk0). exists b1. split; [done|]. cbn in Hb. rewrite Hb0 in Hb. injection Hb as <-. by rewrite Hk. }
  pose proof (importing_holds _ _ _ _ _ _ Hi Hk1) as Hhold. rewrite <- Hdevw in *.
  destruct (IH w1 Hr Hk1 Hdev Hs) as (ids & E1 & E2 & E3 & E4 & E5 & E6 & E7).
  assert (Hid : id ∉ ids).
  { intros Hin. apply E4 in Hin. by rewrite Hacc, lookup_insert_eq in Hin. }
  exists (id :: ids). split_and!; [cbn; by rewrite E1|by constructor| | | |by etrans|done].
  - cbn [zip zip_with]. constructor; [|done]. apply (holds_account_mono _ _ _ _ _ Hhold); [by apply E5|done].
  - intros id' [->|Hin]%elem_of_cons; [done|]. apply E4 in Hin. rewrite Hacc, lookup_insert_ne in Hin; [done|].
    intros ->. by rewrite lookup_insert_eq in Hin.
  - intros id' [Hne Hin]%not_elem_of_cons. rewrite E5 by done. by rewrite Hacc, lookup_insert_ne by congruence.
Qed.

Lemma held_ids dev key d accounts ids :
  length ids = length accounts -> Forall (holds_account dev key d) (zip accounts ids) ->
  (forall i, i ∉ ids -> account_identities d !! i = None) -> forall i, is_Some (account_identities d !! i) <-> i ∈ ids.
Proof.
  intros Hl Hh Hn i. split; intros Hi.
  - destruct (decide (i ∈ ids)) as [|Hni]; [done|]. rewrite (Hn i Hni) in Hi. by destruct Hi.
  - apply list_elem_of_lookup in Hi as (n & Hi). assert (Ha : is_Some (accounts !! n))
      by (apply lookup_lt_is_Some; rewrite <- Hl; exact (lookup_lt_Some _ _ _ Hi)).
    destruct Ha as [a Ha]. assert (Hz : zip accounts ids !! n = Some (a, i)) by (apply lookup_zip_with_Some; by exists a, i).
    destruct (Forall_lookup_1 _ _ _ _ Hh Hz) as (acc & r & i' & Hacc & _). by exists acc.
Qed.
End restoring.

(** ** Facts: the new file *)

Section file.
Context `{!Primitives, !PrimitiveLaws}.
Context {Index : Type} (rng : nat -> Z).
Context (argon2id : list Z -> list Z -> KdfParams -> option Z).
Context (ed25519_public : Z -> Z) (derive_evm_address : Z -> option Z).

Notation V := (Vault (KeyDb Tables) AccountSnapshot Z Index).
Notation opening := (open_vault (Snapshot := AccountSnapshot) (Index := Index) rng).

(** This password opens a file with these tables, under any use of the random generator,
    and gives this vault key. *)
Definition opens_with (pw : list Z) (m : VaultMeta) (key : Z) (f : VaultFile) : Prop :=
  exists seed, forall j, exists (v : V) j', opening (file_store f) (file_devices f) (file_tables f) j = (Ok v, j')
    /\ mem_meta (db v) = m /\ tables (db v) = file_tables f
    /\ unlock_seed argon2id (db v) pw = Ok seed
    /\ forall s, unlock_unwrap (db v) s = if decide (s = seed) then Ok key else Err AuthenticationFailed.

Lemma open_vault_Ok st devs rest m j :
  read_meta st = Ok (Some m) -> exists (v : V) j', opening st devs rest j = (Ok v, j')
    /\ db v = mkKeyDb st m j' devs rest /\ session_state v = Locked /\ active v = None
    /\ meta_session_idle_secs v = read_session_idle_secs st.
Proof.
  intros Hm. unfold open_vault. rewrite Hm.
  rewrite (op_bind_run (lift (Ok (Some m))) _ j (Some m) j eq_refl).
  rewrite (op_bind_run (lift (ok_or (Some m) BadMagic)) _ j m j eq_refl).
  destruct (read_registered_device_id st); cbn; do 2 eexists; split_and!; done.
Qed.

Lemma open_vault_inv st devs rest m j (v : V) j' :
  read_meta st = Ok (Some m) -> opening st devs rest j = (Ok v, j') -> db v = mkKeyDb st m j' devs rest.
Proof.
  intros Hm Hr. destruct (open_vault_Ok st devs rest m j Hm) as (v1 & j1 & Hr1 & Hd & _). rewrite Hr in Hr1. by injection Hr1 as <- <-.
Qed.

(** The tables of a new file. *)
Lemma created_file pw now_ms (schema : Tables) k (v : V) k' :
  create rng argon2id pw now_ms schema k = (Ok v, k') ->
  exists m key seed, locked_with argon2id m key seed pw /\ store (db v) = write_revisionlog_version (Some 1) (write_meta m no_rows)
    /\ read_meta (store (db v)) = Ok (Some m) /\ devices (db v) = mkDeviceTables ∅ ∅ /\ tables (db v) = schema.
Proof.
  intros Hr. unfold create in Hr. apply op_bind_Ok in Hr as (vid & k1 & Hvid & Hr). apply random_inv in Hvid.
  apply op_bind_Ok in Hr as (salt & k2 & Hs & Hr). apply random_inv in Hs.
  apply op_bind_Ok in Hr as (a & k3 & Ha & Hr). injection Ha as Ha <-.
  apply op_bind_Ok in Hr as (vk & k4 & Hvk & Hr). apply random_inv in Hvk.
  apply op_bind_Ok in Hr as (w & k5 & Hw & Hr). apply wrap_inv in Hw as (Hw & Hc & Hn); [|done].
  apply op_bind_Ok in Hr as (did & k6 & _ & Hr). apply op_bind_Ok in Hr as (kk & k7 & Hkk & Hr). injection Hkk as <- <-.
  injection Hr as <- _. set (m := mkVaultMeta vid now_ms RECOMMENDED salt (WrapContext_new vid) (ciphertext w) (wrap_nonce w)).
  assert (Hl : locked_with argon2id m vk a pw) by by apply locked_of_wrap.
  exists m, vk, a. split_and!; try done. cbn [db store].
  assert (Hok : meta_ok m) by (eapply locked_meta_ok; [exact Hl|done]). exact (read_write_meta m no_rows Hok).
Qed.

(** The settings do not change what opens the file. *)
Lemma settings_meta f st : (forall r, raw_meta (f r) = raw_meta r) -> read_meta (update_settings f st) = read_meta st.
Proof. intros Hf. unfold read_meta, update_settings. cbn. destruct (meta_row st) as [r|]; [|done]. cbn. by rewrite Hf. Qed.

Lemma opens_locked pw m key seed f :
  locked_with argon2id m key seed pw -> read_meta (file_store f) = Ok (Some m) -> opens_with pw m key f.
Proof.
  intros Hl Hm. exists seed. intros j. destruct (open_vault_Ok _ (file_devices f) (file_tables f) m j Hm) as (v & j' & Hv & Hd & _).
  exists v, j'. rewrite Hd. split_and!; [done|done|done|apply (lw_seed _ _ _ _ _ Hl)|].
  intros s. by apply (unwrap_locked argon2id m key seed pw).
Qed.

(** The first unlock registers the device and leaves the other tables alone. *)
Lemma first_unlock_device (d d' : KeyDb Tables) key now id dev :
  device_rows (store d) = ∅ -> unlock_device rng ed25519_public derive_evm_address d key now = Ok (d', id, dev) ->
  exists row k key_row, id = ed25519_public dev
    /\ d' = set_draws k (set_store (set_devices {[ id := row ]} (set_device_key key_row (store d))) d).
Proof.
  intros Hnone Hr. unfold unlock_device, load_or_register_device in Hr.
  assert (Hid : read_registered_device_id (store d) = None) by (unfold read_registered_device_id; by rewrite Hnone, map_to_list_empty).
  rewrite Hid in Hr.
  destruct ((random rng KEY_LEN ≫= _) (draws d)) as [[[[st id1] dev1]|e] k] eqn:Er; [|done]. injection Hr as <- <- <-.
  apply op_bind_Ok in Er as (x & k1 & _ & Er). apply op_bind_Ok in Er as ([id2 st2] & k2 & Hreg & Er). injection Er as <- <- <- <-.
  unfold register_device in Hreg. apply op_bind_Ok in Hreg as (row & k3 & _ & Hreg).
  apply op_bind_Ok in Hreg as (addr & k4 & _ & Hreg). injection Hreg as <- <- _.
  eexists _, _, _. split; [done|]. cbn [device_rows set_device_key]. by rewrite Hnone.
Qed.
End file.

(** ** Facts: a restored vault *)

Section restored.
Context `{!Primitives, !PrimitiveLaws, !Cbor.Cbor, !CborLaws _}.
Context {Index P : Type} `{!PresenceProof P} `{!SearchIndexOps Index SearchProjection} (index_empty : Index).
Context (memory : Z) (memory_lo : 32 <= memory) (memory_hi : memory <= I64_MAX).
Context (clock wall rng : nat -> Z) (wrap_schema : Z).
Context (argon2id : list Z -> list Z -> KdfParams -> option Z).
Context (ed25519_public : Z -> Z) (derive_evm_address derive_evm_wallet : Z -> option Z).
Context (nfc to_lowercase : list Z -> list Z) (url_parse : list Z -> option (list Z))
        (url_host : list Z -> option (option (list Z))).
Context (aead_seal aead_open : Z -> Z -> list Z -> list Z -> option (list Z))
        (open_identity : Z -> Z -> list Z -> Aad -> store_result (DecodedPayload AccountIdentity)).

Notation VK := (Vault (KeyDb Tables) AccountSnapshot Z Index).
Notation WK := (World (KeyDb Tables) AccountSnapshot Z Index P).
Notation restore_unlock := (restore_unlock index_empty clock wall rng argon2id ed25519_public derive_evm_address derive_evm_wallet
  to_lowercase url_host open_identity).
Notation restore_to_new_vault := (restore_to_new_vault index_empty clock wall rng wrap_schema argon2id ed25519_public
  derive_evm_address derive_evm_wallet nfc to_lowercase url_parse url_host aead_seal open_identity).

Hypothesis aead_opens : forall k n m a c, aead_seal k n m a = Some c -> aead_open k n c a = Some m.
Hypothesis opens_payload : forall k n ct a p,
  open_identity_payload memory aead_open k n ct a = Ok p -> open_identity k n ct a = Ok p.
Hypothesis schema_ok : 0 <= wrap_schema <= REVISION_SCHEMA_VERSION_MAX.
Context (room : nat).
Hypothesis memory_room : Z.of_nat PASSWORD_MAX_BYTES <= memory /\ Z.of_nat room * PASSWORD_ENTRY_SIZE <= memory.
(** A public key is 32 bytes. *)
Hypothesis public_id : forall k, is_id (ed25519_public k).

Lemma restore_unlock_inv pw (w w' : WK) u :
  restore_unlock pw w = (Ok u, w') -> device_rows (store (db (vault w))) = ∅ ->
  exists seed key b id dev now d, unlock_seed argon2id (db (vault w)) pw = Ok seed /\ unlock_unwrap (db (vault w)) seed = Ok key
    /\ active (vault w') = Some b /\ vdk b = key
    /\ unlock_device rng ed25519_public derive_evm_address (db (vault w)) key now = Ok (d, id, dev)
    /\ vault_device_id (vault w') = id /\ db (vault w') = d.
Proof.
  intros Hr Hnone. unfold VaultExport.restore_unlock in Hr. revert Hr.
  match goal with |- unlock ?a1 ?a2 ?a3 ?a4 ?a5 ?a6 ?a7 ?a8 ?a9 ?a10 = _ -> _ =>
    destruct (unlock_eq a1 a2 a3 a4 a5 a6 a7 a8 a9 a10) as [t ->] end.
  destruct (presence_verify _ _) as [[[]|e] p]; [|done]. cbn [identity_verify derive_secret Pin_identity].
  unfold Pin_verify, Pin_derive_secret. cbn [pin]. destruct pw as [|c pw]; [done|]. unfold open_session.
  destruct (unlock_seed argon2id (db (vault w)) (c :: pw)) as [seed|] eqn:Es; [|done]. cbn [mbind result_bind].
  destruct (unlock_unwrap (db (vault w)) seed) as [key|] eqn:Eu; [|done]. cbn [mbind result_bind].
  destruct (unlock_chain _ _) as [old|]; [|done]. cbn [mbind result_bind].
  destruct (hydrate _ _ _ _ _ _ _) as [[[sn ix] up]|]; [|done]. cbn [mbind result_bind].
  destruct (unlock_device _ _ _ _ _ _) as [[[d id] dev]|] eqn:Ed; [|done].
  destruct (derive_evm_wallet dev); intros [= _ <-]. do 7 eexists. split_and!; [done|done|done|done|exact Ed|done|done].
Qed.

Lemma idle_setting_run o (w w' : WK) u :
  put_idle_setting o w = (Ok u, w') ->
  active (vault w') = active (vault w) /\ vault_device_id (vault w') = vault_device_id (vault w)
  /\ db (vault w') = match o with Some secs => set_store (write_session_idle_secs (Some secs) (store (db (vault w)))) (db (vault w))
                     | None => db (vault w) end.
Proof. unfold put_idle_setting, map_db, modify. by destruct o; intros [= _ <-]. Qed.

Lemma in_accounts_inv {E A} (m : op (World Database AccountSnapshot Z Index P) E A) (w w' : WK) r :
  in_accounts m w = (r, w') -> exists wd, m (narrow_world w) = (r, wd) /\ w' = widen_world w wd.
Proof. unfold in_accounts. destruct (m _) as [r' wd]. intros [= <- <-]. by exists wd. Qed.

(** C8. A restored vault has the accounts of the archive.  When [restore_to_new_vault]
    succeeds, the new password opens the file, under every later use of the random
    generator, and no other seed does; the accounts of the file are one per archived
    account, in distinct new ids and no others; under the key that the password opens the
    head of each reads as what the validated draft of its archived fields makes, with
    exactly the archived passwords in their order; the one trusted device is the new one,
    no capture authority is carried over, and the idle setting is that of the archive. *)
Theorem restore_reads_back confirmed pw now_ms snap k file :
  restore_to_new_vault confirmed pw now_ms snap k = (Ok tt, Some file) ->
  (forall dev, Forall (account_sizes memory nfc to_lowercase url_parse room dev) (ar_accounts snap)) ->
  exists m key dev ids,
    opens_with (Index := Index) rng argon2id pw m key file
    /\ length ids = length (ar_accounts snap) /\ NoDup ids
    /\ (forall id, is_Some (account_identities (account_tables (file_tables file)) !! id) <-> id ∈ ids)
    /\ Forall (holds_account (Index := Index) (vm_vault_id m) nfc to_lowercase url_parse open_identity dev key (account_tables (file_tables file)))
         (zip (ar_accounts snap) ids)
    /\ (exists row, device_rows (file_store file) = {[ dev := row ]})
    /\ registry (file_tables file) = ∅
    /\ read_session_idle_secs (file_store file) = ar_session_idle_secs snap.
Proof using All.
  intros Hr Hs. unfold VaultExport.restore_to_new_vault in Hr.
  destruct (create _ _ _ _ _ k) as [[v|e] k1] eqn:Hc; [|done].
  apply created_file in Hc as (m & key & seed & Hl & Hst & Hm & Hdev & Htab).
  destruct (open_vault _ _ _ _ k1) as [[v'|e] k2] eqn:Ho; [|done].
  apply (open_vault_inv rng) with (m := m) in Ho; [|done].
  destruct (restore_session _ _ _ _ _ _ _ _ _ _ _ _ _ _ _ pw snap _) as [[[]|e] w] eqn:Hsess; [|done]. injection Hr as <-.
  unfold restore_session in Hsess. apply op_bind_Ok in Hsess as (u1 & w1 & Hun & Hsess).
  apply op_bind_Ok in Hsess as (u2 & w2 & Hidle & Hsess). apply op_bind_Ok in Hsess as (v2 & w2' & Hg & Hsess). injection Hg as <- <-.
  assert (Hnone : device_rows (store (db v')) = ∅) by (rewrite Ho, Hst; done).
  apply restore_unlock_inv in Hun as (s1 & key1 & b & id & dev & now & d & Hs1 & Hk1 & Hact & Hkey & Hud & Hid & Hdb); [|done].
  apply first_unlock_device in Hud as (row & kk & key_row & -> & Hd); [|done]. cbn [vault] in *.
  assert (key1 = key) as ->.
  { rewrite (unwrap_locked argon2id m key seed pw (db v') s1 Hl) in Hk1 by (by rewrite Ho). destruct (decide _); [by injection Hk1|done]. }
  apply idle_setting_run in Hidle as (Hact2 & Hid2 & Hdb2). apply in_accounts_inv in Hsess as (wd & Hacc & ->).
  assert (Hvid : vault_id_of (vault w2) = vm_vault_id m).
  { unfold vault_id_of. rewrite Hdb2, Hdb, Hd. by destruct (ar_session_idle_secs snap); cbn; rewrite Ho. }
  assert (Htabs : tables (db (vault w2)) = empty_tables).
  { rewrite Hdb2, Hdb, Hd. by destruct (ar_session_idle_secs snap); cbn; rewrite Ho; cbn; rewrite Htab. }
  rewrite Hvid in Hacc.
  apply (restore_accounts_hold memory memory_lo memory_hi) with (aead_open := aead_open) (room := room) (key := key) in Hacc
    as (ids & E1 & E2 & E3 & E4 & E5 & E6 & _); try done.
  2: { exists b. cbn. by rewrite Hact2. }
  2: { cbn. by rewrite Hid2, Hid. }
  cbn [narrow_world narrow vault db vault_device_id] in *. rewrite Hid2, Hid in E3. rewrite Htabs in E4, E5. cbn in E4, E5.
  set (f := file_of _). assert (Hfile : file_store f = store (db (vault w2))) by done.
  assert (Hstore : store (db (vault w2)) = (match ar_session_idle_secs snap with Some s => write_session_idle_secs (Some s) | None => fun x => x end)
    (set_devices {[ed25519_public dev := row]} (set_device_key key_row (write_revisionlog_version (Some 1) (write_meta m no_rows))))).
  { rewrite Hdb2, Hdb, Hd. by destruct (ar_session_idle_secs snap); cbn; rewrite Ho, Hst. }
  exists m, key, (ed25519_public dev), ids. split_and!; try done.
  - apply (opens_locked rng argon2id pw m key seed); [done|]. rewrite Hfile, Hstore.
    rewrite Hst in Hm. by destruct (ar_session_idle_secs snap).
  - change (account_tables (file_tables f)) with (db (vault wd)). eapply held_ids; [done|exact E3|].
    intros i Hi. by rewrite (E5 i Hi), lookup_empty.
  - exists row. rewrite Hfile, Hstore. by destruct (ar_session_idle_secs snap).
  - cbn. by rewrite Htabs.
  - rewrite Hfile, Hstore. by destruct (ar_session_idle_secs snap).
Qed.
End restored.

(** ** Facts: what an export contains *)

Section exported.
Context `{!Primitives, !Cbor.Cbor, !CborLaws _}.
Context {Index P : Type} `{!PresenceProof P}.
Context (memory : Z) (memory_enough : MAX_BLOB_LEN <= memory).
Context (clock wall rng : nat -> Z).
Context (argon2id : list Z -> list Z -> KdfParams -> option Z) (verifying_key : Z -> option Z).
Context (open_identity : Z -> Z -> list Z -> Aad -> store_result (DecodedPayload AccountIdentity)).
Context (archive_seal archive_open : Z -> list Z -> list Z -> list Z -> option (list Z)).
Hypothesis archive_law : forall k n m a ct, archive_seal k n m a = Some ct ->
  archive_open k n ct a = Some m /\ Z.of_nat (length ct) = Z.of_nat (length m) + RecoveryBackup.TAG_LEN.

Notation VK := (Vault (KeyDb Tables) AccountSnapshot Z Index).
Notation WK := (World (KeyDb Tables) AccountSnapshot Z Index P).
Notation accounts_of v := (account_identities (account_tables (tables (db v)))).
Notation gather_account := (gather_account open_identity).
Notation gather_archive_snapshot := (gather_archive_snapshot wall verifying_key open_identity).
Notation export_encrypted := (export_encrypted clock wall rng argon2id verifying_key open_identity archive_seal).
Notation head_of v id := (read_head_identity (vault_id_of v) open_identity id (narrow v)).

#[local] Instance id_le_trans : Transitive id_le.
Proof. intros a b c. unfold id_le. lia. Qed.
#[local] Instance id_le_total : Total id_le.
Proof. intros a b. unfold id_le. lia. Qed.

Lemma StronglySorted_filter {A} (R : relation A) (Q : A -> Prop) `{!forall x, Decision (Q x)} l :
  StronglySorted R l -> StronglySorted R (filter Q l).
Proof.
  induction 1 as [|x l Hs IH Hx]; [constructor|]. rewrite filter_cons. destruct (decide (Q x)); [|done].
  constructor; [done|]. apply Forall_forall. intros y [_ Hy]%list_elem_of_filter. rewrite Forall_forall in Hx. by apply Hx.
Qed.

(** The accounts an export is about. *)
Definition exportable (v : VK) (selection : AccountSelection) (id : AccountId) (acc : AccountRow) : Prop :=
  accounts_of v !! id = Some acc /\ tombstoned acc = false /\ includes selection id = true
  /\ account_requires_upgrade v id = false.

Record gathered (v : VK) (selection : AccountSelection) (snap : ArchiveSnapshot) : Prop := mkGathered {
  ga_accounts : forall a, a ∈ ar_accounts snap <-> exists id acc i, exportable v selection id acc
    /\ head_of v id = Ok i /\ a = archived_account id (account_created_at acc) i;
  ga_readable : forall id acc, exportable v selection id acc -> is_ok (head_of v id) = true \/ head_of v id = Err AccountTombstoned;
  ga_sorted : StronglySorted Z.lt (aa_account_id <$> ar_accounts snap);
  ga_devices : exists l, list_devices verifying_key (store (db v)) (vault_device_id v) = Ok l /\ ar_devices snap = archived_device <$> l;
  ga_rest : ar_snapshot_schema snap = ARCHIVE_SNAPSHOT_SCHEMA_VERSION /\ source_device_id snap = vault_device_id v
    /\ ar_vault_id snap = vault_id_of v /\ ar_session_idle_secs snap = read_session_idle_secs (store (db v))
}.

Lemma selected_rows_spec d selection id acc :
  (id, acc) ∈ selected_rows d selection <->
  account_identities d !! id = Some acc /\ tombstoned acc = false /\ includes selection id = true.
Proof.
  unfold selected_rows. rewrite !list_elem_of_filter, elem_of_merge_sort, elem_of_map_to_list. cbn. tauto.
Qed.

Lemma selected_rows_sorted d selection : StronglySorted Z.lt ((selected_rows d selection).*1).
Proof.
  assert (Hnd : NoDup (selected_rows d selection).*1).
  { unfold selected_rows. do 2 apply NoDup_fmap_filter. rewrite (merge_sort_Permutation _ _). apply NoDup_fst_map_to_list. }
  assert (Hs : StronglySorted id_le (selected_rows d selection)).
  { unfold selected_rows. do 2 apply StronglySorted_filter. apply merge_sort_sorted; apply _. }
  induction Hs as [|x l Hs IH Hx]; [constructor|]. rewrite fmap_cons in *. apply NoDup_cons in Hnd as [Hn Hnd].
  constructor; [by apply IH|]. apply Forall_forall. intros y (z & -> & Hz)%list_elem_of_fmap.
  rewrite Forall_forall in Hx. specialize (Hx z Hz). unfold id_le in Hx.
  assert (x.1 <> z.1); [|lia]. intros He. apply Hn. rewrite He. by apply list_elem_of_fmap_2.
Qed.

Lemma gather_account_Ok (v : VK) x o :
  gather_account v x = Ok o ->
  match o with
  | Some a => account_requires_upgrade v x.1 = false
      /\ exists i, head_of v x.1 = Ok i /\ a = archived_account x.1 (account_created_at x.2) i
  | None => account_requires_upgrade v x.1 = true \/ head_of v x.1 = Err AccountTombstoned
  end.
Proof.
  unfold VaultExport.gather_account. destruct (account_requires_upgrade v x.1); [intros [= <-]; by left|].
  destruct (head_of v x.1) as [i|e] eqn:E; [intros [= <-]; eauto|]. destruct e; try done. intros [= <-]. by right.
Qed.

Lemma gather_inv selection (w w' : WK) snap :
  gather_archive_snapshot selection w = (Ok snap, w') ->
  gathered (vault w) selection snap /\ w' = mkWorld (vault w) (presence w) (S (ticks w)).
Proof.
  intros Hr. unfold VaultExport.gather_archive_snapshot in Hr. apply op_bind_Ok in Hr as (now & w1 & Hnow & Hr).
  injection Hnow as <- <-. apply op_bind_Ok in Hr as (v & w2 & Hv & Hr). injection Hv as <- <-. cbn [vault] in Hr.
  apply op_bind_Ok in Hr as (accounts & w3 & Ha & Hr). unfold lift in Ha. injection Ha as Ha <-.
  apply op_bind_Ok in Hr as (devs & w4 & Hdv & Hr). unfold lift in Hdv. injection Hdv as Hdv <-.
  apply op_bind_Ok in Hr as (auths & w5 & Hau & Hr). unfold lift in Hau. injection Hau as _ <-. injection Hr as <- <-.
  apply collect_Forall2 in Ha. split; [|done].
  assert (Hx : forall id acc, exportable (vault w) selection id acc ->
    exists o, o ∈ accounts /\ gather_account (vault w) (id, acc) = Ok o).
  { intros id acc (H1 & H2 & H3 & _). assert (Hin : (id, acc) ∈ selected_rows (account_tables (tables (db (vault w)))) selection)
      by by apply selected_rows_spec.
    apply list_elem_of_lookup in Hin as (n & Hn). destruct (Forall2_lookup_l _ _ _ _ _ Ha Hn) as (o & Ho & Hg).
    exists o. split; [by eapply list_elem_of_lookup_2|done]. }
  split; cbn [ar_accounts ar_devices ar_snapshot_schema source_device_id ar_vault_id ar_session_idle_secs]; [| | |by exists devs|done].
  - intros a. rewrite list_elem_of_omap. split.
    + intros (o & Ho & Hoa). cbn in Hoa. subst o. apply list_elem_of_lookup in Ho as (n & Hn).
      destruct (Forall2_lookup_r _ _ _ _ _ Ha Hn) as ([id acc] & Hrow & Hg). apply gather_account_Ok in Hg as (Hup & i & Hi & ->).
      apply list_elem_of_lookup_2, selected_rows_spec in Hrow as (H1 & H2 & H3). by exists id, acc, i.
    + intros (id & acc & i & He & Hi & ->). destruct (Hx id acc He) as (o & Ho & Hg). exists o. split; [done|].
      unfold VaultExport.gather_account in Hg. destruct He as (_ & _ & _ & Hup). cbn [fst snd] in Hg. rewrite Hup, Hi in Hg. by injection Hg as <-.
  - intros id acc He. destruct (Hx id acc He) as (o & _ & Hg). apply gather_account_Ok in Hg. cbn [fst] in Hg.
    destruct He as (_ & _ & _ & Hup). destruct o as [a|]; [left; by destruct Hg as (_ & i & -> & _)|right].
    destruct Hg as [Hg|]; [congruence|done].
  - clear Hx. pose proof (selected_rows_sorted (account_tables (tables (db (vault w)))) selection) as Hs. revert accounts Ha Hs.
    generalize (selected_rows (account_tables (tables (db (vault w)))) selection). intros rows accounts Ha.
    induction Ha as [|x o rows accounts Hg Ha IH]; intros Hs; [constructor|]. rewrite fmap_cons in Hs.
    apply StronglySorted_inv in Hs as [Hs Hall]. apply gather_account_Ok in Hg. cbn [omap list_omap id].
    destruct o as [a|]; [|by apply IH]. destruct Hg as (_ & i & _ & ->). rewrite fmap_cons. constructor; [by apply IH|].
    apply Forall_forall. intros y (b & -> & Hb)%list_elem_of_fmap. apply list_elem_of_omap in Hb as (ob & Hob & Hobb). cbn in Hobb. subst ob.
    apply list_elem_of_lookup in Hob as (n & Hn). destruct (Forall2_lookup_r _ _ _ _ _ Ha Hn) as (z & Hz & Hg).
    apply gather_account_Ok in Hg as (_ & i' & _ & ->). cbn [aa_account_id archived_account].
    rewrite Forall_forall in Hall. apply Hall, list_elem_of_fmap_2. by eapply list_elem_of_lookup_2.
Qed.

(** Proving presence changes nothing an export reads. *)
Lemma gathered_frame (v : VK) a now selection snap :
  active v = Some a -> gathered (set_active (Some (set_last_presence now a)) v) selection snap -> gathered v selection snap.
Proof.
  intros Ha [G1 G2 G3 G4 G5]. set (v' := set_active _ v) in *.
  assert (Hh : forall id, head_of v' id = head_of v id).
  { intros id. unfold read_head_identity, read_identity_at. cbn. by rewrite Ha. }
  assert (He : forall id acc, exportable v' selection id acc <-> exportable v selection id acc).
  { intros id acc. unfold exportable, account_requires_upgrade. cbn. by rewrite Ha. }
  split; [| |done|done|done].
  - intros x. rewrite G1. by setoid_rewrite He; setoid_rewrite Hh.
  - intros id acc Hx. rewrite <- Hh. apply (G2 id acc). by apply He.
Qed.

(** C30. What an encrypted export contains.  [export_encrypted] succeeds only in a session
    that has not run out, with presence that is fresh or verified now, and writes nothing
    but the draws of the salt and the nonce.  What it seals is a snapshot with exactly the
    live accounts that the selection includes and that need no upgrade, as their heads
    read now, in the order of their ids, with the device list and the idle setting; an
    account whose head does not open makes the export fail.  The archive opens under the
    passphrase as this very snapshot unless it is past a limit of the decoder. *)
Theorem export_encrypted_contents passphrase selection (w w' : WK) archive :
  export_encrypted passphrase selection w = (Ok archive, w') ->
  exists snap,
    (exists e l s, session_state (vault w) = Active e l s /\ clock (ticks w) <= e)
    /\ (exists a, active (vault w) = Some a
        /\ (presence_is_fresh a (clock (S (ticks w))) = true
            \/ is_ok (presence_verify (wall (S (S (ticks w)))) (presence w)).1 = true))
    /\ (exists k, db (vault w') = set_draws k (db (vault w)))
    /\ gathered (vault w) selection snap
    /\ (archive_typed snap -> decode_archive memory argon2id archive_open archive passphrase =
          if archive_fits snap && (Z.of_nat (length (encode_snapshot snap)) + RecoveryBackup.TAG_LEN <=? MAX_CIPHERTEXT_LEN)
          then Ok snap else Err (Prelude.Failed fmt_err)).
Proof using All.
  intros Hr. unfold VaultExport.export_encrypted in Hr. apply op_bind_Ok in Hr as ([] & w1 & Hc & Hr).
  apply check_session_freshness_Ok in Hc as (Hsess & ->). apply op_bind_Ok in Hr as ([] & w2 & Hp & Hr).
  apply op_bind_Ok in Hr as (snap & w3 & Hg & Hr). apply gather_inv in Hg as [Hg ->].
  apply op_bind_Ok in Hr as (salt & w4 & Hsalt & Hr). apply drawing_inv in Hsalt as (k1 & Hs1 & ->).
  apply op_bind_Ok in Hr as (nonce & w5 & Hnonce & Hr). apply drawing_inv in Hnonce as (k2 & Hs2 & ->).
  apply op_bind_Ok in Hr as (arc & w6 & Hseal & Hr). unfold lift in Hseal. injection Hseal as Hseal <-.
  apply op_bind_Ok in Hr as ([] & w7 & Ht & Hr). injection Hr as -> <-.
  match type of Ht with touch_session _ ?w0 = _ => destruct (touch_session_total clock w0) as (w8 & Ht' & _ & _ & Hdb) end.
  rewrite Ht in Ht'. injection Ht' as <-. rewrite ensure_presence_fresh_eq in Hp. cbn [vault ticks presence] in Hp.
  destruct (active (vault w)) as [a|] eqn:Ha; [|done].
  assert (Hp' : (presence_is_fresh a (clock (S (ticks w))) = true
      \/ is_ok (presence_verify (wall (S (S (ticks w)))) (presence w)).1 = true)
    /\ (vault w2 = vault w \/ vault w2 = set_active (Some (set_last_presence (clock (S (ticks w))) a)) (vault w))).
  { destruct (presence_is_fresh a _); [injection Hp as <-; split; by left|].
    destruct (presence_verify _ _) as [[[]|e] p]; [|done]. injection Hp as <-. split; by right. }
  destruct Hp' as [Hpres Hv]. exists snap. split_and!; [done|by exists a| | |].
  - exists k2. rewrite Hdb. cbn. by destruct Hv as [-> | ->].
  - destruct Hv as [Hv|Hv]; rewrite Hv in Hg; [done|]. by apply (gathered_frame _ a) in Hg.
  - intros Htyp. apply (decode_sealed memory memory_enough argon2id archive_seal archive_open archive_law) in Hseal; [done|done|reflexivity|reflexivity].
Qed.
End exported.

(** ** Examples *)

Module RestoreSample.
Import EscrowSample KeyStoreSample RekeySample PayloadSample IdentitySample ExportSample.

Definition toy_public (key : Z) : Z := key mod 256 ^ 32.

Notation sample_restore := (restore_to_new_vault (Index := SearchIndex) (P := PressYPresenceProof) new_empty sample_clock sample_clock toy_rng 1
  toy_argon2id toy_public toy_address (fun k => Some k) id to_ascii_lowercase Some SearchSample.host record_seal sample_open).

(** The archive of the format's sample and an account with no user name and no password. *)
Definition two_accounts : ArchiveSnapshot :=
  mkArchive 2 1700000000 7 9 (Some 900)
    [mkArchivedAccount 1 1600000000000 (bytes_of "GitHub") [bytes_of "work"] [bytes_of "https://github.com"] [bytes_of "octocat"]
       (bytes_of "recovery") [mkArchivedEntry (bytes_of "new") 1650000000000 2; mkArchivedEntry (bytes_of "old") (-5) 3] [1; 2; 3] default_params;
     mkArchivedAccount 4 5 (bytes_of "bare") [] [] [] [] [mkArchivedEntry (bytes_of "one") 5 2] [] default_params]
    [mkArchivedDevice 2 (bytes_of "laptop") 1600000000000]
    [mkCaptured 1 (bytes_of "chrome") (mkAuthorityRow 1 (bytes_of "ext") [] 5 1)].

Definition restored : store_result unit * option VaultFile := sample_restore (PressY_confirmed 0) [7] 0 two_accounts 0%nat.

Example restored_names :
  match restored with
  | (r, Some f) => r = Ok tt /\ size (account_identities (account_tables (file_tables f))) = 2%nat
      /\ size (t_revisions (account_tables (file_tables f))) = 3%nat /\ read_session_idle_secs (file_store f) = Some 900
  | _ => False
  end.
Proof. vm_compute. split_and!; reflexivity. Qed.

Ltac account_fits :=
  split; [intros now i Hv; vm_compute in Hv; injection Hv as <-; split; unfold few, small, memory; repeat constructor; vm_compute; discriminate
         |split; [vm_compute; discriminate|apply Nat.leb_le; vm_compute; reflexivity]].

Lemma two_accounts_fit dev : Forall (account_sizes memory id to_ascii_lowercase Some (S (S HISTORY_MAX)) dev) (ar_accounts two_accounts).
Proof.
  apply Forall_cons_2; [account_fits|]. apply Forall_cons_2; [account_fits|apply Forall_nil_2].
Qed.

Lemma restore_reads_back_witness :
  exists file m key dev ids, restored = (Ok tt, Some file) /\ opens_with (Index := SearchIndex) toy_rng toy_argon2id [7] m key file
    /\ length ids = 2%nat /\ (forall i, is_Some (account_identities (account_tables (file_tables file)) !! i) <-> i ∈ ids)
    /\ Forall (holds_account (Index := SearchIndex) (vm_vault_id m) id to_ascii_lowercase Some sample_open dev key
                 (account_tables (file_tables file))) (zip (ar_accounts two_accounts) ids).
Proof.
  destruct restored as [r o] eqn:Hr.
  assert (Hok : r = Ok tt) by (change r with (fst (r, o)); rewrite <- Hr; vm_compute; reflexivity).
  assert (Hsome : is_Some o) by (change o with (snd (r, o)); rewrite <- Hr; vm_compute; eexists; reflexivity).
  destruct Hsome as [file Hf]. rewrite Hok, Hf in Hr.
  destruct (restore_reads_back new_empty memory ltac:(vm_compute; discriminate) ltac:(vm_compute; discriminate) sample_clock sample_clock toy_rng 1
    toy_argon2id toy_public toy_address (fun k => Some k) id to_ascii_lowercase Some SearchSample.host record_seal record_open sample_open
    record_opens sample_opens ltac:(vm_compute; split; discriminate) (S (S HISTORY_MAX)) ltac:(vm_compute; split; discriminate)
    (fun k => Z.mod_pos_bound k (256 ^ 32) eq_refl) (PressY_confirmed 0) [7] 0 two_accounts 0%nat file Hr two_accounts_fit)
    as (m & key & dev & ids & H1 & H2 & _ & H3 & H4 & _).
  exists file, m, key, dev, ids. split; [by rewrite Hok, Hf|]. split; [exact H1|]. split; [exact H2|]. split; [exact H3|exact H4].
Defined.

(** *** Exporting *)

Notation WK := (World (KeyDb Tables) AccountSnapshot Z SearchIndex PressYPresenceProof).

(** The sample vault, its account frozen or not, unlocked with this key. *)
Definition export_world (frozen : bool) (key : Z) : WK :=
  let d := mkDatabase {[ 2 := mkAccountRow 10 10 false 3 frozen ]} {[ 3 := sample_row ]} ∅ ∅ None None None 0 in
  let s := mkActiveState key (mkVdkChain ∅ 2) (cache sample_session) (search_index sample_session) 1 2 (Some 0) ∅ None false false None in
  mkWorld (mkVault (Active (from_secs 900) 0 0) (Some s) Min15 None 9
    (mkKeyDb no_rows (mkVaultMeta 1 0 RECOMMENDED 0 (WrapContext_new 1) [] 0) 0%nat (mkDeviceTables ∅ ∅) (mkTables d ∅))) (PressY_confirmed 0) 0%nat.

Definition key_seal (key : Z) : list Z -> list Z -> list Z -> option (list Z) := toy_seal (to_be_bytes KEY_LEN key).
Definition key_open (key : Z) : list Z -> list Z -> list Z -> option (list Z) := toy_open (to_be_bytes KEY_LEN key).
Lemma key_law k n m a ct : key_seal k n m a = Some ct ->
  key_open k n ct a = Some m /\ Z.of_nat (length ct) = Z.of_nat (length m) + RecoveryBackup.TAG_LEN.
Proof. apply toy_law. Qed.
Definition sample_decode (b : list Z) : result (failure StoreError) ArchiveSnapshot :=
  decode_archive (64 * 1024 * 1024) toy_argon2id key_open b sample_pw.

Definition sample_export (w : WK) : result StoreError (list Z) * WK :=
  export_encrypted sample_clock sample_clock toy_rng toy_argon2id (fun x => Some x) sample_open key_seal sample_pw AllAccounts w.
Definition sample_payload (w : WK) : result StoreError (list Z) * WK := export_payload sample_clock sample_clock 2 w.

(** An export opens with what is in the vault; it holds a frozen account, which
    [export_payload] refuses; after a rotation the old accounts make it fail. *)
Example sample_exports :
  match sample_export (export_world false 77) with
  | (Ok b, _) => match sample_decode b with
                 | Ok snap => ar_accounts snap = [archived_account 2 10 sample_identity]
                 | Err _ => False end
  | _ => False
  end
  /\ is_ok (sample_payload (export_world false 77)).1 = true
  /\ is_ok (sample_export (export_world true 77)).1 = true
  /\ (sample_payload (export_world true 77)).1 = Err (AccountFrozenPendingResolve 2)
  /\ is_ok (sample_export (export_world false 78)).1 = false.
Proof. vm_compute. split_and!; reflexivity. Qed.

Lemma export_encrypted_contents_witness :
  exists archive w' snap, sample_export (export_world false 77) = (Ok archive, w')
    /\ gathered (fun x => Some x) sample_open (vault (export_world false 77)) AllAccounts snap.
Proof.
  destruct (sample_export (export_world false 77)) as [r w'] eqn:Hr.
  assert (Hok : is_ok r = true) by (change r with (fst (r, w')); rewrite <- Hr; vm_compute; reflexivity).
  destruct r as [archive|]; [|discriminate Hok].
  destruct (export_encrypted_contents (64 * 1024 * 1024) ltac:(discriminate) sample_clock sample_clock toy_rng toy_argon2id
    (fun x => Some x) sample_open key_seal key_open key_law sample_pw AllAccounts (export_world false 77) w' archive Hr) as (snap & _ & _ & _ & Hg & _).
  exists archive, w', snap. split; [reflexivity|exact Hg].
Defined.
End RestoreSample.
