(* ===== verification/Pwgen.v ===== *)
(** * The password generator

    crates/pangolin-core/src/pwgen.rs: the policy, the index draw by rejection sampling,
    and [generate], which places a character of each class, fills the rest and shuffles.

    [generate] is written over the source of its indices.  The program draws them from the
    bytes of the system generator ([uniform_index]; the state is the list of the bytes to
    come); [drawn] reads them from a list.  So the outcomes can be counted, over all draws
    and over all byte strings of a length.  [strength] wraps a library and
    [entropy_bits] is a floating-point product; of the latter there is the size of the
    alphabet. *)

From Stdlib Require Import String.
From S2P Require Import Prelude Bytes.
Open Scope Z_scope.

(** ** Policies *)

Definition PWGEN_LENGTH_MIN : Z := 8.
Definition PWGEN_LENGTH_MAX : Z := 128.
Definition PWGEN_LENGTH_DEFAULT : Z := 16.

Definition UPPER : list Z := bytes_of "ABCDEFGHIJKLMNOPQRSTUVWXYZ".
Definition LOWER : list Z := bytes_of "abcdefghijklmnopqrstuvwxyz".
Definition DIGITS : list Z := bytes_of "0123456789".
Definition SYMBOLS : list Z := [33; 34] ++ bytes_of "#$%&'()*+,-./:;<=>?@[\]^_`{|}~".
Definition AMBIGUOUS : list Z := bytes_of "0O1lI|".

Record PwgenPolicy : Type := mkPolicy {
  pw_length : Z;
  uppercase : bool;
  lowercase : bool;
  digits : bool;
  symbols : bool;
  exclude_ambiguous : bool
}.

Definition default_policy : PwgenPolicy := mkPolicy PWGEN_LENGTH_DEFAULT true true true true true.

Definition enabled_class_count (p : PwgenPolicy) : Z :=
  Z.b2z (uppercase p) + Z.b2z (lowercase p) + Z.b2z (digits p) + Z.b2z (symbols p).

(** A refused policy, a panic, and the end of the bytes that a run of the model is given. *)
Inductive Stop : Type := PasswordPolicy | Panic | Starved.

Definition validate (p : PwgenPolicy) : result Stop unit :=
  let k := enabled_class_count p in
  if k =? 0 then Err PasswordPolicy
  else if (pw_length p <? PWGEN_LENGTH_MIN) || (PWGEN_LENGTH_MAX <? pw_length p) then Err PasswordPolicy
  else if pw_length p <? k then Err PasswordPolicy
  else Ok tt.

Definition strip (p : PwgenPolicy) (src : list Z) : list Z :=
  if exclude_ambiguous p then filter (fun b => b ∉ AMBIGUOUS) src else src.

(** The enabled classes, and their union. *)
Definition class_of (p : PwgenPolicy) (enabled : bool) (src : list Z) : list (list Z) :=
  if enabled then [strip p src] else [].
Definition alphabets (p : PwgenPolicy) : list (list Z) * list Z :=
  let classes := class_of p (uppercase p) UPPER ++ class_of p (lowercase p) LOWER ++ class_of p (digits p) DIGITS
                 ++ class_of p (symbols p) SYMBOLS in
  (classes, mjoin classes).
Definition alphabet_size (p : PwgenPolicy) : nat := length (alphabets p).2.

(** ** Generating *)

Section generate.
Context {Rng : Type} (index : nat -> op Rng Stop nat).

Definition pick (class : list Z) (slots : list Z) : op Rng Stop (list Z) :=
  idx ← index (length class);
  b ← lift (ok_or (class !! idx) Panic);
  mret (slots ++ [b]).

(** One character of every class. *)
Fixpoint seed_slots (classes : list (list Z)) (slots : list Z) : op Rng Stop (list Z) :=
  match classes with
  | [] => mret slots
  | class :: classes => slots ← pick class slots; seed_slots classes slots
  end.

(** [n] more characters. *)
Fixpoint fill_slots (n : nat) (combined : list Z) (slots : list Z) : op Rng Stop (list Z) :=
  match n with
  | O => mret slots
  | S n => slots ← pick combined slots; fill_slots n combined slots
  end.

Definition swap (i j : nat) (slots : list Z) : result Stop (list Z) :=
  x ← ok_or (slots !! i) Panic;
  y ← ok_or (slots !! j) Panic;
  Ok (<[i := y]> (<[j := x]> slots)).

(** The rounds of the shuffle from [i] down. *)
Fixpoint shuffle (i : nat) (slots : list Z) : op Rng Stop (list Z) :=
  match i with
  | S (S _ as i') => j ← index i; slots ← lift (swap i' j slots); shuffle i' slots
  | _ => mret slots
  end.

Definition generate (policy : PwgenPolicy) : op Rng Stop (list Z) :=
  lift (validate policy) ≫= fun _ =>
  let '(classes, combined) := alphabets policy in
  let len := Z.to_nat (pw_length policy) in
  slots ← seed_slots classes [];
  slots ← fill_slots (len - length slots) combined slots;
  slots ← shuffle len slots;
  if utf8 slots then mret slots else throw Panic.
End generate.

(** *** Indices from random bytes *)

(** The loop: a byte of [fill_random] at a time, until one is below the limit. *)
Fixpoint reject (limit n : Z) (bytes : list Z) : result Stop nat * list Z :=
  match bytes with
  | [] => (Err Starved, [])
  | v :: bytes => if v <? limit then (Ok (Z.to_nat (v mod n)), bytes) else reject limit n bytes
  end.

Definition uniform_index (n : nat) : op (list Z) Stop nat :=
  if (n =? 1)%nat then mret 0%nat else reject (256 - 256 mod Z.of_nat n) (Z.of_nat n).

(** *** Indices from a list *)

Definition drawn (_ : nat) : op (list nat) Stop nat := fun ds =>
  match ds with [] => (Err Starved, []) | d :: ds => (Ok d, ds) end.

(** ** What is counted *)

Open Scope nat_scope.

(** The bounds of the draws of a policy, and all draws within bounds. *)
Fixpoint shuffle_bounds (i : nat) : list nat :=
  match i with S (S _ as i') => i :: shuffle_bounds i' | _ => [] end.

Definition slot_classes (p : PwgenPolicy) : list (list Z) :=
  (alphabets p).1 ++ replicate (Z.to_nat (pw_length p) - length (alphabets p).1) (alphabets p).2.

Definition draw_bounds (p : PwgenPolicy) : list nat :=
  (length <$> slot_classes p) ++ shuffle_bounds (Z.to_nat (pw_length p)).

Fixpoint all_draws (bounds : list nat) : list (list nat) :=
  match bounds with
  | [] => [[]]
  | b :: bounds => d ← seq 0 b; cons d <$> all_draws bounds
  end.

Definition gives (s : list Z) (r : result Stop (list Z) * list nat) : bool :=
  match r with (Ok s', []) => bool_decide (s' = s) | _ => false end.

(** The number of draws after which the generator returns [s]. *)
Definition ways (p : PwgenPolicy) (s : list Z) : nat :=
  length (filter (fun ds => gives s (generate drawn p ds) = true) (all_draws (draw_bounds p))).

Definition yields (s : list Z) (r : result Stop (list Z) * list Z) : bool :=
  match r with (Ok s', _) => bool_decide (s' = s) | _ => false end.

(** The number of byte strings of length [L] on which the generator returns [s]. *)
Definition outcomes (p : PwgenPolicy) (L : nat) (s : list Z) : nat :=
  length (filter (fun bs => yields s (generate uniform_index p (Z.of_nat <$> bs)) = true) (all_draws (replicate L 256))).

(** And on which the draw of an index below [n] returns [d]. *)
Definition index_outcomes (n L d : nat) : nat :=
  length (filter (fun bs => match uniform_index n (Z.of_nat <$> bs) with (Ok d', _) => d' =? d | _ => false end = true)
            (all_draws (replicate L 256))).

(** The characters of [s] in a class. *)
Definition members (class s : list Z) : nat := length (filter (fun b => b ∈ class) s).

Definition product (l : list nat) : nat := foldr Nat.mul 1 l.

(** ** Sums over draws *)

Definition tally (P : list nat -> bool) (bounds : list nat) : nat :=
  length (filter (fun ds => P ds = true) (all_draws bounds)).

Lemma length_filter_bind {A B} (P : B -> bool) (f : A -> list B) l :
  length (filter (fun y => P y = true) (l ≫= f)) = sum_list_with (fun x => length (filter (fun y => P y = true) (f x))) l.
Proof. induction l as [|x l IH]; [done|]. rewrite bind_cons, filter_app, length_app, IH. done. Qed.

Lemma length_filter_map {A B} (P : B -> bool) (f : A -> B) l :
  length (filter (fun y => P y = true) (f <$> l)) = length (filter (fun x => P (f x) = true) l).
Proof. induction l as [|x l IH]; [done|]. rewrite fmap_cons, !filter_cons. destruct (decide (P (f x) = true)); cbn [length]; by rewrite IH. Qed.

Lemma tally_nil P : tally P [] = if P [] then 1 else 0.
Proof. unfold tally. cbn [all_draws]. rewrite filter_cons. by destruct (P []). Qed.

Lemma tally_cons P b bounds :
  tally P (b :: bounds) = sum_list_with (fun d => tally (fun ds => P (d :: ds)) bounds) (seq 0 b).
Proof.
  unfold tally. cbn [all_draws]. rewrite length_filter_bind. induction (seq 0 b) as [|d l IH]; [done|]. cbn [sum_list_with].
  by rewrite IH, length_filter_map.
Qed.

Lemma tally_ext P Q bounds : (forall ds, Forall2 lt ds bounds -> P ds = Q ds) -> tally P bounds = tally Q bounds.
Proof.
  revert P Q. induction bounds as [|b bounds IH]; intros P Q H; [rewrite !tally_nil, H by constructor; done|].
  rewrite !tally_cons. assert (Hs : Forall (fun d => d < b) (seq 0 b)) by (apply Forall_seq; lia).
  induction Hs as [|d l Hd _ IHl]; [done|]. cbn [sum_list_with]. rewrite IHl. f_equal. apply IH. intros ds Hds. apply H. by constructor.
Qed.

Lemma tally_false bounds : tally (fun _ => false) bounds = 0.
Proof.
  induction bounds as [|b bounds IH]; [by rewrite tally_nil|]. rewrite tally_cons. induction (seq 0 b) as [|d l IHl]; [done|].
  cbn [sum_list_with]. by rewrite IHl, IH.
Qed.

Lemma sum_ext {A} (f g : A -> nat) l : (forall x, x ∈ l -> f x = g x) -> sum_list_with f l = sum_list_with g l.
Proof.
  induction l as [|x l IH]; [done|]. intros H. cbn [sum_list_with]. rewrite H, IH; [done| |left].
  intros y Hy. apply H. by right.
Qed.

Lemma sum_zero {A} (f : A -> nat) l : (forall x, x ∈ l -> f x = 0) -> sum_list_with f l = 0.
Proof. intros H. rewrite (sum_ext _ (fun _ => 0)) by done. clear H. induction l as [|x l IH]; [done|exact IH]. Qed.

Lemma sum_mul {A} (f : A -> nat) k l : sum_list_with (fun x => f x * k) l = sum_list_with f l * k.
Proof. induction l as [|x l IH]; [done|]. cbn [sum_list_with]. rewrite IH. lia. Qed.

(** Summing over the indices of a list is summing over the list. *)
Lemma sum_indices (f : Z -> nat) l : sum_list_with (fun d => f (l !!! d)) (seq 0 (length l)) = sum_list_with f l.
Proof.
  induction l as [|x l IH]; [done|]. cbn [length seq sum_list_with]. f_equal. rewrite <- seq_shift, <- IH.
  clear IH. induction (seq 0 (length l)) as [|d s IHs]; [done|]. cbn [map sum_list_with]. by rewrite IHs.
Qed.

(** *** Multiplicities *)

(** One when [y] is [z]. *)
Definition same (z y : Z) : nat := if decide (y = z) then 1 else 0.

Definition occurs (y : Z) (u : list Z) : nat := length (filter (fun z => y = z) u).

Lemma occurs_cons y z u : occurs y (z :: u) = same z y + occurs y u.
Proof. unfold occurs, same. rewrite filter_cons. by destruct (decide (y = z)). Qed.

#[local] Instance occurs_perm y : Proper ((≡ₚ) ==> (=)) (occurs y).
Proof. intros u v H. unfold occurs. by rewrite H. Qed.

#[local] Instance members_perm c : Proper ((≡ₚ) ==> (=)) (members c).
Proof. intros u v H. unfold members. by rewrite H. Qed.

Lemma occurs_none y u : y ∉ u -> occurs y u = 0.
Proof.
  induction u as [|z u IH]; [done|]. intros [Hne Hn]%not_elem_of_cons. rewrite occurs_cons. unfold same. rewrite decide_False by done. by apply IH.
Qed.

Lemma sum_indicator (z : Z) (c : list Z) : NoDup c -> sum_list_with (same z) c = if decide (z ∈ c) then 1 else 0.
Proof.
  induction 1 as [|x c Hx _ IH]; [by rewrite decide_False by apply not_elem_of_nil|]. cbn [sum_list_with]. rewrite IH. unfold same.
  destruct (decide (x = z)) as [->|Hne].
  - rewrite (decide_False _ _ Hx), decide_True by left. done.
  - destruct (decide (z ∈ c)); [rewrite decide_True by by right|rewrite decide_False by (apply not_elem_of_cons; split; congruence)]; done.
Qed.

(** The occurrences of the characters of a class. *)
Lemma sum_occurs c u : NoDup c -> sum_list_with (fun y => occurs y u) c = members c u.
Proof.
  intros Hc. induction u as [|z u IH]; [by apply sum_zero|].
  assert (Hs : sum_list_with (fun y => occurs y (z :: u)) c
    = sum_list_with (same z) c + sum_list_with (fun y => occurs y u) c).
  { clear Hc IH. induction c as [|y c IHc]; [done|]. cbn [sum_list_with]. rewrite IHc, occurs_cons. lia. }
  rewrite Hs, IH, sum_indicator by done. unfold members. rewrite filter_cons. by destruct (decide (z ∈ c)).
Qed.

(** The orders of the positions of [s] that leave it as it is. *)
Fixpoint arrangements (s : list Z) : nat :=
  match s with [] => 1 | y :: s => (1 + occurs y s) * arrangements s end.

#[local] Instance arrangements_perm : Proper ((≡ₚ) ==> (=)) arrangements.
Proof.
  intros u v H. induction H as [|x u v H IH|x y u|u v w _ IH1 _ IH2]; cbn [arrangements]; [done|by rewrite IH, H| |congruence].
  rewrite !occurs_cons. unfold same. destruct (decide (y = x)) as [->|Hne]; [by rewrite !decide_True|]. rewrite !decide_False by congruence. lia.
Qed.

Lemma arrangements_pos s : 1 <= arrangements s.
Proof. induction s; cbn [arrangements]; lia. Qed.

(** ** The shuffle *)

Definition swapped (i j : nat) (l : list Z) : list Z := <[i := l !!! j]> (<[j := l !!! i]> l).

Fixpoint shuffled (i : nat) (l : list Z) (js : list nat) : list Z :=
  match i, js with
  | S (S _ as i'), j :: js => shuffled i' (swapped i' j l) js
  | _, _ => l
  end.

Lemma shuffled_step n l j js : shuffled (S (S n)) l (j :: js) = shuffled (S n) (swapped (S n) j l) js.
Proof. done. Qed.

Lemma swap_run i j l : i < length l -> j < length l -> swap i j l = Ok (swapped i j l).
Proof.
  intros [x Hx]%lookup_lt_is_Some [y Hy]%lookup_lt_is_Some. unfold swap, swapped. rewrite Hx, Hy. cbn.
  by rewrite (list_lookup_total_correct _ _ _ Hx), (list_lookup_total_correct _ _ _ Hy).
Qed.

Lemma length_swapped i j l : length (swapped i j l) = length l.
Proof. unfold swapped. by rewrite !length_insert. Qed.

Lemma shuffle_run i l js rest :
  i <= length l -> Forall2 lt js (shuffle_bounds i) -> shuffle drawn i l (js ++ rest) = (Ok (shuffled i l js), rest).
Proof.
  revert l js. induction i as [|[|n] IH]; intros l js Hi Hjs; try (inversion Hjs; subst; by destruct l).
  cbn [shuffle_bounds] in Hjs. inversion Hjs as [|j ? js' ? Hj Hjs']; subst. cbn [shuffle app].
  rewrite op_bind_eq. cbn [drawn]. rewrite op_bind_eq. unfold lift. rewrite swap_run by lia. apply IH; [|done].
  rewrite length_swapped. lia.
Qed.

Lemma swapped_snoc j (l : list Z) (z : Z) :
  j <= length l -> swapped (length l) j (l ++ [z]) = <[j := z]> l ++ [(l ++ [z]) !!! j].
Proof.
  intros Hj. unfold swapped. rewrite (lookup_total_app_r l [z] (length l)), Nat.sub_diag by lia.
  destruct (decide (j = length l)) as [->|Hne].
  - rewrite lookup_total_app_r, Nat.sub_diag by lia. cbn. rewrite (list_insert_ge l) by lia.
    rewrite !insert_app_r_alt, Nat.sub_diag by lia. done.
  - rewrite (insert_app_l l) by lia. cbn. rewrite insert_app_r_alt by (rewrite length_insert; lia).
    by rewrite length_insert, Nat.sub_diag.
Qed.

Lemma swapped_perm j (l : list Z) (z : Z) : j <= length l -> <[j := z]> l ++ [(l ++ [z]) !!! j] ≡ₚ l ++ [z].
Proof.
  intros Hj. destruct (decide (j = length l)) as [->|Hne].
  - rewrite lookup_total_app_r, Nat.sub_diag, list_insert_ge by lia. done.
  - assert (Hlt : j < length l) by lia. destruct (lookup_lt_is_Some_2 l j Hlt) as [y Hy].
    rewrite lookup_total_app_l, (list_lookup_total_correct _ _ _ Hy) by done.
    pose proof (take_drop_middle l j y Hy) as Hl. rewrite <- Hl at 2. rewrite insert_take_drop by done.
    rewrite <- !app_assoc. cbn. rewrite (Permutation_app_comm (drop (S j) l) [y]), (Permutation_app_comm (drop (S j) l) [z]). cbn.
    by rewrite Permutation_swap.
Qed.

Lemma swapped_app i j (l r : list Z) : i < length l -> j < length l -> swapped i j (l ++ r) = swapped i j l ++ r.
Proof.
  intros Hi Hj. unfold swapped. rewrite (lookup_total_app_l l r j), (lookup_total_app_l l r i), (insert_app_l l) by done.
  by rewrite insert_app_l by (by rewrite length_insert).
Qed.

(** The rounds from [i] down move only the first [i] slots. *)
Lemma shuffled_frame i l r js :
  length l = i -> Forall2 lt js (shuffle_bounds i) -> shuffled i (l ++ r) js = shuffled i l js ++ r.
Proof.
  revert l r js. induction i as [|[|n] IH]; intros l r js Hl Hjs; try by inversion Hjs.
  cbn [shuffle_bounds] in Hjs. inversion Hjs as [|j ? js' ? Hj Hjs']; subst. rewrite !shuffled_step.
  destruct (exists_last (l := l)) as (l0 & z & ->); [by intros ->|]. rewrite length_app in Hl. cbn in Hl.
  assert (E : S n = length l0) by lia. rewrite E.
  rewrite swapped_app, swapped_snoc, <- app_assoc, <- E by (rewrite ?length_app; cbn; lia).
  rewrite !IH by (done || (rewrite length_insert; lia)). by rewrite <- app_assoc.
Qed.

(** Every arrangement of the slots comes from the same number of draws. *)
Lemma shuffle_ways i l s :
  length l = i ->
  tally (fun js => bool_decide (shuffled i l js = s)) (shuffle_bounds i) = if decide (l ≡ₚ s) then arrangements s else 0.
Proof.
  revert l s. induction i as [|[|n] IH]; intros l s Hl.
  - apply nil_length_inv in Hl as ->. cbn [shuffle_bounds shuffled]. rewrite tally_nil. destruct (decide ([] ≡ₚ s)) as [Hp|Hp].
    + apply Permutation_nil in Hp as ->. done.
    + rewrite bool_decide_eq_false_2; [done|]. by intros <-.
  - destruct l as [|x [|]]; try done. cbn [shuffle_bounds shuffled]. rewrite tally_nil. destruct (decide ([x] ≡ₚ s)) as [Hp|Hp].
    + apply Permutation_length_1_inv in Hp as ->. by rewrite bool_decide_eq_true_2.
    + rewrite bool_decide_eq_false_2; [done|]. by intros <-.
  - cbn [shuffle_bounds]. rewrite tally_cons.
    destruct (exists_last (l := l)) as (l0 & z & ->); [by intros ->|]. rewrite length_app in Hl. cbn in Hl. assert (E : S n = length l0) by lia.
    destruct s as [|w s] using rev_ind; [|clear IHs].
    { rewrite decide_False by (intros Hp%Permutation_length; rewrite length_app in Hp; cbn in Hp; lia).
      apply sum_zero. intros j [_ Hj]%elem_of_seq. etrans; [|apply tally_false]. apply tally_ext. intros js Hjs. rewrite shuffled_step.
      rewrite E, swapped_snoc, <- E, shuffled_frame by (done || rewrite ?length_insert; lia).
      apply bool_decide_eq_false_2. by destruct (shuffled _ _ _). }
    etrans; [apply (sum_ext _ (fun j => same w ((l0 ++ [z]) !!! j)
      * (if decide (l0 ++ [z] ≡ₚ s ++ [w]) then arrangements s else 0)))|].
    + intros j [_ Hj]%elem_of_seq. pose proof (swapped_perm j l0 z ltac:(lia)) as Hp.
      set (x := (l0 ++ [z]) !!! j) in *. set (l1 := <[j := z]> l0) in *.
      assert (Hl1 : length l1 = S n) by (unfold l1; by rewrite length_insert).
      trans (tally (fun js => bool_decide (shuffled (S n) l1 js ++ [x] = s ++ [w])) (shuffle_bounds (S n))).
      { apply tally_ext. intros js Hjs. by rewrite shuffled_step, E, swapped_snoc, <- E, shuffled_frame by (done || lia). }
      unfold same. destruct (decide (x = w)) as [->|Hne].
      * rewrite Nat.mul_1_l. trans (if decide (l1 ≡ₚ s) then arrangements s else 0).
        { rewrite <- IH by done. apply tally_ext. intros js _. apply bool_decide_ext. split; [by intros [H _]%app_inj_tail|by intros ->]. }
        assert (Hiff : l1 ≡ₚ s <-> l0 ++ [z] ≡ₚ s ++ [w]) by (rewrite <- Hp; split; [by intros ->|apply Permutation_app_inv_r]).
        by destruct (decide (l1 ≡ₚ s)), (decide (l0 ++ [z] ≡ₚ s ++ [w])); tauto.
      * etrans; [|apply tally_false]. apply tally_ext. intros js _. apply bool_decide_eq_false_2. by intros [_ H]%app_inj_tail.
    + rewrite sum_mul. replace (S (S n)) with (length (l0 ++ [z])) by (rewrite length_app; cbn; lia).
      rewrite sum_indices.
      assert (Ho : sum_list_with (same w) (l0 ++ [z]) = occurs w (l0 ++ [z])).
      { generalize (l0 ++ [z]). intros u. induction u as [|y u IHu]; [done|]. cbn [sum_list_with]. rewrite IHu, occurs_cons. f_equal.
        unfold same. destruct (decide (y = w)) as [->|]; [by rewrite decide_True|by rewrite decide_False by congruence]. }
      rewrite Ho. destruct (decide (l0 ++ [z] ≡ₚ s ++ [w])) as [Hp|]; [|lia]. rewrite Hp, (Permutation_app_comm s [w]). cbn [app arrangements].
      rewrite occurs_cons. unfold same. by rewrite decide_True.
Qed.

(** ** The slots *)

Lemma op_bind_assoc {S Err A B C} (m : op S Err A) (f : A -> op S Err B) (g : B -> op S Err C) s :
  (m ≫= fun a => f a ≫= g) s = ((m ≫= f) ≫= g) s.
Proof. rewrite !op_bind_eq. by destruct (m s) as [[a|e] s1]. Qed.

Lemma op_bind_ext {S Err A B} (m : op S Err A) (f g : A -> op S Err B) s : (forall a s', f a s' = g a s') -> (m ≫= f) s = (m ≫= g) s.
Proof. intros H. rewrite !op_bind_eq. by destruct (m s) as [[a|e] s1]. Qed.

Lemma fill_seed {Rng} (index : nat -> op Rng Stop nat) n combined slots s :
  fill_slots index n combined slots s = seed_slots index (replicate n combined) slots s.
Proof. revert slots s. induction n as [|n IH]; intros slots s; [done|]. cbn [fill_slots seed_slots replicate]. by apply op_bind_ext. Qed.

Lemma seed_app {Rng} (index : nat -> op Rng Stop nat) a b slots s :
  (seed_slots index a slots ≫= seed_slots index b) s = seed_slots index (a ++ b) slots s.
Proof.
  revert slots s. induction a as [|c a IH]; intros slots s; [done|]. cbn [seed_slots app]. rewrite <- op_bind_assoc. by apply op_bind_ext.
Qed.

Lemma seed_length {Rng} (index : nat -> op Rng Stop nat) classes slots st l st' :
  seed_slots index classes slots st = (Ok l, st') -> length l = length slots + length classes.
Proof.
  revert slots st. induction classes as [|c classes IH]; intros slots st Hr; [injection Hr as <- _; cbn; lia|]. cbn [seed_slots] in Hr.
  apply op_bind_Ok in Hr as (l1 & st1 & Hp & Hr). apply IH in Hr. apply op_bind_Ok in Hp as (d & st2 & _ & Hp).
  apply op_bind_Ok in Hp as (b & st3 & _ & Hp). injection Hp as <- _. rewrite Hr, length_app. cbn. lia.
Qed.

Lemma pick_run class slots d rest :
  d < length class -> pick drawn class slots (d :: rest) = (Ok (slots ++ [class !!! d]), rest).
Proof.
  intros [b Hb]%lookup_lt_is_Some. unfold pick. rewrite op_bind_eq. cbn [drawn]. rewrite Hb. cbn.
  by rewrite (list_lookup_total_correct _ _ _ Hb).
Qed.

Definition ascii (l : list Z) : Prop := Forall (fun b => (0 <= b <= 127)%Z) l.

Lemma ascii_snoc acc c y : ascii acc -> ascii c -> y ∈ c -> ascii (acc ++ [y]).
Proof.
  intros Ha Hc Hy. apply Forall_app. split; [done|]. constructor; [|done]. unfold ascii in Hc. rewrite Forall_forall in Hc. by apply Hc.
Qed.

Lemma ascii_swapped i j l : ascii l -> i < length l -> j < length l -> ascii (swapped i j l).
Proof.
  unfold ascii, swapped. intros Hl Hi Hj. apply Forall_insert; [apply Forall_insert; [done|]|]; by apply (Forall_lookup_total_1 _ _ _ Hl).
Qed.

Lemma ascii_shuffled i l js : i <= length l -> Forall2 lt js (shuffle_bounds i) -> ascii l -> ascii (shuffled i l js).
Proof.
  revert l js. induction i as [|[|n] IH]; intros l js Hi Hjs Hl; try (inversion Hjs; by subst).
  cbn [shuffle_bounds] in Hjs. inversion Hjs as [|j ? js' ? Hj Hjs']; subst. rewrite shuffled_step.
  apply IH; [by rewrite length_swapped; lia|done|apply ascii_swapped; [done|lia|lia]].
Qed.

(** What follows the last slot. *)
Definition finish {Rng} (index : nat -> op Rng Stop nat) (len : nat) (slots : list Z) : op Rng Stop (list Z) :=
  slots ← shuffle index len slots; if utf8 slots then mret slots else throw Panic.

Section counting.
Context (len : nat) (s : list Z).

(** The draws for these classes and the shuffle that end in [s]. *)
Definition placed (classes : list (list Z)) (acc : list Z) : nat :=
  tally (fun ds => gives s ((seed_slots drawn classes acc ≫= finish drawn len) ds)) ((length <$> classes) ++ shuffle_bounds len).

Lemma placed_nil acc : length acc = len -> ascii acc -> placed [] acc = if decide (acc ≡ₚ s) then arrangements s else 0.
Proof.
  intros Hl Ha. rewrite <- (shuffle_ways len) by done. apply tally_ext. intros js Hjs. cbn [seed_slots app fmap list_fmap] in *.
  rewrite op_bind_eq. cbn. unfold finish. rewrite op_bind_eq. pose proof (shuffle_run len acc js [] ltac:(lia) Hjs) as Hr.
  rewrite app_nil_r in Hr. rewrite Hr. rewrite utf8_ascii; [done|]. apply ascii_shuffled; [lia|done|done].
Qed.

Lemma placed_cons class classes acc :
  placed (class :: classes) acc = sum_list_with (fun y => placed classes (acc ++ [y])) class.
Proof.
  unfold placed at 1. rewrite fmap_cons. cbn [app]. rewrite tally_cons, <- sum_indices. apply sum_ext. intros d [_ Hd]%elem_of_seq.
  apply tally_ext. intros ds _. cbn [seed_slots]. f_equal. rewrite <- op_bind_assoc, op_bind_eq, pick_run by lia. done.
Qed.

Lemma placed_none classes acc :
  length acc + length classes = len -> ascii acc -> Forall ascii classes ->
  (forall ys, Forall2 (fun y c => y ∈ c) ys classes -> ~ acc ++ ys ≡ₚ s) -> placed classes acc = 0.
Proof.
  revert acc. induction classes as [|c classes IH]; intros acc Hl Ha Hc Hn.
  { rewrite placed_nil; [|cbn in Hl; lia|done]. rewrite decide_False; [done|]. specialize (Hn [] ltac:(constructor)). by rewrite app_nil_r in Hn. }
  rewrite placed_cons. apply sum_zero. intros y Hy. apply Forall_cons in Hc as [Hc1 Hc]. apply IH; [rewrite length_app; cbn in *; lia| |done|].
  - by apply (ascii_snoc acc c).
  - intros ys Hys. rewrite <- app_assoc. apply Hn. by constructor.
Qed.

(** One slot: each of its characters that [u] still needs. *)
Lemma placed_step class classes acc u k :
  NoDup class -> s ≡ₚ acc ++ u -> length acc + S (length classes) = len -> ascii acc -> Forall ascii (class :: classes) ->
  (forall y u', y ∈ class -> u ≡ₚ y :: u' -> placed classes (acc ++ [y]) * arrangements u' = arrangements s * k) ->
  placed (class :: classes) acc * arrangements u = arrangements s * (members class u * k).
Proof.
  intros Hnd Hs Hl Ha Hc Hk. rewrite placed_cons, <- sum_mul, <- sum_occurs by done.
  rewrite (Nat.mul_comm (arrangements s)), <- Nat.mul_assoc, (Nat.mul_comm k), <- sum_mul. apply sum_ext. intros y Hy.
  apply Forall_cons in Hc as [Hc1 Hc]. destruct (decide (y ∈ u)) as [Hin|Hout].
  - apply elem_of_Permutation in Hin as [u' Hu]. rewrite Hu at 1. cbn [arrangements]. rewrite Hu, occurs_cons. unfold same.
    rewrite decide_True by done. specialize (Hk y u' Hy Hu). rewrite <- Hk. lia.
  - rewrite occurs_none by done. rewrite placed_none; [done|rewrite length_app; cbn; lia| |done|].
    + by apply (ascii_snoc acc class).
    + intros ys _ Hp. apply Hout. rewrite Hs, <- app_assoc in Hp. apply Permutation_app_inv_l in Hp. rewrite <- Hp. left.
Qed.

Lemma members_out c y u : y ∉ c -> members c (y :: u) = members c u.
Proof. intros H. unfold members. by rewrite filter_cons, decide_False. Qed.

Lemma members_all c u : Forall (fun b => b ∈ c) u -> members c u = length u.
Proof.
  unfold members. induction 1 as [|b u Hb _ IH]; [done|]. rewrite filter_cons, decide_True by done. cbn [length]. by rewrite IH.
Qed.

(** Classes that have no character in common, then [m] slots of any character. *)
Lemma placed_weight classes combined m acc u :
  NoDup (mjoin classes) -> NoDup combined -> Forall ascii classes -> ascii combined -> ascii acc ->
  s ≡ₚ acc ++ u -> length u = length classes + m -> length acc + length u = len -> Forall (fun b => b ∈ combined) u ->
  placed (classes ++ replicate m combined) acc * arrangements u
  = arrangements s * (product ((fun c => members c u) <$> classes) * fact m).
Proof.
  intros Hnd Hnc Hcs Hcc. revert acc u. induction classes as [|c classes IH]; intros acc u Ha Hs Hlu Hlen Hall.
  - clear Hcs Hnd. cbn [fmap list_fmap product foldr app]. rewrite Nat.mul_1_l. cbn in Hlu. revert acc u Ha Hs Hlu Hlen Hall.
    induction m as [|m IHm]; intros acc u Ha Hs Hlu Hlen Hall.
    + apply nil_length_inv in Hlu as ->. rewrite app_nil_r in Hs. cbn in Hlen. cbn [replicate]. rewrite placed_nil by (done || lia).
      by rewrite decide_True by done.
    + cbn [replicate]. assert (Hf : fact (S m) = members combined u * fact m) by (rewrite members_all, Hlu by done; done).
      rewrite Hf. apply placed_step; [done|done|rewrite length_replicate; lia|done|constructor; [done|by apply Forall_replicate]|].
      intros y u' Hy Hu. pose proof (Permutation_length Hu) as Hul. cbn in Hul. apply IHm; [| |lia|rewrite length_app; cbn; lia|].
      * by apply (ascii_snoc acc combined).
      * by rewrite Hs, Hu, <- app_assoc.
      * rewrite Hu in Hall. by apply Forall_cons in Hall as [_ ?].
  - apply NoDup_app in Hnd as (Hc & Hdis & Hnd). pose proof Hcs as Hcs'. apply Forall_cons in Hcs as [Hca Hcs]. cbn [fmap list_fmap product foldr app].
    rewrite <- Nat.mul_assoc. cbn in Hlu.
    apply placed_step; [done|done|rewrite length_app, length_replicate; lia|done
      |apply (Forall_app_2 _ (c :: classes)); [done|by apply Forall_replicate]|].
    intros y u' Hy Hu. pose proof (Permutation_length Hu) as Hul. cbn in Hul.
    assert (Hm : (fun c' => members c' u) <$> classes = (fun c' => members c' u') <$> classes).
    { apply list_fmap_ext. intros i c' Hc'. rewrite Hu. apply members_out. intros Hy'. apply (Hdis y Hy).
      apply list_elem_of_join. exists c'. split; [done|]. by eapply list_elem_of_lookup_2. }
    unfold product in Hm |- *. rewrite Hm. apply IH; [done|done| | |lia|rewrite length_app; cbn; lia|].
    * by apply (ascii_snoc acc c).
    * by rewrite Hs, Hu, <- app_assoc.
    * rewrite Hu in Hall. by apply Forall_cons in Hall as [_ ?].
Qed.
End counting.

(** ** The policies *)

Lemma validate_Ok p :
  validate p = Ok tt -> (0 < enabled_class_count p <= pw_length p /\ 8 <= pw_length p <= 128)%Z.
Proof.
  unfold validate, PWGEN_LENGTH_MIN, PWGEN_LENGTH_MAX. destruct (Z.eqb_spec (enabled_class_count p) 0); [done|].
  destruct (Z.ltb_spec (pw_length p) 8); [done|]. destruct (Z.ltb_spec 128 (pw_length p)); [done|].
  destruct (Z.ltb_spec (pw_length p) (enabled_class_count p)); [done|]. intros _.
  unfold enabled_class_count in *. destruct (uppercase p), (lowercase p), (digits p), (symbols p); cbn in *; lia.
Qed.

(** No two classes share a character, and each has some. *)
Record alphabets_fine (p : PwgenPolicy) : Prop := mkFine {
  af_distinct : NoDup (alphabets p).2;
  af_ascii : ascii (alphabets p).2;
  af_sizes : Forall (fun c => 0 < length c) (alphabets p).1;
  af_small : Forall (fun c => length c <= 128) ((alphabets p).2 :: (alphabets p).1);
  af_union : (alphabets p).2 = mjoin (alphabets p).1;
  af_count : Z.of_nat (length (alphabets p).1) = enabled_class_count p
}.

Lemma alphabets_are_fine p : alphabets_fine p.
Proof.
  destruct p as [n u l d s e].
  split; [apply (bool_decide_unpack _)|unfold ascii; apply (bool_decide_unpack _)|apply (bool_decide_unpack _)|apply (bool_decide_unpack _)|done|];
    destruct u, l, d, s, e; vm_compute; (exact I || reflexivity).
Qed.

Lemma class_ascii p : Forall ascii (alphabets p).1.
Proof.
  destruct (alphabets_are_fine p) as [_ Ha _ _ Hu _]. rewrite Hu in Ha. unfold ascii in *. apply Forall_forall.
  intros c Hc. rewrite Forall_forall in Ha. apply Forall_forall. intros y Hy. apply Ha, list_elem_of_join. by exists c.
Qed.

Lemma generate_eq {Rng} (index : nat -> op Rng Stop nat) p st :
  validate p = Ok tt ->
  generate index p st = (seed_slots index (slot_classes p) [] ≫= finish index (Z.to_nat (pw_length p))) st.
Proof.
  intros Hv. unfold generate. rewrite op_bind_eq. unfold lift. rewrite Hv. unfold slot_classes. destruct (alphabets p) as [classes combined].
  cbn [fst snd]. set (n := Z.to_nat (pw_length p) - length classes).
  trans ((seed_slots index classes [] ≫= fun slots => seed_slots index (replicate n combined) slots ≫= finish index (Z.to_nat (pw_length p))) st).
  - rewrite !op_bind_eq. destruct (seed_slots index classes [] st) as [[slots|e] st'] eqn:Hs; [|done].
    assert (Hl : length slots = length classes) by (apply seed_length in Hs; exact Hs). rewrite Hl. fold n.
    rewrite !op_bind_eq, fill_seed. by destruct (seed_slots index (replicate n combined) slots st') as [[]].
  - rewrite op_bind_assoc, !op_bind_eq, <- seed_app, op_bind_eq. done.
Qed.

(** The number of draws that give a string. *)
Lemma ways_eq p s :
  validate p = Ok tt ->
  ways p s = (if decide (length s = Z.to_nat (pw_length p) /\ Forall (fun b => b ∈ (alphabets p).2) s)
              then product ((fun c => members c s) <$> (alphabets p).1) * fact (Z.to_nat (pw_length p) - length (alphabets p).1)
              else 0).
Proof.
  intros Hv. pose proof (validate_Ok p Hv) as [Hk Hlen]. destruct (alphabets_are_fine p) as [Hnd Ha Hsz Hsm Hu Hc].
  pose proof (class_ascii p) as Hca. set (len := Z.to_nat (pw_length p)) in *. set (m := len - length (alphabets p).1).
  assert (Hlm : len = length (alphabets p).1 + m) by lia.
  trans (placed len s (slot_classes p) []).
  { unfold ways, placed, draw_bounds. apply tally_ext. intros ds _. by rewrite generate_eq. }
  unfold slot_classes. fold len. fold m. destruct (decide _) as [[Hs Hall]|Hno].
  - pose proof (arrangements_pos s) as Hpos. apply (proj1 (Nat.mul_cancel_r _ _ (arrangements s) ltac:(lia))).
    rewrite (placed_weight len s _ _ m [] s); [apply Nat.mul_comm|by rewrite <- Hu|done|done|done|by constructor|done|lia|cbn; lia|done].
  - apply placed_none; [rewrite length_app, length_replicate; cbn [length]; lia|by constructor|apply Forall_app; split; [done|by apply Forall_replicate]|].
    intros ys Hys Hp. apply Hno. cbn [app] in Hp. rewrite <- Hp. pose proof (Forall2_length _ _ _ Hys) as Hl.
    rewrite length_app, length_replicate in Hl. split; [lia|]. rewrite Forall_forall. intros y Hy.
    apply list_elem_of_lookup in Hy as (i & Hi). destruct (Forall2_lookup_l _ _ _ _ _ Hys Hi) as (c & Hic & Hyc).
    apply list_elem_of_lookup_2, elem_of_app in Hic as [Hic|Hic].
    + rewrite Hu. apply list_elem_of_join. by exists c.
    + apply elem_of_replicate in Hic as [-> _]. done.
Qed.

(** ** The draws of the program *)

Lemma elem_of_all_draws ds bounds : ds ∈ all_draws bounds <-> Forall2 lt ds bounds.
Proof.
  revert ds. induction bounds as [|b bounds IH]; intros ds; cbn [all_draws].
  - rewrite list_elem_of_singleton. split; [intros ->; constructor|by inversion 1].
  - rewrite list_elem_of_bind. split.
    + intros (d & (ds' & -> & Hds)%list_elem_of_fmap & Hd%elem_of_seq). constructor; [lia|by apply IH].
    + inversion 1 as [|d ? ds' ? Hd Hds]; subst. exists d. split; [apply list_elem_of_fmap; exists ds'; split; [done|by apply IH]|].
      apply elem_of_seq. lia.
Qed.

Lemma NoDup_all_draws bounds : NoDup (all_draws bounds).
Proof.
  induction bounds as [|b bounds IH]; [apply NoDup_singleton|]. cbn [all_draws].
  assert (Hs : NoDup (seq 0 b)) by apply NoDup_seq. induction Hs as [|d l Hd _ IHl]; [constructor|]. rewrite bind_cons.
  apply NoDup_app. split_and!; [apply NoDup_fmap_2; [by intros ? ? [= ->]|done]| |done].
  intros ds (ds' & -> & _)%list_elem_of_fmap. rewrite list_elem_of_bind. intros (d' & (ds'' & [= <- _] & _)%list_elem_of_fmap & Hin). done.
Qed.

(** All draws of a run at once. *)
Fixpoint indices (bounds : list nat) : op (list Z) Stop (list nat) :=
  match bounds with
  | [] => mret []
  | b :: bounds => d ← uniform_index b; ds ← indices bounds; mret (d :: ds)
  end.

Lemma indices_cons b bounds bytes :
  indices (b :: bounds) bytes
  = match uniform_index b bytes with
    | (Ok d, bytes') => match indices bounds bytes' with (Ok ds, rest) => (Ok (d :: ds), rest) | (Err e, rest) => (Err e, rest) end
    | (Err e, bytes') => (Err e, bytes')
    end.
Proof.
  cbn [indices]. rewrite op_bind_eq. destruct (uniform_index b bytes) as [[d|e] bytes']; [|done]. rewrite op_bind_eq.
  by destruct (indices bounds bytes') as [[]].
Qed.

Lemma indices_app a b bytes :
  indices (a ++ b) bytes
  = match indices a bytes with
    | (Ok ds, bytes') => match indices b bytes' with (Ok ds', rest) => (Ok (ds ++ ds'), rest) | (Err e, rest) => (Err e, rest) end
    | (Err e, bytes') => (Err e, bytes')
    end.
Proof.
  revert bytes. induction a as [|n a IH]; intros bytes; [cbn; by destruct (indices b bytes) as [[]]|].
  rewrite <- app_comm_cons, !indices_cons. destruct (uniform_index n bytes) as [[d|e] bytes1]; [|done]. rewrite IH.
  destruct (indices a bytes1) as [[ds|e] bytes2]; [|done]. by destruct (indices b bytes2) as [[]].
Qed.

(** A run on bytes is a run on the indices it draws from them. *)
Definition sim {A} (Q : A -> Prop) (m : op (list Z) Stop A) (m' : op (list nat) Stop A) (bounds : list nat) : Prop :=
  forall bytes, match indices bounds bytes with
    | (Ok ds, rest) => Forall2 lt ds bounds
        /\ exists a, Q a /\ m bytes = (Ok a, rest) /\ forall r, m' (ds ++ r) = (Ok a, r)
    | (Err _, _) => (m bytes).1 = Err Starved
    end.

Lemma sim_bind {A B} (Q : A -> Prop) (R : B -> Prop) m m' f f' bounds bounds' :
  sim Q m m' bounds -> (forall a, Q a -> sim R (f a) (f' a) bounds') -> sim R (m ≫= f) (m' ≫= f') (bounds ++ bounds').
Proof.
  intros Hm Hf bytes. rewrite indices_app, op_bind_eq. specialize (Hm bytes).
  destruct (indices bounds bytes) as [[ds|e] bytes1]; [|destruct (m bytes) as [[a|e'] k]; [done|cbn in *; congruence]].
  destruct Hm as (Hds & a & Ha & -> & Hr). specialize (Hf a Ha bytes1). destruct (indices bounds' bytes1) as [[ds'|e] rest]; [|exact Hf].
  destruct Hf as (Hds' & b & Hb & -> & Hr'). split; [by apply Forall2_app|]. exists b. split_and!; [done..|].
  intros r. rewrite <- app_assoc, op_bind_eq, Hr. apply Hr'.
Qed.

Lemma sim_value {A} (Q : A -> Prop) (a : A) m m' : Q a -> (forall k, m k = (Ok a, k)) -> (forall ds, m' ds = (Ok a, ds)) -> sim Q m m' [].
Proof. intros Ha Hm Hm' bytes. cbn. split; [constructor|]. by exists a. Qed.

Lemma reject_run limit n bytes :
  0 < n -> match reject limit (Z.of_nat n) bytes with (Ok d, _) => d < n | (Err e, _) => e = Starved end.
Proof.
  intros Hn. induction bytes as [|v bytes IH]; [done|]. cbn [reject]. destruct (v <? limit)%Z; [|done].
  pose proof (Z.mod_pos_bound v (Z.of_nat n)). lia.
Qed.

Lemma sim_index n : 0 < n -> sim (fun d => d < n) (uniform_index n) (drawn n) [n].
Proof.
  intros Hn bytes. rewrite indices_cons. assert (H : match uniform_index n bytes with (Ok d, _) => d < n | (Err e, _) => e = Starved end).
  { unfold uniform_index. destruct (Nat.eqb_spec n 1); [cbn; lia|by apply reject_run]. }
  destruct (uniform_index n bytes) as [[d|e] rest]; [|by subst]. cbn. split; [by repeat constructor|]. by exists d.
Qed.

Lemma sim_pick class slots :
  0 < length class -> ascii class -> ascii slots ->
  sim (fun l => length l = S (length slots) /\ ascii l) (pick uniform_index class slots) (pick drawn class slots) [length class].
Proof.
  intros Hn Hc Hs. apply (sim_bind (fun d => d < length class) _ _ _ _ _ [_] []); [by apply sim_index|].
  intros d [b Hb]%lookup_lt_is_Some. apply (sim_value _ (slots ++ [b])); [|intros k; by rewrite op_bind_eq, Hb..].
  split; [rewrite length_app; cbn; lia|]. apply (ascii_snoc slots class); [done|done|]. by eapply list_elem_of_lookup_2.
Qed.

Lemma sim_weaken {A} (Q R : A -> Prop) m m' bounds : (forall a, Q a -> R a) -> sim Q m m' bounds -> sim R m m' bounds.
Proof.
  intros H Hm bytes. specialize (Hm bytes). destruct (indices bounds bytes) as [[ds|e] rest]; [|done].
  destruct Hm as (Hds & a & Ha & Hm). split; [done|]. exists a. split; [by apply H|done].
Qed.

Lemma sim_seed classes slots :
  Forall (fun c => 0 < length c) classes -> Forall ascii classes -> ascii slots ->
  sim (fun l => length l = length slots + length classes /\ ascii l) (seed_slots uniform_index classes slots)
    (seed_slots drawn classes slots) (length <$> classes).
Proof.
  revert slots. induction classes as [|c classes IH]; intros slots Hn Hc Hs; [apply (sim_value _ slots); [|done..]; by rewrite Nat.add_0_r|].
  apply Forall_cons in Hn as [Hn1 Hn]. apply Forall_cons in Hc as [Hc1 Hc]. cbn [seed_slots fmap list_fmap].
  eapply (sim_bind (fun l => length l = S (length slots) /\ ascii l) _ _ _ _ _ [_]); [by apply sim_pick|].
  intros l [Hl Ha]. eapply sim_weaken; [|by apply IH]. intros r [Hr Hra]. cbn [length]. split; [lia|done].
Qed.

Lemma sim_shuffle i slots :
  i <= length slots -> ascii slots ->
  sim ascii (shuffle uniform_index i slots) (shuffle drawn i slots) (shuffle_bounds i).
Proof.
  revert slots. induction i as [|[|n] IH]; intros slots Hi Ha; [by apply (sim_value _ slots)|by apply (sim_value _ slots)|].
  cbn [shuffle shuffle_bounds]. apply (sim_bind (fun j => j < S (S n)) _ _ _ _ _ [_]); [apply sim_index; lia|]. intros j Hj.
  apply (sim_bind (fun l => length l = length slots /\ ascii l) _ _ _ _ _ []); [|intros l [Hl Hla]; apply IH; [by lia|done]].
  apply (sim_value _ (swapped (S n) j slots)); [|intros k; unfold lift; by rewrite swap_run by lia..].
  split; [by rewrite length_swapped|]. apply ascii_swapped; [done|lia|lia].
Qed.

(** A run ends with a string or without enough bytes; the string is the one that the draws
    give. *)
Lemma generate_sim p :
  validate p = Ok tt -> sim (fun _ => True) (generate uniform_index p) (generate drawn p) (draw_bounds p).
Proof.
  intros Hv. pose proof (validate_Ok p Hv) as [Hk Hlen]. destruct (alphabets_are_fine p) as [Hnd Ha Hsz Hsm Hu Hc].
  assert (Hpos : 0 < length (alphabets p).2).
  { rewrite Hu. destruct Hsz as [|c cs H _]; [cbn in Hc; lia|]. cbn. rewrite length_app. lia. }
  set (len := Z.to_nat (pw_length p)) in *.
  assert (Hsim : sim (fun _ => True) (seed_slots uniform_index (slot_classes p) [] ≫= finish uniform_index len)
    (seed_slots drawn (slot_classes p) [] ≫= finish drawn len) (draw_bounds p)).
  { apply (sim_bind (fun l => length l = 0 + length (slot_classes p) /\ ascii l)).
    - apply (sim_seed (slot_classes p) []); [| |by constructor]; apply Forall_app; (split; [done || apply class_ascii|by apply Forall_replicate]).
    - intros l [Hl Hla]. unfold slot_classes in Hl. rewrite length_app, length_replicate in Hl. fold len in Hl. fold len.
      rewrite <- (app_nil_r (shuffle_bounds len)). apply (sim_bind ascii); [apply sim_shuffle; [lia|done]|].
      intros r Hr. rewrite utf8_ascii by done. by apply (sim_value _ r). }
  intros bytes. specialize (Hsim bytes). rewrite (generate_eq _ _ _ Hv). fold len.
  destruct (indices (draw_bounds p) bytes) as [[ds|e] rest]; [|exact Hsim]. destruct Hsim as (Hds & a & _ & Hm & Hr).
  split; [done|]. exists a. split_and!; [done..|]. intros r. rewrite (generate_eq _ _ _ Hv). apply Hr.
Qed.

(** *** Each draw equally often *)

(** The byte strings of length [L] from which given draws within the bounds are made. *)
Fixpoint rounds (hit miss : nat) (after : nat -> nat) (L : nat) : nat :=
  match L with O => 0 | S L => hit * after L + miss * rounds hit miss after L end.

Fixpoint chances (bounds : list nat) (L : nat) : nat :=
  match bounds with
  | [] => 256 ^ L
  | b :: bounds => if b =? 1 then chances bounds L else rounds (256 / b) (256 mod b) (chances bounds) L
  end.

Lemma sum_app {A} (f : A -> nat) l k : sum_list_with f (l ++ k) = sum_list_with f l + sum_list_with f k.
Proof. induction l as [|x l IH]; [done|]. cbn. rewrite IH. lia. Qed.

Lemma sum_swap {A B} (f : A -> B -> nat) l k :
  sum_list_with (fun x => sum_list_with (f x) k) l = sum_list_with (fun y => sum_list_with (fun x => f x y) l) k.
Proof.
  induction l as [|x l IH]; [by rewrite (sum_zero (fun _ => 0))|]. cbn [sum_list_with]. rewrite IH. clear IH.
  induction k as [|y k IH]; [done|]. cbn [sum_list_with]. lia.
Qed.

Lemma sum_const {A} (n : nat) (l : list A) : sum_list_with (fun _ => n) l = length l * n.
Proof. induction l as [|x l IH]; [done|]. cbn [sum_list_with length]. rewrite IH. lia. Qed.

(** A sum of which one term is not zero. *)
Lemma sum_pick {A} `{EqDecision A} (f : A -> nat) (x : A) l :
  NoDup l -> x ∈ l -> sum_list_with (fun y => if decide (x = y) then f y else 0) l = f x.
Proof.
  induction 1 as [|y l Hy _ IH]; [by intros ?%elem_of_nil|]. intros Hx. cbn [sum_list_with].
  destruct (decide (x = y)) as [->|Hne].
  - rewrite (sum_zero _ l); [lia|]. intros z Hz. rewrite decide_False by (by intros <-). done.
  - apply elem_of_cons in Hx as [|Hx]; [done|]. by rewrite IH.
Qed.

(** The residues of [q * b] numbers: each index comes [q] times. *)
Lemma sum_residues (g : nat -> nat) b q :
  sum_list_with (fun v => g (v mod b)) (seq 0 (q * b)) = q * sum_list_with g (seq 0 b).
Proof.
  destruct b as [|b]; [by rewrite Nat.mul_0_r; cbn; lia|]. induction q as [|q IH]; [done|].
  replace (S q * S b) with (q * S b + S b) by lia. rewrite seq_app, sum_app, IH. cbn [Nat.add].
  assert (H : sum_list_with (fun v => g (v mod S b)) (seq (q * S b) (S b)) = sum_list_with g (seq 0 (S b))); [|lia].
  rewrite <- (Nat.add_0_r (q * S b)), <- fmap_add_seq.
  assert (Hs : Forall (fun v => v < S b) (seq 0 (S b))) by (apply Forall_seq; lia).
  revert Hs. generalize (seq 0 (S b)). intros l. induction 1 as [|v l Hv _ IHl]; [done|]. cbn [fmap list_fmap sum_list_with].
  rewrite IHl. f_equal. f_equal. rewrite (Nat.add_comm (q * S b)), Nat.Div0.mod_add. by apply Nat.mod_small.
Qed.

Lemma tally_sum P bounds : tally P bounds = sum_list_with (fun ds => Nat.b2n (P ds)) (all_draws bounds).
Proof.
  unfold tally. induction (all_draws bounds) as [|ds l IH]; [done|]. rewrite filter_cons. cbn [sum_list_with].
  rewrite <- IH. by destruct (P ds).
Qed.

Lemma tally_true bounds : tally (fun _ => true) bounds = product bounds.
Proof. induction bounds as [|b bounds IH]; [done|]. rewrite tally_cons, IH, sum_const, length_seq. done. Qed.

Definition draws_to (bounds ds bs : list nat) : bool := 
  match indices bounds (Z.of_nat <$> bs) with (Ok ds', _) => bool_decide (ds' = ds) | _ => false end.

Lemma draws_to_one bounds ds bs : draws_to (1 :: bounds) (0 :: ds) bs = draws_to bounds ds bs.
Proof.
  unfold draws_to. rewrite indices_cons. cbn. destruct (indices bounds _) as [[ds'|e] rest]; [|done].
  apply bool_decide_ext. split; [by intros [= ->]|by intros ->].
Qed.

(** One byte: below the limit it is an index, otherwise another is drawn. *)
Lemma draws_to_byte b bounds d ds v bs :
  b <> 1 -> 0 < b <= 256 ->
  draws_to (b :: bounds) (d :: ds) (v :: bs)
  = if v <? 256 / b * b then bool_decide (v mod b = d) && draws_to bounds ds bs else draws_to (b :: bounds) (d :: ds) bs.
Proof.
  intros Hb Hb'. unfold draws_to. rewrite !indices_cons. unfold uniform_index. rewrite (proj2 (Nat.eqb_neq b 1)) by done.
  cbn [fmap list_fmap reject].
  assert (Hl : (256 - 256 mod Z.of_nat b = Z.of_nat (256 / b * b))%Z).
  { rewrite Nat2Z.inj_mul, Nat2Z.inj_div. pose proof (Z.div_mod 256 (Z.of_nat b)). lia. }
  rewrite Hl. destruct (Nat.ltb_spec v (256 / b * b)) as [Hv|Hv].
  - rewrite (proj2 (Z.ltb_lt _ _)) by lia. rewrite <- Nat2Z.inj_mod, Nat2Z.id.
    destruct (indices bounds (Z.of_nat <$> bs)) as [[ds'|e] rest]; cbn; [|symmetry; apply andb_false_r].
    rewrite <- bool_decide_and. apply bool_decide_ext. split; [by intros [= -> ->]|by intros [-> ->]].
  - by rewrite (proj2 (Z.ltb_ge _ _)) by lia.
Qed.

Lemma tally_draws bounds ds L :
  Forall (fun b => 0 < b <= 256) bounds -> Forall2 lt ds bounds ->
  tally (draws_to bounds ds) (replicate L 256) = chances bounds L.
Proof.
  intros Hb Hds. revert L. induction Hds as [|d b ds bounds Hd Hds IH]; intros L.
  { rewrite (tally_ext _ (fun _ => true)), tally_true by done. clear Hb. cbn [chances]. induction L as [|L IH]; [done|].
    cbn [replicate product foldr]. unfold product in IH. rewrite IH. by rewrite Nat.pow_succ_r'. }
  apply Forall_cons in Hb as [Hb1 Hb]. specialize (IH Hb). cbn [chances]. destruct (Nat.eqb_spec b 1) as [->|Hne].
  { assert (d = 0) as -> by lia. rewrite <- IH. apply tally_ext. intros bs _. apply draws_to_one. }
  induction L as [|L IHL].
  { rewrite tally_nil. unfold draws_to. rewrite indices_cons. unfold uniform_index. by rewrite (proj2 (Nat.eqb_neq b 1)). }
  change (replicate (S L) 256) with (256 :: replicate L 256). rewrite tally_cons. cbn [rounds].
  replace 256 with (256 / b * b + 256 mod b) at 1 by (rewrite Nat.mul_comm; symmetry; apply Nat.div_mod_eq).
  rewrite seq_app, sum_app. cbn [Nat.add]. f_equal.
  - set (g := fun r : nat => if decide (d = r) then chances bounds L else 0).
    trans (sum_list_with (fun v => g (v mod b)) (seq 0 (256 / b * b))).
    + apply sum_ext. intros v [_ Hv]%elem_of_seq. unfold g. rewrite <- IH. case_decide as E.
      * apply tally_ext. intros bs _. rewrite draws_to_byte by done. rewrite (proj2 (Nat.ltb_lt _ _)) by lia. by rewrite bool_decide_eq_true_2.
      * etrans; [|apply (tally_false (replicate L 256))]. apply tally_ext. intros bs _. rewrite draws_to_byte by done.
        rewrite (proj2 (Nat.ltb_lt _ _)) by lia. by rewrite bool_decide_eq_false_2 by congruence.
    + rewrite (sum_residues g). f_equal. unfold g. rewrite (sum_pick (fun _ => chances bounds L)); [done|apply NoDup_seq|apply elem_of_seq; lia].
  - rewrite <- IHL. trans (sum_list_with (fun _ => tally (draws_to (b :: bounds) (d :: ds)) (replicate L 256)) (seq (256 / b * b) (256 mod b))).
    + apply sum_ext. intros v [Hv _]%elem_of_seq. apply tally_ext. intros bs _. rewrite draws_to_byte by done.
      by rewrite (proj2 (Nat.ltb_ge _ _)) by lia.
    + by rewrite sum_const, length_seq.
Qed.

Lemma chances_pos bounds L : Forall (fun b => 0 < b <= 256) bounds -> length bounds <= L -> 0 < chances bounds L.
Proof.
  intros Hb. revert L. induction Hb as [|b bounds Hb1 _ IH]; intros L Hl; [apply Nat.neq_0_lt_0, Nat.pow_nonzero; lia|].
  cbn [chances length] in *. destruct (Nat.eqb_spec b 1); [apply IH; lia|]. destruct L as [|L]; [lia|]. cbn [rounds].
  assert (H : 0 < 256 / b) by (apply Nat.div_str_pos; lia). specialize (IH L ltac:(lia)). apply Nat.add_pos_l. by apply Nat.mul_pos_pos.
Qed.

Lemma shuffle_bounds_small i : Forall (fun b => 0 < b <= i) (shuffle_bounds i).
Proof.
  induction i as [|[|n] IH]; [constructor..|]. cbn [shuffle_bounds]. constructor; [lia|]. eapply Forall_impl; [exact IH|]. cbn. lia.
Qed.

Lemma draw_bounds_small p : validate p = Ok tt -> Forall (fun b => 0 < b <= 256) (draw_bounds p).
Proof.
  intros Hv. pose proof (validate_Ok p Hv) as [Hk Hlen]. destruct (alphabets_are_fine p) as [_ _ Hsz Hsm Hu Hc].
  apply Forall_cons in Hsm as [Hs1 Hsm].
  assert (Hpos : 0 < length (alphabets p).2).
  { rewrite Hu. destruct Hsz as [|c cs H _]; [cbn in Hc; lia|]. cbn. rewrite length_app. lia. }
  unfold draw_bounds, slot_classes. rewrite fmap_app, !Forall_app, !Forall_fmap. split_and!.
  - rewrite Forall_forall in *. intros c Hc'. specialize (Hsz c Hc'). specialize (Hsm c Hc').
    change (0 < length c <= 256). lia.
  - apply Forall_replicate. change (0 < length (alphabets p).2 <= 256). lia.
  - eapply Forall_impl; [apply shuffle_bounds_small|]. intros b Hb.
    change (0 < b <= Z.to_nat (pw_length p)) in Hb. lia.
Qed.

(** The byte strings that give [s] are, for each choice of draws that gives it, equally
    many. *)
Lemma outcomes_eq p L s : validate p = Ok tt -> outcomes p L s = ways p s * chances (draw_bounds p) L.
Proof.
  intros Hv. change (outcomes p L s) with (tally (fun bs => yields s (generate uniform_index p (Z.of_nat <$> bs))) (replicate L 256)).
  change (ways p s) with (tally (fun ds => gives s (generate drawn p ds)) (draw_bounds p)). rewrite !tally_sum.
  trans (sum_list_with (fun bs => sum_list_with (fun ds => Nat.b2n (gives s (generate drawn p ds)) * Nat.b2n (draws_to (draw_bounds p) ds bs))
    (all_draws (draw_bounds p))) (all_draws (replicate L 256))).
  - apply sum_ext. intros bs _. pose proof (generate_sim p Hv (Z.of_nat <$> bs)) as Hs. unfold draws_to.
    destruct (indices (draw_bounds p) (Z.of_nat <$> bs)) as [[ds0|e] rest].
    + destruct Hs as (Hds & a & _ & -> & Hr). specialize (Hr []). rewrite app_nil_r in Hr. cbn [fst].
      trans (sum_list_with (fun ds => if decide (ds0 = ds) then Nat.b2n (gives s (generate drawn p ds)) else 0) (all_draws (draw_bounds p))).
      * rewrite (sum_pick (fun ds => Nat.b2n (gives s (generate drawn p ds)))); [by rewrite Hr|apply NoDup_all_draws|by apply elem_of_all_draws].
      * apply sum_ext. intros ds _. case_decide as E; [subst; rewrite bool_decide_eq_true_2 by done; cbn; lia|].
        rewrite bool_decide_eq_false_2 by done. cbn. lia.
    + destruct (generate uniform_index p _) as [[a|e'] k]; [discriminate Hs|]. cbn. symmetry. apply sum_zero. intros ds _. lia.
  - rewrite sum_swap, <- sum_mul. apply sum_ext. intros ds Hds. rewrite <- (tally_draws _ ds) by (by apply draw_bounds_small || by apply elem_of_all_draws).
    rewrite tally_sum, (Nat.mul_comm (Nat.b2n _)), <- sum_mul. apply sum_ext. intros bs _. lia.
Qed.

Lemma index_outcomes_eq n L d : d < n <= 256 -> index_outcomes n L d = chances [n] L.
Proof.
  intros Hn. rewrite <- (tally_draws [n] [d]) by first [apply Forall_singleton; lia|apply Forall2_cons; split; [lia|constructor]]. unfold index_outcomes, tally. f_equal. apply list_filter_iff.
  intros bs. unfold draws_to. rewrite indices_cons. destruct (uniform_index n _) as [[d'|e] rest]; [|done].
  cbn. rewrite bool_decide_eq_true, Nat.eqb_eq. split; [by intros ->|by intros [= ->]].
Qed.

(** Bytes below 128 are below every limit. *)
Lemma indices_live bounds bytes :
  Forall (fun b => 0 < b <= 256) bounds -> length bounds <= length (filter (fun v => (v < 128)%Z) bytes) ->
  is_ok (indices bounds bytes).1 = true.
Proof.
  intros Hb. revert bytes. induction Hb as [|b bounds Hb1 _ IH]; intros bytes Hl; [done|]. rewrite indices_cons. unfold uniform_index.
  destruct (Nat.eqb_spec b 1) as [|Hne].
  { cbn [mret op_ret length] in *. specialize (IH bytes ltac:(lia)). cbn. by destruct (indices bounds bytes) as [[]]. }
  assert (Hlim : (128 <= 256 - 256 mod Z.of_nat b)%Z).
  { destruct (decide (b <= 128)); [pose proof (Z.mod_pos_bound 256 (Z.of_nat b)); lia|]. destruct (decide (b = 256)) as [->|]; [done|].
    rewrite <- (Z.mod_unique_pos 256 (Z.of_nat b) 1 (256 - Z.of_nat b)); lia. }
  generalize dependent (256 - 256 mod Z.of_nat b)%Z. intros limit Hlim. cbn [length] in Hl.
  induction bytes as [|v bytes IHb]; [cbn in Hl; lia|]. cbn [reject]. rewrite filter_cons in Hl. destruct (Z.ltb_spec v limit) as [Hv|Hv].
  - assert (Hl' : length bounds <= length (filter (fun v => (v < 128)%Z) bytes)) by (case_decide; cbn in Hl; lia).
    specialize (IH bytes Hl'). by destruct (indices bounds bytes) as [[]].
  - apply IHb. rewrite decide_False in Hl by lia. done.
Qed.

Lemma ways_drawn p s ds : ds ∈ all_draws (draw_bounds p) -> generate drawn p ds = (Ok s, []) -> 0 < ways p s.
Proof.
  intros Hds Hr. unfold ways. assert (Hin : ds ∈ filter (fun ds => gives s (generate drawn p ds) = true) (all_draws (draw_bounds p))).
  { apply list_elem_of_filter. split; [|done]. rewrite Hr. cbn. by apply bool_decide_eq_true_2. }
  destruct (filter _ _); [by apply elem_of_nil in Hin|cbn; lia].
Qed.

(** C28. What the generator returns, and how often.  Under a policy that [validate]
    accepts, the number of draws within their bounds that give [s] is the factorial of the
    slots that are not seeded times, for each class, the number of characters of [s] in
    it, when [s] has the length and the alphabet of the policy, and zero otherwise: a
    string without some class never comes, and the others come with these weights, not
    equally often.  The bytes it draws its indices from add no bias of their own: among
    the byte strings of any length those that give [s] are proportional to that weight,
    with some that do once there is a byte for each draw, and an index is drawn from
    equally many whatever it is.  A run on random bytes returns only strings with a
    positive weight, and it returns one as soon as as many of them as there are draws are
    below 128. *)
Theorem generate_weights p :
  validate p = Ok tt ->
  (forall s, ways p s =
     if decide (length s = Z.to_nat (pw_length p) /\ Forall (fun b => b ∈ (alphabets p).2) s)
     then product ((fun c => members c s) <$> (alphabets p).1) * fact (Z.to_nat (pw_length p) - length (alphabets p).1)
     else 0)
  /\ (forall L, exists c, (length (draw_bounds p) <= L -> 0 < c) /\ forall s, outcomes p L s = ways p s * c)
  /\ (forall n L, n <= 256 -> exists c, (0 < n -> 0 < L -> 0 < c) /\ forall d, d < n -> index_outcomes n L d = c)
  /\ (forall bytes s rest, generate uniform_index p bytes = (Ok s, rest) -> 0 < ways p s)
  /\ (forall bytes, length (draw_bounds p) <= length (filter (fun v => (v < 128)%Z) bytes) ->
        is_ok (generate uniform_index p bytes).1 = true).
Proof.
  intros Hv. pose proof (draw_bounds_small p Hv) as Hb. split_and!; [by intros s; apply ways_eq| | | |].
  - intros L. exists (chances (draw_bounds p) L). split; [by apply chances_pos|]. intros s. by apply outcomes_eq.
  - intros n L Hn. exists (chances [n] L). split; [|intros d Hd; apply index_outcomes_eq; lia].
    intros Hn' HL. apply chances_pos; [apply Forall_singleton; lia|cbn; lia].
  - intros bytes s rest Hr. pose proof (generate_sim p Hv bytes) as Hs. rewrite Hr in Hs.
    destruct (indices (draw_bounds p) bytes) as [[ds|e] rest']; [|discriminate Hs].
    destruct Hs as (Hds & a & _ & [= <- <-] & Hd). specialize (Hd []). rewrite app_nil_r in Hd.
    apply (ways_drawn p s ds); [by apply elem_of_all_draws|done].
  - intros bytes Hl. pose proof (generate_sim p Hv bytes) as Hs. pose proof (indices_live _ bytes Hb Hl) as Hi.
    destruct (indices (draw_bounds p) bytes) as [[ds|e] rest']; [|discriminate Hi]. by destruct Hs as (_ & a & _ & -> & _).
Qed.

(** So a generated password has the length and the alphabet of the policy and a character
    of each class. *)
Lemma generate_exact p bytes s rest :
  generate uniform_index p bytes = (Ok s, rest) ->
  length s = Z.to_nat (pw_length p) /\ Forall (fun b => b ∈ (alphabets p).2) s
  /\ Forall (fun c => exists b, b ∈ c /\ b ∈ s) (alphabets p).1.
Proof.
  intros Hr. destruct (validate p) as [[]|e] eqn:Hv; [|unfold generate in Hr; rewrite op_bind_eq in Hr; unfold lift in Hr; by rewrite Hv in Hr].
  pose proof (generate_sim p Hv bytes) as Hs. rewrite Hr in Hs. destruct (indices (draw_bounds p) bytes) as [[ds|e] rest']; [|discriminate Hs].
  destruct Hs as (Hds & a & _ & [= <- <-] & Hd). specialize (Hd []).
  rewrite app_nil_r in Hd. pose proof (ways_drawn p s ds ltac:(by apply elem_of_all_draws) Hd) as Hw. rewrite ways_eq in Hw by done.
  destruct (decide _) as [[Hl Ha]|]; [|lia]. split_and!; [done|done|]. revert Hw. generalize (fact (Z.to_nat (pw_length p) - length (alphabets p).1)).
  intros f. generalize (alphabets p).1. intros cs. induction cs as [|c cs IH]; intros Hw; constructor.
  - cbn in Hw. assert (Hm : 0 < members c s) by (apply Nat.neq_0_lt_0; intros E; rewrite E in Hw; cbn in Hw; lia). unfold members in Hm.
    destruct (filter _ s) as [|b l] eqn:Hf; [cbn in Hm; lia|]. assert (Hb : b ∈ filter (fun b => b ∈ c) s) by (rewrite Hf; left).
    apply list_elem_of_filter in Hb as [? ?]. by exists b.
  - apply IH. apply Nat.neq_0_lt_0. intros E. apply Nat.eq_mul_0 in E. cbn in Hw. unfold product in E. destruct E as [E|E]; rewrite E in Hw; lia.
Qed.

(** ** Examples *)

Module PwgenSample.

(** Two passwords of the default policy: one with four characters of each class, one with
    thirteen capitals.  The first comes about twenty times as often. *)
Definition balanced : list Z := bytes_of "ABCDabcd2345!%&?".
Definition skewed : list Z := bytes_of "ABCDEFGHJKLMNa2!".

Lemma generate_not_uniform : ways default_policy balanced = 256 * fact 12 /\ ways default_policy skewed = 13 * fact 12.
Proof.
  assert (Hs : forall s, bool_decide (length s = 16 /\ Forall (fun b => b ∈ (alphabets default_policy).2) s) = true ->
    ways default_policy s = product ((fun c => members c s) <$> (alphabets default_policy).1) * fact 12).
  { intros s Hb%bool_decide_eq_true_1. rewrite ways_eq by done. by rewrite (decide_True (P := length s = 16 /\ _)). }
  split; rewrite Hs by (vm_compute; reflexivity); f_equal; vm_compute; reflexivity.
Qed.

(** Bytes that count up by seven. *)
Definition counting_bytes : list Z := (fun k => Z.of_nat k * 7 mod 256)%Z <$> seq 0 256.

Example sample_password :
  match generate uniform_index default_policy counting_bytes with
  | (Ok s, _) => length s = 16 /\ forallb (fun c => 0 <? members c s) (alphabets default_policy).1 = true
  | _ => False
  end.
Proof. vm_compute. split; reflexivity. Qed.

(** An index below three comes from 85 bytes, whichever it is; one byte is refused. *)
Example sample_indices : index_outcomes 3 1 <$> [0; 1; 2] = [85; 85; 85].
Proof. vm_compute. reflexivity. Qed.

Example sample_refusals :
  validate (mkPolicy 16 false false false false true) = Err PasswordPolicy
  /\ validate (mkPolicy 7 true true true true true) = Err PasswordPolicy
  /\ validate (mkPolicy 129 true true true true true) = Err PasswordPolicy
  /\ validate (mkPolicy 8 true true true true false) = Ok tt.
Proof. vm_compute. split_and!; reflexivity. Qed.

Example sample_alphabet_sizes : alphabet_size default_policy = 88 /\ alphabet_size (mkPolicy 8 true true true true false) = 94 /\ length SYMBOLS = 32.
Proof. vm_compute. split_and!; reflexivity. Qed.

Lemma generate_weights_witness :
  validate default_policy = Ok tt
  /\ (exists s rest, generate uniform_index default_policy counting_bytes = (Ok s, rest) /\ 0 < ways default_policy s)
  /\ exists c, 0 < c /\ outcomes default_policy 31 balanced = ways default_policy balanced * c
       /\ outcomes default_policy 31 skewed = ways default_policy skewed * c.
Proof.
  split; [reflexivity|]. destruct (generate_weights default_policy eq_refl) as (_ & Hout & _ & Hpos & _). split.
  - destruct (generate uniform_index default_policy counting_bytes) as [[s|e] rest] eqn:Hr; [|vm_compute in Hr; discriminate Hr].
    exists s, rest. split; [reflexivity|]. exact (Hpos counting_bytes s rest Hr).
  - destruct (Hout 31) as (c & Hc & Hs). exists c. split; [|split; apply Hs]. apply Hc. apply Nat.leb_le. vm_compute. reflexivity.
Defined.
End PwgenSample.
